(* ===== verification/_CoqProject ===== *)
-Q . S2P
Prelude.v
Intset.v
Glob.v
NumConv.v
ListpackEnc.v
Listpack.v
ListpackOps.v
ListpackEdit.v
ListpackCheck.v
Lzf.v
Quicklist.v
QuicklistSpec.v
QuicklistComp.v
QuicklistNode.v
QuicklistPush.v
QuicklistDel.v
QuicklistSeek.v
QuicklistRange.v
QuicklistIter.v
QuicklistMerge.v
QuicklistSplit.v
QuicklistInsert.v
QuicklistReplace.v
QuicklistRun.v
QuicklistCopy.v
ListType.v
ListSpec.v
ListIter.v
Dict.v
DictSpec.v
DictMap.v
DictScan.v
DictIter.v
Keyspace.v
KeyspaceSpec.v
KeyspaceSet.v
StrType.v
ListCmd.v
ListLoop.v
ListAbs.v
ListStep.v
ListCmdSpec.v
ListEffect.v
StrCmd.v
StrAbs.v
StrStep.v
StrCmdSpec.v
Lcs.v
LcsCmd.v
StrEffect.v
Skiplist.v
SkiplistSpec.v
SkiplistInv.v
SkiplistEdit.v
SkiplistDelete.v
SkiplistApi.v
SkiplistRange.v
Zset.v
ZsetSpec.v
ZsetRange.v
ListRun.v
StrRun.v
CmdRun.v
StrLaws.v
KeyspaceExpire.v
SetType.v
SetSpec.v
SetRun.v
Shop.v
ShopSpec.v
ShopDb.v
ShopRun.v
ShopLife.v
Customers.v
