(* ===== verification/Prelude.v ===== *)
(** * A verification development of the Redis 7.2.4 data structures and of the
      shop that runs on Redis

    The repository has two programs.  [src/redis-7.2.4/] is the source of the
    Redis server, whose data types are built from a few self-contained data
    structures written in C.  The other directories of [src/] are a shop in
    JavaScript (Express handlers, Sequelize models and hooks, Bull jobs), which
    keeps its tables in PostgreSQL and its cache and job queue in Redis.  The
    development models the data structures at the level of their bytes and
    pointers, the data types that compose them, and the handlers of the shop.

    ** Conventions

    A C function is a Rocq function with the same name.  Integers are in [Z];
    arithmetic that can leave the width of its C type is wrapped where the code
    wraps it ([uwrap], [swrap]: [u8] to [u64], [s8] to [s64]).  Memory that is
    accessed by offset is the list of its bytes ([rd], [wr], [memmove],
    [realloc]); nodes that are linked by pointers are in a heap, a finite map
    from addresses.  [None] is always undefined behaviour, a failed assertion
    or a null pointer that the code does not check, so every theorem that an
    operation returns [Some] is also a theorem of memory safety.  What the code
    gets from outside (results of [random()], contents of uninitialised
    memory, sizes chosen by the allocator, hash functions, the address of a
    buffer) is a parameter, and the theorems hold for all its values.

    Loops are [Fixpoint]s.  Where the recursion is not structural they have
    fuel, which is a bound that the state gives (the number of bytes, of heap
    cells, of buckets); the theorems show that the functions return, so the
    fuel is always enough.  The random levels of a skip list are the only
    loop whose length is chosen from outside; its fuel is the list of random
    numbers.

    ** The data structures of Redis

    - Intset.v: [intset.c].  A packed sorted array of integers that is widened
      on demand.  Search, addition and removal refine a sorted list without
      duplicates; validation accepts only what can be read.
    - Glob.v: [stringmatchlen] of [util.c].  The matcher is equivalent to an
      inductive definition of what a pattern matches.
    - NumConv.v: the conversions of integers of [util.c].  [string2ll] accepts
      exactly the canonical decimal strings in range and inverts [ll2string].
    - ListpackEnc.v, Listpack.v, ListpackOps.v, ListpackEdit.v,
      ListpackCheck.v: [listpack.c].  Entries are decoded as they were encoded,
      from both sides; the operations refine lists of elements; validation of
      arbitrary bytes is safe and what it accepts can be traversed.
    - Lzf.v: [lzf_c.c], [lzf_d.c].  Decompression inverts compression, for every
      initial hash table; decompression of arbitrary bytes is safe.
    - Dict.v, DictSpec.v, DictMap.v, DictScan.v, DictIter.v: [dict.c].  Hash
      tables with incremental rehashing refine finite maps; a scan whose calls
      are interleaved with any changes returns every key that stays; scans and
      rehashing end; an iterator returns every entry once.
    - Skiplist.v, SkiplistSpec.v, SkiplistInv.v, SkiplistEdit.v,
      SkiplistDelete.v, SkiplistApi.v, SkiplistRange.v: the skip lists of
      [t_zset.c].  With forward pointers, spans, backward pointers and random
      heights they refine sorted sequences.
    - Quicklist.v: [quicklist.c].  Nodes on a heap with their [prev] and [next]
      pointers, listpacks or plain strings in them, inner nodes compressed
      with LZF, iterators, bookmarks, merges and splits of nodes.
      QuicklistSpec.v, QuicklistComp.v, QuicklistNode.v relate a heap to a
      list of nodes and of strings and keep the compression depth;
      QuicklistPush.v, QuicklistDel.v, QuicklistSeek.v, QuicklistRange.v,
      QuicklistIter.v, QuicklistMerge.v, QuicklistSplit.v, QuicklistInsert.v,
      QuicklistReplace.v, QuicklistCopy.v have the lemmas of each operation.
      QuicklistRun.v: every run of the operations refines a list of strings,
      for all fill factors, depths and thresholds, and keeps the structure
      well formed.

    ** The data types

    - Zset.v, ZsetSpec.v, ZsetRange.v: sorted sets compose a dictionary and a
      skip list that share their nodes; every run of the operations refines a
      finite map from elements to scores.
    - SetType.v, SetSpec.v, SetRun.v: sets compose intsets, listpacks and
      dictionaries and convert between them; every run refines a finite set of
      strings, in all configurations.
    - ListType.v, ListSpec.v, ListIter.v: the list API of [t_list.c] composes
      listpacks and quicklists, converts between them and iterates over both;
      each function refines one on lists of strings.
    - Keyspace.v, KeyspaceSpec.v: a database of [db.c], two dictionaries and
      a heap of objects, with lookups that expire keys, additions and
      deletions.  Commands are computations in a monad over this world, in
      which replies, notifications, signals and propagated commands are
      recorded in order.  The class [Content] is what the keyspace asks of
      the values of objects; the rules ([*_runs]) relate a computation to one
      on an abstract keyspace, a finite map from keys to contents and times.
      KeyspaceSet.v has the rules of [setKey] and of the replacement of
      values.  KeyspaceExpire.v: a key is found until its time to expire.
    - ListCmd.v: all list commands.  ListLoop.v has their loops on lists,
      ListAbs.v the commands on the abstract keyspace, ListStep.v the rules
      that compose refinements, ListCmdSpec.v the refinement of each command,
      ListEffect.v what a command can change, and ListRun.v is the command
      table with the check of the arity.
    - StrType.v: the encodings of string objects ([object.c]).  StrCmd.v: the
      string commands of [t_string.c].  StrAbs.v has them on the abstract
      keyspace, where a string is the list of its bytes, StrStep.v the rules
      for strings, StrCmdSpec.v the refinement of each command, StrEffect.v
      what a command can change, and StrRun.v is the command table.
    - Lcs.v: the table and the walk of the command LCS, with 32-bit indexes
      and cells that are not initialised; the result is a longest common
      subsequence.  LcsCmd.v: the command.
    - CmdRun.v: every sequence of list and string commands refines the
      abstract one, never fails, leaves a well-typed database, and signals
      what it changes; a list command leaves keys of other types alone.  The
      limits are in [within]: less than 2^59 keys, strings of less than 2^62
      bytes, lists of less than 512 MB, and some extreme numbers in
      arguments.  StrLaws.v: what GET returns after SET, and exact counters.

    The theorems about a data type use only the lemmas of the structures it is
    composed of ([*_spec], [*_ok]); [Dict.DictLaws] is the interface that a
    dictionary asks of its key type, [Allocator] that of a structure to
    [zmalloc.c].

    ** The shop

    - Shop.v: the handlers of the order routes ([controllers/]), the hooks of
      orders and order items ([hooks/]), the jobs and their processors
      ([bull/]), as computations that change the world also when they throw.
      Sequelize, the Redis client and Bull are classes with laws.
    - ShopSpec.v, ShopRun.v: over every sequence of requests and jobs the units
      of a product are conserved, and the order cache never shows an outdated
      order.
    - ShopDb.v: instances that satisfy the laws.
    - ShopLife.v: an accepted order is delivered; what a request that fails
      leaves behind; what the handlers get wrong.
    - Customers.v: registration, login and the check of tokens.

    ** Not modelled

    The event loop, networking, persistence, replication, the cluster, the
    modules and Lua interfaces and the client programs are input and output,
    and protocols between processes.  The allocator, jemalloc, Lua and the
    other libraries in [deps/] are only called.  The listpack encoding of
    sorted sets and the timeouts of blocking commands need conversions between
    floating point numbers and decimal strings.  Of a blocked client only the
    event that it blocks is modelled, not how [blocked.c] wakes it, and of the
    keyspace neither the commands of [db.c] nor eviction.  INCRBYFLOAT
    computes with long doubles.  Hashes and streams are not modelled; nothing
    of them prevents it, and the keyspace is made for their values too.  The
    handlers of products pass requests on to Sequelize and Elasticsearch, and
    the validators are declarations for express-validator.  The manifest lists
    every part with its status. *)

From stdpp Require Export base tactics list numbers option sorting.
From Stdlib Require Export ZArith Lia ZifyBool.

#[export] Set Default Proof Using "Type".

Open Scope Z_scope.

(** ** Machine integers *)

(** A value of a [w]-bit unsigned C type after reduction. *)
Definition uwrap (w : Z) (z : Z) : Z := z mod 2 ^ w.

(** A value of a [w]-bit two's complement C type after conversion. *)
Definition swrap (w : Z) (z : Z) : Z := (z + 2 ^ (w - 1)) mod 2 ^ w - 2 ^ (w - 1).

Abbreviation u8 := (uwrap 8).
Abbreviation u16 := (uwrap 16).
Abbreviation u32 := (uwrap 32).
Abbreviation u64 := (uwrap 64).
Abbreviation s8 := (swrap 8).
Abbreviation s16 := (swrap 16).
Abbreviation s32 := (swrap 32).
Abbreviation s64 := (swrap 64).

Abbreviation INT16_MIN := (-32768).
Abbreviation INT16_MAX := 32767.
Abbreviation INT32_MIN := (-2147483648).
Abbreviation INT32_MAX := 2147483647.
Abbreviation LLONG_MIN := (-9223372036854775808).
Abbreviation LLONG_MAX := 9223372036854775807.
Abbreviation ULLONG_MAX := 18446744073709551615.

(** The length of a list as an integer. *)
Abbreviation Zlen l := (Z.of_nat (length l)).

Lemma Zlen_app {A} (a b : list A) : Zlen (a ++ b) = Zlen a + Zlen b.
Proof. rewrite length_app. lia. Qed.

Lemma uwrap_range w z : 0 <= w -> 0 <= uwrap w z < 2 ^ w.
Proof. intros. apply Z.mod_pos_bound. lia. Qed.

Lemma uwrap_small w z : 0 <= z < 2 ^ w -> uwrap w z = z.
Proof. apply Z.mod_small. Qed.

Lemma swrap_small w z :
  0 < w -> - 2 ^ (w - 1) <= z < 2 ^ (w - 1) -> swrap w z = z.
Proof.
  intros Hw Hz. unfold swrap.
  assert (2 ^ w = 2 * 2 ^ (w - 1)) by (rewrite <- Z.pow_succ_r by lia; f_equal; lia).
  rewrite Z.mod_small; lia.
Qed.

Lemma swrap_range w z :
  0 < w -> - 2 ^ (w - 1) <= swrap w z < 2 ^ (w - 1).
Proof.
  intros Hw. unfold swrap.
  assert (2 ^ w = 2 * 2 ^ (w - 1)) by (rewrite <- Z.pow_succ_r by lia; f_equal; lia).
  pose proof (Z.mod_pos_bound (z + 2 ^ (w - 1)) (2 ^ w)). lia.
Qed.

(** Converting to an unsigned type and back to the signed type of the same
    width gives the signed value again. *)
Lemma swrap_uwrap w z : 0 < w -> swrap w (uwrap w z) = swrap w z.
Proof. intros. unfold swrap, uwrap. by rewrite Zplus_mod_idemp_l. Qed.

Lemma uwrap_add_r w a b : 0 <= w -> uwrap w (a + uwrap w b) = uwrap w (a + b).
Proof. intros. unfold uwrap. apply Z.add_mod_idemp_r. pose proof (Z.pow_pos_nonneg 2 w). lia. Qed.

Lemma uwrap_idemp w z : uwrap w (uwrap w z) = uwrap w z.
Proof. unfold uwrap. apply Zmod_mod. Qed.

(** [wrap_id] removes the conversions that lia shows to be in range. *)
Ltac wrap_id :=
  repeat match goal with
  | |- context [uwrap ?w ?z] => rewrite (uwrap_small w z) by lia
  | |- context [swrap ?w ?z] => rewrite (swrap_small w z) by lia
  | H : context [uwrap ?w ?z] |- _ => rewrite (uwrap_small w z) in H by lia
  | H : context [swrap ?w ?z] |- _ => rewrite (swrap_small w z) in H by lia
  end.

(** [zbool] turns the integer comparisons of the code into propositions. *)
Ltac zbool :=
  repeat match goal with
  | H : (_ =? _) = true |- _ => apply Z.eqb_eq in H
  | H : (_ =? _) = false |- _ => apply Z.eqb_neq in H
  | H : (_ <? _) = true |- _ => apply Z.ltb_lt in H
  | H : (_ <? _) = false |- _ => apply Z.ltb_ge in H
  | H : (_ <=? _) = true |- _ => apply Z.leb_le in H
  | H : (_ <=? _) = false |- _ => apply Z.leb_gt in H
  | H : (_ && _) = true |- _ => apply andb_prop in H; destruct H
  | H : (_ && _) = false |- _ => apply andb_false_iff in H
  | H : (_ || _) = false |- _ => apply orb_false_elim in H; destruct H
  | H : (_ || _) = true |- _ => apply orb_prop in H
  | H : negb _ = true |- _ => apply negb_true_iff in H
  | H : negb _ = false |- _ => apply negb_false_iff in H
  end.

(** [zcase] splits on the integer comparison the goal is stuck on. *)
Ltac zcase :=
  match goal with
  | |- context [?a =? ?b] => destruct (Z.eqb_spec a b)
  | |- context [?a <? ?b] => destruct (Z.ltb_spec a b)
  | |- context [?a <=? ?b] => destruct (Z.leb_spec a b)
  end.

(** ** Byte buffers

    A C object is a list of bytes, each an integer of [0, 256).  A read or a
    write outside the object is [None]: theorems that a function returns
    [Some] say that every access of it is in bounds. *)

Definition is_byte (b : Z) : Prop := 0 <= b < 256.
Abbreviation bytes_ok := (Forall is_byte).

#[export] Instance is_byte_dec b : Decision (is_byte b).
Proof. unfold is_byte. apply _. Defined.

(** [by_compute] decides a closed decidable proposition by evaluation. *)
Ltac by_compute := apply (bool_decide_unpack _); vm_compute; exact I.

(** [memcpy(dst, buf+off, n)]: the [n] bytes at [off]. *)
Definition rd (buf : list Z) (off n : Z) : option (list Z) :=
  if (0 <=? off) && (0 <=? n) && (off + n <=? Zlen buf)
  then Some (take (Z.to_nat n) (drop (Z.to_nat off) buf))
  else None.

(** [memcpy(buf+off, bs, |bs|)]. *)
Definition wr (buf : list Z) (off : Z) (bs : list Z) : option (list Z) :=
  if (0 <=? off) && (off + Zlen bs <=? Zlen buf)
  then Some (take (Z.to_nat off) buf ++ bs ++ drop (Z.to_nat off + length bs) buf)
  else None.

(** One byte. *)
Definition rd1 (buf : list Z) (off : Z) : option Z :=
  if 0 <=? off then buf !! Z.to_nat off else None.

Definition wr1 (buf : list Z) (off b : Z) : option (list Z) := wr buf off [b].

(** [memmove(buf+dst, buf+src, n)] inside one object. *)
Definition memmove (buf : list Z) (dst src n : Z) : option (list Z) :=
  bs ← rd buf src n; wr buf dst bs.

(** [realloc]: the first bytes are kept, what a larger object has beyond
    them is unspecified, given by [junk]. *)
Definition realloc (junk : nat -> list Z) (buf : list Z) (n : Z) : list Z :=
  take (Z.to_nat n) (buf ++ resize (Z.to_nat n - length buf) 0
                            (junk (Z.to_nat n - length buf)%nat)).

(** [assert]: nothing is returned when the condition fails. *)
Definition assertb (b : bool) : option unit := if b then Some tt else None.

(** What the allocator of zmalloc.c, a wrapper of the C library's, promises
    to its callers: an object has at least the requested size, the callers
    may use all of it, and the process is aborted rather than [NULL] returned
    when there is no memory.  The contents of new memory is unspecified. *)
Class Allocator := {
  usable : Z -> Z;
  junk : nat -> list Z;
  usable_ge n : n <= usable n;
}.

(** An allocator of exact sizes, and one that rounds up to 16 bytes. *)
#[export] Instance alloc_exact : Allocator :=
  {| usable := fun n => n; junk := fun n => replicate n 0; usable_ge := Z.le_refl |}.

Lemma round16_ge n : n <= (n + 15) / 16 * 16.
Proof. Z.div_mod_to_equations; lia. Qed.

Definition alloc_16 : Allocator :=
  {| usable := fun n => (n + 15) / 16 * 16; junk := fun n => replicate n 170;
     usable_ge := round16_ge |}.

Lemma rd_app a b c off n :
  off = Zlen a -> n = Zlen b -> rd (a ++ b ++ c) off n = Some b.
Proof.
  intros -> ->. unfold rd. rewrite !length_app.
  destruct (_ && _) eqn:E; [|lia].
  by rewrite !Nat2Z.id, drop_app_length, take_app_length.
Qed.

Lemma wr_app a b b' c off :
  off = Zlen a -> length b' = length b ->
  wr (a ++ b ++ c) off b' = Some (a ++ b' ++ c).
Proof.
  intros -> Hb. unfold wr. rewrite !length_app, Hb.
  destruct (_ && _) eqn:E; [|lia].
  rewrite !Nat2Z.id, take_app_length. do 3 f_equal.
  rewrite (app_assoc a b c), drop_app_length'; [done|]. by rewrite length_app.
Qed.

Lemma wr_tail a t bs p :
  p = Zlen a -> Zlen bs <= Zlen t -> exists t', wr (a ++ t) p bs = Some (a ++ bs ++ t').
Proof.
  intros -> Hl. exists (drop (length bs) t). rewrite <- (take_drop (length bs) t) at 1.
  apply wr_app; [done|]. rewrite length_take. lia.
Qed.

Lemma rd_length buf off n bs : rd buf off n = Some bs -> Zlen bs = n.
Proof.
  unfold rd. destruct (_ && _) eqn:E; [|done]. intros [= <-]. zbool.
  rewrite length_take, length_drop. lia.
Qed.

Lemma wr_length buf off bs buf' : wr buf off bs = Some buf' -> length buf' = length buf.
Proof.
  unfold wr. destruct (_ && _) eqn:E; [|done]. intros [= <-]. zbool.
  rewrite !length_app, length_take, length_drop. lia.
Qed.

Lemma rd1_app a x c off : off = Zlen a -> rd1 (a ++ x :: c) off = Some x.
Proof.
  intros ->. unfold rd1. rewrite (proj2 (Z.leb_le 0 _)) by lia.
  by rewrite Nat2Z.id, lookup_app_r, Nat.sub_diag by lia.
Qed.

Lemma wr1_app a x c off b : off = Zlen a -> wr1 (a ++ x :: c) off b = Some (a ++ b :: c).
Proof. intros ->. unfold wr1. by apply (wr_app a [x] [b] c). Qed.

Lemma wr1_0 x c b : wr1 (x :: c) 0 b = Some (b :: c).
Proof. by apply (wr1_app []). Qed.

Lemma wr1_1 x y c b : wr1 (x :: y :: c) 1 b = Some (x :: b :: c).
Proof. by apply (wr1_app [x]). Qed.

(** [memmove] of the block [d] over the gap [g] after it, and over the gap
    before it. *)
Lemma memmove_right a d g dst src n :
  src = Zlen a -> n = Zlen d -> dst = Zlen a + Zlen g ->
  exists h, length h = length g /\ memmove (a ++ d ++ g) dst src n = Some (a ++ h ++ d).
Proof.
  intros -> -> ->. unfold memmove. rewrite rd_app by done. cbn [mbind option_bind].
  exists (take (length g) (d ++ g)).
  split; [rewrite length_take, length_app; lia|].
  rewrite <- (take_drop (length g) (d ++ g)) at 1.
  rewrite (app_assoc a), <- (app_nil_r (drop _ _)).
  rewrite (wr_app (a ++ take (length g) (d ++ g)) (drop (length g) (d ++ g)) d []).
  - by rewrite app_nil_r, <- app_assoc.
  - rewrite length_app, length_take, length_app. lia.
  - rewrite length_drop, length_app. lia.
Qed.

Lemma memmove_left a g d dst src n :
  src = Zlen a + Zlen g -> n = Zlen d -> dst = Zlen a ->
  exists h, length h = length g /\ memmove (a ++ g ++ d) dst src n = Some (a ++ d ++ h).
Proof.
  intros -> -> ->. unfold memmove.
  assert (rd (a ++ g ++ d) (Zlen a + Zlen g) (Zlen d) = Some d) as ->.
  { rewrite <- (app_nil_r d) at 1. rewrite (app_assoc a g). apply rd_app; rewrite ?length_app; lia. }
  cbn [mbind option_bind]. exists (drop (length d) (g ++ d)).
  split; [rewrite length_drop, length_app; lia|].
  rewrite <- (take_drop (length d) (g ++ d)) at 1.
  apply wr_app; [done|]. rewrite length_take, length_app. lia.
Qed.

Lemma length_realloc junk buf n : length (realloc junk buf n) = Z.to_nat n.
Proof.
  unfold realloc. rewrite length_take, length_app, length_resize. lia.
Qed.

Lemma realloc_shrink junk a b n : n = Zlen a -> realloc junk (a ++ b) n = a.
Proof.
  intros ->. unfold realloc. by rewrite Nat2Z.id, <- app_assoc, take_app_length.
Qed.

Lemma realloc_grow junk a n :
  Zlen a <= n -> exists g, realloc junk a n = a ++ g /\ Zlen g = n - Zlen a.
Proof.
  intros Hn. unfold realloc.
  set (g := resize _ _ _). exists g.
  assert (Hg : length g = (Z.to_nat n - length a)%nat) by apply length_resize.
  split; [|lia]. rewrite take_ge; [done|]. rewrite length_app. lia.
Qed.

(** [memmove] of the block [t] to make the gap before it [n] bytes long. *)
Lemma memmove_gap a o t z n dst src len :
  src = Zlen a + Zlen o -> len = Zlen t -> dst = Zlen a + n -> 0 <= n ->
  n + Zlen t <= Zlen o + Zlen t + Zlen z ->
  exists x z', Zlen x = n /\ memmove (a ++ o ++ t ++ z) dst src len = Some (a ++ x ++ t ++ z').
Proof.
  intros -> -> -> Hn Hle. unfold memmove. rewrite (app_assoc a o), rd_app by (rewrite ?Zlen_app; lia).
  cbn [mbind option_bind]. rewrite <- app_assoc. set (b := o ++ t ++ z).
  assert (Hb : Zlen b = Zlen o + Zlen t + Zlen z) by (unfold b; rewrite !Zlen_app; lia).
  exists (take (Z.to_nat n) b), (drop (Z.to_nat n + length t) b).
  split; [rewrite length_take; lia|].
  rewrite <- (take_drop (Z.to_nat n) b) at 1.
  rewrite <- (take_drop (length t) (drop (Z.to_nat n) b)), drop_drop at 1.
  rewrite (app_assoc a), (app_assoc a). apply wr_app.
  - rewrite Zlen_app, length_take. lia.
  - rewrite length_take, length_drop. lia.
Qed.

Lemma realloc_keep junk b z n :
  Zlen b <= n -> exists z', realloc junk (b ++ z) n = b ++ z' /\ Zlen (b ++ z') = n.
Proof.
  intros Hn. unfold realloc. rewrite <- app_assoc, take_app_ge by lia.
  eexists. split; [done|]. rewrite Zlen_app, length_take, !length_app, length_resize. lia.
Qed.

(** ** Little-endian integers *)

(** The [n] bytes of an integer object on a little-endian target. *)
Fixpoint le_encode (n : nat) (z : Z) : list Z :=
  match n with
  | O => []
  | S n' => z mod 256 :: le_encode n' (z / 256)
  end.

Fixpoint le_decode (bs : list Z) : Z :=
  match bs with
  | [] => 0
  | b :: bs' => b + 256 * le_decode bs'
  end.

(** The same bytes read as a signed integer. *)
Definition le_decode_s (bs : list Z) : Z := swrap (8 * Zlen bs) (le_decode bs).

Lemma length_le_encode n z : length (le_encode n z) = n.
Proof. revert z; induction n; intros; simpl; auto. Qed.

Lemma le_encode_ok n z : bytes_ok (le_encode n z).
Proof.
  revert z; induction n; intros; simpl; constructor; auto.
  apply Z.mod_pos_bound. lia.
Qed.

Lemma pow256_S n : 2 ^ (8 * Z.of_nat (S n)) = 256 * 2 ^ (8 * Z.of_nat n).
Proof.
  replace (8 * Z.of_nat (S n)) with (8 + 8 * Z.of_nat n) by lia.
  rewrite Z.pow_add_r by lia. reflexivity.
Qed.

Lemma le_decode_encode n z : le_decode (le_encode n z) = uwrap (8 * Z.of_nat n) z.
Proof.
  revert z; induction n as [|n IH]; intros z; cbn [le_encode le_decode].
  - unfold uwrap. by rewrite Z.mod_1_r.
  - rewrite IH. unfold uwrap. rewrite pow256_S, Z.rem_mul_r by lia. lia.
Qed.

Lemma le_decode_bound bs : bytes_ok bs -> 0 <= le_decode bs < 2 ^ (8 * Zlen bs).
Proof.
  induction 1 as [|b bs Hb _ IH]; cbn [le_decode length]; [done|].
  rewrite pow256_S. unfold is_byte in Hb. lia.
Qed.

Lemma le_encode_decode n bs :
  length bs = n -> bytes_ok bs -> le_encode n (le_decode bs) = bs.
Proof.
  intros <-. induction 1 as [|b bs Hb _ IH]; cbn [length le_encode le_decode]; [done|].
  unfold is_byte in Hb.
  rewrite (Z.mul_comm 256), Z.mod_add, Z.mod_small, Z.div_add, Z.div_small by lia.
  by rewrite Z.add_0_l, IH.
Qed.

Lemma le_decode_s_encode n z :
  (0 < n)%nat -> le_decode_s (le_encode n z) = swrap (8 * Z.of_nat n) z.
Proof.
  intros. unfold le_decode_s. rewrite length_le_encode, le_decode_encode.
  apply swrap_uwrap. lia.
Qed.

Lemma uwrap_swrap w z : 0 < w -> uwrap w (swrap w z) = uwrap w z.
Proof.
  intros. unfold uwrap, swrap. rewrite Zminus_mod_idemp_l. f_equal. lia.
Qed.

Lemma le_encode_uwrap n z : le_encode n (uwrap (8 * Z.of_nat n) z) = le_encode n z.
Proof.
  rewrite <- le_decode_encode. apply le_encode_decode; [apply length_le_encode|apply le_encode_ok].
Qed.

Lemma le_encode_decode_s n bs :
  length bs = n -> (0 < n)%nat -> bytes_ok bs -> le_encode n (le_decode_s bs) = bs.
Proof.
  intros Hn Hpos Hbs. rewrite <- le_encode_uwrap. unfold le_decode_s.
  rewrite Hn, uwrap_swrap, le_encode_uwrap by lia. by apply le_encode_decode.
Qed.

Lemma le_decode_s_range n bs :
  length bs = n -> (0 < n)%nat ->
  - 2 ^ (8 * Z.of_nat n - 1) <= le_decode_s bs < 2 ^ (8 * Z.of_nat n - 1).
Proof. intros <- ?. apply swrap_range. lia. Qed.

(** ** Bytes at a position of a buffer *)

(** [bs] are the bytes of [buf] from offset [p] on. *)
Definition at_ (buf : list Z) (p : Z) (bs : list Z) : Prop :=
  exists a rest, buf = a ++ bs ++ rest /\ p = Zlen a.

Lemma at_rd buf p bs n : at_ buf p bs -> n = Zlen bs -> rd buf p n = Some bs.
Proof. intros (a & rest & -> & ->) ->. by apply rd_app. Qed.

Lemma at_app buf p b1 b2 :
  at_ buf p (b1 ++ b2) <-> at_ buf p b1 /\ at_ buf (p + Zlen b1) b2.
Proof.
  split.
  - intros (a & rest & -> & ->). split.
    + exists a, (b2 ++ rest). by rewrite <- app_assoc.
    + exists (a ++ b1), rest. by rewrite <- !app_assoc, Zlen_app.
  - intros [(a & r1 & -> & ->) (a' & r2 & Heq & Hlen)].
    assert (a' = a ++ b1 /\ r1 = b2 ++ r2) as [-> ->].
    { rewrite (app_assoc a b1) in Heq.
      apply app_inj_1 in Heq as [<- Heq]; [done|]. rewrite length_app. lia. }
    exists a, r2. by rewrite <- app_assoc.
Qed.

Lemma at_cons buf p x bs :
  at_ buf p (x :: bs) <-> rd1 buf p = Some x /\ at_ buf (p + 1) bs.
Proof.
  change (x :: bs) with ([x] ++ bs). rewrite at_app. split; intros [H1 H2]; (split; [|done]).
  - destruct H1 as (a & rest & -> & ->). by apply rd1_app.
  - unfold rd1 in H1. destruct (Z.leb_spec 0 p); [|done].
    apply list_elem_of_split_length in H1 as (a & rest & -> & Hl).
    exists a, rest. split; [done|]. lia.
Qed.

Lemma at_nth buf p bs k x :
  at_ buf p bs -> bs !! k = Some x -> rd1 buf (p + Z.of_nat k) = Some x.
Proof.
  intros (a & rest & -> & ->) Hk.
  apply list_elem_of_split_length in Hk as (b1 & b2 & -> & ->).
  rewrite <- app_assoc, (app_assoc a). apply rd1_app. rewrite Zlen_app. lia.
Qed.

Lemma at_bounds buf p bs : at_ buf p bs -> 0 <= p /\ p + Zlen bs <= Zlen buf.
Proof. intros (a & rest & -> & ->). rewrite !Zlen_app. lia. Qed.

(** [at_split H] turns [at_] of an explicit list into the reads of its bytes. *)
Ltac at_split H :=
  repeat match type of H with
  | at_ _ ?p (_ :: _) =>
      let Hr := fresh "Hr" in apply at_cons in H as [Hr H];
      lazymatch p with
      | _ + Zpos ?k =>
          rewrite <- Z.add_assoc in H;
          let k' := eval vm_compute in (Zpos k + 1) in change (Zpos k + 1) with k' in H
      | _ => idtac
      end
  end.

(** ** Bit operations *)

Lemma land_mask z n : 0 <= n -> Z.land z (2 ^ n - 1) = z mod 2 ^ n.
Proof.
  intros. rewrite <- Z.land_ones by lia. f_equal. rewrite Z.ones_equiv. lia.
Qed.

Lemma land_255 z : Z.land z 255 = z mod 256.
Proof. by apply (land_mask z 8). Qed.

Lemma land_127 z : Z.land z 127 = z mod 128.
Proof. by apply (land_mask z 7). Qed.

(** An or of a low part and a shifted high part is a sum. *)
Lemma lor_shiftl a k n : 0 <= n -> 0 <= a < 2 ^ n -> Z.lor a (Z.shiftl k n) = a + k * 2 ^ n.
Proof.
  intros Hn Ha. assert (Hd : Z.land a (Z.shiftl k n) = 0).
  { apply Z.bits_inj'. intros i Hi. rewrite Z.land_spec, Z.bits_0.
    destruct (Z.ltb_spec i n).
    - by rewrite Z.shiftl_spec_low, andb_false_r.
    - rewrite <- (Z.mod_small a (2 ^ n)) by lia. by rewrite Z.mod_pow2_bits_high. }
  rewrite <- Z.lxor_lor, <- Z.add_nocarry_lxor, Z.shiftl_mul_pow2 by done. done.
Qed.

Lemma lor_high a k n : 0 <= n -> 0 <= a < 2 ^ n -> Z.lor a (k * 2 ^ n) = a + k * 2 ^ n.
Proof. intros. rewrite <- (lor_shiftl a k n) by done. by rewrite Z.shiftl_mul_pow2. Qed.

Lemma lor_shiftl_l a k n : 0 <= n -> 0 <= a < 2 ^ n -> Z.lor (Z.shiftl k n) a = a + k * 2 ^ n.
Proof. intros. rewrite Z.lor_comm. by apply lor_shiftl. Qed.

(** A property of all bytes is decided by trying the 256 of them. *)
Lemma forall_byte (P : Z -> Prop) `{!forall b, Decision (P b)} :
  Forall P (map Z.of_nat (seq 0 256)) -> forall b, is_byte b -> P b.
Proof.
  intros HP b Hb. rewrite Forall_forall in HP. apply HP.
  apply list_elem_of_fmap. exists (Z.to_nat b). unfold is_byte in Hb.
  split; [lia|]. apply elem_of_seq. lia.
Qed.

(** [by_bytes] proves a decidable fact about one byte by evaluation. *)
Ltac by_bytes :=
  match goal with |- is_byte ?b -> ?G =>
    let P := eval pattern b in G in
    match P with ?f _ => refine (forall_byte f _ b); by_compute end
  end.

(** ** Lists *)

Lemma Forall_take_lookup {A} (P : A -> Prop) l n :
  (forall i x, l !! i = Some x -> (i < n)%nat -> P x) -> Forall P (take n l).
Proof.
  intros H. apply Forall_lookup. intros i x Hi.
  apply lookup_take_Some in Hi. destruct Hi; eauto.
Qed.

Lemma Forall_drop_lookup {A} (P : A -> Prop) l n :
  (forall i x, l !! i = Some x -> (n <= i)%nat -> P x) -> Forall P (drop n l).
Proof.
  intros H. apply Forall_lookup. intros i x. rewrite lookup_drop. intros Hi.
  eapply H; [done|lia].
Qed.

(** A list cut at a given length. *)
Lemma app_cut {A} (l : list A) (n : Z) :
  0 <= n <= Zlen l -> exists a b, l = a ++ b /\ Zlen a = n /\ Zlen b = Zlen l - n.
Proof.
  intros Hn. exists (take (Z.to_nat n) l), (drop (Z.to_nat n) l).
  rewrite take_drop, length_take, length_drop. split; [done|lia].
Qed.

Lemma filter_all {A} (P : A -> Prop) `{!forall x, Decision (P x)} l :
  Forall P l -> filter P l = l.
Proof.
  induction 1; [done|]. rewrite filter_cons, decide_True by done. by f_equal.
Qed.

Lemma filter_none {A} (P : A -> Prop) `{!forall x, Decision (P x)} l :
  Forall (fun x => ~ P x) l -> filter P l = [].
Proof. induction 1; [done|]. by rewrite filter_cons, decide_False. Qed.

Lemma StronglySorted_lookup {A} (R : A -> A -> Prop) l i j x y :
  StronglySorted R l -> l !! i = Some x -> l !! j = Some y -> (i < j)%nat -> R x y.
Proof.
  intros Hl Hi Hj Hij. rewrite <- (take_drop j l) in Hl.
  apply (StronglySorted_app_1_elem_of _ _ _ _ _ Hl).
  - apply list_elem_of_lookup. exists i. by rewrite lookup_take_lt.
  - apply list_elem_of_lookup. exists O. by rewrite lookup_drop, Nat.add_0_r.
Qed.

Create HintDb redis.
Create Rewrite HintDb redis.
#[export] Hint Resolve le_encode_ok : redis.
#[export] Hint Rewrite length_le_encode : redis.
