(* ===== verification/Intset.v ===== *)
(** * Integer sets (src/redis-7.2.4/src/intset.c)

    An intset is a header (encoding, length) followed by a packed array of
    little-endian signed integers, all of the width given by the encoding.
    The model keeps the array as bytes: reads, writes, [memmove] and
    [zrealloc] act on the byte buffer with the offsets and the 32-bit
    arithmetic of the source, on a little-endian target (where
    [intrev32ifbe] and the [memrev*ifbe] macros of endianconv.h are empty). *)

From S2P Require Import Prelude.

Module Intset.

Definition INTSET_ENC_INT16 : Z := 2.
Definition INTSET_ENC_INT32 : Z := 4.
Definition INTSET_ENC_INT64 : Z := 8.

Record intset := mk_intset {
  encoding : Z;
  length_ : Z;
  contents : list Z
}.

Section Operations.

(** What [zrealloc] leaves in the bytes a larger block adds. *)
Variable junk : nat -> list Z.

Definition _intsetValueEncoding (v : Z) : Z :=
  if (v <? INT32_MIN) || (INT32_MAX <? v) then INTSET_ENC_INT64
  else if (v <? INT16_MIN) || (INT16_MAX <? v) then INTSET_ENC_INT32
  else INTSET_ENC_INT16.

Definition _intsetGetEncoded (s : intset) (pos enc : Z) : option Z :=
  if enc =? INTSET_ENC_INT64 then
    bs ← rd (contents s) (8 * pos) 8; Some (le_decode_s bs)
  else if enc =? INTSET_ENC_INT32 then
    bs ← rd (contents s) (4 * pos) 4; Some (le_decode_s bs)
  else
    bs ← rd (contents s) (2 * pos) 2; Some (le_decode_s bs).

Definition _intsetGet (s : intset) (pos : Z) : option Z :=
  _intsetGetEncoded s pos (u8 (encoding s)).

Definition _intsetSet (s : intset) (pos value : Z) : option intset :=
  c ← (if encoding s =? INTSET_ENC_INT64 then
         wr (contents s) (8 * pos) (le_encode 8 value)
       else if encoding s =? INTSET_ENC_INT32 then
         wr (contents s) (4 * pos) (le_encode 4 value)
       else
         wr (contents s) (2 * pos) (le_encode 2 value));
  Some (mk_intset (encoding s) (length_ s) c).

Definition intsetNew : intset := mk_intset INTSET_ENC_INT16 0 [].

(** The header has 8 bytes; [None] is the failed assertion. *)
Definition intsetResize (s : intset) (len : Z) : option intset :=
  let size := u64 (len * encoding s) in
  if size <=? ULLONG_MAX - 8
  then Some (mk_intset (encoding s) (length_ s) (realloc junk (contents s) size))
  else None.

(** The [while (max >= min)] loop: the values of [min], [mid] and [cur] when
    it ends. *)
Fixpoint intsetSearch_loop (fuel : nat) (s : intset) (value min max mid cur : Z)
  : option (Z * Z * Z) :=
  match fuel with
  | O => None
  | S fuel' =>
      if min <=? max then
        let mid := s32 (Z.shiftr (u32 (u32 min + u32 max)) 1) in
        cur ← _intsetGet s mid;
        if cur <? value then intsetSearch_loop fuel' s value (mid + 1) max mid cur
        else if value <? cur then intsetSearch_loop fuel' s value min (mid - 1) mid cur
        else Some (min, mid, cur)
      else Some (min, mid, cur)
  end.

(** The result and the value stored in [*pos]. *)
Definition intsetSearch (s : intset) (value : Z) : option (bool * Z) :=
  let max := s32 (u32 (length_ s - 1)) in
  if length_ s =? 0 then Some (false, 0)
  else
    last ← _intsetGet s max;
    if last <? value then Some (false, length_ s)
    else
      first ← _intsetGet s 0;
      if value <? first then Some (false, 0)
      else
        '(min, mid, cur) ← intsetSearch_loop (S (Z.to_nat (length_ s))) s value 0 max (-1) (-1);
        if value =? cur then Some (true, u32 mid) else Some (false, u32 min).

(** [while(length--) _intsetSet(s,length+prepend,_intsetGetEncoded(...))]. *)
Fixpoint upgrade_loop (s : intset) (n : nat) (prepend curenc : Z) : option intset :=
  match n with
  | O => Some s
  | S n' =>
      v ← _intsetGetEncoded s (Z.of_nat n') curenc;
      s' ← _intsetSet s (Z.of_nat n' + prepend) v;
      upgrade_loop s' n' prepend curenc
  end.

(** A length that is negative as an [int] makes the loop leave the buffer. *)
Definition intsetUpgradeAndAdd (s : intset) (value : Z) : option intset :=
  let curenc := u8 (encoding s) in
  let newenc := _intsetValueEncoding value in
  let length := s32 (length_ s) in
  let prepend := if value <? 0 then 1 else 0 in
  if length <? 0 then None else
  s ← intsetResize (mk_intset newenc (length_ s) (contents s)) (u32 (length_ s + 1));
  s ← upgrade_loop s (Z.to_nat length) prepend curenc;
  s ← (if prepend =? 1 then _intsetSet s 0 value
        else _intsetSet s (s32 (length_ s)) value);
  Some (mk_intset (encoding s) (u32 (length_ s + 1)) (contents s)).

(** The [uint32_t bytes] of [intsetMoveTail]. *)
Definition moveTail_bytes (s : intset) (from : Z) : Z :=
  let bytes := u32 (length_ s - from) in
  if encoding s =? INTSET_ENC_INT64 then u32 (bytes * 8)
  else if encoding s =? INTSET_ENC_INT32 then u32 (bytes * 4)
  else u32 (bytes * 2).

Definition intsetMoveTail (s : intset) (from to : Z) : option intset :=
  let sz := if encoding s =? INTSET_ENC_INT64 then 8
            else if encoding s =? INTSET_ENC_INT32 then 4 else 2 in
  c ← memmove (contents s) (sz * to) (sz * from) (moveTail_bytes s from);
  Some (mk_intset (encoding s) (length_ s) c).

(** The new set and the value of [*success]. *)
Definition intsetAdd (s : intset) (value : Z) : option (intset * bool) :=
  let valenc := _intsetValueEncoding value in
  if encoding s <? valenc then
    s ← intsetUpgradeAndAdd s value; Some (s, true)
  else
    '(found, pos) ← intsetSearch s value;
    if (found : bool) then Some (s, false)
    else
      s ← intsetResize s (u32 (length_ s + 1));
      s ← (if pos <? length_ s then intsetMoveTail s pos (u32 (pos + 1)) else Some s);
      s ← _intsetSet s (s32 pos) value;
      Some (mk_intset (encoding s) (u32 (length_ s + 1)) (contents s), true).

Definition intsetRemove (s : intset) (value : Z) : option (intset * bool) :=
  let valenc := _intsetValueEncoding value in
  if valenc <=? encoding s then
    '(found, pos) ← intsetSearch s value;
    if (found : bool) then
      let len := length_ s in
      s ← (if pos <? u32 (len - 1) then intsetMoveTail s (u32 (pos + 1)) pos else Some s);
      s ← intsetResize s (u32 (len - 1));
      Some (mk_intset (encoding s) (u32 (len - 1)) (contents s), true)
    else Some (s, false)
  else Some (s, false).

Definition intsetFind (s : intset) (value : Z) : option bool :=
  if _intsetValueEncoding value <=? encoding s
  then fst <$> intsetSearch s value else Some false.

(** [rand] is the value the C library's [rand()] returns. *)
Definition intsetRandom (rand : Z) (s : intset) : option Z :=
  if length_ s =? 0 then None else _intsetGet s (s32 (rand mod length_ s)).

Definition intsetMax (s : intset) : option Z := _intsetGet s (s32 (u32 (length_ s - 1))).

Definition intsetMin (s : intset) : option Z := _intsetGet s 0.

(** The outer option is a memory error, the inner one the return value 0. *)
Definition intsetGet (s : intset) (pos : Z) : option (option Z) :=
  if pos <? length_ s then Some <$> _intsetGet s (s32 pos) else Some None.

Definition intsetLen (s : intset) : Z := length_ s.

Definition intsetBlobLen (s : intset) : Z := u64 (8 + length_ s * encoding s).

(** The records [prev], [i], ... of the deep check. *)
Fixpoint validate_loop (s : intset) (fuel : nat) (i prev : Z) : option bool :=
  match fuel with
  | O => Some true
  | S fuel' =>
      cur ← _intsetGet s (s32 i);
      if cur <=? prev then Some false else validate_loop s fuel' (i + 1) cur
  end.

(** The cast [(intset * )p]. *)
Definition intset_of_blob (p : list Z) : intset :=
  mk_intset (le_decode (take 4 p)) (le_decode (take 4 (drop 4 p))) (drop 8 p).

(** [p] is the untrusted blob. *)
Definition intsetValidateIntegrity (p : list Z) (deep : bool) : option bool :=
  let size := Zlen p in
  if size <? 8 then Some false
  else
    let s := intset_of_blob p in
    let known := (encoding s =? INTSET_ENC_INT64) || (encoding s =? INTSET_ENC_INT32)
                 || (encoding s =? INTSET_ENC_INT16) in
    if negb known then Some false
    else if negb (u64 (8 + length_ s * encoding s) =? size) then Some false
    else if length_ s =? 0 then Some false
    else if negb deep then Some true
    else
      prev ← _intsetGet s 0;
      validate_loop s (Z.to_nat (length_ s - 1)) 1 prev.

End Operations.

(** ** The abstract set a packed array stands for *)

Definition enc_ok (e : Z) : Prop := e = 2 \/ e = 4 \/ e = 8.

Definition fits (e v : Z) : Prop := - 2 ^ (8 * e - 1) <= v < 2 ^ (8 * e - 1).

(** The bytes of the array holding [l] at width [e]. *)
Definition pack (e : Z) (l : list Z) : list Z := l ≫= le_encode (Z.to_nat e).

(** [s] is a well-formed intset whose elements, in order, are [l]. *)
Record repr (s : intset) (l : list Z) : Prop := {
  repr_enc : enc_ok (encoding s);
  repr_len : length_ s = Zlen l;
  repr_contents : contents s = pack (encoding s) l;
  repr_fits : Forall (fits (encoding s)) l;
  repr_sorted : StronglySorted Z.lt l
}.

Lemma pack_app e l1 l2 : pack e (l1 ++ l2) = pack e l1 ++ pack e l2.
Proof. apply bind_app. Qed.

Lemma pack_one e v : pack e [v] = le_encode (Z.to_nat e) v.
Proof. unfold pack. simpl. apply app_nil_r. Qed.

Lemma length_pack e l : 0 <= e -> Zlen (pack e l) = e * Zlen l.
Proof.
  intros He. induction l as [|v l IH]; [simpl; lia|].
  change (pack e (v :: l)) with (le_encode (Z.to_nat e) v ++ pack e l).
  rewrite length_app, length_le_encode. cbn [length]. lia.
Qed.

Lemma decode_fits e v :
  enc_ok e -> fits e v -> le_decode_s (le_encode (Z.to_nat e) v) = v.
Proof.
  intros He Hv. rewrite le_decode_s_encode by (destruct He as [->|[->| ->]]; lia).
  rewrite Z2Nat.id by (destruct He; lia).
  apply swrap_small; [destruct He; lia|apply Hv].
Qed.

(** Reading and writing slot [Zlen a / e] of a buffer that starts with [a]. *)
Lemma get_encoded_at s e a v rest pos :
  enc_ok e -> fits e v -> contents s = a ++ le_encode (Z.to_nat e) v ++ rest ->
  e * pos = Zlen a -> _intsetGetEncoded s pos e = Some v.
Proof.
  intros He Hv Hc Hp. pose proof (decode_fits e v He Hv) as Hd.
  unfold _intsetGetEncoded. rewrite Hc.
  destruct He as [->|[->| ->]]; simpl Z.eqb; cbv iota;
    erewrite rd_app by (rewrite ?length_le_encode; lia); simpl; by f_equal.
Qed.

Lemma set_at s a b rest v pos :
  enc_ok (encoding s) -> contents s = a ++ b ++ rest ->
  Zlen b = encoding s -> encoding s * pos = Zlen a ->
  _intsetSet s pos v = Some (mk_intset (encoding s) (length_ s)
                              (a ++ le_encode (Z.to_nat (encoding s)) v ++ rest)).
Proof.
  destruct s as [e n c]; cbn [encoding length_ contents].
  intros He -> Hb Hp. unfold _intsetSet; cbn [encoding length_ contents].
  destruct He as [->|[->| ->]]; simpl Z.eqb; cbv iota;
    erewrite wr_app by (rewrite ?length_le_encode; lia); done.
Qed.

Lemma fits_mono e e' v : e <= e' -> 0 < e -> fits e v -> fits e' v.
Proof.
  unfold fits. intros. assert (2 ^ (8 * e - 1) <= 2 ^ (8 * e' - 1)); [|lia].
  apply Z.pow_le_mono_r; lia.
Qed.

Lemma valueEncoding_ok v : enc_ok (_intsetValueEncoding v).
Proof. unfold _intsetValueEncoding, enc_ok. repeat case_match; auto. Qed.

(** The encoding chosen for a value is the narrowest that holds it. *)
Lemma valueEncoding_spec e v :
  LLONG_MIN <= v <= LLONG_MAX -> enc_ok e ->
  _intsetValueEncoding v <= e <-> fits e v.
Proof.
  intros Hv He. unfold _intsetValueEncoding, fits,
    INTSET_ENC_INT16, INTSET_ENC_INT32, INTSET_ENC_INT64.
  destruct He as [->|[->| ->]]; simpl; repeat case_match; lia.
Qed.


(** ** Search *)

Lemma u8_enc e : enc_ok e -> u8 e = e.
Proof. intros He. apply uwrap_small. destruct He as [->|[->| ->]]; lia. Qed.

Lemma pack_get s l i v :
  enc_ok (encoding s) -> contents s = pack (encoding s) l -> Forall (fits (encoding s)) l ->
  l !! i = Some v -> _intsetGet s (Z.of_nat i) = Some v.
Proof.
  intros He Hc Hf Hi. unfold _intsetGet. rewrite u8_enc by done.
  pose proof (list_elem_of_split_length _ _ _ Hi) as (l1 & l2 & -> & ->).
  eapply (get_encoded_at _ _ (pack (encoding s) l1) _ (pack (encoding s) l2)); [done|..].
  - apply Forall_app in Hf as [_ Hf]. by inversion Hf.
  - by rewrite Hc, (pack_app _ l1 (v :: l2)), (pack_app _ [v] l2), pack_one.
  - rewrite length_pack; [done|]. destruct He; lia.
Qed.

Lemma repr_get s l i v :
  repr s l -> l !! i = Some v -> _intsetGet s (Z.of_nat i) = Some v.
Proof. intros [He _ Hc Hf _]. by apply pack_get. Qed.

(** All elements before [m] are below [v], all from [m] on above it. *)
Definition splits (l : list Z) (v m : Z) : Prop :=
  (forall i x, l !! i = Some x -> Z.of_nat i < m -> x < v) /\
  (forall i x, l !! i = Some x -> m <= Z.of_nat i -> v < x).

Lemma search_loop_spec s l v fuel : repr s l -> Zlen l < 2 ^ 31 ->
  forall min max mid cur,
  0 <= min <= max + 1 -> max < Zlen l -> max - min + 1 < Z.of_nat fuel ->
  (forall i x, l !! i = Some x -> Z.of_nat i < min -> x < v) ->
  (forall i x, l !! i = Some x -> max < Z.of_nat i -> v < x) ->
  min <= max \/ cur <> v ->
  exists m md c, intsetSearch_loop fuel s v min max mid cur = Some (m, md, c) /\
    ((c = v /\ exists i, md = Z.of_nat i /\ l !! i = Some v) \/
     (c <> v /\ 0 <= m <= Zlen l /\ splits l v m)).
Proof.
  intros Hr Hlen. induction fuel as [|fuel IH];
    intros min max mid cur Hmin Hmax Hfuel Hlo Hhi Hcur; [lia|].
  cbn [intsetSearch_loop].
  destruct (Z.leb_spec min max) as [Hle|Hgt].
  2:{ exists min, mid, cur. split; [done|]. right.
      split; [lia|]. split; [lia|]. split; [done|].
      intros i x Hi ?. apply (Hhi i x Hi). lia. }
  rewrite (uwrap_small 32 min), (uwrap_small 32 max), (uwrap_small 32 (min + max)) by lia.
  rewrite Z.shiftr_div_pow2 by lia. change (2 ^ 1) with 2.
  assert (Hm : min <= (min + max) / 2 <= max)
    by (split; [apply Z.div_le_lower_bound|apply Z.div_le_upper_bound]; lia).
  rewrite swrap_small by lia.
  set (md := (min + max) / 2) in *. cbv zeta.
  destruct (lookup_lt_is_Some_2 l (Z.to_nat md)) as [c Hc]; [lia|].
  pose proof (repr_get _ _ _ _ Hr Hc) as Hget. rewrite Z2Nat.id in Hget by lia.
  rewrite Hget. cbn [mbind option_bind].
  pose proof (repr_sorted _ _ Hr) as Hs.
  destruct (Z.ltb_spec c v) as [Hcv|Hcv]; [|destruct (Z.ltb_spec v c) as [Hvc|Hvc]].
  - apply IH; [lia..| |done|lia].
    intros i x Hi ?. destruct (decide (i = Z.to_nat md)) as [->|]; [congruence|].
    pose proof (StronglySorted_lookup _ _ _ _ _ _ Hs Hi Hc). lia.
  - apply IH; [lia..|done| |lia].
    intros i x Hi ?. destruct (decide (i = Z.to_nat md)) as [->|]; [congruence|].
    pose proof (StronglySorted_lookup _ _ _ _ _ _ Hs Hc Hi). lia.
  - assert (c = v) as -> by lia. exists min, md, v. split; [done|]. left.
    split; [done|]. exists (Z.to_nat md). by rewrite Z2Nat.id by lia.
Qed.

(** What [intsetSearch] promises: the position of the value, or the position
    that keeps the array sorted when the value is inserted there. *)
Inductive search_result (l : list Z) (v : Z) : bool * Z -> Prop :=
| search_found l1 l2 :
    l = l1 ++ v :: l2 -> search_result l v (true, Zlen l1)
| search_absent l1 l2 :
    l = l1 ++ l2 -> Forall (fun x => x < v) l1 -> Forall (fun x => v < x) l2 ->
    search_result l v (false, Zlen l1).

Lemma splits_absent l v m :
  0 <= m <= Zlen l -> splits l v m -> search_result l v (false, m).
Proof.
  intros Hm [Hlo Hhi].
  replace m with (Zlen (take (Z.to_nat m) l)) by (rewrite length_take; lia).
  eapply (search_absent _ _ _ (drop (Z.to_nat m) l)); [by rewrite take_drop|..].
  - apply Forall_take_lookup. intros. eapply Hlo; [done|lia].
  - apply Forall_drop_lookup. intros. eapply Hhi; [done|lia].
Qed.

Lemma search_spec s l v :
  repr s l -> Zlen l < 2 ^ 31 ->
  exists r, intsetSearch s v = Some r /\ search_result l v r.
Proof.
  intros Hr Hlen. unfold intsetSearch. rewrite (repr_len _ _ Hr).
  destruct (Z.eqb_spec (Zlen l) 0) as [H0|H0].
  { eexists. split; [done|]. apply splits_absent; [lia|].
    destruct l; [|simpl in *; lia]. split; intros i x Hi; by rewrite lookup_nil in Hi. }
  pose proof (repr_sorted _ _ Hr) as Hs.
  rewrite uwrap_small, swrap_small by lia. cbv zeta.
  destruct (lookup_lt_is_Some_2 l (length l - 1)) as [last Hlast]; [lia|].
  destruct (lookup_lt_is_Some_2 l 0) as [first Hfirst]; [lia|].
  replace (Zlen l - 1) with (Z.of_nat (length l - 1)) by lia.
  rewrite (repr_get _ _ _ _ Hr Hlast). cbn [mbind option_bind].
  destruct (Z.ltb_spec last v) as [Hlv|Hlv].
  { eexists. split; [done|]. apply splits_absent; [lia|]. split; intros i x Hi ?.
    - destruct (decide (i = length l - 1)%nat) as [->|]; [congruence|].
      pose proof (StronglySorted_lookup _ _ _ _ _ _ Hs Hi Hlast). lia.
    - apply lookup_lt_Some in Hi. lia. }
  change (_intsetGet s 0) with (_intsetGet s (Z.of_nat 0)).
  rewrite (repr_get _ _ _ _ Hr Hfirst). cbn [mbind option_bind].
  destruct (Z.ltb_spec v first) as [Hvf|Hvf].
  { eexists. split; [done|]. apply splits_absent; [lia|]. split; intros i x Hi ?; [lia|].
    destruct (decide (i = 0)%nat) as [->|]; [congruence|].
    pose proof (StronglySorted_lookup _ _ _ _ _ _ Hs Hfirst Hi). lia. }
  destruct (search_loop_spec s l v (S (Z.to_nat (Zlen l))) Hr Hlen
              0 (Z.of_nat (length l - 1)) (-1) (-1)) as (m & md & c & -> & Hres);
    [lia..| |lia|].
  { intros i x Hi ?. apply lookup_lt_Some in Hi. lia. }
  cbn [mbind option_bind].
  destruct Hres as [(-> & i & -> & Hi)|(Hc & Hm & Hsp)].
  - rewrite Z.eqb_refl. eexists. split; [done|].
    pose proof (lookup_lt_Some _ _ _ Hi). rewrite uwrap_small by lia.
    pose proof (list_elem_of_split_length _ _ _ Hi) as (l1 & l2 & -> & ->).
    by eapply search_found.
  - rewrite (proj2 (Z.eqb_neq v c)) by done. eexists. split; [done|].
    rewrite uwrap_small by lia. by apply splits_absent.
Qed.


(** ** Insertion and removal *)

(** Insertion into a strictly increasing list. *)
Definition zinsert (v : Z) (l : list Z) : list Z :=
  filter (fun x => x < v) l ++ v :: filter (fun x => v < x) l.

(** Removal of a value. *)
Definition zremove (v : Z) (l : list Z) : list Z := filter (fun x => x <> v) l.

Lemma zinsert_split v l1 l2 :
  Forall (fun x => x < v) l1 -> Forall (fun x => v < x) l2 ->
  zinsert v (l1 ++ l2) = l1 ++ v :: l2.
Proof.
  intros H1 H2. unfold zinsert. rewrite !filter_app.
  rewrite (filter_all (fun x => x < v) l1), (filter_all (fun x => v < x) l2) by done.
  rewrite (filter_none (fun x => x < v) l2), (filter_none (fun x => v < x) l1).
  - by rewrite app_nil_r.
  - eapply Forall_impl; [exact H1|]. simpl. lia.
  - eapply Forall_impl; [exact H2|]. simpl. lia.
Qed.

Lemma zinsert_present v l1 l2 :
  Forall (fun x => x < v) l1 -> Forall (fun x => v < x) l2 ->
  zinsert v (l1 ++ v :: l2) = l1 ++ v :: l2.
Proof.
  intros H1 H2. rewrite <- (zinsert_split v l1 l2) at 2 by done. unfold zinsert.
  by rewrite !filter_app, !filter_cons, !decide_False by lia.
Qed.

Lemma search_result_in l v b pos : search_result l v (b, pos) -> b = bool_decide (v ∈ l).
Proof.
  inversion 1 as [l1 l2 ->|l1 l2 -> H1 H2]; symmetry.
  - apply bool_decide_true. rewrite elem_of_app, elem_of_cons. tauto.
  - apply bool_decide_false. rewrite Forall_forall in H1, H2.
    intros [Hin|Hin]%elem_of_app; [specialize (H1 _ Hin)|specialize (H2 _ Hin)];
      simpl in *; lia.
Qed.

Lemma too_wide_absent s l v :
  repr s l -> LLONG_MIN <= v <= LLONG_MAX -> encoding s < _intsetValueEncoding v -> v ∉ l.
Proof.
  intros Hr Hv Hlt Hin. pose proof (repr_fits _ _ Hr) as Hf. rewrite Forall_forall in Hf.
  specialize (Hf _ Hin). apply valueEncoding_spec in Hf; [lia|done|apply Hr].
Qed.

Lemma sorted_around l1 v l2 :
  StronglySorted Z.lt (l1 ++ v :: l2) ->
  Forall (fun x => x < v) l1 /\ Forall (fun x => v < x) l2 /\ StronglySorted Z.lt (l1 ++ l2).
Proof.
  intros H. apply StronglySorted_app in H as (H12 & H1 & H2).
  apply StronglySorted_cons in H2 as [Hv H2]. split_and!.
  - apply Forall_forall. intros x Hx. apply H12; [done|]. left.
  - done.
  - apply StronglySorted_app. split_and!; [|done..].
    intros x y Hx Hy. apply H12; [done|]. by right.
Qed.

Lemma sorted_insert l1 v l2 :
  StronglySorted Z.lt (l1 ++ l2) ->
  Forall (fun x => x < v) l1 -> Forall (fun x => v < x) l2 ->
  StronglySorted Z.lt (l1 ++ v :: l2).
Proof.
  intros H H1 H2. apply StronglySorted_app in H as (H12 & Hs1 & Hs2).
  apply StronglySorted_app. split_and!; [|done|by apply StronglySorted_cons].
  intros x y Hx Hy. rewrite Forall_forall in H1. apply elem_of_cons in Hy as [->|Hy]; auto.
Qed.

(** The back-to-front conversion loop: when it reaches index [n], the first
    [n] elements are still at the old width, the others at the new one. *)
Lemma upgrade_loop_spec n : forall s l cur prep mid tail,
  enc_ok (encoding s) -> enc_ok cur -> cur <= encoding s -> 0 <= prep ->
  Forall (fits cur) l -> (n <= length l)%nat ->
  contents s = pack cur (take n l) ++ mid ++ pack (encoding s) (drop n l) ++ tail ->
  Zlen mid = (Z.of_nat n + prep) * encoding s - Z.of_nat n * cur ->
  exists hd, Zlen hd = prep * encoding s /\
    upgrade_loop s n prep cur =
      Some (mk_intset (encoding s) (length_ s) (hd ++ pack (encoding s) l ++ tail)).
Proof.
  induction n as [|n IH]; intros s l cur prep mid tail He Hcur Hle Hp Hf Hn Hc Hmid.
  { exists mid. split; [lia|]. destruct s as [e len c]; simpl in *. by rewrite Hc. }
  assert (0 < cur /\ 0 < encoding s) as [Hcur0 He0] by (unfold enc_ok in *; lia).
  destruct (lookup_lt_is_Some_2 l n) as [v Hv]; [lia|].
  rewrite (take_S_r _ _ _ Hv), pack_app, pack_one in Hc.
  assert (Hfv : fits cur v) by (eapply Forall_lookup_1; eauto).
  assert (Hn' : Zlen (take n l) = Z.of_nat n) by (rewrite length_take; lia).
  cbn [upgrade_loop].
  erewrite (get_encoded_at s cur (pack cur (take n l)) v); [|done|done| |].
  2: { by rewrite Hc, <- !app_assoc. }
  2: { rewrite length_pack by lia. lia. }
  cbn [mbind option_bind].
  destruct (app_cut (le_encode (Z.to_nat cur) v ++ mid)
              ((Z.of_nat n + prep) * encoding s - Z.of_nat n * cur)) as (y1 & y2 & Hy & Hy1 & Hy2).
  { rewrite length_app, length_le_encode. nia. }
  rewrite length_app, length_le_encode in Hy2.
  erewrite (set_at s (pack cur (take n l) ++ y1) y2 (pack (encoding s) (drop (S n) l) ++ tail));
    [|done| | |].
  2: { rewrite Hc, <- !app_assoc. f_equal. rewrite (app_assoc _ mid), Hy.
       by rewrite <- !app_assoc. }
  2: nia.
  2: { rewrite Zlen_app, length_pack by lia. lia. }
  cbn [mbind option_bind].
  edestruct (IH (mk_intset (encoding s) (length_ s)
      ((pack cur (take n l) ++ y1) ++ le_encode (Z.to_nat (encoding s)) v
        ++ pack (encoding s) (drop (S n) l) ++ tail)) l cur prep y1 tail)
    as (hd & Hhd & ->); cbn [encoding length_ contents]; try done; try lia.
  - rewrite (drop_S _ _ _ Hv), <- !app_assoc.
    change (v :: drop (S n) l) with ([v] ++ drop (S n) l).
    by rewrite pack_app, pack_one, <- !app_assoc.
  - by exists hd.
Qed.


Section Refinement.

Variable junk : nat -> list Z.

Lemma resize_ok s len :
  enc_ok (encoding s) -> 0 <= len < 2 ^ 32 ->
  intsetResize junk s len =
    Some (mk_intset (encoding s) (length_ s) (realloc junk (contents s) (len * encoding s))).
Proof.
  intros He Hlen. assert (0 <= len * encoding s <= 8 * 2 ^ 32) by (unfold enc_ok in He; nia).
  unfold intsetResize. cbv zeta. rewrite uwrap_small by lia. by rewrite (proj2 (Z.leb_le _ _)) by lia.
Qed.

(** The set obtained by putting [v] between two halves of a sorted array. *)
Lemma repr_insert e l1 v l2 len :
  enc_ok e -> Forall (fits e) (l1 ++ l2) -> fits e v ->
  StronglySorted Z.lt (l1 ++ l2) ->
  Forall (fun x => x < v) l1 -> Forall (fun x => v < x) l2 ->
  len = Zlen (l1 ++ l2) + 1 ->
  repr (mk_intset e len (pack e (l1 ++ v :: l2))) (zinsert v (l1 ++ l2)) /\ v ∉ l1 ++ l2.
Proof.
  intros He Hf Hv Hs H1 H2 ->. rewrite zinsert_split by done. split.
  - split; cbn [encoding length_ contents]; [done| |done| |by apply sorted_insert].
    + rewrite !length_app. cbn [length]. lia.
    + apply Forall_app in Hf as [Hf1 Hf2]. apply Forall_app. auto.
  - rewrite elem_of_app. rewrite Forall_forall in H1, H2.
    intros [Hin|Hin]; [specialize (H1 _ Hin)|specialize (H2 _ Hin)]; simpl in *; lia.
Qed.

(** The two ways [intsetUpgradeAndAdd] fills the enlarged buffer. *)
Lemma upgrade_prepend e ne l v g :
  enc_ok e -> enc_ok ne -> e <= ne -> Forall (fits e) l ->
  Zlen g = (Zlen l + 1) * ne - e * Zlen l ->
  (s ← upgrade_loop (mk_intset ne (Zlen l) (pack e l ++ g)) (length l) 1 e; _intsetSet s 0 v)
  = Some (mk_intset ne (Zlen l) (pack ne (v :: l))).
Proof.
  intros He Hne Hle Hf Hg. assert (0 < ne) by (unfold enc_ok in *; lia).
  edestruct (upgrade_loop_spec (length l)
    (mk_intset ne (Zlen l) (pack e l ++ g)) l e 1 g []) as (hd & Hhd & ->);
    cbn [encoding length_ contents]; try done; try lia.
  { by rewrite firstn_all, skipn_all, !app_nil_r. }
  cbn [mbind option_bind encoding length_ contents] in *.
  erewrite (set_at _ [] hd); cbn [encoding length_ contents];
    [|done|by rewrite app_nil_r|lia|simpl; lia].
  change (v :: l) with ([v] ++ l). by rewrite pack_app, pack_one.
Qed.

Lemma upgrade_append e ne l v g :
  Zlen l < 2 ^ 31 -> enc_ok e -> enc_ok ne -> e <= ne -> Forall (fits e) l ->
  Zlen g = (Zlen l + 1) * ne - e * Zlen l ->
  (s ← upgrade_loop (mk_intset ne (Zlen l) (pack e l ++ g)) (length l) 0 e;
   _intsetSet s (s32 (length_ s)) v)
  = Some (mk_intset ne (Zlen l) (pack ne (l ++ [v]))).
Proof.
  intros Hl He Hne Hle Hf Hg. assert (0 < ne) by (unfold enc_ok in *; lia).
  destruct (app_cut g (Zlen l * ne - Zlen l * e)) as (g1 & g2 & -> & Hg1 & Hg2); [nia|].
  edestruct (upgrade_loop_spec (length l)
    (mk_intset ne (Zlen l) (pack e l ++ g1 ++ g2)) l e 0 g1 g2) as (hd & Hhd & ->);
    cbn [encoding length_ contents]; try done; try lia.
  { by rewrite firstn_all, skipn_all. }
  cbn [mbind option_bind encoding length_ contents] in *.
  destruct hd; [|simpl in Hhd; lia]. rewrite app_nil_l, swrap_small by lia.
  erewrite (set_at _ (pack ne l) g2 []); cbn [encoding length_ contents];
    [|done|by rewrite app_nil_r|nia|rewrite length_pack; lia].
  by rewrite app_nil_r, pack_app, pack_one.
Qed.

Lemma upgradeAndAdd_spec s l v :
  repr s l -> Zlen l < 2 ^ 29 -> LLONG_MIN <= v <= LLONG_MAX ->
  encoding s < _intsetValueEncoding v ->
  exists s', intsetUpgradeAndAdd junk s v = Some s' /\
    encoding s' = _intsetValueEncoding v /\ repr s' (zinsert v l) /\ v ∉ l.
Proof.
  intros [He Hlen Hc Hf Hs] Hl Hv Henc.
  pose proof (valueEncoding_ok v) as Hne.
  pose proof (proj1 (valueEncoding_spec _ v Hv Hne) (Z.le_refl _)) as Hfv.
  set (ne := _intsetValueEncoding v) in *.
  assert (Hnf : ~ fits (encoding s) v) by (rewrite <- valueEncoding_spec by done; lia).
  assert (0 < encoding s /\ 0 < ne) as [He0 Hne0] by (unfold enc_ok in *; lia).
  assert (Hf' : Forall (fits ne) l) by (eapply Forall_impl; [done|];
    intros; eapply fits_mono; [..|done]; lia).
  unfold intsetUpgradeAndAdd. fold ne. cbv zeta. rewrite u8_enc by done.
  rewrite Hlen, (swrap_small 32), (uwrap_small 32) by lia.
  rewrite (proj2 (Z.ltb_ge _ _)), resize_ok by first [done|lia].
  cbn [mbind option_bind encoding length_ contents].
  destruct (realloc_grow junk (contents s) ((Zlen l + 1) * ne)) as (g & -> & Hg).
  { rewrite Hc, length_pack; nia. }
  rewrite Hc, length_pack in * by lia. rewrite Nat2Z.id.
  destruct (Z.ltb_spec v 0) as [Hneg|Hpos]; simpl Z.eqb; cbv iota.
  - pose proof (upgrade_prepend (encoding s) ne l v g He Hne ltac:(lia) Hf Hg) as Hpre.
    destruct (upgrade_loop _ _ 1 _); [|discriminate Hpre]. cbn [mbind option_bind] in *.
    rewrite Hpre. cbn [mbind option_bind encoding length_ contents].
    rewrite uwrap_small by lia. eexists. split; [done|]. split; [done|].
    apply (repr_insert ne [] v l); try done.
    eapply Forall_impl; [exact Hf|]. unfold fits in *. simpl. lia.
  - pose proof (upgrade_append (encoding s) ne l v g ltac:(lia) He Hne ltac:(lia) Hf Hg) as Happ.
    destruct (upgrade_loop _ _ 0 _); [|discriminate Happ]. cbn [mbind option_bind] in *.
    rewrite Happ. cbn [mbind option_bind encoding length_ contents].
    rewrite uwrap_small by lia. eexists. split; [done|]. split; [done|].
    pose proof (repr_insert ne l v [] (Zlen l + 1)) as Hins. rewrite app_nil_r in Hins.
    apply Hins; try done.
    eapply Forall_impl; [exact Hf|]. unfold fits in *. simpl. lia.
Qed.

Lemma moveTail_bytes_ok s from :
  enc_ok (encoding s) -> 0 <= from <= length_ s -> length_ s < 2 ^ 29 ->
  moveTail_bytes s from = (length_ s - from) * encoding s.
Proof.
  intros He Hfrom Hlen. unfold moveTail_bytes. cbv zeta.
  rewrite (uwrap_small 32 (length_ s - from)) by lia.
  destruct He as [E|[E|E]]; rewrite E; simpl Z.eqb; cbv iota; apply uwrap_small; lia.
Qed.

Lemma moveTail_unfold s from to :
  enc_ok (encoding s) -> 0 <= from <= length_ s -> length_ s < 2 ^ 29 ->
  intsetMoveTail s from to =
    (c ← memmove (contents s) (encoding s * to) (encoding s * from)
          ((length_ s - from) * encoding s);
     Some (mk_intset (encoding s) (length_ s) c)).
Proof.
  intros He Hfrom Hlen. unfold intsetMoveTail. cbv zeta. rewrite moveTail_bytes_ok by done.
  destruct He as [E|[E|E]]; by rewrite E.
Qed.

(** The array part of an insertion at a position and of a removal. *)
Lemma insert_at s e l1 l2 v len :
  enc_ok e -> len = Zlen (l1 ++ l2) -> len < 2 ^ 29 ->
  s = mk_intset e len (pack e (l1 ++ l2)) ->
  (s ← intsetResize junk s (u32 (length_ s + 1));
   s ← (if Zlen l1 <? length_ s then intsetMoveTail s (Zlen l1) (u32 (Zlen l1 + 1)) else Some s);
   _intsetSet s (s32 (Zlen l1)) v) = Some (mk_intset e len (pack e (l1 ++ v :: l2))).
Proof.
  intros He -> Hlen ->. cbn [encoding length_ contents]. rewrite length_app in *.
  assert (0 < e) by (unfold enc_ok in He; lia).
  rewrite (uwrap_small 32 (Z.of_nat (length l1 + length l2) + 1)) by lia.
  rewrite resize_ok by first [done|lia].
  cbn [mbind option_bind encoding length_ contents].
  destruct (realloc_grow junk (pack e (l1 ++ l2)) ((Z.of_nat (length l1 + length l2) + 1) * e))
    as (g & -> & Hg); [rewrite length_pack, length_app by lia; lia|].
  rewrite length_pack, length_app in Hg by lia.
  rewrite uwrap_small, (swrap_small 32) by lia. rewrite pack_app, <- app_assoc.
  assert (Hgoal : forall h, Zlen h = e ->
    _intsetSet (mk_intset e (Z.of_nat (length l1 + length l2)) (pack e l1 ++ h ++ pack e l2))
      (Zlen l1) v = Some (mk_intset e (Z.of_nat (length l1 + length l2)) (pack e (l1 ++ v :: l2)))).
  { intros h Hh. erewrite (set_at _ (pack e l1) h); cbn [encoding length_ contents];
      [|done..|rewrite length_pack; lia].
    change (v :: l2) with ([v] ++ l2). by rewrite !pack_app, pack_one. }
  destruct (Z.ltb_spec (Zlen l1) (Z.of_nat (length l1 + length l2))) as [Hlt|Hge].
  - rewrite moveTail_unfold by (cbn [encoding length_]; first [done|lia]).
    cbn [encoding length_ contents].
    destruct (memmove_right (pack e l1) (pack e l2) g (e * (Zlen l1 + 1)) (e * Zlen l1)
      ((Z.of_nat (length l1 + length l2) - Zlen l1) * e)) as (h & Hh & ->);
      [rewrite length_pack; lia..|].
    cbn [mbind option_bind]. apply Hgoal. lia.
  - destruct l2; [|cbn [length] in Hge; lia]. cbn [mbind option_bind].
    rewrite <- (Hgoal g) by lia. cbn [pack mbind list_bind app]. by rewrite app_nil_r.
Qed.

Lemma remove_at s e l1 v l2 len :
  enc_ok e -> len = Zlen (l1 ++ v :: l2) -> len < 2 ^ 29 ->
  s = mk_intset e len (pack e (l1 ++ v :: l2)) ->
  (s ← (if Zlen l1 <? u32 (len - 1)
        then intsetMoveTail s (u32 (Zlen l1 + 1)) (Zlen l1) else Some s);
   intsetResize junk s (u32 (len - 1))) = Some (mk_intset e len (pack e (l1 ++ l2))).
Proof.
  intros He -> Hlen ->. rewrite length_app in *. cbn [length] in *.
  assert (0 < e) by (unfold enc_ok in He; lia).
  rewrite !uwrap_small by lia.
  change (v :: l2) with ([v] ++ l2). rewrite !pack_app, pack_one.
  assert (Hgoal : forall h,
    intsetResize junk (mk_intset e (Z.of_nat (length l1 + S (length l2)))
      (pack e l1 ++ pack e l2 ++ h)) (Z.of_nat (length l1 + S (length l2)) - 1)
    = Some (mk_intset e (Z.of_nat (length l1 + S (length l2))) (pack e l1 ++ pack e l2))).
  { intros h. rewrite resize_ok by first [done|lia].
    cbn [encoding length_ contents]. rewrite app_assoc, realloc_shrink; [done|].
    rewrite Zlen_app, !length_pack; lia. }
  case_match.
  - rewrite moveTail_unfold by (cbn [encoding length_]; first [done|lia]).
    cbn [encoding length_ contents].
    destruct (memmove_left (pack e l1) (le_encode (Z.to_nat e) v) (pack e l2)
      (e * Zlen l1) (e * (Zlen l1 + 1))
      ((Z.of_nat (length l1 + S (length l2)) - (Zlen l1 + 1)) * e)) as (h & Hh & ->);
      [rewrite ?length_le_encode, length_pack; lia..|].
    cbn [mbind option_bind]. apply Hgoal.
  - destruct l2; [|cbn [length] in *; lia]. cbn [mbind option_bind].
    rewrite <- (Hgoal (le_encode (Z.to_nat e) v)). by rewrite app_nil_r.
Qed.

End Refinement.


(** ** Validation of untrusted blobs *)

(** The bytes of an intset in memory and in an RDB file. *)
Definition blob (s : intset) : list Z :=
  le_encode 4 (encoding s) ++ le_encode 4 (length_ s) ++ contents s.

(** Any bytes of the right length are a packed array of some integers. *)
Lemma pack_surj e n bs :
  enc_ok e -> bytes_ok bs -> Zlen bs = e * Z.of_nat n ->
  exists l, bs = pack e l /\ length l = n /\ Forall (fits e) l.
Proof.
  intros He. assert (0 < e) by (unfold enc_ok in He; lia). revert bs.
  induction n as [|n IH]; intros bs Hbs Hlen.
  { exists []. destruct bs; [done|]. cbn [length] in Hlen. lia. }
  destruct (app_cut bs e) as (b & bs' & -> & Hb & Hb'); [nia|].
  apply Forall_app in Hbs as [Hok Hok']. rewrite Zlen_app in *.
  destruct (IH bs') as (l & -> & <- & Hf); [done|lia|].
  exists (le_decode_s b :: l). split_and!.
  - change (pack e (?x :: l)) with (le_encode (Z.to_nat e) x ++ pack e l).
    rewrite le_encode_decode_s; [done|lia..|done].
  - done.
  - constructor; [|done]. unfold fits.
    replace e with (Z.of_nat (Z.to_nat e)) by lia. apply le_decode_s_range; lia.
Qed.

Lemma blob_of_blob p : bytes_ok p -> 8 <= Zlen p -> blob (intset_of_blob p) = p.
Proof.
  intros Hp Hlen. unfold blob, intset_of_blob; cbn [encoding length_ contents].
  rewrite !le_encode_decode.
  - rewrite <- (take_drop 4 p) at 4. f_equal. rewrite <- (take_drop 4 (drop 4 p)) at 2.
    by rewrite drop_drop.
  - rewrite length_take, length_drop. lia.
  - by apply Forall_take, Forall_drop.
  - rewrite length_take. lia.
  - by apply Forall_take.
Qed.

Lemma of_blob_blob s :
  0 <= encoding s < 2 ^ 32 -> 0 <= length_ s < 2 ^ 32 -> intset_of_blob (blob s) = s.
Proof.
  destruct s as [e n c]; cbn [encoding length_]. intros He Hn.
  unfold blob, intset_of_blob; cbn [encoding length_ contents].
  pose proof (length_le_encode 4 e) as He4. pose proof (length_le_encode 4 n) as Hn4.
  rewrite take_app_length' by done. rewrite drop_app_length' by done.
  rewrite take_app_length' by done.
  rewrite app_assoc, drop_app_length' by (rewrite length_app; lia).
  rewrite !le_decode_encode. change (8 * Z.of_nat 4) with 32. by rewrite !uwrap_small.
Qed.

Lemma blob_length s : 0 <= encoding s -> Zlen (blob s) = 8 + Zlen (contents s).
Proof. intros. unfold blob. rewrite !Zlen_app, !length_le_encode. lia. Qed.

(** The checks before the deep one hold of every well-formed set. *)
Lemma repr_blob_len s l : repr s l -> Zlen (blob s) = 8 + length_ s * encoding s.
Proof.
  intros [He Hlen Hc _ _]. assert (0 <= encoding s) by (unfold enc_ok in He; lia).
  rewrite blob_length, Hc, length_pack by done. lia.
Qed.

Lemma of_blob_bounds p :
  bytes_ok p -> 8 <= Zlen p ->
  0 <= encoding (intset_of_blob p) < 2 ^ 32 /\ 0 <= length_ (intset_of_blob p) < 2 ^ 32 /\
  Zlen (contents (intset_of_blob p)) = Zlen p - 8.
Proof.
  intros Hp H8. unfold intset_of_blob; cbn [encoding length_ contents].
  pose proof (le_decode_bound (take 4 p) (Forall_take _ _ _ Hp)) as H1.
  pose proof (le_decode_bound (take 4 (drop 4 p)) (Forall_take _ _ _ (Forall_drop _ _ _ Hp))) as H2.
  rewrite length_take in H1, H2. rewrite length_drop in H2 |- *.
  replace (8 * Z.of_nat (Nat.min 4 (length p))) with 32 in H1 by lia.
  replace (8 * Z.of_nat (Nat.min 4 (length p - 4))) with 32 in H2 by lia. lia.
Qed.

Lemma blob_iff p :
  bytes_ok p -> Zlen p < 2 ^ 32 ->
  (exists s l, l <> [] /\ repr s l /\ p = blob s) <->
  8 <= Zlen p /\ exists l, l <> [] /\ repr (intset_of_blob p) l.
Proof.
  intros Hp Hsz. split.
  - intros (s & l & Hl & Hr & ->). pose proof (repr_blob_len _ _ Hr) as Hb.
    destruct (repr_enc _ _ Hr) as [E|[E|E]]; pose proof (repr_len _ _ Hr) as HL;
      (split; [lia|]; exists l; split; [done|]; by rewrite of_blob_blob by lia).
  - intros (H8 & l & Hl & Hr). exists (intset_of_blob p), l. by rewrite blob_of_blob.
Qed.

Lemma validate_loop_spec s l fuel : forall i prev,
  (forall j x, l !! j = Some x -> _intsetGet s (Z.of_nat j) = Some x) ->
  Zlen l < 2 ^ 31 -> (length l = i + fuel)%nat ->
  exists b, validate_loop s fuel (Z.of_nat i) prev = Some b /\
    (b = true <-> Sorted Z.lt (prev :: drop i l)).
Proof.
  induction fuel as [|fuel IH]; intros i prev Hget Hl Hi; cbn [validate_loop].
  { exists true. split; [done|]. rewrite drop_ge by lia. split; [repeat constructor|done]. }
  destruct (lookup_lt_is_Some_2 l i) as [x Hx]; [lia|].
  rewrite swrap_small, (Hget _ _ Hx) by lia. cbn [mbind option_bind].
  rewrite (drop_S _ _ _ Hx).
  destruct (Z.leb_spec x prev) as [Hle|Hlt].
  - exists false. split; [done|]. split; [done|]. intros Hs.
    inversion Hs as [|? ? _ Hhd]. inversion Hhd. lia.
  - destruct (IH (S i) x Hget Hl) as (b & Hb & Hiff); [lia|].
    replace (Z.of_nat i + 1) with (Z.of_nat (S i)) by lia. exists b. split; [done|].
    rewrite Hiff. split; intros Hs; [constructor; [done|by constructor]|by inversion Hs].
Qed.

Section Theorems.

Variable junk : nat -> list Z.

Lemma intsetAdd_spec s l v :
  repr s l -> Zlen l < 2 ^ 29 -> LLONG_MIN <= v <= LLONG_MAX ->
  exists s', intsetAdd junk s v = Some (s', bool_decide (v ∉ l)) /\
    encoding s' = Z.max (encoding s) (_intsetValueEncoding v) /\
    repr s' (zinsert v l) /\ (v ∈ l -> s' = s).
Proof.
  intros Hr Hl Hv. unfold intsetAdd. cbv zeta.
  destruct (Z.ltb_spec (encoding s) (_intsetValueEncoding v)) as [Hlt|Hge].
  { destruct (upgradeAndAdd_spec junk s l v Hr Hl Hv Hlt) as (s' & -> & He & Hr' & Hin).
    cbn [mbind option_bind]. rewrite bool_decide_true by done. exists s'.
    split; [done|]. split; [lia|]. by split. }
  destruct (search_spec s l v Hr) as (r & -> & Hres); [lia|].
  destruct Hr as [He Hlen Hc Hf Hs].
  apply valueEncoding_spec in Hge as Hfit; [|done..].
  inversion Hres as [l1 l2 ->|l1 l2 -> H1 H2]; subst r; cbn [mbind option_bind].
  - rewrite bool_decide_false
      by (intros Hn; apply Hn; rewrite elem_of_app, elem_of_cons; tauto).
    exists s. split; [done|]. split; [lia|]. split; [|done].
    apply sorted_around in Hs as Hs'. destruct Hs' as (H1 & H2 & _).
    assert (zinsert v (l1 ++ v :: l2) = l1 ++ v :: l2) as ->; [|done].
    by apply zinsert_present.
  - destruct (repr_insert (encoding s) l1 v l2 (length_ s + 1)) as [Hr Hin]; try done; [lia|].
    pose proof (insert_at junk s (encoding s) l1 l2 v (length_ s) He ltac:(lia) ltac:(lia)) as Hat.
    rewrite <- Hc in Hat. specialize (Hat ltac:(by destruct s)).
    destruct (intsetResize _ _ _) as [s1|]; [|discriminate Hat]. cbn [mbind option_bind] in *.
    destruct (if _ <? length_ s1 then _ else _) as [s2|]; [|discriminate Hat].
    cbn [mbind option_bind] in *. rewrite Hat. cbn [mbind option_bind encoding length_ contents].
    rewrite uwrap_small by lia. rewrite bool_decide_true by done. eexists.
    split; [done|]. split; [cbn [encoding]; lia|]. by split.
Qed.

(** C23: adding a 64-bit value to a well-formed intset of fewer than 2^29
    elements never leaves the buffer, reports success exactly when the value
    was absent, and yields a well-formed intset of the old elements and the
    value, at the wider of the two encodings. *)
Theorem intsetAdd_refines s l v :
  repr s l -> Zlen l < 2 ^ 29 -> LLONG_MIN <= v <= LLONG_MAX ->
  exists s', intsetAdd junk s v = Some (s', bool_decide (v ∉ l)) /\
    encoding s' = Z.max (encoding s) (_intsetValueEncoding v) /\
    repr s' (zinsert v l) /\ (v ∈ l -> s' = s).
Proof. apply intsetAdd_spec. Qed.

Lemma intsetRemove_spec s l v :
  repr s l -> Zlen l < 2 ^ 29 -> LLONG_MIN <= v <= LLONG_MAX ->
  exists s', intsetRemove junk s v = Some (s', bool_decide (v ∈ l)) /\
    encoding s' = encoding s /\ repr s' (zremove v l).
Proof.
  intros Hr Hl Hv. unfold intsetRemove. cbv zeta.
  assert (Habs : v ∉ l -> zremove v l = l).
  { intros Hin. apply filter_all, Forall_forall. intros x Hx ->. done. }
  destruct (Z.leb_spec (_intsetValueEncoding v) (encoding s)) as [Hle|Hgt].
  2: { rewrite bool_decide_false, Habs by (by eapply too_wide_absent). by exists s. }
  destruct (search_spec s l v Hr) as (r & -> & Hres); [lia|].
  destruct Hr as [He Hlen Hc Hf Hs].
  inversion Hres as [l1 l2 ->|l1 l2 -> H1 H2]; subst r; cbn [mbind option_bind].
  - rewrite bool_decide_true by (rewrite elem_of_app, elem_of_cons; tauto).
    pose proof (remove_at junk s (encoding s) l1 v l2 (length_ s) He ltac:(done) ltac:(lia)) as Hat.
    rewrite <- Hc in Hat. specialize (Hat ltac:(by destruct s)).
    destruct (if _ <? u32 _ then _ else _) as [s1|]; [|discriminate Hat].
    cbn [mbind option_bind] in *. rewrite Hat. cbn [mbind option_bind encoding length_ contents].
    rewrite Zlen_app in *. cbn [length] in *. rewrite uwrap_small by lia.
    eexists. split; [done|]. split; [done|].
    apply sorted_around in Hs as (H1 & H2 & Hs).
    assert (zremove v (l1 ++ v :: l2) = l1 ++ l2) as ->.
    { unfold zremove. rewrite filter_app, filter_cons, decide_False by tauto.
      rewrite !filter_all; [done|..];
        (eapply Forall_impl; [eassumption|]; simpl; intros ? ? ->; lia). }
    apply Forall_app in Hf as [Hf1 Hf2]. inversion Hf2; subst.
    split; cbn [encoding length_ contents]; try done; [rewrite Zlen_app; lia|by apply Forall_app].
  - pose proof (search_result_in _ _ _ _ Hres) as <-. exists s. split; [done|]. split; [done|].
    rewrite Habs; [by split|]. apply search_result_in in Hres. by eapply bool_decide_eq_false_1.
Qed.

(** Removing a value never leaves the buffer, reports success exactly
    when the value was present, and yields a well-formed intset of the other
    elements; the encoding is never narrowed. *)
Theorem intsetRemove_refines s l v :
  repr s l -> Zlen l < 2 ^ 29 -> LLONG_MIN <= v <= LLONG_MAX ->
  exists s', intsetRemove junk s v = Some (s', bool_decide (v ∈ l)) /\
    encoding s' = encoding s /\ repr s' (zremove v l).
Proof. apply intsetRemove_spec. Qed.

Lemma intsetFind_spec s l v :
  repr s l -> Zlen l < 2 ^ 31 -> LLONG_MIN <= v <= LLONG_MAX ->
  intsetFind s v = Some (bool_decide (v ∈ l)).
Proof.
  intros Hr Hl Hv. unfold intsetFind.
  destruct (Z.leb_spec (_intsetValueEncoding v) (encoding s)) as [Hle|Hgt].
  - destruct (search_spec s l v Hr Hl) as (r & -> & Hres).
    destruct r. cbn. f_equal. by eapply search_result_in.
  - by rewrite bool_decide_false by (by eapply too_wide_absent).
Qed.

(** [intsetFind] decides membership. *)
Theorem intsetFind_correct s l v :
  repr s l -> Zlen l < 2 ^ 31 -> LLONG_MIN <= v <= LLONG_MAX ->
  intsetFind s v = Some (bool_decide (v ∈ l)).
Proof. apply intsetFind_spec. Qed.



(** the accessors agree with the abstract set: [intsetGet] is indexing,
    [intsetMin] and [intsetMax] are the extreme elements, [intsetRandom]
    always returns a member, and none of them reads outside the buffer. *)
Theorem intset_accessors s l :
  repr s l -> l <> [] -> Zlen l < 2 ^ 31 ->
  (forall pos, 0 <= pos < 2 ^ 32 -> intsetGet s pos = Some (l !! Z.to_nat pos)) /\
  (exists v, intsetMin s = Some v /\ v ∈ l /\ Forall (Z.le v) l) /\
  (exists v, intsetMax s = Some v /\ v ∈ l /\ Forall (fun x => x <= v) l) /\
  (forall rand, 0 <= rand -> exists v, intsetRandom rand s = Some v /\ v ∈ l).
Proof.
  intros Hr Hne Hl. pose proof (repr_sorted _ _ Hr) as Hs.
  assert (0 < Zlen l) by (destruct l; [done|simpl; lia]).
  assert (Hget : forall pos, 0 <= pos < Zlen l -> exists v,
    _intsetGet s pos = Some v /\ l !! Z.to_nat pos = Some v /\ v ∈ l).
  { intros pos Hp. destruct (lookup_lt_is_Some_2 l (Z.to_nat pos)) as [v Hv]; [lia|].
    exists v. split; [|split; [done|by eapply list_elem_of_lookup_2]].
    rewrite <- (Z2Nat.id pos) by lia. by eapply repr_get. }
  split_and!.
  - intros pos Hpos. unfold intsetGet. rewrite (repr_len _ _ Hr).
    destruct (Z.ltb_spec pos (Zlen l)) as [Hlt|Hge].
    + destruct (Hget pos) as (v & Hv & Hlk & _); [lia|].
      by rewrite swrap_small, Hv, Hlk by lia.
    + by rewrite lookup_ge_None_2 by lia.
  - destruct (Hget 0) as (v & Hv & Hlk & Hin); [lia|]. exists v. split_and!; [done..|].
    change (Z.to_nat 0) with 0%nat in Hlk.
    apply Forall_lookup. intros i x Hi. destruct (decide (i = 0%nat)) as [->|]; [simplify_eq; lia|].
    pose proof (StronglySorted_lookup _ _ _ _ _ _ Hs Hlk Hi). lia.
  - destruct (Hget (Zlen l - 1)) as (v & Hv & Hlk & Hin); [lia|]. exists v. split_and!; [|done|].
    { unfold intsetMax. by rewrite (repr_len _ _ Hr), uwrap_small, swrap_small by lia. }
    apply Forall_lookup. intros i x Hi. pose proof (lookup_lt_Some _ _ _ Hi).
    destruct (decide (i = Z.to_nat (Zlen l - 1))) as [->|]; [simplify_eq; lia|].
    pose proof (StronglySorted_lookup _ _ _ _ _ _ Hs Hi Hlk). lia.
  - intros rand Hrand. unfold intsetRandom. rewrite (repr_len _ _ Hr).
    rewrite (proj2 (Z.eqb_neq _ _)) by lia.
    pose proof (Z.mod_pos_bound rand (Zlen l)). rewrite swrap_small by lia.
    destruct (Hget (rand mod Zlen l)) as (v & Hv & _ & Hin); [lia|]. eauto.
Qed.

End Theorems.

(** ** Concrete instances *)

Definition ex_set : intset := mk_intset 2 2 [255; 255; 5; 0].

Lemma ex_repr : repr ex_set [-1; 5].
Proof.
  split; [by left|done|done|repeat constructor; unfold fits; simpl; lia|repeat constructor].
Qed.

Lemma intsetAdd_refines_witness :
  exists s', intsetAdd (fun _ => []) ex_set 100000 = Some (s', bool_decide (100000 ∉ [-1; 5])) /\
    encoding s' = 4 /\ repr s' [-1; 5; 100000] /\ (100000 ∈ [-1; 5] -> s' = ex_set).
Proof. apply (intsetAdd_refines (fun _ => []) ex_set [-1; 5] 100000 ex_repr); simpl; lia. Defined.

Lemma intsetRemove_refines_witness :
  exists s', intsetRemove (fun _ => []) ex_set (-1) = Some (s', bool_decide (-1 ∈ [-1; 5])) /\
    encoding s' = 2 /\ repr s' [5].
Proof. apply (intsetRemove_refines (fun _ => []) ex_set [-1; 5] (-1) ex_repr); simpl; lia. Defined.

Lemma intsetFind_correct_witness : intsetFind ex_set 5 = Some (bool_decide (5 ∈ [-1; 5])).
Proof. apply (intsetFind_correct ex_set [-1; 5] 5 ex_repr); simpl; lia. Defined.



Lemma intset_accessors_witness :
  (forall pos, 0 <= pos < 2 ^ 32 -> intsetGet ex_set pos = Some ([-1; 5] !! Z.to_nat pos)) /\
  (exists v, intsetMin ex_set = Some v /\ v ∈ [-1; 5] /\ Forall (Z.le v) [-1; 5]) /\
  (exists v, intsetMax ex_set = Some v /\ v ∈ [-1; 5] /\ Forall (fun x => x <= v) [-1; 5]) /\
  (forall rand, 0 <= rand -> exists v, intsetRandom rand ex_set = Some v /\ v ∈ [-1; 5]).
Proof. apply (intset_accessors ex_set [-1; 5] ex_repr); [done|simpl; lia]. Defined.

End Intset.
