(* ===== verification/Glob.v ===== *)
(** * Glob-style pattern matching (src/redis-7.2.4/src/util.c, stringmatchlen)

    The matcher behind KEYS, SCAN MATCH, PSUBSCRIBE and ACL key patterns.
    Pattern and string are byte sequences; the pattern is an sds string, so
    the byte after its last one is the terminating NUL that the source reads
    when it looks past [patternLen].  A pattern pointer with its remaining
    length is the remaining suffix of the pattern. *)

From S2P Require Import Prelude.

Module Glob.

(** Character constants of the source. *)
Abbreviation c_star := 42.
Abbreviation c_quest := 63.
Abbreviation c_lbr := 91.
Abbreviation c_rbr := 93.
Abbreviation c_bsl := 92.
Abbreviation c_caret := 94.
Abbreviation c_minus := 45.

(** [tolower] in the C locale. *)
Definition tolower (c : Z) : Z := if (65 <=? c) && (c <=? 90) then c + 32 else c.

(** [pattern[k]], the NUL terminator included. *)
Definition pat_at (p : list Z) (k : nat) : Z := nth k p 0.

(** Comparison of two chars in the two case modes. *)
Definition char_eq (nocase : bool) (a b : Z) : bool :=
  if nocase then tolower (s8 a) =? tolower (s8 b) else s8 a =? s8 b.

(** The range item [pattern[0]-pattern[2]] against [string[0]]. *)
Definition range_match (nocase : bool) (p0 p2 s0 : Z) : bool :=
  let start := s8 p0 in
  let end_ := s8 p2 in
  let c := s8 s0 in
  let '(start, end_) := if end_ <? start then (end_, start) else (start, end_) in
  let '(start, end_, c) :=
    if nocase then (tolower start, tolower end_, tolower c) else (start, end_, c) in
  (start <=? c) && (c <=? end_).

(** The [while(1)] loop over a bracket expression: whether an item matched,
    and the pattern after the closing bracket.  An unclosed bracket ends the
    pattern ([pattern--] is undone by the [pattern++] that follows). *)
Fixpoint class_loop (fuel : nat) (nocase : bool) (p : list Z) (s0 : Z) (match_ : bool)
  : option (bool * list Z) :=
  match fuel with
  | O => None
  | S fuel' =>
      if (pat_at p 0 =? c_bsl) && (2 <=? length p)%nat then
        let p := drop 1 p in
        let match_ := if s8 (pat_at p 0) =? s8 s0 then true else match_ in
        class_loop fuel' nocase (drop 1 p) s0 match_
      else if pat_at p 0 =? c_rbr then Some (match_, drop 1 p)
      else if (length p =? 0)%nat then Some (match_, [])
      else if (3 <=? length p)%nat && (pat_at p 1 =? c_minus) then
        let match_ := if range_match nocase (pat_at p 0) (pat_at p 2) s0 then true else match_ in
        class_loop fuel' nocase (drop 1 (drop 2 p)) s0 match_
      else
        let match_ := if char_eq nocase (pat_at p 0) s0 then true else match_ in
        class_loop fuel' nocase (drop 1 p) s0 match_
  end.

(** [while (patternLen && pattern[1] == '*')], the pattern starting with a star. *)
Fixpoint collapse_stars (p : list Z) : list Z :=
  match p with
  | c :: ((d :: _) as p') => if d =? c_star then collapse_stars p' else p
  | _ => p
  end.

(** [while ( *pattern == '*')] once the string is exhausted. *)
Fixpoint skip_stars (p : list Z) : list Z :=
  match p with
  | c :: p' => if c =? c_star then skip_stars p' else p
  | [] => []
  end.

(** The [while(stringLen)] loop of the star case, [rec] being the recursive
    call on the pattern after the star.  Result and [*skipLongerMatches]. *)
Fixpoint star_loop (rec : list Z -> bool -> option (bool * bool)) (s : list Z) (skip : bool)
  : option (bool * bool) :=
  match s with
  | [] => Some (false, true)
  | _ :: s' =>
      '(r, skip) ← rec s skip;
      if (r : bool) then Some (true, skip)
      else if (skip : bool) then Some (false, skip)
      else star_loop rec s' skip
  end.

(** The outer loop: each round consumes at least one byte of the pattern, so
    [S (length p)] rounds are enough. *)
Fixpoint stringmatchlen_impl (fuel : nat) (nocase : bool) (p s : list Z) (skip : bool)
  : option (bool * bool) :=
  match fuel with
  | O => None
  | S fuel' =>
      (* the code from [pattern++] to the end of the loop *)
      let next (p s : list Z) :=
        match s with
        | [] => let p := skip_stars p in Some ((length p =? 0)%nat, skip)
        | _ => stringmatchlen_impl fuel' nocase p s skip
        end in
      match p, s with
      | c :: p', x :: s' =>
          if c =? c_star then
            let p := collapse_stars p in
            if (length p =? 1)%nat then Some (true, skip)
            else star_loop (fun s skip => stringmatchlen_impl fuel' nocase (drop 1 p) s skip) s skip
          else if c =? c_quest then next p' s'
          else if c =? c_lbr then
            let not := pat_at p' 0 =? c_caret in
            let p := if not then drop 1 p' else p' in
            '(match_, p) ← class_loop (S (length p)) nocase p x false;
            let match_ := if not then negb match_ else match_ in
            if match_ then next p s' else Some (false, skip)
          else
            let p := if (c =? c_bsl) && (2 <=? length p)%nat then p' else p in
            if char_eq nocase (pat_at p 0) x then next (drop 1 p) s' else Some (false, skip)
      | _, _ => Some ((length p =? 0)%nat && (length s =? 0)%nat, skip)
      end
  end.

Definition stringmatchlen (p s : list Z) (nocase : bool) : option bool :=
  fst <$> stringmatchlen_impl (S (length p)) nocase p s false.

(** The bytes of a C string up to its terminator. *)
Fixpoint strlen_prefix (s : list Z) : list Z :=
  match s with
  | [] => []
  | c :: s' => if c =? 0 then [] else c :: strlen_prefix s'
  end.

Definition stringmatch (pattern string : list Z) (nocase : bool) : option bool :=
  stringmatchlen (strlen_prefix pattern) (strlen_prefix string) nocase.

(** ** Reference semantics: patterns as token sequences *)

Inductive item :=
| IEsc (c : Z)
| IRange (a b : Z)
| IChar (c : Z).

Inductive tok :=
| TStar
| TAny
| TClass (neg : bool) (items : list item)
| TChar (c : Z).

(** The items of a bracket expression and the pattern after it. *)
Fixpoint parse_class (p : list Z) : list item * list Z :=
  match p with
  | [] => ([], [])
  | c :: p1 =>
      match p1 with
      | [] => if c =? c_rbr then ([], []) else ([IChar c], [])
      | d :: p2 =>
          if c =? c_bsl then let '(l, r) := parse_class p2 in (IEsc d :: l, r)
          else if c =? c_rbr then ([], p1)
          else match p2 with
               | e :: p3 =>
                   if d =? c_minus then let '(l, r) := parse_class p3 in (IRange c e :: l, r)
                   else let '(l, r) := parse_class p1 in (IChar c :: l, r)
               | [] => let '(l, r) := parse_class p1 in (IChar c :: l, r)
               end
      end
  end.

(** The first token of a non-empty pattern and the rest. *)
Definition parse_tok (c : Z) (p : list Z) : tok * list Z :=
  if c =? c_star then (TStar, p)
  else if c =? c_quest then (TAny, p)
  else if c =? c_lbr then
    let neg := pat_at p 0 =? c_caret in
    let '(l, r) := parse_class (if neg then drop 1 p else p) in (TClass neg l, r)
  else match p with
       | d :: p' => if c =? c_bsl then (TChar d, p') else (TChar c, p)
       | [] => (TChar c, [])
       end.

Fixpoint parse (fuel : nat) (p : list Z) : list tok :=
  match fuel, p with
  | S fuel', c :: p' => let '(t, r) := parse_tok c p' in t :: parse fuel' r
  | _, _ => []
  end.

Definition tokens (p : list Z) : list tok := parse (length p) p.

Definition item_ok (nocase : bool) (x : Z) (i : item) : bool :=
  match i with
  | IEsc c => s8 c =? s8 x
  | IRange a b => range_match nocase a b x
  | IChar c => char_eq nocase c x
  end.

(** Whether a token other than the star accepts a byte. *)
Definition tok_ok (nocase : bool) (t : tok) (x : Z) : bool :=
  match t with
  | TStar => false
  | TAny => true
  | TClass neg l => xorb neg (existsb (item_ok nocase x) l)
  | TChar c => char_eq nocase c x
  end.

(** A token sequence matches a string: a star any substring, every other
    token one accepted byte. *)
Inductive gmatch (nocase : bool) : list tok -> list Z -> Prop :=
| gmatch_nil : gmatch nocase [] []
| gmatch_star ts s1 s2 : gmatch nocase ts s2 -> gmatch nocase (TStar :: ts) (s1 ++ s2)
| gmatch_one t ts x s :
    tok_ok nocase t x = true -> gmatch nocase ts s -> gmatch nocase (t :: ts) (x :: s).

(** ** Parsing lemmas *)

Lemma parse_class_cons2 c d p2 :
  parse_class (c :: d :: p2) =
    if c =? c_bsl then let '(l, r) := parse_class p2 in (IEsc d :: l, r)
    else if c =? c_rbr then ([], d :: p2)
    else match p2 with
         | e :: p3 =>
             if d =? c_minus then let '(l, r) := parse_class p3 in (IRange c e :: l, r)
             else let '(l, r) := parse_class (d :: p2) in (IChar c :: l, r)
         | [] => let '(l, r) := parse_class (d :: p2) in (IChar c :: l, r)
         end.
Proof. done. Qed.

Lemma parse_class_length p : (length (snd (parse_class p)) <= length p)%nat.
Proof.
  remember (length p) as n eqn:Hn. revert p Hn.
  induction (lt_wf n) as [n _ IH]; intros p ->.
  destruct p as [|c [|d p2]]; [simpl; lia|simpl; case_match; simpl; lia|].
  rewrite parse_class_cons2. destruct p2 as [|e p3]; repeat case_match;
    cbn [snd length]; try lia.
  all: match goal with H : parse_class ?q = (_, ?r) |- (length ?r <= _)%nat =>
         pose proof (IH (length q) ltac:(simpl; lia) q eq_refl) as Hq; rewrite H in Hq;
         simpl in Hq; lia end.
Qed.

Lemma parse_tok_length c p : (length (snd (parse_tok c p)) <= length p)%nat.
Proof.
  unfold parse_tok. repeat case_match; simpl; try lia; subst.
  all: match goal with H : parse_class ?q = (_, ?r) |- _ =>
         pose proof (parse_class_length q) as Hq; rewrite H in Hq; simpl in Hq end.
  - rewrite length_drop in Hq. lia.
  - lia.
Qed.

Lemma parse_fuel f1 f2 p :
  (length p <= f1)%nat -> (length p <= f2)%nat -> parse f1 p = parse f2 p.
Proof.
  revert f2 p. induction f1 as [|f1 IH]; intros [|f2] [|c p] H1 H2; simpl in *; try done; try lia.
  pose proof (parse_tok_length c p). destruct (parse_tok c p) as [t r]. simpl in *.
  f_equal. apply IH; lia.
Qed.

Lemma tokens_cons c p t r : parse_tok c p = (t, r) -> tokens (c :: p) = t :: tokens r.
Proof.
  intros H. unfold tokens. cbn [length parse]. rewrite H. f_equal.
  pose proof (parse_tok_length c p) as Hl. rewrite H in Hl. simpl in Hl. apply parse_fuel; lia.
Qed.

(** The bracket loop computes whether an item accepts the byte. *)
Lemma class_loop_spec nocase x fuel : forall p m,
  (length p < fuel)%nat ->
  class_loop fuel nocase p x m =
    Some (m || existsb (item_ok nocase x) (fst (parse_class p)), snd (parse_class p)).
Proof.
  induction fuel as [|fuel IH]; intros p m Hf; [lia|]. cbn [class_loop].
  assert (Hif : forall b a : bool, (if b then true else a) = a || b) by (by intros [] []).
  destruct p as [|c [|d p2]].
  - cbn. by rewrite orb_false_r.
  - cbn [pat_at nth length Nat.leb drop]. rewrite andb_false_r. cbn [parse_class].
    destruct (c =? c_rbr); cbn [fst snd existsb andb Nat.eqb]; [by rewrite orb_false_r|].
    rewrite IH by (simpl in *; lia). cbn. by rewrite Hif, !orb_false_r.
  - rewrite parse_class_cons2. cbn [pat_at nth drop length Nat.leb]. rewrite andb_true_r, !drop_0.
    destruct (c =? c_bsl).
    { rewrite Hif, IH by (simpl in *; lia). destruct (parse_class p2). cbn. by rewrite orb_assoc. }
    destruct (c =? c_rbr); [cbn; by rewrite orb_false_r|]. cbn [Nat.eqb].
    destruct p2 as [|e p3]; cbn [length Nat.leb andb nth drop].
    { rewrite Hif, IH by (simpl in *; lia). destruct (parse_class [d]). cbn. by rewrite orb_assoc. }
    destruct (d =? c_minus).
    + rewrite Hif, ?drop_0, IH by (simpl in *; lia). destruct (parse_class p3). cbn. by rewrite orb_assoc.
    + rewrite Hif, IH by (simpl in *; lia). destruct (parse_class (d :: e :: p3)).
      cbn. by rewrite orb_assoc.
Qed.

(** What follows a consumed token: the code from [pattern++] on. *)
Definition next_step (fuel : nat) (nocase skip : bool) (p s : list Z) : option (bool * bool) :=
  match s with
  | [] => Some ((length (skip_stars p) =? 0)%nat, skip)
  | _ => stringmatchlen_impl fuel nocase p s skip
  end.

(** One round on a token other than the star. *)
Lemma impl_one fuel nocase c p x s skip t r :
  c <> c_star -> parse_tok c p = (t, r) ->
  stringmatchlen_impl (S fuel) nocase (c :: p) (x :: s) skip =
    (if tok_ok nocase t x then next_step fuel nocase skip r s else Some (false, skip)).
Proof.
  intros Hc Ht. unfold parse_tok in Ht. cbn [stringmatchlen_impl].
  rewrite (proj2 (Z.eqb_neq _ _) Hc) in *.
  destruct (c =? c_quest); [by simplify_eq|].
  destruct (c =? c_lbr).
  - rewrite class_loop_spec by lia.
    destruct (parse_class _) as [l q] eqn:E. simplify_eq. cbn.
    by destruct (_ =? _), (existsb _ _).
  - destruct p as [|d p']; cbn [length Nat.leb].
    + rewrite andb_false_r. by simplify_eq.
    + rewrite andb_true_r. destruct (c =? c_bsl); by simplify_eq.
Qed.

Lemma parse_tok_nostar c p t r : c <> c_star -> parse_tok c p = (t, r) -> t <> TStar.
Proof.
  intros Hc. unfold parse_tok. rewrite (proj2 (Z.eqb_neq _ _) Hc).
  repeat case_match; intros; by simplify_eq.
Qed.

Lemma tokens_star p : tokens (c_star :: p) = TStar :: tokens p.
Proof. by apply tokens_cons. Qed.

(** ** Matching lemmas *)

Lemma gmatch_star_iff nocase ts s :
  gmatch nocase (TStar :: ts) s <-> exists t, t `suffix_of` s /\ gmatch nocase ts t.
Proof.
  split.
  - inversion 1 as [|? s1 s2 Hm|? ? ? ? Hok Hm]; subst; [|done].
    exists s2. split; [by exists s1|done].
  - intros (t & [k ->] & Hm). by constructor.
Qed.

Lemma gmatch_one_iff nocase t ts x s :
  t <> TStar ->
  gmatch nocase (t :: ts) (x :: s) <-> tok_ok nocase t x = true /\ gmatch nocase ts s.
Proof.
  intros Ht. split; [inversion 1; by subst|]. intros []. by constructor.
Qed.

Lemma gmatch_one_nil nocase t ts : t <> TStar -> ~ gmatch nocase (t :: ts) [].
Proof. intros Ht. inversion 1; by subst. Qed.

Lemma gmatch_star_star nocase ts s :
  gmatch nocase (TStar :: TStar :: ts) s <-> gmatch nocase (TStar :: ts) s.
Proof.
  rewrite !gmatch_star_iff. setoid_rewrite gmatch_star_iff. split.
  - intros (t & Ht & u & Hu & Hm). exists u. split; [by etrans|done].
  - intros (t & Ht & Hm). exists t. split; [done|]. by exists t.
Qed.

(** Only stars match the empty string. *)
Lemma gmatch_skip_stars nocase p :
  gmatch nocase (tokens p) [] <-> skip_stars p = [].
Proof.
  induction p as [|c p IH]; [split; [done|constructor]|]. cbn [skip_stars].
  destruct (Z.eqb_spec c c_star) as [->|Hc].
  - rewrite tokens_star, gmatch_star_iff, <- IH. split.
    + intros (t & Ht & Hm). by apply suffix_nil_inv in Ht as ->.
    + intros. by exists [].
  - destruct (parse_tok c p) as [t r] eqn:E. rewrite (tokens_cons _ _ _ _ E).
    split; [|done]. intros Hm. by apply gmatch_one_nil in Hm; [|eapply parse_tok_nostar].
Qed.

(** Collapsing a run of stars leaves one star before a pattern that does not
    start with a star. *)
Lemma collapse_spec nocase p :
  exists r, collapse_stars (c_star :: p) = c_star :: r /\ (length r <= length p)%nat /\
    head r <> Some c_star /\
    forall s, gmatch nocase (tokens (c_star :: p)) s <-> gmatch nocase (TStar :: tokens r) s.
Proof.
  induction p as [|d p IH]; [exists []; naive_solver|]. cbn [collapse_stars].
  destruct (Z.eqb_spec d c_star) as [->|Hd].
  - destruct IH as (r & Hr & Hl & Hh & Hm). exists r. split_and!; [done|simpl; lia|done|].
    intros s. rewrite <- Hm, !tokens_star. apply gmatch_star_star.
  - exists (d :: p). split_and!; [done|lia|simpl; congruence|done].
Qed.

(** What a call promises: the right answer, and a set flag only when no
    suffix of the string matches either. *)
Definition impl_ok (nocase : bool) (ts : list tok) (s : list Z) (res : option (bool * bool)) : Prop :=
  exists r k, res = Some (r, k) /\ (r = true <-> gmatch nocase ts s) /\
    (k = true -> r = false -> forall t, t `suffix_of` s -> ~ gmatch nocase ts t).

Lemma star_loop_spec nocase rec ts :
  (forall s, s <> [] -> impl_ok nocase ts s (rec s false)) -> ~ gmatch nocase ts [] ->
  forall s, impl_ok nocase (TStar :: ts) s (star_loop rec s false).
Proof.
  intros Hrec Hnil s.
  enough (exists r k, star_loop rec s false = Some (r, k) /\
    (r = true <-> exists t, t `suffix_of` s /\ gmatch nocase ts t)) as (r & k & -> & Hr).
  { exists r, k. split; [done|]. rewrite gmatch_star_iff. split; [done|].
    intros _ -> t Ht. rewrite gmatch_star_iff. intros (u & Hu & Hm).
    assert (false = true) by (apply Hr; exists u; split; [by etrans|done]). done. }
  induction s as [|x s IH]; cbn [star_loop].
  { exists false, true. split; [done|]. split; [done|].
    intros (t & Ht & Hm). by apply suffix_nil_inv in Ht as ->. }
  destruct (Hrec (x :: s)) as (r & k & -> & Hr & Hk); [done|]. cbn [mbind option_bind].
  destruct r.
  { exists true, k. split; [done|]. split; [|done]. intros _. exists (x :: s).
    split; [done|by apply Hr]. }
  destruct k.
  { exists false, true. split; [done|]. split; [done|].
    intros (t & Ht & Hm). exfalso. by eapply Hk. }
  destruct IH as (r & k & -> & Hrs). exists r, k. split; [done|]. rewrite Hrs. split.
  - intros (t & Ht & Hm). exists t. split; [by apply suffix_cons_r|done].
  - intros ([|y t] & Ht & Hm); [done|].
    apply suffix_cons_inv in Ht as [E|Ht]; [|by exists (y :: t)].
    rewrite E in Hm. by apply Hr in Hm.
Qed.

Lemma impl_spec nocase fuel : forall p s,
  (length p < fuel)%nat -> s <> [] \/ p = [] ->
  impl_ok nocase (tokens p) s (stringmatchlen_impl fuel nocase p s false).
Proof.
  induction fuel as [|fuel IH]; intros p s Hf Hs; [lia|].
  destruct p as [|c p].
  { exists (length s =? 0)%nat, false. split; [done|]. split; [|done].
    destruct s; [split; [constructor|done]|]. split; [done|inversion 1]. }
  destruct s as [|x s]; [naive_solver|]. clear Hs. simpl in Hf.
  destruct (decide (c = c_star)) as [->|Hc].
  - destruct (collapse_spec nocase p) as (r & Hr & Hl & Hh & Hm).
    cbn [stringmatchlen_impl]. rewrite Z.eqb_refl, Hr. cbn [length drop]. rewrite drop_0.
    assert (Hgoal : impl_ok nocase (TStar :: tokens r) (x :: s)
      (if (S (length r) =? 1)%nat then Some (true, false)
       else star_loop (fun s skip => stringmatchlen_impl fuel nocase r s skip) (x :: s) false)).
    + destruct r as [|d r]; cbn [length Nat.eqb].
      * exists true, false. split; [done|]. split; [|done]. split; [|done]. intros _.
        rewrite <- (app_nil_r (x :: s)). repeat constructor.
      * apply star_loop_spec.
        { intros s0 Hs0. apply IH; [simpl in *; lia|by left]. }
        rewrite gmatch_skip_stars. cbn [skip_stars].
        destruct (Z.eqb_spec d c_star) as [->|]; done.
    + destruct Hgoal as (r' & k & Hres & Hr' & Hk). exists r', k. rewrite Hm. split; [done|].
      split; [done|]. intros ? ? t Ht. rewrite Hm. by apply Hk.
  - destruct (parse_tok c p) as [t r] eqn:E.
    pose proof (parse_tok_nostar _ _ _ _ Hc E) as Ht.
    pose proof (parse_tok_length c p) as Hl. rewrite E in Hl. simpl in Hl.
    rewrite (impl_one _ _ _ _ _ _ _ _ _ Hc E), (tokens_cons _ _ _ _ E).
    destruct (tok_ok nocase t x) eqn:Hok.
    2:{ exists false, false. split; [done|]. rewrite gmatch_one_iff by done. naive_solver. }
    assert (Hnext : impl_ok nocase (tokens r) s (next_step fuel nocase false r s)).
    { destruct s as [|y s]; cbn [next_step]; [|apply IH; [lia|by left]].
      eexists _, false. split; [done|]. split; [|done]. rewrite gmatch_skip_stars.
      destruct (skip_stars r); naive_solver. }
    destruct Hnext as (r' & k & -> & Hr & Hk). exists r', k. split; [done|].
    rewrite gmatch_one_iff by done. split; [naive_solver|].
    intros Hkt Hrf [|y u] Hu; [by apply gmatch_one_nil|].
    rewrite gmatch_one_iff by done. intros [_ Hm]. eapply Hk; [done..| |exact Hm].
    apply suffix_cons_inv in Hu as [[= -> ->]|Hu]; [done|]. by eapply suffix_cons_l.
Qed.

(** C14: on a non-empty string the matcher terminates and returns 1 exactly
    when the tokens of the pattern match it, the early termination by
    [skipLongerMatches] included. *)
Theorem stringmatchlen_correct p s nocase :
  s <> [] ->
  exists b, stringmatchlen p s nocase = Some b /\ (b = true <-> gmatch nocase (tokens p) s).
Proof.
  intros Hs. destruct (impl_spec nocase (S (length p)) p s) as (r & k & Hres & Hr & _);
    [lia|by left|].
  exists r. unfold stringmatchlen. by rewrite Hres.
Qed.

(** C34: on the empty string the matcher only accepts the empty pattern, where
    the token semantics also accepts patterns made of stars. *)
Theorem stringmatchlen_empty_string p nocase :
  stringmatchlen p [] nocase = Some (bool_decide (p = [])) /\
  (gmatch nocase (tokens p) [] <-> skip_stars p = []).
Proof.
  split; [|apply gmatch_skip_stars]. unfold stringmatchlen. by destruct p.
Qed.

(** "h[^a]*o" matches "hello" and the same pattern does not match "hallo". *)
Lemma stringmatchlen_correct_witness :
  exists b, stringmatchlen [104; 91; 94; 97; 93; 42; 111] [104; 101; 108; 108; 111] false = Some b /\
    (b = true <-> gmatch false (tokens [104; 91; 94; 97; 93; 42; 111]) [104; 101; 108; 108; 111]).
Proof.
  apply (stringmatchlen_correct [104; 91; 94; 97; 93; 42; 111] [104; 101; 108; 108; 111] false).
  done.
Defined.

Example glob_hello :
  stringmatchlen [104; 91; 94; 97; 93; 42; 111] [104; 101; 108; 108; 111] false = Some true /\
  stringmatchlen [104; 91; 94; 97; 93; 42; 111] [104; 97; 108; 108; 111] false = Some false.
Proof. split; vm_compute; reflexivity. Qed.

End Glob.
