(* ===== verification/NumConv.v ===== *)
(** * Integers and their decimal strings (src/redis-7.2.4/src/util.c)

    [digits10], [ull2string], [ll2string] write decimal numbers into a caller
    supplied buffer, [string2ll] and [string2l] parse them back.  The integer
    encodings of strings, lists and sets rely on these being inverse to each
    other. *)

From Stdlib Require Import String Ascii.
From S2P Require Import Prelude.

Module NumConv.

(** The bytes of a C string literal. *)
Definition zs (s : string) : list Z :=
  map (fun c => Z.of_nat (nat_of_ascii c)) (list_ascii_of_string s).

(** ** Operations *)

(** The recursive call divides by 10^12, so two levels cover 64 bits. *)
Fixpoint digits10_rec (fuel : nat) (v : Z) : Z :=
  match fuel with
  | O => 0
  | S fuel' =>
      if v <? 10 then 1
      else if v <? 100 then 2
      else if v <? 1000 then 3
      else if v <? 1000000000000 then
        if v <? 100000000 then
          if v <? 1000000 then
            if v <? 10000 then 4
            else 5 + (if 100000 <=? v then 1 else 0)
          else 7 + (if 10000000 <=? v then 1 else 0)
        else if v <? 10000000000 then 9 + (if 1000000000 <=? v then 1 else 0)
        else 11 + (if 100000000000 <=? v then 1 else 0)
      else 12 + digits10_rec fuel' (v / 1000000000000)
  end.

Definition digits10 (v : Z) : Z := digits10_rec 2 v.

Definition sdigits10 (v : Z) : Z :=
  if v <? 0 then
    let uv := if negb (v =? LLONG_MIN) then u64 (- v) else u64 (LLONG_MAX + 1) in
    u32 (digits10 uv + 1)
  else digits10 (u64 v).

(** [static const char digits[201]]. *)
Definition digits : list Z :=
  zs "0001020304050607080910111213141516171819" ++
  zs "2021222324252627282930313233343536373839" ++
  zs "4041424344454647484950515253545556575859" ++
  zs "6061626364656667686970717273747576777879" ++
  zs "8081828384858687888990919293949596979899" ++ [0].

(** [while (value >= 100)]: the buffer, the value left and [next]. *)
Fixpoint ull2string_loop (fuel : nat) (dst : list Z) (value next : Z) : option (list Z * Z * Z) :=
  match fuel with
  | O => None
  | S fuel' =>
      if 100 <=? value then
        let i := (value mod 100) * 2 in
        d1 ← rd1 digits (i + 1);
        d0 ← rd1 digits i;
        dst ← wr1 dst next d1;
        dst ← wr1 dst (u32 (next - 1)) d0;
        ull2string_loop fuel' dst (value / 100) (u32 (next - 2))
      else Some (dst, value, next)
  end.

(** The [err:] exit: the empty string, when there is room for it. *)
Definition put_err (dst : list Z) (dstlen : Z) : option (Z * list Z) :=
  dst ← (if 0 <? dstlen then wr1 dst 0 0 else Some dst); Some (0, dst).

(** The return value and the buffer after the call. *)
Definition ull2string (dst : list Z) (dstlen value : Z) : option (Z * list Z) :=
  let length := digits10 value in
  if dstlen <=? length then put_err dst dstlen
  else
    let next := u32 (length - 1) in
    dst ← wr1 dst (next + 1) 0;
    '(dst, value, next) ← ull2string_loop 11 dst value next;
    dst ← (if value <? 10 then wr1 dst next (48 + value)
           else
             let i := value * 2 in
             d1 ← rd1 digits (i + 1);
             d0 ← rd1 digits i;
             dst ← wr1 dst next d1;
             wr1 dst (u32 (next - 1)) d0);
    Some (length, dst).

(** [dst++] leaves the first byte alone: the rest is the buffer passed on. *)
Definition ll2string (dst : list Z) (dstlen svalue : Z) : option (Z * list Z) :=
  if svalue <? 0 then
    let value := if negb (svalue =? LLONG_MIN) then u64 (- svalue) else u64 (LLONG_MAX + 1) in
    if dstlen <? 2 then put_err dst dstlen
    else
      dst ← wr1 dst 0 45;
      '(length, rest) ← ull2string (drop 1 dst) (dstlen - 1) value;
      let dst := take 1 dst ++ rest in
      if length =? 0 then Some (0, dst) else Some (length + 1, dst)
  else
    '(length, dst) ← ull2string dst dstlen (u64 svalue);
    if length =? 0 then Some (0, dst) else Some (length + 0, dst).

Definition LONG_STR_SIZE : Z := 21.

Definition is_digit (c : Z) : bool := (48 <=? c) && (c <=? 57).

(** The digit loop of [string2ll]: the value and the unread suffix. *)
Fixpoint string2ll_loop (p : list Z) (v : Z) : option (Z * list Z) :=
  match p with
  | c :: p' =>
      if is_digit c then
        if ULLONG_MAX / 10 <? v then None
        else
          let v := u64 (v * 10) in
          if ULLONG_MAX - (c - 48) <? v then None
          else string2ll_loop p' (u64 (v + (c - 48)))
      else Some (v, p)
  | [] => Some (v, [])
  end.

(** The parsed value, [None] when the function returns 0. *)
Definition string2ll (s : list Z) : option Z :=
  let slen := Zlen s in
  if (slen =? 0) || (LONG_STR_SIZE <=? slen) then None
  else if (slen =? 1) && (nth 0 s 0 =? 48) then Some 0
  else
    let negative := nth 0 s 0 =? 45 in
    let p := if negative then drop 1 s else s in
    match p with
    | [] => None
    | c :: p =>
        if (49 <=? c) && (c <=? 57) then
          '(v, p) ← string2ll_loop p (c - 48);
          if negb (length p =? 0)%nat then None
          else if negative then
            if u64 (- (LLONG_MIN + 1) + 1) <? v then None else Some (s64 (u64 (- v)))
          else if LLONG_MAX <? v then None else Some v
        else None
    end.

Definition string2l (s : list Z) : option Z :=
  llval ← string2ll s;
  if (llval <? LLONG_MIN) || (LLONG_MAX <? llval) then None else Some llval.

(** ** Decimal representation *)

Fixpoint itoa_f (n : nat) (v : Z) : list Z :=
  match n with
  | O => []
  | S n' => if v <? 10 then [48 + v] else itoa_f n' (v / 10) ++ [48 + v mod 10]
  end.

(** The decimal digits of a number below 10^24, which covers 64 bits. *)
Definition itoa (v : Z) : list Z := itoa_f 25 v.

(** The decimal representation of a signed number. *)
Definition lltoa (v : Z) : list Z := if v <? 0 then 45 :: itoa (- v) else itoa v.

Lemma itoa_f_S n v :
  itoa_f (S n) v = if v <? 10 then [48 + v] else itoa_f n (v / 10) ++ [48 + v mod 10].
Proof. done. Qed.

#[local] Opaque itoa_f.

Lemma pow10_S n : 10 ^ Z.of_nat (S n) = 10 * 10 ^ Z.of_nat n.
Proof. rewrite Nat2Z.inj_succ, Z.pow_succ_r by lia. done. Qed.

Lemma div10_bound v n : 0 <= v < 10 ^ Z.of_nat (S n) -> 0 <= v / 10 < 10 ^ Z.of_nat n.
Proof.
  intros Hv. rewrite pow10_S in Hv. split; [apply Z.div_pos; lia|].
  apply Z.div_lt_upper_bound; lia.
Qed.

Lemma itoa_fuel n : forall m v, 0 <= v < 10 ^ Z.of_nat n -> v < 10 ^ Z.of_nat m ->
  itoa_f (S n) v = itoa_f (S m) v.
Proof.
  induction n as [|n IH]; intros m v Hn Hm; rewrite (itoa_f_S _ v), (itoa_f_S m v).
  - change (10 ^ Z.of_nat 0) with 1 in Hn. by rewrite (proj2 (Z.ltb_lt _ _)) by lia.
  - destruct (Z.ltb_spec v 10) as [H|H]; [done|]. f_equal.
    destruct m as [|m]; [change (10 ^ Z.of_nat 0) with 1 in Hm; lia|].
    apply IH; apply div10_bound; lia.
Qed.

Lemma itoa_S n v : (n <= 24)%nat -> 0 <= v < 10 ^ Z.of_nat n -> itoa_f (S n) v = itoa v.
Proof.
  intros Hn Hv. unfold itoa. apply itoa_fuel; [done|].
  assert (10 ^ Z.of_nat n <= 10 ^ Z.of_nat 24) by (apply Z.pow_le_mono_r; lia). lia.
Qed.

Lemma itoa_small v : 0 <= v < 10 -> itoa v = [48 + v].
Proof. intros. unfold itoa. rewrite itoa_f_S. by rewrite (proj2 (Z.ltb_lt _ _)) by lia. Qed.

Lemma itoa_step v : 10 <= v < 10 ^ 24 -> itoa v = itoa (v / 10) ++ [48 + v mod 10].
Proof.
  intros Hv. rewrite <- (itoa_S 24) by (change (Z.of_nat 24) with 24; lia).
  rewrite itoa_f_S, (proj2 (Z.ltb_ge _ _)), (itoa_S 23); [done|lia| |lia].
  apply div10_bound. change (Z.of_nat 24) with 24. lia.
Qed.

Lemma itoa_step2 v :
  100 <= v < 10 ^ 24 ->
  itoa v = itoa (v / 100) ++ [48 + (v mod 100) / 10; 48 + (v mod 100) mod 10].
Proof.
  intros Hv. rewrite itoa_step by lia.
  assert (10 <= v / 10 < 10 ^ 24)
    by (split; [apply Z.div_le_lower_bound|apply Z.div_lt_upper_bound]; lia).
  rewrite itoa_step by done. rewrite <- app_assoc, Z.div_div by lia. change (10 * 10) with 100.
  assert ((v / 10) mod 10 = (v mod 100) / 10) as -> by (Z.div_mod_to_equations; lia).
  assert (v mod 10 = (v mod 100) mod 10) as -> by (Z.div_mod_to_equations; lia). done.
Qed.

Lemma itoa_length k : forall v,
  0 <= v < 10 ^ 24 -> 10 ^ Z.of_nat k <= v < 10 ^ Z.of_nat (S k) -> length (itoa v) = S k.
Proof.
  induction k as [|k IH]; intros v Hv Hk.
  - rewrite itoa_small; [done|]. change (10 ^ Z.of_nat 1) with 10 in Hk. lia.
  - rewrite !pow10_S in Hk. assert (1 <= 10 ^ Z.of_nat k) by lia.
    rewrite itoa_step, length_app, IH; [simpl; lia| | |lia].
    + split; [apply Z.div_pos; lia|apply Z.div_lt_upper_bound; lia].
    + rewrite pow10_S.
      split; [apply Z.div_le_lower_bound|apply Z.div_lt_upper_bound]; lia.
Qed.

Lemma itoa_length_pos v : 0 <= v < 10 ^ 24 -> (0 < length (itoa v))%nat.
Proof.
  intros Hv. destruct (decide (v < 10)).
  - rewrite itoa_small by lia. simpl. lia.
  - rewrite itoa_step, length_app by lia. simpl. lia.
Qed.

Lemma itoa_length_le k : forall v,
  0 <= v < 10 ^ Z.of_nat (S k) -> v < 10 ^ 24 -> (length (itoa v) <= S k)%nat.
Proof.
  induction k as [|k IH]; intros v Hv Hv24.
  - change (10 ^ Z.of_nat 1) with 10 in Hv. by rewrite itoa_small.
  - destruct (Z.ltb_spec v 10); [rewrite itoa_small by lia; simpl; lia|].
    rewrite itoa_step, length_app by lia. cbn [length].
    assert (length (itoa (v / 10)) <= S k)%nat; [|lia].
    apply IH; [by apply div10_bound|]. apply Z.div_lt_upper_bound; lia.
Qed.

Lemma itoa_length_20 v : 0 <= v <= ULLONG_MAX -> Zlen (itoa v) <= 20.
Proof.
  intros Hv. assert (length (itoa v) <= 20)%nat; [|lia].
  apply (itoa_length_le 19); change (10 ^ Z.of_nat 20) with (10 ^ 20); lia.
Qed.

(** The length of the representation from the decade of the number. *)
Lemma itoa_decade k v :
  (k <= 19)%nat -> 10 ^ Z.of_nat k <= v < 10 ^ Z.of_nat (S k) -> Zlen (itoa v) = Z.of_nat (S k).
Proof.
  intros Hk Hv. rewrite (itoa_length k); [done| |done].
  assert (10 ^ Z.of_nat (S k) <= 10 ^ 20) by (apply Z.pow_le_mono_r; lia).
  assert (0 < 10 ^ Z.of_nat k) by lia. lia.
Qed.

(** [decade k] proves the length of a number that lia places in decade [k]. *)
Ltac decade k :=
  rewrite (itoa_decade k); [lia|lia|];
  let e := eval vm_compute in (10 ^ Z.of_nat k) in
  let e' := eval vm_compute in (10 ^ Z.of_nat (S k)) in
  change (10 ^ Z.of_nat k) with e; change (10 ^ Z.of_nat (S k)) with e'; lia.

Ltac some_decade :=
  first [ decade 0%nat | decade 1%nat | decade 2%nat | decade 3%nat | decade 4%nat
        | decade 5%nat | decade 6%nat | decade 7%nat | decade 8%nat | decade 9%nat
        | decade 10%nat | decade 11%nat | decade 12%nat | decade 13%nat | decade 14%nat
        | decade 15%nat | decade 16%nat | decade 17%nat | decade 18%nat | decade 19%nat ].

Lemma digits10_small v :
  0 <= v < 1000000000000 -> forall fuel, digits10_rec (S fuel) v = Zlen (itoa v).
Proof.
  intros Hv fuel. cbn [digits10_rec].
  destruct (Z.eqb_spec v 0) as [->|H0]; [by rewrite itoa_small|].
  repeat (zcase; try lia); some_decade.
Qed.

Lemma digits10_spec v : 0 <= v <= ULLONG_MAX -> digits10 v = Zlen (itoa v).
Proof.
  intros Hv. destruct (Z.ltb_spec v 1000000000000) as [Hlt|Hge].
  { apply digits10_small. lia. }
  unfold digits10. cbn [digits10_rec].
  repeat (rewrite (proj2 (Z.ltb_ge _ _)) by lia).
  pose proof (Z.div_mod v 1000000000000 ltac:(lia)).
  pose proof (Z.mod_pos_bound v 1000000000000 ltac:(lia)).
  set (w := v / 1000000000000) in *. clearbody w.
  repeat (zcase; try lia); some_decade.
Qed.

(** The table holds the two digits of every number below 100. *)
Lemma digits_lookup i :
  0 <= i < 100 ->
  rd1 digits (i * 2) = Some (48 + i / 10) /\ rd1 digits (i * 2 + 1) = Some (48 + i mod 10).
Proof.
  intros Hi. pose (P (i : Z) := rd1 digits (i * 2) = Some (48 + i / 10) /\
                                 rd1 digits (i * 2 + 1) = Some (48 + i mod 10)).
  assert (Hall : Forall P (map Z.of_nat (seq 0 100))) by by_compute.
  rewrite Forall_forall in Hall. apply Hall.
  apply list_elem_of_fmap. exists (Z.to_nat i). split; [lia|]. apply elem_of_seq. lia.
Qed.

Lemma ull2string_loop_S fuel dst value next :
  ull2string_loop (S fuel) dst value next =
    if 100 <=? value then
      d1 ← rd1 digits (value mod 100 * 2 + 1);
      d0 ← rd1 digits (value mod 100 * 2);
      dst ← wr1 dst next d1;
      dst ← wr1 dst (u32 (next - 1)) d0;
      ull2string_loop fuel dst (value / 100) (u32 (next - 2))
    else Some (dst, value, next).
Proof. done. Qed.

Lemma ull2string_loop_spec fuel : forall gap post value next,
  0 <= value < 100 ^ Z.of_nat (S fuel) -> value < 10 ^ 24 ->
  length gap = length (itoa value) -> next = Zlen gap - 1 -> next < 2 ^ 32 ->
  exists gap' ds value' next',
    ull2string_loop (S fuel) (gap ++ post) value next = Some (gap' ++ ds ++ post, value', next') /\
    itoa value = itoa value' ++ ds /\ 0 <= value' < 100 /\
    length gap' = length (itoa value') /\ next' = Zlen gap' - 1.
Proof.
  induction fuel as [|fuel IH]; intros gap post value next Hv Hv24 Hgap -> Hnext;
    rewrite ull2string_loop_S; destruct (Z.leb_spec 100 value) as [Hge|Hlt];
    [change (100 ^ Z.of_nat 1) with 100 in Hv; lia| | |].
  1,3: by exists gap, [], value, (Zlen gap - 1); rewrite app_nil_r; split_and!; first [done|lia].
  rewrite itoa_step2 in Hgap by lia. rewrite length_app in Hgap. cbn [length] in Hgap.
  assert (Hv' : 0 <= value / 100 < 100 ^ Z.of_nat (S fuel)).
  { rewrite (Nat2Z.inj_succ (S fuel)), Z.pow_succ_r in Hv by lia.
    split; [apply Z.div_pos|apply Z.div_lt_upper_bound]; lia. }
  assert (value / 100 < 10 ^ 24) by (apply Z.div_lt_upper_bound; lia).
  pose proof (itoa_length_pos (value / 100) ltac:(lia)).
  pose proof (Z.mod_pos_bound value 100 ltac:(lia)) as Hm.
  destruct (digits_lookup (value mod 100) Hm) as [-> ->]. cbn [mbind option_bind].
  rewrite (uwrap_small 32 (Zlen gap - 1 - 1)), (uwrap_small 32 (Zlen gap - 1 - 2)) by lia.
  destruct (app_cut gap (Zlen gap - 2)) as (g & t & -> & Hg & Ht); [lia|].
  destruct t as [|t0 [|t1 [|]]]; cbn [length] in Ht; try lia.
  rewrite Zlen_app, length_app in *. cbn [length] in *. rewrite <- app_assoc. cbn [app].
  change (t0 :: t1 :: post) with ([t0] ++ t1 :: post).
  rewrite app_assoc, wr1_app by (rewrite Zlen_app; cbn [length]; lia).
  cbn [mbind option_bind]. rewrite <- app_assoc. cbn [app].
  rewrite wr1_app by lia. cbn [mbind option_bind].
  edestruct (IH g (48 + value mod 100 / 10 :: 48 + (value mod 100) mod 10 :: post) (value / 100))
    as (gap' & ds & value' & next' & -> & Hi & Hr); [done|..|].
  - done.
  - lia.
  - lia.
  - lia.
  - exists gap', (ds ++ [48 + value mod 100 / 10; 48 + (value mod 100) mod 10]), value', next'.
    rewrite <- app_assoc. split; [done|]. split; [|done].
    by rewrite itoa_step2, Hi, app_assoc by lia.
Qed.

Lemma ull2string_spec dst dstlen value :
  0 <= value <= ULLONG_MAX -> dstlen <= Zlen dst -> Zlen (itoa value) < dstlen ->
  exists post, ull2string dst dstlen value =
    Some (Zlen (itoa value), itoa value ++ 0 :: post) /\
    Zlen (itoa value ++ 0 :: post) = Zlen dst.
Proof.
  intros Hv Hdst Hlen. unfold ull2string. cbv zeta. rewrite digits10_spec by done.
  rewrite (proj2 (Z.leb_gt _ _)) by lia.
  pose proof (itoa_length_pos value ltac:(lia)) as Hpos.
  pose proof (itoa_length_20 value Hv) as Hl20.
  rewrite uwrap_small by lia.
  destruct (app_cut dst (Zlen (itoa value))) as (gap & t & -> & Hg & Ht); [lia|].
  destruct t as [|t0 post]; [cbn [length] in Ht; lia|].
  rewrite wr1_app by lia. cbn [mbind option_bind].
  destruct (ull2string_loop_spec 10 gap (0 :: post) value (Zlen (itoa value) - 1))
    as (gap' & ds & value' & next' & -> & Hi & Hv' & Hg' & ->); [|lia..|].
  { split; [lia|]. change (100 ^ Z.of_nat 11) with (10 ^ 22). lia. }
  cbn [mbind option_bind]. exists post.
  rewrite Hi, !Zlen_app in *. cbn [length] in *. split; [|lia].
  rewrite <- app_assoc. destruct (Z.ltb_spec value' 10) as [H10|H10].
  - rewrite itoa_small in * by lia. destruct gap' as [|x [|]]; try done.
    cbn [length app] in *. by rewrite wr1_0.
  - rewrite itoa_step, itoa_small in * by (Z.div_mod_to_equations; lia).
    destruct gap' as [|x [|y [|]]]; try done.
    destruct (digits_lookup value') as [-> ->]; [lia|]. cbn [mbind option_bind].
    cbn [length app]. change (Z.of_nat 2 - 1) with 1. rewrite wr1_1.
    cbn [mbind option_bind]. by rewrite uwrap_small, wr1_0 by lia.
Qed.

(** The minimal buffer of [ll2string] and the buffer after the call. *)
Lemma ll2string_spec dst dstlen v :
  LLONG_MIN <= v <= LLONG_MAX -> dstlen <= Zlen dst -> Zlen (lltoa v) < dstlen ->
  exists post, ll2string dst dstlen v = Some (Zlen (lltoa v), lltoa v ++ 0 :: post) /\
    Zlen (lltoa v ++ 0 :: post) = Zlen dst.
Proof.
  intros Hv Hdst Hlen. unfold ll2string, lltoa in *.
  destruct (Z.ltb_spec v 0) as [Hneg|Hpos]; cbv zeta.
  - assert ((if negb (v =? LLONG_MIN) then u64 (- v) else u64 (LLONG_MAX + 1)) = - v) as ->.
    { destruct (Z.eqb_spec v LLONG_MIN) as [->|]; [done|]. apply uwrap_small. lia. }
    cbn [length] in *. rewrite (proj2 (Z.ltb_ge _ _)) by lia.
    destruct dst as [|x dst]; [cbn [length] in *; lia|]. cbn [length] in *.
    rewrite wr1_0. cbn [mbind option_bind app drop take].
    rewrite !drop_0. rewrite take_0.
    destruct (ull2string_spec dst (dstlen - 1) (- v)) as (post & -> & Hl); [lia..|].
    cbn [mbind option_bind]. pose proof (itoa_length_pos (- v) ltac:(lia)).
    rewrite (proj2 (Z.eqb_neq _ _)) by lia. exists post. split; [|cbn [app length]; lia].
    do 2 f_equal. lia.
  - rewrite uwrap_small by lia.
    destruct (ull2string_spec dst dstlen v) as (post & -> & Hl); [lia..|].
    cbn [mbind option_bind]. pose proof (itoa_length_pos v ltac:(lia)).
    rewrite (proj2 (Z.eqb_neq _ _)) by lia. exists post. rewrite Z.add_0_r. done.
Qed.

(** ** Parsing *)

(** The number read so far, extended by the digits [p]. *)
Definition atoi (v : Z) (p : list Z) : Z := fold_left (fun a c => a * 10 + (c - 48)) p v.

Abbreviation digit c := (48 <= c <= 57).

Lemma atoi_snoc v p c : atoi v (p ++ [c]) = atoi v p * 10 + (c - 48).
Proof. unfold atoi. by rewrite fold_left_app. Qed.

Lemma atoi_mono p : forall v, Forall (fun c => digit c) p -> 0 <= v -> v <= atoi v p.
Proof.
  induction p as [|c p IH]; intros v Hp Hv; [unfold atoi; simpl; lia|].
  inversion Hp; subst. unfold atoi. cbn [fold_left].
  specialize (IH (v * 10 + (c - 48))). unfold atoi in IH. etrans; [|apply IH; [done|lia]]. lia.
Qed.

Lemma itoa_atoi c p :
  49 <= c <= 57 -> Forall (fun c => digit c) p -> atoi (c - 48) p < 10 ^ 24 ->
  itoa (atoi (c - 48) p) = c :: p.
Proof.
  intros Hc. induction p as [|d p IH] using rev_ind; intros Hp Hb.
  { unfold atoi. cbn [fold_left]. rewrite itoa_small by lia. f_equal. lia. }
  apply Forall_app in Hp as [Hp Hd]. inversion Hd; subst.
  rewrite atoi_snoc in *. pose proof (atoi_mono p (c - 48) Hp ltac:(lia)).
  rewrite itoa_step by lia.
  replace ((atoi (c - 48) p * 10 + (d - 48)) / 10) with (atoi (c - 48) p)
    by (Z.div_mod_to_equations; lia).
  replace ((atoi (c - 48) p * 10 + (d - 48)) mod 10) with (d - 48)
    by (Z.div_mod_to_equations; lia).
  rewrite IH; [|done|lia]. simpl. do 2 f_equal. f_equal. lia.
Qed.

(** A positive number is a digit from 1 to 9 followed by digits. *)
Lemma itoa_pos k : forall w, 0 < w < 10 ^ Z.of_nat (S k) -> w < 10 ^ 24 ->
  exists c p, itoa w = c :: p /\ 49 <= c <= 57 /\ Forall (fun c => digit c) p /\
    atoi (c - 48) p = w.
Proof.
  induction k as [|k IH]; intros w Hw H24.
  - change (10 ^ Z.of_nat 1) with 10 in Hw. exists (48 + w), []. rewrite itoa_small by lia.
    unfold atoi. simpl. split_and!; [done|lia..|constructor|lia].
  - destruct (Z.ltb_spec w 10).
    { exists (48 + w), []. rewrite itoa_small by lia.
      unfold atoi. simpl. split_and!; [done|lia..|constructor|lia]. }
    destruct (IH (w / 10)) as (c & p & Hi & Hc & Hp & Ha).
    { split; [apply Z.div_str_pos; lia|]. apply div10_bound. lia. }
    { apply Z.div_lt_upper_bound; lia. }
    pose proof (Z.mod_pos_bound w 10 ltac:(lia)).
    exists c, (p ++ [48 + w mod 10]). rewrite itoa_step, Hi by lia. split_and!; [done|lia..| |].
    + apply Forall_app. split; [done|]. constructor; [lia|constructor].
    + rewrite atoi_snoc, Ha. pose proof (Z.div_mod w 10 ltac:(lia)). lia.
Qed.

(** The digit loop consumes its input exactly when it is made of digits and
    the number fits 64 bits. *)
Lemma string2ll_loop_some p : forall v w,
  0 <= v <= ULLONG_MAX -> string2ll_loop p v = Some (w, []) ->
  Forall (fun c => digit c) p /\ w = atoi v p /\ w <= ULLONG_MAX.
Proof.
  induction p as [|c p IH]; intros v w Hv; cbn [string2ll_loop].
  { intros [= <-]. split; [constructor|]. unfold atoi. cbn [fold_left]. split; [done|lia]. }
  unfold is_digit. destruct (_ && _) eqn:Ed; [|done].
  destruct (Z.ltb_spec (ULLONG_MAX / 10) v) as [?|H1]; [done|]. cbv zeta.
  change (ULLONG_MAX / 10) with 1844674407370955161 in H1.
  rewrite (uwrap_small 64 (v * 10)) by lia.
  destruct (Z.ltb_spec (ULLONG_MAX - (c - 48)) (v * 10)) as [?|H2]; [done|].
  rewrite uwrap_small by lia. intros Hl. destruct (IH (v * 10 + (c - 48)) w) as (Hp & -> & Hw); [lia|done|].
  split; [|done]. constructor; [lia|done].
Qed.

Lemma string2ll_loop_ok p : forall v,
  Forall (fun c => digit c) p -> 0 <= v -> atoi v p <= ULLONG_MAX ->
  string2ll_loop p v = Some (atoi v p, []).
Proof.
  induction p as [|c p IH]; intros v Hp Hv Ha; cbn [string2ll_loop]; [done|].
  inversion Hp as [|? ? Hc Hp']; subst.
  change (atoi v (c :: p)) with (atoi (v * 10 + (c - 48)) p) in *.
  pose proof (atoi_mono p (v * 10 + (c - 48)) Hp' ltac:(lia)).
  unfold is_digit. destruct (_ && _) eqn:Ed; [|lia].
  change (ULLONG_MAX / 10) with 1844674407370955161.
  rewrite (proj2 (Z.ltb_ge _ _)) by lia. cbv zeta. rewrite (uwrap_small 64 (v * 10)) by lia.
  rewrite (proj2 (Z.ltb_ge _ _)) by lia. rewrite uwrap_small by lia. apply IH; [done|lia..].
Qed.

Lemma string2ll_sound s v :
  string2ll s = Some v -> LLONG_MIN <= v <= LLONG_MAX /\ s = lltoa v.
Proof.
  unfold string2ll. destruct (_ || _) eqn:Elen; [done|].
  destruct (_ && _) eqn:E0.
  { intros [= <-]. destruct s as [|c [|d s]]; cbn [length nth] in *; [lia| |lia].
    assert (c = 48) as -> by lia. done. }
  destruct s as [|c s]; [done|]. cbn [nth drop]. cbv zeta.
  destruct (Z.eqb_spec c 45) as [->|Hc]; cbv iota.
  - rewrite drop_0. destruct s as [|d s]; [done|].
    destruct ((49 <=? d) && (d <=? 57)) eqn:Ed; [|done].
    destruct (string2ll_loop s (d - 48)) as [[w r]|] eqn:El; [|done]. cbn [mbind option_bind].
    destruct r; [|done]. cbn [length Nat.eqb negb].
    apply string2ll_loop_some in El as (Hs & -> & Hw); [|lia].
    pose proof (atoi_mono s (d - 48) Hs ltac:(lia)).
    change (u64 (- (LLONG_MIN + 1) + 1)) with 9223372036854775808.
    destruct (Z.ltb_spec 9223372036854775808 (atoi (d - 48) s)); [done|]. intros [= <-].
    rewrite swrap_uwrap, swrap_small by lia. split; [lia|]. unfold lltoa.
    rewrite (proj2 (Z.ltb_lt _ _)), Z.opp_involutive, itoa_atoi by (done || lia). done.
  - destruct ((49 <=? c) && (c <=? 57)) eqn:Ed; [|done].
    destruct (string2ll_loop s (c - 48)) as [[w r]|] eqn:El; [|done]. cbn [mbind option_bind].
    destruct r; [|done]. cbn [length Nat.eqb negb].
    apply string2ll_loop_some in El as (Hs & -> & Hw); [|lia].
    pose proof (atoi_mono s (c - 48) Hs ltac:(lia)).
    destruct (Z.ltb_spec LLONG_MAX (atoi (c - 48) s)); [done|]. intros [= <-].
    split; [lia|]. unfold lltoa.
    rewrite (proj2 (Z.ltb_ge _ _)), itoa_atoi by (done || lia). done.
Qed.

Lemma string2ll_complete v : LLONG_MIN <= v <= LLONG_MAX -> string2ll (lltoa v) = Some v.
Proof.
  intros Hv. destruct (Z.eqb_spec v 0) as [->|Hv0]; [done|].
  destruct (itoa_pos 19 (Z.abs v)) as (c & p & Hi & Hc & Hp & Ha);
    [change (10 ^ Z.of_nat 20) with (10 ^ 20); lia|lia|].
  assert (Hlen : Zlen (itoa (Z.abs v)) <= 19).
  { assert (length (itoa (Z.abs v)) <= 19)%nat; [|lia].
    apply (itoa_length_le 18); change (10 ^ Z.of_nat 19) with (10 ^ 19); lia. }
  assert (Hloop : string2ll_loop p (c - 48) = Some (Z.abs v, [])).
  { rewrite string2ll_loop_ok by (done || lia). by rewrite Ha. }
  unfold lltoa, string2ll, LONG_STR_SIZE. cbv zeta.
  destruct (Z.ltb_spec v 0) as [Hneg|Hpos].
  - replace (- v) with (Z.abs v) by lia. rewrite Hi in *. cbn [length nth drop] in *.
    destruct ((_ =? 0) || _) eqn:El; [lia|]. rewrite andb_false_r. cbn [Z.eqb Pos.eqb]. cbv iota.
    destruct ((49 <=? c) && (c <=? 57)) eqn:Ec; [|lia]. rewrite Hloop. cbn [mbind option_bind length Nat.eqb negb].
    change (u64 (- (LLONG_MIN + 1) + 1)) with 9223372036854775808.
    rewrite (proj2 (Z.ltb_ge _ _)) by lia.
    rewrite swrap_uwrap, swrap_small by lia. f_equal. lia.
  - rewrite (Z.abs_eq v) in * by lia. rewrite Hi in *. cbn [length nth drop] in *.
    destruct ((_ =? 0) || _) eqn:El; [lia|]. rewrite (proj2 (Z.eqb_neq c 48)) by lia.
    rewrite andb_false_r, (proj2 (Z.eqb_neq c 45)) by lia.
    destruct ((49 <=? c) && (c <=? 57)) eqn:Ec; [|lia]. rewrite Hloop. cbn [mbind option_bind length Nat.eqb negb].
    by rewrite (proj2 (Z.ltb_ge _ _)) by lia.
Qed.

Lemma lltoa_length v : LLONG_MIN <= v <= LLONG_MAX -> 0 < Zlen (lltoa v) <= 20.
Proof.
  intros Hv. unfold lltoa. destruct (Z.ltb_spec v 0); cbn [length].
  - assert (length (itoa (- v)) <= 19)%nat; [|lia].
    apply (itoa_length_le 18); change (10 ^ Z.of_nat 19) with (10 ^ 19); lia.
  - pose proof (itoa_length_pos v ltac:(lia)). pose proof (itoa_length_20 v ltac:(lia)). lia.
Qed.

(** ** Theorems *)

(** C27: [string2ll] accepts exactly the canonical decimal representations of
    the 64-bit signed integers and returns their value: no leading zeros, no
    plus sign, no spaces, no overflow. *)
Theorem string2ll_iff s v :
  string2ll s = Some v <-> LLONG_MIN <= v <= LLONG_MAX /\ s = lltoa v.
Proof.
  split; [apply string2ll_sound|]. intros [Hv ->]. by apply string2ll_complete.
Qed.

(** C35: [ll2string] into a buffer with room for 20 characters and the
    terminator stays in bounds, writes a NUL-terminated string, returns its
    length, and [string2ll] of that string is the number again. *)
Theorem ll2string_string2ll dst v :
  LLONG_MIN <= v <= LLONG_MAX -> LONG_STR_SIZE <= Zlen dst ->
  exists n dst', ll2string dst (Zlen dst) v = Some (n, dst') /\ 0 < n < Zlen dst /\
    length dst' = length dst /\ rd1 dst' n = Some 0 /\
    string2ll (take (Z.to_nat n) dst') = Some v.
Proof.
  intros Hv Hdst. pose proof (lltoa_length v Hv) as Hlen. unfold LONG_STR_SIZE in Hdst.
  destruct (ll2string_spec dst (Zlen dst) v) as (post & -> & Hl); [done|lia..|].
  eexists _, _. split; [done|]. split; [lia|]. split; [lia|]. split; [by apply rd1_app|].
  rewrite Nat2Z.id, take_app_length. by apply string2ll_complete.
Qed.

(** [digits10] is the number of decimal digits of a 64-bit unsigned
    number, and [ull2string] writes nothing but the terminator when the
    buffer is too small for the digits and the terminator. *)
Theorem digits10_correct dst dstlen v :
  0 <= v <= ULLONG_MAX -> dstlen <= Zlen dst ->
  digits10 v = Zlen (itoa v) /\
  (0 < dstlen <= digits10 v ->
   exists post, ull2string dst dstlen v = Some (0, 0 :: post) /\ drop 1 dst = post).
Proof.
  intros Hv Hdst. pose proof (digits10_spec v Hv) as Hd. split; [done|]. intros Hlen.
  unfold ull2string. cbv zeta. rewrite (proj2 (Z.leb_le _ _)) by lia. unfold put_err.
  rewrite (proj2 (Z.ltb_lt _ _)) by lia. destruct dst as [|x dst]; [cbn [length] in *; lia|].
  rewrite wr1_0. by exists dst.
Qed.

Lemma ll2string_string2ll_witness :
  exists n dst', ll2string (replicate 21 7) 21 (-1203) = Some (n, dst') /\ 0 < n < 21 /\
    length dst' = 21%nat /\ rd1 dst' n = Some 0 /\
    string2ll (take (Z.to_nat n) dst') = Some (-1203).
Proof. apply (ll2string_string2ll (replicate 21 7) (-1203)); [lia|done]. Defined.

Lemma digits10_correct_witness :
  digits10 12345 = Zlen (itoa 12345) /\
  (0 < 3 <= digits10 12345 ->
   exists post, ull2string [1; 2; 3] 3 12345 = Some (0, 0 :: post) /\ drop 1 [1; 2; 3] = post).
Proof. apply (digits10_correct [1; 2; 3] 3 12345); [lia|done]. Defined.

End NumConv.
