(* ===== verification/ListpackEnc.v ===== *)
(** * Listpack entries (src/redis-7.2.4/src/listpack.c, encoding part)

    An entry of a listpack is an encoding byte, possibly more length or value
    bytes, the string data, and the length of all that in a variable number
    of bytes that are read from right to left (the backlen).  This file has
    the encoders and decoders of entries; positions in the listpack are byte
    offsets from its start.  [None] is an access outside the buffer or a
    failed assertion. *)

From S2P Require Import Prelude.
From S2P Require Import NumConv.
Import NumConv.

Module LpEnc.

(** ** Encoding bytes *)

Definition LP_ENCODING_IS_7BIT_UINT (b : Z) : bool := Z.land b 0x80 =? 0.
Definition LP_ENCODING_IS_6BIT_STR (b : Z) : bool := Z.land b 0xC0 =? 0x80.
Definition LP_ENCODING_IS_13BIT_INT (b : Z) : bool := Z.land b 0xE0 =? 0xC0.
Definition LP_ENCODING_IS_12BIT_STR (b : Z) : bool := Z.land b 0xF0 =? 0xE0.
Definition LP_ENCODING_IS_16BIT_INT (b : Z) : bool := Z.land b 0xFF =? 0xF1.
Definition LP_ENCODING_IS_24BIT_INT (b : Z) : bool := Z.land b 0xFF =? 0xF2.
Definition LP_ENCODING_IS_32BIT_INT (b : Z) : bool := Z.land b 0xFF =? 0xF3.
Definition LP_ENCODING_IS_64BIT_INT (b : Z) : bool := Z.land b 0xFF =? 0xF4.
Definition LP_ENCODING_IS_32BIT_STR (b : Z) : bool := Z.land b 0xFF =? 0xF0.
Definition LP_EOF : Z := 0xFF.

Definition LP_ENCODING_6BIT_STR_LEN (lp : list Z) (p : Z) : option Z :=
  p0 ← rd1 lp p; Some (Z.land p0 0x3F).

Definition LP_ENCODING_12BIT_STR_LEN (lp : list Z) (p : Z) : option Z :=
  p0 ← rd1 lp p; p1 ← rd1 lp (p + 1);
  Some (Z.lor (Z.shiftl (Z.land p0 0xF) 8) p1).

Definition LP_ENCODING_32BIT_STR_LEN (lp : list Z) (p : Z) : option Z :=
  p1 ← rd1 lp (p + 1); p2 ← rd1 lp (p + 2); p3 ← rd1 lp (p + 3); p4 ← rd1 lp (p + 4);
  Some (Z.lor (Z.lor (Z.lor (Z.shiftl p1 0) (Z.shiftl p2 8)) (Z.shiftl p3 16)) (Z.shiftl p4 24)).

(** ** Encoders *)

(** The same code as [string2ll] of util.c, kept apart as in the source. *)
Definition lpStringToInt64 (s : list Z) : option Z :=
  let slen := Zlen s in
  if (slen =? 0) || (LONG_STR_SIZE <=? slen) then None
  else if (slen =? 1) && (nth 0 s 0 =? 48) then Some 0
  else
    let negative := nth 0 s 0 =? 45 in
    let p := if negative then drop 1 s else s in
    match p with
    | [] => None
    | c :: p =>
        if (49 <=? c) && (c <=? 57) then
          '(v, p) ← string2ll_loop p (c - 48);
          if negb (length p =? 0)%nat then None
          else if negative then
            if u64 (- (LLONG_MIN + 1) + 1) <? v then None else Some (s64 (u64 (- v)))
          else if LLONG_MAX <? v then None else Some v
        else None
    end.

(** The bytes stored in [intenc]; their number is [*enclen]. *)
Definition lpEncodeIntegerGetType (v : Z) : list Z :=
  if (0 <=? v) && (v <=? 127) then [u8 v]
  else if (-4096 <=? v) && (v <=? 4095) then
    let v := if v <? 0 then Z.shiftl 1 13 + v else v in
    [u8 (Z.lor (Z.shiftr v 8) 0xC0); u8 (Z.land v 0xff)]
  else if (-32768 <=? v) && (v <=? 32767) then
    let v := if v <? 0 then Z.shiftl 1 16 + v else v in
    [0xF1; u8 (Z.land v 0xff); u8 (Z.shiftr v 8)]
  else if (-8388608 <=? v) && (v <=? 8388607) then
    let v := if v <? 0 then Z.shiftl 1 24 + v else v in
    [0xF2; u8 (Z.land v 0xff); u8 (Z.land (Z.shiftr v 8) 0xff); u8 (Z.shiftr v 16)]
  else if (-2147483648 <=? v) && (v <=? 2147483647) then
    let v := if v <? 0 then Z.shiftl 1 32 + v else v in
    [0xF3; u8 (Z.land v 0xff); u8 (Z.land (Z.shiftr v 8) 0xff);
     u8 (Z.land (Z.shiftr v 16) 0xff); u8 (Z.shiftr v 24)]
  else
    let uv := u64 v in
    [0xF4; u8 (Z.land uv 0xff); u8 (Z.land (Z.shiftr uv 8) 0xff);
     u8 (Z.land (Z.shiftr uv 16) 0xff); u8 (Z.land (Z.shiftr uv 24) 0xff);
     u8 (Z.land (Z.shiftr uv 32) 0xff); u8 (Z.land (Z.shiftr uv 40) 0xff);
     u8 (Z.land (Z.shiftr uv 48) 0xff); u8 (Z.shiftr uv 56)].

(** The integer encoding of an element, or its length as a string. *)
Definition lpEncodeGetType (ele : list Z) : list Z + Z :=
  match lpStringToInt64 ele with
  | Some v => inl (lpEncodeIntegerGetType v)
  | None =>
      let size := Zlen ele in
      if size <? 64 then inr (1 + size)
      else if size <? 4096 then inr (2 + size)
      else inr (5 + size)
  end.

(** The bytes stored in [buf]; their number is the return value. *)
Definition lpEncodeBacklen (l : Z) : list Z :=
  if l <=? 127 then [u8 l]
  else if l <? 16383 then [u8 (Z.shiftr l 7); u8 (Z.lor (Z.land l 127) 128)]
  else if l <? 2097151 then
    [u8 (Z.shiftr l 14); u8 (Z.lor (Z.land (Z.shiftr l 7) 127) 128);
     u8 (Z.lor (Z.land l 127) 128)]
  else if l <? 268435455 then
    [u8 (Z.shiftr l 21); u8 (Z.lor (Z.land (Z.shiftr l 14) 127) 128);
     u8 (Z.lor (Z.land (Z.shiftr l 7) 127) 128); u8 (Z.lor (Z.land l 127) 128)]
  else
    [u8 (Z.shiftr l 28); u8 (Z.lor (Z.land (Z.shiftr l 21) 127) 128);
     u8 (Z.lor (Z.land (Z.shiftr l 14) 127) 128);
     u8 (Z.lor (Z.land (Z.shiftr l 7) 127) 128); u8 (Z.lor (Z.land l 127) 128)].

(** The return value when [buf] is [NULL]. *)
Definition lpBacklenSize (l : Z) : Z := Zlen (lpEncodeBacklen l).

(** The loop leaves after at most five bytes. *)
Fixpoint lpDecodeBacklen_loop (fuel : nat) (lp : list Z) (p val shift : Z) : option Z :=
  match fuel with
  | O => None
  | S fuel' =>
      b ← rd1 lp p;
      let val := Z.lor val (u64 (Z.shiftl (Z.land b 127) shift)) in
      if Z.land b 128 =? 0 then Some val
      else
        let shift := shift + 7 in
        if 28 <? shift then Some ULLONG_MAX
        else lpDecodeBacklen_loop fuel' lp (p - 1) val shift
  end.

Definition lpDecodeBacklen (lp : list Z) (p : Z) : option Z := lpDecodeBacklen_loop 5 lp p 0 0.

(** The bytes written for a string. *)
Definition lpEncodeString (s : list Z) : list Z :=
  let len := Zlen s in
  if len <? 64 then u8 (Z.lor len 0x80) :: s
  else if len <? 4096 then u8 (Z.lor (Z.shiftr len 8) 0xE0) :: u8 (Z.land len 0xff) :: s
  else 0xF0 :: u8 (Z.land len 0xff) :: u8 (Z.land (Z.shiftr len 8) 0xff)
       :: u8 (Z.land (Z.shiftr len 16) 0xff) :: u8 (Z.land (Z.shiftr len 24) 0xff) :: s.

(** ** Decoders *)

Definition lpCurrentEncodedSizeUnsafe (lp : list Z) (p : Z) : option Z :=
  p0 ← rd1 lp p;
  if LP_ENCODING_IS_7BIT_UINT p0 then Some 1
  else if LP_ENCODING_IS_6BIT_STR p0 then n ← LP_ENCODING_6BIT_STR_LEN lp p; Some (u32 (1 + n))
  else if LP_ENCODING_IS_13BIT_INT p0 then Some 2
  else if LP_ENCODING_IS_16BIT_INT p0 then Some 3
  else if LP_ENCODING_IS_24BIT_INT p0 then Some 4
  else if LP_ENCODING_IS_32BIT_INT p0 then Some 5
  else if LP_ENCODING_IS_64BIT_INT p0 then Some 9
  else if LP_ENCODING_IS_12BIT_STR p0 then n ← LP_ENCODING_12BIT_STR_LEN lp p; Some (u32 (2 + n))
  else if LP_ENCODING_IS_32BIT_STR p0 then n ← LP_ENCODING_32BIT_STR_LEN lp p; Some (u32 (5 + n))
  else if p0 =? LP_EOF then Some 1
  else Some 0.

Definition lpCurrentEncodedSizeBytes (lp : list Z) (p : Z) : option Z :=
  p0 ← rd1 lp p;
  Some (if LP_ENCODING_IS_7BIT_UINT p0 then 1
        else if LP_ENCODING_IS_6BIT_STR p0 then 1
        else if LP_ENCODING_IS_13BIT_INT p0 then 1
        else if LP_ENCODING_IS_16BIT_INT p0 then 1
        else if LP_ENCODING_IS_24BIT_INT p0 then 1
        else if LP_ENCODING_IS_32BIT_INT p0 then 1
        else if LP_ENCODING_IS_64BIT_INT p0 then 1
        else if LP_ENCODING_IS_12BIT_STR p0 then 2
        else if LP_ENCODING_IS_32BIT_STR p0 then 5
        else if p0 =? LP_EOF then 1
        else 0).

(** What [lpGet] finds: an integer, or the position and length of a string
    inside the listpack. *)
Inductive lpval :=
| LpInt (v : Z)
| LpStr (off len : Z).

(** The two's complement conversion at the end of [lpGetWithSize]. *)
Definition lpSigned (uval negstart negmax : Z) : Z :=
  if negstart <=? uval then
    let uval := u64 (negmax - uval) in
    let val := s64 uval in
    - val - 1
  else s64 uval.

(** The element and [*entry_size]; the latter keeps its old value when the
    encoding is invalid. *)
Definition lpGetWithSize (lp : list Z) (p entry_size : Z) : option (lpval * Z) :=
  p0 ← rd1 lp p;
  if LP_ENCODING_IS_7BIT_UINT p0 then
    Some (LpInt (lpSigned (Z.land p0 0x7f) ULLONG_MAX 0), 2)
  else if LP_ENCODING_IS_6BIT_STR p0 then
    count ← LP_ENCODING_6BIT_STR_LEN lp p;
    Some (LpStr (p + 1) count, 1 + count + lpBacklenSize (count + 1))
  else if LP_ENCODING_IS_13BIT_INT p0 then
    p1 ← rd1 lp (p + 1);
    Some (LpInt (lpSigned (Z.lor (Z.shiftl (Z.land p0 0x1f) 8) p1) (Z.shiftl 1 12) 8191), 3)
  else if LP_ENCODING_IS_16BIT_INT p0 then
    p1 ← rd1 lp (p + 1); p2 ← rd1 lp (p + 2);
    Some (LpInt (lpSigned (Z.lor p1 (Z.shiftl p2 8)) (Z.shiftl 1 15) 65535), 4)
  else if LP_ENCODING_IS_24BIT_INT p0 then
    p1 ← rd1 lp (p + 1); p2 ← rd1 lp (p + 2); p3 ← rd1 lp (p + 3);
    Some (LpInt (lpSigned (Z.lor (Z.lor p1 (Z.shiftl p2 8)) (Z.shiftl p3 16))
                   (Z.shiftl 1 23) 16777215), 5)
  else if LP_ENCODING_IS_32BIT_INT p0 then
    p1 ← rd1 lp (p + 1); p2 ← rd1 lp (p + 2); p3 ← rd1 lp (p + 3); p4 ← rd1 lp (p + 4);
    Some (LpInt (lpSigned (Z.lor (Z.lor (Z.lor p1 (Z.shiftl p2 8)) (Z.shiftl p3 16))
                   (Z.shiftl p4 24)) (Z.shiftl 1 31) 4294967295), 6)
  else if LP_ENCODING_IS_64BIT_INT p0 then
    p1 ← rd1 lp (p + 1); p2 ← rd1 lp (p + 2); p3 ← rd1 lp (p + 3); p4 ← rd1 lp (p + 4);
    p5 ← rd1 lp (p + 5); p6 ← rd1 lp (p + 6); p7 ← rd1 lp (p + 7); p8 ← rd1 lp (p + 8);
    Some (LpInt (lpSigned
      (Z.lor (Z.lor (Z.lor (Z.lor (Z.lor (Z.lor (Z.lor p1 (Z.shiftl p2 8)) (Z.shiftl p3 16))
        (Z.shiftl p4 24)) (Z.shiftl p5 32)) (Z.shiftl p6 40)) (Z.shiftl p7 48)) (Z.shiftl p8 56))
      (Z.shiftl 1 63) ULLONG_MAX), 10)
  else if LP_ENCODING_IS_12BIT_STR p0 then
    count ← LP_ENCODING_12BIT_STR_LEN lp p;
    Some (LpStr (p + 2) count, 2 + count + lpBacklenSize (count + 2))
  else if LP_ENCODING_IS_32BIT_STR p0 then
    count ← LP_ENCODING_32BIT_STR_LEN lp p;
    Some (LpStr (p + 5) count, 5 + count + lpBacklenSize (count + 5))
  else Some (LpInt (lpSigned (u64 (12345678900000000 + p0)) ULLONG_MAX 0), entry_size).

(** [lpGet] without a conversion buffer, as used by [lpGetValue]. *)
Definition lpGet (lp : list Z) (p : Z) : option lpval :=
  '(v, _) ← lpGetWithSize lp p 0; Some v.

(** [lpGet] with a conversion buffer: the element as a string. *)
Definition lpGet_intbuf (lp : list Z) (p : Z) (intbuf : list Z) : option (list Z) :=
  '(v, _) ← lpGetWithSize lp p 0;
  match v with
  | LpStr off len => rd lp off len
  | LpInt val => '(count, intbuf) ← ll2string intbuf 21 val; rd intbuf 0 count
  end.

Definition lpCompare (lp : list Z) (p : Z) (s : list Z) : option bool :=
  p0 ← rd1 lp p;
  if p0 =? LP_EOF then Some false
  else
    v ← lpGet lp p;
    match v with
    | LpStr off sz =>
        if Zlen s =? sz then bs ← rd lp off sz; Some (bool_decide (bs = s)) else Some false
    | LpInt sz =>
        match lpStringToInt64 s with
        | Some sval => Some (sz =? sval)
        | None => Some false
        end
    end.

(** ** Elements *)

(** What an entry stands for. *)
Inductive elem :=
| EInt (v : Z)
| EStr (s : list Z).

Definition elem_ok (e : elem) : Prop :=
  match e with
  | EInt v => LLONG_MIN <= v <= LLONG_MAX
  | EStr s => bytes_ok s /\ Zlen s < 2 ^ 32 - 5
  end.

(** The encoding without and with the backlen. *)
Definition enc (e : elem) : list Z :=
  match e with EInt v => lpEncodeIntegerGetType v | EStr s => lpEncodeString s end.

Definition entry (e : elem) : list Z := enc e ++ lpEncodeBacklen (Zlen (enc e)).

(** The element a string is stored as, and the string an element reads as. *)
Definition elem_of_string (s : list Z) : elem :=
  match lpStringToInt64 s with Some v => EInt v | None => EStr s end.

Definition elem_string (e : elem) : list Z :=
  match e with EInt v => lltoa v | EStr s => s end.

Lemma lpStringToInt64_string2ll s : lpStringToInt64 s = string2ll s.
Proof. done. Qed.

(** *** The classes of encoding bytes *)

Lemma class_7bit b : is_byte b -> LP_ENCODING_IS_7BIT_UINT b = (b <? 128).
Proof. by_bytes. Qed.
Lemma class_6str b : is_byte b -> LP_ENCODING_IS_6BIT_STR b = ((128 <=? b) && (b <? 192)).
Proof. by_bytes. Qed.
Lemma class_13int b : is_byte b -> LP_ENCODING_IS_13BIT_INT b = ((192 <=? b) && (b <? 224)).
Proof. by_bytes. Qed.
Lemma class_12str b : is_byte b -> LP_ENCODING_IS_12BIT_STR b = ((224 <=? b) && (b <? 240)).
Proof. by_bytes. Qed.

(** *** Integers as little-endian bytes *)

Lemma div_pow_div v a b : 0 <= a -> 0 <= b -> v / 2 ^ a / 2 ^ b = v / 2 ^ (a + b).
Proof. intros. rewrite Z.div_div, Z.pow_add_r by lia. done. Qed.

(** [byte_of] normalises the bytes the code extracts by shifts and masks. *)
Lemma byte_shift v n : 0 <= n -> u8 (Z.land (Z.shiftr v n) 0xff) = v / 2 ^ n mod 256.
Proof. intros. rewrite land_255, Z.shiftr_div_pow2 by lia. apply Zmod_mod. Qed.
Lemma byte_shift_top v n : 0 <= n -> u8 (Z.shiftr v n) = v / 2 ^ n mod 256.
Proof. intros. by rewrite Z.shiftr_div_pow2 by lia. Qed.
Lemma byte_low v : u8 (Z.land v 0xff) = v mod 256.
Proof. rewrite land_255. apply Zmod_mod. Qed.

(** Integers of two to eight bytes, most of them written and read alike. *)
Lemma bytes_le n v :
  (n <= 8)%nat ->
  le_encode n v =
    take n [v mod 256; v / 2 ^ 8 mod 256; v / 2 ^ 16 mod 256; v / 2 ^ 24 mod 256;
            v / 2 ^ 32 mod 256; v / 2 ^ 40 mod 256; v / 2 ^ 48 mod 256; v / 2 ^ 56 mod 256].
Proof.
  intros Hn. do 9 (destruct n as [|n]; [cbn [le_encode take]; try change 256 with (2 ^ 8);
    rewrite ?div_pow_div by lia; done|]). lia.
Qed.

Lemma le_encode_shift n v v' :
  v' = v \/ v' = 2 ^ (8 * Z.of_nat n) + v -> le_encode n v' = le_encode n v.
Proof.
  intros [->| ->]; [done|]. rewrite <- (le_encode_uwrap n v), <- le_encode_uwrap. f_equal.
  unfold uwrap. rewrite Z.add_comm, <- (Z.mul_1_l (2 ^ _)) at 1. apply Z.mod_add. lia.
Qed.

(** The integer encodings: 7 bits, 13 bits, or a tag and little-endian bytes. *)
Inductive int_encoding (v : Z) : list Z -> Prop :=
| enc_7bit : 0 <= v <= 127 -> int_encoding v [v]
| enc_13bit : -4096 <= v <= 4095 ->
    int_encoding v [192 + (v mod 8192) / 256; v mod 256]
| enc_wide tag n :
    (tag = 0xF1 /\ n = 2%nat) \/ (tag = 0xF2 /\ n = 3%nat) \/
    (tag = 0xF3 /\ n = 4%nat) \/ (tag = 0xF4 /\ n = 8%nat) ->
    - 2 ^ (8 * Z.of_nat n - 1) <= v < 2 ^ (8 * Z.of_nat n - 1) ->
    int_encoding v (tag :: le_encode n v).

Lemma enc_wide_bytes v v' n tag bs :
  bs = take n [v' mod 256; v' / 2 ^ 8 mod 256; v' / 2 ^ 16 mod 256; v' / 2 ^ 24 mod 256;
               v' / 2 ^ 32 mod 256; v' / 2 ^ 40 mod 256; v' / 2 ^ 48 mod 256; v' / 2 ^ 56 mod 256] ->
  (tag = 0xF1 /\ n = 2%nat) \/ (tag = 0xF2 /\ n = 3%nat) \/
  (tag = 0xF3 /\ n = 4%nat) \/ (tag = 0xF4 /\ n = 8%nat) ->
  v' = v \/ v' = 2 ^ (8 * Z.of_nat n) + v ->
  - 2 ^ (8 * Z.of_nat n - 1) <= v < 2 ^ (8 * Z.of_nat n - 1) ->
  int_encoding v (tag :: bs).
Proof.
  intros -> Htag Hv' Hv. rewrite <- bytes_le by lia. rewrite (le_encode_shift n v v') by done.
  by constructor.
Qed.

Lemma encode_integer_spec v :
  LLONG_MIN <= v <= LLONG_MAX -> int_encoding v (lpEncodeIntegerGetType v).
Proof.
  intros Hv. unfold lpEncodeIntegerGetType.
  destruct ((0 <=? v) && (v <=? 127)) eqn:E7.
  { rewrite uwrap_small by lia. constructor. lia. }
  destruct ((-4096 <=? v) && (v <=? 4095)) eqn:E13; cbv zeta.
  { set (v' := if v <? 0 then Z.shiftl 1 13 + v else v).
    assert (Hv' : v' = v mod 8192).
    { unfold v'. change (Z.shiftl 1 13) with 8192.
      destruct (Z.ltb_spec v 0); Z.div_mod_to_equations; lia. }
    assert (0 <= v' / 256 < 32) by (Z.div_mod_to_equations; lia).
    rewrite byte_low, Z.shiftr_div_pow2 by lia. change 0xC0 with (6 * 2 ^ 5).
    change (2 ^ 8) with 256. rewrite lor_high by lia.
    rewrite uwrap_small by lia. rewrite Z.add_comm, Hv'.
    replace ((v mod 8192) mod 256) with (v mod 256) by (Z.div_mod_to_equations; lia).
    apply enc_13bit. lia. }
  destruct ((-32768 <=? v) && (v <=? 32767)) eqn:E16; [|
  destruct ((-8388608 <=? v) && (v <=? 8388607)) eqn:E24; [|
  destruct ((-2147483648 <=? v) && (v <=? 2147483647)) eqn:E32]].
  all: rewrite ?byte_shift, ?byte_shift_top, ?byte_low by lia.
  - eapply (enc_wide_bytes v _ 2); [done|lia| |simpl; lia].
    change (Z.shiftl 1 16) with 65536. destruct (v <? 0); auto.
  - eapply (enc_wide_bytes v _ 3); [done|lia| |simpl; lia].
    change (Z.shiftl 1 24) with 16777216. destruct (v <? 0); auto.
  - eapply (enc_wide_bytes v _ 4); [done|lia| |simpl; lia].
    change (Z.shiftl 1 32) with 4294967296. destruct (v <? 0); auto.
  - eapply (enc_wide_bytes v (u64 v) 8); [done|lia| |simpl; lia].
    unfold uwrap. destruct (Z.ltb_spec v 0); [right|left; apply Z.mod_small; lia].
    change (8 * Z.of_nat 8) with 64. Z.div_mod_to_equations. lia.
Qed.

(** *** Reading an integer back *)

Lemma lpSigned_spec w v :
  0 < w <= 64 -> - 2 ^ (w - 1) <= v < 2 ^ (w - 1) ->
  lpSigned (uwrap w v) (2 ^ (w - 1)) (2 ^ w - 1) = v.
Proof.
  intros Hw Hv. assert (H2 : 2 ^ w = 2 * 2 ^ (w - 1))
    by (rewrite <- Z.pow_succ_r by lia; f_equal; lia).
  assert (2 ^ (w - 1) <= 2 ^ 63) by (apply Z.pow_le_mono_r; lia).
  unfold lpSigned. destruct (Z.ltb_spec v 0) as [Hneg|Hpos].
  - assert (uwrap w v = v + 2 ^ w) as ->.
    { unfold uwrap. rewrite <- (Z.mod_add v 1) by lia. rewrite Z.mul_1_l. apply Z.mod_small. lia. }
    rewrite (proj2 (Z.leb_le _ _)) by lia. cbv zeta.
    rewrite (uwrap_small 64), swrap_small by lia. lia.
  - rewrite uwrap_small by lia. rewrite (proj2 (Z.leb_gt _ _)) by lia.
    apply swrap_small; lia.
Qed.

Lemma lpSigned_7bit v : 0 <= v <= 127 -> lpSigned (Z.land v 0x7f) ULLONG_MAX 0 = v.
Proof.
  intros Hv. rewrite land_127, Z.mod_small by lia. unfold lpSigned.
  rewrite (proj2 (Z.leb_gt _ _)) by lia. apply swrap_small; lia.
Qed.

(** The byte-wise reading of a little-endian number. *)
Ltac le_or :=
  repeat match goal with
  | |- context [Z.lor ?a (Z.shiftl ?k ?n)] =>
      rewrite (lor_shiftl a k n) by first [lia | unfold is_byte in *; lia]
  end.

(** [destruct_list bs] makes a list of known length explicit. *)
Ltac destruct_list bs :=
  repeat match goal with
  | H : length bs = S _ |- _ => destruct bs as [|? bs]; [discriminate H|]; simpl in H; injection H as H
  | H : length bs = O |- _ => destruct bs; [|discriminate H]; clear H
  end.

(** [lp_classes] evaluates the class tests on constant encoding bytes. *)
Ltac lp_class f b :=
  match eval vm_compute in (f b) with
  | true => change (f b) with true
  | false => change (f b) with false
  end.

Ltac lp_classes :=
  repeat match goal with
  | |- context [LP_ENCODING_IS_7BIT_UINT ?b] => lp_class LP_ENCODING_IS_7BIT_UINT b
  | |- context [LP_ENCODING_IS_6BIT_STR ?b] => lp_class LP_ENCODING_IS_6BIT_STR b
  | |- context [LP_ENCODING_IS_13BIT_INT ?b] => lp_class LP_ENCODING_IS_13BIT_INT b
  | |- context [LP_ENCODING_IS_16BIT_INT ?b] => lp_class LP_ENCODING_IS_16BIT_INT b
  | |- context [LP_ENCODING_IS_24BIT_INT ?b] => lp_class LP_ENCODING_IS_24BIT_INT b
  | |- context [LP_ENCODING_IS_32BIT_INT ?b] => lp_class LP_ENCODING_IS_32BIT_INT b
  | |- context [LP_ENCODING_IS_64BIT_INT ?b] => lp_class LP_ENCODING_IS_64BIT_INT b
  | |- context [LP_ENCODING_IS_12BIT_STR ?b] => lp_class LP_ENCODING_IS_12BIT_STR b
  | |- context [LP_ENCODING_IS_32BIT_STR ?b] => lp_class LP_ENCODING_IS_32BIT_STR b
  end; cbv iota.

Lemma int_entry_get lp p v bs es :
  LLONG_MIN <= v <= LLONG_MAX -> int_encoding v bs -> at_ lp p bs ->
  lpGetWithSize lp p es = Some (LpInt v, Zlen bs + 1).
Proof.
  intros Hv Henc Hat. unfold lpGetWithSize.
  destruct Henc as [H7|H13|tag n Htag Hr].
  - apply at_cons in Hat as [-> _]. cbn [mbind option_bind].
    rewrite class_7bit, (proj2 (Z.ltb_lt _ _)) by (unfold is_byte; lia).
    by rewrite lpSigned_7bit.
  - apply at_cons in Hat as [-> Hat]. apply at_cons in Hat as [Hp1 _]. cbn [mbind option_bind].
    assert (0 <= (v mod 8192) / 256 < 32) by (Z.div_mod_to_equations; lia).
    set (b := 192 + (v mod 8192) / 256) in *.
    rewrite class_7bit, class_6str, class_13int by (unfold is_byte; lia).
    rewrite (proj2 (Z.ltb_ge b 128)), (proj2 (Z.ltb_ge b 192)), andb_false_r by lia.
    rewrite (proj2 (Z.leb_le 192 b)), (proj2 (Z.ltb_lt b 224)) by lia. cbn [andb].
    rewrite Hp1. cbn [mbind option_bind]. do 3 f_equal.
    change 0x1f with (2 ^ 5 - 1). rewrite land_mask by lia.
    rewrite Z.lor_comm, lor_shiftl by (try apply Z.mod_pos_bound; lia).
    replace (b mod 2 ^ 5) with ((v mod 8192) / 256) by (unfold b; Z.div_mod_to_equations; lia).
    replace (v mod 256 + v mod 8192 / 256 * 2 ^ 8) with (uwrap 13 v)
      by (unfold uwrap; change (2 ^ 13) with 8192; Z.div_mod_to_equations; lia).
    apply (lpSigned_spec 13); lia.
  - apply at_cons in Hat as [-> Hat]. cbn [mbind option_bind].
    pose proof (lpSigned_spec (8 * Z.of_nat n) v ltac:(lia) Hr) as Hs.
    rewrite <- le_decode_encode in Hs.
    pose proof (length_le_encode n v) as Hl. pose proof (le_encode_ok n v) as Hok.
    set (bs := le_encode n v) in *. clearbody bs.
    destruct Htag as [[-> ->]|[[-> ->]|[[-> ->]|[-> ->]]]]; destruct_list bs; at_split Hat;
      rewrite !Forall_cons in Hok; lp_classes;
      repeat match goal with H : rd1 lp _ = _ |- _ => rewrite H; clear H end;
      cbn [mbind option_bind]; rewrite <- Hs at 1; do 2 f_equal; f_equal;
      cbn [le_decode]; le_or; f_equal; lia.
Qed.

(** *** Strings *)

(** The header of a string of length [n]. *)
Inductive str_header (n : Z) : list Z -> Prop :=
| hdr_6bit : 0 <= n < 64 -> str_header n [128 + n]
| hdr_12bit : 64 <= n < 4096 -> str_header n [224 + n / 256; n mod 256]
| hdr_32bit : 4096 <= n < 2 ^ 32 - 5 -> str_header n (0xF0 :: le_encode 4 n).

Lemma encode_string_spec s :
  Zlen s < 2 ^ 32 - 5 -> exists h, lpEncodeString s = h ++ s /\ str_header (Zlen s) h.
Proof.
  intros Hs. unfold lpEncodeString. cbv zeta.
  destruct (Z.ltb_spec (Zlen s) 64); [|destruct (Z.ltb_spec (Zlen s) 4096)].
  - exists [128 + Zlen s]. split; [|constructor; lia]. change 0x80 with (2 * 2 ^ 6).
    rewrite lor_high, uwrap_small by lia. cbn [app]. f_equal. lia.
  - eexists [_; _]. split; [|constructor; lia]. cbn [app]. rewrite byte_low.
    assert (0 <= Zlen s / 256 < 16) by (Z.div_mod_to_equations; lia).
    rewrite Z.shiftr_div_pow2 by lia. change 0xE0 with (14 * 2 ^ 4).
    change (2 ^ 8) with 256. rewrite lor_high, uwrap_small by lia. f_equal. lia.
  - exists (0xF0 :: le_encode 4 (Zlen s)). split; [|constructor; lia].
    rewrite !byte_shift, byte_low, bytes_le by lia. done.
Qed.

Lemma str_header_get lp p n h :
  str_header n h -> at_ lp p h -> forall es,
  lpGetWithSize lp p es = Some (LpStr (p + Zlen h) n, Zlen h + n + lpBacklenSize (Zlen h + n)) /\
  lpCurrentEncodedSizeUnsafe lp p = Some (Zlen h + n) /\
  lpCurrentEncodedSizeBytes lp p = Some (Zlen h).
Proof.
  intros Hh Hat es. unfold lpGetWithSize, lpCurrentEncodedSizeUnsafe, lpCurrentEncodedSizeBytes.
  destruct Hh as [Hn|Hn|Hn]; at_split Hat.
  - rewrite Hr. cbn [mbind option_bind]. set (b := 128 + n) in *.
    rewrite class_7bit, class_6str by (unfold is_byte; lia).
    rewrite (proj2 (Z.ltb_ge b 128)), (proj2 (Z.leb_le 128 b)), (proj2 (Z.ltb_lt b 192)) by lia.
    cbn [andb]. unfold LP_ENCODING_6BIT_STR_LEN. rewrite Hr. cbn [mbind option_bind].
    change 0x3F with (2 ^ 6 - 1). rewrite land_mask by lia.
    replace (b mod 2 ^ 6) with n by (unfold b; Z.div_mod_to_equations; lia).
    rewrite uwrap_small by lia. cbn [length]. by rewrite (Z.add_comm n 1).
  - assert (0 <= n / 256 < 16) by (Z.div_mod_to_equations; lia).
    rewrite Hr. cbn [mbind option_bind]. set (b := 224 + n / 256) in *.
    rewrite class_7bit, class_6str, class_13int, class_12str by (unfold is_byte; lia).
    unfold LP_ENCODING_IS_16BIT_INT, LP_ENCODING_IS_24BIT_INT, LP_ENCODING_IS_32BIT_INT,
      LP_ENCODING_IS_64BIT_INT. rewrite land_255, (Z.mod_small b) by lia.
    rewrite (proj2 (Z.ltb_ge b 128)), (proj2 (Z.ltb_ge b 192)), (proj2 (Z.ltb_ge b 224)) by lia.
    rewrite !andb_false_r, (proj2 (Z.leb_le 224 b)), (proj2 (Z.ltb_lt b 240)) by lia.
    rewrite !(proj2 (Z.eqb_neq b _)) by lia. cbn [andb].
    unfold LP_ENCODING_12BIT_STR_LEN. rewrite Hr, Hr0. cbn [mbind option_bind].
    change 0xF with (2 ^ 4 - 1). rewrite land_mask by lia.
    replace (b mod 2 ^ 4) with (n / 256) by (unfold b; Z.div_mod_to_equations; lia).
    rewrite lor_shiftl_l by (try apply Z.mod_pos_bound; lia).
    replace (n mod 256 + n / 256 * 2 ^ 8) with n by (Z.div_mod_to_equations; lia).
    rewrite uwrap_small by lia. cbn [length]. by rewrite (Z.add_comm n 2).
  - pose proof (length_le_encode 4 n) as Hl. pose proof (le_encode_ok 4 n) as Hok.
    pose proof (le_decode_encode 4 n) as Hd. rewrite uwrap_small in Hd by (simpl; lia).
    set (bs := le_encode 4 n) in *. clearbody bs. destruct_list bs.
    rewrite !Forall_cons in Hok. at_split Hat. rewrite Hr. cbn [mbind option_bind]. lp_classes.
    unfold LP_ENCODING_32BIT_STR_LEN.
    repeat match goal with H : rd1 lp _ = _ |- _ => rewrite H; clear H end.
    cbn [mbind option_bind le_decode] in *. rewrite Z.shiftl_0_r. le_or.
    replace (_ + _ * 2 ^ 24) with n by lia. rewrite uwrap_small by lia. cbn [length].
    by rewrite (Z.add_comm n 5).
Qed.

(** *** The backlen *)

Lemma backlen_byte x : u8 (Z.lor (Z.land x 127) 128) = 128 + x mod 128.
Proof.
  rewrite land_127. assert (0 <= x mod 128 < 128) by (apply Z.mod_pos_bound; lia).
  change 128 with (1 * 2 ^ 7) at 2. rewrite lor_high, uwrap_small by lia. lia.
Qed.

Lemma bit7_clear b : is_byte b -> (Z.land b 128 =? 0) = (b <? 128).
Proof. by_bytes. Qed.

Lemma backlen_more lp p f val shift d :
  rd1 lp p = Some (128 + d) -> 0 <= d < 128 -> 0 <= shift <= 21 -> 0 <= val < 2 ^ shift ->
  lpDecodeBacklen_loop (S f) lp p val shift =
  lpDecodeBacklen_loop f lp (p - 1) (val + d * 2 ^ shift) (shift + 7).
Proof.
  intros Hr Hd Hs Hv. cbn [lpDecodeBacklen_loop]. rewrite Hr. cbn [mbind option_bind].
  assert (2 ^ shift <= 2 ^ 21) by (apply Z.pow_le_mono_r; lia).
  rewrite bit7_clear, (proj2 (Z.ltb_ge _ _)) by (unfold is_byte; lia).
  rewrite land_127. replace ((128 + d) mod 128) with d by (Z.div_mod_to_equations; lia).
  rewrite Z.shiftl_mul_pow2, uwrap_small, <- Z.shiftl_mul_pow2, lor_shiftl by nia.
  by rewrite (proj2 (Z.ltb_ge _ _)), Z.shiftl_mul_pow2 by lia.
Qed.

Lemma backlen_last lp p f val shift d :
  rd1 lp p = Some d -> 0 <= d < 128 -> 0 <= shift <= 28 -> 0 <= val < 2 ^ shift ->
  lpDecodeBacklen_loop (S f) lp p val shift = Some (val + d * 2 ^ shift).
Proof.
  intros Hr Hd Hs Hv. cbn [lpDecodeBacklen_loop]. rewrite Hr. cbn [mbind option_bind].
  assert (2 ^ shift <= 2 ^ 28) by (apply Z.pow_le_mono_r; lia).
  rewrite land_127, Z.mod_small by lia.
  rewrite Z.shiftl_mul_pow2, uwrap_small, <- Z.shiftl_mul_pow2, lor_shiftl by nia.
  by rewrite bit7_clear, (proj2 (Z.ltb_lt _ _)), ?Z.shiftl_mul_pow2 by (unfold is_byte; lia).
Qed.

(** The backlen reads back from its last byte. *)
Lemma backlen_decode lp q l :
  0 <= l < 2 ^ 34 -> at_ lp q (lpEncodeBacklen l) ->
  lpDecodeBacklen lp (q + lpBacklenSize l - 1) = Some l.
Proof.
  intros Hl Hat. unfold lpBacklenSize, lpDecodeBacklen. unfold lpEncodeBacklen in *.
  assert (forall x, 0 <= x mod 128 < 128) as Hm by (intros; apply Z.mod_pos_bound; lia).
  repeat match goal with
  | H : context [if ?c then _ else _] |- _ => destruct c eqn:?
  end; rewrite ?backlen_byte, ?Z.shiftr_div_pow2 in * by lia; at_split Hat.
  1: rewrite uwrap_small in Hr by lia.
  2-5: rewrite uwrap_small in Hr by (Z.div_mod_to_equations; lia).
  all: cbn [length]; repeat match goal with
    | H : rd1 _ ?r = Some (128 + _) |- context [lpDecodeBacklen_loop _ _ ?p _ _] =>
        replace p with r by lia; rewrite (backlen_more _ _ _ _ _ _ H) by
          first [apply Hm | lia | Z.div_mod_to_equations; lia]; clear H
    end.
  all: match goal with
    | H : rd1 _ ?r = Some _ |- context [lpDecodeBacklen_loop _ _ ?p _ _] =>
        replace p with r by lia; rewrite (backlen_last _ _ _ _ _ _ H)
    end; first [lia | Z.div_mod_to_equations; lia | f_equal; Z.div_mod_to_equations; lia].
Qed.
(** *** Elements *)

Lemma backlen_size l : 1 <= lpBacklenSize l <= 5.
Proof.
  unfold lpBacklenSize, lpEncodeBacklen. repeat case_match; simpl; lia.
Qed.

Lemma backlen_bytes l : 0 <= l < 2 ^ 36 -> bytes_ok (lpEncodeBacklen l).
Proof.
  intros Hl. unfold lpEncodeBacklen.
  repeat case_match; repeat constructor; unfold is_byte, uwrap; apply Z.mod_pos_bound; lia.
Qed.

(** The first byte of an encoding is not the end marker. *)
Lemma int_encoding_shape v bs :
  int_encoding v bs -> bytes_ok bs /\ 1 <= Zlen bs <= 9 /\
  exists b bs', bs = b :: bs' /\ b <> LP_EOF.
Proof.
  unfold LP_EOF. intros [H|H|tag n Htag H].
  - split; [repeat constructor; unfold is_byte; lia|]. simpl. split; [lia|]. eexists _, _. split; [done|lia].
  - assert (0 <= (v mod 8192) / 256 < 32) by (Z.div_mod_to_equations; lia).
    split; [repeat constructor; unfold is_byte; try apply Z.mod_pos_bound; lia|].
    simpl. split; [lia|]. eexists _, _. split; [done|lia].
  - split; [constructor; [unfold is_byte; lia|apply le_encode_ok]|].
    cbn [length]. rewrite length_le_encode. split; [lia|]. eexists _, _. split; [done|lia].
Qed.

Lemma str_header_shape n h :
  str_header n h -> bytes_ok h /\ 1 <= Zlen h <= 5 /\ exists b bs', h = b :: bs' /\ b <> LP_EOF.
Proof.
  unfold LP_EOF. intros [H|H|H].
  - split; [repeat constructor; unfold is_byte; lia|]. simpl. split; [lia|]. eexists _, _. split; [done|lia].
  - assert (0 <= n / 256 < 16) by (Z.div_mod_to_equations; lia).
    split; [repeat constructor; unfold is_byte; try apply Z.mod_pos_bound; lia|].
    simpl. split; [lia|]. eexists _, _. split; [done|lia].
  - split; [constructor; [unfold is_byte; lia|apply le_encode_ok]|].
    cbn [length]. rewrite length_le_encode. split; [lia|]. eexists _, _. split; [done|lia].
Qed.

Lemma enc_shape e :
  elem_ok e -> bytes_ok (enc e) /\ 1 <= Zlen (enc e) < 2 ^ 32 /\
  exists b bs, enc e = b :: bs /\ b <> LP_EOF.
Proof.
  destruct e as [v|s]; cbn [elem_ok enc].
  - intros Hv. destruct (int_encoding_shape _ _ (encode_integer_spec v Hv)) as (? & ? & ?).
    split; [done|]. split; [lia|done].
  - intros [Hs Hl]. destruct (encode_string_spec s Hl) as (h & -> & Hh).
    destruct (str_header_shape _ _ Hh) as (Hb & Hz & b & bs & -> & Hne).
    split; [by apply Forall_app|]. rewrite Zlen_app. split; [|by eexists _, _].
    destruct Hh; cbn [length] in *; rewrite ?length_le_encode in *; lia.
Qed.

Lemma entry_length e : Zlen (entry e) = Zlen (enc e) + lpBacklenSize (Zlen (enc e)).
Proof. unfold entry. by rewrite Zlen_app. Qed.

Lemma entry_bytes e : elem_ok e -> bytes_ok (entry e).
Proof.
  intros He. destruct (enc_shape e He) as (Hb & Hl & _).
  apply Forall_app; split; [done|]. apply backlen_bytes. lia.
Qed.

(** The value [lpGet] finds stands for the element. *)
Definition lpval_is (lp : list Z) (v : lpval) (e : elem) : Prop :=
  match e, v with
  | EInt z, LpInt z' => z' = z
  | EStr s, LpStr off len => len = Zlen s /\ at_ lp off s
  | _, _ => False
  end.

Lemma elem_get lp p e es :
  elem_ok e -> at_ lp p (enc e) ->
  exists v, lpGetWithSize lp p es = Some (v, Zlen (entry e)) /\ lpval_is lp v e.
Proof.
  rewrite entry_length. destruct e as [v|s]; cbn [elem_ok enc].
  - intros Hv Hat. pose proof (encode_integer_spec v Hv) as Henc.
    rewrite (int_entry_get _ _ v _ es Hv Henc Hat). exists (LpInt v). split; [|done].
    destruct (int_encoding_shape _ _ Henc) as (_ & Hl & _). unfold lpBacklenSize, lpEncodeBacklen.
    by rewrite (proj2 (Z.leb_le _ _)) by lia.
  - intros [Hs Hl] Hat. destruct (encode_string_spec s Hl) as (h & Heq & Hh).
    rewrite Heq in *. apply at_app in Hat as [Hh' Hd].
    destruct (str_header_get lp p _ h Hh Hh' es) as (-> & _ & _).
    rewrite Zlen_app. by eexists.
Qed.

Lemma elem_size lp p e :
  elem_ok e -> at_ lp p (enc e) ->
  lpCurrentEncodedSizeUnsafe lp p = Some (Zlen (enc e)) /\
  exists n, lpCurrentEncodedSizeBytes lp p = Some n /\ 1 <= n <= Zlen (enc e).
Proof.
  destruct e as [v|s]; cbn [elem_ok enc].
  - intros Hv Hat. pose proof (encode_integer_spec v Hv) as Henc.
    unfold lpCurrentEncodedSizeUnsafe, lpCurrentEncodedSizeBytes.
    destruct Henc as [H|H|tag n Htag H]; apply at_cons in Hat as [-> Hat]; cbn [mbind option_bind].
    + rewrite class_7bit, (proj2 (Z.ltb_lt _ _)) by (unfold is_byte; lia). simpl. by eauto with lia.
    + assert (0 <= (v mod 8192) / 256 < 32) by (Z.div_mod_to_equations; lia).
      set (b := 192 + (v mod 8192) / 256) in *.
      rewrite class_7bit, class_6str, class_13int by (unfold is_byte; lia).
      rewrite (proj2 (Z.ltb_ge b 128)), (proj2 (Z.ltb_ge b 192)), andb_false_r by lia.
      rewrite (proj2 (Z.leb_le 192 b)), (proj2 (Z.ltb_lt b 224)) by lia. simpl. by eauto with lia.
    + cbn [length]. rewrite length_le_encode.
      destruct Htag as [[-> ->]|[[-> ->]|[[-> ->]|[-> ->]]]]; lp_classes; by eauto with lia.
  - intros [Hs Hl] Hat. destruct (encode_string_spec s Hl) as (h & Heq & Hh).
    rewrite Heq, Zlen_app in *. apply at_app in Hat as [Hh' Hd].
    destruct (str_header_get lp p _ h Hh Hh' 0) as (_ & -> & ->).
    destruct (str_header_shape _ _ Hh) as (_ & Hb & _). split; [done|]. eauto with lia.
Qed.

Lemma elem_string_of s : elem_string (elem_of_string s) = s.
Proof.
  unfold elem_of_string. rewrite lpStringToInt64_string2ll.
  destruct (string2ll s) as [v|] eqn:E; [|done]. by apply string2ll_sound in E as [_ ->].
Qed.

Lemma elem_of_string_ok s : bytes_ok s -> Zlen s < 2 ^ 32 - 5 -> elem_ok (elem_of_string s).
Proof.
  intros Hs Hl. unfold elem_of_string. rewrite lpStringToInt64_string2ll.
  destruct (string2ll s) as [v|] eqn:E; [|done]. by apply string2ll_sound in E as [? _].
Qed.

Lemma lpGet_intbuf_spec lp p e intbuf :
  elem_ok e -> at_ lp p (enc e) -> 21 <= Zlen intbuf ->
  lpGet_intbuf lp p intbuf = Some (elem_string e).
Proof.
  intros He Hat Hbuf. unfold lpGet_intbuf. destruct (elem_get lp p e 0 He Hat) as (v & -> & Hv).
  cbn [mbind option_bind]. destruct e as [z|s], v as [z'|off len]; try done; cbn [lpval_is] in Hv.
  - subst z'. pose proof (lltoa_length z He) as Hlen.
    destruct (ll2string_spec intbuf 21 z) as (post & -> & Hpost); [done|lia..|].
    cbn [mbind option_bind elem_string].
    apply (at_rd _ 0 (lltoa z)); [|done]. exists [], (0 :: post). done.
  - destruct Hv as [-> Hs]. by apply at_rd.
Qed.

Lemma lpCompare_spec lp p e t :
  elem_ok e -> at_ lp p (enc e) -> lpCompare lp p t = Some (bool_decide (elem_string e = t)).
Proof.
  intros He Hat. unfold lpCompare, lpGet.
  destruct (enc_shape e He) as (_ & _ & b & bs & Henc & Hb).
  pose proof Hat as Hp. rewrite Henc in Hp. apply at_cons in Hp as [-> _]. cbn [mbind option_bind].
  rewrite (proj2 (Z.eqb_neq _ _)) by done.
  destruct (elem_get lp p e 0 He Hat) as (v & -> & Hv). cbn [mbind option_bind].
  destruct e as [z|s], v as [z'|off len]; try done; cbn [lpval_is elem_string] in *.
  - subst z'. rewrite lpStringToInt64_string2ll. destruct (string2ll t) as [w|] eqn:E.
    + apply string2ll_sound in E as [Hw ->]. f_equal. destruct (Z.eqb_spec z w) as [->|Hne].
      * by rewrite bool_decide_true.
      * rewrite bool_decide_false; [done|]. intros Heq. apply Hne.
        apply (f_equal string2ll) in Heq. rewrite !string2ll_complete in Heq by done. congruence.
    + rewrite bool_decide_false; [done|]. intros <-. by rewrite string2ll_complete in E.
  - destruct Hv as [-> Hs]. destruct (Z.eqb_spec (Zlen t) (Zlen s)) as [Hl|Hl].
    + by rewrite (at_rd _ _ _ _ Hs).
    + rewrite bool_decide_false; [done|]. intros ->. lia.
Qed.

(** ** Theorems *)

(** Every string of less than 2^32-5 bytes, stored as the code stores
    it (as an integer when it is the canonical form of one), reads back: the
    entry's first byte is not the end marker, [lpGet] with a buffer returns
    the string, the sizes the code computes from the first bytes are the
    entry's, and the backlen read backwards from its last byte is the length
    of the encoding. *)
Theorem lp_entry_roundtrip lp p s intbuf es :
  let e := elem_of_string s in
  bytes_ok s -> Zlen s < 2 ^ 32 - 5 -> at_ lp p (entry e) -> 21 <= Zlen intbuf ->
  (exists b, rd1 lp p = Some b /\ b <> LP_EOF) /\
  lpGet_intbuf lp p intbuf = Some s /\
  (exists v, lpGetWithSize lp p es = Some (v, Zlen (entry e))) /\
  lpCurrentEncodedSizeUnsafe lp p = Some (Zlen (enc e)) /\
  lpDecodeBacklen lp (p + Zlen (entry e) - 1) = Some (Zlen (enc e)).
Proof.
  intros e Hs Hl Hat Hbuf. pose proof (elem_of_string_ok s Hs Hl) as He. fold e in He.
  rewrite entry_length. apply at_app in Hat as [Hat Hbl].
  destruct (enc_shape e He) as (_ & Hlen & b & bs & Henc & Hb).
  split. { exists b. rewrite Henc in Hat. by apply at_cons in Hat as [? _]. }
  split. { rewrite (lpGet_intbuf_spec lp p e) by done. f_equal. apply elem_string_of. }
  split. { destruct (elem_get lp p e es He Hat) as (v & -> & _). exists v. by rewrite entry_length. }
  split. { by apply elem_size. }
  rewrite Z.add_assoc. apply backlen_decode; [lia|done].
Qed.

(** [lpCompare] answers whether the entry reads as the given string,
    for every representation of the entry. *)
Theorem lpCompare_correct lp p e t :
  elem_ok e -> at_ lp p (enc e) ->
  lpCompare lp p t = Some (bool_decide (elem_string e = t)).
Proof. apply lpCompare_spec. Qed.

Lemma lp_entry_roundtrip_witness :
  let s := [45; 49; 50; 51; 52; 53] in
  let lp := [7; 7] ++ entry (elem_of_string s) ++ [255] in
  (exists b, rd1 lp 2 = Some b /\ b <> LP_EOF) /\
  lpGet_intbuf lp 2 (replicate 21 0) = Some s /\
  (exists v, lpGetWithSize lp 2 0 = Some (v, 4)) /\
  lpCurrentEncodedSizeUnsafe lp 2 = Some 3 /\
  lpDecodeBacklen lp (2 + 4 - 1) = Some 3.
Proof.
  intros s lp. apply (lp_entry_roundtrip lp 2 s (replicate 21 0) 0).
  - by_compute.
  - by vm_compute.
  - by exists [7; 7], [255].
  - by vm_compute.
Defined.

Lemma lpCompare_correct_witness :
  lpCompare (entry (EInt (-77)) ++ [255]) 0 [45; 55; 55] =
  Some (bool_decide (elem_string (EInt (-77)) = [45; 55; 55])).
Proof.
  apply (lpCompare_correct _ 0 (EInt (-77)) [45; 55; 55]); [by vm_compute|].
  by exists [], [2; 255].
Defined.

End LpEnc.
