(* ===== verification/Listpack.v ===== *)
(** * Listpacks (src/redis-7.2.4/src/listpack.c)

    The operations on whole listpacks.  A listpack is the list of all bytes
    of its allocation, so [lp_malloc_size] is its length and bytes beyond the
    total length in the header are slack; a pointer into it is an offset and
    the null pointer is [None] of an [option Z].  An outer [None] is an access
    outside the allocation or a failed assertion. *)

From S2P Require Import Prelude.
From S2P Require Import NumConv.
From S2P Require Import ListpackEnc.
Import NumConv LpEnc.

Module Lp.

Abbreviation LP_HDR_SIZE := 6.
Abbreviation LP_HDR_NUMELE_UNKNOWN := 65535.
Definition LISTPACK_MAX_SAFETY_SIZE : Z := Z.shiftl 1 30.

(** ** Header *)

Definition lpGetTotalBytes (lp : list Z) : option Z :=
  p0 ← rd1 lp 0; p1 ← rd1 lp 1; p2 ← rd1 lp 2; p3 ← rd1 lp 3;
  Some (Z.lor (Z.lor (Z.lor (Z.shiftl p0 0) (Z.shiftl p1 8)) (Z.shiftl p2 16)) (Z.shiftl p3 24)).

Definition lpGetNumElements (lp : list Z) : option Z :=
  p4 ← rd1 lp 4; p5 ← rd1 lp 5;
  Some (Z.lor (Z.shiftl p4 0) (Z.shiftl p5 8)).

Definition lpSetTotalBytes (lp : list Z) (v : Z) : option (list Z) :=
  wr lp 0 [u8 (Z.land v 0xff); u8 (Z.land (Z.shiftr v 8) 0xff);
           u8 (Z.land (Z.shiftr v 16) 0xff); u8 (Z.land (Z.shiftr v 24) 0xff)].

Definition lpSetNumElements (lp : list Z) (v : Z) : option (list Z) :=
  wr lp 4 [u8 (Z.land v 0xff); u8 (Z.land (Z.shiftr v 8) 0xff)].

Definition lpBytes (lp : list Z) : option Z := lpGetTotalBytes lp.

Definition ASSERT_INTEGRITY (lp : list Z) (p : Z) : option unit :=
  t ← lpGetTotalBytes lp; assertb ((LP_HDR_SIZE <=? p) && (p <? t)).

Definition ASSERT_INTEGRITY_LEN (lp : list Z) (p len : Z) : option unit :=
  t ← lpGetTotalBytes lp; assertb ((LP_HDR_SIZE <=? p) && (p + len <? t)).

Definition lpSafeToAdd (lp : option (list Z)) (add : Z) : option bool :=
  len ← match lp with Some lp => lpGetTotalBytes lp | None => Some 0 end;
  Some (negb (LISTPACK_MAX_SAFETY_SIZE <? u64 (len + add))).

(** ** Validation *)

Definition OUT_OF_RANGE (lpbytes p : Z) : bool := (p <? LP_HDR_SIZE) || (lpbytes - 1 <? p).

Definition lpValidateFirst (lp : list Z) : option (option Z) :=
  let p := LP_HDR_SIZE in
  b ← rd1 lp p; Some (if b =? LP_EOF then None else Some p).

(** The result and the new [*pp]. *)
Definition lpValidateNext (lp : list Z) (pp : option Z) (lpbytes : Z) : option (bool * option Z) :=
  match pp with
  | None => Some (false, pp)
  | Some p =>
      if OUT_OF_RANGE lpbytes p then Some (false, pp)
      else
        p0 ← rd1 lp p;
        if p0 =? LP_EOF then Some (true, None)
        else
          lenbytes ← lpCurrentEncodedSizeBytes lp p;
          if lenbytes =? 0 then Some (false, pp)
          else if OUT_OF_RANGE lpbytes (p + lenbytes) then Some (false, pp)
          else
            entrylen ← lpCurrentEncodedSizeUnsafe lp p;
            let encodedBacklen := lpBacklenSize entrylen in
            let entrylen := entrylen + encodedBacklen in
            if OUT_OF_RANGE lpbytes (p + entrylen) then Some (false, pp)
            else
              let p := p + entrylen in
              prevlen ← lpDecodeBacklen lp (p - 1);
              if negb (u64 (prevlen + encodedBacklen) =? entrylen) then Some (false, pp)
              else Some (true, Some p)
  end.

Definition lpAssertValidEntry (lp : list Z) (lpbytes p : Z) : option unit :=
  '(ok, _) ← lpValidateNext lp (Some p) lpbytes; assertb ok.

(** [entry_cb] sees the position of the entry and the number of elements of
    the header; its user data is part of the function. *)
Fixpoint lpValidateIntegrity_loop (fuel : nat) (lp : list Z) (bytes numele : Z)
    (entry_cb : option (Z -> Z -> bool)) (p : option Z) (count : Z) :
    option (option (option Z * Z)) :=
  match fuel with
  | O => None
  | S fuel' =>
      match p with
      | None => Some (Some (None, count))
      | Some p0 =>
          b ← rd1 lp p0;
          if b =? LP_EOF then Some (Some (p, count))
          else
            '(ok, p') ← lpValidateNext lp p bytes;
            if negb ok then Some None
            else if match entry_cb with Some cb => negb (cb p0 numele) | None => false end
            then Some None
            else lpValidateIntegrity_loop fuel' lp bytes numele entry_cb p' (u32 (count + 1))
      end
  end.

Definition lpValidateIntegrity (lp : list Z) (size : Z) (deep : bool)
    (entry_cb : option (Z -> Z -> bool)) : option bool :=
  if size <? LP_HDR_SIZE + 1 then Some false
  else
    bytes ← lpGetTotalBytes lp;
    if negb (bytes =? size) then Some false
    else
      last ← rd1 lp (size - 1);
      if negb (last =? LP_EOF) then Some false
      else if negb deep then Some true
      else
        numele ← lpGetNumElements lp;
        r ← lpValidateIntegrity_loop (S (length lp)) lp bytes numele entry_cb (Some LP_HDR_SIZE) 0;
        match r with
        | None => Some false
        | Some (p, count) =>
            if negb (bool_decide (p = Some (size - 1))) then Some false
            else if negb (numele =? LP_HDR_NUMELE_UNKNOWN) && negb (numele =? count) then Some false
            else Some true
        end.

(** ** Moving in a listpack *)

Definition lpSkip (lp : list Z) (p : Z) : option Z :=
  entrylen ← lpCurrentEncodedSizeUnsafe lp p;
  Some (p + (entrylen + lpBacklenSize entrylen)).

Definition lpNext (lp : list Z) (p : Z) : option (option Z) :=
  p ← lpSkip lp p;
  p0 ← rd1 lp p;
  if p0 =? LP_EOF then Some None
  else
    bytes ← lpBytes lp;
    _ ← lpAssertValidEntry lp bytes p;
    Some (Some p).

Definition lpPrev (lp : list Z) (p : Z) : option (option Z) :=
  if p =? LP_HDR_SIZE then Some None
  else
    let p := p - 1 in
    prevlen ← lpDecodeBacklen lp p;
    let prevlen := u64 (prevlen + lpBacklenSize prevlen) in
    let p := p - (prevlen - 1) in
    bytes ← lpBytes lp;
    _ ← lpAssertValidEntry lp bytes p;
    Some (Some p).

Definition lpFirst (lp : list Z) : option (option Z) :=
  let p := LP_HDR_SIZE in
  p0 ← rd1 lp p;
  if p0 =? LP_EOF then Some None
  else
    bytes ← lpBytes lp;
    _ ← lpAssertValidEntry lp bytes p;
    Some (Some p).

Definition lpLast (lp : list Z) : option (option Z) :=
  t ← lpGetTotalBytes lp; lpPrev lp (t - 1).

Fixpoint lpLength_loop (fuel : nat) (lp : list Z) (p : option Z) (count : Z) : option Z :=
  match p with
  | None => Some count
  | Some p0 =>
      match fuel with
      | O => None
      | S fuel' => p ← lpNext lp p0; lpLength_loop fuel' lp p (u32 (count + 1))
      end
  end.

(** The length and the listpack, whose header may have been updated. *)
Definition lpLength (lp : list Z) : option (Z * list Z) :=
  numele ← lpGetNumElements lp;
  if negb (numele =? LP_HDR_NUMELE_UNKNOWN) then Some (numele, lp)
  else
    p ← lpFirst lp;
    count ← lpLength_loop (length lp) lp p 0;
    lp ← if count <? LP_HDR_NUMELE_UNKNOWN then lpSetNumElements lp count else Some lp;
    Some (count, lp).

Fixpoint lpSeek_forward (fuel : nat) (lp : list Z) (index : Z) (ele : option Z) : option (option Z) :=
  match ele with
  | Some p =>
      if 0 <? index then
        match fuel with
        | O => None
        | S fuel' => ele ← lpNext lp p; lpSeek_forward fuel' lp (index - 1) ele
        end
      else Some ele
  | None => Some None
  end.

Fixpoint lpSeek_backward (fuel : nat) (lp : list Z) (index : Z) (ele : option Z) : option (option Z) :=
  match ele with
  | Some p =>
      if index <? -1 then
        match fuel with
        | O => None
        | S fuel' => ele ← lpPrev lp p; lpSeek_backward fuel' lp (index + 1) ele
        end
      else Some ele
  | None => Some None
  end.

Definition lpSeek (lp : list Z) (index : Z) : option (option Z) :=
  let go (forward : bool) (index : Z) :=
    if forward then ele ← lpFirst lp; lpSeek_forward (length lp) lp index ele
    else ele ← lpLast lp; lpSeek_backward (length lp) lp index ele in
  numele ← lpGetNumElements lp;
  if negb (numele =? LP_HDR_NUMELE_UNKNOWN) then
    let index := if index <? 0 then numele + index else index in
    if index <? 0 then Some None
    else if numele <=? index then Some None
    else if numele / 2 <? index then go false (index - numele)
    else go true index
  else go (negb (index <? 0)) index.

Definition UCHAR_MAX : Z := 255.

(** The variables of the loop: [p], [skipcnt], [vencoding], [vll] and
    [entry_size]. *)
Fixpoint lpFind_loop (fuel : nat) (lp : list Z) (lp_bytes : Z) (s : list Z) (skip : Z)
    (p skipcnt vencoding vll entry_size : Z) : option (option Z) :=
  match fuel with
  | O => None
  | S fuel' =>
      let slen := Zlen s in
      let next p skipcnt vencoding vll entry_size :=
        _ ← (if lp_bytes <=? p + 8 then lpAssertValidEntry lp lp_bytes p
             else assertb ((LP_HDR_SIZE <=? p) && (p <? lp_bytes)));
        p0 ← rd1 lp p;
        if p0 =? LP_EOF then Some None
        else lpFind_loop fuel' lp lp_bytes s skip p skipcnt vencoding vll entry_size in
      if skipcnt =? 0 then
        '(value, entry_size) ← lpGetWithSize lp p entry_size;
        match value with
        | LpStr off ll =>
            _ ← assertb ((LP_HDR_SIZE <=? p) && (p + entry_size <? lp_bytes));
            same ← if slen =? ll then bs ← rd lp off slen; Some (bool_decide (bs = s))
                   else Some false;
            if (same : bool) then Some (Some p)
            else next (p + entry_size) (s32 skip) vencoding vll entry_size
        | LpInt ll =>
            let '(vencoding, vll) :=
              if vencoding =? 0 then
                if (32 <=? slen) || (slen =? 0) then (UCHAR_MAX, vll)
                else match lpStringToInt64 s with
                     | None => (UCHAR_MAX, vll)
                     | Some vll => (1, vll)
                     end
              else (vencoding, vll) in
            if negb (vencoding =? UCHAR_MAX) && (ll =? vll) then Some (Some p)
            else next (p + entry_size) (s32 skip) vencoding vll entry_size
        end
      else
        p ← lpSkip lp p;
        next p (skipcnt - 1) vencoding vll entry_size
  end.

Definition lpFind (lp : list Z) (p : Z) (s : list Z) (skip : Z) : option (option Z) :=
  lp_bytes ← lpBytes lp;
  lpFind_loop (length lp) lp lp_bytes s skip p 0 0 0 123456789.

(** ** Changing a listpack *)

Inductive where_ := LP_BEFORE | LP_AFTER | LP_REPLACE.

#[export] Instance where_eq_dec : EqDecision where_.
Proof. solve_decision. Defined.

Section Alloc.
Context `{Allocator}.

Definition lp_malloc (n : Z) : list Z := realloc junk [] (usable n).
Definition lp_realloc (lp : list Z) (n : Z) : list Z := realloc junk lp (usable n).

Definition lpNew (capacity : Z) : option (list Z) :=
  let lp := lp_malloc (if LP_HDR_SIZE + 1 <? capacity then capacity else LP_HDR_SIZE + 1) in
  lp ← lpSetTotalBytes lp (LP_HDR_SIZE + 1);
  lp ← lpSetNumElements lp 0;
  wr1 lp LP_HDR_SIZE LP_EOF.

Definition lpShrinkToFit (lp : list Z) : option (list Z) :=
  size ← lpGetTotalBytes lp;
  Some (if size <? Zlen lp then lp_realloc lp size else lp).

(** The result is the null pointer ([Some None]) when the listpack would be
    too large, otherwise the listpack and [*newp]. *)
Definition lpInsert (lp : list Z) (elestr eleint : option (list Z)) (p : Z) (where' : where_) :
    option (option (list Z * option Z)) :=
  let delete := match elestr, eleint with None, None => true | _, _ => false end in
  let where' := if delete then LP_REPLACE else where' in
  '(p, where') ← match where' with
                 | LP_AFTER => p ← lpSkip lp p; _ ← ASSERT_INTEGRITY lp p; Some (p, LP_BEFORE)
                 | _ => Some (p, where')
                 end;
  let poff := p in
  let '(eleint, enclen) :=
    match elestr, eleint with
    | Some s, _ => match lpEncodeGetType s with
                   | inl intenc => (Some intenc, Zlen intenc)
                   | inr enclen => (None, enclen)
                   end
    | None, Some intenc => (Some intenc, Zlen intenc)
    | None, None => (None, 0)
    end in
  let backlen := if delete then [] else lpEncodeBacklen enclen in
  let backlen_size := Zlen backlen in
  old_listpack_bytes ← lpGetTotalBytes lp;
  replaced_len ← match where' with
                 | LP_REPLACE =>
                     n ← lpCurrentEncodedSizeUnsafe lp p;
                     let n := u32 (n + lpBacklenSize n) in
                     _ ← ASSERT_INTEGRITY_LEN lp p n;
                     Some n
                 | _ => Some 0
                 end;
  let new_listpack_bytes := u64 (old_listpack_bytes + enclen + backlen_size - replaced_len) in
  if 2 ^ 32 - 1 <? new_listpack_bytes then Some None
  else
    let lp := if (old_listpack_bytes <? new_listpack_bytes) && (Zlen lp <? new_listpack_bytes)
              then lp_realloc lp new_listpack_bytes else lp in
    lp ← match where' with
         | LP_BEFORE => memmove lp (poff + enclen + backlen_size) poff (old_listpack_bytes - poff)
         | _ => memmove lp (poff + enclen + backlen_size) (poff + replaced_len)
                  (old_listpack_bytes - poff - replaced_len)
         end;
    let lp := if new_listpack_bytes <? old_listpack_bytes
              then lp_realloc lp new_listpack_bytes else lp in
    newp ← (if delete then d0 ← rd1 lp poff; Some (if d0 =? LP_EOF then None else Some poff)
            else Some (Some poff));
    lp ← (if delete then Some lp
          else
            lp ← match eleint, elestr with
                 | Some intenc, _ => wr lp poff intenc
                 | None, Some s => wr lp poff (lpEncodeString s)
                 | None, None => None
                 end;
            wr lp (poff + enclen) backlen);
    lp ← (if negb (bool_decide (where' = LP_REPLACE)) || delete then
            num_elements ← lpGetNumElements lp;
            if negb (num_elements =? LP_HDR_NUMELE_UNKNOWN) then
              lpSetNumElements lp (if negb delete then num_elements + 1 else num_elements - 1)
            else Some lp
          else Some lp);
    lp ← lpSetTotalBytes lp new_listpack_bytes;
    Some (Some (lp, newp)).

Definition lpInsertString (lp s : list Z) (p : Z) (where' : where_) :=
  lpInsert lp (Some s) None p where'.

Definition lpInsertInteger (lp : list Z) (lval p : Z) (where' : where_) :=
  lpInsert lp None (Some (lpEncodeIntegerGetType lval)) p where'.

Definition lpAppend (lp ele : list Z) :=
  listpack_bytes ← lpGetTotalBytes lp;
  lpInsert lp (Some ele) None (listpack_bytes - 1) LP_BEFORE.

Definition lpAppendInteger (lp : list Z) (lval : Z) :=
  listpack_bytes ← lpGetTotalBytes lp;
  lpInsertInteger lp lval (listpack_bytes - 1) LP_BEFORE.

Definition lpPrepend (lp s : list Z) :=
  p ← lpFirst lp;
  match p with
  | None => lpAppend lp s
  | Some p => lpInsert lp (Some s) None p LP_BEFORE
  end.

Definition lpPrependInteger (lp : list Z) (lval : Z) :=
  p ← lpFirst lp;
  match p with
  | None => lpAppendInteger lp lval
  | Some p => lpInsertInteger lp lval p LP_BEFORE
  end.

Definition lpReplace (lp : list Z) (p : Z) (s : list Z) :=
  lpInsert lp (Some s) None p LP_REPLACE.

Definition lpReplaceInteger (lp : list Z) (p lval : Z) := lpInsertInteger lp lval p LP_REPLACE.

Definition lpDelete (lp : list Z) (p : Z) := lpInsert lp None None p LP_REPLACE.

(** The loop that finds the first entry after the range: [tail] and [deleted]. *)
Fixpoint lpDeleteRange_loop (fuel : nat) (lp : list Z) (bytes tail num deleted : Z) :
    option (Z * Z) :=
  if num =? 0 then Some (tail, deleted)
  else
    match fuel with
    | O => None
    | S fuel' =>
        let deleted := deleted + 1 in
        tail ← lpSkip lp tail;
        t0 ← rd1 lp tail;
        if t0 =? LP_EOF then Some (tail, deleted)
        else
          _ ← lpAssertValidEntry lp bytes tail;
          lpDeleteRange_loop fuel' lp bytes tail (num - 1) deleted
    end.

(** The listpack and [*p]. *)
Definition lpDeleteRangeWithEntry (lp : list Z) (p num : Z) : option (list Z * option Z) :=
  bytes ← lpBytes lp;
  let eofptr := bytes - 1 in
  let first := p in
  if num =? 0 then Some (lp, Some p)
  else
    '(tail, deleted) ← lpDeleteRange_loop (length lp) lp bytes p num 0;
    let poff := first in
    lp ← memmove lp first tail (eofptr - tail + 1);
    lp ← lpSetTotalBytes lp (bytes - (tail - first));
    numele ← lpGetNumElements lp;
    lp ← (if negb (numele =? LP_HDR_NUMELE_UNKNOWN)
          then lpSetNumElements lp (u64 (numele - deleted)) else Some lp);
    lp ← lpShrinkToFit lp;
    p0 ← rd1 lp poff;
    Some (lp, if p0 =? LP_EOF then None else Some poff).

Definition lpDeleteRange (lp : list Z) (index num : Z) : option (list Z) :=
  numele ← lpGetNumElements lp;
  if num =? 0 then Some lp
  else
    p ← lpSeek lp index;
    match p with
    | None => Some lp
    | Some p =>
        let known := negb (numele =? LP_HDR_NUMELE_UNKNOWN) in
        let index := if known && (index <? 0) then numele + index else index in
        if known && (u64 (numele - u64 index) <=? num) then
          lp ← wr1 lp p LP_EOF;
          lp ← lpSetTotalBytes lp (p + 1);
          lp ← lpSetNumElements lp index;
          lpShrinkToFit lp
        else
          '(lp, _) ← lpDeleteRangeWithEntry lp p num; Some lp
    end.

Fixpoint lpBatchDelete_loop (lp : list Z) (lp_end : Z) (ps : list Z) (dst : Z) :
    option (list Z * Z) :=
  match ps with
  | [] => Some (lp, dst)
  | skip :: ps' =>
      s0 ← rd1 lp skip;
      _ ← assertb (negb (s0 =? LP_EOF));
      keep_start ← lpSkip lp skip;
      match ps' with
      | keep_end :: _ =>
          if keep_start =? keep_end then lpBatchDelete_loop lp lp_end ps' dst
          else
            _ ← assertb (keep_start <? keep_end);
            lp ← memmove lp dst keep_start (keep_end - keep_start);
            lpBatchDelete_loop lp lp_end ps' (dst + (keep_end - keep_start))
      | [] =>
          let keep_end := lp_end in
          _ ← assertb (keep_start <? keep_end);
          lp ← memmove lp dst keep_start (keep_end - keep_start);
          Some (lp, dst + (keep_end - keep_start))
      end
  end.

Definition lpBatchDelete (lp : list Z) (ps : list Z) : option (list Z) :=
  match ps with
  | [] => Some lp
  | dst :: _ =>
      total_bytes ← lpGetTotalBytes lp;
      let lp_end := total_bytes in
      e ← rd1 lp (lp_end - 1);
      _ ← assertb (e =? LP_EOF);
      '(lp, dst) ← lpBatchDelete_loop lp lp_end ps dst;
      let deleted_bytes := lp_end - dst in
      let total_bytes := total_bytes - deleted_bytes in
      e ← rd1 lp (total_bytes - 1);
      _ ← assertb (e =? LP_EOF);
      lp ← lpSetTotalBytes lp total_bytes;
      numele ← lpGetNumElements lp;
      lp ← (if negb (numele =? LP_HDR_NUMELE_UNKNOWN)
            then lpSetNumElements lp (u64 (numele - Zlen ps)) else Some lp);
      lpShrinkToFit lp
  end.

(** Two listpacks, [None] for the null pointer, and whether the pointers are
    equal; the result is [Some None] when the merge is impossible, otherwise
    the new [*first] and [*second]: the merged listpack, which reuses the
    larger one, and the null pointer in place of the other. *)
Definition lpMerge (first second : option (list Z)) (same : bool) :
    option (option (option (list Z) * option (list Z))) :=
  match first, second with
  | Some first, Some second =>
      if same then Some None
      else
        first_bytes ← lpBytes first;
        '(first_len, first) ← lpLength first;
        second_bytes ← lpBytes second;
        '(second_len, second) ← lpLength second;
        let append := second_bytes <=? first_bytes in
        let target := if append then first else second in
        let target_bytes := if append then first_bytes else second_bytes in
        let source := if append then second else first in
        let source_bytes := if append then second_bytes else first_bytes in
        let lpbytes := u64 (first_bytes + second_bytes - LP_HDR_SIZE - 1) in
        _ ← assertb (lpbytes <? 2 ^ 32 - 1);
        let lplength := first_len + second_len in
        let lplength := if lplength <? 65535 then lplength else 65535 in
        let target := lp_realloc target lpbytes in
        target ←
          (if append then
             bs ← rd source LP_HDR_SIZE (source_bytes - LP_HDR_SIZE);
             wr target (target_bytes - 1) bs
           else
             target ← memmove target (source_bytes - 1) LP_HDR_SIZE (target_bytes - LP_HDR_SIZE);
             bs ← rd source 0 (source_bytes - 1);
             wr target 0 bs);
        target ← lpSetNumElements target lplength;
        target ← lpSetTotalBytes target lpbytes;
        Some (Some (if append then (Some target, None) else (None, Some target)))
  | _, _ => Some None
  end.

Definition lpDup (lp : list Z) : option (list Z) :=
  lpbytes ← lpBytes lp;
  let newlp := lp_malloc lpbytes in
  bs ← rd lp 0 lpbytes;
  wr newlp 0 bs.

End Alloc.

Definition lpEstimateBytesRepeatedInteger (lval rep : Z) : Z :=
  let enclen := Zlen (lpEncodeIntegerGetType lval) in
  let backlen := lpBacklenSize enclen in
  u64 (LP_HDR_SIZE + (enclen + backlen) * rep + 1).

End Lp.
