(* ===== verification/ListpackOps.v ===== *)
(** * Listpacks as lists of elements

    What the operations of Listpack.v do to the list of elements a listpack
    stands for.  [repr lp es] says that the bytes [lp] are a header, the
    entries of [es], the end marker and slack; every operation on such a
    listpack stays inside the allocation, passes the assertions of the code
    and returns a listpack of the updated list. *)

From S2P Require Import Prelude.
From S2P Require Import NumConv.
From S2P Require Import ListpackEnc.
From S2P Require Import Listpack.
Import NumConv LpEnc Lp.

#[local] Set Default Proof Using "Type*".

Module LpOps.

Definition body (es : list elem) : list Z := concat (map entry es).

(** The position of the entry after the entries [es], and the total size. *)
Definition pos (es : list elem) : Z := LP_HDR_SIZE + Zlen (body es).

Definition layout (num : Z) (es : list elem) (slack : list Z) : list Z :=
  le_encode 4 (pos es + 1) ++ le_encode 2 num ++ body es ++ [LP_EOF] ++ slack.

(** The count of the header is exact, or says that it is unknown. *)
Definition count_ok (num : Z) (es : list elem) : Prop :=
  0 <= num <= LP_HDR_NUMELE_UNKNOWN /\ (num = Zlen es \/ num = LP_HDR_NUMELE_UNKNOWN).

Definition repr (lp : list Z) (es : list elem) : Prop :=
  Forall elem_ok es /\ pos es + 1 < 2 ^ 32 /\
  exists num slack, count_ok num es /\ lp = layout num es slack.

(** ** The header *)

Lemma get_total t rest : 0 <= t < 2 ^ 32 -> lpGetTotalBytes (le_encode 4 t ++ rest) = Some t.
Proof.
  intros Ht. pose proof (le_decode_encode 4 t) as Hd. rewrite uwrap_small in Hd by (simpl; lia).
  pose proof (le_encode_ok 4 t) as Hok. pose proof (length_le_encode 4 t) as Hl.
  set (bs := le_encode 4 t) in *. clearbody bs. destruct_list bs. rewrite !Forall_cons in Hok.
  unfold lpGetTotalBytes, rd1. change (Z.to_nat 0) with 0%nat. change (Z.to_nat 1) with 1%nat.
  change (Z.to_nat 2) with 2%nat. change (Z.to_nat 3) with 3%nat.
  cbn [app lookup list_lookup Z.leb Z.compare mbind option_bind le_decode] in *.
  rewrite Z.shiftl_0_r. le_or.
  f_equal. lia.
Qed.

Lemma get_num t n rest :
  0 <= n < 65536 -> lpGetNumElements (le_encode 4 t ++ le_encode 2 n ++ rest) = Some n.
Proof.
  intros Hn. pose proof (le_decode_encode 2 n) as Hd. rewrite uwrap_small in Hd by (simpl; lia).
  pose proof (le_encode_ok 2 n) as Hok. pose proof (length_le_encode 2 n) as Hl.
  set (bs := le_encode 2 n) in *. clearbody bs. destruct_list bs. rewrite !Forall_cons in Hok.
  unfold lpGetNumElements, rd1. change (Z.to_nat 4) with 4%nat. change (Z.to_nat 5) with 5%nat.
  cbn [app lookup list_lookup Z.leb Z.compare mbind option_bind le_decode le_encode] in *.
  rewrite Z.shiftl_0_r. le_or.
  f_equal. lia.
Qed.

Lemma set_total a rest v :
  length a = 4%nat -> lpSetTotalBytes (a ++ rest) v = Some (le_encode 4 v ++ rest).
Proof.
  intros Ha. unfold lpSetTotalBytes. rewrite !byte_shift, byte_low, bytes_le by lia.
  apply (wr_app [] a); [done|]. simpl. lia.
Qed.

Lemma set_num a b rest v :
  length a = 4%nat -> length b = 2%nat ->
  lpSetNumElements (a ++ b ++ rest) v = Some (a ++ le_encode 2 v ++ rest).
Proof.
  intros Ha Hb. unfold lpSetNumElements. rewrite byte_shift, byte_low, bytes_le by lia.
  apply (wr_app a b); simpl; lia.
Qed.

(** ** Positions *)

Lemma body_app es1 es2 : body (es1 ++ es2) = body es1 ++ body es2.
Proof. unfold body. by rewrite map_app, concat_app. Qed.

Lemma body_cons e es : body (e :: es) = entry e ++ body es.
Proof. done. Qed.

Lemma pos_app es1 es2 : pos (es1 ++ es2) = pos es1 + Zlen (body es2).
Proof. unfold pos. rewrite body_app, Zlen_app. lia. Qed.

Lemma pos_snoc es e : pos (es ++ [e]) = pos es + Zlen (entry e).
Proof. rewrite pos_app, body_cons. cbn [body map concat]. by rewrite app_nil_r. Qed.

Lemma pos_ge es : LP_HDR_SIZE <= pos es.
Proof. unfold pos. lia. Qed.

Lemma entry_ge e : elem_ok e -> 2 <= Zlen (entry e).
Proof.
  intros He. rewrite entry_length. destruct (enc_shape e He) as (_ & ? & _).
  pose proof (backlen_size (Zlen (enc e))). lia.
Qed.

Lemma body_length es : Forall elem_ok es -> 2 * Zlen es <= Zlen (body es).
Proof.
  induction 1 as [|e es He _ IH]; [done|]. rewrite body_cons, Zlen_app.
  pose proof (entry_ge e He). cbn [length]. lia.
Qed.

(** The bytes from the position of the entries [es2] on. *)
Lemma layout_at num es1 es2 slack :
  at_ (layout num (es1 ++ es2) slack) (pos es1) (body es2 ++ [LP_EOF]).
Proof.
  unfold layout. rewrite body_app.
  exists (le_encode 4 (pos (es1 ++ es2) + 1) ++ le_encode 2 num ++ body es1), slack.
  split; [by rewrite <- !app_assoc|]. unfold pos. rewrite !Zlen_app, !length_le_encode. lia.
Qed.

Lemma layout_total num es slack :
  pos es + 1 < 2 ^ 32 -> lpGetTotalBytes (layout num es slack) = Some (pos es + 1).
Proof. intros Hsz. pose proof (pos_ge es). apply get_total. lia. Qed.

Section Nav.
Context (lp : list Z) (es : list elem) (Hlp : repr lp es).

Lemma total_eq : lpGetTotalBytes lp = Some (pos es + 1).
Proof. destruct Hlp as (_ & Hsz & num & slack & _ & ->). by apply layout_total. Qed.

Lemma at_entries es1 es2 : es = es1 ++ es2 -> at_ lp (pos es1) (body es2 ++ [LP_EOF]).
Proof. intros ->. destruct Hlp as (_ & _ & num & slack & _ & ->). apply layout_at. Qed.

Lemma at_end : rd1 lp (pos es) = Some LP_EOF.
Proof.
  pose proof (at_entries es [] (symmetry (app_nil_r es))) as Hat.
  by apply at_cons in Hat as [? _].
Qed.

Lemma at_entry es1 e es2 :
  es = es1 ++ e :: es2 ->
  elem_ok e /\ at_ lp (pos es1) (enc e) /\
  at_ lp (pos es1 + Zlen (enc e)) (lpEncodeBacklen (Zlen (enc e))) /\
  pos (es1 ++ [e]) <= pos es.
Proof.
  intros Heq. assert (He : elem_ok e).
  { destruct Hlp as (Hok & _). rewrite Heq, Forall_app, Forall_cons in Hok. tauto. }
  pose proof (at_entries es1 (e :: es2) Heq) as Hat. rewrite body_cons in Hat.
  unfold entry in Hat. rewrite <- !app_assoc in Hat.
  apply at_app in Hat as [? Hat]. apply at_app in Hat as [? _].
  split_and!; [done..|]. rewrite Heq.
  replace (es1 ++ e :: es2) with ((es1 ++ [e]) ++ es2) by by rewrite <- app_assoc.
  rewrite (pos_app (es1 ++ [e])). lia.
Qed.

(** The first byte of an entry. *)
Lemma entry_first es1 e es2 :
  es = es1 ++ e :: es2 -> exists b, rd1 lp (pos es1) = Some b /\ (b =? LP_EOF) = false.
Proof.
  intros Heq. destruct (at_entry _ _ _ Heq) as (He & Hat & _).
  destruct (enc_shape e He) as (_ & _ & b & bs & Henc & Hb). exists b.
  rewrite Henc in Hat. apply at_cons in Hat as [? _]. split; [done|]. by apply Z.eqb_neq.
Qed.

Lemma skip_spec es1 e es2 :
  es = es1 ++ e :: es2 -> lpSkip lp (pos es1) = Some (pos (es1 ++ [e])).
Proof.
  intros Heq. destruct (at_entry _ _ _ Heq) as (He & Hat & _). unfold lpSkip.
  destruct (elem_size lp _ e He Hat) as [-> _]. cbn [mbind option_bind].
  by rewrite pos_snoc, entry_length.
Qed.

Lemma decode_backlen_spec es1 e es2 :
  es = es1 ++ e :: es2 -> lpDecodeBacklen lp (pos (es1 ++ [e]) - 1) = Some (Zlen (enc e)).
Proof.
  intros Heq. destruct (at_entry _ _ _ Heq) as (He & _ & Hbl & _).
  destruct (enc_shape e He) as (_ & Hlen & _).
  rewrite pos_snoc, entry_length, Z.add_assoc. apply backlen_decode; [lia|done].
Qed.

Lemma validate_spec es1 e es2 :
  es = es1 ++ e :: es2 ->
  lpValidateNext lp (Some (pos es1)) (pos es + 1) = Some (true, Some (pos (es1 ++ [e]))).
Proof.
  intros Heq. destruct (at_entry _ _ _ Heq) as (He & Hat & Hbl & Hle).
  destruct (entry_first _ _ _ Heq) as (b & Hb & Hne). pose proof (pos_ge es1) as Hge.
  destruct (elem_size lp _ e He Hat) as (Hsz & n & Hn & Hn'). 
  destruct (enc_shape e He) as (_ & Hlen & _). pose proof (backlen_size (Zlen (enc e))) as Hbs.
  pose proof (decode_backlen_spec _ _ _ Heq) as Hd.
  rewrite pos_snoc, entry_length in *. unfold lpValidateNext, OUT_OF_RANGE.
  rewrite !(proj2 (orb_false_iff _ _)) by lia. rewrite Hb. cbn [mbind option_bind].
  rewrite Hne, Hn. cbn [mbind option_bind].
  rewrite (proj2 (Z.eqb_neq n 0)), !(proj2 (orb_false_iff _ _)) by lia.
  rewrite Hsz. cbn [mbind option_bind]. rewrite !(proj2 (orb_false_iff _ _)) by lia.
  rewrite Hd. cbn [mbind option_bind]. rewrite uwrap_small by lia.
  by rewrite Z.eqb_refl.
Qed.

Lemma validate_end : lpValidateNext lp (Some (pos es)) (pos es + 1) = Some (true, None).
Proof.
  unfold lpValidateNext, OUT_OF_RANGE. pose proof (pos_ge es).
  rewrite (proj2 (orb_false_iff _ _)) by lia. by rewrite at_end.
Qed.

Lemma assert_entry es1 e es2 :
  es = es1 ++ e :: es2 -> lpAssertValidEntry lp (pos es + 1) (pos es1) = Some tt.
Proof. intros Heq. unfold lpAssertValidEntry. by rewrite (validate_spec _ _ _ Heq). Qed.

(** The pointer to the entry after [es1] of [es1 ++ es2]. *)
Definition ptr (es1 es2 : list elem) : option Z :=
  match es2 with [] => None | _ => Some (pos es1) end.

Lemma ptr_read es1 es2 :
  es = es1 ++ es2 ->
  (p0 ← rd1 lp (pos es1);
   if p0 =? LP_EOF then Some None
   else bytes ← lpBytes lp; _ ← lpAssertValidEntry lp bytes (pos es1); Some (Some (pos es1)))
  = Some (ptr es1 es2).
Proof.
  intros Heq. destruct es2 as [|e es2]; cbn [ptr].
  - rewrite app_nil_r in Heq. rewrite <- Heq, at_end. done.
  - destruct (entry_first _ _ _ Heq) as (b & -> & Hb). cbn [mbind option_bind]. rewrite Hb.
    unfold lpBytes. rewrite total_eq. cbn [mbind option_bind]. by rewrite (assert_entry _ _ _ Heq).
Qed.

Lemma lpNext_spec es1 e es2 :
  es = es1 ++ e :: es2 -> lpNext lp (pos es1) = Some (ptr (es1 ++ [e]) es2).
Proof.
  intros Heq. unfold lpNext. rewrite (skip_spec _ _ _ Heq). cbn [mbind option_bind].
  apply ptr_read. by rewrite <- app_assoc.
Qed.

Lemma lpFirst_spec : lpFirst lp = Some (ptr [] es).
Proof. exact (ptr_read [] es eq_refl). Qed.

Lemma lpPrev_spec es1 e es2 :
  es = es1 ++ e :: es2 -> lpPrev lp (pos (es1 ++ [e])) = Some (Some (pos es1)).
Proof.
  intros Heq. unfold lpPrev. pose proof (pos_ge es1). destruct (at_entry _ _ _ Heq) as (He & _).
  pose proof (entry_ge e He). rewrite (proj2 (Z.eqb_neq _ _)) by (rewrite pos_snoc; lia).
  rewrite (decode_backlen_spec _ _ _ Heq). cbn [mbind option_bind].
  destruct (enc_shape e He) as (_ & Hlen & _). pose proof (backlen_size (Zlen (enc e))).
  rewrite uwrap_small by lia. rewrite <- entry_length, pos_snoc.
  replace (_ - (_ - 1)) with (pos es1) by lia.
  unfold lpBytes. rewrite total_eq. cbn [mbind option_bind]. by rewrite (assert_entry _ _ _ Heq).
Qed.

Lemma lpLast_spec :
  lpLast lp = Some (match rev es with [] => None | e :: r => Some (pos (rev r)) end).
Proof.
  unfold lpLast. rewrite total_eq. cbn [mbind option_bind]. rewrite Z.add_simpl_r.
  pose proof (rev_involutive es) as Heq. destruct (rev es) as [|e r]; cbn [rev] in Heq.
  - by rewrite <- Heq.
  - rewrite <- Heq at 1. by apply (lpPrev_spec (rev r) e []).
Qed.

(** The pointer to the entry of index [k]. *)
Definition nth_ptr (k : Z) : option Z :=
  if (0 <=? k) && (k <? Zlen es) then Some (pos (take (Z.to_nat k) es)) else None.

Lemma nth_split k :
  0 <= k < Zlen es -> exists e,
  es = take (Z.to_nat k) es ++ e :: drop (Z.to_nat (k + 1)) es /\
  take (Z.to_nat (k + 1)) es = take (Z.to_nat k) es ++ [e].
Proof using es.
  intros Hk. destruct (lookup_lt_is_Some_2 es (Z.to_nat k)) as [e He]; [lia|].
  exists e. replace (Z.to_nat (k + 1)) with (S (Z.to_nat k)) by lia.
  split; [symmetry; by apply take_drop_middle|]. by apply take_S_r.
Qed.

Lemma nth_ptr_ptr k : 0 <= k <= Zlen es -> ptr (take (Z.to_nat k) es) (drop (Z.to_nat k) es) = nth_ptr k.
Proof using es.
  intros Hk. unfold nth_ptr. destruct (drop (Z.to_nat k) es) as [|e d] eqn:E; cbn [ptr];
    apply (f_equal length) in E; rewrite length_drop in E; cbn [length] in E.
  - by rewrite (proj2 (Z.ltb_ge _ _)), andb_false_r by lia.
  - by rewrite (proj2 (Z.leb_le _ _)), (proj2 (Z.ltb_lt _ _)) by lia.
Qed.

Lemma next_nth k : 0 <= k < Zlen es -> lpNext lp (pos (take (Z.to_nat k) es)) = Some (nth_ptr (k + 1)).
Proof.
  intros Hk. destruct (nth_split k Hk) as (e & Heq & Ht). rewrite (lpNext_spec _ _ _ Heq).
  rewrite <- Ht. f_equal. apply nth_ptr_ptr. lia.
Qed.

Lemma prev_nth k : 0 <= k < Zlen es -> lpPrev lp (pos (take (Z.to_nat k) es)) = Some (nth_ptr (k - 1)).
Proof.
  intros Hk. destruct (Z.eqb_spec k 0) as [->|Hne].
  - cbn [take]. unfold nth_ptr. by rewrite (proj2 (Z.leb_gt _ _)) by lia.
  - destruct (nth_split (k - 1)) as (e & Heq & Ht); [lia|]. rewrite Z.sub_add in Ht. rewrite Ht.
    rewrite (lpPrev_spec _ _ _ Heq). unfold nth_ptr.
    by rewrite (proj2 (Z.leb_le _ _)), (proj2 (Z.ltb_lt _ _)) by lia.
Qed.

Lemma first_nth : lpFirst lp = Some (nth_ptr 0).
Proof. rewrite lpFirst_spec. f_equal. apply (nth_ptr_ptr 0). lia. Qed.

Lemma last_nth : lpLast lp = Some (nth_ptr (Zlen es - 1)).
Proof.
  rewrite lpLast_spec. f_equal. pose proof (rev_involutive es) as Heq. unfold nth_ptr.
  destruct (rev es) as [|e r]; cbn [rev] in Heq; rewrite <- Heq; [done|].
  rewrite Zlen_app. cbn [length]. rewrite (proj2 (Z.leb_le _ _)), (proj2 (Z.ltb_lt _ _)) by lia.
  cbn [andb]. by replace (Z.to_nat _) with (length (rev r)) by lia; rewrite take_app_length.
Qed.

Lemma nth_ptr_some k p : nth_ptr k = Some p -> 0 <= k < Zlen es /\ p = pos (take (Z.to_nat k) es).
Proof using es.
  unfold nth_ptr. destruct ((0 <=? k) && (k <? Zlen es)) eqn:E; [|done]. intros [= <-]. split; [lia|done].
Qed.

Lemma nth_ptr_out k : k < 0 \/ Zlen es <= k -> nth_ptr k = None.
Proof using es. intros Hk. unfold nth_ptr. destruct ((0 <=? k) && (k <? Zlen es)) eqn:E; [lia|done]. Qed.

Lemma length_bound : 2 * Zlen es + 7 <= Zlen lp /\ 2 * Zlen es < 2 ^ 32.
Proof.
  destruct Hlp as (Hok & Hsz & num & slack & _ & ->). pose proof (body_length es Hok).
  unfold pos in Hsz. unfold layout. rewrite !Zlen_app, !length_le_encode. cbn [length]. lia.
Qed.

Lemma seek_forward fuel : forall k index,
  0 <= k -> 0 <= index -> Zlen es - k <= Z.of_nat fuel ->
  lpSeek_forward fuel lp index (nth_ptr k) = Some (nth_ptr (k + index)).
Proof.
  induction fuel as [|fuel IH]; intros k index Hk Hi Hf.
  - rewrite !nth_ptr_out by lia. done.
  - destruct (nth_ptr k) as [p|] eqn:E; cbn [lpSeek_forward].
    + apply nth_ptr_some in E as [Hk' ->]. destruct (Z.ltb_spec 0 index) as [Hpos|].
      * rewrite next_nth by done. cbn [mbind option_bind]. rewrite IH by lia. do 2 f_equal. lia.
      * replace (k + index) with k by lia. unfold nth_ptr.
        by rewrite (proj2 (Z.leb_le _ _)), (proj2 (Z.ltb_lt _ _)) by lia.
    + rewrite nth_ptr_out; [done|]. unfold nth_ptr in E.
      destruct ((0 <=? k) && (k <? Zlen es)) eqn:E'; [done|lia].
Qed.

Lemma seek_backward fuel : forall k index,
  k < Zlen es -> index <= -1 -> k + 1 <= Z.of_nat fuel ->
  lpSeek_backward fuel lp index (nth_ptr k) = Some (nth_ptr (k + index + 1)).
Proof.
  induction fuel as [|fuel IH]; intros k index Hk Hi Hf.
  - rewrite !nth_ptr_out by lia. done.
  - destruct (nth_ptr k) as [p|] eqn:E; cbn [lpSeek_backward].
    + apply nth_ptr_some in E as [Hk' ->]. destruct (Z.ltb_spec index (-1)) as [Hneg|].
      * rewrite prev_nth by done. cbn [mbind option_bind]. rewrite IH by lia. do 2 f_equal. lia.
      * replace (k + index + 1) with k by lia. unfold nth_ptr.
        by rewrite (proj2 (Z.leb_le _ _)), (proj2 (Z.ltb_lt _ _)) by lia.
    + rewrite nth_ptr_out; [done|]. unfold nth_ptr in E.
      destruct ((0 <=? k) && (k <? Zlen es)) eqn:E'; [done|lia].
Qed.

Lemma num_spec : exists num, lpGetNumElements lp = Some num /\ count_ok num es.
Proof.
  destruct Hlp as (_ & _ & num & slack & Hnum & ->). exists num. split; [|done].
  apply get_num. destruct Hnum. lia.
Qed.

(** Negative indexes count from the end. *)
Definition abs_index (index : Z) : Z := if index <? 0 then Zlen es + index else index.

Lemma lpSeek_spec index : lpSeek lp index = Some (nth_ptr (abs_index index)).
Proof.
  pose proof length_bound as [Hlen _]. destruct num_spec as (num & Hnum & Hr & Hc).
  unfold lpSeek. rewrite Hnum. cbn [mbind option_bind]. rewrite first_nth, last_nth. cbn [mbind option_bind].
  unfold abs_index. destruct (Z.eqb_spec num 65535) as [->|Hne]; cbn [negb].
  - destruct (Z.ltb_spec index 0); cbn [negb].
    + rewrite seek_backward by lia. do 2 f_equal. lia.
    + rewrite seek_forward by lia. done.
  - destruct Hc as [->|]; [|done]. set (i := if index <? 0 then _ else _).
    destruct (Z.ltb_spec i 0); [by rewrite nth_ptr_out by lia|].
    destruct (Z.leb_spec (Zlen es) i); [by rewrite nth_ptr_out by lia|].
    destruct (Z.ltb_spec (Zlen es / 2) i).
    + rewrite seek_backward by lia. do 2 f_equal. lia.
    + rewrite seek_forward by lia. done.
Qed.

Lemma length_loop fuel : forall k count,
  0 <= k <= Zlen es -> Zlen es - k <= Z.of_nat fuel -> 0 <= count -> count + (Zlen es - k) < 2 ^ 32 ->
  lpLength_loop fuel lp (nth_ptr k) count = Some (count + (Zlen es - k)).
Proof.
  induction fuel as [|fuel IH]; intros k count Hk Hf H0 Hc.
  - rewrite nth_ptr_out by lia. cbn [lpLength_loop]. f_equal. lia.
  - destruct (Z.eqb_spec k (Zlen es)) as [->|Hne].
    { rewrite nth_ptr_out by lia. cbn [lpLength_loop]. f_equal. lia. }
    unfold nth_ptr at 1. rewrite (proj2 (Z.leb_le _ _)), (proj2 (Z.ltb_lt _ _)) by lia.
    cbn [andb lpLength_loop]. rewrite next_nth by lia. cbn [mbind option_bind].
    rewrite uwrap_small by lia. rewrite IH by lia. f_equal. lia.
Qed.

Lemma set_num_repr n :
  count_ok n es -> exists lp', lpSetNumElements lp n = Some lp' /\ repr lp' es /\ length lp' = length lp.
Proof.
  intros Hn. destruct Hlp as (Hok & Hsz & num & slack & _ & ->). eexists. split.
  { unfold layout. apply set_num; by rewrite length_le_encode. }
  split; [|by unfold layout; rewrite !length_app, !length_le_encode].
  split; [done|]. split; [done|]. by exists n, slack.
Qed.

Lemma lpLength_spec :
  exists lp', lpLength lp = Some (Zlen es, lp') /\ repr lp' es /\ length lp' = length lp.
Proof.
  destruct num_spec as (num & Hnum & Hr & Hc). unfold lpLength. rewrite Hnum. cbn [mbind option_bind].
  destruct (Z.eqb_spec num 65535) as [->|Hne]; cbn [negb].
  - rewrite first_nth. cbn [mbind option_bind]. pose proof length_bound as [Hlen Hlen'].
    rewrite length_loop by lia. cbn [mbind option_bind]. rewrite Z.sub_0_r, Z.add_0_l.
    destruct (Z.ltb_spec (Zlen es) 65535).
    + destruct (set_num_repr (Zlen es)) as (lp' & -> & Hlp'); [split; lia|]. by exists lp'.
    + by exists lp.
  - destruct Hc as [->|]; [|done]. by exists lp.
Qed.

(** *** Searching *)

(** The first of the elements compared, [skip] of them being left out between
    two comparisons and [cnt] before the first. *)
Fixpoint find_from (s : list Z) (skip cnt : nat) (l : list elem) : option nat :=
  match l with
  | [] => None
  | e :: l =>
      match cnt with
      | O => if bool_decide (elem_string e = s) then Some O
             else S <$> find_from s skip skip l
      | S cnt => S <$> find_from s skip cnt l
      end
  end.

(** What [vencoding] and [vll] cache. *)
Definition venc_ok (s : list Z) (vencoding vll : Z) : Prop :=
  vencoding = 0 \/ (vencoding = 1 /\ lpStringToInt64 s = Some vll) \/
  (vencoding = UCHAR_MAX /\ lpStringToInt64 s = None).

Lemma find_next es1 es2 (k : option (option Z)) :
  es = es1 ++ es2 ->
  (_ ← (if pos es + 1 <=? pos es1 + 8 then lpAssertValidEntry lp (pos es + 1) (pos es1)
        else assertb ((LP_HDR_SIZE <=? pos es1) && (pos es1 <? pos es + 1)));
   p0 ← rd1 lp (pos es1); if p0 =? LP_EOF then Some None else k) =
  match es2 with [] => Some None | _ => k end.
Proof.
  intros Heq. assert (pos es1 <= pos es) by (rewrite Heq, pos_app; lia).
  pose proof (pos_ge es1). unfold assertb.
  rewrite (proj2 (andb_true_iff _ _)) by lia. destruct es2 as [|e es2].
  - rewrite app_nil_r in Heq. rewrite <- Heq. unfold lpAssertValidEntry.
    rewrite validate_end. cbn [mbind option_bind assertb]. rewrite at_end. by destruct (_ <=? _).
  - rewrite (assert_entry _ _ _ Heq). destruct (entry_first _ _ _ Heq) as (b & -> & Hb).
    by destruct (_ <=? _); cbn [mbind option_bind]; rewrite Hb.
Qed.

Lemma string_int_eq s z :
  LLONG_MIN <= z <= LLONG_MAX -> lpStringToInt64 s = Some z <-> elem_string (EInt z) = s.
Proof using .
  intros Hz. rewrite lpStringToInt64_string2ll. cbn [elem_string]. split.
  - by intros [_ ->]%string2ll_sound.
  - intros <-. by apply string2ll_complete.
Qed.

Lemma venc_step s vencoding vll :
  venc_ok s vencoding vll ->
  let '(vencoding', vll') :=
    if vencoding =? 0 then
      if (32 <=? Zlen s) || (Zlen s =? 0) then (UCHAR_MAX, vll)
      else match lpStringToInt64 s with None => (UCHAR_MAX, vll) | Some vll => (1, vll) end
    else (vencoding, vll) in
  venc_ok s vencoding' vll' /\
  forall z, LLONG_MIN <= z <= LLONG_MAX ->
    negb (vencoding' =? UCHAR_MAX) && (z =? vll') = bool_decide (elem_string (EInt z) = s).
Proof using .
  intros Hv.
  assert (Hfin : forall ve vl, venc_ok s ve vl -> ve <> 0 -> venc_ok s ve vl /\
    forall z, LLONG_MIN <= z <= LLONG_MAX ->
    negb (ve =? UCHAR_MAX) && (z =? vl) = bool_decide (elem_string (EInt z) = s)).
  { intros ve vl H Hne. split; [done|]. intros z Hz. rewrite <- (bool_decide_ext _ _ (string_int_eq s z Hz)).
    destruct H as [->|[[-> Hs]|[-> Hs]]]; [done| |]; rewrite Hs; cbn [negb andb Z.eqb UCHAR_MAX Pos.eqb].
    - destruct (Z.eqb_spec z vl) as [->|]; case_bool_decide; congruence.
    - by rewrite bool_decide_false. }
  destruct (Z.eqb_spec vencoding 0) as [->|Hne]; [|by apply Hfin].
  destruct ((32 <=? Zlen s) || (Zlen s =? 0)) eqn:E.
  - apply Hfin; [|done]. right; right. split; [done|]. unfold lpStringToInt64, LONG_STR_SIZE.
    cbv zeta. destruct ((Zlen s =? 0) || (21 <=? Zlen s)) eqn:E'; [done|lia].
  - destruct (lpStringToInt64 s) as [v|] eqn:Es; apply Hfin; try done; unfold venc_ok; auto.
Qed.

(** One comparison. *)
Lemma find_compare es1 e es2 s ve vll esz (k : Z -> Z -> Z -> option (option Z)) r :
  es = es1 ++ e :: es2 -> venc_ok s ve vll ->
  (forall ve vll, venc_ok s ve vll -> k (Zlen (entry e)) ve vll = r) ->
  ('(value, entry_size) ← lpGetWithSize lp (pos es1) esz;
   match value with
   | LpStr off ll =>
       _ ← assertb ((LP_HDR_SIZE <=? pos es1) && (pos es1 + entry_size <? pos es + 1));
       same ← if Zlen s =? ll then bs ← rd lp off (Zlen s); Some (bool_decide (bs = s)) else Some false;
       if (same : bool) then Some (Some (pos es1)) else k entry_size ve vll
   | LpInt ll =>
       let '(ve, vll) :=
         if ve =? 0 then
           if (32 <=? Zlen s) || (Zlen s =? 0) then (UCHAR_MAX, vll)
           else match lpStringToInt64 s with None => (UCHAR_MAX, vll) | Some vll => (1, vll) end
         else (ve, vll) in
       if negb (ve =? UCHAR_MAX) && (ll =? vll) then Some (Some (pos es1)) else k entry_size ve vll
   end) =
  if bool_decide (elem_string e = s) then Some (Some (pos es1)) else r.
Proof.
  intros Heq Hv Hk. destruct (at_entry _ _ _ Heq) as (He & Hat & _ & Hle).
  destruct (elem_get lp _ e esz He Hat) as (v & -> & Hval). cbn [mbind option_bind].
  rewrite <- pos_snoc. destruct e as [z|t], v as [z'|off len]; try done; cbn [lpval_is] in Hval.
  - subst z'. pose proof (venc_step s ve vll Hv) as Hstep. destruct (if ve =? 0 then _ else _) as [ve' vll'].
    destruct Hstep as [Hv' Hz]. rewrite Hz by done. case_bool_decide; [done|]. by apply Hk.
  - destruct Hval as [-> Ht]. pose proof (pos_ge es1). unfold assertb.
    rewrite (proj2 (andb_true_iff _ _)) by lia. cbn [mbind option_bind elem_string] in *.
    destruct (Z.eqb_spec (Zlen s) (Zlen t)) as [Hl|Hl].
    + rewrite (at_rd _ _ _ _ Ht) by done. cbn [mbind option_bind]. case_bool_decide; [done|]. by apply Hk.
    + cbn [mbind option_bind]. rewrite bool_decide_false by (intros ->; lia). by apply Hk.
Qed.

Lemma find_loop s skip (Hskip : Z.of_nat skip < 2 ^ 31) fuel : forall es1 e es2 cnt ve vll esz,
  es = es1 ++ e :: es2 -> (length es2 < fuel)%nat -> venc_ok s ve vll ->
  lpFind_loop fuel lp (pos es + 1) s (Z.of_nat skip) (pos es1) (Z.of_nat cnt) ve vll esz =
  Some ((fun j => pos (take (length es1 + j) es)) <$> find_from s skip cnt (e :: es2)).
Proof.
  induction fuel as [|fuel IH]; intros es1 e es2 cnt ve vll esz Heq Hf Hv; [lia|].
  assert (Hnext : forall (cnt : nat) ve vll esz, venc_ok s ve vll ->
    match es2 with
    | [] => Some None
    | _ => lpFind_loop fuel lp (pos es + 1) s (Z.of_nat skip) (pos (es1 ++ [e])) (Z.of_nat cnt) ve vll esz
    end = Some ((fun j => pos (take (length es1 + j) es)) <$> (S <$> find_from s skip cnt es2))).
  { clear cnt ve vll esz Hv. intros cnt ve vll esz Hv. destruct es2 as [|e' es2]; [done|].
    rewrite (IH (es1 ++ [e]) e' es2); [|by rewrite <- app_assoc|cbn [length] in *; lia|done].
    rewrite <- option_fmap_compose. f_equal. apply option_fmap_ext.
    intros j. cbn. rewrite length_app. cbn [length]. do 2 f_equal. lia. }
  assert (Heq' : es = (es1 ++ [e]) ++ es2) by by rewrite <- app_assoc.
  destruct (at_entry _ _ _ Heq) as (He & Hat & _).
  cbn [lpFind_loop find_from]. cbv zeta. destruct cnt as [|cnt].
  - cbn [Z.of_nat Z.eqb]. 
    set (go := fun n ve vll =>
      _ ← (if pos es + 1 <=? pos es1 + n + 8 then lpAssertValidEntry lp (pos es + 1) (pos es1 + n)
           else assertb ((LP_HDR_SIZE <=? pos es1 + n) && (pos es1 + n <? pos es + 1)));
      p0 ← rd1 lp (pos es1 + n);
      if p0 =? LP_EOF then Some None
      else lpFind_loop fuel lp (pos es + 1) s (Z.of_nat skip) (pos es1 + n) (s32 (Z.of_nat skip)) ve vll n).
    etransitivity; [apply (find_compare es1 e es2 s ve vll esz go (Some ((fun j =>
      pos (take (length es1 + j) es)) <$> (S <$> find_from s skip skip es2))) Heq Hv)|].
    + intros ve' vll' Hv'. unfold go. rewrite <- pos_snoc, (find_next _ _ _ Heq'), swrap_small by lia.
      by apply Hnext.
    + case_bool_decide; [|done]. cbn. rewrite Nat.add_0_r, Heq, take_app_length. done.
  - rewrite (proj2 (Z.eqb_neq _ _)) by lia. rewrite (skip_spec _ _ _ Heq). cbn [mbind option_bind].
    rewrite (find_next _ _ _ Heq'). replace (Z.of_nat (S cnt) - 1) with (Z.of_nat cnt) by lia.
    by apply Hnext.
Qed.

Lemma lpFind_spec k s skip :
  0 <= k < Zlen es -> Z.of_nat skip < 2 ^ 31 ->
  lpFind lp (pos (take (Z.to_nat k) es)) s (Z.of_nat skip) =
  Some ((fun j => pos (take (Z.to_nat k + j) es)) <$> find_from s skip 0 (drop (Z.to_nat k) es)).
Proof.
  intros Hk Hs. pose proof length_bound as [Hl _]. unfold lpFind, lpBytes. rewrite total_eq.
  cbn [mbind option_bind]. destruct (nth_split k Hk) as (e & Heq & _).
  rewrite (find_loop s skip Hs _ (take (Z.to_nat k) es) e (drop (Z.to_nat (k + 1)) es) 0);
    [|done|rewrite length_drop; lia|by left].
  rewrite length_take, Nat.min_l by lia. do 2 f_equal.
  rewrite Heq at 2. rewrite drop_app_length'; [done|]. rewrite length_take. lia.
Qed.

End Nav.

End LpOps.
