(* ===== verification/ListpackEdit.v ===== *)
(** * Changing listpacks

    The operations of Listpack.v that change a listpack, as operations on the
    list of elements it stands for ([repr] of ListpackOps.v), and the
    theorems about listpacks. *)

From S2P Require Import Prelude.
From S2P Require Import NumConv.
From S2P Require Import ListpackEnc.
From S2P Require Import Listpack.
From S2P Require Import ListpackOps.
Import NumConv LpEnc Lp LpOps.

Module LpEdit.

Lemma encode_get_type s :
  Zlen s < 2 ^ 32 - 5 ->
  lpEncodeGetType s = match elem_of_string s with
                      | EInt v => inl (enc (EInt v))
                      | EStr s => inr (Zlen (enc (EStr s)))
                      end.
Proof.
  intros Hs. unfold lpEncodeGetType, elem_of_string. destruct (lpStringToInt64 s) as [v|]; [done|].
  cbv zeta. cbn [enc]. unfold lpEncodeString. cbv zeta.
  destruct (Zlen s <? 64); [cbn [length]; f_equal; lia|].
  destruct (Zlen s <? 4096); cbn [length]; f_equal; lia.
Qed.

Lemma elem_of_string_str s s' : elem_of_string s = EStr s' -> s' = s.
Proof. unfold elem_of_string. destruct (lpStringToInt64 s); congruence. Qed.

(** What [lpInsert] is asked to store. *)
Inductive ins_arg : option (list Z) -> option (list Z) -> list elem -> Prop :=
| arg_string s : Zlen s < 2 ^ 32 - 5 -> ins_arg (Some s) None [elem_of_string s]
| arg_int v : ins_arg None (Some (lpEncodeIntegerGetType v)) [EInt v]
| arg_delete : ins_arg None None [].

Section Edit.
Context `{Allocator}.

(** The reallocations and the move of [lpInsert]: the [o] bytes between [a]
    and [t] become [n] bytes. *)
Lemma resize_gap a o t z n old new dst src len :
  old = Zlen a + Zlen o + Zlen t -> new = Zlen a + n + Zlen t -> 0 <= n ->
  dst = Zlen a + n -> src = Zlen a + Zlen o -> len = Zlen t ->
  let lp := a ++ o ++ t ++ z in
  exists lp2, memmove (if (old <? new) && (Zlen lp <? new) then lp_realloc lp new else lp)
                dst src len = Some lp2 /\
  exists x z', Zlen x = n /\
    (if new <? old then lp_realloc lp2 new else lp2) = a ++ x ++ t ++ z'.
Proof.
  intros Ho Hnew Hn Hd Hs Hl lp. pose proof (usable_ge new) as Hu.
  assert (exists z1, (if (old <? new) && (Zlen lp <? new) then lp_realloc lp new else lp) =
    a ++ o ++ t ++ z1 /\ n <= Zlen o + Zlen z1) as (z1 & -> & Hz1).
  { assert (Hlp : Zlen lp = old + Zlen z) by (unfold lp; rewrite !Zlen_app; lia).
    destruct ((old <? new) && (Zlen lp <? new)) eqn:E; [|exists z; split; [done|lia]].
    unfold lp_realloc, lp. rewrite (app_assoc o), (app_assoc a).
    destruct (realloc_keep junk (a ++ o ++ t) z (usable new)) as (z1 & -> & Hz1);
      [rewrite !Zlen_app; lia|].
    exists z1. split; [by rewrite <- !app_assoc|]. rewrite !Zlen_app in Hz1. lia. }
  destruct (memmove_gap a o t z1 n dst src len) as (x & z2 & Hx & ->); [done..|lia|].
  eexists. split; [done|]. exists x. destruct (Z.ltb_spec new old); [|by exists z2].
  unfold lp_realloc. rewrite (app_assoc x), (app_assoc a).
  destruct (realloc_keep junk (a ++ x ++ t) z2 (usable new)) as (z3 & -> & _);
    [rewrite !Zlen_app; lia|].
  exists z3. by rewrite <- !app_assoc.
Qed.

(** The part of [lpInsert] after the size check, [data] being the encoded
    element. *)
Definition insert_store (lp : list Z) (delete : bool) (data backlen : list Z) (where' : where_)
    (poff old new replaced_len : Z) : option (option (list Z * option Z)) :=
  let enclen := Zlen data in
  let lp := if (old <? new) && (Zlen lp <? new) then lp_realloc lp new else lp in
  lp ← match where' with
       | LP_BEFORE => memmove lp (poff + enclen + Zlen backlen) poff (old - poff)
       | _ => memmove lp (poff + enclen + Zlen backlen) (poff + replaced_len)
                (old - poff - replaced_len)
       end;
  let lp := if new <? old then lp_realloc lp new else lp in
  newp ← (if delete then d0 ← rd1 lp poff; Some (if d0 =? LP_EOF then None else Some poff)
          else Some (Some poff));
  lp ← (if delete then Some lp else lp ← wr lp poff data; wr lp (poff + enclen) backlen);
  lp ← (if negb (bool_decide (where' = LP_REPLACE)) || delete then
          num_elements ← lpGetNumElements lp;
          if negb (num_elements =? LP_HDR_NUMELE_UNKNOWN) then
            lpSetNumElements lp (if negb delete then num_elements + 1 else num_elements - 1)
          else Some lp
        else Some lp);
  lp ← lpSetTotalBytes lp new;
  Some (Some (lp, newp)).

(** The kinds of change: the elements [R] at the position become [N]. *)
Inductive change : where_ -> list elem -> list elem -> Prop :=
| change_before e : change LP_BEFORE [] [e]
| change_replace r e : change LP_REPLACE [r] [e]
| change_delete w r : change w [r] [].

Definition is_delete (N : list elem) : bool := match N with [] => true | _ => false end.
Definition data (N : list elem) : list Z := match N with e :: _ => enc e | [] => [] end.
Definition back (N : list elem) : list Z :=
  match N with e :: _ => lpEncodeBacklen (Zlen (enc e)) | [] => [] end.

Lemma body_parts w R N : change w R N -> body N = data N ++ back N.
Proof. intros Hc. destruct Hc; cbn; by rewrite ?app_nil_r. Qed.

Lemma insert_unfold lp es1 R es2 elestr eleint w N :
  repr lp (es1 ++ R ++ es2) -> ins_arg elestr eleint N -> change w R N -> Forall elem_ok N ->
  pos es1 + Zlen (body N) + Zlen (body es2) + 1 < 2 ^ 63 ->
  let old := pos (es1 ++ R ++ es2) + 1 in
  let new := pos (es1 ++ N ++ es2) + 1 in
  lpInsert lp elestr eleint (pos es1) w =
  if 2 ^ 32 - 1 <? new then Some None
  else insert_store lp (is_delete N) (data N) (back N) (if is_delete N then LP_REPLACE else w)
         (pos es1) old new (Zlen (body R)).
Proof.
  intros Hlp Harg Hc HN Hbound old new.
  assert (Hrep : forall r, R = [r] ->
    (n ← lpCurrentEncodedSizeUnsafe lp (pos es1); let n := u32 (n + lpBacklenSize n) in
     _ ← ASSERT_INTEGRITY_LEN lp (pos es1) n; Some n) = Some (Zlen (body R))).
  { intros r ->. destruct (at_entry _ _ Hlp es1 r es2 eq_refl) as (Hr & Hat & _ & Hle).
    destruct (elem_size _ _ _ Hr Hat) as [-> _]. cbn [mbind option_bind]. cbv zeta.
    unfold ASSERT_INTEGRITY_LEN. rewrite (total_eq _ _ Hlp). cbn [mbind option_bind].
    rewrite <- entry_length. pose proof (pos_ge es1). rewrite pos_snoc in Hle.
    assert (Hsz : pos (es1 ++ [r] ++ es2) + 1 < 2 ^ 32) by apply Hlp.
    rewrite uwrap_small by lia. unfold assertb. rewrite (proj2 (andb_true_iff _ _)) by lia.
    cbn [mbind option_bind]. unfold body. cbn. by rewrite app_nil_r. }
  assert (Hnew : u64 (old + Zlen (data N) + Zlen (back N) - Zlen (body R)) = new).
  { unfold old, new. rewrite !pos_app, !body_app, !Zlen_app, (body_parts w R N), Zlen_app in * by done.
    pose proof (pos_ge es1). rewrite uwrap_small; lia. }
  unfold lpInsert. rewrite (total_eq _ _ Hlp). fold old.
  destruct Harg as [s Hs|v|]; inversion Hc; subst; cbn [is_delete data back] in *.
  all: rewrite ?encode_get_type by done; try destruct (elem_of_string s) as [v|s'] eqn:Es;
    cbn [is_delete data back mbind option_bind] in *; cbn [enc] in *.
  all: rewrite ?(Hrep _ eq_refl); cbn [mbind option_bind].
  all: try match goal with
    | Hs' : elem_of_string ?s0 = EStr ?s1 |- _ => apply elem_of_string_str in Hs'; subst s1
    end.
  all: clearbody new; subst new; reflexivity.
Qed.

(** The first byte of what follows a position. *)
Lemma tail_first es :
  Forall elem_ok es -> exists b r, body es ++ [LP_EOF] = b :: r /\ (b =? LP_EOF) = is_delete es.
Proof.
  intros [|e es' He _]; [by exists LP_EOF, []|]. destruct (enc_shape e He) as (_ & _ & b & bs & Henc & Hb).
  rewrite body_cons. unfold entry. rewrite Henc. eexists _, _. split; [done|]. by apply Z.eqb_neq.
Qed.

(** The element and its backlen written into the gap [x]. *)
Lemma write_two a x r b1 b2 p :
  p = Zlen a -> Zlen x = Zlen b1 + Zlen b2 ->
  (lp ← wr (a ++ x ++ r) p b1; wr lp (p + Zlen b1) b2) = Some (a ++ (b1 ++ b2) ++ r).
Proof.
  intros -> Hx. rewrite <- (take_drop (length b1) x), <- (app_assoc (take _ _)).
  rewrite wr_app by (rewrite ?length_take; lia). cbn [mbind option_bind].
  rewrite (app_assoc a b1). rewrite wr_app by (rewrite ?Zlen_app, ?length_drop; lia).
  by rewrite <- !app_assoc.
Qed.

Definition new_count (delete : bool) (num : Z) : Z :=
  if negb (num =? LP_HDR_NUMELE_UNKNOWN) then (if negb delete then num + 1 else num - 1) else num.

Lemma update_count t num rest c delete :
  0 <= num <= LP_HDR_NUMELE_UNKNOWN ->
  let lp := le_encode 4 t ++ le_encode 2 num ++ rest in
  (if (c : bool) then
     num_elements ← lpGetNumElements lp;
     if negb (num_elements =? LP_HDR_NUMELE_UNKNOWN) then
       lpSetNumElements lp (if negb delete then num_elements + 1 else num_elements - 1)
     else Some lp
   else Some lp) =
  Some (le_encode 4 t ++ le_encode 2 (if c then new_count delete num else num) ++ rest).
Proof.
  intros Hnum lp. destruct c; [|done]. unfold lp. rewrite get_num by lia. cbn [mbind option_bind].
  unfold new_count. destruct (num =? 65535); [done|]. cbn [negb].
  apply set_num; apply length_le_encode.
Qed.

Lemma change_count w R N es1 es2 num :
  change w R N -> count_ok num (es1 ++ R ++ es2) ->
  count_ok (if negb (bool_decide ((if is_delete N then LP_REPLACE else w) = LP_REPLACE)) || is_delete N
            then new_count (is_delete N) num else num) (es1 ++ N ++ es2).
Proof.
  unfold count_ok, new_count. rewrite !Zlen_app.
  intros [e|r e|w' r] [Hr Hc]; cbn [is_delete length] in *.
  1: rewrite bool_decide_false by done. 2-3: rewrite bool_decide_true by done.
  all: cbn [negb orb length]; destruct (Z.eqb_spec num 65535); cbn [negb]; lia.
Qed.

Lemma move_match w R N lp dst p old r :
  change w R N -> memmove lp dst (p + Zlen (body R)) (old - p - Zlen (body R)) = r ->
  match (if is_delete N then LP_REPLACE else w) with
  | LP_BEFORE => memmove lp dst p (old - p)
  | _ => memmove lp dst (p + Zlen (body R)) (old - p - Zlen (body R))
  end = r.
Proof.
  intros Hc <-. destruct Hc; cbn [is_delete]; try done. cbn. by rewrite Z.add_0_r, Z.sub_0_r.
Qed.

(** The element is stored in the gap, and [*newp] is found. *)
Lemma store_entry w R N a x es1 es2 z (k : list Z -> option Z -> option (option (list Z * option Z))) :
  change w R N -> Forall elem_ok es2 -> Zlen a = pos es1 -> Zlen x = Zlen (body N) ->
  let lp := a ++ x ++ (body es2 ++ [LP_EOF]) ++ z in
  (newp ← (if is_delete N then d0 ← rd1 lp (pos es1); Some (if d0 =? LP_EOF then None else Some (pos es1))
           else Some (Some (pos es1)));
   lp ← (if is_delete N then Some lp
         else lp ← wr lp (pos es1) (data N); wr lp (pos es1 + Zlen (data N)) (back N));
   k lp newp) =
  k (a ++ body N ++ (body es2 ++ [LP_EOF]) ++ z)
    (if is_delete N then ptr es1 es2 else Some (pos es1)).
Proof.
  intros Hc Hok Ha Hx lp. rewrite (body_parts w R N Hc) in *. destruct Hc as [e|r e|w r]; cbn [is_delete].
  1-2: cbn [mbind option_bind]; unfold lp; rewrite write_two by (rewrite ?Zlen_app in *; lia); done.
  assert (x = []) as -> by (destruct x; [done|cbn in Hx; lia]).
  destruct (tail_first es2 Hok) as (b & t & Ht & Hb). cbn [data back app] in *. unfold lp. rewrite Ht.
  cbn [app]; rewrite (rd1_app a) by done. cbn [mbind option_bind]. rewrite Hb. by destruct es2.
Qed.

Lemma insert_store_spec lp es1 R es2 w N :
  repr lp (es1 ++ R ++ es2) -> change w R N -> Forall elem_ok N ->
  pos (es1 ++ N ++ es2) + 1 < 2 ^ 32 ->
  exists lp', insert_store lp (is_delete N) (data N) (back N) (if is_delete N then LP_REPLACE else w)
      (pos es1) (pos (es1 ++ R ++ es2) + 1) (pos (es1 ++ N ++ es2) + 1) (Zlen (body R)) =
    Some (Some (lp', if is_delete N then ptr es1 es2 else Some (pos es1))) /\
    repr lp' (es1 ++ N ++ es2).
Proof.
  intros (Hok & Hsz & num & slack & Hnum & ->) Hc HN Hnew.
  pose proof (body_parts w R N Hc) as Hparts. rewrite !Forall_app in Hok. destruct Hok as (Hok1 & HokR & Hok2).
  set (a := le_encode 4 (pos (es1 ++ R ++ es2) + 1) ++ le_encode 2 num ++ body es1).
  assert (Ha : Zlen a = pos es1) by (unfold a, pos; rewrite !Zlen_app, !length_le_encode; lia).
  assert (layout num (es1 ++ R ++ es2) slack = a ++ body R ++ (body es2 ++ [LP_EOF]) ++ slack) as ->.
  { unfold layout, a. by rewrite !body_app, <- !app_assoc. }
  destruct (resize_gap a (body R) (body es2 ++ [LP_EOF]) slack (Zlen (body N))
    (pos (es1 ++ R ++ es2) + 1) (pos (es1 ++ N ++ es2) + 1)
    (pos es1 + Zlen (data N) + Zlen (back N)) (pos es1 + Zlen (body R))
    (pos (es1 ++ R ++ es2) + 1 - pos es1 - Zlen (body R))) as (lp2 & Hmove & x & z' & Hx & Hlp3).
  1-6: rewrite ?pos_app, ?body_app, ?Hparts, ?Zlen_app, ?Ha; cbn [length]; lia.
  unfold insert_store. cbv zeta. rewrite (move_match w R N _ _ _ _ _ Hc Hmove). cbn [mbind option_bind].
  rewrite Hlp3. rewrite (store_entry w R N) by done. unfold a. rewrite <- !app_assoc.
  rewrite update_count by apply Hnum. cbn [mbind option_bind].
  rewrite set_total by apply length_le_encode. cbn [mbind option_bind].
  eexists. split; [done|]. split; [by rewrite !Forall_app|]. split; [done|].
  eexists _, z'. split; [apply (change_count w R N es1 es2 num Hc Hnum)|].
  unfold layout. by rewrite !body_app, <- !app_assoc.
Qed.

(** *** Inserting, replacing and deleting one element *)

Lemma entry_bound e : elem_ok e -> Zlen (entry e) < 2 ^ 32 + 5.
Proof.
  intros He. rewrite entry_length. destruct (enc_shape e He) as (_ & ? & _).
  pose proof (backlen_size (Zlen (enc e))). lia.
Qed.

Lemma lpInsert_change lp es1 R es2 elestr eleint w N :
  repr lp (es1 ++ R ++ es2) -> ins_arg elestr eleint N -> change w R N -> Forall elem_ok N ->
  (2 ^ 32 <= pos (es1 ++ N ++ es2) + 1 /\ lpInsert lp elestr eleint (pos es1) w = Some None) \/
  (exists lp', lpInsert lp elestr eleint (pos es1) w =
     Some (Some (lp', if is_delete N then ptr es1 es2 else Some (pos es1))) /\
   repr lp' (es1 ++ N ++ es2)).
Proof.
  intros Hlp Harg Hc HN. destruct (Hlp) as (_ & Hsz & _).
  assert (pos es1 + Zlen (body N) + Zlen (body es2) + 1 < 2 ^ 63).
  { rewrite !pos_app, body_app, Zlen_app in Hsz.
    assert (Zlen (body N) < 2 ^ 33); [|lia].
    destruct Hc as [e|r e|w' r]; [| |done]; apply Forall_cons_1 in HN as [He _];
      rewrite body_cons, app_nil_r; pose proof (entry_bound e He); lia. }
  rewrite (insert_unfold lp es1 R es2 elestr eleint w N) by done.
  destruct (Z.ltb_spec (2 ^ 32 - 1) (pos (es1 ++ N ++ es2) + 1)); [left; split; [lia|done]|].
  right. apply insert_store_spec; [done..|lia].
Qed.

(** Inserting after an entry is inserting before the next position. *)
Lemma lpInsert_after lp es1 e es2 elestr eleint :
  repr lp (es1 ++ e :: es2) -> (elestr <> None \/ eleint <> None) ->
  lpInsert lp elestr eleint (pos es1) LP_AFTER = lpInsert lp elestr eleint (pos (es1 ++ [e])) LP_BEFORE.
Proof.
  intros Hlp Harg. unfold lpInsert.
  assert ((match elestr, eleint with None, None => true | _, _ => false end) = false) as ->
    by (destruct elestr, eleint, Harg; done).
  rewrite (skip_spec _ _ Hlp es1 e es2 eq_refl). cbn [mbind option_bind]. unfold ASSERT_INTEGRITY.
  rewrite (total_eq _ _ Hlp). cbn [mbind option_bind].
  destruct (at_entry _ _ Hlp es1 e es2 eq_refl) as (_ & _ & _ & Hle). pose proof (pos_ge (es1 ++ [e])).
  unfold assertb. rewrite (proj2 (andb_true_iff _ _)) by lia. done.
Qed.

(** [insert_at w k e es]: [e] before, after or in place of the element of
    index [k]. *)
Definition insert_at (w : where_) (k : Z) (e : elem) (es : list elem) : list elem :=
  match w with
  | LP_BEFORE => take (Z.to_nat k) es ++ e :: drop (Z.to_nat k) es
  | LP_AFTER => take (Z.to_nat (k + 1)) es ++ e :: drop (Z.to_nat (k + 1)) es
  | LP_REPLACE => take (Z.to_nat k) es ++ e :: drop (Z.to_nat (k + 1)) es
  end.

Definition insert_index (w : where_) (k : Z) : Z :=
  match w with LP_AFTER => k + 1 | _ => k end.

Lemma lpInsert_at lp es elestr eleint e w k :
  repr lp es -> ins_arg elestr eleint [e] -> elem_ok e ->
  (0 <= k < Zlen es \/ w = LP_BEFORE /\ k = Zlen es) ->
  let es' := insert_at w k e es in
  let r := lpInsert lp elestr eleint (pos (take (Z.to_nat k) es)) w in
  (2 ^ 32 <= pos es' + 1 /\ r = Some None) \/
  (exists lp', r = Some (Some (lp', nth_ptr es' (insert_index w k))) /\ repr lp' es').
Proof.
  intros Hlp Harg He Hk es' r.
  assert (Hptr : forall j, 0 <= j <= Zlen es -> forall rest,
    Some (pos (take (Z.to_nat j) es)) = nth_ptr (take (Z.to_nat j) es ++ e :: rest) j).
  { intros j Hj rest. assert (Hl : length (take (Z.to_nat j) es) = Z.to_nat j) by (rewrite length_take; lia).
    unfold nth_ptr. rewrite Zlen_app, Hl. cbn [length].
    rewrite (proj2 (andb_true_iff _ _)) by lia. by rewrite take_app_length'. }
  assert (Hbefore : forall j, 0 <= j <= Zlen es ->
    let es' := take (Z.to_nat j) es ++ e :: drop (Z.to_nat j) es in
    let r := lpInsert lp elestr eleint (pos (take (Z.to_nat j) es)) LP_BEFORE in
    (2 ^ 32 <= pos es' + 1 /\ r = Some None) \/
    (exists lp', r = Some (Some (lp', nth_ptr es' j)) /\ repr lp' es')).
  { intros j Hj es'' r'. unfold es''. rewrite <- Hptr by done.
    apply (lpInsert_change lp (take (Z.to_nat j) es) [] (drop (Z.to_nat j) es) elestr eleint LP_BEFORE [e]);
      [by rewrite app_nil_l, take_drop|done|constructor|by constructor]. }
  subst es' r. destruct w; cbn [insert_at insert_index].
  - apply Hbefore. lia.
  - destruct Hk as [Hk|[? _]]; [|done]. destruct (nth_split es k Hk) as (e' & Heq & Ht).
    rewrite Heq in Hlp at 1. rewrite (lpInsert_after _ _ _ _ _ _ Hlp) by (inversion Harg; auto).
    rewrite <- Ht. apply Hbefore. lia.
  - destruct Hk as [Hk|[? _]]; [|done]. destruct (nth_split es k Hk) as (e' & Heq & Ht).
    rewrite <- (Hptr k) by lia.
    apply (lpInsert_change lp (take (Z.to_nat k) es) [e'] (drop (Z.to_nat (k + 1)) es) elestr eleint
      LP_REPLACE [e]); [by rewrite Heq in Hlp at 1|done|constructor|by constructor].
Qed.

Lemma lpDelete_at lp es k :
  repr lp es -> 0 <= k < Zlen es ->
  let es' := take (Z.to_nat k) es ++ drop (Z.to_nat (k + 1)) es in
  exists lp', lpDelete lp (pos (take (Z.to_nat k) es)) = Some (Some (lp', nth_ptr es' k)) /\ repr lp' es'.
Proof.
  intros Hlp Hk es'. destruct (nth_split es k Hk) as (e' & Heq & Ht). rewrite Heq in Hlp at 1.
  destruct (lpInsert_change lp (take (Z.to_nat k) es) [e'] (drop (Z.to_nat (k + 1)) es) None None
    LP_REPLACE [] Hlp) as [[Hbig _]|(lp' & Hr & Hlp')]; [constructor..| |].
  { destruct Hlp as (_ & Hsz & _). rewrite !pos_app in *. cbn [app] in *.
    rewrite body_cons, Zlen_app in Hsz. lia. }
  exists lp'. split; [|done]. unfold lpDelete. rewrite Hr. cbn [is_delete]. do 3 f_equal.
  unfold nth_ptr, es'.
  assert (Hl : length (take (Z.to_nat k) es) = Z.to_nat k) by (rewrite length_take; lia).
  rewrite Zlen_app, Hl, take_app_length' by done. unfold ptr.
  destruct (drop (Z.to_nat (k + 1)) es); cbn [length];
    [rewrite (proj2 (andb_false_iff _ _)) by lia|rewrite (proj2 (andb_true_iff _ _)) by lia]; done.
Qed.

(** *** Deleting ranges *)

Lemma shrink_layout num es slack :
  pos es + 1 < 2 ^ 32 -> exists slack', lpShrinkToFit (layout num es slack) = Some (layout num es slack').
Proof.
  intros Hsz. pose proof (pos_ge es). unfold lpShrinkToFit. rewrite layout_total by done.
  cbn [mbind option_bind]. destruct (_ <? _); [|by exists slack].
  assert (Hlay : forall z, layout num es z =
    (le_encode 4 (pos es + 1) ++ le_encode 2 num ++ body es ++ [LP_EOF]) ++ z)
    by (intros; unfold layout; by rewrite <- !app_assoc).
  setoid_rewrite Hlay. unfold lp_realloc. edestruct realloc_keep as (z & -> & _); [|by exists z].
  rewrite !Zlen_app, !length_le_encode. cbn [length]. pose proof (usable_ge (pos es + 1)).
  unfold pos in *. lia.
Qed.

Lemma shrink_repr num es z :
  Forall elem_ok es -> pos es + 1 < 2 ^ 32 -> count_ok num es ->
  exists lp', lpShrinkToFit (layout num es z) = Some lp' /\ repr lp' es.
Proof.
  intros Hok Hsz Hnum. destruct (shrink_layout num es z Hsz) as (z' & ->). eexists. split; [done|].
  split; [done|]. split; [done|]. by exists num, z'.
Qed.

Lemma range_loop lp es (Hlp : repr lp es) fuel : forall es1 e es2 (num : nat) deleted,
  es = es1 ++ e :: es2 -> (length es2 < fuel)%nat ->
  lpDeleteRange_loop fuel lp (pos es + 1) (pos es1) (Z.of_nat num) deleted =
  Some (pos (es1 ++ take num (e :: es2)), deleted + Zlen (take num (e :: es2))).
Proof.
  induction fuel as [|fuel IH]; intros es1 e es2 num deleted Heq Hf; [lia|].
  cbn [lpDeleteRange_loop]. destruct num as [|num].
  { cbn [Z.of_nat Z.eqb take length]. by rewrite app_nil_r, Z.add_0_r. }
  rewrite (proj2 (Z.eqb_neq _ _)) by lia. rewrite (skip_spec _ _ Hlp _ _ _ Heq). cbn [mbind option_bind].
  assert (Heq' : es = (es1 ++ [e]) ++ es2) by by rewrite <- app_assoc.
  destruct es2 as [|e' es2]; cbn [take].
  - rewrite app_nil_r in Heq'. rewrite <- Heq', (at_end _ _ Hlp). cbn. by rewrite take_nil, <- Heq'.
  - destruct (entry_first _ _ Hlp _ _ _ Heq') as (b & -> & Hb). cbn [mbind option_bind]. rewrite Hb.
    rewrite (assert_entry _ _ Hlp _ _ _ Heq'). cbn [mbind option_bind].
    replace (Z.of_nat (S num) - 1) with (Z.of_nat num) by lia.
    rewrite (IH (es1 ++ [e]) e' es2 num) by (done || cbn [length] in *; lia).
    rewrite <- app_assoc. cbn [app length]. do 2 f_equal. lia.
Qed.

(** Deleting the entries [D] by moving what follows, and updating the header. *)
Lemma delete_block lp es1 D es2 :
  repr lp (es1 ++ D ++ es2) -> D <> [] ->
  exists num x z', 0 <= num <= LP_HDR_NUMELE_UNKNOWN /\ Zlen x = 0 /\
    memmove lp (pos es1) (pos (es1 ++ D)) (pos (es1 ++ D ++ es2) - pos (es1 ++ D) + 1) =
    Some (le_encode 4 (pos (es1 ++ D ++ es2) + 1) ++ le_encode 2 num ++ body es1 ++ x ++
          (body es2 ++ [LP_EOF]) ++ z') /\ count_ok num (es1 ++ D ++ es2).
Proof.
  intros (Hok & Hsz & num & slack & Hnum & ->) HD.
  set (a := le_encode 4 (pos (es1 ++ D ++ es2) + 1) ++ le_encode 2 num ++ body es1).
  assert (Ha : Zlen a = pos es1) by (unfold a, pos; rewrite !Zlen_app, !length_le_encode; lia).
  assert (layout num (es1 ++ D ++ es2) slack = a ++ body D ++ (body es2 ++ [LP_EOF]) ++ slack) as ->.
  { unfold layout, a. by rewrite !body_app, <- !app_assoc. }
  destruct (memmove_gap a (body D) (body es2 ++ [LP_EOF]) slack 0 (pos es1) (pos (es1 ++ D))
    (pos (es1 ++ D ++ es2) - pos (es1 ++ D) + 1)) as (x & z' & Hx & ->).
  1-5: rewrite ?pos_app, ?body_app, ?Zlen_app, ?Ha; cbn [length]; lia.
  exists num, x, z'. split; [apply Hnum|]. split; [done|]. split; [|done]. unfold a. by rewrite <- !app_assoc.
Qed.

(** The count after deleting [d] elements. *)
Lemma delete_count {A} t num rest d (k : list Z -> option A) :
  0 <= num <= LP_HDR_NUMELE_UNKNOWN -> (num <> LP_HDR_NUMELE_UNKNOWN -> 0 <= d <= num) ->
  let lp := le_encode 4 t ++ le_encode 2 num ++ rest in
  (numele ← lpGetNumElements lp;
   lp ← (if negb (numele =? LP_HDR_NUMELE_UNKNOWN) then lpSetNumElements lp (u64 (numele - d))
         else Some lp);
   k lp) =
  k (le_encode 4 t ++ le_encode 2 (if num =? LP_HDR_NUMELE_UNKNOWN then num else num - d) ++ rest).
Proof.
  intros Hnum Hd lp. unfold lp. rewrite get_num by lia. cbn [mbind option_bind].
  destruct (Z.eqb_spec num 65535) as [->|Hne]; [done|]. cbn [negb].
  rewrite uwrap_small, set_num by (try apply length_le_encode; lia). done.
Qed.

Lemma delete_count_ok num es1 D es2 :
  count_ok num (es1 ++ D ++ es2) ->
  count_ok (if num =? LP_HDR_NUMELE_UNKNOWN then num else num - Zlen D) (es1 ++ es2) /\
  (num <> LP_HDR_NUMELE_UNKNOWN -> 0 <= Zlen D <= num).
Proof.
  unfold count_ok. rewrite !Zlen_app. intros [Hr Hc]. destruct (Z.eqb_spec num 65535); lia.
Qed.

Lemma read_ptr lp es1 es2 :
  repr lp (es1 ++ es2) ->
  exists b, rd1 lp (pos es1) = Some b /\ (if b =? LP_EOF then None else Some (pos es1)) = ptr es1 es2.
Proof.
  intros Hlp. destruct es2 as [|e es2].
  - rewrite app_nil_r in Hlp. exists LP_EOF. by rewrite (at_end _ _ Hlp).
  - destruct (entry_first _ _ Hlp es1 e es2 eq_refl) as (b & Hb & Hne). exists b. by rewrite Hne.
Qed.

Lemma delete_range_with_entry lp es1 e es2 num :
  repr lp (es1 ++ e :: es2) -> 0 < num ->
  let es' := drop (Z.to_nat num) (e :: es2) in
  exists lp', lpDeleteRangeWithEntry lp (pos es1) num = Some (lp', ptr es1 es') /\ repr lp' (es1 ++ es').
Proof.
  intros Hlp Hnum es'. unfold lpDeleteRangeWithEntry, lpBytes. rewrite (total_eq _ _ Hlp).
  cbn [mbind option_bind]. cbv zeta. rewrite (proj2 (Z.eqb_neq _ _)) by lia.
  pose proof (length_bound _ _ Hlp) as [Hlen _]. rewrite Zlen_app in Hlen. cbn [length] in Hlen.
  pose proof (range_loop _ _ Hlp (length lp) es1 e es2 (Z.to_nat num) 0 eq_refl ltac:(lia)) as Hloop.
  rewrite Z2Nat.id in Hloop by lia. rewrite Hloop. clear Hloop. cbn [mbind option_bind].
  set (D := take (Z.to_nat num) (e :: es2)) in *.
  assert (HD : e :: es2 = D ++ es') by (unfold D, es'; by rewrite take_drop).
  assert (D <> []) by (unfold D; by replace (Z.to_nat num) with (S (Z.to_nat (num - 1))) by lia).
  rewrite HD in Hlp |- *. destruct (Hlp) as (Hok & Hsz & _).
  rewrite !Z.add_simpl_r.
  destruct (delete_block lp es1 D es' Hlp) as (n & x & z' & Hn & Hx & -> & Hcnt); [done|].
  cbn [mbind option_bind]. rewrite set_total by apply length_le_encode. cbn [mbind option_bind].
  destruct (delete_count_ok _ _ _ _ Hcnt) as [Hcnt' Hd]. rewrite Z.add_0_l.
  rewrite delete_count by done.
  assert (x = []) as -> by (destruct x; [done|cbn in Hx; lia]). cbn [app].
  replace (pos (es1 ++ D ++ es') + 1 - (pos (es1 ++ D) - pos es1)) with (pos (es1 ++ es') + 1)
    by (rewrite !pos_app, !body_app, !Zlen_app; lia).
  assert (Hsz' : pos (es1 ++ es') + 1 < 2 ^ 32)
    by (rewrite !pos_app, ?body_app, ?Zlen_app in *; lia).
  set (n' := if n =? 65535 then n else n - Zlen D) in *.
  assert (le_encode 4 (pos (es1 ++ es') + 1) ++ le_encode 2 n' ++ body es1 ++ (body es' ++ [LP_EOF]) ++ z' =
    layout n' (es1 ++ es') z') as -> by (unfold layout; by rewrite body_app, <- !app_assoc).
  destruct (shrink_repr n' (es1 ++ es') z') as (lp' & -> & Hlp'); [|done..|].
  { rewrite !Forall_app in *. tauto. }
  cbn [mbind option_bind].
  destruct (read_ptr _ _ _ Hlp') as (b & -> & Hb). cbn [mbind option_bind]. rewrite Hb. by eexists.
Qed.

(** Cutting a listpack after the entries [es1]. *)
Lemma truncate lp es1 e es2 :
  repr lp (es1 ++ e :: es2) -> Zlen es1 < LP_HDR_NUMELE_UNKNOWN ->
  exists lp',
  (lp ← wr1 lp (pos es1) LP_EOF; lp ← lpSetTotalBytes lp (pos es1 + 1);
   lp ← lpSetNumElements lp (Zlen es1); lpShrinkToFit lp) = Some lp' /\ repr lp' es1.
Proof.
  intros Hlp Hl. destruct (Hlp) as (Hok & Hsz & num & slack & _ & ->). apply Forall_app in Hok as [Hok1 Hok].
  assert (Hsz1 : pos es1 + 1 < 2 ^ 32) by (rewrite pos_app in Hsz; lia).
  destruct (tail_first (e :: es2) Hok) as (b & r & Ht & _). unfold layout.
  rewrite body_app, <- (app_assoc (body es1)), (app_assoc (body (e :: es2))), Ht.
  rewrite (app_assoc (le_encode 2 num)), (app_assoc (le_encode 4 _)). cbn [app].
  rewrite wr1_app by (unfold pos; rewrite !Zlen_app, !length_le_encode; lia). cbn [mbind option_bind].
  rewrite <- !app_assoc, set_total by apply length_le_encode. cbn [mbind option_bind].
  rewrite set_num by apply length_le_encode. cbn [mbind option_bind].
  apply (shrink_repr (Zlen es1) es1 (r ++ slack)); [done..|]. split; lia.
Qed.

Definition delete_range (i num : Z) (es : list elem) : list elem :=
  if (num =? 0) || (i <? 0) || (Zlen es <=? i) then es
  else take (Z.to_nat i) es ++ drop (Z.to_nat (i + num)) es.

Lemma lpDeleteRange_spec lp es index num :
  repr lp es -> 0 <= num -> index < 2 ^ 63 ->
  exists lp', lpDeleteRange lp index num = Some lp' /\
              repr lp' (delete_range (abs_index es index) num es).
Proof.
  intros Hlp Hnum Hidx. unfold lpDeleteRange, delete_range. set (i := abs_index es index).
  destruct (num_spec _ _ Hlp) as (n & Hn & Hr & Hc). rewrite Hn. cbn [mbind option_bind].
  destruct (Z.eqb_spec num 0); [by exists lp|]. rewrite (lpSeek_spec _ _ Hlp). fold i. cbn [mbind option_bind].
  destruct (nth_ptr es i) as [p|] eqn:Ep.
  2:{ exists lp. split; [done|]. unfold nth_ptr in Ep.
      destruct ((0 <=? i) && (i <? Zlen es)) eqn:E; [done|].
      rewrite (proj2 (orb_true_iff _ _)) by lia. done. }
  apply nth_ptr_some in Ep as [Hi ->]. cbn [orb]. rewrite (proj2 (orb_false_iff _ _)) by lia.
  destruct (nth_split es i Hi) as (e & Heq & Ht). pose proof Hlp as Hlp2. rewrite Heq in Hlp2.
  set (index' := if negb (n =? 65535) && (index <? 0) then n + index else index).
  destruct (negb (n =? 65535) && (u64 (n - u64 index') <=? num)) eqn:Ecut.
  - assert (Hidx' : n = Zlen es /\ index' = i).
    { split; [lia|]. unfold index', i, abs_index. destruct (Z.eqb_spec n 65535); [done|]. cbn [negb andb].
      destruct (index <? 0); lia. }
    destruct Hidx' as [-> ->]. rewrite (uwrap_small 64 i), uwrap_small in Ecut by lia.
    rewrite drop_ge, app_nil_r by lia.
    assert (Hl : Zlen (take (Z.to_nat i) es) = i) by (rewrite length_take; lia).
    destruct (truncate lp _ _ _ Hlp2) as (lp' & Hcut & Hlp'); [lia|]. rewrite Hl in Hcut.
    exists lp'. split; [exact Hcut|done].
  - destruct (delete_range_with_entry lp _ _ _ num Hlp2) as (lp' & -> & Hlp'); [lia|].
    cbn [mbind option_bind]. exists lp'. split; [done|].
    replace (drop (Z.to_nat (i + num)) es) with
      (drop (Z.to_nat num) (e :: drop (Z.to_nat (i + 1)) es)); [done|].
    replace (Z.to_nat num) with (S (Z.to_nat (num - 1))) by lia. cbn [drop]. rewrite drop_drop.
    f_equal. lia.
Qed.

(** *** Deleting several elements *)

Lemma memmove_down a o t z dst src len :
  dst = Zlen a -> src = Zlen a + Zlen o -> len = Zlen t ->
  exists h, Zlen h = Zlen o /\ memmove (a ++ o ++ t ++ z) dst src len = Some (a ++ t ++ h ++ z).
Proof.
  intros -> -> ->. unfold memmove. rewrite (app_assoc a o), rd_app by (rewrite ?Zlen_app; lia).
  cbn [mbind option_bind]. set (h := drop (length t) (o ++ t)). exists h.
  split; [unfold h; rewrite length_drop, length_app; lia|].
  assert (Hot : o ++ t = take (length t) (o ++ t) ++ h) by (symmetry; apply take_drop).
  rewrite <- (app_assoc a), (app_assoc o t), Hot, <- (app_assoc (take _ _)).
  apply wr_app; [done|]. rewrite length_take, length_app. lia.
Qed.

(** A list cut at the elements to delete: each of them and those kept after it. *)
Definition segments := list (elem * list elem).

Definition flat (segs : segments) : list elem := concat (map (fun s => s.1 :: s.2) segs).
Definition kept (segs : segments) : list elem := concat (map snd segs).

Fixpoint seg_pos (es1 : list elem) (segs : segments) : list Z :=
  match segs with
  | [] => []
  | (d, k) :: segs => pos es1 :: seg_pos (es1 ++ d :: k) segs
  end.

Lemma skip_entry lp p e :
  elem_ok e -> at_ lp p (entry e) ->
  exists b, rd1 lp p = Some b /\ (b =? LP_EOF) = false /\ lpSkip lp p = Some (p + Zlen (entry e)).
Proof.
  intros He Hat. apply at_app in Hat as [Hat _]. destruct (enc_shape e He) as (_ & _ & b & bs & Henc & Hb).
  exists b. unfold lpSkip. destruct (elem_size _ _ _ He Hat) as [-> _]. rewrite entry_length.
  rewrite Henc in Hat. apply at_cons in Hat as [? _]. split; [done|]. split; [by apply Z.eqb_neq|done].
Qed.

Lemma batch_loop segs : forall lp es1 a g z dst lp_end,
  segs <> [] -> Forall elem_ok (flat segs) ->
  lp = a ++ g ++ (body (flat segs) ++ [LP_EOF]) ++ z ->
  dst = Zlen a -> Zlen a + Zlen g = pos es1 -> lp_end = pos (es1 ++ flat segs) + 1 ->
  exists z', lpBatchDelete_loop lp lp_end (seg_pos es1 segs) dst =
    Some (a ++ body (kept segs) ++ [LP_EOF] ++ z', Zlen a + Zlen (body (kept segs)) + 1).
Proof.
  induction segs as [|[d k] segs IH]; [done|]. intros lp es1 a g z dst lp_end _ Hok Hlp -> Hg Hend.
  assert (Hflat : flat ((d, k) :: segs) = d :: k ++ flat segs) by done. rewrite Hflat in *.
  apply Forall_cons in Hok as [Hd Hok]. apply Forall_app in Hok as [Hk Hok].
  assert (Hat : at_ lp (pos es1) (entry d)).
  { exists (a ++ g), (body (k ++ flat segs) ++ [LP_EOF] ++ z). rewrite Zlen_app. split; [|lia].
    rewrite Hlp, body_cons. by rewrite <- !app_assoc. }
  destruct (skip_entry _ _ _ Hd Hat) as (b & Hr & Hb & Hskip).
  cbn [seg_pos lpBatchDelete_loop]. rewrite Hr. cbn [mbind option_bind].
  rewrite Hb. cbn [negb assertb mbind option_bind].
  rewrite Hskip. cbn [mbind option_bind]. rewrite <- pos_snoc. clear Hat Hr Hskip.
  assert (Hk1 : pos (es1 ++ d :: k) = pos (es1 ++ [d]) + Zlen (body k))
    by (rewrite pos_snoc, pos_app, body_cons, Zlen_app; lia).
  assert (Hkept : kept ((d, k) :: segs) = k ++ kept segs) by done. rewrite Hkept, body_app, Zlen_app.
  assert (Hg' : Zlen a + Zlen (g ++ entry d) = pos (es1 ++ [d])) by (rewrite Zlen_app, pos_snoc; lia).
  rewrite body_cons, body_app in Hlp. destruct segs as [|s2 segs'].
  - cbn [seg_pos]. assert (Hend' : lp_end = pos (es1 ++ [d]) + Zlen (body k) + 1)
      by (rewrite Hend, <- Hk1, app_nil_r; lia).
    rewrite (proj2 (Z.ltb_lt _ _)) by lia. cbn [assertb mbind option_bind].
    destruct (memmove_down a (g ++ entry d) (body k ++ [LP_EOF]) z (Zlen a) (pos (es1 ++ [d]))
      (lp_end - pos (es1 ++ [d]))) as (h & _ & Hmv); [done|lia|rewrite Zlen_app; cbn [length]; lia|].
    rewrite <- !app_assoc in Hmv. cbn [flat map concat] in Hlp. rewrite app_nil_r, <- !app_assoc in Hlp.
    rewrite Hlp, Hmv. cbn [mbind option_bind]. exists (h ++ z). cbn [kept map concat body length].
    rewrite app_nil_r. do 2 f_equal. lia.
  - destruct s2 as [d2 k2]. set (segs := (d2, k2) :: segs') in *. change (seg_pos (es1 ++ d :: k) segs) with
      (pos (es1 ++ d :: k) :: seg_pos ((es1 ++ d :: k) ++ d2 :: k2) segs') at 1. cbv iota.
    assert (Hend' : lp_end = pos ((es1 ++ d :: k) ++ flat segs) + 1) by (rewrite Hend, <- app_assoc; done).
    assert (Hpos : 2 * Zlen k <= Zlen (body k)) by by apply body_length.
    destruct (Z.eqb_spec (pos (es1 ++ [d])) (pos (es1 ++ d :: k))) as [Heq|Hne].
    + assert (k = []) as -> by (destruct k; [done|cbn [length] in Hpos; lia]).
      apply (IH lp (es1 ++ [d]) a (g ++ entry d) z); [done..| |done|done|done].
      rewrite Hlp. by rewrite <- !app_assoc.
    + rewrite (proj2 (Z.ltb_lt _ _)) by lia. cbn [assertb mbind option_bind].
      destruct (memmove_down a (g ++ entry d) (body k) ((body (flat segs) ++ [LP_EOF]) ++ z) (Zlen a)
        (pos (es1 ++ [d])) (pos (es1 ++ d :: k) - pos (es1 ++ [d]))) as (h & Hh & Hmv); [done|lia|lia|].
      rewrite <- !app_assoc in Hmv. rewrite <- !app_assoc in Hlp. rewrite Hlp, Hmv. cbn [mbind option_bind].
      destruct (IH (a ++ body k ++ h ++ body (flat segs) ++ [LP_EOF] ++ z) (es1 ++ d :: k) (a ++ body k) h z
        (Zlen a + (pos (es1 ++ d :: k) - pos (es1 ++ [d]))) lp_end) as (z' & Hz');
        [done|done|by rewrite <- !app_assoc|rewrite Zlen_app; lia|rewrite Zlen_app; lia|done|].
      exists z'. rewrite Hz', Zlen_app. rewrite <- !app_assoc. do 2 f_equal. lia.
Qed.

Lemma flat_kept_length segs : Zlen (flat segs) = Zlen segs + Zlen (kept segs).
Proof.
  induction segs as [|[d k] segs IH]; [done|].
  change (flat ((d, k) :: segs)) with (d :: k ++ flat segs).
  change (kept ((d, k) :: segs)) with (k ++ kept segs). cbn [length]. rewrite !Zlen_app in *. 
  cbn [length]. rewrite length_app. lia.
Qed.

Lemma kept_body segs : Zlen (body (kept segs)) <= Zlen (body (flat segs)).
Proof.
  induction segs as [|[d k] segs IH]; [done|].
  change (flat ((d, k) :: segs)) with (d :: k ++ flat segs).
  change (kept ((d, k) :: segs)) with (k ++ kept segs). rewrite body_cons, !body_app, !Zlen_app. lia.
Qed.

Lemma kept_ok segs : Forall elem_ok (flat segs) -> Forall elem_ok (kept segs).
Proof.
  induction segs as [|[d k] segs IH]; [done|].
  change (flat ((d, k) :: segs)) with (d :: k ++ flat segs).
  change (kept ((d, k) :: segs)) with (k ++ kept segs). rewrite Forall_cons, !Forall_app. tauto.
Qed.

Lemma seg_pos_length es1 segs : length (seg_pos es1 segs) = length segs.
Proof. revert es1. induction segs as [|[d k] segs IH]; intros; cbn; auto. Qed.

Lemma batch_count num es1 segs :
  count_ok num (es1 ++ flat segs) ->
  count_ok (if num =? LP_HDR_NUMELE_UNKNOWN then num else num - Zlen segs) (es1 ++ kept segs) /\
  (num <> LP_HDR_NUMELE_UNKNOWN -> 0 <= Zlen segs <= num).
Proof.
  unfold count_ok. rewrite !Zlen_app, flat_kept_length. intros [Hr Hc].
  destruct (Z.eqb_spec num 65535); lia.
Qed.

Lemma lpBatchDelete_spec lp es1 segs :
  repr lp (es1 ++ flat segs) ->
  exists lp', lpBatchDelete lp (seg_pos es1 segs) = Some lp' /\ repr lp' (es1 ++ kept segs).
Proof.
  intros Hlp. destruct segs as [|s segs']; [by exists lp|]. set (segs := s :: segs') in *.
  assert (exists q, seg_pos es1 segs = pos es1 :: q) as [q Hq] by (destruct s; eexists; done).
  unfold lpBatchDelete. rewrite Hq, <- Hq. rewrite (total_eq _ _ Hlp). cbn [mbind option_bind].
  rewrite Z.add_simpl_r, (at_end _ _ Hlp). cbn [mbind option_bind]. rewrite Z.eqb_refl.
  cbn [assertb mbind option_bind].
  destruct Hlp as (Hok & Hsz & num & slack & Hnum & ->). apply Forall_app in Hok as [Hok1 Hok].
  set (a := le_encode 4 (pos (es1 ++ flat segs) + 1) ++ le_encode 2 num ++ body es1).
  assert (Ha : Zlen a = pos es1) by (unfold a, pos; rewrite !Zlen_app, !length_le_encode; lia).
  destruct (batch_loop segs (layout num (es1 ++ flat segs) slack) es1 a [] slack (pos es1)
    (pos (es1 ++ flat segs) + 1)) as (z' & ->); [done|done| |done|cbn [length]; lia|done|].
  { unfold layout, a. by rewrite body_app, <- !app_assoc. }
  cbn [mbind option_bind]. set (nt := Zlen a + Zlen (body (kept segs)) + 1).
  assert (Hnt : nt = pos (es1 ++ kept segs) + 1) by (unfold nt; rewrite pos_app, Ha; lia).
  replace (pos (es1 ++ flat segs) + 1 - (pos (es1 ++ flat segs) + 1 - nt)) with nt by lia.
  rewrite (app_assoc a). cbn [app].
  rewrite (rd1_app (a ++ body (kept segs))) by (rewrite Zlen_app; unfold nt; lia).
  cbn [mbind option_bind]. rewrite Z.eqb_refl. cbn [assertb mbind option_bind].
  unfold a. rewrite <- !app_assoc. rewrite set_total by apply length_le_encode. cbn [mbind option_bind].
  destruct (batch_count _ _ _ Hnum) as [Hnum' Hd]. rewrite seg_pos_length, delete_count by apply Hnum || done.
  destruct (shrink_repr (if num =? 65535 then num else num - Zlen segs) (es1 ++ kept segs) z')
    as (lp' & Hlp' & Hr); [apply Forall_app; split; [done|by apply kept_ok]| |done|].
  { rewrite pos_app in *. pose proof (kept_body segs). lia. }
  exists lp'. split; [|done]. rewrite <- Hlp'. unfold layout. by rewrite Hnt, body_app, <- !app_assoc.
Qed.

(** *** Merging, copying, creating *)

Definition header (t num : Z) : list Z := le_encode 4 t ++ le_encode 2 num.

Lemma header_length t num : Zlen (header t num) = LP_HDR_SIZE.
Proof. unfold header. by rewrite Zlen_app, !length_le_encode. Qed.

Lemma layout_header num es z : layout num es z = header (pos es + 1) num ++ body es ++ [LP_EOF] ++ z.
Proof. unfold layout, header. by rewrite <- app_assoc. Qed.

(** A larger allocation for a listpack. *)
Lemma realloc_layout num es z n :
  pos es + 1 <= n -> exists z', lp_realloc (layout num es z) n = layout num es z' /\
  n <= pos es + 1 + Zlen z'.
Proof.
  intros Hn. rewrite layout_header. unfold lp_realloc. pose proof (usable_ge n).
  rewrite (app_assoc (body es)), (app_assoc (header _ _)).
  destruct (realloc_keep junk (header (pos es + 1) num ++ body es ++ [LP_EOF]) z (usable n)) as (z' & -> & Hz').
  { rewrite !Zlen_app, header_length. cbn [length]. unfold pos in *. lia. }
  exists z'. rewrite layout_header, <- !app_assoc. split; [done|].
  rewrite !Zlen_app, header_length in Hz'. cbn [length] in Hz'. unfold pos in *. lia.
Qed.

(** The two ways to put the entries of one listpack before those of another. *)
Lemma merge_append n1 es1 z1 n2 es2 z2 :
  pos (es1 ++ es2) <= pos es1 + Zlen z1 ->
  exists z', (bs ← rd (layout n2 es2 z2) LP_HDR_SIZE (pos es2 + 1 - LP_HDR_SIZE);
    wr (layout n1 es1 z1) (pos es1 + 1 - 1) bs) =
  Some (header (pos es1 + 1) n1 ++ body (es1 ++ es2) ++ [LP_EOF] ++ z').
Proof.
  intros Hz. rewrite !layout_header, (app_assoc (body es2)).
  rewrite rd_app by (rewrite ?header_length, ?Zlen_app; unfold pos; cbn [length]; lia).
  cbn [mbind option_bind]. rewrite (app_assoc (header _ n1)).
  destruct (wr_tail (header (pos es1 + 1) n1 ++ body es1) ([LP_EOF] ++ z1) (body es2 ++ [LP_EOF])
    (pos es1 + 1 - 1)) as (z' & ->).
  - rewrite Zlen_app, header_length. unfold pos. lia.
  - rewrite pos_app in Hz. rewrite !Zlen_app. cbn [length]. lia.
  - exists z'. by rewrite body_app, <- !app_assoc.
Qed.

Lemma merge_prepend n1 es1 z1 n2 es2 z2 :
  pos (es1 ++ es2) <= pos es2 + Zlen z2 ->
  exists z', (target ← memmove (layout n2 es2 z2) (pos es1 + 1 - 1) LP_HDR_SIZE (pos es2 + 1 - LP_HDR_SIZE);
    bs ← rd (layout n1 es1 z1) 0 (pos es1 + 1 - 1); wr target 0 bs) =
  Some (header (pos es1 + 1) n1 ++ body (es1 ++ es2) ++ [LP_EOF] ++ z').
Proof.
  intros Hz. rewrite !layout_header, (app_assoc (body es2)).
  rewrite (app_assoc (header _ n1)).
  destruct (memmove_gap (header (pos es2 + 1) n2) [] (body es2 ++ [LP_EOF]) z2 (Zlen (body es1))
    (pos es1 + 1 - 1) LP_HDR_SIZE (pos es2 + 1 - LP_HDR_SIZE)) as (x & z' & Hx & Hmv).
  1-5: rewrite ?header_length, ?Zlen_app, ?pos_app in *; unfold pos in *; cbn [length]; lia.
  cbn [app] in Hmv. rewrite Hmv. cbn [mbind option_bind].
  rewrite <- (app_nil_l ((header _ n1 ++ body es1) ++ _)).
  rewrite rd_app by (rewrite ?Zlen_app, ?header_length; unfold pos; cbn [length]; lia).
  cbn [mbind option_bind]. rewrite (app_assoc (header _ n2)).
  rewrite <- (app_nil_l ((header _ n2 ++ x) ++ _)). rewrite wr_app; [|done|].
  - exists z'. cbn [app]. by rewrite body_app, <- !app_assoc.
  - rewrite !length_app. unfold header. rewrite !length_app, !length_le_encode. lia.
Qed.

Lemma lpMerge_spec lp1 es1 lp2 es2 :
  repr lp1 es1 -> repr lp2 es2 -> pos (es1 ++ es2) + 1 < 2 ^ 32 - 1 ->
  exists lp', lpMerge (Some lp1) (Some lp2) false =
    Some (Some (if pos es2 <=? pos es1 then (Some lp', None) else (None, Some lp'))) /\ repr lp' (es1 ++ es2).
Proof.
  intros Hlp1 Hlp2 Hsz. unfold lpMerge, lpBytes. rewrite (total_eq _ _ Hlp1), (total_eq _ _ Hlp2).
  destruct (lpLength_spec _ _ Hlp1) as (lp1' & -> & Hlp1' & _). cbn [mbind option_bind].
  destruct (lpLength_spec _ _ Hlp2) as (lp2' & -> & Hlp2' & _). cbn [mbind option_bind].
  destruct Hlp1' as (Hok1 & Hsz1 & n1 & z1 & Hn1 & ->).
  destruct Hlp2' as (Hok2 & Hsz2 & n2 & z2 & Hn2 & ->).
  assert (Hpos : pos es1 + 1 + (pos es2 + 1) - LP_HDR_SIZE - 1 = pos (es1 ++ es2) + 1)
    by (rewrite pos_app; unfold pos; lia).
  pose proof (pos_ge es1). pose proof (pos_ge es2). pose proof (pos_ge (es1 ++ es2)).
  rewrite Hpos, uwrap_small by lia. cbv zeta.
  rewrite (proj2 (Z.ltb_lt (pos (es1 ++ es2) + 1) (2 ^ 32 - 1))) by lia. cbn [assertb mbind option_bind].
  set (len := if Zlen es1 + Zlen es2 <? 65535 then Zlen es1 + Zlen es2 else 65535).
  assert (Hlen : count_ok len (es1 ++ es2)).
  { unfold count_ok. rewrite Zlen_app. unfold len.
    destruct (Z.ltb_spec (Zlen es1 + Zlen es2) 65535); lia. }
  assert (Hfin : forall (append : bool) z, exists lp',
    (target ← lpSetNumElements (header (pos es1 + 1) n1 ++ body (es1 ++ es2) ++ [LP_EOF] ++ z) len;
     target ← lpSetTotalBytes target (pos (es1 ++ es2) + 1);
     Some (Some (if append then (Some target, None) else (None, Some target)))) =
    Some (Some (if append then (Some lp', None) else (None, Some lp'))) /\
    repr lp' (es1 ++ es2)).
  { intros append z. unfold header. rewrite <- app_assoc, set_num by apply length_le_encode.
    cbn [mbind option_bind]. rewrite set_total by apply length_le_encode. cbn [mbind option_bind].
    eexists. split; [done|]. split; [by apply Forall_app|]. split; [lia|]. by exists len, z. }
  rewrite pos_app in Hpos. replace (pos es2 <=? pos es1) with (pos es2 + 1 <=? pos es1 + 1) by lia.
  destruct (Z.leb_spec (pos es2 + 1) (pos es1 + 1)).
  - destruct (realloc_layout n1 es1 z1 (pos (es1 ++ es2) + 1)) as (z & -> & Hz); [rewrite pos_app; lia|].
    destruct (merge_append n1 es1 z n2 es2 z2) as (z' & ->); [lia|]. cbn [mbind option_bind]. apply (Hfin true).
  - destruct (realloc_layout n2 es2 z2 (pos (es1 ++ es2) + 1)) as (z & -> & Hz); [rewrite pos_app; lia|].
    destruct (merge_prepend n1 es1 z1 n2 es2 z) as (z' & ->); [lia|]. cbn [mbind option_bind]. apply (Hfin false).
Qed.

Lemma lpNew_spec capacity : exists lp, lpNew capacity = Some lp /\ repr lp [].
Proof.
  unfold lpNew. set (n := if _ <? _ then _ else _).
  assert (Hn : 7 <= n) by (unfold n; destruct (Z.ltb_spec (LP_HDR_SIZE + 1) capacity); lia).
  unfold lp_malloc. pose proof (usable_ge n). pose proof (length_realloc junk [] (usable n)) as Hl.
  set (b := realloc junk [] (usable n)) in *. clearbody b.
  do 7 (destruct b as [|? b]; [cbn in Hl; lia|]).
  rewrite (set_total [z; z0; z1; z2] (z3 :: z4 :: z5 :: b)) by done. cbn [mbind option_bind].
  rewrite (set_num (le_encode 4 7) [z3; z4] (z5 :: b)) by done. cbn [mbind option_bind].
  rewrite (app_assoc (le_encode 4 7)), wr1_app by done. eexists. split; [done|].
  split; [constructor|]. split; [done|]. exists 0, b. split; [split; [lia|by left]|].
  unfold layout. by rewrite <- !app_assoc.
Qed.

Lemma lpDup_spec lp es : repr lp es -> exists lp', lpDup lp = Some lp' /\ repr lp' es.
Proof.
  intros Hlp. unfold lpDup, lpBytes. rewrite (total_eq _ _ Hlp). cbn [mbind option_bind].
  destruct Hlp as (Hok & Hsz & num & slack & Hnum & ->).
  assert (layout num es slack = [] ++ layout num es [] ++ slack) as ->
    by (unfold layout; by rewrite <- !app_assoc).
  assert (Hl : Zlen (layout num es []) = pos es + 1)
    by (rewrite layout_header, !Zlen_app, header_length; unfold pos; cbn [length]; lia).
  rewrite rd_app by done. cbn [mbind option_bind]. unfold lp_malloc. pose proof (usable_ge (pos es + 1)).
  destruct (wr_tail [] (realloc junk [] (usable (pos es + 1))) (layout num es []) 0) as (t' & Hw);
    [done|rewrite length_realloc; lia|]. cbn [app] in Hw. rewrite Hw.
  eexists. split; [done|]. split; [done|]. split; [done|]. exists num, t'. split; [done|].
  unfold layout. by rewrite <- !app_assoc.
Qed.

(** ** Theorems *)

(** Integers at the ends. *)
Lemma append_int lp es v :
  repr lp es -> LLONG_MIN <= v <= LLONG_MAX -> pos es + Zlen (entry (EInt v)) + 1 < 2 ^ 32 ->
  exists lp' p, lpAppendInteger lp v = Some (Some (lp', p)) /\ repr lp' (es ++ [EInt v]).
Proof.
  intros Hlp Hv Hsz. unfold lpAppendInteger, lpInsertInteger. rewrite (total_eq _ _ Hlp). cbn [mbind option_bind].
  rewrite Z.add_simpl_r. replace (pos es) with (pos (take (Z.to_nat (Zlen es)) es)) by (rewrite Nat2Z.id, take_ge by lia; done).
  destruct (lpInsert_at lp es None (Some (lpEncodeIntegerGetType v)) (EInt v) LP_BEFORE (Zlen es)) as [[Hbig _]|(lp' & -> & Hlp')];
    [done|by constructor|done|by right| |].
  - cbn [insert_at] in Hbig. rewrite Nat2Z.id, take_ge, drop_ge in Hbig by lia. rewrite pos_snoc in Hbig. lia.
  - cbn [insert_at] in Hlp'. rewrite Nat2Z.id, take_ge, drop_ge in Hlp' by lia. eauto.
Qed.

Lemma prepend_int lp es v :
  repr lp es -> LLONG_MIN <= v <= LLONG_MAX -> pos es + Zlen (entry (EInt v)) + 1 < 2 ^ 32 ->
  exists lp' p, lpPrependInteger lp v = Some (Some (lp', p)) /\ repr lp' (EInt v :: es).
Proof.
  intros Hlp Hv Hsz. unfold lpPrependInteger. rewrite (first_nth _ _ Hlp). cbn [mbind option_bind]. unfold nth_ptr.
  destruct es as [|e es]; [by apply (append_int lp [])|]. rewrite (proj2 (andb_true_iff _ _)) by (cbn [length]; lia). unfold lpInsertInteger.
  destruct (lpInsert_at lp (e :: es) None (Some (lpEncodeIntegerGetType v)) (EInt v) LP_BEFORE 0) as [[Hbig _]|(lp' & Hr & Hlp')];
    [done|by constructor|done|left; cbn [length]; lia| |cbn in Hr |- *; rewrite Hr; eauto].
  cbn [insert_at] in Hbig. change (Z.to_nat 0) with 0%nat in Hbig. cbn [take drop app] in Hbig. unfold pos in *. rewrite body_cons, Zlen_app in Hbig. lia.
Qed.

(** C13: inserting or replacing a string at an entry of a listpack: the result
    is the null pointer exactly when the listpack would have 2^32 bytes or
    more, otherwise a listpack with the element before, after or in place of
    the entry, and [newp] points to it. *)
Theorem lpInsertString_refines lp es s w k :
  repr lp es -> bytes_ok s -> Zlen s < 2 ^ 32 - 5 -> 0 <= k < Zlen es ->
  let es' := insert_at w k (elem_of_string s) es in
  let r := lpInsertString lp s (pos (take (Z.to_nat k) es)) w in
  (2 ^ 32 <= pos es' + 1 /\ r = Some None) \/
  (exists lp', r = Some (Some (lp', nth_ptr es' (insert_index w k))) /\ repr lp' es').
Proof.
  intros Hlp Hs Hl Hk. apply lpInsert_at; [done|by constructor|by apply elem_of_string_ok|by left].
Qed.

(** The same for integers, for each of the ways to insert them. *)
Theorem lpInsertInteger_refines lp es v w k :
  repr lp es -> LLONG_MIN <= v <= LLONG_MAX -> 0 <= k < Zlen es ->
  let es' := insert_at w k (EInt v) es in
  let r := lpInsertInteger lp v (pos (take (Z.to_nat k) es)) w in
  (2 ^ 32 <= pos es' + 1 /\ r = Some None) \/
  (exists lp', r = Some (Some (lp', nth_ptr es' (insert_index w k))) /\ repr lp' es').
Proof. intros Hlp Hv Hk. apply lpInsert_at; [done|by constructor|done|by left]. Qed.

(** [lpAppend] and [lpPrepend] add the string at the end and at the head. *)
Theorem lpAppend_lpPrepend_refine lp es s :
  repr lp es -> bytes_ok s -> Zlen s < 2 ^ 32 - 5 -> pos es + Zlen (entry (elem_of_string s)) + 1 < 2 ^ 32 ->
  (exists lp' p, lpAppend lp s = Some (Some (lp', p)) /\ repr lp' (es ++ [elem_of_string s])) /\
  (exists lp' p, lpPrepend lp s = Some (Some (lp', p)) /\ repr lp' (elem_of_string s :: es)).
Proof.
  intros Hlp Hs Hl Hsz. set (e := elem_of_string s) in *.
  assert (He : elem_ok e) by by apply elem_of_string_ok.
  assert (Happ : exists lp' p, lpAppend lp s = Some (Some (lp', p)) /\ repr lp' (es ++ [e])).
  { unfold lpAppend. rewrite (total_eq _ _ Hlp). cbn [mbind option_bind]. rewrite Z.add_simpl_r.
    destruct (lpInsert_at lp es (Some s) None e LP_BEFORE (Zlen es)) as [[Hbig _]|(lp' & Hr & Hlp')];
      [done|by constructor|done|by right| |].
    - cbn [insert_at] in Hbig. rewrite Nat2Z.id, take_ge, drop_ge in Hbig by lia.
      rewrite pos_snoc in Hbig. lia.
    - cbn [insert_at insert_index] in *. rewrite Nat2Z.id, take_ge, drop_ge in * by lia. eauto. }
  split; [done|]. unfold lpPrepend. rewrite (first_nth _ _ Hlp). cbn [mbind option_bind].
  destruct es as [|e0 es']; [done|]. unfold nth_ptr at 1. cbn [length andb Z.leb Z.compare].
  rewrite (proj2 (Z.ltb_lt _ _)) by lia.
  destruct (lpInsert_at lp (e0 :: es') (Some s) None e LP_BEFORE 0) as [[Hbig _]|(lp' & Hr & Hlp')];
    [done|by constructor|done|left; cbn [length]; lia| |].
  - cbn [insert_at] in Hbig. change (Z.to_nat 0) with 0%nat in Hbig. cbn [take drop app] in Hbig.
    unfold pos in *. rewrite (body_cons e), Zlen_app in Hbig. lia.
  - eauto.
Qed.

(** [lpDelete] removes the entry and leaves the pointer at the next one. *)
Theorem lpDelete_refines lp es k :
  repr lp es -> 0 <= k < Zlen es ->
  let es' := take (Z.to_nat k) es ++ drop (Z.to_nat (k + 1)) es in
  exists lp', lpDelete lp (pos (take (Z.to_nat k) es)) = Some (Some (lp', nth_ptr es' k)) /\ repr lp' es'.
Proof. apply lpDelete_at. Qed.

(** [lpDeleteRange] removes the elements from an index on, negative
    indexes counting from the end, and does nothing out of range. *)
Theorem lpDeleteRange_refines lp es index num :
  repr lp es -> 0 <= num -> index < 2 ^ 63 ->
  exists lp', lpDeleteRange lp index num = Some lp' /\
              repr lp' (delete_range (abs_index es index) num es).
Proof. apply lpDeleteRange_spec. Qed.

(** [lpBatchDelete] with the pointers of elements in order removes
    exactly these elements; [segs] has each of them with the elements kept
    after it. *)
Theorem lpBatchDelete_refines lp es1 segs :
  repr lp (es1 ++ flat segs) ->
  exists lp', lpBatchDelete lp (seg_pos es1 segs) = Some lp' /\ repr lp' (es1 ++ kept segs).
Proof. apply lpBatchDelete_spec. Qed.

(** [lpMerge] is the concatenation, in place of the larger of the two
    listpacks, and [lpDup] a copy. *)
Theorem lpMerge_refines lp1 es1 lp2 es2 :
  repr lp1 es1 -> repr lp2 es2 -> pos (es1 ++ es2) + 1 < 2 ^ 32 - 1 ->
  (exists lp', lpMerge (Some lp1) (Some lp2) false =
     Some (Some (if pos es2 <=? pos es1 then (Some lp', None) else (None, Some lp'))) /\ repr lp' (es1 ++ es2)) /\
  (exists lp', lpDup lp1 = Some lp' /\ repr lp' es1).
Proof. intros H1 H2 Hsz. split; [by apply lpMerge_spec|by apply lpDup_spec]. Qed.

End Edit.

(** The elements of a listpack are found from both ends: [lpLength] is
    the number of elements and keeps the listpack, [lpSeek] finds the entry
    of an index, negative ones counting from the end, and [lpNext] and
    [lpPrev] move by one. *)
Theorem lpSeek_next_prev lp es index :
  repr lp es ->
  (exists lp', lpLength lp = Some (Zlen es, lp') /\ repr lp' es) /\
  lpSeek lp index = Some (nth_ptr es (abs_index es index)) /\
  lpFirst lp = Some (nth_ptr es 0) /\ lpLast lp = Some (nth_ptr es (Zlen es - 1)) /\
  (forall k, 0 <= k < Zlen es ->
     lpNext lp (pos (take (Z.to_nat k) es)) = Some (nth_ptr es (k + 1)) /\
     lpPrev lp (pos (take (Z.to_nat k) es)) = Some (nth_ptr es (k - 1))).
Proof.
  intros Hlp. split; [destruct (lpLength_spec _ _ Hlp) as (lp' & ? & ? & _); eauto|].
  split; [by apply lpSeek_spec|]. split; [by apply first_nth|]. split; [by apply last_nth|].
  intros k Hk. split; [by apply next_nth|by apply prev_nth].
Qed.

(** What [find_from] finds: the first match among the elements compared. *)
Lemma find_from_spec s skip l : forall cnt,
  match find_from s skip cnt l with
  | Some j => exists m, j = (cnt + m * S skip)%nat /\ elem_string <$> l !! j = Some s /\
      forall m', (m' < m)%nat -> elem_string <$> l !! (cnt + m' * S skip)%nat <> Some s
  | None => forall m, elem_string <$> l !! (cnt + m * S skip)%nat <> Some s
  end.
Proof.
  induction l as [|e l IH]; intros cnt; cbn [find_from]; [done|].
  destruct cnt as [|cnt].
  - case_bool_decide as He; [exists 0%nat; cbn; rewrite He; split_and!; [done|done|lia]|].
    specialize (IH skip). destruct (find_from s skip skip l) as [j|]; cbn [fmap option_fmap option_map].
    + destruct IH as (m & -> & Hj & Hm). exists (S m). split; [lia|]. split; [done|].
      intros [|m'] Hlt; [cbn; congruence|]. apply (Hm m'). lia.
    + intros [|m]; [cbn; congruence|]. apply (IH m).
  - specialize (IH cnt). destruct (find_from s skip cnt l) as [j|]; cbn [fmap option_fmap option_map]; [|done].
    destruct IH as (m & -> & Hj & Hm). exists m. done.
Qed.

(** [lpFind] compares the entries [k], [k + skip + 1], ... and returns
    the first one that reads as the given string, or the null pointer when
    there is none; integers are found whatever their encoding. *)
Theorem lpFind_correct lp es k s skip :
  repr lp es -> 0 <= k < Zlen es -> Z.of_nat skip < 2 ^ 31 ->
  let compared m := elem_string <$> es !! (Z.to_nat k + m * S skip)%nat in
  (exists m, lpFind lp (pos (take (Z.to_nat k) es)) s (Z.of_nat skip) =
     Some (Some (pos (take (Z.to_nat k + m * S skip) es))) /\
     compared m = Some s /\ forall m', (m' < m)%nat -> compared m' <> Some s) \/
  (lpFind lp (pos (take (Z.to_nat k) es)) s (Z.of_nat skip) = Some None /\
   forall m, compared m <> Some s).
Proof.
  intros Hlp Hk Hs compared. rewrite (lpFind_spec _ _ Hlp) by done.
  pose proof (find_from_spec s skip (drop (Z.to_nat k) es) 0) as Hf.
  destruct (find_from s skip 0 (drop (Z.to_nat k) es)) as [j|]; setoid_rewrite lookup_drop in Hf.
  - left. destruct Hf as (m & -> & Hj & Hm). exists m. done.
  - right. done.
Qed.

(** ** Instances *)

Definition es0 : list elem := [EInt 1; EStr [97; 98]; EInt (-300); EStr [97; 98]].
Definition lp0 : list Z := layout 4 es0 [9; 9; 9].

Lemma repr_lp0 : repr lp0 es0.
Proof.
  split; [repeat constructor; cbn; lia|]. split; [done|]. exists 4, [9; 9; 9].
  split; [|done]. by split; [|left].
Qed.

Lemma lpInsertString_refines_witness :
  exists lp', @lpInsertString alloc_16 lp0 [53; 53] (pos (take 1 es0)) LP_AFTER =
    Some (Some (lp', nth_ptr (insert_at LP_AFTER 1 (EInt 55) es0) 2)) /\
    repr lp' (insert_at LP_AFTER 1 (EInt 55) es0).
Proof.
  destruct (@lpInsertString_refines alloc_16 lp0 es0 [53; 53] LP_AFTER 1) as [[Hbig _]|Hr].
  - apply repr_lp0.
  - by_compute.
  - done.
  - done.
  - by vm_compute in Hbig.
  - exact Hr.
Defined.

Lemma lpInsertInteger_refines_witness :
  exists lp', @lpInsertInteger alloc_exact lp0 (-5) (pos (take 3 es0)) LP_REPLACE =
    Some (Some (lp', nth_ptr (insert_at LP_REPLACE 3 (EInt (-5)) es0) 3)) /\
    repr lp' (insert_at LP_REPLACE 3 (EInt (-5)) es0).
Proof.
  destruct (@lpInsertInteger_refines alloc_exact lp0 es0 (-5) LP_REPLACE 3) as [[Hbig _]|Hr].
  - apply repr_lp0.
  - done.
  - done.
  - by vm_compute in Hbig.
  - exact Hr.
Defined.

Lemma lpAppend_lpPrepend_refine_witness :
  (exists lp' p, @lpAppend alloc_16 lp0 [120] = Some (Some (lp', p)) /\ repr lp' (es0 ++ [EStr [120]])) /\
  (exists lp' p, @lpPrepend alloc_16 lp0 [120] = Some (Some (lp', p)) /\ repr lp' (EStr [120] :: es0)).
Proof.
  apply (@lpAppend_lpPrepend_refine alloc_16 lp0 es0 [120]); [apply repr_lp0|by_compute|done|done].
Defined.

Lemma lpDelete_refines_witness :
  exists lp', @lpDelete alloc_16 lp0 (pos (take 3 es0)) = Some (Some (lp', None)) /\ repr lp' (take 3 es0).
Proof. apply (@lpDelete_refines alloc_16 lp0 es0 3); [apply repr_lp0|done]. Defined.

Lemma lpDeleteRange_refines_witness :
  exists lp', @lpDeleteRange alloc_16 lp0 (-3) 2 = Some lp' /\ repr lp' [EInt 1; EStr [97; 98]].
Proof. apply (@lpDeleteRange_refines alloc_16 lp0 es0 (-3) 2); [apply repr_lp0|done|done]. Defined.

Lemma lpBatchDelete_refines_witness :
  exists lp', @lpBatchDelete alloc_16 lp0 [6; 12] = Some lp' /\ repr lp' [EStr [97; 98]; EStr [97; 98]].
Proof.
  apply (@lpBatchDelete_refines alloc_16 lp0 [] [(EInt 1, [EStr [97; 98]]); (EInt (-300), [EStr [97; 98]])]).
  apply repr_lp0.
Defined.

Lemma lpMerge_refines_witness :
  (exists lp', @lpMerge alloc_16 (Some lp0) (Some lp0) false = Some (Some (Some lp', None)) /\ repr lp' (es0 ++ es0)) /\
  (exists lp', @lpDup alloc_16 lp0 = Some lp' /\ repr lp' es0).
Proof. apply (@lpMerge_refines alloc_16 lp0 es0 lp0 es0); [apply repr_lp0|apply repr_lp0|done]. Defined.

Lemma lpSeek_next_prev_witness :
  (exists lp', lpLength lp0 = Some (4, lp') /\ repr lp' es0) /\
  lpSeek lp0 (-1) = Some (Some 15) /\
  lpFirst lp0 = Some (Some 6) /\ lpLast lp0 = Some (Some 15) /\
  (forall k, 0 <= k < 4 ->
     lpNext lp0 (pos (take (Z.to_nat k) es0)) = Some (nth_ptr es0 (k + 1)) /\
     lpPrev lp0 (pos (take (Z.to_nat k) es0)) = Some (nth_ptr es0 (k - 1))).
Proof. apply (lpSeek_next_prev lp0 es0 (-1)). apply repr_lp0. Defined.

Lemma lpFind_correct_witness :
  let compared m := elem_string <$> es0 !! (0 + m * 2)%nat in
  (exists m, lpFind lp0 6 [45; 51; 48; 48] 1 = Some (Some (pos (take (0 + m * 2) es0))) /\
     compared m = Some [45; 51; 48; 48] /\ forall m', (m' < m)%nat -> compared m' <> Some [45; 51; 48; 48]) \/
  (lpFind lp0 6 [45; 51; 48; 48] 1 = Some None /\ forall m, compared m <> Some [45; 51; 48; 48]).
Proof. apply (lpFind_correct lp0 es0 0 [45; 51; 48; 48] 1); [apply repr_lp0|done|done]. Defined.

End LpEdit.
