(* ===== verification/ListpackCheck.v ===== *)
(** * Validation of listpacks

    What the validation functions of Listpack.v promise for arbitrary bytes,
    as they are read from a dump or a replication stream: they never read
    outside the buffer, and what they accept can be traversed in both
    directions. *)

From S2P Require Import Prelude.
From S2P Require Import NumConv.
From S2P Require Import ListpackEnc.
From S2P Require Import Listpack.
From S2P Require Import ListpackOps.
Import NumConv LpEnc Lp LpOps.

Module LpCheck.

Section Bytes.
Context (lp : list Z) (lpbytes : Z).
Context (Hok : bytes_ok lp) (Hsize : lpbytes <= Zlen lp).

#[local] Set Default Proof Using "Type*".

(** Reads inside the buffer succeed and give bytes. *)
Lemma rd1_in p : 0 <= p < Zlen lp -> exists b, rd1 lp p = Some b /\ is_byte b.
Proof using Hok.
  intros Hp. unfold rd1. rewrite (proj2 (Z.leb_le _ _)) by lia.
  destruct (lookup_lt_is_Some_2 lp (Z.to_nat p)) as [b Hb]; [lia|]. exists b. split; [done|].
  by eapply Forall_lookup_1.
Qed.

(** The encoded size needs only the bytes counted by [lpCurrentEncodedSizeBytes]. *)
Lemma size_bytes_total p b :
  rd1 lp p = Some b -> exists n, lpCurrentEncodedSizeBytes lp p = Some n /\ 0 <= n <= 5.
Proof.
  intros Hb. unfold lpCurrentEncodedSizeBytes. rewrite Hb. cbn [mbind option_bind].
  eexists. split; [done|]. repeat case_match; lia.
Qed.

Lemma rd1_byte p b : rd1 lp p = Some b -> is_byte b.
Proof.
  unfold rd1. destruct (0 <=? p); [|done]. intros Hb. by eapply Forall_lookup_1.
Qed.

(** The value of [LP_ENCODING_32BIT_STR_LEN] is the little-endian number. *)
Lemma len32 p b1 b2 b3 b4 :
  rd1 lp (p + 1) = Some b1 -> rd1 lp (p + 2) = Some b2 -> rd1 lp (p + 3) = Some b3 ->
  rd1 lp (p + 4) = Some b4 ->
  LP_ENCODING_32BIT_STR_LEN lp p = Some (b1 + b2 * 2 ^ 8 + b3 * 2 ^ 16 + b4 * 2 ^ 24).
Proof.
  intros H1 H2 H3 H4. unfold LP_ENCODING_32BIT_STR_LEN. rewrite H1, H2, H3, H4. cbn [mbind option_bind].
  apply rd1_byte in H1, H2, H3, H4. rewrite Z.shiftl_0_r. le_or. done.
Qed.

Lemma len12 p b0 b1 :
  rd1 lp p = Some b0 -> rd1 lp (p + 1) = Some b1 ->
  LP_ENCODING_12BIT_STR_LEN lp p = Some (b1 + b0 mod 16 * 2 ^ 8).
Proof.
  intros H0 H1. unfold LP_ENCODING_12BIT_STR_LEN. rewrite H0, H1. cbn [mbind option_bind].
  apply rd1_byte in H0, H1. change 0xF with (2 ^ 4 - 1). rewrite land_mask by lia.
  by rewrite lor_shiftl_l by first [lia | unfold is_byte in *; lia].
Qed.

Lemma len6 p b0 : rd1 lp p = Some b0 -> LP_ENCODING_6BIT_STR_LEN lp p = Some (b0 mod 64).
Proof.
  intros H0. unfold LP_ENCODING_6BIT_STR_LEN. rewrite H0. cbn [mbind option_bind].
  change 0x3F with (2 ^ 6 - 1). by rewrite land_mask by lia.
Qed.

(** [lp_cases] splits on the class of an encoding byte [b]. *)
Ltac lp_cases Hb :=
  rewrite ?(class_7bit _ Hb), ?(class_6str _ Hb), ?(class_13int _ Hb), ?(class_12str _ Hb);
  unfold LP_ENCODING_IS_16BIT_INT, LP_ENCODING_IS_24BIT_INT, LP_ENCODING_IS_32BIT_INT,
    LP_ENCODING_IS_64BIT_INT, LP_ENCODING_IS_32BIT_STR, LP_EOF;
  rewrite ?land_255, ?(Z.mod_small _ 256) by exact Hb;
  repeat match goal with
  | |- context [if ?c then _ else _] => destruct c eqn:?; try (exfalso; unfold is_byte in Hb; lia)
  end.

(** The sizes computed from an entry whose length bytes are in the buffer.
    A string of 32 bit length is the only case in which the size can wrap
    around, and then it is at most four. *)
Lemma sizes p b n :
  rd1 lp p = Some b -> lpCurrentEncodedSizeBytes lp p = Some n -> n <> 0 -> 0 <= p -> p + n < Zlen lp ->
  exists sz, lpCurrentEncodedSizeUnsafe lp p = Some sz /\ 0 <= sz < 2 ^ 32 /\
  (n <= sz \/
   (b = 0xF0 /\ sz <= 4 /\ rd1 lp (p + 1) = Some (251 + sz) /\ rd1 lp (p + 2) = Some 255 /\
    rd1 lp (p + 3) = Some 255 /\ rd1 lp (p + 4) = Some 255)).
Proof.
  intros Hb Hn Hn0 Hp Hlen. pose proof (rd1_byte _ _ Hb) as Hbyte. revert Hn.
  unfold lpCurrentEncodedSizeBytes, lpCurrentEncodedSizeUnsafe. rewrite Hb. cbn [mbind option_bind].
  rewrite (len6 _ _ Hb). cbn [mbind option_bind].
  lp_cases Hbyte; intros [= <-]; try (eexists; split; [done|]; lia); try done.
  - assert (0 <= b mod 64 < 64) by (apply Z.mod_pos_bound; lia).
    rewrite uwrap_small by lia. eexists. split; [done|]. lia.
  - destruct (rd1_in (p + 1)) as (b1 & H1 & Hb1); [lia|]. rewrite (len12 _ _ _ Hb H1). cbn [mbind option_bind].
    assert (0 <= b mod 16 < 16) by (apply Z.mod_pos_bound; lia). unfold is_byte in *.
    rewrite uwrap_small by lia. eexists. split; [done|]. lia.
  - destruct (rd1_in (p + 1)) as (b1 & H1 & Hb1); [lia|]. destruct (rd1_in (p + 2)) as (b2 & H2 & Hb2); [lia|].
    destruct (rd1_in (p + 3)) as (b3 & H3 & Hb3); [lia|]. destruct (rd1_in (p + 4)) as (b4 & H4 & Hb4); [lia|].
    rewrite (len32 _ _ _ _ _ H1 H2 H3 H4), H1, H2, H3, H4. cbn [mbind option_bind].
    eexists. split; [done|]. unfold is_byte in *.
    set (v := b1 + b2 * 2 ^ 8 + b3 * 2 ^ 16 + b4 * 2 ^ 24) in *.
    split; [apply Z.mod_pos_bound; lia|].
    destruct (Z.ltb_spec (5 + v) (2 ^ 32)); [left; rewrite uwrap_small; lia|].
    assert (u32 (5 + v) = 5 + v - 2 ^ 32) as ->.
    { unfold uwrap. symmetry. apply (Z.mod_unique _ _ 1); lia. }
    right. split_and!; first [lia | f_equal; lia].
Qed.

(** The backlen is read inside the buffer; its last byte is its low digit. *)
Lemma decode_loop fuel : forall p val shift,
  shift = 35 - 7 * Z.of_nat fuel -> (1 <= fuel <= 5)%nat -> Z.of_nat fuel - 1 <= p < Zlen lp ->
  0 <= val < 2 ^ shift ->
  exists v, lpDecodeBacklen_loop fuel lp p val shift = Some v /\
    (v = ULLONG_MAX \/ (v < 2 ^ 35 /\ exists b x, rd1 lp p = Some b /\ 0 <= x /\
                        v = val + (b mod 128 + 128 * x) * 2 ^ shift)).
Proof.
  induction fuel as [|fuel IH]; intros p val shift Hsh Hf Hp Hval; [lia|].
  destruct (rd1_in p) as (b & Hb & Hbyte); [lia|]. cbn [lpDecodeBacklen_loop]. rewrite Hb. cbn [mbind option_bind].
  assert (0 <= b mod 128 < 128) by (apply Z.mod_pos_bound; lia).
  assert (2 ^ shift <= 2 ^ 28) by (apply Z.pow_le_mono_r; lia). assert (0 < 2 ^ shift) by lia.
  rewrite land_127, Z.shiftl_mul_pow2, uwrap_small, <- Z.shiftl_mul_pow2, lor_shiftl by nia.
  assert (H7 : 2 ^ (shift + 7) = 128 * 2 ^ shift) by (rewrite Z.pow_add_r by lia; lia).
  destruct (Z.land b 128 =? 0).
  { eexists. split; [done|]. right. split; [nia|]. exists b, 0. split; [done|]. split; [lia|]. nia. }
  destruct (Z.ltb_spec 28 (shift + 7)); [by eexists; split; [|left]|].
  destruct (IH (p - 1) (val + b mod 128 * 2 ^ shift) (shift + 7)) as (v & Hv & Hc); [lia..|nia|].
  exists v. split; [done|]. destruct Hc as [->|(Hlt & b' & x & Hb' & Hx & ->)]; [by left|right].
  split; [done|]. exists b, (b' mod 128 + 128 * x).
  assert (0 <= b' mod 128 < 128) by (apply Z.mod_pos_bound; lia). split; [done|]. split; [lia|]. nia.
Qed.

Lemma decode_total p b :
  4 <= p -> rd1 lp p = Some b -> p < Zlen lp ->
  exists v, lpDecodeBacklen lp p = Some v /\
    (v = ULLONG_MAX \/ (0 <= v < 2 ^ 35 /\ v mod 128 = b mod 128)).
Proof.
  intros Hp Hb Hlt. destruct (decode_loop 5 p 0 0) as (v & Hv & Hc); [lia..|].
  exists v. split; [done|]. destruct Hc as [->|(Hlt' & b' & x & Hb' & Hx & ->)]; [by left|right].
  assert (b' = b) as -> by congruence. assert (0 <= b mod 128 < 128) by (apply Z.mod_pos_bound; lia).
  change (2 ^ 0) with 1 in *. split; [lia|]. Z.div_mod_to_equations; lia.
Qed.

(** A size that wrapped around is not the backlen: the byte before the next
    position is one of the length bytes. *)
Lemma wrap_rejected p b sz c :
  (b = 0xF0 /\ sz <= 4 /\ rd1 lp (p + 1) = Some (251 + sz) /\ rd1 lp (p + 2) = Some 255 /\
   rd1 lp (p + 3) = Some 255 /\ rd1 lp (p + 4) = Some 255) ->
  rd1 lp p = Some b -> 0 <= sz -> rd1 lp (p + sz) = Some c -> sz mod 128 <> c mod 128.
Proof.
  intros (-> & Hle & H1 & H2 & H3 & H4) H0 Hsz Hc.
  assert (Hsz' : sz = 0 \/ sz = 1 \/ sz = 2 \/ sz = 3 \/ sz = 4) by lia.
  destruct Hsz' as [-> |[-> |[-> |[-> | ->]]]]; rewrite ?Z.add_0_r in Hc;
    match goal with
    | H : rd1 lp ?a = Some ?x, H' : rd1 lp ?a = Some c |- _ => rewrite H in H'; injection H' as <-
    end; by vm_compute.
Qed.

(** The checks of [lpValidateNext] in order: it returns, and when it accepts
    an entry the next position is after it, inside the buffer, and the
    backlen is the size of the entry. *)
Lemma validate_next pp :
  exists r, lpValidateNext lp pp lpbytes = Some r /\
  match r with
  | (false, pp') => pp' = pp
  | (true, None) => exists p, pp = Some p /\ 6 <= p < lpbytes /\ rd1 lp p = Some LP_EOF
  | (true, Some q) => exists p b n sz,
      pp = Some p /\ 6 <= p /\ q < lpbytes /\ rd1 lp p = Some b /\ (b =? LP_EOF) = false /\
      lpCurrentEncodedSizeBytes lp p = Some n /\ 0 < n <= sz /\ sz < 2 ^ 32 /\
      lpCurrentEncodedSizeUnsafe lp p = Some sz /\ q = p + (sz + lpBacklenSize sz) /\
      lpDecodeBacklen lp (q - 1) = Some sz
  end.
Proof.
  destruct pp as [p|]; [|by eexists]. unfold lpValidateNext, OUT_OF_RANGE.
  destruct ((p <? 6) || (lpbytes - 1 <? p)) eqn:E1; [by eexists|].
  destruct (rd1_in p) as (b & Hb & Hbyte); [lia|]. rewrite Hb. cbn [mbind option_bind].
  destruct (Z.eqb_spec b LP_EOF) as [->|Hne]; [eexists; split; [done|]; exists p; split_and!; [done|lia|lia|done]|].
  destruct (size_bytes_total p b Hb) as (n & Hn & Hn5). rewrite Hn. cbn [mbind option_bind].
  destruct (Z.eqb_spec n 0) as [|Hn0]; [by eexists|].
  destruct ((p + n <? 6) || (lpbytes - 1 <? p + n)) eqn:E2; [by eexists|].
  destruct (sizes p b n Hb Hn Hn0) as (sz & Hsz & Hszr & Hw); [lia..|]. rewrite Hsz. cbn [mbind option_bind].
  set (bl := lpBacklenSize sz). assert (1 <= bl <= 5) by apply backlen_size. cbv zeta.
  destruct ((p + (sz + bl) <? 6) || (lpbytes - 1 <? p + (sz + bl))) eqn:E3; [by eexists|].
  set (q := p + (sz + bl)) in *. destruct (rd1_in (q - 1)) as (c & Hc & Hcb); [lia|].
  destruct (decode_total (q - 1) c) as (v & Hv & Hvr); [lia|done|lia|]. rewrite Hv. cbn [mbind option_bind].
  destruct (Z.eqb_spec (u64 (v + bl)) (sz + bl)) as [Heq|]; [|by eexists]. cbn [negb].
  assert (Hvsz : v = sz /\ v mod 128 = c mod 128).
  { destruct Hvr as [->|[Hvr Hm]]; [exfalso|split; [|done]; rewrite uwrap_small in Heq; lia].
    unfold uwrap in Heq. rewrite <- (Z.mod_unique (ULLONG_MAX + bl) (2 ^ 64) 1 (bl - 1)) in Heq; lia. }
  destruct Hvsz as [-> Hm].
  assert (Hle : n <= sz).
  { destruct Hw as [|Hw]; [done|exfalso]. apply (wrap_rejected p b sz c Hw Hb); [lia| |done].
    replace (p + sz) with (q - 1); [done|]. unfold q, bl, lpBacklenSize, lpEncodeBacklen.
    destruct Hw as (_ & ? & _). rewrite (proj2 (Z.leb_le _ _)) by lia. cbn [length]. lia. }
  eexists. split; [done|]. exists p, b, n, sz. apply Z.eqb_neq in Hne.
  split_and!; first [done | lia].
Qed.

(** Reading an accepted entry stays inside it. *)
Lemma get_in p b n sz es :
  rd1 lp p = Some b -> lpCurrentEncodedSizeBytes lp p = Some n -> 0 < n <= sz ->
  lpCurrentEncodedSizeUnsafe lp p = Some sz -> 0 <= p -> p + sz < Zlen lp -> (b =? LP_EOF) = false ->
  exists v, lpGetWithSize lp p es = Some (v, sz + lpBacklenSize sz) /\
  match v with LpInt _ => True | LpStr off len => p < off /\ 0 <= len /\ off + len = p + sz end.
Proof.
  intros Hb Hn Hnsz Hsz Hp Hlen Hne. pose proof (rd1_byte _ _ Hb) as Hbyte. revert Hn Hsz Hne.
  assert (Hrd : forall k, 0 <= k -> p + k < Zlen lp -> exists x, rd1 lp (p + k) = Some x /\ is_byte x)
    by (intros; apply rd1_in; lia).
  unfold lpCurrentEncodedSizeBytes, lpCurrentEncodedSizeUnsafe, lpGetWithSize. rewrite Hb. cbn [mbind option_bind].
  rewrite (len6 _ _ Hb). cbn [mbind option_bind].
  lp_cases Hbyte; intros [= <-] Hs Hne'; try lia.
  1,3-7: injection Hs as <-;
    repeat match goal with
    | Hrd : (forall k, 0 <= k -> _ -> _) |- context [rd1 _ (_ + ?k)] =>
        let x := fresh "x" in let H := fresh in
        destruct (Hrd k) as (x & H & _); [lia|lia|]; rewrite H; cbn [mbind option_bind]
    end; by eexists.
  - assert (0 <= b mod 64 < 64) by (apply Z.mod_pos_bound; lia). rewrite uwrap_small in Hs by lia.
    injection Hs as <-. rewrite (Z.add_comm (b mod 64) 1). eexists. split; [done|]. cbv iota. lia.
  - destruct (Hrd 1) as (b1 & H1 & Hb1); [lia..|]. rewrite (len12 _ _ _ Hb H1) in *. cbn [mbind option_bind] in *.
    assert (0 <= b mod 16 < 16) by (apply Z.mod_pos_bound; lia). unfold is_byte in *.
    rewrite uwrap_small in Hs by lia. injection Hs as <-. rewrite (Z.add_comm (b1 + _) 2).
    eexists. split; [done|]. cbv iota. lia.
  - destruct (Hrd 1) as (b1 & H1 & Hb1); [lia..|]. destruct (Hrd 2) as (b2 & H2 & Hb2); [lia..|].
    destruct (Hrd 3) as (b3 & H3 & Hb3); [lia..|]. destruct (Hrd 4) as (b4 & H4 & Hb4); [lia..|].
    rewrite (len32 _ _ _ _ _ H1 H2 H3 H4) in *. cbn [mbind option_bind] in *. unfold is_byte in *.
    set (v := b1 + b2 * 2 ^ 8 + b3 * 2 ^ 16 + b4 * 2 ^ 24) in *. injection Hs as Hs.
    assert (Hsv : 5 + v = sz).
    { destruct (Z.ltb_spec (5 + v) (2 ^ 32)); [rewrite uwrap_small in Hs; lia|].
      unfold uwrap in Hs. rewrite <- (Z.mod_unique (5 + v) (2 ^ 32) 1 (5 + v - 2 ^ 32)) in Hs; lia. }
    rewrite (Z.add_comm v 5), Hsv. eexists. split; [done|]. cbv iota. lia.
Qed.

(** *** Walking over the entries *)

Definition step (p q : Z) : Prop := lpValidateNext lp (Some p) lpbytes = Some (true, Some q).

(** The positions [ps] of entries, one after the other, from [p] to [e]. *)
Inductive linked : Z -> list Z -> Z -> Prop :=
| linked_nil e : linked e [] e
| linked_cons p q ps e : step p q -> linked q ps e -> linked p (p :: ps) e.

Lemma step_inv p q :
  step p q -> 6 <= p < q /\ q < lpbytes /\
  lpSkip lp p = Some q /\ lpDecodeBacklen lp (q - 1) <> None /\
  (exists v, lpGetWithSize lp p 0 = Some (v, q - p) /\
     match v with LpInt _ => True | LpStr off len => p < off /\ 0 <= len /\ off + len < q end) /\
  exists sz, lpDecodeBacklen lp (q - 1) = Some sz /\ 0 <= sz < 2 ^ 32 /\ q = p + (sz + lpBacklenSize sz).
Proof.
  unfold step. intros Hst. destruct (validate_next (Some p)) as (r & Hr & Hinv). rewrite Hst in Hr.
  injection Hr as <-. destruct Hinv as (p' & b & n & sz & [= <-] & Hp & Hq & Hb & Hne & Hn & Hnsz & Hsz & Hu & Hqe & Hd).
  pose proof (backlen_size sz). split; [lia|]. split; [done|].
  split. { unfold lpSkip. rewrite Hu. cbn [mbind option_bind]. by rewrite Hqe. }
  split; [by rewrite Hd|]. split; [|exists sz; split_and!; (done || lia)].
  destruct (get_in p b n sz 0) as (v & -> & Hv); [done..|lia|lia|done|]. exists v.
  split; [do 2 f_equal; lia|]. destruct v; [done|]. lia.
Qed.

Lemma step_lt p q : step p q -> 6 <= p < q /\ q < lpbytes.
Proof. intros Hs. apply step_inv in Hs. tauto. Qed.

(** The loop of [lpValidateIntegrity] returns, and what it accepts is linked. *)
Lemma integrity_loop numele cb fuel : forall p count,
  6 <= p < lpbytes -> lpbytes - p <= Z.of_nat fuel ->
  exists r, lpValidateIntegrity_loop fuel lp lpbytes numele cb (Some p) count = Some r /\
  match r with
  | None => True
  | Some (pp, c) => exists e ps, pp = Some e /\ linked p ps e /\ rd1 lp e = Some LP_EOF /\
      6 <= e < lpbytes /\ (0 <= count < 2 ^ 32 -> c = u32 (count + Zlen ps))
  end.
Proof.
  induction fuel as [|fuel IH]; intros p count Hp Hf; [lia|]. cbn [lpValidateIntegrity_loop].
  destruct (rd1_in p) as (b & Hb & Hbyte); [lia|]. rewrite Hb. cbn [mbind option_bind].
  destruct (Z.eqb_spec b LP_EOF) as [->|Hne].
  { eexists. split; [done|]. exists p, []. split; [done|]. split; [constructor|]. split; [done|]. split; [done|].
    intros Hc. cbn [length]. rewrite uwrap_small; lia. }
  destruct (validate_next (Some p)) as ([ok pp] & Hv & Hinv). rewrite Hv. cbn [mbind option_bind].
  destruct ok; cbn [negb]; [|by eexists].
  destruct pp as [q|]; [|exfalso; destruct Hinv as (p' & [= <-] & _ & Hb'); congruence].
  assert (Hst : step p q) by exact Hv. pose proof (step_lt _ _ Hst) as [Hlt Hq].
  destruct (match cb with Some cb => _ | None => _ end); [by eexists|].
  destruct (IH q (u32 (count + 1))) as (r & -> & Hr); [lia|lia|]. exists r. split; [done|].
  destruct r as [[pp c]|]; [|done]. destruct Hr as (e & ps & -> & Hl & He & Her & Hc).
  exists e, (p :: ps). split; [done|]. split; [by econstructor|]. split; [done|]. split; [done|].
  intros Hcount. rewrite Hc by (apply Z.mod_pos_bound; lia). unfold uwrap.
  rewrite Zplus_mod_idemp_l. f_equal. cbn [length]. lia.
Qed.

(** Traversal of linked positions with the code's functions. *)
Context (Htotal : lpGetTotalBytes lp = Some lpbytes).

Lemma step_assert p q : step p q -> lpAssertValidEntry lp lpbytes p = Some tt.
Proof. intros Hs. unfold lpAssertValidEntry. by rewrite Hs. Qed.

Lemma step_prev p q : step p q -> lpPrev lp q = Some (Some p).
Proof.
  intros Hs. pose proof (step_inv _ _ Hs) as (Hlt & Hq & _ & _ & _ & sz & Hd & Hsz & Hqe).
  unfold lpPrev. rewrite (proj2 (Z.eqb_neq _ _)) by lia. rewrite Hd. cbn [mbind option_bind].
  pose proof (backlen_size sz). rewrite uwrap_small by lia.
  replace (q - 1 - (sz + lpBacklenSize sz - 1)) with p by lia.
  unfold lpBytes. rewrite Htotal. cbn [mbind option_bind]. by rewrite (step_assert p q Hs).
Qed.

Lemma step_next p q ps e :
  step p q -> linked q ps e -> rd1 lp e = Some LP_EOF ->
  (forall x, x ∈ ps -> rd1 lp x <> Some LP_EOF) ->
  lpNext lp p = Some (match ps with [] => None | _ => Some q end).
Proof.
  intros Hs Hl He Hps. pose proof (step_inv _ _ Hs) as (Hlt & Hq & Hskip & _).
  unfold lpNext. rewrite Hskip. cbn [mbind option_bind].
  destruct Hl as [e|q r ps e Hs' Hl]; [by rewrite He|].
  destruct (rd1_in q) as (b & Hb & _); [lia|]. rewrite Hb. cbn [mbind option_bind].
  rewrite (proj2 (Z.eqb_neq _ _)) by (intros ->; apply (Hps q); [by left|done]).
  unfold lpBytes. rewrite Htotal. cbn [mbind option_bind]. by rewrite (step_assert _ _ Hs').
Qed.

Lemma linked_not_eof p ps e : linked p ps e -> forall x, x ∈ ps -> rd1 lp x <> Some LP_EOF.
Proof.
  induction 1 as [e|p q ps e Hs Hl IH]; intros x Hx; [by apply not_elem_of_nil in Hx|].
  apply elem_of_cons in Hx as [->|Hx]; [|by apply IH]. intros Hb.
  destruct (validate_next (Some p)) as (r & Hr & Hinv). rewrite Hs in Hr. injection Hr as <-.
  destruct Hinv as (p' & b & n & sz & [= <-] & _ & _ & Hb' & Hne & _). rewrite Hb in Hb'.
  injection Hb' as <-. done.
Qed.

(** Every position of the walk: the entry is read inside its bounds, the next
    and the previous position are found. *)
Lemma linked_walk p ps e :
  linked p ps e -> rd1 lp e = Some LP_EOF ->
  (ps ++ [e]) !! 0%nat = Some p /\
  forall i x, ps !! i = Some x -> exists y, (ps ++ [e]) !! (S i) = Some y /\ x < y < lpbytes /\
    lpNext lp x = Some (if (S i <? length ps)%nat then Some y else None) /\
    lpPrev lp y = Some (Some x) /\
    exists v, lpGetWithSize lp x 0 = Some (v, y - x) /\
      match v with LpInt _ => True | LpStr off len => x < off /\ 0 <= len /\ off + len < y end.
Proof.
  intros Hl He. pose proof (linked_not_eof _ _ _ Hl) as Hne.
  induction Hl as [e|p q ps e Hs Hl IH]; [done|]. split; [done|].
  destruct (IH He) as [Hq0 Hwalk]; [intros; apply Hne; by right|]. clear IH.
  intros [|i] x Hx; cbn in Hx.
  - injection Hx as <-. exists q. split; [done|].
    pose proof (step_inv _ _ Hs) as (Hlt & Hq & _ & _ & Hget & _). split; [lia|].
    split; [|split; [by apply step_prev|done]].
    rewrite (step_next p q ps e Hs Hl He) by (intros; apply Hne; by right). by destruct ps.
  - by apply Hwalk.
Qed.

End Bytes.

Lemma total_in lp :
  bytes_ok lp -> 4 <= Zlen lp -> exists t, lpGetTotalBytes lp = Some t /\ 0 <= t < 2 ^ 32.
Proof.
  intros Hok Hl. unfold lpGetTotalBytes.
  destruct (rd1_in lp Hok 0) as (b0 & -> & H0); [lia|]. destruct (rd1_in lp Hok 1) as (b1 & -> & H1); [lia|].
  destruct (rd1_in lp Hok 2) as (b2 & -> & H2); [lia|]. destruct (rd1_in lp Hok 3) as (b3 & -> & H3); [lia|].
  eexists. split; [done|]. rewrite Z.shiftl_0_r. le_or. unfold is_byte in *. lia.
Qed.

Lemma num_in lp : bytes_ok lp -> 6 <= Zlen lp -> exists t, lpGetNumElements lp = Some t.
Proof.
  intros Hok Hl. unfold lpGetNumElements.
  destruct (rd1_in lp Hok 4) as (b0 & -> & _); [lia|]. destruct (rd1_in lp Hok 5) as (b1 & -> & _); [lia|].
  by eexists.
Qed.

Lemma linked_length lp lpbytes (Hok : bytes_ok lp) (Hs : lpbytes <= Zlen lp) p ps e :
  linked lp lpbytes p ps e -> p + Zlen ps <= e.
Proof.
  induction 1 as [e|p q ps e Hst Hl IH]; [cbn [length]; lia|].
  pose proof (step_lt lp lpbytes Hok Hs _ _ Hst). cbn [length]. lia.
Qed.

Lemma walk_repr lp es (Hlp : repr lp es) numele cb fuel : forall es1 es2 count,
  es = es1 ++ es2 -> (length es2 < fuel)%nat -> 0 <= count -> count + Zlen es2 < 2 ^ 32 ->
  (forall e1 e2, es = e1 ++ e2 -> cb (pos e1) numele = true) ->
  lpValidateIntegrity_loop fuel lp (pos es + 1) numele (Some cb) (Some (pos es1)) count =
  Some (Some (Some (pos es), count + Zlen es2)).
Proof.
  induction fuel as [|fuel IH]; intros es1 es2 count Heq Hf H0 Hc Hcb; [lia|].
  cbn [lpValidateIntegrity_loop]. destruct es2 as [|e es2].
  - rewrite app_nil_r in Heq. rewrite <- Heq, (at_end _ _ Hlp). cbn [mbind option_bind length].
    rewrite Z.eqb_refl. do 3 f_equal. lia.
  - destruct (entry_first _ _ Hlp _ _ _ Heq) as (b & -> & Hb). cbn [mbind option_bind]. rewrite Hb.
    rewrite (validate_spec _ _ Hlp _ _ _ Heq). cbn [mbind option_bind negb].
    rewrite (Hcb _ _ Heq). cbn [negb]. cbn [length] in *. rewrite uwrap_small by lia.
    rewrite (IH (es1 ++ [e]) es2) by (done || lia || by rewrite <- app_assoc). do 3 f_equal. lia.
Qed.

(** ** Theorems *)

(** C28: [lpValidateIntegrity] on arbitrary bytes terminates without reading
    outside the buffer, whatever the callback answers; when a deep check
    accepts, the listpack can be walked in both directions: every entry is
    read inside its bounds, [lpNext] and [lpPrev] find the neighbours, the
    last entry ends at the end marker, and the header's count is right. *)
Theorem lpValidateIntegrity_safe lp size deep cb :
  bytes_ok lp -> size <= Zlen lp ->
  exists ok, lpValidateIntegrity lp size deep cb = Some ok /\
  (ok = true -> deep = true -> exists ps num,
     lpGetTotalBytes lp = Some size /\ rd1 lp (size - 1) = Some LP_EOF /\
     lpGetNumElements lp = Some num /\ (num = Zlen ps \/ num = LP_HDR_NUMELE_UNKNOWN) /\
     (ps ++ [size - 1]) !! 0%nat = Some LP_HDR_SIZE /\
     forall i x, ps !! i = Some x -> exists y, (ps ++ [size - 1]) !! (S i) = Some y /\ x < y < size /\
       lpNext lp x = Some (if (S i <? length ps)%nat then Some y else None) /\
       lpPrev lp y = Some (Some x) /\
       exists v, lpGetWithSize lp x 0 = Some (v, y - x) /\
         match v with LpInt _ => True | LpStr off len => x < off /\ 0 <= len /\ off + len < y end).
Proof.
  intros Hok Hs. unfold lpValidateIntegrity.
  destruct (Z.ltb_spec size (LP_HDR_SIZE + 1)); [by eexists|].
  destruct (total_in lp Hok) as (t & Ht & Htr); [lia|]. rewrite Ht. cbn [mbind option_bind].
  destruct (Z.eqb_spec t size) as [->|]; [|by eexists]. cbn [negb].
  destruct (rd1_in lp Hok (size - 1)) as (b & Hb & _); [lia|]. rewrite Hb. cbn [mbind option_bind].
  destruct (Z.eqb_spec b LP_EOF) as [->|]; [|by eexists]. cbn [negb].
  destruct deep; cbn [negb]; [|by eexists].
  destruct (num_in lp Hok) as (num & Hnum); [lia|]. rewrite Hnum. cbn [mbind option_bind].
  destruct (integrity_loop lp size Hok Hs num cb (S (length lp)) 6 0) as (r & -> & Hr); [lia..|].
  cbn [mbind option_bind]. destruct r as [[pp c]|]; [|by eexists].
  destruct Hr as (e & ps & -> & Hl & He & Her & Hc). case_bool_decide as Hpp; cbn [negb]; [|by eexists].
  injection Hpp as ->. rewrite Hc by lia.
  destruct (negb (num =? 65535) && negb (num =? u32 (0 + Zlen ps))) eqn:En; [by eexists|].
  eexists. split; [done|]. intros _ _. exists ps, num. pose proof (linked_length lp size Hok Hs _ _ _ Hl).
  rewrite uwrap_small in En by lia.
  destruct (linked_walk lp size Hok Hs Ht 6 ps (size - 1) Hl He) as [Hhead Hwalk].
  split_and!; try done. lia.
Qed.

(** [lpValidateIntegrity] accepts every listpack the operations build, if
    the callback accepts the entries. *)
Theorem lpValidateIntegrity_accepts lp es deep cb :
  repr lp es -> (forall es1 es2 num, es = es1 ++ es2 -> cb (pos es1) num = true) ->
  lpValidateIntegrity lp (pos es + 1) deep (Some cb) = Some true.
Proof.
  intros Hlp Hcb. pose proof (pos_ge es). unfold lpValidateIntegrity.
  rewrite (proj2 (Z.ltb_ge _ _)) by lia. rewrite (total_eq _ _ Hlp). cbn [mbind option_bind].
  rewrite Z.eqb_refl, Z.add_simpl_r, (at_end _ _ Hlp). cbn [mbind option_bind negb].
  rewrite Z.eqb_refl. cbn [negb]. destruct deep; [|done]. cbn [negb].
  destruct (num_spec _ _ Hlp) as (num & -> & Hr & Hc). cbn [mbind option_bind].
  pose proof (length_bound _ _ Hlp) as [Hl1 Hl2].
  pose proof (walk_repr lp es Hlp num cb (S (length lp)) [] es 0 eq_refl ltac:(lia) ltac:(lia) ltac:(lia)) as Hw.
  change (pos []) with LP_HDR_SIZE in Hw. rewrite Hw by eauto.
  cbn [mbind option_bind]. rewrite bool_decide_true by done. cbn [negb].
  destruct Hc as [-> | ->]; [|done]. by rewrite Z.add_0_l, Z.eqb_refl, andb_false_r.
Qed.

Definition lp1 : list Z := [13; 0; 0; 0; 2; 0; 130; 97; 98; 3; 7; 1; 255].

Lemma lpValidateIntegrity_safe_witness :
  exists ok, lpValidateIntegrity lp1 13 true None = Some ok /\
  (ok = true -> true = true -> exists ps num,
     lpGetTotalBytes lp1 = Some 13 /\ rd1 lp1 12 = Some LP_EOF /\
     lpGetNumElements lp1 = Some num /\ (num = Zlen ps \/ num = LP_HDR_NUMELE_UNKNOWN) /\
     (ps ++ [12]) !! 0%nat = Some 6 /\
     forall i x, ps !! i = Some x -> exists y, (ps ++ [12]) !! (S i) = Some y /\ x < y < 13 /\
       lpNext lp1 x = Some (if (S i <? length ps)%nat then Some y else None) /\
       lpPrev lp1 y = Some (Some x) /\
       exists v, lpGetWithSize lp1 x 0 = Some (v, y - x) /\
         match v with LpInt _ => True | LpStr off len => x < off /\ 0 <= len /\ off + len < y end).
Proof. apply (lpValidateIntegrity_safe lp1 13 true None); [by_compute|done]. Defined.

Lemma lpValidateIntegrity_accepts_witness :
  lpValidateIntegrity lp1 13 true (Some (fun _ _ => true)) = Some true.
Proof.
  apply (lpValidateIntegrity_accepts lp1 [EStr [97; 98]; EInt 7] true (fun _ _ => true)); [|done].
  split; [repeat constructor; cbn; lia|]. split; [done|]. exists 2, [].
  split; [by split; [|left]|done].
Defined.

End LpCheck.
