(* ===== verification/Lzf.v ===== *)
(** * LZF compression (src/redis-7.2.4/src/lzf_c.c, lzf_d.c, lzfP.h)

    The compressor and the decompressor with the configuration of lzfP.h:
    [HLOG] 16, [VERY_FAST], [CHECK_INPUT], pointers in the hash table and no
    initialisation of it ([INIT_HTAB] 0), so the initial table is arbitrary.
    The input and the output are byte buffers; [ip] and [op] are offsets, and
    an entry of the hash table is an address, the input being at the address
    [in_data].  [None] is an access outside a buffer. *)

From stdpp Require Import functions.
From S2P Require Import Prelude.

Module Lzf.

Definition HLOG : Z := 16.
Definition HSIZE : Z := Z.shiftl 1 HLOG.
Definition MAX_LIT : Z := Z.shiftl 1 5.
Definition MAX_OFF : Z := Z.shiftl 1 13.
Definition MAX_REF : Z := Z.shiftl 1 8 + Z.shiftl 1 3.

Definition FRST (inp : list Z) (p : Z) : option Z :=
  p0 ← rd1 inp p; p1 ← rd1 inp (p + 1); Some (Z.lor (Z.shiftl p0 8) p1).

Definition NEXT (v : Z) (inp : list Z) (p : Z) : option Z :=
  p2 ← rd1 inp (p + 2); Some (u32 (Z.lor (Z.shiftl v 8) p2)).

Definition IDX (h : Z) : Z :=
  Z.land (u32 (Z.shiftr h (3 * 8 - HLOG) - u32 (h * 5))) (HSIZE - 1).

(** ** The compressor *)

Section Compress.
Context (in_data : Z) (inp : list Z).

Definition in_end : Z := Zlen inp.

(** The sixteen unrolled steps that extend a match: the new length and
    whether a mismatch ended the search. *)
Fixpoint match_unrolled (n : nat) (ref ip len : Z) : option (Z * bool) :=
  match n with
  | O => Some (len, false)
  | S n' =>
      let len := len + 1 in
      r ← rd1 inp (ref + len); i ← rd1 inp (ip + len);
      if negb (r =? i) then Some (len, true) else match_unrolled n' ref ip len
  end.

(** The [do ... while] after them. *)
Fixpoint match_loop (fuel : nat) (ref ip len maxlen : Z) : option Z :=
  match fuel with
  | O => None
  | S fuel' =>
      let len := len + 1 in
      if len <? maxlen then
        r ← rd1 inp (ref + len); i ← rd1 inp (ip + len);
        if r =? i then match_loop fuel' ref ip len maxlen else Some len
      else Some len
  end.

Definition match_len (ref ip : Z) : option Z :=
  let len := 2 in
  let maxlen := in_end - ip - len in
  let maxlen := if MAX_REF <? maxlen then MAX_REF else maxlen in
  if 16 <? maxlen then
    '(len, stop) ← match_unrolled 16 ref ip len;
    if (stop : bool) then Some len else match_loop (length inp) ref ip len maxlen
  else match_loop (length inp) ref ip len maxlen.

(** The variables of the main loop. *)
Record lzf := { ip : Z; op : Z; lit : Z; hval : Z; htab : Z -> Z; out : list Z }.

(** [op[-lit-1] = lit - 1]. *)
Definition stop_run (out : list Z) (op lit : Z) : option (list Z) :=
  wr1 out (op - lit - 1) (u8 (lit - 1)).

Definition b2z (b : bool) : Z := if b then 1 else 0.

(** The back reference of [off] and [len]: the bytes [*op++ = ...]. *)
Definition ref_bytes (off len : Z) : list Z :=
  (if len <? 7 then [u8 (Z.shiftr off 8 + Z.shiftl len 5)]
   else [u8 (Z.shiftr off 8 + Z.shiftl 7 5); u8 (len - 7)]) ++ [u8 off].

(** The step for a literal byte; [inl] is [return 0] with the output so far. *)
Definition lit_step (out_end : Z) (s : lzf) : option (list Z + lzf) :=
  if out_end <=? op s then Some (inl (out s))
  else
    b ← rd1 inp (ip s);
    out ← wr1 (out s) (op s) b;
    let s := {| ip := ip s + 1; op := op s + 1; lit := lit s + 1; hval := hval s;
                htab := htab s; out := out |} in
    if lit s =? MAX_LIT then
      out ← stop_run out (op s) (lit s);
      Some (inr {| ip := ip s; op := op s + 1; lit := 0; hval := hval s; htab := htab s; out := out |})
    else Some (inr s).

(** The step for a match at [ref]; the boolean says that the loop is left. *)
Definition match_step (out_end : Z) (s : lzf) (ref off : Z) : option (list Z + lzf * bool) :=
  if (out_end <=? op s + 3 + 1) && (out_end <=? op s - b2z (lit s =? 0) + 3 + 1) then Some (inl (out s))
  else
    out ← stop_run (out s) (op s) (lit s);
    let op := op s - b2z (lit s =? 0) in
    len ← match_len ref (ip s);
    let len := len - 2 in
    let ip := ip s + 1 in
    let bs := ref_bytes off len in
    out ← wr out op bs;
    let op := op + Zlen bs in
    let op := op + 1 in
    let ip := ip + (len + 1) in
    if in_end - 2 <=? ip then
      Some (inr ({| ip := ip; op := op; lit := 0; hval := hval s; htab := htab s; out := out |}, true))
    else
      let ip := ip - 1 in
      let ip := ip - 1 in
      hval ← FRST inp ip;
      hval ← NEXT hval inp ip;
      let htab := <[IDX hval := in_data + ip]> (htab s) in
      let ip := ip + 1 in
      hval ← NEXT hval inp ip;
      let htab := <[IDX hval := in_data + ip]> htab in
      let ip := ip + 1 in
      Some (inr ({| ip := ip; op := op; lit := 0; hval := hval; htab := htab; out := out |}, false)).

(** The condition of the match, [ref] being an address. *)
Definition is_match (ref : Z) (ip : Z) : option bool :=
  let off := u64 (in_data + ip - ref - 1) in
  if negb (off <? MAX_OFF) then Some false
  else if negb (in_data <? ref) then Some false
  else
    let r := ref - in_data in
    r2 ← rd1 inp (r + 2); i2 ← rd1 inp (ip + 2);
    if negb (r2 =? i2) then Some false
    else
      r1 ← rd1 inp (r + 1); r0 ← rd1 inp r; i1 ← rd1 inp (ip + 1); i0 ← rd1 inp ip;
      Some (Z.lor (Z.shiftl r1 8) r0 =? Z.lor (Z.shiftl i1 8) i0).

Fixpoint compress_loop (fuel : nat) (out_end : Z) (s : lzf) : option (list Z + lzf) :=
  match fuel with
  | O => None
  | S fuel' =>
      if in_end - 2 <=? ip s then Some (inr s)
      else
        hval ← NEXT (hval s) inp (ip s);
        let hslot := IDX hval in
        let ref := htab s hslot in
        let s := {| ip := ip s; op := op s; lit := lit s; hval := hval;
                    htab := <[hslot := in_data + ip s]> (htab s); out := out s |} in
        m ← is_match ref (ip s);
        if (m : bool) then
          r ← match_step out_end s (ref - in_data) (u64 (in_data + ip s - ref - 1));
          match r with
          | inl out => Some (inl out)
          | inr (s, true) => Some (inr s)
          | inr (s, false) => compress_loop fuel' out_end s
          end
        else
          r ← lit_step out_end s;
          match r with
          | inl out => Some (inl out)
          | inr s => compress_loop fuel' out_end s
          end
  end.

(** The last bytes. *)
Fixpoint tail_loop (fuel : nat) (s : lzf) : option lzf :=
  match fuel with
  | O => None
  | S fuel' =>
      if in_end <=? ip s then Some s
      else
        b ← rd1 inp (ip s);
        out ← wr1 (out s) (op s) b;
        let s := {| ip := ip s + 1; op := op s + 1; lit := lit s + 1; hval := hval s;
                    htab := htab s; out := out |} in
        if lit s =? MAX_LIT then
          out ← stop_run out (op s) (lit s);
          tail_loop fuel' {| ip := ip s; op := op s + 1; lit := 0; hval := hval s;
                             htab := htab s; out := out |}
        else tail_loop fuel' s
  end.

(** The return value and the output buffer; [htab0] is the contents of the
    uninitialised table. *)
Definition lzf_compress (htab0 : Z -> Z) (out_data : list Z) : option (Z * list Z) :=
  let out_len := Zlen out_data in
  if (Zlen inp =? 0) || (out_len =? 0) then Some (0, out_data)
  else
    hval ← FRST inp 0;
    r ← compress_loop (S (length inp)) out_len
          {| ip := 0; op := 1; lit := 0; hval := hval; htab := htab0; out := out_data |};
    match r with
    | inl out => Some (0, out)
    | inr s =>
        if out_len <? op s + 3 then Some (0, out s)
        else
          s ← tail_loop (S (length inp)) s;
          out ← stop_run (out s) (op s) (lit s);
          Some (op s - b2z (lit s =? 0), out)
    end.

End Compress.

(** ** The decompressor *)

Inductive errno := E2BIG | EINVAL.

(** [*op++ = *ref++], [n] times, inside the output. *)
Fixpoint copy_octets (n : nat) (out : list Z) (op ref : Z) : option (list Z) :=
  match n with
  | O => Some out
  | S n' => b ← rd1 out ref; out ← wr1 out op b; copy_octets n' out (op + 1) (ref + 1)
  end.

(** [*op++ = *ip++], [n] times, from the input. *)
Fixpoint copy_literals (n : nat) (inp out : list Z) (ip op : Z) : option (list Z) :=
  match n with
  | O => Some out
  | S n' => b ← rd1 inp ip; out ← wr1 out op b; copy_literals n' inp out (ip + 1) (op + 1)
  end.

(** The copy of a back reference of length code [len]. *)
Definition copy_ref (out : list Z) (op ref len : Z) : option (list Z) :=
  if 9 <? len then
    let len := len + 2 in
    if ref + len <=? op then bs ← rd out ref len; wr out op bs
    else copy_octets (Z.to_nat len) out op ref
  else copy_octets (Z.to_nat (len + 2)) out op ref.

(** The return value or the error, and the output. *)
Fixpoint decompress_loop (fuel : nat) (inp out : list Z) (ip op : Z) :
    option ((Z + errno) * list Z) :=
  match fuel with
  | O => None
  | S fuel' =>
      let in_end := Zlen inp in
      let out_end := Zlen out in
      if in_end <=? ip then Some (inl op, out)
      else
        ctrl ← rd1 inp ip;
        let ip := ip + 1 in
        if ctrl <? Z.shiftl 1 5 then
          let ctrl := ctrl + 1 in
          if out_end <? op + ctrl then Some (inr E2BIG, out)
          else if in_end <? ip + ctrl then Some (inr EINVAL, out)
          else
            out ← copy_literals (Z.to_nat ctrl) inp out ip op;
            decompress_loop fuel' inp out (ip + ctrl) (op + ctrl)
        else
          let len := Z.shiftr ctrl 5 in
          let ref := op - Z.shiftl (Z.land ctrl 0x1f) 8 - 1 in
          if in_end <=? ip then Some (inr EINVAL, out)
          else
            '(len, ip, bad) ← (if len =? 7 then
                                 b ← rd1 inp ip;
                                 Some (len + b, ip + 1, in_end <=? ip + 1)
                               else Some (len, ip, false));
            if (bad : bool) then Some (inr EINVAL, out)
            else
              b ← rd1 inp ip;
              let ref := ref - b in
              let ip := ip + 1 in
              if out_end <? op + len + 2 then Some (inr E2BIG, out)
              else if ref <? 0 then Some (inr EINVAL, out)
              else
                out ← copy_ref out op ref len;
                decompress_loop fuel' inp out ip (op + (len + 2))
  end.

(** The return value, [errno] if it is set, and the output. *)
Definition lzf_decompress (inp out_data : list Z) : option (Z * option errno * list Z) :=
  '(r, out) ← decompress_loop (S (length inp)) inp out_data 0 0;
  Some (match r with inl n => (n, None, out) | inr e => (0, Some e, out) end).

(** ** The format *)

(** [l] extended by [n] octets copied from position [ref] on, one by one. *)
Fixpoint ext (n : nat) (l : list Z) (ref : nat) : list Z :=
  match n with O => l | S n => ext n (l ++ [nth ref l 0]) (S ref) end.

(** [stream s o o']: decompressing [s] after the output [o] gives [o']. *)
Inductive stream : list Z -> list Z -> list Z -> Prop :=
| stream_nil o : stream [] o o
| stream_lit bs s o o' :
    1 <= Zlen bs <= 32 -> stream s (o ++ bs) o' -> stream ((Zlen bs - 1) :: bs ++ s) o o'
| stream_ref off len s o o' :
    0 <= off < 8192 -> off < Zlen o -> 1 <= len <= 262 ->
    stream s (ext (Z.to_nat (len + 2)) o (Z.to_nat (Zlen o - off - 1))) o' ->
    stream (ref_bytes off len ++ s) o o'.

Lemma stream_app s1 s2 o1 o2 o3 : stream s1 o1 o2 -> stream s2 o2 o3 -> stream (s1 ++ s2) o1 o3.
Proof.
  induction 1 as [o|bs s o o' Hb Hs IH|off len s o o' Ho Ho' Hl Hs IH]; intros H2; [done| |].
  - cbn. rewrite <- app_assoc. constructor; auto.
  - rewrite <- app_assoc. constructor; auto.
Qed.

Lemma ext_length n : forall l ref, length (ext n l ref) = (length l + n)%nat.
Proof. induction n; intros; cbn; [lia|]. rewrite IHn, length_app. cbn. lia. Qed.

Lemma ext_prefix n : forall l ref, exists bs, ext n l ref = l ++ bs /\ length bs = n.
Proof.
  induction n as [|n IH]; intros l ref; cbn; [by exists []; rewrite app_nil_r|].
  destruct (IH (l ++ [nth ref l 0]) (S ref)) as (bs & -> & Hb). exists (nth ref l 0 :: bs).
  rewrite <- app_assoc. cbn. auto.
Qed.

Lemma stream_prefix s o o' : stream s o o' -> exists x, o' = o ++ x.
Proof.
  induction 1 as [o|bs s o o' Hb Hs [x ->]|off len s o o' Ho Ho' Hl Hs [x ->]].
  - exists []. by rewrite app_nil_r.
  - exists (bs ++ x). by rewrite app_assoc.
  - destruct (ext_prefix (Z.to_nat (len + 2)) o (Z.to_nat (Zlen o - off - 1))) as (bs & -> & _).
    exists (bs ++ x). by rewrite app_assoc.
Qed.

(** Copying a match: the octets are the ones of the list itself. *)
Lemma ext_self n : forall l m ref,
  length m = n -> (ref < length l)%nat ->
  (forall i, (i < n)%nat -> (l ++ m) !! (ref + i)%nat = m !! i) -> ext n l ref = l ++ m.
Proof.
  induction n as [|n IH]; intros l m ref Hm Hr Hself.
  - destruct m; [|done]. by rewrite app_nil_r.
  - destruct m as [|x m]; [done|]. cbn in Hm. injection Hm as Hm. cbn [ext].
    assert (nth ref l 0 = x) as ->.
    { pose proof (Hself 0%nat ltac:(lia)) as H0. rewrite Nat.add_0_r, lookup_app_l in H0 by done.
      cbn in H0. by apply nth_lookup_Some with (d := 0) in H0. }
    rewrite (IH (l ++ [x]) m (S ref)); [by rewrite <- app_assoc|done|rewrite length_app; cbn; lia|].
    intros i Hi. rewrite <- app_assoc. cbn [app]. pose proof (Hself (S i) ltac:(lia)) as HS.
    rewrite Nat.add_succ_r in HS. by rewrite Nat.add_succ_l.
Qed.

(** ** The decompressor reads the format *)

Lemma copy_octets_ext n : forall l rest ref,
  (ref < length l)%nat -> (n <= length rest)%nat ->
  copy_octets n (l ++ rest) (Zlen l) (Z.of_nat ref) = Some (ext n l ref ++ drop n rest).
Proof.
  induction n as [|n IH]; intros l rest ref Hr Hn; [done|]. cbn [copy_octets ext].
  unfold rd1. rewrite (proj2 (Z.leb_le _ _)), Nat2Z.id, lookup_app_l by lia.
  destruct (lookup_lt_is_Some_2 l ref Hr) as [x Hx]. rewrite Hx. cbn [mbind option_bind].
  rewrite (nth_lookup_Some _ _ 0 _ Hx). destruct rest as [|y rest]; [cbn in Hn; lia|].
  rewrite wr1_app by done. cbn [mbind option_bind]. cbn in Hn.
  specialize (IH (l ++ [x]) rest (S ref)). rewrite <- app_assoc in IH. cbn [app] in IH.
  replace (Zlen l + 1) with (Zlen (l ++ [x])) by (rewrite Zlen_app; cbn; lia).
  replace (Z.of_nat ref + 1) with (Z.of_nat (S ref)) by lia.
  rewrite IH; [done|rewrite length_app; cbn; lia|lia].
Qed.

Lemma copy_literals_app bs : forall inp l rest pre post,
  inp = pre ++ bs ++ post -> (length bs <= length rest)%nat ->
  copy_literals (length bs) inp (l ++ rest) (Zlen pre) (Zlen l) = Some ((l ++ bs) ++ drop (length bs) rest).
Proof.
  induction bs as [|b bs IH]; intros inp l rest pre post -> Hn; [by cbn; rewrite app_nil_r|].
  cbn [copy_literals length app]. rewrite rd1_app by done. cbn [mbind option_bind].
  destruct rest as [|y rest]; [cbn in Hn; lia|]. rewrite wr1_app by done. cbn [mbind option_bind]. cbn in Hn.
  specialize (IH (pre ++ (b :: bs) ++ post) (l ++ [b]) rest (pre ++ [b]) post).
  rewrite <- !app_assoc, !Zlen_app in IH. cbn [app length] in IH.
  change (Z.of_nat 1) with 1 in IH. rewrite IH by (done || lia). by rewrite <- app_assoc.
Qed.

Lemma memcpy_ext n l ref :
  (0 < n)%nat -> (ref + n <= length l)%nat -> ext n l ref = l ++ take n (drop ref l).
Proof.
  intros Hn H. apply ext_self; [rewrite length_take, length_drop; lia|lia|].
  intros i Hi. rewrite lookup_app_l, lookup_take_lt, lookup_drop by lia. done.
Qed.

(** Each of the ways to copy a back reference. *)
Lemma copy_ref_ext l rest ref len :
  0 <= ref < Zlen l -> 0 <= len -> len + 2 <= Zlen rest ->
  copy_ref (l ++ rest) (Zlen l) ref len =
  Some (ext (Z.to_nat (len + 2)) l (Z.to_nat ref) ++ drop (Z.to_nat (len + 2)) rest).
Proof.
  intros Hr Hl Hn. unfold copy_ref. cbv zeta.
  assert (Hoct : copy_octets (Z.to_nat (len + 2)) (l ++ rest) (Zlen l) ref =
    Some (ext (Z.to_nat (len + 2)) l (Z.to_nat ref) ++ drop (Z.to_nat (len + 2)) rest)).
  { rewrite <- (Z2Nat.id ref) at 1 by lia. apply copy_octets_ext; lia. }
  destruct (9 <? len); [|done]. destruct (Z.leb_spec (ref + (len + 2)) (Zlen l)) as [Hd|]; [|done].
  rewrite memcpy_ext by lia. set (n := Z.to_nat (len + 2)) in *.
  assert (Hrd : rd (l ++ rest) ref (len + 2) = Some (take n (drop (Z.to_nat ref) l))).
  { unfold rd. rewrite (proj2 (andb_true_iff _ _)) by (rewrite Zlen_app; lia). fold n.
    rewrite drop_app_le, take_app_le by (rewrite ?length_drop; lia). done. }
  rewrite Hrd. cbn [mbind option_bind].
  rewrite <- (take_drop n rest) at 1. rewrite wr_app; [by rewrite <- app_assoc|done|].
  rewrite !length_take, length_drop. lia.
Qed.

Lemma ref_bytes_shape off len :
  0 <= off < 8192 -> 1 <= len <= 262 ->
  (len < 7 /\ ref_bytes off len = [off / 256 + len * 32; off mod 256]) \/
  (7 <= len /\ ref_bytes off len = [off / 256 + 224; len - 7; off mod 256]).
Proof.
  intros Ho Hl. unfold ref_bytes. rewrite !Z.shiftr_div_pow2, !Z.shiftl_mul_pow2 by lia.
  change (2 ^ 8) with 256. change (2 ^ 5) with 32.
  assert (0 <= off / 256 < 32) by (Z.div_mod_to_equations; lia).
  destruct (Z.ltb_spec len 7); [left|right]; (split; [done|]); cbn [app];
    rewrite !(uwrap_small 8) by lia; done.
Qed.

(** The control byte of a back reference. *)
Lemma ctrl_ref h len : 0 <= h < 32 -> 1 <= len <= 7 ->
  let ctrl := h + len * 32 in
  (ctrl <? Z.shiftl 1 5) = false /\ Z.shiftr ctrl 5 = len /\ Z.land ctrl 0x1f = h.
Proof.
  intros Hh Hl ctrl. split; [apply Z.ltb_ge; change (Z.shiftl 1 5) with 32; unfold ctrl; lia|].
  rewrite Z.shiftr_div_pow2 by lia. change 0x1f with (2 ^ 5 - 1). rewrite land_mask by lia.
  change (2 ^ 5) with 32. unfold ctrl. split; Z.div_mod_to_equations; lia.
Qed.

Lemma decompress_ref_step fuel inp p off len l rest :
  0 <= off < 8192 -> off < Zlen l -> 1 <= len <= 262 -> len + 2 <= Zlen rest ->
  at_ inp p (ref_bytes off len) ->
  decompress_loop (S fuel) inp (l ++ rest) p (Zlen l) =
  decompress_loop fuel inp
    (ext (Z.to_nat (len + 2)) l (Z.to_nat (Zlen l - off - 1)) ++ drop (Z.to_nat (len + 2)) rest)
    (p + Zlen (ref_bytes off len)) (Zlen l + (len + 2)).
Proof.
  intros Ho Hol Hl Hrest Hat. pose proof (at_bounds _ _ _ Hat) as Hb.
  assert (Hdm : off = off / 256 * 256 + off mod 256 /\ 0 <= off mod 256 < 256 /\ 0 <= off / 256 < 32)
    by (Z.div_mod_to_equations; lia).
  destruct Hdm as (Hoff & Hlo & Hhi).
  pose proof (copy_ref_ext l rest (Zlen l - off - 1) len ltac:(lia) ltac:(lia) Hrest) as Hcopy.
  assert (Hsub : Zlen l - Z.shiftl (off / 256) 8 - 1 - off mod 256 = Zlen l - off - 1)
    by (rewrite Z.shiftl_mul_pow2 by lia; lia).
  cbn [decompress_loop]. cbv zeta. rewrite Zlen_app.
  destruct (ref_bytes_shape off len Ho Hl) as [[Hlen Hbs]|[Hlen Hbs]]; rewrite Hbs in *; at_split Hat;
    cbn [length] in *; rewrite (proj2 (Z.leb_gt (Zlen inp) p)), Hr by lia; cbn [mbind option_bind].
  - destruct (ctrl_ref (off / 256) len) as (-> & -> & ->); [lia..|].
    rewrite (proj2 (Z.leb_gt _ _)), (proj2 (Z.eqb_neq _ _)) by lia. cbn [mbind option_bind].
    rewrite Hr0. cbn [mbind option_bind]. rewrite Hsub.
    rewrite !(proj2 (Z.ltb_ge _ _)) by lia. rewrite Hcopy. cbn [mbind option_bind]. f_equal; lia.
  - change 224 with (7 * 32). destruct (ctrl_ref (off / 256) 7) as (-> & -> & ->); [lia..|].
    rewrite (proj2 (Z.leb_gt _ _)) by lia. cbn [Z.eqb Pos.eqb]. rewrite Hr0. cbn [mbind option_bind].
    rewrite (proj2 (Z.leb_gt _ _)) by lia. replace (p + 1 + 1) with (p + 2) by lia.
    rewrite Hr1. cbn [mbind option_bind]. rewrite Hsub. replace (7 + (len - 7)) with len by lia.
    rewrite !(proj2 (Z.ltb_ge _ _)) by lia. rewrite Hcopy. cbn [mbind option_bind]. f_equal; lia.
Qed.

Lemma decompress_lit_step fuel inp p bs l rest :
  1 <= Zlen bs <= 32 -> Zlen bs <= Zlen rest -> at_ inp p ((Zlen bs - 1) :: bs) ->
  decompress_loop (S fuel) inp (l ++ rest) p (Zlen l) =
  decompress_loop fuel inp ((l ++ bs) ++ drop (length bs) rest) (p + 1 + Zlen bs) (Zlen l + Zlen bs).
Proof.
  intros Hn Hrest Hat. pose proof (at_bounds _ _ _ Hat) as Hb. cbn [length] in Hb.
  apply at_cons in Hat as [Hr (pre & post & Hinp & Hp)].
  cbn [decompress_loop]. cbv zeta. rewrite Zlen_app.
  rewrite (proj2 (Z.leb_gt _ _)), Hr by lia. cbn [mbind option_bind].
  change (Z.shiftl 1 5) with 32. rewrite (proj2 (Z.ltb_lt _ _)) by lia. rewrite Z.sub_add.
  rewrite !(proj2 (Z.ltb_ge _ _)) by lia. rewrite Nat2Z.id, Hp.
  rewrite (copy_literals_app bs inp l rest pre post Hinp) by lia. done.
Qed.

Lemma decompress_stream s o o' : stream s o o' -> forall fuel inp p rest,
  at_ inp p s -> p + Zlen s = Zlen inp -> Zlen o' <= Zlen o + Zlen rest -> (length s < fuel)%nat ->
  exists rest', decompress_loop fuel inp (o ++ rest) p (Zlen o) = Some (inl (Zlen o'), o' ++ rest') /\
    Zlen o' + Zlen rest' = Zlen o + Zlen rest.
Proof.
  induction 1 as [o|bs s o o' Hb Hs IH|off len s o o' Ho Ho' Hl Hs IH];
    intros fuel inp p rest Hat Hend Hsz Hf; (destruct fuel as [|fuel]; [lia|]).
  - cbn [decompress_loop]. cbv zeta. cbn [length] in *. rewrite (proj2 (Z.leb_le _ _)) by lia. by exists rest.
  - destruct (stream_prefix _ _ _ Hs) as [x ->]. rewrite !Zlen_app in Hsz.
    change ((Zlen bs - 1) :: bs ++ s) with (((Zlen bs - 1) :: bs) ++ s) in Hat, Hend, Hf.
    apply at_app in Hat as [Hat Hats]. rewrite (decompress_lit_step fuel inp p bs) by (done || lia).
    rewrite <- (Zlen_app o bs). rewrite Zlen_app in Hend. rewrite length_app in Hf. cbn [length] in Hf, Hend, Hats.
    destruct (IH fuel inp (p + 1 + Zlen bs) (drop (length bs) rest)) as (rest' & -> & Hr).
    + by replace (p + 1 + Zlen bs) with (p + Z.of_nat (S (length bs))) by lia.
    + lia.
    + rewrite !Zlen_app, length_drop. lia.
    + lia.
    + exists rest'. split; [done|]. rewrite !Zlen_app, length_drop in *. lia.
  - apply at_app in Hat as [Hat Hats]. rewrite Zlen_app in Hend. rewrite length_app in Hf.
    set (n := Z.to_nat (len + 2)) in *. set (r := Z.to_nat (Zlen o - off - 1)) in *.
    destruct (stream_prefix _ _ _ Hs) as [x Hx]. assert (Hxl := f_equal length Hx).
    rewrite length_app, ext_length in Hxl.
    rewrite (decompress_ref_step fuel inp p off len) by (done || lia). fold n r.
    destruct (ref_bytes_shape off len Ho Hl) as [[_ Hbs]|[_ Hbs]];
      (destruct (IH fuel inp (p + Zlen (ref_bytes off len)) (drop n rest)) as (rest' & Hd & Hr);
       [done|lia|rewrite ext_length, length_drop; lia|rewrite Hbs in Hf; cbn in Hf; lia|]);
      rewrite ext_length, length_drop in *;
      replace (Zlen o + (len + 2)) with (Z.of_nat (length o + n)) by lia; rewrite Hd; exists rest'; (split; [done|lia]).
Qed.

(** ** The decompressor on arbitrary input *)

Lemma copy_octets_total n : forall out op ref,
  0 <= ref -> 0 <= op -> ref < op -> op + Z.of_nat n <= Zlen out ->
  exists out', copy_octets n out op ref = Some out' /\ length out' = length out.
Proof.
  induction n as [|n IH]; intros out op ref Hr Ho Hro Hn; [by eexists|]. cbn [copy_octets].
  destruct (lookup_lt_is_Some_2 out (Z.to_nat ref)) as [b Hb]; [lia|].
  unfold rd1. rewrite (proj2 (Z.leb_le _ _)), Hb by lia. cbn [mbind option_bind].
  unfold wr1, wr. rewrite (proj2 (andb_true_iff _ _)) by (cbn [length]; lia). cbn [mbind option_bind].
  set (out1 := take _ out ++ _).
  assert (Hl : length out1 = length out)
    by (unfold out1; rewrite !length_app, length_take, length_drop; cbn [length]; lia).
  destruct (IH out1 (op + 1) (ref + 1)) as (out' & Hc & Hl'); [lia..|]. exists out'. split; [done|lia].
Qed.

Lemma copy_literals_total n : forall inp out ip op,
  0 <= ip -> ip + Z.of_nat n <= Zlen inp -> 0 <= op -> op + Z.of_nat n <= Zlen out ->
  exists out', copy_literals n inp out ip op = Some out' /\ length out' = length out.
Proof.
  induction n as [|n IH]; intros inp out ip op Hi Hin Ho Hn; [by eexists|]. cbn [copy_literals].
  destruct (lookup_lt_is_Some_2 inp (Z.to_nat ip)) as [b Hb]; [lia|].
  unfold rd1. rewrite (proj2 (Z.leb_le _ _)), Hb by lia. cbn [mbind option_bind].
  unfold wr1, wr. rewrite (proj2 (andb_true_iff _ _)) by (cbn [length]; lia). cbn [mbind option_bind].
  set (out1 := take _ out ++ _).
  assert (Hl : length out1 = length out)
    by (unfold out1; rewrite !length_app, length_take, length_drop; cbn [length]; lia).
  destruct (IH inp out1 (ip + 1) (op + 1)) as (out' & Hc & Hl'); [lia..|]. exists out'. split; [done|lia].
Qed.

Lemma copy_ref_total out op ref len :
  0 <= ref < op -> 0 <= len -> op + len + 2 <= Zlen out ->
  exists out', copy_ref out op ref len = Some out' /\ length out' = length out.
Proof.
  intros Hr Hl Hn. unfold copy_ref. cbv zeta. repeat case_match; try (apply copy_octets_total; lia).
  unfold rd. rewrite (proj2 (andb_true_iff _ _)) by lia. cbn [mbind option_bind]. unfold wr.
  rewrite length_take, length_drop, (proj2 (andb_true_iff _ _)) by lia. eexists. split; [done|].
  rewrite !length_app, !length_take, !length_drop. lia.
Qed.

Lemma decompress_total fuel : forall inp out ip op,
  bytes_ok inp -> 0 <= ip <= Zlen inp -> 0 <= op <= Zlen out -> Zlen inp - ip < Z.of_nat fuel ->
  exists r out', decompress_loop fuel inp out ip op = Some (r, out') /\ length out' = length out /\
    match r with inl n => 0 <= n <= Zlen out | inr _ => True end.
Proof.
  induction fuel as [|fuel IH]; intros inp out ip op Hok Hi Ho Hf; [lia|].
  cbn [decompress_loop]. cbv zeta. destruct (Z.leb_spec (Zlen inp) ip); [by eexists _, _|].
  assert (Hrd : forall p, 0 <= p < Zlen inp -> exists b, rd1 inp p = Some b /\ is_byte b).
  { intros p Hp. destruct (lookup_lt_is_Some_2 inp (Z.to_nat p)) as [b Hb]; [lia|]. exists b.
    split; [unfold rd1; by rewrite (proj2 (Z.leb_le _ _)) by lia|by eapply Forall_lookup_1]. }
  destruct (Hrd ip) as (ctrl & -> & Hctrl); [lia|]. cbn [mbind option_bind]. unfold is_byte in *.
  destruct (Z.ltb_spec ctrl (Z.shiftl 1 5)) as [Hlit|Href]; change (Z.shiftl 1 5) with 32 in *.
  - destruct (Z.ltb_spec (Zlen out) (op + (ctrl + 1))); [by eexists _, _|].
    destruct (Z.ltb_spec (Zlen inp) (ip + 1 + (ctrl + 1))); [by eexists _, _|].
    destruct (copy_literals_total (Z.to_nat (ctrl + 1)) inp out (ip + 1) op) as (out1 & -> & Hl1); [lia..|].
    cbn [mbind option_bind]. destruct (IH inp out1 (ip + 1 + (ctrl + 1)) (op + (ctrl + 1)))
      as (r & out' & -> & Hl' & Hr); [done|lia..|]. exists r, out'. rewrite Hl1 in *. done.
  - destruct (Z.leb_spec (Zlen inp) (ip + 1)); [by eexists _, _|].
    rewrite Z.shiftr_div_pow2 by lia. change (2 ^ 5) with 32.
    assert (Hlen : 1 <= ctrl / 32 <= 7) by (Z.div_mod_to_equations; lia).
    assert (Hhi : 0 <= Z.land ctrl 0x1f)  by (apply Z.land_nonneg; lia).
    assert (exists len ip' bad, (if ctrl / 32 =? 7 then b ← rd1 inp (ip + 1);
        Some (ctrl / 32 + b, ip + 1 + 1, Zlen inp <=? ip + 1 + 1) else Some (ctrl / 32, ip + 1, false)) =
      Some (len, ip', bad) /\ 0 <= len /\ ip < ip' /\ (bad = false -> ip' < Zlen inp)) as (len & ip' & bad & -> & Hlen' & Hip & Hbad).
    { destruct (ctrl / 32 =? 7).
      - destruct (Hrd (ip + 1)) as (b & -> & Hb); [lia|]. cbn [mbind option_bind]. eexists _, _, _.
        split; [done|]. split; [lia|]. split; [lia|]. lia.
      - eexists _, _, _. split; [done|]. split; [lia|]. split; [lia|]. lia. }
    cbn [mbind option_bind]. destruct bad; [by eexists _, _|].
    destruct (Hrd ip') as (b & -> & Hb); [lia|]. cbn [mbind option_bind].
    destruct (Z.ltb_spec (Zlen out) (op + len + 2)); [by eexists _, _|].
    set (ref := op - Z.shiftl (Z.land ctrl 31) 8 - 1 - b).
    assert (0 <= Z.shiftl (Z.land ctrl 31) 8) by (apply Z.shiftl_nonneg; lia).
    destruct (Z.ltb_spec ref 0); [by eexists _, _|].
    destruct (copy_ref_total out op ref len) as (out1 & -> & Hl1); [lia..|]. cbn [mbind option_bind].
    destruct (IH inp out1 (ip' + 1) (op + (len + 2))) as (r & out' & -> & Hl' & Hr); [done|lia..|].
    exists r, out'. rewrite Hl1 in *. done.
Qed.

(** ** The compressor writes the format *)

Lemma run_stream enc done lits :
  stream enc [] done -> 1 <= Zlen lits <= 32 ->
  stream (enc ++ (Zlen lits - 1) :: lits) [] (done ++ lits).
Proof.
  intros Hs Hl. eapply stream_app; [done|]. rewrite <- (app_nil_r ((_ - 1) :: lits)).
  apply (stream_lit lits []); [done|constructor].
Qed.

Lemma stop_run_spec enc h lits tl op lit :
  op = Zlen enc + 1 + Zlen lits -> lit = Zlen lits -> Zlen lits <= 32 ->
  stop_run (enc ++ h :: lits ++ tl) op lit = Some (enc ++ u8 (Zlen lits - 1) :: lits ++ tl).
Proof. intros -> -> Hl. unfold stop_run. apply wr1_app. lia. Qed.

Section Correct.
Context (in_data : Z) (inp : list Z).

#[local] Set Default Proof Using "Type*".

Lemma rd1_lookup p : 0 <= p < Zlen inp -> exists b, rd1 inp p = Some b.
Proof.
  intros Hp. destruct (lookup_lt_is_Some_2 inp (Z.to_nat p)) as [b Hb]; [lia|]. exists b.
  unfold rd1. by rewrite (proj2 (Z.leb_le _ _)) by lia.
Qed.

(** The first [n] octets at [r] and at [i] agree. *)
Definition same (r i n : Z) : Prop := forall k, 0 <= k < n -> rd1 inp (r + k) = rd1 inp (i + k).

Lemma same_more r i n : same r i n -> rd1 inp (r + n) = rd1 inp (i + n) -> same r i (n + 1).
Proof.
  intros Hs Hn k Hk. destruct (Z.eqb_spec k n) as [->|]; [done|]. apply Hs. lia.
Qed.

Lemma same_less r i n m : same r i n -> m <= n -> same r i m.
Proof. intros Hs Hm k Hk. apply Hs. lia. Qed.

Lemma match_unrolled_spec n : forall r i len,
  0 <= r < i -> 0 <= len -> i + len + Z.of_nat n < Zlen inp -> same r i (len + 1) ->
  exists len' stop, match_unrolled inp n r i len = Some (len', stop) /\
    if (stop : bool) then len < len' <= len + Z.of_nat n /\ same r i len'
    else len' = len + Z.of_nat n /\ same r i (len' + 1).
Proof.
  induction n as [|n IH]; intros r i len Hr Hlen Hin Hs.
  { eexists _, false. split; [done|]. split; [lia|done]. }
  cbn [match_unrolled]. destruct (rd1_lookup (r + (len + 1))) as [x Hx]; [lia|].
  destruct (rd1_lookup (i + (len + 1))) as [y Hy]; [lia|]. rewrite Hx, Hy. cbn [mbind option_bind].
  destruct (Z.eqb_spec x y) as [->|Hne]; cbn [negb].
  - destruct (IH r i (len + 1)) as (len' & stop & -> & Hl); [lia..| |].
    { apply same_more; [done|congruence]. }
    eexists _, stop. split; [done|]. destruct stop; destruct Hl; (split; [lia|done]).
  - eexists _, true. split; [done|]. split; [lia|done].
Qed.

Lemma match_loop_spec fuel : forall r i len maxlen,
  0 <= r < i -> 0 <= len -> i + maxlen <= Zlen inp -> same r i (len + 1) ->
  maxlen - len < Z.of_nat fuel -> (0 < fuel)%nat ->
  exists len', match_loop inp fuel r i len maxlen = Some len' /\
    len < len' <= Z.max (len + 1) maxlen /\ same r i len'.
Proof.
  induction fuel as [|fuel IH]; intros r i len maxlen Hr Hlen Hin Hs Hf Hf0; [lia|].
  cbn [match_loop]. destruct (Z.ltb_spec (len + 1) maxlen).
  - destruct (rd1_lookup (r + (len + 1))) as [x Hx]; [lia|].
    destruct (rd1_lookup (i + (len + 1))) as [y Hy]; [lia|]. rewrite Hx, Hy. cbn [mbind option_bind].
    destruct (Z.eqb_spec x y) as [->|Hne].
    + destruct (IH r i (len + 1) maxlen) as (len' & -> & Hl & Hs'); [lia..| |lia|lia|].
      { apply same_more; [done|congruence]. }
      exists len'. split; [done|]. split; [lia|done].
    + eexists. split; [done|]. split; [lia|done].
  - eexists. split; [done|]. split; [lia|done].
Qed.

Lemma match_len_spec r i :
  0 <= r < i -> i + 2 < Zlen inp -> same r i 3 ->
  exists n, match_len inp r i = Some n /\ 3 <= n <= 264 /\ i + n <= Zlen inp /\ same r i n.
Proof.
  intros Hr Hi Hs. unfold match_len, in_end. cbv zeta. change MAX_REF with 264.
  set (maxlen := if 264 <? Zlen inp - i - 2 then 264 else Zlen inp - i - 2).
  assert (Hm : maxlen <= 264 /\ maxlen <= Zlen inp - i - 2)
    by (unfold maxlen; destruct (Z.ltb_spec 264 (Zlen inp - i - 2)); lia).
  destruct (Z.ltb_spec 16 maxlen).
  - destruct (match_unrolled_spec 16 r i 2) as (len & stop & -> & Hl); [lia..|done|]. cbn [mbind option_bind].
    destruct stop; destruct Hl as [Hl Hs'].
    + eexists. split; [done|]. split; [lia|]. split; [lia|done].
    + destruct (match_loop_spec (length inp) r i len maxlen) as (n & -> & Hn & Hs''); [lia..|done|lia|lia|].
      exists n. split; [done|]. split; [lia|]. split; [lia|done].
  - destruct (match_loop_spec (length inp) r i 2 maxlen) as (n & -> & Hn & Hs''); [lia..|done|lia|lia|].
    exists n. split; [done|]. split; [lia|]. split; [lia|done].
Qed.

Context (Hbytes : bytes_ok inp).
Context (Hbase : MAX_OFF <= in_data) (Htop : in_data + Zlen inp <= 2 ^ 64).

(** A match refers to an earlier position of the input, whatever the table
    contained. *)
Lemma is_match_spec ref i :
  0 <= ref < 2 ^ 64 -> 0 <= i -> i + 2 < Zlen inp ->
  exists m, is_match in_data inp ref i = Some m /\
  (m = true -> 1 <= ref - in_data < i /\
     u64 (in_data + i - ref - 1) = i - (ref - in_data) - 1 /\
     i - (ref - in_data) - 1 < 8192 /\ same (ref - in_data) i 3).
Proof.
  intros Href Hi Hi2. unfold is_match. cbv zeta. change MAX_OFF with 8192 in *.
  destruct (Z.ltb_spec (u64 (in_data + i - ref - 1)) 8192) as [Hoff|]; [|by eexists]. cbn [negb].
  destruct (Z.ltb_spec in_data ref) as [Hlt|]; [|by eexists]. cbn [negb].
  assert (u64 (in_data + i - ref - 1) = in_data + i - ref - 1 /\ 0 <= in_data + i - ref - 1) as [Hd Hd0].
  { destruct (Z.ltb_spec (in_data + i - ref - 1) 0) as [Hneg|]; [exfalso|split; [apply uwrap_small|]; lia].
    unfold uwrap in Hoff. rewrite <- (Z.mod_unique _ (2 ^ 64) (-1) (in_data + i - ref - 1 + 2 ^ 64)) in Hoff; lia. }
  rewrite Hd in *. assert (Hr : 1 <= ref - in_data < i /\ i - (ref - in_data) - 1 < 8192) by lia.
  set (r := ref - in_data) in *.
  destruct (rd1_lookup (r + 2)) as [r2 Hr2]; [lia|]. destruct (rd1_lookup (i + 2)) as [i2 Hi2']; [lia|].
  rewrite Hr2, Hi2'. cbn [mbind option_bind].
  destruct (Z.eqb_spec r2 i2) as [->|]; [|by eexists]. cbn [negb].
  destruct (rd1_lookup (r + 1)) as [r1 Hr1]; [lia|]. destruct (rd1_lookup r) as [r0 Hr0]; [lia|].
  destruct (rd1_lookup (i + 1)) as [i1 Hi1]; [lia|]. destruct (rd1_lookup i) as [i0 Hi0]; [lia|].
  rewrite Hr1, Hr0, Hi1, Hi0. cbn [mbind option_bind]. eexists. split; [done|].
  assert (Hb : forall p b, rd1 inp p = Some b -> 0 <= b < 256).
  { intros p b. unfold rd1. destruct (0 <=? p); [|done]. intros Hb. exact (Forall_lookup_1 _ _ _ _ Hbytes Hb). }
  pose proof (Hb _ _ Hr0). pose proof (Hb _ _ Hr1). pose proof (Hb _ _ Hi0). pose proof (Hb _ _ Hi1).
  rewrite !lor_shiftl_l by lia. intros Heq%Z.eqb_eq. assert (r0 = i0 /\ r1 = i1) as [-> ->] by lia.
  split; [lia|]. split; [lia|]. split; [lia|]. intros k Hk.
  assert (k = 0 \/ k = 1 \/ k = 2) as [->|[->| ->]] by lia; rewrite ?Z.add_0_r; congruence.
Qed.

(** The state between two steps: [enc] is complete and stands for [done],
    the octets [lits] of the current run follow the byte reserved for its
    length. *)
Definition Inv (out_len : Z) (s : lzf) : Prop :=
  Zlen (out s) = out_len /\ (forall j, 0 <= htab s j < 2 ^ 64) /\
  exists done lits rest enc tl,
    inp = done ++ lits ++ rest /\ ip s = Zlen done + Zlen lits /\ lit s = Zlen lits /\ Zlen lits < 32 /\
    stream enc [] done /\ out s = enc ++ tl /\ op s = Zlen enc + 1 + Zlen lits /\
    ((tl = [] /\ lits = []) \/ exists h tl', tl = h :: lits ++ tl').

Lemma put_literal n s :
  Inv n s -> ip s < Zlen inp -> op s < n ->
  exists b out1, rd1 inp (ip s) = Some b /\ wr1 (out s) (op s) b = Some out1 /\
  if lit s + 1 =? MAX_LIT then
    exists out2, stop_run out1 (op s + 1) (lit s + 1) = Some out2 /\
      Inv n {| ip := ip s + 1; op := op s + 1 + 1; lit := 0; hval := hval s; htab := htab s; out := out2 |}
  else Inv n {| ip := ip s + 1; op := op s + 1; lit := lit s + 1; hval := hval s; htab := htab s; out := out1 |}.
Proof.
  intros (Hn & Hh & done & lits & rest & enc & tl & Hinp & Hip & Hlit & Hl32 & Hst & Hout & Hop & Htl) Hin Hroom.
  destruct rest as [|b rest].
  { rewrite Hinp, !Zlen_app in Hin. cbn [length] in Hin. lia. }
  rewrite Hout, Zlen_app in Hn.
  destruct Htl as [[-> ->]|(h & tl' & ->)]; [cbn [length] in *; lia|].
  cbn [length] in Hn. rewrite length_app in Hn. destruct tl' as [|c tl']; cbn [length] in Hn; [lia|].
  exists b, (enc ++ h :: (lits ++ [b]) ++ tl'). split.
  { rewrite Hinp, app_assoc. apply rd1_app. rewrite Zlen_app. lia. }
  split.
  { rewrite Hout. change (enc ++ h :: lits ++ c :: tl') with (enc ++ (h :: lits) ++ c :: tl').
    rewrite app_assoc, wr1_app by (rewrite Zlen_app; cbn [length]; lia). by rewrite <- !app_assoc. }
  assert (Hl' : Zlen (lits ++ [b]) = lit s + 1) by (rewrite Zlen_app; cbn [length]; lia).
  assert (Hinp' : inp = done ++ (lits ++ [b]) ++ rest) by (rewrite Hinp, <- app_assoc; done).
  change MAX_LIT with 32. destruct (Z.eqb_spec (lit s + 1) 32) as [H32|Hne].
  - rewrite (stop_run_spec enc h (lits ++ [b]) tl') by lia. eexists. split; [done|].
    split; [cbn [out]; rewrite Zlen_app; cbn [length]; rewrite !length_app; cbn [length]; lia|].
    split; [done|].
    exists (done ++ lits ++ [b]), [], rest, (enc ++ (Zlen (lits ++ [b]) - 1) :: lits ++ [b]), tl'.
    cbn [ip lit op out length]. rewrite uwrap_small by lia.
    split; [by rewrite Hinp', <- !app_assoc|]. split; [rewrite !Zlen_app; cbn [length]; lia|].
    split; [done|]. split; [lia|]. split; [apply run_stream; [done|lia]|].
    split; [by rewrite <- (app_assoc enc)|]. split; [rewrite Zlen_app; cbn [length]; rewrite !length_app; cbn [length]; lia|].
    destruct tl'; [by left|right]. by eexists _, _.
  - split; [cbn [out]; rewrite Zlen_app; cbn [length]; rewrite !length_app; cbn [length]; lia|]. split; [done|].
    exists done, (lits ++ [b]), rest, enc, (h :: (lits ++ [b]) ++ tl'). cbn [ip lit op out].
    split; [done|]. split; [lia|]. split; [lia|]. split; [lia|]. split; [done|]. split; [done|].
    split; [lia|]. right. by eexists _, _.
Qed.

(** The end of a run before a back reference. *)
Lemma end_run n s :
  Inv n s -> (n <=? op s + 3 + 1) && (n <=? op s - b2z (lit s =? 0) + 3 + 1) = false ->
  exists o rest enc t out1, inp = o ++ rest /\ ip s = Zlen o /\ stream enc [] o /\
    stop_run (out s) (op s) (lit s) = Some out1 /\ out1 = enc ++ t /\ Zlen enc + Zlen t = n /\
    op s - b2z (lit s =? 0) = Zlen enc /\ 4 < Zlen t.
Proof.
  intros (Hn & Hh & done & lits & rest & enc & tl & Hinp & Hip & Hlit & Hl32 & Hst & Hout & Hop & Htl) Hroom.
  exists (done ++ lits), rest. rewrite Hlit in *. destruct lits as [|l lits]; cbn [length Z.eqb] in *.
  - change (Z.of_nat 0 =? 0) with true in *. cbn [b2z] in *. rewrite Hout, Zlen_app in Hn.
    destruct Htl as [[-> _]|(h & tl' & ->)]; [cbn [length] in *; lia|]. cbn [app] in Hout.
    exists enc, (255 :: tl'), (enc ++ 255 :: tl'). rewrite !app_nil_r. cbn [length app] in *.
    split; [done|]. split; [lia|]. split; [done|].
    split; [rewrite Hout; apply (stop_run_spec enc h [] tl'); cbn [length]; lia|].
    split; [done|]. split; [lia|]. split; lia.
  - rewrite (proj2 (Z.eqb_neq _ _)) in * by lia. cbn [b2z] in *. rewrite Hout, Zlen_app in Hn.
    destruct Htl as [[_ ?]|(h & tl' & ->)]; [done|]. cbn [length] in Hn. rewrite length_app in Hn.
    set (ls := l :: lits) in *. change (S (length lits)) with (length ls) in *.
    exists (enc ++ (Zlen ls - 1) :: ls), tl', (enc ++ (Zlen ls - 1) :: ls ++ tl').
    assert (1 <= Zlen ls) by (unfold ls; cbn [length]; lia).
    split; [by rewrite <- app_assoc|]. split; [rewrite Zlen_app; lia|]. split; [apply run_stream; [done|lia]|].
    split; [rewrite Hout, (stop_run_spec enc h ls tl'), uwrap_small by lia; done|].
    split; [by rewrite <- app_assoc|]. rewrite Zlen_app. cbn [length]. split; [lia|]. split; lia.
Qed.

(** A match extends the output by the octets of the input. *)
Lemma ref_stream enc o rest off n :
  inp = o ++ rest -> stream enc [] o -> 0 <= off < 8192 -> off < Zlen o -> 3 <= n <= 264 ->
  n <= Zlen rest -> same (Zlen o - off - 1) (Zlen o) n ->
  stream (enc ++ ref_bytes off (n - 2)) [] (o ++ take (Z.to_nat n) rest).
Proof.
  intros Hinp Hst Ho Hoo Hn Hrest Hs. eapply stream_app; [done|]. rewrite <- (app_nil_r (ref_bytes _ _)).
  apply stream_ref; [done|done|lia|]. replace (Z.to_nat (n - 2 + 2)) with (Z.to_nat n) by lia.
  set (m := take (Z.to_nat n) rest). assert (Hm : length m = Z.to_nat n) by (unfold m; rewrite length_take; lia).
  rewrite (ext_self _ o m); [constructor|done|lia|]. intros i Hi.
  assert (Hinp' : inp = (o ++ m) ++ drop (Z.to_nat n) rest)
    by (unfold m; by rewrite <- app_assoc, take_drop).
  pose proof (Hs (Z.of_nat i) ltac:(lia)) as Hk. unfold rd1 in Hk.
  rewrite !(proj2 (Z.leb_le _ _)) in Hk by lia. rewrite Hinp' in Hk.
  rewrite !(lookup_app_l (o ++ m)) in Hk by (rewrite length_app; lia).
  rewrite (lookup_app_r o m (Z.to_nat (Zlen o + _))) in Hk by lia.
  replace (Z.to_nat (Zlen o - off - 1) + i)%nat with (Z.to_nat (Zlen o - off - 1 + Z.of_nat i)) by lia.
  rewrite Hk. f_equal. lia.
Qed.

Lemma match_step_spec n s r off :
  Inv n s -> ip s + 2 < Zlen inp -> 1 <= r < ip s -> off = ip s - r - 1 -> off < 8192 -> same r (ip s) 3 ->
  exists res, match_step in_data inp n s r off = Some res /\
  match res with
  | inl _ => True
  | inr (s', stop) => Inv n s' /\ ip s < ip s' <= Zlen inp /\ ((stop : bool) = true -> Zlen inp - 2 <= ip s')
  end.
Proof.
  intros Hinv Hi Hr Hoff Hoff' Hs. unfold match_step.
  destruct ((n <=? op s + 3 + 1) && (n <=? op s - b2z (lit s =? 0) + 3 + 1)) eqn:Eroom; [by eexists|].
  destruct (end_run n s Hinv Eroom) as (o & rest & enc & t & out1 & Hinp & Hip & Hst & Hrun & Hout1 & Hlen & Hop & Ht).
  destruct Hinv as (_ & Hh & _). rewrite Hrun. cbn [mbind option_bind].
  destruct (match_len_spec r (ip s)) as (m & Hm & Hm3 & Hmi & Hms); [lia|lia|done|].
  rewrite Hm. cbn [mbind option_bind]. rewrite Hop.
  assert (Hbs : Zlen (ref_bytes off (m - 2)) <= 3)
    by (destruct (ref_bytes_shape off (m - 2)) as [[_ ->]|[_ ->]]; cbn [length]; lia).
  destruct (wr_tail enc t (ref_bytes off (m - 2)) (Zlen enc)) as (t' & Hwr); [done|lia|].
  rewrite Hout1, Hwr. cbn [mbind option_bind].
  assert (Hrest : Zlen inp = Zlen o + Zlen rest) by (by rewrite Hinp, Zlen_app).
  assert (Hst' : stream (enc ++ ref_bytes off (m - 2)) [] (o ++ take (Z.to_nat m) rest)).
  { apply (ref_stream enc o rest off m); [done|done|lia|lia|lia|lia|].
    replace (Zlen o - off - 1) with r by lia. by rewrite <- Hip. }
  assert (Hwl : Zlen enc + (Zlen (ref_bytes off (m - 2)) + Zlen t') = n).
  { apply wr_length in Hwr. rewrite !length_app in Hwr. lia. }
  assert (Hnew : forall hv ht, (forall j, 0 <= ht j < 2 ^ 64) ->
    Inv n {| ip := ip s + m; op := Zlen enc + Zlen (ref_bytes off (m - 2)) + 1; lit := 0; hval := hv;
             htab := ht; out := enc ++ ref_bytes off (m - 2) ++ t' |}).
  { intros hv ht Hht. split; [cbn [out]; rewrite !Zlen_app; lia|]. split; [done|].
    exists (o ++ take (Z.to_nat m) rest), [], (drop (Z.to_nat m) rest), (enc ++ ref_bytes off (m - 2)), t'.
    cbn [ip op lit out length app]. split; [by rewrite <- app_assoc, take_drop|].
    split; [rewrite Zlen_app, length_take; lia|]. split; [done|]. split; [lia|]. split; [done|].
    split; [by rewrite <- app_assoc|]. split; [rewrite Zlen_app; lia|].
    destruct t'; [by left|right]. by eexists _, _. }
  replace (ip s + 1 + (m - 2 + 1)) with (ip s + m) by lia. unfold in_end.
  destruct (Z.leb_spec (Zlen inp - 2) (ip s + m)).
  - eexists. split; [done|]. cbn [ip]. split; [by apply Hnew|]. split; lia.
  - unfold FRST, NEXT.
    assert (Hrd : forall p, 0 <= p < Zlen inp -> exists b, rd1 inp p = Some b) by (intros; by apply rd1_lookup).
    repeat match goal with
    | |- context [rd1 inp ?p] => let b := fresh "b" in
        destruct (Hrd p) as [b ->]; [lia|]; cbn [mbind option_bind]
    end.
    eexists. split; [done|]. cbn [ip]. replace (ip s + m - 1 - 1 + 1 + 1) with (ip s + m) by lia.
    split; [|split; lia]. apply Hnew. intros j. pose proof Hbase as Hb'. change MAX_OFF with 8192 in Hb'.
    unfold insert, fn_insert. repeat case_decide; try apply Hh; lia.
Qed.

Lemma lit_step_spec n s :
  Inv n s -> ip s < Zlen inp ->
  exists res, lit_step inp n s = Some res /\
  match res with inl _ => True | inr s' => Inv n s' /\ ip s' = ip s + 1 end.
Proof.
  intros Hinv Hi. unfold lit_step. destruct (Z.leb_spec n (op s)); [by eexists|].
  destruct (put_literal n s Hinv Hi) as (b & out1 & -> & Hw & Hif); [lia|]. cbn [mbind option_bind].
  rewrite Hw. cbn [mbind option_bind lit op ip hval htab].
  destruct (lit s + 1 =? MAX_LIT); [destruct Hif as (out2 & -> & Hinv'); cbn [mbind option_bind]|];
    (eexists; split; [done|]; split; done).
Qed.

Lemma compress_loop_spec n fuel : forall s,
  Inv n s -> 0 <= ip s <= Zlen inp -> Zlen inp - ip s < Z.of_nat fuel ->
  exists res, compress_loop in_data inp fuel n s = Some res /\
  match res with inl _ => True | inr s' => Inv n s' /\ Zlen inp - 2 <= ip s' <= Zlen inp end.
Proof.
  induction fuel as [|fuel IH]; intros s Hinv Hi Hf; [lia|]. cbn [compress_loop]. unfold in_end.
  destruct (Z.leb_spec (Zlen inp - 2) (ip s)); [eexists; split; [done|]; split; [done|lia]|].
  unfold NEXT at 1. destruct (rd1_lookup (ip s + 2)) as [c ->]; [lia|]. cbn [mbind option_bind].
  set (hv := u32 (Z.lor (Z.shiftl (hval s) 8) c)). set (s1 := {| ip := ip s |}).
  destruct (Hinv) as (Hn & Hh & Hrest).
  assert (Hinv1 : Inv n s1).
  { split; [done|]. split; [|done]. intros j. pose proof Hbase as Hb'. change MAX_OFF with 8192 in Hb'.
    cbn [htab s1]. unfold insert, fn_insert. case_decide; [lia|apply Hh]. }
  change (ip s1) with (ip s).
  destruct (is_match_spec (htab s (IDX hv)) (ip s)) as (m & -> & Hm); [apply Hh|lia|lia|].
  cbn [mbind option_bind]. destruct m.
  - destruct (Hm eq_refl) as (Hr & Hoff & Hoff' & Hs).
    destruct (match_step_spec n s1 (htab s (IDX hv) - in_data) (u64 (in_data + ip s - htab s (IDX hv) - 1)))
      as (res & -> & Hres); [done|cbn [ip s1]; lia|done|done|lia|done|]. cbn [mbind option_bind].
    destruct res as [o|[s' stop]]; [by eexists|]. destruct Hres as (Hinv' & Hip & Hstop). cbn [ip s1] in Hip.
    destruct stop; [eexists; split; [done|]; split; [done|]; specialize (Hstop eq_refl); lia|].
    apply IH; [done|lia|lia].
  - destruct (lit_step_spec n s1 Hinv1) as (res & -> & Hres); [cbn [ip s1]; lia|]. cbn [mbind option_bind].
    destruct res as [o|s']; [by eexists|]. destruct Hres as [Hinv' Hip]. cbn [ip s1] in Hip.
    apply IH; [done|lia|lia].
Qed.

(** At most two octets are left, and there is room for them. *)
Lemma tail_loop_spec n fuel : forall s,
  Inv n s -> 0 <= ip s <= Zlen inp -> Zlen inp - ip s < Z.of_nat fuel ->
  op s + (Zlen inp - ip s) + (if Zlen inp - ip s <=? 31 - lit s then 0 else 1) <= n ->
  Zlen inp - ip s <= 3 ->
  exists s', tail_loop inp fuel s = Some s' /\ Inv n s' /\ ip s' = Zlen inp /\ op s' <= n.
Proof.
  induction fuel as [|fuel IH]; intros s Hinv Hi Hf Hroom H3; [lia|]. cbn [tail_loop]. unfold in_end.
  destruct (Z.leb_spec (Zlen inp) (ip s)).
  { exists s. split; [done|]. split; [done|]. split; [lia|]. destruct (_ <=? 31 - _); lia. }
  assert (Hlit : 0 <= lit s < 32).
  { destruct Hinv as (_ & _ & done & lits & rest & enc & tl & _ & _ & -> & ? & _). lia. }
  destruct (put_literal n s Hinv) as (b & out1 & -> & Hw & Hif); [lia|destruct (_ <=? 31 - _); lia|].
  cbn [mbind option_bind]. rewrite Hw. cbn [mbind option_bind lit op ip hval htab].
  change MAX_LIT with 32 in *. destruct (Z.eqb_spec (lit s + 1) 32).
  - destruct Hif as (out2 & -> & Hinv'). cbn [mbind option_bind].
    rewrite (proj2 (Z.leb_gt (Zlen inp - ip s) (31 - lit s))) in Hroom by lia.
    apply IH; [done|cbn [ip]; lia|cbn [ip]; lia| |cbn [ip]; lia]. cbn [ip op lit].
    rewrite (proj2 (Z.leb_le _ _)) by lia. lia.
  - apply IH; [done|cbn [ip]; lia|cbn [ip]; lia| |cbn [ip]; lia]. cbn [ip op lit].
    destruct (Z.leb_spec (Zlen inp - ip s) (31 - lit s)); [rewrite (proj2 (Z.leb_le _ _)) by lia; lia|].
    destruct (_ <=? _); lia.
Qed.

Lemma lzf_compress_stream htab0 out_data :
  2 <= Zlen inp -> (forall j, 0 <= htab0 j < 2 ^ 64) ->
  exists n out', lzf_compress in_data inp htab0 out_data = Some (n, out') /\ 0 <= n <= Zlen out_data /\
    (n <> 0 -> Zlen out' = Zlen out_data /\ stream (take (Z.to_nat n) out') [] inp).
Proof.
  intros Hlen Hh. unfold lzf_compress. cbv zeta.
  destruct ((Zlen inp =? 0) || (Zlen out_data =? 0)) eqn:E0; [eexists _, _; split; [done|]; split; [lia|done]|].
  unfold FRST. destruct (rd1_lookup 0) as [b0 ->]; [lia|]. destruct (rd1_lookup (0 + 1)) as [b1 ->]; [lia|].
  cbn [mbind option_bind]. set (s0 := {| ip := 0 |}).
  assert (Hinv : Inv (Zlen out_data) s0).
  { split; [done|]. split; [done|]. exists [], [], inp, [], out_data. split_and!; try done; [constructor|].
    destruct out_data; [cbn in E0; lia|]. right. by eexists _, _. }
  destruct (compress_loop_spec (Zlen out_data) (S (length inp)) s0) as (res & -> & Hres); [done|cbn [ip s0]; lia..|].
  cbn [mbind option_bind]. destruct res as [o|s].
  { eexists _, _. split; [done|]. split; [lia|done]. }
  destruct Hres as [Hs Hip]. destruct (Z.ltb_spec (Zlen out_data) (op s + 3)).
  { eexists _, _. split; [done|]. split; [lia|done]. }
  destruct (tail_loop_spec (Zlen out_data) (S (length inp)) s) as (s' & -> & Hs' & Hip' & Hop'); [done|lia|lia| |lia|].
  { destruct (_ <=? _); lia. }
  cbn [mbind option_bind].
  destruct Hs' as (Hn & _ & done & lits & rest & enc & tl & Hinp & Hip2 & Hlit & Hl32 & Hst & Hout & Hop & Htl).
  assert (rest = []) as ->.
  { rewrite Hinp, !Zlen_app in Hip'. destruct rest; [done|cbn [length] in Hip'; lia]. }
  rewrite app_nil_r in Hinp. rewrite Hout, Zlen_app in Hn.
  destruct Htl as [[-> ->]|(h & tl' & ->)]; [cbn [length] in *; lia|].
  rewrite Hout, (stop_run_spec enc h lits tl') by (done || lia). cbn [mbind option_bind length] in *.
  rewrite length_app in Hn. rewrite Hlit. eexists _, _. split; [done|].
  destruct lits as [|l lits]; cbn [length] in *.
  - change (Z.of_nat 0 =? 0) with true. cbn [b2z app]. split; [lia|]. intros _.
    split; [rewrite Zlen_app; cbn [length]; lia|].
    rewrite take_app_length' by lia. rewrite app_nil_r in Hinp. by subst.
  - rewrite (proj2 (Z.eqb_neq _ _)) by lia. cbn [b2z]. split; [lia|]. intros _.
    split; [rewrite Zlen_app; cbn [length]; rewrite length_app; cbn [length]; lia|].
    rewrite uwrap_small by lia. set (ls := l :: lits) in *. change (S (length lits)) with (length ls) in *.
    change (enc ++ Zlen ls - 1 :: ls ++ tl') with (enc ++ (Zlen ls - 1 :: ls) ++ tl').
    rewrite app_assoc, take_app_length' by (rewrite length_app; cbn [length]; lia).
    rewrite Hinp. apply run_stream; [done|]. unfold ls in *. cbn [length] in *. lia.
Qed.

End Correct.

(** What was compressed can be decompressed into any buffer of the size of the
    input. *)
Lemma lzf_compress_decompress in_data inp htab0 out_data :
  bytes_ok inp -> 2 <= Zlen inp -> MAX_OFF <= in_data -> in_data + Zlen inp <= 2 ^ 64 ->
  (forall j, 0 <= htab0 j < 2 ^ 64) ->
  exists n out', lzf_compress in_data inp htab0 out_data = Some (n, out') /\ 0 <= n <= Zlen out_data /\
    (n <> 0 -> forall dst, Zlen inp <= Zlen dst ->
     exists rest, lzf_decompress (take (Z.to_nat n) out') dst = Some (Zlen inp, None, inp ++ rest) /\ Zlen inp + Zlen rest = Zlen dst).
Proof.
  intros Hok Hlen Hbase Htop Hh.
  destruct (lzf_compress_stream in_data inp Hok Hbase Htop htab0 out_data) as (n & out' & Hc & Hn & Hst);
    [lia|done|].
  exists n, out'. split; [done|]. split; [done|]. intros Hn0 dst Hdst. destruct (Hst Hn0) as [Hl Hs].
  unfold lzf_decompress. set (z := take (Z.to_nat n) out') in *.
  destruct (decompress_stream z [] inp Hs (S (length z)) z 0 dst) as (rest' & Hd & Hrest);
    [by exists [], []; rewrite app_nil_r|lia|cbn [length]; lia|lia|].
  cbn [app length] in Hd. change (Z.of_nat 0) with 0 in Hd. rewrite Hd. cbn [mbind option_bind].
  by exists rest'.
Qed.

(** ** Theorems *)

(** C11: decompression undoes compression: for every input of at least two
    bytes, every initial contents of the hash table and every output buffer,
    [lzf_compress] terminates inside its buffers; when it does not give up,
    [lzf_decompress] of what it wrote, into a buffer of at least the size of
    the input, returns the length of the input and its bytes. *)
Theorem lzf_roundtrip in_data inp htab0 out_data dst :
  bytes_ok inp -> 2 <= Zlen inp <= Zlen dst -> MAX_OFF <= in_data -> in_data + Zlen inp <= 2 ^ 64 ->
  (forall j, 0 <= htab0 j < 2 ^ 64) ->
  exists n out', lzf_compress in_data inp htab0 out_data = Some (n, out') /\ 0 <= n <= Zlen out_data /\
    (n <> 0 -> exists rest, lzf_decompress (take (Z.to_nat n) out') dst =
                            Some (Zlen inp, None, inp ++ rest)).
Proof.
  intros Hok Hlen Hbase Htop Hh.
  destruct (lzf_compress_decompress in_data inp htab0 out_data Hok) as (n & out' & Hc & Hn & Hd); [lia|done..|].
  exists n, out'. split; [done|]. split; [done|]. intros Hn0. destruct (Hd Hn0 dst) as (rest & Hr & _); [lia|]. by exists rest.
Qed.

(** C30: [lzf_decompress] of arbitrary bytes never accesses memory outside
    the input and the output, and returns at most the size of the output. *)
Theorem lzf_decompress_safe inp out_data :
  bytes_ok inp ->
  exists n e out', lzf_decompress inp out_data = Some (n, e, out') /\
    length out' = length out_data /\ 0 <= n <= Zlen out_data /\ (e <> None -> n = 0).
Proof.
  intros Hok. unfold lzf_decompress.
  destruct (decompress_total (S (length inp)) inp out_data 0 0) as (r & out' & -> & Hl & Hr); [done|lia..|].
  cbn [mbind option_bind]. destruct r as [n|e]; eexists _, _, _; (split; [done|]); (split; [done|]); split; lia || done.
Qed.

(** An input of one byte: the first hash value reads the byte after it. *)
Lemma lzf_compress_one in_data b htab0 o out_data :
  lzf_compress in_data [b] htab0 (o :: out_data) = None.
Proof. unfold lzf_compress. cbn [length]. by rewrite (proj2 (orb_false_iff _ _)) by lia. Qed.

Definition sample : list Z := concat (replicate 30 [97; 98; 99; 100; 97; 98]) ++ [1; 2; 3; 4; 5].

Lemma lzf_roundtrip_witness :
  exists n out', lzf_compress 8192 sample (fun i => 0) (replicate 100 0) = Some (n, out') /\
    0 <= n <= 100 /\
    (n <> 0 -> exists rest, lzf_decompress (take (Z.to_nat n) out') (replicate 200 0) =
                            Some (Zlen sample, None, sample ++ rest)).
Proof.
  apply (lzf_roundtrip 8192 sample (fun i => 0) (replicate 100 0) (replicate 200 0));
    [by_compute|done|done|done|done].
Defined.

Lemma lzf_decompress_safe_witness :
  exists n e out', lzf_decompress [1; 9; 9; 224; 3] (replicate 20 0) = Some (n, e, out') /\
    length out' = 20%nat /\ 0 <= n <= 20 /\ (e <> None -> n = 0).
Proof. apply (lzf_decompress_safe [1; 9; 9; 224; 3] (replicate 20 0)). by_compute. Defined.

End Lzf.
