(* ===== verification/Quicklist.v ===== *)
(** * Quicklists (src/redis-7.2.4/src/quicklist.c, quicklist.h)

    A quicklist is a doubly linked list of nodes, each with a listpack of
    elements or one large element; nodes away from the ends are compressed.
    The nodes are in a heap, a finite map from addresses; an access to a freed
    node, a null pointer that is followed, a failed assertion and an entry of
    the wrong kind are [None].  The functions change the state, which is the
    struct of the quicklist and the heap of its nodes.  The static variable
    [packed_threshold] is a parameter, as is what the compressor finds on the
    stack and the address of a buffer. *)

From stdpp Require Import gmap.
From S2P Require Import Prelude.
From S2P Require Import NumConv.
From S2P Require Import ListpackEnc.
From S2P Require Import Listpack.
From S2P Require Import Lzf.
Import NumConv LpEnc Lp.

Module Quicklist.

Abbreviation sds := (list Z).
Abbreviation addr := nat.

(** ** Data *)

Inductive node_encoding := RAW | LZF.
Inductive node_container := PLAIN | PACKED.

#[export] Instance node_encoding_eq_dec : EqDecision node_encoding.
Proof. solve_decision. Defined.
#[export] Instance node_container_eq_dec : EqDecision node_container.
Proof. solve_decision. Defined.

(** What [entry] points to: nothing, a listpack or the bytes of an element,
    or a [quicklistLZF], whose [sz] is the length of its array. *)
Inductive pointee :=
| Null
| Buf (b : list Z)
| LzfBuf (compressed : list Z).

(** The fields of a node but the links; [attempted_compress] and [extra] are
    not used outside tests. *)
Record nodeData := {
  entry : pointee;
  sz : Z;
  count : Z;
  encoding : node_encoding;
  container : node_container;
  recompress : bool;
  dont_compress : bool;
}.

Record quicklistNode := {
  prev : option addr;
  next : option addr;
  data : nodeData;
}.

Record quicklistBookmark := {
  bm_node : option addr;
  bm_name : sds;
}.

(** [bookmark_count] is the length of the list. *)
Record quicklist := {
  head : option addr;
  tail : option addr;
  ql_count : Z;
  len : Z;
  fill : Z;
  compress : Z;
  bookmarks : list quicklistBookmark;
}.

Inductive direction_ := AL_START_HEAD | AL_START_TAIL.

#[export] Instance direction_eq_dec : EqDecision direction_.
Proof. solve_decision. Defined.

Record quicklistIter := {
  current : option addr;
  zi : option Z;
  offset : Z;
  direction : direction_;
}.

(** [value] and [longval]: a string or an integer. *)
Record quicklistEntry := {
  e_node : option addr;
  e_zi : option Z;
  e_value : option (sds + Z);
  e_offset : Z;
}.

(** ** Computations *)

Abbreviation heap := (gmap addr quicklistNode).

Record state := { ql : quicklist; nodes : heap }.

Definition M (A : Type) : Type := state -> option (A * state).

#[export] Instance M_ret : MRet M := fun A a s => Some (a, s).
#[export] Instance M_bind : MBind M := fun A B k m s => '(a, s) ← m s; k a s.

Definition lift {A} (o : option A) : M A := fun s => a ← o; Some (a, s).
Definition assert (b : bool) : M unit := lift (assertb b).
Definition when (b : bool) (m : M unit) : M unit := if b then m else mret tt.
Definition gets {A} (f : quicklist -> A) : M A := fun s => Some (f (ql s), s).
Definition modify (f : quicklist -> quicklist) : M unit := fun s => Some (tt, {| ql := f (ql s); nodes := nodes s |}).

Definition modify_nodes (f : heap -> heap) : M unit := fun s => Some (tt, {| ql := ql s; nodes := f (nodes s) |}).

(** Following a pointer. *)
Definition deref (p : option addr) : M addr := lift p.
Definition get (a : addr) : M quicklistNode := fun s => lift (nodes s !! a) s.
Definition put (a : addr) (nd : quicklistNode) : M unit :=
  get a ;; modify_nodes (fun h => <[a := nd]> h).
Definition update (a : addr) (f : nodeData -> nodeData) : M unit :=
  nd ← get a; put a {| prev := prev nd; next := next nd; data := f (data nd) |}.
Definition set_prev (a : addr) (p : option addr) : M unit :=
  nd ← get a; put a {| prev := p; next := next nd; data := data nd |}.
Definition set_next (a : addr) (p : option addr) : M unit :=
  nd ← get a; put a {| prev := prev nd; next := p; data := data nd |}.
Definition zfree (a : addr) : M unit :=
  get a ;; modify_nodes (fun h => delete a h).

Definition with_entry (e : pointee) (d : nodeData) : nodeData :=
  {| entry := e; sz := sz d; count := count d; encoding := encoding d; container := container d;
     recompress := recompress d; dont_compress := dont_compress d |}.
Definition with_sz (z : Z) (d : nodeData) : nodeData :=
  {| entry := entry d; sz := z; count := count d; encoding := encoding d; container := container d;
     recompress := recompress d; dont_compress := dont_compress d |}.
Definition with_count (c : Z) (d : nodeData) : nodeData :=
  {| entry := entry d; sz := sz d; count := c; encoding := encoding d; container := container d;
     recompress := recompress d; dont_compress := dont_compress d |}.
Definition with_encoding (e : node_encoding) (d : nodeData) : nodeData :=
  {| entry := entry d; sz := sz d; count := count d; encoding := e; container := container d;
     recompress := recompress d; dont_compress := dont_compress d |}.
Definition with_container (c : node_container) (d : nodeData) : nodeData :=
  {| entry := entry d; sz := sz d; count := count d; encoding := encoding d; container := c;
     recompress := recompress d; dont_compress := dont_compress d |}.
Definition with_recompress (b : bool) (d : nodeData) : nodeData :=
  {| entry := entry d; sz := sz d; count := count d; encoding := encoding d; container := container d;
     recompress := b; dont_compress := dont_compress d |}.
Definition with_dont_compress (b : bool) (d : nodeData) : nodeData :=
  {| entry := entry d; sz := sz d; count := count d; encoding := encoding d; container := container d;
     recompress := recompress d; dont_compress := b |}.

Definition with_head (p : option addr) (q : quicklist) : quicklist :=
  {| head := p; tail := tail q; ql_count := ql_count q; len := len q; fill := fill q; compress := compress q; bookmarks := bookmarks q |}.
Definition with_tail (p : option addr) (q : quicklist) : quicklist :=
  {| head := head q; tail := p; ql_count := ql_count q; len := len q; fill := fill q; compress := compress q; bookmarks := bookmarks q |}.
Definition add_count (n : Z) (q : quicklist) : quicklist :=
  {| head := head q; tail := tail q; ql_count := u64 (ql_count q + n); len := len q; fill := fill q; compress := compress q; bookmarks := bookmarks q |}.
Definition add_len (n : Z) (q : quicklist) : quicklist :=
  {| head := head q; tail := tail q; ql_count := ql_count q; len := u64 (len q + n); fill := fill q; compress := compress q; bookmarks := bookmarks q |}.
Definition with_bookmarks (bs : list quicklistBookmark) (q : quicklist) : quicklist :=
  {| head := head q; tail := tail q; ql_count := ql_count q; len := len q; fill := fill q; compress := compress q; bookmarks := bs |}.

(** The 16 bits of [count]. *)
Definition count_add (n : Z) (d : nodeData) : nodeData := with_count (u16 (count d + n)) d.

(** The buffer that a node points to. *)
Definition buffer (a : addr) : M (list Z) :=
  nd ← get a; match entry (data nd) with Buf b => mret b | _ => lift None end.

(** A listpack function that returns a null pointer makes the next access fail. *)
Definition listpack (r : option (option (list Z * option Z))) : M (list Z) :=
  r ← lift r; '(lp, _) ← lift r; mret lp.

Definition QL_NODE_IS_PLAIN (d : nodeData) : bool := bool_decide (container d = PLAIN).

(** ** Creation and configuration *)

Abbreviation COMPRESS_MAX := 65535.
Abbreviation FILL_MAX := 32767.

Definition quicklistCreate : quicklist :=
  {| head := None; tail := None; ql_count := 0; len := 0; fill := -2; compress := 0; bookmarks := [] |}.

Definition quicklistSetCompressDepth (q : quicklist) (c : Z) : quicklist :=
  let c := if COMPRESS_MAX <? c then COMPRESS_MAX else if c <? 0 then 0 else c in
  {| head := head q; tail := tail q; ql_count := ql_count q; len := len q; fill := fill q; compress := c; bookmarks := bookmarks q |}.

Definition quicklistSetFill (q : quicklist) (f : Z) : quicklist :=
  let f := if FILL_MAX <? f then FILL_MAX else if f <? -5 then -5 else f in
  {| head := head q; tail := tail q; ql_count := ql_count q; len := len q; fill := f; compress := compress q; bookmarks := bookmarks q |}.

Definition quicklistSetOptions (q : quicklist) (f depth : Z) : quicklist :=
  quicklistSetCompressDepth (quicklistSetFill q f) depth.

Definition quicklistNew (f c : Z) : quicklist := quicklistSetOptions quicklistCreate f c.

(** The new value of [packed_threshold], if the argument is accepted. *)
Definition quicklistisSetPackedThreshold (n : Z) : option Z :=
  if 2 ^ 32 - 2 ^ 20 <? n then None else if n =? 0 then Some (2 ^ 30) else Some n.

Definition quicklistCreateNode : M addr := fun s =>
  let a := fresh (dom (nodes s)) in
  Some (a, {| ql := ql s;
              nodes := <[a := {| prev := None; next := None;
                                 data := {| entry := Null; sz := 0; count := 0; encoding := RAW; container := PACKED;
                                            recompress := false; dont_compress := false |} |}]> (nodes s) |}).

Definition quicklistCount : M Z := gets ql_count.

(** What [lzf_compress] depends on beside its arguments: the address of the
    buffer of a node, in the lower half of the address space and not in its
    first pages, and the contents of the hash table on the stack. *)
Class LzfMemory := {
  address : heap -> addr -> Z;
  stack : heap -> addr -> Z -> Z;
  address_ok h a : Lzf.MAX_OFF <= address h a < 2 ^ 63;
  stack_ok h a j : 0 <= stack h a j < 2 ^ 64;
}.

Abbreviation MIN_COMPRESS_BYTES := 48.
Abbreviation MIN_COMPRESS_IMPROVE := 8.
Abbreviation SIZE_MAX := (2 ^ 64 - 1).
Abbreviation UINT_MAX := (2 ^ 32 - 1).
Abbreviation SIZE_SAFETY_LIMIT := 8192.
Abbreviation SIZE_ESTIMATE_OVERHEAD := 8.
Abbreviation QL_MAX_BM := 15.

Section Code.
Context `{Allocator} `{LzfMemory} (packed_threshold : Z).

Definition zmalloc (n : Z) : list Z := realloc junk [] n.

Definition isLargeElement (size : Z) : bool := packed_threshold <=? size.

(** ** Compression *)

Definition __quicklistCompressNode (node : addr) : M bool :=
  nd ← get node;
  if dont_compress (data nd) then mret false
  else
    assert (bool_decide (is_Some (prev nd)) && bool_decide (is_Some (next nd))) ;;
    update node (with_recompress false) ;;
    if sz (data nd) <? MIN_COMPRESS_BYTES then mret false
    else
      b ← buffer node;
      inp ← lift (rd b 0 (sz (data nd)));
      h ← (fun s => Some (nodes s, s));
      '(n, out) ← lift (Lzf.lzf_compress (address h node) inp (stack h node) (zmalloc (sz (data nd))));
      if (n =? 0) || (sz (data nd) <=? n + MIN_COMPRESS_IMPROVE) then mret false
      else
        update node (with_entry (LzfBuf (take (Z.to_nat n) out))) ;;
        update node (with_encoding LZF) ;;
        mret true.

Definition quicklistCompressNode (node : option addr) : M unit :=
  match node with
  | None => mret tt
  | Some node =>
      nd ← get node;
      if bool_decide (encoding (data nd) = RAW) then __quicklistCompressNode node ;; mret tt else mret tt
  end.

Definition __quicklistDecompressNode (node : addr) : M bool :=
  update node (with_recompress false) ;;
  nd ← get node;
  match entry (data nd) with
  | LzfBuf compressed =>
      '(n, _, decompressed) ← lift (Lzf.lzf_decompress compressed (zmalloc (sz (data nd))));
      if n =? 0 then mret false
      else
        update node (with_entry (Buf decompressed)) ;;
        update node (with_encoding RAW) ;;
        mret true
  | _ => lift None
  end.

Definition quicklistDecompressNode (node : option addr) : M unit :=
  match node with
  | None => mret tt
  | Some node =>
      nd ← get node;
      if bool_decide (encoding (data nd) = LZF) then __quicklistDecompressNode node ;; mret tt else mret tt
  end.

Definition quicklistDecompressNodeForUse (node : addr) : M unit :=
  nd ← get node;
  if bool_decide (encoding (data nd) = LZF) then
    __quicklistDecompressNode node ;; update node (with_recompress true)
  else mret tt.

(** The loop over the [n] nodes at each end that stay uncompressed: the nodes
    after them and [in_depth], or [None] when the ends meet. *)
Fixpoint depth_loop (n : nat) (node forward reverse : option addr) (in_depth : bool) :
    M (option (option addr * option addr * bool)) :=
  match n with
  | O => mret (Some (forward, reverse, in_depth))
  | S n' =>
      quicklistDecompressNode forward ;;
      quicklistDecompressNode reverse ;;
      let in_depth := bool_decide (forward = node) || bool_decide (reverse = node) || in_depth in
      if bool_decide (forward = reverse) then mret None
      else
        f ← deref forward; fd ← get f;
        if bool_decide (next fd = reverse) then mret None
        else
          r ← deref reverse; rd ← get r;
          depth_loop n' node (next fd) (prev rd) in_depth
  end.

Definition __quicklistCompress (node : option addr) : M unit :=
  q ← gets id;
  if len q =? 0 then mret tt
  else
    h ← deref (head q); hd ← get h;
    t ← deref (tail q); td ← get t;
    assert (negb (recompress (data hd)) && negb (recompress (data td))) ;;
    if (compress q =? 0) || (len q <? compress q * 2) then mret tt
    else
      r ← depth_loop (Z.to_nat (compress q)) node (head q) (tail q) false;
      match r with
      | None => mret tt
      | Some (forward, reverse, in_depth) =>
          when (negb in_depth) (quicklistCompressNode node) ;;
          quicklistCompressNode forward ;;
          quicklistCompressNode reverse
      end.

Definition quicklistCompress (node : addr) : M unit :=
  nd ← get node;
  if recompress (data nd) then quicklistCompressNode (Some node) else __quicklistCompress (Some node).

Definition quicklistRecompressOnly (node : addr) : M unit :=
  nd ← get node;
  if recompress (data nd) then quicklistCompressNode (Some node) else mret tt.

(** ** Linking nodes *)

Definition link_after (new_node : addr) (old_node : option addr) : M unit :=
  set_prev new_node old_node ;;
  (match old_node with
   | Some old =>
       od ← get old;
       set_next new_node (next od) ;;
       (match next od with Some nx => set_prev nx (Some new_node) | None => mret tt end) ;;
       set_next old (Some new_node)
   | None => mret tt
   end) ;;
  t ← gets tail;
  when (bool_decide (t = old_node)) (modify (with_tail (Some new_node))).

Definition link_before (new_node : addr) (old_node : option addr) : M unit :=
  set_next new_node old_node ;;
  (match old_node with
   | Some old =>
       od ← get old;
       set_prev new_node (prev od) ;;
       (match prev od with Some pv => set_next pv (Some new_node) | None => mret tt end) ;;
       set_prev old (Some new_node)
   | None => mret tt
   end) ;;
  h ← gets head;
  when (bool_decide (h = old_node)) (modify (with_head (Some new_node))).

Definition __quicklistInsertNode (old_node : option addr) (new_node : addr) (after : bool) : M unit :=
  (if after then link_after new_node old_node else link_before new_node old_node) ;;
  n ← gets len;
  when (n =? 0) (modify (fun q => with_head (Some new_node) (with_tail (Some new_node) q))) ;;
  modify (add_len 1) ;;
  (match old_node with Some old => quicklistCompress old | None => mret tt end) ;;
  quicklistCompress new_node.

Definition _quicklistInsertNodeBefore (old_node : option addr) (new_node : addr) : M unit :=
  __quicklistInsertNode old_node new_node false.

Definition _quicklistInsertNodeAfter (old_node : option addr) (new_node : addr) : M unit :=
  __quicklistInsertNode old_node new_node true.

(** ** Limits of a node *)

Definition optimization_level : list Z := [4096; 8192; 16384; 32768; 65536].

(** [*size] and [*count]; [- fill] overflows for the smallest [int]. *)
Definition quicklistNodeLimit (fill : Z) : option (Z * Z) :=
  if 0 <=? fill then Some (SIZE_MAX, if fill =? 0 then 1 else fill)
  else if fill =? INT32_MIN then None
  else
    let offset := - fill - 1 in
    let max_level := Zlen optimization_level in
    let offset := if max_level <=? offset then max_level - 1 else offset in
    size ← optimization_level !! Z.to_nat offset;
    Some (size, UINT_MAX).

Definition quicklistNodeExceedsLimit (fill new_sz new_count : Z) : option bool :=
  '(sz_limit, count_limit) ← quicklistNodeLimit fill;
  if negb (sz_limit =? SIZE_MAX) then Some (sz_limit <? new_sz)
  else if negb (count_limit =? UINT_MAX) then
    if negb (new_sz <=? SIZE_SAFETY_LIMIT) then Some true else Some (count_limit <? new_count)
  else None.

Definition _quicklistNodeAllowInsert (node : option addr) (fill size : Z) : M bool :=
  match node with
  | None => mret false
  | Some node =>
      nd ← get node;
      if QL_NODE_IS_PLAIN (data nd) || isLargeElement size then mret false
      else
        let new_sz := u64 (sz (data nd) + size + SIZE_ESTIMATE_OVERHEAD) in
        exceeds ← lift (quicklistNodeExceedsLimit fill new_sz (count (data nd) + 1));
        mret (negb exceeds)
  end.

Definition _quicklistNodeAllowMerge (a b : option addr) (fill : Z) : M bool :=
  match a, b with
  | Some a, Some b =>
      ad ← get a; bd ← get b;
      if QL_NODE_IS_PLAIN (data ad) || QL_NODE_IS_PLAIN (data bd) then mret false
      else
        let merge_sz := u32 (sz (data ad) + sz (data bd) - 7) in
        exceeds ← lift (quicklistNodeExceedsLimit fill merge_sz (count (data ad) + count (data bd)));
        mret (negb exceeds)
  | _, _ => mret false
  end.

Definition quicklistNodeUpdateSz (node : addr) : M unit :=
  b ← buffer node; n ← lift (lpBytes b); update node (with_sz n).

(** The new contents of the listpack of a node. *)
Definition set_listpack (node : addr) (r : option (option (list Z * option Z))) : M unit :=
  lp ← listpack r; update node (with_entry (Buf lp)).

(** A new node for a small element. *)
Definition new_listpack_node (value : sds) : M addr :=
  node ← quicklistCreateNode;
  lp ← lift (lpNew 0);
  set_listpack node (lpPrepend lp value) ;;
  mret node.

Definition __quicklistCreatePlainNode (value : sds) : M addr :=
  new_node ← quicklistCreateNode;
  update new_node (with_container PLAIN) ;;
  update new_node (with_entry (Buf value)) ;;
  update new_node (with_sz (Zlen value)) ;;
  update new_node (count_add 1) ;;
  mret new_node.

Definition __quicklistInsertPlainNode (old_node : option addr) (value : sds) (after : bool) : M unit :=
  new_node ← __quicklistCreatePlainNode value;
  __quicklistInsertNode old_node new_node after ;;
  modify (add_count 1).

(** ** Adding at the ends *)

Definition quicklistPushHead (value : sds) : M bool :=
  q ← gets id;
  let orig_head := head q in
  if isLargeElement (Zlen value) then __quicklistInsertPlainNode (head q) value false ;; mret true
  else
    allow ← _quicklistNodeAllowInsert (head q) (fill q) (Zlen value);
    (if (allow : bool) then
       h ← deref (head q); lp ← buffer h;
       set_listpack h (lpPrepend lp value) ;;
       quicklistNodeUpdateSz h
     else
       node ← quicklistCreateNode;
       lp ← lift (lpNew 0);
       set_listpack node (lpPrepend lp value) ;;
       quicklistNodeUpdateSz node ;;
       _quicklistInsertNodeBefore (head q) node) ;;
    modify (add_count 1) ;;
    p ← gets head; h ← deref p;
    update h (count_add 1) ;;
    mret (negb (bool_decide (orig_head = p))).

Definition quicklistPushTail (value : sds) : M bool :=
  q ← gets id;
  let orig_tail := tail q in
  if isLargeElement (Zlen value) then __quicklistInsertPlainNode (tail q) value true ;; mret true
  else
    allow ← _quicklistNodeAllowInsert (tail q) (fill q) (Zlen value);
    (if (allow : bool) then
       t ← deref (tail q); lp ← buffer t;
       set_listpack t (lpAppend lp value) ;;
       quicklistNodeUpdateSz t
     else
       node ← quicklistCreateNode;
       lp ← lift (lpNew 0);
       set_listpack node (lpAppend lp value) ;;
       quicklistNodeUpdateSz node ;;
       _quicklistInsertNodeAfter (tail q) node) ;;
    modify (add_count 1) ;;
    p ← gets tail; t ← deref p;
    update t (count_add 1) ;;
    mret (negb (bool_decide (orig_tail = p))).

(** The argument is a listpack; its length is cut to the 16 bits of [count]. *)
Definition quicklistAppendListpack (zl : list Z) : M unit :=
  node ← quicklistCreateNode;
  '(n, zl) ← lift (lpLength zl);
  update node (with_entry (Buf zl)) ;;
  update node (with_count (u16 n)) ;;
  bytes ← lift (lpBytes zl);
  update node (with_sz bytes) ;;
  t ← gets tail;
  _quicklistInsertNodeAfter t node ;;
  nd ← get node;
  modify (add_count (count (data nd))).

Definition quicklistAppendPlainNode (bytes : sds) : M unit :=
  node ← quicklistCreateNode;
  update node (with_entry (Buf bytes)) ;;
  update node (with_count 1) ;;
  update node (with_sz (Zlen bytes)) ;;
  update node (with_container PLAIN) ;;
  t ← gets tail;
  _quicklistInsertNodeAfter t node ;;
  nd ← get node;
  modify (add_count (count (data nd))).

(** ** Bookmarks *)

Definition _quicklistBookmarkFindByName (bs : list quicklistBookmark) (name : sds) : option nat :=
  fst <$> list_find (fun b => bm_name b = name) bs.

Definition _quicklistBookmarkFindByNode (bs : list quicklistBookmark) (node : addr) : option nat :=
  fst <$> list_find (fun b => bm_node b = Some node) bs.

Definition set_bookmark (i : nat) (node : option addr) (bs : list quicklistBookmark) : list quicklistBookmark :=
  alter (fun b => {| bm_node := node; bm_name := bm_name b |}) i bs.

Definition _quicklistBookmarkDelete (i : nat) : M unit :=
  bs ← gets bookmarks; modify (with_bookmarks (delete i bs)).

Definition quicklistBookmarkCreate (name : sds) (node : option addr) : M bool :=
  bs ← gets bookmarks;
  if QL_MAX_BM <=? Zlen bs then mret false
  else
    match _quicklistBookmarkFindByName bs name with
    | Some i => modify (with_bookmarks (set_bookmark i node bs)) ;; mret true
    | None => modify (with_bookmarks (bs ++ [{| bm_node := node; bm_name := name |}])) ;; mret true
    end.

Definition quicklistBookmarkFind (name : sds) : M (option addr) :=
  bs ← gets bookmarks;
  mret (i ← _quicklistBookmarkFindByName bs name; b ← bs !! i; bm_node b).

Definition quicklistBookmarkDelete (name : sds) : M bool :=
  bs ← gets bookmarks;
  match _quicklistBookmarkFindByName bs name with
  | None => mret false
  | Some i => _quicklistBookmarkDelete i ;; mret true
  end.

Definition quicklistBookmarksClear : M unit := modify (with_bookmarks []).

(** ** Deletion *)

Definition update_bookmark (node : addr) (nx : option addr) : M unit :=
  bs ← gets bookmarks;
  match _quicklistBookmarkFindByNode bs node with
  | None => mret tt
  | Some i =>
      modify (with_bookmarks (set_bookmark i nx bs)) ;;
      when (bool_decide (nx = None)) (_quicklistBookmarkDelete i)
  end.

Definition unlink (node : addr) (nd : quicklistNode) : M unit :=
  (match next nd with Some nx => set_prev nx (prev nd) | None => mret tt end) ;;
  (match prev nd with Some pv => set_next pv (next nd) | None => mret tt end) ;;
  t ← gets tail;
  when (bool_decide (t = Some node)) (modify (with_tail (prev nd))) ;;
  h ← gets head;
  when (bool_decide (h = Some node)) (modify (with_head (next nd))).

Definition __quicklistDelNode (node : addr) : M unit :=
  nd ← get node;
  update_bookmark node (next nd) ;;
  unlink node nd ;;
  modify (add_len (-1)) ;;
  modify (add_count (- count (data nd))) ;;
  __quicklistCompress None ;;
  zfree node.

(** Whether the node is deleted, and the new [*p]. *)
Definition quicklistDelIndex (node : addr) (p : option Z) : M (bool * option Z) :=
  nd ← get node;
  if QL_NODE_IS_PLAIN (data nd) then __quicklistDelNode node ;; mret (true, p)
  else
    lp ← buffer node; p ← lift p;
    r ← lift (lpDelete lp p); '(lp, p) ← lift r;
    update node (with_entry (Buf lp)) ;;
    update node (count_add (-1)) ;;
    nd ← get node;
    let gone := count (data nd) =? 0 in
    (if gone then __quicklistDelNode node else quicklistNodeUpdateSz node) ;;
    modify (add_count (-1)) ;;
    mret (gone, p).

Definition quicklistDelEntry (iter : quicklistIter) (entry : quicklistEntry) : M quicklistIter :=
  node ← deref (e_node entry);
  nd ← get node;
  '(deleted_node, _) ← quicklistDelIndex node (e_zi entry);
  mret (if (deleted_node : bool) then
          match direction iter with
          | AL_START_HEAD => {| current := next nd; zi := None; offset := 0; direction := direction iter |}
          | AL_START_TAIL => {| current := prev nd; zi := None; offset := -1; direction := direction iter |}
          end
        else {| current := current iter; zi := None; offset := offset iter; direction := direction iter |}).

(** ** Merging and splitting nodes *)

Definition pointer (lp : option (list Z)) : pointee := match lp with Some b => Buf b | None => Null end.

Definition _quicklistListpackMerge (a b : addr) : M (option addr) :=
  quicklistDecompressNode (Some a) ;;
  quicklistDecompressNode (Some b) ;;
  la ← buffer a; lb ← buffer b;
  r ← lift (lpMerge (Some la) (Some lb) (bool_decide (a = b)));
  match r with
  | None => mret None
  | Some (first, second) =>
      update a (with_entry (pointer first)) ;;
      update b (with_entry (pointer second)) ;;
      '(keep, nokeep) ← lift (match first, second with
                              | None, _ => Some (b, a)
                              | _, None => Some (a, b)
                              | _, _ => None
                              end);
      lp ← buffer keep;
      '(n, lp) ← lift (lpLength lp);
      update keep (with_entry (Buf lp)) ;;
      update keep (with_count (u16 n)) ;;
      quicklistNodeUpdateSz keep ;;
      update nokeep (with_count 0) ;;
      __quicklistDelNode nokeep ;;
      quicklistCompress keep ;;
      mret (Some keep)
  end.

(** [p->prev] and [p->next], or null. *)
Definition prev_of (p : option addr) : M (option addr) :=
  match p with Some p => nd ← get p; mret (prev nd) | None => mret None end.
Definition next_of (p : option addr) : M (option addr) :=
  match p with Some p => nd ← get p; mret (next nd) | None => mret None end.

Definition _quicklistMergeNodes (center : addr) : M unit :=
  f ← gets fill;
  prev ← prev_of (Some center); prev_prev ← prev_of prev;
  next ← next_of (Some center); next_next ← next_of next;
  allow ← _quicklistNodeAllowMerge prev prev_prev f;
  (if (allow : bool) then a ← deref prev_prev; b ← deref prev; _quicklistListpackMerge a b ;; mret tt else mret tt) ;;
  allow ← _quicklistNodeAllowMerge next next_next f;
  (if (allow : bool) then a ← deref next; b ← deref next_next; _quicklistListpackMerge a b ;; mret tt else mret tt) ;;
  prev ← prev_of (Some center);
  allow ← _quicklistNodeAllowMerge (Some center) prev f;
  target ← (if (allow : bool) then a ← deref prev; _quicklistListpackMerge a center else mret (Some center));
  target ← deref target;
  next ← next_of (Some target);
  allow ← _quicklistNodeAllowMerge (Some target) next f;
  if (allow : bool) then b ← deref next; _quicklistListpackMerge target b ;; mret tt else mret tt.

(** [lpDeleteRange], [lpLength] and [lpBytes] on the listpack of a node. *)
Definition trim_node (node : addr) (start extent : Z) : M unit :=
  lp ← buffer node;
  lp ← lift (lpDeleteRange lp start (u64 extent));
  '(n, lp) ← lift (lpLength lp);
  update node (with_entry (Buf lp)) ;;
  update node (with_count (u16 n)) ;;
  quicklistNodeUpdateSz node.

Definition _quicklistSplitNode (node : addr) (offset : Z) (after : bool) : M addr :=
  nd ← get node;
  new_node ← quicklistCreateNode;
  b ← buffer node;
  copy ← lift (rd b 0 (sz (data nd)));
  update new_node (with_entry (Buf copy)) ;;
  let offset := if offset <? 0 then count (data nd) + offset else offset in
  let orig_start := if after then offset + 1 else 0 in
  let orig_extent := if after then -1 else offset in
  let new_start := if after then 0 else offset in
  let new_extent := if after then offset + 1 else -1 in
  trim_node node orig_start orig_extent ;;
  trim_node new_node new_start new_extent ;;
  mret new_node.

(** ** Insertion next to an entry *)

Definition resetIterator (iter : quicklistIter) : quicklistIter :=
  {| current := None; zi := None; offset := offset iter; direction := direction iter |}.

(** A listpack function applied to a node that is decompressed meanwhile. *)
Definition insert_into (node : addr) (f : list Z -> option (option (list Z * option Z))) : M unit :=
  quicklistDecompressNodeForUse node ;;
  lp ← buffer node;
  set_listpack node (f lp) ;;
  update node (count_add 1) ;;
  quicklistNodeUpdateSz node ;;
  quicklistRecompressOnly node.

(** The branch for a large element. *)
Definition insert_large (node : addr) (value : sds) (offset : Z) (at_end after : bool) : M unit :=
  nd ← get node;
  if QL_NODE_IS_PLAIN (data nd) || at_end then __quicklistInsertPlainNode (Some node) value after
  else
    quicklistDecompressNodeForUse node ;;
    new_node ← _quicklistSplitNode node offset after;
    entry_node ← __quicklistCreatePlainNode value;
    __quicklistInsertNode (Some node) entry_node after ;;
    __quicklistInsertNode (Some entry_node) new_node after ;;
    modify (add_count 1).

(** The branch for a full node: at its end into the neighbour or a new node,
    otherwise the node is split. *)
Definition insert_full (node : addr) (value : sds) (offset : Z) (at_end : bool) (avail : bool)
    (neighbour : option addr) (after : bool) : M unit :=
  if at_end && avail then
    new_node ← deref neighbour;
    insert_into new_node (fun lp => if after then lpPrepend lp value else lpAppend lp value) ;;
    quicklistRecompressOnly node
  else if at_end then
    new_node ← new_listpack_node value;
    update new_node (count_add 1) ;;
    quicklistNodeUpdateSz new_node ;;
    __quicklistInsertNode (Some node) new_node after
  else
    quicklistDecompressNodeForUse node ;;
    new_node ← _quicklistSplitNode node offset after;
    lp ← buffer new_node;
    set_listpack new_node (if after then lpPrepend lp value else lpAppend lp value) ;;
    update new_node (count_add 1) ;;
    quicklistNodeUpdateSz new_node ;;
    __quicklistInsertNode (Some node) new_node after ;;
    _quicklistMergeNodes node.

(** [at_tail] and [avail_next], or [at_head] and [avail_prev], are [at_end] and
    [avail]: only those on the side given by [after] are ever set. *)
Definition _quicklistInsert (iter : quicklistIter) (entry : quicklistEntry) (value : sds) (after : bool) : M quicklistIter :=
  f ← gets fill;
  match e_node entry with
  | None =>
      if isLargeElement (Zlen value) then
        t ← gets tail; __quicklistInsertPlainNode t value after ;; mret iter
      else
        new_node ← new_listpack_node value;
        __quicklistInsertNode None new_node after ;;
        update new_node (count_add 1) ;;
        modify (add_count 1) ;;
        mret iter
  | Some node =>
      allow ← _quicklistNodeAllowInsert (Some node) f (Zlen value);
      let full := negb allow in
      nd ← get node;
      let neighbour := if after then next nd else prev nd in
      let at_end := if after then (e_offset entry =? count (data nd) - 1) || (e_offset entry =? -1)
                    else (e_offset entry =? 0) || (e_offset entry =? - count (data nd)) in
      avail ← (if at_end then _quicklistNodeAllowInsert neighbour f (Zlen value) else mret false);
      if isLargeElement (Zlen value) then insert_large node value (e_offset entry) at_end after ;; mret iter
      else
        (if negb full then
           p ← lift (e_zi entry);
           insert_into node (fun lp => lpInsertString lp value p (if after then LP_AFTER else LP_BEFORE))
         else insert_full node value (e_offset entry) at_end avail neighbour after) ;;
        modify (add_count 1) ;;
        mret (resetIterator iter)
  end.

Definition quicklistInsertBefore (iter : quicklistIter) (entry : quicklistEntry) (value : sds) : M quicklistIter :=
  _quicklistInsert iter entry value false.

Definition quicklistInsertAfter (iter : quicklistIter) (entry : quicklistEntry) (value : sds) : M quicklistIter :=
  _quicklistInsert iter entry value true.

Definition quicklistReplaceEntry (iter : quicklistIter) (entry : quicklistEntry) (value : sds) : M quicklistIter :=
  node ← deref (e_node entry);
  nd ← get node;
  let plain := QL_NODE_IS_PLAIN (data nd) in
  let large := isLargeElement (Zlen value) in
  (if negb plain && negb large then
     lp ← buffer node; p ← lift (e_zi entry);
     set_listpack node (lpReplace lp p value) ;;
     quicklistNodeUpdateSz node ;;
     quicklistCompress node
   else if plain then
     if large then
       update node (with_entry (Buf value)) ;;
       update node (with_sz (Zlen value)) ;;
       quicklistCompress node
     else
       quicklistInsertAfter iter entry value ;;
       __quicklistDelNode node
   else
     update node (with_dont_compress true) ;;
     quicklistInsertAfter iter entry value ;;
     nd ← get node;
     if count (data nd) =? 1 then __quicklistDelNode node
     else
       lp ← buffer node;
       p ← lift (lpSeek lp (-1));
       quicklistDelIndex node p ;;
       update node (with_dont_compress false) ;;
       quicklistCompress node ;;
       nx ← next_of (Some node); nx ← deref nx;
       quicklistCompress nx) ;;
  mret (resetIterator iter).

(** ** Iteration *)

Definition quicklistGetIterator (q : quicklist) (d : direction_) : quicklistIter :=
  match d with
  | AL_START_HEAD => {| current := head q; zi := None; offset := 0; direction := d |}
  | AL_START_TAIL => {| current := tail q; zi := None; offset := -1; direction := d |}
  end.

(** The loop over the nodes: the node with the index and [accum]. *)
Fixpoint seek_loop (fuel : nat) (seek_forward : bool) (seek_index accum : Z) (n : option addr) : M (option (addr * Z)) :=
  match fuel with
  | O => lift None
  | S fuel' =>
      match n with
      | None => mret None
      | Some n =>
          nd ← get n;
          if seek_index <? u64 (accum + count (data nd)) then mret (Some (n, accum))
          else seek_loop fuel' seek_forward seek_index (u64 (accum + count (data nd)))
                 (if seek_forward then next nd else prev nd)
      end
  end.

(** A loop over the nodes. *)
Definition nodes_fuel : M nat := fun s => Some (S (size (nodes s)), s).

(** [- idx], which overflows for the smallest [long long]. *)
Definition negate (idx : Z) : option Z := if idx =? LLONG_MIN then None else Some (- idx).

Definition quicklistGetIteratorAtIdx (d : direction_) (idx : Z) : M (option quicklistIter) :=
  q ← gets id;
  let forward := negb (idx <? 0) in
  index ← lift (if forward then Some idx else n ← negate idx; Some (n - 1));
  if ql_count q <=? index then mret None
  else
    let other := u64 (ql_count q - 1) / 2 <? index in
    let seek_forward := if other then negb forward else forward in
    let seek_index := if other then u64 (u64 (ql_count q - 1) - index) else index in
    fuel ← nodes_fuel;
    r ← seek_loop fuel seek_forward seek_index 0 (if seek_forward then head q else tail q);
    match r with
    | None => mret None
    | Some (n, accum) =>
        nd ← get n;
        let accum := if bool_decide (seek_forward = forward) then accum else u64 (ql_count q - count (data nd) - accum) in
        mret (Some {| current := Some n; zi := None;
                      offset := if forward then s64 (index - accum) else s64 (- index - 1 + accum);
                      direction := d |})
    end.

Definition quicklistReleaseIterator (iter : option quicklistIter) : M unit :=
  match iter with
  | None => mret tt
  | Some iter => match current iter with Some n => quicklistCompress n | None => mret tt end
  end.

Definition lp_value (lp : list Z) (p : Z) : option (sds + Z) :=
  v ← lpGet lp p;
  match v with
  | LpInt z => Some (inr z)
  | LpStr off n => bs ← rd lp off n; Some (inl bs)
  end.

(** One step on the current node: the new [zi] and [offset]. *)
Definition next_zi (n : addr) (iter : quicklistIter) : M (option Z * Z) :=
  nd ← get n;
  let plain := QL_NODE_IS_PLAIN (data nd) in
  match zi iter with
  | None =>
      quicklistDecompressNodeForUse n ;;
      lp ← buffer n;
      if plain then mret (Some 0, offset iter)
      else p ← lift (lpSeek lp (offset iter)); mret (p, offset iter)
  | Some p =>
      if plain then mret (None, offset iter)
      else
        lp ← buffer n;
        match direction iter with
        | AL_START_HEAD => p ← lift (lpNext lp p); mret (p, offset iter + 1)
        | AL_START_TAIL => p ← lift (lpPrev lp p); mret (p, offset iter - 1)
        end
  end.

(** A call for every node that is entered. *)
Fixpoint iter_loop (fuel : nat) (iter : quicklistIter) : M (bool * quicklistIter * quicklistEntry) :=
  match fuel with
  | O => lift None
  | S fuel' =>
      match current iter with
      | None => mret (false, iter, {| e_node := None; e_zi := None; e_value := None; e_offset := 123456789 |})
      | Some n =>
          nd ← get n;
          '(p, off) ← next_zi n iter;
          match p with
          | Some p =>
              lp ← buffer n;
              v ← lift (if QL_NODE_IS_PLAIN (data nd) then bs ← rd lp 0 (sz (data nd)); Some (inl bs) else lp_value lp p);
              mret (true, {| current := current iter; zi := Some p; offset := off; direction := direction iter |},
                    {| e_node := current iter; e_zi := Some p; e_value := Some v; e_offset := s32 off |})
          | None =>
              quicklistCompress n ;;
              nd ← get n;
              iter_loop fuel'
                (match direction iter with
                 | AL_START_HEAD => {| current := next nd; zi := None; offset := 0; direction := direction iter |}
                 | AL_START_TAIL => {| current := prev nd; zi := None; offset := -1; direction := direction iter |}
                 end)
          end
      end
  end.

Definition quicklistNext (iter : quicklistIter) : M (bool * quicklistIter * quicklistEntry) :=
  fuel ← nodes_fuel; iter_loop fuel iter.

Definition quicklistSetDirection (iter : quicklistIter) (d : direction_) : quicklistIter :=
  {| current := current iter; zi := zi iter; offset := offset iter; direction := d |}.

Definition quicklistGetIteratorEntryAtIdx (idx : Z) : M (option (quicklistIter * quicklistEntry)) :=
  iter ← quicklistGetIteratorAtIdx AL_START_TAIL idx;
  match iter with
  | None => mret None
  | Some iter =>
      '(found, iter, entry) ← quicklistNext iter;
      assert found ;;
      mret (Some (iter, entry))
  end.

Definition quicklistReplaceAtIndex (index : Z) (value : sds) : M bool :=
  r ← quicklistGetIteratorEntryAtIdx index;
  match r with
  | None => mret false
  | Some (iter, entry) =>
      iter ← quicklistReplaceEntry iter entry value;
      quicklistReleaseIterator (Some iter) ;;
      mret true
  end.

Definition quicklistCompare (entry : quicklistEntry) (p2 : sds) : M bool :=
  node ← deref (e_node entry);
  nd ← get node;
  if QL_NODE_IS_PLAIN (data nd) then
    mret (match e_value entry with Some (inl v) => bool_decide (v = p2) | _ => false end)
  else
    lp ← buffer node; p ← lift (e_zi entry);
    lift (lpCompare lp p p2).

(** ** Deletion of a range *)

(** How many elements of a node are deleted, and whether it is deleted as a
    whole. *)
Definition del_count (node_count offset extent : Z) : Z * bool :=
  if (offset =? 0) && (node_count <=? extent) then (node_count, true)
  else if (0 <=? offset) && (node_count <=? u64 (extent + offset)) then (u64 (node_count - offset), false)
  else if offset <? 0 then
    let del := u64 (- offset) in
    (if extent <? del then extent else del, false)
  else (extent, false).

Fixpoint delrange_loop (fuel : nat) (node : option addr) (offset extent : Z) : M unit :=
  if extent =? 0 then mret tt
  else
    match fuel with
    | O => lift None
    | S fuel' =>
        n ← deref node;
        nd ← get n;
        let next := next nd in
        let '(del, delete_entire_node) := del_count (count (data nd)) offset extent in
        (if delete_entire_node || QL_NODE_IS_PLAIN (data nd) then __quicklistDelNode n
         else
           quicklistDecompressNodeForUse n ;;
           lp ← buffer n;
           lp ← lift (lpDeleteRange lp offset del);
           update n (with_entry (Buf lp)) ;;
           quicklistNodeUpdateSz n ;;
           update n (count_add (- del)) ;;
           modify (add_count (- del)) ;;
           nd ← get n;
           if count (data nd) =? 0 then __quicklistDelNode n else quicklistRecompressOnly n) ;;
        delrange_loop fuel' next 0 (u64 (extent - del))
    end.

Definition quicklistDelRange (start cnt : Z) : M bool :=
  if cnt <=? 0 then mret false
  else
    total ← gets ql_count;
    extent ← lift (if (0 <=? start) && (u64 (total - start) <? cnt) then Some (u64 (total - start))
                   else if start <? 0 then n ← negate start; Some (if n <? cnt then n else cnt)
                   else Some cnt);
    iter ← quicklistGetIteratorAtIdx AL_START_TAIL start;
    match iter with
    | None => mret false
    | Some iter =>
        let node := current iter in
        let off := offset iter in
        quicklistReleaseIterator (Some iter) ;;
        fuel ← nodes_fuel;
        delrange_loop fuel node off extent ;;
        mret true
    end.

(** ** Rotation and removal at the ends *)

Definition quicklistRotatePlain : M unit :=
  t ← gets tail; h ← gets head;
  new_head ← deref t; hd ← deref h;
  nd ← get new_head;
  let new_tail := prev nd in
  set_prev hd (Some new_head) ;;
  nt ← deref new_tail;
  set_next nt None ;;
  set_next new_head (Some hd) ;;
  set_prev new_head None ;;
  modify (with_head (Some new_head)) ;;
  modify (with_tail new_tail).

(** The bytes of a value; [ll2string] writes into [longstr]. *)
Definition value_bytes (v : sds + Z) : option sds :=
  match v with
  | inl s => Some s
  | inr z => '(n, buf) ← ll2string (replicate 32 0) 32 z; rd buf 0 n
  end.

Definition quicklistRotate : M unit :=
  n ← gets ql_count;
  if n <=? 1 then mret tt
  else
    t ← gets tail; t ← deref t; td ← get t;
    if QL_NODE_IS_PLAIN (data td) then quicklistRotatePlain
    else
      lp ← buffer t;
      p ← lift (lpSeek lp (-1));
      q ← lift p;
      v ← lift (lp_value lp q); value ← lift (value_bytes v);
      quicklistPushHead value ;;
      n ← gets len;
      t ← gets tail; t ← deref t;
      p ← (if n =? 1 then lp ← buffer t; lift (lpSeek lp (-1)) else mret p);
      quicklistDelIndex t p ;;
      mret tt.

Inductive where_end := QUICKLIST_HEAD | QUICKLIST_TAIL.

Definition quicklistPopCustom (where' : where_end) : M (option (sds + Z)) :=
  q ← gets id;
  if ql_count q =? 0 then mret None
  else
    match match where' with QUICKLIST_HEAD => head q | QUICKLIST_TAIL => tail q end with
    | None => mret None
    | Some node =>
        nd ← get node;
        assert (negb (bool_decide (encoding (data nd) = LZF))) ;;
        lp ← buffer node;
        if QL_NODE_IS_PLAIN (data nd) then
          bs ← lift (rd lp 0 (sz (data nd)));
          quicklistDelIndex node None ;;
          mret (Some (inl bs))
        else
          p ← lift (lpSeek lp (match where' with QUICKLIST_HEAD => 0 | QUICKLIST_TAIL => -1 end));
          q ← lift p;
          v ← lift (lp_value lp q);
          quicklistDelIndex node p ;;
          mret (Some v)
    end.

Definition quicklistPop (where' : where_end) : M (option (sds + Z)) :=
  n ← gets ql_count;
  if n =? 0 then mret None else quicklistPopCustom where'.

Definition quicklistPush (value : sds) (where' : where_end) : M unit :=
  q ← gets id;
  (match head q with
   | Some h => hd ← get h; assert (negb (bool_decide (encoding (data hd) = LZF)))
   | None => mret tt
   end) ;;
  (match tail q with
   | Some t => td ← get t; assert (negb (bool_decide (encoding (data td) = LZF)))
   | None => mret tt
   end) ;;
  match where' with
  | QUICKLIST_HEAD => quicklistPushHead value ;; mret tt
  | QUICKLIST_TAIL => quicklistPushTail value ;; mret tt
  end.

(** ** Copying and freeing *)

(** The loop over the nodes of the original, whose heap is [orig]. *)
Fixpoint dup_loop (fuel : nat) (orig : heap) (cur : option addr) : M unit :=
  match cur with
  | None => mret tt
  | Some c =>
      match fuel with
      | O => lift None
      | S fuel' =>
          cd ← lift (orig !! c);
          node ← quicklistCreateNode;
          e ← lift (match encoding (data cd), entry (data cd) with
                    | LZF, LzfBuf b => Some (LzfBuf b)
                    | RAW, Buf b => bs ← rd b 0 (sz (data cd)); Some (Buf bs)
                    | _, _ => None
                    end);
          update node (with_entry e) ;;
          update node (with_count (count (data cd))) ;;
          modify (add_count (count (data cd))) ;;
          update node (with_sz (sz (data cd))) ;;
          update node (with_encoding (encoding (data cd))) ;;
          update node (with_container (container (data cd))) ;;
          t ← gets tail;
          _quicklistInsertNodeAfter t node ;;
          dup_loop fuel' orig (next cd)
      end
  end.

(** The copy has a heap of its own. *)
Definition quicklistDup (orig : state) : option state :=
  let copy := {| ql := quicklistNew (fill (ql orig)) (compress (ql orig)); nodes := ∅ |} in
  '(_, copy) ← dup_loop (size (nodes orig)) (nodes orig) (head (ql orig)) copy;
  Some copy.

Fixpoint release_loop (n : nat) (current : option addr) : M unit :=
  match n with
  | O => mret tt
  | S n' =>
      c ← deref current;
      nd ← get c;
      modify (add_count (- count (data nd))) ;;
      zfree c ;;
      modify (add_len (-1)) ;;
      release_loop n' (next nd)
  end.

Definition quicklistRelease : M unit :=
  q ← gets id;
  release_loop (Z.to_nat (len q)) (head q) ;;
  quicklistBookmarksClear.

End Code.

(** Buffers after the first page, and a stack of zeros. *)
#[export] Instance lzf_memory0 : LzfMemory.
Proof.
  by refine {| address := fun _ _ => Lzf.MAX_OFF; stack := fun _ _ _ => 0 |}.
Defined.

End Quicklist.
