(* ===== verification/QuicklistSpec.v ===== *)
(** * The nodes of a quicklist

    The heap of a quicklist is the doubly linked list of its nodes, in a
    sequence [L] of addresses and contents, and the nodes that are not linked.
    A state is determined by these, so the functions that link and unlink
    nodes are equations between such states.  Compression changes how the
    bytes of a node are stored and not the bytes, and keeps the nodes at the
    ends uncompressed. *)

From stdpp Require Import gmap.
From S2P Require Import Prelude.
From S2P Require Import NumConv.
From S2P Require Import ListpackEnc.
From S2P Require Import Listpack.
From S2P Require Import Lzf.
From S2P Require Import Quicklist.
Import NumConv LpEnc Lp Quicklist.

Module QlSpec.

Abbreviation nlist := (list (addr * nodeData)).

(** ** Doubly linked lists *)

(** The first address of a sequence, or [n] after its end; the last one, or
    [p] before its start. *)
Definition first_of (L : nlist) (n : option addr) : option addr :=
  match L with [] => n | (a, _) :: _ => Some a end.

Fixpoint last_of (p : option addr) (L : nlist) : option addr :=
  match L with [] => p | (a, _) :: L => last_of (Some a) L end.

(** The nodes of a sequence between [p] and [n]. *)
Fixpoint seg (p : option addr) (L : nlist) (n : option addr) : heap :=
  match L with
  | [] => ∅
  | (a, d) :: L => <[a := {| prev := p; next := first_of L n; data := d |}]> (seg (Some a) L n)
  end.

Lemma first_of_app L1 L2 n : first_of (L1 ++ L2) n = first_of L1 (first_of L2 n).
Proof. by destruct L1 as [|[a d] L1]. Qed.

Lemma last_of_app p L1 L2 : last_of p (L1 ++ L2) = last_of (last_of p L1) L2.
Proof. revert p. induction L1 as [|[a d] L1 IH]; intros p; [done|]. cbn. apply IH. Qed.

Lemma last_of_snoc p L a d : last_of p (L ++ [(a, d)]) = Some a.
Proof. by rewrite last_of_app. Qed.

Lemma seg_none p L n a : a ∉ L.*1 -> seg p L n !! a = None.
Proof.
  revert p. induction L as [|[b d] L IH]; intros p Ha; [done|]. cbn in Ha |- *. apply not_elem_of_cons in Ha as [Hne Ha].
  rewrite lookup_insert_ne by done. by apply IH.
Qed.

Lemma seg_app p L1 L2 n : seg p (L1 ++ L2) n = seg p L1 (first_of L2 n) ∪ seg (last_of p L1) L2 n.
Proof.
  revert p. induction L1 as [|[a d] L1 IH]; intros p; cbn; [by rewrite map_empty_union|].
  by rewrite IH, first_of_app, insert_union_l.
Qed.

Lemma seg_cons p a d L n : seg p ((a, d) :: L) n = <[a := {| prev := p; next := first_of L n; data := d |}]> (seg (Some a) L n).
Proof. done. Qed.

(** The addresses of a sequence are those of its nodes. *)
Lemma seg_dom p L n a : is_Some (seg p L n !! a) <-> a ∈ L.*1.
Proof.
  revert p. induction L as [|[b d] L IH]; intros p; cbn.
  - rewrite lookup_empty. split; [by intros [? ?]|by intros ?%elem_of_nil].
  - rewrite lookup_insert_is_Some', IH, elem_of_cons. naive_solver.
Qed.

(** ** Running computations *)

Lemma bind_step {A B} (m : M A) (k : A -> M B) s a s' : m s = Some (a, s') -> (m ≫= k) s = k a s'.
Proof. intros Hm. unfold mbind, M_bind. by rewrite Hm. Qed.

Lemma bind_bind {A B T} (m : M A) (k : A -> M B) (k' : B -> M T) s : ((m ≫= k) ≫= k') s = (m ≫= (fun x => k x ≫= k')) s.
Proof. unfold mbind, M_bind. destruct (m s) as [[a s']|]; done. Qed.

(** One step with a known result. *)
Ltac mstep H := rewrite ?bind_bind; rewrite (bind_step _ _ _ _ _ H); cbv beta.

(** A step that computes. *)
Ltac dstep := cbv beta iota; rewrite ?bind_bind; erewrite bind_step by done; cbv beta iota.

Section Conc.
Context `{Allocator} `{LzfMemory} (F C : Z).

(** The struct with the given nodes. *)
Definition qlof (L : nlist) (n : Z) (bs : list quicklistBookmark) : quicklist :=
  {| head := first_of L None; tail := last_of None L; ql_count := n; len := Zlen L; fill := F; compress := C; bookmarks := bs |}.

(** The state with the linked nodes [L] and the other nodes [D]. *)
Definition conc (L : nlist) (D : heap) (n : Z) (bs : list quicklistBookmark) : state :=
  {| ql := qlof L n bs; nodes := seg None L None ∪ D |}.

Record ok (L : nlist) (D : heap) : Prop := {
  ok_nodup : NoDup L.*1;
  ok_disjoint a : a ∈ L.*1 -> D !! a = None;
  ok_len : Zlen L < 2 ^ 63;
}.

Lemma nodup_mid (L1 L2 : nlist) a d :
  NoDup (L1 ++ (a, d) :: L2).*1 -> a ∉ L1.*1 /\ a ∉ L2.*1 /\ NoDup L1.*1 /\ NoDup L2.*1 /\ (forall b, b ∈ L1.*1 -> b ∉ L2.*1).
Proof.
  rewrite fmap_app, fmap_cons. intros (H1 & H2 & H3)%NoDup_app. cbn in *. apply NoDup_cons in H3 as [H3 H4].
  repeat split; try done; set_solver.
Qed.

Lemma conc_lookup L1 a d L2 D n bs :
  ok (L1 ++ (a, d) :: L2) D ->
  nodes (conc (L1 ++ (a, d) :: L2) D n bs) !! a = Some {| prev := last_of None L1; next := first_of L2 None; data := d |}.
Proof.
  intros [Hnd Hdj _]. destruct (nodup_mid _ _ _ _ Hnd) as (H1 & H2 & _). cbn [nodes conc].
  apply lookup_union_Some_l. rewrite seg_app, lookup_union_r by by apply seg_none. cbn. by rewrite lookup_insert_eq.
Qed.

Lemma conc_lookup_other L D n bs a : ok L D -> a ∉ L.*1 -> nodes (conc L D n bs) !! a = D !! a.
Proof. intros _ Ha. cbn [nodes conc]. by rewrite lookup_union_r by by apply seg_none. Qed.

(** Reading and writing linked and other nodes. *)
Lemma get_linked L1 a d L2 D n bs :
  ok (L1 ++ (a, d) :: L2) D ->
  get a (conc (L1 ++ (a, d) :: L2) D n bs) =
  Some ({| prev := last_of None L1; next := first_of L2 None; data := d |}, conc (L1 ++ (a, d) :: L2) D n bs).
Proof. intros Hok. unfold get, lift. by rewrite conc_lookup. Qed.

Lemma get_other L D n bs a nd : ok L D -> D !! a = Some nd -> get a (conc L D n bs) = Some (nd, conc L D n bs).
Proof.
  intros Hok Ha. unfold get, lift. rewrite conc_lookup_other, Ha; [done|done|]. intros Hin. by rewrite (ok_disjoint _ _ Hok a Hin) in Ha.
Qed.

Lemma put_other L D n bs a nd nd' :
  ok L D -> D !! a = Some nd -> put a nd' (conc L D n bs) = Some (tt, conc L (<[a := nd']> D) n bs) /\ ok L (<[a := nd']> D).
Proof.
  intros Hok Ha. assert (Hn : a ∉ L.*1) by (intros Hin; by rewrite (ok_disjoint _ _ Hok a Hin) in Ha). split.
  - unfold put, mbind, M_bind. rewrite (get_other _ _ _ _ _ _ Hok Ha). cbn [mbind option_bind]. unfold modify_nodes, conc. cbn [ql nodes].
    by rewrite insert_union_r by by apply seg_none.
  - destruct Hok. split; [done| |done]. intros b Hb. rewrite lookup_insert_ne by set_solver. auto.
Qed.

Lemma set_prev_at a p s nd :
  nodes s !! a = Some nd ->
  set_prev a p s = Some (tt, {| ql := ql s; nodes := <[a := {| prev := p; next := next nd; data := data nd |}]> (nodes s) |}).
Proof. intros Ha. unfold set_prev, put, get, lift, modify_nodes, mbind, M_bind. by rewrite Ha; cbn; rewrite Ha. Qed.

Lemma set_next_at a p s nd :
  nodes s !! a = Some nd ->
  set_next a p s = Some (tt, {| ql := ql s; nodes := <[a := {| prev := prev nd; next := p; data := data nd |}]> (nodes s) |}).
Proof. intros Ha. unfold set_next, put, get, lift, modify_nodes, mbind, M_bind. by rewrite Ha; cbn; rewrite Ha. Qed.

Lemma update_at a f s nd :
  nodes s !! a = Some nd ->
  update a f s = Some (tt, {| ql := ql s; nodes := <[a := {| prev := prev nd; next := next nd; data := f (data nd) |}]> (nodes s) |}).
Proof. intros Ha. unfold update, put, get, lift, modify_nodes, mbind, M_bind. by rewrite Ha; cbn; rewrite Ha. Qed.

Lemma get_at a s nd : nodes s !! a = Some nd -> get a s = Some (nd, s).
Proof. intros Ha. unfold get, lift. by rewrite Ha. Qed.

Lemma gets_at {A} (f : quicklist -> A) s : gets f s = Some (f (ql s), s).
Proof. done. Qed.

Lemma modify_at f s : modify f s = Some (tt, {| ql := f (ql s); nodes := nodes s |}).
Proof. done. Qed.

Lemma when_at (b : bool) f s : when b (modify f) s = Some (tt, {| ql := if b then f (ql s) else ql s; nodes := nodes s |}).
Proof. by destruct b, s. Qed.

Lemma ret_at {A} (a : A) s : mret (M := M) a s = Some (a, s).
Proof. done. Qed.

(** The contents of a node change, and its links do not. *)
Lemma seg_update p L1 a d d' L2 n :
  a ∉ L1.*1 ->
  <[a := {| prev := last_of p L1; next := first_of L2 n; data := d' |}]> (seg p (L1 ++ (a, d) :: L2) n) = seg p (L1 ++ (a, d') :: L2) n.
Proof. intros Ha. rewrite !seg_app. cbn. rewrite insert_union_r, insert_insert_eq by by apply seg_none. done. Qed.

Lemma ok_mid L1 a d d' L2 D : ok (L1 ++ (a, d) :: L2) D -> ok (L1 ++ (a, d') :: L2) D.
Proof.
  intros [H1 H2 H3]. rewrite fmap_app, fmap_cons in H1, H2. split; rewrite ?fmap_app, ?fmap_cons; [done|done|].
  rewrite length_app in *. done.
Qed.

Lemma qlof_mid L1 a d d' L2 n bs : qlof (L1 ++ (a, d') :: L2) n bs = qlof (L1 ++ (a, d) :: L2) n bs.
Proof. unfold qlof. rewrite !first_of_app, !last_of_app, !length_app. done. Qed.

Lemma update_linked L1 a d L2 D n bs f :
  ok (L1 ++ (a, d) :: L2) D ->
  update a f (conc (L1 ++ (a, d) :: L2) D n bs) = Some (tt, conc (L1 ++ (a, f d) :: L2) D n bs).
Proof.
  intros Hok. rewrite (update_at _ _ _ _ (conc_lookup _ _ _ _ _ _ _ Hok)). cbn [prev next data ql conc nodes].
  rewrite insert_union_l, seg_update by apply (nodup_mid _ _ _ _ (ok_nodup _ _ Hok)). unfold conc. by rewrite (qlof_mid _ _ d (f d)).
Qed.

Lemma update_other L D n bs a nd f :
  ok L D -> D !! a = Some nd ->
  update a f (conc L D n bs) = Some (tt, conc L (<[a := {| prev := prev nd; next := next nd; data := f (data nd) |}]> D) n bs) /\
  ok L (<[a := {| prev := prev nd; next := next nd; data := f (data nd) |}]> D).
Proof.
  intros Hok Ha. unfold update, mbind, M_bind. rewrite (get_other _ _ _ _ _ _ Hok Ha). cbn [mbind option_bind].
  by apply (put_other _ _ _ _ _ nd).
Qed.

(** A new node. *)
Definition fresh_data : nodeData :=
  {| entry := Null; sz := 0; count := 0; encoding := RAW; container := PACKED; recompress := false; dont_compress := false |}.
Definition alone (d : nodeData) : quicklistNode := {| prev := None; next := None; data := d |}.

Lemma create_spec L D n bs :
  ok L D ->
  exists a, quicklistCreateNode (conc L D n bs) = Some (a, conc L (<[a := alone fresh_data]> D) n bs) /\
    a ∉ L.*1 /\ D !! a = None /\ ok L (<[a := alone fresh_data]> D).
Proof.
  intros Hok. exists (fresh (dom (nodes (conc L D n bs)))). set (a := fresh _).
  assert (Ha : nodes (conc L D n bs) !! a = None) by apply not_elem_of_dom, is_fresh.
  cbn [nodes conc] in Ha. apply lookup_union_None in Ha as [Hs HD].
  assert (HaL : a ∉ L.*1) by (intros Hin; apply (seg_dom None L None) in Hin as [? Hin]; congruence).
  split; [|split; [done|split; [done|]]].
  - unfold quicklistCreateNode. fold a. cbn [ql nodes conc]. unfold conc. by rewrite insert_union_r.
  - destruct Hok. split; [done| |done]. intros b Hb. rewrite lookup_insert_ne by set_solver. auto.
Qed.

(** Changes of the counter. *)
Lemma add_count_conc L D n bs k : modify (add_count k) (conc L D n bs) = Some (tt, conc L D (u64 (n + k)) bs).
Proof. done. Qed.

(** ** Linking and unlinking *)

Lemma first_last L : L <> [] -> first_of L None <> None /\ last_of None L <> None.
Proof.
  intros HL. destruct L as [|[a d] L]; [done|]. split; [done|]. cbn. revert a d HL. induction L as [|[b e] L IH]; intros a d _; [done|].
  cbn. by apply (IH b e).
Qed.

Lemma ok_insert L1 L2 D b nd : ok (L1 ++ L2) D -> D !! b = Some nd -> Zlen (L1 ++ L2) < 2 ^ 63 - 1 -> forall d, ok (L1 ++ (b, d) :: L2) (delete b D).
Proof.
  intros [Hnd Hdj Hl] Hb Hlen d. rewrite fmap_app in Hnd, Hdj. split; rewrite ?fmap_app, ?fmap_cons; cbn [fst].
  - apply NoDup_app in Hnd as (H1 & H2 & H3). assert (b ∉ L1.*1 ++ L2.*1) as Hn by (intros Hin; rewrite Hdj in Hb; done).
    apply not_elem_of_app in Hn as [Hn1 Hn2]. apply NoDup_app. split; [done|]. split; [|by constructor]. set_solver.
  - intros a Ha. destruct (decide (a = b)) as [->|Hne]; [by rewrite lookup_delete_eq|]. rewrite lookup_delete_ne by done. apply Hdj. set_solver.
  - rewrite Zlen_app in *. cbn [length]. lia.
Qed.

(** Decides equalities of heaps that differ in a few named nodes. *)
Ltac heap_eq :=
  apply map_eq; intros k;
  repeat first [rewrite lookup_union | rewrite lookup_insert | rewrite lookup_delete | rewrite lookup_empty];
  repeat case_decide; subst; try done;
  repeat match goal with H : ?h !! ?k = _ |- context [?h !! ?k] => rewrite H end; try done;
  repeat match goal with |- context [?h !! ?k] => destruct (h !! k) end; done.

Lemma link_after_heap L1 o od L2 D b nd :
  ok (L1 ++ (o, od) :: L2) D -> D !! b = Some (alone nd) ->
  let h := <[b := {| prev := Some o; next := first_of L2 None; data := nd |}]>
             (<[b := {| prev := Some o; next := None; data := nd |}]> (seg None (L1 ++ (o, od) :: L2) None ∪ D)) in
  <[o := {| prev := last_of None L1; next := Some b; data := od |}]>
    (match L2 with
     | [] => h
     | (x, xd) :: L2' => <[x := {| prev := Some b; next := first_of L2' None; data := xd |}]> h
     end) =
  seg None (L1 ++ (o, od) :: (b, nd) :: L2) None ∪ delete b D.
Proof.
  intros Hok Hb h. subst h. destruct (nodup_mid _ _ _ _ (ok_nodup _ _ Hok)) as (Ho1 & Ho2 & _ & Hn2 & H12).
  assert (HbL : b ∉ (L1 ++ (o, od) :: L2).*1) by (intros Hin; by rewrite (ok_disjoint _ _ Hok b Hin) in Hb).
  rewrite fmap_app, fmap_cons, not_elem_of_app, not_elem_of_cons in HbL. cbn in HbL. destruct HbL as (Hb1 & Hbo & Hb2).
  rewrite !seg_app. cbn [seg first_of].
  pose proof (seg_none None L1 (Some o) _ Ho1) as E1. pose proof (seg_none None L1 (Some o) _ Hb1) as E2.
  destruct L2 as [|[x xd] L2].
  - cbn [seg first_of]. set (A := seg None L1 (Some o)) in *. clearbody A. heap_eq.
  - cbn [seg first_of] in *. rewrite fmap_cons in Ho2, Hn2, H12, Hb2. cbn [fst] in *.
    apply not_elem_of_cons in Ho2 as [Hox Ho2]. apply not_elem_of_cons in Hb2 as [Hbx Hb2]. apply NoDup_cons in Hn2 as [Hx2 _].
    assert (Hx1 : x ∉ L1.*1) by (intros Hin; apply (H12 _ Hin); by left).
    pose proof (seg_none None L1 (Some o) _ Hx1) as E3. pose proof (seg_none (Some x) L2 None _ Ho2) as E4.
    pose proof (seg_none (Some x) L2 None _ Hb2) as E5. pose proof (seg_none (Some x) L2 None _ Hx2) as E6.
    set (A := seg None L1 (Some o)) in *. set (R := seg (Some x) L2 None) in *. clearbody A R. heap_eq.
Qed.

Lemma link_before_heap L1 o od L2 D b nd :
  ok (L1 ++ (o, od) :: L2) D -> D !! b = Some (alone nd) ->
  let h := <[b := {| prev := last_of None L1; next := Some o; data := nd |}]>
             (<[b := {| prev := None; next := Some o; data := nd |}]> (seg None (L1 ++ (o, od) :: L2) None ∪ D)) in
  <[o := {| prev := Some b; next := first_of L2 None; data := od |}]>
    (match rev L1 with
     | [] => h
     | (x, xd) :: R => <[x := {| prev := last_of None (rev R); next := Some b; data := xd |}]> h
     end) =
  seg None (L1 ++ (b, nd) :: (o, od) :: L2) None ∪ delete b D.
Proof.
  intros Hok Hb h. subst h. destruct (nodup_mid _ _ _ _ (ok_nodup _ _ Hok)) as (Ho1 & Ho2 & Hn1 & _ & H12).
  assert (HbL : b ∉ (L1 ++ (o, od) :: L2).*1) by (intros Hin; by rewrite (ok_disjoint _ _ Hok b Hin) in Hb).
  rewrite fmap_app, fmap_cons, not_elem_of_app, not_elem_of_cons in HbL. cbn in HbL. destruct HbL as (Hb1 & Hbo & Hb2).
  rewrite (seg_app None L1). cbn [seg first_of]. rewrite (seg_app None L1). cbn [seg first_of].
  pose proof (seg_none (Some o) L2 None _ Ho2) as E1. pose proof (seg_none (Some o) L2 None _ Hb2) as E2.
  set (R := seg (Some o) L2 None) in *. clearbody R.
  destruct (rev L1) as [|[x xd] Q] eqn:Hrev; apply (f_equal (@rev _)) in Hrev; rewrite rev_involutive in Hrev; subst L1.
  - cbn [rev seg last_of]. heap_eq.
  - cbn [rev] in *. set (L := rev Q) in *. clearbody L. rewrite !seg_app, last_of_snoc. cbn [seg first_of].
    rewrite !fmap_app, !not_elem_of_app in *. cbn in *. apply NoDup_app in Hn1 as (_ & Hx1 & _).
    assert (x ≠ o) by set_solver. assert (x ≠ b) by set_solver. assert (Hx : x ∉ L.*1) by set_solver.
    assert (Hxo : x ∉ L2.*1) by set_solver.
    destruct Ho1 as [Ho1 _], Hb1 as [Hb1 _].
    pose proof (seg_none None L (Some x) _ Ho1) as E3. pose proof (seg_none None L (Some x) _ Hb1) as E4.
    pose proof (seg_none None L (Some x) _ Hx) as E5. set (A := seg None L (Some x)) in *. clearbody A. heap_eq.
Qed.

Lemma last_of_rev L1 : last_of None L1 = match rev L1 with [] => None | (x, _) :: _ => Some x end.
Proof.
  destruct (rev L1) as [|[x xd] R] eqn:Hrev; apply (f_equal (@rev _)) in Hrev; rewrite rev_involutive in Hrev; subst L1; [done|].
  cbn [rev]. by rewrite last_of_snoc.
Qed.

Lemma last_of_ne (L : nlist) p o : o ∉ L.*1 -> p <> Some o -> last_of p L <> Some o.
Proof.
  revert p. induction L as [|[a d] L IH]; intros p Hn Hp; [done|]. cbn in *. apply not_elem_of_cons in Hn as [Hne Hn]. apply IH; [done|congruence].
Qed.

Lemma conc_other L D n bs b nd : ok L D -> D !! b = Some nd -> nodes (conc L D n bs) !! b = Some nd.
Proof. intros Hok Hb. rewrite conc_lookup_other; [done|done|]. intros Hin. by rewrite (ok_disjoint _ _ Hok b Hin) in Hb. Qed.

(** A node is not the last one of others. *)
Lemma last_mid L1 o od L2 : o ∉ L2.*1 -> bool_decide (last_of None (L1 ++ (o, od) :: L2) = Some o) = bool_decide (L2 = []).
Proof.
  intros Ho. rewrite last_of_app. cbn [last_of]. apply bool_decide_ext. destruct L2 as [|[x xd] L2]; [done|].
  split; [|done]. cbn in Ho |- *. apply not_elem_of_cons in Ho as [Hne Ho]. intros Hl. exfalso. by eapply last_of_ne; [exact Ho| |exact Hl]; congruence.
Qed.

Lemma conc_next L1 o od L2 D n bs :
  ok (L1 ++ (o, od) :: L2) D ->
  match L2 with
  | [] => True
  | (x, xd) :: L2' => x ≠ o /\ nodes (conc (L1 ++ (o, od) :: L2) D n bs) !! x = Some {| prev := Some o; next := first_of L2' None; data := xd |}
  end.
Proof.
  intros Hok. destruct L2 as [|[x xd] L2]; [done|]. destruct (nodup_mid _ _ _ _ (ok_nodup _ _ Hok)) as (_ & Ho & _).
  split; [cbn in Ho; set_solver|]. change ((o, od) :: (x, xd) :: L2) with ([(o, od)] ++ (x, xd) :: L2) in *. rewrite app_assoc in *.
  by rewrite conc_lookup, last_of_snoc.
Qed.

Lemma conc_prev R x xd o od L2 D n bs :
  ok ((R ++ [(x, xd)]) ++ (o, od) :: L2) D ->
  x ≠ o /\ nodes (conc ((R ++ [(x, xd)]) ++ (o, od) :: L2) D n bs) !! x = Some {| prev := last_of None R; next := Some o; data := xd |}.
Proof.
  intros Hok. destruct (nodup_mid _ _ _ _ (ok_nodup _ _ Hok)) as (Ho & _). split; [rewrite fmap_app in Ho; set_solver|].
  rewrite <- app_assoc in *. cbn [app] in *. by rewrite conc_lookup.
Qed.

Lemma other_ne L D b nd a : ok L D -> D !! b = Some nd -> a ∈ L.*1 -> b ≠ a.
Proof. intros Hok Hb Ha ->. by rewrite (ok_disjoint _ _ Hok a Ha) in Hb. Qed.

Lemma link_after_conc L1 o od L2 D n bs b nd :
  ok (L1 ++ (o, od) :: L2) D -> D !! b = Some (alone nd) ->
  exists q, link_after b (Some o) (conc (L1 ++ (o, od) :: L2) D n bs) =
    Some (tt, {| ql := q; nodes := seg None (L1 ++ (o, od) :: (b, nd) :: L2) None ∪ delete b D |}) /\
    q = {| head := first_of (L1 ++ (o, od) :: (b, nd) :: L2) None; tail := last_of None (L1 ++ (o, od) :: (b, nd) :: L2);
           ql_count := n; len := Zlen (L1 ++ (o, od) :: L2); fill := F; compress := C; bookmarks := bs |}.
Proof.
  intros Hok Hb. destruct (nodup_mid _ _ _ _ (ok_nodup _ _ Hok)) as (_ & Ho2 & _).
  assert (b ≠ o) by (eapply other_ne; [exact Hok|exact Hb|rewrite fmap_app, fmap_cons; set_solver]).
  pose proof (link_after_heap _ _ _ _ _ _ _ Hok Hb) as Hheap. cbv zeta in Hheap. rewrite <- Hheap.
  pose proof (conc_next _ _ _ _ _ n bs Hok) as Hnx. pose proof (conc_lookup _ _ _ _ _ n bs Hok) as Hgo.
  unfold link_after. cbn [conc nodes ql] in *.
  rewrite (bind_step _ _ _ _ _ (set_prev_at b (Some o) (conc (L1 ++ (o, od) :: L2) D n bs) _ (conc_other _ _ n bs _ _ Hok Hb))).
  cbn [conc nodes ql alone prev next data] in *. rewrite bind_bind.
  erewrite bind_step; [|apply get_at; cbn [nodes]; rewrite lookup_insert_ne by done; exact Hgo]. cbn [prev next data]. rewrite bind_bind.
  erewrite bind_step; [|apply set_next_at; cbn [nodes]; apply lookup_insert_eq]. cbn [prev next data ql nodes]. rewrite bind_bind.
  destruct L2 as [|[x xd] L2]; cbn [first_of] in *.
  - erewrite bind_step by done. erewrite bind_step; [|apply set_next_at; cbn [nodes]; rewrite !lookup_insert_ne by done; exact Hgo].
    erewrite bind_step by done. rewrite when_at. cbn [nodes ql prev next data]. eexists. split; [done|].
    cbn [qlof tail]. rewrite last_mid by done. cbn. unfold with_tail, qlof. cbn. rewrite !first_of_app, !last_of_app. done.
  - destruct Hnx as [Hxo Hx]. assert (b ≠ x) by (eapply other_ne; [exact Hok|exact Hb|rewrite fmap_app, !fmap_cons; set_solver]).
    erewrite bind_step; [|apply set_prev_at; cbn [nodes]; rewrite !lookup_insert_ne by done; exact Hx]. cbn [nodes ql prev next data].
    erewrite bind_step; [|apply set_next_at; cbn [nodes]; rewrite !lookup_insert_ne by done; exact Hgo].
    erewrite bind_step by done. rewrite when_at. cbn [nodes ql prev next data]. eexists. split; [done|].
    cbn [qlof tail]. rewrite last_mid by done. cbn. unfold with_tail, qlof. cbn. rewrite !first_of_app, !last_of_app. done.
Qed.

Lemma first_mid L1 o od L2 : o ∉ L1.*1 -> bool_decide (first_of (L1 ++ (o, od) :: L2) None = Some o) = bool_decide (L1 = []).
Proof.
  intros Ho. rewrite first_of_app. cbn [first_of]. apply bool_decide_ext. destruct L1 as [|[x xd] L1]; [done|].
  split; [|done]. cbn in Ho |- *. set_solver.
Qed.

Lemma link_before_conc L1 o od L2 D n bs b nd :
  ok (L1 ++ (o, od) :: L2) D -> D !! b = Some (alone nd) ->
  exists q, link_before b (Some o) (conc (L1 ++ (o, od) :: L2) D n bs) =
    Some (tt, {| ql := q; nodes := seg None (L1 ++ (b, nd) :: (o, od) :: L2) None ∪ delete b D |}) /\
    q = {| head := first_of (L1 ++ (b, nd) :: (o, od) :: L2) None; tail := last_of None (L1 ++ (b, nd) :: (o, od) :: L2);
           ql_count := n; len := Zlen (L1 ++ (o, od) :: L2); fill := F; compress := C; bookmarks := bs |}.
Proof.
  intros Hok Hb. destruct (nodup_mid _ _ _ _ (ok_nodup _ _ Hok)) as (Ho1 & _).
  assert (b ≠ o) by (eapply other_ne; [exact Hok|exact Hb|rewrite fmap_app, fmap_cons; set_solver]).
  pose proof (link_before_heap _ _ _ _ _ _ _ Hok Hb) as Hheap. cbv zeta in Hheap. rewrite <- Hheap.
  pose proof (conc_lookup _ _ _ _ _ n bs Hok) as Hgo.
  unfold link_before. cbn [conc nodes ql] in *.
  rewrite (bind_step _ _ _ _ _ (set_next_at b (Some o) (conc (L1 ++ (o, od) :: L2) D n bs) _ (conc_other _ _ n bs _ _ Hok Hb))).
  cbn [conc nodes ql alone prev next data] in *. rewrite bind_bind.
  erewrite bind_step; [|apply get_at; cbn [nodes]; rewrite lookup_insert_ne by done; exact Hgo]. cbn [prev next data]. rewrite bind_bind.
  erewrite bind_step; [|apply set_prev_at; cbn [nodes]; apply lookup_insert_eq]. cbn [prev next data ql nodes]. rewrite bind_bind.
  rewrite (last_of_rev L1) in *.
  destruct (rev L1) as [|[x xd] Q] eqn:Hrev; apply (f_equal (@rev _)) in Hrev; rewrite rev_involutive in Hrev; subst L1; cbn [rev] in *.
  - erewrite bind_step by done. erewrite bind_step; [|apply set_prev_at; cbn [nodes]; rewrite !lookup_insert_ne by done; exact Hgo].
    erewrite bind_step by done. rewrite when_at. cbn [nodes ql prev next data]. eexists. split; [done|].
    cbn [qlof head]. rewrite first_mid by done. done.
  - destruct (conc_prev _ _ _ _ _ _ _ n bs Hok) as [Hxo Hx]. cbn [conc nodes] in Hx.
    assert (b ≠ x) by (eapply other_ne; [exact Hok|exact Hb|rewrite !fmap_app; set_solver]).
    erewrite bind_step; [|apply set_next_at; cbn [nodes]; rewrite !lookup_insert_ne by done; exact Hx]. cbn [nodes ql prev next data].
    erewrite bind_step; [|apply set_prev_at; cbn [nodes]; rewrite !lookup_insert_ne by done; exact Hgo].
    erewrite bind_step by done. rewrite when_at. cbn [nodes ql prev next data]. eexists. split; [done|].
    cbn [qlof head]. rewrite first_mid by done. rewrite bool_decide_eq_false_2 by (by destruct (rev Q)). unfold qlof.
    rewrite !first_of_app, !last_of_app. cbn. by destruct (rev Q) as [|[? ?] ?].
Qed.

Lemma insert_after_eq L1 o od L2 D n bs b nd :
  ok (L1 ++ (o, od) :: L2) D -> D !! b = Some (alone nd) -> Zlen (L1 ++ (o, od) :: L2) < 2 ^ 63 - 1 ->
  __quicklistInsertNode (Some o) b true (conc (L1 ++ (o, od) :: L2) D n bs) =
  (quicklistCompress o ;; quicklistCompress b) (conc (L1 ++ (o, od) :: (b, nd) :: L2) (delete b D) n bs).
Proof.
  intros Hok Hb Hlen. destruct (link_after_conc _ _ _ _ _ n bs _ _ Hok Hb) as (q & Hl & Hq). unfold __quicklistInsertNode.
  mstep Hl. erewrite bind_step by done. erewrite bind_step by apply when_at. erewrite bind_step by done. cbn [nodes ql]. subst q.
  cbn [len]. rewrite (proj2 (Z.eqb_neq _ _)) by (rewrite length_app; cbn [length]; lia). unfold add_len. cbn. rewrite uwrap_small by lia.
  unfold conc, qlof. repeat f_equal. rewrite !length_app. cbn [length]. lia.
Qed.

Lemma insert_before_eq L1 o od L2 D n bs b nd :
  ok (L1 ++ (o, od) :: L2) D -> D !! b = Some (alone nd) -> Zlen (L1 ++ (o, od) :: L2) < 2 ^ 63 - 1 ->
  __quicklistInsertNode (Some o) b false (conc (L1 ++ (o, od) :: L2) D n bs) =
  (quicklistCompress o ;; quicklistCompress b) (conc (L1 ++ (b, nd) :: (o, od) :: L2) (delete b D) n bs).
Proof.
  intros Hok Hb Hlen. destruct (link_before_conc _ _ _ _ _ n bs _ _ Hok Hb) as (q & Hl & Hq). unfold __quicklistInsertNode.
  mstep Hl. erewrite bind_step by done. erewrite bind_step by apply when_at. erewrite bind_step by done. cbn [nodes ql]. subst q.
  cbn [len]. rewrite (proj2 (Z.eqb_neq _ _)) by (rewrite length_app; cbn [length]; lia). unfold add_len. cbn. rewrite uwrap_small by lia.
  unfold conc, qlof. repeat f_equal. rewrite !length_app. cbn [length]. lia.
Qed.

Lemma insert_empty_eq D n bs b nd after :
  ok [] D -> D !! b = Some (alone nd) ->
  __quicklistInsertNode None b after (conc [] D n bs) = quicklistCompress b (conc [(b, nd)] (delete b D) n bs).
Proof.
  intros Hok Hb. unfold __quicklistInsertNode.
  assert (Hn : forall h, <[b := h]> (∅ ∪ D) = <[b := h]> ∅ ∪ delete b D).
  { intros h. heap_eq. }
  assert (Hl : (if after then link_after b None else link_before b None) (conc [] D n bs) =
    Some (tt, {| ql := if after then with_tail (Some b) (qlof [] n bs) else with_head (Some b) (qlof [] n bs);
                 nodes := <[b := alone nd]> ∅ ∪ delete b D |})).
  { destruct after; [unfold link_after|unfold link_before].
    - erewrite bind_step by apply set_prev_at, (conc_other _ _ n bs _ _ Hok Hb). cbn [conc ql nodes seg alone prev next data].
      rewrite Hn. done.
    - erewrite bind_step by apply set_next_at, (conc_other _ _ n bs _ _ Hok Hb). cbn [conc ql nodes seg alone prev next data].
      rewrite Hn. done. }
  mstep Hl. erewrite bind_step by done. erewrite bind_step by apply when_at. erewrite bind_step by done. by destruct after.
Qed.

(** Unlinking a node, whose own links stay. *)
Definition unlinked (L1 : nlist) (d : nodeData) (L2 : nlist) : quicklistNode :=
  {| prev := last_of None L1; next := first_of L2 None; data := d |}.

Lemma seg_reprev p p' x xd L n : seg p' ((x, xd) :: L) n = <[x := {| prev := p'; next := first_of L n; data := xd |}]> (seg p ((x, xd) :: L) n).
Proof. cbn. by rewrite insert_insert_eq. Qed.

Lemma seg_renext p L y yd n n' :
  y ∉ L.*1 -> seg p (L ++ [(y, yd)]) n' = <[y := {| prev := last_of p L; next := n'; data := yd |}]> (seg p (L ++ [(y, yd)]) n).
Proof. intros Hy. rewrite !seg_app. cbn. rewrite insert_union_r by by apply seg_none. by rewrite insert_insert_eq. Qed.

Lemma unlink_heap L1 a d L2 D :
  ok (L1 ++ (a, d) :: L2) D ->
  let h := seg None (L1 ++ (a, d) :: L2) None ∪ D in
  let h := match L2 with [] => h | (x, xd) :: L2' => <[x := {| prev := last_of None L1; next := first_of L2' None; data := xd |}]> h end in
  match rev L1 with [] => h | (y, yd) :: R => <[y := {| prev := last_of None (rev R); next := first_of L2 None; data := yd |}]> h end =
  seg None (L1 ++ L2) None ∪ <[a := unlinked L1 d L2]> D.
Proof.
  intros Hok. destruct (nodup_mid _ _ _ _ (ok_nodup _ _ Hok)) as (Ho1 & Ho2 & Hn1 & Hn2 & H12). cbv zeta.
  rewrite !seg_app, seg_cons. cbn [first_of].
  assert (HB : match L2 with
               | [] => seg None L1 (Some a) ∪ <[a := unlinked L1 d L2]> (seg (Some a) L2 None) ∪ D
               | (x, xd) :: L2' => <[x := {| prev := last_of None L1; next := first_of L2' None; data := xd |}]>
                   (seg None L1 (Some a) ∪ <[a := unlinked L1 d L2]> (seg (Some a) L2 None) ∪ D)
               end = seg None L1 (Some a) ∪ (seg (last_of None L1) L2 None ∪ <[a := unlinked L1 d L2]> D)).
  { assert (Hsw : forall B, B !! a = None -> seg None L1 (Some a) ∪ <[a := unlinked L1 d L2]> B ∪ D = seg None L1 (Some a) ∪ (B ∪ <[a := unlinked L1 d L2]> D)).
    { intros B HB. rewrite <- map_union_assoc, <- insert_union_l, (insert_union_r _ D) by done. done. }
    destruct L2 as [|[x xd] L2]; [by apply (Hsw ∅)|]. assert (a ≠ x) by (cbn in Ho2; set_solver).
    rewrite Hsw by by apply seg_none. rewrite insert_union_r by (apply seg_none; intros Hin; by apply (H12 _ Hin); left).
    rewrite insert_union_l. by rewrite (seg_reprev (Some a) (last_of None L1)). }
  fold (unlinked L1 d L2). rewrite HB. clear HB. rewrite map_union_assoc.
  destruct (rev L1) as [|[y yd] Q] eqn:Hrev; apply (f_equal (@rev _)) in Hrev; rewrite rev_involutive in Hrev; subst L1; cbn [rev] in *; [done|].
  rewrite <- map_union_assoc, insert_union_l, <- seg_renext, map_union_assoc; [done|].
  rewrite fmap_app in Hn1. apply NoDup_app in Hn1 as (_ & Hn1 & _). cbn in Hn1. set_solver.
Qed.

Lemma unlink_conc L1 a d L2 D n bs :
  ok (L1 ++ (a, d) :: L2) D ->
  unlink a (unlinked L1 d L2) (conc (L1 ++ (a, d) :: L2) D n bs) =
  Some (tt, {| ql := {| head := first_of (L1 ++ L2) None; tail := last_of None (L1 ++ L2); ql_count := n; len := Zlen (L1 ++ (a, d) :: L2);
                        fill := F; compress := C; bookmarks := bs |};
               nodes := seg None (L1 ++ L2) None ∪ <[a := unlinked L1 d L2]> D |}).
Proof.
  intros Hok. destruct (nodup_mid _ _ _ _ (ok_nodup _ _ Hok)) as (Ho1 & Ho2 & _ & _ & H12).
  pose proof (unlink_heap _ _ _ _ _ Hok) as Hheap. cbv zeta in Hheap. rewrite <- Hheap. clear Hheap.
  pose proof (conc_next _ _ _ _ _ n bs Hok) as Hnx. unfold unlink. cbn [unlinked prev next].
  assert (H1 : match first_of L2 None with Some nx => set_prev nx (last_of None L1) | None => mret () end (conc (L1 ++ (a, d) :: L2) D n bs) =
    Some (tt, {| ql := qlof (L1 ++ (a, d) :: L2) n bs;
                 nodes := let h := seg None (L1 ++ (a, d) :: L2) None ∪ D in
                   match L2 with [] => h | (x, xd) :: L2' => <[x := {| prev := last_of None L1; next := first_of L2' None; data := xd |}]> h end |})).
  { destruct L2 as [|[x xd] L2]; [done|]. destruct Hnx as [_ Hx]. cbn [first_of]. by rewrite (set_prev_at _ _ _ _ Hx). }
  mstep H1. clear H1. cbv zeta. set (h := match L2 with [] => _ | _ => _ end).
  assert (H1 : match last_of None L1 with Some pv => set_next pv (first_of L2 None) | None => mret () end {| ql := qlof (L1 ++ (a, d) :: L2) n bs; nodes := h |} =
    Some (tt, {| ql := qlof (L1 ++ (a, d) :: L2) n bs;
                 nodes := match rev L1 with [] => h | (y, yd) :: R => <[y := {| prev := last_of None (rev R); next := first_of L2 None; data := yd |}]> h end |})).
  { rewrite (last_of_rev L1). subst h.
    destruct (rev L1) as [|[y yd] Q] eqn:Hrev; apply (f_equal (@rev _)) in Hrev; rewrite rev_involutive in Hrev; subst L1; cbn [rev] in *; [done|].
    destruct (conc_prev _ _ _ _ _ _ _ n bs Hok) as [Hya Hy]. cbn [conc nodes] in Hy.
    rewrite (set_next_at _ _ _ {| prev := last_of None (rev Q); next := Some a; data := yd |}); [done|]. cbn [nodes].
    destruct L2 as [|[x xd] L2]; [exact Hy|]. rewrite lookup_insert_ne; [exact Hy|]. rewrite fmap_app in H12. intros ->. apply (H12 y); set_solver. }
  mstep H1. clear H1. erewrite bind_step by done. erewrite bind_step by apply when_at. erewrite bind_step by done. rewrite when_at. cbn [ql nodes].
  do 4 f_equal. cbn [qlof tail]. rewrite last_mid by done. unfold qlof.
  assert (Hh : forall q, head q = first_of (L1 ++ (a, d) :: L2) None -> bool_decide (head q = Some a) = bool_decide (L1 = [])).
  { intros q ->. by apply first_mid. }
  rewrite Hh by by destruct (bool_decide (L2 = [])).
  destruct L1 as [|[y yd] L1], L2 as [|[x xd] L2]; repeat case_bool_decide; try done; cbn; rewrite ?app_nil_r, ?last_of_app; done.
Qed.

(** The bookmark of a deleted node. *)
Definition del_bookmark (bs : list quicklistBookmark) (a : addr) (nx : option addr) : list quicklistBookmark :=
  match _quicklistBookmarkFindByNode bs a with
  | None => bs
  | Some i => match nx with Some _ => set_bookmark i nx bs | None => delete i (set_bookmark i None bs) end
  end.

Lemma update_bookmark_conc L D n bs a nx : update_bookmark a nx (conc L D n bs) = Some (tt, conc L D n (del_bookmark bs a nx)).
Proof.
  unfold update_bookmark, del_bookmark. erewrite bind_step by done. cbn [conc ql qlof bookmarks].
  destruct (_quicklistBookmarkFindByNode bs a) as [i|]; [|done]. by destruct nx.
Qed.

Lemma ok_delete L1 a d L2 D nd : ok (L1 ++ (a, d) :: L2) D -> ok (L1 ++ L2) (<[a := nd]> D) /\ ok (L1 ++ L2) D.
Proof.
  intros [Hnd Hdj Hl]. destruct (nodup_mid _ _ _ _ Hnd) as (Ha1 & Ha2 & Hn1 & Hn2 & H12). rewrite fmap_app, fmap_cons in Hdj. cbn in Hdj.
  assert (Hn : NoDup (L1 ++ L2).*1) by (rewrite fmap_app; apply NoDup_app; auto).
  rewrite Zlen_app in Hl. cbn [length] in Hl.
  split; (split; [done| |rewrite Zlen_app; lia]); intros b; rewrite fmap_app; intros Hb; [rewrite lookup_insert_ne by set_solver|]; apply Hdj; set_solver.
Qed.

Lemma del_node_eq L1 a d L2 D n bs :
  ok (L1 ++ (a, d) :: L2) D ->
  __quicklistDelNode a (conc (L1 ++ (a, d) :: L2) D n bs) =
  (__quicklistCompress None ;; zfree a)
    (conc (L1 ++ L2) (<[a := unlinked L1 d L2]> D) (u64 (n - count d)) (del_bookmark bs a (first_of L2 None))).
Proof.
  intros Hok. unfold __quicklistDelNode. mstep (get_linked _ _ _ _ _ n bs Hok). cbn [next data].
  mstep (update_bookmark_conc (L1 ++ (a, d) :: L2) D n bs a (first_of L2 None)).
  mstep (unlink_conc _ _ _ _ _ n (del_bookmark bs a (first_of L2 None)) Hok). erewrite bind_step by done. erewrite bind_step by done.
  f_equal. unfold conc, qlof, add_len, add_count. cbn. do 2 f_equal.
  pose proof (ok_len _ _ Hok). rewrite !length_app in *. cbn [length] in *. rewrite uwrap_small by lia. lia.
Qed.

Lemma zfree_conc L D n bs a nd : ok L D -> D !! a = None -> a ∉ L.*1 -> zfree a (conc L (<[a := nd]> D) n bs) = Some (tt, conc L D n bs).
Proof.
  intros Hok Ha Hn. unfold zfree. erewrite bind_step; [|apply get_at; rewrite conc_lookup_other; [apply lookup_insert_eq| |done]].
  - unfold modify_nodes. unfold conc. cbn [ql nodes]. do 3 f_equal. rewrite delete_union, delete_insert_id by done.
    by rewrite delete_id by by apply seg_none.
  - destruct Hok. split; [done| |done]. intros b Hb. rewrite lookup_insert_ne by set_solver. auto.
Qed.

End Conc.
End QlSpec.
