(* ===== verification/QuicklistComp.v ===== *)
(** * Compression of the nodes of a quicklist

    A view of a node is what does not depend on how its bytes are stored.
    Compression and decompression keep the views of all nodes, and after
    [__quicklistCompress] only nodes that are at least [compress] away from
    both ends are compressed. *)

From stdpp Require Import gmap.
From S2P Require Import Prelude.
From S2P Require Import NumConv.
From S2P Require Import ListpackEnc.
From S2P Require Import Listpack.
From S2P Require Import Lzf.
From S2P Require Import Quicklist.
From S2P Require Import QuicklistSpec.
Import NumConv LpEnc Lp Quicklist QlSpec.

Module QlComp.

(** ** Views *)

Record view := {
  v_raw : list Z;
  v_count : Z;
  v_container : node_container;
  v_dont : bool;
}.

(** How the bytes [r] are stored: at the start of a buffer, or compressed. *)
Definition stored (d : nodeData) (r : list Z) : Prop :=
  match encoding d, entry d with
  | RAW, Buf b => exists slack, b = r ++ slack
  | LZF, LzfBuf c => 0 < Zlen r /\ forall dst, Zlen dst = Zlen r -> Lzf.lzf_decompress c dst = Some (Zlen r, None, r)
  | _, _ => False
  end.

Record viewed (d : nodeData) (v : view) : Prop := {
  vw_sz : sz d = Zlen (v_raw v);
  vw_count : count d = v_count v;
  vw_container : container d = v_container v;
  vw_dont : dont_compress d = v_dont v;
  vw_stored : stored d (v_raw v);
  vw_bytes : bytes_ok (v_raw v);
  vw_bound : Zlen (v_raw v) < 2 ^ 62;
}.

Definition views (L : nlist) (G : list view) : Prop := Forall2 (fun x v => viewed x.2 v) L G.

Lemma viewed_raw d v : viewed d v -> encoding d = RAW -> exists slack, entry d = Buf (v_raw v ++ slack).
Proof.
  intros Hv He. pose proof (vw_stored _ _ Hv) as Hs. unfold stored in Hs. rewrite He in Hs. destruct (entry d) as [|b|c]; [done| |done].
  destruct Hs as [slack ->]. by exists slack.
Qed.

Lemma viewed_recompress d v b : viewed d v -> viewed (with_recompress b d) v.
Proof. intros []. by split. Qed.

Section Comp.
Context `{Allocator} `{LzfMemory} (F C : Z).

Abbreviation conc := (conc F C).

(** ** One node *)

Lemma buffer_linked L1 a d L2 D n bs b :
  ok (L1 ++ (a, d) :: L2) D -> entry d = Buf b -> buffer a (conc (L1 ++ (a, d) :: L2) D n bs) = Some (b, conc (L1 ++ (a, d) :: L2) D n bs).
Proof. intros Hok Hb. unfold buffer. mstep (get_linked F C _ _ _ _ _ n bs Hok). cbn [data]. by rewrite Hb. Qed.

Lemma interior (L1 L2 : nlist) :
  L1 <> [] -> L2 <> [] -> bool_decide (is_Some (last_of None L1)) && bool_decide (is_Some (first_of L2 None)) = true.
Proof.
  intros H1 H2. apply first_last in H1 as [_ H1], H2 as [H2 _]. apply andb_true_iff. rewrite !bool_decide_eq_true, <- !not_eq_None_Some. done.
Qed.

Lemma compress_node_spec L1 a d L2 D n bs v :
  ok (L1 ++ (a, d) :: L2) D -> viewed d v -> encoding d = RAW -> (v_dont v = false -> L1 <> [] /\ L2 <> []) ->
  exists r d', __quicklistCompressNode a (conc (L1 ++ (a, d) :: L2) D n bs) = Some (r, conc (L1 ++ (a, d') :: L2) D n bs) /\
    viewed d' v /\ recompress d' = (if v_dont v then recompress d else false) /\ (v_dont v = true -> d' = d).
Proof.
  intros Hok Hv He Hin. unfold __quicklistCompressNode. mstep (get_linked F C _ _ _ _ _ n bs Hok). cbn [data prev next].
  rewrite (vw_dont _ _ Hv). destruct (v_dont v); [by eexists _, _|]. destruct (Hin eq_refl) as [H1 H2].
  erewrite bind_step by (unfold assert; by rewrite interior). mstep (update_linked F C _ _ _ _ _ n bs (with_recompress false) Hok).
  pose proof (ok_mid _ _ _ (with_recompress false d) _ _ Hok) as Hok'. pose proof (viewed_recompress d v false Hv) as Hv'.
  destruct (Z.ltb_spec (sz d) MIN_COMPRESS_BYTES) as [Hs|Hs]; [by eexists _, _|].
  destruct (viewed_raw _ _ Hv' He) as [slack Hb]. mstep (buffer_linked _ _ _ _ _ n bs _ Hok' Hb).
  rewrite (vw_sz _ _ Hv) in *. erewrite bind_step by (unfold lift; by rewrite (rd_app [] (v_raw v) slack 0)). erewrite bind_step by done.
  set (h := nodes _). pose proof (vw_bound _ _ Hv). pose proof (address_ok h a).
  destruct (Lzf.lzf_compress_decompress (address h a) (v_raw v) (stack h a) (zmalloc (Zlen (v_raw v)))) as (m & out & Hc & Hm & Hd);
    [apply (vw_bytes _ _ Hv)|lia|lia|lia|apply stack_ok|].
  erewrite bind_step by (unfold lift; by rewrite Hc). cbv beta iota.
  destruct (Z.eqb_spec m 0) as [|Hm0]; [by eexists _, _|]. cbn [orb]. destruct (Z.leb_spec (Zlen (v_raw v)) (m + MIN_COMPRESS_IMPROVE)); [by eexists _, _|].
  mstep (update_linked F C _ _ _ _ _ n bs (with_entry (LzfBuf (take (Z.to_nat m) out))) Hok').
  pose proof (ok_mid _ _ _ (with_entry (LzfBuf (take (Z.to_nat m) out)) (with_recompress false d)) _ _ Hok') as Hok2.
  mstep (update_linked F C _ _ _ _ _ n bs (with_encoding LZF) Hok2). eexists _, _. split; [done|]. split; [|done].
  destruct Hv. split; try done. unfold stored. cbn [with_encoding with_entry with_recompress encoding entry]. split; [lia|]. intros dst Hdst. destruct (Hd Hm0 dst) as (rest & -> & Hr); [lia|].
  by rewrite (nil_length_inv rest), app_nil_r by lia.
Qed.

Lemma decompress_node_spec L1 a d L2 D n bs v :
  ok (L1 ++ (a, d) :: L2) D -> viewed d v -> encoding d = LZF ->
  exists d', __quicklistDecompressNode a (conc (L1 ++ (a, d) :: L2) D n bs) = Some (true, conc (L1 ++ (a, d') :: L2) D n bs) /\
    viewed d' v /\ recompress d' = false /\ encoding d' = RAW.
Proof.
  intros Hok Hv He. unfold __quicklistDecompressNode. mstep (update_linked F C _ _ _ _ _ n bs (with_recompress false) Hok).
  pose proof (ok_mid _ _ _ (with_recompress false d) _ _ Hok) as Hok'. mstep (get_linked F C _ _ _ _ _ n bs Hok'). cbn [data].
  pose proof (vw_stored _ _ Hv) as Hs. unfold stored in Hs. rewrite He in Hs. cbn [with_recompress entry sz]. destruct (entry d) as [|b|c] eqn:Hc; [done|done|].
  destruct Hs as [Hpos Hs]. rewrite (vw_sz _ _ Hv). assert (Hz : Zlen (zmalloc (Zlen (v_raw v))) = Zlen (v_raw v)).
  { unfold zmalloc. rewrite length_realloc. lia. }
  erewrite bind_step by (unfold lift; by rewrite (Hs _ Hz)). cbv beta iota. rewrite (proj2 (Z.eqb_neq _ _)) by lia.
  mstep (update_linked F C _ _ _ _ _ n bs (with_entry (Buf (v_raw v))) Hok').
  pose proof (ok_mid _ _ _ (with_entry (Buf (v_raw v)) (with_recompress false d)) _ _ Hok') as Hok2.
  mstep (update_linked F C _ _ _ _ _ n bs (with_encoding RAW) Hok2). eexists. split; [done|]. split; [|done].
  destruct Hv. split; try done. cbn. exists []. by rewrite app_nil_r.
Qed.

(** ** Nodes by position *)

Definition addr_at (L : nlist) (i : nat) : option addr := fst <$> L !! i.

Lemma first_at L : first_of L None = addr_at L 0.
Proof. by destruct L as [|[a d] L]. Qed.

Lemma first_drop L i : first_of (drop (S i) L) None = addr_at L (S i).
Proof. rewrite first_at. unfold addr_at. rewrite lookup_drop. do 2 f_equal. lia. Qed.

Lemma last_at L : last_of None L = addr_at L (length L - 1).
Proof.
  rewrite last_of_rev. destruct (rev L) as [|[y yd] Q] eqn:Hrev; apply (f_equal (@rev _)) in Hrev; rewrite rev_involutive in Hrev; subst L; [done|].
  cbn [rev]. unfold addr_at. rewrite length_app, lookup_app_r by (cbn; lia). cbn [length]. by replace (_ + 1 - 1 - _)%nat with 0%nat by lia.
Qed.

Lemma last_take L i : (i < length L)%nat -> last_of None (take (S i) L) = addr_at L i.
Proof. intros Hi. rewrite last_at. unfold addr_at. rewrite length_take, lookup_take_lt by lia. do 2 f_equal. lia. Qed.

Lemma views_length L G : views L G -> length L = length G.
Proof. apply Forall2_length. Qed.

Lemma views_at L G i a d : views L G -> L !! i = Some (a, d) -> exists v, G !! i = Some v /\ viewed d v.
Proof. intros HG Hi. eapply Forall2_lookup_l in HG as (v & Hv & Hd); [|done]. by exists v. Qed.

Lemma views_insert L G i a d v : views L G -> G !! i = Some v -> viewed d v -> views (<[i := (a, d)]> L) G.
Proof. intros HG Hv Hd. rewrite <- (list_insert_id G i v Hv). by apply Forall2_insert. Qed.

Lemma ok_same L L' D : ok L D -> L'.*1 = L.*1 -> ok L' D.
Proof. intros [H1 H2 H3] Heq. split; rewrite ?Heq; [done|done|]. rewrite <- (length_fmap fst L'), Heq, length_fmap. done. Qed.

(** A node that is to be compressed again is not compressed. *)
Definition use_raw (L : nlist) : Prop := forall i x, L !! i = Some x -> recompress x.2 = true -> encoding x.2 = RAW.

(** What compression and decompression may change. *)
Record recoded (G : list view) (L L' : nlist) : Prop := {
  rc_addr : L'.*1 = L.*1;
  rc_views : views L' G;
  rc_flags i x x' : L !! i = Some x -> L' !! i = Some x' -> recompress x'.2 = true -> recompress x.2 = true;
  rc_use : use_raw L -> use_raw L';
  rc_dont i x x' : L !! i = Some x -> L' !! i = Some x' -> dont_compress x.2 = true -> encoding x.2 = RAW -> encoding x'.2 = RAW /\ dont_compress x'.2 = true;
}.

Lemma recoded_refl G L : views L G -> recoded G L L.
Proof. intros HG. split; [done|done| |done|]; intros; by simplify_eq. Qed.

Lemma recoded_length G L L' : recoded G L L' -> length L' = length L.
Proof. intros Hr. by rewrite <- (length_fmap fst L'), (rc_addr _ _ _ Hr), length_fmap. Qed.

Lemma recoded_trans G L1 L2 L3 : recoded G L1 L2 -> recoded G L2 L3 -> recoded G L1 L3.
Proof.
  intros H12 H23. split.
  - by rewrite (rc_addr _ _ _ H23), (rc_addr _ _ _ H12).
  - apply (rc_views _ _ _ H23).
  - intros i x z Hx Hz Hf. destruct (lookup_lt_is_Some_2 L2 i) as [y Hy].
    { rewrite (recoded_length _ _ _ H12). by eapply lookup_lt_Some. }
    eapply (rc_flags _ _ _ H12); [done|done|]. by eapply (rc_flags _ _ _ H23).
  - intros Hu. by apply (rc_use _ _ _ H23), (rc_use _ _ _ H12).
  - intros i x z Hx Hz Hdn He. destruct (lookup_lt_is_Some_2 L2 i) as [y Hy].
    { rewrite (recoded_length _ _ _ H12). by eapply lookup_lt_Some. }
    destruct (rc_dont _ _ _ H12 i x y Hx Hy Hdn He) as [He' Hdn']. by apply (rc_dont _ _ _ H23 i y z).
Qed.

Lemma recoded_addr G L L' i : recoded G L L' -> addr_at L' i = addr_at L i.
Proof. intros Hr. unfold addr_at. rewrite <- !list_lookup_fmap. by rewrite (rc_addr _ _ _ Hr). Qed.

Lemma recoded_insert G L i a d d' v :
  views L G -> L !! i = Some (a, d) -> G !! i = Some v -> viewed d' v -> (recompress d' = true -> recompress d = true) ->
  (recompress d' = true -> encoding d' = RAW) -> (dont_compress d = true -> encoding d = RAW -> d' = d) -> recoded G L (<[i := (a, d')]> L).
Proof.
  intros HG Hi Hv Hd Hf He Hdn. split.
  - rewrite list_fmap_insert. apply list_insert_id. by rewrite list_lookup_fmap, Hi.
  - by eapply views_insert.
  - intros j x x' Hx Hx' Hr. destruct (decide (i = j)) as [<-|Hne].
    + rewrite list_lookup_insert_eq in Hx' by by eapply lookup_lt_Some. simplify_eq/=. auto.
    + rewrite list_lookup_insert_ne in Hx' by done. by simplify_eq.
  - intros Hu j x Hx Hr. destruct (decide (i = j)) as [<-|Hne].
    + rewrite list_lookup_insert_eq in Hx by by eapply lookup_lt_Some. simplify_eq/=. auto.
    + rewrite list_lookup_insert_ne in Hx by done. by eapply Hu.
  - intros j x x' Hx Hx' Hd' He'. destruct (decide (i = j)) as [<-|Hne].
    + rewrite list_lookup_insert_eq in Hx' by by eapply lookup_lt_Some. simplify_eq/=. by rewrite Hdn.
    + rewrite list_lookup_insert_ne in Hx' by done. by simplify_eq.
Qed.

Lemma decompress_at L D n bs G i a d :
  ok L D -> views L G -> L !! i = Some (a, d) ->
  exists d', quicklistDecompressNode (Some a) (conc L D n bs) = Some (tt, conc (<[i := (a, d')]> L) D n bs) /\
    recoded G L (<[i := (a, d')]> L) /\ encoding d' = RAW.
Proof.
  intros Hok HG Hi. destruct (views_at _ _ _ _ _ HG Hi) as (v & Hv & Hd).
  assert (Hl : forall d', take i L ++ (a, d') :: drop (S i) L = <[i := (a, d')]> L) by (intros; symmetry; apply insert_take_drop; by eapply lookup_lt_Some).
  pose proof (take_drop_middle L i _ Hi) as HL. rewrite <- HL in Hok.
  assert (Hc : conc L D n bs = conc (take i L ++ (a, d) :: drop (S i) L) D n bs) by by rewrite HL.
  unfold quicklistDecompressNode. rewrite Hc.
  mstep (get_linked F C _ _ _ _ _ n bs Hok). cbn [data]. case_bool_decide as He.
  - destruct (decompress_node_spec _ _ _ _ _ n bs v Hok Hd He) as (d' & Hr & Hv' & Hf & He'). mstep Hr. rewrite Hl.
    exists d'. split; [done|]. split; [|done]. eapply recoded_insert; try done; [by rewrite Hf..|congruence].
  - exists d. rewrite (list_insert_id L i), HL by done. split; [done|]. split; [by apply recoded_refl|]. by destruct (encoding d).
Qed.

Lemma compress_at L D n bs G i a d :
  ok L D -> views L G -> L !! i = Some (a, d) -> (0 < i)%nat -> (i < length L - 1)%nat ->
  exists d', quicklistCompressNode (Some a) (conc L D n bs) = Some (tt, conc (<[i := (a, d')]> L) D n bs) /\
    recoded G L (<[i := (a, d')]> L) /\
    (encoding d = RAW -> dont_compress d = false -> recompress d' = false) /\ (encoding d = LZF -> d' = d).
Proof.
  intros Hok HG Hi Hi0 Hi1. destruct (views_at _ _ _ _ _ HG Hi) as (v & Hv & Hd).
  assert (Hl : forall d', take i L ++ (a, d') :: drop (S i) L = <[i := (a, d')]> L) by (intros; symmetry; apply insert_take_drop; by eapply lookup_lt_Some).
  pose proof (take_drop_middle L i _ Hi) as HL. rewrite <- HL in Hok.
  assert (Hc : conc L D n bs = conc (take i L ++ (a, d) :: drop (S i) L) D n bs) by by rewrite HL.
  unfold quicklistCompressNode. rewrite Hc.
  mstep (get_linked F C _ _ _ _ _ n bs Hok). cbn [data]. case_bool_decide as He.
  - destruct (compress_node_spec _ _ _ _ _ n bs v Hok Hd He) as (r & d' & Hr & Hv' & Hf & Hdn).
    { intros _. split; intros E; apply (f_equal length) in E; rewrite ?length_take, ?length_drop in E; cbn in E; lia. }
    mstep Hr. rewrite Hl. exists d'. split; [done|]. split.
    { eapply recoded_insert; try done; [rewrite Hf; by destruct (v_dont v)|rewrite Hf; destruct (v_dont v); [intros _; by rewrite Hdn|done]|]. intros Hdc _. apply Hdn. by rewrite <- (vw_dont _ _ Hd). }
    rewrite (vw_dont _ _ Hd). split; [intros _ Hdc; by rewrite Hf, Hdc|congruence].
  - exists d. rewrite (list_insert_id L i), HL by done. split; [done|]. split; [by apply recoded_refl|]. by destruct (encoding d).
Qed.

(** ** Both ends *)

(** The positions that the loop visits. *)
Definition visited (len k n i : nat) : Prop := (k <= i < k + n \/ len - (k + n) <= i < len - k)%nat.

Lemma get_index L D n bs i a d :
  ok L D -> L !! i = Some (a, d) ->
  get a (conc L D n bs) = Some ({| prev := match i with O => None | S j => addr_at L j end; next := addr_at L (S i); data := d |}, conc L D n bs).
Proof.
  intros Hok Hi. pose proof (take_drop_middle L i _ Hi) as HL. rewrite <- HL in Hok.
  assert (Hc : conc L D n bs = conc (take i L ++ (a, d) :: drop (S i) L) D n bs) by by rewrite HL.
  rewrite Hc, (get_linked F C _ _ _ _ _ n bs Hok), first_drop. do 3 f_equal.
  destruct i as [|i]; [done|]. rewrite last_take; [done|]. apply lookup_lt_Some in Hi. lia.
Qed.

Lemma addr_inj L D i j a : ok L D -> addr_at L i = Some a -> addr_at L j = Some a -> i = j.
Proof. intros Hok Hi Hj. unfold addr_at in *. rewrite <- list_lookup_fmap in *. eapply NoDup_lookup; [apply (ok_nodup _ _ Hok)|done|done]. Qed.

Lemma addr_some L i : (i < length L)%nat -> exists a d, L !! i = Some (a, d) /\ addr_at L i = Some a.
Proof. intros Hi. destruct (lookup_lt_is_Some_2 L i Hi) as [[a d] Ha]. exists a, d. unfold addr_at. by rewrite Ha. Qed.

(** What one turn of the loop does to the nodes at its two positions. *)
Lemma decompress_two L D n bs G i j a b :
  ok L D -> views L G -> addr_at L i = Some a -> addr_at L j = Some b ->
  exists L', (quicklistDecompressNode (Some a) ;; quicklistDecompressNode (Some b)) (conc L D n bs) = Some (tt, conc L' D n bs) /\
    ok L' D /\ recoded G L L' /\ (forall k x, k = i \/ k = j -> L' !! k = Some x -> encoding x.2 = RAW) /\
    (forall k, k <> i -> k <> j -> L' !! k = L !! k).
Proof.
  intros Hok HG Hi Hj. unfold addr_at in Hi. destruct (L !! i) as [[a' d]|] eqn:Ei; [|done]. cbn in Hi. simplify_eq.
  destruct (decompress_at L D n bs G i a d Hok HG Ei) as (d1 & H1 & Hr1 & He1). mstep H1.
  set (L1 := <[i := (a, d1)]> L) in *. pose proof (ok_same _ _ _ Hok (rc_addr _ _ _ Hr1)) as Hok1.
  rewrite <- (recoded_addr _ _ _ j Hr1) in Hj. unfold addr_at in Hj. destruct (L1 !! j) as [[b' e]|] eqn:Ej; [|done]. cbn in Hj. simplify_eq.
  destruct (decompress_at L1 D n bs G j b e Hok1 (rc_views _ _ _ Hr1) Ej) as (e1 & H2 & Hr2 & He2).
  exists (<[j := (b, e1)]> L1). split; [exact H2|]. pose proof (recoded_trans _ _ _ _ Hr1 Hr2) as Hr.
  split; [by eapply ok_same, rc_addr|]. split; [done|].
  assert (Hlj : (j < length L1)%nat) by by eapply lookup_lt_Some. assert (Hli : (i < length L)%nat) by by eapply lookup_lt_Some. split.
  - intros k x Hk. destruct (decide (k = j)) as [->|Hne]; [rewrite list_lookup_insert_eq by done; by intros [= <-]|].
    destruct Hk as [->|]; [|done]. rewrite list_lookup_insert_ne by done. unfold L1. rewrite list_lookup_insert_eq by done. by intros [= <-].
  - intros k Hki Hkj. unfold L1. by rewrite !list_lookup_insert_ne by done.
Qed.

Lemma depth_loop_spec node D c bs G : forall n k L ind,
  ok L D -> views L G -> (2 * (k + n) <= length L)%nat -> (0 < length L)%nat ->
  exists res L', depth_loop n node (addr_at L k) (addr_at L (length L - 1 - k)) ind (conc L D c bs) = Some (res, conc L' D c bs) /\
    ok L' D /\ recoded G L L' /\
    (forall i x, visited (length L) k n i -> L' !! i = Some x -> encoding x.2 = RAW) /\
    (forall i, ~ visited (length L) k n i -> L' !! i = L !! i) /\
    match res with
    | None => length L = (2 * (k + n))%nat
    | Some (f, r, ind') => (n = 0 \/ 2 * (k + n) < length L)%nat /\ f = addr_at L (k + n) /\ r = addr_at L (length L - 1 - (k + n)) /\
        (ind' = false -> ind = false /\ forall i, visited (length L) k n i -> (i < length L)%nat -> node <> addr_at L i)
    end.
Proof.
  induction n as [|n IH]; intros k L ind Hok HG Hlen Hpos; cbn [depth_loop].
  { eexists (Some _), L. split; [done|]. split; [done|]. split; [by apply recoded_refl|]. unfold visited. rewrite Nat.add_0_r.
    split; [lia|]. split; [done|]. split; [by left|]. split; [done|]. split; [done|]. intros ->. split; [done|lia]. }
  destruct (addr_some L k) as (a & ad & _ & Ha); [lia|]. destruct (addr_some L (length L - 1 - k)) as (b & bd & _ & Hb); [lia|]. rewrite Ha, Hb.
  destruct (decompress_two L D c bs G k (length L - 1 - k) a b Hok HG Ha Hb) as (L1 & H1 & Hok1 & Hr1 & Hraw1 & Hsame1).
  rewrite <- bind_bind. erewrite bind_step by exact H1. pose proof (recoded_length _ _ _ Hr1) as Hl1.
  rewrite bool_decide_eq_false_2 by (intros [= ->]; pose proof (addr_inj _ _ _ _ _ Hok Ha Hb); lia).
  rewrite <- (recoded_addr _ _ _ _ Hr1) in Ha. rewrite <- (recoded_addr _ _ _ _ Hr1) in Hb.
  destruct (L1 !! k) as [[a' ad']|] eqn:Ea; unfold addr_at in Ha; rewrite Ea in Ha; [|done]. cbn in Ha. simplify_eq.
  erewrite bind_step by done. mstep (get_index L1 D c bs k a ad' Hok1 Ea). cbn [next].
  set (in_ := bool_decide (Some a = node) || bool_decide (Some b = node) || ind).
  assert (Hin : in_ = false -> ind = false /\ node <> addr_at L k /\ node <> addr_at L (length L - 1 - k)).
  { unfold in_. rewrite !orb_false_iff, !bool_decide_eq_false. rewrite <- !(recoded_addr _ _ _ _ Hr1), Hb. unfold addr_at at 1. rewrite Ea.
    intros [[? ?] ?]. split; [done|]. cbn. split; congruence. }
  case_bool_decide as Hnx.
  - pose proof (addr_inj _ _ _ _ _ Hok1 Hnx Hb) as Heq. eexists None, L1. split; [done|]. split; [done|]. split; [done|]. unfold visited. split.
    { intros i x Hi Hx. eapply Hraw1; [|exact Hx]. lia. }
    split; [intros i Hi; apply Hsame1; lia|lia].
  - destruct (L1 !! (length L - 1 - k)%nat) as [[b' bd']|] eqn:Eb; unfold addr_at in Hb; rewrite Eb in Hb; [|done]. cbn in Hb. simplify_eq.
    erewrite bind_step by done. mstep (get_index L1 D c bs _ b bd' Hok1 Eb). cbn [prev].
    destruct (IH (S k) L1 in_ Hok1 (rc_views _ _ _ Hr1)) as (res & L2 & Hrun & Hok2 & Hr2 & Hraw2 & Hsame2 & Hres); [lia..|].
    replace (length L1 - 1 - S k)%nat with (length L - 1 - S k)%nat in Hrun by lia.
    replace (match (length L - 1 - k)%nat with O => None | S j => addr_at L1 j end) with (addr_at L1 (length L - 1 - S k))
      by (replace (length L - 1 - k)%nat with (S (length L - 1 - S k)) by lia; done).
    exists res, L2. split; [exact Hrun|]. split; [done|]. split; [by eapply recoded_trans|]. rewrite Hl1 in *. unfold visited in *. split.
    { intros i x Hi Hx. destruct (decide (i = k \/ i = length L - 1 - k)%nat) as [Hik|Hik]; [|eapply Hraw2; [|exact Hx]; lia].
      rewrite Hsame2 in Hx by lia. by eapply Hraw1. }
    split; [intros i Hi; rewrite Hsame2, Hsame1 by lia; done|]. destruct res as [[[f r] ind']|]; [|lia].
    destruct Hres as (Hn & -> & -> & Hind). rewrite <- !(recoded_addr _ _ _ _ Hr1).
    assert (length L <> 2 * S k)%nat by (intros E; apply Hnx; replace (S k) with (length L - 1 - k)%nat by lia; unfold addr_at; by rewrite Eb).
    split; [lia|]. split; [f_equal; lia|]. split; [f_equal; lia|].
    intros Hf. destruct (Hind Hf) as [Hin_ Hind']. destruct (Hin Hin_) as (Hi0 & Hk1 & Hk2). split; [done|]. intros i Hi Hil.
    destruct (decide (i = k)) as [->|]; [done|].
    destruct (decide (i = length L - 1 - k)%nat) as [->|]; [done|].
    rewrite <- (recoded_addr _ _ _ i Hr1). apply Hind'; lia.
Qed.

Context (HC : 0 <= C).

#[local] Set Default Proof Using "Type*".

(** Only nodes at a distance from both ends are compressed. *)
Definition inner (L : nlist) (i : nat) : Prop := C <> 0 /\ C <= Z.of_nat i < Zlen L - C.
Definition depth_ok (L : nlist) : Prop := forall i x, L !! i = Some x -> encoding x.2 = LZF -> inner L i.

Lemma compress_inner L D n bs G j p :
  ok L D -> views L G -> inner L j -> p = addr_at L j ->
  exists L', quicklistCompressNode p (conc L D n bs) = Some (tt, conc L' D n bs) /\ ok L' D /\ recoded G L L' /\
    (forall i, i <> j -> L' !! i = L !! i).
Proof.
  intros Hok HG [HC0 Hj] ->. destruct (addr_some L j) as (a & d & Hd & ->); [lia|].
  destruct (compress_at L D n bs G j a d) as (d' & Hrun & Hr & _); [done|done|done|lia|lia|].
  eexists. split; [exact Hrun|]. split; [by eapply ok_same, rc_addr|]. split; [done|]. intros i Hi. by rewrite list_lookup_insert_ne.
Qed.

(** Before: nothing is compressed if the list is too short for it. *)
Definition short_raw (L : nlist) : Prop := C = 0 \/ Zlen L < C * 2 -> forall i x, L !! i = Some x -> encoding x.2 = RAW.
Definition ends_ready (L : nlist) : Prop := forall i x, L !! i = Some x -> i = 0%nat \/ i = (length L - 1)%nat -> recompress x.2 = false.

Lemma compress_rest node forward reverse ind L D n bs G :
  ok L D -> views L G -> C <> 0 -> 2 * C < Zlen L -> depth_ok L ->
  forward = addr_at L (Z.to_nat C) -> reverse = addr_at L (length L - 1 - Z.to_nat C) ->
  (forall a, node = Some a -> ind = false -> exists j, addr_at L j = Some a /\ inner L j) ->
  exists L', (when (negb ind) (quicklistCompressNode node) ;; quicklistCompressNode forward ;; quicklistCompressNode reverse) (conc L D n bs) =
    Some (tt, conc L' D n bs) /\ ok L' D /\ recoded G L L' /\ depth_ok L'.
Proof.
  intros Hok HG HC0 Hlen Hdep -> -> Hnode.
  assert (H1 : exists L', when (negb ind) (quicklistCompressNode node) (conc L D n bs) = Some (tt, conc L' D n bs) /\ ok L' D /\ recoded G L L' /\ depth_ok L').
  { assert (Hid : exists L', Some (tt, conc L D n bs) = Some (tt, conc L' D n bs) /\ ok L' D /\ recoded G L L' /\ depth_ok L')
      by (exists L; split; [done|]; split; [done|]; split; [by apply recoded_refl|done]).
    destruct ind; [done|]. destruct node as [a|]; [|done]. destruct (Hnode a eq_refl eq_refl) as (j & Hj & Hin).
    destruct (compress_inner L D n bs G j (Some a) Hok HG Hin) as (L' & Hrun & Hok' & Hr & Hs); [done|]. exists L'. split; [exact Hrun|].
    split; [done|]. split; [done|]. intros i x Hx He. unfold inner. rewrite (recoded_length _ _ _ Hr).
    destruct (decide (i = j)) as [->|Hne]; [done|]. rewrite Hs in Hx by done. by eapply Hdep. }
  destruct H1 as (L1 & H1 & Hok1 & Hr1 & Hd1). mstep H1. pose proof (recoded_length _ _ _ Hr1) as Hl1.
  assert (Hstep : forall L1 j, recoded G L L1 -> ok L1 D -> depth_ok L1 -> inner L j -> exists L', quicklistCompressNode (addr_at L j) (conc L1 D n bs) = Some (tt, conc L' D n bs) /\
    ok L' D /\ recoded G L L' /\ depth_ok L').
  { clear L1 H1 Hok1 Hr1 Hd1 Hl1. intros L1 j Hr1 Hok1 Hd1 Hin. pose proof (recoded_length _ _ _ Hr1) as Hl1.
    destruct (compress_inner L1 D n bs G j (addr_at L j) Hok1 (rc_views _ _ _ Hr1)) as (L' & Hrun & Hok' & Hr & Hs).
    { unfold inner. by rewrite Hl1. } { by rewrite (recoded_addr _ _ _ _ Hr1). }
    exists L'. split; [exact Hrun|]. split; [done|]. split; [by eapply recoded_trans|]. intros i x Hx He. unfold inner in *.
    rewrite (recoded_length _ _ _ Hr), Hl1. destruct (decide (i = j)) as [->|Hne]; [done|]. rewrite Hs in Hx by done. rewrite <- Hl1. by eapply Hd1. }
  destruct (Hstep L1 (Z.to_nat C)) as (L2 & H2 & Hok2 & Hr2 & Hd2); [done|done|done|unfold inner; lia|]. mstep H2.
  destruct (Hstep L2 (length L - 1 - Z.to_nat C)%nat) as (L3 & H3 & Hok3 & Hr3 & Hd3); [done|done|done|unfold inner; lia|].
  by exists L3.
Qed.

Lemma compress_all_spec node L D n bs G :
  ok L D -> views L G -> ends_ready L -> short_raw L -> (forall a, node = Some a -> a ∈ L.*1) ->
  exists L', __quicklistCompress node (conc L D n bs) = Some (tt, conc L' D n bs) /\ ok L' D /\ recoded G L L' /\ depth_ok L'.
Proof.
  intros Hok HG Hends Hshort Hnode. unfold __quicklistCompress. erewrite bind_step by done. cbn [conc ql qlof id len head tail compress].
  assert (Hid : (forall i x, L !! i = Some x -> encoding x.2 = RAW) ->
    exists L', Some (tt, conc L D n bs) = Some (tt, conc L' D n bs) /\ ok L' D /\ recoded G L L' /\ depth_ok L').
  { intros Hraw. exists L. split; [done|]. split; [done|]. split; [by apply recoded_refl|]. intros i x Hx He. apply Hraw in Hx. congruence. }
  destruct (Z.eqb_spec (Zlen L) 0) as [Hl|Hl]; [apply Hid; intros i x Hx; apply lookup_lt_Some in Hx; lia|].
  destruct (addr_some L 0) as (h & hd & Hh & Hah); [lia|]. destruct (addr_some L (length L - 1)) as (t & td & Ht & Hat); [lia|].
  rewrite first_at, last_at, Hah, Hat. erewrite bind_step by done. mstep (get_index L D n bs _ _ _ Hok Hh).
  erewrite bind_step by done. mstep (get_index L D n bs _ _ _ Hok Ht). cbn [data].
  pose proof (Hends _ _ Hh (or_introl eq_refl)) as Eh. pose proof (Hends _ _ Ht (or_intror eq_refl)) as Et. cbn in Eh, Et. rewrite Eh, Et.
  erewrite bind_step by done. destruct (Z.eqb_spec C 0) as [E0|HC0]; [apply Hid, Hshort; by left|]. cbn [orb].
  destruct (Z.ltb_spec (Zlen L) (C * 2)) as [Hs|Hs]; [apply Hid, Hshort; by right|].
  destruct (depth_loop_spec node D n bs G (Z.to_nat C) 0 L false Hok HG) as (res & L1 & Hrun & Hok1 & Hr1 & Hraw & Hsame & Hres); [lia..|].
  rewrite Hah in Hrun. replace (length L - 1 - 0)%nat with (length L - 1)%nat in Hrun by lia. rewrite Hat in Hrun. mstep Hrun.
  pose proof (recoded_length _ _ _ Hr1) as Hl1.
  assert (Hd1 : depth_ok L1).
  { intros i x Hx He. pose proof (lookup_lt_Some _ _ _ Hx). unfold inner. rewrite Hl1. split; [done|].
    destruct (decide (C <= Z.of_nat i < Zlen L - C)) as [|Hn]; [done|]. rewrite (Hraw i x) in He; [done| |done]. unfold visited. lia. }
  destruct res as [[[f r] ind]|].
  - destruct Hres as (Hc & -> & -> & Hind). cbn [Nat.add] in *.
    destruct (compress_rest node (addr_at L (Z.to_nat C)) (addr_at L (length L - 1 - Z.to_nat C)) ind L1 D n bs G) as (L2 & Hrun2 & Hok2 & Hr2 & Hd2);
      [done|apply (rc_views _ _ _ Hr1)|done|lia|done|by rewrite (recoded_addr _ _ _ _ Hr1)|by rewrite Hl1, (recoded_addr _ _ _ _ Hr1)| |].
    { intros a -> Hf. destruct (Hind Hf) as [_ Hi]. destruct (proj1 (list_elem_of_lookup _ _) (Hnode a eq_refl)) as [j Hj].
      rewrite list_lookup_fmap in Hj. change (addr_at L j = Some a) in Hj. exists j. rewrite (recoded_addr _ _ _ _ Hr1). split; [done|].
      assert (j < length L)%nat by (unfold addr_at in Hj; destruct (L !! j) eqn:E; [by eapply lookup_lt_Some|done]).
      unfold inner. rewrite Hl1. split; [done|]. destruct (decide (C <= Z.of_nat j < Zlen L - C)); [done|]. exfalso. eapply (Hi j); [|done|done]. unfold visited. lia. }
    exists L2. split; [exact Hrun2|]. split; [done|]. split; [by eapply recoded_trans|done].
  - exists L1. split; [done|]. by split; [|split].
Qed.

(** ** Between the operations *)

(** Compressed nodes, and nodes to be compressed again, are away from the ends. *)
Record tidy (L : nlist) : Prop := {
  td_depth : depth_ok L;
  td_raw : use_raw L;
  td_inner i x : L !! i = Some x -> recompress x.2 = true -> inner L i;
}.

(** Only the node [u] is to be compressed again. *)
Definition busy (u : option addr) (L : nlist) : Prop := forall x, x ∈ L -> recompress x.2 = true -> Some x.1 = u.

Lemma tidy_ends L : tidy L -> ends_ready L.
Proof.
  intros Ht i x Hx Hi. destruct (recompress x.2) eqn:E; [|done]. destruct (td_inner _ Ht i x Hx E) as [H1 H2].
  apply lookup_lt_Some in Hx. lia.
Qed.

Lemma tidy_short L : tidy L -> short_raw L.
Proof.
  intros Ht Hs i x Hx. destruct (encoding x.2) eqn:E; [done|]. destruct (td_depth _ Ht i x Hx E) as [H1 H2]. lia.
Qed.

Lemma recoded_tidy G L L' : recoded G L L' -> tidy L -> depth_ok L' -> tidy L'.
Proof.
  intros Hr Ht Hd. pose proof (recoded_length _ _ _ Hr) as Hl. split; [done|by apply (rc_use _ _ _ Hr), td_raw|].
  intros i x' Hx' Hf. destruct (lookup_lt_is_Some_2 L i) as [x Hx]; [rewrite <- Hl; by eapply lookup_lt_Some|].
  unfold inner. rewrite Hl. eapply td_inner; [done|done|]. by eapply (rc_flags _ _ _ Hr).
Qed.

Lemma recoded_busy G L L' u : recoded G L L' -> busy u L -> busy u L'.
Proof.
  intros Hr Hb x' [i Hx']%list_elem_of_lookup Hf. pose proof (recoded_length _ _ _ Hr) as Hl.
  destruct (lookup_lt_is_Some_2 L i) as [x Hx]; [rewrite <- Hl; by eapply lookup_lt_Some|].
  pose proof (recoded_addr _ _ _ i Hr) as Ha. unfold addr_at in Ha. rewrite Hx, Hx' in Ha. cbn in Ha. injection Ha as ->.
  apply Hb; [by eapply list_elem_of_lookup_2|]. by eapply (rc_flags _ _ _ Hr).
Qed.

(** The node at position [i] is not to be compressed again. *)
Definition cleared (L : nlist) (i : nat) : Prop := forall x, L !! i = Some x -> recompress x.2 = false.

Lemma recompress_node_spec L D n bs G i a d :
  ok L D -> views L G -> tidy L -> L !! i = Some (a, d) -> recompress d = true ->
  exists L', quicklistCompressNode (Some a) (conc L D n bs) = Some (tt, conc L' D n bs) /\ ok L' D /\ recoded G L L' /\ tidy L' /\
    (dont_compress d = false -> cleared L' i).
Proof.
  intros Hok HG Ht Hi Hf. pose proof (td_inner _ Ht i _ Hi Hf) as [HC0 Hin]. pose proof (lookup_lt_Some _ _ _ Hi).
  destruct (compress_at L D n bs G i a d Hok HG Hi) as (d' & Hrun & Hr & Hc & _); [lia..|].
  eexists. split; [exact Hrun|]. split; [by eapply ok_same, rc_addr|]. split; [done|]. split.
  - eapply recoded_tidy; [done|done|]. intros j x Hx He. unfold inner. rewrite length_insert. destruct (decide (i = j)) as [<-|Hne]; [done|].
    rewrite list_lookup_insert_ne in Hx by done. by eapply td_depth.
  - intros Hdn x. rewrite list_lookup_insert_eq by done. intros [= <-]. apply Hc; [|done]. by apply (td_raw _ Ht i (a, d)).
Qed.

Lemma quicklistCompress_spec L D n bs G i a d :
  ok L D -> views L G -> tidy L -> L !! i = Some (a, d) ->
  exists L', quicklistCompress a (conc L D n bs) = Some (tt, conc L' D n bs) /\ ok L' D /\ recoded G L L' /\ tidy L' /\
    (dont_compress d = false -> cleared L' i).
Proof.
  intros Hok HG Ht Hi. unfold quicklistCompress. mstep (get_index L D n bs i a d Hok Hi). cbn [data].
  destruct (recompress d) eqn:Hf; [by apply (recompress_node_spec L D n bs G i a d)|].
  destruct (compress_all_spec (Some a) L D n bs G Hok HG (tidy_ends _ Ht) (tidy_short _ Ht)) as (L' & Hrun & Hok' & Hr & Hd).
  { intros a' [= <-]. apply list_elem_of_lookup. exists i. by rewrite list_lookup_fmap, Hi. }
  exists L'. split; [exact Hrun|]. split; [done|]. split; [done|]. split; [by eapply recoded_tidy|].
  intros _ x Hx. destruct (recompress x.2) eqn:E; [|done]. pose proof (rc_flags _ _ _ Hr i _ _ Hi Hx E) as E'. cbn in E'. congruence.
Qed.

Lemma recompressOnly_spec L D n bs G i a d :
  ok L D -> views L G -> tidy L -> L !! i = Some (a, d) ->
  exists L', quicklistRecompressOnly a (conc L D n bs) = Some (tt, conc L' D n bs) /\ ok L' D /\ recoded G L L' /\ tidy L' /\
    (dont_compress d = false -> cleared L' i).
Proof.
  intros Hok HG Ht Hi. unfold quicklistRecompressOnly. mstep (get_index L D n bs i a d Hok Hi). cbn [data].
  destruct (recompress d) eqn:Hf; [by apply (recompress_node_spec L D n bs G i a d)|].
  exists L. split; [done|]. split; [done|]. split; [by apply recoded_refl|]. split; [done|]. intros _ x Hx. by simplify_eq.
Qed.

(** A node that is decompressed for use. *)
Lemma forUse_spec L D n bs G i a d :
  ok L D -> views L G -> tidy L -> L !! i = Some (a, d) ->
  exists d', quicklistDecompressNodeForUse a (conc L D n bs) = Some (tt, conc (<[i := (a, d')]> L) D n bs) /\
    ok (<[i := (a, d')]> L) D /\ views (<[i := (a, d')]> L) G /\ tidy (<[i := (a, d')]> L) /\ encoding d' = RAW /\ (encoding d = RAW -> d' = d).
Proof.
  intros Hok HG Ht Hi. destruct (views_at _ _ _ _ _ HG Hi) as (v & Hv & Hd). pose proof (lookup_lt_Some _ _ _ Hi) as Hlt.
  assert (Hl : forall d', take i L ++ (a, d') :: drop (S i) L = <[i := (a, d')]> L) by (intros; symmetry; by apply insert_take_drop).
  pose proof (take_drop_middle L i _ Hi) as HL. pose proof Hok as HokL. rewrite <- HL in Hok.
  assert (Hc : conc L D n bs = conc (take i L ++ (a, d) :: drop (S i) L) D n bs) by by rewrite HL.
  unfold quicklistDecompressNodeForUse. rewrite Hc. mstep (get_linked F C _ _ _ _ _ n bs Hok). cbn [data]. case_bool_decide as He.
  - destruct (decompress_node_spec _ _ _ _ _ n bs v Hok Hd He) as (d' & Hr & Hv' & Hf & He'). mstep Hr.
    pose proof (ok_mid _ _ _ d' _ _ Hok) as Hok'. rewrite (update_linked F C _ _ _ _ _ n bs (with_recompress true) Hok'), Hl.
    eexists. split; [done|]. split; [rewrite <- Hl; by eapply ok_mid|]. split; [eapply views_insert; [done|done|by apply viewed_recompress]|].
    split; [|split; [done|congruence]]. pose proof (td_depth _ Ht i _ Hi He) as Hin. unfold inner in *.
    split; intros j x; (destruct (decide (i = j)) as [<-|Hne]; [rewrite list_lookup_insert_eq by done; intros [= <-]|rewrite list_lookup_insert_ne by done; intros Hx]);
      unfold inner; rewrite ?length_insert; try done.
    + by apply (td_depth _ Ht).
    + by apply (td_raw _ Ht j).
    + by apply (td_inner _ Ht).
  - exists d. rewrite (list_insert_id L i), HL by done. split; [done|]. split; [done|]. split; [done|]. split; [done|]. by destruct (encoding d).
Qed.

End Comp.
End QlComp.
