(* ===== verification/QuicklistNode.v ===== *)
(** * Changing the nodes of a quicklist

    The strings of a node, the invariant of a quicklist, and what inserting,
    deleting and changing one node does to it. *)

From stdpp Require Import gmap.
From S2P Require Import Prelude.
From S2P Require Import NumConv.
From S2P Require Import ListpackEnc.
From S2P Require Import Listpack.
From S2P Require Import ListpackOps.
From S2P Require Import ListpackEdit.
From S2P Require Import Quicklist.
From S2P Require Import QuicklistSpec.
From S2P Require Import QuicklistComp.
Import NumConv LpEnc Lp LpOps LpEdit Quicklist QlSpec QlComp.

Module QlNode.

(** ** Sizes *)

(** An upper bound of the bytes that strings take in a listpack. *)
Fixpoint bytes (ss : list sds) : Z :=
  match ss with [] => 0 | s :: ss => Zlen s + 10 + bytes ss end.

Lemma bytes_app a b : bytes (a ++ b) = bytes a + bytes b.
Proof. induction a as [|s a IH]; cbn [app bytes]; lia. Qed.

Lemma bytes_length ss : 10 * Zlen ss <= bytes ss.
Proof. induction ss as [|s ss IH]; cbn [bytes length]; lia. Qed.

Lemma bytes_elem s ss : s ∈ ss -> Zlen s + 10 <= bytes ss.
Proof.
  induction ss as [|s' ss IH]; [by intros ?%elem_of_nil|]. pose proof (bytes_length ss). cbn [bytes].
  intros [->|Hs]%elem_of_cons; [lia|]. apply IH in Hs. lia.
Qed.

Lemma elem_string_length e : Zlen (LpEnc.entry e) <= Zlen (elem_string e) + 10.
Proof.
  rewrite entry_length. destruct e as [v|s]; cbn [enc elem_string].
  - assert (Hl : Zlen (lpEncodeIntegerGetType v) <= 9).
    { unfold lpEncodeIntegerGetType. repeat case (_ && _); cbn [length]; lia. }
    assert (lpBacklenSize (Zlen (lpEncodeIntegerGetType v)) = 1).
    { unfold lpBacklenSize, lpEncodeBacklen. by rewrite (proj2 (Z.leb_le _ 127)) by lia. }
    lia.
  - pose proof (backlen_size (Zlen (lpEncodeString s))).
    assert (Zlen (lpEncodeString s) <= Zlen s + 5); [|lia]. unfold lpEncodeString. repeat case (_ <? _); cbn [length app]; lia.
Qed.

Lemma pos_bytes es : pos es <= 6 + bytes (elem_string <$> es).
Proof.
  unfold pos. induction es as [|e es IH]; [cbn; lia|]. rewrite body_cons, Zlen_app, fmap_cons. cbn [bytes].
  pose proof (elem_string_length e). lia.
Qed.

(** ** Listpacks of exact size *)

Definition exact (r : list Z) (es : list elem) : Prop := repr r es /\ Zlen r = pos es + 1.

Lemma layout_split num es slack : layout num es slack = layout num es [] ++ slack.
Proof. unfold layout. by rewrite <- !app_assoc. Qed.

Lemma layout_length num es : Zlen (layout num es []) = pos es + 1.
Proof. unfold layout. rewrite !Zlen_app, !length_le_encode. unfold pos. cbn [length]. lia. Qed.

Lemma layout_bytes num es : Forall elem_ok es -> bytes_ok (layout num es []).
Proof.
  intros Hes. unfold layout. rewrite !Forall_app. split; [apply le_encode_ok|]. split; [apply le_encode_ok|]. split.
  - unfold body. induction Hes as [|e es He Hes IH]; [constructor|]. cbn. apply Forall_app. split; [by apply entry_bytes|done].
  - split; [|constructor]. constructor; [by_compute|constructor].
Qed.

Lemma exact_split lp es : repr lp es -> exists r slack, lp = r ++ slack /\ exact r es /\ bytes_ok r.
Proof.
  intros (Hok & Hsz & num & slack & Hnum & ->). exists (layout num es []), slack. split; [apply layout_split|].
  split; [|by apply layout_bytes]. split; [|apply layout_length]. split; [done|]. split; [done|]. by exists num, [].
Qed.

Lemma exact_slack r es slack : exact r es -> repr (r ++ slack) es.
Proof.
  intros [(Hok & Hsz & num & sl & Hnum & ->) Hl]. split; [done|]. split; [done|]. exists num, slack. split; [done|].
  assert (sl = []) as ->; [|by rewrite <- layout_split]. apply nil_length_inv. rewrite layout_split, Zlen_app, layout_length in Hl. lia.
Qed.

Lemma repr_bytes lp es : repr lp es -> lpBytes lp = Some (pos es + 1).
Proof. apply total_eq. Qed.

(** ** The strings of a node *)

Record holds (v : view) (ss : list sds) : Prop := {
  hd_count : v_count v = Zlen ss;
  hd_bound : 0 < Zlen ss < 2 ^ 16;
  hd_dont : v_dont v = false;
  hd_strings : match v_container v with
               | PLAIN => ss = [v_raw v]
               | PACKED => exists es, exact (v_raw v) es /\ ss = elem_string <$> es
               end;
}.

(** A node with its strings, however it is stored. *)
Definition node_holds (d : nodeData) (ss : list sds) : Prop := exists v, viewed d v /\ holds v ss.
Definition contents (L : nlist) (SS : list (list sds)) : Prop := Forall2 (fun x ss => node_holds x.2 ss) L SS.

Lemma contents_views L SS : contents L SS <-> exists G, views L G /\ Forall2 holds G SS.
Proof.
  split.
  - induction 1 as [|x ss L SS (v & Hv & Hs) _ (G & HG & HS)]; [by exists []; split; constructor|]. exists (v :: G). split; by constructor.
  - intros (G & HG & HS). revert SS HS. induction HG as [|x v L G Hv _ IH]; intros SS HS; [by inversion HS; subst; constructor|].
    apply Forall2_cons_inv_l in HS as (ss & SS' & Hs & HS & ->). constructor; [by exists v|by apply IH].
Qed.

Lemma contents_app L1 L2 SS1 SS2 : contents L1 SS1 -> contents L2 SS2 -> contents (L1 ++ L2) (SS1 ++ SS2).
Proof. apply Forall2_app. Qed.

Lemma contents_mid L1 a d L2 SS :
  contents (L1 ++ (a, d) :: L2) SS ->
  exists SS1 ss SS2, SS = SS1 ++ ss :: SS2 /\ contents L1 SS1 /\ node_holds d ss /\ contents L2 SS2.
Proof.
  intros (SS1 & SS2 & H1 & H2 & ->)%Forall2_app_inv_l. apply Forall2_cons_inv_l in H2 as (ss & SS2' & Hs & H2 & ->).
  by exists SS1, ss, SS2'.
Qed.

Lemma contents_join L1 a d L2 SS1 ss SS2 :
  contents L1 SS1 -> node_holds d ss -> contents L2 SS2 -> contents (L1 ++ (a, d) :: L2) (SS1 ++ ss :: SS2).
Proof. intros H1 Hd H2. apply Forall2_app; [done|]. by constructor. Qed.

Lemma recoded_contents G L L' SS : recoded G L L' -> Forall2 holds G SS -> contents L' SS.
Proof. intros Hr HS. apply contents_views. exists G. split; [apply (rc_views _ _ _ Hr)|done]. Qed.

(** The addresses of a recoded list that are known. *)
Lemma addr_mid (L1 L2 L' : nlist) a d :
  L'.*1 = (L1 ++ (a, d) :: L2).*1 ->
  exists L1' d' L2', L' = L1' ++ (a, d') :: L2' /\ L1'.*1 = L1.*1 /\ L2'.*1 = L2.*1 /\ length L1' = length L1.
Proof.
  rewrite fmap_app, fmap_cons. intros (L1' & L2' & H1 & H2 & ->)%fmap_app_inv.
  destruct L2' as [|[a' d'] L2']; [done|]. injection H2 as <- H2.
  exists L1', d', L2'. split; [done|]. split; [done|]. split; [done|]. by rewrite <- (length_fmap fst L1'), <- H1, length_fmap.
Qed.

Lemma busy_mid u L1 a d d' L2 : recompress d' = recompress d -> busy u (L1 ++ (a, d) :: L2) -> busy u (L1 ++ (a, d') :: L2).
Proof.
  intros Hr Hb x Hx Hf. apply elem_of_app in Hx as [Hx|[->|Hx]%elem_of_cons]; [apply Hb; [set_solver|done]| |apply Hb; [set_solver|done]].
  apply (Hb (a, d)); [set_solver|]. cbn in *. congruence.
Qed.

Section Nodes.
Context `{Allocator} `{LzfMemory} (F C : Z) (HC : 0 <= C).

Abbreviation conc := (conc F C).
Abbreviation tidy := (tidy C).

#[local] Set Default Proof Using "Type*".

(** ** Inserting and deleting nodes *)

Lemma lookup_mid {A} (L1 : list A) x L2 i y :
  (L1 ++ x :: L2) !! i = Some y ->
  ((i < length L1)%nat /\ (L1 ++ L2) !! i = Some y) \/ (i = length L1 /\ y = x) \/
  ((length L1 < i)%nat /\ (L1 ++ L2) !! (i - 1)%nat = Some y).
Proof.
  intros Hi. destruct (Nat.lt_trichotomy i (length L1)) as [Hl|[->|Hl]].
  - left. split; [done|]. rewrite lookup_app_l in * by done. done.
  - right. left. rewrite list_lookup_middle in Hi by done. by simplify_eq.
  - right. right. split; [done|]. rewrite lookup_app_r in Hi by lia. rewrite lookup_app_r by lia.
    replace (i - length L1)%nat with (S (i - 1 - length L1)) in Hi by lia. done.
Qed.

Lemma tidy_insert L1 x L2 : tidy (L1 ++ L2) -> encoding x.2 = RAW -> recompress x.2 = false -> tidy (L1 ++ x :: L2).
Proof.
  intros [Hd Hr Hi] He Hf.
  assert (Hin : forall i, inner C (L1 ++ L2) i -> inner C (L1 ++ x :: L2) i /\ inner C (L1 ++ x :: L2) (S i)).
  { intros i [? ?]. unfold inner. rewrite !Zlen_app in *. cbn [length]. lia. }
  split; intros i y Hy Hs; (destruct (lookup_mid _ _ _ _ _ Hy) as [[Hl Hy']|[[_ ->]|[Hl Hy']]]; [|congruence|]).
  - by apply Hin, (Hd i y).
  - replace i with (S (i - 1)) by lia. by apply Hin, (Hd (i - 1)%nat y).
  - by apply (Hr i y).
  - by apply (Hr (i - 1)%nat y).
  - by apply Hin, (Hi i y).
  - replace i with (S (i - 1)) by lia. by apply Hin, (Hi (i - 1)%nat y).
Qed.

(** The two calls of [quicklistCompress] after an insertion. *)
Lemma compress_pair L D n bs G i j a ad b bd :
  ok L D -> views L G -> tidy L -> L !! i = Some (a, ad) -> L !! j = Some (b, bd) ->
  exists L', (quicklistCompress a ;; quicklistCompress b) (conc L D n bs) = Some (tt, conc L' D n bs) /\ ok L' D /\ recoded G L L' /\ tidy L' /\
    (dont_compress ad = false -> cleared L' i).
Proof.
  intros Hok HG Ht Hi Hj.
  destruct (quicklistCompress_spec F C HC L D n bs G i a ad Hok HG Ht Hi) as (L1 & H1 & Hok1 & Hr1 & Ht1 & Hc1). mstep H1.
  pose proof (recoded_addr _ _ _ j Hr1) as Ha. unfold addr_at in Ha. rewrite Hj in Ha. destruct (L1 !! j) as [[b' bd']|] eqn:Ej; [|done]. cbn in Ha. simplify_eq.
  destruct (quicklistCompress_spec F C HC L1 D n bs G j b bd' Hok1 (rc_views _ _ _ Hr1) Ht1 Ej) as (L2 & H2 & Hok2 & Hr2 & Ht2 & _).
  exists L2. split; [exact H2|]. split; [done|]. split; [by eapply recoded_trans|]. split; [done|]. intros Hdn x Hx.
  destruct (recompress x.2) eqn:E; [|done]. destruct (lookup_lt_is_Some_2 L1 i) as [y Hy].
  { rewrite <- (recoded_length _ _ _ Hr2). by eapply lookup_lt_Some. }
  rewrite <- (Hc1 Hdn y Hy). symmetry. by eapply (rc_flags _ _ _ Hr2).
Qed.

Lemma insert_node_after L1 o od L2 D n bs b nd G :
  ok (L1 ++ (o, od) :: L2) D -> D !! b = Some (alone nd) -> Zlen (L1 ++ (o, od) :: L2) < 2 ^ 63 - 1 ->
  views (L1 ++ (o, od) :: (b, nd) :: L2) G -> tidy (L1 ++ (o, od) :: L2) -> encoding nd = RAW -> recompress nd = false ->
  exists L', __quicklistInsertNode (Some o) b true (conc (L1 ++ (o, od) :: L2) D n bs) = Some (tt, conc L' (delete b D) n bs) /\
    ok L' (delete b D) /\ recoded G (L1 ++ (o, od) :: (b, nd) :: L2) L' /\ tidy L' /\ (dont_compress od = false -> cleared L' (length L1)).
Proof.
  intros Hok Hb Hlen HG Ht He Hf. rewrite (insert_after_eq F C L1 o od L2 D n bs b nd Hok Hb Hlen).
  assert (Hok' : ok (L1 ++ (o, od) :: (b, nd) :: L2) (delete b D)).
  { change ((o, od) :: ?x :: L2) with ([(o, od)] ++ x :: L2). rewrite app_assoc. by apply (ok_insert _ _ _ _ (alone nd)); rewrite <- ?app_assoc. }
  apply (compress_pair _ _ _ _ _ (length L1) (S (length L1)) _ od _ nd); [done|done| |by rewrite list_lookup_middle|].
  - change ((o, od) :: ?x :: L2) with ([(o, od)] ++ x :: L2). rewrite app_assoc. apply tidy_insert; [|done|done]. by rewrite <- app_assoc.
  - rewrite lookup_app_r by lia. by replace (S (length L1) - length L1)%nat with 1%nat by lia.
Qed.

Lemma insert_node_before L1 o od L2 D n bs b nd G :
  ok (L1 ++ (o, od) :: L2) D -> D !! b = Some (alone nd) -> Zlen (L1 ++ (o, od) :: L2) < 2 ^ 63 - 1 ->
  views (L1 ++ (b, nd) :: (o, od) :: L2) G -> tidy (L1 ++ (o, od) :: L2) -> encoding nd = RAW -> recompress nd = false ->
  exists L', __quicklistInsertNode (Some o) b false (conc (L1 ++ (o, od) :: L2) D n bs) = Some (tt, conc L' (delete b D) n bs) /\
    ok L' (delete b D) /\ recoded G (L1 ++ (b, nd) :: (o, od) :: L2) L' /\ tidy L' /\ (dont_compress od = false -> cleared L' (S (length L1))).
Proof.
  intros Hok Hb Hlen HG Ht He Hf. rewrite (insert_before_eq F C L1 o od L2 D n bs b nd Hok Hb Hlen).
  apply (compress_pair _ _ _ _ _ (S (length L1)) (length L1) _ od _ nd); [by eapply ok_insert|done|by apply tidy_insert| |by rewrite list_lookup_middle].
  rewrite lookup_app_r by lia. by replace (S (length L1) - length L1)%nat with 1%nat by lia.
Qed.

Lemma insert_node_empty D n bs b nd G after :
  ok [] D -> D !! b = Some (alone nd) -> views [(b, nd)] G -> encoding nd = RAW -> recompress nd = false ->
  exists L', __quicklistInsertNode None b after (conc [] D n bs) = Some (tt, conc L' (delete b D) n bs) /\
    ok L' (delete b D) /\ recoded G [(b, nd)] L' /\ tidy L'.
Proof.
  intros Hok Hb HG He Hf. rewrite (insert_empty_eq F C D n bs b nd after Hok Hb).
  destruct (quicklistCompress_spec F C HC [(b, nd)] (delete b D) n bs G 0 b nd) as (L' & H1 & Hok' & Hr & Ht & _).
  - by apply (ok_insert [] [] D b (alone nd)).
  - done.
  - apply (tidy_insert [] (b, nd) []); [|done|done]. by split; intros i x Hx.
  - done.
  - by exists L'.
Qed.

(** The invariant after a deletion: what was just inside may now be outside. *)
Lemma delete_ready L1 x L2 : tidy (L1 ++ x :: L2) -> busy (Some x.1) (L1 ++ x :: L2) -> NoDup (L1 ++ x :: L2).*1 ->
  ends_ready (L1 ++ L2) /\ short_raw C (L1 ++ L2) /\ use_raw (L1 ++ L2) /\ busy None (L1 ++ L2).
Proof.
  intros Ht Hb Hnd.
  assert (Hbusy : busy None (L1 ++ L2)).
  { intros y Hy Hf. assert (Hy' : y ∈ L1 ++ x :: L2) by set_solver. pose proof (Hb y Hy' Hf) as [= Heq]. exfalso.
    rewrite fmap_app, fmap_cons in Hnd. apply NoDup_app in Hnd as (_ & Hn & Hc). apply NoDup_cons in Hc as [Hc _].
    apply elem_of_app in Hy as [Hy|Hy].
    - apply (Hn y.1); [by apply list_elem_of_fmap_2|]. rewrite Heq. by left.
    - apply Hc. rewrite <- Heq. by apply list_elem_of_fmap_2. }
  assert (Hno : forall i y, (L1 ++ L2) !! i = Some y -> recompress y.2 = false).
  { intros i y Hy. destruct (recompress y.2) eqn:E; [|done]. by apply (Hbusy y) in E; [|by eapply list_elem_of_lookup_2]. }
  split; [intros i y Hy _; by eapply Hno|]. split; [|split; [intros i y Hy E; rewrite (Hno i y Hy) in E; done|done]].
  intros Hs i y Hy. destruct (encoding y.2) eqn:E; [done|]. exfalso.
  assert (exists j, (L1 ++ x :: L2) !! j = Some y) as [j Hj].
  { apply list_elem_of_lookup. apply list_elem_of_lookup_2 in Hy. set_solver. }
  destruct (td_depth _ _ Ht j y Hj E) as [H1 H2]. rewrite !Zlen_app in *. cbn [length] in *. lia.
Qed.

Lemma delete_node_spec L1 a d L2 D n bs G1 G2 :
  ok (L1 ++ (a, d) :: L2) D -> views L1 G1 -> views L2 G2 -> tidy (L1 ++ (a, d) :: L2) -> busy (Some a) (L1 ++ (a, d) :: L2) ->
  exists L', __quicklistDelNode a (conc (L1 ++ (a, d) :: L2) D n bs) =
      Some (tt, conc L' D (u64 (n - count d)) (del_bookmark bs a (first_of L2 None))) /\
    ok L' D /\ recoded (G1 ++ G2) (L1 ++ L2) L' /\ tidy L' /\ busy None L'.
Proof.
  intros Hok HG1 HG2 Ht Hb. rewrite (del_node_eq F C L1 a d L2 D n bs Hok).
  destruct (ok_delete _ _ _ _ _ (unlinked L1 d L2) Hok) as [Hok1 Hok2].
  destruct (delete_ready _ _ _ Ht Hb (ok_nodup _ _ Hok)) as (Hends & Hshort & Hu & Hbusy).
  destruct (compress_all_spec F C HC None (L1 ++ L2) (<[a := unlinked L1 d L2]> D) (u64 (n - count d)) (del_bookmark bs a (first_of L2 None)) (G1 ++ G2))
    as (L' & Hrun & Hok' & Hr & Hd); [done|by apply Forall2_app|done|done|done|]. mstep Hrun.
  destruct (nodup_mid _ _ _ _ (ok_nodup _ _ Hok)) as (Ha1 & Ha2 & _).
  rewrite zfree_conc; [|by eapply ok_same, rc_addr|apply (ok_disjoint _ _ Hok); rewrite fmap_app, fmap_cons; set_solver|].
  2:{ rewrite (rc_addr _ _ _ Hr), fmap_app. set_solver. }
  exists L'. split; [done|]. split; [by eapply ok_same, rc_addr|]. split; [done|]. pose proof (recoded_busy _ _ _ _ Hr Hbusy) as Hb'. split; [|done].
  split; [done|by apply (rc_use _ _ _ Hr)|]. intros i x Hx Hf. by apply (Hb' x) in Hf; [|by eapply list_elem_of_lookup_2].
Qed.

(** ** Changing the listpack of a node *)

Definition with_raw (r : list Z) (c : Z) (v : view) : view :=
  {| v_raw := r; v_count := c; v_container := v_container v; v_dont := v_dont v |}.

(** The fields after the listpack, the size and the count are written. *)
Definition relisted (lp : list Z) (z c : Z) (d : nodeData) : nodeData := with_count c (with_sz z (with_entry (Buf lp) d)).

Lemma viewed_relisted d v lp es c :
  viewed d v -> encoding d = RAW -> repr lp es ->
  exists r, viewed (relisted lp (pos es + 1) c d) (with_raw r c v) /\ exact r es.
Proof.
  intros [Hsz Hc Hcn Hdn Hst Hby Hbd] He Hlp. destruct (exact_split lp es Hlp) as (r & slack & -> & Hex & Hr). exists r. split; [|done].
  destruct Hex as [(_ & Hlt & _) Hl]. split; try done; cbn [relisted with_count with_sz sz with_raw v_raw]; [|lia].
  unfold stored. cbn [relisted with_count with_sz with_entry encoding entry]. rewrite He. by exists slack.
Qed.

Lemma tidy_mid L1 a d d' L2 : encoding d' = encoding d -> recompress d' = recompress d -> tidy (L1 ++ (a, d) :: L2) -> tidy (L1 ++ (a, d') :: L2).
Proof.
  intros He Hr [H1 H2 H3].
  assert (Hin : forall i, inner C (L1 ++ (a, d) :: L2) i -> inner C (L1 ++ (a, d') :: L2) i) by (unfold inner; intros i; by rewrite !length_app).
  assert (Hl : forall i y, (L1 ++ (a, d') :: L2) !! i = Some y -> exists x, (L1 ++ (a, d) :: L2) !! i = Some x /\ encoding y.2 = encoding x.2 /\ recompress y.2 = recompress x.2).
  { intros i y Hy. destruct (Nat.lt_trichotomy i (length L1)) as [Hl|[->|Hl]].
    - exists y. rewrite lookup_app_l in * by done. done.
    - rewrite list_lookup_middle in Hy by done. simplify_eq. exists (a, d). by rewrite list_lookup_middle.
    - exists y. rewrite lookup_app_r in * by lia. by replace (i - length L1)%nat with (S (i - length L1 - 1)) in * by lia. }
  split; intros i y Hy; destruct (Hl i y Hy) as (x & Hx & Ee & Er); rewrite ?Ee, ?Er; intros E; [by apply Hin, (H1 i x)|by apply (H2 i x)|by apply Hin, (H3 i x)].
Qed.

Lemma set_listpack_linked L1 a d L2 D n bs lp p :
  ok (L1 ++ (a, d) :: L2) D ->
  set_listpack a (Some (Some (lp, p))) (conc (L1 ++ (a, d) :: L2) D n bs) = Some (tt, conc (L1 ++ (a, with_entry (Buf lp) d) :: L2) D n bs).
Proof. intros Hok. unfold set_listpack. erewrite bind_step by done. by apply update_linked. Qed.

Lemma updateSz_linked L1 a d L2 D n bs lp es :
  ok (L1 ++ (a, d) :: L2) D -> entry d = Buf lp -> repr lp es ->
  quicklistNodeUpdateSz a (conc (L1 ++ (a, d) :: L2) D n bs) = Some (tt, conc (L1 ++ (a, with_sz (pos es + 1) d) :: L2) D n bs).
Proof.
  intros Hok He Hlp. unfold quicklistNodeUpdateSz. mstep (buffer_linked F C _ _ _ _ _ n bs _ Hok He).
  erewrite bind_step by (unfold lift; by rewrite (repr_bytes lp es Hlp)). by apply update_linked.
Qed.

Lemma set_listpack_other L D n bs a nd lp p :
  ok L D -> D !! a = Some (alone nd) ->
  set_listpack a (Some (Some (lp, p))) (conc L D n bs) = Some (tt, conc L (<[a := alone (with_entry (Buf lp) nd)]> D) n bs) /\
  ok L (<[a := alone (with_entry (Buf lp) nd)]> D).
Proof. intros Hok Ha. unfold set_listpack. erewrite bind_step by done. by apply (update_other F C _ _ n bs _ _ (with_entry (Buf lp)) Hok Ha). Qed.

Lemma updateSz_other L D n bs a nd lp es :
  ok L D -> D !! a = Some (alone nd) -> entry nd = Buf lp -> repr lp es ->
  quicklistNodeUpdateSz a (conc L D n bs) = Some (tt, conc L (<[a := alone (with_sz (pos es + 1) nd)]> D) n bs) /\
  ok L (<[a := alone (with_sz (pos es + 1) nd)]> D).
Proof.
  intros Hok Ha He Hlp. unfold quicklistNodeUpdateSz, buffer. rewrite bind_bind. mstep (get_other F C _ _ n bs _ _ Hok Ha). cbn [alone data]. rewrite He.
  erewrite bind_step by done. erewrite bind_step by (unfold lift; by rewrite (repr_bytes lp es Hlp)).
  by apply (update_other F C _ _ n bs _ _ (with_sz (pos es + 1)) Hok Ha).
Qed.

End Nodes.
End QlNode.
