(* ===== verification/QuicklistPush.v ===== *)
(** * Adding to and removing from a quicklist at its ends

    [quicklistPushHead] and [quicklistPushTail] add one string to the list of
    strings that a quicklist stands for, in the node at the end or in a new
    one; [quicklistDelIndex] removes an element from its node and
    [quicklistPop] one at an end. *)

From stdpp Require Import gmap.
From S2P Require Import Prelude.
From S2P Require Import NumConv.
From S2P Require Import ListpackEnc.
From S2P Require Import Listpack.
From S2P Require Import ListpackOps.
From S2P Require Import ListpackEdit.
From S2P Require Import Quicklist.
From S2P Require Import QuicklistSpec.
From S2P Require Import QuicklistComp.
From S2P Require Import QuicklistNode.
Import NumConv LpEnc Lp LpOps LpEdit Quicklist QlSpec QlComp QlNode.

Module QlPush.

Abbreviation MAX_BYTES := (2 ^ 31).

Lemma prepend_ok `{Allocator} lp es s :
  repr lp es -> bytes_ok s -> bytes (s :: (elem_string <$> es)) < MAX_BYTES ->
  exists lp' p, lpPrepend lp s = Some (Some (lp', p)) /\ repr lp' (elem_of_string s :: es).
Proof.
  intros Hlp Hs Hb. cbn [bytes] in Hb. pose proof (pos_bytes es). pose proof (elem_string_length (elem_of_string s)) as Hl. rewrite elem_string_of in Hl.
  pose proof (bytes_length (elem_string <$> es)). apply lpAppend_lpPrepend_refine; [done|done|lia|lia].
Qed.

Lemma append_ok `{Allocator} lp es s :
  repr lp es -> bytes_ok s -> bytes (s :: (elem_string <$> es)) < MAX_BYTES ->
  exists lp' p, lpAppend lp s = Some (Some (lp', p)) /\ repr lp' (es ++ [elem_of_string s]).
Proof.
  intros Hlp Hs Hb. cbn [bytes] in Hb. pose proof (pos_bytes es). pose proof (elem_string_length (elem_of_string s)) as Hl. rewrite elem_string_of in Hl.
  pose proof (bytes_length (elem_string <$> es)). apply lpAppend_lpPrepend_refine; [done|done|lia|lia].
Qed.

Lemma concat_length (SS : list (list sds)) : Forall (fun ss => 0 < Zlen ss) SS -> Zlen SS <= Zlen (concat SS).
Proof. induction 1 as [|ss SS Hs _ IH]; cbn [concat length]; [lia|]. rewrite length_app. lia. Qed.

Lemma contents_count L SS : contents L SS -> 10 * Zlen L <= bytes (concat SS).
Proof.
  intros HS. assert (Hl : length L = length SS) by by eapply Forall2_length.
  assert (Zlen SS <= Zlen (concat SS)); [|pose proof (bytes_length (concat SS)); lia]. apply concat_length.
  apply Forall_lookup. intros i ss Hi. eapply Forall2_lookup_r in HS as (x & _ & v & _ & Hv); [|done]. apply (hd_bound _ _ Hv).
Qed.

(** ** Limits of the configuration *)

Lemma limit_spec fill : INT32_MIN < fill <= INT32_MAX ->
  exists a b, quicklistNodeLimit fill = Some (a, b) /\ (a = SIZE_MAX /\ 1 <= b <= INT32_MAX \/ 4096 <= a <= 65536 /\ b = UINT_MAX).
Proof.
  intros Hf. unfold quicklistNodeLimit. destruct (Z.leb_spec 0 fill).
  - eexists _, _. split; [done|]. left. split; [done|]. destruct (Z.eqb_spec fill 0); lia.
  - rewrite (proj2 (Z.eqb_neq fill _)) by lia. set (o := if _ <=? _ then _ else _). assert (Ho : 0 <= o < 5) by (unfold o; change (Zlen optimization_level) with 5; destruct (Z.leb_spec 5 (- fill - 1)); lia).
    assert (Hl : exists z, optimization_level !! Z.to_nat o = Some z /\ 4096 <= z <= 65536).
    { assert (o = 0 \/ o = 1 \/ o = 2 \/ o = 3 \/ o = 4) as [-> | [-> | [-> | [-> | ->]]]] by lia; by eexists. }
    destruct Hl as (z & -> & Hz). eexists _, _. split; [done|]. by right.
Qed.

Lemma exceeds_spec fill new_sz new_count : INT32_MIN < fill <= INT32_MAX ->
  exists b, quicklistNodeExceedsLimit fill new_sz new_count = Some b /\ (b = false -> new_sz <= 65536).
Proof.
  intros Hf. unfold quicklistNodeExceedsLimit. destruct (limit_spec fill Hf) as (a & c & -> & [[-> Hc]|[Ha ->]]); cbn [mbind option_bind].
  - rewrite Z.eqb_refl. cbn [negb]. rewrite (proj2 (Z.eqb_neq _ _)) by lia. cbn [negb]. destruct (Z.leb_spec new_sz SIZE_SAFETY_LIMIT); cbn [negb]; (eexists; split; [done|]); [lia|done].
  - rewrite (proj2 (Z.eqb_neq _ _)) by lia. cbn [negb]. eexists. split; [done|]. lia.
Qed.

Section Push.
Context `{Allocator} `{LzfMemory} (F C packed_threshold : Z) (HC : 0 <= C) (HF : -5 <= F <= FILL_MAX).

Abbreviation conc := (conc F C).
Abbreviation tidy := (tidy C).

#[local] Set Default Proof Using "Type*".

(** The invariant: the contents of the nodes, which of them are compressed,
    and that only [u] is to be compressed again. *)
Record good (u : option addr) (L : nlist) (SS : list (list sds)) : Prop := {
  gd_contents : contents L SS;
  gd_tidy : tidy L;
  gd_busy : busy u L;
}.

(** ** Limits *)

Lemma exceeds_total new_sz new_count : exists b, quicklistNodeExceedsLimit F new_sz new_count = Some b /\ (b = false -> new_sz <= 65536).
Proof. apply exceeds_spec. lia. Qed.

(** A listpack of this size has few elements. *)
Lemma exact_count r es : exact r es -> 2 * Zlen es + 7 <= Zlen r.
Proof. intros [Hr Hl]. pose proof (length_bound _ _ Hr). lia. Qed.

Lemma allow_insert L1 a d L2 D n bs ss size :
  ok (L1 ++ (a, d) :: L2) D -> node_holds d ss -> 0 <= size < 2 ^ 62 ->
  exists b, _quicklistNodeAllowInsert packed_threshold (Some a) F size (conc (L1 ++ (a, d) :: L2) D n bs) = Some (b, conc (L1 ++ (a, d) :: L2) D n bs) /\
    (b = true -> container d = PACKED /\ Zlen ss + 1 < 2 ^ 16 /\ isLargeElement packed_threshold size = false).
Proof.
  intros Hok (v & Hv & Hs) Hsz. unfold _quicklistNodeAllowInsert. mstep (get_linked F C _ _ _ _ _ n bs Hok). cbn [data].
  unfold QL_NODE_IS_PLAIN. case_bool_decide as Hp; [by eexists|]. cbn [orb]. destruct (isLargeElement packed_threshold size) eqn:Hlg; [by eexists|].
  destruct (exceeds_total (u64 (sz d + size + SIZE_ESTIMATE_OVERHEAD)) (count d + 1)) as (b & Hb & Hlim).
  erewrite bind_step by (unfold lift; by rewrite Hb). exists (negb b). split; [done|]. intros Hn. apply negb_true_iff in Hn. subst b.
  assert (Hc : container d = PACKED) by by destruct (container d). split; [done|]. split; [|done].
  rewrite (vw_sz _ _ Hv) in Hlim. pose proof (vw_bound _ _ Hv).
  pose proof (hd_strings _ _ Hs) as Hst. rewrite <- (vw_container _ _ Hv), Hc in Hst. destruct Hst as (es & Hex & ->).
  rewrite length_fmap in *. pose proof (exact_count _ _ Hex). rewrite uwrap_small in Hlim by lia. specialize (Hlim eq_refl). lia.
Qed.

(** ** New nodes *)

Lemma new_listpack {A} L D n bs s f (k : addr -> M A) :
  ok L D -> (forall lp, repr lp [] -> exists lp' p, f lp = Some (Some (lp', p)) /\ repr lp' [elem_of_string s]) ->
  exists b nd, (node ← quicklistCreateNode; lp ← lift (lpNew 0); set_listpack node (f lp) ;; quicklistNodeUpdateSz node ;; k node) (conc L D n bs) =
      k b (conc L (<[b := alone nd]> D) n bs) /\
    b ∉ L.*1 /\ D !! b = None /\ ok L (<[b := alone nd]> D) /\ encoding nd = RAW /\ recompress nd = false /\
    exists raw, viewed nd {| v_raw := raw; v_count := 0; v_container := PACKED; v_dont := false |} /\ exact raw [elem_of_string s].
Proof.
  intros Hok Hf. destruct (lpNew_spec 0) as (lp & Hn & Hlp0). destruct (Hf lp Hlp0) as (lp' & p & Hp & Hlp).
  destruct (QlSpec.create_spec F C L D n bs Hok) as (b & Hc & Hb1 & Hb2 & Hok1). mstep Hc. erewrite bind_step by (unfold lift; by rewrite Hn). cbv beta. rewrite Hp.
  destruct (set_listpack_other F C HC L _ n bs b _ lp' p Hok1 (lookup_insert_eq _ _ _)) as [Hs Hok2]. mstep Hs.
  destruct (updateSz_other F C HC L _ n bs b _ lp' _ Hok2 (lookup_insert_eq _ _ _) eq_refl Hlp) as [Hu Hok3]. mstep Hu.
  eexists b, _. rewrite !insert_insert_eq in *. split; [done|]. split; [done|]. split; [done|]. split; [done|]. split; [done|]. split; [done|].
  destruct (exact_split _ _ Hlp) as (raw & slack & -> & Hex & Hby). exists raw. split; [|done]. destruct Hex as [(_ & Hlt & _) Hl].
  split; try done; cbn [v_raw]; [|lia]. unfold stored. cbn. by exists slack.
Qed.

(** A node at the head, or at the tail. *)
Lemma insert_head L D n bs b nd nv G :
  ok L D -> D !! b = Some (alone nd) -> Zlen L < 2 ^ 63 - 1 -> views L G -> viewed nd nv -> tidy L -> encoding nd = RAW -> recompress nd = false ->
  exists L', __quicklistInsertNode (first_of L None) b false (conc L D n bs) = Some (tt, conc L' (delete b D) n bs) /\
    ok L' (delete b D) /\ recoded (nv :: G) ((b, nd) :: L) L' /\ tidy L'.
Proof.
  intros Hok Hb Hlen HG Hv Ht He Hf. destruct L as [|[o od] L].
  - apply Forall2_nil_inv_l in HG as ->. apply insert_node_empty; [done|done|done|by constructor|done|done].
  - destruct (insert_node_before F C HC [] o od L D n bs b nd (nv :: G)) as (L' & Hrun & Hok' & Hr & Ht' & _); try done; [by constructor|]. by exists L'.
Qed.

Lemma insert_tail L D n bs b nd nv G :
  ok L D -> D !! b = Some (alone nd) -> Zlen L < 2 ^ 63 - 1 -> views L G -> viewed nd nv -> tidy L -> encoding nd = RAW -> recompress nd = false ->
  exists L', __quicklistInsertNode (last_of None L) b true (conc L D n bs) = Some (tt, conc L' (delete b D) n bs) /\
    ok L' (delete b D) /\ recoded (G ++ [nv]) (L ++ [(b, nd)]) L' /\ tidy L'.
Proof.
  intros Hok Hb Hlen HG Hv Ht He Hf. rewrite last_of_rev.
  destruct (rev L) as [|[o od] Q] eqn:Hrev; apply (f_equal (@rev _)) in Hrev; rewrite rev_involutive in Hrev; subst L; cbn [rev] in *.
  - apply Forall2_nil_inv_l in HG as ->. apply insert_node_empty; [done|done|done|by constructor|done|done].
  - destruct (insert_node_after F C HC (rev Q) o od [] D n bs b nd (G ++ [nv])) as (L' & Hrun & Hok' & Hr & Ht' & _); try done.
    { change ((o, od) :: ?x) with ([(o, od)] ++ x). rewrite app_assoc. apply Forall2_app; [done|]. by constructor. }
    exists L'. rewrite <- app_assoc. by split.
Qed.

Definition plain_view (s : sds) : view := {| v_raw := s; v_count := 1; v_container := PLAIN; v_dont := false |}.

Lemma create_plain L D n bs s :
  ok L D -> bytes_ok s -> Zlen s < 2 ^ 62 ->
  exists b nd, __quicklistCreatePlainNode s (conc L D n bs) = Some (b, conc L (<[b := alone nd]> D) n bs) /\
    b ∉ L.*1 /\ D !! b = None /\ ok L (<[b := alone nd]> D) /\ encoding nd = RAW /\ recompress nd = false /\
    viewed nd (plain_view s).
Proof.
  intros Hok Hs Hl. unfold __quicklistCreatePlainNode.
  destruct (QlSpec.create_spec F C L D n bs Hok) as (b & Hc & Hb1 & Hb2 & Hok1). mstep Hc.
  destruct (update_other F C L _ n bs b _ (with_container PLAIN) Hok1 (lookup_insert_eq _ _ _)) as [H1 Hok2]. mstep H1.
  destruct (update_other F C L _ n bs b _ (with_entry (Buf s)) Hok2 (lookup_insert_eq _ _ _)) as [H2 Hok3]. mstep H2.
  destruct (update_other F C L _ n bs b _ (with_sz (Zlen s)) Hok3 (lookup_insert_eq _ _ _)) as [H3 Hok4]. mstep H3.
  destruct (update_other F C L _ n bs b _ (count_add 1) Hok4 (lookup_insert_eq _ _ _)) as [H4 Hok5]. mstep H4.
  rewrite !insert_insert_eq in *. cbn [alone prev next data] in *. eexists b, _. split; [done|]. split; [done|]. split; [done|]. split; [done|].
  split; [done|]. split; [done|]. split; try done. unfold stored. cbn. exists []. by rewrite app_nil_r.
Qed.

Lemma plain_holds s : holds (plain_view s) [s].
Proof. split; try done. Qed.

Lemma viewed_count d v k : viewed d v -> viewed (count_add k d) (with_raw (v_raw v) (u16 (v_count v + k)) v).
Proof. intros [Hsz Hc Hcn Hdn Hst Hby Hbd]. split; try done. cbn. by rewrite Hc. Qed.

(** The first and the last node are not compressed. *)
Lemma end_raw L i x : tidy L -> L !! i = Some x -> i = 0%nat \/ i = (length L - 1)%nat -> encoding x.2 = RAW /\ recompress x.2 = false.
Proof.
  intros Ht Hx Hi. pose proof (lookup_lt_Some _ _ _ Hx). split; [|by eapply (tidy_ends _ HC)].
  destruct (encoding x.2) eqn:E; [done|]. destruct (td_depth _ _ Ht i x Hx E). lia.
Qed.

Lemma busy_cons u x L : busy u L -> recompress x.2 = false -> busy u (x :: L).
Proof. intros Hb Hf y [->|Hy]%elem_of_cons Hr; [congruence|by apply Hb]. Qed.

Lemma busy_snoc u x L : busy u L -> recompress x.2 = false -> busy u (L ++ [x]).
Proof. intros Hb Hf y [Hy|[->|[]%elem_of_nil]%elem_of_cons]%elem_of_app Hr; [by apply Hb|congruence]. Qed.

Lemma plain_head L SS n bs s :
  ok L ∅ -> good None L SS -> bytes_ok s -> bytes (s :: concat SS) < MAX_BYTES ->
  exists L', __quicklistInsertPlainNode (first_of L None) s false (conc L ∅ n bs) = Some (tt, conc L' ∅ (u64 (n + 1)) bs) /\
    ok L' ∅ /\ good None L' ([s] :: SS).
Proof.
  intros Hok [Hcs Ht Hb] Hs Hsz. cbn [bytes] in Hsz. pose proof (contents_count _ _ Hcs). apply contents_views in Hcs as (G & HG & HS).
  unfold __quicklistInsertPlainNode. destruct (create_plain L ∅ n bs s Hok Hs) as (b & nd & Hc & Hb1 & Hb2 & Hok1 & He & Hf & Hv).
  { pose proof (bytes_length (concat SS)). lia. }
  mstep Hc. destruct (insert_head L _ n bs b nd (plain_view s) G Hok1 (lookup_insert_eq _ _ _)) as (L' & Hi & Hok' & Hr & Ht'); [lia|done..|]. mstep Hi.
  rewrite add_count_conc. rewrite delete_insert_id in * by done. exists L'. split; [done|]. split; [done|]. split; [|done|].
  - eapply recoded_contents; [exact Hr|]. constructor; [apply plain_holds|done].
  - eapply recoded_busy; [exact Hr|]. by apply busy_cons.
Qed.

(** A change of one node. *)
Lemma good_mid u L1 a d d' L2 SS1 ss SS2 :
  contents L1 SS1 -> contents L2 SS2 -> tidy (L1 ++ (a, d) :: L2) -> busy u (L1 ++ (a, d) :: L2) ->
  node_holds d' ss -> encoding d' = encoding d -> recompress d' = recompress d -> good u (L1 ++ (a, d') :: L2) (SS1 ++ ss :: SS2).
Proof. intros H1 H2 Ht Hb Hd He Hf. split; [by apply contents_join|by eapply tidy_mid|by eapply busy_mid]. Qed.

(** The node with a changed listpack. *)
Lemma relisted_holds d v lp es ss c :
  viewed d v -> encoding d = RAW -> container d = PACKED -> v_dont v = false -> repr lp es -> ss = elem_string <$> es -> c = Zlen ss -> 0 < Zlen ss < 2 ^ 16 ->
  node_holds (relisted lp (pos es + 1) c d) ss.
Proof.
  intros Hv He Hc Hdn Hlp -> -> Hb. destruct (viewed_relisted _ _ _ _ (Zlen (elem_string <$> es)) Hv He Hlp) as (r & Hv' & Hex).
  eexists. split; [exact Hv'|]. split; try done. cbn. rewrite <- (vw_container _ _ Hv), Hc. by exists es.
Qed.

Lemma packed_elems d ss : node_holds d ss -> container d = PACKED -> encoding d = RAW ->
  exists v es lp, viewed d v /\ holds v ss /\ entry d = Buf lp /\ repr lp es /\ ss = elem_string <$> es.
Proof.
  intros (v & Hv & Hh) Hc He. pose proof (hd_strings _ _ Hh) as Hst. rewrite <- (vw_container _ _ Hv), Hc in Hst. destruct Hst as (es & Hex & ->).
  destruct (viewed_raw _ _ Hv He) as [slack Hb]. exists v, es, (v_raw v ++ slack). split; [done|]. split; [done|]. split; [done|]. split; [by apply exact_slack|done].
Qed.

(** A new listpack for a node, with its size. *)
Lemma relist_step L1 a d L2 D n bs lp es' f :
  ok (L1 ++ (a, d) :: L2) D -> entry d = Buf lp -> (exists lp' p, f lp = Some (Some (lp', p)) /\ repr lp' es') ->
  exists lp', repr lp' es' /\ ok (L1 ++ (a, with_sz (pos es' + 1) (with_entry (Buf lp') d)) :: L2) D /\
    (lp ← buffer a; set_listpack a (f lp) ;; quicklistNodeUpdateSz a) (conc (L1 ++ (a, d) :: L2) D n bs) =
    Some (tt, conc (L1 ++ (a, with_sz (pos es' + 1) (with_entry (Buf lp') d)) :: L2) D n bs).
Proof.
  intros Hok Hbuf (lp' & p & Hf & Hlp'). exists lp'. split; [done|]. pose proof (ok_mid _ a _ (with_entry (Buf lp') d) _ _ Hok) as Hok1.
  split; [by eapply ok_mid|]. mstep (buffer_linked F C _ _ _ _ D n bs lp Hok Hbuf). rewrite Hf. mstep (set_listpack_linked F C HC _ _ _ _ D n bs lp' p Hok).
  exact (updateSz_linked F C HC _ a _ _ D n bs lp' es' Hok1 eq_refl Hlp').
Qed.

(** One more element in the listpack of a node. *)
Lemma add_holds d v lp es es' ss s :
  viewed d v -> holds v ss -> encoding d = RAW -> container d = PACKED -> repr lp es' -> ss = elem_string <$> es ->
  elem_string <$> es' ≡ₚ s :: (elem_string <$> es) -> Zlen ss + 1 < 2 ^ 16 ->
  node_holds (count_add 1 (with_sz (pos es' + 1) (with_entry (Buf lp) d))) (elem_string <$> es').
Proof.
  intros Hv Hh He Hc Hlp -> Hp Hl. apply Permutation_length in Hp. cbn [length] in Hp. pose proof (hd_bound _ _ Hh).
  eapply (relisted_holds d v lp es'); try done; [apply (hd_dont _ _ Hh)| |lia].
  cbn. rewrite (vw_count _ _ Hv), (hd_count _ _ Hh), uwrap_small by lia. lia.
Qed.

(** ** Adding at the ends *)

(** Whether the node at an end takes the element. *)
Lemma head_case L SS n bs (s : sds) :
  ok L ∅ -> contents L SS -> Zlen s < 2 ^ 62 ->
  exists b, _quicklistNodeAllowInsert packed_threshold (first_of L None) F (Zlen s) (conc L ∅ n bs) = Some (b, conc L ∅ n bs) /\
    (b = true -> exists h d L2 ss SS2, L = (h, d) :: L2 /\ SS = ss :: SS2 /\ container d = PACKED /\ Zlen ss + 1 < 2 ^ 16 /\ node_holds d ss /\ contents L2 SS2).
Proof.
  intros Hok Hcs Hl. destruct L as [|[h d] L2]; [by exists false|].
  destruct (contents_mid [] h d L2 SS Hcs) as ([|? ?] & ss & SS2 & -> & Hnil & Hd & H2); [|by inversion Hnil].
  destruct (allow_insert [] h d L2 ∅ n bs ss (Zlen s) Hok Hd) as (b & Ha & Hb); [lia|]. exists b. split; [exact Ha|]. intros ->.
  destruct (Hb eq_refl) as (Hc & Hlt & _). by exists h, d, L2, ss, SS2.
Qed.

Lemma push_head_old h d L2 ss SS2 n bs s :
  ok ((h, d) :: L2) ∅ -> tidy ((h, d) :: L2) -> busy None ((h, d) :: L2) -> container d = PACKED -> Zlen ss + 1 < 2 ^ 16 -> node_holds d ss -> contents L2 SS2 ->
  bytes_ok s -> bytes (s :: concat (ss :: SS2)) < MAX_BYTES ->
  exists d1, (lp ← buffer h; set_listpack h (lpPrepend lp s) ;; quicklistNodeUpdateSz h) (conc ((h, d) :: L2) ∅ n bs) = Some (tt, conc ((h, d1) :: L2) ∅ n bs) /\
    ok ((h, d1) :: L2) ∅ /\ good None ((h, count_add 1 d1) :: L2) ((s :: ss) :: SS2).
Proof.
  intros Hok Ht Hbz Hc Hl Hd H2 Hs Hsz. destruct (end_raw _ 0 _ Ht eq_refl) as [He Hf]; [by left|]. cbn in He, Hf.
  destruct (packed_elems d ss Hd Hc He) as (v & es & lp & Hv & Hh & Hbuf & Hlp & ->).
  destruct (relist_step [] h d L2 ∅ n bs lp (elem_of_string s :: es) (fun lp => lpPrepend lp s) Hok Hbuf) as (lp' & Hlp' & Hok1 & Hrun).
  { apply prepend_ok; [done|done|]. cbn [bytes concat] in *. rewrite bytes_app in Hsz. pose proof (bytes_length (concat SS2)). lia. }
  eexists. split; [exact Hrun|]. split; [done|]. apply (good_mid None [] h d _ L2 [] _ SS2); [by constructor|done|done|done| |done|done].
  pose proof (add_holds d v lp' es (elem_of_string s :: es) _ s Hv Hh He Hc Hlp' eq_refl) as Hadd. rewrite fmap_cons, elem_string_of in Hadd. by apply Hadd.
Qed.

Lemma push_head_new L SS n bs s b nd raw :
  ok L (<[b := alone nd]> ∅) -> good None L SS -> bytes (concat SS) < MAX_BYTES -> encoding nd = RAW -> recompress nd = false ->
  viewed nd {| v_raw := raw; v_count := 0; v_container := PACKED; v_dont := false |} -> exact raw [elem_of_string s] ->
  exists d L2, _quicklistInsertNodeBefore (first_of L None) b (conc L (<[b := alone nd]> ∅) n bs) = Some (tt, conc ((b, d) :: L2) ∅ n bs) /\
    ok ((b, d) :: L2) ∅ /\ good None ((b, count_add 1 d) :: L2) ([s] :: SS).
Proof.
  intros Hok [Hcs Ht Hbz] Hsz He Hf Hv Hex. pose proof (contents_count _ _ Hcs). apply contents_views in Hcs as (G & HG & HS).
  set (nv := {| v_raw := raw; v_count := 0; v_container := PACKED; v_dont := false |}) in *.
  destruct (insert_head L _ n bs b nd nv G Hok (lookup_insert_eq _ _ _)) as (L' & Hi & Hok' & Hr & Ht'); [lia|done..|].
  rewrite delete_insert_id in * by done. destruct (addr_mid [] L L' b nd (rc_addr _ _ _ Hr)) as ([|] & d & L2 & -> & _ & _ & Hl); [|done]. cbn [app] in *.
  exists d, L2. split; [exact Hi|]. split; [done|]. pose proof (rc_views _ _ _ Hr) as HV. apply Forall2_cons_1 in HV as [Hd HV].
  apply (good_mid None [] b d (count_add 1 d) L2 [] [s] SS); [by constructor|by apply contents_views; exists G|done| | |done|done].
  - apply (recoded_busy _ _ _ _ Hr). by apply busy_cons.
  - eexists. split; [by apply viewed_count|]. split; try done. cbn. exists [elem_of_string s]. split; [done|]. cbn. by rewrite elem_string_of.
Qed.

Lemma pushHead_spec L SS n bs s :
  ok L ∅ -> good None L SS -> bytes_ok s -> bytes (s :: concat SS) < MAX_BYTES ->
  exists r L' SS', quicklistPushHead packed_threshold s (conc L ∅ n bs) = Some (r, conc L' ∅ (u64 (n + 1)) bs) /\
    ok L' ∅ /\ good None L' SS' /\ concat SS' = s :: concat SS.
Proof.
  intros Hok Hg Hs Hsz. unfold quicklistPushHead. dstep. cbn [conc ql qlof id head fill].
  destruct (isLargeElement packed_threshold (Zlen s)) eqn:Hlg.
  { destruct (plain_head L SS n bs s Hok Hg Hs Hsz) as (L' & Hp & Hok' & Hg'). mstep Hp. by eexists _, L', ([s] :: SS). }
  pose proof (bytes_length (concat SS)) as Hbl.
  destruct (head_case L SS n bs s Hok (gd_contents _ _ _ Hg)) as (b & Ha & Hb); [cbn [bytes] in Hsz; lia|]. mstep Ha.
  assert (H1 : exists h d L2 SS', (if b then h ← deref (first_of L None); lp ← buffer h; set_listpack h (lpPrepend lp s) ;; quicklistNodeUpdateSz h
      else node ← quicklistCreateNode; lp ← lift (lpNew 0); set_listpack node (lpPrepend lp s) ;; quicklistNodeUpdateSz node ;;
           _quicklistInsertNodeBefore (first_of L None) node) (conc L ∅ n bs) = Some (tt, conc ((h, d) :: L2) ∅ n bs) /\
    ok ((h, d) :: L2) ∅ /\ good None ((h, count_add 1 d) :: L2) SS' /\ concat SS' = s :: concat SS).
  { destruct b.
    - destruct (Hb eq_refl) as (h & d & L2 & ss & SS2 & -> & -> & Hc & Hl & Hd & H2). destruct Hg as [_ Ht Hbz].
      destruct (push_head_old h d L2 ss SS2 n bs s) as (d1 & Hrun & Hok1 & Hg1); try done. exists h, d1, L2. eexists. split; [exact Hrun|]. by split.
    - destruct (new_listpack L ∅ n bs s (fun lp => lpPrepend lp s) (fun b => _quicklistInsertNodeBefore (first_of L None) b) Hok) as (b & nd & -> & Hb1 & _ & Hok1 & He & Hf & raw & Hv & Hex).
      { intros lp Hlp. apply prepend_ok; [done|done|]. cbn [bytes fmap list_fmap] in *. lia. }
      destruct (push_head_new L SS n bs s b nd raw Hok1 Hg) as (d & L2 & Hins & Hok2 & Hg2); [cbn [bytes] in Hsz; lia|done..|]. by exists b, d, L2, ([s] :: SS). }
  destruct H1 as (h & d & L2 & SS' & H1 & Hok1 & Hg1 & Hc1). mstep H1. do 3 dstep.
  mstep (update_linked F C [] h d L2 ∅ (u64 (n + 1)) bs (count_add 1) Hok1). eexists _, _, SS'. split; [done|]. split; [by apply (ok_mid [] h d)|done].
Qed.

Lemma plain_tail L SS n bs s :
  ok L ∅ -> good None L SS -> bytes_ok s -> bytes (s :: concat SS) < MAX_BYTES ->
  exists L', __quicklistInsertPlainNode (last_of None L) s true (conc L ∅ n bs) = Some (tt, conc L' ∅ (u64 (n + 1)) bs) /\
    ok L' ∅ /\ good None L' (SS ++ [[s]]).
Proof.
  intros Hok [Hcs Ht Hb] Hs Hsz. cbn [bytes] in Hsz. pose proof (contents_count _ _ Hcs). apply contents_views in Hcs as (G & HG & HS).
  unfold __quicklistInsertPlainNode. destruct (create_plain L ∅ n bs s Hok Hs) as (b & nd & Hc & Hb1 & Hb2 & Hok1 & He & Hf & Hv).
  { pose proof (bytes_length (concat SS)). lia. }
  mstep Hc. destruct (insert_tail L _ n bs b nd (plain_view s) G Hok1 (lookup_insert_eq _ _ _)) as (L' & Hi & Hok' & Hr & Ht'); [lia|done..|]. mstep Hi.
  rewrite add_count_conc. rewrite delete_insert_id in * by done. exists L'. split; [done|]. split; [done|]. split; [|done|].
  - eapply recoded_contents; [exact Hr|]. apply Forall2_app; [done|]. constructor; [apply plain_holds|done].
  - eapply recoded_busy; [exact Hr|]. by apply busy_snoc.
Qed.

Lemma tail_case L SS n bs (s : sds) :
  ok L ∅ -> contents L SS -> Zlen s < 2 ^ 62 ->
  exists b, _quicklistNodeAllowInsert packed_threshold (last_of None L) F (Zlen s) (conc L ∅ n bs) = Some (b, conc L ∅ n bs) /\
    (b = true -> exists L1 t d SS1 ss, L = L1 ++ [(t, d)] /\ SS = SS1 ++ [ss] /\ container d = PACKED /\ Zlen ss + 1 < 2 ^ 16 /\ node_holds d ss /\ contents L1 SS1).
Proof.
  intros Hok Hcs Hl. rewrite last_of_rev.
  destruct (rev L) as [|[t d] Q] eqn:Hrev; apply (f_equal (@rev _)) in Hrev; rewrite rev_involutive in Hrev; subst L; cbn [rev] in *; [by exists false|].
  destruct (contents_mid _ t d [] SS Hcs) as (SS1 & ss & [|? ?] & -> & H1 & Hd & Hnil); [|by inversion Hnil].
  destruct (allow_insert _ t d [] ∅ n bs ss (Zlen s) Hok Hd) as (b & Ha & Hb); [lia|]. exists b. split; [exact Ha|]. intros ->.
  destruct (Hb eq_refl) as (Hc & Hlt & _). by exists (rev Q), t, d, SS1, ss.
Qed.

Lemma push_tail_old L1 t d SS1 ss n bs s :
  ok (L1 ++ [(t, d)]) ∅ -> tidy (L1 ++ [(t, d)]) -> busy None (L1 ++ [(t, d)]) -> container d = PACKED -> Zlen ss + 1 < 2 ^ 16 -> node_holds d ss -> contents L1 SS1 ->
  bytes_ok s -> bytes (s :: concat (SS1 ++ [ss])) < MAX_BYTES ->
  exists d1, (lp ← buffer t; set_listpack t (lpAppend lp s) ;; quicklistNodeUpdateSz t) (conc (L1 ++ [(t, d)]) ∅ n bs) = Some (tt, conc (L1 ++ [(t, d1)]) ∅ n bs) /\
    ok (L1 ++ [(t, d1)]) ∅ /\ good None (L1 ++ [(t, count_add 1 d1)]) (SS1 ++ [ss ++ [s]]).
Proof.
  intros Hok Ht Hbz Hc Hl Hd H1 Hs Hsz. destruct (end_raw _ (length L1) (t, d) Ht) as [He Hf]; [by rewrite list_lookup_middle|right; rewrite length_app; cbn; lia|]. cbn in He, Hf.
  destruct (packed_elems d ss Hd Hc He) as (v & es & lp & Hv & Hh & Hbuf & Hlp & ->).
  destruct (relist_step L1 t d [] ∅ n bs lp (es ++ [elem_of_string s]) (fun lp => lpAppend lp s) Hok Hbuf) as (lp' & Hlp' & Hok1 & Hrun).
  { apply append_ok; [done|done|]. rewrite concat_app in Hsz. cbn [bytes concat] in *. rewrite !bytes_app in Hsz. cbn [bytes] in Hsz. pose proof (bytes_length (concat SS1)). lia. }
  eexists. split; [exact Hrun|]. split; [done|]. apply (good_mid None L1 t d _ [] SS1 _ []); [done|by constructor|done|done| |done|done].
  pose proof (add_holds d v lp' es (es ++ [elem_of_string s]) _ s Hv Hh He Hc Hlp' eq_refl) as Hadd. rewrite fmap_app in Hadd. cbn [fmap list_fmap] in Hadd.
  rewrite elem_string_of in Hadd. apply Hadd; [|done]. by rewrite Permutation_app_comm.
Qed.

Lemma push_tail_new L SS n bs s b nd raw :
  ok L (<[b := alone nd]> ∅) -> good None L SS -> bytes (concat SS) < MAX_BYTES -> encoding nd = RAW -> recompress nd = false ->
  viewed nd {| v_raw := raw; v_count := 0; v_container := PACKED; v_dont := false |} -> exact raw [elem_of_string s] ->
  exists d L1, _quicklistInsertNodeAfter (last_of None L) b (conc L (<[b := alone nd]> ∅) n bs) = Some (tt, conc (L1 ++ [(b, d)]) ∅ n bs) /\
    ok (L1 ++ [(b, d)]) ∅ /\ good None (L1 ++ [(b, count_add 1 d)]) (SS ++ [[s]]).
Proof.
  intros Hok [Hcs Ht Hbz] Hsz He Hf Hv Hex. pose proof (contents_count _ _ Hcs). apply contents_views in Hcs as (G & HG & HS).
  set (nv := {| v_raw := raw; v_count := 0; v_container := PACKED; v_dont := false |}) in *.
  destruct (insert_tail L _ n bs b nd nv G Hok (lookup_insert_eq _ _ _)) as (L' & Hi & Hok' & Hr & Ht'); [lia|done..|].
  rewrite delete_insert_id in * by done. destruct (addr_mid L [] L' b nd (rc_addr _ _ _ Hr)) as (L1 & d & [|] & -> & _ & Hl & Hl1); [|done].
  exists d, L1. split; [exact Hi|]. split; [done|]. pose proof (rc_views _ _ _ Hr) as HV.
  apply Forall2_app_inv in HV as [HV1 HV2]; [|by rewrite Hl1; apply views_length]. apply Forall2_cons_1 in HV2 as [Hd _].
  apply (good_mid None L1 b d (count_add 1 d) [] SS [s] []); [by apply contents_views; exists G|by constructor|done| | |done|done].
  - apply (recoded_busy _ _ _ _ Hr). by apply busy_snoc.
  - eexists. split; [by apply viewed_count|]. split; try done. cbn. exists [elem_of_string s]. split; [done|]. cbn. by rewrite elem_string_of.
Qed.

Lemma pushTail_spec L SS n bs s :
  ok L ∅ -> good None L SS -> bytes_ok s -> bytes (s :: concat SS) < MAX_BYTES ->
  exists r L' SS', quicklistPushTail packed_threshold s (conc L ∅ n bs) = Some (r, conc L' ∅ (u64 (n + 1)) bs) /\
    ok L' ∅ /\ good None L' SS' /\ concat SS' = concat SS ++ [s].
Proof.
  intros Hok Hg Hs Hsz. unfold quicklistPushTail. dstep. cbn [conc ql qlof id tail fill].
  destruct (isLargeElement packed_threshold (Zlen s)) eqn:Hlg.
  { destruct (plain_tail L SS n bs s Hok Hg Hs Hsz) as (L' & Hp & Hok' & Hg'). mstep Hp. eexists _, L', (SS ++ [[s]]). by rewrite concat_app. }
  pose proof (bytes_length (concat SS)) as Hbl.
  destruct (tail_case L SS n bs s Hok (gd_contents _ _ _ Hg)) as (b & Ha & Hb); [cbn [bytes] in Hsz; lia|]. mstep Ha.
  assert (H1 : exists t d L1 SS', (if b then t ← deref (last_of None L); lp ← buffer t; set_listpack t (lpAppend lp s) ;; quicklistNodeUpdateSz t
      else node ← quicklistCreateNode; lp ← lift (lpNew 0); set_listpack node (lpAppend lp s) ;; quicklistNodeUpdateSz node ;;
           _quicklistInsertNodeAfter (last_of None L) node) (conc L ∅ n bs) = Some (tt, conc (L1 ++ [(t, d)]) ∅ n bs) /\
    ok (L1 ++ [(t, d)]) ∅ /\ good None (L1 ++ [(t, count_add 1 d)]) SS' /\ concat SS' = concat SS ++ [s]).
  { destruct b.
    - destruct (Hb eq_refl) as (L1 & t & d & SS1 & ss & -> & -> & Hc & Hl & Hd & H1). destruct Hg as [_ Ht Hbz].
      destruct (push_tail_old L1 t d SS1 ss n bs s) as (d1 & Hrun & Hok1 & Hg1); try done. exists t, d1, L1. eexists. rewrite last_of_snoc. split; [exact Hrun|].
      split; [done|]. split; [done|]. rewrite !concat_app. cbn. by rewrite !app_nil_r, app_assoc.
    - destruct (new_listpack L ∅ n bs s (fun lp => lpAppend lp s) (fun b => _quicklistInsertNodeAfter (last_of None L) b) Hok) as (b & nd & -> & Hb1 & _ & Hok1 & He & Hf & raw & Hv & Hex).
      { intros lp Hlp. apply (append_ok lp [] s Hlp Hs). cbn [bytes fmap list_fmap] in *. lia. }
      destruct (push_tail_new L SS n bs s b nd raw Hok1 Hg) as (d & L1 & Hins & Hok2 & Hg2); [cbn [bytes] in Hsz; lia|done..|]. exists b, d, L1, (SS ++ [[s]]). by rewrite concat_app. }
  destruct H1 as (t & d & L1 & SS' & H1 & Hok1 & Hg1 & Hc1). mstep H1. mstep (add_count_conc F C (L1 ++ [(t, d)]) ∅ n bs 1). dstep. cbn [conc ql qlof tail]. rewrite last_of_snoc. dstep.
  mstep (update_linked F C L1 t d [] ∅ (u64 (n + 1)) bs (count_add 1) Hok1). eexists _, _, SS'. split; [done|]. split; [by apply (ok_mid L1 t d)|done].
Qed.

End Push.
End QlPush.
