(* ===== verification/QuicklistDel.v ===== *)
(** * Reading and removing the elements of a quicklist

    The element under a cursor of a node: reading it, removing it with
    [quicklistDelIndex], and [quicklistPop] at the ends of the list. *)

From stdpp Require Import gmap.
From S2P Require Import Prelude.
From S2P Require Import NumConv.
From S2P Require Import ListpackEnc.
From S2P Require Import Listpack.
From S2P Require Import ListpackOps.
From S2P Require Import ListpackEdit.
From S2P Require Import Quicklist.
From S2P Require Import QuicklistSpec.
From S2P Require Import QuicklistComp.
From S2P Require Import QuicklistNode.
From S2P Require Import QuicklistPush.
Import NumConv LpEnc Lp LpOps LpEdit Quicklist QlSpec QlComp QlNode QlPush.

Module QlDel.

(** The string at index [k] of a node is under the pointer [p] into the
    listpack; a plain node has one string, whatever the pointer. *)
Definition cursor (d : nodeData) (ss : list sds) (k : nat) (p : option Z) : Prop :=
  encoding d = RAW /\ (k < length ss)%nat /\
  match container d with
  | PLAIN => True
  | PACKED => exists lp es, entry d = Buf lp /\ repr lp es /\ ss = elem_string <$> es /\ p = Some (pos (take k es))
  end.

(** ** Values *)

(** The value of an element: its bytes, or an integer that is written out. *)
Definition reads (v : sds + Z) (s : sds) : Prop :=
  value_bytes v = Some s /\ match v with inl _ => True | inr z => LLONG_MIN <= z <= LLONG_MAX end.

Lemma lp_value_spec lp es (k : nat) s :
  repr lp es -> (elem_string <$> es) !! k = Some s ->
  exists v, lp_value lp (pos (take k es)) = Some v /\ reads v s.
Proof.
  intros Hlp (e & -> & He)%list_lookup_fmap_Some_1. pose proof (take_drop_middle _ _ _ He) as Heq.
  destruct (at_entry _ _ Hlp (take k es) e (drop (S k) es)) as (Hok & Hat & _ & _); [done|].
  unfold lp_value, lpGet. destruct (elem_get lp _ e 0 Hok Hat) as (v & -> & Hv). cbn [mbind option_bind].
  destruct e as [z|s], v as [z'|off len]; try done; cbn [lpval_is elem_string] in *.
  - subst z'. eexists. split; [done|]. split; [|done]. cbn [value_bytes]. pose proof (lltoa_length z Hok).
    destruct (ll2string_spec (replicate 32 0) 32 z) as (post & -> & Hpost); [done|done|lia|]. cbn [mbind option_bind].
    apply (at_rd _ 0 (lltoa z)); [|done]. by exists [], (0 :: post).
  - destruct Hv as [-> Hs]. rewrite (at_rd _ _ _ _ Hs) by done. by eexists.
Qed.

(** ** Nodes that must not be compressed *)

(** The node when it may be compressed again. *)
Definition loose (d : nodeData) : nodeData := with_dont_compress false d.

Lemma loose_id d : dont_compress d = false -> loose d = d.
Proof. destruct d. cbn. by intros ->. Qed.

Lemma loose_holds d ss : node_holds d ss -> loose d = d.
Proof. intros (v & Hv & Hh). apply loose_id. rewrite (vw_dont _ _ Hv). apply (hd_dont _ _ Hh). Qed.

Section Del.
Context `{Allocator} `{LzfMemory} (F C packed_threshold : Z) (HC : 0 <= C) (HF : -5 <= F <= FILL_MAX).

Abbreviation conc := (conc F C).
Abbreviation tidy := (tidy C).
Abbreviation good := (good C).

#[local] Set Default Proof Using "Type*".

(** ** Using a node *)

Lemma busy_any u L : busy None L -> busy u L.
Proof. intros Hb x Hx Hf. by pose proof (Hb x Hx Hf). Qed.

Lemma good_any u L SS : good None L SS -> good u L SS.
Proof. intros [H1 H2 H3]. split; [done|done|by apply busy_any]. Qed.

(** When the node in use is done with, nothing is left to be compressed. *)
Lemma recoded_done G L L' SS i a d :
  recoded G L L' -> Forall2 holds G SS -> tidy L' -> busy (Some a) L -> NoDup L.*1 -> L !! i = Some (a, d) -> cleared L' i -> good None L' SS.
Proof.
  intros Hr HS Ht Hb Hnd Hi Hc. split; [by eapply recoded_contents|done|]. intros x (j & Hx)%list_elem_of_lookup Hf. exfalso.
  assert (Ha : L.*1 !! j = Some x.1) by by rewrite <- (rc_addr _ _ _ Hr), list_lookup_fmap, Hx.
  rewrite list_lookup_fmap in Ha. destruct (L !! j) as [[b e]|] eqn:Hj; [|done]. injection Ha as ->.
  pose proof (rc_flags _ _ _ Hr j _ _ Hj Hx Hf) as Hf'. pose proof (Hb _ (list_elem_of_lookup_2 _ _ _ Hj) Hf') as [= Ha].
  assert (j = i) as -> by (eapply (NoDup_lookup L.*1); [done|rewrite list_lookup_fmap, Hj; cbn; by rewrite Ha|by rewrite list_lookup_fmap, Hi]).
  by rewrite (Hc x Hx) in Hf.
Qed.

Lemma holds_dont d ss : node_holds d ss -> dont_compress d = false.
Proof. intros (v & Hv & Hh). rewrite (vw_dont _ _ Hv). apply (hd_dont _ _ Hh). Qed.

Lemma contents_dont L SS i a d : contents L SS -> L !! i = Some (a, d) -> dont_compress d = false.
Proof. intros Hc Hi. eapply Forall2_lookup_l in Hc as (ss & _ & Hh); [|done]. by eapply holds_dont. Qed.

Lemma compress_good L SS D n bs i a d :
  ok L D -> good (Some a) L SS -> L !! i = Some (a, d) ->
  exists L', quicklistCompress a (conc L D n bs) = Some (tt, conc L' D n bs) /\ ok L' D /\ good None L' SS /\ L'.*1 = L.*1.
Proof.
  intros Hok [Hcs Ht Hb] Hi. pose proof (contents_dont _ _ _ _ _ Hcs Hi) as Hdn. apply contents_views in Hcs as (G & HG & HS).
  destruct (quicklistCompress_spec F C HC L D n bs G i a d Hok HG Ht Hi) as (L' & Hrun & Hok' & Hr & Ht' & Hc). exists L'. split; [done|]. split; [done|].
  split; [|apply (rc_addr _ _ _ Hr)]. eapply recoded_done; try done; [apply (ok_nodup _ _ Hok)|by apply Hc].
Qed.

Lemma recompress_good L SS D n bs i a d :
  ok L D -> good (Some a) L SS -> L !! i = Some (a, d) ->
  exists L', quicklistRecompressOnly a (conc L D n bs) = Some (tt, conc L' D n bs) /\ ok L' D /\ good None L' SS /\ L'.*1 = L.*1.
Proof.
  intros Hok [Hcs Ht Hb] Hi. pose proof (contents_dont _ _ _ _ _ Hcs Hi) as Hdn. apply contents_views in Hcs as (G & HG & HS).
  destruct (recompressOnly_spec F C HC L D n bs G i a d Hok HG Ht Hi) as (L' & Hrun & Hok' & Hr & Ht' & Hc). exists L'. split; [done|]. split; [done|].
  split; [|apply (rc_addr _ _ _ Hr)]. eapply recoded_done; try done; [apply (ok_nodup _ _ Hok)|by apply Hc].
Qed.

Lemma forUse_good L SS D n bs i a d :
  ok L D -> good (Some a) L SS -> L !! i = Some (a, d) ->
  exists d', quicklistDecompressNodeForUse a (conc L D n bs) = Some (tt, conc (<[i := (a, d')]> L) D n bs) /\
    ok (<[i := (a, d')]> L) D /\ good (Some a) (<[i := (a, d')]> L) SS /\ encoding d' = RAW /\ container d' = container d.
Proof.
  intros Hok [Hcs Ht Hb] Hi. apply contents_views in Hcs as (G & HG & HS).
  destruct (forUse_spec F C HC L D n bs G i a d Hok HG Ht Hi) as (d' & Hrun & Hok' & HG' & Ht' & He & _). exists d'. split; [done|]. split; [done|].
  pose proof (lookup_lt_Some _ _ _ Hi). split.
  - split; [by apply contents_views; exists G|done|]. intros x (j & Hj)%list_elem_of_lookup Hf. destruct (decide (i = j)) as [<-|Hne].
    + rewrite list_lookup_insert_eq in Hj by done. by simplify_eq.
    + rewrite list_lookup_insert_ne in Hj by done. by apply Hb; [eapply list_elem_of_lookup_2|].
  - split; [done|]. eapply Forall2_lookup_l in HG as (v & Hv & Hd); [|done]. eapply Forall2_lookup_l in HG' as (v' & Hv' & Hd'); [|by apply list_lookup_insert_eq].
    simplify_eq. pose proof (vw_container _ _ Hd). pose proof (vw_container _ _ Hd'). cbn in *. congruence.
Qed.

(** ** Removal of a node *)

Lemma drop_node L1 a d L2 SS1 SS2 n bs :
  ok (L1 ++ (a, d) :: L2) ∅ -> contents L1 SS1 -> contents L2 SS2 -> tidy (L1 ++ (a, d) :: L2) -> busy (Some a) (L1 ++ (a, d) :: L2) ->
  exists L' bs', __quicklistDelNode a (conc (L1 ++ (a, d) :: L2) ∅ n bs) = Some (tt, conc L' ∅ (u64 (n - count d)) bs') /\
    ok L' ∅ /\ good None L' (SS1 ++ SS2) /\ L'.*1 = (L1 ++ L2).*1.
Proof.
  intros Hok (G1 & HG1 & HS1)%contents_views (G2 & HG2 & HS2)%contents_views Ht Hb.
  destruct (delete_node_spec F C HC L1 a d L2 ∅ n bs G1 G2) as (L' & Hrun & Hok' & Hr & Ht' & Hb'); try done.
  eexists L', _. split; [exact Hrun|]. split; [done|]. split; [|apply (rc_addr _ _ _ Hr)].
  split; [|done|done]. eapply recoded_contents; [done|]. by apply Forall2_app.
Qed.

(** ** Removal of an element *)

(** The list without the element at index [k]. *)
Definition without {A} (k : nat) (ss : list A) : list A := take k ss ++ drop (S k) ss.

Lemma fmap_without {A B} (f : A -> B) k ss : f <$> without k ss = without k (f <$> ss).
Proof. unfold without. by rewrite fmap_app, fmap_take, fmap_drop. Qed.

Lemma length_without {A} k (ss : list A) : (k < length ss)%nat -> Zlen (without k ss) = Zlen ss - 1.
Proof. intros Hk. unfold without. rewrite length_app, length_take, length_drop. lia. Qed.

Lemma delete_at lp es k : repr lp es -> (k < length es)%nat ->
  exists lp' q, lpDelete lp (pos (take k es)) = Some (Some (lp', q)) /\ repr lp' (without k es).
Proof.
  intros Hlp Hk. destruct (lpDelete_at lp es (Z.of_nat k) Hlp) as (lp' & Hd & Hr); [lia|]. rewrite Nat2Z.id in Hd, Hr.
  replace (Z.to_nat (Z.of_nat k + 1)) with (S k) in Hr by lia. by eexists _, _.
Qed.

(** The node after the deletion of one of several strings. *)
Lemma shrunk_holds d ss lp es k :
  node_holds (loose d) ss -> encoding d = RAW -> container d = PACKED -> ss = elem_string <$> es -> (k < length es)%nat -> repr lp (without k es) -> Zlen ss <> 1 ->
  node_holds (loose (with_sz (pos (without k es) + 1) (count_add (-1) (with_entry (Buf lp) d)))) (without k ss).
Proof.
  intros (v & Hv & Hh) He Hc -> Hk Hlp Hne. pose proof (hd_bound _ _ Hh) as Hb. rewrite length_fmap in Hb, Hne.
  pose proof (length_without k (elem_string <$> es)) as Hl. rewrite length_fmap in Hl. specialize (Hl Hk).
  eapply (relisted_holds (loose d) v lp (without k es)); try done; [apply (hd_dont _ _ Hh)|by rewrite fmap_without| |lia].
  change (count _) with (u16 (count (loose d) + -1)). rewrite (vw_count _ _ Hv), (hd_count _ _ Hh), length_fmap, uwrap_small by lia. lia.
Qed.

(** [quicklistDelIndex] deletes the node with its last element. *)
Lemma delIndex_spec u L1 a d L2 SS1 ss SS2 n bs k p :
  ok (L1 ++ (a, d) :: L2) ∅ -> contents L1 SS1 -> node_holds (loose d) ss -> contents L2 SS2 -> tidy (L1 ++ (a, d) :: L2) -> busy u (L1 ++ (a, d) :: L2) ->
  u = None \/ u = Some a -> cursor d ss k p -> 0 < n < 2 ^ 64 ->
  exists g q L' bs', quicklistDelIndex a p (conc (L1 ++ (a, d) :: L2) ∅ n bs) = Some ((g, q), conc L' ∅ (n - 1) bs') /\ ok L' ∅ /\
    if g : bool then Zlen ss = 1 /\ good None L' (SS1 ++ SS2) /\ L'.*1 = (L1 ++ L2).*1
    else exists d', L' = L1 ++ (a, d') :: L2 /\ encoding d' = RAW /\ recompress d' = recompress d /\ container d' = PACKED /\
                    node_holds (loose d') (without k ss) /\ dont_compress d' = dont_compress d /\ tidy L' /\ busy u L'.
Proof.
  intros Hok H1 Hd H2 Ht Hb Hu (He & Hk & Hcur) Hn. pose proof Hd as (v & Hv & Hh). unfold quicklistDelIndex. mstep (get_linked F C _ _ _ _ _ n bs Hok). cbn [data].
  assert (Hcnt : count d = v_count v) by apply (vw_count _ _ Hv). assert (Hcn : container d = v_container v) by apply (vw_container _ _ Hv).
  assert (Hb' : busy (Some a) (L1 ++ (a, d) :: L2)) by (destruct Hu as [->| ->]; [by apply busy_any|done]).
  unfold QL_NODE_IS_PLAIN. case_bool_decide as Hp.
  { destruct (drop_node L1 a d L2 SS1 SS2 n bs) as (L' & bs' & Hrun & Hok' & Hg & Ha); try done. mstep Hrun. pose proof (hd_strings _ _ Hh) as Hs.
    rewrite <- Hcn, Hp in Hs. subst ss. rewrite Hcnt, (hd_count _ _ Hh), uwrap_small by (cbn [length]; lia). by eexists true, _, L', bs'. }
  assert (Hc : container d = PACKED) by by destruct (container d). rewrite Hc in Hcur. destruct Hcur as (lp & es & Hbuf & Hlp & -> & ->). rewrite length_fmap in Hk.
  mstep (buffer_linked F C _ _ _ _ _ n bs lp Hok Hbuf). dstep. destruct (delete_at lp es k Hlp Hk) as (lp' & q & Hdel & Hlp'). rewrite Hdel. do 2 dstep.
  mstep (update_linked F C L1 a d L2 ∅ n bs (with_entry (Buf lp')) Hok). pose proof (ok_mid _ a _ (with_entry (Buf lp') d) _ _ Hok) as Hok1.
  mstep (update_linked F C L1 a _ L2 ∅ n bs (count_add (-1)) Hok1). pose proof (ok_mid _ a _ (count_add (-1) (with_entry (Buf lp') d)) _ _ Hok1) as Hok2.
  mstep (get_linked F C _ _ _ _ _ n bs Hok2). cbn [data]. cbn [count_add with_count with_entry count]. pose proof (hd_bound _ _ Hh) as Hbd.
  rewrite Hcnt, (hd_count _ _ Hh), (uwrap_small 16) by lia. destruct (Z.eqb_spec (Zlen (elem_string <$> es) + -1) 0) as [Hz|Hz].
  - destruct (drop_node L1 a (count_add (-1) (with_entry (Buf lp') d)) L2 SS1 SS2 n bs) as (L' & bs' & Hrun & Hok' & Hg & Ha); try done; [by apply (tidy_mid C HC L1 a d)|by apply (busy_mid _ L1 a d)|].
    mstep Hrun. mstep (add_count_conc F C L' ∅ (u64 (n - u16 (count d + -1))) bs' (-1)).
    eexists true, _, L', bs'. rewrite Hcnt, (hd_count _ _ Hh), (uwrap_small 16), Hz, Z.sub_0_r, (uwrap_small 64 n), uwrap_small by lia.
    split; [done|]. split; [done|]. split; [lia|done].
  - mstep (updateSz_linked F C HC L1 a _ L2 ∅ n bs lp' _ Hok2 eq_refl Hlp'). mstep (add_count_conc F C (L1 ++ (a, with_sz (pos (without k es) + 1) (count_add (-1) (with_entry (Buf lp') d))) :: L2) ∅ n bs (-1)).
    eexists false, _, _, bs. rewrite uwrap_small by lia. split; [done|]. split; [by apply (ok_mid _ a d)|].
    assert (Hd' : node_holds (loose (with_sz (pos (without k es) + 1) (count_add (-1) (with_entry (Buf lp') d)))) (without k (elem_string <$> es))) by (apply shrunk_holds; [done..|lia]).
    eexists. do 6 (split; [done|]). split; [by apply (tidy_mid C HC L1 a d)|by apply (busy_mid _ L1 a d)].
Qed.

(** ** The elements of a node *)

Definition node_index (ss : list sds) (i : Z) : Z := if i <? 0 then Zlen ss + i else i.

Lemma seek_node d ss : node_holds d ss -> container d = PACKED -> encoding d = RAW ->
  exists lp, entry d = Buf lp /\ forall i,
    match ss !! Z.to_nat (node_index ss i), 0 <=? node_index ss i with
    | Some s, true => exists p v, lpSeek lp i = Some (Some p) /\ cursor d ss (Z.to_nat (node_index ss i)) (Some p) /\ lp_value lp p = Some v /\ reads v s
    | _, _ => lpSeek lp i = Some None
    end.
Proof.
  intros Hd Hc He. destruct (packed_elems d ss Hd Hc He) as (v & es & lp & _ & _ & Hbuf & Hlp & ->). exists lp. split; [done|]. intros i.
  rewrite (lpSeek_spec _ _ Hlp). unfold node_index, abs_index. rewrite length_fmap. set (k := if i <? 0 then _ else _). unfold nth_ptr.
  destruct (Z.leb_spec 0 k); cbn [andb]; [|by destruct (_ !! _)]. destruct ((elem_string <$> es) !! Z.to_nat k) as [s|] eqn:Hk.
  - pose proof (lookup_lt_Some _ _ _ Hk) as Hl. rewrite length_fmap in Hl. rewrite (proj2 (Z.ltb_lt _ _)) by lia.
    destruct (lp_value_spec lp es _ s Hlp Hk) as (w & Hw & Hs). exists (pos (take (Z.to_nat k) es)), w. split; [done|]. split; [|done].
    split; [done|]. split; [by rewrite length_fmap|]. rewrite Hc. by exists lp, es.
  - apply lookup_ge_None in Hk. rewrite length_fmap in Hk. by rewrite (proj2 (Z.ltb_ge _ _)) by lia.
Qed.

(** The string of a plain node. *)
Lemma plain_node d ss : node_holds d ss -> container d = PLAIN -> encoding d = RAW ->
  exists b s, entry d = Buf b /\ ss = [s] /\ rd b 0 (sz d) = Some s.
Proof.
  intros (v & Hv & Hh) Hc He. pose proof (hd_strings _ _ Hh) as Hs. rewrite <- (vw_container _ _ Hv), Hc in Hs.
  destruct (viewed_raw _ _ Hv He) as [slack Hb]. eexists _, _. split; [done|]. split; [done|]. rewrite (vw_sz _ _ Hv).
  apply (at_rd _ 0 (v_raw v)); [|done]. by exists [], slack.
Qed.

(** ** Removal at the ends *)

(** The rest of a node, which is deleted with its last element. *)
Definition rest (k : nat) (ss : list sds) : list (list sds) := if Zlen ss =? 1 then [] else [without k ss].

Lemma concat_rest k ss : (k < length ss)%nat -> concat (rest k ss) = without k ss.
Proof.
  intros Hk. unfold rest. destruct (Z.eqb_spec (Zlen ss) 1); cbn [concat]; [|by rewrite app_nil_r].
  destruct ss as [|s [|? ?]]; cbn [length] in *; [lia| |lia]. by replace k with 0%nat by lia.
Qed.

Definition popped (w : where_end) (ss : list sds) : nat := match w with QUICKLIST_HEAD => 0 | QUICKLIST_TAIL => length ss - 1 end.

Lemma delIndex_rest L1 a d L2 SS1 ss SS2 n bs k p :
  ok (L1 ++ (a, d) :: L2) ∅ -> good None (L1 ++ (a, d) :: L2) (SS1 ++ ss :: SS2) -> contents L1 SS1 -> node_holds d ss -> contents L2 SS2 ->
  cursor d ss k p -> 0 < n < 2 ^ 64 ->
  exists r L' bs', quicklistDelIndex a p (conc (L1 ++ (a, d) :: L2) ∅ n bs) = Some (r, conc L' ∅ (n - 1) bs') /\ ok L' ∅ /\
    good None L' (SS1 ++ rest k ss ++ SS2).
Proof.
  intros Hok [_ Ht Hb] H1 Hd H2 Hcur Hn.
  destruct (delIndex_spec None L1 a d L2 SS1 ss SS2 n bs k p) as (g & q & L' & bs' & Hrun & Hok' & Hg); try done; [by rewrite (loose_holds d ss Hd)|by left|].
  eexists _, L', bs'. split; [done|]. split; [done|]. unfold rest. destruct g.
  - destruct Hg as (-> & Hg & _). done.
  - destruct Hg as (d' & -> & _ & _ & _ & Hd' & Hdn & Ht' & Hb'). rewrite (holds_dont d ss Hd) in Hdn. rewrite (loose_id d' Hdn) in Hd'. pose proof Hd' as (v & _ & Hh). pose proof (hd_bound _ _ Hh) as Hbd. destruct Hcur as (_ & Hk & _). rewrite length_without in Hbd by done.
    rewrite (proj2 (Z.eqb_neq _ _)) by lia. split; [by apply contents_join|done|done].
Qed.

Lemma pop_node w L1 a d L2 SS1 ss SS2 n bs :
  (match w with QUICKLIST_HEAD => L1 = [] | QUICKLIST_TAIL => L2 = [] end) ->
  ok (L1 ++ (a, d) :: L2) ∅ -> good None (L1 ++ (a, d) :: L2) (SS1 ++ ss :: SS2) -> contents L1 SS1 -> node_holds d ss -> contents L2 SS2 -> 0 < n < 2 ^ 64 ->
  exists s v L' bs', quicklistPop w (conc (L1 ++ (a, d) :: L2) ∅ n bs) = Some (Some v, conc L' ∅ (n - 1) bs') /\ ok L' ∅ /\
    good None L' (SS1 ++ rest (popped w ss) ss ++ SS2) /\ ss !! popped w ss = Some s /\ reads v s.
Proof.
  intros Hw Hok Hg H1 Hd H2 Hn. pose proof Hd as (vd & _ & Hh). pose proof (hd_bound _ _ Hh) as Hb.
  destruct (end_raw C HC _ (length L1) (a, d) (gd_tidy _ _ _ _ Hg)) as [He Hf].
  { by rewrite list_lookup_middle. } { destruct w; subst; [by left|right; rewrite length_app; cbn; lia]. } cbn in He, Hf.
  unfold quicklistPop. dstep. cbn [conc ql qlof ql_count]. rewrite (proj2 (Z.eqb_neq _ _)) by lia. unfold quicklistPopCustom. dstep.
  cbn [conc ql qlof ql_count id head tail]. rewrite (proj2 (Z.eqb_neq _ _)) by lia.
  replace (match w with QUICKLIST_HEAD => _ | QUICKLIST_TAIL => _ end) with (Some a) by (destruct w; subst; [done|by rewrite last_of_snoc]). cbv iota.
  mstep (get_linked F C _ _ _ _ _ n bs Hok). cbn [data]. rewrite He. erewrite bind_step by done. unfold QL_NODE_IS_PLAIN. case_bool_decide as Hp.
  - destruct (plain_node d ss Hd Hp He) as (b & s & Hbuf & -> & Hrd). mstep (buffer_linked F C _ _ _ _ _ n bs b Hok Hbuf). rewrite Hrd. dstep.
    destruct (delIndex_rest L1 a d L2 SS1 [s] SS2 n bs 0 None) as (r & L' & bs' & Hrun & Hok' & Hg'); try done.
    { split; [done|]. split; [cbn; lia|]. by rewrite Hp. }
    mstep Hrun. exists s, (inl s), L', bs'. split; [done|]. split; [done|]. by destruct w.
  - assert (Hc : container d = PACKED) by by destruct (container d). destruct (seek_node d ss Hd Hc He) as (lp & Hbuf & Hseek).
    mstep (buffer_linked F C _ _ _ _ _ n bs lp Hok Hbuf). specialize (Hseek (match w with QUICKLIST_HEAD => 0 | QUICKLIST_TAIL => -1 end)).
    replace (Z.to_nat (node_index ss _)) with (popped w ss) in Hseek by (destruct w; cbn; lia).
    rewrite (proj2 (Z.leb_le 0 _)) in Hseek by (destruct w; cbn; lia). destruct (ss !! popped w ss) as [s|] eqn:Hs.
    2:{ apply lookup_ge_None in Hs. destruct w; cbn in Hs; lia. }
    destruct Hseek as (p & v & -> & Hcur & Hv & Hvs). do 2 dstep. rewrite Hv. dstep.
    destruct (delIndex_rest L1 a d L2 SS1 ss SS2 n bs (popped w ss) (Some p)) as (r & L' & bs' & Hrun & Hok' & Hg'); try done. mstep Hrun. by exists s, v, L', bs'.
Qed.

Definition pop_list (w : where_end) (xs : list sds) : option (sds * list sds) :=
  match w with
  | QUICKLIST_HEAD => match xs with [] => None | x :: xs => Some (x, xs) end
  | QUICKLIST_TAIL => match rev xs with [] => None | x :: r => Some (x, rev r) end
  end.

Lemma pop_popped w ss s : ss !! popped w ss = Some s -> pop_list w ss = Some (s, without (popped w ss) ss).
Proof.
  destruct w; cbn [popped pop_list]; [by destruct ss; [|intros [= ->]]|]. rewrite <- (rev_involutive ss). destruct (rev ss) as [|x r]; [done|]. cbn [rev].
  rewrite length_app. cbn [length]. replace (_ + 1 - 1)%nat with (length (rev r)) by lia. rewrite list_lookup_middle by done. intros [= ->].
  unfold without. rewrite rev_app_distr. cbn [rev app]. rewrite rev_involutive, take_app_length, drop_ge, app_nil_r by (rewrite length_app; cbn; lia). done.
Qed.

Lemma pop_app w xs ys s zs :
  match w with QUICKLIST_HEAD => pop_list w xs = Some (s, zs) | QUICKLIST_TAIL => pop_list w ys = Some (s, zs) end ->
  pop_list w (xs ++ ys) = Some (s, match w with QUICKLIST_HEAD => zs ++ ys | QUICKLIST_TAIL => xs ++ zs end).
Proof.
  destruct w; cbn [pop_list]; [by destruct xs; [|intros [= -> ->]]|]. rewrite rev_app_distr. destruct (rev ys) as [|y r]; [done|]. intros [= -> <-].
  cbn [app]. by rewrite rev_app_distr, rev_involutive.
Qed.

(** The node at an end of the list. *)
Lemma end_case w L SS : contents L SS ->
  (L = [] /\ SS = []) \/
  exists L1 a d L2 SS1 ss SS2, L = L1 ++ (a, d) :: L2 /\ SS = SS1 ++ ss :: SS2 /\ contents L1 SS1 /\ node_holds d ss /\ contents L2 SS2 /\
    match w with QUICKLIST_HEAD => L1 = [] /\ SS1 = [] | QUICKLIST_TAIL => L2 = [] /\ SS2 = [] end.
Proof.
  intros Hc. destruct w.
  - destruct Hc as [|[a d] ss L SS Hd Hc]; [by left|]. right. exists [], a, d, L, [], ss, SS. split; [done|]. split; [done|]. split; [by constructor|done].
  - destruct L as [|[a d] L1 _] using rev_ind; [inversion Hc; by left|]. destruct (contents_mid _ _ _ _ _ Hc) as (SS1 & ss & SS2 & -> & H1 & Hd & H2).
    inversion H2; subst. right. exists L1, a, d, [], SS1, ss, []. by split.
Qed.

Lemma pop_spec w L SS bs :
  ok L ∅ -> good None L SS -> bytes (concat SS) < MAX_BYTES ->
  match pop_list w (concat SS) with
  | None => quicklistPop w (conc L ∅ (Zlen (concat SS)) bs) = Some (None, conc L ∅ (Zlen (concat SS)) bs)
  | Some (s, xs) => exists v L' bs' SS', quicklistPop w (conc L ∅ (Zlen (concat SS)) bs) = Some (Some v, conc L' ∅ (Zlen xs) bs') /\
      ok L' ∅ /\ good None L' SS' /\ concat SS' = xs /\ reads v s
  end.
Proof.
  intros Hok Hg Hsz. pose proof (bytes_length (concat SS)) as Hbl.
  destruct (end_case w L SS (gd_contents _ _ _ _ Hg)) as [[-> ->]|(L1 & a & d & L2 & SS1 & ss & SS2 & -> & -> & H1 & Hd & H2 & Hw)]; [by destruct w|].
  assert (Hn : 0 < Zlen (concat (SS1 ++ ss :: SS2)) < 2 ^ 64).
  { destruct Hd as (v & _ & Hh). pose proof (hd_bound _ _ Hh). split; [|lia]. rewrite concat_app. cbn [concat]. rewrite !length_app. lia. }
  destruct (pop_node w L1 a d L2 SS1 ss SS2 (Zlen (concat (SS1 ++ ss :: SS2))) bs) as (s & v & L' & bs' & Hrun & Hok' & Hg' & Hs & Hv); try done; [by destruct w, Hw|].
  assert (Hk : (popped w ss < length ss)%nat) by by eapply lookup_lt_Some.
  assert (Hp : pop_list w (concat (SS1 ++ ss :: SS2)) = Some (s, concat (SS1 ++ rest (popped w ss) ss ++ SS2))).
  { rewrite !concat_app, concat_rest by done. cbn [concat]. apply pop_popped in Hs. destruct w; destruct Hw as [-> ->]; cbn [concat app].
    - exact (pop_app QUICKLIST_HEAD ss _ s _ Hs).
    - rewrite !app_nil_r. exact (pop_app QUICKLIST_TAIL (concat SS1) ss s _ Hs). }
  rewrite Hp. exists v, L', bs'. eexists. split; [|split; [done|split; [done|by split]]]. rewrite Hrun. do 3 f_equal.
  rewrite !concat_app, concat_rest by done. cbn [concat]. rewrite !length_app. pose proof (length_without _ _ Hk). lia.
Qed.

End Del.
End QlDel.
