(* ===== verification/QuicklistSeek.v ===== *)
(** * Finding an element of a quicklist by its index

    [quicklistGetIteratorAtIdx] finds the node of an element from the shorter
    side of the list, and the offset of the element in the node. *)

From stdpp Require Import gmap.
From S2P Require Import Prelude.
From S2P Require Import NumConv.
From S2P Require Import ListpackEnc.
From S2P Require Import Listpack.
From S2P Require Import ListpackOps.
From S2P Require Import ListpackEdit.
From S2P Require Import Quicklist.
From S2P Require Import QuicklistSpec.
From S2P Require Import QuicklistComp.
From S2P Require Import QuicklistNode.
From S2P Require Import QuicklistPush.
From S2P Require Import QuicklistDel.
Import NumConv LpEnc Lp LpOps LpEdit Quicklist QlSpec QlComp QlNode QlPush QlDel.

Module QlSeek.

Section Seek.
Context `{Allocator} `{LzfMemory} (F C packed_threshold : Z) (HC : 0 <= C) (HF : -5 <= F <= FILL_MAX).

Abbreviation conc := (conc F C).
Abbreviation tidy := (tidy C).
Abbreviation good := (good C).

#[local] Set Default Proof Using "Type*".

Lemma seg_size p L n : NoDup L.*1 -> size (seg p L n) = length L.
Proof.
  revert p. induction L as [|[a d] L IH]; intros p Hnd; [done|]. cbn in Hnd |- *. apply NoDup_cons in Hnd as [Ha Hnd].
  rewrite map_size_insert_None by by apply seg_none. by rewrite IH.
Qed.

Lemma fuel_spec L n bs : ok L ∅ -> nodes_fuel (conc L ∅ n bs) = Some (S (length L), conc L ∅ n bs).
Proof. intros Hok. unfold nodes_fuel. cbn [conc nodes]. rewrite map_union_empty, seg_size; [done|apply (ok_nodup _ _ Hok)]. Qed.

Lemma node_count d ss : node_holds d ss -> count d = Zlen ss /\ 0 < Zlen ss < 2 ^ 16.
Proof. intros (v & Hv & Hh). split; [by rewrite (vw_count _ _ Hv), (hd_count _ _ Hh)|apply (hd_bound _ _ Hh)]. Qed.

(** ** The loop over the nodes *)

Lemma seek_forward_spec n bs k fuel : forall L1 L2 SS1 SS2,
  ok (L1 ++ L2) ∅ -> contents L2 SS2 -> (length L2 < fuel)%nat ->
  Zlen (concat SS1) <= k < Zlen (concat (SS1 ++ SS2)) -> Zlen (concat (SS1 ++ SS2)) < 2 ^ 63 ->
  exists L2a a d L2b SS2a ss SS2b, L2 = L2a ++ (a, d) :: L2b /\ SS2 = SS2a ++ ss :: SS2b /\ contents L2a SS2a /\ node_holds d ss /\ contents L2b SS2b /\
    seek_loop fuel true k (Zlen (concat SS1)) (first_of L2 None) (conc (L1 ++ L2) ∅ n bs) = Some (Some (a, Zlen (concat (SS1 ++ SS2a))), conc (L1 ++ L2) ∅ n bs) /\
    0 <= k - Zlen (concat (SS1 ++ SS2a)) < Zlen ss.
Proof.
  induction fuel as [|fuel IH]; intros L1 L2 SS1 SS2 Hok Hc Hf Hk Hb; [lia|].
  destruct Hc as [|[a d] ss L2 SS2 Hd Hc]; [rewrite app_nil_r in Hk; lia|]. cbn [seek_loop first_of]. mstep (get_linked F C _ _ _ _ _ n bs Hok). cbn [data next].
  destruct (node_count d ss Hd) as [-> Hl]. rewrite concat_app in Hk, Hb. cbn [concat] in Hk, Hb. rewrite !length_app in Hk, Hb.
  rewrite uwrap_small by lia. destruct (Z.ltb_spec k (Zlen (concat SS1) + Zlen ss)).
  - exists [], a, d, L2, [], ss, SS2. rewrite app_nil_r. split; [done|]. split; [done|]. split; [by constructor|]. split; [done|]. split; [done|]. split; [done|lia].
  - assert (Heq : Zlen (concat SS1) + Zlen ss = Zlen (concat (SS1 ++ [ss]))) by (rewrite concat_app; cbn [concat]; rewrite !length_app; cbn [length]; lia).
    destruct (IH (L1 ++ [(a, d)]) L2 (SS1 ++ [ss]) SS2) as (L2a & a' & d' & L2b & SS2a & ss' & SS2b & -> & -> & Ha & Hd' & Hbb & Hrun & Hr).
    + by rewrite <- app_assoc.
    + done.
    + cbn in Hf. lia.
    + rewrite (concat_app (SS1 ++ [ss])), Zlen_app, <- Heq. lia.
    + rewrite (concat_app (SS1 ++ [ss])), Zlen_app, <- Heq. lia.
    + exists ((a, d) :: L2a), a', d', L2b, (ss :: SS2a), ss', SS2b. rewrite <- !app_assoc in *. cbn [app] in *. rewrite Heq.
      split; [done|]. split; [done|]. split; [by constructor|]. split; [done|]. split; [done|]. split; [exact Hrun|]. lia.
Qed.

Lemma seek_backward_spec n bs k fuel : forall L1 L2 SS1 SS2,
  ok (L1 ++ L2) ∅ -> contents L1 SS1 -> (length L1 < fuel)%nat ->
  Zlen (concat SS2) <= k < Zlen (concat (SS1 ++ SS2)) -> Zlen (concat (SS1 ++ SS2)) < 2 ^ 63 ->
  exists L1a a d L1b SS1a ss SS1b, L1 = L1a ++ (a, d) :: L1b /\ SS1 = SS1a ++ ss :: SS1b /\ contents L1a SS1a /\ node_holds d ss /\ contents L1b SS1b /\
    seek_loop fuel false k (Zlen (concat SS2)) (last_of None L1) (conc (L1 ++ L2) ∅ n bs) = Some (Some (a, Zlen (concat (SS1b ++ SS2))), conc (L1 ++ L2) ∅ n bs) /\
    0 <= k - Zlen (concat (SS1b ++ SS2)) < Zlen ss.
Proof.
  induction fuel as [|fuel IH]; intros L1 L2 SS1 SS2 Hok Hc Hf Hk Hb; [lia|].
  destruct L1 as [|[a d] L1 _] using rev_ind; [inversion Hc; subst; cbn in Hk; lia|].
  destruct (contents_mid _ _ _ _ _ Hc) as (SS1' & ss & SS1b & -> & H1 & Hd & Hnil). inversion Hnil; subst. rewrite <- !app_assoc in *. cbn [app] in *.
  cbn [seek_loop]. rewrite last_of_snoc. mstep (get_linked F C _ _ _ _ _ n bs Hok). cbn [data prev].
  destruct (node_count d ss Hd) as [-> Hl]. rewrite concat_app in Hk, Hb. cbn [concat] in Hk, Hb. rewrite !length_app in Hk, Hb.
  rewrite uwrap_small by lia. destruct (Z.ltb_spec k (Zlen (concat SS2) + Zlen ss)).
  - exists L1, a, d, [], SS1', ss, []. split; [done|]. split; [done|]. split; [done|]. split; [done|]. split; [by constructor|]. split; [done|]. cbn [app]. lia.
  - assert (Heq : Zlen (concat SS2) + Zlen ss = Zlen (concat (ss :: SS2))) by (cbn [concat]; rewrite !length_app; lia).
    destruct (IH L1 ((a, d) :: L2) SS1' (ss :: SS2)) as (L1a & a' & d' & L1b & SS1a & ss' & SS1b & -> & -> & Ha & Hd' & Hbb & Hrun & Hr).
    + done.
    + done.
    + rewrite length_app in Hf. cbn in Hf. lia.
    + rewrite concat_app, Zlen_app, <- Heq. lia.
    + rewrite concat_app, Zlen_app, <- Heq. lia.
    + exists L1a, a', d', (L1b ++ [(a, d)]), SS1a, ss', (SS1b ++ [ss]). rewrite <- !app_assoc in *. cbn [app] in *. rewrite Heq.
      split; [done|]. split; [done|]. split; [done|]. split; [done|]. split; [apply contents_app; [done|]; by repeat constructor|]. split; [exact Hrun|]. lia.
Qed.

(** Both directions: the number of elements on the side where the loop starts. *)
Lemma seek_spec (fwd : bool) k L SS n bs :
  ok L ∅ -> contents L SS -> 0 <= k < Zlen (concat SS) -> Zlen (concat SS) < 2 ^ 63 ->
  exists L1 a d L2 SS1 ss SS2, L = L1 ++ (a, d) :: L2 /\ SS = SS1 ++ ss :: SS2 /\ contents L1 SS1 /\ node_holds d ss /\ contents L2 SS2 /\
    let acc := Zlen (concat (if fwd then SS1 else SS2)) in
    seek_loop (S (length L)) fwd k 0 (if fwd then first_of L None else last_of None L) (conc L ∅ n bs) = Some (Some (a, acc), conc L ∅ n bs) /\
    0 <= k - acc < Zlen ss.
Proof.
  intros Hok Hc Hk Hb. destruct fwd.
  - destruct (seek_forward_spec n bs k (S (length L)) [] L [] SS) as (L1 & a & d & L2 & SS1 & ss & SS2 & -> & -> & Hr); [done|done|lia|cbn; lia|done|].
    by exists L1, a, d, L2, SS1, ss, SS2.
  - pose proof (seek_backward_spec n bs k (S (length L)) L [] SS []) as Hs. rewrite !app_nil_r in Hs.
    destruct Hs as (L1 & a & d & L2 & SS1 & ss & SS2 & -> & -> & Hr); [done|done|lia|cbn; lia|done|].
    rewrite app_nil_r in Hr. by exists L1, a, d, L2, SS1, ss, SS2.
Qed.

Definition list_index (n idx : Z) : Z := if idx <? 0 then n + idx else idx.

(** The node and the offset have the sign of the index. *)
Lemma iterator_spec dir idx L SS bs :
  ok L ∅ -> contents L SS -> Zlen (concat SS) < 2 ^ 62 -> LLONG_MIN < idx <= LLONG_MAX ->
  let n := Zlen (concat SS) in let i := list_index n idx in
  (~ (0 <= i < n) /\ quicklistGetIteratorAtIdx dir idx (conc L ∅ n bs) = Some (None, conc L ∅ n bs)) \/
  (0 <= i < n /\ exists L1 a d L2 SS1 ss SS2 o, L = L1 ++ (a, d) :: L2 /\ SS = SS1 ++ ss :: SS2 /\ contents L1 SS1 /\ node_holds d ss /\ contents L2 SS2 /\
    quicklistGetIteratorAtIdx dir idx (conc L ∅ n bs) = Some (Some {| current := Some a; zi := None; offset := o; direction := dir |}, conc L ∅ n bs) /\
    - Zlen ss <= o < Zlen ss /\ (o <? 0) = (idx <? 0) /\ Zlen (concat SS1) + node_index ss o = i).
Proof.
  intros Hok Hc Hn Hidx n i. unfold quicklistGetIteratorAtIdx. dstep. cbn [conc ql qlof ql_count id head tail]. fold n.
  set (index := if idx <? 0 then - idx - 1 else idx).
  assert (Hx : (if negb (idx <? 0) then Some idx else n ← negate idx; Some (n - 1)) = Some index).
  { unfold index, negate. destruct (Z.ltb_spec idx 0); [|done]. cbn [negb]. by rewrite (proj2 (Z.eqb_neq _ _)) by lia. }
  rewrite Hx. dstep. assert (Hi : i = if idx <? 0 then n - 1 - index else index) by (unfold i, index, list_index; destruct (idx <? 0); lia).
  assert (Hge : 0 <= index) by (unfold index; destruct (Z.ltb_spec idx 0); lia).
  destruct (Z.leb_spec n index) as [Hin|Hin]; [left; split; [destruct (idx <? 0); lia|done]|]. right. split; [destruct (idx <? 0); lia|].
  rewrite (uwrap_small 64 (n - 1)) by lia. set (other := _ <? index). rewrite (uwrap_small 64) by lia.
  set (fwd := if other then _ else _). set (k := if other then _ else _). assert (Hk : 0 <= k < n) by (unfold k; destruct other; lia).
  mstep (fuel_spec L n bs Hok). destruct (seek_spec fwd k L SS n bs) as (L1 & a & d & L2 & SS1 & ss & SS2 & HL & HS & H1 & Hd & H2 & Hrun & Hr); [done|done|done|lia|].
  mstep Hrun. cbv iota. subst L. mstep (get_linked F C _ _ _ _ _ n bs Hok). cbn [data]. destruct (node_count d ss Hd) as [-> Hl].
  assert (Hlen : n = Zlen (concat SS1) + Zlen ss + Zlen (concat SS2)) by (unfold n; rewrite HS, concat_app; cbn [concat]; rewrite !length_app; lia).
  set (acc := Zlen (concat (if negb (idx <? 0) then SS1 else SS2))).
  assert (Hacc : (if bool_decide (fwd = negb (idx <? 0)) then Zlen (concat (if fwd then SS1 else SS2)) else u64 (n - Zlen ss - Zlen (concat (if fwd then SS1 else SS2)))) = acc).
  { unfold acc. case_bool_decide as Hfe; [by rewrite Hfe|]. unfold fwd in *. destruct other, (idx <? 0); try done; cbn [negb]; rewrite uwrap_small; lia. }
  rewrite Hacc. eexists L1, a, d, L2, SS1, ss, SS2, _. split; [done|]. split; [done|]. split; [done|]. split; [done|]. split; [done|]. split; [done|].
  unfold acc, node_index. rewrite Hi. unfold k, fwd in Hr. destruct other, (Z.ltb_spec idx 0); cbn [negb] in *; rewrite swrap_small by lia;
    (split; [lia|]); (split; [lia|]); match goal with |- context [if ?x <? 0 then _ else _] => destruct (Z.ltb_spec x 0) end; lia.
Qed.

End Seek.
End QlSeek.
