(* ===== verification/QuicklistRange.v ===== *)
(** * Deleting a range of a quicklist

    [quicklistDelRange] deletes the elements from an index on, across the
    nodes that hold them. *)

From stdpp Require Import gmap.
From S2P Require Import Prelude.
From S2P Require Import NumConv.
From S2P Require Import ListpackEnc.
From S2P Require Import Listpack.
From S2P Require Import ListpackOps.
From S2P Require Import ListpackEdit.
From S2P Require Import Quicklist.
From S2P Require Import QuicklistSpec.
From S2P Require Import QuicklistComp.
From S2P Require Import QuicklistNode.
From S2P Require Import QuicklistPush.
From S2P Require Import QuicklistDel.
From S2P Require Import QuicklistSeek.
Import NumConv LpEnc Lp LpOps LpEdit Quicklist QlSpec QlComp QlNode QlPush QlDel QlSeek.

Module QlRange.

(** The list without [m] elements from [k] on, and the nodes that are left of
    the node with these strings. *)
Definition cut {A} (k m : Z) (ss : list A) : list A := take (Z.to_nat k) ss ++ drop (Z.to_nat (k + m)) ss.
Definition some_node {A} (ss : list A) : list (list A) := match ss with [] => [] | _ => [ss] end.

Lemma concat_some_node {A} (ss : list A) : concat (some_node ss) = ss.
Proof. destruct ss; [done|]. cbn. by rewrite app_nil_r. Qed.

Lemma length_cut {A} k m (ss : list A) : 0 <= k -> 0 <= m -> k + m <= Zlen ss -> Zlen (cut k m ss) = Zlen ss - m.
Proof. intros. unfold cut. rewrite length_app, length_take, length_drop. lia. Qed.

Lemma cut_fmap {A B} (f : A -> B) k m ss : f <$> cut k m ss = cut k m (f <$> ss).
Proof. unfold cut. by rewrite fmap_app, fmap_take, fmap_drop. Qed.

Lemma insert_mid {A} (L1 : list A) x y L2 : <[length L1 := y]> (L1 ++ x :: L2) = L1 ++ y :: L2.
Proof. rewrite insert_app_r_alt by lia. by rewrite Nat.sub_diag. Qed.

Section Range.
Context `{Allocator} `{LzfMemory} (F C packed_threshold : Z) (HC : 0 <= C) (HF : -5 <= F <= FILL_MAX).

Abbreviation conc := (conc F C).
Abbreviation tidy := (tidy C).
Abbreviation good := (good C).

#[local] Set Default Proof Using "Type*".

(** ** Using one node of the list *)

Lemma good_parts u L1 a d L2 SS1 ss SS2 :
  good u (L1 ++ (a, d) :: L2) (SS1 ++ ss :: SS2) -> length L1 = length SS1 -> contents L1 SS1 /\ node_holds d ss /\ contents L2 SS2.
Proof.
  intros [Hc _ _] Hl. apply Forall2_app_inv in Hc as [H1 H2]; [|done]. by apply Forall2_cons_1 in H2 as [Hd H2].
Qed.

Lemma use_mid L1 a d L2 SS1 ss SS2 D n bs :
  ok (L1 ++ (a, d) :: L2) D -> good (Some a) (L1 ++ (a, d) :: L2) (SS1 ++ ss :: SS2) -> length L1 = length SS1 ->
  exists d', quicklistDecompressNodeForUse a (conc (L1 ++ (a, d) :: L2) D n bs) = Some (tt, conc (L1 ++ (a, d') :: L2) D n bs) /\
    ok (L1 ++ (a, d') :: L2) D /\ good (Some a) (L1 ++ (a, d') :: L2) (SS1 ++ ss :: SS2) /\ node_holds d' ss /\ encoding d' = RAW /\ container d' = container d.
Proof.
  intros Hok Hg Hl. destruct (forUse_good F C HC HF (L1 ++ (a, d) :: L2) (SS1 ++ ss :: SS2) D n bs (length L1) a d) as (d' & Hrun & Hok' & Hg' & He & Hc); [done|done|by rewrite list_lookup_middle|].
  rewrite insert_mid in *. exists d'. split; [done|]. split; [done|]. split; [done|]. split; [|done]. by destruct (good_parts _ _ _ _ _ _ _ _ Hg' Hl) as (_ & ? & _).
Qed.

Lemma recompress_mid L1 a d L2 SS D n bs :
  ok (L1 ++ (a, d) :: L2) D -> good (Some a) (L1 ++ (a, d) :: L2) SS ->
  exists L', quicklistRecompressOnly a (conc (L1 ++ (a, d) :: L2) D n bs) = Some (tt, conc L' D n bs) /\ ok L' D /\ good None L' SS /\ L'.*1 = (L1 ++ (a, d) :: L2).*1.
Proof. intros Hok Hg. apply (recompress_good F C HC HF _ _ _ _ _ (length L1) _ d); [done|done|by rewrite list_lookup_middle]. Qed.

Lemma compress_mid L1 a d L2 SS D n bs :
  ok (L1 ++ (a, d) :: L2) D -> good (Some a) (L1 ++ (a, d) :: L2) SS ->
  exists L', quicklistCompress a (conc (L1 ++ (a, d) :: L2) D n bs) = Some (tt, conc L' D n bs) /\ ok L' D /\ good None L' SS /\ L'.*1 = (L1 ++ (a, d) :: L2).*1.
Proof. intros Hok Hg. apply (compress_good F C HC HF _ _ _ _ _ (length L1) _ d); [done|done|by rewrite list_lookup_middle]. Qed.

(** ** One node *)

Lemma del_count_spec c o e : 0 < c < 2 ^ 16 -> - c <= o < c -> 0 < e < 2 ^ 63 ->
  let k := if o <? 0 then c + o else o in let m := Z.min e (c - k) in
  del_count c o e = (m, (o =? 0) && (c <=? e)) /\ 0 <= k < c /\ 0 < m <= c - k /\ ((o =? 0) && (c <=? e) = true -> k = 0 /\ m = c).
Proof.
  intros Hc Ho He k m. unfold del_count. destruct (Z.ltb_spec o 0) as [Hneg|Hpos].
  - rewrite (proj2 (Z.eqb_neq o 0)), (proj2 (Z.leb_gt 0 o)), (uwrap_small 64 (- o)) by lia. cbn [andb]. subst k m.
    split; [|lia]. f_equal. destruct (Z.ltb_spec e (- o)); lia.
  - rewrite (proj2 (Z.leb_le 0 o)), (uwrap_small 64 (e + o)) by lia. cbn [andb]. subst k m.
    destruct (Z.eqb_spec o 0), (Z.leb_spec c e); cbn [andb]; try (split; [f_equal|]; lia);
      (split; [|lia]); destruct (Z.leb_spec c (e + o)); f_equal; rewrite ?uwrap_small; lia.
Qed.

(** The node after the deletion of some of its strings. *)
Lemma trimmed_holds d ss lp es ss' m :
  node_holds d ss -> encoding d = RAW -> container d = PACKED -> repr lp es -> ss' = elem_string <$> es -> Zlen ss' = Zlen ss - m -> 0 < Zlen ss' -> 0 <= m ->
  node_holds (count_add (- m) (with_sz (pos es + 1) (with_entry (Buf lp) d))) ss'.
Proof.
  intros (v & Hv & Hh) He Hc Hlp Hss Hl Hp Hm. pose proof (hd_bound _ _ Hh) as Hb.
  eapply (relisted_holds d v lp es); try done; [apply (hd_dont _ _ Hh)| |lia].
  cbn [with_sz with_entry count]. rewrite (vw_count _ _ Hv), (hd_count _ _ Hh), uwrap_small by lia. lia.
Qed.

(** The branch that deletes part of a listpack. *)
Lemma trim_branch L1 a d L2 SS1 ss SS2 n bs o k m :
  ok (L1 ++ (a, d) :: L2) ∅ -> good None (L1 ++ (a, d) :: L2) (SS1 ++ ss :: SS2) -> length L1 = length SS1 -> container d = PACKED ->
  k = node_index ss o -> o < 2 ^ 16 -> 0 <= k < Zlen ss -> 0 < m <= Zlen ss - k -> Zlen ss <= n < 2 ^ 64 ->
  exists L' bs', (quicklistDecompressNodeForUse a ;; lp ← buffer a; lp ← lift (lpDeleteRange lp o m); update a (with_entry (Buf lp)) ;; quicklistNodeUpdateSz a ;;
      update a (count_add (- m)) ;; modify (add_count (- m)) ;; nd ← get a; if count (data nd) =? 0 then __quicklistDelNode a else quicklistRecompressOnly a)
      (conc (L1 ++ (a, d) :: L2) ∅ n bs) = Some (tt, conc L' ∅ (n - m) bs') /\
    ok L' ∅ /\ good None L' (SS1 ++ some_node (cut k m ss) ++ SS2) /\ L'.*1 = L1.*1 ++ (if bool_decide (cut k m ss = []) then [] else [a]) ++ L2.*1.
Proof.
  intros Hok0 Hg0 Hl Hc0 -> Ho Hk Hm Hn. destruct (use_mid L1 a d L2 SS1 ss SS2 ∅ n bs Hok0 (good_any C HC _ _ _ Hg0) Hl) as (d' & Huse & Hok & Hg & Hd & He & Hc). rewrite Hc0 in Hc.
  mstep Huse. destruct (good_parts _ _ _ _ _ _ _ _ Hg Hl) as (H1 & _ & H2). destruct (node_count d' ss Hd) as [Hcnt Hbd].
  destruct (packed_elems d' ss Hd Hc He) as (v & es & lp & _ & _ & Hbuf & Hlp & ->). rewrite length_fmap in *. mstep (buffer_linked F C _ _ _ _ _ n bs lp Hok Hbuf).
  destruct (lpDeleteRange_spec lp es o m Hlp) as (lp' & -> & Hlp'); [lia|lia|]. dstep.
  set (k := node_index (elem_string <$> es) o) in *. assert (Hes : delete_range (abs_index es o) m es = cut k m es).
  { assert (Hki : k = abs_index es o) by (unfold k, node_index, abs_index; by rewrite length_fmap). rewrite <- Hki. unfold delete_range.
    by rewrite (proj2 (Z.eqb_neq m 0)), (proj2 (Z.ltb_ge k 0)), (proj2 (Z.leb_gt _ k)) by lia. }
  rewrite Hes in Hlp'. mstep (update_linked F C L1 a d' L2 ∅ n bs (with_entry (Buf lp')) Hok). pose proof (ok_mid _ a _ (with_entry (Buf lp') d') _ _ Hok) as Hok1.
  mstep (updateSz_linked F C HC L1 a _ L2 ∅ n bs lp' _ Hok1 eq_refl Hlp'). pose proof (ok_mid _ a _ (with_sz (pos (cut k m es) + 1) (with_entry (Buf lp') d')) _ _ Hok) as Hok2.
  mstep (update_linked F C L1 a _ L2 ∅ n bs (count_add (- m)) Hok2). pose proof (ok_mid _ a _ (count_add (- m) (with_sz (pos (cut k m es) + 1) (with_entry (Buf lp') d'))) _ _ Hok) as Hok3.
  set (d3 := count_add (- m) _) in *. mstep (add_count_conc F C (L1 ++ (a, d3) :: L2) ∅ n bs (- m)). mstep (get_linked F C _ _ _ _ _ (u64 (n + - m)) bs Hok3). cbn [data].
  assert (Hcut : Zlen (cut k m (elem_string <$> es)) = Zlen es - m) by (rewrite length_cut; rewrite ?length_fmap; lia).
  assert (Hc3 : count d3 = Zlen es - m) by (unfold d3; cbn [count_add with_count with_sz with_entry count]; rewrite Hcnt, uwrap_small by lia; lia).
  assert (Ht3 : tidy (L1 ++ (a, d3) :: L2)) by (apply (tidy_mid C HC L1 a d'); [done..|apply (gd_tidy _ _ _ _ Hg)]).
  assert (Hb3 : busy (Some a) (L1 ++ (a, d3) :: L2)) by (apply (busy_mid _ L1 a d'); [done|apply (gd_busy _ _ _ _ Hg)]).
  rewrite Hc3, (uwrap_small 64 (n + - m)) by lia. destruct (Z.eqb_spec (Zlen es - m) 0) as [Hz|Hz].
  - destruct (drop_node F C HC HF L1 a d3 L2 SS1 SS2 (n + - m) bs) as (L' & bs' & Hrun & Hok' & Hg' & Ha); try done. rewrite Hrun, Hc3, Hz, Z.sub_0_r, uwrap_small by lia.
    destruct (cut k m (elem_string <$> es)); [|cbn [length] in Hcut; lia]. rewrite bool_decide_true by done. exists L', bs'. by rewrite Ha, fmap_app.
  - destruct (recompress_mid L1 a d3 L2 (SS1 ++ cut k m (elem_string <$> es) :: SS2) ∅ (n + - m) bs Hok3) as (L' & Hrun & Hok' & Hg' & Ha).
    { split; [|done|done]. apply contents_join; [done| |done]. eapply trimmed_holds; try done; rewrite ?cut_fmap, ?length_fmap; [done|lia..]. }
    rewrite Hrun. destruct (cut k m (elem_string <$> es)) as [|x r]; [cbn [length] in Hcut; lia|]. rewrite bool_decide_false by done. exists L', bs. by rewrite Ha, fmap_app, fmap_cons.
Qed.

Lemma delrange_step fuel L1 a d L2 SS1 ss SS2 n bs o e :
  ok (L1 ++ (a, d) :: L2) ∅ -> good None (L1 ++ (a, d) :: L2) (SS1 ++ ss :: SS2) -> length L1 = length SS1 ->
  - Zlen ss <= o < Zlen ss -> 0 < e < 2 ^ 63 -> Zlen ss <= n < 2 ^ 64 ->
  let k := node_index ss o in let m := Z.min e (Zlen ss - k) in
  exists L' bs', delrange_loop (S fuel) (Some a) o e (conc (L1 ++ (a, d) :: L2) ∅ n bs) = delrange_loop fuel (first_of L2 None) 0 (e - m) (conc L' ∅ (n - m) bs') /\
    ok L' ∅ /\ good None L' (SS1 ++ some_node (cut k m ss) ++ SS2) /\ L'.*1 = L1.*1 ++ (if bool_decide (cut k m ss = []) then [] else [a]) ++ L2.*1.
Proof.
  intros Hok Hg Hl Ho He Hn k m. destruct (good_parts _ _ _ _ _ _ _ _ Hg Hl) as (H1 & Hd & H2). destruct (node_count d ss Hd) as [Hcnt Hbd].
  cbn [delrange_loop]. rewrite (proj2 (Z.eqb_neq e 0)) by lia. dstep. mstep (get_linked F C _ _ _ _ _ n bs Hok). cbn [data next]. rewrite Hcnt.
  destruct (del_count_spec (Zlen ss) o e Hbd Ho He) as (Hdel & Hk & Hm & Hent). fold (node_index ss o) in Hdel, Hk, Hm, Hent. fold k in Hdel, Hk, Hm, Hent. fold m in Hdel, Hm, Hent.
  rewrite Hdel. cbv iota. rewrite (uwrap_small 64 (e - m)) by lia. pose proof (length_cut k m ss ltac:(lia) ltac:(lia) ltac:(lia)) as Hlc.
  destruct (((o =? 0) && (Zlen ss <=? e)) || QL_NODE_IS_PLAIN d) eqn:Hw.
  - assert (Hall : m = Zlen ss).
    { apply orb_true_iff in Hw as [Hw|Hw]; [by apply Hent|]. unfold QL_NODE_IS_PLAIN in Hw. apply bool_decide_eq_true in Hw. destruct Hd as (v & Hv & Hh).
      pose proof (hd_strings _ _ Hh) as Hs. rewrite <- (vw_container _ _ Hv), Hw in Hs. rewrite Hs in Hk, Hm |- *. cbn [length] in *. lia. }
    destruct (drop_node F C HC HF L1 a d L2 SS1 SS2 n bs) as (L' & bs' & Hrun & Hok' & Hg' & Ha); try done; [apply (gd_tidy _ _ _ _ Hg)|apply busy_any, (gd_busy _ _ _ _ Hg)|].
    mstep Hrun. rewrite Hcnt, uwrap_small, <- Hall by lia. destruct (cut k m ss); [|cbn [length] in Hlc; lia]. rewrite bool_decide_true by done.
    exists L', bs'. by rewrite Ha, fmap_app.
  - apply orb_false_iff in Hw as [_ Hw]. unfold QL_NODE_IS_PLAIN in Hw. apply bool_decide_eq_false in Hw. assert (Hc : container d = PACKED) by by destruct (container d).
    destruct (trim_branch L1 a d L2 SS1 ss SS2 n bs o k m) as (L' & bs' & Hrun & Hr); try done; [lia|]. rewrite (bind_step _ _ _ _ _ Hrun). by exists L', bs'.
Qed.

(** ** The loop *)

Lemma addr_split (L : nlist) (A B : list addr) : L.*1 = A ++ B -> exists L1 L2, L = L1 ++ L2 /\ L1.*1 = A /\ L2.*1 = B.
Proof.
  intros HL. exists (take (length A) L), (drop (length A) L). split; [by rewrite take_drop|]. rewrite fmap_take, fmap_drop, HL. by rewrite take_app_length, drop_app_length.
Qed.

Lemma first_of_addr (L L' : nlist) n : L.*1 = L'.*1 -> first_of L n = first_of L' n.
Proof. destruct L as [|[a d] L], L' as [|[b e] L']; intros [=]; [done|by subst]. Qed.

Lemma cut_app_l {A} (X Y : list A) k m : 0 <= k -> 0 <= m -> cut (Zlen X + k) m (X ++ Y) = X ++ cut k m Y.
Proof.
  intros Hk Hm. unfold cut. rewrite take_app_ge, drop_app_ge, app_assoc by lia. do 2 f_equal; [f_equal|]; f_equal; lia.
Qed.

Lemma cut_app {A} (X Y : list A) k e : 0 <= k <= Zlen X -> 0 <= e ->
  cut k e (X ++ Y) = cut k (Z.min e (Zlen X - k)) X ++ drop (Z.to_nat (e - Z.min e (Zlen X - k))) Y.
Proof.
  intros Hk He. unfold cut. rewrite take_app_le, <- app_assoc by lia. f_equal. rewrite drop_app.
  destruct (Z.min_spec e (Zlen X - k)) as [[? ->]|[? ->]].
  - f_equal. rewrite Z.sub_diag. f_equal. lia.
  - rewrite (drop_ge X), (drop_ge X) by lia. cbn [app]. f_equal. lia.
Qed.

(** What the loop does from the start of a node on. *)
Definition deletes (fuel : nat) : Prop := forall L1 L2 SS1 SS2 bs e,
  (length L2 <= fuel)%nat -> ok (L1 ++ L2) ∅ -> good None (L1 ++ L2) (SS1 ++ SS2) -> length L1 = length SS1 ->
  Zlen (concat (SS1 ++ SS2)) < 2 ^ 62 -> 0 <= e <= Zlen (concat SS2) ->
  exists L' bs' SS', delrange_loop fuel (first_of L2 None) 0 e (conc (L1 ++ L2) ∅ (Zlen (concat (SS1 ++ SS2))) bs) = Some (tt, conc L' ∅ (Zlen (concat SS')) bs') /\
    ok L' ∅ /\ good None L' SS' /\ concat SS' = concat SS1 ++ drop (Z.to_nat e) (concat SS2).

(** From an offset in a node on. *)
Lemma delrange_first fuel L1 a d L2 SS1 ss SS2 bs o e :
  deletes fuel -> (length L2 <= fuel)%nat -> ok (L1 ++ (a, d) :: L2) ∅ -> good None (L1 ++ (a, d) :: L2) (SS1 ++ ss :: SS2) -> length L1 = length SS1 ->
  Zlen (concat (SS1 ++ ss :: SS2)) < 2 ^ 62 -> - Zlen ss <= o < Zlen ss ->
  let k := node_index ss o in 0 < e <= Zlen ss - k + Zlen (concat SS2) ->
  exists L' bs' SS', delrange_loop (S fuel) (Some a) o e (conc (L1 ++ (a, d) :: L2) ∅ (Zlen (concat (SS1 ++ ss :: SS2))) bs) = Some (tt, conc L' ∅ (Zlen (concat SS')) bs') /\
    ok L' ∅ /\ good None L' SS' /\ concat SS' = cut (Zlen (concat SS1) + k) e (concat (SS1 ++ ss :: SS2)).
Proof.
  intros IH Hf Hok Hg Hl Hn Ho k He. destruct (good_parts _ _ _ _ _ _ _ _ Hg Hl) as (_ & Hd & _). destruct (node_count d ss Hd) as [_ Hbd].
  assert (Hk : 0 <= k < Zlen ss) by (unfold k, node_index; destruct (Z.ltb_spec o 0); lia).
  assert (Hlen : Zlen (concat (SS1 ++ ss :: SS2)) = Zlen (concat SS1) + Zlen ss + Zlen (concat SS2)) by (rewrite concat_app; cbn [concat]; rewrite !length_app; lia).
  destruct (delrange_step fuel L1 a d L2 SS1 ss SS2 (Zlen (concat (SS1 ++ ss :: SS2))) bs o e Hok Hg Hl) as (L' & bs' & -> & Hok' & Hg' & Ha); [lia..|].
  fold k in Hg', Ha |- *. set (m := Z.min e (Zlen ss - k)) in *. set (c := cut k m ss) in *.
  assert (Hlc : Zlen c = Zlen ss - m) by (apply length_cut; lia).
  rewrite app_assoc in Ha. destruct (addr_split L' _ _ Ha) as (L1' & L2' & -> & Ha1 & Ha2). rewrite (first_of_addr L2 L2') by done. rewrite app_assoc in Hg'.
  assert (Hl2 : length L2' = length L2) by by rewrite <- (length_fmap fst), Ha2, length_fmap.
  assert (Hlen' : Zlen (concat (SS1 ++ ss :: SS2)) - m = Zlen (concat ((SS1 ++ some_node c) ++ SS2))).
  { rewrite Hlen, !concat_app, concat_some_node, !length_app. lia. }
  rewrite Hlen'. destruct (IH L1' L2' (SS1 ++ some_node c) SS2 bs' (e - m)) as (L3 & bs3 & SS3 & Hrun & Hok3 & Hg3 & Hc3); [lia|done|done| |lia|lia|].
  { rewrite <- (length_fmap fst L1'), Ha1, !length_app, length_fmap, Hl. f_equal. destruct c; [by rewrite bool_decide_true|by rewrite bool_decide_false]. }
  exists L3, bs3, SS3. split; [done|]. split; [done|]. split; [done|].
  rewrite Hc3, !concat_app, concat_some_node, <- app_assoc, cut_app_l by lia. cbn [concat]. by rewrite cut_app by lia.
Qed.

Lemma delrange_from fuel : deletes fuel.
Proof.
  induction fuel as [|fuel IH]; intros L1 L2 SS1 SS2 bs e Hf Hok Hg Hl Hn He; pose proof (gd_contents _ _ _ _ Hg) as Hc;
    (assert (Hc2 : contents L2 SS2) by by apply Forall2_app_inv in Hc as [_ ?]).
  - destruct L2; [|cbn in Hf; lia]. inversion Hc2; subst. cbn in He. assert (e = 0) as -> by lia. exists (L1 ++ []), bs, (SS1 ++ []). split; [done|]. split; [done|]. split; [done|]. by rewrite concat_app.
  - destruct (Z.eqb_spec e 0) as [->|Hne]; [exists (L1 ++ L2), bs, (SS1 ++ SS2); split; [done|]; split; [done|]; split; [done|]; by rewrite concat_app|].
    destruct Hc2 as [|[a d] ss L2 SS2 Hd Hc2]; [cbn in He; lia|]. cbn [first_of concat] in *. rewrite length_app in He. destruct (node_count d ss Hd) as [_ Hbd].
    destruct (delrange_first fuel L1 a d L2 SS1 ss SS2 bs 0 e) as (L' & bs' & SS' & Hrun & Hok' & Hg' & Hc'); try done; [cbn in Hf; lia|lia|change (node_index ss 0) with 0; lia|].
    exists L', bs', SS'. split; [done|]. split; [done|]. split; [done|]. change (node_index ss 0) with 0 in Hc'. by rewrite Hc', concat_app, cut_app_l by lia.
Qed.

Lemma delRange_spec start cnt L SS bs :
  ok L ∅ -> good None L SS -> bytes (concat SS) < MAX_BYTES -> LLONG_MIN < start <= LLONG_MAX -> 0 < cnt <= LLONG_MAX ->
  let n := Zlen (concat SS) in let i := list_index n start in
  (~ (0 <= i < n) /\ quicklistDelRange start cnt (conc L ∅ n bs) = Some (false, conc L ∅ n bs)) \/
  (0 <= i < n /\ exists L' bs' SS', quicklistDelRange start cnt (conc L ∅ n bs) = Some (true, conc L' ∅ (Zlen (concat SS')) bs') /\
    ok L' ∅ /\ good None L' SS' /\ concat SS' = cut i (Z.min cnt (n - i)) (concat SS)).
Proof.
  intros Hok Hg Hsz Hst Hcnt n i. unfold quicklistDelRange. rewrite (proj2 (Z.leb_gt cnt 0)) by lia. dstep. cbn [conc ql qlof ql_count]. fold n.
  pose proof (bytes_length (concat SS)) as Hbl. fold n in Hbl.
  set (ext := if (0 <=? start) && _ then _ else _). assert (He : exists e, ext = Some e /\ (0 <= i < n -> e = Z.min cnt (n - i))).
  { subst ext i. unfold list_index, negate. destruct (Z.ltb_spec start 0); cbn [andb].
    - rewrite (proj2 (Z.leb_gt 0 start)), (proj2 (Z.eqb_neq start _)) by lia. cbn [andb mbind option_bind]. eexists. split; [done|]. intros _. destruct (Z.ltb_spec (- start) cnt); lia.
    - rewrite (proj2 (Z.leb_le 0 start)) by lia. cbn [andb]. destruct (Z.ltb_spec (u64 (n - start)) cnt); eexists; (split; [done|]); intros Hi; rewrite uwrap_small in * by lia; lia. }
  destruct He as (e & -> & He). dstep.
  destruct (iterator_spec F C HC HF AL_START_TAIL start L SS bs) as [[Hi Hrun]|(Hi & L1 & a & d & L2 & SS1 & ss & SS2 & o & -> & -> & H1 & Hd & H2 & Hrun & Ho & _ & Hio)];
    [done|apply (gd_contents _ _ _ _ Hg)|lia|done|left; split; [done|]; mstep Hrun; done|]. fold n i in Hi, Hrun, Hio.
  right. split; [done|]. mstep Hrun. cbv iota. rewrite (He Hi). cbn [current offset]. unfold quicklistReleaseIterator. cbn [current].
  assert (Hl : length L1 = length SS1) by by eapply Forall2_length. destruct (node_count d ss Hd) as [_ Hbd].
  destruct (compress_mid L1 a d L2 (SS1 ++ ss :: SS2) ∅ n bs Hok) as (L' & Hcr & Hok' & Hg' & Ha); [by apply (good_any C HC)|]. mstep Hcr.
  mstep (fuel_spec F C HC HF L' n bs Hok'). destruct (addr_mid L1 L2 L' a d Ha) as (L1' & d' & L2' & -> & Ha1 & Ha2 & Hl1).
  set (m := Z.min cnt (n - i)) in *. assert (Hlen : n = Zlen (concat SS1) + Zlen ss + Zlen (concat SS2)) by (unfold n; rewrite concat_app; cbn [concat]; rewrite !length_app; lia).
  set (k := node_index ss o) in *. assert (Hk : 0 <= k < Zlen ss) by (unfold k, node_index; destruct (Z.ltb_spec o 0); lia).
  destruct (delrange_first (length (L1' ++ (a, d') :: L2')) L1' a d' L2' SS1 ss SS2 bs o m) as (L3 & bs3 & SS3 & Hrun3 & Hok3 & Hg3 & Hc3); try done; [apply delrange_from|rewrite length_app; cbn; lia|congruence|lia..|].
  fold n in Hrun3. fold k in Hc3. mstep Hrun3. exists L3, bs3, SS3. split; [done|]. split; [done|]. split; [done|]. by rewrite Hc3, Hio.
Qed.

End Range.
End QlRange.
