(* ===== verification/QuicklistIter.v ===== *)
(** * Iterators of a quicklist

    An iterator stands between two elements of the list; [quicklistNext]
    returns the one after it, or before it for an iterator that runs to the
    head, whichever node it is in, and keeps only the node of the iterator
    decompressed. *)

From stdpp Require Import gmap.
From S2P Require Import Prelude.
From S2P Require Import NumConv.
From S2P Require Import ListpackEnc.
From S2P Require Import Listpack.
From S2P Require Import ListpackOps.
From S2P Require Import ListpackEdit.
From S2P Require Import Quicklist.
From S2P Require Import QuicklistSpec.
From S2P Require Import QuicklistComp.
From S2P Require Import QuicklistNode.
From S2P Require Import QuicklistPush.
From S2P Require Import QuicklistDel.
From S2P Require Import QuicklistSeek.
From S2P Require Import QuicklistRange.
Import NumConv LpEnc Lp LpOps LpEdit Quicklist QlSpec QlComp QlNode QlPush QlDel QlSeek QlRange.

Module QlIter.

(** 1 for an iterator that runs to the tail. *)
Definition ahead (dir : direction_) : Z := match dir with AL_START_HEAD => 1 | AL_START_TAIL => 0 end.

(** The iterator stands before the element [g]: at its node it is at the
    element with index [k], which is still to be returned when [zi] is null. *)
Definition iter_at (u : option addr) (L : nlist) (SS : list (list sds)) (it : quicklistIter) (g : Z) : Prop :=
  match current it with
  | None => u = None /\ g = ahead (direction it) * Zlen (concat SS)
  | Some a => exists L1 d L2 SS1 ss SS2, L = L1 ++ (a, d) :: L2 /\ SS = SS1 ++ ss :: SS2 /\ length L1 = length SS1 /\
      let k := node_index ss (offset it) in - Zlen ss - 1 <= offset it <= Zlen ss /\
      match zi it with
      | None => (u = None \/ u = Some a) /\ ahead (direction it) - 1 <= k < Zlen ss + ahead (direction it) /\ (container d = PLAIN -> 0 <= k < Zlen ss) /\ g = Zlen (concat SS1) + k + 1 - ahead (direction it)
      | Some p => u = Some a /\ 0 <= k /\ cursor d ss (Z.to_nat k) (Some p) /\ g = Zlen (concat SS1) + k + ahead (direction it)
      end
  end.

(** An entry for the element [i] of the list. *)
Definition entry_at (L : nlist) (SS : list (list sds)) (e : quicklistEntry) (i : Z) (s : sds) : Prop :=
  exists L1 a d L2 SS1 ss SS2 k v, L = L1 ++ (a, d) :: L2 /\ SS = SS1 ++ ss :: SS2 /\ length L1 = length SS1 /\
    e_node e = Some a /\ e_value e = Some v /\ reads v s /\ (container d = PLAIN -> v = inl s) /\ ss !! k = Some s /\ cursor d ss k (e_zi e) /\
    Z.of_nat k = node_index ss (e_offset e) /\ - Zlen ss <= e_offset e < Zlen ss /\ i = Zlen (concat SS1) + Z.of_nat k.

Section Iter.
Context `{Allocator} `{LzfMemory} (F C packed_threshold : Z) (HC : 0 <= C) (HF : -5 <= F <= FILL_MAX).

Abbreviation conc := (conc F C).
Abbreviation tidy := (tidy C).
Abbreviation good := (good C).

#[local] Set Default Proof Using "Type*".

Lemma plain_size d s : node_holds d [s] -> container d = PLAIN -> sz d = Zlen s.
Proof.
  intros (v & Hv & Hh) Hc. pose proof (hd_strings _ _ Hh) as Hs. rewrite <- (vw_container _ _ Hv), Hc in Hs. injection Hs as ->. apply (vw_sz _ _ Hv).
Qed.

(** The value under a cursor. *)
Lemma read_cursor d ss k p : node_holds d ss -> cursor d ss k (Some p) ->
  exists s b v, ss !! k = Some s /\ entry d = Buf b /\ reads v s /\
    (if QL_NODE_IS_PLAIN d then bs ← rd b 0 (sz d); Some (inl bs) else lp_value b p) = Some v.
Proof.
  intros Hd (He & Hk & Hcur). unfold QL_NODE_IS_PLAIN. case_bool_decide as Hp.
  - destruct (plain_node d ss Hd Hp He) as (b & s & Hb & -> & Hrd). cbn in Hk. exists s, b, (inl s). replace k with 0%nat by lia. by rewrite Hrd.
  - destruct (container d); [done|]. destruct Hcur as (lp & es & Hb & Hlp & -> & [= ->]). destruct ((elem_string <$> es) !! k) as [s|] eqn:Hs; [|by apply lookup_ge_None in Hs; lia].
    destruct (lp_value_spec lp es k s Hlp Hs) as (v & Hv & Hvs). by exists s, lp, v.
Qed.

(** What [quicklistNext] returns for the element [i]: the entry and the iterator
    at it, and the node of the element is the one in use. *)
Record yields (L : nlist) (SS : list (list sds)) (dir : direction_) (i : Z) (it' : quicklistIter) (e : quicklistEntry) (L' : nlist) : Prop := {
  yl_addr : L'.*1 = L.*1;
  yl_ok : ok L' ∅;
  yl_good : good (e_node e) L' SS;
  yl_elem : exists s, concat SS !! Z.to_nat i = Some s /\ entry_at L' SS e i s;
  yl_iter : iter_at (e_node e) L' SS it' (i + ahead dir);
  yl_dir : direction it' = dir;
  yl_same : current it' = e_node e /\ zi it' = e_zi e /\ offset it' = e_offset e;
}.

(** The entry that [quicklistNext] fills in. *)
Lemma next_found fuel dir o' L1 a d d' L2 SS1 ss SS2 n bs it k p :
  ok (L1 ++ (a, d) :: L2) ∅ -> ok (L1 ++ (a, d') :: L2) ∅ -> good (Some a) (L1 ++ (a, d') :: L2) (SS1 ++ ss :: SS2) -> length L1 = length SS1 ->
  node_holds d ss -> container d' = container d -> current it = Some a -> direction it = dir ->
  next_zi a it (conc (L1 ++ (a, d) :: L2) ∅ n bs) = Some ((Some p, o'), conc (L1 ++ (a, d') :: L2) ∅ n bs) ->
  cursor d' ss k (Some p) -> Z.of_nat k = node_index ss o' -> - Zlen ss <= o' < Zlen ss ->
  exists it' e, iter_loop (S fuel) it (conc (L1 ++ (a, d) :: L2) ∅ n bs) = Some ((true, it', e), conc (L1 ++ (a, d') :: L2) ∅ n bs) /\ offset it' = o' /\
    yields (L1 ++ (a, d) :: L2) (SS1 ++ ss :: SS2) dir (Zlen (concat SS1) + Z.of_nat k) it' e (L1 ++ (a, d') :: L2).
Proof.
  intros Hok Hok' Hg Hl Hd Hc Hcur Hdir Hnext Hk Hki Ho. destruct (good_parts C HC _ _ _ _ _ _ _ _ Hg Hl) as (_ & Hd' & _). destruct (node_count d ss Hd) as [_ Hbd].
  destruct (read_cursor d' ss k p Hd' Hk) as (s & b & v & Hs & Hb & Hvs & Hval). cbn [iter_loop]. rewrite Hcur. mstep (get_linked F C _ _ _ _ _ n bs Hok). cbn [data].
  mstep Hnext. cbv iota. mstep (buffer_linked F C _ _ _ _ _ n bs b Hok' Hb).
  assert (Hsz : sz d' = sz d \/ QL_NODE_IS_PLAIN d = false).
  { unfold QL_NODE_IS_PLAIN. case_bool_decide as Hp; [|by right]. left. rewrite <- Hc in Hp. destruct Hk as (He & _). destruct (plain_node d' ss Hd' Hp He) as (? & s0 & _ & -> & _).
    by rewrite (plain_size d' s0), (plain_size d s0) by (done || congruence). }
  assert (Hval' : (if QL_NODE_IS_PLAIN d then bs ← rd b 0 (sz d); Some (inl bs) else lp_value b p) = Some v).
  { unfold QL_NODE_IS_PLAIN in *. rewrite Hc in Hval. by destruct Hsz as [<-|Hf]; [|rewrite Hf in *]. }
  rewrite Hval'. dstep. eexists _, _. split; [done|]. split; [done|]. rewrite swrap_small by lia. split; cbn [direction e_node e_offset offset e_zi zi current].
  - by rewrite !fmap_app, !fmap_cons.
  - done.
  - done.
  - exists s. split.
    { rewrite concat_app. cbn [concat]. rewrite lookup_app_r by lia. rewrite lookup_app_l; [rewrite <- Hs; f_equal; lia|]. apply lookup_lt_Some in Hs. lia. }
    exists L1, a, d', L2, SS1, ss, SS2, k, v. do 6 (split; [done|]). split; [|by repeat (split; [done|])]. intros Hp. unfold QL_NODE_IS_PLAIN in Hval. rewrite Hp in Hval.
    rewrite bool_decide_true in Hval by done. destruct (rd b 0 (sz d')) as [x|]; [|done]. injection Hval as <-. destruct Hvs as [Hvs _]. by injection Hvs as ->.
  - unfold iter_at. cbn [direction offset zi current]. exists L1, d', L2, SS1, ss, SS2. do 3 (split; [done|]). split; [lia|]. split; [done|]. split; [lia|].
    rewrite <- Hki, Nat2Z.id, Hdir. by split.
  - done.
  - done.
Qed.

(** ** Entering a node *)

(** [next_zi] for an iterator that was just set to its node. *)
Lemma enter_zi L1 a d L2 SS1 ss SS2 n bs it :
  ok (L1 ++ (a, d) :: L2) ∅ -> good (Some a) (L1 ++ (a, d) :: L2) (SS1 ++ ss :: SS2) -> length L1 = length SS1 -> zi it = None ->
  -1 <= node_index ss (offset it) <= Zlen ss ->
  exists d', ok (L1 ++ (a, d') :: L2) ∅ /\ good (Some a) (L1 ++ (a, d') :: L2) (SS1 ++ ss :: SS2) /\ container d' = container d /\
    exists p, next_zi a it (conc (L1 ++ (a, d) :: L2) ∅ n bs) = Some ((p, offset it), conc (L1 ++ (a, d') :: L2) ∅ n bs) /\
      if bool_decide (0 <= node_index ss (offset it) < Zlen ss) then p <> None /\ cursor d' ss (Z.to_nat (node_index ss (offset it))) p
      else container d = PACKED -> p = None.
Proof.
  intros Hok Hg Hl Hzi Hk. destruct (use_mid F C HC HF L1 a d L2 SS1 ss SS2 ∅ n bs Hok Hg Hl) as (d' & Huse & Hok' & Hg' & Hd' & He & Hc).
  exists d'. split; [done|]. split; [done|]. split; [done|]. unfold next_zi. mstep (get_linked F C _ _ _ _ _ n bs Hok). cbn [data]. rewrite Hzi. mstep Huse.
  unfold QL_NODE_IS_PLAIN. case_bool_decide as Hp.
  - rewrite <- Hc in Hp. destruct (plain_node d' ss Hd' Hp He) as (b & s & Hb & -> & _). mstep (buffer_linked F C _ _ _ _ _ n bs b Hok' Hb). exists (Some 0). split; [done|].
    case_bool_decide as Hin; [|congruence]. split; [done|]. cbn [length] in *. split; [done|]. split; [cbn; lia|]. by rewrite Hp.
  - assert (Hc' : container d' = PACKED) by (rewrite Hc; by destruct (container d)). destruct (seek_node d' ss Hd' Hc' He) as (lp & Hb & Hseek). specialize (Hseek (offset it)).
    mstep (buffer_linked F C _ _ _ _ _ n bs lp Hok' Hb). case_bool_decide as Hin.
    + destruct (ss !! _) as [s|] eqn:Hs; [|apply lookup_ge_None in Hs; lia]. rewrite (proj2 (Z.leb_le 0 _)) in Hseek by lia. destruct Hseek as (p & v & -> & Hcur & _).
      dstep. by exists (Some p).
    + assert (Hnone : lpSeek lp (offset it) = Some None).
      { destruct (Z.leb_spec 0 (node_index ss (offset it))); [|by destruct (ss !! _)]. by rewrite lookup_ge_None_2 in Hseek by lia. }
      rewrite Hnone. dstep. by exists None.
Qed.

(** A fresh iterator at an element of its node returns it. *)
Lemma next_enter fuel L1 a d L2 SS1 ss SS2 n bs it :
  ok (L1 ++ (a, d) :: L2) ∅ -> good (Some a) (L1 ++ (a, d) :: L2) (SS1 ++ ss :: SS2) -> length L1 = length SS1 -> current it = Some a -> zi it = None ->
  - Zlen ss <= offset it < Zlen ss ->
  let i := Zlen (concat SS1) + node_index ss (offset it) in
  exists it' e L', iter_loop (S fuel) it (conc (L1 ++ (a, d) :: L2) ∅ n bs) = Some ((true, it', e), conc L' ∅ n bs) /\ offset it' = offset it /\
    yields (L1 ++ (a, d) :: L2) (SS1 ++ ss :: SS2) (direction it) i it' e L'.
Proof.
  intros Hok Hg Hl Hcur Hzi Ho i. assert (Hk : 0 <= node_index ss (offset it) < Zlen ss) by (unfold node_index; destruct (Z.ltb_spec (offset it) 0); lia).
  destruct (enter_zi L1 a d L2 SS1 ss SS2 n bs it Hok Hg Hl Hzi) as (d' & Hok' & Hg' & Hc & p & Hnext & Hp); [lia|]. rewrite bool_decide_true in Hp by done.
  destruct Hp as [Hp Hpc]. destruct p as [p|]; [|done]. destruct (good_parts C HC _ _ _ _ _ _ _ _ Hg Hl) as (_ & Hd & _).
  destruct (next_found fuel (direction it) (offset it) L1 a d d' L2 SS1 ss SS2 n bs it (Z.to_nat (node_index ss (offset it))) p) as (it' & e & Hr); try done; [lia|]. rewrite Z2Nat.id in Hr by lia.
  by exists it', e, (L1 ++ (a, d') :: L2).
Qed.

(** ** Leaving a node *)

(** The iterator at the neighbour. *)
Definition fresh (dir : direction_) (p : option addr) : quicklistIter :=
  match dir with
  | AL_START_HEAD => {| current := p; zi := None; offset := 0; direction := dir |}
  | AL_START_TAIL => {| current := p; zi := None; offset := -1; direction := dir |}
  end.

Definition neighbour (dir : direction_) (L1 L2 : nlist) : option addr :=
  match dir with AL_START_HEAD => first_of L2 None | AL_START_TAIL => last_of None L1 end.

(** The iterator between two nodes: before the first element of the neighbour,
    or at the end. *)
Lemma fresh_gap dir L1 L2 SS1 SS2 :
  contents L1 SS1 -> contents L2 SS2 -> iter_at None (L1 ++ L2) (SS1 ++ SS2) (fresh dir (neighbour dir L1 L2)) (Zlen (concat SS1)).
Proof.
  intros H1 H2. assert (Hl : length L1 = length SS1) by by eapply Forall2_length. destruct dir; unfold iter_at; cbn [fresh neighbour current direction zi offset ahead].
  - destruct H2 as [|[b e] ss L2 SS2 Hb H2]; cbn [first_of]; [by rewrite app_nil_r, Z.mul_1_l|].
    exists L1, e, L2, SS1, ss, SS2. destruct (node_count e ss Hb) as [_ Hbd]. do 3 (split; [done|]). cbn. split; [lia|]. split; [by left|]. lia.
  - destruct L1 as [|[b e] L1 _] using rev_ind; [inversion H1; subst; by split|].
    destruct (contents_mid _ _ _ _ _ H1) as (SS1' & ss & SS1b & -> & H1' & Hb & Hnil). inversion Hnil; subst. rewrite last_of_snoc.
    exists L1, e, L2, SS1', ss, SS2. rewrite <- !app_assoc, !length_app in *. destruct (node_count e ss Hb) as [_ Hbd].
    do 2 (split; [done|]). split; [cbn in Hl; lia|]. cbn. split; [lia|]. split; [by left|]. rewrite concat_app, length_app. cbn. rewrite app_nil_r. lia.
Qed.

Lemma fresh_at dir L1 a d L2 SS1 ss SS2 :
  contents (L1 ++ (a, d) :: L2) (SS1 ++ ss :: SS2) -> length L1 = length SS1 ->
  iter_at None (L1 ++ (a, d) :: L2) (SS1 ++ ss :: SS2) (fresh dir (neighbour dir L1 L2)) (Zlen (concat SS1) + ahead dir * Zlen ss).
Proof.
  intros Hc Hl. apply Forall2_app_inv in Hc as [H1 H2]; [|done]. apply Forall2_cons_1 in H2 as [Hd H2]. destruct dir; cbn [ahead].
  - pose proof (fresh_gap AL_START_HEAD (L1 ++ [(a, d)]) L2 (SS1 ++ [ss]) SS2) as Hf. rewrite <- !app_assoc, concat_app, length_app in Hf. cbn [app concat] in Hf. rewrite app_nil_r in Hf.
    replace (Zlen (concat SS1) + 1 * Zlen ss) with (Z.of_nat (length (concat SS1) + length ss)) by lia. apply Hf; [|done]. apply contents_app; [done|]. by repeat constructor.
  - rewrite Z.mul_0_l, Z.add_0_r. apply (fresh_gap AL_START_TAIL L1 ((a, d) :: L2) SS1 (ss :: SS2)); [done|]. by constructor.
Qed.

Lemma last_of_addr (L L' : nlist) p : L.*1 = L'.*1 -> last_of p L = last_of p L'.
Proof. revert L' p. induction L as [|[a d] L IH]; intros [|[b e] L'] p; intros [=]; [done|]. subst. cbn. by apply IH. Qed.

Lemma next_leave fuel L1 a d d' L2 SS1 ss SS2 n bs it o' :
  ok (L1 ++ (a, d) :: L2) ∅ -> ok (L1 ++ (a, d') :: L2) ∅ -> good (Some a) (L1 ++ (a, d') :: L2) (SS1 ++ ss :: SS2) -> length L1 = length SS1 ->
  current it = Some a -> next_zi a it (conc (L1 ++ (a, d) :: L2) ∅ n bs) = Some ((None, o'), conc (L1 ++ (a, d') :: L2) ∅ n bs) ->
  exists L', iter_loop (S fuel) it (conc (L1 ++ (a, d) :: L2) ∅ n bs) = iter_loop fuel (fresh (direction it) (neighbour (direction it) L1 L2)) (conc L' ∅ n bs) /\
    ok L' ∅ /\ good None L' (SS1 ++ ss :: SS2) /\ L'.*1 = (L1 ++ (a, d) :: L2).*1 /\
    iter_at None L' (SS1 ++ ss :: SS2) (fresh (direction it) (neighbour (direction it) L1 L2)) (Zlen (concat SS1) + ahead (direction it) * Zlen ss).
Proof.
  intros Hok Hok' Hg Hl Hcur Hnext. cbn [iter_loop]. rewrite Hcur. mstep (get_linked F C _ _ _ _ _ n bs Hok). mstep Hnext. cbv iota.
  destruct (compress_mid F C HC HF L1 a d' L2 _ ∅ n bs Hok' Hg) as (L' & Hrun & Hok1 & Hg1 & Ha). mstep Hrun.
  destruct (addr_mid L1 L2 L' a d' Ha) as (L1' & d1 & L2' & -> & Ha1 & Ha2 & Hl1). mstep (get_linked F C _ _ _ _ _ n bs Hok1). cbn [next prev].
  exists (L1' ++ (a, d1) :: L2'). split; [|split; [done|split; [done|split; [by rewrite Ha, !fmap_app, !fmap_cons|]]]].
  - f_equal. destruct (direction it); cbn [fresh neighbour]; [by rewrite (first_of_addr L2' L2)|by rewrite (last_of_addr L1' L1)].
  - replace (neighbour (direction it) L1 L2) with (neighbour (direction it) L1' L2').
    + apply fresh_at; [apply (gd_contents _ _ _ _ Hg1)|congruence].
    + destruct (direction it); [by apply first_of_addr|by apply last_of_addr].
Qed.

(** What the next node returns, if there is one. *)
Definition returns (L : nlist) (SS : list (list sds)) (dir : direction_) (g : Z) (it' : quicklistIter) (e : quicklistEntry) (found : bool) (L' : nlist) : Prop :=
  if found then yields L SS dir (g - 1 + ahead dir) it' e L'
  else g = ahead dir * Zlen (concat SS) /\ L'.*1 = L.*1 /\ ok L' ∅ /\ good None L' SS /\ current it' = None /\ direction it' = dir.

Lemma next_fresh fuel L SS dir p n bs g :
  ok L ∅ -> good None L SS -> iter_at None L SS (fresh dir p) g ->
  exists found it' e L', iter_loop (S fuel) (fresh dir p) (conc L ∅ n bs) = Some ((found, it', e), conc L' ∅ n bs) /\ returns L SS dir g it' e found L' /\
    (found = true -> offset it' = offset (fresh dir p)).
Proof.
  intros Hok Hg Hit. destruct p as [a|].
  - assert (Hcur : current (fresh dir (Some a)) = Some a) by by destruct dir. assert (Hdir : direction (fresh dir (Some a)) = dir) by by destruct dir.
    unfold iter_at in Hit. rewrite Hcur, Hdir in Hit. destruct Hit as (L1 & d & L2 & SS1 & ss & SS2 & -> & -> & Hl & Hb & Hit).
    assert (Hz : zi (fresh dir (Some a)) = None) by by destruct dir. rewrite Hz in Hit. destruct Hit as (_ & Hk & _ & ->).
    destruct (good_parts C HC _ _ _ _ _ _ _ _ Hg Hl) as (_ & Hd & _). destruct (node_count d ss Hd) as [_ Hbd].
    destruct (next_enter fuel L1 a d L2 SS1 ss SS2 n bs (fresh dir (Some a)) Hok (good_any C HC _ _ _ Hg) Hl Hcur Hz) as (it' & e & L' & Hrun & Ho & Hy); [destruct dir; cbn; lia|].
    exists true, it', e, L'. split; [exact Hrun|]. split; [|done]. unfold returns. rewrite Hdir in Hy.
    by replace (_ - 1 + ahead dir) with (Zlen (concat SS1) + node_index ss (offset (fresh dir (Some a)))) by lia.
  - eexists false, (fresh dir None), _, L. split; [by destruct dir|]. split; [|done]. assert (Hg' : g = ahead dir * Zlen (concat SS)) by (destruct dir; apply Hit). by destruct dir.
Qed.

(** ** Going on in a node *)

Definition onward (dir : direction_) : Z := match dir with AL_START_HEAD => 1 | AL_START_TAIL => -1 end.

Lemma step_zi L1 a d L2 SS1 ss SS2 n bs it k p :
  ok (L1 ++ (a, d) :: L2) ∅ -> good (Some a) (L1 ++ (a, d) :: L2) (SS1 ++ ss :: SS2) -> length L1 = length SS1 -> zi it = Some p -> cursor d ss k (Some p) ->
  let k' := Z.of_nat k + onward (direction it) in
  exists p' o', next_zi a it (conc (L1 ++ (a, d) :: L2) ∅ n bs) = Some ((p', o'), conc (L1 ++ (a, d) :: L2) ∅ n bs) /\
    if bool_decide (0 <= k' < Zlen ss) then (exists q, p' = Some q /\ cursor d ss (Z.to_nat k') (Some q)) /\ o' = offset it + onward (direction it) else p' = None.
Proof.
  intros Hok Hg Hl Hzi (He & Hk & Hcur) k'. destruct (good_parts C HC _ _ _ _ _ _ _ _ Hg Hl) as (_ & Hd & _). unfold next_zi.
  mstep (get_linked F C _ _ _ _ _ n bs Hok). cbn [data]. rewrite Hzi. unfold QL_NODE_IS_PLAIN. case_bool_decide as Hp.
  - destruct (plain_node d ss Hd Hp He) as (b & s & Hb & -> & _). eexists None, _. split; [done|]. rewrite bool_decide_false; [done|].
    cbn [length] in *. unfold k'. destruct (direction it); cbn [onward]; lia.
  - destruct (container d) eqn:Hc; [done|]. destruct Hcur as (lp & es & Hb & Hlp & -> & [= ->]). rewrite length_fmap in *. mstep (buffer_linked F C _ _ _ _ _ n bs lp Hok Hb).
    assert (Hnp : (match direction it with AL_START_HEAD => lpNext lp (pos (take k es)) | AL_START_TAIL => lpPrev lp (pos (take k es)) end) = Some (nth_ptr es k')).
    { pose proof (next_nth _ _ Hlp (Z.of_nat k)) as Hn. pose proof (prev_nth _ _ Hlp (Z.of_nat k)) as Hpv. rewrite Nat2Z.id in Hn, Hpv.
      unfold k'. destruct (direction it); [apply Hn|apply Hpv]; lia. }
    exists (nth_ptr es k'), (offset it + onward (direction it)). split; [destruct (direction it); rewrite Hnp; by dstep|].
    case_bool_decide as Hin; [|by apply nth_ptr_out; lia]. split; [|done]. unfold nth_ptr. rewrite (proj2 (andb_true_iff _ _)) by lia. eexists. split; [done|].
    split; [done|]. split; [rewrite length_fmap; lia|]. rewrite Hc. by exists lp, es.
Qed.

(** ** [quicklistNext] *)

(** The offset of an iterator that [quicklistDelEntry] can go on with. *)
Definition signed (it : quicklistIter) : Prop :=
  match direction it with AL_START_HEAD => 0 <= offset it | AL_START_TAIL => offset it < 0 end.

Lemma fresh_signed dir p : signed (fresh dir p).
Proof. by destruct dir. Qed.

Lemma returns_signed L SS dir g it' e found L' p :
  returns L SS dir g it' e found L' -> (found = true -> offset it' = offset (fresh dir p)) -> found = true -> signed it'.
Proof. intros Hr Ho ->. unfold signed. rewrite (yl_dir _ _ _ _ _ _ _ Hr), Ho by done. by destruct dir. Qed.

(** The end of a node: the next one. *)
Lemma leave_next fuel L1 a d d' L2 SS1 ss SS2 n bs it o' :
  ok (L1 ++ (a, d) :: L2) ∅ -> ok (L1 ++ (a, d') :: L2) ∅ -> good (Some a) (L1 ++ (a, d') :: L2) (SS1 ++ ss :: SS2) -> length L1 = length SS1 ->
  current it = Some a -> next_zi a it (conc (L1 ++ (a, d) :: L2) ∅ n bs) = Some ((None, o'), conc (L1 ++ (a, d') :: L2) ∅ n bs) ->
  exists found it' e L', iter_loop (S (S fuel)) it (conc (L1 ++ (a, d) :: L2) ∅ n bs) = Some ((found, it', e), conc L' ∅ n bs) /\
    returns (L1 ++ (a, d) :: L2) (SS1 ++ ss :: SS2) (direction it) (Zlen (concat SS1) + ahead (direction it) * Zlen ss) it' e found L' /\ (found = true -> signed it').
Proof.
  intros Hok Hok' Hg Hl Hcur Hnext. destruct (next_leave (S fuel) L1 a d d' L2 SS1 ss SS2 n bs it o') as (L2' & -> & Hok2 & Hg2 & Ha & Hit); try done.
  destruct (next_fresh fuel L2' _ _ _ n bs _ Hok2 Hg2 Hit) as (found & it' & e & L' & Hrun & Hr & Ho). exists found, it', e, L'. split; [done|].
  split; [|by eapply returns_signed]. destruct found; cbn [returns] in *.
  - destruct Hr as [H1 H2 H3 H4 H5 H6 H7]. split; try done. by rewrite H1, Ha.
  - destruct Hr as (-> & H1 & Hr). split; [done|]. by rewrite H1, Ha.
Qed.

Lemma node_index_step ss o dir : - Zlen ss - 1 <= o <= Zlen ss -> 0 <= node_index ss o + onward dir < Zlen ss ->
  node_index ss (o + onward dir) = node_index ss o + onward dir /\ - Zlen ss <= o + onward dir < Zlen ss.
Proof. unfold node_index. intros Ho. destruct (Z.ltb_spec o 0), (Z.ltb_spec (o + onward dir) 0), dir; cbn [onward] in *; lia. Qed.

Lemma next_spec u L SS it n bs g :
  ok L ∅ -> good u L SS -> iter_at u L SS it g ->
  exists found it' e L', quicklistNext it (conc L ∅ n bs) = Some ((found, it', e), conc L' ∅ n bs) /\ returns L SS (direction it) g it' e found L' /\
    (found = true -> signed it -> signed it').
Proof.
  intros Hok Hg Hit. unfold quicklistNext. mstep (fuel_spec F C HC HF L n bs Hok). unfold iter_at in Hit. destruct (current it) as [a|] eqn:Hcur.
  2:{ destruct Hit as [-> ->]. eexists false, it, _, L. cbn [iter_loop]. rewrite Hcur. done. }
  destruct Hit as (L1 & d & L2 & SS1 & ss & SS2 & -> & -> & Hl & Hb & Hit). rewrite (length_app L1). cbn [length]. rewrite Nat.add_succ_r.
  destruct (good_parts C HC _ _ _ _ _ _ _ _ Hg Hl) as (_ & Hd & _). set (k := node_index ss (offset it)) in *.
  destruct (zi it) as [p|] eqn:Hzi.
  - destruct Hit as (-> & Hk & Hcc & ->). destruct (step_zi L1 a d L2 SS1 ss SS2 n bs it _ p Hok Hg Hl Hzi Hcc) as (p' & o' & Hnext & Hp).
    rewrite Z2Nat.id in Hp by lia. pose proof Hcc as (_ & Hlt & _). case_bool_decide as Hin.
    + destruct Hp as ((q & -> & Hq) & ->).
      destruct (next_found (S (length L1 + length L2)) (direction it) (offset it + onward (direction it)) L1 a d d L2 SS1 ss SS2 n bs it (Z.to_nat (k + onward (direction it))) q)
        as (it' & e & Hrun & Ho & Hy); try done.
      { rewrite Z2Nat.id by lia. symmetry. by apply node_index_step. } { by apply node_index_step. }
      exists true, it', e, (L1 ++ (a, d) :: L2). split; [exact Hrun|]. unfold returns.
      replace (_ - 1 + ahead _) with (Zlen (concat SS1) + Z.of_nat (Z.to_nat (k + onward (direction it)))) by (destruct (direction it); cbn [ahead onward] in *; lia).
      split; [done|]. intros _ Hs. unfold signed in *. rewrite (yl_dir _ _ _ _ _ _ _ Hy), Ho. destruct (direction it); cbn [onward]; lia.
    + subst p'. destruct (leave_next (length L1 + length L2) L1 a d d L2 SS1 ss SS2 n bs it o') as (found & it' & e & L' & Hrun & Hr & Hs); try done.
      exists found, it', e, L'. split; [exact Hrun|]. split; [|tauto].
      replace (_ + ahead _) with (Zlen (concat SS1) + ahead (direction it) * Zlen ss); [done|]. destruct (direction it); cbn [ahead onward] in *; lia.
  - destruct Hit as (Hu & Hk & Hpl & ->). assert (Hg' : good (Some a) (L1 ++ (a, d) :: L2) (SS1 ++ ss :: SS2)) by (destruct Hu as [->| ->]; [by apply (good_any C HC)|done]).
    destruct (decide (0 <= k < Zlen ss)) as [Hin|Hout].
    + destruct (next_enter (S (length L1 + length L2)) L1 a d L2 SS1 ss SS2 n bs it Hok Hg' Hl Hcur Hzi) as (it' & e & L' & Hrun & Ho & Hy).
      { unfold k, node_index in Hin. destruct (Z.ltb_spec (offset it) 0); lia. }
      exists true, it', e, L'. split; [exact Hrun|]. unfold returns. replace (_ - 1 + ahead _) with (Zlen (concat SS1) + node_index ss (offset it)) by (fold k; lia).
      split; [done|]. intros _ Hs. unfold signed in *. by rewrite (yl_dir _ _ _ _ _ _ _ Hy), Ho.
    + assert (Hc : container d = PACKED) by (destruct (container d); [by destruct Hout; apply Hpl|done]).
      destruct (enter_zi L1 a d L2 SS1 ss SS2 n bs it Hok Hg' Hl Hzi) as (d' & Hok' & Hg2 & _ & p & Hnext & Hp); [fold k; destruct (direction it); cbn [ahead] in *; lia|].
      fold k in Hp. rewrite bool_decide_false in Hp by done. rewrite (Hp Hc) in Hnext.
      destruct (leave_next (length L1 + length L2) L1 a d d' L2 SS1 ss SS2 n bs it (offset it)) as (found & it' & e & L' & Hrun & Hr & Hs); try done.
      exists found, it', e, L'. split; [exact Hrun|]. split; [|tauto].
      replace (_ - ahead _) with (Zlen (concat SS1) + ahead (direction it) * Zlen ss); [done|]. destruct (direction it); cbn [ahead] in *; lia.
Qed.

(** ** Deletion during an iteration *)

Lemma without_app {A} (X Y Z' : list A) k : (k < length Y)%nat -> without (length X + k) (X ++ Y ++ Z') = X ++ without k Y ++ Z'.
Proof.
  intros Hk. unfold without. rewrite take_app_add', <- Nat.add_succ_r, drop_app_add' by done. rewrite take_app_le, drop_app_le by lia. by rewrite <- !app_assoc.
Qed.

Lemma delEntry_spec L SS e it i s bs :
  ok L ∅ -> good (e_node e) L SS -> bytes (concat SS) < MAX_BYTES -> entry_at L SS e i s ->
  current it = e_node e /\ zi it = e_zi e /\ offset it = e_offset e -> signed it ->
  exists u it' L' bs' SS', quicklistDelEntry it e (conc L ∅ (Zlen (concat SS)) bs) = Some (it', conc L' ∅ (Zlen (concat SS')) bs') /\
    ok L' ∅ /\ good u L' SS' /\ concat SS' = without (Z.to_nat i) (concat SS) /\ iter_at u L' SS' it' i /\ direction it' = direction it /\ signed it'.
Proof.
  intros Hok Hg Hsz (L1 & a & d & L2 & SS1 & ss & SS2 & k & v & -> & -> & Hl & Hn & _ & _ & _ & _ & Hk & Hki & Ho & ->) (Hcur & Hzi & Hoff) Hsg.
  destruct (good_parts C HC _ _ _ _ _ _ _ _ Hg Hl) as (H1 & Hd & H2). rewrite Hn in Hg. destruct (node_count d ss Hd) as [_ Hbd]. pose proof (bytes_length (concat (SS1 ++ ss :: SS2))) as Hbl.
  assert (Hlen : Zlen (concat (SS1 ++ ss :: SS2)) = Zlen (concat SS1) + Zlen ss + Zlen (concat SS2)) by (rewrite concat_app; cbn [concat]; rewrite !length_app; lia).
  unfold quicklistDelEntry. rewrite Hn. dstep. mstep (get_linked F C _ _ _ _ _ (Zlen (concat (SS1 ++ ss :: SS2))) bs Hok). set (n := Zlen (concat (SS1 ++ ss :: SS2))) in *.
  destruct (delIndex_spec F C HC HF (Some a) L1 a d L2 SS1 ss SS2 n bs k (e_zi e)) as (g & q & L' & bs' & Hrun & Hok' & Hres); try done; [by rewrite (loose_holds d ss Hd)|apply (gd_tidy _ _ _ _ Hg)|apply (gd_busy _ _ _ _ Hg)|by right|lia|].
  mstep Hrun. cbv iota. pose proof Hk as (_ & Hlt & _). pose proof (length_without k ss Hlt) as Hlw.
  assert (Hwo : without (Z.to_nat (Zlen (concat SS1) + Z.of_nat k)) (concat (SS1 ++ ss :: SS2)) = concat SS1 ++ without k ss ++ concat SS2).
  { rewrite concat_app. cbn [concat]. rewrite <- without_app by done. f_equal. lia. }
  destruct g.
  - destruct Hres as (Hone & Hg' & Ha). assert (k = 0%nat) as -> by lia. rewrite fmap_app in Ha. destruct (addr_split L' _ _ Ha) as (L1' & L2' & -> & Ha1 & Ha2).
    assert (Hl1 : length L1' = length SS1) by by rewrite <- (length_fmap fst), Ha1, length_fmap.
    pose proof (gd_contents _ _ _ _ Hg') as Hc'. apply Forall2_app_inv in Hc' as [H1' H2']; [|done].
    exists None, (fresh (direction it) (neighbour (direction it) L1' L2')), (L1' ++ L2'), bs', (SS1 ++ SS2). cbn [next prev].
    split; [|split; [done|split; [done|split; [|split; [|split; [by destruct (direction it)|apply fresh_signed]]]]]].
    + rewrite (first_of_addr L2 L2'), (last_of_addr L1 L1') by done. replace (Zlen (concat (SS1 ++ SS2))) with (n - 1) by (rewrite Hlen, concat_app, length_app; lia). by destruct (direction it).
    + rewrite Hwo, concat_app. destruct ss as [|x [|? ?]]; [cbn in Hlt; lia|done|cbn [length] in Hone; lia].
    + rewrite Z.add_0_r. by apply fresh_gap.
  - destruct Hres as (d' & -> & He & _ & Hc & Hd' & Hdn & Ht' & Hb'). rewrite (holds_dont d ss Hd) in Hdn. rewrite (loose_id d' Hdn) in Hd'.
    assert (Hg' : good (Some a) (L1 ++ (a, d') :: L2) (SS1 ++ without k ss :: SS2)) by (split; [by apply contents_join|done|done]). exists (Some a). eexists {| current := current it |}, _, bs', (SS1 ++ without k ss :: SS2). split; [|split; [done|split; [done|split; [|split; [|done]]]]].
    + replace (Zlen (concat (SS1 ++ without k ss :: SS2))) with (n - 1) by (rewrite Hlen, concat_app; cbn [concat]; rewrite !length_app; lia). done.
    + rewrite Hwo, concat_app. done.
    + unfold iter_at. cbn [current zi offset direction]. rewrite Hcur, Hn. exists L1, d', L2, SS1, (without k ss), SS2. do 3 (split; [done|]). rewrite Hoff.
      unfold signed in Hsg. rewrite Hoff in Hsg. unfold node_index in *. destruct (node_count d' _ Hd') as [_ Hbd']. split; [lia|]. split; [by right|].
      destruct (direction it), (Z.ltb_spec (e_offset e) 0); cbn [ahead]; try lia; (split; [lia|]); (split; [congruence|lia]).
Qed.

(** ** The start and the end of an iteration *)

Lemma getIterator_at dir L SS n bs :
  contents L SS -> let it := quicklistGetIterator (qlof F C L n bs) dir in
  iter_at None L SS it ((1 - ahead dir) * Zlen (concat SS)) /\ direction it = dir /\ signed it.
Proof.
  intros Hc it. assert (Hit : it = fresh dir (match dir with AL_START_HEAD => first_of L None | AL_START_TAIL => last_of None L end)) by by destruct dir.
  rewrite Hit. split; [|split; [by destruct dir|apply fresh_signed]]. destruct dir.
  - apply (fresh_gap AL_START_HEAD [] L [] SS); [by constructor|done].
  - pose proof (fresh_gap AL_START_TAIL L [] SS []) as Hf. rewrite !app_nil_r in Hf. cbn [ahead]. rewrite Z.sub_0_r, Z.mul_1_l. apply Hf; [done|by constructor].
Qed.

Lemma release_iterator_spec u L SS it n bs g :
  ok L ∅ -> good u L SS -> iter_at u L SS it g ->
  exists L', quicklistReleaseIterator (Some it) (conc L ∅ n bs) = Some (tt, conc L' ∅ n bs) /\ ok L' ∅ /\ good None L' SS /\ L'.*1 = L.*1.
Proof.
  intros Hok Hg Hit. unfold quicklistReleaseIterator, iter_at in *. destruct (current it) as [a|].
  - destruct Hit as (L1 & d & L2 & SS1 & ss & SS2 & -> & -> & Hl & _ & Hit). apply (compress_mid F C HC HF); [done|].
    destruct (zi it); [by destruct Hit as [-> _]|]. destruct Hit as [[->| ->] _]; [by apply (good_any C HC)|done].
  - destruct Hit as [-> _]. by exists L.
Qed.

(** The iterator for an index. *)
Lemma iterator_at dir idx L SS bs :
  ok L ∅ -> contents L SS -> Zlen (concat SS) < 2 ^ 62 -> LLONG_MIN < idx <= LLONG_MAX ->
  let n := Zlen (concat SS) in let i := list_index n idx in
  exists r, quicklistGetIteratorAtIdx dir idx (conc L ∅ n bs) = Some (r, conc L ∅ n bs) /\
    match r with
    | None => ~ (0 <= i < n)
    | Some it => 0 <= i < n /\ iter_at None L SS it (i + 1 - ahead dir) /\ direction it = dir /\ (offset it <? 0) = (idx <? 0)
    end.
Proof.
  intros Hok Hc Hn Hidx n i. destruct (iterator_spec F C HC HF dir idx L SS bs Hok Hc Hn Hidx) as [[Hi Hrun]|(Hi & L1 & a & d & L2 & SS1 & ss & SS2 & o & HL & HS & H1 & Hd & H2 & Hrun & Ho & Hsg & Hio)].
  { by exists None. }
  eexists. split; [exact Hrun|]. split; [done|]. split; [|done]. unfold iter_at. cbn [current zi offset direction]. exists L1, d, L2, SS1, ss, SS2.
  split; [done|]. split; [done|]. split; [by eapply Forall2_length|]. assert (Hk : 0 <= node_index ss o < Zlen ss) by (unfold node_index; destruct (Z.ltb_spec o 0); lia).
  split; [lia|]. split; [by left|]. fold n i in Hio. destruct dir; cbn [ahead]; lia.
Qed.

(** [quicklistGetIteratorEntryAtIdx] finds the entry of the index. *)
Lemma entryAtIdx_spec idx L SS bs :
  ok L ∅ -> good None L SS -> Zlen (concat SS) < 2 ^ 62 -> LLONG_MIN < idx <= LLONG_MAX ->
  let n := Zlen (concat SS) in let i := list_index n idx in
  (~ (0 <= i < n) /\ quicklistGetIteratorEntryAtIdx idx (conc L ∅ n bs) = Some (None, conc L ∅ n bs)) \/
  (0 <= i < n /\ exists it e L', quicklistGetIteratorEntryAtIdx idx (conc L ∅ n bs) = Some (Some (it, e), conc L' ∅ n bs) /\ yields L SS AL_START_TAIL i it e L').
Proof.
  intros Hok Hg Hn Hidx n i. unfold quicklistGetIteratorEntryAtIdx.
  destruct (iterator_at AL_START_TAIL idx L SS bs Hok (gd_contents _ _ _ _ Hg) Hn Hidx) as (r & Hrun & Hr). fold n i in Hrun, Hr. mstep Hrun. destruct r as [it|]; [|by left].
  destruct Hr as (Hi & Hit & Hdir & _). right. split; [done|]. destruct (next_spec None L SS it n bs _ Hok Hg Hit) as (found & it' & e & L' & Hnext & Hret & _). mstep Hnext. cbv iota.
  rewrite Hdir in Hret. cbn [ahead] in Hret. rewrite Z.sub_0_r in Hret. destruct found.
  - unfold returns in Hret. cbn [ahead] in Hret. replace (i + 1 - 1 + 0) with i in Hret by lia. dstep. by exists it', e, L'.
  - destruct Hret as [Hret _]. cbn [ahead] in Hret. lia.
Qed.

(** The comparison of an entry with a string. *)
Lemma compare_spec L SS e i s t n bs :
  ok L ∅ -> entry_at L SS e i s ->
  quicklistCompare e t (conc L ∅ n bs) = Some (bool_decide (s = t), conc L ∅ n bs).
Proof.
  intros Hok (L1 & a & d & L2 & SS1 & ss & SS2 & k & v & -> & -> & Hl & Hn & Hv & Hvs & Hpl & Hs & (He & Hk & Hcur) & _).
  unfold quicklistCompare. rewrite Hn. dstep. mstep (get_linked F C _ _ _ _ _ n bs Hok). cbn [data]. unfold QL_NODE_IS_PLAIN. case_bool_decide as Hp.
  - by rewrite Hv, (Hpl Hp).
  - destruct (container d); [done|]. destruct Hcur as (lp & es & Hb & Hlp & -> & Hzi'). mstep (buffer_linked F C _ _ _ _ _ n bs lp Hok Hb). rewrite Hzi'. dstep.
    apply list_lookup_fmap_Some_1 in Hs as (x & -> & Hx). destruct (at_entry _ _ Hlp (take k es) x (drop (S k) es)) as (Hx' & Hat & _ & _); [symmetry; by apply take_drop_middle|].
    unfold lift. by rewrite (lpCompare_spec lp _ x t Hx' Hat).
Qed.

End Iter.
End QlIter.
