(* ===== verification/QuicklistMerge.v ===== *)
(** * Merging nodes of a quicklist

    [_quicklistListpackMerge] joins two neighbours that together are within
    the limits, and [_quicklistMergeNodes] tries this around a node: the list
    of strings stays the same. *)

From stdpp Require Import gmap.
From S2P Require Import Prelude.
From S2P Require Import NumConv.
From S2P Require Import ListpackEnc.
From S2P Require Import Listpack.
From S2P Require Import ListpackOps.
From S2P Require Import ListpackEdit.
From S2P Require Import Quicklist.
From S2P Require Import QuicklistSpec.
From S2P Require Import QuicklistComp.
From S2P Require Import QuicklistNode.
From S2P Require Import QuicklistPush.
From S2P Require Import QuicklistDel.
From S2P Require Import QuicklistSeek.
From S2P Require Import QuicklistRange.
Import NumConv LpEnc Lp LpOps LpEdit Quicklist QlSpec QlComp QlNode QlPush QlDel QlSeek QlRange.

Module QlMerge.

Section Merge.
Context `{Allocator} `{LzfMemory} (F C packed_threshold : Z) (HC : 0 <= C) (HF : -5 <= F <= FILL_MAX).

Abbreviation conc := (conc F C).
Abbreviation tidy := (tidy C).
Abbreviation good := (good C).

#[local] Set Default Proof Using "Type*".

(** ** When two nodes may be merged *)

Lemma packed_size d ss : node_holds d ss -> container d = PACKED -> sz d <= 7 + bytes ss /\ 2 * Zlen ss + 7 <= sz d /\ 0 <= sz d.
Proof.
  intros (v & Hv & Hh) Hc. pose proof (hd_strings _ _ Hh) as Hs. rewrite <- (vw_container _ _ Hv), Hc in Hs. destruct Hs as (es & Hex & ->).
  rewrite (vw_sz _ _ Hv). pose proof (exact_count _ _ Hex). destruct Hex as [_ ->] in H1 |- *. pose proof (pos_bytes es). rewrite length_fmap. lia.
Qed.

Lemma bytes_two SS i j sa sb : SS !! i = Some sa -> SS !! j = Some sb -> i <> j -> bytes sa + bytes sb <= bytes (concat SS).
Proof.
  assert (Hone : forall SS i sa, SS !! i = Some sa -> bytes sa <= bytes (concat SS)).
  { intros T k s Hk. rewrite <- (take_drop_middle T k s Hk), concat_app. cbn [concat]. rewrite !bytes_app.
    pose proof (bytes_length (concat (take k T))). pose proof (bytes_length (concat (drop (S k) T))). lia. }
  revert i j. induction SS as [|s SS IH]; intros i j Hi Hj Hne; [done|]. cbn [concat]. rewrite bytes_app. pose proof (bytes_length s).
  destruct i as [|i], j as [|j]; cbn in Hi, Hj; simplify_eq; [pose proof (Hone SS j sb Hj); lia|pose proof (Hone SS i sa Hi); lia|].
  specialize (IH i j Hi Hj). lia.
Qed.

Lemma allow_merge L SS D n bs i j a da b db sa sb :
  ok L D -> contents L SS -> bytes (concat SS) < MAX_BYTES -> L !! i = Some (a, da) -> L !! j = Some (b, db) -> SS !! i = Some sa -> SS !! j = Some sb -> i <> j ->
  exists r, _quicklistNodeAllowMerge (Some a) (Some b) F (conc L D n bs) = Some (r, conc L D n bs) /\
    (r = true -> container da = PACKED /\ container db = PACKED /\ Zlen sa + Zlen sb < 2 ^ 16).
Proof.
  intros Hok Hc Hsz Hi Hj Hsa Hsb Hne. unfold _quicklistNodeAllowMerge. mstep (get_index F C L D n bs i a da Hok Hi). mstep (get_index F C L D n bs j b db Hok Hj). cbn [data].
  assert (Ha : node_holds da sa) by (eapply Forall2_lookup_l in Hc as (? & Hx & Hh); [|exact Hi]; by simplify_eq).
  assert (Hb : node_holds db sb) by (eapply Forall2_lookup_l in Hc as (? & Hx & Hh); [|exact Hj]; by simplify_eq).
  unfold QL_NODE_IS_PLAIN. destruct (container da) eqn:Hca; [rewrite bool_decide_true by done; by exists false|].
  destruct (container db) eqn:Hcb; [rewrite orb_true_r; by exists false|]. rewrite !bool_decide_false by done. cbn [orb].
  destruct (exceeds_total F HF (u32 (sz da + sz db - 7)) (count da + count db)) as (r & Hr & Hlim). erewrite bind_step by (unfold lift; by rewrite Hr).
  exists (negb r). split; [done|]. intros Hf%negb_true_iff. split; [done|]. split; [done|]. specialize (Hlim Hf).
  pose proof (packed_size _ _ Ha Hca). pose proof (packed_size _ _ Hb Hcb). pose proof (bytes_two SS i j sa sb Hsa Hsb Hne).
  destruct (node_count da sa Ha) as [Hna _], (node_count db sb Hb) as [Hnb _]. rewrite uwrap_small in Hlim by lia. lia.
Qed.

(** ** Decompressing without the flag *)

Lemma good_raw L1 a d d' L2 SS1 ss SS2 :
  good None (L1 ++ (a, d) :: L2) (SS1 ++ ss :: SS2) -> length L1 = length SS1 -> node_holds d' ss -> encoding d' = RAW -> recompress d' = false ->
  good None (L1 ++ (a, d') :: L2) (SS1 ++ ss :: SS2).
Proof.
  intros Hg Hl Hd He Hf. destruct (good_parts C HC _ _ _ _ _ _ _ _ Hg Hl) as (H1 & _ & H2). destruct Hg as [_ [Hdp Hu Hin] Hb].
  assert (Hlk : forall i y, (L1 ++ (a, d') :: L2) !! i = Some y -> y = (a, d') \/ (L1 ++ (a, d) :: L2) !! i = Some y).
  { intros i y Hy. destruct (decide (i = length L1)) as [->|Hne]; [left; rewrite list_lookup_middle in Hy by done; congruence|right].
    rewrite <- (insert_mid L1 (a, d') (a, d) L2). by rewrite list_lookup_insert_ne. }
  assert (Hinn : forall i, inner C (L1 ++ (a, d) :: L2) i -> inner C (L1 ++ (a, d') :: L2) i) by (unfold inner; intros i; by rewrite !length_app).
  split; [by apply contents_join| |].
  - split; intros i y Hy Hz; destruct (Hlk i y Hy) as [->|Hy']; cbn in Hz; try congruence; [by apply Hinn, (Hdp i y)|by apply (Hu i y)|by apply Hinn, (Hin i y)].
  - intros y (i & Hy)%list_elem_of_lookup Hz. destruct (Hlk i y Hy) as [->|Hy']; [cbn in Hz; congruence|]. apply Hb; [by eapply list_elem_of_lookup_2|done].
Qed.

Lemma decompress_mid L1 a d L2 SS1 ss SS2 D n bs :
  ok (L1 ++ (a, d) :: L2) D -> good None (L1 ++ (a, d) :: L2) (SS1 ++ ss :: SS2) -> length L1 = length SS1 ->
  exists d', quicklistDecompressNode (Some a) (conc (L1 ++ (a, d) :: L2) D n bs) = Some (tt, conc (L1 ++ (a, d') :: L2) D n bs) /\
    good None (L1 ++ (a, d') :: L2) (SS1 ++ ss :: SS2) /\ encoding d' = RAW /\ container d' = container d.
Proof.
  intros Hok Hg Hl. destruct (good_parts C HC _ _ _ _ _ _ _ _ Hg Hl) as (H1 & Hd & H2). unfold quicklistDecompressNode. mstep (get_linked F C _ _ _ _ _ n bs Hok). cbn [data].
  case_bool_decide as He.
  - destruct Hd as (v & Hv & Hh). destruct (decompress_node_spec F C _ _ _ _ _ n bs v Hok Hv He) as (d' & Hr & Hv' & Hf & He'). mstep Hr. exists d'. split; [done|].
    split; [apply (good_raw L1 a d); [done|done|by exists v|done|done]|]. split; [done|]. by rewrite (vw_container _ _ Hv), (vw_container _ _ Hv').
  - exists d. split; [done|]. split; [done|]. by destruct (encoding d).
Qed.

(** ** Two neighbours *)

(** The node that is kept: its listpack, length and size. *)
Lemma keep_steps L1 a d L2 D n bs lp es :
  ok (L1 ++ (a, d) :: L2) D -> entry d = Buf lp -> repr lp es ->
  exists lp', repr lp' es /\ ok (L1 ++ (a, with_sz (pos es + 1) (with_count (u16 (Zlen es)) (with_entry (Buf lp') d))) :: L2) D /\
    forall A (k : M A), (lp ← buffer a; '(n, lp) ← lift (lpLength lp); update a (with_entry (Buf lp)) ;; update a (with_count (u16 n)) ;; quicklistNodeUpdateSz a ;; k)
      (conc (L1 ++ (a, d) :: L2) D n bs) =
    k (conc (L1 ++ (a, with_sz (pos es + 1) (with_count (u16 (Zlen es)) (with_entry (Buf lp') d))) :: L2) D n bs).
Proof.
  intros Hok Hb Hlp. destruct (lpLength_spec _ _ Hlp) as (lp' & Hlen & Hlp' & _). exists lp'. split; [done|]. split; [by eapply ok_mid|]. intros A k.
  mstep (buffer_linked F C _ _ _ _ _ n bs lp Hok Hb). rewrite Hlen. dstep. mstep (update_linked F C L1 a d L2 D n bs (with_entry (Buf lp')) Hok).
  pose proof (ok_mid _ a _ (with_entry (Buf lp') d) _ _ Hok) as Hok1. mstep (update_linked F C L1 a _ L2 D n bs (with_count (u16 (Zlen es))) Hok1).
  pose proof (ok_mid _ a _ (with_count (u16 (Zlen es)) (with_entry (Buf lp') d)) _ _ Hok) as Hok2. by mstep (updateSz_linked F C HC L1 a _ L2 D n bs lp' es Hok2 eq_refl Hlp').
Qed.

(** The kept node holds the strings of both. *)
Lemma kept_holds d ss lp es :
  node_holds d ss -> encoding d = RAW -> container d = PACKED -> repr lp es -> 0 < Zlen es < 2 ^ 16 ->
  forall e, node_holds (with_sz (pos es + 1) (with_count (u16 (Zlen es)) (with_entry (Buf lp) (with_entry e d)))) (elem_string <$> es).
Proof.
  intros (v & Hv & Hh) He Hc Hlp Hl e. rewrite uwrap_small by lia.
  change (with_sz _ _) with (relisted lp (pos es + 1) (Zlen es) d). eapply relisted_holds; try done; [apply (hd_dont _ _ Hh)|by rewrite length_fmap..].
Qed.

Lemma merge_tail_first L1 a da b db L2 SS1 ss SS2 n bs :
  ok (L1 ++ (a, da) :: (b, db) :: L2) ∅ -> contents L1 SS1 -> node_holds da ss -> contents L2 SS2 ->
  tidy (L1 ++ (a, da) :: (b, db) :: L2) -> busy None (L1 ++ (a, da) :: (b, db) :: L2) -> 0 <= n < 2 ^ 64 ->
  exists L' bs', (update b (with_count 0) ;; __quicklistDelNode b ;; quicklistCompress a ;; mret (Some a)) (conc (L1 ++ (a, da) :: (b, db) :: L2) ∅ n bs) = Some (Some a, conc L' ∅ n bs') /\
    ok L' ∅ /\ good None L' (SS1 ++ ss :: SS2) /\ L'.*1 = L1.*1 ++ a :: L2.*1.
Proof.
  intros Hok H1 Ha H2 Ht Hb Hn. assert (HL : forall x, L1 ++ (a, da) :: (b, x) :: L2 = (L1 ++ [(a, da)]) ++ (b, x) :: L2) by by intros; rewrite <- app_assoc.
  rewrite HL in *. mstep (update_linked F C (L1 ++ [(a, da)]) b db L2 ∅ n bs (with_count 0) Hok). pose proof (ok_mid _ b _ (with_count 0 db) _ _ Hok) as Hok1.
  destruct (drop_node F C HC HF (L1 ++ [(a, da)]) b (with_count 0 db) L2 (SS1 ++ [ss]) SS2 n bs) as (L' & bs' & Hrun & Hok' & Hg & Hadr); try done.
  { apply contents_app; [done|]. by repeat constructor. } { by apply (tidy_mid C HC _ b db). } { apply busy_any. by apply (busy_mid _ _ b db). }
  mstep Hrun. cbn [count with_count]. rewrite Z.sub_0_r, uwrap_small by lia. rewrite <- !app_assoc in *. cbn [app] in *.
  destruct (addr_mid L1 L2 L' a da Hadr) as (L1' & d' & L2' & -> & Ha1 & Ha2 & _). destruct (compress_mid F C HC HF L1' a d' L2' (SS1 ++ ss :: SS2) ∅ n bs' Hok') as (L3 & Hr3 & Hok3 & Hg3 & Ha3).
  { by apply (good_any C HC). }
  mstep Hr3. exists L3, bs'. split; [done|]. split; [done|]. split; [done|]. by rewrite Ha3, Hadr, fmap_app, fmap_cons.
Qed.

Lemma merge_tail_second L1 a da b db L2 SS1 ss SS2 n bs :
  ok (L1 ++ (a, da) :: (b, db) :: L2) ∅ -> contents L1 SS1 -> node_holds db ss -> contents L2 SS2 ->
  tidy (L1 ++ (a, da) :: (b, db) :: L2) -> busy None (L1 ++ (a, da) :: (b, db) :: L2) -> 0 <= n < 2 ^ 64 ->
  exists L' bs', (update a (with_count 0) ;; __quicklistDelNode a ;; quicklistCompress b ;; mret (Some b)) (conc (L1 ++ (a, da) :: (b, db) :: L2) ∅ n bs) = Some (Some b, conc L' ∅ n bs') /\
    ok L' ∅ /\ good None L' (SS1 ++ ss :: SS2) /\ L'.*1 = L1.*1 ++ b :: L2.*1.
Proof.
  intros Hok H1 Hb2 H2 Ht Hb Hn. mstep (update_linked F C L1 a da ((b, db) :: L2) ∅ n bs (with_count 0) Hok). pose proof (ok_mid _ a _ (with_count 0 da) _ _ Hok) as Hok1.
  destruct (drop_node F C HC HF L1 a (with_count 0 da) ((b, db) :: L2) SS1 (ss :: SS2) n bs) as (L' & bs' & Hrun & Hok' & Hg & Hadr); try done.
  { by constructor. } { by apply (tidy_mid C HC _ a da). } { apply busy_any. by apply (busy_mid _ _ a da). }
  mstep Hrun. cbn [count with_count]. rewrite Z.sub_0_r, uwrap_small by lia.
  destruct (addr_mid L1 L2 L' b db Hadr) as (L1' & d' & L2' & -> & Ha1 & Ha2 & _). destruct (compress_mid F C HC HF L1' b d' L2' (SS1 ++ ss :: SS2) ∅ n bs' Hok') as (L3 & Hr3 & Hok3 & Hg3 & Ha3).
  { by apply (good_any C HC). }
  mstep Hr3. exists L3, bs'. split; [done|]. split; [done|]. split; [done|]. by rewrite Ha3, Hadr, fmap_app, fmap_cons.
Qed.

Lemma tidy_busy_mid L1 a d d' L2 : tidy (L1 ++ (a, d) :: L2) /\ busy None (L1 ++ (a, d) :: L2) -> encoding d' = encoding d -> recompress d' = recompress d ->
  tidy (L1 ++ (a, d') :: L2) /\ busy None (L1 ++ (a, d') :: L2).
Proof. intros [Ht Hb] He Hf. split; [by apply (tidy_mid C HC L1 a d)|by apply (busy_mid _ L1 a d)]. Qed.

Lemma merge_spec L1 a da b db L2 SS1 sa sb SS2 n bs :
  ok (L1 ++ (a, da) :: (b, db) :: L2) ∅ -> good None (L1 ++ (a, da) :: (b, db) :: L2) (SS1 ++ sa :: sb :: SS2) -> length L1 = length SS1 ->
  container da = PACKED -> container db = PACKED -> Zlen sa + Zlen sb < 2 ^ 16 -> bytes (sa ++ sb) < MAX_BYTES -> 0 <= n < 2 ^ 64 ->
  exists keep L' bs', _quicklistListpackMerge a b (conc (L1 ++ (a, da) :: (b, db) :: L2) ∅ n bs) = Some (Some keep, conc L' ∅ n bs') /\
    ok L' ∅ /\ good None L' (SS1 ++ (sa ++ sb) :: SS2) /\ L'.*1 = L1.*1 ++ keep :: L2.*1 /\ (keep = a \/ keep = b).
Proof.
  intros Hok0 Hg0 Hl Hca Hcb Hcnt Hby Hn. unfold _quicklistListpackMerge. assert (HL : forall x y, L1 ++ (a, x) :: (b, y) :: L2 = (L1 ++ [(a, x)]) ++ (b, y) :: L2) by by intros; rewrite <- app_assoc.
  assert (HS : SS1 ++ sa :: sb :: SS2 = (SS1 ++ [sa]) ++ sb :: SS2) by by rewrite <- app_assoc. assert (Hl' : forall x, length (L1 ++ [(a, x)]) = length (SS1 ++ [sa])) by (intros; rewrite !length_app; cbn; lia).
  destruct (decompress_mid L1 a da ((b, db) :: L2) SS1 sa (sb :: SS2) ∅ n bs Hok0 Hg0 Hl) as (da' & Hra & Hga & Hea & Hca'). mstep Hra.
  pose proof (ok_mid _ a _ da' _ _ Hok0) as Hoka. rewrite HL, HS in Hga. rewrite HL in Hoka. rewrite HL.
  destruct (decompress_mid _ b db L2 _ sb SS2 ∅ n bs Hoka Hga (Hl' da')) as (db' & Hrb & Hg & Heb & Hcb'). mstep Hrb. pose proof (ok_mid _ b _ db' _ _ Hoka) as Hok.
  rewrite <- HL, <- HS in *. rewrite Hca in Hca'. rewrite Hcb in Hcb'. destruct (good_parts C HC _ _ _ _ _ _ _ _ Hg Hl) as (H1 & Hna & H2). apply Forall2_cons_1 in H2 as [Hnb H2].
  destruct (packed_elems da' sa Hna Hca' Hea) as (va & ea & la & _ & _ & Hba & Hla & ->). destruct (packed_elems db' sb Hnb Hcb' Heb) as (vb & eb & lb & _ & _ & Hbb & Hlb & ->).
  mstep (buffer_linked F C _ _ _ _ _ n bs la Hok Hba). rewrite HL in Hok |- *. mstep (buffer_linked F C _ _ _ _ _ n bs lb Hok Hbb). rewrite <- HL in Hok |- *.
  assert (Hne : a <> b). { intros ->. pose proof (ok_nodup _ _ Hok) as Hnd. apply nodup_mid in Hnd as (_ & Hnd & _). cbn in Hnd. set_solver. }
  rewrite bool_decide_false by done. rewrite <- fmap_app in Hby |- *. pose proof (pos_bytes (ea ++ eb)). rewrite !length_fmap in Hcnt.
  destruct (lpMerge_spec la ea lb eb Hla Hlb) as (lp & Hm & Hlp); [lia|]. rewrite Hm. dstep. pose proof (gd_tidy _ _ _ _ Hg) as Ht. pose proof (gd_busy _ _ _ _ Hg) as Hbz.
  destruct (node_count da' _ Hna) as [_ Hba']. rewrite length_fmap in Hba'. assert (Hlen : 0 < Zlen (ea ++ eb) < 2 ^ 16) by (rewrite length_app; lia).
  destruct (pos eb <=? pos ea); cbn [pointer].
  - mstep (update_linked F C L1 a da' ((b, db') :: L2) ∅ n bs (with_entry (Buf lp)) Hok). pose proof (ok_mid _ a _ (with_entry (Buf lp) da') _ _ Hok) as Hok1. rewrite HL in Hok1 |- *.
    mstep (update_linked F C _ b db' L2 ∅ n bs (with_entry Null) Hok1). pose proof (ok_mid _ b _ (with_entry Null db') _ _ Hok1) as Hok2. rewrite <- HL in Hok2 |- *. dstep.
    destruct (keep_steps L1 a (with_entry (Buf lp) da') ((b, with_entry Null db') :: L2) ∅ n bs lp (ea ++ eb)) as (lp' & Hlp' & Hok3 & Hks); [done|done|done|]. rewrite Hks.
    destruct (tidy_busy_mid L1 a da' (with_sz (pos (ea ++ eb) + 1) (with_count (u16 (Zlen (ea ++ eb))) (with_entry (Buf lp') (with_entry (Buf lp) da')))) ((b, db') :: L2)) as [Ht1 Hb1]; [done..|].
    rewrite HL in Ht1, Hb1. destruct (tidy_busy_mid _ b db' (with_entry Null db') L2 (conj Ht1 Hb1)) as [Ht2 Hb2]; [done..|]. rewrite <- HL in Ht2, Hb2.
    edestruct (merge_tail_first L1 a) as (L' & bs' & Hrun & Hok' & Hg' & Ha'); [exact Hok3|exact H1|by eapply kept_holds|exact H2|done|done|done|]. exists a, L', bs'. split; [done|]. split; [done|]. split; [done|]. split; [done|by left].
  - mstep (update_linked F C L1 a da' ((b, db') :: L2) ∅ n bs (with_entry Null) Hok). pose proof (ok_mid _ a _ (with_entry Null da') _ _ Hok) as Hok1. rewrite HL in Hok1 |- *.
    mstep (update_linked F C _ b db' L2 ∅ n bs (with_entry (Buf lp)) Hok1). pose proof (ok_mid _ b _ (with_entry (Buf lp) db') _ _ Hok1) as Hok2. dstep.
    destruct (keep_steps (L1 ++ [(a, with_entry Null da')]) b (with_entry (Buf lp) db') L2 ∅ n bs lp (ea ++ eb)) as (lp' & Hlp' & Hok3 & Hks); [done|done|done|]. rewrite Hks. rewrite <- HL in Hok3 |- *.
    destruct (tidy_busy_mid L1 a da' (with_entry Null da') ((b, db') :: L2)) as [Ht1 Hb1]; [done..|]. rewrite HL in Ht1, Hb1.
    destruct (tidy_busy_mid _ b db' (with_sz (pos (ea ++ eb) + 1) (with_count (u16 (Zlen (ea ++ eb))) (with_entry (Buf lp') (with_entry (Buf lp) db')))) L2 (conj Ht1 Hb1)) as [Ht2 Hb2]; [done..|].
    rewrite <- HL in Ht2, Hb2. edestruct (merge_tail_second L1 a) as (L' & bs' & Hrun & Hok' & Hg' & Ha'); [exact Hok3|exact H1|by eapply kept_holds|exact H2|done|done|done|].
    exists b, L', bs'. split; [done|]. split; [done|]. split; [done|]. split; [done|by right].
Qed.

(** ** Around a node *)

(** The nodes stand for the strings [xs]. *)
Definition stands (L : nlist) (xs : list sds) : Prop := ok L ∅ /\ exists SS, good None L SS /\ concat SS = xs.

(** A pair of neighbours, asked for in either order. *)
Lemma try_pair (swap : bool) L1 a da b db L2 xs n bs :
  stands (L1 ++ (a, da) :: (b, db) :: L2) xs -> bytes xs < MAX_BYTES -> 0 <= n < 2 ^ 64 ->
  exists r, _quicklistNodeAllowMerge (Some (if swap then b else a)) (Some (if swap then a else b)) F (conc (L1 ++ (a, da) :: (b, db) :: L2) ∅ n bs) =
      Some (r, conc (L1 ++ (a, da) :: (b, db) :: L2) ∅ n bs) /\
    (r = true -> exists keep L' bs', _quicklistListpackMerge a b (conc (L1 ++ (a, da) :: (b, db) :: L2) ∅ n bs) = Some (Some keep, conc L' ∅ n bs') /\
      stands L' xs /\ L'.*1 = L1.*1 ++ keep :: L2.*1).
Proof.
  intros (Hok & SS & Hg & <-) Hsz Hn. pose proof (gd_contents _ _ _ _ Hg) as Hc. destruct (contents_mid _ _ _ _ _ Hc) as (SS1 & sa & SS2' & -> & H1 & Ha & H2).
  apply Forall2_cons_inv_l in H2 as (sb & SS2 & Hb & H2 & ->). assert (Hl : length L1 = length SS1) by by eapply Forall2_length.
  assert (Hby : bytes (sa ++ sb) < MAX_BYTES).
  { rewrite concat_app in Hsz. cbn [concat] in Hsz. rewrite !bytes_app in Hsz. rewrite bytes_app. pose proof (bytes_length (concat SS1)). pose proof (bytes_length (concat SS2)). lia. }
  assert (Hallow : exists r, _quicklistNodeAllowMerge (Some (if swap then b else a)) (Some (if swap then a else b)) F (conc (L1 ++ (a, da) :: (b, db) :: L2) ∅ n bs) =
      Some (r, conc (L1 ++ (a, da) :: (b, db) :: L2) ∅ n bs) /\ (r = true -> container da = PACKED /\ container db = PACKED /\ Zlen sa + Zlen sb < 2 ^ 16)).
  { assert (Hk : forall A (X : list A) x y Y, (X ++ x :: y :: Y) !! length X = Some x /\ (X ++ x :: y :: Y) !! S (length X) = Some y).
    { intros A X x y Y. rewrite list_lookup_middle, lookup_app_r by lia. by replace (S (length X) - length X)%nat with 1%nat by lia. }
    destruct (Hk _ L1 (a, da) (b, db) L2) as [Hi Hj]. destruct (Hk _ SS1 sa sb SS2) as [Hsi Hsj]. rewrite <- Hl in Hsi, Hsj. destruct swap.
    - destruct (allow_merge _ _ ∅ n bs _ _ b db a da sb sa Hok Hc Hsz Hj Hi Hsj Hsi) as (r & Hr & Hp); [lia|]. exists r. split; [done|]. intros Ht. destruct (Hp Ht) as (? & ? & ?). split; [done|split; [done|lia]].
    - apply (allow_merge _ _ ∅ n bs _ _ a da b db sa sb Hok Hc Hsz Hi Hj Hsi Hsj). lia. }
  destruct Hallow as (r & Hr & Hp). exists r. split; [done|]. intros Ht. destruct (Hp Ht) as (Hca & Hcb & Hcnt).
  destruct (merge_spec L1 a da b db L2 SS1 sa sb SS2 n bs) as (keep & L' & bs' & Hrun & Hok' & Hg' & Ha' & _); try done. exists keep, L', bs'. split; [done|]. split; [|done].
  split; [done|]. eexists. split; [exact Hg'|]. rewrite !concat_app. cbn [concat]. by rewrite <- app_assoc.
Qed.

(** Pointers to the neighbours of a node, and their neighbours. *)
Definition before (P : nlist) : option addr := match rev P with _ :: Q => last_of None (rev Q) | [] => None end.
Definition behind (N : nlist) : option addr := match N with _ :: N => first_of N None | [] => None end.

Lemma prev_node P c dc N D n bs : ok (P ++ (c, dc) :: N) D -> prev_of (Some c) (conc (P ++ (c, dc) :: N) D n bs) = Some (last_of None P, conc (P ++ (c, dc) :: N) D n bs).
Proof. intros Hok. unfold prev_of. by mstep (get_linked F C _ _ _ _ _ n bs Hok). Qed.

Lemma next_node P c dc N D n bs : ok (P ++ (c, dc) :: N) D -> next_of (Some c) (conc (P ++ (c, dc) :: N) D n bs) = Some (first_of N None, conc (P ++ (c, dc) :: N) D n bs).
Proof. intros Hok. unfold next_of. by mstep (get_linked F C _ _ _ _ _ n bs Hok). Qed.

Lemma before_node P x N D n bs : ok (P ++ x :: N) D -> prev_of (last_of None P) (conc (P ++ x :: N) D n bs) = Some (before P, conc (P ++ x :: N) D n bs).
Proof.
  intros Hok. unfold before. destruct P as [|[p dp] P _] using rev_ind; [done|]. rewrite last_of_snoc, rev_app_distr. cbn [rev app]. rewrite rev_involutive.
  rewrite <- app_assoc in *. cbn [app] in *. by apply prev_node.
Qed.

Lemma behind_node P x N D n bs : ok (P ++ x :: N) D -> next_of (first_of N None) (conc (P ++ x :: N) D n bs) = Some (behind N, conc (P ++ x :: N) D n bs).
Proof.
  intros Hok. destruct N as [|[y dy] N]; [done|]. cbn [first_of behind]. change (x :: ?z) with ([x] ++ z) in *. rewrite app_assoc in *. by apply next_node.
Qed.

Lemma behind_addr (N N' : nlist) : N'.*1 = N.*1 -> behind N = behind N'.
Proof. destruct N as [|[a d] N], N' as [|[b e] N']; intros [=]; [done|]. by apply first_of_addr. Qed.

Lemma addr_parts (L : nlist) A c B : L.*1 = A ++ c :: B -> exists P d N, L = P ++ (c, d) :: N /\ P.*1 = A /\ N.*1 = B.
Proof.
  intros HL. destruct (addr_split L A (c :: B) HL) as (P & [|[c' d] N] & -> & HP & HN); [done|]. cbn in HN. injection HN as -> HN. by exists P, d, N.
Qed.

(** The two nodes before a node. *)
Lemma merge_before P c dc N xs n bs :
  stands (P ++ (c, dc) :: N) xs -> bytes xs < MAX_BYTES -> 0 <= n < 2 ^ 64 ->
  exists P' dc' N' bs', stands (P' ++ (c, dc') :: N') xs /\ N'.*1 = N.*1 /\
    forall A (k : M A), (allow ← _quicklistNodeAllowMerge (last_of None P) (before P) F;
      (if (allow : bool) then a ← deref (before P); b ← deref (last_of None P); _quicklistListpackMerge a b ;; mret tt else mret tt) ;; k)
      (conc (P ++ (c, dc) :: N) ∅ n bs) = k (conc (P' ++ (c, dc') :: N') ∅ n bs').
Proof.
  intros Hst Hsz Hn. assert (Hno : before P = None \/ exists P1 a da b db, P = P1 ++ [(a, da); (b, db)]).
  { unfold before. destruct P as [|[b db] P _] using rev_ind; [by left|]. rewrite rev_app_distr. cbn [rev app]. rewrite rev_involutive.
    destruct P as [|[a da] P1 _] using rev_ind; [by left|]. right. exists P1, a, da, b, db. by rewrite <- app_assoc. }
  destruct Hno as [Hno|(P1 & a & da & b & db & ->)].
  - exists P, dc, N, bs. split; [done|]. split; [done|]. intros A k. rewrite Hno. unfold _quicklistNodeAllowMerge. by destruct (last_of None P).
  - assert (Hbf : before (P1 ++ [(a, da); (b, db)]) = Some a) by (unfold before; rewrite rev_app_distr; cbn [rev app]; by rewrite rev_involutive, last_of_snoc).
    assert (Hla : last_of None (P1 ++ [(a, da); (b, db)]) = Some b) by by rewrite last_of_app. rewrite Hbf, Hla. rewrite <- app_assoc in Hst |- *. cbn [app] in *.
    destruct (try_pair true P1 a da b db ((c, dc) :: N) xs n bs Hst Hsz Hn) as (r & Hr & Hm). destruct r.
    + destruct (Hm eq_refl) as (keep & L' & bs' & Hrun & Hst' & Ha'). change (keep :: ?x) with ([keep] ++ x) in Ha'. rewrite app_assoc in Ha'.
      destruct (addr_parts L' _ c N.*1 Ha') as (P' & dc' & N' & -> & _ & HN). exists P', dc', N', bs'. split; [done|]. split; [done|]. intros A k. mstep Hr. do 2 dstep. by mstep Hrun.
    + exists (P1 ++ [(a, da); (b, db)]), dc, N, bs. rewrite <- app_assoc. split; [done|]. split; [done|]. intros A k. by mstep Hr.
Qed.

(** The two nodes after a node. *)
Lemma merge_behind P c dc N xs n bs x y :
  stands (P ++ (c, dc) :: N) xs -> bytes xs < MAX_BYTES -> 0 <= n < 2 ^ 64 -> x = first_of N None -> y = behind N ->
  exists P' dc' N' bs', stands (P' ++ (c, dc') :: N') xs /\
    forall A (k : M A), (allow ← _quicklistNodeAllowMerge x y F;
      (if (allow : bool) then a ← deref x; b ← deref y; _quicklistListpackMerge a b ;; mret tt else mret tt) ;; k)
      (conc (P ++ (c, dc) :: N) ∅ n bs) = k (conc (P' ++ (c, dc') :: N') ∅ n bs').
Proof.
  intros Hst Hsz Hn -> ->. destruct N as [|[a da] [|[b db] N1]]; cbn [first_of behind]; [exists P, dc, [], bs; split; [done|]; by intros|exists P, dc, [(a, da)], bs; split; [done|]; by intros|].
  change (P ++ (c, dc) :: ?x) with (P ++ [(c, dc)] ++ x) in *. rewrite app_assoc in *.
  destruct (try_pair false _ a da b db N1 xs n bs Hst Hsz Hn) as (r & Hr & Hm). destruct r.
  - destruct (Hm eq_refl) as (keep & L' & bs' & Hrun & Hst' & Ha'). rewrite fmap_app, <- app_assoc in Ha'. cbn in Ha'.
    destruct (addr_parts L' _ c _ Ha') as (P' & dc' & N' & -> & _ & HN). exists P', dc', N', bs'. split; [done|]. intros A k. mstep Hr. do 2 dstep. by mstep Hrun.
  - exists P, dc, ((a, da) :: (b, db) :: N1), bs. rewrite <- app_assoc in *. split; [done|]. intros A k. by mstep Hr.
Qed.

(** A node and the one before it. *)
Lemma merge_center P c dc N xs n bs :
  stands (P ++ (c, dc) :: N) xs -> bytes xs < MAX_BYTES -> 0 <= n < 2 ^ 64 ->
  exists t P' dt N' bs', stands (P' ++ (t, dt) :: N') xs /\
    forall A (k : option addr -> M A), (allow ← _quicklistNodeAllowMerge (Some c) (last_of None P) F;
      target ← (if (allow : bool) then a ← deref (last_of None P); _quicklistListpackMerge a c else mret (Some c)); k target)
      (conc (P ++ (c, dc) :: N) ∅ n bs) = k (Some t) (conc (P' ++ (t, dt) :: N') ∅ n bs').
Proof.
  intros Hst Hsz Hn. destruct P as [|[a da] P1 _] using rev_ind; [exists c, [], dc, N, bs; split; [done|]; by intros|]. rewrite last_of_snoc, <- app_assoc in *. cbn [app] in *.
  destruct (try_pair true P1 a da c dc N xs n bs Hst Hsz Hn) as (r & Hr & Hm). destruct r.
  - destruct (Hm eq_refl) as (keep & L' & bs' & Hrun & Hst' & Ha'). destruct (addr_parts L' _ keep _ Ha') as (P' & dc' & N' & -> & _ & HN).
    exists keep, P', dc', N', bs'. split; [done|]. intros A k. mstep Hr. dstep. by mstep Hrun.
  - exists c, (P1 ++ [(a, da)]), dc, N, bs. rewrite <- app_assoc. split; [done|]. intros A k. by mstep Hr.
Qed.

Lemma mergeNodes_spec P c dc N xs n bs :
  stands (P ++ (c, dc) :: N) xs -> bytes xs < MAX_BYTES -> 0 <= n < 2 ^ 64 ->
  exists L' bs', _quicklistMergeNodes c (conc (P ++ (c, dc) :: N) ∅ n bs) = Some (tt, conc L' ∅ n bs') /\ stands L' xs.
Proof.
  intros Hst Hsz Hn. unfold _quicklistMergeNodes. dstep. cbn [conc ql qlof fill]. pose proof (proj1 Hst) as Hok.
  mstep (prev_node P c dc N ∅ n bs Hok). mstep (before_node P (c, dc) N ∅ n bs Hok). mstep (next_node P c dc N ∅ n bs Hok). mstep (behind_node P (c, dc) N ∅ n bs Hok).
  destruct (merge_before P c dc N xs n bs Hst Hsz Hn) as (P1 & d1 & N1 & bs1 & Hst1 & HN1 & Hk1). rewrite Hk1.
  destruct (merge_behind P1 c d1 N1 xs n bs1 (first_of N None) (behind N) Hst1 Hsz Hn) as (P2 & d2 & N2 & bs2 & Hst2 & Hk2); [by apply first_of_addr|by apply behind_addr|]. rewrite Hk2.
  mstep (prev_node P2 c d2 N2 ∅ n bs2 (proj1 Hst2)).
  destruct (merge_center P2 c d2 N2 xs n bs2 Hst2 Hsz Hn) as (t & P3 & dt & N3 & bs3 & Hst3 & Hk3). rewrite Hk3. dstep. mstep (next_node P3 t dt N3 ∅ n bs3 (proj1 Hst3)).
  destruct N3 as [|[b db] N3]; [by exists (P3 ++ [(t, dt)]), bs3|]. cbn [first_of]. destruct (try_pair false P3 t dt b db N3 xs n bs3 Hst3 Hsz Hn) as (r & Hr & Hm). mstep Hr. destruct r.
  - destruct (Hm eq_refl) as (keep & L' & bs' & Hrun & Hst' & _). dstep. mstep Hrun. by exists L', bs'.
  - by eexists _, bs3.
Qed.

End Merge.
End QlMerge.
