(* ===== verification/QuicklistSplit.v ===== *)
(** * Splitting a node of a quicklist

    [_quicklistSplitNode] leaves one part of the listpack of a node in it and
    moves the other into a new node, which is not yet linked. *)

From stdpp Require Import gmap.
From S2P Require Import Prelude.
From S2P Require Import NumConv.
From S2P Require Import ListpackEnc.
From S2P Require Import Listpack.
From S2P Require Import ListpackOps.
From S2P Require Import ListpackEdit.
From S2P Require Import Quicklist.
From S2P Require Import QuicklistSpec.
From S2P Require Import QuicklistComp.
From S2P Require Import QuicklistNode.
From S2P Require Import QuicklistPush.
From S2P Require Import QuicklistDel.
From S2P Require Import QuicklistSeek.
From S2P Require Import QuicklistRange.
Import NumConv LpEnc Lp LpOps LpEdit Quicklist QlSpec QlComp QlNode QlPush QlDel QlSeek QlRange.

Module QlSplit.

Section Split.
Context `{Allocator} `{LzfMemory} (F C packed_threshold : Z) (HC : 0 <= C) (HF : -5 <= F <= FILL_MAX).

Abbreviation conc := (conc F C).
Abbreviation tidy := (tidy C).
Abbreviation good := (good C).

#[local] Set Default Proof Using "Type*".

(** A node whose fields describe its listpack. *)
Lemma described_holds d lp es :
  encoding d = RAW -> container d = PACKED -> dont_compress d = false -> entry d = Buf lp -> sz d = pos es + 1 -> count d = Zlen es -> repr lp es -> 0 < Zlen es < 2 ^ 16 ->
  node_holds d (elem_string <$> es).
Proof.
  intros He Hc Hdn Hb Hs Hcnt Hlp Hl. destruct (exact_split _ _ Hlp) as (raw & slack & -> & Hex & Hby). exists {| v_raw := raw; v_count := Zlen es; v_container := PACKED; v_dont := false |}.
  destruct Hex as [Hr Hlen]. pose proof Hr as (_ & Hlt & _). split.
  - split; try done; cbn [v_raw]; [congruence| |lia]. unfold stored. rewrite He, Hb. by exists slack.
  - split; cbn; [by rewrite length_fmap|by rewrite length_fmap|done|]. by exists es.
Qed.

Lemma buffer_other L D n bs a nd b : ok L D -> D !! a = Some (alone nd) -> entry nd = Buf b -> buffer a (conc L D n bs) = Some (b, conc L D n bs).
Proof. intros Hok Ha Hb. unfold buffer. mstep (get_other F C L D n bs a _ Hok Ha). cbn [alone data]. by rewrite Hb. Qed.

(** ** Trimming a listpack *)

(** The part that [lpDeleteRange] leaves: an extent of -1 is the rest of the
    listpack. *)
Definition kept (start extent : Z) {A} (es : list A) : list A :=
  if extent =? -1 then take (Z.to_nat start) es else take (Z.to_nat start) es ++ drop (Z.to_nat (start + extent)) es.

Lemma kept_fmap {A B} start extent (f : A -> B) es : f <$> kept start extent es = kept start extent (f <$> es).
Proof. unfold kept. destruct (extent =? -1); by rewrite ?fmap_app, ?fmap_take, ?fmap_drop. Qed.

Lemma trim_listpack lp es start extent : repr lp es -> 0 <= start < Zlen es -> extent = -1 \/ 0 < extent < 2 ^ 16 ->
  exists lp', lpDeleteRange lp start (u64 extent) = Some lp' /\ repr lp' (kept start extent es).
Proof.
  intros Hlp Hst Hex. assert (Hu : 0 < u64 extent) by (destruct Hex as [->|Hex]; [done|rewrite uwrap_small; lia]). pose proof (length_bound _ _ Hlp).
  destruct (lpDeleteRange_spec lp es start (u64 extent) Hlp) as (lp' & Hd & Hr); [lia|lia|]. exists lp'. split; [done|].
  replace (kept start extent es) with (delete_range (abs_index es start) (u64 extent) es); [done|]. unfold delete_range, abs_index, kept.
  rewrite (proj2 (Z.ltb_ge start 0)), (proj2 (Z.ltb_ge start 0)), (proj2 (Z.eqb_neq _ 0)), (proj2 (Z.leb_gt _ start)) by lia. cbn [orb]. destruct Hex as [->|Hex].
  - change (u64 (-1)) with (2 ^ 64 - 1). cbn [Z.eqb]. rewrite drop_ge, app_nil_r by lia. done.
  - rewrite (proj2 (Z.eqb_neq extent _)), uwrap_small by lia. done.
Qed.

Definition trimmed (lp : list Z) (es : list elem) (d : nodeData) : nodeData := with_sz (pos es + 1) (with_count (u16 (Zlen es)) (with_entry (Buf lp) d)).

Lemma trim_linked L1 a d L2 D n bs lp es start extent :
  ok (L1 ++ (a, d) :: L2) D -> entry d = Buf lp -> repr lp es -> 0 <= start < Zlen es -> extent = -1 \/ 0 < extent < 2 ^ 16 ->
  exists lp', repr lp' (kept start extent es) /\ ok (L1 ++ (a, trimmed lp' (kept start extent es) d) :: L2) D /\
    trim_node a start extent (conc (L1 ++ (a, d) :: L2) D n bs) = Some (tt, conc (L1 ++ (a, trimmed lp' (kept start extent es) d) :: L2) D n bs).
Proof.
  intros Hok Hb Hlp Hst Hex. destruct (trim_listpack lp es start extent Hlp Hst Hex) as (lp1 & Hd & Hlp1). destruct (lpLength_spec _ _ Hlp1) as (lp' & Hlen & Hlp' & _).
  exists lp'. split; [done|]. split; [by eapply ok_mid|]. unfold trim_node. mstep (buffer_linked F C _ _ _ _ _ n bs lp Hok Hb). rewrite Hd. dstep. rewrite Hlen. dstep.
  mstep (update_linked F C L1 a d L2 D n bs (with_entry (Buf lp')) Hok). pose proof (ok_mid _ a _ (with_entry (Buf lp') d) _ _ Hok) as Hok1.
  mstep (update_linked F C L1 a _ L2 D n bs (with_count (u16 (Zlen (kept start extent es)))) Hok1).
  pose proof (ok_mid _ a _ (with_count (u16 (Zlen (kept start extent es))) (with_entry (Buf lp') d)) _ _ Hok) as Hok2. by rewrite (updateSz_linked F C HC L1 a _ L2 D n bs lp' _ Hok2 eq_refl Hlp').
Qed.

Lemma trim_other L D n bs a nd lp es start extent :
  ok L D -> D !! a = Some (alone nd) -> entry nd = Buf lp -> repr lp es -> 0 <= start < Zlen es -> extent = -1 \/ 0 < extent < 2 ^ 16 ->
  exists lp', repr lp' (kept start extent es) /\ ok L (<[a := alone (trimmed lp' (kept start extent es) nd)]> D) /\
    trim_node a start extent (conc L D n bs) = Some (tt, conc L (<[a := alone (trimmed lp' (kept start extent es) nd)]> D) n bs).
Proof.
  intros Hok Ha Hb Hlp Hst Hex. destruct (trim_listpack lp es start extent Hlp Hst Hex) as (lp1 & Hd & Hlp1). destruct (lpLength_spec _ _ Hlp1) as (lp' & Hlen & Hlp' & _).
  exists lp'. split; [done|]. unfold trim_node. mstep (buffer_other L D n bs a nd lp Hok Ha Hb). rewrite Hd. dstep. rewrite Hlen. dstep.
  destruct (update_other F C L D n bs a _ (with_entry (Buf lp')) Hok Ha) as [H1 Hok1]. mstep H1.
  destruct (update_other F C L _ n bs a _ (with_count (u16 (Zlen (kept start extent es)))) Hok1 (lookup_insert_eq _ _ _)) as [H2 Hok2]. mstep H2. cbn [alone prev next data] in *. fold (alone (with_count (u16 (Zlen (kept start extent es))) (with_entry (Buf lp') nd))) in *.
  destruct (updateSz_other F C HC L _ n bs a _ lp' _ Hok2 (lookup_insert_eq _ _ _) eq_refl Hlp') as [H3 Hok3]. rewrite H3, !insert_insert_eq in *. done.
Qed.

(** ** Both parts *)

(** The strings that stay and those that move. *)
Definition stay (after : bool) (k : Z) (ss : list sds) : list sds := if after then take (Z.to_nat (k + 1)) ss else drop (Z.to_nat k) ss.
Definition move (after : bool) (k : Z) (ss : list sds) : list sds := if after then drop (Z.to_nat (k + 1)) ss else take (Z.to_nat k) ss.

Lemma trimmed_describes d lp es :
  encoding d = RAW -> container d = PACKED -> repr lp es -> 0 < Zlen es < 2 ^ 16 -> node_holds (loose (trimmed lp es d)) (elem_string <$> es).
Proof. intros He Hc Hlp Hl. apply (described_holds (loose (trimmed lp es d)) lp es); try done. cbn. rewrite uwrap_small; [done|lia]. Qed.

Lemma split_spec L1 a d L2 ss n bs off (after : bool) :
  ok (L1 ++ (a, d) :: L2) ∅ -> node_holds (loose d) ss -> encoding d = RAW -> container d = PACKED -> - Zlen ss <= off < Zlen ss ->
  let k := node_index ss off in (if after then k + 1 < Zlen ss else 0 < k) ->
  exists b d' nb, _quicklistSplitNode a off after (conc (L1 ++ (a, d) :: L2) ∅ n bs) = Some (b, conc (L1 ++ (a, d') :: L2) (<[b := alone nb]> ∅) n bs) /\
    ok (L1 ++ (a, d') :: L2) (<[b := alone nb]> ∅) /\
    (node_holds (loose d') (stay after k ss) /\ encoding d' = RAW /\ recompress d' = recompress d /\ container d' = PACKED /\ dont_compress d' = dont_compress d) /\
    (node_holds nb (move after k ss) /\ encoding nb = RAW /\ recompress nb = false /\ container nb = PACKED).
Proof.
  intros Hok Hd He Hc Hoff k Hk. destruct (node_count (loose d) ss Hd) as [Hcnt Hbd]. change (count (loose d)) with (count d) in Hcnt. unfold _quicklistSplitNode. mstep (get_linked F C _ _ _ _ _ n bs Hok). cbn [data].
  destruct (create_spec F C _ ∅ n bs Hok) as (b & Hcr & Hb1 & Hb2 & Hok1). mstep Hcr.
  destruct Hd as (v & Hv & Hh). pose proof (hd_strings _ _ Hh) as Hst. rewrite <- (vw_container _ _ Hv) in Hst. change (container (loose d)) with (container d) in Hst. rewrite Hc in Hst. destruct Hst as (es & Hex & ->). destruct (viewed_raw _ _ Hv He) as [slack Hb]. pose proof (vw_sz _ _ Hv) as Hsz. change (sz (loose d)) with (sz d) in Hsz. change (entry (loose d)) with (entry d) in Hb.
  mstep (buffer_linked F C _ _ _ _ _ n bs _ Hok1 Hb). rewrite Hsz, (at_rd (v_raw v ++ slack) 0 (v_raw v)) by (done || by exists [], slack). dstep.
  destruct (update_other F C _ _ n bs b _ (with_entry (Buf (v_raw v))) Hok1 (lookup_insert_eq _ _ _)) as [H1 Hok2]. mstep H1. rewrite insert_insert_eq in *. cbn [alone prev next data] in *.
  fold (alone (with_entry (Buf (v_raw v)) fresh_data)) in *. rewrite Hcnt. fold (node_index (elem_string <$> es) off). fold k. rewrite length_fmap in *.
  assert (Hk0 : 0 <= k < Zlen es) by (unfold k, node_index; rewrite length_fmap; destruct (Z.ltb_spec off 0); lia).
  set (os := if after then k + 1 else 0). set (oe := if after then -1 else k). set (ns := if after then 0 else k). set (ne := if after then k + 1 else -1).
  destruct (trim_linked L1 a d L2 (<[b := alone (with_entry (Buf (v_raw v)) fresh_data)]> ∅) n bs (v_raw v ++ slack) es os oe) as (lp1 & Hlp1 & Hok3 & Hr1);
    [done|done|by apply exact_slack|unfold os; destruct after; lia|unfold oe; destruct after; lia|]. mstep Hr1.
  destruct (trim_other _ _ n bs b _ (v_raw v) es ns ne Hok3 (lookup_insert_eq _ _ _) eq_refl (proj1 Hex)) as (lp2 & Hlp2 & Hok4 & Hr2); [unfold ns; destruct after; lia|unfold ne; destruct after; lia|].
  mstep Hr2. rewrite insert_insert_eq in *. eexists b, _, _. split; [done|]. split; [done|].
  assert (Hstay : stay after k (elem_string <$> es) = elem_string <$> kept os oe es).
  { unfold stay, kept, os, oe. destruct after; [by rewrite Z.eqb_refl, fmap_take|]. rewrite (proj2 (Z.eqb_neq k _)) by lia. change (Z.to_nat 0) with 0%nat. rewrite Z.add_0_l. rewrite take_0, app_nil_l. by rewrite fmap_drop. }
  assert (Hmove : move after k (elem_string <$> es) = elem_string <$> kept ns ne es).
  { unfold move, kept, ns, ne. destruct after; [|by rewrite Z.eqb_refl, fmap_take]. rewrite (proj2 (Z.eqb_neq (k + 1) _)) by lia. change (Z.to_nat 0) with 0%nat. rewrite Z.add_0_l. rewrite take_0, app_nil_l. by rewrite fmap_drop. }
  assert (Hlens : 0 < Zlen (kept os oe es) < 2 ^ 16 /\ 0 < Zlen (kept ns ne es) < 2 ^ 16).
  { rewrite <- (length_fmap elem_string (kept os oe es)), <- (length_fmap elem_string (kept ns ne es)), <- Hstay, <- Hmove. unfold stay, move.
    destruct after; rewrite !length_take, !length_drop, !length_fmap; lia. }
  destruct Hlens as [? ?]. rewrite Hstay, Hmove. split; (split; [by apply trimmed_describes|done]).
Qed.

End Split.
End QlSplit.
