(* ===== verification/QuicklistInsert.v ===== *)
(** * Inserting into a quicklist

    [_quicklistInsert] puts a string before or after the element of an entry:
    into the node of the element, into its neighbour, into a new node, or into
    one half of the node, which is split. *)

From stdpp Require Import gmap.
From S2P Require Import Prelude.
From S2P Require Import NumConv.
From S2P Require Import ListpackEnc.
From S2P Require Import Listpack.
From S2P Require Import ListpackOps.
From S2P Require Import ListpackEdit.
From S2P Require Import Quicklist.
From S2P Require Import QuicklistSpec.
From S2P Require Import QuicklistComp.
From S2P Require Import QuicklistNode.
From S2P Require Import QuicklistPush.
From S2P Require Import QuicklistDel.
From S2P Require Import QuicklistSeek.
From S2P Require Import QuicklistRange.
From S2P Require Import QuicklistIter.
From S2P Require Import QuicklistMerge.
From S2P Require Import QuicklistSplit.
Import NumConv LpEnc Lp LpOps LpEdit Quicklist QlSpec QlComp QlNode QlPush QlDel QlSeek QlRange QlIter QlMerge QlSplit.

Module QlInsert.

(** Only nodes of [U] are to be compressed again. *)
Definition busy_in (U : list addr) (L : nlist) : Prop := forall x, x ∈ L -> recompress x.2 = true -> x.1 ∈ U.

Lemma busy_in_option u L : busy u L <-> busy_in (option_list u) L.
Proof.
  split; intros Hb x Hx Hf.
  - rewrite <- (Hb x Hx Hf). cbn. by left.
  - specialize (Hb x Hx Hf). destruct u; cbn in Hb; [|by apply elem_of_nil in Hb]. by apply list_elem_of_singleton in Hb as ->.
Qed.

Lemma busy_in_mid U L1 a d d' L2 : recompress d' = recompress d -> busy_in U (L1 ++ (a, d) :: L2) -> busy_in U (L1 ++ (a, d') :: L2).
Proof.
  intros Hf Hb x Hx Hr. apply elem_of_app in Hx as [Hx|[->|Hx]%elem_of_cons].
  - apply Hb; [set_solver|done].
  - cbn in Hr |- *. apply (Hb (a, d)); [set_solver|]. cbn. congruence.
  - apply Hb; [set_solver|done].
Qed.

(** ** Strings in a list *)

Definition put {A} (j : nat) (s : A) (xs : list A) : list A := take j xs ++ s :: drop j xs.

Lemma put_app {A} (X Y Z' : list A) j s : (j <= length Y)%nat -> put (length X + j) s (X ++ Y ++ Z') = X ++ put j s Y ++ Z'.
Proof.
  intros Hj. unfold put. rewrite take_app_add', drop_app_add' by done. rewrite take_app_le, drop_app_le by lia. by rewrite <- !app_assoc.
Qed.

Lemma bytes_split ss j : bytes ss = bytes (take j ss) + bytes (drop j ss).
Proof. by rewrite <- bytes_app, take_drop. Qed.

Lemma bytes_drop_le ss j : bytes (drop (S j) ss) <= bytes (drop j ss).
Proof.
  replace (S j) with (j + 1)%nat by lia. rewrite <- drop_drop. rewrite (bytes_split (drop j ss) 1). pose proof (bytes_length (take 1 (drop j ss))). lia.
Qed.

Lemma insert_bytes w k s es :
  bytes (elem_string <$> insert_at w (Z.of_nat k) (elem_of_string s) es) <= bytes (s :: (elem_string <$> es)).
Proof.
  assert (Hone : forall j i, (j <= i <= S j)%nat -> bytes (elem_string <$> (take j es ++ elem_of_string s :: drop i es)) <= bytes (s :: (elem_string <$> es))).
  { intros j i Hi. rewrite fmap_app, bytes_app, fmap_cons, elem_string_of, fmap_take, fmap_drop. cbn [bytes]. rewrite (bytes_split (elem_string <$> es) j).
    assert (i = j \/ i = S j) as [-> | ->] by lia; [lia|]. pose proof (bytes_drop_le (elem_string <$> es) j). lia. }
  destruct w; cbn [insert_at]; apply Hone; lia.
Qed.

(** [lpInsertString] and [lpReplace] within the limits. *)
Lemma string_insert `{Allocator} lp es s w k :
  repr lp es -> bytes_ok s -> (k < length es)%nat -> bytes (s :: (elem_string <$> es)) < MAX_BYTES ->
  exists lp' q, lpInsert lp (Some s) None (pos (take k es)) w = Some (Some (lp', q)) /\ repr lp' (insert_at w (Z.of_nat k) (elem_of_string s) es).
Proof.
  intros Hlp Hs Hk Hb. assert (Hl : Zlen s < 2 ^ 32 - 5) by (pose proof (bytes_length (elem_string <$> es)); cbn [bytes] in Hb; lia). pose proof (insert_bytes w k s es). pose proof (pos_bytes (insert_at w (Z.of_nat k) (elem_of_string s) es)).
  destruct (lpInsert_at lp es (Some s) None (elem_of_string s) w (Z.of_nat k)) as [[Hbig _]|(lp' & Hi & Hr)]; [done|by constructor|by apply elem_of_string_ok|lia|lia|].
  rewrite Nat2Z.id in Hi. by eexists _, _.
Qed.

Section Insert.
Context `{Allocator} `{LzfMemory} (F C packed_threshold : Z) (HC : 0 <= C) (HF : -5 <= F <= FILL_MAX).

Abbreviation conc := (conc F C).
Abbreviation tidy := (tidy C).
Abbreviation good := (good C).

#[local] Set Default Proof Using "Type*".

Record fine (U : list addr) (L : nlist) (SS : list (list sds)) : Prop := {
  fn_contents : contents L SS;
  fn_tidy : tidy L;
  fn_busy : busy_in U L;
}.

Lemma fine_good u L SS : good u L SS <-> fine (option_list u) L SS.
Proof. split; intros [H1 H2 H3]; (split; [done|done|by apply busy_in_option]). Qed.

(** Recompressing one of the nodes. *)
Lemma recoded_clear U G L L' i a d :
  recoded G L L' -> busy_in (a :: U) L -> NoDup L.*1 -> L !! i = Some (a, d) -> cleared L' i -> busy_in U L'.
Proof.
  intros Hr Hb Hnd Hi Hc x (j & Hx)%list_elem_of_lookup Hf.
  assert (Ha : L.*1 !! j = Some x.1) by by rewrite <- (rc_addr _ _ _ Hr), list_lookup_fmap, Hx.
  rewrite list_lookup_fmap in Ha. destruct (L !! j) as [[b e]|] eqn:Hj; [|done]. cbn in Ha. injection Ha as Ha.
  pose proof (rc_flags _ _ _ Hr j _ _ Hj Hx Hf) as Hf'. pose proof (Hb _ (list_elem_of_lookup_2 _ _ _ Hj) Hf') as [Heq|Hu]%elem_of_cons; [|by rewrite <- Ha].
  exfalso. cbn in Heq. assert (j = i) as -> by (apply (NoDup_lookup L.*1 j i a); [done|rewrite list_lookup_fmap, Hj; cbn; by rewrite Heq|by rewrite list_lookup_fmap, Hi]).
  by rewrite (Hc x Hx) in Hf.
Qed.

Lemma recompress_fine U L1 a d L2 SS D n bs :
  ok (L1 ++ (a, d) :: L2) D -> fine (a :: U) (L1 ++ (a, d) :: L2) SS ->
  exists L', quicklistRecompressOnly a (conc (L1 ++ (a, d) :: L2) D n bs) = Some (tt, conc L' D n bs) /\ ok L' D /\ fine U L' SS /\ L'.*1 = (L1 ++ (a, d) :: L2).*1.
Proof.
  intros Hok [Hcs Ht Hb]. assert (Hi : (L1 ++ (a, d) :: L2) !! length L1 = Some (a, d)) by by rewrite list_lookup_middle.
  pose proof (contents_dont _ _ _ _ _ Hcs Hi) as Hdn. apply contents_views in Hcs as (G & HG & HS).
  destruct (recompressOnly_spec F C HC _ D n bs G _ a d Hok HG Ht Hi) as (L' & Hrun & Hok' & Hr & Ht' & Hc). exists L'. split; [done|]. split; [done|].
  split; [|apply (rc_addr _ _ _ Hr)]. split; [by eapply recoded_contents|done|]. eapply recoded_clear; try done; [apply (ok_nodup _ _ Hok)|by apply Hc].
Qed.

Lemma use_fine U L1 a d L2 SS1 ss SS2 D n bs :
  ok (L1 ++ (a, d) :: L2) D -> fine (a :: U) (L1 ++ (a, d) :: L2) (SS1 ++ ss :: SS2) -> length L1 = length SS1 ->
  exists d', quicklistDecompressNodeForUse a (conc (L1 ++ (a, d) :: L2) D n bs) = Some (tt, conc (L1 ++ (a, d') :: L2) D n bs) /\
    ok (L1 ++ (a, d') :: L2) D /\ fine (a :: U) (L1 ++ (a, d') :: L2) (SS1 ++ ss :: SS2) /\ node_holds d' ss /\ encoding d' = RAW /\ container d' = container d /\ (encoding d = RAW -> d' = d).
Proof.
  intros Hok [Hcs Ht Hb] Hl. assert (Hi : (L1 ++ (a, d) :: L2) !! length L1 = Some (a, d)) by by rewrite list_lookup_middle.
  apply contents_views in Hcs as (G & HG & HS). destruct (forUse_spec F C HC _ D n bs G _ a d Hok HG Ht Hi) as (d' & Hrun & Hok' & HG' & Ht' & He & Hraw).
  rewrite insert_mid in *. exists d'. split; [done|]. split; [done|]. assert (Hcs : contents (L1 ++ (a, d') :: L2) (SS1 ++ ss :: SS2)) by (apply contents_views; by exists G).
  split; [split; [done|done|]|].
  - intros x Hx Hf. apply elem_of_app in Hx as [Hx|[->|Hx]%elem_of_cons]; [apply Hb; [set_solver|done]|cbn; by left|apply Hb; [set_solver|done]].
  - apply Forall2_app_inv in Hcs as [_ Hcs]; [|done]. apply Forall2_cons_1 in Hcs as [Hd' _]. split; [done|]. split; [done|]. split; [|done].
    eapply Forall2_lookup_l in HG as (v & Hv & Hd); [|done]. eapply Forall2_lookup_l in HG' as (v' & Hv' & Hd2); [|by rewrite list_lookup_middle].
    simplify_eq. pose proof (vw_container _ _ Hd). pose proof (vw_container _ _ Hd2). cbn in *. congruence.
Qed.

(** ** Into a listpack *)

(** A listpack function that gives the node the strings [ss']. *)
Definition relists (d : nodeData) (f : list Z -> option (option (list Z * option Z))) (ss ss' : list sds) : Prop :=
  exists lp lp' q es', entry d = Buf lp /\ f lp = Some (Some (lp', q)) /\ repr lp' es' /\ ss' = elem_string <$> es' /\ Zlen ss' = Zlen ss + 1.

Lemma insert_into_spec U L1 a d L2 SS1 ss ss' SS2 n bs f :
  ok (L1 ++ (a, d) :: L2) ∅ -> fine (a :: U) (L1 ++ (a, d) :: L2) (SS1 ++ ss :: SS2) -> length L1 = length SS1 -> container d = PACKED -> Zlen ss + 1 < 2 ^ 16 ->
  (forall d', node_holds d' ss -> encoding d' = RAW -> container d' = PACKED -> (encoding d = RAW -> d' = d) -> relists d' f ss ss') ->
  exists L', insert_into a f (conc (L1 ++ (a, d) :: L2) ∅ n bs) = Some (tt, conc L' ∅ n bs) /\ ok L' ∅ /\ fine U L' (SS1 ++ ss' :: SS2) /\ L'.*1 = (L1 ++ (a, d) :: L2).*1.
Proof.
  intros Hok Hg Hl Hc Hlim Hf. unfold insert_into. destruct (use_fine U L1 a d L2 SS1 ss SS2 ∅ n bs Hok Hg Hl) as (d' & Huse & Hok1 & [Hcs1 Ht1 Hb1] & Hd' & He & Hc' & Hraw).
  mstep Huse. rewrite Hc in Hc'. destruct (Hf d' Hd' He Hc' Hraw) as (lp & lp' & q & es' & Hb & Hflp & Hlp' & Hss' & Hlen).
  mstep (buffer_linked F C _ _ _ _ _ n bs lp Hok1 Hb). rewrite Hflp. mstep (set_listpack_linked F C HC _ _ _ _ ∅ n bs lp' q Hok1).
  pose proof (ok_mid _ a _ (with_entry (Buf lp') d') _ _ Hok1) as Hok2. mstep (update_linked F C L1 a _ L2 ∅ n bs (count_add 1) Hok2).
  pose proof (ok_mid _ a _ (count_add 1 (with_entry (Buf lp') d')) _ _ Hok1) as Hok3.
  mstep (updateSz_linked F C HC L1 a _ L2 ∅ n bs lp' _ Hok3 eq_refl Hlp'). pose proof (ok_mid _ a _ (with_sz (pos es' + 1) (count_add 1 (with_entry (Buf lp') d'))) _ _ Hok1) as Hok4.
  destruct (recompress_fine U L1 a _ L2 (SS1 ++ ss' :: SS2) ∅ n bs Hok4) as (L' & Hrun & Hok' & Hg' & Ha).
  - split; [|by apply (tidy_mid C HC L1 a d')|by apply (busy_in_mid _ L1 a d')]. apply Forall2_app_inv in Hcs1 as [H1 H2]; [|done]. apply Forall2_cons_1 in H2 as [_ H2].
    apply contents_join; [done| |done]. destruct Hd' as (v & Hv & Hh). pose proof (hd_bound _ _ Hh).
    eapply (relisted_holds d' v lp' es'); try done; [apply (hd_dont _ _ Hh)| |lia]. cbn [count_add with_count with_entry count]. rewrite (vw_count _ _ Hv), (hd_count _ _ Hh), uwrap_small by lia. lia.
  - exists L'. split; [exact Hrun|]. split; [done|]. split; [done|]. by rewrite Ha, !fmap_app, !fmap_cons.
Qed.

(** ** A new node next to a node *)

Definition pair {A} (after : bool) (x y : A) : list A := if after then [x; y] else [y; x].

Lemma link_new L1 a d L2 SS1 ss ss' SS2 D n bs b nd (after : bool) :
  ok (L1 ++ (a, d) :: L2) D -> good (Some a) (L1 ++ (a, d) :: L2) (SS1 ++ ss :: SS2) -> length L1 = length SS1 -> Zlen (L1 ++ (a, d) :: L2) < 2 ^ 62 ->
  D !! b = Some (alone nd) -> node_holds nd ss' -> encoding nd = RAW -> recompress nd = false ->
  exists L', __quicklistInsertNode (Some a) b after (conc (L1 ++ (a, d) :: L2) D n bs) = Some (tt, conc L' (delete b D) n bs) /\
    ok L' (delete b D) /\ good None L' (SS1 ++ pair after ss ss' ++ SS2) /\ L'.*1 = L1.*1 ++ pair after a b ++ L2.*1.
Proof.
  intros Hok Hg Hl Hlen Hb Hn He Hf. destruct (good_parts C HC _ _ _ _ _ _ _ _ Hg Hl) as (H1 & Hd & H2). pose proof (holds_dont d ss Hd) as Hdn. destruct Hg as [_ Ht Hbz].
  assert (Hbn : b ∉ (L1 ++ (a, d) :: L2).*1) by (intros Hin; by rewrite (ok_disjoint _ _ Hok b Hin) in Hb). rewrite fmap_app, fmap_cons in Hbn.
  assert (Hnew : forall after, contents (L1 ++ pair after (a, d) (b, nd) ++ L2) (SS1 ++ pair after ss ss' ++ SS2)).
  { intros af. apply contents_app; [done|]. apply contents_app; [|done]. destruct af; by repeat constructor. }
  assert (Hbusy : forall after, busy (Some a) (L1 ++ pair after (a, d) (b, nd) ++ L2)).
  { intros af x Hx Hfx. assert (Hor : x = (b, nd) \/ x ∈ L1 ++ (a, d) :: L2).
    { rewrite !elem_of_app, elem_of_cons in *. destruct af; cbn in Hx; rewrite !elem_of_cons, elem_of_nil in Hx; tauto. }
    destruct Hor as [->|Hx']; [cbn in Hfx; congruence|by apply Hbz]. }
  assert (Hnd : forall after, NoDup (L1 ++ pair after (a, d) (b, nd) ++ L2).*1).
  { intros af. apply (NoDup_Permutation_proper _ (b :: (L1 ++ (a, d) :: L2).*1)); [destruct af; cbn; rewrite !fmap_app; cbn; solve_Permutation|].
    apply NoDup_cons. split; [by rewrite fmap_app, fmap_cons|apply (ok_nodup _ _ Hok)]. }
  destruct after.
  - pose proof (proj1 (contents_views _ _) (Hnew true)) as (G & HG & HS).
    destruct (insert_node_after F C HC L1 a d L2 D n bs b nd G) as (L' & Hrun & Hok' & Hr & Ht' & Hc); [done|done|lia|done..|].
    exists L'. split; [done|]. split; [done|]. split; [|rewrite (rc_addr _ _ _ Hr), fmap_app; done].
    eapply (recoded_done C HC); [exact Hr|done|done|apply (Hbusy true)|apply (Hnd true)| |by apply Hc]. by rewrite list_lookup_middle.
  - pose proof (proj1 (contents_views _ _) (Hnew false)) as (G & HG & HS).
    destruct (insert_node_before F C HC L1 a d L2 D n bs b nd G) as (L' & Hrun & Hok' & Hr & Ht' & Hc); [done|done|lia|done..|].
    exists L'. split; [done|]. split; [done|]. split; [|rewrite (rc_addr _ _ _ Hr), fmap_app; done].
    eapply (recoded_done C HC); [exact Hr|done|done|apply (Hbusy false)|apply (Hnd false)| |by apply Hc]. rewrite lookup_app_r by lia. by replace (S (length L1) - length L1)%nat with 1%nat by lia.
Qed.

(** ** The cases of an insertion *)

Abbreviation stands := (stands C).

(** The index in the node before which the string goes. *)
Definition slot (after : bool) (k : nat) : nat := if after then S k else k.

Lemma put_mid SS1 ss SS2 j s (x : sds) : ss !! j = Some x ->
  forall after, put (length (concat SS1) + slot after j) s (concat (SS1 ++ ss :: SS2)) = concat (SS1 ++ put (slot after j) s ss :: SS2).
Proof.
  intros Hj after. apply lookup_lt_Some in Hj. rewrite !concat_app. cbn [concat]. apply put_app. destruct after; cbn [slot]; lia.
Qed.

Lemma bytes_node s SS1 ss SS2 : bytes (s :: ss) <= bytes (s :: concat (SS1 ++ ss :: SS2)).
Proof. rewrite concat_app. cbn [concat bytes]. rewrite !bytes_app. pose proof (bytes_length (concat SS1)). pose proof (bytes_length (concat SS2)). lia. Qed.

Lemma put_insert_at (after : bool) k s es :
  elem_string <$> insert_at (if after then LP_AFTER else LP_BEFORE) (Z.of_nat k) (elem_of_string s) es = put (slot after k) s (elem_string <$> es).
Proof.
  unfold put. destruct after; cbn [insert_at slot]; rewrite fmap_app, fmap_cons, elem_string_of, fmap_take, fmap_drop; do 3 f_equal; lia.
Qed.

Lemma length_put {A} j (s : A) xs : Zlen (put j s xs) = Zlen xs + 1.
Proof. unfold put. rewrite length_app. cbn [length]. rewrite length_take, length_drop. lia. Qed.

(** Into the node of the element. *)
Lemma insert_same L1 a d L2 SS1 ss SS2 n bs k p s (after : bool) :
  ok (L1 ++ (a, d) :: L2) ∅ -> good (Some a) (L1 ++ (a, d) :: L2) (SS1 ++ ss :: SS2) -> length L1 = length SS1 -> cursor d ss k p -> container d = PACKED ->
  Zlen ss + 1 < 2 ^ 16 -> bytes_ok s -> bytes (s :: concat (SS1 ++ ss :: SS2)) < MAX_BYTES ->
  exists q L', p = Some q /\ insert_into a (fun lp => lpInsertString lp s q (if after then LP_AFTER else LP_BEFORE)) (conc (L1 ++ (a, d) :: L2) ∅ n bs) = Some (tt, conc L' ∅ n bs) /\
    stands L' (put (length (concat SS1) + slot after k) s (concat (SS1 ++ ss :: SS2))) /\ L'.*1 = (L1 ++ (a, d) :: L2).*1.
Proof.
  intros Hok Hg Hl (He & Hk & Hcur) Hc Hlim Hs Hsz. rewrite Hc in Hcur. destruct Hcur as (lp & es & Hb & Hlp & -> & ->). pose proof (bytes_node s SS1 (elem_string <$> es) SS2).
  rewrite length_fmap in Hk. exists (pos (take k es)). apply fine_good in Hg. cbn in Hg.
  destruct (insert_into_spec [] L1 a d L2 SS1 (elem_string <$> es) (put (slot after k) s (elem_string <$> es)) SS2 n bs
    (fun lp => lpInsertString lp s (pos (take k es)) (if after then LP_AFTER else LP_BEFORE)) Hok Hg Hl Hc Hlim) as (L' & Hrun & Hok' & Hg' & Ha).
  - intros d' _ _ _ Hraw. rewrite (Hraw He). destruct (string_insert lp es s (if after then LP_AFTER else LP_BEFORE) k Hlp Hs Hk) as (lp' & q & Hi & Hr); [lia|].
    exists lp, lp', q. eexists. split; [done|]. split; [done|]. split; [done|]. split; [by rewrite put_insert_at|apply length_put].
  - exists L'. split; [done|]. split; [done|]. split; [|done]. split; [done|]. exists (SS1 ++ put (slot after k) s (elem_string <$> es) :: SS2). split; [by apply fine_good|].
    destruct ((elem_string <$> es) !! k) as [x|] eqn:Hx; [by erewrite put_mid|]. apply lookup_ge_None in Hx. rewrite length_fmap in Hx. lia.
Qed.

Lemma fine_more b U L SS : fine U L SS -> fine (b :: U) L SS.
Proof. intros [H1 H2 H3]. split; [done|done|]. intros x Hx Hf. right. by apply H3. Qed.

(** At the near end of a listpack. *)
Definition near (after : bool) (s : sds) (lp : list Z) : option (option (list Z * option Z)) := if after then lpPrepend lp s else lpAppend lp s.
Definition joined (after : bool) (s : sds) (ss : list sds) : list sds := if after then s :: ss else ss ++ [s].

Lemma near_ok after lp es s : repr lp es -> bytes_ok s -> bytes (s :: (elem_string <$> es)) < MAX_BYTES ->
  exists lp' q es', near after s lp = Some (Some (lp', q)) /\ repr lp' es' /\ elem_string <$> es' = joined after s (elem_string <$> es).
Proof.
  intros Hlp Hs Hb. destruct after.
  - destruct (prepend_ok lp es s Hlp Hs Hb) as (lp' & q & Hi & Hr). eexists lp', q, _. split; [done|]. split; [done|]. by rewrite fmap_cons, elem_string_of.
  - destruct (append_ok lp es s Hlp Hs Hb) as (lp' & q & Hi & Hr). eexists lp', q, _. split; [done|]. split; [done|]. rewrite fmap_app. cbn. by rewrite elem_string_of.
Qed.

Lemma length_joined after s ss : Zlen (joined after s ss) = Zlen ss + 1.
Proof. destruct after; cbn [joined]; rewrite ?length_app; cbn [length]; lia. Qed.

Lemma near_relists after d ss s : node_holds d ss -> encoding d = RAW -> container d = PACKED -> bytes_ok s -> bytes (s :: ss) < MAX_BYTES ->
  relists d (near after s) ss (joined after s ss).
Proof.
  intros Hd He Hc Hs Hb. destruct (packed_elems d ss Hd Hc He) as (v & es & lp & _ & _ & Hbuf & Hlp & ->).
  destruct (near_ok after lp es s Hlp Hs Hb) as (lp' & q & es' & Hn & Hr & Heq). exists lp, lp', q, es'. split; [done|]. split; [done|]. split; [done|]. split; [done|apply length_joined].
Qed.

(** Into the neighbour [b] of the node [a] in use; [b] comes after [a], or
    before it. *)
Lemma insert_beside P a d b e Q SP ss sb SQ n bs s (after : bool) :
  let L := P ++ pair after (a, d) (b, e) ++ Q in let SS := SP ++ pair after ss sb ++ SQ in
  ok L ∅ -> good (Some a) L SS -> length P = length SP -> container e = PACKED -> Zlen sb + 1 < 2 ^ 16 -> bytes_ok s -> bytes (s :: concat SS) < MAX_BYTES ->
  exists L', (insert_into b (near after s) ;; quicklistRecompressOnly a) (conc L ∅ n bs) = Some (tt, conc L' ∅ n bs) /\
    ok L' ∅ /\ good None L' (SP ++ pair after ss (joined after s sb) ++ SQ) /\ L'.*1 = L.*1.
Proof.
  intros L SS Hok Hg Hl Hc Hlim Hs Hsz. apply fine_good in Hg. apply (fine_more b) in Hg. cbn in Hg.
  assert (Hby : bytes (s :: sb) < MAX_BYTES).
  { eapply Z.le_lt_trans; [|exact Hsz]. unfold SS. rewrite concat_app. destruct after; cbn; rewrite ?bytes_app; cbn [bytes]; rewrite ?bytes_app;
      pose proof (bytes_length (concat SP)); pose proof (bytes_length (concat SQ)); pose proof (bytes_length ss); lia. }
  assert (Hsplit : exists P1 Q1 S1 Q2, L = P1 ++ (b, e) :: Q1 /\ SS = S1 ++ sb :: Q2 /\ length P1 = length S1 /\ S1 ++ joined after s sb :: Q2 = SP ++ pair after ss (joined after s sb) ++ SQ).
  { unfold L, SS. destruct after; cbn [pair app].
    - exists (P ++ [(a, d)]), Q, (SP ++ [ss]), SQ. rewrite <- !app_assoc, !length_app, Hl. done.
    - by exists P, ((a, d) :: Q), SP, (ss :: SQ). }
  destruct Hsplit as (P1 & Q1 & S1 & Q2 & HL & HS & Hl1 & HS'). rewrite HL, HS in *.
  destruct (insert_into_spec [a] P1 b e Q1 S1 sb (joined after s sb) Q2 n bs (near after s) Hok Hg Hl1 Hc Hlim) as (L' & Hrun & Hok' & Hg' & Ha).
  { intros d' Hd' He' Hc' _. by apply near_relists. }
  mstep Hrun. assert (Hin : a ∈ L'.*1). { rewrite Ha, <- HL. unfold L. rewrite !fmap_app. destruct after; set_solver. }
  apply list_elem_of_fmap in Hin as ([a' d'] & -> & Hin). apply list_elem_of_split in Hin as (X & Y & ->).
  destruct (recompress_fine [] X _ d' Y (S1 ++ joined after s sb :: Q2) ∅ n bs Hok' Hg') as (L2 & Hrun2 & Hok2 & Hg2 & Ha2). exists L2. split; [exact Hrun2|].
  split; [done|]. split; [|by rewrite Ha2, Ha]. rewrite <- HS'. by apply fine_good.
Qed.

(** A new node for a small element. *)
Lemma new_small L D n bs s :
  ok L D -> bytes_ok s -> Zlen s + 10 < MAX_BYTES ->
  exists b nd, D !! b = None /\ ok L (<[b := alone nd]> D) /\ node_holds nd [s] /\ encoding nd = RAW /\ recompress nd = false /\
    forall A (k : addr -> M A), (new_node ← new_listpack_node s; update new_node (count_add 1) ;; quicklistNodeUpdateSz new_node ;; k new_node) (conc L D n bs) =
      k b (conc L (<[b := alone nd]> D) n bs).
Proof.
  intros Hok Hs Hl. destruct (lpNew_spec 0) as (lp & Hn & Hlp0). destruct (prepend_ok lp [] s Hlp0 Hs) as (lp' & p & Hp & Hlp); [cbn; lia|].
  destruct (QlSpec.create_spec F C L D n bs Hok) as (b & Hc & Hb1 & Hb2 & Hok1).
  destruct (set_listpack_other F C HC L _ n bs b _ lp' p Hok1 (lookup_insert_eq _ _ _)) as [Hset Hok2].
  destruct (update_other F C L _ n bs b _ (count_add 1) Hok2 (lookup_insert_eq _ _ _)) as [Hup Hok3]. cbn [alone prev next data] in Hup, Hok3.
  fold (alone (count_add 1 (with_entry (Buf lp') fresh_data))) in Hup, Hok3. destruct (updateSz_other F C HC L _ n bs b _ lp' _ Hok3 (lookup_insert_eq _ _ _) eq_refl Hlp) as [Hsz Hok4].
  rewrite !insert_insert_eq in *. eexists b, _. split; [done|]. split; [done|]. split; [|split; [done|split; [done|]]].
  - replace [s] with (elem_string <$> [elem_of_string s]) by (cbn; by rewrite elem_string_of). by apply (described_holds _ lp' [elem_of_string s]).
  - intros A k. unfold new_listpack_node. mstep Hc. rewrite ?bind_bind. erewrite bind_step by (unfold lift; by rewrite Hn). cbv beta. rewrite Hp. mstep Hset. dstep. mstep Hup. by mstep Hsz.
Qed.

Lemma contents_short u L SS : good u L SS -> bytes (concat SS) < MAX_BYTES -> Zlen L < 2 ^ 62.
Proof. intros [Hc _ _] Hsz. pose proof (contents_count _ _ Hc). lia. Qed.

Lemma insert_new_small L1 a d L2 SS1 ss SS2 n bs s (after : bool) :
  ok (L1 ++ (a, d) :: L2) ∅ -> good (Some a) (L1 ++ (a, d) :: L2) (SS1 ++ ss :: SS2) -> length L1 = length SS1 -> bytes_ok s -> bytes (s :: concat (SS1 ++ ss :: SS2)) < MAX_BYTES ->
  exists b L', (new_node ← new_listpack_node s; update new_node (count_add 1) ;; quicklistNodeUpdateSz new_node ;; __quicklistInsertNode (Some a) new_node after)
      (conc (L1 ++ (a, d) :: L2) ∅ n bs) = Some (tt, conc L' ∅ n bs) /\
    ok L' ∅ /\ good None L' (SS1 ++ pair after ss [s] ++ SS2) /\ L'.*1 = L1.*1 ++ pair after a b ++ L2.*1.
Proof.
  intros Hok Hg Hl Hs Hsz. cbn [bytes] in Hsz. pose proof (bytes_length (concat (SS1 ++ ss :: SS2))). destruct (new_small _ ∅ n bs s Hok Hs) as (b & nd & Hb & Hok1 & Hnd & He & Hf & Hk); [lia|]. rewrite Hk.
  destruct (link_new L1 a d L2 SS1 ss [s] SS2 _ n bs b nd after Hok1 Hg Hl) as (L' & Hrun & Hok' & Hg' & Ha); [eapply contents_short; [done|lia]|apply lookup_insert_eq|done..|].
  rewrite delete_insert_id in * by done. by exists b, L'.
Qed.

Lemma insert_new_plain L1 a d L2 SS1 ss SS2 n bs s (after : bool) :
  ok (L1 ++ (a, d) :: L2) ∅ -> good (Some a) (L1 ++ (a, d) :: L2) (SS1 ++ ss :: SS2) -> length L1 = length SS1 -> bytes_ok s -> bytes (s :: concat (SS1 ++ ss :: SS2)) < MAX_BYTES ->
  exists L', __quicklistInsertPlainNode (Some a) s after (conc (L1 ++ (a, d) :: L2) ∅ n bs) = Some (tt, conc L' ∅ (u64 (n + 1)) bs) /\
    stands L' (concat (SS1 ++ pair after ss [s] ++ SS2)) /\ a ∈ L'.*1.
Proof.
  intros Hok Hg Hl Hs Hsz. cbn [bytes] in Hsz. pose proof (bytes_length (concat (SS1 ++ ss :: SS2))). unfold __quicklistInsertPlainNode.
  destruct (create_plain F C HC HF _ ∅ n bs s Hok Hs) as (b & nd & Hc & Hb1 & Hb2 & Hok1 & He & Hf & Hv); [lia|]. mstep Hc.
  destruct (link_new L1 a d L2 SS1 ss [s] SS2 _ n bs b nd after Hok1 Hg Hl) as (L' & Hrun & Hok' & Hg' & Ha); [eapply contents_short; [done|lia]|apply lookup_insert_eq| |done..|].
  { exists (plain_view s). split; [done|apply plain_holds]. }
  mstep Hrun. rewrite add_count_conc, delete_insert_id in * by done. exists L'. split; [done|]. split; [|rewrite Ha; destruct after; set_solver]. split; [done|]. by eexists.
Qed.

(** ** Splitting the node *)

Lemma stay_move (after : bool) k s ss SS1 SS2 : (k < length ss)%nat ->
  put (length (concat SS1) + slot after k) s (concat (SS1 ++ ss :: SS2)) =
  concat (SS1 ++ pair after (stay after (Z.of_nat k) ss) (joined after s (move after (Z.of_nat k) ss)) ++ SS2).
Proof.
  intros Hk. rewrite !concat_app. cbn [concat]. rewrite put_app by (destruct after; cbn [slot]; lia). do 2 f_equal. unfold put.
  destruct after; cbn [pair stay move joined slot concat]; rewrite app_nil_r, ?Nat2Z.id, ?Z2Nat.inj_add, ?Nat2Z.id by lia; [by rewrite Nat.add_1_r|by rewrite <- app_assoc].
Qed.

(** The new node with the string and the strings that move. *)
Lemma near_other L D n bs b nd ss s (after : bool) :
  ok L D -> D !! b = Some (alone nd) -> node_holds nd ss -> encoding nd = RAW -> container nd = PACKED -> Zlen ss + 1 < 2 ^ 16 -> bytes_ok s -> bytes (s :: ss) < MAX_BYTES ->
  exists nd', ok L (<[b := alone nd']> D) /\ node_holds nd' (joined after s ss) /\ encoding nd' = RAW /\ recompress nd' = recompress nd /\
    forall A (k : M A), (lp ← buffer b; set_listpack b (if after then lpPrepend lp s else lpAppend lp s) ;; update b (count_add 1) ;; quicklistNodeUpdateSz b ;; k) (conc L D n bs) =
      k (conc L (<[b := alone nd']> D) n bs).
Proof.
  intros Hok Hb Hnd He Hc Hlim Hs Hby. destruct (near_relists after nd ss s Hnd He Hc Hs Hby) as (lp & lp' & q & es' & Hbuf & Hn & Hlp' & Heq & Hlen).
  destruct (set_listpack_other F C HC L D n bs b nd lp' q Hok Hb) as [Hset Hok2].
  destruct (update_other F C L _ n bs b _ (count_add 1) Hok2 (lookup_insert_eq _ _ _)) as [Hup Hok3]. cbn [alone prev next data] in Hup, Hok3.
  fold (alone (count_add 1 (with_entry (Buf lp') nd))) in Hup, Hok3. destruct (updateSz_other F C HC L _ n bs b _ lp' _ Hok3 (lookup_insert_eq _ _ _) eq_refl Hlp') as [Hsz Hok4].
  rewrite !insert_insert_eq in *. eexists. split; [done|]. split; [|split; [done|split; [done|]]].
  - destruct Hnd as (v & Hv & Hh). pose proof (hd_bound _ _ Hh). eapply (relisted_holds nd v lp' es'); try done; [apply (hd_dont _ _ Hh)| |lia].
    cbn [count_add with_count with_entry count]. rewrite (vw_count _ _ Hv), (hd_count _ _ Hh), uwrap_small by lia. lia.
  - intros A k. mstep (buffer_other F C HC HF L D n bs b nd lp Hok Hb Hbuf). change (if after then _ else _) with (near after s lp). rewrite Hn. mstep Hset. mstep Hup. by mstep Hsz.
Qed.

Lemma good_stay u L1 a d d' L2 SS1 ss ss' SS2 :
  good u (L1 ++ (a, d) :: L2) (SS1 ++ ss :: SS2) -> length L1 = length SS1 -> node_holds d' ss' -> encoding d' = encoding d -> recompress d' = recompress d ->
  good u (L1 ++ (a, d') :: L2) (SS1 ++ ss' :: SS2).
Proof. intros Hg Hl Hd He Hf. destruct (good_parts C HC _ _ _ _ _ _ _ _ Hg Hl) as (H1 & _ & H2). apply (good_mid C HC u L1 a d); [done|done|apply (gd_tidy _ _ _ _ Hg)|apply (gd_busy _ _ _ _ Hg)|done..]. Qed.

(** What both splits start with. *)
Lemma split_use L1 a d L2 SS1 ss SS2 n bs k p off (after : bool) :
  ok (L1 ++ (a, d) :: L2) ∅ -> good (Some a) (L1 ++ (a, d) :: L2) (SS1 ++ ss :: SS2) -> length L1 = length SS1 -> cursor d ss k p -> container d = PACKED ->
  Z.of_nat k = node_index ss off -> - Zlen ss <= off < Zlen ss -> (if after then Z.of_nat k + 1 < Zlen ss else 0 < Z.of_nat k) ->
  exists b d' nb, ok (L1 ++ (a, d') :: L2) (<[b := alone nb]> ∅) /\ good (Some a) (L1 ++ (a, d') :: L2) (SS1 ++ stay after (Z.of_nat k) ss :: SS2) /\
    node_holds nb (move after (Z.of_nat k) ss) /\ encoding nb = RAW /\ recompress nb = false /\ container nb = PACKED /\
    forall A (f : addr -> M A), (quicklistDecompressNodeForUse a ;; new_node ← _quicklistSplitNode a off after; f new_node) (conc (L1 ++ (a, d) :: L2) ∅ n bs) =
      f b (conc (L1 ++ (a, d') :: L2) (<[b := alone nb]> ∅) n bs).
Proof.
  intros Hok Hg Hl (He & Hk & _) Hc Hki Hoff Hin. pose proof Hg as Hfine. apply fine_good in Hfine.
  destruct (use_fine [] L1 a d L2 SS1 ss SS2 ∅ n bs Hok Hfine Hl) as (d0 & Huse & _ & _ & Hd & _ & _ & Hraw). rewrite (Hraw He) in *.
  destruct (split_spec F C HC HF L1 a d L2 ss n bs off after Hok) as (b & d' & nb & Hrun & Hok' & (Hh1 & He1 & Hf1 & Hc1 & Hdn1) & (Hh2 & He2 & Hf2 & Hc2)); [by rewrite (loose_holds d ss Hd)|done|done|done|by rewrite <- Hki|].
  rewrite (holds_dont d ss Hd) in Hdn1. rewrite (loose_id d' Hdn1) in Hh1.
  rewrite <- Hki in *. exists b, d', nb. split; [done|]. split; [apply (good_stay _ L1 a d d' L2 SS1 ss); [done..|congruence|done]|].
  do 4 (split; [done|]). intros A f. mstep Huse. by mstep Hrun.
Qed.

Lemma length_move after k ss : (k < length ss)%nat -> Zlen (move after (Z.of_nat k) ss) < Zlen ss.
Proof. intros Hk. destruct after; cbn [move]; rewrite ?length_drop, ?length_take; lia. Qed.

Lemma bytes_move after k ss : bytes (move after k ss) <= bytes ss.
Proof.
  destruct after; cbn [move]; [rewrite (bytes_split ss (Z.to_nat (k + 1)))|rewrite (bytes_split ss (Z.to_nat k))].
  - pose proof (bytes_length (take (Z.to_nat (k + 1)) ss)). lia.
  - pose proof (bytes_length (drop (Z.to_nat k) ss)). lia.
Qed.

Lemma bytes_put j (s : sds) xs : bytes (put j s xs) = bytes (s :: xs).
Proof. unfold put. rewrite bytes_app. cbn [bytes]. rewrite (bytes_split xs j). lia. Qed.

(** A small element in a full node. *)
Lemma insert_split_small L1 a d L2 SS1 ss SS2 n bs k p off s (after : bool) :
  ok (L1 ++ (a, d) :: L2) ∅ -> good (Some a) (L1 ++ (a, d) :: L2) (SS1 ++ ss :: SS2) -> length L1 = length SS1 -> cursor d ss k p -> container d = PACKED ->
  Z.of_nat k = node_index ss off -> - Zlen ss <= off < Zlen ss -> (if after then Z.of_nat k + 1 < Zlen ss else 0 < Z.of_nat k) ->
  bytes_ok s -> bytes (s :: concat (SS1 ++ ss :: SS2)) < MAX_BYTES -> 0 <= n < 2 ^ 64 ->
  exists L' bs', (quicklistDecompressNodeForUse a ;; new_node ← _quicklistSplitNode a off after; lp ← buffer new_node;
      set_listpack new_node (if after then lpPrepend lp s else lpAppend lp s) ;; update new_node (count_add 1) ;; quicklistNodeUpdateSz new_node ;;
      __quicklistInsertNode (Some a) new_node after ;; _quicklistMergeNodes a) (conc (L1 ++ (a, d) :: L2) ∅ n bs) = Some (tt, conc L' ∅ n bs') /\
    stands L' (put (length (concat SS1) + slot after k) s (concat (SS1 ++ ss :: SS2))).
Proof.
  intros Hok Hg Hl Hcur Hc Hki Hoff Hin Hs Hsz Hn. pose proof Hcur as (_ & Hk & _). destruct (good_parts C HC _ _ _ _ _ _ _ _ Hg Hl) as (_ & Hd & _). destruct (node_count d ss Hd) as [_ Hbd].
  destruct (split_use L1 a d L2 SS1 ss SS2 n bs k p off after Hok Hg Hl Hcur Hc Hki Hoff Hin) as (b & d' & nb & Hok1 & Hg1 & Hh & He & Hf & Hcb & Hk1). rewrite Hk1.
  pose proof (length_move after k ss Hk). pose proof (bytes_move after (Z.of_nat k) ss). pose proof (bytes_node s SS1 ss SS2) as Hbn. cbn [bytes] in Hbn, Hsz.
  destruct (near_other _ _ n bs b nb (move after (Z.of_nat k) ss) s after Hok1 (lookup_insert_eq _ _ _) Hh He Hcb) as (nd & Hok2 & Hnd & He2 & Hf2 & Hk2); [lia|done|cbn [bytes]; lia|].
  rewrite Hk2, insert_insert_eq in *.
  destruct (link_new L1 a d' L2 SS1 _ (joined after s (move after (Z.of_nat k) ss)) SS2 _ n bs b nd after Hok2 Hg1 Hl) as (L' & Hrun & Hok' & Hg' & Ha); [|apply lookup_insert_eq|exact Hnd|done|congruence|].
  { pose proof (contents_short _ _ _ Hg) as Hsh. rewrite !length_app in *. cbn [length] in *. apply Hsh. pose proof (bytes_length (concat (SS1 ++ ss :: SS2))). lia. }
  mstep Hrun. rewrite delete_insert_id in * by done. rewrite (stay_move after k s ss SS1 SS2 Hk).
  assert (Hin' : a ∈ L'.*1) by (rewrite Ha; destruct after; set_solver). apply list_elem_of_fmap in Hin' as ([a' e] & -> & Hin'). apply list_elem_of_split in Hin' as (X & Y & ->).
  apply (mergeNodes_spec F C HC HF); [|rewrite <- stay_move, bytes_put by done; cbn [bytes]; lia|done]. split; [done|]. by eexists.
Qed.

(** A large element inside a node. *)
Lemma insert_split_large L1 a d L2 SS1 ss SS2 n bs k p off s (after : bool) :
  ok (L1 ++ (a, d) :: L2) ∅ -> good (Some a) (L1 ++ (a, d) :: L2) (SS1 ++ ss :: SS2) -> length L1 = length SS1 -> cursor d ss k p -> container d = PACKED ->
  Z.of_nat k = node_index ss off -> - Zlen ss <= off < Zlen ss -> (if after then Z.of_nat k + 1 < Zlen ss else 0 < Z.of_nat k) ->
  bytes_ok s -> bytes (s :: concat (SS1 ++ ss :: SS2)) < MAX_BYTES ->
  exists L', (quicklistDecompressNodeForUse a ;; new_node ← _quicklistSplitNode a off after; entry_node ← __quicklistCreatePlainNode s;
      __quicklistInsertNode (Some a) entry_node after ;; __quicklistInsertNode (Some entry_node) new_node after ;; modify (add_count 1))
      (conc (L1 ++ (a, d) :: L2) ∅ n bs) = Some (tt, conc L' ∅ (u64 (n + 1)) bs) /\
    stands L' (put (length (concat SS1) + slot after k) s (concat (SS1 ++ ss :: SS2))) /\ a ∈ L'.*1.
Proof.
  intros Hok Hg Hl Hcur Hc Hki Hoff Hin Hs Hsz. pose proof Hcur as (_ & Hk & _). pose proof (bytes_length (concat (SS1 ++ ss :: SS2))) as Hbl. cbn [bytes] in Hsz.
  destruct (split_use L1 a d L2 SS1 ss SS2 n bs k p off after Hok Hg Hl Hcur Hc Hki Hoff Hin) as (b & d' & nb & Hok1 & Hg1 & Hh & He & Hf & Hcb & Hk1). rewrite Hk1.
  pose proof (contents_count _ _ (gd_contents _ _ _ _ Hg)) as Hshort. rewrite length_app in Hshort. cbn [length] in Hshort.
  destruct (create_plain F C HC HF _ _ n bs s Hok1 Hs) as (pl & npl & Hcr & Hp1 & Hp2 & Hok2 & Hep & Hfp & Hvp); [lia|]. mstep Hcr.
  destruct (link_new L1 a d' L2 SS1 _ [s] SS2 _ n bs pl npl after Hok2 Hg1 Hl) as (L' & Hrun & Hok' & Hg' & Ha); [rewrite length_app; cbn [length]; lia|apply lookup_insert_eq| |done..|].
  { exists (plain_view s). split; [done|apply plain_holds]. }
  mstep Hrun. rewrite delete_insert_id in Hok' |- * by done. set (st := stay after (Z.of_nat k) ss) in *.
  assert (Hsplit : exists X dp Y SX SY, L' = X ++ (pl, dp) :: Y /\ SS1 ++ pair after st [s] ++ SS2 = SX ++ [s] :: SY /\ length X = length SX /\
    concat (SX ++ pair after [s] (move after (Z.of_nat k) ss) ++ SY) = put (length (concat SS1) + slot after k) s (concat (SS1 ++ ss :: SS2)) /\ a ∈ X.*1 ++ Y.*1).
  { assert (HA : L'.*1 = (if after then L1.*1 ++ [a] else L1.*1) ++ pl :: (if after then L2.*1 else a :: L2.*1)) by (rewrite Ha; destruct after; by rewrite <- ?app_assoc).
    destruct (addr_parts L' _ pl _ HA) as (X & dp & Y & -> & HX & HY).
    exists X, dp, Y, (if after then SS1 ++ [st] else SS1), (if after then SS2 else st :: SS2). split; [done|]. split; [destruct after; by rewrite <- ?app_assoc|].
    split; [rewrite <- (length_fmap fst X), HX; destruct after; rewrite ?length_app, length_fmap, Hl; done|]. split; [|rewrite HX, HY; destruct after; set_solver].
    rewrite (stay_move after k s ss SS1 SS2 Hk). fold st. destruct after; rewrite <- ?app_assoc, !concat_app; cbn; by rewrite ?app_nil_r, <- ?app_assoc. }
  destruct Hsplit as (X & dp & Y & SX & SY & -> & HS & HlX & Hput & HaX). rewrite HS in Hg'.
  destruct (link_new X pl dp Y SX [s] (move after (Z.of_nat k) ss) SY _ n bs b nb after Hok' (good_any C HC _ _ _ Hg') HlX) as (L3 & Hrun3 & Hok3 & Hg3 & Ha3); [|apply lookup_insert_eq|done..|].
  { assert (Hlen : length (X ++ (pl, dp) :: Y) = S (length (L1 ++ (a, d') :: L2))) by (rewrite <- (length_fmap fst), Ha; destruct after; rewrite !length_app; cbn; rewrite !length_fmap; lia).
    rewrite Hlen, length_app. cbn [length]. lia. }
  mstep Hrun3. rewrite add_count_conc, delete_insert_id in * by done. exists L3. split; [done|]. rewrite <- Hput. split; [split; [done|by eexists]|].
  rewrite Ha3. destruct after; set_solver.
Qed.

(** ** The whole insertion *)

Definition at_end (after : bool) (off c : Z) : bool := if after then (off =? c - 1) || (off =? -1) else (off =? 0) || (off =? - c).

Lemma at_end_spec after ss off k : Z.of_nat k = node_index ss off -> - Zlen ss <= off < Zlen ss ->
  if at_end after off (Zlen ss) then k = (if after then length ss - 1 else 0)%nat else if after then Z.of_nat k + 1 < Zlen ss else 0 < Z.of_nat k.
Proof.
  unfold node_index, at_end. intros Hk Ho. destruct after; destruct (Z.ltb_spec off 0).
  - destruct (Z.eqb_spec off (Zlen ss - 1)), (Z.eqb_spec off (-1)); cbn [orb]; lia.
  - destruct (Z.eqb_spec off (Zlen ss - 1)), (Z.eqb_spec off (-1)); cbn [orb]; lia.
  - destruct (Z.eqb_spec off 0), (Z.eqb_spec off (- Zlen ss)); cbn [orb]; lia.
  - destruct (Z.eqb_spec off 0), (Z.eqb_spec off (- Zlen ss)); cbn [orb]; lia.
Qed.

(** Beside the node at its end. *)
Lemma put_beside (after : bool) k (s : sds) ss SS1 SS2 : (k < length ss)%nat -> k = (if after then length ss - 1 else 0)%nat ->
  put (length (concat SS1) + slot after k) s (concat (SS1 ++ ss :: SS2)) = concat (SS1 ++ pair after ss [s] ++ SS2).
Proof.
  intros Hk Hke. rewrite !concat_app. cbn [concat]. rewrite put_app by (destruct after; cbn [slot]; lia). do 2 f_equal. unfold put. subst k. destruct after; cbn [pair slot concat].
  - rewrite take_ge, drop_ge by lia. by rewrite app_nil_r.
  - by rewrite app_nil_r.
Qed.

Lemma insert_large_spec L1 a d L2 SS1 ss SS2 n bs k p off s (after : bool) :
  ok (L1 ++ (a, d) :: L2) ∅ -> good (Some a) (L1 ++ (a, d) :: L2) (SS1 ++ ss :: SS2) -> length L1 = length SS1 -> cursor d ss k p ->
  Z.of_nat k = node_index ss off -> - Zlen ss <= off < Zlen ss -> bytes_ok s -> bytes (s :: concat (SS1 ++ ss :: SS2)) < MAX_BYTES ->
  exists L', insert_large a s off (at_end after off (Zlen ss)) after (conc (L1 ++ (a, d) :: L2) ∅ n bs) = Some (tt, conc L' ∅ (u64 (n + 1)) bs) /\
    stands L' (put (length (concat SS1) + slot after k) s (concat (SS1 ++ ss :: SS2))) /\ a ∈ L'.*1.
Proof.
  intros Hok Hg Hl Hcur Hki Hoff Hs Hsz. pose proof Hcur as (He & Hk & _). pose proof (at_end_spec after ss off k Hki Hoff) as Hend. unfold insert_large.
  mstep (get_linked F C _ _ _ _ _ n bs Hok). cbn [data]. destruct (good_parts C HC _ _ _ _ _ _ _ _ Hg Hl) as (_ & Hd & _).
  destruct (QL_NODE_IS_PLAIN d || at_end after off (Zlen ss)) eqn:Hw.
  - assert (Hke : k = (if after then length ss - 1 else 0)%nat).
    { apply orb_true_iff in Hw as [Hp|Ha]; [|by rewrite Ha in Hend]. apply bool_decide_eq_true in Hp. destruct (plain_node d ss Hd Hp He) as (? & ? & _ & -> & _). cbn in Hk |- *. destruct after; lia. }
    rewrite (put_beside after k s ss SS1 SS2 Hk Hke). by apply insert_new_plain.
  - apply orb_false_iff in Hw as [Hp Ha]. rewrite Ha in Hend. apply bool_decide_eq_false in Hp. assert (Hc : container d = PACKED) by by destruct (container d).
    by apply (insert_split_large L1 a d L2 SS1 ss SS2 n bs k p off s after).
Qed.

Lemma neighbour_case (after : bool) L1 a d L2 SS1 ss SS2 n bs s :
  ok (L1 ++ (a, d) :: L2) ∅ -> contents L1 SS1 -> contents L2 SS2 -> Zlen s < 2 ^ 62 ->
  let nb := if after then first_of L2 None else last_of None L1 in
  exists r, _quicklistNodeAllowInsert packed_threshold nb F (Zlen s) (conc (L1 ++ (a, d) :: L2) ∅ n bs) = Some (r, conc (L1 ++ (a, d) :: L2) ∅ n bs) /\
    (r = true -> exists b e P Q SP sb SQ, nb = Some b /\ L1 ++ (a, d) :: L2 = P ++ pair after (a, d) (b, e) ++ Q /\ SS1 ++ ss :: SS2 = SP ++ pair after ss sb ++ SQ /\
      length P = length SP /\ container e = PACKED /\ Zlen sb + 1 < 2 ^ 16 /\
      concat (SP ++ pair after ss (joined after s sb) ++ SQ) = concat (SS1 ++ pair after ss [s] ++ SS2)).
Proof.
  intros Hok H1 H2 Hlen nb. unfold nb. destruct after.
  - destruct H2 as [|[b e] sb L2 SS2 Hb H2]; [by exists false|]. cbn [first_of]. change ((a, d) :: ?x) with ([(a, d)] ++ x) in *. rewrite app_assoc in *.
    destruct (allow_insert F C packed_threshold HC HF _ b e L2 ∅ n bs sb (Zlen s) Hok Hb) as (r & Hr & Hp); [lia|]. exists r. split; [done|]. intros Ht. destruct (Hp Ht) as (Hc & Hl & _).
    exists b, e, L1, L2, SS1, sb, SS2. rewrite <- app_assoc. split; [done|]. split; [done|]. split; [done|]. split; [by eapply Forall2_length|]. split; [done|]. split; [done|].
    rewrite !concat_app. cbn. by rewrite !app_nil_r, <- !app_assoc.
  - destruct L1 as [|[b e] L1 _] using rev_ind; [by exists false|]. destruct (contents_mid _ _ _ _ _ H1) as (SS1' & sb & Z & -> & H1' & Hb & Hnil). inversion Hnil; subst. rewrite last_of_snoc, <- !app_assoc in *.
    cbn [app] in *. destruct (allow_insert F C packed_threshold HC HF L1 b e ((a, d) :: L2) ∅ n bs sb (Zlen s) Hok Hb) as (r & Hr & Hp); [lia|]. exists r. split; [done|]. intros Ht. destruct (Hp Ht) as (Hc & Hl & _).
    exists b, e, L1, L2, SS1', sb, SS2. split; [done|]. split; [done|]. split; [done|]. split; [by eapply Forall2_length|]. split; [done|]. split; [done|].
    rewrite !concat_app. cbn. by rewrite !app_nil_r, <- !app_assoc.
Qed.

(** A small element in a full node. *)
Lemma insert_full_spec L1 a d L2 SS1 ss SS2 n bs k p off s (after : bool) avail :
  ok (L1 ++ (a, d) :: L2) ∅ -> good (Some a) (L1 ++ (a, d) :: L2) (SS1 ++ ss :: SS2) -> length L1 = length SS1 -> cursor d ss k p ->
  Z.of_nat k = node_index ss off -> - Zlen ss <= off < Zlen ss -> bytes_ok s -> bytes (s :: concat (SS1 ++ ss :: SS2)) < MAX_BYTES -> 0 <= n < 2 ^ 64 ->
  let nb := if after then first_of L2 None else last_of None L1 in
  (if at_end after off (Zlen ss) then _quicklistNodeAllowInsert packed_threshold nb F (Zlen s) else mret false) (conc (L1 ++ (a, d) :: L2) ∅ n bs) =
    Some (avail, conc (L1 ++ (a, d) :: L2) ∅ n bs) ->
  exists L' bs', insert_full a s off (at_end after off (Zlen ss)) avail nb after (conc (L1 ++ (a, d) :: L2) ∅ n bs) = Some (tt, conc L' ∅ n bs') /\
    stands L' (put (length (concat SS1) + slot after k) s (concat (SS1 ++ ss :: SS2))).
Proof.
  intros Hok Hg Hl Hcur Hki Hoff Hs Hsz Hn nb Hav. pose proof Hcur as (He & Hk & _). pose proof (at_end_spec after ss off k Hki Hoff) as Hend. unfold insert_full.
  destruct (good_parts C HC _ _ _ _ _ _ _ _ Hg Hl) as (H1 & Hd & H2). cbn [bytes] in Hsz. pose proof (bytes_length (concat (SS1 ++ ss :: SS2))).
  destruct (at_end after off (Zlen ss)) eqn:Hat; cbn [andb].
  - rewrite (put_beside after k s ss SS1 SS2 Hk Hend).
    destruct (neighbour_case after L1 a d L2 SS1 ss SS2 n bs s Hok H1 H2) as (r & Hr & Hp); [lia|]. fold nb in Hr, Hp. assert (r = avail) as -> by congruence. destruct avail.
    + destruct (Hp eq_refl) as (b & e & P & Q & SP & sb & SQ & -> & HL & HS & HlP & Hc & Hlim & Hcc). dstep. rewrite <- Hcc. rewrite HL, HS in *.
      destruct (insert_beside P a d b e Q SP ss sb SQ n bs s after) as (L' & Hrun & Hok' & Hg' & _); try done. exists L', bs. split; [done|]. split; [done|]. by eexists.
    + destruct (insert_new_small L1 a d L2 SS1 ss SS2 n bs s after) as (b & L' & Hrun & Hok' & Hg' & _); try done. exists L', bs. split; [done|]. split; [done|]. by eexists.
  - assert (Hc : container d = PACKED).
    { destruct (container d) eqn:Hc; [|done]. destruct (plain_node d ss Hd Hc He) as (? & ? & _ & -> & _). cbn in Hk, Hend. destruct after; lia. }
    by apply (insert_split_small L1 a d L2 SS1 ss SS2 n bs k p off s after).
Qed.

(** After the last element of a node: the node itself stays as it is. *)
Lemma insert_after_end L1 a d L2 SS1 ss SS2 n bs s (avail : bool) off :
  ok (L1 ++ (a, d) :: L2) ∅ -> good (Some a) (L1 ++ (a, d) :: L2) (SS1 ++ ss :: SS2) -> length L1 = length SS1 -> bytes_ok s -> bytes (s :: concat (SS1 ++ ss :: SS2)) < MAX_BYTES ->
  _quicklistNodeAllowInsert packed_threshold (first_of L2 None) F (Zlen s) (conc (L1 ++ (a, d) :: L2) ∅ n bs) = Some (avail, conc (L1 ++ (a, d) :: L2) ∅ n bs) ->
  exists L1' d' L2' SS2', insert_full a s off true avail (first_of L2 None) true (conc (L1 ++ (a, d) :: L2) ∅ n bs) = Some (tt, conc (L1' ++ (a, d') :: L2') ∅ n bs) /\
    ok (L1' ++ (a, d') :: L2') ∅ /\ good None (L1' ++ (a, d') :: L2') (SS1 ++ ss :: SS2') /\ length L1' = length SS1 /\ concat SS2' = s :: concat SS2.
Proof.
  intros Hok Hg Hl Hs Hsz Hav. unfold insert_full. cbn [andb]. destruct (good_parts C HC _ _ _ _ _ _ _ _ Hg Hl) as (H1 & Hd & H2). cbn [bytes] in Hsz. pose proof (bytes_length (concat (SS1 ++ ss :: SS2))).
  assert (Hdone : forall L' SS2' B, L'.*1 = L1.*1 ++ a :: B -> good None L' (SS1 ++ ss :: SS2') -> exists L1' d' L2', L' = L1' ++ (a, d') :: L2' /\ length L1' = length SS1).
  { intros L' SS2' B Ha' _. destruct (addr_parts L' _ a _ Ha') as (X & d' & Y & -> & HX & _). exists X, d', Y. split; [done|]. by rewrite <- (length_fmap fst X), HX, length_fmap. }
  destruct (neighbour_case true L1 a d L2 SS1 ss SS2 n bs s Hok H1 H2) as (r & Hr & Hp); [lia|]. cbn [pair] in Hr, Hp. assert (r = avail) as -> by congruence. destruct avail.
  - destruct H2 as [|[b e] sb L2 SS2 Hb H2]; [done|]. cbn [first_of] in *.
    change ((a, d) :: ?x) with ([(a, d)] ++ x) in Hok, Hav. rewrite app_assoc in Hok, Hav. destruct (allow_insert F C packed_threshold HC HF _ b e L2 ∅ n bs sb (Zlen s) Hok Hb) as (r' & Hr' & Hpp); [lia|].
    assert (r' = true) as -> by congruence. destruct (Hpp eq_refl) as (Hc & Hlim & _). rewrite <- app_assoc in Hok. dstep.
    destruct (insert_beside L1 a d b e L2 SS1 ss sb SS2 n bs s true) as (L' & Hrun & Hok' & Hg' & Ha'); try done. cbn [pair app joined] in *.
    destruct (Hdone L' ((s :: sb) :: SS2) (b :: L2.*1)) as (X & d' & Y & -> & HX); [by rewrite Ha', fmap_app, !fmap_cons|done|]. exists X, d', Y, ((s :: sb) :: SS2). by split.
  - destruct (insert_new_small L1 a d L2 SS1 ss SS2 n bs s true) as (b & L' & Hrun & Hok' & Hg' & Ha'); try done. cbn [pair app] in *.
    destruct (Hdone L' ([s] :: SS2) (b :: L2.*1)) as (X & d' & Y & -> & HX); [done|done|]. exists X, d', Y, ([s] :: SS2). by split.
Qed.

(** [_quicklistInsert] puts the string before or after the element. *)
Lemma insert_spec L SS it e i x s bs (after : bool) :
  ok L ∅ -> good (e_node e) L SS -> entry_at L SS e i x -> bytes_ok s -> bytes (s :: concat SS) < MAX_BYTES ->
  exists it' L' bs', _quicklistInsert packed_threshold it e s after (conc L ∅ (Zlen (concat SS)) bs) = Some (it', conc L' ∅ (Zlen (concat SS) + 1) bs') /\
    stands L' (put (slot after (Z.to_nat i)) s (concat SS)) /\ direction it' = direction it /\ (current it' = None \/ it' = it /\ exists a, e_node e = Some a /\ a ∈ L'.*1).
Proof.
  intros Hok Hg (L1 & a & d & L2 & SS1 & ss & SS2 & k & v & -> & -> & Hl & Hn & _ & _ & _ & _ & Hcur & Hki & Hoff & ->) Hs Hsz. rewrite Hn in Hg. set (n := Zlen (concat (SS1 ++ ss :: SS2))).
  replace (slot after (Z.to_nat (Zlen (concat SS1) + Z.of_nat k))) with (length (concat SS1) + slot after k)%nat by (destruct after; cbn [slot]; lia).
  pose proof Hsz as Hsz'. cbn [bytes] in Hsz'. pose proof (bytes_length (concat (SS1 ++ ss :: SS2))) as Hbl. fold n in Hbl. assert (Hu : u64 (n + 1) = n + 1) by (apply uwrap_small; lia).
  destruct (good_parts C HC _ _ _ _ _ _ _ _ Hg Hl) as (H1 & Hd & H2). destruct (node_count d ss Hd) as [Hcnt Hbd]. unfold _quicklistInsert. dstep. cbn [conc ql qlof fill]. rewrite Hn.
  destruct (allow_insert F C packed_threshold HC HF L1 a d L2 ∅ n bs ss (Zlen s) Hok Hd) as (allow & Hal & Hallow); [lia|]. mstep Hal.
  mstep (get_linked F C _ _ _ _ _ n bs Hok). cbn [data next prev]. rewrite Hcnt. fold (at_end after (e_offset e) (Zlen ss)).
  assert (Hav : exists avail, (if at_end after (e_offset e) (Zlen ss) then _quicklistNodeAllowInsert packed_threshold (if after then first_of L2 None else last_of None L1) F (Zlen s) else mret false)
    (conc (L1 ++ (a, d) :: L2) ∅ n bs) = Some (avail, conc (L1 ++ (a, d) :: L2) ∅ n bs)).
  { destruct (at_end _ _ _); [|by eexists]. destruct (neighbour_case after L1 a d L2 SS1 ss SS2 n bs s Hok H1 H2) as (r & Hr & _); [lia|by exists r]. }
  destruct Hav as (avail & Hav). mstep Hav. destruct (isLargeElement packed_threshold (Zlen s)) eqn:Hlg.
  - destruct (insert_large_spec L1 a d L2 SS1 ss SS2 n bs k (e_zi e) (e_offset e) s after) as (L' & Hrun & Hst & Hin); try done. mstep Hrun. rewrite Hu.
    exists it, L', bs. split; [done|]. split; [done|]. split; [done|]. right. split; [done|]. by exists a.
  - assert (Hbody : exists L' bs', (if negb (negb allow) then p ← lift (e_zi e); insert_into a (fun lp => lpInsertString lp s p (if after then LP_AFTER else LP_BEFORE))
      else insert_full a s (e_offset e) (at_end after (e_offset e) (Zlen ss)) avail (if after then first_of L2 None else last_of None L1) after) (conc (L1 ++ (a, d) :: L2) ∅ n bs) =
      Some (tt, conc L' ∅ n bs') /\ stands L' (put (length (concat SS1) + slot after k) s (concat (SS1 ++ ss :: SS2)))).
    { destruct allow; cbn [negb].
      - destruct (Hallow eq_refl) as (Hc & Hlim & _). destruct (insert_same L1 a d L2 SS1 ss SS2 n bs k (e_zi e) s after) as (q & L' & -> & Hrun & Hst & _); try done. dstep. by exists L', bs.
      - apply (insert_full_spec L1 a d L2 SS1 ss SS2 n bs k (e_zi e)); try done. lia. }
    destruct Hbody as (L' & bs' & Hrun & Hst). rewrite (bind_step _ _ _ _ _ Hrun). mstep (add_count_conc F C L' ∅ n bs' 1). rewrite Hu. exists (resetIterator it), L', bs'.
    split; [done|]. split; [done|]. split; [done|]. by left.
Qed.

End Insert.
End QlInsert.
