(* ===== verification/QuicklistReplace.v ===== *)
(** * Replacing an element of a quicklist

    [quicklistReplaceEntry] puts a string in place of the element of an entry,
    in its listpack, as a plain node, or by an insertion after the element,
    which is then deleted. *)

From stdpp Require Import gmap.
From S2P Require Import Prelude.
From S2P Require Import NumConv.
From S2P Require Import ListpackEnc.
From S2P Require Import Listpack.
From S2P Require Import ListpackOps.
From S2P Require Import ListpackEdit.
From S2P Require Import Quicklist.
From S2P Require Import QuicklistSpec.
From S2P Require Import QuicklistComp.
From S2P Require Import QuicklistNode.
From S2P Require Import QuicklistPush.
From S2P Require Import QuicklistDel.
From S2P Require Import QuicklistSeek.
From S2P Require Import QuicklistRange.
From S2P Require Import QuicklistIter.
From S2P Require Import QuicklistMerge.
From S2P Require Import QuicklistSplit.
From S2P Require Import QuicklistInsert.
Import NumConv LpEnc Lp LpOps LpEdit Quicklist QlSpec QlComp QlNode QlPush QlDel QlSeek QlRange QlIter QlMerge QlSplit QlInsert.

Module QlReplace.

(** ** A list with a node that must not be compressed *)

Definition nodont (v : view) : view := {| v_raw := v_raw v; v_count := v_count v; v_container := v_container v; v_dont := false |}.

Lemma nodont_id v : v_dont v = false -> nodont v = v.
Proof. destruct v. cbn. by intros ->. Qed.

Lemma loose_viewed d ss : node_holds (loose d) ss <-> exists v, viewed d v /\ holds (nodont v) ss.
Proof.
  split.
  - intros (v & [H1 H2 H3 H4 H5 H6 H7] & Hh). exists {| v_raw := v_raw v; v_count := v_count v; v_container := v_container v; v_dont := dont_compress d |}.
    split; [by split|]. unfold nodont. cbn. replace {| v_raw := _ |} with v; [done|]. destruct v. cbn in *. by rewrite <- H4.
  - intros (v & [H1 H2 H3 H4 H5 H6 H7] & Hh). exists (nodont v). by split; [split|].
Qed.

Section Replace.
Context `{Allocator} `{LzfMemory} (F C packed_threshold : Z) (HC : 0 <= C) (HF : -5 <= F <= FILL_MAX).

Abbreviation conc := (conc F C).
Abbreviation tidy := (tidy C).
Abbreviation good := (good C).
Abbreviation stands := (stands C).

#[local] Set Default Proof Using "Type*".

(** The node [a] is kept uncompressed, the other nodes are as usual. *)
Record tied (a : addr) (L : nlist) (G : list view) (SS : list (list sds)) : Prop := {
  ti_views : views L G;
  ti_holds : Forall2 (fun v ss => holds (nodont v) ss) G SS;
  ti_others x : x ∈ L -> x.1 <> a -> dont_compress x.2 = false;
  ti_pin d : (a, d) ∈ L -> encoding d = RAW /\ dont_compress d = true /\ container d = PACKED;
  ti_tidy : tidy L;
  ti_busy : busy (Some a) L;
}.

Lemma contents_weak L SS : contents L SS -> exists G, views L G /\ Forall2 (fun v ss => holds (nodont v) ss) G SS.
Proof.
  intros (G & HG & HS)%contents_views. exists G. split; [done|]. eapply Forall2_impl; [exact HS|]. intros v ss Hh. rewrite nodont_id; [done|apply (hd_dont _ _ Hh)].
Qed.

Lemma weak_contents L G SS : views L G -> Forall2 (fun v ss => holds (nodont v) ss) G SS -> (forall x, x ∈ L -> dont_compress x.2 = false) -> contents L SS.
Proof.
  intros HG HS Hdn. apply contents_views. exists G. split; [done|]. apply Forall2_same_length_lookup. split; [by eapply Forall2_length|]. intros i v ss Hv Hss.
  eapply Forall2_lookup_lr in HS; [|exact Hv|exact Hss]. eapply Forall2_lookup_r in HG as (x & Hx & Hd); [|exact Hv].
  rewrite <- (nodont_id v); [done|]. rewrite <- (vw_dont _ _ Hd). apply Hdn. by eapply list_elem_of_lookup_2.
Qed.

(** The node and the nodes before and after it. *)
Lemma tied_parts a X d Y G SX ss SY :
  tied a (X ++ (a, d) :: Y) G (SX ++ ss :: SY) -> length X = length SX -> NoDup (X ++ (a, d) :: Y).*1 ->
  contents X SX /\ node_holds (loose d) ss /\ contents Y SY /\ encoding d = RAW /\ dont_compress d = true /\ container d = PACKED.
Proof.
  intros [HG HS Ho Hp Ht Hb] Hl Hnd. destruct (nodup_mid _ _ _ _ Hnd) as (HX & HY & _). apply Forall2_app_inv_l in HG as (G1 & G2 & HG1 & HG2 & ->). apply Forall2_cons_inv_l in HG2 as (v & G3 & Hv & HG3 & ->).
  apply Forall2_app_inv in HS as [HS1 HS2]; [|rewrite <- Hl; symmetry; by eapply Forall2_length]. apply Forall2_cons_1 in HS2 as [Hh HS3].
  split; [|split; [|split; [|apply Hp, elem_of_app; right; by left]]].
  - eapply weak_contents; [done|done|]. intros x Hx. apply Ho; [apply elem_of_app; by left|]. intros Heq. apply HX. rewrite <- Heq. by apply list_elem_of_fmap_2.
  - apply loose_viewed. by exists v.
  - eapply weak_contents; [done|done|]. intros x Hx. apply Ho; [apply elem_of_app; right; by right|]. intros Heq. apply HY. rewrite <- Heq. by apply list_elem_of_fmap_2.
Qed.

Lemma tied_join a X d Y SX ss SY :
  contents X SX -> node_holds (loose d) ss -> contents Y SY -> encoding d = RAW -> dont_compress d = true -> container d = PACKED -> NoDup (X ++ (a, d) :: Y).*1 ->
  tidy (X ++ (a, d) :: Y) -> busy (Some a) (X ++ (a, d) :: Y) -> exists G, tied a (X ++ (a, d) :: Y) G (SX ++ ss :: SY).
Proof.
  intros HX Hd HY He Hdn Hc Hnd Ht Hb. destruct (nodup_mid _ _ _ _ Hnd) as (Hx & Hy & _). destruct (contents_weak _ _ HX) as (G1 & HG1 & HS1). destruct (contents_weak _ _ HY) as (G2 & HG2 & HS2).
  apply loose_viewed in Hd as (v & Hv & Hh). exists (G1 ++ v :: G2). split; [apply Forall2_app; [done|]; by constructor|apply Forall2_app; [done|]; by constructor| | |done|done].
  - intros x [Hin|[->|Hin]%elem_of_cons]%elem_of_app Hne; [|done|].
    + apply list_elem_of_lookup in Hin as [i Hi]. eapply (contents_dont _ _ i x.1); [exact HX|by destruct x].
    + apply list_elem_of_lookup in Hin as [i Hi]. eapply (contents_dont _ _ i x.1); [exact HY|by destruct x].
  - intros d' [Hin|[[= ->]|Hin]%elem_of_cons]%elem_of_app; [exfalso; apply Hx; by apply (list_elem_of_fmap_2 fst _ _ Hin)|done|exfalso; apply Hy; by apply (list_elem_of_fmap_2 fst _ _ Hin)].
Qed.

(** Compression keeps this. *)
Lemma tied_recoded a L L' G SS : tied a L G SS -> recoded G L L' -> tidy L' -> tied a L' G SS.
Proof.
  intros [HG HS Ho Hp Ht Hb] Hr Ht'.
  assert (Hback : forall i x', L' !! i = Some x' -> exists x, L !! i = Some x /\ x.1 = x'.1).
  { intros i x' Hx'. destruct (lookup_lt_is_Some_2 L i) as [x Hx]; [rewrite <- (recoded_length _ _ _ Hr); by eapply lookup_lt_Some|]. exists x. split; [done|].
    pose proof (recoded_addr _ _ _ i Hr) as Ha. unfold addr_at in Ha. rewrite Hx, Hx' in Ha. cbn in Ha. congruence. }
  split; [apply (rc_views _ _ _ Hr)|done| | |done|by eapply recoded_busy].
  - intros x' (i & Hx')%list_elem_of_lookup Hne. destruct (Hback i x' Hx') as (x & Hx & Heq). pose proof (rc_views _ _ _ Hr) as HG'.
    eapply Forall2_lookup_l in HG' as (v & Hv & Hd'); [|exact Hx']. eapply Forall2_lookup_lr in HG as Hd; [|exact Hx|exact Hv].
    rewrite (vw_dont _ _ Hd'), <- (vw_dont _ _ Hd). apply Ho; [by eapply list_elem_of_lookup_2|congruence].
  - intros d' (i & Hx')%list_elem_of_lookup. destruct (Hback i _ Hx') as ([a' d] & Hx & Heq). cbn in Heq. subst a'. destruct (Hp d) as (He & Hdn & Hc); [by eapply list_elem_of_lookup_2|].
    destruct (rc_dont _ _ _ Hr i _ _ Hx Hx' Hdn He) as [He' Hdn']. split; [done|]. split; [done|]. pose proof (rc_views _ _ _ Hr) as HG'.
    eapply Forall2_lookup_l in HG' as (v & Hv & Hd'); [|exact Hx']. eapply Forall2_lookup_lr in HG as Hd; [|exact Hx|exact Hv]. cbn in Hd, Hd'. by rewrite (vw_container _ _ Hd'), <- (vw_container _ _ Hd).
Qed.

(** A new node after one of the nodes. *)
Lemma tied_insert a L1 o od L2 G SS1 so SS2 b nd sb :
  tied a (L1 ++ (o, od) :: L2) G (SS1 ++ so :: SS2) -> length L1 = length SS1 -> b <> a -> node_holds nd sb -> encoding nd = RAW -> recompress nd = false ->
  exists G', tied a (L1 ++ (o, od) :: (b, nd) :: L2) G' (SS1 ++ so :: sb :: SS2).
Proof.
  intros [HG HS Ho Hp Ht Hb] Hl Hne Hnd He Hf. pose proof (holds_dont nd sb Hnd) as Hdn. destruct Hnd as (vb & Hvb & Hhb).
  apply Forall2_app_inv_l in HG as (G1 & G2 & HG1 & HG2 & ->). apply Forall2_cons_inv_l in HG2 as (v & G3 & Hv & HG3 & ->).
  apply Forall2_app_inv in HS as [HS1 HS2]; [|rewrite <- Hl; symmetry; by eapply Forall2_length]. apply Forall2_cons_1 in HS2 as [Hh HS3].
  assert (Hin : forall x, x ∈ L1 ++ (o, od) :: (b, nd) :: L2 -> x = (b, nd) \/ x ∈ L1 ++ (o, od) :: L2).
  { intros x [Hx|[->|[->|Hx]%elem_of_cons]%elem_of_cons]%elem_of_app; [right|right|by left|right]; apply elem_of_app; [by left|right; by left|right; by right]. }
  exists (G1 ++ v :: vb :: G3). split.
  - apply Forall2_app; [done|]. constructor; [done|]. by constructor.
  - apply Forall2_app; [done|]. constructor; [done|]. constructor; [|done]. rewrite nodont_id; [done|apply (hd_dont _ _ Hhb)].
  - intros x [->|Hx]%Hin Hxa; [done|by apply Ho].
  - intros d [[= -> _]|Hx]%Hin; [done|by apply Hp].
  - change ((o, od) :: ?x :: L2) with ([(o, od)] ++ x :: L2). rewrite app_assoc. apply tidy_insert; [done|by rewrite <- app_assoc|done|done].
  - intros x [->|Hx]%Hin Hr; [cbn in Hr; congruence|by apply Hb].
Qed.

Lemma link_tied a L1 o od L2 G SS1 so SS2 D n bs b nd sb :
  ok (L1 ++ (o, od) :: L2) D -> tied a (L1 ++ (o, od) :: L2) G (SS1 ++ so :: SS2) -> length L1 = length SS1 -> Zlen (L1 ++ (o, od) :: L2) < 2 ^ 62 -> a ∈ (L1 ++ (o, od) :: L2).*1 ->
  D !! b = Some (alone nd) -> node_holds nd sb -> encoding nd = RAW -> recompress nd = false ->
  exists L' G', __quicklistInsertNode (Some o) b true (conc (L1 ++ (o, od) :: L2) D n bs) = Some (tt, conc L' (delete b D) n bs) /\
    ok L' (delete b D) /\ tied a L' G' (SS1 ++ so :: sb :: SS2) /\ L'.*1 = L1.*1 ++ o :: b :: L2.*1.
Proof.
  intros Hok Ht Hl Hlen Hain Hb Hnd He Hf. assert (Hne : b <> a) by (intros ->; by rewrite (ok_disjoint _ _ Hok a Hain) in Hb).
  destruct (tied_insert a L1 o od L2 G SS1 so SS2 b nd sb Ht Hl Hne Hnd He Hf) as (G' & Ht').
  destruct (insert_node_after F C HC L1 o od L2 D n bs b nd G') as (L' & Hrun & Hok' & Hr & Htd & _); [done|done|lia|apply (ti_views _ _ _ _ Ht')|apply (ti_tidy _ _ _ _ Ht)|done..|].
  exists L', G'. split; [done|]. split; [done|]. split; [by eapply tied_recoded|]. by rewrite (rc_addr _ _ _ Hr), fmap_app.
Qed.

(** The node with the addresses around it. *)
Lemma tied_split a L G SS1 S2 A B :
  tied a L G (SS1 ++ S2) -> L.*1 = A ++ a :: B -> length A = length SS1 -> exists X d Y, L = X ++ (a, d) :: Y /\ length X = length SS1 /\ X.*1 = A /\ Y.*1 = B.
Proof.
  intros _ HL Hl. destruct (addr_parts L A a B HL) as (X & d & Y & -> & HX & HY). exists X, d, Y. split; [done|]. split; [|done]. by rewrite <- (length_fmap fst X), HX.
Qed.

(** A large element after an element of a tied node. *)
Lemma tied_insert_end L1 a d L2 G SS1 ss SS2 n bs s :
  ok (L1 ++ (a, d) :: L2) ∅ -> tied a (L1 ++ (a, d) :: L2) G (SS1 ++ ss :: SS2) -> length L1 = length SS1 -> Zlen (L1 ++ (a, d) :: L2) < 2 ^ 61 -> bytes_ok s -> Zlen s < 2 ^ 61 ->
  exists X d' Y G', __quicklistInsertPlainNode (Some a) s true (conc (L1 ++ (a, d) :: L2) ∅ n bs) = Some (tt, conc (X ++ (a, d') :: Y) ∅ (u64 (n + 1)) bs) /\
    ok (X ++ (a, d') :: Y) ∅ /\ tied a (X ++ (a, d') :: Y) G' (SS1 ++ ss :: [s] :: SS2) /\ length X = length SS1.
Proof.
  intros Hok Ht Hl Hlen Hs Hsl. unfold __quicklistInsertPlainNode. destruct (create_plain F C HC HF _ ∅ n bs s Hok Hs) as (b & nd & Hc & Hb1 & Hb2 & Hok1 & He & Hf & Hv); [lia|]. mstep Hc.
  destruct (link_tied a L1 a d L2 G SS1 ss SS2 _ n bs b nd [s] Hok1 Ht Hl) as (L' & G' & Hrun & Hok' & Ht' & Ha); [lia| |apply lookup_insert_eq| |done..|].
  { rewrite fmap_app. apply elem_of_app. right. by left. } { exists (plain_view s). split; [done|apply plain_holds]. }
  mstep Hrun. rewrite add_count_conc, delete_insert_id in * by done. destruct (tied_split a L' G' SS1 _ _ _ Ht' Ha) as (X & d' & Y & -> & HX & _); [by rewrite length_fmap|]. by exists X, d', Y, G'.
Qed.

Lemma tied_insert_split L1 a d L2 G SS1 ss SS2 n bs k off s :
  ok (L1 ++ (a, d) :: L2) ∅ -> tied a (L1 ++ (a, d) :: L2) G (SS1 ++ ss :: SS2) -> length L1 = length SS1 -> Zlen (L1 ++ (a, d) :: L2) < 2 ^ 61 -> bytes_ok s -> Zlen s < 2 ^ 61 ->
  Z.of_nat k = node_index ss off -> - Zlen ss <= off < Zlen ss -> Z.of_nat k + 1 < Zlen ss ->
  exists X d' Y G', (quicklistDecompressNodeForUse a ;; new_node ← _quicklistSplitNode a off true; entry_node ← __quicklistCreatePlainNode s;
      __quicklistInsertNode (Some a) entry_node true ;; __quicklistInsertNode (Some entry_node) new_node true ;; modify (add_count 1))
      (conc (L1 ++ (a, d) :: L2) ∅ n bs) = Some (tt, conc (X ++ (a, d') :: Y) ∅ (u64 (n + 1)) bs) /\
    ok (X ++ (a, d') :: Y) ∅ /\ tied a (X ++ (a, d') :: Y) G' (SS1 ++ take (S k) ss :: [s] :: drop (S k) ss :: SS2) /\ length X = length SS1.
Proof.
  intros Hok Ht Hl Hlen Hs Hsl Hki Hoff Hin. destruct (tied_parts a L1 d L2 G SS1 ss SS2 Ht Hl (ok_nodup _ _ Hok)) as (H1 & Hd & H2 & He & Hdn & Hc).
  assert (Huse : quicklistDecompressNodeForUse a (conc (L1 ++ (a, d) :: L2) ∅ n bs) = Some (tt, conc (L1 ++ (a, d) :: L2) ∅ n bs)).
  { unfold quicklistDecompressNodeForUse. mstep (get_linked F C _ _ _ _ _ n bs Hok). cbn [data]. by rewrite He. }
  mstep Huse. destruct (split_spec F C HC HF L1 a d L2 ss n bs off true Hok Hd He Hc Hoff) as (b & d1 & nb & Hrun & Hok1 & (Hh1 & He1 & Hf1 & Hc1 & Hdn1) & (Hh2 & He2 & Hf2 & Hc2)); [by rewrite <- Hki|].
  mstep Hrun. rewrite <- Hki in Hh1, Hh2. cbn [stay move] in Hh1, Hh2. replace (Z.to_nat (Z.of_nat k + 1)) with (S k) in Hh1, Hh2 by lia.
  destruct (tied_join a L1 d1 L2 SS1 (take (S k) ss) SS2) as (G1 & Ht1); [done|done|done|done|congruence|done|apply (ok_nodup _ _ Hok1)|apply (tidy_mid C HC L1 a d); [congruence|done|apply (ti_tidy _ _ _ _ Ht)]|apply (busy_mid _ L1 a d); [done|apply (ti_busy _ _ _ _ Ht)]|].
  destruct (create_plain F C HC HF _ _ n bs s Hok1 Hs) as (pl & npl & Hcr & Hp1 & Hp2 & Hok2 & Hep & Hfp & Hvp); [lia|]. mstep Hcr.
  destruct (link_tied a L1 a d1 L2 G1 SS1 _ SS2 _ n bs pl npl [s] Hok2 Ht1 Hl) as (L' & G' & Hrun2 & Hok' & Ht' & Ha); [rewrite length_app in *; cbn [length] in *; lia| |apply lookup_insert_eq| |done..|].
  { rewrite fmap_app. apply elem_of_app. right. by left. } { exists (plain_view s). split; [done|apply plain_holds]. }
  mstep Hrun2. rewrite delete_insert_id in Hok' |- * by done. change (a :: pl :: ?x) with ([a] ++ pl :: x) in Ha. rewrite app_assoc in Ha.
  destruct (addr_parts L' _ pl _ Ha) as (X1 & dp & Y1 & -> & HX1 & HY1). change (SS1 ++ ?x :: [s] :: SS2) with (SS1 ++ [x] ++ [s] :: SS2) in Ht'. rewrite app_assoc in Ht'.
  assert (Hl1 : length X1 = length (SS1 ++ [take (S k) ss])) by (rewrite <- (length_fmap fst X1), HX1, !length_app, length_fmap, Hl; done).
  assert (Hlen1 : Zlen (X1 ++ (pl, dp) :: Y1) = Zlen (L1 ++ (a, d) :: L2) + 1).
  { rewrite <- (length_fmap fst (X1 ++ _)), fmap_app, fmap_cons, HX1, HY1, !length_app. cbn [length]. rewrite !length_fmap. lia. }
  destruct (link_tied a X1 pl dp Y1 G' _ [s] SS2 _ n bs b nb (drop (S k) ss) Hok' Ht' Hl1) as (L3 & G3 & Hrun3 & Hok3 & Ht3 & Ha3); [lia| |apply lookup_insert_eq|done..|].
  { rewrite fmap_app, HX1. apply elem_of_app. left. apply elem_of_app. right. by left. }
  mstep Hrun3. rewrite add_count_conc, delete_insert_id in * by done. rewrite HX1, <- !app_assoc in Ha3. rewrite <- app_assoc in Ht3. cbn [app] in Ha3, Ht3.
  destruct (tied_split a L3 G3 SS1 _ _ _ Ht3 Ha3) as (X & d' & Y & -> & HX & _); [by rewrite length_fmap|]. by exists X, d', Y, G3.
Qed.

(** ** A large element in place of one of a listpack *)

Lemma allow_large L n bs p (s : sds) :
  ok L ∅ -> isLargeElement packed_threshold (Zlen s) = true -> (forall b, p = Some b -> b ∈ L.*1) ->
  _quicklistNodeAllowInsert packed_threshold p F (Zlen s) (conc L ∅ n bs) = Some (false, conc L ∅ n bs).
Proof.
  intros Hok Hlg Hp. unfold _quicklistNodeAllowInsert. destruct p as [b|]; [|done]. specialize (Hp b eq_refl). apply list_elem_of_fmap in Hp as ([b' e] & -> & Hin).
  apply list_elem_of_lookup in Hin as [i Hi]. mstep (get_index F C L ∅ n bs i b' e Hok Hi). by rewrite Hlg, orb_true_r.
Qed.

Lemma first_in (L : nlist) b : first_of L None = Some b -> b ∈ L.*1.
Proof. destruct L as [|[a d] L]; [done|]. intros [= ->]. by left. Qed.

(** The insertion after the element. *)
Lemma insert_tied L1 a d L2 G SS1 ss SS2 n bs k it e s :
  ok (L1 ++ (a, d) :: L2) ∅ -> tied a (L1 ++ (a, d) :: L2) G (SS1 ++ ss :: SS2) -> length L1 = length SS1 -> Zlen (L1 ++ (a, d) :: L2) < 2 ^ 61 -> bytes_ok s -> Zlen s < 2 ^ 61 ->
  isLargeElement packed_threshold (Zlen s) = true -> e_node e = Some a -> (k < length ss)%nat -> Z.of_nat k = node_index ss (e_offset e) -> - Zlen ss <= e_offset e < Zlen ss ->
  exists X d' Y G' SY, quicklistInsertAfter packed_threshold it e s (conc (L1 ++ (a, d) :: L2) ∅ n bs) = Some (it, conc (X ++ (a, d') :: Y) ∅ (u64 (n + 1)) bs) /\
    ok (X ++ (a, d') :: Y) ∅ /\ tied a (X ++ (a, d') :: Y) G' (SS1 ++ take (S k) ss :: SY) /\ length X = length SS1 /\ concat SY = s :: drop (S k) ss ++ concat SS2.
Proof.
  intros Hok Ht Hl Hlen Hs Hsl Hlg Hn Hk Hki Hoff. destruct (tied_parts a L1 d L2 G SS1 ss SS2 Ht Hl (ok_nodup _ _ Hok)) as (H1 & Hd & H2 & He & Hdn & Hc).
  destruct (node_count (loose d) ss Hd) as [Hcnt _]. change (count (loose d)) with (count d) in Hcnt. unfold quicklistInsertAfter, _quicklistInsert. dstep. cbn [conc ql qlof fill]. rewrite Hn.
  assert (Hself : a ∈ (L1 ++ (a, d) :: L2).*1) by (rewrite fmap_app; apply elem_of_app; right; by left).
  mstep (allow_large _ n bs (Some a) s Hok Hlg ltac:(by intros b [= <-])). mstep (get_linked F C _ _ _ _ _ n bs Hok). cbn [data next prev]. rewrite Hcnt.
  assert (Hav : (if (e_offset e =? Zlen ss - 1) || (e_offset e =? -1) then _quicklistNodeAllowInsert packed_threshold (first_of L2 None) F (Zlen s) else mret false) (conc (L1 ++ (a, d) :: L2) ∅ n bs) =
    Some (false, conc (L1 ++ (a, d) :: L2) ∅ n bs)).
  { destruct (_ || _); [|done]. apply allow_large; [done|done|]. intros b Hb%first_in. rewrite fmap_app. apply elem_of_app. right. by right. }
  mstep Hav. rewrite Hlg. pose proof (at_end_spec true ss (e_offset e) k Hki Hoff) as Hend. fold (at_end true (e_offset e) (Zlen ss)). unfold insert_large. rewrite ?bind_bind.
  mstep (get_linked F C _ _ _ _ _ n bs Hok). cbn [data]. unfold QL_NODE_IS_PLAIN. rewrite Hc, bool_decide_false by done. cbn [orb]. destruct (at_end true (e_offset e) (Zlen ss)).
  - destruct (tied_insert_end L1 a d L2 G SS1 ss SS2 n bs s) as (X & d' & Y & G' & Hrun & Hok' & Ht' & HX); try done. rewrite (bind_step _ _ _ _ _ Hrun).
    exists X, d', Y, G', ([s] :: SS2). rewrite take_ge, drop_ge by lia. done.
  - destruct (tied_insert_split L1 a d L2 G SS1 ss SS2 n bs k (e_offset e) s) as (X & d' & Y & G' & Hrun & Hok' & Ht' & HX); try done. rewrite (bind_step _ _ _ _ _ Hrun).
    by exists X, d', Y, G', ([s] :: drop (S k) ss :: SS2).
Qed.

(** What follows it: the element is the last one of its node, and is deleted. *)
Lemma tied_delete X a d Y G SS1 ss SY n bs :
  ok (X ++ (a, d) :: Y) ∅ -> tied a (X ++ (a, d) :: Y) G (SS1 ++ ss :: SY) -> length X = length SS1 -> SY <> [] -> 0 < n < 2 ^ 64 ->
  exists L' bs', (nd ← get a; if count (data nd) =? 1 then __quicklistDelNode a
      else lp ← buffer a; p ← lift (lpSeek lp (-1)); quicklistDelIndex a p ;; update a (with_dont_compress false) ;; quicklistCompress a ;;
           nx ← next_of (Some a); nx ← deref nx; quicklistCompress nx) (conc (X ++ (a, d) :: Y) ∅ n bs) = Some (tt, conc L' ∅ (n - 1) bs') /\
    stands L' (concat SS1 ++ take (length ss - 1) ss ++ concat SY).
Proof.
  intros Hok Ht Hl Hne Hn. destruct (tied_parts a X d Y G SS1 ss SY Ht Hl (ok_nodup _ _ Hok)) as (H1 & Hd & H2 & He & Hdn & Hc).
  destruct (node_count (loose d) ss Hd) as [Hcnt Hbd]. change (count (loose d)) with (count d) in Hcnt. mstep (get_linked F C _ _ _ _ _ n bs Hok). cbn [data]. rewrite Hcnt.
  destruct (Z.eqb_spec (Zlen ss) 1) as [Hone|Hmany].
  - destruct (drop_node F C HC HF X a d Y SS1 SY n bs) as (L' & bs' & Hrun & Hok' & Hg & _); try done; [apply (ti_tidy _ _ _ _ Ht)|apply (ti_busy _ _ _ _ Ht)|].
    rewrite Hrun, Hcnt, Hone, uwrap_small by lia. exists L', bs'. split; [done|]. split; [done|]. eexists. split; [done|]. rewrite concat_app. f_equal. replace (length ss - 1)%nat with 0%nat by lia. done.
  - destruct (seek_node (loose d) ss Hd Hc He) as (lp & Hb & Hseek). specialize (Hseek (-1)). change (entry (loose d)) with (entry d) in Hb. mstep (buffer_linked F C _ _ _ _ _ n bs lp Hok Hb).
    unfold node_index in Hseek. cbn [Z.ltb Z.compare] in Hseek. rewrite (proj2 (Z.leb_le 0 _)) in Hseek by lia. replace (Z.to_nat (Zlen ss + -1)) with (length ss - 1)%nat in Hseek by lia.
    destruct (ss !! (length ss - 1)%nat) as [x|] eqn:Hx; [|apply lookup_ge_None in Hx; lia]. destruct Hseek as (p & v & -> & Hcur & _). dstep.
    destruct (delIndex_spec F C HC HF (Some a) X a d Y SS1 ss SY n bs (length ss - 1) (Some p)) as (g & q & L' & bs' & Hrun & Hok' & Hres); try done; [apply (ti_tidy _ _ _ _ Ht)|apply (ti_busy _ _ _ _ Ht)|by right|].
    mstep Hrun. destruct g; [destruct Hres; lia|]. destruct Hres as (d' & -> & He' & Hf' & Hc' & Hd' & Hdn' & Ht' & Hb').
    mstep (update_linked F C X a d' Y ∅ (n - 1) bs' (with_dont_compress false) Hok'). pose proof (ok_mid _ a _ (loose d') _ _ Hok') as Hok2.
    assert (Hg : good (Some a) (X ++ (a, loose d') :: Y) (SS1 ++ without (length ss - 1) ss :: SY)).
    { split; [by apply contents_join|by apply (tidy_mid C HC X a d')|by apply (busy_mid _ X a d')]. }
    destruct (compress_mid F C HC HF X a (loose d') Y _ ∅ (n - 1) bs' Hok2 Hg) as (L3 & Hr3 & Hok3 & Hg3 & Ha3). mstep Hr3.
    destruct (addr_mid X Y L3 a (loose d') Ha3) as (X3 & d3 & Y3 & -> & _ & HY3 & _). mstep (next_node F C HC HF X3 a d3 Y3 ∅ (n - 1) bs' Hok3).
    destruct Y3 as [|[b e] Y3]. { destruct Y; [|done]. inversion H2; subst. done. }
    cbn [first_of]. dstep. change (X3 ++ (a, d3) :: (b, e) :: Y3) with (X3 ++ [(a, d3)] ++ (b, e) :: Y3) in *. rewrite app_assoc in *.
    destruct (compress_mid F C HC HF _ b e Y3 _ ∅ (n - 1) bs' Hok3 (good_any C HC _ _ _ Hg3)) as (L4 & Hr4 & Hok4 & Hg4 & _). exists L4, bs'. split; [exact Hr4|]. split; [done|].
    eexists. split; [exact Hg4|]. rewrite concat_app. cbn [concat]. unfold without. rewrite (drop_ge ss) by lia. by rewrite app_nil_r.
Qed.

(** ** The cases of a replacement *)

Lemma replace_mid SS1 (ss : list sds) SS2 k s : (k < length ss)%nat ->
  <[(length (concat SS1) + k)%nat := s]> (concat (SS1 ++ ss :: SS2)) = concat SS1 ++ take k ss ++ s :: drop (S k) ss ++ concat SS2.
Proof.
  intros Hk. rewrite concat_app. cbn [concat]. rewrite insert_app_r, insert_app_l by done. rewrite (insert_take_drop ss) by done. by rewrite <- app_assoc.
Qed.

(** In the listpack. *)
Lemma replace_packed L1 a d L2 SS1 ss SS2 n bs k p s :
  ok (L1 ++ (a, d) :: L2) ∅ -> good (Some a) (L1 ++ (a, d) :: L2) (SS1 ++ ss :: SS2) -> length L1 = length SS1 -> cursor d ss k p -> container d = PACKED ->
  bytes_ok s -> bytes (s :: concat (SS1 ++ ss :: SS2)) < MAX_BYTES ->
  exists L', (lp ← buffer a; p ← lift p; set_listpack a (lpReplace lp p s) ;; quicklistNodeUpdateSz a ;; quicklistCompress a) (conc (L1 ++ (a, d) :: L2) ∅ n bs) =
      Some (tt, conc L' ∅ n bs) /\ stands L' (<[(length (concat SS1) + k)%nat := s]> (concat (SS1 ++ ss :: SS2))).
Proof.
  intros Hok Hg Hl (He & Hk & Hcur) Hc Hs Hsz. rewrite Hc in Hcur. destruct Hcur as (lp & es & Hb & Hlp & -> & ->). pose proof (bytes_node s SS1 (elem_string <$> es) SS2) as Hbn.
  destruct (good_parts C HC _ _ _ _ _ _ _ _ Hg Hl) as (H1 & Hd & H2). rewrite replace_mid by done. rewrite length_fmap in Hk.
  mstep (buffer_linked F C _ _ _ _ _ n bs lp Hok Hb). dstep. destruct (string_insert lp es s LP_REPLACE k Hlp Hs Hk) as (lp' & q & Hi & Hr); [lia|]. unfold lpReplace. rewrite Hi.
  mstep (set_listpack_linked F C HC _ _ _ _ ∅ n bs lp' q Hok). pose proof (ok_mid _ a _ (with_entry (Buf lp') d) _ _ Hok) as Hok1.
  mstep (updateSz_linked F C HC L1 a _ L2 ∅ n bs lp' _ Hok1 eq_refl Hr). set (es' := insert_at LP_REPLACE _ _ _) in *.
  pose proof (ok_mid _ a _ (with_sz (pos es' + 1) (with_entry (Buf lp') d)) _ _ Hok) as Hok2.
  assert (Hes : elem_string <$> es' = take k (elem_string <$> es) ++ s :: drop (S k) (elem_string <$> es)).
  { unfold es'. cbn [insert_at]. rewrite fmap_app, fmap_cons, elem_string_of, fmap_take, fmap_drop. do 3 f_equal; lia. }
  assert (Hlen : Zlen (elem_string <$> es') = Zlen (elem_string <$> es)) by (rewrite Hes, length_app, length_take; cbn [length]; rewrite length_drop, !length_fmap; lia).
  assert (Hd' : node_holds (with_sz (pos es' + 1) (with_entry (Buf lp') d)) (elem_string <$> es')).
  { destruct Hd as (v & Hv & Hh). pose proof (hd_bound _ _ Hh). rewrite <- Hlen in *. change (with_sz _ _) with (relisted lp' (pos es' + 1) (count d) d). eapply relisted_holds; try done; [apply (hd_dont _ _ Hh)|].
    by rewrite (vw_count _ _ Hv), (hd_count _ _ Hh). }
  destruct (compress_mid F C HC HF L1 a _ L2 (SS1 ++ (elem_string <$> es') :: SS2) ∅ n bs Hok2) as (L' & Hrun & Hok' & Hg' & _).
  { by apply (good_stay C HC (Some a) L1 a d _ L2 SS1 (elem_string <$> es)). }
  exists L'. split; [exact Hrun|]. split; [done|]. eexists. split; [exact Hg'|]. rewrite concat_app. cbn [concat]. rewrite Hes, <- app_assoc. done.
Qed.

(** A plain node for a plain node. *)
Lemma replace_plain L1 a d L2 SS1 x SS2 n bs s :
  ok (L1 ++ (a, d) :: L2) ∅ -> good (Some a) (L1 ++ (a, d) :: L2) (SS1 ++ [x] :: SS2) -> length L1 = length SS1 -> container d = PLAIN -> encoding d = RAW ->
  bytes_ok s -> Zlen s < 2 ^ 62 ->
  exists L', (update a (with_entry (Buf s)) ;; update a (with_sz (Zlen s)) ;; quicklistCompress a) (conc (L1 ++ (a, d) :: L2) ∅ n bs) =
      Some (tt, conc L' ∅ n bs) /\ stands L' (concat SS1 ++ s :: concat SS2).
Proof.
  intros Hok Hg Hl Hc He Hs Hsl. destruct (good_parts C HC _ _ _ _ _ _ _ _ Hg Hl) as (H1 & Hd & H2). mstep (update_linked F C L1 a d L2 ∅ n bs (with_entry (Buf s)) Hok).
  pose proof (ok_mid _ a _ (with_entry (Buf s) d) _ _ Hok) as Hok1. mstep (update_linked F C L1 a _ L2 ∅ n bs (with_sz (Zlen s)) Hok1).
  pose proof (ok_mid _ a _ (with_sz (Zlen s) (with_entry (Buf s) d)) _ _ Hok) as Hok2.
  assert (Hd' : node_holds (with_sz (Zlen s) (with_entry (Buf s) d)) [s]).
  { destruct Hd as (v & [V1 V2 V3 V4 V5 V6 V7] & Hh). exists (plain_view s). split; [|apply plain_holds]. split; try done; cbn [with_sz with_entry plain_view v_count v_container v_dont count container dont_compress].
    - by rewrite V2, (hd_count _ _ Hh).
    - by rewrite V4, (hd_dont _ _ Hh).
    - unfold stored. cbn [with_sz with_entry encoding entry]. rewrite He. exists []. by rewrite app_nil_r. }
  destruct (compress_mid F C HC HF L1 a _ L2 (SS1 ++ [s] :: SS2) ∅ n bs Hok2) as (L' & Hrun & Hok' & Hg' & _).
  { by apply (good_stay C HC (Some a) L1 a d _ L2 SS1 [x]). }
  exists L'. split; [exact Hrun|]. split; [done|]. eexists. split; [exact Hg'|]. by rewrite concat_app.
Qed.

(** A small element for a plain node: it goes into the next node. *)
Lemma replace_small L1 a d L2 SS1 x SS2 n bs it e s :
  ok (L1 ++ (a, d) :: L2) ∅ -> good (Some a) (L1 ++ (a, d) :: L2) (SS1 ++ [x] :: SS2) -> length L1 = length SS1 -> container d = PLAIN ->
  bytes_ok s -> bytes (s :: concat (SS1 ++ [x] :: SS2)) < MAX_BYTES -> isLargeElement packed_threshold (Zlen s) = false -> e_node e = Some a -> -1 <= e_offset e < 1 -> 0 <= n < 2 ^ 62 ->
  exists L' bs', (quicklistInsertAfter packed_threshold it e s ;; __quicklistDelNode a) (conc (L1 ++ (a, d) :: L2) ∅ n bs) = Some (tt, conc L' ∅ n bs') /\
    stands L' (concat SS1 ++ s :: concat SS2).
Proof.
  intros Hok Hg Hl Hc Hs Hsz Hlg Hn Hoff Hnn. destruct (good_parts C HC _ _ _ _ _ _ _ _ Hg Hl) as (H1 & Hd & H2). destruct (node_count d [x] Hd) as [Hcnt _]. cbn [length] in Hcnt.
  pose proof Hsz as Hsz'. cbn [bytes] in Hsz'. pose proof (bytes_length (concat (SS1 ++ [x] :: SS2))). unfold quicklistInsertAfter, _quicklistInsert. dstep. cbn [conc ql qlof fill]. rewrite Hn.
  assert (Hal : _quicklistNodeAllowInsert packed_threshold (Some a) F (Zlen s) (conc (L1 ++ (a, d) :: L2) ∅ n bs) = Some (false, conc (L1 ++ (a, d) :: L2) ∅ n bs)).
  { unfold _quicklistNodeAllowInsert. mstep (get_linked F C _ _ _ _ _ n bs Hok). cbn [data]. unfold QL_NODE_IS_PLAIN. by rewrite Hc, bool_decide_true. }
  mstep Hal. mstep (get_linked F C _ _ _ _ _ n bs Hok). cbn [data next prev]. rewrite Hcnt.
  replace ((e_offset e =? Z.of_nat 1 - 1) || (e_offset e =? -1)) with true by (destruct (Z.eqb_spec (e_offset e) (Z.of_nat 1 - 1)), (Z.eqb_spec (e_offset e) (-1)); lia).
  destruct (neighbour_case F C packed_threshold HC HF true L1 a d L2 SS1 [x] SS2 n bs s Hok H1 H2) as (avail & Hav & _); [lia|]. mstep Hav. rewrite Hlg. cbn [negb].
  destruct (insert_after_end F C packed_threshold HC HF L1 a d L2 SS1 [x] SS2 n bs s avail (e_offset e)) as (X & d' & Y & SY & Hrun & Hok' & Hg' & HlX & HSY); try done.
  mstep Hrun. mstep (add_count_conc F C (X ++ (a, d') :: Y) ∅ n bs 1). dstep. destruct (good_parts C HC _ _ _ _ _ _ _ _ Hg' HlX) as (H1' & Hd' & H2'). destruct (node_count d' [x] Hd') as [Hcnt' _].
  destruct (drop_node F C HC HF X a d' Y SS1 SY (u64 (n + 1)) bs) as (L' & bs' & Hdel & Hok2 & Hg2 & _); try done; [apply (gd_tidy _ _ _ _ Hg')|apply busy_any, (gd_busy _ _ _ _ Hg')|].
  rewrite Hdel, Hcnt', (uwrap_small 64 (n + 1)), uwrap_small by (cbn [length]; lia). exists L', bs'. replace (n + 1 - Zlen [x]) with n by (cbn [length]; lia). split; [done|]. split; [done|].
  eexists. split; [done|]. by rewrite concat_app, HSY.
Qed.

(** A large element for one in a listpack. *)
Lemma replace_large L1 a d L2 SS1 ss SS2 n bs k p it e s :
  ok (L1 ++ (a, d) :: L2) ∅ -> good (Some a) (L1 ++ (a, d) :: L2) (SS1 ++ ss :: SS2) -> length L1 = length SS1 -> cursor d ss k p -> container d = PACKED ->
  bytes_ok s -> bytes (s :: concat (SS1 ++ ss :: SS2)) < MAX_BYTES -> isLargeElement packed_threshold (Zlen s) = true -> e_node e = Some a ->
  Z.of_nat k = node_index ss (e_offset e) -> - Zlen ss <= e_offset e < Zlen ss -> 0 <= n < 2 ^ 62 ->
  exists L' bs', (update a (with_dont_compress true) ;; quicklistInsertAfter packed_threshold it e s ;; nd ← get a; if count (data nd) =? 1 then __quicklistDelNode a
      else lp ← buffer a; p ← lift (lpSeek lp (-1)); quicklistDelIndex a p ;; update a (with_dont_compress false) ;; quicklistCompress a ;;
           nx ← next_of (Some a); nx ← deref nx; quicklistCompress nx) (conc (L1 ++ (a, d) :: L2) ∅ n bs) = Some (tt, conc L' ∅ n bs') /\
    stands L' (<[(length (concat SS1) + k)%nat := s]> (concat (SS1 ++ ss :: SS2))).
Proof.
  intros Hok Hg Hl (He & Hk & _) Hc Hs Hsz Hlg Hn Hki Hoff Hnn. destruct (good_parts C HC _ _ _ _ _ _ _ _ Hg Hl) as (H1 & Hd & H2). rewrite replace_mid by done.
  pose proof (contents_count _ _ (gd_contents _ _ _ _ Hg)) as Hshort. cbn [bytes] in Hsz. pose proof (bytes_length (concat (SS1 ++ ss :: SS2))).
  mstep (update_linked F C L1 a d L2 ∅ n bs (with_dont_compress true) Hok). pose proof (ok_mid _ a _ (with_dont_compress true d) _ _ Hok) as Hok1.
  destruct (tied_join a L1 (with_dont_compress true d) L2 SS1 ss SS2) as (G & Ht); [done| |done|done|done|done|apply (ok_nodup _ _ Hok1)|apply (tidy_mid C HC L1 a d); [done..|apply (gd_tidy _ _ _ _ Hg)]|apply (busy_mid _ L1 a d); [done|apply (gd_busy _ _ _ _ Hg)]|].
  { change (loose (with_dont_compress true d)) with (loose d). by rewrite (loose_holds d ss Hd). }
  destruct (insert_tied L1 a _ L2 G SS1 ss SS2 n bs k it e s Hok1 Ht Hl) as (X & d' & Y & G' & SY & Hrun & Hok' & Ht' & HlX & HSY); try done; [rewrite length_app in *; cbn [length] in *; lia|lia|].
  mstep Hrun. assert (HSne : SY <> []) by by intros ->.
  destruct (tied_delete X a d' Y G' SS1 (take (S k) ss) SY (u64 (n + 1)) bs Hok' Ht' HlX HSne) as (L' & bs' & Hrun2 & Hst); [rewrite uwrap_small; lia|].
  rewrite Hrun2, uwrap_small by lia. exists L', bs'. replace (n + 1 - 1) with n by lia. split; [done|]. rewrite HSY, length_take, take_take in Hst.
  by replace (Nat.min (Nat.min (S k) (length ss) - 1) (S k)) with k in Hst by lia.
Qed.

(** [quicklistReplaceEntry] replaces the element. *)
Lemma replaceEntry_spec L SS it e i x s bs :
  ok L ∅ -> good (e_node e) L SS -> entry_at L SS e i x -> bytes_ok s -> bytes (s :: concat SS) < MAX_BYTES ->
  exists L' bs', quicklistReplaceEntry packed_threshold it e s (conc L ∅ (Zlen (concat SS)) bs) = Some (resetIterator it, conc L' ∅ (Zlen (concat SS)) bs') /\
    stands L' (<[Z.to_nat i := s]> (concat SS)).
Proof.
  intros Hok Hg (L1 & a & d & L2 & SS1 & ss & SS2 & k & v & -> & -> & Hl & Hn & _ & _ & _ & _ & Hcur & Hki & Hoff & ->) Hs Hsz. rewrite Hn in Hg. set (n := Zlen (concat (SS1 ++ ss :: SS2))).
  replace (Z.to_nat (Zlen (concat SS1) + Z.of_nat k)) with (length (concat SS1) + k)%nat by lia. pose proof Hsz as Hsz'. cbn [bytes] in Hsz'.
  pose proof (bytes_length (concat (SS1 ++ ss :: SS2))) as Hbl. fold n in Hbl. destruct (good_parts C HC _ _ _ _ _ _ _ _ Hg Hl) as (H1 & Hd & H2). pose proof Hcur as (He & Hk & _).
  unfold quicklistReplaceEntry. rewrite Hn. dstep. mstep (get_linked F C _ _ _ _ _ n bs Hok). cbn [data]. unfold QL_NODE_IS_PLAIN. destruct (container d) eqn:Hc.
  - rewrite bool_decide_true by done. cbn [negb andb]. destruct (plain_node d ss Hd Hc He) as (b & y & Hb & -> & _). cbn [length] in Hk. assert (k = 0%nat) as -> by lia.
    rewrite replace_mid by (cbn; lia). cbn [take drop app]. destruct (isLargeElement packed_threshold (Zlen s)) eqn:Hlg.
    + destruct (replace_plain L1 a d L2 SS1 y SS2 n bs s) as (L' & Hrun & Hst); try done; [lia|]. rewrite (bind_step _ _ _ _ _ Hrun). by exists L', bs.
    + destruct (replace_small L1 a d L2 SS1 y SS2 n bs it e s) as (L' & bs' & Hrun & Hst); try done; [lia|]. rewrite (bind_step _ _ _ _ _ Hrun). by exists L', bs'.
  - rewrite bool_decide_false by done. cbn [negb andb]. destruct (isLargeElement packed_threshold (Zlen s)) eqn:Hlg; cbn [negb].
    + destruct (replace_large L1 a d L2 SS1 ss SS2 n bs k (e_zi e) it e s) as (L' & bs' & Hrun & Hst); try done; [lia|]. rewrite (bind_step _ _ _ _ _ Hrun). by exists L', bs'.
    + destruct (replace_packed L1 a d L2 SS1 ss SS2 n bs k (e_zi e) s) as (L' & Hrun & Hst); try done. rewrite (bind_step _ _ _ _ _ Hrun). by exists L', bs.
Qed.

End Replace.
End QlReplace.
