(* ===== verification/QuicklistRun.v ===== *)
(** * A quicklist is a list of strings

    The operations of a quicklist against those of a list of strings, for
    every sequence of operations. *)

From stdpp Require Import gmap.
From S2P Require Import Prelude.
From S2P Require Import NumConv.
From S2P Require Import ListpackEnc.
From S2P Require Import Listpack.
From S2P Require Import ListpackOps.
From S2P Require Import ListpackEdit.
From S2P Require Import Quicklist.
From S2P Require Import QuicklistSpec.
From S2P Require Import QuicklistComp.
From S2P Require Import QuicklistNode.
From S2P Require Import QuicklistPush.
From S2P Require Import QuicklistDel.
From S2P Require Import QuicklistSeek.
From S2P Require Import QuicklistRange.
From S2P Require Import QuicklistIter.
From S2P Require Import QuicklistMerge.
From S2P Require Import QuicklistInsert.
From S2P Require Import QuicklistReplace.
Import NumConv LpEnc Lp LpOps LpEdit Quicklist QlSpec QlComp QlNode QlPush QlDel QlSeek QlRange QlIter QlMerge QlInsert QlReplace.

Module QlRun.

(** ** Operations *)

Inductive op :=
  | Push (w : where_end) (s : sds)
  | Pop (w : where_end)
  | Insert (after : bool) (idx : Z) (s : sds)
  | Replace (idx : Z) (s : sds)
  | DelRange (start cnt : Z)
  | Index (idx : Z).

Inductive answer (A : Type) := Done | Told (b : bool) | Got (v : option A).
Arguments Done {A}.
Arguments Told {A} _.
Arguments Got {A} _.

(** What the callers of the quicklist do. *)
Definition exec `{Allocator} `{LzfMemory} (packed_threshold : Z) (o : op) : M (answer (sds + Z)) :=
  match o with
  | Push w s => quicklistPush packed_threshold s w ;; mret Done
  | Pop w => v ← quicklistPop w; mret (Got v)
  | Insert after idx s =>
      r ← quicklistGetIteratorEntryAtIdx idx;
      match r with
      | None => mret (Told false)
      | Some (it, e) =>
          it ← (if after then quicklistInsertAfter packed_threshold it e s else quicklistInsertBefore packed_threshold it e s);
          quicklistReleaseIterator (Some it) ;; mret (Told true)
      end
  | Replace idx s => b ← quicklistReplaceAtIndex packed_threshold idx s; mret (Told b)
  | DelRange start cnt => b ← quicklistDelRange start cnt; mret (Told b)
  | Index idx =>
      r ← quicklistGetIteratorEntryAtIdx idx;
      match r with
      | None => mret (Got None)
      | Some (it, e) => quicklistReleaseIterator (Some it) ;; mret (Got (e_value e))
      end
  end.

Fixpoint run `{Allocator} `{LzfMemory} (packed_threshold : Z) (ops : list op) : M (list (answer (sds + Z))) :=
  match ops with
  | [] => mret []
  | o :: ops => a ← exec packed_threshold o; l ← run packed_threshold ops; mret (a :: l)
  end.

(** The same operations on a list; an index counts from the tail when it is
    negative. *)
Definition step (o : op) (xs : list sds) : answer sds * list sds :=
  let n := Zlen xs in
  let found idx := bool_decide (0 <= list_index n idx < n) in
  let at_ idx := Z.to_nat (list_index n idx) in
  match o with
  | Push QUICKLIST_HEAD s => (Done, s :: xs)
  | Push QUICKLIST_TAIL s => (Done, xs ++ [s])
  | Pop w => match pop_list w xs with None => (Got None, xs) | Some (x, ys) => (Got (Some x), ys) end
  | Insert after idx s => if found idx then (Told true, put (slot after (at_ idx)) s xs) else (Told false, xs)
  | Replace idx s => if found idx then (Told true, <[at_ idx := s]> xs) else (Told false, xs)
  | DelRange start cnt =>
      if (0 <? cnt) && found start then (Told true, cut (list_index n start) (Z.min cnt (n - list_index n start)) xs) else (Told false, xs)
  | Index idx => (Got (if found idx then xs !! at_ idx else None), xs)
  end.

Fixpoint steps (ops : list op) (xs : list sds) : list (answer sds) * list sds :=
  match ops with
  | [] => ([], xs)
  | o :: ops => let '(a, xs) := step o xs in let '(l, xs) := steps ops xs in (a :: l, xs)
  end.

Definition index_ok (idx : Z) : Prop := LLONG_MIN < idx <= LLONG_MAX.

(** The strings are bytes, the indices are not the smallest [long long], and
    the list stays below 2 GB. *)
Definition allowed (o : op) (xs : list sds) : Prop :=
  match o with
  | Push _ s => bytes_ok s /\ bytes (s :: xs) < MAX_BYTES
  | Pop _ => True
  | Insert _ idx s | Replace idx s => index_ok idx /\ bytes_ok s /\ bytes (s :: xs) < MAX_BYTES
  | DelRange start cnt => index_ok start /\ LLONG_MIN <= cnt <= LLONG_MAX
  | Index idx => index_ok idx
  end.

Fixpoint all_allowed (ops : list op) (xs : list sds) : Prop :=
  match ops with [] => True | o :: ops => allowed o xs /\ all_allowed ops (step o xs).2 end.

(** The answers agree; a value may be an integer, which is written out. *)
Definition same_answer (a : answer (sds + Z)) (b : answer sds) : Prop :=
  match a, b with
  | Done, Done => True
  | Told x, Told y => x = y
  | Got None, Got None => True
  | Got (Some v), Got (Some s) => reads v s
  | _, _ => False
  end.

Section Run.
Context `{Allocator} `{LzfMemory} (F C packed_threshold : Z) (HC : 0 <= C) (HF : -5 <= F <= FILL_MAX).

Abbreviation conc := (conc F C).
Abbreviation good := (good C).
Abbreviation stands := (stands C).

#[local] Set Default Proof Using "Type*".

(** The state stands for the strings [xs]. *)
Definition reps (st : state) (xs : list sds) : Prop :=
  exists L bs, st = conc L ∅ (Zlen xs) bs /\ stands L xs /\ bytes xs < MAX_BYTES.

Lemma reps_short st xs : reps st xs -> Zlen xs < 2 ^ 62.
Proof. intros (L & bs & _ & _ & Hb). pose proof (bytes_length xs). lia. Qed.

(** ** Each operation *)

Definition refines_at (o : op) (st : state) (xs : list sds) : Prop :=
  exists a st', exec packed_threshold o st = Some (a, st') /\ same_answer a (step o xs).1 /\ reps st' (step o xs).2.

(** The assertions of [quicklistPush]: neither end is compressed. *)
Lemma head_assert L SS n bs : ok L ∅ -> good None L SS ->
  (match first_of L None with Some h => hd ← get h; assert (negb (bool_decide (encoding (data hd) = LZF))) | None => mret tt end) (conc L ∅ n bs) = Some (tt, conc L ∅ n bs).
Proof.
  intros Hok Hg. destruct L as [|[h d] L]; [done|]. cbn [first_of]. mstep (get_linked F C [] h d L ∅ n bs Hok). cbn [data].
  destruct (end_raw C HC _ 0 (h, d) (gd_tidy _ _ _ _ Hg) eq_refl) as [He _]; [by left|]. cbn in He. by rewrite He.
Qed.

Lemma tail_assert L SS n bs : ok L ∅ -> good None L SS ->
  (match last_of None L with Some t => td ← get t; assert (negb (bool_decide (encoding (data td) = LZF))) | None => mret tt end) (conc L ∅ n bs) = Some (tt, conc L ∅ n bs).
Proof.
  intros Hok Hg. destruct L as [|[t d] L _] using rev_ind; [done|]. rewrite last_of_snoc. mstep (get_linked F C L t d [] ∅ n bs Hok). cbn [data].
  destruct (end_raw C HC _ (length L) (t, d) (gd_tidy _ _ _ _ Hg)) as [He _]; [by rewrite list_lookup_middle|right; rewrite length_app; cbn; lia|]. cbn in He. by rewrite He.
Qed.

Lemma push_refines w s st xs : reps st xs -> allowed (Push w s) xs -> refines_at (Push w s) st xs.
Proof.
  intros (L & bs & -> & (Hok & SS & Hg & <-) & Hb) [Hs Hsz]. unfold refines_at, exec, quicklistPush. rewrite ?bind_bind. dstep. cbn [conc ql qlof id head tail].
  mstep (head_assert L SS (Zlen (concat SS)) bs Hok Hg). mstep (tail_assert L SS (Zlen (concat SS)) bs Hok Hg). pose proof (bytes_length (concat SS)). cbn [bytes] in Hsz.
  assert (Hu : forall ys : list sds, Zlen ys = Zlen (concat SS) + 1 -> u64 (Zlen (concat SS) + 1) = Zlen ys) by (intros ys ->; apply uwrap_small; lia). destruct w.
  - destruct (pushHead_spec F C packed_threshold HC HF L SS (Zlen (concat SS)) bs s Hok Hg Hs) as (r & L' & SS' & Hrun & Hok' & Hg' & Hc); [done|]. mstep Hrun.
    exists Done. eexists. split; [done|]. split; [done|]. exists L', bs. cbn [step snd]. rewrite (Hu (s :: concat SS)) by (cbn [length]; lia). split; [done|].
    split; [split; [done|by exists SS']|done].
  - destruct (pushTail_spec F C packed_threshold HC HF L SS (Zlen (concat SS)) bs s Hok Hg Hs) as (r & L' & SS' & Hrun & Hok' & Hg' & Hc); [done|]. mstep Hrun.
    exists Done. eexists. split; [done|]. split; [done|]. exists L', bs. cbn [step snd]. rewrite (Hu (concat SS ++ [s])) by (rewrite length_app; cbn [length]; lia). split; [done|].
    split; [split; [done|by exists SS']|]. rewrite bytes_app. cbn [bytes]. lia.
Qed.

Lemma pop_bytes w xs x ys : pop_list w xs = Some (x, ys) -> bytes ys <= bytes xs.
Proof.
  destruct w; cbn [pop_list].
  - destruct xs; [done|]. intros [= -> ->]. cbn [bytes]. lia.
  - rewrite <- (rev_involutive xs) at 2. destruct (rev xs) as [|y r]; [done|]. intros [= -> <-]. cbn [rev]. rewrite bytes_app. cbn [bytes]. lia.
Qed.

Lemma pop_refines w st xs : reps st xs -> refines_at (Pop w) st xs.
Proof.
  intros (L & bs & -> & (Hok & SS & Hg & <-) & Hb). unfold refines_at. cbn [exec step]. pose proof (pop_spec F C HC HF w L SS bs Hok Hg Hb) as Hp.
  destruct (pop_list w (concat SS)) as [[x ys]|] eqn:Hpop.
  - destruct Hp as (v & L' & bs' & SS' & Hrun & Hok' & Hg' & Hc & Hv). mstep Hrun. eexists _, _. split; [done|]. split; [done|]. exists L', bs'. split; [done|].
    split; [split; [done|by exists SS']|]. apply pop_bytes in Hpop. cbn [snd]. lia.
  - mstep Hp. eexists _, _. split; [done|]. split; [done|]. exists L, bs. split; [done|]. split; [|done]. split; [done|by exists SS].
Qed.

Lemma delRange_refines start cnt st xs : reps st xs -> allowed (DelRange start cnt) xs -> refines_at (DelRange start cnt) st xs.
Proof.
  intros (L & bs & -> & (Hok & SS & Hg & <-) & Hb) [Hst Hcnt]. unfold refines_at. cbn [exec step].
  assert (Hsame : reps (conc L ∅ (Zlen (concat SS)) bs) (concat SS)) by (exists L, bs; split; [done|]; split; [|done]; split; [done|by exists SS]).
  destruct (Z.ltb_spec 0 cnt) as [Hpos|Hneg]; cbn [andb].
  2:{ unfold quicklistDelRange. rewrite (proj2 (Z.leb_le cnt 0)) by lia. by eexists _, _. }
  destruct (delRange_spec F C HC HF start cnt L SS bs Hok Hg Hb Hst ltac:(lia)) as [[Hi Hrun]|(Hi & L' & bs' & SS' & Hrun & Hok' & Hg' & Hc)]; mstep Hrun.
  - rewrite bool_decide_false by done. by eexists _, _.
  - rewrite bool_decide_true by done. eexists _, _. split; [done|]. split; [done|]. cbn [snd]. rewrite <- Hc. exists L', bs'. split; [done|]. split; [split; [done|by exists SS']|].
    rewrite Hc. unfold cut. rewrite bytes_app. eapply Z.le_lt_trans; [|exact Hb]. rewrite (bytes_split (concat SS) (Z.to_nat (list_index (Zlen (concat SS)) start))).
    set (i := list_index _ _) in *. set (m := Z.min _ _). replace (Z.to_nat (i + m)) with (Z.to_nat i + Z.to_nat m)%nat by lia. rewrite <- drop_drop, (bytes_split (drop (Z.to_nat i) (concat SS)) (Z.to_nat m)).
    pose proof (bytes_length (take (Z.to_nat m) (drop (Z.to_nat i) (concat SS)))). lia.
Qed.

(** Releasing an iterator whose node is linked. *)
Lemma release_any L xs it n bs : stands L xs -> (forall a, current it = Some a -> a ∈ L.*1) ->
  exists L', quicklistReleaseIterator (Some it) (conc L ∅ n bs) = Some (tt, conc L' ∅ n bs) /\ stands L' xs.
Proof.
  intros (Hok & SS & Hg & <-) Hin. unfold quicklistReleaseIterator. destruct (current it) as [a|]; [|exists L; split; [done|]; split; [done|by exists SS]].
  specialize (Hin a eq_refl). apply list_elem_of_fmap in Hin as ([a' d] & -> & Hin). apply list_elem_of_split in Hin as (X & Y & ->). cbn [fst].
  destruct (compress_mid F C HC HF X a' d Y SS ∅ n bs Hok (good_any C HC _ _ _ Hg)) as (L' & Hrun & Hok' & Hg' & _). exists L'. split; [done|]. split; [done|by exists SS].
Qed.

Lemma value_answer L SS e i s : entry_at L SS e i s -> exists v, e_value e = Some v /\ reads v s.
Proof. intros (L1 & a & d & L2 & SS1 & ss & SS2 & k & v & _ & _ & _ & _ & Hv & Hs & _). by exists v. Qed.

Lemma index_refines idx st xs : reps st xs -> allowed (Index idx) xs -> refines_at (Index idx) st xs.
Proof.
  intros Hst Hidx. pose proof (reps_short _ _ Hst) as Hsh. destruct Hst as (L & bs & -> & (Hok & SS & Hg & <-) & Hb). unfold refines_at. cbn [exec step].
  destruct (entryAtIdx_spec F C HC HF idx L SS bs Hok Hg Hsh Hidx) as [[Hi Hrun]|(Hi & it & e & L' & Hrun & Hy)]; mstep Hrun.
  - rewrite bool_decide_false by done. eexists _, _. split; [done|]. split; [done|]. exists L, bs. split; [done|]. split; [|done]. split; [done|by exists SS].
  - rewrite bool_decide_true by done. destruct Hy as [Ha Hok' Hg' (s & Hs & He) Hit _ _].
    destruct (release_iterator_spec F C HC HF _ L' SS it (Zlen (concat SS)) bs _ Hok' Hg' Hit) as (L2 & Hrel & Hok2 & Hg2 & _). mstep Hrel. eexists _, _. split; [done|].
    destruct (value_answer _ _ _ _ _ He) as (v & -> & Hv). cbn [fst snd]. rewrite Hs. split; [done|]. exists L2, bs. split; [done|]. split; [|done]. split; [done|by exists SS].
Qed.

Lemma insert_refines (after : bool) idx s st xs : reps st xs -> allowed (Insert after idx s) xs -> refines_at (Insert after idx s) st xs.
Proof.
  intros Hst (Hidx & Hs & Hsz). pose proof (reps_short _ _ Hst) as Hsh. destruct Hst as (L & bs & -> & (Hok & SS & Hg & <-) & Hb). unfold refines_at. cbn [exec step].
  destruct (entryAtIdx_spec F C HC HF idx L SS bs Hok Hg Hsh Hidx) as [[Hi Hrun]|(Hi & it & e & L' & Hrun & Hy)]; mstep Hrun.
  - rewrite bool_decide_false by done. eexists _, _. split; [done|]. split; [done|]. exists L, bs. split; [done|]. split; [|done]. split; [done|by exists SS].
  - rewrite bool_decide_true by done. destruct Hy as [Ha Hok' Hg' (x & Hx & He) _ _ (Hcur & _ & _)].
    destruct (insert_spec F C packed_threshold HC HF L' SS it e _ x s bs after Hok' Hg' He Hs Hsz) as (it' & L2 & bs2 & Hins & Hst2 & _ & Hit').
    assert (Hins' : (if after then quicklistInsertAfter packed_threshold it e s else quicklistInsertBefore packed_threshold it e s) (conc L' ∅ (Zlen (concat SS)) bs) =
      Some (it', conc L2 ∅ (Zlen (concat SS) + 1) bs2)) by by destruct after.
    mstep Hins'. destruct (release_any L2 _ it' (Zlen (concat SS) + 1) bs2 Hst2) as (L3 & Hrel & Hst3).
    { intros a Hc. destruct Hit' as [Hno|(-> & b & Hb' & Hin)]; [congruence|]. rewrite Hcur, Hb' in Hc. by injection Hc as ->. }
    mstep Hrel. eexists _, _. split; [done|]. split; [done|]. cbn [snd]. exists L3, bs2. rewrite length_put. split; [done|]. split; [done|]. by rewrite bytes_put.
Qed.

Lemma bytes_replace i s xs : bytes (<[i := s]> xs) <= bytes (s :: xs).
Proof.
  destruct (decide (i < length xs)%nat) as [Hi|Hi]; [|rewrite list_insert_ge by lia; cbn [bytes]; lia]. rewrite insert_take_drop, bytes_app by done. cbn [bytes].
  rewrite (bytes_split xs i). pose proof (bytes_drop_le xs i). lia.
Qed.

Lemma replace_refines idx s st xs : reps st xs -> allowed (Replace idx s) xs -> refines_at (Replace idx s) st xs.
Proof.
  intros Hst (Hidx & Hs & Hsz). pose proof (reps_short _ _ Hst) as Hsh. destruct Hst as (L & bs & -> & (Hok & SS & Hg & <-) & Hb). unfold refines_at. cbn [exec step]. unfold quicklistReplaceAtIndex.
  destruct (entryAtIdx_spec F C HC HF idx L SS bs Hok Hg Hsh Hidx) as [[Hi Hrun]|(Hi & it & e & L' & Hrun & Hy)]; mstep Hrun.
  - rewrite bool_decide_false by done. eexists _, _. split; [done|]. split; [done|]. exists L, bs. split; [done|]. split; [|done]. split; [done|by exists SS].
  - rewrite bool_decide_true by done. destruct Hy as [Ha Hok' Hg' (x & Hx & He) _ _ _].
    destruct (replaceEntry_spec F C packed_threshold HC HF L' SS it e _ x s bs Hok' Hg' He Hs Hsz) as (L2 & bs2 & Hrep & Hst2). mstep Hrep. dstep.
    eexists _, _. split; [done|]. split; [done|]. cbn [snd]. exists L2, bs2. rewrite length_insert. split; [done|]. split; [done|].
    eapply Z.le_lt_trans; [apply bytes_replace|done].
Qed.

Lemma exec_refines o st xs : reps st xs -> allowed o xs -> refines_at o st xs.
Proof.
  intros Hst Ho. destruct o; [by apply push_refines|by apply pop_refines|by apply insert_refines|by apply replace_refines|by apply delRange_refines|by apply index_refines].
Qed.

Lemma run_refines ops : forall st xs, reps st xs -> all_allowed ops xs ->
  exists l st', run packed_threshold ops st = Some (l, st') /\ Forall2 same_answer l (steps ops xs).1 /\ reps st' (steps ops xs).2.
Proof.
  induction ops as [|o ops IH]; intros st xs Hst Hall; [by exists [], st|]. destruct Hall as [Ho Hall]. destruct (exec_refines o st xs Hst Ho) as (a & st1 & Hrun & Ha & Hst1).
  cbn [run steps]. mstep Hrun. destruct (step o xs) as [b xs1] eqn:Hs. cbn [fst snd] in *. destruct (IH st1 xs1 Hst1 Hall) as (l & st2 & Hrun2 & Hl & Hst2). mstep Hrun2.
  destruct (steps ops xs1) as [m xs2]. exists (a :: l), st2. split; [done|]. split; [by constructor|done].
Qed.

(** ** The struct *)

(** A doubly linked list of exactly the nodes of the heap, with the counts of
    the struct, in which only nodes further from both ends than the compress
    depth are compressed and none is waiting to be. *)
Definition well_formed (st : state) : Prop :=
  exists L : nlist, NoDup L.*1 /\ (forall a, is_Some (nodes st !! a) <-> a ∈ L.*1) /\
    head (ql st) = first_of L None /\ tail (ql st) = last_of None L /\ len (ql st) = Zlen L /\ ql_count (ql st) = foldr Z.add 0 ((count ∘ snd) <$> L) /\
    forall i a d, L !! i = Some (a, d) ->
      nodes st !! a = Some {| prev := match i with O => None | S j => addr_at L j end; next := addr_at L (S i); data := d |} /\
      0 < count d /\ recompress d = false /\ dont_compress d = false /\
      (encoding d = LZF -> compress (ql st) <> 0 /\ compress (ql st) <= Z.of_nat i < Zlen L - compress (ql st)).

Lemma contents_sum L SS : contents L SS -> foldr Z.add 0 ((count ∘ snd) <$> L) = Zlen (concat SS).
Proof.
  induction 1 as [|x ss L SS Hx _ IH]; [done|]. rewrite fmap_cons. cbn [foldr concat]. rewrite IH, length_app.
  destruct (node_count x.2 ss Hx) as [Hc _]. unfold compose. lia.
Qed.

Lemma reps_well_formed st xs : reps st xs -> well_formed st.
Proof.
  intros (L & bs & -> & (Hok & SS & Hg & <-) & _). exists L. split; [apply (ok_nodup _ _ Hok)|]. cbn [conc ql nodes qlof head tail len ql_count compress].
  split; [intros a; rewrite map_union_empty; apply seg_dom|]. do 3 (split; [done|]). split; [symmetry; apply contents_sum, (gd_contents _ _ _ _ Hg)|]. intros i a d Hi.
  pose proof (get_index F C L ∅ 0 bs i a d Hok Hi) as Hget. unfold get, lift in Hget. cbn [conc nodes] in Hget. destruct (_ !! a) as [nd|]; [|done]. injection Hget as ->. split; [done|].
  pose proof (gd_contents _ _ _ _ Hg) as Hc. eapply Forall2_lookup_l in Hc as (ss & _ & Hd); [|exact Hi]. cbn in Hd. destruct (node_count d ss Hd) as [-> Hb]. split; [lia|].
  split; [|split; [by eapply holds_dont|]].
  - destruct (recompress d) eqn:E; [|done]. by pose proof (gd_busy _ _ _ _ Hg (a, d) (list_elem_of_lookup_2 _ _ _ Hi) E).
  - intros He. exact (td_depth _ _ (gd_tidy _ _ _ _ Hg) i (a, d) Hi He).
Qed.

End Run.

(** ** Theorems *)

Definition clip_fill (f : Z) : Z := if FILL_MAX <? f then FILL_MAX else if f <? -5 then -5 else f.
Definition clip_compress (c : Z) : Z := if COMPRESS_MAX <? c then COMPRESS_MAX else if c <? 0 then 0 else c.

(** The empty quicklist, for any options. *)
Lemma new_reps f c : 0 <= clip_compress c /\ -5 <= clip_fill f <= FILL_MAX /\
  reps (clip_fill f) (clip_compress c) {| ql := quicklistNew f c; nodes := ∅ |} [].
Proof.
  split; [unfold clip_compress; destruct (Z.ltb_spec COMPRESS_MAX c), (Z.ltb_spec c 0); lia|].
  split; [unfold clip_fill; destruct (Z.ltb_spec FILL_MAX f), (Z.ltb_spec f (-5)); lia|].
  exists [], []. split; [done|]. split; [|done]. split; [split; [constructor|by intros ? ?%elem_of_nil|done]|]. exists []. split; [|done]. split; [constructor| |].
  - by split; intros i x Hx.
  - by intros x ?%elem_of_nil.
Qed.



(** Strings that are stored as integers, a plain node, and three nodes of one
    element. *)
Definition demo : list op :=
  [Push QUICKLIST_TAIL [97]; Push QUICKLIST_HEAD [49; 50]; Push QUICKLIST_TAIL (replicate 8 98); Insert true 0 [99; 99]; Insert false (-1) (replicate 9 100);
   Replace 1 [45; 55]; Index (-3); DelRange 1 2; Pop QUICKLIST_TAIL; Index 5].



End QlRun.
