(* ===== verification/QuicklistCopy.v ===== *)
(** * Appending, copying and freeing nodes of a quicklist

    A listpack becomes the last node, a copy has the same strings and options
    as the original, and freeing leaves no node. *)

From stdpp Require Import gmap.
From S2P Require Import Prelude.
From S2P Require Import NumConv.
From S2P Require Import ListpackEnc.
From S2P Require Import Listpack.
From S2P Require Import ListpackOps.
From S2P Require Import ListpackEdit.
From S2P Require Import Quicklist.
From S2P Require Import QuicklistSpec.
From S2P Require Import QuicklistComp.
From S2P Require Import QuicklistNode.
From S2P Require Import QuicklistPush.
From S2P Require Import QuicklistDel.
From S2P Require Import QuicklistSeek.
From S2P Require Import QuicklistMerge.
From S2P Require Import QuicklistRun.
Import NumConv LpEnc Lp LpOps LpEdit Quicklist QlSpec QlComp QlNode QlPush QlDel QlSeek QlMerge QlRun.

Module QlCopy.

(** ** Freeing *)

Lemma delete_seg p a d L n : NoDup ((a, d) :: L).*1 -> delete a (seg p ((a, d) :: L) n) = seg (Some a) L n.
Proof. cbn. intros [Ha _]%NoDup_cons. rewrite delete_insert_eq, delete_id; [done|by apply seg_none]. Qed.

Lemma release_loop_spec L : forall p st, nodes st = seg p L None -> NoDup L.*1 ->
  exists st', release_loop (length L) (first_of L None) st = Some (tt, st') /\ nodes st' = ∅ /\ len (ql st') = (if decide (L = []) then len (ql st) else u64 (len (ql st) - Zlen L)).
Proof.
  induction L as [|[a d] L IH]; intros p st Hst Hnd; [by exists st|]. cbn [length release_loop first_of].
  assert (Hg : get a st = Some ({| prev := p; next := first_of L None; data := d |}, st)) by (unfold get, lift; by rewrite Hst, seg_cons, lookup_insert_eq).
  dstep. mstep Hg. dstep. unfold zfree. rewrite ?bind_bind. cbn [data].
  assert (Hg' : get a {| ql := add_count (- count d) (ql st); nodes := nodes st |} = Some ({| prev := p; next := first_of L None; data := d |}, {| ql := add_count (- count d) (ql st); nodes := nodes st |})).
  { unfold get, lift. cbn [nodes]. by rewrite Hst, seg_cons, lookup_insert_eq. }
  mstep Hg'. dstep. dstep. cbn [next ql nodes].
  edestruct (IH (Some a) {| ql := add_len (-1) (add_count (- count d) (ql st)); nodes := delete a (nodes st) |}) as (st' & Hrun & Hn & Hl).
  - cbn [nodes]. rewrite Hst. by apply delete_seg.
  - cbn in Hnd. by apply NoDup_cons in Hnd as [_ ?].
  - exists st'. split; [exact Hrun|]. split; [done|]. rewrite Hl. cbn [ql add_len add_count len]. case_decide as HL; [subst; cbn; by replace (len (ql st) + -1) with (len (ql st) - 1) by lia|].
    unfold uwrap. rewrite Zminus_mod_idemp_l. f_equal. cbn [length]. lia.
Qed.

Section Copy.
Context `{Allocator} `{LzfMemory} (F C packed_threshold : Z) (HC : 0 <= C) (HF : -5 <= F <= FILL_MAX).

Abbreviation conc := (conc F C).
Abbreviation tidy := (tidy C).
Abbreviation good := (good C).
Abbreviation stands := (stands C).

#[local] Set Default Proof Using "Type*".

Lemma quicklistRelease_spec L n bs : ok L ∅ -> exists st, quicklistRelease (conc L ∅ n bs) = Some (tt, st) /\ nodes st = ∅ /\ len (ql st) = 0 /\ bookmarks (ql st) = [].
Proof.
  intros Hok. unfold quicklistRelease. dstep. cbn [conc ql qlof id len head].
  destruct (release_loop_spec L None (conc L ∅ n bs)) as (st & Hrun & Hn & Hl); [cbn [conc nodes]; by rewrite map_union_empty|apply (ok_nodup _ _ Hok)|].
  rewrite Nat2Z.id. mstep Hrun. eexists. split; [done|]. cbn [nodes ql with_bookmarks len bookmarks]. split; [done|]. split; [|done]. rewrite Hl. cbn [conc ql qlof len].
  case_decide; [by subst|]. by rewrite Z.sub_diag.
Qed.

(** ** A listpack as the last node *)

Lemma appendListpack_spec L SS n bs lp es :
  ok L ∅ -> good None L SS -> bytes (concat SS) < MAX_BYTES -> repr lp es -> 0 < Zlen es < 2 ^ 16 ->
  exists L', quicklistAppendListpack lp (conc L ∅ n bs) = Some (tt, conc L' ∅ (u64 (n + Zlen es)) bs) /\ ok L' ∅ /\ good None L' (SS ++ [elem_string <$> es]).
Proof.
  intros Hok Hg Hsz Hlp Hlen. unfold quicklistAppendListpack. destruct (QlSpec.create_spec F C L ∅ n bs Hok) as (b & Hc & Hb1 & Hb2 & Hok1). mstep Hc.
  destruct (lpLength_spec lp es Hlp) as (lp' & Hl & Hlp' & _). erewrite bind_step by (unfold lift; by rewrite Hl). cbv beta iota.
  destruct (update_other F C L _ n bs b _ (with_entry (Buf lp')) Hok1 (lookup_insert_eq _ _ _)) as [Hu1 Hok2]. mstep Hu1. rewrite insert_insert_eq in *.
  destruct (update_other F C L _ n bs b _ (with_count (u16 (Zlen es))) Hok2 (lookup_insert_eq _ _ _)) as [Hu2 Hok3]. mstep Hu2. rewrite insert_insert_eq in *.
  erewrite bind_step by (unfold lift; by rewrite (repr_bytes lp' es Hlp')). cbv beta.
  destruct (update_other F C L _ n bs b _ (with_sz (pos es + 1)) Hok3 (lookup_insert_eq _ _ _)) as [Hu3 Hok4]. mstep Hu3. rewrite insert_insert_eq in *. dstep.
  cbn [conc ql qlof tail prev next data alone]. set (nd := with_sz _ _) in *. change {| prev := None; next := None; data := nd |} with (alone nd) in *.
  assert (Hnd : node_holds nd (elem_string <$> es)).
  { destruct (exact_split lp' es Hlp') as (r & sl & -> & He & Hb). exists {| v_raw := r; v_count := Zlen es; v_container := PACKED; v_dont := false |}. split; [|split; cbn; rewrite ?length_fmap; try done; by exists es].
    split; cbn; try done; [by destruct He|apply uwrap_small; lia|by exists sl|]. destruct He as [_ ->]. destruct Hlp' as (_ & Hlt & _). lia. }
  destruct Hnd as (nv & Hv & Hh). destruct Hg as [Hcs Ht Hbz]. pose proof (contents_count _ _ Hcs). apply contents_views in Hcs as (G & HG & HS).
  destruct (insert_tail F C HC HF L _ n bs b nd nv G Hok4 (lookup_insert_eq _ _ _)) as (L' & Hi & Hok' & Hr & Ht'); [lia|done..|].
  rewrite delete_insert_id in * by done. unfold _quicklistInsertNodeAfter. mstep Hi.
  destruct (addr_mid L [] L' b nd (rc_addr _ _ _ Hr)) as (L1 & d & [|] & -> & _ & Hnil & Hl1); [|done]. mstep (get_linked F C L1 b d [] ∅ n bs Hok'). cbn [data].
  pose proof (rc_views _ _ _ Hr) as HV. pose proof HV as HV'. apply Forall2_app_inv in HV as [_ HV2]; [|by rewrite Hl1; apply views_length]. apply Forall2_cons_1 in HV2 as [Hd _]. cbn [snd] in Hd.
  exists (L1 ++ [(b, d)]). rewrite add_count_conc. rewrite (vw_count _ _ Hd), (hd_count _ _ Hh), length_fmap. split; [done|]. split; [done|]. split; [|done|].
  - apply contents_views. exists (G ++ [nv]). split; [done|]. apply Forall2_app; [done|]. constructor; [done|constructor].
  - apply (recoded_busy _ _ _ _ Hr). by apply busy_snoc.
Qed.

(** ** Copying *)

(** While the copy is short nothing is compressed or decompressed, and it has
    the encodings of the original; after that its ends are not compressed. *)
Record copied (Lo L : nlist) (SP : list (list sds)) : Prop := {
  cp_ok : ok L ∅;
  cp_contents : contents L SP;
  cp_busy : busy None L;
  cp_short : C = 0 \/ Zlen L < C * 2 -> forall i x, L !! i = Some x -> encoding x.2 = LZF -> exists y, Lo !! i = Some y /\ encoding y.2 = LZF;
  cp_long : C <> 0 -> C * 2 <= Zlen L -> depth_ok C L;
}.

Lemma compress_copy L n bs SS i a d (Lo : nlist) :
  ok L ∅ -> contents L SS -> busy None L -> L !! i = Some (a, d) ->
  (C = 0 \/ Zlen L < C * 2 -> forall i x, L !! i = Some x -> encoding x.2 = LZF -> exists y, Lo !! i = Some y /\ encoding y.2 = LZF) ->
  exists L', quicklistCompress a (conc L ∅ n bs) = Some (tt, conc L' ∅ n bs) /\ L'.*1 = L.*1 /\ copied Lo L' SS.
Proof.
  intros Hok Hcs Hbz Hi Hsh. assert (Hno : forall j x, L !! j = Some x -> recompress x.2 = false).
  { intros j x Hx. destruct (recompress x.2) eqn:E; [|done]. by pose proof (Hbz x (list_elem_of_lookup_2 _ _ _ Hx) E). }
  unfold quicklistCompress. mstep (get_index F C L ∅ n bs i a d Hok Hi). cbn [data]. pose proof (Hno _ _ Hi) as Hd. cbn [snd] in Hd. rewrite Hd.
  destruct (decide (C = 0 \/ Zlen L < C * 2)) as [Hs|Hl].
  - exists L. split; [|split; [done|by split; [..|lia]]]. unfold __quicklistCompress. dstep. cbn [conc ql qlof id len head tail compress]. pose proof (lookup_lt_Some _ _ _ Hi).
    rewrite (proj2 (Z.eqb_neq _ _)) by lia. destruct (addr_some L 0) as (h & hd & Hh & Hah); [lia|]. destruct (addr_some L (length L - 1)) as (t & td & Ht & Hat); [lia|].
    rewrite first_at, last_at, Hah, Hat. dstep. mstep (get_index F C L ∅ n bs _ _ _ Hok Hh). dstep. mstep (get_index F C L ∅ n bs _ _ _ Hok Ht). cbn [data].
    pose proof (Hno _ _ Hh) as Eh. pose proof (Hno _ _ Ht) as Et. cbn in Eh, Et. rewrite Eh, Et. dstep.
    destruct Hs as [->|Hs]; [done|]. by rewrite (proj2 (Z.ltb_lt _ _) Hs), orb_true_r.
  - pose proof Hcs as Hcs'. apply contents_views in Hcs' as (G & HG & HS).
    destruct (compress_all_spec F C HC (Some a) L ∅ n bs G Hok HG) as (L' & Hrun & Hok' & Hr & Hdp).
    { intros j x Hx _. by apply (Hno j). }
    { intros Hs. by destruct Hl. }
    { intros b [= <-]. apply (list_elem_of_fmap_2 fst L (a, d)), list_elem_of_lookup_2 with i, Hi. }
    exists L'. split; [done|]. split; [apply (rc_addr _ _ _ Hr)|]. split; [done|by eapply recoded_contents|by apply (recoded_busy _ _ _ _ Hr)| |done].
    rewrite (recoded_length _ _ _ Hr). intros Hs. by destruct Hl.
Qed.

(** The fields of the copy of a node. *)
Definition node_copy (e : pointee) (d : nodeData) : nodeData :=
  {| entry := e; sz := sz d; count := count d; encoding := encoding d; container := container d; recompress := false; dont_compress := false |}.

Definition copy_entry (d : nodeData) : option pointee :=
  match encoding d, entry d with
  | LZF, LzfBuf b => Some (LzfBuf b)
  | RAW, Buf b => bs ← rd b 0 (sz d); Some (Buf bs)
  | _, _ => None
  end.

Lemma copy_entry_holds d ss : node_holds d ss -> exists e, copy_entry d = Some e /\ node_holds (node_copy e d) ss.
Proof.
  intros (v & Hv & Hh). assert (Hc : exists e, copy_entry d = Some e /\ stored (node_copy e d) (v_raw v)).
  { pose proof (vw_stored _ _ Hv) as Hs. unfold stored, copy_entry in *. cbn [node_copy encoding entry]. destruct (encoding d), (entry d) as [| |b]; try done.
    - destruct Hs as (sl & ->). rewrite (rd_app [] (v_raw v) sl) by (rewrite ?(vw_sz _ _ Hv); cbn; lia). eexists. split; [done|]. exists []. by rewrite app_nil_r.
    - by eexists. }
  destruct Hc as (e & He & Hs). exists e. split; [done|]. exists v. split; [|done]. destruct Hv. split; try done. cbn. symmetry. apply (hd_dont _ _ Hh).
Qed.

Lemma copy_step L D n bs cd e ss A (k : addr -> M A) :
  ok L D -> node_holds cd ss -> copy_entry cd = Some e ->
  exists b, b ∉ L.*1 /\ D !! b = None /\ ok L (<[b := alone (node_copy e cd)]> D) /\
    (node ← quicklistCreateNode; e ← lift (copy_entry cd); update node (with_entry e) ;; update node (with_count (count cd)) ;; modify (add_count (count cd)) ;;
     update node (with_sz (sz cd)) ;; update node (with_encoding (encoding cd)) ;; update node (with_container (container cd)) ;; k node) (conc L D n bs) =
    k b (conc L (<[b := alone (node_copy e cd)]> D) (u64 (n + count cd)) bs).
Proof.
  intros Hok Hd He. destruct (QlSpec.create_spec F C L D n bs Hok) as (b & Hc & Hb1 & Hb2 & Hok1). exists b. split; [done|]. split; [done|].
  assert (Hup : forall n f nd, ok L (<[b := alone nd]> D) -> update b f (conc L (<[b := alone nd]> D) n bs) = Some (tt, conc L (<[b := alone (f nd)]> D) n bs) /\ ok L (<[b := alone (f nd)]> D)).
  { intros m f nd Hok'. pose proof (update_other F C L _ m bs b _ f Hok' (lookup_insert_eq _ _ _)) as Hu. by rewrite insert_insert_eq in Hu. }
  mstep Hc. erewrite bind_step by (unfold lift; by rewrite He). cbv beta. destruct (Hup n (with_entry e) _ Hok1) as [Hu1 Hok2]. mstep Hu1.
  destruct (Hup n (with_count (count cd)) _ Hok2) as [Hu2 Hok3]. mstep Hu2. mstep (add_count_conc F C L (<[b := alone (with_count (count cd) (with_entry e fresh_data))]> D) n bs (count cd)).
  set (m := u64 _). destruct (Hup m (with_sz (sz cd)) _ Hok3) as [Hu3 Hok4]. mstep Hu3. destruct (Hup m (with_encoding (encoding cd)) _ Hok4) as [Hu4 Hok5]. mstep Hu4.
  destruct (Hup m (with_container (container cd)) _ Hok5) as [Hu5 Hok6]. mstep Hu5. done.
Qed.

Lemma copy_insert Lo L SP n bs b nd ss :
  copied Lo L SP -> ok L (<[b := alone nd]> ∅) -> node_holds nd ss -> recompress nd = false -> (encoding nd = LZF -> exists y, Lo !! length L = Some y /\ encoding y.2 = LZF) ->
  Zlen L < 2 ^ 62 -> exists L', _quicklistInsertNodeAfter (last_of None L) b (conc L (<[b := alone nd]> ∅) n bs) = Some (tt, conc L' ∅ n bs) /\
    length L' = S (length L) /\ copied Lo L' (SP ++ [ss]).
Proof.
  intros Hcp Hok Hd Hf He Hlen. unfold _quicklistInsertNodeAfter.
  assert (Hok' : ok (L ++ [(b, nd)]) ∅).
  { pose proof (ok_insert L [] (<[b := alone nd]> ∅) b (alone nd)) as Hi. rewrite app_nil_r, delete_insert_id in Hi by done. apply Hi; [done|apply lookup_insert_eq|lia]. }
  assert (Hcs : contents (L ++ [(b, nd)]) (SP ++ [ss])) by (apply contents_app; [apply (cp_contents _ _ _ Hcp)|by constructor; [|constructor]]).
  assert (Hbz : busy None (L ++ [(b, nd)])) by (apply busy_snoc; [apply (cp_busy _ _ _ Hcp)|done]).
  assert (Hsh : C = 0 \/ Zlen (L ++ [(b, nd)]) < C * 2 -> forall i x, (L ++ [(b, nd)]) !! i = Some x -> encoding x.2 = LZF -> exists y, Lo !! i = Some y /\ encoding y.2 = LZF).
  { rewrite length_app. cbn [length]. intros Hs i x Hx Hz. apply lookup_app_Some in Hx as [Hx|[Hi Hx]]; [by eapply (cp_short _ _ _ Hcp); [lia|..]|].
    apply list_lookup_singleton_Some in Hx as [Hi0 <-]. replace i with (length L) by lia. by apply He. }
  assert (Hfin : exists L', quicklistCompress b (conc (L ++ [(b, nd)]) ∅ n bs) = Some (tt, conc L' ∅ n bs) /\ L'.*1 = (L ++ [(b, nd)]).*1 /\ copied Lo L' (SP ++ [ss])).
  { apply (compress_copy _ n bs _ (length L) b nd Lo Hok' Hcs Hbz); [by rewrite list_lookup_middle|done]. }
  assert (Hlen' : forall L' : nlist, L'.*1 = (L ++ [(b, nd)]).*1 -> length L' = S (length L)).
  { intros L' HL. apply (f_equal length) in HL. rewrite !length_fmap, length_app in HL. cbn [length] in HL. lia. }
  destruct L as [|[o od] L1 _] using rev_ind.
  - cbn [last_of]. rewrite (insert_empty_eq F C _ n bs b nd true Hok (lookup_insert_eq _ _ _)), delete_insert_id by done.
    destruct Hfin as (L' & Hrun & Ha & Hc). exists L'. split; [done|]. split; [by apply Hlen'|done].
  - rewrite last_of_snoc, (insert_after_eq F C L1 o od [] _ n bs b nd Hok (lookup_insert_eq _ _ _)), delete_insert_id by (done || lia).
    rewrite <- app_assoc in *. cbn [app] in *.
    destruct (compress_copy _ n bs _ (length L1) o od Lo Hok' Hcs Hbz) as (L2 & Hrun & Ha & Hc2); [by rewrite list_lookup_middle|done|]. mstep Hrun.
    assert (Hb : exists d', L2 !! S (length L1) = Some (b, d')).
    { apply (f_equal (.!! S (length L1))) in Ha. rewrite !list_lookup_fmap, lookup_app_r in Ha by lia. replace (S _ - _)%nat with 1%nat in Ha by lia. cbn in Ha.
      destruct (L2 !! _) as [[b' d']|]; [|done]. cbn in Ha. injection Ha as ->. by exists d'. }
    destruct Hb as (d' & Hb). destruct (compress_copy L2 n bs _ (S (length L1)) b d' Lo (cp_ok _ _ _ Hc2) (cp_contents _ _ _ Hc2) (cp_busy _ _ _ Hc2) Hb (cp_short _ _ _ Hc2)) as (L3 & Hrun3 & Ha3 & Hc3).
    exists L3. split; [done|]. split; [|done]. apply Hlen'. by rewrite Ha3.
Qed.

Lemma dup_loop_spec Lo no bso : forall R SR P SP L fuel,
  Lo = P ++ R -> ok Lo ∅ -> contents R SR -> busy None Lo -> copied Lo L SP -> length L = length P -> (length R <= fuel)%nat -> bytes (concat (SP ++ SR)) < MAX_BYTES ->
  exists L', dup_loop fuel (nodes (conc Lo ∅ no bso)) (first_of R None) (conc L ∅ (Zlen (concat SP)) []) = Some (tt, conc L' ∅ (Zlen (concat (SP ++ SR))) []) /\
    copied Lo L' (SP ++ SR) /\ length L' = length Lo.
Proof.
  induction R as [|[a cd] R IH]; intros SR P SP L fuel HLo Hok HR Hbz Hcp Hl Hfuel Hsz.
  { inversion HR; subst. exists L. rewrite !app_nil_r in *. by destruct fuel. }
  inversion HR as [|? ss ? SR' Hd HR']; subst SR. cbn [snd] in Hd. destruct fuel as [|fuel]; [cbn in Hfuel; lia|]. cbn [dup_loop first_of].
  assert (Ha : nodes (conc Lo ∅ no bso) !! a = Some {| prev := last_of None P; next := first_of R None; data := cd |}) by (subst Lo; by apply conc_lookup).
  erewrite bind_step by (unfold lift; by rewrite Ha). cbv beta. cbn [data next]. destruct (copy_entry_holds cd ss Hd) as (e & He & Hnd). destruct (node_count cd ss Hd) as [Hcnt Hbd].
  destruct (copy_step L ∅ (Zlen (concat SP)) [] cd e ss unit
    (fun node => t ← gets tail; _quicklistInsertNodeAfter t node ;; dup_loop fuel (nodes (conc Lo ∅ no bso)) (first_of R None)) (cp_ok _ _ _ Hcp) Hd He) as (b & Hb1 & Hb2 & Hok1 & Hrun).
  unfold copy_entry in Hrun at 1. rewrite Hrun. clear Hrun. dstep. cbn [conc ql qlof tail].
  pose proof (contents_count _ _ (cp_contents _ _ _ Hcp)) as Hcount. rewrite concat_app, bytes_app in Hsz. cbn [concat] in Hsz. rewrite bytes_app in Hsz.
  pose proof (bytes_length (concat SP)). pose proof (bytes_length ss). pose proof (bytes_length (concat SR')).
  destruct (copy_insert Lo L SP (u64 (Zlen (concat SP) + count cd)) [] b (node_copy e cd) ss Hcp Hok1 Hnd eq_refl) as (L' & Hins & Hl' & Hcp').
  { cbn [node_copy encoding]. intros Hz. exists (a, cd). split; [|done]. subst Lo. by rewrite Hl, list_lookup_middle. }
  { lia. }
  mstep Hins. assert (Hn : u64 (Zlen (concat SP) + count cd) = Zlen (concat (SP ++ [ss]))) by (rewrite concat_app, length_app; cbn; rewrite app_nil_r, Hcnt; rewrite uwrap_small; lia).
  rewrite Hn. destruct (IH SR' (P ++ [(a, cd)]) (SP ++ [ss]) L' fuel) as (L2 & Hrun & Hc2 & Hl2); try done.
  - by rewrite <- app_assoc.
  - rewrite length_app. cbn. lia.
  - cbn in Hfuel. lia.
  - rewrite <- app_assoc, concat_app, bytes_app. cbn. rewrite bytes_app. lia.
  - rewrite <- app_assoc in *. by exists L2.
Qed.

Lemma dup_spec st xs : C <= COMPRESS_MAX -> reps F C st xs -> exists st', quicklistDup st = Some st' /\ reps F C st' xs.
Proof.
  intros HC' (L & bs & -> & (Hok & SS & [Hcs Ht Hbz] & <-) & Hsz). unfold quicklistDup. cbn [conc ql qlof fill compress head].
  assert (Hnew : {| ql := quicklistNew F C; nodes := ∅ |} = conc [] ∅ (Zlen (concat ([] : list (list sds)))) []).
  { unfold conc, qlof. cbn [seg first_of last_of length concat]. rewrite map_empty_union. f_equal. unfold quicklistNew, quicklistSetOptions, quicklistSetFill, quicklistSetCompressDepth.
    destruct (Z.ltb_spec FILL_MAX F), (Z.ltb_spec F (-5)), (Z.ltb_spec COMPRESS_MAX C), (Z.ltb_spec C 0); try lia. done. }
  rewrite Hnew. destruct (dup_loop_spec L (Zlen (concat SS)) bs L SS [] [] [] (length L)) as (L' & Hrun & Hcp & Hl); try done.
  { split; [split; [constructor|by intros ? ?%elem_of_nil|done]|constructor|by intros ? ?%elem_of_nil|by intros _ ? ?|by intros _ _ ? ?]. }
  assert (Hsize : size (nodes (conc L ∅ (Zlen (concat SS)) bs)) = length L) by (cbn [conc nodes]; rewrite map_union_empty; apply seg_size, (ok_nodup _ _ Hok)).
  cbn [app] in *. change (seg None L None ∪ ∅) with (nodes (conc L ∅ (Zlen (concat SS)) bs)). rewrite Hsize, Hrun. eexists. split; [done|]. exists L', []. split; [done|]. split; [|done].
  split; [apply (cp_ok _ _ _ Hcp)|]. exists SS. split; [|done]. pose proof (cp_busy _ _ _ Hcp) as Hb. split; [apply (cp_contents _ _ _ Hcp)| |done].
  assert (Hno : forall i x, L' !! i = Some x -> recompress x.2 = true -> False) by (intros i x Hx Hr; by pose proof (Hb x (list_elem_of_lookup_2 _ _ _ Hx) Hr)).
  split; [|by intros i x Hx Hr; destruct (Hno i x)..]. destruct (decide (C = 0 \/ Zlen L' < C * 2)) as [Hs|Hs]; [|apply (cp_long _ _ _ Hcp); lia].
  intros i x Hx Hz. destruct (cp_short _ _ _ Hcp Hs i x Hx Hz) as (y & Hy & Hyz). destruct (td_depth _ _ Ht i y Hy Hyz) as [HC0 Hin]. apply lookup_lt_Some in Hx. lia.
Qed.

End Copy.

End QlCopy.
