(* ===== verification/ListType.v ===== *)
(** * Lists (src/redis-7.2.4/src/t_list.c, the list API)

    A list is a listpack or a quicklist, and is converted between these
    encodings when a limit of the configuration is passed or the list has
    shrunk.  The functions below compose the models of the two structures.
    [None] is a failed assertion, an access outside a buffer or to a freed
    node, or a null pointer that the code does not check for.  The callback
    before a conversion is a null pointer in all calls of this file. *)

From stdpp Require Import gmap.
From S2P Require Import Prelude.
From S2P Require Import NumConv.
From S2P Require Import ListpackEnc.
From S2P Require Import Listpack.
From S2P Require Import Quicklist.
Import NumConv LpEnc Lp Quicklist.

Module ListType.

(** The configuration in [server]. *)
Record redisServer := {
  list_max_listpack_size : Z;
  list_compress_depth : Z;
}.

(** The encoding and [ptr] of a list object. *)
Inductive lobj :=
  | ObjListpack (lp : list Z)
  | ObjQuicklist (q : Quicklist.state).

(** A string object: bytes, or the integer of [OBJ_ENCODING_INT]. *)
Inductive strobj :=
  | StrObj (s : sds)
  | IntObj (v : Z).

Inductive list_where := LIST_HEAD | LIST_TAIL.
Inductive list_conv_type := LIST_CONV_AUTO | LIST_CONV_GROWING | LIST_CONV_SHRINKING.

#[export] Instance list_where_eq : EqDecision list_where.
Proof. solve_decision. Defined.

(** [lpi] or [iter]; the latter may be a null pointer. *)
Inductive li_pos :=
  | LiListpack (lpi : option Z)
  | LiQuicklist (iter : option quicklistIter).

Record listTypeIterator := { li_direction : list_where; pos_of : li_pos }.

Inductive listTypeEntry :=
  | LeListpack (lpe : option Z)
  | LeQuicklist (entry : quicklistEntry).

Section ListType.
Context `{Allocator} `{LzfMemory} (packed_threshold : Z) (server : redisServer).

Definition createStringObject (s : sds) : strobj := StrObj s.
Definition createStringObjectFromLongLong (value : Z) : strobj := IntObj value.

Definition getDecodedObject (o : strobj) : option sds :=
  match o with
  | StrObj s => Some s
  | IntObj v => '(n, buf) ← ll2string (replicate 32 0) 32 v; rd buf 0 n
  end.

Definition createListListpackObject : option lobj := lp ← lpNew 0; Some (ObjListpack lp).

(** ** Conversions *)

(** [add_bytes]: integer encoded objects are skipped. *)
Fixpoint strings_len (argv : list strobj) : Z :=
  match argv with
  | [] => 0
  | StrObj s :: argv => u64 (Zlen s + strings_len argv)
  | IntObj _ :: argv => strings_len argv
  end.

Definition listTypeTryConvertListpack (lp : list Z) (argv : option (list strobj)) : option lobj :=
  let add_bytes := match argv with Some l => strings_len l | None => 0 end in
  let add_length := match argv with Some l => Zlen l | None => 0 end in
  bytes ← lpBytes lp;
  '(n, lp) ← lpLength lp;
  exceeds ← quicklistNodeExceedsLimit (list_max_listpack_size server) (u64 (bytes + add_bytes)) (u32 (n + add_length));
  if (exceeds : bool) then
    let ql := quicklistSetOptions quicklistCreate (list_max_listpack_size server) (list_compress_depth server) in
    '(n, lp) ← lpLength lp;
    if n =? 0 then Some (ObjQuicklist {| ql := ql; nodes := ∅ |})
    else '(_, q) ← quicklistAppendListpack lp {| ql := ql; nodes := ∅ |}; Some (ObjQuicklist q)
  else Some (ObjListpack lp).

(** The listpack is taken out of the only node before the quicklist is freed. *)
Definition listTypeTryConvertQuicklist (q : Quicklist.state) (shrinking : bool) : option lobj :=
  if negb (len (ql q) =? 1) then Some (ObjQuicklist q)
  else
    h ← head (ql q);
    hd ← nodes q !! h;
    if negb (bool_decide (container (data hd) = PACKED)) then Some (ObjQuicklist q)
    else
      '(sz_limit, count_limit) ← quicklistNodeLimit (list_max_listpack_size server);
      let sz_limit := if shrinking then sz_limit / 2 else sz_limit in
      let count_limit := if shrinking then count_limit / 2 else count_limit in
      if (sz_limit <? sz (data hd)) || (count_limit <? ql_count (ql q)) then Some (ObjQuicklist q)
      else
        lp ← match entry (data hd) with Buf b => Some b | _ => None end;
        '(_, _) ← (update h (with_entry Null) ;; quicklistRelease) q;
        Some (ObjListpack lp).

Definition listTypeTryConversionRaw (o : lobj) (lct : list_conv_type) (argv : option (list strobj)) : option lobj :=
  match o, lct with
  | ObjQuicklist _, LIST_CONV_GROWING => Some o
  | ObjQuicklist q, LIST_CONV_SHRINKING => listTypeTryConvertQuicklist q true
  | ObjQuicklist q, LIST_CONV_AUTO => listTypeTryConvertQuicklist q false
  | ObjListpack _, LIST_CONV_SHRINKING => Some o
  | ObjListpack lp, _ => listTypeTryConvertListpack lp argv
  end.

Definition listTypeTryConversion (o : lobj) (lct : list_conv_type) : option lobj := listTypeTryConversionRaw o lct None.

(** [argv] from [start] to [end]. *)
Definition listTypeTryConversionAppend (o : lobj) (argv : list strobj) : option lobj :=
  listTypeTryConversionRaw o LIST_CONV_GROWING (Some argv).

(** ** Adding and removing at the ends *)

(** The listpack a function returned, which must not be the null pointer. *)
Definition new_listpack (r : option (option (list Z * option Z))) : option lobj :=
  r ← r; '(lp, _) ← r; Some (ObjListpack lp).

Definition quicklist_end (where' : list_where) : where_end :=
  match where' with LIST_HEAD => QUICKLIST_HEAD | LIST_TAIL => QUICKLIST_TAIL end.

Definition listTypePush (subject : lobj) (value : strobj) (where' : list_where) : option lobj :=
  match subject with
  | ObjQuicklist q =>
      s ← getDecodedObject value;
      '(_, q) ← quicklistPush packed_threshold s (quicklist_end where') q;
      Some (ObjQuicklist q)
  | ObjListpack lp =>
      new_listpack
        (match value, where' with
         | IntObj v, LIST_HEAD => lpPrependInteger lp v
         | IntObj v, LIST_TAIL => lpAppendInteger lp v
         | StrObj s, LIST_HEAD => lpPrepend lp s
         | StrObj s, LIST_TAIL => lpAppend lp s
         end)
  end.

Definition listTypePop (subject : lobj) (where' : list_where) : option (option strobj * lobj) :=
  match subject with
  | ObjQuicklist q =>
      '(v, q) ← quicklistPopCustom (quicklist_end where') q;
      Some (match v with
            | Some (inl s) => Some (createStringObject s)
            | Some (inr vlong) => Some (createStringObjectFromLongLong vlong)
            | None => None
            end, ObjQuicklist q)
  | ObjListpack lp =>
      p ← match where' with LIST_HEAD => lpFirst lp | LIST_TAIL => lpLast lp end;
      match p with
      | Some p =>
          vstr ← lpGet_intbuf lp p (replicate 21 0);
          o ← new_listpack (lpDelete lp p);
          Some (Some (createStringObject vstr), o)
      | None => Some (None, subject)
      end
  end.

(** The length of a listpack is stored in its header when it is computed. *)
Definition listTypeLength (subject : lobj) : option (Z * lobj) :=
  match subject with
  | ObjQuicklist q => Some (ql_count (ql q), subject)
  | ObjListpack lp => '(n, lp) ← lpLength lp; Some (n, ObjListpack lp)
  end.

(** ** Iterators *)

Definition iter_direction (direction : list_where) : direction_ :=
  match direction with LIST_HEAD => AL_START_TAIL | LIST_TAIL => AL_START_HEAD end.

Definition listTypeInitIterator (subject : lobj) (index : Z) (direction : list_where) : option (listTypeIterator * lobj) :=
  match subject with
  | ObjQuicklist q =>
      '(it, q) ← quicklistGetIteratorAtIdx (iter_direction direction) index q;
      Some ({| li_direction := direction; pos_of := LiQuicklist it |}, ObjQuicklist q)
  | ObjListpack lp =>
      p ← lpSeek lp index;
      Some ({| li_direction := direction; pos_of := LiListpack p |}, subject)
  end.

(** An iterator of the other encoding is not used with an object. *)
Definition listTypeSetIteratorDirection (subject : lobj) (li : listTypeIterator) (entry : listTypeEntry) (direction : list_where) :
    option listTypeIterator :=
  if bool_decide (li_direction li = direction) then Some li
  else
    p ← match pos_of li, subject, entry with
        | LiQuicklist (Some it), ObjQuicklist _, _ => Some (LiQuicklist (Some (quicklistSetDirection it (iter_direction direction))))
        | LiListpack _, ObjListpack lp, LeListpack (Some lpe) =>
            p ← match direction with LIST_TAIL => lpNext lp lpe | LIST_HEAD => lpPrev lp lpe end; Some (LiListpack p)
        | _, _, _ => None
        end;
    Some {| li_direction := direction; pos_of := p |}.

Definition listTypeReleaseIterator (subject : lobj) (li : listTypeIterator) : option lobj :=
  match pos_of li, subject with
  | LiQuicklist it, ObjQuicklist q => '(_, q) ← quicklistReleaseIterator it q; Some (ObjQuicklist q)
  | LiListpack _, _ => Some subject
  | LiQuicklist _, ObjListpack _ => None
  end.

Definition no_entry : quicklistEntry := {| e_node := None; e_zi := None; e_value := None; e_offset := 123456789 |}.

Definition listTypeNext (subject : lobj) (li : listTypeIterator) : option (bool * listTypeIterator * listTypeEntry * lobj) :=
  match pos_of li, subject with
  | LiQuicklist None, ObjQuicklist _ => Some (false, li, LeQuicklist no_entry, subject)
  | LiQuicklist (Some it), ObjQuicklist q =>
      '(found, it, e, q) ← quicklistNext it q;
      Some (found, {| li_direction := li_direction li; pos_of := LiQuicklist (Some it) |}, LeQuicklist e, ObjQuicklist q)
  | LiListpack None, ObjListpack _ => Some (false, li, LeListpack None, subject)
  | LiListpack (Some p), ObjListpack lp =>
      p' ← match li_direction li with LIST_TAIL => lpNext lp p | LIST_HEAD => lpPrev lp p end;
      Some (true, {| li_direction := li_direction li; pos_of := LiListpack p' |}, LeListpack (Some p), subject)
  | _, _ => None
  end.

(** The string or the integer. *)
Definition listTypeGetValue (subject : lobj) (entry : listTypeEntry) : option (sds + Z) :=
  match entry, subject with
  | LeQuicklist e, ObjQuicklist _ => e_value e
  | LeListpack (Some lpe), ObjListpack lp => lp_value lp lpe
  | _, _ => None
  end.

Definition listTypeGet (subject : lobj) (entry : listTypeEntry) : option strobj :=
  v ← listTypeGetValue subject entry;
  Some (match v with inl s => createStringObject s | inr ll => createStringObjectFromLongLong ll end).

(** ** Changing at an entry *)

Definition listTypeInsert (subject : lobj) (li : listTypeIterator) (entry : listTypeEntry) (value : strobj) (where' : list_where) :
    option (listTypeIterator * listTypeEntry * lobj) :=
  str ← getDecodedObject value;
  match entry, pos_of li, subject with
  | LeQuicklist e, LiQuicklist (Some it), ObjQuicklist q =>
      '(it, q) ← match where' with
                 | LIST_TAIL => quicklistInsertAfter packed_threshold it e str q
                 | LIST_HEAD => quicklistInsertBefore packed_threshold it e str q
                 end;
      Some ({| li_direction := li_direction li; pos_of := LiQuicklist (Some it) |}, entry, ObjQuicklist q)
  | LeListpack (Some lpe), LiListpack _, ObjListpack lp =>
      r ← lpInsertString lp str lpe (match where' with LIST_TAIL => LP_AFTER | LIST_HEAD => LP_BEFORE end);
      '(lp, lpe) ← r;
      Some (li, LeListpack lpe, ObjListpack lp)
  | _, _, _ => None
  end.

Definition listTypeReplace (subject : lobj) (li : listTypeIterator) (entry : listTypeEntry) (value : strobj) :
    option (listTypeIterator * listTypeEntry * lobj) :=
  str ← getDecodedObject value;
  match entry, pos_of li, subject with
  | LeQuicklist e, LiQuicklist (Some it), ObjQuicklist q =>
      '(it, q) ← quicklistReplaceEntry packed_threshold it e str q;
      Some ({| li_direction := li_direction li; pos_of := LiQuicklist (Some it) |}, entry, ObjQuicklist q)
  | LeListpack (Some lpe), LiListpack _, ObjListpack lp =>
      r ← lpReplace lp lpe str;
      '(lp, lpe) ← r;
      Some (li, LeListpack lpe, ObjListpack lp)
  | _, _, _ => None
  end.

(** [index] is an [int]. *)
Definition listTypeReplaceAtIndex (o : lobj) (index : Z) (value : strobj) : option (bool * lobj) :=
  let index := s32 index in
  vstr ← getDecodedObject value;
  match o with
  | ObjQuicklist q => '(replaced, q) ← quicklistReplaceAtIndex packed_threshold index vstr q; Some (replaced, ObjQuicklist q)
  | ObjListpack lp =>
      p ← lpSeek lp index;
      match p with
      | Some p => o ← new_listpack (lpReplace lp p vstr); Some (true, o)
      | None => Some (false, o)
      end
  end.

Definition listTypeEqual (subject : lobj) (entry : listTypeEntry) (s : sds) : option (bool * lobj) :=
  match entry, subject with
  | LeQuicklist e, ObjQuicklist q => '(b, q) ← quicklistCompare e s q; Some (b, ObjQuicklist q)
  | LeListpack (Some lpe), ObjListpack lp => b ← lpCompare lp lpe s; Some (b, subject)
  | _, _ => None
  end.

Definition listTypeDelete (subject : lobj) (li : listTypeIterator) (entry : listTypeEntry) : option (listTypeIterator * lobj) :=
  match entry, pos_of li, subject with
  | LeQuicklist e, LiQuicklist (Some it), ObjQuicklist q =>
      '(it, q) ← quicklistDelEntry it e q;
      Some ({| li_direction := li_direction li; pos_of := LiQuicklist (Some it) |}, ObjQuicklist q)
  | LeListpack (Some p), LiListpack _, ObjListpack lp =>
      r ← lpDelete lp p;
      '(lp, p) ← r;
      lpi ← match li_direction li, p with
            | LIST_TAIL, _ => Some p
            | LIST_HEAD, Some p => lpPrev lp p
            | LIST_HEAD, None => lpLast lp
            end;
      Some ({| li_direction := li_direction li; pos_of := LiListpack lpi |}, ObjListpack lp)
  | _, _, _ => None
  end.

Definition listTypeDup (o : lobj) : option lobj :=
  match o with
  | ObjListpack lp => lp ← lpDup lp; Some (ObjListpack lp)
  | ObjQuicklist q => q ← quicklistDup q; Some (ObjQuicklist q)
  end.

Definition listTypeDelRange (subject : lobj) (start count : Z) : option lobj :=
  match subject with
  | ObjQuicklist q => '(_, q) ← quicklistDelRange start count q; Some (ObjQuicklist q)
  | ObjListpack lp => lp ← lpDeleteRange lp start (u64 count); Some (ObjListpack lp)
  end.

End ListType.

End ListType.
