(* ===== verification/ListSpec.v ===== *)
(** * The list API on lists of strings

    A list object of either encoding stands for a list of strings, and the
    functions of the API at the ends of a list, on ranges and for conversions
    are the functions on that list. *)

From stdpp Require Import gmap.
From S2P Require Import Prelude.
From S2P Require Import NumConv.
From S2P Require Import ListpackEnc.
From S2P Require Import Listpack.
From S2P Require Import ListpackOps.
From S2P Require Import ListpackEdit.
From S2P Require Import Quicklist.
From S2P Require Import QuicklistSpec.
From S2P Require Import QuicklistComp.
From S2P Require Import QuicklistNode.
From S2P Require Import QuicklistPush.
From S2P Require Import QuicklistDel.
From S2P Require Import QuicklistSeek.
From S2P Require Import QuicklistRange.
From S2P Require Import QuicklistMerge.
From S2P Require Import QuicklistInsert.
From S2P Require Import QuicklistRun.
From S2P Require Import QuicklistCopy.
From S2P Require Import ListType.
Import NumConv LpEnc Lp LpOps LpEdit Quicklist QlSpec QlComp QlNode QlPush QlDel QlSeek QlRange QlMerge QlInsert QlRun QlCopy ListType.

Module ListSpec.

(** ** What an object stands for *)

(** The string of a string object. *)
Definition str_is (o : strobj) (s : sds) : Prop :=
  match o with StrObj t => t = s | IntObj v => LLONG_MIN <= v <= LLONG_MAX /\ s = lltoa v end.

Definition options_ok (F C : Z) : Prop := 0 <= C <= COMPRESS_MAX /\ -5 <= F <= FILL_MAX.

Definition backed (o : lobj) (xs : list sds) : Prop :=
  match o with
  | ObjListpack lp => exists es, repr lp es /\ xs = elem_string <$> es /\ Zlen xs < 2 ^ 16
  | ObjQuicklist q => exists F C, options_ok F C /\ reps F C q xs
  end.

Record is_list (o : lobj) (xs : list sds) : Prop := {
  il_bytes : Forall bytes_ok xs;
  il_size : bytes xs < MAX_BYTES;
  il_backed : backed o xs;
}.

(** The elements that may be added to a listpack: a count of a node has 16 bits. *)
Definition fits (o : lobj) (n : Z) : Prop := match o with ObjListpack _ => n < 2 ^ 16 | ObjQuicklist _ => True end.

Definition push_list (w : list_where) (s : sds) (xs : list sds) : list sds :=
  match w with LIST_HEAD => s :: xs | LIST_TAIL => xs ++ [s] end.

Definition pop_end (w : list_where) (xs : list sds) : option (sds * list sds) := pop_list (quicklist_end w) xs.

Lemma str_decoded o s : str_is o s -> getDecodedObject o = Some s.
Proof.
  destruct o as [t|v]; cbn [str_is getDecodedObject]; [by intros ->|]. intros [Hv ->]. pose proof (lltoa_length v Hv).
  destruct (ll2string_spec (replicate 32 0) 32 v) as (post & -> & Hpost); [done|done|lia|]. cbn [mbind option_bind]. apply (at_rd _ 0 (lltoa v)); [|done]. by exists [], (0 :: post).
Qed.

(** What was read from a quicklist. *)
Lemma reads_str v s : reads v s -> str_is (match v with inl t => createStringObject t | inr z => createStringObjectFromLongLong z end) s.
Proof.
  intros [Hv Hz]. destruct v as [t|z]; cbn in Hv |- *; [by injection Hv|]. split; [done|]. pose proof (str_decoded (IntObj z) (lltoa z) (conj Hz eq_refl)) as Hd. cbn in Hd. congruence.
Qed.

Lemma is_list_short o xs : is_list o xs -> Zlen xs < 2 ^ 28.
Proof. intros [_ Hs _]. pose proof (bytes_length xs). change MAX_BYTES with (2 ^ 31) in Hs. lia. Qed.

Section ListSpec.
Context `{Allocator} `{LzfMemory} (packed_threshold : Z).

#[local] Set Default Proof Using "Type".

Lemma new_is_list : exists o, createListListpackObject = Some o /\ is_list o [].
Proof.
  unfold createListListpackObject. destruct (lpNew_spec 0) as (lp & -> & Hlp). eexists. split; [done|]. split; [by constructor|done|]. by exists [].
Qed.

(** ** The ends *)

Lemma push_bytes w s xs : bytes (push_list w s xs) = bytes (s :: xs).
Proof. destruct w; [done|]. cbn [push_list]. rewrite bytes_app. cbn [bytes]. lia. Qed.

Lemma push_length w s xs : Zlen (push_list w s xs) = Zlen xs + 1.
Proof. destruct w; cbn [push_list]; rewrite ?length_app; cbn [length]; lia. Qed.

Lemma push_ok w s xs : bytes_ok s -> Forall bytes_ok xs -> Forall bytes_ok (push_list w s xs).
Proof. intros Hs Hxs. destruct w; cbn [push_list]; [by constructor|]. apply Forall_app. split; [done|by constructor]. Qed.

Lemma listTypePush_spec o xs value s w :
  is_list o xs -> str_is value s -> bytes_ok s -> bytes (s :: xs) < MAX_BYTES -> fits o (Zlen xs + 1) ->
  exists o', listTypePush packed_threshold o value w = Some o' /\ is_list o' (push_list w s xs) /\ (match o, o' with ObjListpack _, ObjListpack _ | ObjQuicklist _, ObjQuicklist _ => True | _, _ => False end).
Proof.
  intros [Hby Hsz Hb] Hv Hs Hb' Hfit. assert (Hfin : forall o', backed o' (push_list w s xs) -> is_list o' (push_list w s xs)).
  { intros o' Ho'. split; [by apply push_ok|by rewrite push_bytes|done]. }
  unfold listTypePush. destruct o as [lp|q].
  - destruct Hb as (es & Hlp & -> & _). cbn [fits] in Hfit.
    assert (Hgo : exists lp' p e, (match value, w with
      | IntObj v, LIST_HEAD => lpPrependInteger lp v | IntObj v, LIST_TAIL => lpAppendInteger lp v
      | StrObj s, LIST_HEAD => lpPrepend lp s | StrObj s, LIST_TAIL => lpAppend lp s end) = Some (Some (lp', p)) /\
      repr lp' (match w with LIST_HEAD => e :: es | LIST_TAIL => es ++ [e] end) /\ elem_string e = s).
    { destruct value as [t|v]; cbn [str_is] in Hv.
      - subst t. destruct w; [destruct (prepend_ok lp es s Hlp Hs Hb') as (lp' & p & Hr & Hlp')|destruct (append_ok lp es s Hlp Hs Hb') as (lp' & p & Hr & Hlp')];
          exists lp', p, (elem_of_string s); (split; [done|]); (split; [done|]); apply elem_string_of.
      - destruct Hv as [Hv ->]. pose proof (pos_bytes es). pose proof (elem_string_length (EInt v)) as Hl. cbn [elem_string] in Hl. cbn [bytes] in Hb'. change MAX_BYTES with (2 ^ 31) in Hb'.
        destruct w; [destruct (prepend_int lp es v Hlp Hv) as (lp' & p & Hr & Hlp'); [lia|]|destruct (append_int lp es v Hlp Hv) as (lp' & p & Hr & Hlp'); [lia|]];
          by exists lp', p, (EInt v). }
    destruct Hgo as (lp' & p & e & -> & Hlp' & He). cbn [new_listpack mbind option_bind]. eexists. split; [done|]. split; [|done]. apply Hfin. eexists. split; [done|].
    split; [|rewrite push_length; lia]. destruct w; cbn [push_list]; rewrite ?fmap_app, ?fmap_cons; cbn [fmap list_fmap]; by rewrite He.
  - destruct Hb as (F & C & Ho & Hr). rewrite (str_decoded _ _ Hv). cbn [mbind option_bind].
    destruct (push_refines F C packed_threshold (proj1 (proj1 Ho)) (proj2 Ho) (quicklist_end w) s q xs Hr (conj Hs Hb')) as (a & q' & Hrun & _ & Hr').
    cbn [exec] in Hrun. unfold mbind, M_bind in Hrun. destruct (quicklistPush packed_threshold s (quicklist_end w) q) as [[u q1]|]; [|done]. cbn in Hrun. injection Hrun as <- ->.
    cbn [mbind option_bind]. eexists. split; [done|]. split; [|done]. apply Hfin. exists F, C. split; [done|]. by destruct w.
Qed.

(** Fewer elements. *)
Lemma pop_tail xs x : pop_list QUICKLIST_TAIL (xs ++ [x]) = Some (x, xs).
Proof. cbn [pop_list]. rewrite rev_app_distr. cbn. by rewrite rev_involutive. Qed.

Lemma pop_sub w xs x ys : pop_list w xs = Some (x, ys) -> x ∈ xs /\ (forall P, Forall P xs -> Forall P ys) /\ Zlen xs = Zlen ys + 1.
Proof.
  destruct w; cbn [pop_list].
  - destruct xs as [|y xs]; [done|]. intros [= -> ->]. split; [by left|]. split; [by intros P [_ ?]%Forall_cons|]. cbn [length]. lia.
  - destruct xs as [|y xs _] using rev_ind; [done|]. change (pop_list QUICKLIST_TAIL (xs ++ [y]) = Some (x, ys) -> x ∈ xs ++ [y] /\ (forall P, Forall P (xs ++ [y]) -> Forall P ys) /\ Zlen (xs ++ [y]) = Zlen ys + 1).
    rewrite pop_tail. intros [= -> ->]. split; [set_solver|]. split; [by intros P [? ?]%Forall_app|]. rewrite length_app. cbn [length]. lia.
Qed.

Lemma pop_custom w st : quicklistPop w st = quicklistPopCustom w st.
Proof.
  unfold quicklistPop, quicklistPopCustom. dstep. destruct (ql_count (ql st) =? 0) eqn:E; [|done]. symmetry. dstep. unfold id. by rewrite E.
Qed.

Lemma listTypePop_spec o xs w :
  is_list o xs ->
  exists r o', listTypePop o w = Some (r, o') /\
    match pop_end w xs with
    | None => r = None /\ is_list o' xs
    | Some (x, ys) => exists v, r = Some v /\ str_is v x /\ is_list o' ys
    end.
Proof.
  intros [Hby Hsz Hb]. unfold pop_end. unfold listTypePop. destruct o as [lp|q].
  - destruct Hb as (es & Hlp & Hes & Hl). assert (Hp : (match w with LIST_HEAD => lpFirst lp | LIST_TAIL => lpLast lp end) =
      Some (nth_ptr es (match w with LIST_HEAD => 0 | LIST_TAIL => Zlen es - 1 end))) by (destruct w; [by apply first_nth|by apply last_nth]).
    rewrite Hp. cbn [mbind option_bind]. destruct (decide (es = [])) as [->|Hne].
    { subst xs. destruct w; cbn; (eexists _, _; split; [done|]); (split; [done|]); (split; [done|done|by exists []]). }
    set (k := match w with LIST_HEAD => 0 | LIST_TAIL => Zlen es - 1 end). assert (Hk : 0 <= k < Zlen es) by (destruct es; [done|]; cbn [length] in *; unfold k; destruct w; cbn [length]; lia).
    unfold nth_ptr. rewrite (proj2 (andb_true_iff _ _)) by lia. destruct (lookup_lt_is_Some_2 es (Z.to_nat k)) as [e He]; [lia|].
    destruct (at_entry _ _ Hlp (take (Z.to_nat k) es) e (drop (S (Z.to_nat k)) es)) as (Hok & Hat & _ & _); [symmetry; by apply take_drop_middle|].
    rewrite (lpGet_intbuf_spec lp _ e) by done. cbn [mbind option_bind]. destruct (lpDelete_at lp es k Hlp Hk) as (lp' & -> & Hlp'). cbn [new_listpack mbind option_bind].
    assert (Hpop : pop_list (quicklist_end w) xs = Some (elem_string e, elem_string <$> (take (Z.to_nat k) es ++ drop (Z.to_nat (k + 1)) es))).
    { subst xs. destruct w; cbn [quicklist_end].
      - destruct es as [|e' es]; [done|]. cbn in He. injection He as ->. done.
      - destruct es as [|x es _] using rev_ind; [done|]. unfold k in *. rewrite length_app in *. cbn [length] in *.
        replace (Z.to_nat (Z.of_nat (length es + 1) - 1 + 1)) with (length (es ++ [x])) by (rewrite length_app; cbn; lia). rewrite drop_all, app_nil_r.
        replace (Z.to_nat (Z.of_nat (length es + 1) - 1)) with (length es) in * by lia. rewrite take_app_length. rewrite list_lookup_middle in He by done. injection He as ->.
        rewrite fmap_app. apply pop_tail. }
    rewrite Hpop. eexists _, _. split; [done|]. eexists. split; [done|]. split; [done|]. pose proof (pop_bytes _ _ _ _ Hpop). destruct (pop_sub _ _ _ _ Hpop) as (_ & Hsub & Hlen).
    split; [by apply Hsub|lia|]. eexists. split; [done|]. split; [done|]. lia.
  - destruct Hb as (F & C & Ho & Hr). pose proof Hr as (L & bs & -> & (Hok & SS & Hg & Hc) & Hb). subst xs.
    pose proof (pop_spec F C (proj1 (proj1 Ho)) (proj2 Ho) (quicklist_end w) L SS bs Hok Hg Hsz) as Hp. rewrite !pop_custom in Hp.
    destruct (pop_list (quicklist_end w) (concat SS)) as [[x ys]|] eqn:Hpop.
    + destruct Hp as (v & L' & bs' & SS' & -> & Hok' & Hg' & <- & Hv). cbn [mbind option_bind]. eexists _, _. split; [done|]. apply reads_str in Hv.
      exists (match v with inl t => createStringObject t | inr z => createStringObjectFromLongLong z end). split; [by destruct v|]. split; [done|].
      pose proof (pop_bytes _ _ _ _ Hpop). destruct (pop_sub _ _ _ _ Hpop) as (_ & Hsub & Hlen). split; [by apply Hsub|lia|]. exists F, C. split; [done|]. exists L', bs'. split; [done|]. split; [|lia]. split; [done|by exists SS'].
    + rewrite Hp. eexists _, _. split; [done|]. split; [done|]. split; [done|done|]. by exists F, C.
Qed.

Lemma listTypeLength_spec o xs : is_list o xs -> exists o', listTypeLength o = Some (Zlen xs, o') /\ is_list o' xs /\ forall n, fits o n -> fits o' n.
Proof.
  intros [Hby Hsz Hb]. destruct o as [lp|q]; cbn [listTypeLength].
  - destruct Hb as (es & Hlp & -> & Hl). destruct (lpLength_spec lp es Hlp) as (lp' & -> & Hlp' & _). cbn [mbind option_bind]. eexists. rewrite length_fmap. split; [done|]. split; [|done].
    split; [done|done|]. by exists es.
  - destruct Hb as (F & C & Ho & Hr). pose proof Hr as (L & bs & -> & _ & _). cbn [conc ql qlof ql_count]. eexists. split; [done|]. split; [|done]. split; [done|done|]. by exists F, C.
Qed.

(** ** Ranges and indices *)

Definition found (xs : list sds) (idx : Z) : bool := bool_decide (0 <= list_index (Zlen xs) idx < Zlen xs).
Definition at_index (xs : list sds) (idx : Z) : nat := Z.to_nat (list_index (Zlen xs) idx).

Definition del_range (start cnt : Z) (xs : list sds) : list sds :=
  if (0 <? cnt) && found xs start then cut (list_index (Zlen xs) start) (Z.min cnt (Zlen xs - list_index (Zlen xs) start)) xs else xs.

Lemma cut_sub k m (xs : list sds) (P : sds -> Prop) : Forall P xs -> Forall P (cut k m xs).
Proof. intros HP. unfold cut. apply Forall_app. split; [by apply Forall_take|by apply Forall_drop]. Qed.

Lemma cut_bytes k m xs : 0 <= k -> 0 <= m -> bytes (cut k m xs) <= bytes xs.
Proof.
  intros Hk Hm. unfold cut. rewrite bytes_app, (bytes_split xs (Z.to_nat k)). replace (Z.to_nat (k + m)) with (Z.to_nat k + Z.to_nat m)%nat by lia.
  rewrite <- drop_drop, (bytes_split (drop (Z.to_nat k) xs) (Z.to_nat m)). pose proof (bytes_length (take (Z.to_nat m) (drop (Z.to_nat k) xs))). lia.
Qed.

Lemma cut_length k m (xs : list sds) : 0 <= k -> 0 <= m -> Zlen (cut k m xs) <= Zlen xs.
Proof. intros Hk Hm. unfold cut. rewrite length_app, length_take, length_drop. lia. Qed.

Lemma del_range_sub start cnt xs : Forall bytes_ok xs -> Forall bytes_ok (del_range start cnt xs) /\ bytes (del_range start cnt xs) <= bytes xs /\ Zlen (del_range start cnt xs) <= Zlen xs.
Proof.
  intros Hby. unfold del_range, found. destruct (Z.ltb_spec 0 cnt); cbn [andb]; [|done]. case_bool_decide; [|done].
  split; [by apply cut_sub|]. split; [apply cut_bytes; lia|apply cut_length; lia].
Qed.

Lemma listTypeDelRange_spec o xs start cnt :
  is_list o xs -> index_ok start -> 0 <= cnt <= LLONG_MAX ->
  exists o', listTypeDelRange o start cnt = Some o' /\ is_list o' (del_range start cnt xs).
Proof.
  intros [Hby Hsz Hb] Hst Hc. destruct (del_range_sub start cnt xs Hby) as (Hby' & Hle & Hlen).
  assert (Hfin : forall o', backed o' (del_range start cnt xs) -> is_list o' (del_range start cnt xs)) by (intros o' Ho'; split; [done|lia|done]).
  destruct o as [lp|q]; cbn [listTypeDelRange].
  - destruct Hb as (es & Hlp & -> & Hl). rewrite uwrap_small by lia. destruct (lpDeleteRange_spec lp es start cnt Hlp ltac:(lia)) as (lp' & -> & Hlp'); [unfold index_ok in Hst; lia|].
    cbn [mbind option_bind]. eexists. split; [done|]. apply Hfin. eexists. split; [done|]. split; [|lia]. unfold del_range, delete_range, found. rewrite length_fmap.
    change (abs_index es start) with (list_index (Zlen es) start). set (i := list_index _ _). destruct (Z.eqb_spec cnt 0), (Z.ltb_spec 0 cnt); try lia; [done|]. cbn [orb andb].
    destruct (Z.ltb_spec i 0), (Z.leb_spec (Zlen es) i); cbn [orb]; try (by rewrite bool_decide_false by lia). rewrite bool_decide_true by lia. unfold cut. rewrite fmap_app, fmap_take, fmap_drop. f_equal.
    destruct (decide (cnt <= Zlen es - i)); [by replace (Z.min _ _) with cnt by lia|]. rewrite !drop_ge; [done|rewrite length_fmap; lia..].
  - destruct Hb as (F & C & Ho & Hr). destruct (delRange_refines F C 0 (proj1 (proj1 Ho)) (proj2 Ho) start cnt q xs Hr) as (a & q' & Hrun & _ & Hr'); [split; [done|lia]|].
    cbn [exec] in Hrun. unfold mbind, M_bind in Hrun. destruct (quicklistDelRange start cnt q) as [[b q1]|]; [|done]. cbn in Hrun. injection Hrun as <- ->. cbn [mbind option_bind].
    eexists. split; [done|]. apply Hfin. exists F, C. split; [done|]. unfold del_range, found. cbn [step] in Hr'. by destruct ((0 <? cnt) && _).
Qed.

Lemma replace_ok i s (xs : list sds) : bytes_ok s -> Forall bytes_ok xs -> Forall bytes_ok (<[i := s]> xs).
Proof. intros Hs Hxs. by apply Forall_insert. Qed.

Lemma listTypeReplaceAtIndex_spec o xs idx value s :
  is_list o xs -> str_is value s -> bytes_ok s -> bytes (s :: xs) < MAX_BYTES ->
  let i := s32 idx in
  exists o', listTypeReplaceAtIndex packed_threshold o idx value = Some (found xs i, o') /\ is_list o' (if found xs i then <[at_index xs i := s]> xs else xs).
Proof.
  intros [Hby Hsz Hb] Hv Hs Hb' i. assert (Hi : index_ok i) by (unfold index_ok, i; pose proof (swrap_range 32 idx); lia).
  assert (Hfin : forall o', backed o' (if found xs i then <[at_index xs i := s]> xs else xs) -> is_list o' (if found xs i then <[at_index xs i := s]> xs else xs)).
  { intros o' Ho'. destruct (found xs i); split; try done; [by apply replace_ok|]. pose proof (bytes_replace (at_index xs i) s xs). lia. }
  unfold listTypeReplaceAtIndex. rewrite (str_decoded _ _ Hv). cbn [mbind option_bind]. fold i. destruct o as [lp|q].
  - destruct Hb as (es & Hlp & -> & Hl). rewrite (lpSeek_spec _ _ Hlp). cbn [mbind option_bind]. unfold nth_ptr, found, at_index in *. rewrite length_fmap in *.
    change (abs_index es i) with (list_index (Zlen es) i). set (j := list_index _ _) in *. case_bool_decide as Hj.
    + rewrite (proj2 (andb_true_iff _ _)) by lia. destruct (string_insert lp es s LP_REPLACE (Z.to_nat j) Hlp Hs ltac:(lia) Hb') as (lp' & p & Hrep & Hlp'). unfold lpReplace. rewrite Hrep.
      cbn [new_listpack mbind option_bind]. eexists. split; [done|]. apply Hfin. eexists. split; [done|]. rewrite length_insert, length_fmap. split; [|done]. cbn [insert_at].
      rewrite Z2Nat.id by lia. rewrite insert_take_drop by (rewrite length_fmap; lia). rewrite fmap_app, fmap_cons, elem_string_of, fmap_take, fmap_drop. by replace (Z.to_nat (j + 1)) with (S (Z.to_nat j)) by lia.
    + replace ((0 <=? j) && (j <? Zlen es)) with false by lia. eexists. split; [done|]. apply Hfin. exists es. by rewrite length_fmap.
  - destruct Hb as (F & C & Ho & Hr). destruct (replace_refines F C packed_threshold (proj1 (proj1 Ho)) (proj2 Ho) i s q xs Hr (conj Hi (conj Hs Hb'))) as (a & q' & Hrun & Ha & Hr').
    cbn [exec] in Hrun. unfold mbind, M_bind in Hrun. destruct (quicklistReplaceAtIndex packed_threshold i s q) as [[b q1]|]; [|done]. cbn in Hrun. injection Hrun as <- ->. cbn [mbind option_bind].
    cbn [step] in Ha, Hr'. fold (found xs i) (at_index xs i) in Ha, Hr'. eexists. assert (b = found xs i) as -> by by destruct (found xs i). split; [done|].
    apply Hfin. exists F, C. split; [done|]. by destruct (found xs i).
Qed.

Lemma listTypeDup_spec o xs : is_list o xs -> exists o', listTypeDup o = Some o' /\ is_list o' xs /\ (match o, o' with ObjListpack _, ObjListpack _ | ObjQuicklist _, ObjQuicklist _ => True | _, _ => False end).
Proof.
  intros [Hby Hsz Hb]. destruct o as [lp|q]; cbn [listTypeDup].
  - destruct Hb as (es & Hlp & -> & Hl). destruct (lpDup_spec lp es Hlp) as (lp' & -> & Hlp'). cbn [mbind option_bind]. eexists. split; [done|]. split; [|done]. split; [done|done|]. by exists es.
  - destruct Hb as (F & C & Ho & Hr). destruct (dup_spec F C (proj1 (proj1 Ho)) (proj2 Ho) q xs (proj2 (proj1 Ho)) Hr) as (q' & -> & Hr'). cbn [mbind option_bind]. eexists. split; [done|]. split; [|done].
    split; [done|done|]. by exists F, C.
Qed.

End ListSpec.

(** ** Conversions *)

Section Convert.
Context `{Allocator} `{LzfMemory} (server : redisServer).
Context (Hfill : INT32_MIN < list_max_listpack_size server <= INT32_MAX).

#[local] Set Default Proof Using "Type*".

Lemma strings_len_spec argv vs : Forall2 str_is argv vs -> bytes vs < MAX_BYTES -> 0 <= strings_len argv <= bytes vs.
Proof.
  induction 1 as [|o s argv vs Ho _ IH]; [done|]. cbn [bytes strings_len]. pose proof (bytes_length vs). change MAX_BYTES with (2 ^ 31) in *. intros Hb. specialize (IH ltac:(lia)).
  destruct o as [t|v]; cbn [str_is] in Ho; [subst t; rewrite uwrap_small by lia|]; lia.
Qed.

(** The listpack as the only node of a quicklist. *)
Lemma to_quicklist lp es : repr lp es -> 0 < Zlen es < 2 ^ 16 -> bytes (elem_string <$> es) < MAX_BYTES ->
  exists q, quicklistAppendListpack lp {| ql := quicklistSetOptions quicklistCreate (list_max_listpack_size server) (list_compress_depth server); nodes := ∅ |} = Some (tt, q) /\
    backed (ObjQuicklist q) (elem_string <$> es).
Proof.
  intros Hlp Hl Hb. set (f := list_max_listpack_size server). set (c := list_compress_depth server). destruct (new_reps f c) as (HC & HF & (L & bs & Hnew & (Hok & SS & Hg & HSS) & _)).
  change (quicklistSetOptions quicklistCreate f c) with (quicklistNew f c). rewrite Hnew. change (Zlen ([] : list sds)) with 0.
  assert (HL : bytes (concat SS) < MAX_BYTES) by by rewrite HSS. destruct (appendListpack_spec (clip_fill f) (clip_compress c) HC HF L SS 0 bs lp es Hok Hg HL Hlp Hl) as (L' & -> & Hok' & Hg').
  eexists. split; [done|]. exists (clip_fill f), (clip_compress c). split; [split; [|done]; unfold clip_compress in *; destruct (Z.ltb_spec COMPRESS_MAX c), (Z.ltb_spec c 0); lia|].
  exists L', bs. rewrite length_fmap, Z.add_0_l, uwrap_small by lia. split; [done|]. split; [|done]. split; [done|]. eexists. split; [done|]. rewrite concat_app, HSS. cbn. by rewrite app_nil_r.
Qed.

Lemma tryConvertListpack_spec lp xs argv vs :
  is_list (ObjListpack lp) xs -> match argv with Some l => Forall2 str_is l vs | None => vs = [] end -> bytes (vs ++ xs) < MAX_BYTES ->
  exists o, listTypeTryConvertListpack server lp argv = Some o /\ is_list o xs /\ fits o (Zlen xs + 2 ^ 15).
Proof.
  intros [Hby Hsz (es & Hlp & Hxs & Hl)] Ha Hb. unfold listTypeTryConvertListpack, lpBytes. rewrite (total_eq _ _ Hlp). cbn [mbind option_bind].
  destruct (lpLength_spec lp es Hlp) as (lp1 & -> & Hlp1 & _). cbn [mbind option_bind]. set (add := match argv with Some l => strings_len l | None => 0 end).
  rewrite bytes_app in Hb. pose proof (bytes_length vs). pose proof (bytes_length xs). change MAX_BYTES with (2 ^ 31) in *.
  assert (Hadd : 0 <= add <= bytes vs) by (unfold add; destruct argv as [l|]; [apply strings_len_spec; [done|change MAX_BYTES with (2 ^ 31); lia]|lia]).
  pose proof (pos_bytes es) as Hpos. pose proof (pos_ge es) as Hge. rewrite <- Hxs in Hpos. change LP_HDR_SIZE with 6 in Hge. rewrite uwrap_small by lia.
  destruct (exceeds_spec _ (pos es + 1 + add) (u32 (Zlen es + match argv with Some l => Zlen l | None => 0 end)) Hfill) as (b & -> & Hlim). cbn [mbind option_bind].
  assert (Hlen : Zlen xs = Zlen es) by by rewrite Hxs, length_fmap. destruct b.
  - destruct (lpLength_spec lp1 es Hlp1) as (lp2 & -> & Hlp2 & _). cbn [mbind option_bind]. destruct (Z.eqb_spec (Zlen es) 0) as [Hz|Hz].
    + destruct es; [|cbn [length] in Hz; lia]. subst xs. eexists. split; [done|]. split; [|done]. destruct (new_reps (list_max_listpack_size server) (list_compress_depth server)) as (HC & HF & Hr).
      split; [done|done|]. eexists _, _. split; [|exact Hr]. split; [|done]. unfold clip_compress in *. destruct (Z.ltb_spec COMPRESS_MAX (list_compress_depth server)), (Z.ltb_spec (list_compress_depth server) 0); lia.
    + destruct (to_quicklist lp2 es Hlp2) as (q & -> & Hq); [lia|rewrite <- Hxs; change MAX_BYTES with (2 ^ 31); lia|]. cbn [mbind option_bind]. eexists. split; [done|]. split; [|done].
      split; [done|change MAX_BYTES with (2 ^ 31); lia|by rewrite Hxs].
  - eexists. split; [done|]. split; [split; [done|change MAX_BYTES with (2 ^ 31); lia|by exists es]|]. cbn [fits]. specialize (Hlim eq_refl).
    assert (2 * Zlen es + 6 <= pos es); [|lia]. destruct Hlp as (Hok & _). pose proof (body_length es Hok). unfold pos. change LP_HDR_SIZE with 6. lia.
Qed.

Lemma tryConversionAppend_spec o xs argv vs :
  is_list o xs -> Forall2 str_is argv vs -> bytes (vs ++ xs) < MAX_BYTES ->
  exists o', listTypeTryConversionAppend server o argv = Some o' /\ is_list o' xs /\ fits o' (Zlen xs + 2 ^ 15).
Proof.
  intros Ho Ha Hb. destruct o as [lp|q]; [|by exists (ObjQuicklist q)]. apply (tryConvertListpack_spec lp xs (Some argv) vs Ho Ha Hb).
Qed.

Lemma tryConvertQuicklist_spec q xs shrinking :
  is_list (ObjQuicklist q) xs -> exists o, listTypeTryConvertQuicklist server q shrinking = Some o /\ is_list o xs.
Proof.
  intros Hil. pose proof Hil as [Hby Hsz (F & C & Ho & (L & bs & -> & (Hok & SS & Hg & Hc) & _))]. unfold listTypeTryConvertQuicklist. cbn [conc ql qlof len head].
  assert (Hsame : exists o, Some (ObjQuicklist (conc F C L ∅ (Zlen xs) bs)) = Some o /\ is_list o xs) by by eexists.
  destruct (Z.eqb_spec (Zlen L) 1) as [Hl|Hl]; cbn [negb]; [|done]. destruct L as [|[h d] [|]]; [done| |cbn [length] in Hl; lia]. cbn [first_of mbind option_bind].
  pose proof (conc_lookup F C [] h d [] ∅ (Zlen xs) bs Hok) as Hh. cbn [app last_of first_of] in Hh. rewrite Hh. cbn [mbind option_bind data].
  case_bool_decide as Hp; cbn [negb]; [|done]. destruct (limit_spec _ Hfill) as (a & b & -> & _). cbn [mbind option_bind]. destruct (_ || _); [done|].
  destruct Hg as [Hcs Ht _]. apply Forall2_cons_inv_l in Hcs as (ss & SS' & Hd & Hnil & ->). apply Forall2_nil_inv_l in Hnil as ->. cbn [concat snd] in Hd, Hc. rewrite app_nil_r in Hc. subst ss.
  destruct (end_raw C (proj1 (proj1 Ho)) _ 0 (h, d) Ht eq_refl) as [He _]; [by left|]. destruct (packed_elems d xs Hd Hp He) as (v & es & lp & _ & Hh' & Hb & Hlp & Hxs).
  rewrite Hb. cbn [mbind option_bind]. rewrite (bind_step _ _ _ _ _ (update_linked F C [] h d [] ∅ (Zlen xs) bs (with_entry Null) Hok)).
  destruct (quicklistRelease_spec F C (proj1 (proj1 Ho)) (proj2 Ho) [(h, with_entry Null d)] (Zlen xs) bs) as (st & Hrel & _); [by apply (ok_mid [] h d)|]. cbn [app]. rewrite Hrel. cbn [mbind option_bind].
  eexists. split; [done|]. split; [done|done|]. exists es. split; [done|]. split; [done|]. apply (hd_bound _ _ Hh').
Qed.

Lemma tryConversion_spec o xs lct : is_list o xs -> exists o', listTypeTryConversion server o lct = Some o' /\ is_list o' xs.
Proof.
  intros Ho. assert (Hg : forall lp, o = ObjListpack lp -> exists o', listTypeTryConvertListpack server lp None = Some o' /\ is_list o' xs).
  { intros lp ->. destruct (tryConvertListpack_spec lp xs None [] Ho eq_refl) as (o' & Hr & Ho' & _); [apply (il_size _ _ Ho)|]. by exists o'. }
  destruct o as [lp|q], lct; cbn [listTypeTryConversion listTypeTryConversionRaw]; try (by eexists); try (by apply Hg); by apply tryConvertQuicklist_spec.
Qed.

End Convert.

End ListSpec.
