(* ===== verification/ListIter.v ===== *)
(** * Iterating over a list

    An iterator over a list object of either encoding stands between two
    elements of the list.  It returns the elements in its direction, also
    when elements are deleted on the way, and releasing it leaves the list. *)

From stdpp Require Import gmap.
From S2P Require Import Prelude.
From S2P Require Import NumConv.
From S2P Require Import ListpackEnc.
From S2P Require Import Listpack.
From S2P Require Import ListpackOps.
From S2P Require Import ListpackEdit.
From S2P Require Import Quicklist.
From S2P Require Import QuicklistSpec.
From S2P Require Import QuicklistComp.
From S2P Require Import QuicklistNode.
From S2P Require Import QuicklistPush.
From S2P Require Import QuicklistDel.
From S2P Require Import QuicklistSeek.
From S2P Require Import QuicklistRange.
From S2P Require Import QuicklistIter.
From S2P Require Import QuicklistMerge.
From S2P Require Import QuicklistInsert.
From S2P Require Import QuicklistReplace.
From S2P Require Import QuicklistRun.
From S2P Require Import QuicklistCopy.
From S2P Require Import ListType.
From S2P Require Import ListSpec.
Import NumConv LpEnc Lp LpOps LpEdit Quicklist QlSpec QlComp QlNode QlPush QlDel QlSeek QlRange QlIter QlMerge QlInsert QlReplace QlRun QlCopy ListType ListSpec.

Module ListIter.

(** 1 when the iterator moves towards the tail. *)
Definition onwards (dir : list_where) : Z := match dir with LIST_HEAD => 0 | LIST_TAIL => 1 end.

Lemma ahead_onwards dir : ahead (iter_direction dir) = onwards dir.
Proof. by destruct dir. Qed.

(** The pointer of a listpack iterator before the element [g]. *)
Definition lp_gap (dir : list_where) (es : list elem) (g : Z) : option Z := nth_ptr es (g - 1 + onwards dir).

(** The iterator stands before the element with index [g] (after it when it
    moves towards the head).  [sg] says that elements may be deleted. *)
Definition scan_ok (sg : bool) (o : lobj) (li : listTypeIterator) (xs : list sds) (g : Z) : Prop :=
  match o, pos_of li with
  | ObjListpack lp, LiListpack p => exists es, repr lp es /\ xs = elem_string <$> es /\ Zlen xs < 2 ^ 16 /\ p = lp_gap (li_direction li) es g
  | ObjQuicklist q, LiQuicklist it => exists F C L SS u bs, options_ok F C /\ q = conc F C L ∅ (Zlen xs) bs /\ ok L ∅ /\ good C u L SS /\ concat SS = xs /\
      match it with
      | None => u = None /\ g = onwards (li_direction li) * Zlen xs
      | Some it => iter_at u L SS it g /\ direction it = iter_direction (li_direction li) /\ (sg = true -> current it = None \/ signed it)
      end
  | _, _ => False
  end.

Record scanning (sg : bool) (o : lobj) (li : listTypeIterator) (xs : list sds) (g : Z) : Prop := {
  sc_bytes : Forall bytes_ok xs;
  sc_size : bytes xs < MAX_BYTES;
  sc_gap : 0 <= g <= Zlen xs;
  sc_ok : scan_ok sg o li xs g;
}.

(** The entry that was returned last is the string [s] with index [i]. *)
Definition entry_ok (sg : bool) (o : lobj) (li : listTypeIterator) (e : listTypeEntry) (xs : list sds) (i : Z) (s : sds) : Prop :=
  match o, pos_of li, e with
  | ObjListpack lp, LiListpack p, LeListpack pe => exists es, repr lp es /\ xs = elem_string <$> es /\ Zlen xs < 2 ^ 16 /\ p = lp_gap (li_direction li) es (i + onwards (li_direction li)) /\
      pe = Some (pos (take (Z.to_nat i) es))
  | ObjQuicklist q, LiQuicklist (Some it), LeQuicklist qe => exists F C L SS bs, options_ok F C /\ q = conc F C L ∅ (Zlen xs) bs /\ ok L ∅ /\ good C (e_node qe) L SS /\ concat SS = xs /\
      entry_at L SS qe i s /\ iter_at (e_node qe) L SS it (i + onwards (li_direction li)) /\ direction it = iter_direction (li_direction li) /\ (sg = true -> signed it) /\
      (current it = e_node qe /\ zi it = e_zi qe /\ offset it = e_offset qe)
  | _, _, _ => False
  end.

Record at_elem (sg : bool) (o : lobj) (li : listTypeIterator) (e : listTypeEntry) (xs : list sds) (i : Z) (s : sds) : Prop := {
  ae_bytes : Forall bytes_ok xs;
  ae_size : bytes xs < MAX_BYTES;
  ae_range : 0 <= i;
  ae_elem : xs !! Z.to_nat i = Some s;
  ae_ok : entry_ok sg o li e xs i s;
}.

Section ListIter.
Context `{Allocator} `{LzfMemory} (packed_threshold : Z).

#[local] Set Default Proof Using "Type".

(** After an entry the iterator stands behind it. *)
Lemma at_elem_scanning sg o li e xs i s : at_elem sg o li e xs i s -> scanning sg o li xs (i + onwards (li_direction li)).
Proof.
  intros [Hby Hsz Hi He Hok]. apply lookup_lt_Some in He. split; [done|done|destruct (li_direction li); cbn [onwards]; lia|]. unfold entry_ok, scan_ok in *. destruct o as [lp|q], (pos_of li) as [p|[it|]], e as [pe|qe]; try done.
  - destruct Hok as (es & Hlp & Hxs & Hl & Hp & _). by exists es.
  - destruct Hok as (F & C & L & SS & bs & Ho & -> & HL & Hg & Hc & _ & Hit & Hd & Hs & _). exists F, C, L, SS, (e_node qe), bs. do 7 (split; [done|]). auto.
Qed.

Lemma initIterator_spec o xs idx dir :
  is_list o xs -> index_ok idx ->
  exists li o', listTypeInitIterator o idx dir = Some (li, o') /\ li_direction li = dir /\
    scanning (bool_decide (dir = LIST_HEAD) && (idx <? 0) || bool_decide (dir = LIST_TAIL) && (0 <=? idx)) o' li xs
      (if found xs idx then list_index (Zlen xs) idx + 1 - onwards dir else onwards dir * Zlen xs).
Proof.
  intros Hil Hidx. pose proof (is_list_short _ _ Hil) as Hsh. pose proof Hil as [Hby Hsz Hb]. set (g := if found xs idx then _ else _).
  assert (Hgr : 0 <= g <= Zlen xs) by (unfold g, found; case_bool_decide; destruct dir; cbn [onwards]; lia).
  assert (Hfin : forall sg o' li, scan_ok sg o' li xs g -> scanning sg o' li xs g) by by intros.
  destruct o as [lp|q]; cbn [listTypeInitIterator].
  - destruct Hb as (es & Hlp & Hxs & Hl). rewrite (lpSeek_spec _ _ Hlp). cbn [mbind option_bind]. eexists _, _. split; [done|]. split; [done|]. apply Hfin. exists es. do 3 (split; [done|]).
    cbn [li_direction]. unfold lp_gap, g, found. assert (Hlen : Zlen xs = Zlen es) by by rewrite Hxs, length_fmap. rewrite Hlen. change (abs_index es idx) with (list_index (Zlen es) idx). case_bool_decide as Hj.
    + f_equal. destruct dir; cbn [onwards]; lia.
    + rewrite !nth_ptr_out; [done|destruct dir; cbn [onwards]; lia|lia].
  - destruct Hb as (F & C & Ho & (L & bs & -> & (Hok & SS & Hg & Hc) & _)). subst xs.
    destruct (iterator_at F C (proj1 (proj1 Ho)) (proj2 Ho) (iter_direction dir) idx L SS bs Hok (gd_contents _ _ _ _ Hg)) as (r & -> & Hr); [lia|done|]. cbn [mbind option_bind].
    eexists _, _. split; [done|]. split; [done|]. apply Hfin. exists F, C, L, SS, None, bs. do 5 (split; [done|]). cbn [li_direction]. unfold g, found. destruct r as [it|].
    + destruct Hr as (Hi & Hit & Hd & Hs). rewrite bool_decide_true by done. rewrite ahead_onwards in Hit. split; [done|]. split; [done|]. unfold signed. rewrite Hd.
      destruct dir; cbn [iter_direction bool_decide]; rewrite ?bool_decide_false by done; rewrite ?bool_decide_true by done; cbn [andb orb]; rewrite ?orb_false_r; intros Hz; right; lia.
    + by rewrite bool_decide_false by done.
Qed.

(** The next element, or the end. *)
Lemma listTypeNext_spec sg o li xs g :
  scanning sg o li xs g ->
  exists b li' e o', listTypeNext o li = Some (b, li', e, o') /\ li_direction li' = li_direction li /\
    if b then exists s, at_elem sg o' li' e xs (g - 1 + onwards (li_direction li)) s
    else g = onwards (li_direction li) * Zlen xs /\ scanning sg o' li' xs g.
Proof.
  intros Hsc. pose proof Hsc as [Hby Hsz Hgr Hok]. unfold listTypeNext, scan_ok in *. destruct li as [dir p]. cbn [li_direction pos_of] in *. destruct o as [lp|q], p as [p|it]; try done.
  - destruct Hok as (es & Hlp & Hxs & Hl & ->). assert (Hlen : Zlen xs = Zlen es) by by rewrite Hxs, length_fmap. unfold lp_gap. destruct (nth_ptr es (g - 1 + onwards dir)) as [p|] eqn:Hp.
    + apply nth_ptr_some in Hp as [Hk ->]. set (k := g - 1 + onwards dir) in *.
      assert (Hnext : (match dir with LIST_TAIL => lpNext lp (pos (take (Z.to_nat k) es)) | LIST_HEAD => lpPrev lp (pos (take (Z.to_nat k) es)) end) = Some (lp_gap dir es (k + onwards dir))).
      { unfold lp_gap. destruct dir; cbn [onwards]; [rewrite (prev_nth _ _ Hlp) by lia|rewrite (next_nth _ _ Hlp) by lia]; do 2 f_equal; lia. }
      rewrite Hnext. cbn [mbind option_bind]. eexists true, _, _, _. split; [done|]. split; [done|]. destruct (lookup_lt_is_Some_2 xs (Z.to_nat k)) as [s Hs]; [lia|]. exists s.
      split; [done|done|lia|done|]. cbn [entry_ok pos_of li_direction]. by exists es.
    + eexists false, _, _, _. split; [done|]. split; [done|]. split; [|split; [done|done|done|]; exists es; do 3 (split; [done|]); cbn [li_direction]; unfold lp_gap; by rewrite Hp]. unfold nth_ptr in Hp. destruct ((0 <=? _) && _) eqn:E in Hp; [done|]. destruct dir; cbn [onwards] in *; lia.
  - destruct Hok as (F & C & L & SS & u & bs & Ho & -> & Hok & Hg & <- & Hit). destruct it as [it|].
    2:{ destruct Hit as [-> ->]. eexists false, _, _, _. split; [done|]. split; [done|]. done. }
    destruct Hit as (Hit & Hd & Hs). destruct (next_spec F C (proj1 (proj1 Ho)) (proj2 Ho) u L SS it (Zlen (concat SS)) bs g Hok Hg Hit) as (b & it' & e & L' & Hrun & Hr & Hsg).
    rewrite Hrun. cbn [mbind option_bind]. eexists b, _, _, _. split; [done|]. split; [done|]. unfold returns in Hr. rewrite Hd, ahead_onwards in Hr. destruct b.
    + destruct Hr as [Ha Hok' Hg' (s & Hsx & He) Hit' Hd' Hsame]. exists s. set (i := g - 1 + onwards dir) in *. rewrite ahead_onwards in Hit'.
      assert (Hi : 0 <= i) by (destruct He as (? & ? & ? & ? & ? & ? & ? & ? & ? & He); decompose [and] He; lia).
      split; [done|done|done|done|]. cbn [entry_ok pos_of li_direction]. exists F, C, L', SS, bs. do 7 (split; [done|]). split; [done|]. split; [|done]. intros Hz. destruct (Hs Hz) as [Hn|Hn]; [|by apply Hsg].
      exfalso. unfold iter_at in Hit. rewrite Hn, Hd, ahead_onwards in Hit. destruct Hit as [_ ->]. apply lookup_lt_Some in Hsx. unfold i in *. destruct dir; cbn [onwards] in *; lia.
    + destruct Hr as (-> & Ha & Hok' & Hg' & Hcur & Hd'). split; [done|]. split; [done|done|done|]. cbn [scan_ok pos_of li_direction]. exists F, C, L', SS, None, bs. do 5 (split; [done|]).
      split; [|split; [done|by left]]. unfold iter_at. by rewrite Hcur, Hd', ahead_onwards.
Qed.

Lemma releaseIterator_spec sg o li xs g : scanning sg o li xs g -> exists o', listTypeReleaseIterator o li = Some o' /\ is_list o' xs.
Proof.
  intros [Hby Hsz _ Hok]. unfold listTypeReleaseIterator, scan_ok in *. destruct o as [lp|q], (pos_of li) as [p|it]; try done.
  - destruct Hok as (es & Hlp & Hxs & Hl & _). eexists. split; [done|]. split; [done|done|by exists es].
  - destruct Hok as (F & C & L & SS & u & bs & Ho & -> & Hok & Hg & <- & Hit).
    assert (Hfin : forall L', ok L' ∅ -> good C None L' SS -> is_list (ObjQuicklist (conc F C L' ∅ (Zlen (concat SS)) bs)) (concat SS)).
    { intros L' Hok' Hg'. split; [done|done|]. exists F, C. split; [done|]. exists L', bs. split; [done|]. split; [|done]. split; [done|by exists SS]. }
    destruct it as [it|]; [|destruct Hit as [-> _]; eexists; split; [done|by apply Hfin]]. destruct Hit as (Hit & _).
    destruct (release_iterator_spec F C (proj1 (proj1 Ho)) (proj2 Ho) u L SS it (Zlen (concat SS)) bs g Hok Hg Hit) as (L' & -> & Hok' & Hg' & _). cbn [mbind option_bind].
    eexists. split; [done|by apply Hfin].
Qed.

(** ** The element under the iterator *)

Lemma listTypeEqual_spec sg o li e xs i s t : at_elem sg o li e xs i s -> listTypeEqual o e t = Some (bool_decide (s = t), o).
Proof.
  intros [_ _ Hi Hs Hok]. unfold listTypeEqual, entry_ok in *. destruct o as [lp|q], (pos_of li) as [p|[it|]], e as [pe|qe]; try done.
  - destruct Hok as (es & Hlp & -> & _ & _ & ->). apply list_lookup_fmap_Some_1 in Hs as (x & -> & Hx).
    destruct (at_entry _ _ Hlp (take (Z.to_nat i) es) x (drop (S (Z.to_nat i)) es)) as (Hx' & Hat & _ & _); [symmetry; by apply take_drop_middle|].
    by rewrite (lpCompare_spec lp _ x t Hx' Hat).
  - destruct Hok as (F & C & L & SS & bs & Ho & -> & Hok & Hg & Hc & He & _). by rewrite (compare_spec F C (proj1 (proj1 Ho)) (proj2 Ho) L SS qe i s t _ bs Hok He).
Qed.

Lemma listTypeGetValue_spec sg o li e xs i s : at_elem sg o li e xs i s -> exists v, listTypeGetValue o e = Some v /\ reads v s.
Proof.
  intros [_ _ Hi Hs Hok]. unfold listTypeGetValue, entry_ok in *. destruct o as [lp|q], (pos_of li) as [p|[it|]], e as [pe|qe]; try done.
  - destruct Hok as (es & Hlp & -> & _ & _ & ->). by apply lp_value_spec.
  - destruct Hok as (F & C & L & SS & bs & Ho & -> & Hok & Hg & Hc & He & _). by eapply value_answer.
Qed.

(** ** Deletion *)

Lemma without_sub k (xs : list sds) (P : sds -> Prop) : Forall P xs -> Forall P (without k xs).
Proof. intros HP. unfold without. apply Forall_app. split; [by apply Forall_take|by apply Forall_drop]. Qed.

Lemma without_bytes k xs : bytes (without k xs) <= bytes xs.
Proof. unfold without. rewrite bytes_app, (bytes_split xs k). pose proof (bytes_drop_le xs k). lia. Qed.

Lemma listTypeDelete_spec o li e xs i s :
  at_elem true o li e xs i s ->
  exists li' o', listTypeDelete o li e = Some (li', o') /\ li_direction li' = li_direction li /\ scanning true o' li' (without (Z.to_nat i) xs) i.
Proof.
  intros [Hby Hsz Hi Hs Hok]. pose proof (lookup_lt_Some _ _ _ Hs) as Hlt. pose proof (length_without _ _ Hlt) as Hlen.
  assert (Hfin : forall o' li', scan_ok true o' li' (without (Z.to_nat i) xs) i -> scanning true o' li' (without (Z.to_nat i) xs) i).
  { intros o' li' Hsc. pose proof (without_bytes (Z.to_nat i) xs). split; [by apply without_sub|lia|lia|done]. }
  unfold listTypeDelete, entry_ok in *. destruct o as [lp|q], (pos_of li) as [p|[it|]] eqn:Hpos, e as [pe|qe]; try done.
  - destruct Hok as (es & Hlp & Hxs & Hl & _ & ->). assert (Hes : Zlen xs = Zlen es) by by rewrite Hxs, length_fmap. destruct (lpDelete_at lp es i Hlp) as (lp' & -> & Hlp'); [lia|].
    set (es' := take _ es ++ _) in *. cbn [mbind option_bind]. assert (Hes' : without (Z.to_nat i) xs = elem_string <$> es').
    { subst xs. unfold es'. rewrite <- fmap_without. unfold without. by replace (S (Z.to_nat i)) with (Z.to_nat (i + 1)) by lia. }
    assert (Hl' : Zlen es' = Zlen es - 1) by (rewrite Hes', length_fmap in Hlen; lia).
    assert (Hgo : (match li_direction li, nth_ptr es' i with LIST_TAIL, _ => Some (nth_ptr es' i) | LIST_HEAD, Some p => lpPrev lp' p | LIST_HEAD, None => lpLast lp' end) = Some (lp_gap (li_direction li) es' i)).
    { unfold lp_gap. destruct (li_direction li); cbn [onwards]; [|do 2 f_equal; lia]. destruct (nth_ptr es' i) as [p'|] eqn:Hp.
      - apply nth_ptr_some in Hp as [Hk ->]. rewrite (prev_nth _ _ Hlp') by lia. do 2 f_equal. lia.
      - rewrite (last_nth _ _ Hlp'). unfold nth_ptr in Hp. destruct ((0 <=? i) && _) eqn:E in Hp; [done|]. do 2 f_equal. lia. }
    destruct (li_direction li) eqn:Hdir; cbn iota in Hgo |- *; [destruct (nth_ptr es' i)|]; rewrite Hgo; cbn [mbind option_bind]; (eexists _, _; split; [done|]); (split; [done|]);
      apply Hfin; cbn [scan_ok pos_of li_direction]; exists es'; (split; [done|]); (split; [done|]); (split; [lia|done]).
  - destruct Hok as (F & C & L & SS & bs & Ho & -> & Hok & Hg & Hc & He & Hit & Hd & Hsg & Hsame). subst xs.
    destruct (delEntry_spec F C (proj1 (proj1 Ho)) (proj2 Ho) L SS qe it i s bs Hok Hg Hsz He Hsame (Hsg eq_refl)) as (u & it' & L' & bs' & SS' & -> & Hok' & Hg' & Hc' & Hit' & Hd' & Hsg').
    cbn [mbind option_bind]. eexists _, _. split; [done|]. split; [done|]. apply Hfin. cbn [scan_ok pos_of li_direction]. exists F, C, L', SS', u, bs'. rewrite <- Hc'. do 5 (split; [done|]). split; [done|].
    split; [by rewrite Hd'|by right].
Qed.

(** ** Insertion and replacement *)

Lemma put_ok j s (xs : list sds) : bytes_ok s -> Forall bytes_ok xs -> Forall bytes_ok (put j s xs).
Proof. intros Hs Hxs. unfold put. apply Forall_app. split; [by apply Forall_take|]. constructor; [done|by apply Forall_drop]. Qed.

Definition after_of (w : list_where) : bool := bool_decide (w = LIST_TAIL).

Lemma listTypeInsert_spec sg o li e xs i s value t w :
  at_elem sg o li e xs i s -> str_is value t -> bytes_ok t -> bytes (t :: xs) < MAX_BYTES -> fits o (Zlen xs + 1) ->
  exists li' e' o1 o2, listTypeInsert packed_threshold o li e value w = Some (li', e', o1) /\ listTypeReleaseIterator o1 li' = Some o2 /\
    is_list o2 (put (slot (after_of w) (Z.to_nat i)) t xs).
Proof.
  intros [Hby Hsz Hi Hs Hok] Hv Ht Hb Hfit. pose proof (lookup_lt_Some _ _ _ Hs) as Hlt. set (ys := put _ t xs).
  assert (Hfin : forall o', backed o' ys -> is_list o' ys) by (intros o' Ho'; split; [by apply put_ok|by unfold ys; rewrite bytes_put|done]).
  unfold listTypeInsert. rewrite (str_decoded _ _ Hv). cbn [mbind option_bind]. unfold entry_ok in Hok. destruct o as [lp|q], (pos_of li) as [p|[it|]] eqn:Hpos, e as [pe|qe]; try done.
  - destruct Hok as (es & Hlp & Hxs & Hl & _ & ->). assert (Hes : Zlen xs = Zlen es) by by rewrite Hxs, length_fmap. rewrite Hxs in Hb.
    destruct (string_insert lp es t (match w with LIST_TAIL => LP_AFTER | LIST_HEAD => LP_BEFORE end) (Z.to_nat i) Hlp Ht ltac:(lia) Hb) as (lp' & p' & Hins & Hlp').
    unfold lpInsertString. rewrite Hins. cbn [mbind option_bind]. eexists _, _, _, _. split; [done|]. unfold listTypeReleaseIterator. rewrite Hpos. split; [done|]. apply Hfin. eexists. split; [done|].
    cbn [fits] in Hfit. unfold ys. rewrite length_put. split; [|lia]. subst xs. unfold put, after_of. rewrite Z2Nat.id by lia.
    destruct w; cbn [insert_at]; rewrite ?bool_decide_true, ?bool_decide_false by done; cbn [slot]; rewrite fmap_app, fmap_cons, elem_string_of, fmap_take, fmap_drop; [done|]. by replace (Z.to_nat (i + 1)) with (S (Z.to_nat i)) by lia.
  - destruct Hok as (F & C & L & SS & bs & Ho & -> & Hok & Hg & Hc & He & Hit & Hd & Hsg & (Hcur & _)). subst xs.
    destruct (insert_spec F C packed_threshold (proj1 (proj1 Ho)) (proj2 Ho) L SS it qe i s t bs (after_of w) Hok Hg He Ht Hb) as (it' & L2 & bs2 & Hins & Hst2 & _ & Hit').
    assert (Hins' : (match w with LIST_TAIL => quicklistInsertAfter packed_threshold it qe t (conc F C L ∅ (Zlen (concat SS)) bs) | LIST_HEAD => quicklistInsertBefore packed_threshold it qe t (conc F C L ∅ (Zlen (concat SS)) bs) end) =
      Some (it', conc F C L2 ∅ (Zlen (concat SS) + 1) bs2)) by by destruct w.
    rewrite Hins'. cbn [mbind option_bind]. destruct (release_any F C (proj1 (proj1 Ho)) (proj2 Ho) L2 ys it' (Zlen (concat SS) + 1) bs2 Hst2) as (L3 & Hrel & Hst3).
    { intros a Ha. destruct Hit' as [Hno|(-> & b & Hb' & Hin)]; [congruence|]. rewrite Hcur, Hb' in Ha. by injection Ha as ->. }
    eexists _, _, _, _. split; [done|]. cbn [listTypeReleaseIterator pos_of]. rewrite Hrel. cbn [mbind option_bind]. split; [done|]. apply Hfin. exists F, C. split; [done|]. exists L3, bs2.
    unfold ys in *. rewrite length_put. split; [done|]. split; [done|]. by rewrite bytes_put.
Qed.

Lemma listTypeReplace_spec sg o li e xs i s value t :
  at_elem sg o li e xs i s -> str_is value t -> bytes_ok t -> bytes (t :: xs) < MAX_BYTES ->
  exists li' e' o1 o2, listTypeReplace packed_threshold o li e value = Some (li', e', o1) /\ listTypeReleaseIterator o1 li' = Some o2 /\ is_list o2 (<[Z.to_nat i := t]> xs).
Proof.
  intros [Hby Hsz Hi Hs Hok] Hv Ht Hb. pose proof (lookup_lt_Some _ _ _ Hs) as Hlt. pose proof (bytes_replace (Z.to_nat i) t xs) as Hle. set (ys := <[_ := t]> xs) in *.
  assert (Hfin : forall o', backed o' ys -> is_list o' ys) by (intros o' Ho'; split; [by apply replace_ok|lia|done]).
  unfold listTypeReplace. rewrite (str_decoded _ _ Hv). cbn [mbind option_bind]. unfold entry_ok in Hok. destruct o as [lp|q], (pos_of li) as [p|[it|]] eqn:Hpos, e as [pe|qe]; try done.
  - destruct Hok as (es & Hlp & Hxs & Hl & _ & ->). assert (Hes : Zlen xs = Zlen es) by by rewrite Hxs, length_fmap. rewrite Hxs in Hb.
    destruct (string_insert lp es t LP_REPLACE (Z.to_nat i) Hlp Ht ltac:(lia) Hb) as (lp' & p' & Hins & Hlp').
    unfold lpReplace. rewrite Hins. cbn [mbind option_bind]. eexists _, _, _, _. split; [done|]. unfold listTypeReleaseIterator. rewrite Hpos. split; [done|]. apply Hfin. eexists. split; [done|].
    unfold ys. rewrite length_insert. split; [|done]. subst xs. cbn [insert_at]. rewrite Z2Nat.id by lia. rewrite insert_take_drop by done. rewrite fmap_app, fmap_cons, elem_string_of, fmap_take, fmap_drop. by replace (Z.to_nat (i + 1)) with (S (Z.to_nat i)) by lia.
  - destruct Hok as (F & C & L & SS & bs & Ho & -> & Hok & Hg & Hc & He & _). subst xs.
    destruct (replaceEntry_spec F C packed_threshold (proj1 (proj1 Ho)) (proj2 Ho) L SS it qe i s t bs Hok Hg He Ht Hb) as (L2 & bs2 & -> & Hst2). cbn [mbind option_bind].
    eexists _, _, _, _. split; [done|]. split; [done|]. apply Hfin. exists F, C. split; [done|]. exists L2, bs2. unfold ys in *. rewrite length_insert. split; [done|]. split; [done|]. lia.
Qed.

End ListIter.

End ListIter.
