(* ===== verification/Dict.v ===== *)
(** * Hash tables with incremental rehashing (src/redis-7.2.4/src/dict.c, dict.h)

    A table is the list of its buckets and a bucket the list of its entries,
    head first; the null table is the empty list.  A pointer to an entry is
    its location: table, bucket and position in the chain.  The hash function
    and the comparison of keys are callbacks of the [dictType], here
    parameters; the entries are those of types with values ([no_value] and
    [keys_are_odd] only change the memory layout of entries).  The global
    [dict_can_resize] is an argument.  [None] is a failed assertion or an
    access outside a table. *)

From stdpp Require Import gmap.
From S2P Require Import Prelude.

Module Dict.

Inductive dictResizeEnable := DICT_RESIZE_ENABLE | DICT_RESIZE_AVOID | DICT_RESIZE_FORBID.

#[export] Instance dictResizeEnable_eq : EqDecision dictResizeEnable.
Proof. solve_decision. Defined.

Inductive dict_status := DICT_OK | DICT_ERR.

Abbreviation DICT_HT_INITIAL_EXP := 2.
Abbreviation DICT_HT_INITIAL_SIZE := 4.
Abbreviation dict_force_resize_ratio := 5.

Definition DICTHT_SIZE (exp : Z) : Z := if exp =? -1 then 0 else u64 (Z.shiftl 1 exp).
Definition DICTHT_SIZE_MASK (exp : Z) : Z := if exp =? -1 then 0 else DICTHT_SIZE exp - 1.

(** [64 - __builtin_clzl(size-1)] is the number of bits of [size-1]. *)
Definition _dictNextExp (size : Z) : Z :=
  if size <=? DICT_HT_INITIAL_SIZE then DICT_HT_INITIAL_EXP
  else if LLONG_MAX <=? size then 63
  else Z.log2 (size - 1) + 1.

Section Dict.
Context {K V : Type}.

(** [expandAllowed] gets the memory of the new table, the number of entries
    and the number of buckets (the code passes the quotient of these). *)
Record dictType := {
  hashFunction : K -> Z;
  keyCompare : K -> K -> bool;
  expandAllowed : option (Z -> Z -> Z -> bool);
}.

#[local] Abbreviation dictEntry := (K * V)%type.
#[local] Abbreviation table := (list (list (K * V))).

Record dict := {
  ht_table0 : table;
  ht_table1 : table;
  ht_used0 : Z;
  ht_used1 : Z;
  rehashidx : Z;
  pauserehash : Z;
  ht_size_exp0 : Z;
  ht_size_exp1 : Z;
}.

(** A pointer to an entry. *)
Record loc := { l_table : bool; l_idx : Z; l_pos : nat }.

Definition dictIsRehashing (d : dict) : bool := negb (rehashidx d =? -1).
Definition dictSize (d : dict) : Z := u64 (ht_used0 d + ht_used1 d).

Definition ht_table (d : dict) (t : bool) : table := if t then ht_table1 d else ht_table0 d.
Definition ht_size_exp (d : dict) (t : bool) : Z := if t then ht_size_exp1 d else ht_size_exp0 d.
Definition ht_used (d : dict) (t : bool) : Z := if t then ht_used1 d else ht_used0 d.

Definition get_bucket (tb : table) (i : Z) : option (list dictEntry) :=
  if 0 <=? i then tb !! Z.to_nat i else None.

Definition set_bucket (tb : table) (i : Z) (b : list dictEntry) : table := <[Z.to_nat i := b]> tb.

(** Assignments to [ht_table[t]] and [ht_used[t]]. *)
Definition set_table (d : dict) (t : bool) (tb : table) : dict :=
  {| ht_table0 := if t then ht_table0 d else tb; ht_table1 := if t then tb else ht_table1 d;
     ht_used0 := ht_used0 d; ht_used1 := ht_used1 d; rehashidx := rehashidx d;
     pauserehash := pauserehash d; ht_size_exp0 := ht_size_exp0 d; ht_size_exp1 := ht_size_exp1 d |}.

Definition set_used (d : dict) (t : bool) (n : Z) : dict :=
  {| ht_table0 := ht_table0 d; ht_table1 := ht_table1 d;
     ht_used0 := if t then ht_used0 d else n; ht_used1 := if t then n else ht_used1 d;
     rehashidx := rehashidx d; pauserehash := pauserehash d;
     ht_size_exp0 := ht_size_exp0 d; ht_size_exp1 := ht_size_exp1 d |}.

Definition set_rehashidx (d : dict) (i : Z) : dict :=
  {| ht_table0 := ht_table0 d; ht_table1 := ht_table1 d; ht_used0 := ht_used0 d; ht_used1 := ht_used1 d;
     rehashidx := i; pauserehash := pauserehash d;
     ht_size_exp0 := ht_size_exp0 d; ht_size_exp1 := ht_size_exp1 d |}.

Definition set_pauserehash (d : dict) (n : Z) : dict :=
  {| ht_table0 := ht_table0 d; ht_table1 := ht_table1 d; ht_used0 := ht_used0 d; ht_used1 := ht_used1 d;
     rehashidx := rehashidx d; pauserehash := n;
     ht_size_exp0 := ht_size_exp0 d; ht_size_exp1 := ht_size_exp1 d |}.

Definition dictPauseRehashing (d : dict) : dict := set_pauserehash d (pauserehash d + 1).
Definition dictResumeRehashing (d : dict) : dict := set_pauserehash d (pauserehash d - 1).

(** ** Creation and size *)

Definition _dictReset (d : dict) (t : bool) : dict :=
  if t then {| ht_table0 := ht_table0 d; ht_table1 := []; ht_used0 := ht_used0 d; ht_used1 := 0;
               rehashidx := rehashidx d; pauserehash := pauserehash d;
               ht_size_exp0 := ht_size_exp0 d; ht_size_exp1 := -1 |}
  else {| ht_table0 := []; ht_table1 := ht_table1 d; ht_used0 := 0; ht_used1 := ht_used1 d;
          rehashidx := rehashidx d; pauserehash := pauserehash d;
          ht_size_exp0 := -1; ht_size_exp1 := ht_size_exp1 d |}.

(** [_dictInit] after [dictCreate] allocated the structure. *)
Definition dictCreate : dict :=
  {| ht_table0 := []; ht_table1 := []; ht_used0 := 0; ht_used1 := 0; rehashidx := -1;
     pauserehash := 0; ht_size_exp0 := -1; ht_size_exp1 := -1 |}.

(** [calloc_ok] says whether the allocation of that many bytes succeeds; the
    second component of the result is [*malloc_failed]. *)
Definition _dictExpand (calloc_ok : Z -> bool) (d : dict) (size : Z) : dict_status * bool * dict :=
  if dictIsRehashing d || (size <? ht_used0 d) then (DICT_ERR, false, d)
  else
    let new_ht_size_exp := _dictNextExp size in
    let newsize := u64 (Z.shiftl 1 new_ht_size_exp) in
    if (newsize <? size) || (u64 (newsize * 8) <? newsize) then (DICT_ERR, false, d)
    else if new_ht_size_exp =? ht_size_exp0 d then (DICT_ERR, false, d)
    else if negb (calloc_ok (newsize * 8)) then (DICT_ERR, true, d)
    else
      let new_ht_table := replicate (Z.to_nat newsize) [] in
      if bool_decide (ht_table0 d = []) then
        (DICT_OK, false,
         {| ht_table0 := new_ht_table; ht_table1 := ht_table1 d; ht_used0 := 0; ht_used1 := ht_used1 d;
            rehashidx := rehashidx d; pauserehash := pauserehash d;
            ht_size_exp0 := new_ht_size_exp; ht_size_exp1 := ht_size_exp1 d |})
      else
        (DICT_OK, false,
         {| ht_table0 := ht_table0 d; ht_table1 := new_ht_table; ht_used0 := ht_used0 d; ht_used1 := 0;
            rehashidx := 0; pauserehash := pauserehash d;
            ht_size_exp0 := ht_size_exp0 d; ht_size_exp1 := new_ht_size_exp |}).

(** [zcalloc] aborts the process instead of failing. *)
Definition dictExpand (d : dict) (size : Z) : dict_status * dict :=
  let '(r, _, d) := _dictExpand (fun _ => true) d size in (r, d).

Definition dictTryExpand (calloc_ok : Z -> bool) (d : dict) (size : Z) : dict_status * dict :=
  let '(_, malloc_failed, d) := _dictExpand calloc_ok d size in
  (if malloc_failed then DICT_ERR else DICT_OK, d).

Definition dictResize (can : dictResizeEnable) (d : dict) : dict_status * dict :=
  if negb (bool_decide (can = DICT_RESIZE_ENABLE)) || dictIsRehashing d then (DICT_ERR, d)
  else
    let minimal := ht_used0 d in
    let minimal := if minimal <? DICT_HT_INITIAL_SIZE then DICT_HT_INITIAL_SIZE else minimal in
    dictExpand d minimal.

Section Type_.
Context (ty : dictType).

Definition dictHashKey (k : K) : Z := hashFunction ty k.

(** ** Rehashing *)

(** The loop over the entries of a bucket: [ht_table[1]] and the counters. *)
Fixpoint rehash_bucket (exp0 exp1 idx : Z) (de : list dictEntry) (tb1 : table) (used0 used1 : Z) :
    option (table * Z * Z) :=
  match de with
  | [] => Some (tb1, used0, used1)
  | e :: nextde =>
      let h := if exp0 <? exp1 then Z.land (dictHashKey e.1) (DICTHT_SIZE_MASK exp1)
               else Z.land idx (DICTHT_SIZE_MASK exp1) in
      b ← get_bucket tb1 h;
      rehash_bucket exp0 exp1 idx nextde (set_bucket tb1 h (e :: b)) (u64 (used0 - 1)) (u64 (used1 + 1))
  end.

(** The loop over empty buckets: [rehashidx], [empty_visits], and whether the
    function returns. *)
Fixpoint skip_empty (fuel : nat) (tb0 : table) (idx empty_visits : Z) : option (Z * Z * bool) :=
  match fuel with
  | O => None
  | S fuel' =>
      b ← get_bucket tb0 idx;
      match b with
      | [] =>
          let idx := idx + 1 in
          let empty_visits := empty_visits - 1 in
          if empty_visits =? 0 then Some (idx, empty_visits, true)
          else skip_empty fuel' tb0 idx empty_visits
      | _ => Some (idx, empty_visits, false)
      end
  end.

(** The main loop, [n] times; the boolean says that the function returned. *)
Fixpoint rehash_loop (n : nat) (d : dict) (empty_visits : Z) : option (dict * bool) :=
  match n with
  | O => Some (d, false)
  | S n' =>
      if ht_used0 d =? 0 then Some (d, false)
      else if negb (u64 (rehashidx d) <? DICTHT_SIZE (ht_size_exp0 d)) then None
      else
        '(idx, empty_visits, ret) ← skip_empty (S (length (ht_table0 d))) (ht_table0 d) (rehashidx d) empty_visits;
        let d := set_rehashidx d idx in
        if (ret : bool) then Some (d, true)
        else
          de ← get_bucket (ht_table0 d) idx;
          '(tb1, used0, used1) ← rehash_bucket (ht_size_exp0 d) (ht_size_exp1 d) idx de
                                   (ht_table1 d) (ht_used0 d) (ht_used1 d);
          rehash_loop n'
            {| ht_table0 := set_bucket (ht_table0 d) idx []; ht_table1 := tb1;
               ht_used0 := used0; ht_used1 := used1; rehashidx := idx + 1;
               pauserehash := pauserehash d;
               ht_size_exp0 := ht_size_exp0 d; ht_size_exp1 := ht_size_exp1 d |} empty_visits
  end.

(** The result is 1 when there is more to rehash. *)
Definition dictRehash (can : dictResizeEnable) (d : dict) (n : nat) : option (Z * dict) :=
  let empty_visits := Z.of_nat n * 10 in
  let s0 := DICTHT_SIZE (ht_size_exp0 d) in
  let s1 := DICTHT_SIZE (ht_size_exp1 d) in
  if bool_decide (can = DICT_RESIZE_FORBID) || negb (dictIsRehashing d) then Some (0, d)
  else if bool_decide (can = DICT_RESIZE_AVOID) &&
          (((s0 <? s1) && (s1 / s0 <? dict_force_resize_ratio)) ||
           ((s1 <? s0) && (s0 / s1 <? dict_force_resize_ratio)))
  then Some (0, d)
  else
    '(d, ret) ← rehash_loop n d empty_visits;
    if (ret : bool) then Some (1, d)
    else if ht_used0 d =? 0 then
      let d := {| ht_table0 := ht_table1 d; ht_table1 := ht_table1 d;
                  ht_used0 := ht_used1 d; ht_used1 := ht_used1 d; rehashidx := rehashidx d;
                  pauserehash := pauserehash d;
                  ht_size_exp0 := ht_size_exp1 d; ht_size_exp1 := ht_size_exp1 d |} in
      Some (0, set_rehashidx (_dictReset d true) (-1))
    else Some (1, d).

(** The loop [while(dictRehash(d,100))]; [now i] is the time of the [i]-th
    reading of the clock. *)
Fixpoint rehash_ms_loop (fuel : nat) (can : dictResizeEnable) (now : nat -> Z) (i : nat) (ms : Z)
    (d : dict) (rehashes : Z) : option (Z * dict) :=
  match fuel with
  | O => None
  | S fuel' =>
      '(r, d) ← dictRehash can d 100;
      if r =? 0 then Some (rehashes, d)
      else
        let rehashes := s32 (rehashes + 100) in
        if ms <? now (S i) - now O then Some (rehashes, d)
        else rehash_ms_loop fuel' can now (S i) ms d rehashes
  end.

Definition dictRehashMilliseconds (can : dictResizeEnable) (now : nat -> Z) (d : dict) (ms : Z) : option (Z * dict) :=
  if 0 <? pauserehash d then Some (0, d)
  else rehash_ms_loop (S (S (length (ht_table0 d)))) can now O ms d 0.

Definition _dictRehashStep (can : dictResizeEnable) (d : dict) : option dict :=
  if pauserehash d =? 0 then '(_, d) ← dictRehash can d 1; Some d else Some d.

(** [if (dictIsRehashing(d)) _dictRehashStep(d);] *)
Definition rehash_step (can : dictResizeEnable) (d : dict) : option dict :=
  if dictIsRehashing d then _dictRehashStep can d else Some d.

(** ** Searching *)

Fixpoint find_in_chain (k : K) (he : list dictEntry) : option nat :=
  match he with
  | [] => None
  | e :: he => if keyCompare ty k e.1 then Some 0%nat else S <$> find_in_chain k he
  end.

(** The search over both tables that the operations share. *)
Definition search (d : dict) (k : K) (h : Z) : option (option loc) :=
  let idx := Z.land h (DICTHT_SIZE_MASK (ht_size_exp0 d)) in
  he ← get_bucket (ht_table0 d) idx;
  match find_in_chain k he with
  | Some p => Some (Some {| l_table := false; l_idx := idx; l_pos := p |})
  | None =>
      if negb (dictIsRehashing d) then Some None
      else
        let idx := Z.land h (DICTHT_SIZE_MASK (ht_size_exp1 d)) in
        he ← get_bucket (ht_table1 d) idx;
        Some ((fun p => {| l_table := true; l_idx := idx; l_pos := p |}) <$> find_in_chain k he)
  end.

Definition entry_at (d : dict) (l : loc) : option dictEntry :=
  he ← get_bucket (ht_table d (l_table l)) (l_idx l); he !! l_pos l.

Definition dictFind (can : dictResizeEnable) (d : dict) (k : K) : option (option loc * dict) :=
  if dictSize d =? 0 then Some (None, d)
  else
    d ← rehash_step can d;
    r ← search d k (dictHashKey k);
    Some (r, d).

Definition dictFetchValue (can : dictResizeEnable) (d : dict) (k : K) : option (option V * dict) :=
  '(he, d) ← dictFind can d k;
  match he with
  | None => Some (None, d)
  | Some l => e ← entry_at d l; Some (Some e.2, d)
  end.

(** ** Adding *)

Definition dictTypeExpandAllowed (d : dict) : bool :=
  match expandAllowed ty with
  | None => true
  | Some f => f (u64 (DICTHT_SIZE (_dictNextExp (ht_used0 d + 1)) * 8)) (ht_used0 d)
                (DICTHT_SIZE (ht_size_exp0 d))
  end.

Definition _dictExpandIfNeeded (can : dictResizeEnable) (d : dict) : dict_status * dict :=
  if dictIsRehashing d then (DICT_OK, d)
  else if DICTHT_SIZE (ht_size_exp0 d) =? 0 then dictExpand d DICT_HT_INITIAL_SIZE
  else if (bool_decide (can = DICT_RESIZE_ENABLE) && (DICTHT_SIZE (ht_size_exp0 d) <=? ht_used0 d)) ||
          (negb (bool_decide (can = DICT_RESIZE_FORBID)) &&
           (dict_force_resize_ratio <? ht_used0 d / DICTHT_SIZE (ht_size_exp0 d)))
  then if negb (dictTypeExpandAllowed d) then (DICT_OK, d) else dictExpand d (u64 (ht_used0 d + 1))
  else (DICT_OK, d).

(** [inl] is the existing entry, if the key was found; [inr] the bucket. *)
Definition dictFindPositionForInsert (can : dictResizeEnable) (d : dict) (k : K) :
    option ((option loc + bool * Z) * dict) :=
  let hash := dictHashKey k in
  d ← rehash_step can d;
  match _dictExpandIfNeeded can d with
  | (DICT_ERR, d) => Some (inl None, d)
  | (DICT_OK, d) =>
      r ← search d k hash;
      match r with
      | Some l => Some (inl (Some l), d)
      | None =>
          let t := dictIsRehashing d in
          Some (inr (t, Z.land hash (DICTHT_SIZE_MASK (ht_size_exp d t))), d)
      end
  end.

Definition dictInsertAtPosition (d : dict) (k : K) (v : V) (position : bool * Z) : option (loc * dict) :=
  let '(t, idx) := position in
  let htidx := dictIsRehashing d in
  _ ← assertb (Bool.eqb t htidx && (0 <=? idx) && (idx <=? DICTHT_SIZE_MASK (ht_size_exp d htidx)));
  b ← get_bucket (ht_table d htidx) idx;
  let d := set_table d htidx (set_bucket (ht_table d htidx) idx ((k, v) :: b)) in
  Some ({| l_table := htidx; l_idx := idx; l_pos := 0 |}, set_used d htidx (u64 (ht_used d htidx + 1))).

(** The new entry, or the existing one ([inl]).  The value of the new entry
    is given; the callers set it at once. *)
Definition dictAddRaw (can : dictResizeEnable) (d : dict) (k : K) (v : V) :
    option ((option loc + loc) * dict) :=
  '(r, d) ← dictFindPositionForInsert can d k;
  match r with
  | inl existing => Some (inl existing, d)
  | inr position => '(l, d) ← dictInsertAtPosition d k v position; Some (inr l, d)
  end.

Definition dictAdd (can : dictResizeEnable) (d : dict) (k : K) (v : V) : option (dict_status * dict) :=
  '(r, d) ← dictAddRaw can d k v;
  Some (match r with inl _ => (DICT_ERR, d) | inr _ => (DICT_OK, d) end).

Definition dictSetVal (d : dict) (l : loc) (v : V) : option dict :=
  he ← get_bucket (ht_table d (l_table l)) (l_idx l);
  e ← he !! l_pos l;
  Some (set_table d (l_table l)
          (set_bucket (ht_table d (l_table l)) (l_idx l) (<[l_pos l := (e.1, v)]> he))).

(** 1 when the key was added, 0 when its value was replaced; [existing] is
    dereferenced, so it must not be the null pointer. *)
Definition dictReplace (can : dictResizeEnable) (d : dict) (k : K) (v : V) : option (Z * dict) :=
  '(r, d) ← dictAddRaw can d k v;
  match r with
  | inr _ => Some (1, d)
  | inl existing => l ← existing; d ← dictSetVal d l v; Some (0, d)
  end.

Definition dictAddOrFind (can : dictResizeEnable) (d : dict) (k : K) (v : V) : option (option loc * dict) :=
  '(r, d) ← dictAddRaw can d k v;
  Some (match r with inr l => (Some l, d) | inl existing => (existing, d) end).

(** ** Deleting *)

(** The entry is unlinked from its chain. *)
Definition unlink (d : dict) (l : loc) : option dict :=
  he ← get_bucket (ht_table d (l_table l)) (l_idx l);
  let d := set_table d (l_table l)
             (set_bucket (ht_table d (l_table l)) (l_idx l) (delete (l_pos l) he)) in
  Some (set_used d (l_table l) (u64 (ht_used d (l_table l) - 1))).

(** The unlinked entry. *)
Definition dictGenericDelete (can : dictResizeEnable) (d : dict) (k : K) : option (option dictEntry * dict) :=
  if dictSize d =? 0 then Some (None, d)
  else
    d ← rehash_step can d;
    r ← search d k (dictHashKey k);
    match r with
    | None => Some (None, d)
    | Some l => e ← entry_at d l; d ← unlink d l; Some (Some e, d)
    end.

Definition dictDelete (can : dictResizeEnable) (d : dict) (k : K) : option (dict_status * dict) :=
  '(he, d) ← dictGenericDelete can d k;
  Some (match he with Some _ => DICT_OK | None => DICT_ERR end, d).

Definition dictUnlink (can : dictResizeEnable) (d : dict) (k : K) : option (option dictEntry * dict) :=
  dictGenericDelete can d k.

Definition dictTwoPhaseUnlinkFind (can : dictResizeEnable) (d : dict) (k : K) : option (option loc * dict) :=
  if dictSize d =? 0 then Some (None, d)
  else
    d ← rehash_step can d;
    r ← search d k (dictHashKey k);
    match r with
    | None => Some (None, d)
    | Some l => Some (Some l, dictPauseRehashing d)
    end.

Definition dictTwoPhaseUnlinkFree (d : dict) (he : option loc) : option dict :=
  match he with
  | None => Some d
  | Some l => d ← unlink d l; Some (dictResumeRehashing d)
  end.

End Type_.

(** The loop that frees the entries only changes memory that is released. *)
Definition _dictClear (d : dict) (t : bool) : dict := _dictReset d t.

Definition dictEmpty (d : dict) : dict :=
  let d := _dictClear d false in
  let d := _dictClear d true in
  set_pauserehash (set_rehashidx d (-1)) 0.

(** ** Iterators *)

(** [haddr] gives the addresses of the two tables. *)
Fixpoint fingerprint_loop (integers : list Z) (hash : Z) : Z :=
  match integers with
  | [] => hash
  | i :: integers =>
      let hash := u64 (hash + i) in
      let hash := u64 (u64 (Z.lnot hash) + u64 (Z.shiftl hash 21)) in
      let hash := Z.lxor hash (Z.shiftr hash 24) in
      let hash := u64 (u64 (hash + u64 (Z.shiftl hash 3)) + u64 (Z.shiftl hash 8)) in
      let hash := Z.lxor hash (Z.shiftr hash 14) in
      let hash := u64 (u64 (hash + u64 (Z.shiftl hash 2)) + u64 (Z.shiftl hash 4)) in
      let hash := Z.lxor hash (Z.shiftr hash 28) in
      fingerprint_loop integers (u64 (hash + u64 (Z.shiftl hash 31)))
  end.

Definition dictFingerprint (haddr : bool -> Z) (d : dict) : Z :=
  fingerprint_loop [u64 (haddr false); u64 (ht_size_exp d false); ht_used0 d;
                    u64 (haddr true); u64 (ht_size_exp d true); ht_used1 d] 0.

(** [entry] and [nextEntry] are the chains from these entries on, empty for
    null pointers. *)
Record dictIterator := {
  it_index : Z;
  it_table : bool;
  it_safe : bool;
  it_entry : list dictEntry;
  it_nextEntry : list dictEntry;
  it_fingerprint : Z;
}.

(** The fingerprint is not initialised. *)
Definition dictInitIterator : dictIterator :=
  {| it_index := -1; it_table := false; it_safe := false; it_entry := []; it_nextEntry := []; it_fingerprint := 0 |}.

Definition dictInitSafeIterator : dictIterator :=
  {| it_index := -1; it_table := false; it_safe := true; it_entry := []; it_nextEntry := []; it_fingerprint := 0 |}.

Definition dictResetIterator (haddr : bool -> Z) (d : dict) (it : dictIterator) : option dict :=
  if negb ((it_index it =? -1) && negb (it_table it)) then
    if it_safe it then Some (dictResumeRehashing d)
    else _ ← assertb (it_fingerprint it =? dictFingerprint haddr d); Some d
  else Some d.

(** The first call of [dictNext]. *)
Definition start_iterator (haddr : bool -> Z) (d : dict) (it : dictIterator) : dict * dictIterator :=
  if (it_index it =? -1) && negb (it_table it) then
    if it_safe it then (dictPauseRehashing d, it)
    else (d, {| it_index := it_index it; it_table := it_table it; it_safe := it_safe it; it_entry := it_entry it;
                it_nextEntry := it_nextEntry it; it_fingerprint := dictFingerprint haddr d |})
  else (d, it).

(** The end of a round of the loop of [dictNext]: the entry it returns, or
    nothing when the loop goes on. *)
Definition set_entry (it : dictIterator) (index : Z) (table : bool) (entry : list dictEntry) : option dictEntry * dictIterator :=
  match entry with
  | [] => (None, {| it_index := index; it_table := table; it_safe := it_safe it; it_entry := [];
                    it_nextEntry := it_nextEntry it; it_fingerprint := it_fingerprint it |})
  | e :: next => (Some e, {| it_index := index; it_table := table; it_safe := it_safe it; it_entry := e :: next;
                             it_nextEntry := next; it_fingerprint := it_fingerprint it |})
  end.

Fixpoint next_loop (haddr : bool -> Z) (fuel : nat) (d : dict) (it : dictIterator) : option (option dictEntry * dict * dictIterator) :=
  match fuel with
  | O => None
  | S fuel' =>
      match it_entry it with
      | [] =>
          let '(d, it) := start_iterator haddr d it in
          let index := it_index it + 1 in
          if DICTHT_SIZE (ht_size_exp d (it_table it)) <=? index then
            if dictIsRehashing d && negb (it_table it) then
              entry ← get_bucket (ht_table d true) 0;
              let '(r, it) := set_entry it 0 true entry in
              match r with Some e => Some (Some e, d, it) | None => next_loop haddr fuel' d it end
            else
              Some (None, d, {| it_index := index; it_table := it_table it; it_safe := it_safe it;
                                it_entry := []; it_nextEntry := it_nextEntry it; it_fingerprint := it_fingerprint it |})
          else
            entry ← get_bucket (ht_table d (it_table it)) index;
            let '(r, it) := set_entry it index (it_table it) entry in
            match r with Some e => Some (Some e, d, it) | None => next_loop haddr fuel' d it end
      | _ :: _ =>
          let '(r, it) := set_entry it (it_index it) (it_table it) (it_nextEntry it) in
          match r with Some e => Some (Some e, d, it) | None => next_loop haddr fuel' d it end
      end
  end.

(** A round goes to the next bucket, after one that may end a chain. *)
Definition dictNext (haddr : bool -> Z) (d : dict) (it : dictIterator) : option (option dictEntry * dict * dictIterator) :=
  next_loop haddr (length (ht_table0 d) + length (ht_table1 d) + 3) d it.

(** ** Scanning *)

(** Bit reversal; the loop has [s] = 32, 16, 8, 4, 2 and 1. *)
Fixpoint rev_loop (ss : list Z) (mask v : Z) : Z :=
  match ss with
  | [] => v
  | s :: ss =>
      let mask := Z.lxor mask (u64 (Z.shiftl mask s)) in
      let v := Z.lor (Z.land (Z.shiftr v s) mask) (Z.land (u64 (Z.shiftl v s)) (u64 (Z.lnot mask))) in
      rev_loop ss mask v
  end.

Definition rev_bits (v : Z) : Z := rev_loop [32; 16; 8; 4; 2; 1] ULLONG_MAX v.

(** [v |= ~m; v = rev(v); v++; v = rev(v);] *)
Definition next_cursor (v m : Z) : Z :=
  let v := Z.lor v (u64 (Z.lnot m)) in
  let v := rev_bits v in
  let v := u64 (v + 1) in
  rev_bits v.

(** The [do ... while] over the expansions of the cursor in the larger table:
    the cursor and the entries passed to [fn]. *)
Fixpoint scan_loop (fuel : nat) (tb1 : table) (m0 m1 v : Z) (acc : list dictEntry) :
    option (Z * list dictEntry) :=
  match fuel with
  | O => None
  | S fuel' =>
      de ← get_bucket tb1 (Z.land v m1);
      let acc := acc ++ de in
      let v := next_cursor v m1 in
      if Z.land v (Z.lxor m0 m1) =? 0 then Some (v, acc)
      else scan_loop fuel' tb1 m0 m1 v acc
  end.

(** The new cursor and the entries passed to [fn], in order; [fn] does not
    change the dictionary and rehashing is paused meanwhile. *)
Definition dictScan (d : dict) (v : Z) : option (Z * list dictEntry) :=
  if dictSize d =? 0 then Some (0, [])
  else if negb (dictIsRehashing d) then
    let m0 := DICTHT_SIZE_MASK (ht_size_exp0 d) in
    de ← get_bucket (ht_table0 d) (Z.land v m0);
    Some (next_cursor v m0, de)
  else
    let swap := DICTHT_SIZE (ht_size_exp1 d) <? DICTHT_SIZE (ht_size_exp0 d) in
    let htidx0 := swap in
    let htidx1 := negb swap in
    let m0 := DICTHT_SIZE_MASK (ht_size_exp d htidx0) in
    let m1 := DICTHT_SIZE_MASK (ht_size_exp d htidx1) in
    de ← get_bucket (ht_table d htidx0) (Z.land v m0);
    scan_loop (length (ht_table d htidx1)) (ht_table d htidx1) m0 m1 v de.

(** ** Resizing *)

Abbreviation HASHTABLE_MIN_FILL := 10.

(** [htNeedsResize] of server.c, in [long long]; nothing when [used*100]
    overflows. *)
Definition htNeedsResize (d : dict) : option bool :=
  let size := s64 (DICTHT_SIZE (ht_size_exp0 d) + DICTHT_SIZE (ht_size_exp1 d)) in
  let used := s64 (dictSize d) in
  if DICT_HT_INITIAL_SIZE <? size then
    _ ← assertb (s64 (used * 100) =? used * 100);
    Some (Z.quot (used * 100) size <? HASHTABLE_MIN_FILL)
  else Some false.

End Dict.

Arguments dictType : clear implicits.
Arguments dict : clear implicits.

End Dict.
