(* ===== verification/DictSpec.v ===== *)
(** * Hash tables as finite maps

    The invariant of the hash tables of Dict.v and what their operations do
    to the finite map they stand for: lookups, insertions and deletions are
    those of the map, and rehashing does not change it. *)

From stdpp Require Import gmap.
From S2P Require Import Prelude.
From S2P Require Import Dict.
Import Dict.

Module DictSpec.

(** What the operations rely on of the callbacks of a [dictType]. *)
Class DictLaws {K} (ty : dictType K) : Prop := {
  hash_range k : 0 <= hashFunction ty k < 2 ^ 64;
  compare_eq k k' : keyCompare ty k k' = true <-> k = k';
}.

(** ** Tables *)

Lemma dict_size exp : 0 <= exp <= 63 -> DICTHT_SIZE exp = 2 ^ exp.
Proof.
  intros He. unfold DICTHT_SIZE. rewrite (proj2 (Z.eqb_neq _ _)) by lia.
  rewrite Z.shiftl_1_l, uwrap_small; [done|]. split; [lia|]. apply Z.pow_lt_mono_r; lia.
Qed.

Lemma dict_mask exp z : 0 <= exp <= 63 -> Z.land z (DICTHT_SIZE_MASK exp) = z mod 2 ^ exp.
Proof.
  intros He. unfold DICTHT_SIZE_MASK. rewrite (proj2 (Z.eqb_neq _ _)) by lia.
  rewrite dict_size by done. apply land_mask; lia.
Qed.

Section Tables.
Context {K V : Type} (ty : dictType K).

Definition hash (k : K) : Z := hashFunction ty k.

Definition bucket_ok (exp i : Z) (b : list (K * V)) : Prop :=
  Forall (fun e => hash e.1 mod 2 ^ exp = i) b.

(** A table with buckets. *)
Definition table_ok (exp : Z) (tb : list (list (K * V))) : Prop :=
  2 <= exp <= 60 /\ Zlen tb = 2 ^ exp /\
  forall i b, tb !! i = Some b -> bucket_ok exp (Z.of_nat i) b.

Lemma concat_split (tb : list (list (K * V))) i b :
  tb !! i = Some b ->
  exists rest, concat tb ≡ₚ b ++ rest /\ forall b', concat (<[i := b']> tb) ≡ₚ b' ++ rest.
Proof.
  intros Hi. exists (concat (take i tb) ++ concat (drop (S i) tb)).
  assert (Hlt : (i < length tb)%nat) by by eapply lookup_lt_Some.
  assert (Hgen : forall b', concat (<[i := b']> tb) ≡ₚ b' ++ concat (take i tb) ++ concat (drop (S i) tb)).
  { intros b'. rewrite insert_take_drop by done. rewrite concat_app. cbn [concat].
    rewrite (app_assoc (concat _) b'), (Permutation_app_comm (concat (take i tb)) b'), app_assoc. done. }
  split; [|done]. rewrite <- (list_insert_id tb i b Hi) at 1. apply Hgen.
Qed.

Lemma elem_concat (tb : list (list (K * V))) e : e ∈ concat tb <-> exists i b, tb !! i = Some b /\ e ∈ b.
Proof.
  rewrite list_elem_of_In, in_concat. split.
  - intros (b & Hb & He). apply list_elem_of_In, list_elem_of_lookup_1 in Hb as [i Hi].
    exists i, b. split; [done|]. by apply list_elem_of_In.
  - intros (i & b & Hi & He). exists b. split; apply list_elem_of_In; [|done]. by eapply list_elem_of_lookup_2.
Qed.

Lemma bucket_in_range exp tb z :
  table_ok exp tb -> exists b, get_bucket tb (z mod 2 ^ exp) = Some b.
Proof.
  intros (He & Hl & _). assert (0 <= z mod 2 ^ exp < 2 ^ exp) by (apply Z.mod_pos_bound, Z.pow_pos_nonneg; lia).
  unfold get_bucket. rewrite (proj2 (Z.leb_le _ _)) by lia. apply lookup_lt_is_Some_2. lia.
Qed.

Lemma get_bucket_some (tb : list (list (K * V))) i b :
  get_bucket tb i = Some b <-> 0 <= i /\ tb !! Z.to_nat i = Some b.
Proof.
  unfold get_bucket. destruct (Z.leb_spec 0 i); [|split; [done|lia]]. split; [auto|tauto].
Qed.

(** The entries with a key are in its bucket. *)
Lemma entry_in_bucket exp tb k v b :
  table_ok exp tb -> get_bucket tb (hash k mod 2 ^ exp) = Some b ->
  (k, v) ∈ concat tb <-> (k, v) ∈ b.
Proof.
  intros (He & Hl & Hok) [Hr Hb]%get_bucket_some. rewrite elem_concat. split.
  - intros (i & b' & Hi & Hin). pose proof (Hok i b' Hi) as Hbk.
    unfold bucket_ok in Hbk. rewrite Forall_forall in Hbk. specialize (Hbk _ Hin). cbn in Hbk.
    rewrite Hbk, Nat2Z.id in Hb. congruence.
  - intros Hin. by eexists _, _.
Qed.

Lemma table_insert exp tb i b' :
  table_ok exp tb -> bucket_ok exp i b' -> 0 <= i -> table_ok exp (set_bucket tb i b').
Proof.
  intros (He & Hl & Hok) Hb Hi. unfold set_bucket. split; [done|]. split; [by rewrite length_insert|].
  intros j b Hj. destruct (decide (j = Z.to_nat i)) as [->|Hne].
  - apply list_lookup_insert_Some in Hj as [(_ & <- & _)|[? _]]; [|done]. by rewrite Z2Nat.id.
  - rewrite list_lookup_insert_ne in Hj by done. by apply Hok.
Qed.

Lemma table_empty exp : 2 <= exp <= 60 -> table_ok exp (replicate (Z.to_nat (2 ^ exp)) []).
Proof.
  intros He. split; [done|]. split; [rewrite length_replicate; lia|].
  intros i b [-> _]%lookup_replicate. constructor.
Qed.

Lemma concat_replicate_nil {A} n : concat (replicate n (@nil A)) = [].
Proof. by induction n. Qed.

End Tables.

(** ** The invariant *)

Section Inv.
Context {K V : Type} (ty : dictType K) `{!DictLaws ty}.
Implicit Types (d : dict K V) (k : K) (v : V).

Definition entries d : list (K * V) := concat (ht_table0 d) ++ concat (ht_table1 d).

Definition counts_ok d : Prop :=
  ht_used0 d = Zlen (concat (ht_table0 d)) /\ ht_used1 d = Zlen (concat (ht_table1 d)) /\
  Zlen (entries d) < 2 ^ 64.

(** While rehashing, the buckets before [rehashidx] are empty. *)
Definition rehashing_ok d : Prop :=
  table_ok ty (ht_size_exp0 d) (ht_table0 d) /\ table_ok ty (ht_size_exp1 d) (ht_table1 d) /\
  ht_size_exp0 d <> ht_size_exp1 d /\ 0 <= rehashidx d <= Zlen (ht_table0 d) /\
  (forall i b, Z.of_nat i < rehashidx d -> ht_table0 d !! i = Some b -> b = []).

Definition stable_ok d : Prop :=
  (ht_size_exp0 d = -1 /\ ht_table0 d = [] \/ table_ok ty (ht_size_exp0 d) (ht_table0 d)) /\
  ht_size_exp1 d = -1 /\ ht_table1 d = [] /\ rehashidx d = -1.

Definition wf d : Prop :=
  counts_ok d /\ NoDup (entries d).*1 /\
  (rehashing_ok d /\ dictIsRehashing d = true \/ stable_ok d /\ dictIsRehashing d = false).

(** *** Rehashing *)

Lemma rehash_bucket_spec exp0 exp1 idx de : forall (tb1 : list (list (K * V))) used0 used1,
  2 <= exp0 -> exp0 <> exp1 -> table_ok ty exp1 tb1 -> bucket_ok ty exp0 idx de ->
  Zlen de <= used0 < 2 ^ 64 -> 0 <= used1 -> used1 + Zlen de < 2 ^ 64 ->
  exists tb1', rehash_bucket ty exp0 exp1 idx de tb1 used0 used1 =
    Some (tb1', used0 - Zlen de, used1 + Zlen de) /\
    table_ok ty exp1 tb1' /\ concat tb1' ≡ₚ de ++ concat tb1.
Proof.
  induction de as [|e de IH]; intros tb1 used0 used1 He0 Hne Ht Hb Hu0 Hu1 Hu1'.
  { exists tb1. cbn [rehash_bucket length]. by rewrite Z.sub_0_r, Z.add_0_r. }
  cbn [rehash_bucket length] in *. apply Forall_cons in Hb as [Hhe Hb].
  set (h := hash ty e.1 mod 2 ^ exp1). destruct (Ht) as (He1 & _).
  assert ((if exp0 <? exp1 then Z.land (dictHashKey ty e.1) (DICTHT_SIZE_MASK exp1)
           else Z.land idx (DICTHT_SIZE_MASK exp1)) = h) as ->.
  { rewrite !dict_mask by lia. destruct (Z.ltb_spec exp0 exp1); [done|]. rewrite <- Hhe. unfold h.
    replace exp0 with (exp1 + (exp0 - exp1)) by lia. rewrite Z.pow_add_r by lia.
    rewrite Z.rem_mul_r by (try apply Z.pow_pos_nonneg; lia).
    rewrite Z.mul_comm, Z.mod_add, Z.mod_mod by lia. done. }
  destruct (bucket_in_range ty exp1 tb1 (hash ty e.1) Ht) as [b Hb1]. fold h in Hb1. rewrite Hb1.
  cbn [mbind option_bind]. apply get_bucket_some in Hb1 as [Hh0 Hb1].
  rewrite !uwrap_small by lia.
  destruct (IH (set_bucket tb1 h (e :: b)) (used0 - 1) (used1 + 1)) as (tb1' & -> & Ht' & Hp); [done|done| |done|lia..|].
  { apply table_insert; [done| |done]. constructor; [done|].
    pose proof (proj2 (proj2 Ht) _ _ Hb1) as Hbk. by rewrite Z2Nat.id in Hbk. }
  exists tb1'. split; [f_equal; f_equal; [f_equal; lia|lia]|]. split; [done|].
  destruct (concat_split _ _ _ Hb1) as (rest & Hold & Hnew). rewrite Hp.
  unfold set_bucket. rewrite Hnew, Hold. cbn [app]. by rewrite <- Permutation_middle.
Qed.

Lemma skip_empty_spec (tb0 : list (list (K * V))) j b fuel : forall idx ev,
  0 <= idx <= Z.of_nat j -> tb0 !! j = Some b -> b <> [] -> Z.of_nat j - idx < Z.of_nat fuel ->
  exists idx' ev' ret, skip_empty fuel tb0 idx ev = Some (idx', ev', ret) /\ idx <= idx' <= Z.of_nat j /\
    (ret = true -> idx < idx') /\
    (forall i b, idx <= Z.of_nat i < idx' -> tb0 !! i = Some b -> b = []).
Proof.
  induction fuel as [|fuel IH]; intros idx ev Hidx Hj Hb Hf; [lia|]. cbn [skip_empty].
  destruct (lookup_lt_is_Some_2 tb0 (Z.to_nat idx)) as [b0 Hb0].
  { apply lookup_lt_Some in Hj. lia. }
  unfold get_bucket. rewrite (proj2 (Z.leb_le _ _)), Hb0 by lia. cbn [mbind option_bind].
  destruct b0 as [|e b0]; [|eexists _, _, _; split; [done|]; split_and!; [lia..|done|intros; lia]].
  assert (idx <> Z.of_nat j) by (intros ->; rewrite Nat2Z.id in Hb0; congruence).
  destruct (ev - 1 =? 0).
  - eexists _, _, _. split; [done|]. split; [lia|]. split; [lia|]. intros i b' Hi Hb'.
    assert (i = Z.to_nat idx) as -> by lia. congruence.
  - destruct (IH (idx + 1) (ev - 1)) as (idx' & ev' & ret & -> & Hr & Hm & He); [lia|done..|lia|].
    eexists _, _, _. split; [done|]. split; [lia|]. split; [lia|]. intros i b' Hi Hb'.
    destruct (decide (i = Z.to_nat idx)) as [->|Hne]; [congruence|]. apply (He i); [lia|done].
Qed.

(** What the rehashing loop keeps. *)
Definition same_entries d d' : Prop :=
  entries d' ≡ₚ entries d /\ pauserehash d' = pauserehash d.

Lemma same_entries_trans d1 d2 d3 : same_entries d1 d2 -> same_entries d2 d3 -> same_entries d1 d3.
Proof. intros [H1 H2] [H3 H4]. split; [by rewrite H3|congruence]. Qed.

(** The loop moves [rehashidx] unless it finds the first table empty. *)
Definition progress (n : nat) d d' (ret : bool) : Prop :=
  length (ht_table0 d') = length (ht_table0 d) /\ rehashidx d <= rehashidx d' /\
  (n <> O -> ret = true \/ ht_used0 d' <> 0 -> rehashidx d < rehashidx d').

Lemma rehash_loop_spec n : forall d ev,
  rehashing_ok d -> counts_ok d ->
  exists d' ret, rehash_loop ty n d ev = Some (d', ret) /\
    rehashing_ok d' /\ counts_ok d' /\ same_entries d d' /\ progress n d d' ret.
Proof.
  induction n as [|n IH]; intros d ev Hr Hc; [exists d, false; do 4 (split; [done|]); unfold progress; lia|]. cbn [rehash_loop].
  destruct (Z.eqb_spec (ht_used0 d) 0) as [|Hu]; [exists d, false; do 4 (split; [done|]); unfold progress; lia|].
  destruct (Hc) as (Hc0 & Hc1 & Hcs). destruct (Hr) as (Ht0 & Ht1 & Hne & Hidx & Hemp).
  assert (exists j b e, ht_table0 d !! j = Some b /\ e ∈ b /\ rehashidx d <= Z.of_nat j) as (j & b & e & Hj & Hin & Hge).
  { destruct (concat (ht_table0 d)) as [|e l] eqn:El; [rewrite Hc0 in Hu; done|].
    assert (He : e ∈ concat (ht_table0 d)) by (rewrite El; by left).
    apply elem_concat in He as (j & b & Hj & Hin). exists j, b, e. split; [done|]. split; [done|].
    destruct (Z.leb_spec (rehashidx d) (Z.of_nat j)); [done|].
    rewrite (Hemp j b) in Hin by done. by apply not_elem_of_nil in Hin. }
  assert (Hjlt := lookup_lt_Some _ _ _ Hj). destruct (Ht0) as (He0 & Hl0 & Hok0).
  assert (Zlen (ht_table0 d) <= 2 ^ 60) by (rewrite Hl0; apply Z.pow_le_mono_r; lia).
  rewrite dict_size, uwrap_small, (proj2 (Z.ltb_lt _ _)) by lia. cbn [negb].
  destruct (skip_empty_spec (ht_table0 d) j b (S (length (ht_table0 d))) (rehashidx d) ev)
    as (idx & ev' & ret & -> & Hidx' & Hmove & Hemp'); [lia|done|by intros ->; apply not_elem_of_nil in Hin|lia|].
  cbn [mbind option_bind].
  assert (Hemp2 : forall i b, Z.of_nat i < idx -> ht_table0 d !! i = Some b -> b = []).
  { intros i b' Hi Hb'. destruct (Z.ltb_spec (Z.of_nat i) (rehashidx d)); [by eapply Hemp|].
    by eapply Hemp'; [|done]; lia. }
  destruct ret.
  { eexists _, _. split; [done|]. split; [|do 2 (split; [done|]); unfold progress; cbn; lia].
    split; [done|]. split; [done|]. split; [done|]. split; [cbn; lia|done]. }
  cbn [set_rehashidx ht_table0 ht_table1 ht_used0 ht_used1 ht_size_exp0 ht_size_exp1 rehashidx pauserehash].
  destruct (lookup_lt_is_Some_2 (ht_table0 d) (Z.to_nat idx)) as [de Hde]; [lia|].
  unfold get_bucket. rewrite (proj2 (Z.leb_le _ _)), Hde by lia. cbn [mbind option_bind].
  destruct (concat_split _ _ _ Hde) as (rest & Hold & Hnew).
  assert (Hdelen : Zlen (concat (ht_table0 d)) = Zlen de + Zlen rest) by (rewrite Hold, Zlen_app; done).
  unfold entries in Hcs. rewrite Zlen_app in Hcs.
  destruct (rehash_bucket_spec (ht_size_exp0 d) (ht_size_exp1 d) idx de (ht_table1 d) (ht_used0 d) (ht_used1 d))
    as (tb1' & -> & Ht1' & Hp); [lia|done|done| |lia..|].
  { pose proof (Hok0 _ _ Hde) as Hbk. by rewrite Z2Nat.id in Hbk by lia. }
  cbn [mbind option_bind]. set (d1 := {| ht_table0 := set_bucket (ht_table0 d) idx [] |}).
  assert (Hsame : same_entries d d1).
  { split; [|done]. unfold entries. cbn [d1 ht_table0 ht_table1]. unfold set_bucket.
    rewrite (Hnew []), Hp, Hold. cbn [app]. rewrite (app_assoc rest), (Permutation_app_comm rest de). done. }
  destruct (IH d1 ev') as (d' & ret & -> & Hr' & Hc' & Hs' & Hp1 & Hp2 & _).
  - split; [apply table_insert; [done|constructor|lia]|]. split; [done|]. split; [done|]. cbn [d1 rehashidx ht_table0].
    unfold set_bucket. rewrite length_insert. split; [lia|]. intros i b' Hi Hb'.
    destruct (decide (i = Z.to_nat idx)) as [->|Hni].
    + apply list_lookup_insert_Some in Hb' as [(_ & <- & _)|[? _]]; done.
    + rewrite list_lookup_insert_ne in Hb' by done. eapply Hemp2; [|done]. lia.
  - unfold counts_ok. destruct Hsame as [-> _]. cbn [d1 ht_used0 ht_used1 ht_table0 ht_table1].
    unfold set_bucket, entries. rewrite (Hnew []), Hp, !Zlen_app. cbn [length]. split; [lia|]. split; lia.
  - eexists _, _. split; [done|]. split; [done|]. split; [done|]. split; [by eapply same_entries_trans|].
    cbn [d1 ht_table0 rehashidx] in *. unfold set_bucket in Hp1. rewrite length_insert in Hp1.
    split; [done|]. lia.
Qed.

Lemma same_entries_nodup d d' : same_entries d d' -> NoDup (entries d).*1 -> NoDup (entries d').*1.
Proof. intros [Hp _]. by rewrite Hp. Qed.

Lemma dictRehash_spec can d n :
  wf d -> exists r d', dictRehash ty can d n = Some (r, d') /\ wf d' /\ same_entries d d' /\
    (n <> O ->
     r = 0 /\ (can = DICT_RESIZE_ENABLE -> dictIsRehashing d' = false) \/
     r = 1 /\ dictIsRehashing d' = true /\ rehashidx d < rehashidx d' /\
     length (ht_table0 d') = length (ht_table0 d)).
Proof.
  intros Hwf. destruct (Hwf) as (Hc & Hnd & Hcase). unfold dictRehash. cbv zeta.
  destruct (bool_decide (can = DICT_RESIZE_FORBID) || negb (dictIsRehashing d)) eqn:E1.
  { eexists _, d. do 3 (split; [done|]). intros _. left. split; [done|]. intros ->. by apply negb_true_iff. }
  destruct Hcase as [[Hr Hre]|[_ Hre]]; [|rewrite Hre, orb_true_r in E1; done].
  destruct (bool_decide (can = DICT_RESIZE_AVOID) && _) eqn:E2.
  { eexists _, d. do 3 (split; [done|]). intros _. left. split; [done|]. by intros ->. }
  destruct (rehash_loop_spec n d (Z.of_nat n * 10) Hr Hc) as (d1 & ret & -> & Hr1 & Hc1 & Hs1 & Hp1 & Hp2 & Hp3).
  cbn [mbind option_bind]. pose proof (same_entries_nodup _ _ Hs1 Hnd) as Hnd1.
  assert (Hre1 : dictIsRehashing d1 = true).
  { unfold dictIsRehashing. destruct Hr1 as (_ & _ & _ & Hi & _). rewrite (proj2 (Z.eqb_neq _ _)) by lia. done. }
  assert (Hwf1 : wf d1) by (split; [done|]; split; [done|]; by left).
  destruct ret; [eexists _, _; do 3 (split; [done|]); intros; right; auto 6|].
  destruct (Z.eqb_spec (ht_used0 d1) 0) as [Hu|]; [|eexists _, _; do 3 (split; [done|]); intros; right; auto 6].
  eexists _, _. split; [done|]. destruct Hc1 as (Hc10 & Hc11 & Hc1s).
  assert (He : concat (ht_table0 d1) = []) by (apply nil_length_inv; lia).
  match goal with |- wf ?d2 /\ _ => assert (Hs : same_entries d1 d2) end.
  { split; [|done]. unfold entries. cbn. by rewrite He, app_nil_r. }
  split; [|split; [by eapply same_entries_trans|by left]].
  split. { unfold counts_ok. destruct Hs as [-> _]. cbn. split; [done|]. by split. }
  split; [by eapply same_entries_nodup|]. right. split; [|done]. split; [right; apply Hr1|]. done.
Qed.

Lemma rehash_step_spec can d :
  wf d -> exists d', rehash_step ty can d = Some d' /\ wf d' /\ same_entries d d'.
Proof.
  intros Hwf. unfold rehash_step, _dictRehashStep. destruct (dictIsRehashing d); [|by exists d].
  destruct (pauserehash d =? 0); [|by exists d].
  destruct (dictRehash_spec can d 1 Hwf) as (r & d' & -> & ? & ? & _). by exists d'.
Qed.

(** *** Expanding *)

Lemma next_exp_spec size :
  0 <= size < 2 ^ 64 -> 2 <= _dictNextExp size <= 63 /\ (size < LLONG_MAX -> size <= 2 ^ _dictNextExp size).
Proof.
  intros Hs. unfold _dictNextExp. destruct (Z.leb_spec size 4); [split; lia|].
  destruct (Z.leb_spec LLONG_MAX size); [split; lia|].
  assert (2 <= Z.log2 (size - 1)) by (apply Z.log2_le_pow2; lia).
  assert (Z.log2 (size - 1) < 63) by (apply Z.log2_lt_pow2; lia).
  split; [lia|]. intros _. pose proof (Z.log2_spec (size - 1)). lia.
Qed.

Lemma expand_overflow exp : 2 <= exp <= 63 -> (u64 (2 ^ exp * 8) <? 2 ^ exp) = false -> exp <= 60.
Proof.
  intros He Hu. destruct (Z.leb_spec exp 60); [done|]. exfalso.
  apply Z.ltb_ge in Hu. unfold uwrap in Hu. replace (2 ^ exp * 8) with (2 ^ (exp - 61) * 2 ^ 64) in Hu.
  - rewrite Z.mod_mul in Hu by lia. pose proof (Z.pow_pos_nonneg 2 exp). lia.
  - change (2 ^ 64) with (2 ^ 61 * 8). rewrite Z.mul_assoc, <- Z.pow_add_r by lia. repeat f_equal. lia.
Qed.

Lemma stable_null d : stable_ok d -> ht_table0 d = [] <-> ht_size_exp0 d = -1.
Proof.
  intros ([[-> ->]|(He & Hl & _)] & _); [done|]. split; [|lia]. intros Hn. rewrite Hn in Hl. cbn in Hl.
  pose proof (Z.pow_pos_nonneg 2 (ht_size_exp0 d)). lia.
Qed.

Lemma expand_first_wf d exp :
  wf d -> dictIsRehashing d = false -> ht_table0 d = [] -> 2 <= exp <= 60 ->
  let d' := {| ht_table0 := replicate (Z.to_nat (2 ^ exp)) []; ht_table1 := ht_table1 d; ht_used0 := 0;
               ht_used1 := ht_used1 d; rehashidx := rehashidx d; pauserehash := pauserehash d;
               ht_size_exp0 := exp; ht_size_exp1 := ht_size_exp1 d |} in
  wf d' /\ same_entries d d'.
Proof.
  intros (Hc & Hnd & Hcase) Hre Ht0 He d'. destruct Hcase as [[_ ?]|[(Hz & Hs & Ht1 & Hi) _]]; [congruence|].
  assert (Hent : entries d' = entries d) by (unfold entries; cbn; by rewrite concat_replicate_nil, Ht0).
  destruct Hc as (Hc0 & Hc1 & Hcs). split; [|split; [by rewrite Hent|done]].
  split; [unfold counts_ok; rewrite Hent; cbn; by rewrite concat_replicate_nil|].
  split; [by rewrite Hent|]. right. split; [|done]. split; [|done]. right. by apply table_empty.
Qed.

Lemma expand_next_wf d exp :
  wf d -> dictIsRehashing d = false -> ht_table0 d <> [] -> 2 <= exp <= 60 -> exp <> ht_size_exp0 d ->
  let d' := {| ht_table0 := ht_table0 d; ht_table1 := replicate (Z.to_nat (2 ^ exp)) []; ht_used0 := ht_used0 d;
               ht_used1 := 0; rehashidx := 0; pauserehash := pauserehash d;
               ht_size_exp0 := ht_size_exp0 d; ht_size_exp1 := exp |} in
  wf d' /\ same_entries d d'.
Proof.
  intros (Hc & Hnd & Hcase) Hre Ht0 He Hne d'. destruct Hcase as [[_ ?]|[(Hz & Hs & Ht1 & Hi) _]]; [congruence|].
  assert (Hent : entries d' = entries d) by (unfold entries; cbn; by rewrite concat_replicate_nil, Ht1).
  destruct Hc as (Hc0 & Hc1 & Hcs). split; [|split; [by rewrite Hent|done]].
  split; [unfold counts_ok; rewrite Hent; cbn; by rewrite concat_replicate_nil|].
  split; [by rewrite Hent|]. left. split; [|done]. destruct Hz as [[_ ?]|Hz]; [done|].
  split; [done|]. split; [by apply table_empty|]. split; [done|]. cbn. split; [lia|]. intros; lia.
Qed.

Lemma _dictExpand_spec calloc_ok d size :
  wf d -> 0 <= size < 2 ^ 64 ->
  exists st mf d', _dictExpand calloc_ok d size = (st, mf, d') /\ wf d' /\ same_entries d d' /\
    (dictIsRehashing d = false -> ht_used0 d <= size <= 2 ^ 60 -> _dictNextExp size <> ht_size_exp0 d ->
     (forall n, calloc_ok n = true) -> st = DICT_OK /\ ht_table0 d' <> []).
Proof.
  intros Hwf Hsz. unfold _dictExpand. destruct (next_exp_spec size Hsz) as [He Hle].
  assert (Hsize : u64 (Z.shiftl 1 (_dictNextExp size)) = 2 ^ _dictNextExp size).
  { pose proof (dict_size (_dictNextExp size)) as E. unfold DICTHT_SIZE in E.
    rewrite (proj2 (Z.eqb_neq _ _)) in E by lia. apply E. lia. }
  rewrite Hsize. set (exp := _dictNextExp size) in *. cbv zeta.
  destruct (dictIsRehashing d || (size <? ht_used0 d)) eqn:E1.
  { eexists _, _, d. do 3 (split; [done|]). intros Hre ?. rewrite Hre in E1. cbn in E1. lia. }
  apply orb_false_iff in E1 as [Hre Hus].
  destruct ((2 ^ exp <? size) || (u64 (2 ^ exp * 8) <? 2 ^ exp)) eqn:E2.
  { eexists _, _, d. do 3 (split; [done|]). intros _ Hs _ _. exfalso.
    assert (exp <= 60). { unfold exp, _dictNextExp. destruct (Z.leb_spec size 4); [lia|].
      rewrite (proj2 (Z.leb_gt _ _)) by lia. assert (Z.log2 (size - 1) < 60) by (apply Z.log2_lt_pow2; lia). lia. }
    assert (2 ^ exp <= 2 ^ 60) by (apply Z.pow_le_mono_r; lia).
    rewrite uwrap_small in E2 by lia. lia. }
  apply orb_false_iff in E2 as [_ Hov]. assert (exp <= 60) by (apply expand_overflow; [lia|done]).
  destruct (Z.eqb_spec exp (ht_size_exp0 d)); [by eexists _, _, d; do 3 (split; [done|])|].
  destruct (calloc_ok (2 ^ exp * 8)) eqn:Ec; cbn [negb].
  2:{ eexists _, _, d. do 3 (split; [done|]). intros _ _ _ Hok. by rewrite Hok in Ec. }
  destruct (decide (ht_table0 d = [])) as [Ht0|Ht0].
  - rewrite bool_decide_true by done. eexists _, _, _. split; [done|].
    destruct (expand_first_wf d exp) as [Hw Hs]; [done..|lia|]. split; [exact Hw|]. split; [exact Hs|].
    intros _ _ _ _. split; [done|]. cbn. intros Hnil%(f_equal length). rewrite length_replicate in Hnil.
    pose proof (Z.pow_pos_nonneg 2 exp). cbn in Hnil. lia.
  - rewrite bool_decide_false by done. eexists _, _, _. split; [done|].
    destruct (expand_next_wf d exp) as [Hw Hs]; [done..|lia|done|]. split; [exact Hw|]. split; [exact Hs|]. done.
Qed.

(** *** The invariant, decided *)

Fixpoint buckets_okb (exp i : Z) (tb : list (list (K * V))) : bool :=
  match tb with
  | [] => true
  | b :: tb => forallb (fun e => hash ty e.1 mod 2 ^ exp =? i) b && buckets_okb exp (i + 1) tb
  end.

Definition table_okb (exp : Z) (tb : list (list (K * V))) : bool :=
  (2 <=? exp) && (exp <=? 60) && (Zlen tb =? 2 ^ exp) && buckets_okb exp 0 tb.

Definition rehashing_okb d : bool :=
  table_okb (ht_size_exp0 d) (ht_table0 d) && table_okb (ht_size_exp1 d) (ht_table1 d) &&
  negb (ht_size_exp0 d =? ht_size_exp1 d) && (0 <=? rehashidx d) && (rehashidx d <=? Zlen (ht_table0 d)) &&
  forallb (fun b => match b with [] => true | _ => false end) (take (Z.to_nat (rehashidx d)) (ht_table0 d)).

Definition counts_okb d : bool :=
  (ht_used0 d =? Zlen (concat (ht_table0 d))) && (ht_used1 d =? Zlen (concat (ht_table1 d))) &&
  (Zlen (entries d) <? 2 ^ 64).

Lemma buckets_okb_spec exp tb : forall i0 i b,
  buckets_okb exp i0 tb = true -> tb !! i = Some b -> bucket_ok ty exp (i0 + Z.of_nat i) b.
Proof.
  induction tb as [|b0 tb IH]; intros i0 i b Hb Hi; [done|]. cbn in Hb. apply andb_true_iff in Hb as [Hb0 Hb].
  destruct i as [|i]; cbn in Hi.
  - injection Hi as ->. apply Forall_forall. intros e He. rewrite forallb_forall in Hb0.
    specialize (Hb0 e (proj1 (list_elem_of_In _ _) He)). lia.
  - specialize (IH (i0 + 1) i b Hb Hi). by replace (i0 + Z.of_nat (S i)) with (i0 + 1 + Z.of_nat i) by lia.
Qed.

Lemma table_okb_spec exp tb : table_okb exp tb = true -> table_ok ty exp tb.
Proof.
  unfold table_okb. intros Hb. apply andb_true_iff in Hb as [Hb Hbk]. split; [lia|]. split; [lia|].
  intros i b Hi. apply (buckets_okb_spec _ _ _ _ _ Hbk Hi).
Qed.

Lemma rehashing_okb_spec d : rehashing_okb d = true -> rehashing_ok d.
Proof.
  unfold rehashing_okb. rewrite !andb_true_iff. intros (((((H0 & H1) & Hne) & Hlo) & Hhi) & He).
  split; [by apply table_okb_spec|]. split; [by apply table_okb_spec|]. split; [lia|]. split; [lia|].
  intros i b Hi Hb. rewrite forallb_forall in He. specialize (He b). destruct b; [done|].
  assert (Hin : In (p :: b) (take (Z.to_nat (rehashidx d)) (ht_table0 d))); [|by specialize (He Hin)].
  apply list_elem_of_In, (list_elem_of_lookup_2 _ i). rewrite lookup_take_lt by lia. done.
Qed.

Lemma rehashing_wf d :
  counts_okb d && rehashing_okb d = true -> NoDup (entries d).*1 -> wf d.
Proof.
  intros [Hc Hr]%andb_true_iff Hnd. apply rehashing_okb_spec in Hr. unfold counts_okb in Hc.
  split; [unfold counts_ok; lia|]. split; [done|]. left. split; [done|].
  destruct Hr as (_ & _ & _ & Hi & _). unfold dictIsRehashing. rewrite (proj2 (Z.eqb_neq _ _)) by lia. done.
Qed.

Lemma dictCreate_wf : wf dictCreate.
Proof. split; [done|]. split; [constructor|]. right. split; [|done]. split; [by left|]. done. Qed.

End Inv.

End DictSpec.
