(* ===== verification/DictMap.v ===== *)
(** * Dictionaries refine finite maps

    The finite map that a well-formed hash table stands for, and the
    operations of Dict.v on it: a lookup returns the value of the map, adding,
    replacing and deleting change exactly the given key, rehashing keeps the
    map and terminates. *)

From stdpp Require Import gmap.
From S2P Require Import Prelude.
From S2P Require Import Dict.
From S2P Require Import DictSpec.
Import Dict DictSpec.

Module DictMap.

Section Map.
Context {K V : Type} `{Countable K} (ty : dictType K) `{!DictLaws ty}.
Implicit Types (d : dict K V) (k : K) (v : V).
#[local] Set Default Proof Using "Type*".

Definition dict_map d : gmap K V := list_to_map (entries d).

Lemma dict_map_elem d k v : wf ty d -> dict_map d !! k = Some v <-> (k, v) ∈ entries d.
Proof. intros (_ & Hnd & _). symmetry. by apply elem_of_list_to_map. Qed.

Lemma dict_map_none d k : wf ty d -> (forall v, (k, v) ∉ entries d) -> dict_map d !! k = None.
Proof.
  intros Hwf Hn. destruct (dict_map d !! k) as [v|] eqn:E; [|done].
  apply dict_map_elem in E; [|done]. by destruct (Hn v).
Qed.

Lemma dict_map_same d d' : wf ty d -> same_entries d d' -> dict_map d' = dict_map d.
Proof.
  intros (_ & Hnd & _) [Hp Hq]. symmetry. apply list_to_map_proper; [done|]. by rewrite Hp.
Qed.

Lemma dictSize_map d : wf ty d -> dictSize d = Z.of_nat (size (dict_map d)).
Proof.
  intros ((H0 & H1 & Hs) & Hnd & _). unfold dict_map. rewrite map_size_list_to_map by done.
  unfold dictSize. rewrite H0, H1. unfold entries in *. rewrite Zlen_app in *. by rewrite uwrap_small by lia.
Qed.

Lemma dictSize_zero d k : wf ty d -> (dictSize d =? 0) = true -> dict_map d !! k = None.
Proof.
  intros Hwf. rewrite dictSize_map by done. intros Hz%Z.eqb_eq.
  assert (dict_map d = ∅) as -> by (apply map_size_empty_inv; lia). apply lookup_empty.
Qed.

(** *** Search *)

Lemma find_in_chain_spec k (he : list (K * V)) :
  match find_in_chain ty k he with
  | Some p => exists v, he !! p = Some (k, v)
  | None => forall v, (k, v) ∉ he
  end.
Proof.
  induction he as [|[k' v'] he IH]; cbn [find_in_chain fst]; [intros v; apply not_elem_of_nil|].
  destruct (keyCompare ty k k') eqn:E.
  - apply compare_eq in E as ->. by exists v'.
  - destruct (find_in_chain ty k he) as [p|]; cbn; [done|]. intros v [Heq|Hin]%elem_of_cons; [|by eapply IH].
    injection Heq as -> ->. rewrite (proj2 (compare_eq k' k') eq_refl) in E. done.
Qed.

(** Where the search can start. *)
Definition allocated d : Prop := ht_table0 d <> [].

Lemma allocated_ok d : wf ty d -> allocated d -> table_ok ty (ht_size_exp0 d) (ht_table0 d).
Proof. by intros (_ & _ & [[Hr _]|[([[_ ?]|Ht] & _) _]]) Ha; [apply Hr|..]. Qed.

Lemma rehashing_table1 d : wf ty d -> dictIsRehashing d = true -> table_ok ty (ht_size_exp1 d) (ht_table1 d).
Proof. by intros (_ & _ & [[Hr _]|[_ ?]]) Hre; [apply Hr|congruence]. Qed.

Lemma stable_table1 d : wf ty d -> dictIsRehashing d = false -> ht_table1 d = [].
Proof. by intros (_ & _ & [[_ ?]|[Hs _]]) Hre; [congruence|apply Hs]. Qed.

Lemma dict_search_spec d k :
  wf ty d -> allocated d ->
  exists r, search ty d k (dictHashKey ty k) = Some r /\
    match r with
    | Some l => exists v, entry_at d l = Some (k, v) /\ dict_map d !! k = Some v
    | None => dict_map d !! k = None
    end.
Proof.
  intros Hwf Ha. pose proof (allocated_ok d Hwf Ha) as Ht0. unfold search, entry_at.
  rewrite dict_mask by (destruct Ht0; lia). change (dictHashKey ty k) with (hash ty k).
  destruct (bucket_in_range ty _ _ (hash ty k) Ht0) as [b Hb]. rewrite Hb. cbn [mbind option_bind].
  pose proof (fun v => entry_in_bucket ty _ _ k v b Ht0 Hb) as He0.
  pose proof (find_in_chain_spec k b) as Hf. destruct (find_in_chain ty k b) as [p|].
  { eexists. split; [done|]. destruct Hf as [v Hv]. exists v. cbn. rewrite Hb. split; [done|].
    apply dict_map_elem; [done|]. apply elem_of_app. left. apply He0. by eapply list_elem_of_lookup_2. }
  destruct (dictIsRehashing d) eqn:Hre; cbn [negb].
  2:{ eexists. split; [done|]. apply dict_map_none; [done|]. intros v [Hin|Hin]%elem_of_app.
      - by eapply Hf, He0.
      - rewrite (stable_table1 d Hwf Hre) in Hin. by apply not_elem_of_nil in Hin. }
  pose proof (rehashing_table1 d Hwf Hre) as Ht1.
  rewrite dict_mask by (destruct Ht1; lia).
  destruct (bucket_in_range ty _ _ (hash ty k) Ht1) as [b1 Hb1]. rewrite Hb1. cbn [mbind option_bind].
  pose proof (fun v => entry_in_bucket ty _ _ k v b1 Ht1 Hb1) as He1.
  pose proof (find_in_chain_spec k b1) as Hf1. eexists. split; [done|].
  destruct (find_in_chain ty k b1) as [p|]; cbn [fmap option_fmap option_map].
  - destruct Hf1 as [v Hv]. exists v. cbn. rewrite Hb1. split; [done|].
    apply dict_map_elem; [done|]. apply elem_of_app. right. apply He1. by eapply list_elem_of_lookup_2.
  - apply dict_map_none; [done|]. intros v [Hin|Hin]%elem_of_app; [by eapply Hf, He0|by eapply Hf1, He1].
Qed.

Lemma not_empty_allocated d : wf ty d -> (dictSize d =? 0) = false -> allocated d.
Proof.
  intros Hwf Hz Hnil. destruct (Hwf) as ((H0 & H1 & Hs) & Hnd & [[Hr _]|[(_ & _ & Ht1 & _) _]]).
  - destruct Hr as ((He & Hl & _) & _). rewrite Hnil in Hl. cbn in Hl.
    pose proof (Z.pow_pos_nonneg 2 (ht_size_exp0 d)). lia.
  - unfold dictSize in Hz. rewrite H0, H1, Hnil, Ht1 in Hz. done.
Qed.

(** *** Changing one bucket *)

Definition update_bucket d (t : bool) (idx : Z) (b' : list (K * V)) (n : Z) : dict K V :=
  set_used (set_table d t (set_bucket (ht_table d t) idx b')) t n.

Lemma bucket_table d t idx b :
  wf ty d -> get_bucket (ht_table d t) idx = Some b ->
  table_ok ty (ht_size_exp d t) (ht_table d t) /\ 0 <= idx /\ bucket_ok ty (ht_size_exp d t) idx b.
Proof.
  intros Hwf Hb. assert (Ht : table_ok ty (ht_size_exp d t) (ht_table d t)).
  { apply get_bucket_some in Hb as [_ Hb]. destruct t; cbn in *.
    - destruct (dictIsRehashing d) eqn:Hre; [by apply rehashing_table1|].
      by rewrite (stable_table1 d Hwf Hre) in Hb.
    - apply allocated_ok; [done|]. intros Hn. by rewrite Hn in Hb. }
  apply get_bucket_some in Hb as [Hi Hb]. split; [done|]. split; [done|].
  pose proof (proj2 (proj2 Ht) _ _ Hb) as Hk. by rewrite Z2Nat.id in Hk.
Qed.

Lemma entries_update d t idx b :
  get_bucket (ht_table d t) idx = Some b ->
  exists rest, entries d ≡ₚ b ++ rest /\ forall b' n, entries (update_bucket d t idx b' n) ≡ₚ b' ++ rest.
Proof.
  intros [_ Hb]%get_bucket_some. destruct (concat_split _ _ _ Hb) as (rest & Hold & Hnew).
  unfold entries, update_bucket, set_bucket. destruct t; cbn in *.
  - exists (concat (ht_table0 d) ++ rest). split; [rewrite Hold|intros; rewrite Hnew]; apply Permutation_app_swap_app.
  - exists (rest ++ concat (ht_table1 d)). split; [rewrite Hold|intros; rewrite Hnew]; by rewrite app_assoc.
Qed.

Lemma rehashing_update d t idx b b' n :
  rehashing_ok ty d -> wf ty d -> get_bucket (ht_table d t) idx = Some b ->
  table_ok ty (ht_size_exp d t) (set_bucket (ht_table d t) idx b') -> (b = [] -> t = true) ->
  rehashing_ok ty (update_bucket d t idx b' n).
Proof.
  intros (Ht0 & Ht1 & Hne & Hi & He) Hwf [Hidx Hb]%get_bucket_some Ht Hbt.
  unfold update_bucket. destruct t; cbn in *; do 3 (split; [done|]); [by split|].
  cbn. unfold set_bucket. rewrite length_insert. split; [done|]. intros j b1 Hj Hb1.
  destruct (decide (j = Z.to_nat idx)) as [->|Hn].
  - rewrite (He _ _ Hj Hb) in Hbt. by specialize (Hbt eq_refl).
  - rewrite list_lookup_insert_ne in Hb1 by done. by eapply He.
Qed.

Lemma wf_update d t idx b b' :
  wf ty d -> get_bucket (ht_table d t) idx = Some b -> bucket_ok ty (ht_size_exp d t) idx b' ->
  (b = [] -> t = dictIsRehashing d) -> Zlen (entries d) + Zlen b' - Zlen b < 2 ^ 64 ->
  let d' := update_bucket d t idx b' (ht_used d t + Zlen b' - Zlen b) in
  NoDup (entries d').*1 -> wf ty d'.
Proof.
  intros Hwf Hb Hok' Hbt Hsz d' Hnd. destruct (bucket_table _ _ _ _ Hwf Hb) as (Ht & Hidx & Hok).
  assert (Ht' := table_insert ty _ _ _ _ Ht Hok' Hidx). split.
  { destruct (entries_update _ _ _ _ Hb) as (rest & Hold & Hnew). destruct Hwf as ((H0 & H1 & Hs) & _).
    rewrite Hold, Zlen_app in Hsz. apply get_bucket_some in Hb as [_ Hb].
    destruct (concat_split _ _ _ Hb) as (rest1 & Hold1 & Hnew1).
    unfold counts_ok, d'. rewrite Hnew, Zlen_app. unfold update_bucket, set_bucket in *.
    apply Permutation_length in Hold1. specialize (Hnew1 b'). apply Permutation_length in Hnew1.
    rewrite length_app in Hold1, Hnew1. destruct t; cbn in *; lia. }
  split; [done|]. destruct (Hwf) as (_ & _ & [[Hr Hre]|[Hst Hre]]).
  - left. split; [|by destruct t]. eapply rehashing_update; [done..|]. intros ->. by rewrite Hbt.
  - right. split; [|by destruct t]. destruct Hst as (H0 & H1 & H2 & H3). destruct t.
    + apply get_bucket_some in Hb as [_ Hb]. cbn in Hb. by rewrite H2 in Hb.
    + split; [by right|]. by split_and!.
Qed.

(** *** Entries *)

Lemma loc_split d l e :
  entry_at d l = Some e ->
  exists he R, get_bucket (ht_table d (l_table l)) (l_idx l) = Some he /\ he !! l_pos l = Some e /\
    entries d ≡ₚ e :: R /\
    (forall n, entries (update_bucket d (l_table l) (l_idx l) (delete (l_pos l) he) n) ≡ₚ R) /\
    (forall e' n, entries (update_bucket d (l_table l) (l_idx l) (<[l_pos l := e']> he) n) ≡ₚ e' :: R).
Proof.
  unfold entry_at. destruct (get_bucket _ _) as [he|] eqn:Hb; [|done]. cbn [mbind option_bind]. intros He.
  destruct (entries_update _ _ _ _ Hb) as (rest & Hold & Hnew).
  exists he, (delete (l_pos l) he ++ rest). split; [done|]. split; [done|].
  assert (Hgen : forall e', <[l_pos l := e']> he ≡ₚ e' :: delete (l_pos l) he).
  { intros e'. rewrite insert_take_drop by by eapply lookup_lt_Some.
    rewrite <- Permutation_middle. rewrite delete_take_drop. done. }
  split; [|split; [intros; apply Hnew|]].
  - rewrite Hold. rewrite <- (list_insert_id he (l_pos l) e He) at 1. by rewrite Hgen.
  - intros e' n. by rewrite Hnew, Hgen.
Qed.

Lemma map_cons d k v R : NoDup (entries d).*1 -> entries d ≡ₚ (k, v) :: R -> dict_map d = <[k := v]> (list_to_map R).
Proof. intros Hnd Hp. unfold dict_map. by rewrite (list_to_map_proper _ _ Hnd Hp). Qed.

Lemma nodup_cons d k v R :
  NoDup (entries d).*1 -> entries d ≡ₚ (k, v) :: R -> NoDup R.*1 /\ (list_to_map R : gmap K V) !! k = None.
Proof.
  intros Hnd Hp. rewrite Hp in Hnd. cbn in Hnd. apply NoDup_cons in Hnd as [Hn Hnd]. split; [done|].
  by apply not_elem_of_list_to_map.
Qed.

Lemma set_used_id d t (tb : list (list (K * V))) : set_used (set_table d t tb) t (ht_used d t) = set_table d t tb.
Proof. by destruct d, t. Qed.

Lemma dictSetVal_spec d l k v0 v :
  wf ty d -> entry_at d l = Some (k, v0) ->
  exists d', dictSetVal d l v = Some d' /\ wf ty d' /\ dict_map d' = <[k := v]> (dict_map d).
Proof.
  intros Hwf Hl. destruct (loc_split _ _ _ Hl) as (he & R & Hb & He & Hd & _ & Hset).
  destruct (bucket_table _ _ _ _ Hwf Hb) as (Ht & Hidx & Hok). destruct (Hwf) as ((_ & _ & Hs) & Hnd & _).
  destruct (nodup_cons d k v0 R Hnd Hd) as [HR HRk].
  unfold dictSetVal. rewrite Hb. cbn. rewrite He. cbn. eexists. split; [done|].
  rewrite <- set_used_id.
  replace (ht_used d (l_table l)) with (ht_used d (l_table l) + Zlen (<[l_pos l := (k, v)]> he) - Zlen he)
    by (rewrite length_insert; lia).
  set (d' := set_used _ _ _). assert (Hd' : entries d' ≡ₚ (k, v) :: R) by apply Hset.
  assert (Hnd' : NoDup (entries d').*1) by (rewrite Hd'; rewrite Hd in Hnd; done).
  split.
  - eapply wf_update; [done|done| | |rewrite length_insert; lia|done].
    + unfold bucket_ok in *. apply Forall_insert; [done|]. cbn. rewrite Forall_lookup in Hok. apply (Hok _ _ He).
    + intros ->. done.
  - rewrite (map_cons d' k v R), (map_cons d k v0 R) by done. by rewrite insert_insert_eq.
Qed.

Lemma unlink_spec d l k v :
  wf ty d -> entry_at d l = Some (k, v) ->
  exists d', unlink d l = Some d' /\ wf ty d' /\ dict_map d' = delete k (dict_map d) /\
    pauserehash d' = pauserehash d.
Proof.
  intros Hwf Hl. destruct (loc_split _ _ _ Hl) as (he & R & Hb & He & Hd & Hdel & _).
  destruct (bucket_table _ _ _ _ Hwf Hb) as (Ht & Hidx & Hok). destruct (Hwf) as ((H0 & H1 & Hs) & Hnd & _).
  destruct (nodup_cons d k v R Hnd Hd) as [HR HRk].
  unfold unlink. rewrite Hb. cbn. eexists. split; [done|].
  assert (Hlen := lookup_lt_Some _ _ _ He). assert (Hld := length_delete he _ (mk_is_Some _ _ He)).
  assert (Hu : ht_used (set_table d (l_table l) (set_bucket (ht_table d (l_table l)) (l_idx l) (delete (l_pos l) he))) (l_table l)
               = ht_used d (l_table l)) by by destruct (l_table l).
  assert (Hle : Zlen he <= ht_used d (l_table l) < 2 ^ 64).
  { apply get_bucket_some in Hb as [_ Hb]. destruct (concat_split _ _ _ Hb) as (r & Hc & _).
    apply Permutation_length in Hc. rewrite length_app in Hc. unfold entries in Hs. rewrite Zlen_app in Hs.
    destruct (l_table l); cbn in *; lia. }
  rewrite ?Hu, uwrap_small by lia.
  replace (ht_used d (l_table l) - 1) with (ht_used d (l_table l) + Zlen (delete (l_pos l) he) - Zlen he) by lia.
  set (d' := set_used _ _ _). assert (Hd' : entries d' ≡ₚ R) by apply Hdel.
  assert (Hnd' : NoDup (entries d').*1) by by rewrite Hd'.
  split; [|split; [|by destruct (l_table l)]].
  - eapply wf_update; [done|done| | |lia|done]; [|by intros ->].
    unfold bucket_ok in *. apply Forall_delete. done.
  - rewrite (map_cons d k v R) by done. rewrite delete_insert_id by done.
    unfold dict_map. by rewrite (list_to_map_proper _ _ Hnd' Hd').
Qed.

(** *** Adding *)

Lemma expand_if_needed_spec can d :
  wf ty d -> Zlen (entries d) < 2 ^ 60 ->
  exists d', _dictExpandIfNeeded ty can d = (DICT_OK, d') /\ wf ty d' /\ same_entries d d' /\ allocated d'.
Proof.
  intros Hwf Hsz. unfold _dictExpandIfNeeded.
  assert (Hu : 0 <= ht_used0 d <= Zlen (entries d)).
  { destruct Hwf as ((-> & _) & _). unfold entries. rewrite Zlen_app. lia. }
  assert (Hexp : forall size, dictIsRehashing d = false -> ht_used0 d <= size <= 2 ^ 60 ->
    _dictNextExp size <> ht_size_exp0 d ->
    exists d', dictExpand d size = (DICT_OK, d') /\ wf ty d' /\ same_entries d d' /\ allocated d').
  { intros size Hre Hs Hne. unfold dictExpand.
    destruct (_dictExpand_spec ty (fun _ => true) d size Hwf) as (st & mf & d' & -> & Hw & Hse & Hok); [lia|].
    destruct (Hok Hre Hs Hne) as [-> Ha]; [done|]. by exists d'. }
  destruct (dictIsRehashing d) eqn:Hre.
  { exists d. do 3 (split; [done|]). intros Hnil.
    destruct Hwf as (_ & _ & [[((He & Hl & _) & _) _]|[_ ?]]); [|congruence]. rewrite Hnil in Hl. cbn in Hl.
    pose proof (Z.pow_pos_nonneg 2 (ht_size_exp0 d)). lia. }
  assert (Hst : stable_ok ty d) by (destruct Hwf as (_ & _ & [[_ ?]|[? _]]); [congruence|done]).
  destruct (Z.eqb_spec (ht_size_exp0 d) (-1)) as [He|He].
  { unfold DICTHT_SIZE at 1. rewrite He. cbn [Z.eqb Pos.eqb]. apply Hexp; [done| |by rewrite He].
    destruct Hwf as ((Hu0 & _) & _). rewrite (proj2 (stable_null ty d Hst) He) in Hu0. cbn in Hu0. lia. }
  assert (Ht : table_ok ty (ht_size_exp0 d) (ht_table0 d)) by (destruct Hst as ([[? _]|?] & _); done).
  assert (Ha : allocated d) by (intros Hn; by apply (stable_null ty d Hst) in Hn).
  destruct Ht as (Hr & _). rewrite dict_size by lia. pose proof (Z.pow_pos_nonneg 2 (ht_size_exp0 d)).
  rewrite (proj2 (Z.eqb_neq _ _)) by lia. destruct (_ || _) eqn:Hc; [|by exists d].
  destruct (negb (dictTypeExpandAllowed ty d)); [by exists d|]. rewrite uwrap_small by lia.
  assert (2 ^ ht_size_exp0 d <= ht_used0 d).
  { apply orb_true_iff in Hc as [Hc|Hc]; apply andb_true_iff in Hc as [_ Hc]; [lia|].
    apply Z.ltb_lt in Hc. pose proof (Z.mul_div_le (ht_used0 d) (2 ^ ht_size_exp0 d)). nia. }
  apply Hexp; [done|lia|]. destruct (next_exp_spec (ht_used0 d + 1)) as [_ Hle]; [lia|].
  intros Heq. rewrite Heq in Hle. lia.
Qed.

Lemma dictInsertAtPosition_spec d k v :
  wf ty d -> allocated d -> dict_map d !! k = None -> Zlen (entries d) < 2 ^ 60 ->
  let t := dictIsRehashing d in
  exists l d', dictInsertAtPosition d k v (t, Z.land (hash ty k) (DICTHT_SIZE_MASK (ht_size_exp d t))) = Some (l, d') /\
    wf ty d' /\ entry_at d' l = Some (k, v) /\ dict_map d' = <[k := v]> (dict_map d).
Proof.
  intros Hwf Ha Hk Hsz t. assert (Ht : table_ok ty (ht_size_exp d t) (ht_table d t)).
  { unfold t. destruct (dictIsRehashing d) eqn:Hre; [by apply rehashing_table1|by apply allocated_ok]. }
  assert (Hr : 2 <= ht_size_exp d t <= 60) by apply Ht.
  unfold dictInsertAtPosition. fold t. rewrite dict_mask by lia. cbv zeta.
  destruct (bucket_in_range ty _ _ (hash ty k) Ht) as [b Hb].
  pose proof (Z.mod_pos_bound (hash ty k) (2 ^ ht_size_exp d t) ltac:(apply Z.pow_pos_nonneg; lia)) as Hm.
  set (idx := hash ty k mod 2 ^ ht_size_exp d t) in *.
  assert (Bool.eqb t t && (0 <=? idx) && (idx <=? DICTHT_SIZE_MASK (ht_size_exp d t)) = true) as ->.
  { unfold DICTHT_SIZE_MASK. rewrite (proj2 (Z.eqb_neq _ _)), dict_size, eqb_reflx by lia. lia. }
  cbn [assertb mbind option_bind]. rewrite Hb. cbn [mbind option_bind]. eexists _, _. split; [done|].
  assert (Hu : ht_used (set_table d t (set_bucket (ht_table d t) idx ((k, v) :: b))) t = ht_used d t) by by destruct t.
  assert (Hule : 0 <= ht_used d t <= Zlen (entries d)).
  { destruct Hwf as ((H0 & H1 & _) & _). unfold entries. rewrite Zlen_app. destruct t; cbn in *; lia. }
  rewrite Hu, uwrap_small by lia.
  replace (ht_used d t + 1) with (ht_used d t + Zlen ((k, v) :: b) - Zlen b) by (cbn [length]; lia).
  set (d' := set_used _ _ _). destruct (entries_update _ _ _ _ Hb) as (rest & Hold & Hnew).
  assert (Hd' : entries d' ≡ₚ (k, v) :: entries d) by (rewrite Hold; apply Hnew).
  assert (Hnd' : NoDup (entries d').*1).
  { rewrite Hd'. cbn. apply NoDup_cons. split; [by apply not_elem_of_list_to_map|]. by destruct Hwf as (_ & ? & _). }
  split; [|split].
  - destruct (bucket_table _ _ _ _ Hwf Hb) as (_ & _ & Hok).
    apply wf_update; [done..|constructor; done|done|cbn [length]; lia|done].
  - unfold entry_at, d'. assert (Hi : (Z.to_nat idx < length (ht_table d t))%nat).
    { apply get_bucket_some in Hb as [_ Hb]. by eapply lookup_lt_Some. }
    cbn [l_table l_idx l_pos]. unfold get_bucket. rewrite (proj2 (Z.leb_le _ _)) by lia.
    replace (ht_table _ t) with (set_bucket (ht_table d t) idx ((k, v) :: b)) by by destruct t.
    unfold set_bucket. by rewrite list_lookup_insert_eq.
  - by apply map_cons.
Qed.

Lemma dictAddRaw_spec can d k v :
  wf ty d -> Zlen (entries d) < 2 ^ 60 ->
  exists r d', dictAddRaw ty can d k v = Some (r, d') /\ wf ty d' /\
    match dict_map d !! k with
    | Some v0 => exists l, r = inl (Some l) /\ entry_at d' l = Some (k, v0) /\ dict_map d' = dict_map d
    | None => exists l, r = inr l /\ entry_at d' l = Some (k, v) /\ dict_map d' = <[k := v]> (dict_map d)
    end.
Proof.
  intros Hwf Hsz. unfold dictAddRaw, dictFindPositionForInsert.
  destruct (rehash_step_spec ty can d Hwf) as (d1 & -> & Hwf1 & Hs1). cbn [mbind option_bind].
  pose proof (dict_map_same d d1 Hwf Hs1) as Hm1.
  assert (Hl1 : Zlen (entries d1) < 2 ^ 60) by (destruct Hs1 as [-> _]; done).
  destruct (expand_if_needed_spec can d1 Hwf1 Hl1) as (d2 & -> & Hwf2 & Hs2 & Ha2). cbn [mbind option_bind].
  pose proof (dict_map_same d1 d2 Hwf1 Hs2) as Hm2.
  assert (Hl2 : Zlen (entries d2) < 2 ^ 60) by (destruct Hs2 as [-> _]; done).
  destruct (dict_search_spec d2 k Hwf2 Ha2) as (r & -> & Hr). cbn [mbind option_bind].
  rewrite <- Hm1, <- Hm2. destruct r as [l|].
  - destruct Hr as (v0 & He & Hk). rewrite Hk. cbn [mbind option_bind]. eexists _, _. split; [done|].
    split; [done|]. by exists l.
  - rewrite Hr. cbn [mbind option_bind].
    destruct (dictInsertAtPosition_spec d2 k v Hwf2 Ha2 Hr Hl2) as (l & d3 & Hins & Hwf3 & He3 & Hm3).
    change (hash ty k) with (dictHashKey ty k) in Hins. rewrite Hins. cbn [mbind option_bind].
    eexists _, _. split; [done|]. split; [done|]. by exists l.
Qed.

(** The search that lookups and deletions start with. *)
Lemma step_search can d k :
  wf ty d -> (dictSize d =? 0) = false ->
  exists d1 r, rehash_step ty can d = Some d1 /\ wf ty d1 /\ dict_map d1 = dict_map d /\ pauserehash d1 = pauserehash d /\
    search ty d1 k (dictHashKey ty k) = Some r /\
    match r with
    | Some l => exists v, entry_at d1 l = Some (k, v) /\ dict_map d !! k = Some v
    | None => dict_map d !! k = None
    end.
Proof.
  intros Hwf Ez. destruct (rehash_step_spec ty can d Hwf) as (d1 & Hst & Hwf1 & Hs1).
  pose proof (dict_map_same d d1 Hwf Hs1) as Hm1.
  assert (Ha : allocated d1).
  { apply not_empty_allocated; [done|]. by rewrite (dictSize_map d1), Hm1, <- dictSize_map. }
  destruct (dict_search_spec d1 k Hwf1 Ha) as (r & Hr & Hres). exists d1, r. split; [done|]. split; [done|]. split; [done|].
  split; [apply Hs1|]. split; [done|]. by rewrite <- Hm1.
Qed.

Lemma dictFind_spec can d k :
  wf ty d ->
  exists l d', dictFind ty can d k = Some (l, d') /\ wf ty d' /\ dict_map d' = dict_map d /\
    match l with
    | Some l => exists v, entry_at d' l = Some (k, v) /\ dict_map d !! k = Some v
    | None => dict_map d !! k = None
    end.
Proof.
  intros Hwf. unfold dictFind. destruct (dictSize d =? 0) eqn:Ez.
  { exists None, d. split; [done|]. split; [done|]. split; [done|]. by apply dictSize_zero. }
  destruct (step_search can d k Hwf Ez) as (d1 & r & -> & Hwf1 & Hm1 & _ & Hse & Hr).
  cbn [mbind option_bind]. rewrite Hse. by exists r, d1.
Qed.

Lemma dictGenericDelete_spec can d k :
  wf ty d ->
  exists d', dictGenericDelete ty can d k = Some (pair k <$> dict_map d !! k, d') /\ wf ty d' /\
     dict_map d' = delete k (dict_map d).
Proof.
  intros Hwf. unfold dictGenericDelete. destruct (dictSize d =? 0) eqn:Ez.
  { pose proof (dictSize_zero d k Hwf Ez) as Hn. rewrite Hn. exists d. by rewrite delete_id. }
  destruct (step_search can d k Hwf Ez) as (d1 & r & -> & Hwf1 & Hm1 & _ & Hse & Hr). cbn [mbind option_bind].
  rewrite Hse. cbn [mbind option_bind]. destruct r as [l|].
  - destruct Hr as (v & He & Hk). rewrite He, Hk. cbn [mbind option_bind].
    destruct (unlink_spec d1 l k v Hwf1 He) as (d2 & -> & Hwf2 & Hm2 & _). exists d2. by rewrite Hm2, Hm1.
  - rewrite Hr. exists d1. by rewrite delete_id, Hm1.
Qed.

Lemma dictAdd_spec can d k v :
  wf ty d -> Zlen (entries d) < 2 ^ 60 ->
  exists d', wf ty d' /\
    match dict_map d !! k with
    | Some _ => dictAdd ty can d k v = Some (DICT_ERR, d') /\ dict_map d' = dict_map d
    | None => dictAdd ty can d k v = Some (DICT_OK, d') /\ dict_map d' = <[k := v]> (dict_map d)
    end.
Proof.
  intros Hwf Hsz. unfold dictAdd. destruct (dictAddRaw_spec can d k v Hwf Hsz) as (r & d' & -> & Hwf' & Hr).
  exists d'. split; [done|]. by destruct (dict_map d !! k) as [v0|], Hr as (l & -> & _ & Hm).
Qed.

Lemma dictResize_spec can d :
  wf ty d -> wf ty (dictResize can d).2 /\ dict_map (dictResize can d).2 = dict_map d.
Proof.
  intros Hwf. unfold dictResize. destruct (_ || _); [done|].
  assert (Hu : 0 <= ht_used0 d <= Zlen (entries d)).
  { destruct Hwf as ((-> & _) & _). unfold entries. rewrite Zlen_app. lia. }
  pose proof Hwf as ((_ & _ & Hs) & _). unfold dictExpand.
  destruct (_dictExpand_spec ty (fun _ => true) d (if ht_used0 d <? DICT_HT_INITIAL_SIZE then DICT_HT_INITIAL_SIZE else ht_used0 d) Hwf)
    as (st & mf & d' & -> & Hw & Hse & _); [destruct (_ <? _); lia|]. split; [done|]. by apply dict_map_same.
Qed.

(** *** Properties *)

(** On a well-formed dictionary a lookup always returns, with the entry
    of the key in the map exactly when the key has one; the dictionary stays
    well formed and keeps its map, whatever rehashing step the lookup did. *)
Theorem dictFind_correct can d k :
  wf ty d ->
  exists l d', dictFind ty can d k = Some (l, d') /\ wf ty d' /\ dict_map d' = dict_map d /\
    (l ≫= entry_at d') = pair k <$> dict_map d !! k /\
    dictFetchValue ty can d k = Some (dict_map d !! k, d').
Proof.
  intros Hwf. unfold dictFetchValue. destruct (dictFind_spec can d k Hwf) as (l & d' & -> & Hwf' & Hm & Hl).
  exists l, d'. split; [done|]. split; [done|]. split; [done|]. cbn [mbind option_bind]. destruct l as [l|].
  - destruct Hl as (v & He & ->). cbn. by rewrite He.
  - by rewrite Hl.
Qed.

(** C26: [dictAdd] adds a key that the dictionary does not have and answers
    [DICT_OK]; for a key that it has it answers [DICT_ERR] and changes
    nothing. Growing the tables never fails below 2^60 entries. *)
Theorem dictAdd_correct can d k v :
  wf ty d -> Zlen (entries d) < 2 ^ 60 ->
  exists d', wf ty d' /\
    match dict_map d !! k with
    | Some _ => dictAdd ty can d k v = Some (DICT_ERR, d') /\ dict_map d' = dict_map d
    | None => dictAdd ty can d k v = Some (DICT_OK, d') /\ dict_map d' = <[k := v]> (dict_map d)
    end.
Proof. apply dictAdd_spec. Qed.

(** [dictReplace] gives the key the value, whether the key was there (it
    answers 0) or not (it answers 1), and changes no other key. *)
Theorem dictReplace_correct can d k v :
  wf ty d -> Zlen (entries d) < 2 ^ 60 ->
  exists d', dictReplace ty can d k v = Some (if decide (is_Some (dict_map d !! k)) then 0 else 1, d') /\
    wf ty d' /\ dict_map d' = <[k := v]> (dict_map d).
Proof.
  intros Hwf Hsz. unfold dictReplace. destruct (dictAddRaw_spec can d k v Hwf Hsz) as (r & d' & -> & Hwf' & Hr).
  cbn [mbind option_bind]. destruct (dict_map d !! k) as [v0|] eqn:Hk; destruct Hr as (l & -> & He & Hm).
  - cbn [mbind option_bind]. destruct (dictSetVal_spec d' l k v0 v Hwf' He) as (d2 & -> & Hwf2 & Hm2).
    exists d2. cbn [mbind option_bind]. by rewrite decide_True, Hm2, Hm.
  - exists d'. by rewrite decide_False by by intros [? ?].
Qed.

Lemma twoPhaseUnlink_spec can d k :
  wf ty d ->
  exists l d1 d2, dictTwoPhaseUnlinkFind ty can d k = Some (l, d1) /\
     (l ≫= entry_at d1) = pair k <$> dict_map d !! k /\
     dictTwoPhaseUnlinkFree d1 l = Some d2 /\ wf ty d2 /\
     dict_map d2 = delete k (dict_map d) /\ pauserehash d2 = pauserehash d.
Proof.
  intros Hwf. unfold dictTwoPhaseUnlinkFind. destruct (dictSize d =? 0) eqn:Ez.
  { pose proof (dictSize_zero d k Hwf Ez) as Hn. rewrite Hn. exists None, d, d. by rewrite delete_id. }
  destruct (step_search can d k Hwf Ez) as (d1 & r & -> & Hwf1 & Hm1 & Hpr & Hse & Hr). cbn [mbind option_bind].
  rewrite Hse. cbn [mbind option_bind]. destruct r as [l|].
  - destruct Hr as (v & He & Hk). rewrite Hk. cbn [fmap option_fmap option_map].
    destruct (unlink_spec (dictPauseRehashing d1) l k v) as (d2 & Hu & Hwf2 & Hm2 & Hp2); [done..|].
    exists (Some l), (dictPauseRehashing d1), (dictResumeRehashing d2). split; [done|]. split; [done|].
    cbn [dictTwoPhaseUnlinkFree]. rewrite Hu. cbn [mbind option_bind]. split; [done|]. split; [done|].
    split; [by rewrite <- Hm1; apply Hm2|]. cbn. rewrite Hp2. cbn. lia.
  - rewrite Hr. exists None, d1, d1. rewrite delete_id by done. by rewrite Hm1.
Qed.

Lemma twoPhaseUnlink_none can d k :
  wf ty d -> dict_map d !! k = None -> exists d1, dictTwoPhaseUnlinkFind ty can d k = Some (None, d1) /\ wf ty d1 /\ dict_map d1 = dict_map d.
Proof.
  intros Hwf Hn. unfold dictTwoPhaseUnlinkFind. destruct (dictSize d =? 0) eqn:Ez; [by exists d|].
  destruct (step_search can d k Hwf Ez) as (d1 & r & -> & Hwf1 & Hm1 & Hpr & Hse & Hr). cbn [mbind option_bind]. rewrite Hse. cbn [mbind option_bind]. destruct r as [l|]; [|by exists d1].
  destruct Hr as (v & _ & Hk). congruence.
Qed.

(** [dictGenericDelete] unlinks the entry of the key, if there is one,
    and returns it, and deletes the key from the map; so does the two-phase
    variant, between whose phases rehashing is paused. *)
Theorem dictGenericDelete_correct can d k :
  wf ty d ->
  (exists d', dictGenericDelete ty can d k = Some (pair k <$> dict_map d !! k, d') /\ wf ty d' /\
     dict_map d' = delete k (dict_map d)) /\
  (exists l d1 d2, dictTwoPhaseUnlinkFind ty can d k = Some (l, d1) /\
     (l ≫= entry_at d1) = pair k <$> dict_map d !! k /\
     dictTwoPhaseUnlinkFree d1 l = Some d2 /\ wf ty d2 /\
     dict_map d2 = delete k (dict_map d) /\ pauserehash d2 = pauserehash d).
Proof. intros Hwf. split; [by apply dictGenericDelete_spec|by apply twoPhaseUnlink_spec]. Qed.

Lemma rehash_ms_loop_spec can now ms fuel : forall d i rehashes,
  wf ty d -> Zlen (ht_table0 d) - rehashidx d < Z.of_nat fuel ->
  exists r d', rehash_ms_loop ty fuel can now i ms d rehashes = Some (r, d') /\
    wf ty d' /\ dict_map d' = dict_map d /\
    (can = DICT_RESIZE_ENABLE -> (forall j, now (S j) - now O <= ms) -> dictIsRehashing d' = false).
Proof.
  induction fuel as [|fuel IH]; intros d i rehashes Hwf Hf.
  { destruct (Hwf) as (_ & _ & [[(_ & _ & _ & ? & _) _]|[(_ & _ & _ & ?) _]]); lia. }
  cbn [rehash_ms_loop]. destruct (dictRehash_spec ty can d 100 Hwf) as (r & d1 & -> & Hwf1 & Hs1 & Hp).
  pose proof (dict_map_same d d1 Hwf Hs1) as Hm1. cbn [mbind option_bind].
  destruct Hp as [[-> Hend]|(-> & Hre & Hlt & Hlen)]; [done|..].
  { eexists _, d1. do 3 (split; [done|]). auto. }
  cbn [Z.eqb]. destruct (Z.ltb_spec ms (now (S i) - now O)).
  { eexists _, d1. do 3 (split; [done|]). intros _ Hnow. specialize (Hnow i). lia. }
  destruct (IH d1 (S i) (s32 (rehashes + 100)) Hwf1) as (r & d2 & -> & Hwf2 & Hm2 & Hend); [lia|].
  eexists _, d2. split; [done|]. split; [done|]. split; [by rewrite Hm2|done].
Qed.

(** C36: Incremental rehashing terminates and keeps the map: the loop of
    [dictRehashMilliseconds] always ends, and when resizing is enabled, the
    rehashing not paused and the time not exceeded, all entries are in the
    first table at its end. *)
Theorem dictRehashMilliseconds_completes can now d ms :
  wf ty d ->
  exists r d', dictRehashMilliseconds ty can now d ms = Some (r, d') /\ wf ty d' /\ dict_map d' = dict_map d /\
    (can = DICT_RESIZE_ENABLE -> pauserehash d <= 0 -> (forall j, now (S j) - now O <= ms) ->
     dictIsRehashing d' = false /\ entries d' = concat (ht_table0 d')).
Proof.
  intros Hwf. unfold dictRehashMilliseconds. destruct (Z.ltb_spec 0 (pauserehash d)).
  { eexists _, d. do 3 (split; [done|]). lia. }
  destruct (rehash_ms_loop_spec can now ms (S (S (length (ht_table0 d)))) d O 0 Hwf)
    as (r & d' & -> & Hwf' & Hm' & Hend).
  { destruct (Hwf) as (_ & _ & [[(_ & _ & _ & ? & _) _]|[(_ & _ & _ & ?) _]]); lia. }
  eexists _, d'. do 3 (split; [done|]). intros Hc _ Hnow. specialize (Hend Hc Hnow). split; [done|].
  unfold entries. by rewrite (stable_table1 d' Hwf' Hend), app_nil_r.
Qed.

End Map.

(** ** A dictionary in the middle of rehashing *)

Definition ty0 : dictType Z :=
  {| hashFunction := fun k => k mod 2 ^ 64; keyCompare := Z.eqb; expandAllowed := None |}.

#[export] Instance ty0_laws : DictLaws ty0.
Proof. split; [intros k; by apply Z.mod_pos_bound|intros k k'; apply Z.eqb_eq]. Qed.

(** Five keys added to a new dictionary: the fifth one starts the rehashing. *)
Definition d0 : dict Z Z :=
  match foldl (fun od k => d ← od; snd <$> dictAdd ty0 DICT_RESIZE_ENABLE d k (k + 100)) (Some dictCreate) [0; 4; 9; 2; 13] with
  | Some d => d
  | None => dictCreate
  end.

Lemma d0_wf : wf ty0 d0.
Proof. apply rehashing_wf; [vm_compute; reflexivity|]. apply (bool_decide_unpack _). vm_compute. exact I. Qed.

Lemma dictFind_correct_witness :
  exists l d', dictFind ty0 DICT_RESIZE_ENABLE d0 9 = Some (l, d') /\ wf ty0 d' /\ dict_map d' = dict_map d0 /\
    (l ≫= entry_at d') = pair 9 <$> dict_map d0 !! 9 /\
    dictFetchValue ty0 DICT_RESIZE_ENABLE d0 9 = Some (dict_map d0 !! 9, d').
Proof. apply (dictFind_correct ty0 DICT_RESIZE_ENABLE d0 9), d0_wf. Defined.

Lemma dictAdd_correct_witness :
  exists d', wf ty0 d' /\
    match dict_map d0 !! 7 with
    | Some _ => dictAdd ty0 DICT_RESIZE_AVOID d0 7 1 = Some (DICT_ERR, d') /\ dict_map d' = dict_map d0
    | None => dictAdd ty0 DICT_RESIZE_AVOID d0 7 1 = Some (DICT_OK, d') /\ dict_map d' = <[7 := 1]> (dict_map d0)
    end.
Proof. apply (dictAdd_correct ty0 DICT_RESIZE_AVOID d0 7 1); [apply d0_wf|vm_compute; reflexivity]. Defined.

Lemma dictReplace_correct_witness :
  exists d', dictReplace ty0 DICT_RESIZE_ENABLE d0 9 1
             = Some (if decide (is_Some (dict_map d0 !! 9)) then 0 else 1, d') /\
    wf ty0 d' /\ dict_map d' = <[9 := 1]> (dict_map d0).
Proof. apply (dictReplace_correct ty0 DICT_RESIZE_ENABLE d0 9 1); [apply d0_wf|vm_compute; reflexivity]. Defined.

Lemma dictGenericDelete_correct_witness :
  exists d', dictGenericDelete ty0 DICT_RESIZE_ENABLE d0 13 = Some (pair 13 <$> dict_map d0 !! 13, d') /\
    wf ty0 d' /\ dict_map d' = delete 13 (dict_map d0).
Proof. apply (dictGenericDelete_correct ty0 DICT_RESIZE_ENABLE d0 13), d0_wf. Defined.

Lemma dictRehashMilliseconds_completes_witness :
  exists r d', dictRehashMilliseconds ty0 DICT_RESIZE_ENABLE (fun _ => 0) d0 1 = Some (r, d') /\
    dict_map d' = dict_map d0 /\ dictIsRehashing d' = false.
Proof.
  destruct (dictRehashMilliseconds_completes ty0 DICT_RESIZE_ENABLE (fun _ => 0) d0 1 d0_wf)
    as (r & d' & Hr & _ & Hm & He).
  exists r, d'. split; [done|]. split; [done|]. apply He; [done|vm_compute; discriminate|intros; lia].
Defined.

End DictMap.
