(* ===== verification/DictScan.v ===== *)
(** * What a scan of a dictionary returns

    [dictScan] is stateless: the cursor is the only thing that goes from one
    call to the next, and the dictionary may change, grow and shrink between
    the calls.  The cursor counts in the bits of the bucket number in reverse
    order; with [rev_bits] of the cursor as its position, a call returns every
    entry whose reversed hash is between the old and the new position.  So an
    iteration returns every key that is present from its start to its end. *)

From stdpp Require Import gmap.
From S2P Require Import Prelude.
From S2P Require Import Dict.
From S2P Require Import DictSpec.
From S2P Require Import DictMap.
Import Dict DictSpec DictMap.

Module DictScan.

(** ** Bit reversal *)

Definition rev_stage (s mask v : Z) : Z :=
  Z.lor (Z.land (Z.shiftr v s) mask) (Z.land (u64 (Z.shiftl v s)) (u64 (Z.lnot mask))).

Definition stage_check (s mask : Z) : bool :=
  (0 <=? mask) && (mask <? 2 ^ 64) && (0 <=? s) &&
  forallb (fun i => if Z.testbit mask i then Z.lxor i s =? i + s else Z.lxor i s =? i - s) (seqZ 0 64).

Lemma bits_range v : 0 <= v -> v < 2 ^ 64 <-> forall i, 64 <= i -> Z.testbit v i = false.
Proof. intros Hv. apply (Z.bounded_iff_bits_nonneg 64); lia. Qed.

(** Bits 0 to 63 decide a 64-bit number. *)
Lemma bits_ext v w :
  0 <= v < 2 ^ 64 -> 0 <= w < 2 ^ 64 -> (forall i, 0 <= i < 64 -> Z.testbit v i = Z.testbit w i) -> v = w.
Proof.
  intros Hv Hw Hb. apply Z.bits_inj'. intros i Hi. destruct (Z.ltb_spec i 64); [apply Hb; lia|].
  rewrite (proj1 (bits_range v ltac:(lia))), (proj1 (bits_range w ltac:(lia))) by lia. done.
Qed.

Lemma rev_stage_spec s mask v :
  stage_check s mask = true -> 0 <= v < 2 ^ 64 ->
  0 <= rev_stage s mask v < 2 ^ 64 /\
  forall i, 0 <= i < 64 -> Z.testbit (rev_stage s mask v) i = Z.testbit v (Z.lxor i s).
Proof.
  unfold stage_check. rewrite !andb_true_iff. intros (((Hm0 & Hm1) & Hs) & Hall) Hv.
  rewrite forallb_forall in Hall. unfold rev_stage.
  assert (Hu : forall x, 0 <= u64 x < 2 ^ 64) by (intros x; unfold uwrap; by apply Z.mod_pos_bound).
  assert (Hnn : 0 <= Z.lor (Z.land (Z.shiftr v s) mask) (Z.land (u64 (Z.shiftl v s)) (u64 (Z.lnot mask)))).
  { apply Z.lor_nonneg. split; apply Z.land_nonneg; [right; lia|left; apply Hu]. }
  split; [split; [done|]|].
  - apply bits_range; [done|]. intros i Hi. rewrite Z.lor_spec, !Z.land_spec.
    rewrite (proj1 (bits_range mask ltac:(lia)) ltac:(lia)) by done.
    rewrite (proj1 (bits_range _ (proj1 (Hu _))) (proj2 (Hu _)) i Hi), !andb_false_r. done.
  - intros i Hi. specialize (Hall i). rewrite <- list_elem_of_In, elem_of_seqZ in Hall. specialize (Hall ltac:(lia)).
    rewrite Z.lor_spec, !Z.land_spec, Z.shiftr_spec by lia. unfold uwrap.
    rewrite !Z.mod_pow2_bits_low, Z.lnot_spec, Z.shiftl_spec by lia.
    destruct (Z.testbit mask i); apply Z.eqb_eq in Hall; rewrite Hall; cbn [negb];
      by rewrite ?andb_true_r, ?andb_false_r, ?orb_false_r.
Qed.

Lemma rev_loop_cons s ss mask mask' v :
  Z.lxor mask (u64 (Z.shiftl mask s)) = mask' ->
  rev_loop (s :: ss) mask v = rev_loop ss mask' (rev_stage s mask' v).
Proof. by intros <-. Qed.

Lemma rev_bits_stages v :
  rev_bits v = rev_stage 1 0x5555555555555555 (rev_stage 2 0x3333333333333333
    (rev_stage 4 0x0f0f0f0f0f0f0f0f (rev_stage 8 0x00ff00ff00ff00ff
    (rev_stage 16 0x0000ffff0000ffff (rev_stage 32 0x00000000ffffffff v))))).
Proof.
  unfold rev_bits. rewrite (rev_loop_cons 32 _ _ 0x00000000ffffffff) by reflexivity.
  rewrite (rev_loop_cons 16 _ _ 0x0000ffff0000ffff) by reflexivity.
  rewrite (rev_loop_cons 8 _ _ 0x00ff00ff00ff00ff) by reflexivity.
  rewrite (rev_loop_cons 4 _ _ 0x0f0f0f0f0f0f0f0f) by reflexivity.
  rewrite (rev_loop_cons 2 _ _ 0x3333333333333333) by reflexivity.
  rewrite (rev_loop_cons 1 _ _ 0x5555555555555555) by reflexivity. done.
Qed.

Lemma lxor_range i s : 0 <= i < 2 ^ 6 -> 0 <= s < 2 ^ 6 -> 0 <= Z.lxor i s < 64.
Proof.
  intros Hi Hs. assert (0 <= Z.lxor i s) by (apply Z.lxor_nonneg; lia). split; [done|]. change 64 with (2 ^ 6).
  apply Z.bounded_iff_bits_nonneg; [lia..|]. intros l Hl. rewrite Z.lxor_spec.
  by rewrite (proj1 (Z.bounded_iff_bits_nonneg 6 i ltac:(lia) ltac:(lia)) ltac:(lia)),
    (proj1 (Z.bounded_iff_bits_nonneg 6 s ltac:(lia) ltac:(lia)) ltac:(lia)).
Qed.

(** [rev_bits] reverses the 64 bits. *)
Lemma rev_bits_spec v :
  0 <= v < 2 ^ 64 ->
  0 <= rev_bits v < 2 ^ 64 /\ forall i, 0 <= i < 64 -> Z.testbit (rev_bits v) i = Z.testbit v (63 - i).
Proof.
  intros Hv. rewrite rev_bits_stages.
  destruct (rev_stage_spec 32 0x00000000ffffffff v) as [R1 B1]; [reflexivity|done|].
  destruct (rev_stage_spec 16 0x0000ffff0000ffff _ ltac:(reflexivity) R1) as [R2 B2].
  destruct (rev_stage_spec 8 0x00ff00ff00ff00ff _ ltac:(reflexivity) R2) as [R3 B3].
  destruct (rev_stage_spec 4 0x0f0f0f0f0f0f0f0f _ ltac:(reflexivity) R3) as [R4 B4].
  destruct (rev_stage_spec 2 0x3333333333333333 _ ltac:(reflexivity) R4) as [R5 B5].
  destruct (rev_stage_spec 1 0x5555555555555555 _ ltac:(reflexivity) R5) as [R6 B6].
  split; [done|]. intros i Hi.
  rewrite B6, B5, B4, B3, B2, B1 by (repeat apply lxor_range; lia). f_equal.
  rewrite !Z.lxor_assoc. change (Z.lxor 1 _) with 63. symmetry.
  assert (Hc : forallb (fun i => Z.lxor i 63 =? 63 - i) (seqZ 0 64) = true) by (vm_compute; reflexivity).
  rewrite forallb_forall in Hc. specialize (Hc i). rewrite <- list_elem_of_In, elem_of_seqZ in Hc.
  symmetry. apply Z.eqb_eq, Hc. lia.
Qed.

Lemma rev_bits_range v : 0 <= v < 2 ^ 64 -> 0 <= rev_bits v < 2 ^ 64.
Proof. apply rev_bits_spec. Qed.

Lemma rev_bits_involutive v : 0 <= v < 2 ^ 64 -> rev_bits (rev_bits v) = v.
Proof.
  intros Hv. pose proof (rev_bits_range v Hv) as Hr. apply bits_ext; [by apply rev_bits_range|done|].
  intros i Hi. rewrite (proj2 (rev_bits_spec _ Hr)), (proj2 (rev_bits_spec _ Hv)) by lia. f_equal. lia.
Qed.

(** The low [e] bits of a number are the high bits of its reversal. *)
Lemma rev_low_high v w e :
  0 <= e <= 64 -> 0 <= v < 2 ^ 64 -> 0 <= w < 2 ^ 64 ->
  v mod 2 ^ e = w mod 2 ^ e <-> rev_bits v / 2 ^ (64 - e) = rev_bits w / 2 ^ (64 - e).
Proof.
  intros He Hv Hw. destruct (rev_bits_spec v Hv) as [Rv Bv]. destruct (rev_bits_spec w Hw) as [Rw Bw].
  split; intros Heq; apply Z.bits_inj'; intros i Hi.
  - rewrite !Z.div_pow2_bits by lia. destruct (Z.ltb_spec i e).
    + rewrite Bv, Bw by lia. rewrite <- (Z.mod_pow2_bits_low v e), <- (Z.mod_pow2_bits_low w e) by lia.
      by rewrite Heq.
    + rewrite (proj1 (bits_range (rev_bits v) ltac:(lia))), (proj1 (bits_range (rev_bits w) ltac:(lia))) by lia. done.
  - destruct (Z.ltb_spec i e); [|by rewrite !Z.mod_pow2_bits_high by lia].
    rewrite !Z.mod_pow2_bits_low by lia. replace i with (63 - (63 - i)) by lia.
    rewrite <- Bv, <- Bw by lia. replace (63 - i) with ((e - 1 - i) + (64 - e)) by lia.
    rewrite <- !Z.div_pow2_bits by lia. by rewrite Heq.
Qed.

(** [next_cursor] moves to the next multiple of [2 ^ (64 - e)]. *)
Definition next_pos (e R : Z) : Z := (R / 2 ^ (64 - e) + 1) * 2 ^ (64 - e).

Lemma mask_bit e i : 0 <= e <= 64 -> 0 <= i < 64 -> Z.testbit (u64 (Z.lnot (2 ^ e - 1))) i = (e <=? i).
Proof.
  intros He Hi. unfold uwrap. rewrite Z.mod_pow2_bits_low, Z.lnot_spec by lia.
  replace (2 ^ e - 1) with (Z.ones e) by (rewrite Z.ones_equiv; lia).
  rewrite Z.testbit_ones_nonneg by lia. destruct (Z.ltb_spec i e); cbn; symmetry; lia.
Qed.

Lemma set_high_range v e : 0 <= v < 2 ^ 64 -> 0 <= Z.lor v (u64 (Z.lnot (2 ^ e - 1))) < 2 ^ 64.
Proof.
  intros Hv. assert (Hu : 0 <= u64 (Z.lnot (2 ^ e - 1)) < 2 ^ 64) by by apply Z.mod_pos_bound.
  assert (0 <= Z.lor v (u64 (Z.lnot (2 ^ e - 1)))) by (apply Z.lor_nonneg; lia). split; [done|].
  apply bits_range; [done|]. intros i Hi. rewrite Z.lor_spec.
  rewrite (proj1 (bits_range v ltac:(lia))), (proj1 (bits_range _ (proj1 Hu))) by lia. done.
Qed.

Lemma rev_set_high v e :
  0 <= e <= 64 -> 0 <= v < 2 ^ 64 ->
  rev_bits (Z.lor v (u64 (Z.lnot (2 ^ e - 1)))) = next_pos e (rev_bits v) - 1.
Proof.
  intros He Hv. pose proof (set_high_range v e Hv) as Hw. set (w := Z.lor v _) in *.
  pose proof (Z.pow_pos_nonneg 2 (64 - e)) as Hp.
  assert (Hdiv : rev_bits w / 2 ^ (64 - e) = rev_bits v / 2 ^ (64 - e)).
  { apply rev_low_high; [done..|]. apply Z.bits_inj'. intros i Hi.
    destruct (Z.ltb_spec i e); [|by rewrite !Z.mod_pow2_bits_high by lia].
    rewrite !Z.mod_pow2_bits_low by lia. unfold w. rewrite Z.lor_spec, mask_bit by lia.
    rewrite (proj2 (Z.leb_gt _ _)) by lia. apply orb_false_r. }
  assert (Hmod : rev_bits w mod 2 ^ (64 - e) = Z.ones (64 - e)).
  { apply Z.bits_inj'. intros i Hi. rewrite Z.testbit_ones_nonneg by lia.
    destruct (Z.ltb_spec i (64 - e)); [|by rewrite Z.mod_pow2_bits_high by lia].
    rewrite Z.mod_pow2_bits_low, (proj2 (rev_bits_spec w Hw)) by lia. unfold w.
    rewrite Z.lor_spec, mask_bit, (proj2 (Z.leb_le _ _)) by lia. apply orb_true_r. }
  rewrite (Z.div_mod (rev_bits w) (2 ^ (64 - e))), Hdiv, Hmod, Z.ones_equiv by lia. unfold next_pos. lia.
Qed.

Lemma next_pos_range e R :
  0 <= e <= 64 -> 0 <= R < 2 ^ 64 -> R < next_pos e R <= 2 ^ 64.
Proof.
  intros He HR. unfold next_pos. assert (H2 : 2 ^ 64 = 2 ^ e * 2 ^ (64 - e)) by (rewrite <- Z.pow_add_r by lia; f_equal; lia).
  pose proof (Z.pow_pos_nonneg 2 (64 - e)) as Hp. pose proof (Z.pow_pos_nonneg 2 e) as Hp'.
  pose proof (Z.div_mod R (2 ^ (64 - e))) as Hd. pose proof (Z.mod_pos_bound R (2 ^ (64 - e))) as Hm.
  set (q := R / 2 ^ (64 - e)) in *. split; [lia|]. assert (q < 2 ^ e) by nia. nia.
Qed.

Lemma next_cursor_spec v e :
  0 <= e <= 64 -> 0 <= v < 2 ^ 64 ->
  0 <= next_cursor v (2 ^ e - 1) < 2 ^ 64 /\
  rev_bits (next_cursor v (2 ^ e - 1)) = next_pos e (rev_bits v) mod 2 ^ 64.
Proof.
  intros He Hv. unfold next_cursor. cbv zeta. rewrite rev_set_high by done.
  replace (next_pos e (rev_bits v) - 1 + 1) with (next_pos e (rev_bits v)) by lia.
  assert (Hr : 0 <= u64 (next_pos e (rev_bits v)) < 2 ^ 64) by by apply Z.mod_pos_bound.
  split; [by apply rev_bits_range|]. by rewrite rev_bits_involutive.
Qed.

(** A position in the block of [2 ^ (64 - e)] positions of [R]. *)
Lemma in_block e R H : 0 <= e <= 64 -> R <= H < next_pos e R -> H / 2 ^ (64 - e) = R / 2 ^ (64 - e).
Proof.
  intros He HH. unfold next_pos in HH. pose proof (Z.pow_pos_nonneg 2 (64 - e)) as Hp.
  symmetry. apply Z.div_unique_pos with (H - 2 ^ (64 - e) * (R / 2 ^ (64 - e))); [|lia].
  pose proof (Z.mul_div_le R (2 ^ (64 - e))). lia.
Qed.

Lemma low_bits_zero z n : 0 <= n -> z mod 2 ^ n = 0 <-> forall i, 0 <= i < n -> Z.testbit z i = false.
Proof.
  intros Hn. split.
  - intros Hz i Hi. rewrite <- (Z.mod_pow2_bits_low z n) by lia. by rewrite Hz, Z.bits_0.
  - intros Hb. apply Z.bits_inj'. intros i Hi. rewrite Z.bits_0.
    destruct (Z.ltb_spec i n); [rewrite Z.mod_pow2_bits_low by lia; apply Hb; lia|].
    by rewrite Z.mod_pow2_bits_high by lia.
Qed.

Lemma mask_xor_bit e0 e1 i :
  0 <= e0 < e1 -> 0 <= i -> Z.testbit (Z.lxor (2 ^ e0 - 1) (2 ^ e1 - 1)) i = (e0 <=? i) && (i <? e1).
Proof.
  intros He Hi. rewrite !Z.sub_1_r, <- !Z.ones_equiv. rewrite Z.lxor_spec, !Z.testbit_ones_nonneg by lia.
  destruct (Z.ltb_spec i e0), (Z.ltb_spec i e1), (Z.leb_spec e0 i); try done; lia.
Qed.

(** The condition of the loop over the larger table. *)
Lemma scan_cond v e0 e1 :
  0 <= e0 < e1 -> e1 <= 64 -> 0 <= v < 2 ^ 64 -> rev_bits v mod 2 ^ (64 - e1) = 0 ->
  Z.land v (Z.lxor (2 ^ e0 - 1) (2 ^ e1 - 1)) = 0 <-> rev_bits v mod 2 ^ (64 - e0) = 0.
Proof.
  intros He He1 Hv Hz. destruct (rev_bits_spec v Hv) as [_ Bv].
  rewrite low_bits_zero in Hz by lia. rewrite low_bits_zero by lia. split.
  - intros Hl i Hi. destruct (Z.ltb_spec i (64 - e1)); [apply Hz; lia|]. rewrite Bv by lia.
    apply (f_equal (fun z => Z.testbit z (63 - i))) in Hl. rewrite Z.land_spec, mask_xor_bit, Z.bits_0 in Hl by lia.
    rewrite (proj2 (Z.leb_le _ _)), (proj2 (Z.ltb_lt _ _)), andb_true_r in Hl by lia. done.
  - intros Hb. apply Z.bits_inj'. intros i Hi. rewrite Z.land_spec, mask_xor_bit, Z.bits_0 by lia.
    destruct (Z.leb_spec e0 i), (Z.ltb_spec i e1); rewrite ?andb_false_r; try done.
    specialize (Hb (63 - i)). rewrite Bv in Hb by lia. replace (63 - (63 - i)) with i in Hb by lia.
    by rewrite Hb by lia.
Qed.

(** *** One step of the loop, in positions *)

Lemma pow_split e0 e1 : 0 <= e0 < e1 -> e1 <= 64 -> 2 ^ (64 - e0) = 2 ^ (e1 - e0) * 2 ^ (64 - e1).
Proof. intros. rewrite <- Z.pow_add_r by lia. f_equal. lia. Qed.

Lemma next_pos_mono e0 e1 R :
  0 <= e0 < e1 -> e1 <= 64 -> next_pos e1 R <= next_pos e0 R.
Proof.
  intros He He1. unfold next_pos. rewrite (pow_split e0 e1) by done.
  pose proof (Z.pow_pos_nonneg 2 (64 - e1)) as Hp1. pose proof (Z.pow_pos_nonneg 2 (e1 - e0)) as Hp2.
  set (B := 2 ^ (64 - e1)) in *. set (c := 2 ^ (e1 - e0)) in *.
  rewrite (Z.mul_comm c B), <- Z.div_div by lia. set (q := R / B).
  pose proof (Z.div_mod q c) as Hd. pose proof (Z.mod_pos_bound q c) as Hm. nia.
Qed.

Lemma next_pos_same e0 e1 R :
  0 <= e0 < e1 -> e1 <= 64 -> next_pos e1 R < next_pos e0 R ->
  next_pos e0 (next_pos e1 R) = next_pos e0 R /\ next_pos e1 R mod 2 ^ (64 - e0) <> 0.
Proof.
  intros He He1 Hlt. pose proof (Z.pow_pos_nonneg 2 (64 - e0)) as Hp0. pose proof (Z.pow_pos_nonneg 2 (64 - e1)) as Hp1.
  assert (HR : R < next_pos e1 R).
  { unfold next_pos. pose proof (Z.div_mod R (2 ^ (64 - e1))). pose proof (Z.mod_pos_bound R (2 ^ (64 - e1))). lia. }
  assert (Hb : next_pos e1 R / 2 ^ (64 - e0) = R / 2 ^ (64 - e0)) by (apply in_block; lia).
  split; [unfold next_pos at 1 3; by rewrite Hb|]. intros Hz. apply Z.mod_divide in Hz as [q Hq]; [|lia].
  rewrite Hq, Z.div_mul in Hb by lia. pose proof (Z.mul_div_le R (2 ^ (64 - e0))). nia.
Qed.

Lemma next_pos_mod e R : 0 <= e <= 64 -> (next_pos e R mod 2 ^ 64) mod 2 ^ (64 - e) = 0.
Proof.
  intros He. pose proof (Z.pow_pos_nonneg 2 (64 - e)) as Hp. pose proof (Z.pow_pos_nonneg 2 e) as Hp'.
  replace (2 ^ 64) with (2 ^ e * 2 ^ (64 - e)) by (rewrite <- Z.pow_add_r by lia; f_equal; lia).
  unfold next_pos. rewrite Z.mul_mod_distr_r by lia. apply Z.mod_mul; lia.
Qed.

(** ** Scanning *)

Lemma mask_pow e : 0 <= e <= 63 -> DICTHT_SIZE_MASK e = 2 ^ e - 1.
Proof. intros He. unfold DICTHT_SIZE_MASK. rewrite (proj2 (Z.eqb_neq _ _)), dict_size by lia. done. Qed.

#[local] Opaque rev_bits next_cursor.

Section Scan.
Context {K V : Type} `{Countable K} (ty : dictType K) `{!DictLaws ty}.
Implicit Types (d : dict K V) (tb : list (list (K * V))).
#[local] Set Default Proof Using "Type*".

(** The position of an entry. *)
Definition key_pos (k : K) : Z := rev_bits (hash ty k).

Lemma key_pos_range k : 0 <= key_pos k < 2 ^ 64.
Proof. apply rev_bits_range, hash_range. Qed.

(** The entries of a table between two positions. *)
Definition covers tb (R R' : Z) (out : list (K * V)) : Prop :=
  (forall e, e ∈ concat tb -> R <= key_pos e.1 < R' -> e ∈ out) /\ (forall e, e ∈ out -> e ∈ concat tb).

Lemma scan_bucket e tb v :
  table_ok ty e tb -> 0 <= v < 2 ^ 64 ->
  exists b, get_bucket tb (Z.land v (2 ^ e - 1)) = Some b /\
    covers tb (rev_bits v) (next_pos e (rev_bits v)) b.
Proof.
  intros Ht Hv. assert (He : 2 <= e <= 60) by apply Ht. rewrite <- mask_pow, dict_mask by lia.
  destruct (bucket_in_range ty e tb v Ht) as [b Hb]. exists b. split; [done|]. split.
  - intros [k x] Hin Hpos. cbn in Hpos.
    assert (Hk : v mod 2 ^ e = hash ty k mod 2 ^ e).
    { apply rev_low_high; [lia|done|apply hash_range|]. symmetry. apply in_block; [lia|done]. }
    rewrite Hk in Hb. by apply (entry_in_bucket ty e tb k x b Ht Hb).
  - intros e' Hin. apply get_bucket_some in Hb as [_ Hb]. apply elem_concat. by eexists _, _.
Qed.

Lemma covers_app tb R1 R2 R3 o1 o2 : covers tb R1 R2 o1 -> covers tb R2 R3 o2 -> covers tb R1 R3 (o1 ++ o2).
Proof.
  intros [H1 S1] [H2 S2]. split; intros e He.
  - intros Hp. apply elem_of_app. destruct (Z.ltb_spec (key_pos e.1) R2); [left; apply H1|right; apply H2]; done || lia.
  - apply elem_of_app in He as [?|?]; auto.
Qed.

Lemma scan_loop_spec e0 e1 tb fuel : forall v acc,
  table_ok ty e1 tb -> 2 <= e0 < e1 -> 0 <= v < 2 ^ 64 ->
  next_pos e0 (rev_bits v) <= (rev_bits v / 2 ^ (64 - e1) + Z.of_nat fuel) * 2 ^ (64 - e1) ->
  exists v' out, scan_loop fuel tb (2 ^ e0 - 1) (2 ^ e1 - 1) v acc = Some (v', acc ++ out) /\
    0 <= v' < 2 ^ 64 /\ rev_bits v' = next_pos e0 (rev_bits v) mod 2 ^ 64 /\
    covers tb (rev_bits v) (next_pos e0 (rev_bits v)) out.
Proof.
  induction fuel as [|fuel IH]; intros v acc Ht He Hv Hf; assert (He1 : 2 <= e1 <= 60) by apply Ht;
    pose proof (Z.pow_pos_nonneg 2 (64 - e1)) as Hp; pose proof (rev_bits_range v Hv) as HR;
    pose proof (next_pos_range e0 (rev_bits v) ltac:(lia) HR) as HT.
  { pose proof (Z.mul_div_le (rev_bits v) (2 ^ (64 - e1))). lia. }
  cbn [scan_loop]. destruct (scan_bucket e1 tb v Ht Hv) as (b & -> & Hcov). cbn [mbind option_bind].
  destruct (next_cursor_spec v e1 ltac:(lia) Hv) as [Hv1 HR1]. set (v1 := next_cursor v (2 ^ e1 - 1)) in *.
  pose proof (next_pos_range e1 (rev_bits v) ltac:(lia) HR) as HT1.
  pose proof (next_pos_mono e0 e1 (rev_bits v) ltac:(lia) ltac:(lia)) as Hmono.
  assert (Hm1 : rev_bits v1 mod 2 ^ (64 - e1) = 0) by (rewrite HR1; apply next_pos_mod; lia).
  pose proof (scan_cond v1 e0 e1 ltac:(lia) ltac:(lia) Hv1 Hm1) as Hcond.
  destruct (Z.eq_dec (next_pos e1 (rev_bits v)) (next_pos e0 (rev_bits v))) as [Heq|Hne].
  - assert (Hz : rev_bits v1 mod 2 ^ (64 - e0) = 0) by (rewrite HR1, Heq; apply next_pos_mod; lia).
    rewrite (proj2 (Z.eqb_eq _ _) (proj2 Hcond Hz)). exists v1, b. split; [done|]. split; [done|].
    rewrite <- Heq. done.
  - destruct (next_pos_same e0 e1 (rev_bits v) ltac:(lia) ltac:(lia) ltac:(lia)) as [Hsame Hnz].
    rewrite Z.mod_small in HR1 by lia. rewrite <- HR1 in Hnz, Hsame.
    assert (Hnb : (Z.land v1 (Z.lxor (2 ^ e0 - 1) (2 ^ e1 - 1)) =? 0) = false) by (apply Z.eqb_neq; tauto).
    rewrite Hnb. destruct (IH v1 (acc ++ b) Ht He Hv1) as (v' & out & -> & Hv' & HR' & Hcov').
    { rewrite Hsame, HR1. unfold next_pos in *. rewrite Z.div_mul by lia. lia. }
    rewrite Hsame in HR', Hcov'. rewrite HR1 in Hcov'. exists v', (b ++ out). rewrite app_assoc.
    split; [done|]. split; [done|]. split; [done|]. by eapply covers_app.
Qed.

(** The exponent of the smaller table. *)
Definition scan_exp d : Z :=
  if dictIsRehashing d then Z.min (ht_size_exp0 d) (ht_size_exp1 d) else ht_size_exp0 d.

(** A call from position [R] to position [R']. *)
Definition scan_ok d (v v' R' : Z) (out : list (K * V)) : Prop :=
  0 <= v' < 2 ^ 64 /\ rev_bits v < R' <= 2 ^ 64 /\ rev_bits v' = R' mod 2 ^ 64 /\
  (forall e, e ∈ entries d -> rev_bits v <= key_pos e.1 < R' -> e ∈ out) /\
  (forall e, e ∈ out -> e ∈ entries d).

(** The smaller table and the larger one, in either order. *)
Lemma scan_two d (v : Z) (ts : bool) es el :
  table_ok ty es (ht_table d ts) -> table_ok ty el (ht_table d (negb ts)) -> es < el -> 0 <= v < 2 ^ 64 ->
  exists v' out, (de ← get_bucket (ht_table d ts) (Z.land v (2 ^ es - 1));
    scan_loop (length (ht_table d (negb ts))) (ht_table d (negb ts)) (2 ^ es - 1) (2 ^ el - 1) v de) = Some (v', out) /\
    scan_ok d v v' (next_pos es (rev_bits v)) out.
Proof.
  intros Hs Hl Hlt Hv. destruct (scan_bucket es _ v Hs Hv) as (de & -> & Hcov). cbn [mbind option_bind].
  assert (He : 2 <= es <= 60) by apply Hs. assert (Hel : 2 <= el <= 60) by apply Hl.
  pose proof (rev_bits_range v Hv) as HR. pose proof (next_pos_range es (rev_bits v) ltac:(lia) HR) as HT.
  destruct (scan_loop_spec es el (ht_table d (negb ts)) (length (ht_table d (negb ts))) v de)
    as (v' & out & -> & Hv' & HR' & Hcov'); [done|lia|done| |].
  { assert (2 ^ 64 = Zlen (ht_table d (negb ts)) * 2 ^ (64 - el)).
    { destruct Hl as (_ & -> & _). rewrite <- Z.pow_add_r by lia. f_equal. lia. }
    pose proof (Z.pow_pos_nonneg 2 (64 - el)). pose proof (Z.div_pos (rev_bits v) (2 ^ (64 - el))). nia. }
  exists v', (de ++ out). split; [done|]. split; [done|]. split; [done|]. split; [done|].
  destruct Hcov as [C1 S1], Hcov' as [C2 S2]. unfold entries. split; intros e.
  - intros Hin Hp. apply elem_of_app. destruct ts; cbn in *; apply elem_of_app in Hin as [Hin|Hin]; auto.
  - intros Hin. apply elem_of_app. destruct ts; cbn in *; apply elem_of_app in Hin as [Hin|Hin]; auto.
Qed.

Lemma dictScan_spec d v :
  wf ty d -> 0 <= v < 2 ^ 64 ->
  exists v' out R', dictScan d v = Some (v', out) /\ scan_ok d v v' R' out /\
    R' = if dictSize d =? 0 then 2 ^ 64 else next_pos (scan_exp d) (rev_bits v).
Proof.
  intros Hwf Hv. pose proof (rev_bits_range v Hv) as HR. unfold dictScan. destruct (dictSize d =? 0) eqn:Hz.
  { exists 0, [], (2 ^ 64). split; [done|]. split; [|done]. split; [done|]. split; [lia|]. split; [done|].
    split; [|intros e He; by apply not_elem_of_nil in He]. intros [k x] Hin _.
    apply (dict_map_elem ty) in Hin; [|done]. by rewrite (dictSize_zero ty d k) in Hin. }
  pose proof (allocated_ok ty d Hwf (not_empty_allocated ty d Hwf Hz)) as Ht0.
  assert (He0 : 2 <= ht_size_exp0 d <= 60) by apply Ht0. unfold scan_exp.
  destruct (dictIsRehashing d) eqn:Hre; cbn [negb].
  - pose proof (rehashing_table1 ty d Hwf Hre) as Ht1. assert (He1 : 2 <= ht_size_exp1 d <= 60) by apply Ht1.
    assert (Hne : ht_size_exp0 d <> ht_size_exp1 d) by (destruct Hwf as (_ & _ & [[Hr _]|[_ ?]]); [apply Hr|congruence]).
    rewrite !dict_size by lia. cbv zeta.
    destruct (Z.ltb_spec (2 ^ ht_size_exp1 d) (2 ^ ht_size_exp0 d)) as [Hlt|Hge]; cbn [negb ht_size_exp].
    + apply Z.pow_lt_mono_r_iff in Hlt; [|lia..]. rewrite !mask_pow, Z.min_r by lia.
      destruct (scan_two d v true (ht_size_exp1 d) (ht_size_exp0 d)) as (v' & out & Hs & Hok); [done..|].
      cbn [negb] in Hs. by eexists v', out, _.
    + apply Z.pow_le_mono_r_iff in Hge; [|lia..]. rewrite !mask_pow, Z.min_l by lia.
      destruct (scan_two d v false (ht_size_exp0 d) (ht_size_exp1 d)) as (v' & out & Hs & Hok); [done|done|lia|done|].
      cbn [negb] in Hs. by eexists v', out, _.
  - rewrite mask_pow by lia. destruct (scan_bucket _ _ v Ht0 Hv) as (b & -> & C & S). cbn [mbind option_bind].
    destruct (next_cursor_spec v (ht_size_exp0 d) ltac:(lia) Hv) as [Hv' HR'].
    pose proof (next_pos_range (ht_size_exp0 d) (rev_bits v) ltac:(lia) HR).
    eexists _, b, _. split; [done|]. split; [|done]. split; [done|]. split; [done|]. split; [done|].
    unfold entries. rewrite (stable_table1 ty d Hwf Hre), app_nil_r. by split.
Qed.

(** An iteration: one call for each state of the dictionary, from cursor [v],
    until the returned cursor is 0. *)
Fixpoint scan_run (ds : list (dict K V)) (v : Z) : option (Z * list (K * V)) :=
  match ds with
  | [] => Some (v, [])
  | d :: ds =>
      '(v, out) ← dictScan d v;
      if v =? 0 then Some (0, out)
      else '(v, rest) ← scan_run ds v; Some (v, out ++ rest)
  end.

Lemma rev_bits_zero v : 0 <= v < 2 ^ 64 -> rev_bits v = 0 -> v = 0.
Proof. intros Hv Hr. by rewrite <- (rev_bits_involutive v Hv), Hr. Qed.

Lemma scan_run_emits ds k : forall v out,
  Forall (wf ty) ds -> Forall (fun d => is_Some (dict_map d !! k)) ds ->
  0 <= v < 2 ^ 64 -> rev_bits v <= key_pos k -> (ds = [] -> v <> 0) ->
  scan_run ds v = Some (0, out) -> exists d x, d ∈ ds /\ dict_map d !! k = Some x /\ (k, x) ∈ out.
Proof.
  induction ds as [|d ds IH]; intros v out Hwf Hk Hv Hpos Hne Hrun; cbn [scan_run] in Hrun.
  { injection Hrun as -> _. by destruct Hne. }
  apply Forall_cons in Hwf as [Hd Hwf]. apply Forall_cons in Hk as [[x Hx] Hk].
  destruct (dictScan_spec d v Hd Hv) as (v' & o & R' & Hs & (Hv' & HR & HR' & Hin & _) & _).
  rewrite Hs in Hrun. cbn [mbind option_bind] in Hrun. pose proof (key_pos_range k) as Hkr.
  destruct (Z.ltb_spec (key_pos k) R') as [Hlt|Hge].
  - assert (Ho : (k, x) ∈ o). { apply Hin; [|done]. by apply (dict_map_elem ty). }
    exists d, x. split; [by left|]. split; [done|]. destruct (v' =? 0).
    + by injection Hrun as <-.
    + destruct (scan_run ds v') as [[w rest]|]; [|done]. cbn in Hrun. injection Hrun as _ <-.
      apply elem_of_app. by left.
  - pose proof (rev_bits_range v Hv). rewrite Z.mod_small in HR' by lia.
    assert (Hv0 : v' <> 0) by (intros ->; change (rev_bits 0) with 0 in HR'; lia).
    rewrite (proj2 (Z.eqb_neq _ _) Hv0) in Hrun.
    destruct (scan_run ds v') as [[w rest]|] eqn:Hr; [|done]. cbn in Hrun. injection Hrun as -> <-.
    destruct (IH v' rest Hwf Hk Hv' ltac:(lia) ltac:(done) Hr) as (d' & y & Hd' & Hy & Hiny).
    exists d', y. split; [by right|]. split; [done|]. apply elem_of_app. by right.
Qed.

(** C7: The guarantee of SCAN: in an iteration that starts and ends with
    cursor 0, over any sequence of states of the dictionary, whatever was
    added, deleted or rehashed between the calls, every key that is in the
    dictionary at each call is returned, with a value it had. *)
Theorem dictScan_guarantee ds k out :
  Forall (wf ty) ds -> Forall (fun d => is_Some (dict_map d !! k)) ds -> ds <> [] ->
  scan_run ds 0 = Some (0, out) ->
  exists d x, d ∈ ds /\ dict_map d !! k = Some x /\ (k, x) ∈ out.
Proof.
  intros Hwf Hk Hne Hrun. apply (scan_run_emits ds k 0 out); try done.
  change (rev_bits 0) with 0. apply key_pos_range.
Qed.

Lemma scan_exp_range d : wf ty d -> (dictSize d =? 0) = false -> 2 <= scan_exp d <= 60.
Proof.
  intros Hwf Hz. pose proof (allocated_ok ty d Hwf (not_empty_allocated ty d Hwf Hz)) as [He0 _]. unfold scan_exp.
  destruct (dictIsRehashing d) eqn:Hre; [|done]. destruct (rehashing_table1 ty d Hwf Hre) as [He1 _]. lia.
Qed.

Lemma scan_run_complete d j : forall v,
  wf ty d -> (dictSize d =? 0) = false -> 0 <= v < 2 ^ 64 ->
  rev_bits v = (2 ^ scan_exp d - Z.of_nat j) * 2 ^ (64 - scan_exp d) -> (0 < j)%nat ->
  exists out, scan_run (replicate j d) v = Some (0, out) /\
    (forall e, e ∈ entries d -> rev_bits v <= key_pos e.1 -> e ∈ out) /\ (forall e, e ∈ out -> e ∈ entries d).
Proof.
  induction j as [|j IH]; intros v Hwf Hz Hv HR Hj; [lia|]. cbn [replicate scan_run].
  pose proof (scan_exp_range d Hwf Hz) as He.
  pose proof (Z.pow_pos_nonneg 2 (64 - scan_exp d)) as Hp.
  assert (H64 : 2 ^ 64 = 2 ^ scan_exp d * 2 ^ (64 - scan_exp d)) by (rewrite <- Z.pow_add_r by lia; f_equal; lia).
  destruct (dictScan_spec d v Hwf Hv) as (v' & o & R' & -> & (Hv' & HR1 & HR' & Hin & Hsub) & HRe).
  rewrite Hz in HRe. cbn [mbind option_bind]. set (B := 2 ^ (64 - scan_exp d)) in *.
  assert (HRn : R' = (2 ^ scan_exp d - Z.of_nat j) * B).
  { rewrite HRe. unfold next_pos. fold B. rewrite HR, Z.div_mul by lia. f_equal. lia. }
  destruct j as [|j].
  - rewrite HRn, Z.sub_0_r, <- H64, Z_mod_same_full in HR'. apply rev_bits_zero in HR' as ->; [|done]. cbn.
    exists o. split; [done|]. split; [|done]. intros e He' Hpos. apply Hin; [done|].
    pose proof (key_pos_range e.1). lia.
  - pose proof (rev_bits_range v Hv). assert (R' < 2 ^ 64) by (rewrite HRn, H64; apply Z.mul_lt_mono_pos_r; lia).
    rewrite Z.mod_small in HR' by lia.
    assert (Hv0 : v' <> 0) by (intros ->; change (rev_bits 0) with 0 in HR'; lia).
    rewrite (proj2 (Z.eqb_neq _ _) Hv0).
    destruct (IH v' Hwf Hz Hv') as (rest & -> & Hin' & Hsub'); [by rewrite HR'|lia|]. cbn.
    exists (o ++ rest). split; [done|]. split; intros e; rewrite elem_of_app.
    + intros He' Hpos. destruct (Z.ltb_spec (key_pos e.1) R'); [left; by apply Hin|right; apply Hin'; [done|lia]].
    + intros [?|?]; auto.
Qed.

(** An iteration over a dictionary that does not change ends: after as
    many calls as the smaller table has buckets the cursor is 0 again, and
    the entries returned are exactly those of the dictionary. *)
Theorem dictScan_terminates d :
  wf ty d ->
  exists out, scan_run (replicate (if dictSize d =? 0 then 1 else Z.to_nat (2 ^ scan_exp d)) d) 0 = Some (0, out) /\
    forall e, e ∈ out <-> e ∈ entries d.
Proof.
  intros Hwf. assert (H0 : 0 <= 0 < 2 ^ 64) by done. destruct (dictSize d =? 0) eqn:Hz.
  - exists []. split; [cbn; unfold dictScan; by rewrite Hz|]. intros [k x].
    split; [intros He; by apply not_elem_of_nil in He|]. rewrite <- (dict_map_elem ty) by done.
    by rewrite (dictSize_zero ty d k).
  - pose proof (Z.pow_pos_nonneg 2 (scan_exp d)) as Hp.
    pose proof (scan_exp_range d Hwf Hz) as He.
    destruct (scan_run_complete d (Z.to_nat (2 ^ scan_exp d)) 0 Hwf Hz H0) as (out & -> & Hin & Hsub).
    + change (rev_bits 0) with 0. rewrite Z2Nat.id by lia. lia.
    + lia.
    + exists out. split; [done|]. intros e. split; [apply Hsub|]. intros He'. apply Hin; [done|].
      change (rev_bits 0) with 0. apply key_pos_range.
Qed.

End Scan.

(** A key is deleted, and a bucket rehashed, between the first two calls. *)
Definition d1 : dict Z Z :=
  match dictDelete ty0 DICT_RESIZE_ENABLE d0 2 with Some (_, d) => d | None => d0 end.

Lemma d1_wf : wf ty0 d1.
Proof. apply rehashing_wf; [vm_compute; reflexivity|]. apply (bool_decide_unpack _). vm_compute. exact I. Qed.

Lemma dictScan_guarantee_witness :
  exists out, scan_run [d0; d1; d1; d1] 0 = Some (0, out) /\ exists d x, d ∈ [d0; d1; d1; d1] /\
    dict_map d !! 9 = Some x /\ (9, x) ∈ out.
Proof.
  eexists. split; [vm_compute; reflexivity|]. apply (dictScan_guarantee ty0 [d0; d1; d1; d1] 9).
  - apply Forall_cons. split; [apply d0_wf|]. repeat (apply Forall_cons; split; [apply d1_wf|]). apply Forall_nil. done.
  - apply (bool_decide_unpack _). vm_compute. exact I.
  - discriminate.
  - vm_compute. reflexivity.
Defined.

Lemma dictScan_terminates_witness :
  exists out, scan_run (replicate (if dictSize d0 =? 0 then 1 else Z.to_nat (2 ^ scan_exp d0)) d0) 0 = Some (0, out) /\
    forall e, e ∈ out <-> e ∈ entries d0.
Proof. apply (dictScan_terminates ty0 d0), d0_wf. Defined.

End DictScan.
