(* ===== verification/DictIter.v ===== *)
(** * Iterators of dictionaries

    An iterator over a dictionary that is not changed meanwhile returns every
    entry once, in the order of the tables and their buckets. *)

From stdpp Require Import gmap.
From S2P Require Import Prelude.
From S2P Require Import Dict.
From S2P Require Import DictSpec.
From S2P Require Import DictMap.
Import Dict DictSpec DictMap.

Module DictIter.

Section Iter.
Context {K V : Type} (ty : dictType K) (haddr : bool -> Z).
Implicit Types d : dict K V.
#[local] Abbreviation iterator := (@dictIterator K V).

Lemma fingerprint_pause d : dictFingerprint haddr (dictPauseRehashing d) = dictFingerprint haddr d.
Proof. destruct d. unfold dictFingerprint, dictPauseRehashing, set_pauserehash, ht_size_exp. cbn [ht_used0 ht_used1 ht_size_exp0 ht_size_exp1]. reflexivity. Qed.

#[local] Opaque dictFingerprint.

(** What is left to return. *)
Definition rest d (it : iterator) : list (K * V) :=
  tail (it_entry it) ++ concat (drop (Z.to_nat (it_index it + 1)) (ht_table d (it_table it))) ++
  (if it_table it then [] else concat (ht_table1 d)).

(** The sizes of the tables are those of their exponents. *)
Definition sizes_ok d : Prop :=
  (forall t, DICTHT_SIZE (ht_size_exp d t) = Zlen (ht_table d t)) /\
  (dictIsRehashing d = false -> ht_table1 d = []) /\ (dictIsRehashing d = true -> ht_table1 d <> []).

Definition it_ok d (it : iterator) : Prop :=
  -1 <= it_index it <= Zlen (ht_table d (it_table it)) /\ (it_entry it <> [] -> it_nextEntry it = tail (it_entry it) /\ 0 <= it_index it < Zlen (ht_table d (it_table it))) /\
  (it_table it = true -> 0 <= it_index it).

(** An iterator in use that is not safe has the fingerprint. *)
Definition started d (it : iterator) : Prop := it_safe it = false -> it_fingerprint it = dictFingerprint haddr d.
Definition fp_ok d (it : iterator) : Prop := (it_index it =? -1) && negb (it_table it) = false -> started d it.

Lemma started_ok d it it' :
  it_safe it' = it_safe it -> it_fingerprint it' = it_fingerprint it -> started d it -> fp_ok d it'.
Proof. unfold fp_ok, started. intros -> ->. by intros H _. Qed.

Lemma started_safe d it : it_safe it = true -> started d it.
Proof. unfold started. by intros ->. Qed.

Lemma started_fp d it : it_fingerprint it = dictFingerprint haddr d -> started d it.
Proof. unfold started. intros H _. exact H. Qed.

#[local] Opaque started.

Lemma wf_sizes d : wf ty d -> sizes_ok d.
Proof.
  assert (Ht : forall exp (tb : list (list (K * V))), table_ok ty exp tb -> DICTHT_SIZE exp = Zlen tb /\ tb <> []).
  { intros exp tb (He & Hl & _). rewrite dict_size by lia. split; [done|]. intros ->. cbn in Hl.
    pose proof (Z.pow_pos_nonneg 2 exp). lia. }
  intros (_ & _ & [[(H0 & H1 & _) Hre]|[(H0 & H1 & H2 & _) Hre]]); unfold sizes_ok; rewrite Hre.
  - split; [|split; [done|intros _; by eapply Ht]]. intros [|]; by apply Ht.
  - split; [|done]. intros [|]; unfold ht_size_exp, ht_table; [by rewrite H1, H2|].
    destruct H0 as [[-> ->]|H0]; [done|by apply Ht].
Qed.

(** Rounds of the loop until the next entry, at most. *)
Definition rounds d (it : iterator) : nat :=
  ((match it_entry it with [] => 0 | _ => 1 end) + (length (ht_table d (it_table it)) - Z.to_nat (it_index it + 1)) + 1 +
   (if it_table it then 0 else S (length (ht_table1 d))))%nat.

Definition advanced d (it : iterator) (res : option (option (K * V) * dict K V * iterator)) : Prop :=
  exists r d' it', res = Some (r, d', it') /\
    d' = (if (it_index it =? -1) && negb (it_table it) && it_safe it then dictPauseRehashing d else d) /\
    0 <= it_index it' /\ it_safe it' = it_safe it /\ fp_ok d' it' /\
    match rest d it with
    | [] => r = None
    | e :: R => r = Some e /\ it_ok d' it' /\ rest d' it' = R
    end.

(** The end of a round that goes to the bucket [entry]. *)
Lemma set_entry_spec d it index table entry fuel :
  started d it -> 0 <= index < Zlen (ht_table d table) ->
  rest d it = entry ++ concat (drop (Z.to_nat (index + 1)) (ht_table d table)) ++ (if table then [] else concat (ht_table1 d)) ->
  (forall it', it_ok d it' -> it_index it' = index -> it_table it' = table -> it_entry it' = [] ->
     fp_ok d it' -> rest d it' = rest d it -> advanced d it' (next_loop haddr fuel d it')) ->
  exists r d' it',
    (let '(r, it') := set_entry it index table entry in
     match r with Some e => Some (Some e, d, it') | None => next_loop haddr fuel d it' end) = Some (r, d', it') /\
    d' = d /\ 0 <= it_index it' /\ it_safe it' = it_safe it /\ fp_ok d' it' /\
    match rest d it with [] => r = None | e :: R => r = Some e /\ it_ok d' it' /\ rest d' it' = R end.
Proof.
  intros Hfp Hi Hr Hrec. destruct entry as [|e next]; cbn [set_entry].
  - match goal with |- context [next_loop _ _ _ ?i] => set (it' := i) end.
    assert (Hr' : rest d it' = rest d it) by (rewrite Hr; done).
    destruct (Hrec it') as (r & d' & it2 & Hn & Hd & Hm); [|done|done|done|by intros _|done|].
    { split; [cbn; lia|]. split; [done|cbn; lia]. }
    exists r, d', it2. split; [done|]. rewrite <- Hr'. split; [|done]. rewrite Hd. cbn.
    by rewrite (proj2 (Z.eqb_neq _ _)) by lia.
  - eexists _, d, _. split; [done|]. split; [done|]. split; [cbn; lia|]. split; [done|]. split; [by apply (started_ok d it)|]. rewrite Hr. cbn [app]. split; [done|].
    split; [split; [cbn; lia|split; [done|cbn; lia]]|done].
Qed.

Lemma rest_end d it :
  it_entry it = [] -> Zlen (ht_table d (it_table it)) <= it_index it + 1 -> rest d it = if it_table it then [] else concat (ht_table1 d).
Proof. intros He Hle. unfold rest. rewrite He, drop_ge by lia. done. Qed.

Lemma rest_bucket d it :
  it_entry it = [] -> 0 <= it_index it + 1 < Zlen (ht_table d (it_table it)) ->
  exists b, get_bucket (ht_table d (it_table it)) (it_index it + 1) = Some b /\
    rest d it = b ++ concat (drop (Z.to_nat (it_index it + 1 + 1)) (ht_table d (it_table it))) ++
                (if it_table it then [] else concat (ht_table1 d)).
Proof.
  intros He Hi. destruct (lookup_lt_is_Some_2 (ht_table d (it_table it)) (Z.to_nat (it_index it + 1))) as [b Hb]; [lia|].
  exists b. unfold get_bucket, rest. rewrite (proj2 (Z.leb_le _ _)), Hb, He by lia. split; [done|].
  rewrite (drop_S _ b) by done. replace (Z.to_nat (it_index it + 1 + 1)) with (S (Z.to_nat (it_index it + 1))) by lia.
  cbn. by rewrite <- app_assoc.
Qed.

(** Starting changes neither the entries nor the position. *)
Lemma start_spec d it :
  it_entry it = [] -> fp_ok d it ->
  exists dp it', start_iterator haddr d it = (dp, it') /\
    dp = (if (it_index it =? -1) && negb (it_table it) && it_safe it then dictPauseRehashing d else d) /\
    it_index it' = it_index it /\ it_table it' = it_table it /\ it_safe it' = it_safe it /\ it_entry it' = [] /\
    started dp it' /\
    (sizes_ok dp <-> sizes_ok d) /\ (forall it, rest dp it = rest d it) /\ (forall it, it_ok dp it <-> it_ok d it) /\
    (forall it, rounds dp it = rounds d it) /\ (forall t, ht_table dp t = ht_table d t) /\ dictIsRehashing dp = dictIsRehashing d /\
    ht_table1 dp = ht_table1 d.
Proof.
  intros He Hfp. unfold start_iterator. unfold fp_ok in Hfp. destruct (_ && negb _) eqn:Hst; [destruct (it_safe it) eqn:Hs|]; cbn [andb].
  1,3: eexists _, it; do 6 (split; [done|]); (split; [by apply started_safe + by apply Hfp|done]).
  eexists _, _. do 6 (split; [done|]). split; [by apply started_fp|done].
Qed.

Lemma next_loop_spec fuel : forall d it,
  sizes_ok d -> it_ok d it -> fp_ok d it -> (rounds d it <= fuel)%nat -> advanced d it (next_loop haddr fuel d it).
Proof.
  induction fuel as [|fuel IH]; intros d it Hsz Hok Hfp Hf; [unfold rounds in Hf; lia|]. cbn [next_loop].
  destruct (Hok) as (Hi & Hn & Ht). destruct (it_entry it) as [|e0 c] eqn:He.
  - destruct (start_spec d it He Hfp) as (dp & is' & -> & Hdp & Hii & Hti & Hsi & Hei & Hfi & Hsame).
    rewrite Hii, Hti.
    destruct (Hsame) as (Hsz' & Hrp & Hokp & Hrop & Htp & Hre & Ht1). pose proof (proj2 Hsz' Hsz) as Hszp.
    assert (Hgo : forall index table entry, 0 <= index < Zlen (ht_table d table) -> (table = it_table it -> index = it_index it + 1) ->
      (it_table it = true -> table = true) -> (table <> it_table it -> index = 0 /\ Zlen (ht_table d (it_table it)) <= it_index it + 1) ->
      rest d it = entry ++ concat (drop (Z.to_nat (index + 1)) (ht_table d table)) ++ (if table then [] else concat (ht_table1 d)) ->
      advanced d it (let '(r, it') := set_entry is' index table entry in
        match r with Some e => Some (Some e, dp, it') | None => next_loop haddr fuel dp it' end)).
    { intros index table entry Hidx Heq Htt Hneq Hr.
      assert (Hris : rest dp is' = rest d it) by (rewrite Hrp; unfold rest; by rewrite Hei, He, Hii, Hti).
      destruct (set_entry_spec dp is' index table entry fuel) as (r & d' & it' & -> & -> & Hi' & Hs' & Hm).
      - done.
      - by rewrite Htp.
      - rewrite Hris, Htp, Ht1. exact Hr.
      - intros it' Hok' Hi' Ht' He' Hfp' _. apply IH; [done|done|done|]. unfold rounds in *. rewrite Htp, Ht1, He', Hi', Ht'.
        rewrite He in Hf. destruct (decide (table = it_table it)) as [->|Hne].
        + specialize (Heq eq_refl). destruct (it_table it); lia.
        + destruct (Hneq Hne) as [-> Hle]. destruct (it_table it); [by rewrite Htt in Hne|]. destruct table; [|done].
          change (ht_table d true) with (ht_table1 d) in *. lia.
      - exists r, dp, it'. split; [done|]. split; [done|]. rewrite Hris in Hm. split; [done|]. by rewrite Hs'. }
    destruct Hszp as (Hs & Hs1 & Hs2). rewrite Hs, Htp. destruct (Z.leb_spec (Zlen (ht_table d (it_table it))) (it_index it + 1)) as [Hle|Hlt].
    + pose proof (rest_end d it He Hle) as Hend.
      rewrite Hre. destruct Hsz as (_ & Hsz1 & Hsz2). destruct (dictIsRehashing d) eqn:Hreh, (it_table it) eqn:Htb; cbn [andb negb].
      1,3,4: eexists None, dp, _; split; [done|]; split; [by rewrite Htb|]; split; [cbn; lia|]; split; [done|]; split; [by apply (started_ok _ is')|];
        rewrite Hend; by rewrite ?Hsz1.
      rewrite (Htp true). cbn [ht_table]. specialize (Hgo 0 true). cbn [ht_table] in Hgo.
      destruct (ht_table1 d) as [|b tl] eqn:Hd1; [by destruct (Hsz2 eq_refl)|].
      change (get_bucket (b :: tl) 0) with (Some b). cbn [mbind option_bind]. apply Hgo; cbn [length]; try done; try lia.
      rewrite Hend. cbn. by rewrite app_nil_r.
    + destruct (rest_bucket d it He ltac:(lia)) as (b & -> & Hr). cbn [mbind option_bind]. by apply Hgo; [lia|..].
  - destruct (Hn ltac:(done)) as [Hnx Hidx]. rewrite Hnx. cbn [tail].
    destruct (set_entry_spec d it (it_index it) (it_table it) c fuel) as (r & d' & it' & -> & -> & Hm); [|done| | |].
    + apply Hfp. by rewrite (proj2 (Z.eqb_neq _ _)) by lia.
    + unfold rest. by rewrite He.
    + intros it' Hok' Hi' Ht' He' Hfp' _. apply IH; [done|done|done|]. unfold rounds in *. rewrite He', Hi', Ht'. rewrite He in Hf. lia.
    + exists r, d, it'. split; [done|]. rewrite (proj2 (Z.eqb_neq _ _)) by lia. done.
Qed.

Lemma dictNext_spec d it : sizes_ok d -> it_ok d it -> fp_ok d it -> advanced d it (dictNext haddr d it).
Proof.
  intros Hsz Hok Hfp. apply next_loop_spec; [done|done|done|].
  unfold rounds. destruct (it_entry it), (it_table it); unfold ht_table; lia.
Qed.

(** [while ((de = dictNext(iter)) != NULL)]: the entries in order. *)
Fixpoint iterate (fuel : nat) d (it : iterator) : option (list (K * V) * dict K V * iterator) :=
  match fuel with
  | O => None
  | S fuel =>
      '(r, d, it) ← dictNext haddr d it;
      match r with
      | None => Some ([], d, it)
      | Some e => '(es, d, it) ← iterate fuel d it; Some (e :: es, d, it)
      end
  end.

Lemma iterate_spec d : sizes_ok d -> forall R it fuel,
  it_ok d it -> fp_ok d it -> 0 <= it_index it -> rest d it = R -> (length R < fuel)%nat ->
  exists it', iterate fuel d it = Some (R, d, it') /\ 0 <= it_index it' /\ it_safe it' = it_safe it /\ fp_ok d it'.
Proof.
  intros Hsz. induction R as [|e R IH]; intros it fuel Hok Hfp Hi Hr Hf; (destruct fuel as [|fuel]; [cbn in Hf; lia|]); cbn [iterate];
    destruct (dictNext_spec d it Hsz Hok Hfp) as (r & d' & it' & -> & Hd & Hi' & Hsf & Hfp' & Hm); rewrite (proj2 (Z.eqb_neq _ _)) in Hd by lia;
    cbn in Hd; subst d'; rewrite Hr in Hm; cbn [mbind option_bind].
  - rewrite Hm. by exists it'.
  - destruct Hm as (-> & Hok' & Hr'). destruct (IH it' fuel Hok' Hfp' Hi' Hr') as (it2 & -> & Hi2 & Hs2 & Hfp2); [cbn in Hf; lia|].
    exists it2. split; [done|]. by rewrite Hs2.
Qed.

Lemma init_ok d (safe : bool) :
  let it := if safe then dictInitSafeIterator else dictInitIterator in it_ok d it /\ fp_ok d it /\ rest d it = entries d /\ it_safe it = safe.
Proof. destruct safe; (split; [split; [cbn; lia|by split]|]; split; [discriminate|done]). Qed.

Lemma iterate_init d (safe : bool) fuel :
  sizes_ok d -> (length (entries d) < fuel)%nat ->
  exists it', iterate fuel d (if safe then dictInitSafeIterator else dictInitIterator) =
    Some (entries d, if safe then dictPauseRehashing d else d, it') /\ 0 <= it_index it' /\ it_safe it' = safe /\
    fp_ok (if safe then dictPauseRehashing d else d) it'.
Proof.
  intros Hsz Hf. destruct fuel as [|fuel]; [lia|]. cbn [iterate].
  destruct (init_ok d safe) as (Hok & Hfp & Hr & Hsafe). set (it := if safe then _ else _) in *.
  destruct (dictNext_spec d it Hsz Hok Hfp) as (r & d' & it' & -> & Hd & Hi' & Hs' & Hfp' & Hm). cbn [mbind option_bind].
  rewrite Hr in Hm. rewrite Hsafe in Hs'.
  assert (Hd' : d' = if safe then dictPauseRehashing d else d) by (rewrite Hd; unfold it; by destruct safe).
  rewrite <- Hd'. destruct (entries d) as [|e R]; [subst r; by exists it'|]. destruct Hm as (-> & Hok' & Hr').
  assert (Hsz' : sizes_ok d') by (rewrite Hd'; by destruct safe).
  destruct (iterate_spec d' Hsz' R it' fuel Hok' Hfp' Hi' Hr') as (it2 & -> & Hi2 & Hs2 & Hfp2); [cbn in Hf; lia|]. cbn [mbind option_bind].
  exists it2. split; [done|]. by rewrite Hs2.
Qed.

(** Releasing an iterator that is not safe passes the check of the
    fingerprint when the dictionary has not changed. *)
Lemma release_spec d it : fp_ok d it -> it_safe it = false -> dictResetIterator haddr d it = Some d.
Proof.
  intros Hfp Hs. unfold dictResetIterator. destruct (_ && negb _) eqn:Hst; cbn [negb]; [done|]. specialize (Hfp Hst).
  Transparent started. unfold started in Hfp. rewrite Hs, (Hfp Hs), Z.eqb_refl. reflexivity.
Qed.

(** C24: a safe or unsafe iterator over a well-formed dictionary, also while
    it is rehashing, ends and returns every entry exactly once, and resetting
    it passes the check of the fingerprint and leaves the dictionary as it
    was. *)
Theorem dictIterator_complete d (safe : bool) :
  wf ty d ->
  NoDup (entries d).*1 /\
  exists d' it', iterate (S (length (entries d))) d (if safe then dictInitSafeIterator else dictInitIterator) =
    Some (entries d, d', it') /\ dictResetIterator haddr d' it' = Some d.
Proof.
  intros Hwf. destruct (iterate_init d safe (S (length (entries d))) (wf_sizes d Hwf)) as (it' & Hit & Hi & Hs & Hfp); [lia|].
  split; [apply Hwf|]. eexists _, it'. split; [exact Hit|]. destruct safe; [|by apply release_spec].
  unfold dictResetIterator. rewrite Hs, (proj2 (Z.eqb_neq _ _)) by lia. cbn [andb negb].
  f_equal. unfold dictResumeRehashing, dictPauseRehashing, set_pauserehash. destruct d. cbn. f_equal. lia.
Qed.

End Iter.

#[global] Opaque dictFingerprint started fp_ok.

Lemma dictIterator_complete_witness :
  NoDup (entries d0).*1 /\
  exists d' it', iterate (fun _ => 4096) (S (length (entries d0))) d0 dictInitIterator = Some (entries d0, d', it') /\
    dictResetIterator (fun _ => 4096) d' it' = Some d0.
Proof. apply (dictIterator_complete ty0 (fun _ => 4096) d0 false), d0_wf. Defined.

End DictIter.
