(* ===== verification/Keyspace.v ===== *)
(** * The keyspace (src/redis-7.2.4/src/db.c, object.c)

    A database maps keys to objects, and some keys to the time at which they
    expire.  Both maps are the dictionaries of dict.c.  The objects are on a
    heap, because commands change an object through the pointer that a lookup
    returned.  Everything else that a command does to the outside is recorded
    in order: replies to the client, notifications, signals to the watched and
    the blocked keys, deletions that are propagated.

    [None] is a failed assertion or an access to a freed object.  Clusters,
    and the copy of a key whose object is on the stack, are not modelled. *)

From stdpp Require Import gmap.
From S2P Require Import Prelude.
From S2P Require Import NumConv.
From S2P Require Import Dict.
Import NumConv Dict.

Module Keyspace.

Abbreviation sds := (list Z).
Abbreviation addr := nat.

Inductive obj_type := OBJ_STRING | OBJ_LIST | OBJ_SET | OBJ_ZSET | OBJ_HASH | OBJ_MODULE | OBJ_STREAM.

#[export] Instance obj_type_eq : EqDecision obj_type.
Proof. solve_decision. Defined.

(** The replies, in the order in which they are added to the output. *)
Inductive error := WRONGTYPE | SYNTAX | NOKEY | OUTOFRANGE | ARITY | NOTINT | NOTPOSITIVE | RANGE_MSG | RANK_ZERO | COUNT_NEGATIVE | MAXLEN_NEGATIVE | NUMKEYS_MSG | COUNT_MSG | TIMEOUT_MSG | TIMEOUT_RANGE | TIMEOUT_SIGN
  | EXPIRE_TIME | OFFSET_RANGE | STRING_TOO_LONG | INCR_OVERFLOW | DECR_OVERFLOW | LCS_TYPES | LCS_OPTIONS | LCS_TOO_LONG | LCS_LIMIT | LCS_MEMORY.

Inductive reply :=
  | RBulk (s : sds)
  | RLong (z : Z)
  | ROk
  | RNull
  | RNullArray
  | RArrayLen (n : Z)
  | RMapLen (n : Z)
  | RDeferredLen
  | RError (e : error).

Inductive event_name :=
  | e_new | e_keymiss | e_expired | e_del | e_lpush | e_rpush | e_linsert | e_lset | e_lpop | e_rpop | e_ltrim | e_lrem
  | e_set | e_expire | e_persist | e_setrange | e_incrby | e_append.

Inductive event :=
  | Notify (name : event_name) (key : sds)
  | SignalModified (key : sds)
  | KeyReady (key : sds) (ty : obj_type)
  | DeletedReady (key : sds) (ty : obj_type)
  | ModuleUnlink (key : sds)
  | PropagateDeletion (key : sds) (lazy : bool)
  | RememberSlaveKey (key : sds)
  | RewriteCommand (argv : list sds)
  | BlockForKeys (keys : list sds) (timeout : Z).

(** What the code reads of [server] and of the current client. *)
Record environment := {
  loading : bool;
  lazy_expire_disabled : bool;
  masterhost : bool;
  repl_slave_ro : bool;
  client_is_master : bool;
  client_no_touch : bool;
  has_active_child : bool;
  expire_paused : bool;
  lazyfree_lazy_expire : bool;
  lazyfree_lazy_server_del : bool;
  commandTimeSnapshot : Z;
}.

(** The flags of [lookupKey]. *)
Record lookup_flags := { LOOKUP_NOTOUCH : bool; LOOKUP_NONOTIFY : bool; LOOKUP_NOSTATS : bool; LOOKUP_WRITE : bool; LOOKUP_NOEXPIRE : bool }.

Definition LOOKUP_NONE : lookup_flags :=
  {| LOOKUP_NOTOUCH := false; LOOKUP_NONOTIFY := false; LOOKUP_NOSTATS := false; LOOKUP_WRITE := false; LOOKUP_NOEXPIRE := false |}.

(** The flags of [setKey]. *)
Record setkey_flags := { SETKEY_KEEPTTL : bool; SETKEY_NO_SIGNAL : bool; SETKEY_ALREADY_EXIST : bool; SETKEY_DOESNT_EXIST : bool; SETKEY_ADD_OR_UPDATE : bool }.

Class ObjectType (V : Type) := type_of : V -> obj_type.

(** An object: its type, encoding and [ptr], and the time of its last access. *)
Record robj {V : Type} := { ptr : V; lru : Z }.
Arguments robj V : clear implicits.

Record world {V : Type} := {
  w_dict : dict sds addr;
  w_expires : dict sds Z;
  heap : gmap addr (robj V);
  dirty : Z;
  stat_keyspace_hits : Z;
  stat_keyspace_misses : Z;
  stat_expiredkeys : Z;
  events : list event;
  out : list reply;
}.
Arguments world V : clear implicits.

Section World.
Context {V : Type}.

Definition with_dict (d : dict sds addr) (w : world V) : world V :=
  {| w_dict := d; w_expires := w_expires w; heap := heap w; dirty := dirty w; stat_keyspace_hits := stat_keyspace_hits w;
     stat_keyspace_misses := stat_keyspace_misses w; stat_expiredkeys := stat_expiredkeys w; events := events w; out := out w |}.
Definition with_expires (d : dict sds Z) (w : world V) : world V :=
  {| w_dict := w_dict w; w_expires := d; heap := heap w; dirty := dirty w; stat_keyspace_hits := stat_keyspace_hits w;
     stat_keyspace_misses := stat_keyspace_misses w; stat_expiredkeys := stat_expiredkeys w; events := events w; out := out w |}.
Definition with_heap (h : gmap addr (robj V)) (w : world V) : world V :=
  {| w_dict := w_dict w; w_expires := w_expires w; heap := h; dirty := dirty w; stat_keyspace_hits := stat_keyspace_hits w;
     stat_keyspace_misses := stat_keyspace_misses w; stat_expiredkeys := stat_expiredkeys w; events := events w; out := out w |}.
Definition with_dirty (n : Z) (w : world V) : world V :=
  {| w_dict := w_dict w; w_expires := w_expires w; heap := heap w; dirty := n; stat_keyspace_hits := stat_keyspace_hits w;
     stat_keyspace_misses := stat_keyspace_misses w; stat_expiredkeys := stat_expiredkeys w; events := events w; out := out w |}.
Definition with_stats (hits misses expired : Z) (w : world V) : world V :=
  {| w_dict := w_dict w; w_expires := w_expires w; heap := heap w; dirty := dirty w; stat_keyspace_hits := hits;
     stat_keyspace_misses := misses; stat_expiredkeys := expired; events := events w; out := out w |}.
Definition with_events (l : list event) (w : world V) : world V :=
  {| w_dict := w_dict w; w_expires := w_expires w; heap := heap w; dirty := dirty w; stat_keyspace_hits := stat_keyspace_hits w;
     stat_keyspace_misses := stat_keyspace_misses w; stat_expiredkeys := stat_expiredkeys w; events := l; out := out w |}.
Definition with_out (l : list reply) (w : world V) : world V :=
  {| w_dict := w_dict w; w_expires := w_expires w; heap := heap w; dirty := dirty w; stat_keyspace_hits := stat_keyspace_hits w;
     stat_keyspace_misses := stat_keyspace_misses w; stat_expiredkeys := stat_expiredkeys w; events := events w; out := l |}.

(** A command changes the world, or fails. *)
Definition K (A : Type) : Type := world V -> option (A * world V).

#[export] Instance K_ret : MRet K := fun A a w => Some (a, w).
#[export] Instance K_bind : MBind K := fun A B k m w => '(a, w) ← m w; k a w.

Definition lift {A} (o : option A) : K A := fun w => a ← o; Some (a, w).
Definition assert (b : bool) : K unit := lift (assertb b).
Definition when (b : bool) (m : K unit) : K unit := if b then m else mret tt.
Definition gets {A} (f : world V -> A) : K A := fun w => Some (f w, w).
Definition modify (f : world V -> world V) : K unit := fun w => Some (tt, f w).

(** A function of a dictionary. *)
Definition on_dict {A} (f : dict sds addr -> option (A * dict sds addr)) : K A := fun w =>
  '(a, d) ← f (w_dict w); Some (a, with_dict d w).
Definition on_expires {A} (f : dict sds Z -> option (A * dict sds Z)) : K A := fun w =>
  '(a, d) ← f (w_expires w); Some (a, with_expires d w).

Definition addReply (r : reply) : K unit := modify (fun w => with_out (out w ++ [r]) w).
Definition emit (e : event) : K unit := modify (fun w => with_events (events w ++ [e]) w).
Definition add_dirty (n : Z) : K unit := modify (fun w => with_dirty (dirty w + n) w).

(** ** Objects *)

Definition get_obj (a : addr) : K (robj V) := fun w => lift (heap w !! a) w.
Definition read_obj (a : addr) : K V := o ← get_obj a; mret (ptr o).
Definition write_obj (a : addr) (v : V) : K unit :=
  o ← get_obj a; modify (fun w => with_heap (<[a := {| ptr := v; lru := lru o |}]> (heap w)) w).

(** A new object with one reference. *)
Definition createObject (v : V) : K addr := fun w =>
  let a := fresh (dom (heap w)) in Some (a, with_heap (<[a := {| ptr := v; lru := 0 |}]> (heap w)) w).

(** The last reference to an object is released, now or by a thread. *)
Definition free_obj (a : addr) : K unit :=
  get_obj a ;; modify (fun w => with_heap (delete a (heap w)) w).

End World.

Arguments K V A : clear implicits.

Definition notifyKeyspaceEvent {V} (name : event_name) (key : sds) : K V unit := emit (Notify name key).
Definition signalModifiedKey {V} (key : sds) : K V unit := emit (SignalModified key).
Definition signalKeyAsReady {V} (key : sds) (t : obj_type) : K V unit := emit (KeyReady key t).
Definition signalDeletedKeyAsReady {V} (key : sds) (t : obj_type) : K V unit := emit (DeletedReady key t).

Section Keyspace.
Context {V : Type} `{ObjectType V}.
Context (ty : dictType sds) (can : dictResizeEnable) (server : environment).
(** [LRU_CLOCK] or [updateLFU], and [initObjectLRUOrLFU]. *)
Context (access : Z -> Z) (initial_lru : Z).

(** ** Deletion *)

Definition dbGenericDelete (key : sds) (async : bool) : K V bool :=
  de ← on_dict (fun d => dictTwoPhaseUnlinkFind ty can d key);
  match de with
  | None => mret false
  | Some l =>
      d ← gets w_dict;
      '(_, val) ← lift (entry_at d l);
      v ← read_obj val;
      emit (ModuleUnlink key) ;;
      signalDeletedKeyAsReady key (type_of v) ;;
      free_obj val ;;
      n ← gets (fun w => dictSize (w_expires w));
      when (0 <? n) (on_expires (fun d => dictDelete ty can d key) ;; mret tt) ;;
      on_dict (fun d => d ← dictTwoPhaseUnlinkFree d de; Some (tt, d)) ;;
      mret true
  end.

Definition dbSyncDelete (key : sds) : K V bool := dbGenericDelete key false.
Definition dbAsyncDelete (key : sds) : K V bool := dbGenericDelete key true.
Definition dbDelete (key : sds) : K V bool := dbGenericDelete key (lazyfree_lazy_server_del server).

(** ** Expiration *)

Definition removeExpire (key : sds) : K V bool :=
  r ← on_expires (fun d => dictDelete ty can d key);
  mret (match r with DICT_OK => true | DICT_ERR => false end).

(** [client] is false for a null pointer; a client is the current one. *)
Definition setExpire (client : bool) (key : sds) (when_ : Z) : K V unit :=
  kde ← on_dict (fun d => dictFind ty can d key);
  assert (match kde with Some _ => true | None => false end) ;;
  de ← on_expires (fun d => dictAddOrFind ty can d key when_);
  l ← lift de;
  on_expires (fun d => d ← dictSetVal d l when_; Some (tt, d)) ;;
  let writable_slave := masterhost server && negb (repl_slave_ro server) in
  when (client && writable_slave && negb (client_is_master server)) (emit (RememberSlaveKey key)).

(** -1 when the key does not expire. *)
Definition getExpire (key : sds) : K V Z :=
  n ← gets (fun w => dictSize (w_expires w));
  if n =? 0 then mret (-1)
  else
    de ← on_expires (fun d => dictFind ty can d key);
    match de with
    | None => mret (-1)
    | Some l => d ← gets w_expires; '(_, t) ← lift (entry_at d l); mret t
    end.

Definition propagateDeletion (key : sds) (lazy : bool) : K V unit := emit (PropagateDeletion key lazy).

Definition deleteExpiredKeyAndPropagate (key : sds) : K V unit :=
  dbGenericDelete key (lazyfree_lazy_expire server) ;;
  notifyKeyspaceEvent e_expired key ;;
  signalModifiedKey key ;;
  propagateDeletion key (lazyfree_lazy_expire server) ;;
  modify (fun w => with_stats (stat_keyspace_hits w) (stat_keyspace_misses w) (stat_expiredkeys w + 1) w).

Definition keyIsExpired (key : sds) : K V bool :=
  if loading server then mret false
  else
    when_ ← getExpire key;
    if when_ <? 0 then mret false else mret (when_ <? commandTimeSnapshot server).

Definition expireIfNeeded (key : sds) (force_delete avoid_delete : bool) : K V bool :=
  if lazy_expire_disabled server then mret false
  else
    e ← keyIsExpired key;
    if negb e then mret false
    else if masterhost server && client_is_master server then mret false
    else if masterhost server && negb force_delete then mret true
    else if avoid_delete then mret true
    else if expire_paused server then mret true
    else deleteExpiredKeyAndPropagate key ;; mret true.

(** ** Lookup *)

Definition touch (a : addr) (flags : lookup_flags) : K V unit :=
  when (negb (has_active_child server) && negb (LOOKUP_NOTOUCH flags || client_no_touch server))
    (o ← get_obj a; modify (fun w => with_heap (<[a := {| ptr := ptr o; lru := access (lru o) |}]> (heap w)) w)).

(** The address of the object, or the null pointer. *)
Definition lookupKey (key : sds) (flags : lookup_flags) : K V (option addr) :=
  de ← on_dict (fun d => dictFind ty can d key);
  val ← match de with
        | None => mret None
        | Some l =>
            d ← gets w_dict;
            '(_, val) ← lift (entry_at d l);
            let is_ro_replica := masterhost server && repl_slave_ro server in
            e ← expireIfNeeded key (LOOKUP_WRITE flags && negb is_ro_replica) (LOOKUP_NOEXPIRE flags);
            mret (if (e : bool) then None else Some val)
        end;
  let stats := negb (LOOKUP_NOSTATS flags || LOOKUP_WRITE flags) in
  match val with
  | Some a =>
      touch a flags ;;
      when stats (modify (fun w => with_stats (stat_keyspace_hits w + 1) (stat_keyspace_misses w) (stat_expiredkeys w) w))
  | None =>
      when (negb (LOOKUP_NONOTIFY flags || LOOKUP_WRITE flags)) (notifyKeyspaceEvent e_keymiss key) ;;
      when stats (modify (fun w => with_stats (stat_keyspace_hits w) (stat_keyspace_misses w + 1) (stat_expiredkeys w) w))
  end ;;
  mret val.

Definition lookupKeyReadWithFlags (key : sds) (flags : lookup_flags) : K V (option addr) :=
  assert (negb (LOOKUP_WRITE flags)) ;; lookupKey key flags.

Definition lookupKeyRead (key : sds) : K V (option addr) := lookupKeyReadWithFlags key LOOKUP_NONE.

Definition lookupKeyWriteWithFlags (key : sds) (flags : lookup_flags) : K V (option addr) :=
  lookupKey key {| LOOKUP_NOTOUCH := LOOKUP_NOTOUCH flags; LOOKUP_NONOTIFY := LOOKUP_NONOTIFY flags; LOOKUP_NOSTATS := LOOKUP_NOSTATS flags;
                   LOOKUP_WRITE := true; LOOKUP_NOEXPIRE := LOOKUP_NOEXPIRE flags |}.

Definition lookupKeyWrite (key : sds) : K V (option addr) := lookupKeyWriteWithFlags key LOOKUP_NONE.

Definition lookupKeyReadOrReply (key : sds) (r : reply) : K V (option addr) :=
  o ← lookupKeyRead key; when (match o with None => true | Some _ => false end) (addReply r) ;; mret o.

Definition lookupKeyWriteOrReply (key : sds) (r : reply) : K V (option addr) :=
  o ← lookupKeyWrite key; when (match o with None => true | Some _ => false end) (addReply r) ;; mret o.

(** True when the object has another type; a null pointer has every type. *)
Definition checkType (o : option addr) (t : obj_type) : K V bool :=
  match o with
  | None => mret false
  | Some a =>
      v ← read_obj a;
      if bool_decide (type_of v = t) then mret false else addReply (RError WRONGTYPE) ;; mret true
  end.

(** ** Adding *)

(** The new object has the time of access of the old one, which is released. *)
Definition dbSetValue (key : sds) (val : addr) (overwrite : bool) (de : option loc) : K V unit :=
  de ← match de with Some _ => mret de | None => on_dict (fun d => dictFind ty can d key) end;
  assert (match de with Some _ => true | None => false end) ;;
  l ← lift de;
  d ← gets w_dict;
  '(_, old) ← lift (entry_at d l);
  o ← get_obj old;
  v ← read_obj val;
  modify (fun w => with_heap (<[val := {| ptr := v; lru := lru o |}]> (heap w)) w) ;;
  when overwrite (emit (ModuleUnlink key) ;; signalDeletedKeyAsReady key (type_of (ptr o))) ;;
  on_dict (fun d => d ← dictSetVal d l val; Some (tt, d)) ;;
  free_obj old.

Definition dbReplaceValue (key : sds) (val : addr) : K V unit := dbSetValue key val false None.

Definition dbAddInternal (key : sds) (val : addr) (update_if_existing : bool) : K V unit :=
  de ← on_dict (fun d => dictAddRaw ty can d key val);
  match de with
  | inl (Some existing) => assert update_if_existing ;; dbSetValue key val true (Some existing)
  | inl None => lift None
  | inr _ =>
      o ← get_obj val;
      modify (fun w => with_heap (<[val := {| ptr := ptr o; lru := initial_lru |}]> (heap w)) w) ;;
      signalKeyAsReady key (type_of (ptr o)) ;;
      notifyKeyspaceEvent e_new key
  end.

Definition dbAdd (key : sds) (val : addr) : K V unit := dbAddInternal key val false.

(** The object is on the heap of the database when it is stored; until then
    only the client refers to it. *)
Definition setKey (key : sds) (val : V) (flags : setkey_flags) : K V unit :=
  keyfound ←
    (if SETKEY_ALREADY_EXIST flags then mret 1
     else if SETKEY_ADD_OR_UPDATE flags then mret (-1)
     else if negb (SETKEY_DOESNT_EXIST flags) then o ← lookupKeyWrite key; mret (match o with Some _ => 1 | None => 0 end)
     else mret 0);
  val ← createObject val;
  (if keyfound =? 0 then dbAdd key val else if keyfound <? 0 then dbAddInternal key val true else dbSetValue key val true None) ;;
  when (negb (SETKEY_KEEPTTL flags)) (removeExpire key ;; mret tt) ;;
  when (negb (SETKEY_NO_SIGNAL flags)) (signalModifiedKey key).

(** ** Numbers in arguments *)

Definition getLongLongFromObject (s : sds) : option Z := string2ll s.

(** Without a message; a [long] is a [long long]. *)
Definition getLongFromObjectOrReply (s : sds) (msg : option error) : K V (option Z) :=
  match getLongLongFromObject s with
  | Some v => mret (Some v)
  | None => addReply (RError (default NOTINT msg)) ;; mret None
  end.

Definition getRangeLongFromObjectOrReply (s : sds) (min max : Z) (msg : option error) : K V (option Z) :=
  v ← getLongFromObjectOrReply s msg;
  match v with
  | None => mret None
  | Some z => if (z <? min) || (max <? z) then addReply (RError (default RANGE_MSG msg)) ;; mret None else mret (Some z)
  end.

Definition getPositiveLongFromObjectOrReply (s : sds) (msg : option error) : K V (option Z) :=
  getRangeLongFromObjectOrReply s 0 LLONG_MAX (Some (default NOTPOSITIVE msg)).

End Keyspace.

End Keyspace.
