(* ===== verification/KeyspaceSpec.v ===== *)
(** * The keyspace refines a map of keys

    What a database stands for: a map from keys to contents with an optional
    time to expire, and the log of what the commands did to the outside.  The
    functions of db.c keep the two dictionaries and the objects on the heap
    together: every key has its own live object, every object belongs to a
    key, and only keys of the database expire. *)

From stdpp Require Import gmap.
From S2P Require Import Prelude.
From S2P Require Import NumConv.
From S2P Require Import Dict.
From S2P Require Import DictSpec.
From S2P Require Import DictMap.
From S2P Require Import Keyspace.
Import NumConv Dict DictSpec DictMap Keyspace.

Module KsSpec.

(** ** Runs of commands *)

(** The command does not fail and ends in a result and a world with [Q]. *)
Definition runs {V A} (m : K V A) (w : world V) (Q : A -> world V -> Prop) : Prop := exists r w', m w = Some (r, w') /\ Q r w'.

Section Runs.
Context {V : Type}.
Implicit Types (w : world V).

Lemma runs_bind {A B} (m : K V A) (k : A -> K V B) w Q : runs m w (fun r w1 => runs (k r) w1 Q) -> runs (mbind k m) w Q.
Proof. intros (r & w1 & Hm & r' & w' & Hk & HQ). exists r', w'. split; [|done]. unfold mbind, K_bind. by rewrite Hm. Qed.

Lemma runs_ret {A} (r : A) w (Q : A -> world V -> Prop) : Q r w -> runs (mret r) w Q.
Proof. by exists r, w. Qed.

Lemma runs_lift {A} (r : A) o w (Q : A -> world V -> Prop) : o = Some r -> Q r w -> runs (lift o) w Q.
Proof. intros -> HQ. by exists r, w. Qed.

Lemma runs_assert (b : bool) w Q : b = true -> Q tt w -> runs (assert b) w Q.
Proof. intros -> HQ. by exists tt, w. Qed.

Lemma runs_gets {A} (f : world V -> A) w Q : Q (f w) w -> runs (gets f) w Q.
Proof. by exists (f w), w. Qed.

Lemma runs_modify (f : world V -> world V) w Q : Q tt (f w) -> runs (modify f) w Q.
Proof. by exists tt, (f w). Qed.

Lemma runs_mono {A} (m : K V A) w (Q Q' : A -> world V -> Prop) : runs m w Q -> (forall r w1, Q r w1 -> Q' r w1) -> runs m w Q'.
Proof. intros (r & w1 & Hm & HQ) HQ'. exists r, w1. auto. Qed.

Lemma runs_dict {A} (f : dict sds addr -> option (A * dict sds addr)) r d w Q :
  f (w_dict w) = Some (r, d) -> Q r (with_dict d w) -> runs (on_dict f) w Q.
Proof. intros Hf HQ. exists r, (with_dict d w). split; [|done]. unfold on_dict. by rewrite Hf. Qed.

Lemma runs_expires {A} (f : dict sds Z -> option (A * dict sds Z)) r d w Q :
  f (w_expires w) = Some (r, d) -> Q r (with_expires d w) -> runs (on_expires f) w Q.
Proof. intros Hf HQ. exists r, (with_expires d w). split; [|done]. unfold on_expires. by rewrite Hf. Qed.

Lemma runs_get a o w Q : heap w !! a = Some o -> Q o w -> runs (get_obj a) w Q.
Proof. intros Ha HQ. exists o, w. split; [|done]. unfold get_obj, lift. by rewrite Ha. Qed.

Lemma runs_read a o w Q : heap w !! a = Some o -> Q (ptr o) w -> runs (read_obj a) w Q.
Proof. intros Ha HQ. apply runs_bind, (runs_get _ o); [done|]. by apply runs_ret. Qed.

End Runs.

(** ** The abstract state *)

Record log := { l_dirty : Z; l_hits : Z; l_misses : Z; l_expired : Z; l_events : list event; l_out : list reply }.

Definition log_of {V} (w : world V) : log :=
  {| l_dirty := dirty w; l_hits := stat_keyspace_hits w; l_misses := stat_keyspace_misses w; l_expired := stat_expiredkeys w;
     l_events := events w; l_out := out w |}.

Record astate {X : Type} := { store : gmap sds (X * option Z); alog : log }.
Arguments astate X : clear implicits.

(** A command on the abstract state does not fail. *)
Definition A (X R : Type) : Type := astate X -> R * astate X.
#[export] Instance A_ret X : MRet (A X) := fun R r a => (r, a).
#[export] Instance A_bind X : MBind (A X) := fun R S k m a => let '(r, a) := m a in k r a.

Section Abstract.
Context {X : Type}.

Definition on_log (f : log -> log) : A X unit := fun a => (tt, {| store := store a; alog := f (alog a) |}).

Definition reply_ (r : reply) : A X unit := on_log (fun l =>
  {| l_dirty := l_dirty l; l_hits := l_hits l; l_misses := l_misses l; l_expired := l_expired l; l_events := l_events l; l_out := l_out l ++ [r] |}).
Definition event_ (e : event) : A X unit := on_log (fun l =>
  {| l_dirty := l_dirty l; l_hits := l_hits l; l_misses := l_misses l; l_expired := l_expired l; l_events := l_events l ++ [e]; l_out := l_out l |}).
Definition dirty_ (n : Z) : A X unit := on_log (fun l =>
  {| l_dirty := l_dirty l + n; l_hits := l_hits l; l_misses := l_misses l; l_expired := l_expired l; l_events := l_events l; l_out := l_out l |}).
Definition stats_ (hits misses expired : Z) : A X unit := on_log (fun l =>
  {| l_dirty := l_dirty l; l_hits := l_hits l + hits; l_misses := l_misses l + misses; l_expired := l_expired l + expired; l_events := l_events l; l_out := l_out l |}).

Definition on_store (f : gmap sds (X * option Z) -> gmap sds (X * option Z)) : A X unit := fun a => (tt, {| store := f (store a); alog := alog a |}).

(** The content of a key changes, the time to expire does not. *)
Definition put_ (key : sds) (x : X) : A X unit := on_store (alter (fun e => (x, snd e)) key).

End Abstract.

(** What an object of the heap stands for, and the type that its content has. *)
Class Content (V X : Type) `{ObjectType V} := {
  content_type : X -> obj_type;
  val_is : V -> X -> Prop;
  val_type v x : val_is v x -> type_of v = content_type x;
}.

Section AbstractKeyspace.
Context {V X : Type} `{Content V X} (server : environment).

(** The entry of the key is removed. *)
Definition remove_ (key : sds) : A X unit := fun a =>
  match store a !! key with
  | None => (tt, a)
  | Some (x, _) => (event_ (ModuleUnlink key) ;; event_ (DeletedReady key (content_type x)) ;; on_store (delete key)) a
  end.

(** A key that expired is hidden, except from the link to the master. *)
Definition hidden (t : option Z) : bool :=
  negb (lazy_expire_disabled server) && negb (loading server) &&
  match t with Some t => (0 <=? t) && (t <? commandTimeSnapshot server) | None => false end &&
  negb (masterhost server && client_is_master server).

(** Whether a lookup deletes a hidden key: replicas wait for their master. *)
Definition purges (flags : lookup_flags) : bool :=
  (negb (masterhost server) || LOOKUP_WRITE flags && negb (repl_slave_ro server)) && negb (LOOKUP_NOEXPIRE flags) && negb (expire_paused server).

Definition expire_ (key : sds) : A X unit :=
  remove_ key ;;
  event_ (Notify e_expired key) ;;
  event_ (SignalModified key) ;;
  event_ (PropagateDeletion key (lazyfree_lazy_expire server)) ;;
  stats_ 0 0 1.

Definition when_ (b : bool) (m : A X unit) : A X unit := if b then m else mret tt.

Definition counts (flags : lookup_flags) : bool := negb (LOOKUP_NOSTATS flags || LOOKUP_WRITE flags).

Definition miss_ (key : sds) (flags : lookup_flags) : A X unit :=
  when_ (negb (LOOKUP_NONOTIFY flags || LOOKUP_WRITE flags)) (event_ (Notify e_keymiss key)) ;; when_ (counts flags) (stats_ 0 1 0).

Definition lookup_ (key : sds) (flags : lookup_flags) : A X (option X) := fun a =>
  match store a !! key with
  | None => (miss_ key flags ;; mret None) a
  | Some (x, t) =>
      if hidden t then (when_ (purges flags) (expire_ key) ;; miss_ key flags ;; mret None) a
      else (when_ (counts flags) (stats_ 1 0 0) ;; mret (Some x)) a
  end.

(** A new key does not expire. *)
Definition add_ (key : sds) (x : X) : A X unit :=
  on_store (insert key (x, None)) ;; event_ (KeyReady key (content_type x)) ;; event_ (Notify e_new key).

Definition lookup_or_reply (key : sds) (flags : lookup_flags) (r : reply) : A X (option X) :=
  o ← lookup_ key flags; when_ (match o with None => true | Some _ => false end) (reply_ r) ;; mret o.

(** True, with an error, when the content has another type. *)
Definition check_ (o : option X) (t : obj_type) : A X bool :=
  match o with
  | None => mret false
  | Some x => if bool_decide (content_type x = t) then mret false else reply_ (RError WRONGTYPE) ;; mret true
  end.

End AbstractKeyspace.

(** ** The relation *)

Section KsSpec.
Context {V X : Type} `{Content V X}.
Context (ty : dictType sds) `{!DictLaws ty} (can : dictResizeEnable) (server : environment) (access : Z -> Z) (initial_lru : Z).
Implicit Types (w : world V) (a : astate X) (key : sds) (ad : addr).

#[local] Set Default Proof Using "Type*".

Record sim w a : Prop := {
  sim_dict : wf ty (w_dict w);
  sim_expires : wf ty (w_expires w);
  sim_key : forall k,
    match dict_map (w_dict w) !! k with
    | Some ad => exists ob x, heap w !! ad = Some ob /\ val_is (ptr ob) x /\ store a !! k = Some (x, dict_map (w_expires w) !! k)
    | None => store a !! k = None /\ dict_map (w_expires w) !! k = None
    end;
  sim_distinct : forall k1 k2 ad, dict_map (w_dict w) !! k1 = Some ad -> dict_map (w_dict w) !! k2 = Some ad -> k1 = k2;
  sim_heap : forall ad ob, heap w !! ad = Some ob -> exists k, dict_map (w_dict w) !! k = Some ad;
  sim_log : log_of w = alog a;
}.

(** The object of a key. *)
Definition at_obj w key ad (v : V) : Prop :=
  dict_map (w_dict w) !! key = Some ad /\ exists ob, heap w !! ad = Some ob /\ ptr ob = v.

Definition result {R} (m : A X R) (a : astate X) : astate X := (m a).2.

(** Only the log changes. *)
Lemma sim_log_only w w' a (f : log -> log) :
  sim w a -> w_dict w' = w_dict w -> w_expires w' = w_expires w -> heap w' = heap w -> log_of w' = f (log_of w) -> sim w' (result (on_log f) a).
Proof. intros [Hd He Hk Hi Hh Hl] E1 E2 E3 El. split; rewrite ?E1, ?E2, ?E3; try done. cbn. by rewrite El, Hl. Qed.

Lemma sim_relog w w' a a' :
  sim w a -> w_dict w' = w_dict w -> w_expires w' = w_expires w -> heap w' = heap w -> store a' = store a -> log_of w' = alog a' -> sim w' a'.
Proof. intros [Hd He Hk Hi Hh Hl] E1 E2 E3 Es El. split; rewrite ?E1, ?E2, ?E3, ?Es; done. Qed.

Lemma reply_runs r w a Q : sim w a -> (let w1 := with_out (out w ++ [r]) w in sim w1 (result (reply_ r) a) -> Q tt w1) -> runs (addReply r) w Q.
Proof. intros Hs HQ. apply runs_modify, HQ. by apply (sim_log_only w). Qed.

Lemma emit_runs e w a Q : sim w a -> (let w1 := with_events (events w ++ [e]) w in sim w1 (result (event_ e) a) -> Q tt w1) -> runs (emit e) w Q.
Proof. intros Hs HQ. apply runs_modify, HQ. by apply (sim_log_only w). Qed.

Lemma dirty_runs n w a Q : sim w a -> (let w1 := with_dirty (dirty w + n) w in sim w1 (result (dirty_ n) a) -> Q tt w1) -> runs (add_dirty n) w Q.
Proof. intros Hs HQ. apply runs_modify, HQ. by apply (sim_log_only w). Qed.

Lemma sim_stats w a h m e :
  sim w a -> sim (with_stats (stat_keyspace_hits w + h) (stat_keyspace_misses w + m) (stat_expiredkeys w + e) w) (result (stats_ h m e) a).
Proof. intros Hs. by apply (sim_log_only w). Qed.

(** Rehashing keeps the maps. *)
Lemma sim_rehash w a d : sim w a -> wf ty d -> dict_map d = dict_map (w_dict w) -> sim (with_dict d w) a.
Proof. intros [Hd He Hk Hi Hh Hl] Hwf Hm. split; try done; intros *; cbn [w_dict with_dict]; rewrite Hm; [apply Hk|apply Hi|apply Hh]. Qed.

Lemma sim_rehash_expires w a d : sim w a -> wf ty d -> dict_map d = dict_map (w_expires w) -> sim (with_expires d w) a.
Proof. intros [Hd He Hk Hi Hh Hl] Hwf Hm. split; try done. intros k. cbn [w_dict w_expires with_expires heap]. rewrite Hm. apply Hk. Qed.

Lemma store_obj w a key x t : sim w a -> store a !! key = Some (x, t) -> exists ad v, at_obj w key ad v /\ val_is v x /\ dict_map (w_expires w) !! key = t.
Proof.
  intros Hs Hx. pose proof (sim_key _ _ Hs key) as Hk. destruct (dict_map (w_dict w) !! key) as [ad|] eqn:E; [|destruct Hk; congruence].
  destruct Hk as (ob & x' & Ho & Hv & Hst). rewrite Hx in Hst. injection Hst as <- ->. exists ad, (ptr ob). split; [|done]. split; [done|]. by exists ob.
Qed.

Lemma store_none w a key : sim w a -> store a !! key = None <-> dict_map (w_dict w) !! key = None.
Proof.
  intros Hs. pose proof (sim_key _ _ Hs key) as Hk. destruct (dict_map (w_dict w) !! key) as [ad|]; [|by destruct Hk as [-> _]].
  destruct Hk as (ob & x' & _ & _ & ->). done.
Qed.

(** ** Objects *)

(** A new content of the object of a key. *)
Lemma sim_write w a key ad ob x t v l :
  sim w a -> dict_map (w_dict w) !! key = Some ad -> heap w !! ad = Some ob -> store a !! key = Some (x, t) -> forall y, val_is v y ->
  sim (with_heap (<[ad := {| ptr := v; lru := l |}]> (heap w)) w) (result (put_ key y) a).
Proof.
  intros [Hd He Hk Hi Hh Hl] Hkey Had Hst y Hv. split; try done; cbn [w_dict w_expires heap with_heap result put_ on_store store snd].
  - intros k. specialize (Hk k). destruct (decide (k = key)) as [->|Hne].
    + rewrite Hkey in *. destruct Hk as (ob' & x' & _ & _ & Hst'). eexists _, y. rewrite lookup_insert_eq. split; [done|]. split; [done|]. rewrite lookup_alter_eq, Hst'. done.
    + destruct (dict_map (w_dict w) !! k) as [ad'|] eqn:E; rewrite lookup_alter_ne by done; [|done]. assert (ad' <> ad) by (intros ->; by apply Hne, (Hi _ _ ad)). by rewrite lookup_insert_ne.
  - intros ad' ob'. destruct (decide (ad' = ad)) as [->|Hne]; [by exists key|]. rewrite lookup_insert_ne by done. apply Hh.
Qed.

Lemma put_same a key x t : store a !! key = Some (x, t) -> result (put_ key x) a = a.
Proof.
  intros Hk. destruct a as [s l]. unfold result, put_, on_store. cbn in *. f_equal. apply map_eq. intros k. destruct (decide (k = key)) as [->|Hne]; [by rewrite lookup_alter_eq, Hk|by rewrite lookup_alter_ne].
Qed.

Lemma write_runs w a key ad v x t v' x' Q :
  sim w a -> at_obj w key ad v -> store a !! key = Some (x, t) -> val_is v' x' ->
  (forall w1, sim w1 (result (put_ key x') a) -> at_obj w1 key ad v' -> (forall k ad' u, k <> key -> at_obj w k ad' u -> at_obj w1 k ad' u) -> Q tt w1) ->
  runs (write_obj ad v') w Q.
Proof.
  intros Hs [Hkey (ob & Hob & Hv)] Hst Hv' HQ. apply runs_bind, (runs_get _ ob); [done|]. apply runs_modify, HQ; [by eapply sim_write| |].
  - split; [done|]. eexists. cbn [heap with_heap]. by rewrite lookup_insert_eq.
  - intros k ad' u Hne [Hk' (ob' & Hob' & Hu)]. split; [done|]. exists ob'. cbn [heap with_heap]. rewrite lookup_insert_ne; [done|]. intros ->. by apply Hne, (sim_distinct _ _ Hs _ _ ad').
Qed.

(** ** Deletion *)

Lemma remove_eq a key x t : store a !! key = Some (x, t) ->
  result (remove_ key) a = {| store := delete key (store a); alog := alog (result (event_ (DeletedReady key (content_type x))) (result (event_ (ModuleUnlink key)) a)) |}.
Proof. intros Hk. unfold result, remove_. by rewrite Hk. Qed.

Lemma delete_runs w a key async x t Q :
  sim w a -> store a !! key = Some (x, t) ->
  (forall w1, sim w1 (result (remove_ key) a) -> (forall k ad u, k <> key -> at_obj w k ad u -> at_obj w1 k ad u) -> Q true w1) ->
  runs (dbGenericDelete ty can key async) w Q.
Proof.
  intros Hs Hst HQ. destruct (store_obj _ _ _ _ _ Hs Hst) as (ad & v & [Had (ob & Hob & Hv)] & Hx & _). pose proof Hs as [Hd He Hk Hi Hh Hl].
  destruct (twoPhaseUnlink_spec ty can (w_dict w) key Hd) as (l & d1 & d2 & Hfind & Hl1 & Hfree & Hwf2 & Hm2 & _). rewrite Had in Hl1. cbn in Hl1.
  destruct l as [l|]; [|done]. cbn [mbind option_bind] in Hl1. apply runs_bind, (runs_dict _ _ _ _ _ Hfind), runs_bind, runs_gets, runs_bind, (runs_lift (key, ad)); [done|].
  apply runs_bind, (runs_read _ ob); [done|]. apply runs_bind, runs_modify, runs_bind, runs_modify, runs_bind, runs_bind, (runs_get _ ob); [done|].
  apply runs_modify, runs_bind, runs_gets. destruct (dictGenericDelete_spec ty can (w_expires w) key He) as (e2 & Hdel & Hwe & Hme).
  assert (Hfin : forall e, wf ty e -> dict_map e = delete key (dict_map (w_expires w)) -> runs (on_dict (fun d => d ← dictTwoPhaseUnlinkFree d (Some l); Some (tt, d)) ;; mret true)
    (with_expires e (with_heap (delete ad (heap w)) (with_events ((events w ++ [ModuleUnlink key]) ++ [DeletedReady key (type_of (ptr ob))]) (with_dict d1 w)))) Q).
  { intros e Hwe' Hme'. apply runs_bind, (runs_dict _ tt d2); [cbn [w_dict with_dict with_events with_heap with_expires]; by rewrite Hfree|]. apply runs_ret, HQ.
    - rewrite (remove_eq _ _ _ _ Hst). split; try done; cbn [w_dict with_dict with_events with_heap with_expires heap w_expires store].
      + intros k. rewrite Hm2, Hme'. destruct (decide (k = key)) as [->|Hne]; [by rewrite !lookup_delete_eq|]. rewrite !lookup_delete_ne by done. specialize (Hk k).
        destruct (dict_map (w_dict w) !! k) as [ad'|] eqn:E; [|done]. rewrite lookup_delete_ne; [done|]. intros ->. by apply Hne, (Hi _ _ ad').
      + intros k1 k2 ad'. rewrite Hm2. intros [? ?]%lookup_delete_Some [? ?]%lookup_delete_Some. by apply (Hi _ _ ad').
      + intros ad' ob' [Hne Ho]%lookup_delete_Some. destruct (Hh _ _ Ho) as (k & Hk'). exists k. rewrite Hm2, lookup_delete_ne; [done|]. intros <-. congruence.
      + subst v. rewrite (val_type _ _ Hx). cbn. by rewrite <- Hl.
    - intros k ad' u Hne [Hk' (ob' & Hob' & Hu)]. split; cbn [w_dict with_dict with_expires with_heap heap]; [by rewrite Hm2, lookup_delete_ne|]. exists ob'. rewrite lookup_delete_ne; [done|]. intros ->. by apply Hne, (Hi _ _ ad'). }
  cbn [w_expires with_heap with_events with_dict]. apply runs_bind. destruct (Z.ltb_spec 0 (dictSize (w_expires w))) as [Hz|Hz]; cbn [when].
  - apply runs_bind, (runs_expires _ (match dict_map (w_expires w) !! key with Some _ => DICT_OK | None => DICT_ERR end) e2); [|apply runs_ret; by apply Hfin].
    cbn [w_expires with_heap with_events with_dict]. unfold dictDelete. rewrite Hdel. cbn [mbind option_bind]. by destruct (dict_map (w_expires w) !! key).
  - apply runs_ret. apply (Hfin (w_expires w) He). rewrite delete_id; [done|]. apply (dictSize_zero ty _ key He). pose proof (dictSize_map ty _ He). lia.
Qed.

(** ** Expiration *)

Definition expire_time (t : option Z) : Z := default (-1) t.

Lemma getExpire_runs w a key Q :
  sim w a -> (forall d, let w1 := with_expires d w in sim w1 a -> Q (expire_time (dict_map (w_expires w) !! key)) w1) -> runs (getExpire ty can key) w Q.
Proof.
  intros Hs HQ. pose proof (sim_expires _ _ Hs) as He. apply runs_bind, runs_gets. destruct (dictSize (w_expires w) =? 0) eqn:Ez.
  { rewrite (dictSize_zero ty _ key He Ez) in HQ. apply runs_ret. specialize (HQ (w_expires w)). destruct w. by apply HQ. }
  destruct (dictFind_spec ty can (w_expires w) key He) as (l & d' & Hf & Hwf & Hm & Hl). apply runs_bind, (runs_expires _ _ _ _ _ Hf).
  assert (Hs' : sim (with_expires d' w) a) by by apply sim_rehash_expires. specialize (HQ d' Hs').
  destruct l as [l|]; [|rewrite Hl in HQ; by apply runs_ret]. destruct Hl as (t & He' & Hk). rewrite Hk in HQ.
  apply runs_bind, runs_gets, runs_bind, (runs_lift (key, t)); [done|]. by apply runs_ret.
Qed.

Definition expired_at (t : option Z) : bool :=
  negb (loading server) && match t with Some t => (0 <=? t) && (t <? commandTimeSnapshot server) | None => false end.

Lemma keyIsExpired_runs w a key Q :
  sim w a -> (forall d, let w1 := with_expires d w in sim w1 a -> Q (expired_at (dict_map (w_expires w) !! key)) w1) -> runs (keyIsExpired ty can server key) w Q.
Proof.
  intros Hs HQ. unfold keyIsExpired, expired_at in *. destruct (loading server); cbn [negb andb] in HQ.
  { apply runs_ret. specialize (HQ (w_expires w)). destruct w. by apply HQ. }
  apply runs_bind, (getExpire_runs w a); [done|]. intros d w1 Hs1. specialize (HQ d Hs1). unfold expire_time. destruct (dict_map (w_expires w) !! key) as [t|]; cbn [default from_option id].
  - destruct (Z.leb_spec 0 t), (Z.ltb_spec t 0); try lia; apply runs_ret; exact HQ.
  - apply runs_ret. exact HQ.
Qed.

Lemma expire_runs w a key x t Q :
  sim w a -> store a !! key = Some (x, t) ->
  (forall w1, sim w1 (result (expire_ server key) a) -> (forall k ad u, k <> key -> at_obj w k ad u -> at_obj w1 k ad u) -> Q tt w1) ->
  runs (deleteExpiredKeyAndPropagate ty can server key) w Q.
Proof.
  intros Hs Hst HQ. apply runs_bind, (delete_runs w a key _ x t); [done..|]. intros w1 Hs1 Hfr.
  apply runs_bind, (emit_runs _ _ _ _ Hs1). intros w2 Hs2. apply runs_bind, (emit_runs _ _ _ _ Hs2). intros w3 Hs3. apply runs_bind, (emit_runs _ _ _ _ Hs3). intros w4 Hs4.
  apply runs_modify. pose proof (sim_stats _ _ 0 0 1 Hs4) as Hs5. rewrite !Z.add_0_r in Hs5. apply HQ; [|exact Hfr].
  unfold result, expire_, mbind, A_bind in *. destruct (remove_ key a) as [[] a1]. exact Hs5.
Qed.

Lemma expireIfNeeded_runs w a key x t flags Q :
  sim w a -> store a !! key = Some (x, t) ->
  (forall w1, sim w1 (if hidden server t && purges server flags then result (expire_ server key) a else a) ->
     (forall k ad u, k <> key \/ hidden server t && purges server flags = false -> at_obj w k ad u -> at_obj w1 k ad u) -> Q (hidden server t) w1) ->
  runs (expireIfNeeded ty can server key (LOOKUP_WRITE flags && negb (masterhost server && repl_slave_ro server)) (LOOKUP_NOEXPIRE flags)) w Q.
Proof.
  intros Hs Hst HQ. destruct (store_obj _ _ _ _ _ Hs Hst) as (ad & v & Hat & Hv & Ht). unfold expireIfNeeded, hidden, purges in *. destruct (lazy_expire_disabled server); cbn [negb andb] in *.
  { apply runs_ret, HQ; [done|]. by intros. }
  apply runs_bind, (keyIsExpired_runs w a); [done|]. rewrite Ht. intros d w1 Hs1. fold (expired_at t) in *. destruct (expired_at t); cbn [negb andb] in *; [|apply runs_ret, HQ; [done|by intros]].
  destruct (masterhost server), (client_is_master server), (LOOKUP_WRITE flags), (repl_slave_ro server), (LOOKUP_NOEXPIRE flags), (expire_paused server); cbn [negb andb orb] in *;
    try (by apply runs_ret, HQ; [done|by intros]).
  all: apply runs_bind, (expire_runs w1 a key x t); [done..|]; intros w2 Hs2 Hfr; apply runs_ret, HQ; [done|]; intros k ad' u [Hne|?] Hk; [|done]; apply Hfr; [done|]; exact Hk.
Qed.

(** ** Lookup *)

Lemma touch_runs w a key ad v flags Q :
  sim w a -> at_obj w key ad v ->
  (forall w1, sim w1 a -> (forall k ad' u, at_obj w k ad' u -> at_obj w1 k ad' u) -> Q tt w1) -> runs (touch server access ad flags) w Q.
Proof.
  intros Hs [Hkey (ob & Hob & Hv)] HQ. unfold touch, when. destruct (_ && _); [|apply runs_ret, HQ; [done|by intros]].
  apply runs_bind, (runs_get _ ob); [done|]. apply runs_modify, HQ.
  - pose proof (sim_key _ _ Hs key) as Hk. rewrite Hkey in Hk. destruct Hk as (ob' & x & Hob' & Hx & Hst). rewrite Hob in Hob'. injection Hob' as <-.
    pose proof (sim_write w a key ad ob x _ (ptr ob) (access (lru ob)) Hs Hkey Hob Hst x Hx) as Hs'. by rewrite (put_same _ _ _ _ Hst) in Hs'.
  - intros k ad' u [Hk' (ob' & Hob' & Hu)]. split; [done|]. cbn [heap with_heap]. destruct (decide (ad' = ad)) as [->|Hne].
    + eexists. rewrite lookup_insert_eq. split; [done|]. rewrite Hob in Hob'. by injection Hob' as <-.
    + exists ob'. by rewrite lookup_insert_ne.
Qed.

Lemma miss_runs w a key flags Q :
  sim w a ->
  (forall w1, sim w1 (result (miss_ key flags) a) -> w_dict w1 = w_dict w -> heap w1 = heap w -> Q tt w1) ->
  runs (when (negb (LOOKUP_NONOTIFY flags || LOOKUP_WRITE flags)) (notifyKeyspaceEvent e_keymiss key) ;;
    when (counts flags) (modify (fun w => with_stats (stat_keyspace_hits w) (stat_keyspace_misses w + 1) (stat_expiredkeys w) w))) w Q.
Proof.
  intros Hs HQ. unfold miss_, when, when_ in *.
  assert (Hst : forall w1 a1, sim w1 a1 -> sim (with_stats (stat_keyspace_hits w1) (stat_keyspace_misses w1 + 1) (stat_expiredkeys w1) w1) (result (stats_ 0 1 0) a1)).
  { intros w1 a1 Hs1. pose proof (sim_stats _ _ 0 1 0 Hs1) as Hs3. by rewrite !Z.add_0_r in Hs3. }
  destruct (negb (LOOKUP_NONOTIFY flags || _)), (counts flags); apply runs_bind.
  - apply (emit_runs _ _ _ _ Hs). intros w2 Hs2. apply runs_modify, HQ; [by apply Hst|done..].
  - apply (emit_runs _ _ _ _ Hs). intros w2 Hs2. by apply runs_ret, HQ.
  - apply runs_ret, runs_modify, HQ; [by apply Hst|done..].
  - by apply runs_ret, runs_ret, HQ.
Qed.

(** The pointer that a lookup returned is the object of the content that was looked up. *)
Definition looked_up w a key (r : option addr) (x : option X) : Prop :=
  match r, x with
  | Some ad, Some x => exists v t, at_obj w key ad v /\ val_is v x /\ store a !! key = Some (x, t)
  | None, None => True
  | _, _ => False
  end.

Lemma lookupKey_runs w a key flags Q :
  sim w a ->
  (forall r w1, sim w1 (result (lookup_ server key flags) a) -> looked_up w1 (result (lookup_ server key flags) a) key r (lookup_ server key flags a).1 ->
     (forall k ad u, k <> key \/ r <> None -> at_obj w k ad u -> at_obj w1 k ad u) -> Q r w1) ->
  runs (lookupKey ty can server access key flags) w Q.
Proof.
  intros Hs HQ. destruct (dictFind_spec ty can (w_dict w) key (sim_dict _ _ Hs)) as (l & d' & Hf & Hwf & Hm & Hl).
  apply runs_bind, (runs_dict _ _ _ _ _ Hf). assert (Hs' : sim (with_dict d' w) a) by by apply sim_rehash.
  assert (Hfr' : forall k ad u, at_obj w k ad u -> at_obj (with_dict d' w) k ad u) by (intros k ad u [? ?]; split; [by cbn; rewrite Hm|done]).
  destruct l as [l|].
  2: { assert (Hn : store a !! key = None) by by apply (store_none _ _ _ Hs). unfold lookup_ in HQ. unfold result in HQ. rewrite Hn in HQ.
    apply runs_bind, runs_ret, runs_bind, (miss_runs _ _ _ _ _ Hs'). intros w1 Hs1 Hd1 Hh1. unfold result, mbind, A_bind in *. destruct (miss_ key flags a) as [[] a1]. apply runs_ret, HQ; [done|done|].
    intros k ad u _ Hk. apply Hfr' in Hk. unfold at_obj in *. by rewrite Hd1, Hh1. }
  destruct Hl as (ad & He & Hk). pose proof (sim_key _ _ Hs key) as Hst. rewrite Hk in Hst. destruct Hst as (ob & x & Hob & Hx & Hst). set (t := dict_map (w_expires w) !! key) in *. clearbody t.
  unfold lookup_ in HQ. unfold result in HQ. rewrite Hst in HQ.
  apply runs_bind, runs_bind, runs_gets, runs_bind, (runs_lift (key, ad)); [done|]. apply runs_bind, (expireIfNeeded_runs _ a key x t flags _ Hs' Hst). intros w1 Hs1 Hfr1. apply runs_ret.
  destruct (hidden server t); cbn [andb] in *.
  - apply runs_bind, (miss_runs _ _ _ _ _ Hs1). intros w2 Hs2 Hd2 Hh2. apply runs_ret. unfold result, mbind, A_bind, when_ in *.
    assert (Hfr2 : forall k ad u, k <> key -> at_obj w k ad u -> at_obj w2 k ad u).
    { intros k ad' u Hne Hk'%Hfr'. specialize (Hfr1 k ad' u (or_introl Hne) Hk'). unfold at_obj in *. by rewrite Hd2, Hh2. }
    destruct (purges server flags); [destruct (expire_ server key a) as [[] a1]|]; cbn [mret A_ret snd] in *; destruct (miss_ key flags _) as [[] a2]; (apply HQ; [done|done|]; intros k ad' u [?|?]; [by apply Hfr2|done]).
  - assert (Hat : at_obj w1 key ad (ptr ob)) by (apply Hfr1; [by right|]; apply Hfr'; split; [done|by exists ob]).
    apply runs_bind, runs_bind, (touch_runs w1 a key ad (ptr ob) flags _ Hs1 Hat). intros w2 Hs2 Hfr2. unfold when, when_, counts in *.
    destruct (negb (_ || _)); [apply runs_modify; pose proof (sim_stats _ _ 1 0 0 Hs2) as Hs3; rewrite !Z.add_0_r in Hs3|apply runs_ret]; apply runs_ret, HQ; try done.
    all: try (exists (ptr ob), t; split; [by apply Hfr2|done]).
    all: intros k ad' u _ Hk'; apply Hfr2, Hfr1; [by right|by apply Hfr'].
Qed.

Lemma or_reply_runs w a key flags rep Q :
  sim w a ->
  (forall r w1, let m := lookup_or_reply server key flags rep in sim w1 (result m a) -> looked_up w1 (result m a) key r (m a).1 ->
     (forall k ad u, k <> key \/ r <> None -> at_obj w k ad u -> at_obj w1 k ad u) -> Q r w1) ->
  runs (o ← lookupKey ty can server access key flags; when (match o with None => true | Some _ => false end) (addReply rep) ;; mret o) w Q.
Proof.
  intros Hs HQ. apply runs_bind, (lookupKey_runs w a key flags); [done|]. intros r w1 Hs1 Hr Hfr. unfold lookup_or_reply, result, mbind, A_bind in *.
  destruct (lookup_ server key flags a) as [x a1]. cbn [fst snd] in *. destruct r as [ad|], x as [x|]; cbn [looked_up when when_] in *; try done.
  - apply runs_bind, runs_ret, runs_ret. by apply HQ.
  - apply runs_bind, (reply_runs _ _ _ _ Hs1). intros w2 Hs2. apply runs_ret. by apply HQ.
Qed.

Lemma check_runs w a key r x t Q :
  sim w a -> looked_up w a key r x ->
  (forall w1, sim w1 (result (check_ x t) a) -> w_dict w1 = w_dict w -> heap w1 = heap w -> Q (check_ x t a).1 w1) -> runs (checkType r t) w Q.
Proof.
  intros Hs Hr HQ. destruct r as [ad|], x as [x|]; cbn [looked_up] in Hr; try done; [|by apply runs_ret, HQ].
  destruct Hr as (v & te & (Hk & ob & Hob & Hv) & Hx & _). apply runs_bind, (runs_read _ ob); [done|]. rewrite Hv, (val_type _ _ Hx). unfold check_ in HQ. case_bool_decide; [by apply runs_ret, HQ|].
  apply runs_bind, (reply_runs _ _ _ _ Hs). intros w1 Hs1. by apply runs_ret, HQ.
Qed.

(** ** New keys *)

Lemma store_size w a : sim w a -> Zlen (entries (w_dict w)) = Z.of_nat (size (store a)).
Proof.
  intros Hs. destruct (sim_dict _ _ Hs) as (_ & Hnd & _). assert (Hsz : size (dict_map (w_dict w)) = length (entries (w_dict w))) by (unfold dict_map; by rewrite map_size_list_to_map).
  rewrite <- Hsz, <- (size_dom (dict_map _)), <- (size_dom (store a)). do 3 f_equal. apply set_eq. intros k. rewrite !elem_of_dom. pose proof (store_none _ _ k Hs) as Hn. rewrite <- !not_eq_None_Some. by rewrite Hn.
Qed.

Lemma add_eq a key x : result (add_ key x) a =
  {| store := <[key := (x, None)]> (store a); alog := alog (result (event_ (Notify e_new key)) (result (event_ (KeyReady key (content_type x))) a)) |}.
Proof. done. Qed.

Lemma new_runs w a key v x Q :
  sim w a -> store a !! key = None -> Z.of_nat (size (store a)) < 2 ^ 60 -> val_is v x ->
  (forall ad w1, sim w1 (result (add_ key x) a) -> at_obj w1 key ad v -> (forall k ad' u, k <> key -> at_obj w k ad' u -> at_obj w1 k ad' u) -> Q ad w1) ->
  runs (ad ← createObject v; dbAdd ty can initial_lru key ad ;; mret ad) w Q.
Proof.
  intros Hs Hn Hsz Hv HQ. pose proof Hs as [Hd He Hk Hi Hh Hl]. assert (Hn' := proj1 (store_none _ _ _ Hs) Hn). set (ad := fresh (dom (heap w))).
  assert (Hfresh : heap w !! ad = None) by (apply not_elem_of_dom, is_fresh).
  assert (Hnot : forall k, dict_map (w_dict w) !! k <> Some ad) by (intros k Hkad; specialize (Hk k); rewrite Hkad in Hk; destruct Hk as (ob & _ & Hob & _); congruence).
  destruct (dictAddRaw_spec ty can (w_dict w) key ad Hd) as (r & d' & Hadd & Hwf & Hr); [by rewrite (store_size w a)|]. rewrite Hn' in Hr. destruct Hr as (l & -> & _ & Hm).
  apply runs_bind. eexists ad, _. split; [done|]. apply runs_bind. unfold dbAdd, dbAddInternal. apply runs_bind, (runs_dict _ (inr l) d'); [done|].
  apply runs_bind, (runs_get _ {| ptr := v; lru := 0 |}); [apply lookup_insert_eq|]. apply runs_bind, runs_modify. cbn [ptr]. rewrite (val_type _ _ Hv). apply runs_bind, runs_modify, runs_modify, runs_ret, HQ.
  - rewrite add_eq. split; try done; cbn [w_dict with_dict with_events with_heap heap w_expires store].
    + intros k. rewrite Hm, insert_insert_eq. destruct (decide (k = key)) as [->|Hne].
      * rewrite !lookup_insert_eq. eexists _, x. split; [done|]. specialize (Hk key). rewrite Hn' in Hk. destruct Hk as [_ ->]. done.
      * rewrite !(lookup_insert_ne _ key) by done. specialize (Hk k). destruct (dict_map (w_dict w) !! k) as [ad'|] eqn:E; [|done]. rewrite lookup_insert_ne; [done|]. intros <-. by apply (Hnot k).
    + intros k1 k2 ad'. rewrite Hm, !lookup_insert_Some. intros [[<- <-]|[Hne1 Hk1]] [[<- E]|[Hne2 Hk2]]; try done; [by apply Hnot in Hk2|subst ad'; by apply Hnot in Hk1|by apply (Hi _ _ ad')].
    + intros ad' ob. rewrite insert_insert_eq, lookup_insert_Some, Hm. intros [[<- _]|[Hne Hob]]; [exists key; by rewrite lookup_insert_eq|].
      destruct (Hh _ _ Hob) as (k & Hk'). exists k. rewrite lookup_insert_ne; [done|]. intros <-. congruence.
    + cbn. by rewrite <- Hl.
  - split; cbn [w_dict with_dict with_events with_heap heap]; [by rewrite Hm, lookup_insert_eq|]. eexists. by rewrite insert_insert_eq, lookup_insert_eq.
  - intros k ad' u Hne [Hk' (ob & Hob & Hu)]. split; cbn [w_dict with_dict with_events with_heap heap]; [by rewrite Hm, lookup_insert_ne|]. exists ob. rewrite insert_insert_eq, lookup_insert_ne; [done|]. fold ad. intros <-. by apply (Hnot k).
Qed.

(** A key that a lookup for writing does not find is not in the database,
    unless the client must not write. *)
Definition may_write : Prop := expire_paused server = false /\ (masterhost server = true -> client_is_master server = true \/ repl_slave_ro server = false).

Lemma write_none key flags a :
  may_write -> LOOKUP_WRITE flags = true -> LOOKUP_NOEXPIRE flags = false -> (lookup_ server key flags a).1 = None -> store (result (lookup_ server key flags) a) !! key = None.
Proof.
  intros [Hp Hm] Hw He. unfold result, lookup_. destruct (store a !! key) as [[x t]|] eqn:Hk.
  - destruct (hidden server t) eqn:Hh; [|by unfold mbind, A_bind, when_; destruct (counts flags)]. intros _. unfold hidden, purges, miss_, mbind, A_bind, when_, counts, expire_ in *. rewrite Hw, He, Hp in *.
    assert (Hpu : negb (masterhost server) || true && negb (repl_slave_ro server) = true).
    { destruct (masterhost server); [|done]. destruct (Hm eq_refl) as [Hc| ->]; [|done]. rewrite Hc, andb_false_r in Hh. done. }
    rewrite Hpu, !orb_true_r. cbn [negb andb]. unfold remove_, mbind, A_bind. rewrite Hk. cbn. apply lookup_delete_eq.
  - intros _. unfold mbind, A_bind, miss_, when_. cbn. by destruct (negb _), (counts flags); cbn.
Qed.

End KsSpec.

Lemma result_bind {X R T} (m : A X R) (k : R -> A X T) a : result (mbind k m) a = result (k (m a).1) (result m a).
Proof. unfold result, mbind, A_bind. by destruct (m a). Qed.

Lemma value_bind {X R T} (m : A X R) (k : R -> A X T) a : (mbind k m a).1 = (k (m a).1 (result m a)).1.
Proof. unfold result, mbind, A_bind. by destruct (m a). Qed.

Section Lookup.
Context {V X : Type} `{Content V X} (server : environment).

Lemma remove_sub key (a : astate X) : store (result (remove_ key) a) ⊆ store a.
Proof. destruct (store a !! key) as [[x t]|] eqn:E; [rewrite (remove_eq _ _ _ _ E); apply delete_subseteq|]. unfold result, remove_. by rewrite E. Qed.

Lemma expire_sub key (a : astate X) : store (result (expire_ server key) a) ⊆ store a.
Proof. unfold expire_. rewrite result_bind. apply (remove_sub key a). Qed.

Lemma miss_store key flags (a : astate X) : store (result (miss_ key flags) a) = store a.
Proof. unfold miss_. rewrite result_bind. unfold when_. by destruct (negb _), (counts flags). Qed.

(** A lookup only removes keys. *)
Lemma lookup_sub key flags (a : astate X) : store (result (lookup_ server key flags) a) ⊆ store a.
Proof.
  unfold result, lookup_. destruct (store a !! key) as [[x t]|].
  - destruct (hidden server t).
    + fold (result (when_ (purges server flags) (expire_ server key) ;; miss_ key flags ;; mret (None : option X)) a).
      rewrite !result_bind. change (store (result (miss_ key flags) (result (when_ (purges server flags) (expire_ server key)) a)) ⊆ store a). rewrite miss_store.
      unfold when_. destruct (purges server flags); [apply expire_sub|done].
    + unfold mbind, A_bind, when_. by destruct (counts flags).
  - fold (result (miss_ key flags ;; mret (None : option X)) a). rewrite result_bind. change (store (result (miss_ key flags) a) ⊆ store a). by rewrite miss_store.
Qed.

Lemma lookup_other key flags k (a : astate X) : k <> key -> store (result (lookup_ server key flags) a) !! k = store a !! k.
Proof.
  intros Hne. unfold result, lookup_. destruct (store a !! key) as [[x t]|] eqn:E.
  - destruct (hidden server t).
    + fold (result (when_ (purges server flags) (expire_ server key) ;; miss_ key flags ;; mret (None : option X)) a).
      rewrite !result_bind. change (store (result (miss_ key flags) (result (when_ (purges server flags) (expire_ server key)) a)) !! k = store a !! k). rewrite miss_store.
      unfold when_. destruct (purges server flags); [|done]. unfold expire_. rewrite result_bind. change (store (result (remove_ key) a) !! k = store a !! k). rewrite (remove_eq _ _ _ _ E). by apply lookup_delete_ne.
    + unfold mbind, A_bind, when_. by destruct (counts flags).
  - fold (result (miss_ key flags ;; mret (None : option X)) a). rewrite result_bind. change (store (result (miss_ key flags) a) !! k = store a !! k). by rewrite miss_store.
Qed.

Lemma or_reply_sub key flags r (a : astate X) : store (result (lookup_or_reply server key flags r) a) ⊆ store a.
Proof.
  unfold lookup_or_reply. rewrite !result_bind. etrans; [|apply (lookup_sub key flags)]. unfold when_. by destruct (lookup_ server key flags a).1.
Qed.

(** A key that was found is not hidden. *)
Lemma lookup_visible key flags (a : astate X) x y t :
  (lookup_ server key flags a).1 = Some x -> store (result (lookup_ server key flags) a) !! key = Some (y, t) -> hidden server t = false.
Proof.
  unfold result, lookup_. destruct (store a !! key) as [[z t']|] eqn:E; [|rewrite value_bind; by destruct (miss_ key flags a)].
  destruct (hidden server t') eqn:Hh; [by rewrite !value_bind|]. intros _. assert (Hst : store ((when_ (counts flags) (stats_ 1 0 0) ;; mret (Some z)) a).2 = store a) by (unfold when_; by destruct (counts flags)).
  rewrite Hst, E. by intros [= -> ->].
Qed.

(** A key that is not hidden is found, and stays. *)
Lemma lookup_again key flags (a : astate X) x t :
  store a !! key = Some (x, t) -> hidden server t = false -> (lookup_ server key flags a).1 = Some x /\ store (result (lookup_ server key flags) a) = store a.
Proof. intros Hk Hh. unfold result, lookup_. rewrite Hk, Hh. unfold when_. by destruct (counts flags). Qed.

Lemma value_or_reply key flags r (a : astate X) : (lookup_or_reply server key flags r a).1 = (lookup_ server key flags a).1.
Proof. unfold lookup_or_reply. by rewrite !value_bind. Qed.

Lemma result_or_reply key flags r (a : astate X) :
  result (lookup_or_reply server key flags r) a = match (lookup_ server key flags a).1 with None => result (reply_ r) (result (lookup_ server key flags) a) | Some _ => result (lookup_ server key flags) a end.
Proof. unfold lookup_or_reply. rewrite !result_bind. by destruct (lookup_ server key flags a).1. Qed.

End Lookup.

End KsSpec.
