(* ===== verification/KeyspaceSet.v ===== *)
(** * Storing values and times (src/redis-7.2.4/src/db.c)

    The rules for the functions that store a value under a key, whether it was
    there or not, and for the times at which keys expire. *)

From stdpp Require Import gmap.
From S2P Require Import Prelude.
From S2P Require Import Dict.
From S2P Require Import DictSpec.
From S2P Require Import DictMap.
From S2P Require Import Keyspace.
From S2P Require Import KeyspaceSpec.
Import Dict DictSpec DictMap Keyspace KsSpec.

Module KsSet.

Section KsSet.
Context {V X : Type} `{Content V X}.
Context (ty : dictType sds) `{!DictLaws ty} (can : dictResizeEnable) (initial_lru : Z).
Implicit Types (w : world V) (a : astate X).

#[local] Set Default Proof Using "Type*".
#[local] Notation sim := (sim ty).

Definition set_time_ (key : sds) (t : option Z) : A X unit := on_store (alter (fun e => (fst e, t)) key).

(** The new time of a key that is there. *)
Lemma sim_time w a key x t t' e :
  sim w a -> store a !! key = Some (x, t) -> wf ty e -> dict_map e = partial_alter (fun _ => t') key (dict_map (w_expires w)) -> sim (with_expires e w) (result (set_time_ key t') a).
Proof.
  intros [Hd He Hk Hi Hh Hl] Hst Hwf Hm. split; try done. intros k. cbn [w_dict w_expires with_expires heap result set_time_ on_store store snd]. rewrite Hm. specialize (Hk k). destruct (decide (k = key)) as [->|Hne].
  - rewrite lookup_partial_alter_eq, lookup_alter_eq. destruct (dict_map (w_dict w) !! key) as [ad|]; [|destruct Hk; congruence]. destruct Hk as (ob & y & Ho & Hv & Hs). rewrite Hs. by exists ob, y.
  - by rewrite lookup_partial_alter_ne, lookup_alter_ne.
Qed.

Lemma expires_size w a : sim w a -> Zlen (entries (w_expires w)) <= Z.of_nat (size (store a)).
Proof.
  intros Hs. destruct (sim_expires _ _ _ Hs) as (_ & Hnd & _). assert (Hsz : size (dict_map (w_expires w)) = length (entries (w_expires w))) by (unfold dict_map; by rewrite map_size_list_to_map).
  rewrite <- Hsz, <- (size_dom (dict_map _)), <- (size_dom (store a)). apply inj_le, subseteq_size. intros k. rewrite !elem_of_dom. intros [t Ht]. pose proof (sim_key _ _ _ Hs k) as Hk.
  destruct (dict_map (w_dict w) !! k); [destruct Hk as (ob & x & _ & _ & ->); by eexists|]. destruct Hk as [_ Hn]. congruence.
Qed.

Lemma setExpire_runs server client w a key x t when_ Q :
  sim w a -> store a !! key = Some (x, t) -> Z.of_nat (size (store a)) < 2 ^ 60 ->
  (forall w1, sim w1 (result (set_time_ key (Some when_) ;; KsSpec.when_ (client && (masterhost server && negb (repl_slave_ro server)) && negb (client_is_master server)) (event_ (RememberSlaveKey key))) a) -> Q tt w1) ->
  runs (setExpire ty can server client key when_) w Q.
Proof.
  intros Hs Hst Hsz HQ. destruct (store_obj _ _ _ _ _ _ Hs Hst) as (ad & v & [Had _] & _ & _).
  destruct (dictFind_spec ty can (w_dict w) key (sim_dict _ _ _ Hs)) as (l & d1 & Hf & Hwf1 & Hm1 & Hl). apply runs_bind, (runs_dict _ _ _ _ _ Hf). destruct l as [l|]; [|congruence]. apply runs_bind, runs_assert; [done|].
  assert (Hs1 : sim (with_dict d1 w) a) by by apply sim_rehash. clear Hs. set (w1 := with_dict d1 w) in *.
  destruct (dictAddRaw_spec ty can (w_expires w1) key when_ (sim_expires _ _ _ Hs1)) as (r & d2 & Hadd & Hwf2 & Hr); [pose proof (expires_size _ _ Hs1); lia|].
  assert (Hloc : exists l t0, dictAddOrFind ty can (w_expires w1) key when_ = Some (Some l, d2) /\ entry_at d2 l = Some (key, t0) /\ <[key := when_]> (dict_map d2) = <[key := when_]> (dict_map (w_expires w1))).
  { unfold dictAddOrFind. rewrite Hadd. cbn [mbind option_bind]. destruct (dict_map (w_expires w1) !! key) as [t0|]; destruct Hr as (l2 & -> & He & Hm); [exists l2, t0; by rewrite Hm|]. exists l2, when_. split; [done|]. split; [done|]. by rewrite Hm, insert_insert_eq. }
  destruct Hloc as (l2 & t0 & Haf & He2 & Hins). apply runs_bind, (runs_expires _ _ _ _ _ Haf), runs_bind, (runs_lift l2); [done|].
  destruct (dictSetVal_spec ty d2 l2 key t0 when_ Hwf2 He2) as (d3 & Hset & Hwf3 & Hm3). apply runs_bind, (runs_expires _ tt d3); [cbn [w_expires with_expires]; by rewrite Hset|].
  assert (Hs3 : sim (with_expires d3 w1) (result (set_time_ key (Some when_)) a)) by (apply (sim_time w1 a key x t); [done..|]; by rewrite Hm3, Hins).
  change (with_expires d3 (with_expires d2 w1)) with (with_expires d3 w1). cbn zeta. destruct (client && _ && _); cbn [when KsSpec.when_] in *; [|by apply runs_ret, HQ].
  apply (emit_runs ty _ _ _ _ Hs3). intros w4 Hs4. by apply HQ.
Qed.

(** True when there was a time. *)
Lemma removeExpire_runs w a key x t Q :
  sim w a -> store a !! key = Some (x, t) -> (forall w1, sim w1 (result (set_time_ key None) a) -> Q (match t with Some _ => true | None => false end) w1) -> runs (removeExpire ty can key) w Q.
Proof.
  intros Hs Hst HQ. destruct (store_obj _ _ _ _ _ _ Hs Hst) as (_ & _ & _ & _ & Ht). destruct (dictGenericDelete_spec ty can (w_expires w) key (sim_expires _ _ _ Hs)) as (e & Hdel & Hwf & Hm).
  apply runs_bind, (runs_expires _ (match t with Some _ => DICT_OK | None => DICT_ERR end) e); [unfold dictDelete; rewrite Hdel, Ht; cbn [mbind option_bind]; by destruct t|]. apply runs_ret.
  assert (Hs1 : sim (with_expires e w) (result (set_time_ key None) a)) by by apply (sim_time w a key x t). specialize (HQ _ Hs1). by destruct t.
Qed.

(** Nothing is deleted. *)
Lemma delete_none_runs w a key async Q : sim w a -> store a !! key = None -> (forall w1, sim w1 a -> Q false w1) -> runs (dbGenericDelete ty can key async) w Q.
Proof.
  intros Hs Hn HQ. destruct (twoPhaseUnlink_none ty can (w_dict w) key (sim_dict _ _ _ Hs)) as (d1 & Hf & Hwf & Hm); [by apply (store_none ty w a)|].
  apply runs_bind, (runs_dict _ _ _ _ _ Hf), runs_ret, HQ. by apply sim_rehash.
Qed.

(** What a lookup finds. *)
Lemma lookup_time server access flags w a key x t :
  sim w a -> store a !! key = Some (x, t) ->
  exists r w', lookupKey ty can server access key flags w = Some (r, w') /\
    if hidden server t then r = None /\ (purges server flags = true -> dict_map (w_dict w') !! key = None /\ dict_map (w_expires w') !! key = None)
    else exists ad v, r = Some ad /\ at_obj w' key ad v /\ val_is v x /\ dict_map (w_expires w') !! key = t.
Proof.
  intros Hs Hst. apply (lookupKey_runs ty can server access w a key flags); [done|]. intros r w' Hs' Hr _.
  assert (Hv : (lookup_ server key flags a).1 = if hidden server t then None else Some x) by (unfold lookup_; rewrite Hst; destruct (hidden server t); by rewrite !value_bind). rewrite Hv in Hr.
  assert (Hst' : store (result (lookup_ server key flags) a) !! key = if hidden server t && purges server flags then None else Some (x, t)).
  { unfold result, lookup_. rewrite Hst. unfold miss_, expire_, remove_, KsSpec.when_, mbind, A_bind. destruct (hidden server t); [destruct (purges server flags)|]; rewrite ?Hst; cbn; destruct (negb (LOOKUP_NONOTIFY flags || LOOKUP_WRITE flags)), (counts flags); cbn; by rewrite ?lookup_delete_eq. }
  destruct (hidden server t); cbn [andb] in Hst'.
  - destruct r as [ad|]; [done|]. split; [done|]. intros Hp. rewrite Hp in Hst'. pose proof (sim_key _ _ _ Hs' key) as Hk. destruct (dict_map (w_dict w') !! key); [destruct Hk as (ob & y & _ & _ & E); congruence|]. by destruct Hk.
  - destruct r as [ad|]; [|done]. destruct Hr as (v & t' & Ho & Hx & _). exists ad, v. split; [done|]. split; [done|]. split; [done|]. by destruct (store_obj _ _ _ _ _ _ Hs' Hst') as (_ & _ & _ & _ & ->).
Qed.

(** ** Values *)

(** The events of a value that is overwritten, and the new content. *)
Definition overwrite_ (key : sds) (y x : X) : A X unit := event_ (ModuleUnlink key) ;; event_ (DeletedReady key (content_type y)) ;; put_ key x.

(** The object of a key moves to another address. *)
Lemma sim_replace w a key old ad ob x t v l x' d :
  sim w a -> dict_map (w_dict w) !! key = Some old -> heap w !! old = Some ob -> heap w !! ad = None -> store a !! key = Some (x, t) -> val_is v x' ->
  wf ty d -> dict_map d = <[key := ad]> (dict_map (w_dict w)) ->
  let w1 := with_heap (delete old (<[ad := {| ptr := v; lru := l |}]> (heap w))) (with_dict d w) in
  sim w1 (result (put_ key x') a) /\ at_obj w1 key ad v /\ (forall k ad' u, k <> key -> at_obj w k ad' u -> at_obj w1 k ad' u).
Proof.
  intros Hs Hkey Hob Hfresh Hst Hv Hwf Hm. pose proof Hs as [Hd He Hk Hi Hh Hl]. assert (Hne : old <> ad) by congruence. cbn zeta.
  assert (Hat : delete old (<[ad := {| ptr := v; lru := l |}]> (heap w)) !! ad = Some {| ptr := v; lru := l |}) by (rewrite lookup_delete_ne by done; apply lookup_insert_eq).
  assert (Hother : forall k ad', k <> key -> dict_map (w_dict w) !! k = Some ad' -> delete old (<[ad := {| ptr := v; lru := l |}]> (heap w)) !! ad' = heap w !! ad').
  { intros k ad' Hkne Hk'. rewrite lookup_delete_ne; [apply lookup_insert_ne|]; intros <-; [|by apply Hkne, (Hi _ _ old)]. specialize (Hk k). rewrite Hk' in Hk. destruct Hk as (ob' & _ & Hob' & _). congruence. }
  split; [|split].
  - split; try done; cbn [w_dict w_expires heap with_heap with_dict result put_ on_store store snd].
    + intros k. rewrite Hm. specialize (Hk k). destruct (decide (k = key)) as [->|Hkne].
      * rewrite lookup_insert_eq. rewrite Hkey in Hk. destruct Hk as (ob' & y & _ & _ & Hst'). eexists _, x'. split; [exact Hat|]. split; [done|]. by rewrite lookup_alter_eq, Hst'.
      * rewrite lookup_insert_ne, lookup_alter_ne by done. destruct (dict_map (w_dict w) !! k) as [ad'|] eqn:E; [|done]. by rewrite (Hother k).
    + intros k1 k2 ad'. rewrite Hm, !lookup_insert_Some. intros [[<- <-]|[Hne1 Hk1]] [[<- E]|[Hne2 Hk2]]; try done; [|subst ad'|by apply (Hi _ _ ad')].
      * exfalso. specialize (Hk k2). rewrite Hk2 in Hk. destruct Hk as (ob' & _ & Hob' & _). congruence.
      * exfalso. specialize (Hk k1). rewrite Hk1 in Hk. destruct Hk as (ob' & _ & Hob' & _). congruence.
    + intros ad' ob' [Hne' Ho]%lookup_delete_Some. apply lookup_insert_Some in Ho as [[<- _]|[Hne2 Ho]]; [exists key; by rewrite Hm, lookup_insert_eq|].
      destruct (Hh _ _ Ho) as (k & Hk'). exists k. rewrite Hm, lookup_insert_ne; [done|]. intros <-. congruence.
  - split; cbn [w_dict with_heap with_dict heap]; [by rewrite Hm, lookup_insert_eq|]. eexists. split; [exact Hat|done].
  - intros k ad' u Hkne [Hk' (ob' & Hob' & Hu)]. split; cbn [w_dict with_heap with_dict heap]; [by rewrite Hm, lookup_insert_ne|]. exists ob'. by rewrite (Hother k).
Qed.

Definition with_new (ad : addr) (v : V) w : world V := with_heap (<[ad := {| ptr := v; lru := 0 |}]> (heap w)) w.

Lemma dbSetValue_runs w a key ad v x t x' (overwrite : bool) de Q :
  sim w a -> heap w !! ad = None -> store a !! key = Some (x, t) -> val_is v x' ->
  match de with Some l => exists old, entry_at (w_dict w) l = Some (key, old) /\ dict_map (w_dict w) !! key = Some old | None => True end ->
  (forall w1, sim w1 (result (if overwrite then overwrite_ key x x' else put_ key x') a) -> at_obj w1 key ad v -> (forall k ad' u, k <> key -> at_obj w k ad' u -> at_obj w1 k ad' u) -> Q tt w1) ->
  runs (dbSetValue ty can key ad overwrite de) (with_new ad v w) Q.
Proof.
  intros Hs Hfresh Hst Hv Hde HQ. destruct (store_obj _ _ _ _ _ _ Hs Hst) as (old & u & [Hold (ob & Hob & Hu)] & Hx & _).
  assert (Hloc : exists l d1, wf ty d1 /\ dict_map d1 = dict_map (w_dict w) /\ entry_at d1 l = Some (key, old) /\ forall Q', Q' (Some l) (with_dict d1 (with_new ad v w)) ->
    runs (match de with Some _ => mret de | None => on_dict (fun d => dictFind ty can d key) end) (with_new ad v w) Q').
  { destruct de as [l|].
    - destruct Hde as (old' & He & Hm). assert (old' = old) as -> by congruence. exists l, (w_dict w). split; [apply Hs|]. split; [done|]. split; [done|]. intros Q' HQ'. apply runs_ret. by destruct w.
    - destruct (dictFind_spec ty can (w_dict w) key (sim_dict _ _ _ Hs)) as (l & d1 & Hf & Hwf1 & Hm1 & Hl). destruct l as [l|]; [|congruence]. destruct Hl as (old' & He & Hm). assert (old' = old) as -> by congruence.
      exists l, d1. split; [done|]. split; [done|]. split; [done|]. intros Q' HQ'. by apply (runs_dict _ (Some l) d1). }
  destruct Hloc as (l & d1 & Hwf1 & Hm1 & He1 & Hrun). apply runs_bind, Hrun. apply runs_bind, runs_assert; [done|]. apply runs_bind, (runs_lift l); [done|]. apply runs_bind, runs_gets, runs_bind, (runs_lift (key, old)); [done|].
  assert (Hne : old <> ad) by congruence. apply runs_bind, (runs_get _ ob); [cbn; by rewrite lookup_insert_ne|]. apply runs_bind, (runs_read _ {| ptr := v; lru := 0 |}); [apply lookup_insert_eq|]. apply runs_bind, runs_modify.
  destruct (dictSetVal_spec ty d1 l key old ad Hwf1 He1) as (d2 & Hset & Hwf2 & Hm2). rewrite Hm1 in Hm2.
  assert (Hend : forall es a1, a1 = result (on_log (fun lg => {| l_dirty := l_dirty lg; l_hits := l_hits lg; l_misses := l_misses lg; l_expired := l_expired lg; l_events := l_events lg ++ es; l_out := l_out lg |})) a ->
    (forall w1, sim w1 (result (put_ key x') a1) -> at_obj w1 key ad v -> (forall k ad' u, k <> key -> at_obj w k ad' u -> at_obj w1 k ad' u) -> Q tt w1) ->
    runs (on_dict (fun d => d ← dictSetVal d l ad; Some (tt, d)) ;; free_obj old)
      (with_events (events w ++ es) (with_heap (<[ad := {| ptr := v; lru := lru ob |}]> (heap (with_new ad v w))) (with_dict d1 (with_new ad v w)))) Q).
  { intros es a1 -> HQ1. apply runs_bind, (runs_dict _ tt d2); [cbn [w_dict with_dict with_events with_heap]; by rewrite Hset|]. apply runs_bind, (runs_get _ ob); [cbn; by rewrite !lookup_insert_ne|]. apply runs_modify.
    set (wE := with_events (events w ++ es) w). assert (HsE : sim wE (result (on_log (fun lg => {| l_dirty := l_dirty lg; l_hits := l_hits lg; l_misses := l_misses lg; l_expired := l_expired lg; l_events := l_events lg ++ es; l_out := l_out lg |})) a)) by by apply (sim_log_only _ w).
    destruct (sim_replace wE _ key old ad ob x t v (lru ob) x' d2 HsE Hold Hob Hfresh Hst Hv Hwf2 Hm2) as (Hs1 & Ho1 & Hf1). unfold wE in *. cbn [heap with_events with_dict with_heap with_new w_dict] in *. unfold with_new. cbn [heap with_heap]. rewrite insert_insert_eq.
    by apply HQ1. }
  apply runs_bind. destruct overwrite; cbn [when].
  - apply runs_bind, runs_modify, runs_modify. cbn [events with_events with_heap with_dict with_new]. specialize (Hend [ModuleUnlink key; DeletedReady key (content_type x)] _ eq_refl).
    rewrite <- (val_type _ _ Hx), <- Hu in Hend. unfold with_events, with_heap, with_dict, with_new in Hend |- *. cbn in Hend |- *. rewrite <- app_assoc. cbn [app]. apply Hend.
    intros w1 Hs1. apply HQ. subst u. unfold overwrite_. rewrite <- (val_type _ _ Hx). unfold result, event_, on_log, put_, on_store, mbind, A_bind in *. cbn in *. by rewrite <- app_assoc.
  - apply runs_ret. specialize (Hend [] _ eq_refl). rewrite app_nil_r in Hend. unfold with_events, with_heap, with_dict, with_new in Hend |- *. cbn in Hend |- *. apply Hend. intros w1 Hs1. apply HQ.
    unfold result, on_log, put_, on_store in *. cbn in *. rewrite app_nil_r in Hs1. by destruct a as [? []].
Qed.

(** A value for a key that may be there. *)
Definition store_ (key : sds) (x : X) : A X unit := fun a => match store a !! key with Some (y, _) => overwrite_ key y x a | None => add_ key x a end.

Lemma dbAdd_runs w a key v x Q : let ad := fresh (dom (heap w)) in
  sim w a -> store a !! key = None -> Z.of_nat (size (store a)) < 2 ^ 60 -> val_is v x ->
  (forall w1, sim w1 (result (add_ key x) a) -> at_obj w1 key ad v -> (forall k ad' u, k <> key -> at_obj w k ad' u -> at_obj w1 k ad' u) -> Q tt w1) ->
  runs (dbAdd ty can initial_lru key ad) (with_new ad v w) Q.
Proof.
  intros ad Hs Hn Hsz Hv HQ.
  destruct (new_runs ty can initial_lru w a key v x (fun ad' w1 => sim w1 (result (add_ key x) a) /\ at_obj w1 key ad' v /\ (forall k ad' u, k <> key -> at_obj w k ad' u -> at_obj w1 k ad' u)) Hs Hn Hsz Hv) as (ad' & w1 & Hrun & Hs1 & Ho1 & Hf1); [by auto|].
  unfold mbind, K_bind, createObject in Hrun. cbn [mbind option_bind] in Hrun. fold ad in Hrun. change (with_heap (<[ad := {| ptr := v; lru := 0 |}]> (heap w)) w) with (with_new ad v w) in Hrun.
  destruct (dbAdd ty can initial_lru key ad (with_new ad v w)) as [[[] w']|] eqn:E; [|done]. cbn in Hrun. injection Hrun as <- <-. exists tt, w'. split; [done|]. by apply HQ.
Qed.

Lemma dbAddInternal_new key ad w Q : runs (dbAdd ty can initial_lru key ad) w Q -> runs (dbAddInternal ty can initial_lru key ad true) w Q.
Proof.
  intros (r & w1 & Hm & HQ). exists r, w1. split; [|done]. unfold dbAdd, dbAddInternal, mbind, K_bind in *. destruct (on_dict _ w) as [[[[l|]|l] w']|]; [|done..]. cbn in Hm. done.
Qed.

Lemma addOrUpdate_runs w a key v x Q : let ad := fresh (dom (heap w)) in
  sim w a -> Z.of_nat (size (store a)) < 2 ^ 60 -> val_is v x ->
  (forall w1, sim w1 (result (store_ key x) a) -> at_obj w1 key ad v -> (forall k ad' u, k <> key -> at_obj w k ad' u -> at_obj w1 k ad' u) -> Q tt w1) ->
  runs (dbAddInternal ty can initial_lru key ad true) (with_new ad v w) Q.
Proof.
  intros ad Hs Hsz Hv HQ. assert (Hfresh : heap w !! ad = None) by (apply not_elem_of_dom, is_fresh). unfold result, store_ in HQ. destruct (store a !! key) as [[y t]|] eqn:Hst.
  - destruct (store_obj _ _ _ _ _ _ Hs Hst) as (old & u & [Hold _] & _ & _). destruct (dictAddRaw_spec ty can (w_dict w) key ad (sim_dict _ _ _ Hs)) as (r & d1 & Hadd & Hwf & Hr); [by rewrite (store_size ty w a)|].
    rewrite Hold in Hr. destruct Hr as (l & -> & He & Hm). apply runs_bind, (runs_dict _ (inl (Some l)) d1); [done|]. apply runs_bind, runs_assert; [done|].
    change (with_dict d1 (with_new ad v w)) with (with_new ad v (with_dict d1 w)). assert (Hs1 : sim (with_dict d1 w) a) by by apply sim_rehash.
    apply (dbSetValue_runs (with_dict d1 w) a key ad v y t x true (Some l)); [done|done|done|done|exists old; cbn; by rewrite Hm|]. intros w1 Hs2 Ho Hf. apply HQ; [done|done|]. intros k ad' u' Hne [Hk Hob]. apply Hf; [done|]. split; [cbn; by rewrite Hm|done].
  - apply dbAddInternal_new. by apply (dbAdd_runs w a key v x).
Qed.

Lemma setValue_runs w a key v y t x Q : let ad := fresh (dom (heap w)) in
  sim w a -> store a !! key = Some (y, t) -> val_is v x ->
  (forall w1, sim w1 (result (store_ key x) a) -> at_obj w1 key ad v -> (forall k ad' u, k <> key -> at_obj w k ad' u -> at_obj w1 k ad' u) -> Q tt w1) ->
  runs (dbSetValue ty can key ad true None) (with_new ad v w) Q.
Proof.
  intros ad Hs Hst Hv HQ. unfold result, store_ in HQ. rewrite Hst in HQ. apply (dbSetValue_runs w a key ad v y t x true None); [done|apply not_elem_of_dom, is_fresh|done..].
Qed.

(** ** setKey *)

Definition set_key_ (server : environment) (key : sds) (x : X) (flags : setkey_flags) : A X unit :=
  (if SETKEY_ALREADY_EXIST flags || SETKEY_ADD_OR_UPDATE flags || SETKEY_DOESNT_EXIST flags then mret tt
   else lookup_ server key {| LOOKUP_NOTOUCH := false; LOOKUP_NONOTIFY := false; LOOKUP_NOSTATS := false; LOOKUP_WRITE := true; LOOKUP_NOEXPIRE := false |} ;; mret tt) ;;
  store_ key x ;;
  KsSpec.when_ (negb (SETKEY_KEEPTTL flags)) (set_time_ key None) ;;
  KsSpec.when_ (negb (SETKEY_NO_SIGNAL flags)) (event_ (SignalModified key)).

Lemma store_stored key x a : exists t, store (result (store_ key x) a) !! key = Some (x, t).
Proof.
  unfold result, store_. destruct (store a !! key) as [[y t]|] eqn:E; [exists t|exists None; apply lookup_insert_eq].
  change (alter (fun e => (x, snd e)) key (store a) !! key = Some (x, t)). by rewrite lookup_alter_eq, E.
Qed.

(** The end of [setKey]. *)
Lemma setKey_tail_runs w a key x t flags Q :
  sim w a -> store a !! key = Some (x, t) ->
  (forall w1, sim w1 (result (KsSpec.when_ (negb (SETKEY_KEEPTTL flags)) (set_time_ key None) ;; KsSpec.when_ (negb (SETKEY_NO_SIGNAL flags)) (event_ (SignalModified key))) a) -> Q tt w1) ->
  runs (when (negb (SETKEY_KEEPTTL flags)) (removeExpire ty can key ;; mret tt) ;; when (negb (SETKEY_NO_SIGNAL flags)) (signalModifiedKey key)) w Q.
Proof.
  intros Hs Hst HQ. apply runs_bind. rewrite result_bind in HQ.
  assert (Hsig : forall w1 a1, sim w1 a1 -> (forall w2, sim w2 (result (KsSpec.when_ (negb (SETKEY_NO_SIGNAL flags)) (event_ (SignalModified key))) a1) -> Q tt w2) -> runs (when (negb (SETKEY_NO_SIGNAL flags)) (signalModifiedKey key)) w1 Q).
  { intros w1 a1 Hs1 HQ1. destruct (negb (SETKEY_NO_SIGNAL flags)); cbn [when KsSpec.when_] in *; [|by apply runs_ret, HQ1]. apply (emit_runs ty _ _ a1); [done|]. intros w2 Hs2. by apply HQ1. }
  destruct (negb (SETKEY_KEEPTTL flags)); cbn [when KsSpec.when_] in *.
  - apply runs_bind, (removeExpire_runs w a key x t); [done..|]. intros w1 Hs1. apply runs_ret. by apply (Hsig _ _ Hs1).
  - apply runs_ret. by apply (Hsig _ _ Hs).
Qed.

Lemma setKey_runs server access w a key v x flags Q :
  sim w a -> Z.of_nat (size (store a)) < 2 ^ 60 -> val_is v x -> may_write server ->
  (SETKEY_ALREADY_EXIST flags = true -> is_Some (store a !! key)) -> (SETKEY_ADD_OR_UPDATE flags = false -> SETKEY_DOESNT_EXIST flags = true -> SETKEY_ALREADY_EXIST flags = false -> store a !! key = None) ->
  (forall w1, sim w1 (result (set_key_ server key x flags) a) -> Q tt w1) -> runs (setKey ty can server access initial_lru key v flags) w Q.
Proof.
  intros Hs Hsz Hv Hw Hex Hno HQ. unfold set_key_ in HQ. rewrite result_bind in HQ.
  assert (Hgo : forall w1 a1 (n : Z), sim w1 a1 -> Z.of_nat (size (store a1)) < 2 ^ 60 -> (n = 0 -> store a1 !! key = None) -> (0 < n -> is_Some (store a1 !! key)) ->
    (forall w2, sim w2 (result (store_ key x ;; KsSpec.when_ (negb (SETKEY_KEEPTTL flags)) (set_time_ key None) ;; KsSpec.when_ (negb (SETKEY_NO_SIGNAL flags)) (event_ (SignalModified key))) a1) -> Q tt w2) ->
    runs (val ← createObject v; (if n =? 0 then dbAdd ty can initial_lru key val else if n <? 0 then dbAddInternal ty can initial_lru key val true else dbSetValue ty can key val true None) ;;
      when (negb (SETKEY_KEEPTTL flags)) (removeExpire ty can key ;; mret tt) ;; when (negb (SETKEY_NO_SIGNAL flags)) (signalModifiedKey key)) w1 Q).
  { intros w1 a1 n Hs1 Hsz1 Hzero Hpos HQ1. rewrite result_bind in HQ1. apply runs_bind. eexists _, _. split; [done|]. apply runs_bind.
    assert (Htail : forall w2, sim w2 (result (store_ key x) a1) -> runs (when (negb (SETKEY_KEEPTTL flags)) (removeExpire ty can key ;; mret tt) ;; when (negb (SETKEY_NO_SIGNAL flags)) (signalModifiedKey key)) w2 Q).
    { intros w2 Hs2. destruct (store_stored key x a1) as (t & Ht). by apply (setKey_tail_runs _ _ _ _ _ _ _ Hs2 Ht). }
    destruct (Z.eqb_spec n 0) as [Hn|Hn]; [|destruct (Z.ltb_spec n 0)].
    - specialize (Hzero Hn). apply (dbAdd_runs w1 a1 key v x); [done..|]. intros w2 Hs2 _ _. apply Htail. unfold result, store_. by rewrite Hzero.
    - apply (addOrUpdate_runs w1 a1 key v x); [done..|]. intros w2 Hs2 _ _. by apply Htail.
    - destruct Hpos as [[y t] Hst]; [lia|]. apply (setValue_runs w1 a1 key v y t x); [done..|]. intros w2 Hs2 _ _. by apply Htail. }
  apply runs_bind. destruct (SETKEY_ALREADY_EXIST flags) eqn:E1; cbn [orb] in *; [apply runs_ret; apply (Hgo w a 1); try done; by intros _; apply Hex|].
  destruct (SETKEY_ADD_OR_UPDATE flags) eqn:E2; cbn [orb] in *; [by apply runs_ret, (Hgo w a (-1))|].
  destruct (SETKEY_DOESNT_EXIST flags) eqn:E3; cbn [orb negb] in *; [apply runs_ret; apply (Hgo w a 0); try done; by intros _; apply Hno|].
  set (W := {| LOOKUP_NOTOUCH := false; LOOKUP_NONOTIFY := false; LOOKUP_NOSTATS := false; LOOKUP_WRITE := true; LOOKUP_NOEXPIRE := false |}) in *. apply runs_bind, (lookupKey_runs ty can server access w a key W); [done|]. intros r w1 Hs1 Hr _.
  apply runs_ret. rewrite (result_bind (lookup_ server key W)) in HQ. change (result (mret tt) (result (lookup_ server key W) a)) with (result (lookup_ server key W) a) in HQ.
  apply (Hgo w1 (result (lookup_ server key W) a)); [done| | | |done].
  - pose proof (map_subseteq_size _ _ (lookup_sub server key W a)). lia.
  - destruct r as [ad|]; [done|]. intros _. apply write_none; [done..|]. by destruct (lookup_ server key W a).1.
  - destruct r as [ad|]; [|lia]. intros _. destruct (lookup_ server key W a).1; [|done]. destruct Hr as (u & t & _ & _ & ->). by eexists.
Qed.

End KsSet.

End KsSet.
