(* ===== verification/StrType.v ===== *)
(** * String objects (src/redis-7.2.4/src/object.c)

    A string object holds its bytes, in an allocation of their own or in the
    one of the object, or a number, in an object of its own or in one of the
    shared objects for small numbers.  Every encoding of a string stands for
    its bytes.  [None] is a failed assertion or an access outside a buffer. *)

From stdpp Require Import gmap.
From S2P Require Import Prelude.
From S2P Require Import NumConv.
From S2P Require Import ListType.
From S2P Require Import ListSpec.
From S2P Require Import Keyspace.
Import NumConv Keyspace.

Module StrType.

(** [OBJ_ENCODING_RAW], [OBJ_ENCODING_EMBSTR] and [OBJ_ENCODING_INT]; the
    objects of [shared.integers] have the special count of references. *)
Inductive strval :=
  | Raw (s : sds)
  | Embstr (s : sds)
  | IntVal (v : Z)
  | SharedInt (v : Z).

(** [no_shared_integers] when the policy for a memory limit needs the time of
    access of every object. *)
Record strconf := { no_shared_integers : bool; proto_max_bulk_len : Z }.

Definition OBJ_SHARED_INTEGERS : Z := 10000.
Definition OBJ_ENCODING_EMBSTR_SIZE_LIMIT : Z := 44.

Inductive ll2strobj := LL2STROBJ_AUTO | LL2STROBJ_NO_SHARED | LL2STROBJ_NO_INT_ENC.

Definition createRawStringObject (s : sds) : strval := Raw s.
Definition createEmbeddedStringObject (s : sds) : strval := Embstr s.

Definition createStringObject (s : sds) : strval :=
  if Zlen s <=? OBJ_ENCODING_EMBSTR_SIZE_LIMIT then createEmbeddedStringObject s else createRawStringObject s.

Definition createStringObjectFromLongLongWithOptions (value : Z) (flag : ll2strobj) : option strval :=
  match flag with
  | LL2STROBJ_AUTO => if (0 <=? value) && (value <? OBJ_SHARED_INTEGERS) then Some (SharedInt value) else Some (IntVal value)
  | LL2STROBJ_NO_SHARED => Some (IntVal value)
  | LL2STROBJ_NO_INT_ENC => '(n, buf) ← ll2string (replicate (Z.to_nat LONG_STR_SIZE) 0) LONG_STR_SIZE value; s ← rd buf 0 n; Some (createStringObject s)
  end.

Definition createStringObjectFromLongLongForValue (conf : strconf) (value : Z) : option strval :=
  createStringObjectFromLongLongWithOptions value (if negb (no_shared_integers conf) then LL2STROBJ_AUTO else LL2STROBJ_NO_SHARED).

(** An object with one reference; to trim the allocation keeps the string. *)
Definition tryObjectEncoding (conf : strconf) (o : strval) : option strval :=
  match o with
  | IntVal _ | SharedInt _ => Some o
  | Raw s | Embstr s =>
      match (if Zlen s <=? 20 then string2l s else None) with
      | Some value =>
          if negb (no_shared_integers conf) && (0 <=? value) && (value <? OBJ_SHARED_INTEGERS) then Some (SharedInt value)
          else match o with Raw _ => Some (IntVal value) | _ => createStringObjectFromLongLongForValue conf value end
      | None =>
          if Zlen s <=? OBJ_ENCODING_EMBSTR_SIZE_LIMIT then match o with Embstr _ => Some o | _ => Some (createEmbeddedStringObject s) end
          else Some o
      end
  end.

(** The bytes of the decoded object. *)
Definition getDecodedObject (o : strval) : option sds :=
  match o with
  | Raw s | Embstr s => Some s
  | IntVal v | SharedInt v => '(n, buf) ← ll2string (replicate 32 0) 32 v; rd buf 0 n
  end.

Definition stringObjectLen (o : strval) : Z :=
  match o with Raw s | Embstr s => Zlen s | IntVal v | SharedInt v => sdigits10 v end.

(** Without an object the value is 0. *)
Definition getLongLongFromObject (o : option strval) : option Z :=
  match o with
  | None => Some 0
  | Some (Raw s) | Some (Embstr s) => string2ll s
  | Some (IntVal v) | Some (SharedInt v) => Some v
  end.

(** ** What an object stands for *)

Definition is_str (o : strval) (s : sds) : Prop :=
  match o with
  | Raw t | Embstr t => t = s
  | IntVal v => LLONG_MIN <= v <= LLONG_MAX /\ s = lltoa v
  | SharedInt v => 0 <= v < OBJ_SHARED_INTEGERS /\ s = lltoa v
  end.

Lemma is_str_number o s : is_str o s -> match o with IntVal v | SharedInt v => LLONG_MIN <= v <= LLONG_MAX /\ s = lltoa v | _ => True end.
Proof. destruct o; cbn; try done. unfold OBJ_SHARED_INTEGERS. intros [? ->]. split; [lia|done]. Qed.

Lemma decoded_number v : LLONG_MIN <= v <= LLONG_MAX -> ('(n, buf) ← ll2string (replicate 32 0) 32 v; rd buf 0 n) = Some (lltoa v).
Proof. intros Hv. apply (ListSpec.str_decoded (ListType.IntObj v)). done. Qed.

Lemma getDecodedObject_spec o s : is_str o s -> getDecodedObject o = Some s.
Proof. intros Ho. pose proof (is_str_number o s Ho) as Hn. destruct o; cbn [is_str getDecodedObject] in *; first [by subst | destruct Hn as [Hv ->]; by apply decoded_number]. Qed.

Lemma sdigits10_spec v : LLONG_MIN <= v <= LLONG_MAX -> sdigits10 v = Zlen (lltoa v).
Proof.
  intros Hv. unfold sdigits10, lltoa. pose proof (itoa_length_20 (Z.abs v) ltac:(lia)) as H20. destruct (Z.ltb_spec v 0) as [Hn|Hp].
  - assert (Hu : (if negb (v =? LLONG_MIN) then u64 (- v) else u64 (LLONG_MAX + 1)) = - v) by (destruct (Z.eqb_spec v LLONG_MIN) as [->|]; cbn [negb]; [done|]; apply uwrap_small; lia).
    rewrite Hu, digits10_spec by lia. cbn [length]. replace (Z.abs v) with (- v) in H20 by lia. rewrite uwrap_small by lia. lia.
  - rewrite uwrap_small by lia. apply digits10_spec. lia.
Qed.

Lemma stringObjectLen_spec o s : is_str o s -> stringObjectLen o = Zlen s.
Proof. intros Ho. pose proof (is_str_number o s Ho) as Hn. destruct o; cbn [is_str stringObjectLen] in *; first [by subst | destruct Hn as [Hv ->]; by apply sdigits10_spec]. Qed.

Lemma getLongLong_spec o s : is_str o s -> getLongLongFromObject (Some o) = string2ll s.
Proof. intros Ho. pose proof (is_str_number o s Ho) as Hn. destruct o; cbn [is_str getLongLongFromObject] in *; first [by subst | destruct Hn as [Hv ->]; by rewrite string2ll_complete]. Qed.

Lemma createStringObject_spec s : is_str (createStringObject s) s.
Proof. unfold createStringObject. by destruct (_ <=? _). Qed.

Lemma forValue_spec conf v : LLONG_MIN <= v <= LLONG_MAX -> exists o, createStringObjectFromLongLongForValue conf v = Some o /\ is_str o (lltoa v).
Proof.
  intros Hv. unfold createStringObjectFromLongLongForValue. destruct (negb _); cbn [createStringObjectFromLongLongWithOptions]; [|by eexists].
  destruct (Z.leb_spec 0 v), (Z.ltb_spec v OBJ_SHARED_INTEGERS); cbn [andb]; eexists; (split; [done|]); done.
Qed.

Lemma tryObjectEncoding_spec conf o s : is_str o s -> exists o', tryObjectEncoding conf o = Some o' /\ is_str o' s.
Proof.
  intros Ho. destruct o as [t|t|v|v]; [| |by eexists|by eexists]; cbn [is_str] in Ho; subst t; cbn [tryObjectEncoding]; unfold string2l.
  all: destruct (if Zlen s <=? 20 then string2ll s ≫= _ else None) as [v|] eqn:Ev; [|clear Ev; destruct (Zlen s <=? OBJ_ENCODING_EMBSTR_SIZE_LIMIT); eexists; by split].
  all: assert (Hv : LLONG_MIN <= v <= LLONG_MAX /\ s = lltoa v) by (destruct (Zlen s <=? 20); [|done]; destruct (string2ll s) as [u|] eqn:E; [|done]; cbn in Ev; destruct (_ || _); [done|]; injection Ev as <-; by apply string2ll_sound).
  all: destruct Hv as [Hv ->]; destruct (negb (no_shared_integers conf)) eqn:En, (Z.leb_spec 0 v), (Z.ltb_spec v OBJ_SHARED_INTEGERS); cbn [andb].
  all: first [by apply forValue_spec | eexists; by split].
Qed.

End StrType.
