(* ===== verification/ListCmd.v ===== *)
(** * List commands (src/redis-7.2.4/src/t_list.c, the commands)

    The commands on lists, from the arguments of the client to the replies,
    on the keyspace of Keyspace.v and the list objects of ListType.v.  The
    arguments are strings, as the parser of the protocol makes them; a command
    is called with at least as many arguments as its arity says.

    [None] is a failed assertion, an overflow of a signed integer, an access
    outside a buffer or to a freed object. *)

From stdpp Require Import gmap.
From S2P Require Import Prelude.
From S2P Require Import NumConv.
From S2P Require Import ListpackEnc.
From S2P Require Import Listpack.
From S2P Require Import Quicklist.
From S2P Require Import ListType.
From S2P Require Import Dict.
From S2P Require Import Keyspace.
From S2P Require Import StrType.
Import StrType.
Import NumConv LpEnc Lp ListType Keyspace.

Module ListCmd.

(** The objects of the keyspace: lists, strings, and objects of the other types. *)
Inductive value := VList (o : lobj) | VStr (v : strval) | VOther (t : obj_type).

#[export] Instance value_type : ObjectType value := fun v => match v with VList _ => OBJ_LIST | VStr _ => OBJ_STRING | VOther t => t end.

Abbreviation C := (K value).

(** ** Strings of the C library *)

Definition tolower (c : Z) : Z := if (65 <=? c) && (c <=? 90) then c + 32 else c.

(** The bytes before the terminating zero. *)
Fixpoint cstring (s : sds) : sds :=
  match s with [] => [] | c :: s => if c =? 0 then [] else c :: cstring s end.

(** [strcasecmp (s, t) == 0]. *)
Definition strcasecmp0 (s t : sds) : bool := bool_decide (map tolower (cstring s) = map tolower (cstring t)).

Definition s_after : sds := [97; 102; 116; 101; 114].
Definition s_before : sds := [98; 101; 102; 111; 114; 101].
Definition s_right : sds := [114; 105; 103; 104; 116].
Definition s_left : sds := [108; 101; 102; 116].
Definition s_RANK : sds := [82; 65; 78; 75].
Definition s_COUNT : sds := [67; 79; 85; 78; 84].
Definition s_MAXLEN : sds := [77; 65; 88; 76; 69; 78].
Definition s_lpop : sds := [76; 80; 79; 80].
Definition s_rpop : sds := [82; 80; 79; 80].
Definition s_lmove : sds := [76; 77; 79; 86; 69].
Definition s_rpoplpush : sds := [82; 80; 79; 80; 76; 80; 85; 83; 72].

(** The command that runs [lmoveGenericCommand]. *)
Inductive lmove_proc := lmoveProc | rpoplpushProc | blmoveProc | brpoplpushProc.

(** A function of the list at an address. *)
Definition read_list (a : addr) : C lobj :=
  v ← read_obj a; match v with VList o => mret o | _ => lift None end.
Definition on_list {A} (a : addr) (f : lobj -> option (A * lobj)) : C A :=
  o ← read_list a; '(r, o) ← lift (f o); write_obj a (VList o) ;; mret r.
Definition change_list (a : addr) (f : lobj -> option lobj) : C unit :=
  on_list a (fun o => o ← f o; Some (tt, o)).

Definition arg (argv : list sds) (j : nat) : C sds := lift (argv !! j).

(** A loop over the elements of a list. *)
Definition list_fuel (o : lobj) : nat :=
  match o with
  | ObjListpack lp => S (length lp)
  | ObjQuicklist q => S (Z.to_nat (Quicklist.ql_count (Quicklist.ql q)))
  end.

Section ListCmd.
Context `{Allocator} `{Quicklist.LzfMemory} (packed_threshold : Z) (conf : ListType.redisServer).
Context (ty : Dict.dictType sds) (can : Dict.dictResizeEnable) (server : environment) (access : Z -> Z) (initial_lru : Z).
(** [CLIENT_DENY_BLOCKING] of the client; and, for floating point numbers are
    not modelled, [ceill(1000 * x)] for the [long double] that [string2ld]
    reads in a string, an integer of any size, or nothing when it reads none. *)
Context (deny_blocking : bool) (milliseconds : sds -> option Z).

#[local] Abbreviation lookupKeyRead := (lookupKeyRead ty can server access).
#[local] Abbreviation lookupKeyWrite := (lookupKeyWrite ty can server access).
#[local] Abbreviation lookupKeyReadOrReply := (lookupKeyReadOrReply ty can server access).
#[local] Abbreviation lookupKeyWriteOrReply := (lookupKeyWriteOrReply ty can server access).
#[local] Abbreviation dbAdd := (dbAdd ty can initial_lru).
#[local] Abbreviation dbDelete := (dbDelete ty can server).

(** ** Pushing *)

Fixpoint push_loop (lobj : addr) (values : list sds) (where' : list_where) : C unit :=
  match values with
  | [] => mret tt
  | v :: values =>
      change_list lobj (fun o => listTypePush packed_threshold o (StrObj v) where') ;;
      add_dirty 1 ;;
      push_loop lobj values where'
  end.

Definition new_list (key : sds) : C addr :=
  o ← lift createListListpackObject;
  a ← createObject (VList o);
  dbAdd key a ;;
  mret a.

Definition pushGenericCommand (argv : list sds) (where' : list_where) (xx : bool) : C unit :=
  key ← arg argv 1;
  lobj ← lookupKeyWrite key;
  wrong ← checkType lobj OBJ_LIST;
  if (wrong : bool) then mret tt
  else
    match lobj, xx with
    | None, true => addReply (RLong 0)
    | _, _ =>
        lobj ← match lobj with Some a => mret a | None => new_list key end;
        change_list lobj (fun o => listTypeTryConversionAppend conf o (StrObj <$> drop 2 argv)) ;;
        push_loop lobj (drop 2 argv) where' ;;
        n ← on_list lobj listTypeLength;
        addReply (RLong n) ;;
        signalModifiedKey key ;;
        notifyKeyspaceEvent (match where' with LIST_HEAD => e_lpush | LIST_TAIL => e_rpush end) key
    end.

Definition lpushCommand (argv : list sds) : C unit := pushGenericCommand argv LIST_HEAD false.
Definition rpushCommand (argv : list sds) : C unit := pushGenericCommand argv LIST_TAIL false.
Definition lpushxCommand (argv : list sds) : C unit := pushGenericCommand argv LIST_HEAD true.
Definition rpushxCommand (argv : list sds) : C unit := pushGenericCommand argv LIST_TAIL true.

(** ** Insertion next to an element *)

Fixpoint linsert_loop (fuel : nat) (o : lobj) (iter : listTypeIterator) (pivot value : sds) (where' : list_where) :
    option (bool * listTypeIterator * lobj) :=
  match fuel with
  | O => None
  | S fuel =>
      '(more, iter, entry, o) ← listTypeNext o iter;
      if negb more then Some (false, iter, o)
      else
        '(eq, o) ← listTypeEqual o entry pivot;
        if (eq : bool) then
          '(iter, _, o) ← listTypeInsert packed_threshold o iter entry (StrObj value) where';
          Some (true, iter, o)
        else linsert_loop fuel o iter pivot value where'
  end.

Definition linsert_list (pivot value : sds) (where' : list_where) (o : lobj) : option (bool * lobj) :=
  '(iter, o) ← listTypeInitIterator o 0 LIST_TAIL;
  '(inserted, iter, o) ← linsert_loop (list_fuel o) o iter pivot value where';
  o ← listTypeReleaseIterator o iter;
  Some (inserted, o).

Definition linsertCommand (argv : list sds) : C unit :=
  pos ← arg argv 2;
  let where' := if strcasecmp0 pos s_after then Some LIST_TAIL else if strcasecmp0 pos s_before then Some LIST_HEAD else None in
  match where' with
  | None => addReply (RError SYNTAX)
  | Some where' =>
      key ← arg argv 1;
      subject ← lookupKeyWriteOrReply key (RLong 0);
      match subject with
      | None => mret tt
      | Some a =>
          wrong ← checkType subject OBJ_LIST;
          if (wrong : bool) then mret tt
          else
            pivot ← arg argv 3;
            value ← arg argv 4;
            change_list a (fun o => listTypeTryConversionAppend conf o [StrObj value]) ;;
            inserted ← on_list a (linsert_list pivot value where');
            if (inserted : bool) then
              signalModifiedKey key ;;
              notifyKeyspaceEvent e_linsert key ;;
              add_dirty 1 ;;
              n ← on_list a listTypeLength;
              addReply (RLong n)
            else addReply (RLong (-1))
      end
  end.

(** ** Length and elements *)

Definition llenCommand (argv : list sds) : C unit :=
  key ← arg argv 1;
  o ← lookupKeyReadOrReply key (RLong 0);
  match o with
  | None => mret tt
  | Some a =>
      wrong ← checkType o OBJ_LIST;
      if (wrong : bool) then mret tt else n ← on_list a listTypeLength; addReply (RLong n)
  end.

(** The bulk reply of a string, or of an integer that is written out. *)
Definition bulk_reply (v : sds + Z) : option reply :=
  match v with
  | inl s => Some (RBulk s)
  | inr z => s ← getDecodedObject (IntObj z); Some (RBulk s)
  end.

Definition lindex_list (index : Z) (o : lobj) : option (reply * lobj) :=
  '(iter, o) ← listTypeInitIterator o index LIST_TAIL;
  '(more, iter, entry, o) ← listTypeNext o iter;
  r ← (if (more : bool) then v ← listTypeGetValue o entry; bulk_reply v else Some RNull);
  o ← listTypeReleaseIterator o iter;
  Some (r, o).

Definition lindexCommand (argv : list sds) : C unit :=
  key ← arg argv 1;
  o ← lookupKeyReadOrReply key RNull;
  match o with
  | None => mret tt
  | Some a =>
      wrong ← checkType o OBJ_LIST;
      if (wrong : bool) then mret tt
      else
        idx ← arg argv 2;
        index ← getLongFromObjectOrReply idx None;
        match index with
        | None => mret tt
        | Some index => r ← on_list a (lindex_list index); addReply r
        end
  end.

Definition lsetCommand (argv : list sds) : C unit :=
  key ← arg argv 1;
  o ← lookupKeyWriteOrReply key (RError NOKEY);
  match o with
  | None => mret tt
  | Some a =>
      wrong ← checkType o OBJ_LIST;
      if (wrong : bool) then mret tt
      else
        idx ← arg argv 2;
        value ← arg argv 3;
        index ← getLongFromObjectOrReply idx None;
        match index with
        | None => mret tt
        | Some index =>
            change_list a (fun o => listTypeTryConversionAppend conf o [StrObj value]) ;;
            replaced ← on_list a (fun o => listTypeReplaceAtIndex packed_threshold o index (StrObj value));
            if (replaced : bool) then
              addReply ROk ;;
              signalModifiedKey key ;;
              notifyKeyspaceEvent e_lset key ;;
              add_dirty 1 ;;
              change_list a (fun o => listTypeTryConversion conf o LIST_CONV_SHRINKING)
            else addReply (RError OUTOFRANGE)
        end
  end.

(** ** Ranges *)

Fixpoint quicklist_range_loop (rangelen : nat) (q : Quicklist.state) (iter : option Quicklist.quicklistIter) :
    option (list reply * option Quicklist.quicklistIter * Quicklist.state) :=
  match rangelen with
  | O => Some ([], iter, q)
  | S rangelen =>
      it ← iter;
      '(more, it, qe, q) ← Quicklist.quicklistNext it q;
      _ ← assertb more;
      v ← Quicklist.e_value qe;
      r ← bulk_reply v;
      '(rs, iter, q) ← quicklist_range_loop rangelen q (Some it);
      Some (r :: rs, iter, q)
  end.

(** [from] and [rangelen] are [int]s; a negative [rangelen] overflows in the loop. *)
Definition addListQuicklistRangeReply (q : Quicklist.state) (from rangelen : Z) (reverse : bool) : option (list reply * Quicklist.state) :=
  let from := s32 from in
  let rangelen := s32 rangelen in
  _ ← assertb (0 <=? rangelen);
  let direction := if reverse then Quicklist.AL_START_TAIL else Quicklist.AL_START_HEAD in
  '(iter, q) ← Quicklist.quicklistGetIteratorAtIdx direction from q;
  '(rs, iter, q) ← quicklist_range_loop (Z.to_nat rangelen) q iter;
  '(_, q) ← Quicklist.quicklistReleaseIterator iter q;
  Some (RArrayLen rangelen :: rs, q).

Fixpoint listpack_range_loop (rangelen : nat) (lp : list Z) (p : option Z) (reverse : bool) : option (list reply) :=
  match rangelen with
  | O => Some []
  | S rangelen =>
      p ← p;
      v ← Quicklist.lp_value lp p;
      r ← bulk_reply v;
      p ← (if reverse then lpPrev lp p else lpNext lp p);
      rs ← listpack_range_loop rangelen lp p reverse;
      Some (r :: rs)
  end.

Definition addListListpackRangeReply (lp : list Z) (from rangelen : Z) (reverse : bool) : option (list reply) :=
  let from := s32 from in
  let rangelen := s32 rangelen in
  p ← lpSeek lp from;
  _ ← assertb (0 <=? rangelen);
  rs ← listpack_range_loop (Z.to_nat rangelen) lp p reverse;
  Some (RArrayLen rangelen :: rs).

Definition addListRangeReply (start end_ : Z) (reverse : bool) (o : lobj) : option (list reply * lobj) :=
  '(llen, o) ← listTypeLength o;
  let start := if start <? 0 then llen + start else start in
  let end_ := if end_ <? 0 then llen + end_ else end_ in
  let start := if start <? 0 then 0 else start in
  if (end_ <? start) || (llen <=? start) then Some ([RArrayLen 0], o)
  else
    let end_ := if llen <=? end_ then llen - 1 else end_ in
    let rangelen := end_ - start + 1 in
    let from := if reverse then end_ else start in
    match o with
    | ObjQuicklist q => '(rs, q) ← addListQuicklistRangeReply q from rangelen reverse; Some (rs, ObjQuicklist q)
    | ObjListpack lp => rs ← addListListpackRangeReply lp from rangelen reverse; Some (rs, o)
    end.

Fixpoint addReplies (rs : list reply) : C unit :=
  match rs with [] => mret tt | r :: rs => addReply r ;; addReplies rs end.

Definition rangeReply (a : addr) (start end_ : Z) (reverse : bool) : C unit :=
  rs ← on_list a (addListRangeReply start end_ reverse); addReplies rs.

Definition lrangeCommand (argv : list sds) : C unit :=
  key ← arg argv 1; s1 ← arg argv 2; s2 ← arg argv 3;
  start ← getLongFromObjectOrReply s1 None;
  match start with
  | None => mret tt
  | Some start =>
      end_ ← getLongFromObjectOrReply s2 None;
      match end_ with
      | None => mret tt
      | Some end_ =>
          o ← lookupKeyReadOrReply key (RArrayLen 0);
          match o with
          | None => mret tt
          | Some a =>
              wrong ← checkType o OBJ_LIST;
              if (wrong : bool) then mret tt else rangeReply a start end_ false
          end
      end
  end.

(** ** Removal from the ends *)

Definition listElementsRemoved (key : sds) (where' : list_where) (a : addr) (count : Z) (signal : bool) : C unit :=
  notifyKeyspaceEvent (match where' with LIST_HEAD => e_lpop | LIST_TAIL => e_rpop end) key ;;
  n ← on_list a listTypeLength;
  (if n =? 0 then dbDelete key ;; notifyKeyspaceEvent e_del key
   else change_list a (fun o => listTypeTryConversion conf o LIST_CONV_SHRINKING)) ;;
  when signal (signalModifiedKey key) ;;
  add_dirty count.

Definition range_len (count llen : Z) : Z := if llen <? count then llen else count.
Definition range_start (where' : list_where) (rangelen : Z) : Z := match where' with LIST_HEAD => 0 | LIST_TAIL => - rangelen end.
Definition range_end (where' : list_where) (rangelen : Z) : Z := match where' with LIST_HEAD => rangelen - 1 | LIST_TAIL => -1 end.
Definition range_reverse (where' : list_where) : bool := match where' with LIST_HEAD => false | LIST_TAIL => true end.

Definition listPopRangeAndReplyWithKey (a : addr) (key : sds) (where' : list_where) (count : Z) (signal : bool) : C unit :=
  llen ← on_list a listTypeLength;
  let rangelen := range_len count llen in
  addReply (RArrayLen 2) ;;
  addReply (RBulk key) ;;
  rangeReply a (range_start where' rangelen) (range_end where' rangelen) (range_reverse where') ;;
  change_list a (fun o => listTypeDelRange o (range_start where' rangelen) rangelen) ;;
  listElementsRemoved key where' a rangelen signal.

(** The bulk reply of a string object. *)
Definition addReplyBulk (o : strobj) : C unit := s ← lift (getDecodedObject o); addReply (RBulk s).

Definition pop_one (a : addr) (where' : list_where) : C strobj :=
  v ← on_list a (fun o => listTypePop o where'); lift v.

Definition popGenericCommand (argv : list sds) (where' : list_where) : C unit :=
  let hascount := Nat.eqb (length argv) 3 in
  if Nat.ltb 3 (length argv) then addReply (RError ARITY)
  else
    count ← (if hascount then s ← arg argv 2; getPositiveLongFromObjectOrReply s None else mret (Some 0));
    match count with
    | None => mret tt
    | Some count =>
        key ← arg argv 1;
        o ← lookupKeyWriteOrReply key (if hascount then RNullArray else RNull);
        match o with
        | None => mret tt
        | Some a =>
            wrong ← checkType o OBJ_LIST;
            if (wrong : bool) then mret tt
            else if hascount && (count =? 0) then addReply (RArrayLen 0)
            else if count =? 0 then
              value ← pop_one a where';
              addReplyBulk value ;;
              listElementsRemoved key where' a 1 true
            else
              llen ← on_list a listTypeLength;
              let rangelen := range_len count llen in
              rangeReply a (range_start where' rangelen) (range_end where' rangelen) (range_reverse where') ;;
              change_list a (fun o => listTypeDelRange o (range_start where' rangelen) rangelen) ;;
              listElementsRemoved key where' a rangelen true
        end
    end.

Definition lpopCommand (argv : list sds) : C unit := popGenericCommand argv LIST_HEAD.
Definition rpopCommand (argv : list sds) : C unit := popGenericCommand argv LIST_TAIL.

(** The decimal form of a count, for the command that is replicated. *)
Definition rewrite_pop (where' : list_where) (key : sds) (count : option Z) : C unit :=
  let name := match where' with LIST_HEAD => s_lpop | LIST_TAIL => s_rpop end in
  match count with
  | None => emit (RewriteCommand [name; key])
  | Some n => s ← lift (getDecodedObject (createStringObjectFromLongLong n)); emit (RewriteCommand [name; key; s])
  end.

Fixpoint mpop_loop (keys : list sds) (where' : list_where) (count : Z) : C unit :=
  match keys with
  | [] => addReply RNullArray
  | key :: keys =>
      o ← lookupKeyWrite key;
      match o with
      | None => mpop_loop keys where' count
      | Some a =>
          wrong ← checkType o OBJ_LIST;
          if (wrong : bool) then mret tt
          else
            llen ← on_list a listTypeLength;
            if llen =? 0 then mpop_loop keys where' count
            else
              listPopRangeAndReplyWithKey a key where' count true ;;
              rewrite_pop where' key (Some (range_len count llen))
      end
  end.

Definition mpopGenericCommand (keys : list sds) (where' : list_where) (count : Z) : C unit := mpop_loop keys where' count.

(** ** Trimming *)

Definition trim_list (ltrim rtrim : Z) (o : lobj) : option lobj :=
  match o with
  | ObjQuicklist q =>
      '(_, q) ← Quicklist.quicklistDelRange 0 ltrim q;
      '(_, q) ← Quicklist.quicklistDelRange (- rtrim) rtrim q;
      Some (ObjQuicklist q)
  | ObjListpack lp =>
      lp ← lpDeleteRange lp 0 (u64 ltrim);
      lp ← lpDeleteRange lp (- rtrim) (u64 rtrim);
      Some (ObjListpack lp)
  end.

(** How many elements [ltrimCommand] removes at the head and at the tail. *)
Definition trim_amounts (llen start end_ : Z) : Z * Z :=
  let start := if start <? 0 then llen + start else start in
  let end_ := if end_ <? 0 then llen + end_ else end_ in
  let start := if start <? 0 then 0 else start in
  if (end_ <? start) || (llen <=? start) then (llen, 0)
  else
    let end_ := if llen <=? end_ then llen - 1 else end_ in
    (start, llen - end_ - 1).

Definition ltrimCommand (argv : list sds) : C unit :=
  key ← arg argv 1; s1 ← arg argv 2; s2 ← arg argv 3;
  start ← getLongFromObjectOrReply s1 None;
  match start with
  | None => mret tt
  | Some start =>
      end_ ← getLongFromObjectOrReply s2 None;
      match end_ with
      | None => mret tt
      | Some end_ =>
          o ← lookupKeyWriteOrReply key ROk;
          match o with
          | None => mret tt
          | Some a =>
              wrong ← checkType o OBJ_LIST;
              if (wrong : bool) then mret tt
              else
                llen ← on_list a listTypeLength;
                let '(ltrim, rtrim) := trim_amounts llen start end_ in
                change_list a (trim_list ltrim rtrim) ;;
                notifyKeyspaceEvent e_ltrim key ;;
                n ← on_list a listTypeLength;
                (if n =? 0 then dbDelete key ;; notifyKeyspaceEvent e_del key
                 else change_list a (fun o => listTypeTryConversion conf o LIST_CONV_SHRINKING)) ;;
                signalModifiedKey key ;;
                add_dirty (ltrim + rtrim) ;;
                addReply ROk
          end
      end
  end.

(** ** Searching *)

Record lpos_options := { rank : Z; lp_count : Z; maxlen : Z }.

(** [None] when an error was replied. *)
Fixpoint lpos_parse (fuel : nat) (opts : list sds) (c : lpos_options) : C (option lpos_options) :=
  match fuel, opts with
  | _, [] => mret (Some c)
  | O, _ => lift None
  | S fuel, opt :: more =>
      match more with
      | v :: rest =>
          if strcasecmp0 opt s_RANK then
            r ← getRangeLongFromObjectOrReply v (- LLONG_MAX) LLONG_MAX None;
            match r with
            | None => mret None
            | Some r => if r =? 0 then addReply (RError RANK_ZERO) ;; mret None
                        else lpos_parse fuel rest {| rank := r; lp_count := lp_count c; maxlen := maxlen c |}
            end
          else if strcasecmp0 opt s_COUNT then
            r ← getPositiveLongFromObjectOrReply v (Some COUNT_NEGATIVE);
            match r with
            | None => mret None
            | Some r => lpos_parse fuel rest {| rank := rank c; lp_count := r; maxlen := maxlen c |}
            end
          else if strcasecmp0 opt s_MAXLEN then
            r ← getPositiveLongFromObjectOrReply v (Some MAXLEN_NEGATIVE);
            match r with
            | None => mret None
            | Some r => lpos_parse fuel rest {| rank := rank c; lp_count := lp_count c; maxlen := r |}
            end
          else addReply (RError SYNTAX) ;; mret None
      | [] => addReply (RError SYNTAX) ;; mret None
      end
  end.

(** The loop: the indices that are replied, and [matchindex]. *)
Fixpoint lpos_loop (fuel : nat) (o : lobj) (li : listTypeIterator) (ele : sds) (direction : list_where) (c : lpos_options) (llen index matches : Z) :
    option (list Z * Z * listTypeIterator * lobj) :=
  match fuel with
  | O => None
  | S fuel =>
      '(more, li, entry, o) ← listTypeNext o li;
      if negb (more && ((maxlen c =? 0) || (index <? maxlen c))) then Some ([], -1, li, o)
      else
        '(eq, o) ← listTypeEqual o entry ele;
        if (eq : bool) then
          let matches := matches + 1 in
          let matchindex := match direction with LIST_TAIL => index | LIST_HEAD => llen - index - 1 end in
          if rank c <=? matches then
            if negb (lp_count c =? -1) then
              if negb (lp_count c =? 0) && (lp_count c <=? matches - rank c + 1) then Some ([matchindex], matchindex, li, o)
              else
                '(l, m, li, o) ← lpos_loop fuel o li ele direction c llen (index + 1) matches;
                Some (matchindex :: l, m, li, o)
            else Some ([], matchindex, li, o)
          else lpos_loop fuel o li ele direction c llen (index + 1) matches
        else lpos_loop fuel o li ele direction c llen (index + 1) matches
  end.

Definition lpos_list (ele : sds) (direction : list_where) (c : lpos_options) (o : lobj) : option (list Z * Z * lobj) :=
  '(li, o) ← listTypeInitIterator o (match direction with LIST_HEAD => -1 | LIST_TAIL => 0 end) direction;
  '(llen, o) ← listTypeLength o;
  '(l, m, li, o) ← lpos_loop (list_fuel o) o li ele direction c llen 0 0;
  o ← listTypeReleaseIterator o li;
  Some (l, m, o).

Definition lposCommand (argv : list sds) : C unit :=
  ele ← arg argv 2;
  r ← lpos_parse (length argv) (drop 3 argv) {| rank := 1; lp_count := -1; maxlen := 0 |};
  match r with
  | None => mret tt
  | Some c =>
      let direction := if rank c <? 0 then LIST_HEAD else LIST_TAIL in
      let c := if rank c <? 0 then {| rank := - rank c; lp_count := lp_count c; maxlen := maxlen c |} else c in
      key ← arg argv 1;
      o ← lookupKeyRead key;
      match o with
      | None => addReply (if negb (lp_count c =? -1) then RArrayLen 0 else RNull)
      | Some a =>
          wrong ← checkType o OBJ_LIST;
          if (wrong : bool) then mret tt
          else
            arraylenptr ← gets (fun w => length (out w));
            when (negb (lp_count c =? -1)) (addReply RDeferredLen) ;;
            '(l, matchindex) ← on_list a (fun o => '(l, m, o) ← lpos_list ele direction c o; Some ((l, m), o));
            addReplies (RLong <$> l) ;;
            if negb (lp_count c =? -1) then modify (fun w => with_out (<[arraylenptr := RArrayLen (Zlen l)]> (out w)) w)
            else if negb (matchindex =? -1) then addReply (RLong matchindex)
            else addReply RNull
      end
  end.

(** ** Removal of equal elements *)

Fixpoint lrem_loop (fuel : nat) (o : lobj) (li : listTypeIterator) (obj : sds) (toremove removed : Z) :
    option (Z * listTypeIterator * lobj) :=
  match fuel with
  | O => None
  | S fuel =>
      '(more, li, entry, o) ← listTypeNext o li;
      if negb more then Some (removed, li, o)
      else
        '(eq, o) ← listTypeEqual o entry obj;
        if (eq : bool) then
          '(li, o) ← listTypeDelete o li entry;
          let removed := removed + 1 in
          if negb (toremove =? 0) && (removed =? toremove) then Some (removed, li, o)
          else lrem_loop fuel o li obj toremove removed
        else lrem_loop fuel o li obj toremove removed
  end.

(** [- toremove] overflows for the smallest [long]. *)
Definition lrem_list (toremove : Z) (obj : sds) (o : lobj) : option (Z * lobj) :=
  '(toremove, li, o) ←
    (if toremove <? 0 then
       _ ← assertb (negb (toremove =? LLONG_MIN));
       '(li, o) ← listTypeInitIterator o (-1) LIST_HEAD; Some (- toremove, li, o)
     else '(li, o) ← listTypeInitIterator o 0 LIST_TAIL; Some (toremove, li, o));
  '(removed, li, o) ← lrem_loop (list_fuel o) o li obj toremove 0;
  o ← listTypeReleaseIterator o li;
  Some (removed, o).

Definition lremCommand (argv : list sds) : C unit :=
  key ← arg argv 1; s ← arg argv 2; obj ← arg argv 3;
  toremove ← getLongFromObjectOrReply s None;
  match toremove with
  | None => mret tt
  | Some toremove =>
      subject ← lookupKeyWriteOrReply key (RLong 0);
      match subject with
      | None => mret tt
      | Some a =>
          wrong ← checkType subject OBJ_LIST;
          if (wrong : bool) then mret tt
          else
            removed ← on_list a (lrem_list toremove obj);
            add_dirty removed ;;
            when (negb (removed =? 0)) (signalModifiedKey key ;; notifyKeyspaceEvent e_lrem key) ;;
            n ← on_list a listTypeLength;
            (if n =? 0 then dbDelete key ;; notifyKeyspaceEvent e_del key
             else when (negb (removed =? 0)) (change_list a (fun o => listTypeTryConversion conf o LIST_CONV_SHRINKING))) ;;
            addReply (RLong removed)
      end
  end.

(** ** Moving an element *)

Definition lmoveHandlePush (dstkey : sds) (dstobj : option addr) (value : strobj) (where' : list_where) : C unit :=
  dstobj ← match dstobj with Some a => mret a | None => new_list dstkey end;
  signalModifiedKey dstkey ;;
  change_list dstobj (fun o => listTypeTryConversionAppend conf o [value]) ;;
  change_list dstobj (fun o => listTypePush packed_threshold o value where') ;;
  notifyKeyspaceEvent (match where' with LIST_HEAD => e_lpush | LIST_TAIL => e_rpush end) dstkey ;;
  addReplyBulk value.

(** [None] when an error was replied. *)
Definition getListPositionFromObjectOrReply (s : sds) : C (option list_where) :=
  if strcasecmp0 s s_right then mret (Some LIST_TAIL)
  else if strcasecmp0 s s_left then mret (Some LIST_HEAD)
  else addReply (RError SYNTAX) ;; mret None.

Definition lmoveGenericCommand (argv : list sds) (proc : lmove_proc) (wherefrom whereto : list_where) : C unit :=
  src ← arg argv 1;
  sobj ← lookupKeyWriteOrReply src RNull;
  match sobj with
  | None => mret tt
  | Some sa =>
      wrong ← checkType sobj OBJ_LIST;
      if (wrong : bool) then mret tt
      else
        n ← on_list sa listTypeLength;
        if n =? 0 then addReply RNull
        else
          dst ← arg argv 2;
          dobj ← lookupKeyWrite dst;
          wrong ← checkType dobj OBJ_LIST;
          if (wrong : bool) then mret tt
          else
            value ← pop_one sa wherefrom;
            lmoveHandlePush dst dobj value whereto ;;
            listElementsRemoved src wherefrom sa 1 true ;;
            match proc with
            | blmoveProc => a3 ← arg argv 3; a4 ← arg argv 4; emit (RewriteCommand [s_lmove; src; dst; a3; a4])
            | brpoplpushProc => emit (RewriteCommand [s_rpoplpush; src; dst])
            | _ => mret tt
            end
  end.

Definition lmoveCommand (argv : list sds) : C unit :=
  a3 ← arg argv 3;
  wherefrom ← getListPositionFromObjectOrReply a3;
  match wherefrom with
  | None => mret tt
  | Some wherefrom =>
      a4 ← arg argv 4;
      whereto ← getListPositionFromObjectOrReply a4;
      match whereto with
      | None => mret tt
      | Some whereto => lmoveGenericCommand argv lmoveProc wherefrom whereto
      end
  end.

Definition rpoplpushCommand (argv : list sds) : C unit := lmoveGenericCommand argv rpoplpushProc LIST_TAIL LIST_HEAD.

(** ** Blocking commands *)

(** For [UNIT_SECONDS]: the time at which the client is woken, 0 for never. *)
Definition getTimeoutFromObjectOrReply (s : sds) : C (option Z) :=
  let now := commandTimeSnapshot server in
  match milliseconds s with
  | None => addReply (RError TIMEOUT_MSG) ;; mret None
  | Some ftval =>
      if LLONG_MAX <? ftval then addReply (RError TIMEOUT_RANGE) ;; mret None
      else
        let tval := ftval in
        if tval <? 0 then addReply (RError TIMEOUT_SIGN) ;; mret None
        else if 0 <? tval then
          if LLONG_MAX - now <? tval then addReply (RError TIMEOUT_RANGE) ;; mret None
          else mret (Some (tval + now))
        else mret (Some tval)
  end.

Fixpoint blocking_loop (all keys : list sds) (where' : list_where) (timeout count : Z) : C unit :=
  match keys with
  | [] => if deny_blocking then addReply RNullArray else emit (BlockForKeys all timeout)
  | key :: keys =>
      o ← lookupKeyWrite key;
      match o with
      | None => blocking_loop all keys where' timeout count
      | Some a =>
          wrong ← checkType o OBJ_LIST;
          if (wrong : bool) then mret tt
          else
            llen ← on_list a listTypeLength;
            if llen =? 0 then blocking_loop all keys where' timeout count
            else if negb (count =? -1) then
              listPopRangeAndReplyWithKey a key where' count true ;;
              rewrite_pop where' key (Some (range_len count llen))
            else
              (value ← pop_one a where';
               (addReply (RArrayLen 2) ;; addReply (RBulk key)) ;;
               addReplyBulk value ;;
               listElementsRemoved key where' a 1 true) ;;
              rewrite_pop where' key None
      end
  end.

Definition blockingPopGenericCommand (keys : list sds) (where' : list_where) (timeout_arg : sds) (count : Z) : C unit :=
  timeout ← getTimeoutFromObjectOrReply timeout_arg;
  match timeout with
  | None => mret tt
  | Some timeout => blocking_loop keys keys where' timeout count
  end.

(** The keys are between the name of the command and the timeout. *)
Definition blpopCommand (argv : list sds) : C unit :=
  t ← lift (last argv); blockingPopGenericCommand (drop 1 (take (length argv - 1) argv)) LIST_HEAD t (-1).
Definition brpopCommand (argv : list sds) : C unit :=
  t ← lift (last argv); blockingPopGenericCommand (drop 1 (take (length argv - 1) argv)) LIST_TAIL t (-1).

Definition blmoveGenericCommand (argv : list sds) (proc : lmove_proc) (wherefrom whereto : list_where) (timeout : Z) : C unit :=
  src ← arg argv 1;
  key ← lookupKeyWrite src;
  wrong ← checkType key OBJ_LIST;
  if (wrong : bool) then mret tt
  else
    match key with
    | None => if deny_blocking then addReply RNull else emit (BlockForKeys [src] timeout)
    | Some a =>
        n ← on_list a listTypeLength;
        assert (0 <? n) ;;
        lmoveGenericCommand argv proc wherefrom whereto
    end.

Definition blmoveCommand (argv : list sds) : C unit :=
  a3 ← arg argv 3;
  wherefrom ← getListPositionFromObjectOrReply a3;
  match wherefrom with
  | None => mret tt
  | Some wherefrom =>
      a4 ← arg argv 4;
      whereto ← getListPositionFromObjectOrReply a4;
      match whereto with
      | None => mret tt
      | Some whereto =>
          a5 ← arg argv 5;
          timeout ← getTimeoutFromObjectOrReply a5;
          match timeout with
          | None => mret tt
          | Some timeout => blmoveGenericCommand argv blmoveProc wherefrom whereto timeout
          end
      end
  end.

Definition brpoplpushCommand (argv : list sds) : C unit :=
  a3 ← arg argv 3;
  timeout ← getTimeoutFromObjectOrReply a3;
  match timeout with
  | None => mret tt
  | Some timeout => blmoveGenericCommand argv brpoplpushProc LIST_TAIL LIST_HEAD timeout
  end.

(** [None] when an error was replied. *)
Fixpoint lmpop_parse (fuel : nat) (opts : list sds) (count : Z) : C (option Z) :=
  match fuel, opts with
  | _, [] => mret (Some count)
  | O, _ => lift None
  | S fuel, opt :: more =>
      match more with
      | v :: rest =>
          if (count =? -1) && strcasecmp0 opt s_COUNT then
            r ← getRangeLongFromObjectOrReply v 1 LLONG_MAX (Some COUNT_MSG);
            match r with None => mret None | Some r => lmpop_parse fuel rest r end
          else addReply (RError SYNTAX) ;; mret None
      | [] => addReply (RError SYNTAX) ;; mret None
      end
  end.

(** The index after the keys is a [long]. *)
Definition lmpopGenericCommand (argv : list sds) (numkeys_idx : nat) (is_block : bool) : C unit :=
  s ← arg argv numkeys_idx;
  numkeys ← getRangeLongFromObjectOrReply s 1 LLONG_MAX (Some NUMKEYS_MSG);
  match numkeys with
  | None => mret tt
  | Some numkeys =>
      let where_idx := Z.of_nat numkeys_idx + numkeys + 1 in
      assert (where_idx <=? LLONG_MAX) ;;
      if Zlen argv <=? where_idx then addReply (RError SYNTAX)
      else
        ws ← arg argv (Z.to_nat where_idx);
        where' ← getListPositionFromObjectOrReply ws;
        match where' with
        | None => mret tt
        | Some where' =>
            count ← lmpop_parse (length argv) (drop (S (Z.to_nat where_idx)) argv) (-1);
            match count with
            | None => mret tt
            | Some count =>
                let count := if count =? -1 then 1 else count in
                let keys := take (Z.to_nat numkeys) (drop (S numkeys_idx) argv) in
                if is_block then t ← arg argv 1; blockingPopGenericCommand keys where' t count
                else mpopGenericCommand keys where' count
            end
        end
  end.

Definition lmpopCommand (argv : list sds) : C unit := lmpopGenericCommand argv 1 false.
Definition blmpopCommand (argv : list sds) : C unit := lmpopGenericCommand argv 2 true.

End ListCmd.

End ListCmd.
