(* ===== verification/ListLoop.v ===== *)
(** * The loops of the list commands

    The parts of the commands of ListCmd.v that walk over a list object:
    searching, inserting, removing, replying with a range and trimming, as
    functions of the list of strings. *)

From stdpp Require Import gmap.
From S2P Require Import Prelude.
From S2P Require Import NumConv.
From S2P Require Import ListpackEnc.
From S2P Require Import Listpack.
From S2P Require Import ListpackOps.
From S2P Require Import ListpackEdit.
From S2P Require Import Quicklist.
From S2P Require Import QuicklistSpec.
From S2P Require Import QuicklistNode.
From S2P Require Import QuicklistPush.
From S2P Require Import QuicklistDel.
From S2P Require Import QuicklistSeek.
From S2P Require Import QuicklistRange.
From S2P Require Import QuicklistIter.
From S2P Require Import QuicklistMerge.
From S2P Require Import QuicklistInsert.
From S2P Require Import QuicklistRun.
From S2P Require Import ListType.
From S2P Require Import ListSpec.
From S2P Require Import ListIter.
From S2P Require Import Dict.
From S2P Require Import Keyspace.
From S2P Require Import ListCmd.
Import NumConv LpEnc Lp LpOps LpEdit Quicklist QlSpec QlNode QlPush QlDel QlSeek QlRange QlIter QlMerge QlInsert QlRun ListType ListSpec ListIter Keyspace ListCmd.

Module ListLoop.

(** The elements that an iterator before index [g] still returns. *)
Definition ahead_of (dir : list_where) (xs : list sds) (g : Z) : list sds :=
  match dir with LIST_TAIL => drop (Z.to_nat g) xs | LIST_HEAD => reverse (take (Z.to_nat g) xs) end.

Definition is_packed (o : lobj) : bool := match o with ObjListpack _ => true | ObjQuicklist _ => false end.

Lemma fits_packed o o' n : is_packed o' = is_packed o -> fits o n -> fits o' n.
Proof. by destruct o, o'. Qed.

(** ** What the commands do to a list *)

(** LINSERT: next to the first element equal to the pivot. *)
Definition insert_next (pivot value : sds) (w : list_where) (xs : list sds) : option (list sds) :=
  '(i, _) ← list_find (fun x => x = pivot) xs; Some (put (slot (after_of w) i) value xs).

(** LREM: up to a number of equal elements, or all of them. *)
Fixpoint remove_upto (lim : option nat) (x : sds) (xs : list sds) : list sds :=
  match xs with
  | [] => []
  | y :: ys =>
      if bool_decide (y = x) then
        match lim with
        | None => remove_upto None x ys
        | Some O => xs
        | Some (S n) => remove_upto (Some n) x ys
        end
      else y :: remove_upto lim x ys
  end.

Definition remove_count (n : Z) (x : sds) (xs : list sds) : list sds :=
  let lim := if n =? 0 then None else Some (Z.to_nat (Z.abs n)) in
  if n <? 0 then reverse (remove_upto lim x (reverse xs)) else remove_upto lim x xs.

(** LPOS: the positions of equal elements, from [k] on. *)
Fixpoint hits (k : Z) (x : sds) (xs : list sds) : list Z :=
  match xs with
  | [] => []
  | y :: xs => if bool_decide (y = x) then k :: hits (k + 1) x xs else hits (k + 1) x xs
  end.

(** The first [maxlen] elements are compared, the first [rank - 1] matches are
    skipped; without a count the first match is returned, with 0 all of them. *)
Definition positions (x : sds) (dir : list_where) (c : lpos_options) (xs : list sds) : list Z :=
  let l := match dir with LIST_TAIL => xs | LIST_HEAD => reverse xs end in
  let l := if maxlen c =? 0 then l else take (Z.to_nat (maxlen c)) l in
  let ps := drop (Z.to_nat (rank c - 1)) (hits 0 x l) in
  let ps := if lp_count c =? 0 then ps else take (Z.to_nat (Z.abs (lp_count c))) ps in
  (fun j => match dir with LIST_TAIL => j | LIST_HEAD => Zlen xs - j - 1 end) <$> ps.

(** LRANGE: indices from 0, negative ones from the end. *)
Definition slice (start stop : Z) (xs : list sds) : list sds :=
  let from := Z.max 0 (list_index (Zlen xs) start) in
  let to := Z.min (Zlen xs - 1) (list_index (Zlen xs) stop) in
  take (Z.to_nat (to + 1 - from)) (drop (Z.to_nat from) xs).

Section ListLoop.
Context `{Allocator} `{LzfMemory} (packed_threshold : Z).

#[local] Set Default Proof Using "Type".

(** ** Iteration *)

Lemma ahead_step dir xs g s : 0 <= g <= Zlen xs -> 0 <= g - 1 + onwards dir -> xs !! Z.to_nat (g - 1 + onwards dir) = Some s ->
  ahead_of dir xs g = s :: ahead_of dir xs (g - 1 + onwards dir + onwards dir).
Proof.
  intros Hg Hi Hs. destruct dir; cbn [onwards ahead_of] in *.
  - rewrite !Z.add_0_r in *. replace (Z.to_nat g) with (S (Z.to_nat (g - 1))) by lia. by rewrite (take_S_r _ _ _ Hs), reverse_snoc.
  - replace (g - 1 + 1) with g in * by lia. replace (Z.to_nat (g + 1)) with (S (Z.to_nat g)) by lia. by apply drop_S.
Qed.

Lemma next_ahead sg o li xs g :
  scanning sg o li xs g ->
  exists b li' e o', listTypeNext o li = Some (b, li', e, o') /\ li_direction li' = li_direction li /\ is_packed o' = is_packed o /\
    match ahead_of (li_direction li) xs g with
    | [] => b = false /\ scanning sg o' li' xs g
    | s :: rest => b = true /\ let i := g - 1 + onwards (li_direction li) in
        at_elem sg o' li' e xs i s /\ ahead_of (li_direction li) xs (i + onwards (li_direction li)) = rest
    end.
Proof.
  intros Hsc. destruct (listTypeNext_spec sg o li xs g Hsc) as (b & li' & e & o' & Hn & Hd & Hr). exists b, li', e, o'. split; [done|]. split; [done|].
  split. { unfold listTypeNext in Hn. destruct (pos_of li) as [[p|]|[it|]], o as [lp|q]; try done; try (by injection Hn as <- <- <- <-).
    - apply bind_Some in Hn as (p' & _ & Hn). by injection Hn as <- <- <- <-.
    - apply bind_Some in Hn as ([[[found it'] e'] q'] & _ & Hn). by injection Hn as <- <- <- <-. }
  pose proof (sc_gap _ _ _ _ _ Hsc) as Hg. destruct b.
  - destruct Hr as (s & He). rewrite (ahead_step _ xs g s Hg (ae_range _ _ _ _ _ _ _ He) (ae_elem _ _ _ _ _ _ _ He)). done.
  - destruct Hr as [Hg' Hsc']. assert (ahead_of (li_direction li) xs g = []) as ->; [|done]. rewrite Hg'. destruct (li_direction li); cbn [onwards ahead_of]; [done|]. apply drop_ge. lia.
Qed.

Lemma init_packed o idx dir li o' : listTypeInitIterator o idx dir = Some (li, o') -> is_packed o' = is_packed o.
Proof. destruct o as [lp|q]; cbn [listTypeInitIterator]; intros (? & _ & Hr)%bind_Some; [by injection Hr as <- <-|]. destruct x. by injection Hr as <- <-. Qed.

(** Enough steps for a loop over all elements. *)
Lemma scanning_fuel sg o li xs g : scanning sg o li xs g -> (length xs < list_fuel o)%nat.
Proof.
  intros [Hby Hsz Hg Hok]. unfold scan_ok, list_fuel in *. destruct o as [lp|q], (pos_of li) as [p|it]; try done.
  - destruct Hok as (es & Hlp & -> & _ & _). pose proof (length_bound _ _ Hlp). rewrite length_fmap. lia.
  - destruct Hok as (F & C & L & SS & u & bs & _ & -> & _). cbn [conc ql qlof ql_count]. lia.
Qed.

Lemma ahead_length dir xs g : 0 <= g <= Zlen xs -> (length (ahead_of dir xs g) <= length xs)%nat.
Proof. intros Hg. destruct dir; cbn [ahead_of]; [rewrite length_reverse, length_take|rewrite length_drop]; lia. Qed.

(** ** Insertion *)

Lemma linsert_loop_spec pivot value w xs :
  bytes_ok value -> bytes (value :: xs) < MAX_BYTES ->
  forall fuel o li g, scanning true o li xs g -> li_direction li = LIST_TAIL -> fits o (Zlen xs + 1) -> (length (ahead_of LIST_TAIL xs g) < fuel)%nat ->
  exists li' o1 o2, linsert_loop packed_threshold fuel o li pivot value w = Some (match list_find (fun x => x = pivot) (drop (Z.to_nat g) xs) with Some _ => true | None => false end, li', o1) /\
    listTypeReleaseIterator o1 li' = Some o2 /\
    is_list o2 (match list_find (fun x => x = pivot) (drop (Z.to_nat g) xs) with Some (i, _) => put (slot (after_of w) (Z.to_nat g + i)) value xs | None => xs end).
Proof.
  intros Hv Hb. induction fuel as [|fuel IH]; intros o li g Hsc Hd Hfit Hf; [lia|]. cbn [linsert_loop]. pose proof (sc_gap _ _ _ _ _ Hsc) as Hg.
  destruct (next_ahead _ _ _ _ _ Hsc) as (b & li' & e & o' & -> & Hd' & Hp & Hr). rewrite Hd in *. cbn [mbind option_bind]. destruct (ahead_of LIST_TAIL xs g) as [|s rest] eqn:Ea.
  - destruct Hr as [-> Hsc']. cbn [negb]. cbn [ahead_of] in Ea. rewrite Ea. cbn. destruct (releaseIterator_spec _ _ _ _ _ Hsc') as (o2 & Hrel & Hil). by exists li', o', o2.
  - destruct Hr as (-> & He & Ea'). cbn [negb onwards] in *. replace (g - 1 + 1) with g in * by lia. cbn [ahead_of] in Ea, Ea'. rewrite Ea. cbn [list_find].
    rewrite (listTypeEqual_spec _ _ _ _ _ _ _ pivot He). cbn [mbind option_bind]. destruct (decide (s = pivot)) as [->|Hne].
    + rewrite bool_decide_true by done. destruct (listTypeInsert_spec packed_threshold _ _ _ _ _ _ _ (StrObj value) value w He eq_refl Hv Hb (fits_packed _ _ _ Hp Hfit)) as (li2 & e2 & o1 & o2 & -> & Hrel & Hil).
      cbn [mbind option_bind]. exists li2, o1, o2. rewrite Nat.add_0_r. done.
    + rewrite bool_decide_false by done. assert (Hsc' := at_elem_scanning _ _ _ _ _ _ _ He). rewrite Hd' in Hsc'. cbn [onwards] in Hsc'.
      destruct (IH o' li' (g + 1) Hsc' Hd' (fits_packed _ _ _ Hp Hfit)) as (li2 & o1 & o2 & -> & Hrel & Hil); [cbn [ahead_of]; rewrite Ea'; cbn [length] in Hf; lia|].
      rewrite Ea' in *. exists li2, o1, o2. destruct (list_find _ rest) as [[i y]|]; cbn in *; [|done]. split; [done|]. split; [done|]. by replace (Z.to_nat g + S i)%nat with (Z.to_nat (g + 1) + i)%nat by lia.
Qed.

(** From one end to the other. *)
Lemma start_scan o xs dir :
  is_list o xs ->
  exists li o', listTypeInitIterator o (match dir with LIST_HEAD => -1 | LIST_TAIL => 0 end) dir = Some (li, o') /\ li_direction li = dir /\ is_packed o' = is_packed o /\
    scanning true o' li xs (match dir with LIST_HEAD => Zlen xs | LIST_TAIL => 0 end).
Proof.
  intros Hil. set (idx := match dir with LIST_HEAD => -1 | LIST_TAIL => 0 end).
  destruct (initIterator_spec o xs idx dir Hil) as (li & o' & Hi & Hd & Hsc); [unfold index_ok, idx; destruct dir; lia|]. exists li, o'. split; [done|]. split; [done|]. split; [by eapply init_packed|].
  assert (Hg : (if found xs idx then list_index (Zlen xs) idx + 1 - onwards dir else onwards dir * Zlen xs) = match dir with LIST_HEAD => Zlen xs | LIST_TAIL => 0 end).
  { unfold found, list_index, idx. destruct dir; cbn [onwards].
    - change (-1 <? 0) with true. cbn match. destruct (bool_decide_reflect (0 <= Zlen xs + -1 < Zlen xs)); lia.
    - change (0 <? 0) with false. cbn match. destruct (bool_decide_reflect (0 <= 0 < Zlen xs)); lia. }
  rewrite Hg in Hsc. by destruct dir.
Qed.

Lemma ahead_start dir (xs : list sds) :
  ahead_of dir xs (match dir with LIST_HEAD => Zlen xs | LIST_TAIL => 0 end) = match dir with LIST_HEAD => reverse xs | LIST_TAIL => xs end.
Proof. destruct dir; cbn [ahead_of]; [by rewrite take_ge by lia|done]. Qed.

Lemma linsert_list_spec o xs pivot value w :
  is_list o xs -> bytes_ok value -> bytes (value :: xs) < MAX_BYTES -> fits o (Zlen xs + 1) ->
  exists o', linsert_list packed_threshold pivot value w o = Some (match insert_next pivot value w xs with Some _ => true | None => false end, o') /\
    is_list o' (default xs (insert_next pivot value w xs)).
Proof.
  intros Hil Hv Hb Hfit. unfold linsert_list. destruct (start_scan o xs LIST_TAIL Hil) as (li & o1 & -> & Hd & Hp & Hsc). cbn [mbind option_bind].
  destruct (linsert_loop_spec pivot value w xs Hv Hb (list_fuel o1) o1 li 0 Hsc Hd (fits_packed _ _ _ Hp Hfit)) as (li' & o2 & o3 & -> & Hrel & Hil'); [apply (scanning_fuel _ _ _ _ _ Hsc)|].
  cbn [mbind option_bind]. rewrite Hrel. cbn [mbind option_bind]. exists o3. unfold insert_next. rewrite drop_0 in *. by destruct (list_find _ xs) as [[i y]|].
Qed.

(** ** Removal *)

(** The list with other elements in place of those ahead. *)
Definition glue (dir : list_where) (xs : list sds) (g : Z) (rest : list sds) : list sds :=
  match dir with LIST_TAIL => take (Z.to_nat g) xs ++ rest | LIST_HEAD => reverse rest ++ drop (Z.to_nat g) xs end.

Lemma glue_ahead dir xs g : glue dir xs g (ahead_of dir xs g) = xs.
Proof. destruct dir; cbn [glue ahead_of]; [rewrite reverse_involutive|]; apply take_drop. Qed.

Lemma glue_keep dir xs g s rest : 0 <= g -> let i := g - 1 + onwards dir in 0 <= i -> xs !! Z.to_nat i = Some s ->
  glue dir xs (i + onwards dir) rest = glue dir xs g (s :: rest).
Proof.
  intros Hg i Hi Hs. unfold i in *. destruct dir; cbn [onwards glue] in *.
  - rewrite !Z.add_0_r in *. rewrite (drop_S _ _ _ Hs), reverse_cons, <- app_assoc. cbn [app]. do 3 f_equal. lia.
  - replace (g - 1 + 1) with g in * by lia. replace (Z.to_nat (g + 1)) with (S (Z.to_nat g)) by lia. by rewrite (take_S_r _ _ _ Hs), <- app_assoc.
Qed.

Lemma glue_without dir xs g rest : 0 <= g -> let i := g - 1 + onwards dir in 0 <= i < Zlen xs ->
  glue dir (without (Z.to_nat i) xs) i rest = glue dir xs g rest /\ ahead_of dir (without (Z.to_nat i) xs) i = ahead_of dir xs (i + onwards dir).
Proof.
  intros Hg i Hi. unfold i in *. destruct dir; cbn [onwards glue ahead_of] in *; unfold without.
  - rewrite !Z.add_0_r in *. rewrite drop_app_length', take_app_length' by (rewrite length_take; lia). split; [|done]. do 2 f_equal. lia.
  - replace (g - 1 + 1) with g in * by lia. rewrite drop_app_length', take_app_length' by (rewrite length_take; lia). split; [done|]. f_equal. lia.
Qed.

Lemma remove_none x xs : remove_upto (Some O) x xs = xs.
Proof. induction xs as [|y xs IH]; [done|]. cbn [remove_upto]. case_bool_decide; [done|]. by rewrite IH. Qed.

Lemma remove_shorter lim x xs : Zlen (remove_upto lim x xs) <= Zlen xs.
Proof.
  revert lim. induction xs as [|y xs IH]; intros lim; [done|]. cbn [remove_upto]. case_bool_decide; [|cbn [length]; specialize (IH lim); lia].
  destruct lim as [[|n]|]; [done|specialize (IH (Some n))|specialize (IH None)]; cbn [length]; lia.
Qed.

Definition limit_left (toremove removed : Z) (lim : option nat) : Prop :=
  match lim with None => toremove = 0 | Some n => 0 < toremove /\ removed < toremove /\ n = Z.to_nat (toremove - removed) end.

Lemma lrem_loop_spec obj toremove : forall fuel o li xs g removed lim,
  scanning true o li xs g -> limit_left toremove removed lim -> 0 <= removed -> let dir := li_direction li in (length (ahead_of dir xs g) < fuel)%nat ->
  let rest := remove_upto lim obj (ahead_of dir xs g) in
  exists li' o1 o2, lrem_loop fuel o li obj toremove removed = Some (removed + (Zlen (ahead_of dir xs g) - Zlen rest), li', o1) /\
    listTypeReleaseIterator o1 li' = Some o2 /\ is_list o2 (glue dir xs g rest).
Proof.
  induction fuel as [|fuel IH]; intros o li xs g removed lim Hsc Hlim Hrm dir Hf; [lia|]. cbn [lrem_loop]. pose proof (sc_gap _ _ _ _ _ Hsc) as Hg.
  destruct (next_ahead _ _ _ _ _ Hsc) as (b & li' & e & o' & -> & Hd' & _ & Hr). fold dir in Hr, Hd'. cbn [mbind option_bind]. destruct (ahead_of dir xs g) as [|s rest] eqn:Ea.
  - destruct Hr as [-> Hsc']. cbn [negb remove_upto length]. destruct (releaseIterator_spec _ _ _ _ _ Hsc') as (o2 & Hrel & Hil). exists li', o', o2. rewrite <- Ea, glue_ahead. rewrite Z.add_0_r. done.
  - destruct Hr as (-> & He & Ea'). cbn [negb]. set (i := g - 1 + onwards dir) in *. pose proof (lookup_lt_Some _ _ _ (ae_elem _ _ _ _ _ _ _ He)) as Hlt. pose proof (ae_range _ _ _ _ _ _ _ He) as Hi.
    rewrite (listTypeEqual_spec _ _ _ _ _ _ _ obj He). cbn [mbind option_bind remove_upto length] in *. case_bool_decide as Heq.
    + subst s. destruct (listTypeDelete_spec _ _ _ _ _ _ He) as (li2 & o2 & -> & Hd2 & Hsc2). cbn [mbind option_bind]. rewrite Hd' in Hd2.
      destruct (glue_without dir xs g (remove_upto (match lim with Some (S n) => Some n | _ => lim end) obj rest) ltac:(lia)) as [Hgl Hah]; [fold i; lia|]. fold i in Hgl, Hah. rewrite Ea' in Hah.
      destruct (negb (toremove =? 0) && (removed + 1 =? toremove)) eqn:Estop.
      * destruct lim as [[|n]|]; cbn [limit_left] in Hlim; try lia. assert (n = O) as -> by lia. rewrite remove_none in *. destruct (releaseIterator_spec _ _ _ _ _ Hsc2) as (o3 & Hrel & Hil).
        exists li2, o2, o3. split; [do 3 f_equal; lia|]. split; [done|]. rewrite <- Hgl, <- Hah, glue_ahead. done.
      * assert (Hlim' : limit_left toremove (removed + 1) (match lim with Some (S n) => Some n | _ => lim end)) by (destruct lim as [[|n]|]; cbn [limit_left] in *; lia).
        destruct (IH o2 li2 _ i (removed + 1) _ Hsc2 Hlim' ltac:(lia)) as (li3 & o3 & o4 & Hloop & Hrel & Hil); [rewrite Hd2, Hah; lia|]. rewrite Hd2, Hah in Hloop, Hil.
        exists li3, o3, o4. rewrite Hloop. split; [|split; [done|]].
        -- destruct lim as [[|n]|]; cbn [limit_left] in Hlim; try lia; do 3 f_equal; lia.
        -- destruct lim as [[|n]|]; cbn [limit_left] in Hlim; try lia; rewrite <- Hgl; exact Hil.
    + assert (Hsc' := at_elem_scanning _ _ _ _ _ _ _ He). rewrite Hd' in Hsc'.
      destruct (IH o' li' xs (i + onwards dir) removed lim Hsc' Hlim Hrm) as (li2 & o1 & o2 & Hloop & Hrel & Hil); [rewrite Hd', Ea'; lia|]. rewrite Hd', Ea' in Hloop, Hil.
      exists li2, o1, o2. rewrite Hloop. cbn [length]. split; [do 3 f_equal; lia|]. split; [done|].
      rewrite <- (glue_keep _ xs g s _ ltac:(lia)); [exact Hil|fold i; lia|apply (ae_elem _ _ _ _ _ _ _ He)].
Qed.

Lemma lrem_list_spec o xs n x :
  is_list o xs -> LLONG_MIN < n <= LLONG_MAX ->
  exists o', lrem_list n x o = Some (Zlen xs - Zlen (remove_count n x xs), o') /\ is_list o' (remove_count n x xs).
Proof.
  intros Hil Hn. unfold lrem_list, remove_count.
  assert (Hlim : forall lim, lim = (if n =? 0 then None else Some (Z.to_nat (Z.abs n))) -> limit_left (Z.abs n) 0 lim) by (intros lim ->; unfold limit_left; destruct (Z.eqb_spec n 0); lia).
  set (lim := if n =? 0 then _ else _) in *. specialize (Hlim lim eq_refl).
  set (dir := if n <? 0 then LIST_HEAD else LIST_TAIL).
  destruct (start_scan o xs dir Hil) as (li & o1 & Hinit & Hd & _ & Hsc). pose proof (scanning_fuel _ _ _ _ _ Hsc) as Hfu.
  set (g := match dir with LIST_HEAD => Zlen xs | LIST_TAIL => 0 end) in *. assert (Hgr := sc_gap _ _ _ _ _ Hsc).
  destruct (lrem_loop_spec x (Z.abs n) (list_fuel o1) o1 li xs g 0 lim Hsc Hlim ltac:(lia)) as (li' & o2 & o3 & Hloop & Hrel & Hil'); [pose proof (ahead_length (li_direction li) xs g Hgr); lia|].
  assert (Hfirst : (if n <? 0 then _ ← assertb (negb (n =? LLONG_MIN)); '(li, o) ← listTypeInitIterator o (-1) LIST_HEAD; Some (- n, li, o)
     else '(li, o) ← listTypeInitIterator o 0 LIST_TAIL; Some (n, li, o)) = Some (Z.abs n, li, o1)).
  { unfold dir in Hinit. destruct (Z.ltb_spec n 0); [|rewrite Hinit; cbn; do 3 f_equal; lia]. rewrite (proj2 (Z.eqb_neq n LLONG_MIN)) by lia. cbn [assertb negb mbind option_bind]. rewrite Hinit. cbn. do 3 f_equal. lia. }
  rewrite Hfirst. cbn [mbind option_bind]. rewrite Hloop. cbn [mbind option_bind]. rewrite Hrel. cbn [mbind option_bind]. exists o3. rewrite Hd in *. unfold g in *. rewrite (ahead_start dir xs) in *.
  unfold dir in *. destruct (Z.ltb_spec n 0); cbn [glue] in Hil'.
  - rewrite drop_ge, app_nil_r in Hil' by lia. rewrite !length_reverse. split; [do 2 f_equal; lia|done].
  - cbn [take] in Hil'. rewrite Z.add_0_l. done.
Qed.

(** ** Searching *)

Lemma bulk_spec v s : reads v s -> bulk_reply v = Some (RBulk s).
Proof. intros Hr. pose proof (str_decoded _ _ (reads_str _ _ Hr)) as Hd. destruct v as [t|z]; cbn in *; [by injection Hd as ->|]. by rewrite Hd. Qed.

Definition element (xs : list sds) (idx : Z) : option sds := if found xs idx then xs !! at_index xs idx else None.

Lemma lindex_list_spec o xs idx :
  is_list o xs -> index_ok idx ->
  exists o', lindex_list idx o = Some (match element xs idx with Some s => RBulk s | None => RNull end, o') /\ is_list o' xs.
Proof.
  intros Hil Hidx. unfold lindex_list, element, at_index. destruct (initIterator_spec o xs idx LIST_TAIL Hil Hidx) as (li & o1 & -> & Hd & Hsc). cbn [mbind option_bind onwards] in *.
  set (g := if found xs idx then _ else _) in Hsc. destruct (next_ahead _ _ _ _ _ Hsc) as (b & li' & e & o' & -> & Hd' & _ & Hr). rewrite Hd in *. cbn [mbind option_bind onwards] in *.
  assert (Hhd : (if found xs idx then xs !! Z.to_nat (list_index (Zlen xs) idx) else None) = hd_error (ahead_of LIST_TAIL xs g)).
  { cbn [ahead_of]. rewrite head_lookup, lookup_drop, Nat.add_0_r. unfold g. destruct (found xs idx); [f_equal; lia|]. symmetry. apply lookup_ge_None_2. lia. }
  rewrite Hhd. destruct (ahead_of LIST_TAIL xs g) as [|s rest]; cbn [hd_error].
  - destruct Hr as [-> Hsc']. destruct (releaseIterator_spec _ _ _ _ _ Hsc') as (o2 & Hrel & Hil'). cbn [mbind option_bind]. rewrite Hrel. by exists o2.
  - destruct Hr as (-> & He & _). destruct (listTypeGetValue_spec _ _ _ _ _ _ _ He) as (v & Hv & Hrd). rewrite Hv. cbn [mbind option_bind]. rewrite (bulk_spec _ _ Hrd). cbn [mbind option_bind].
    destruct (releaseIterator_spec _ _ _ _ _ (at_elem_scanning _ _ _ _ _ _ _ He)) as (o2 & Hrel & Hil'). rewrite Hrel. by exists o2.
Qed.

(** What the search still compares, and what it still returns. *)
Definition to_scan (c : lpos_options) (k : Z) (rest : list sds) : list sds := if maxlen c =? 0 then rest else take (Z.to_nat (maxlen c - k)) rest.
Definition to_return (c : lpos_options) (m : Z) (hs : list Z) : list Z :=
  let ps := drop (Z.to_nat (rank c - 1 - m)) hs in
  if lp_count c =? 0 then ps else take (Z.to_nat (Z.abs (lp_count c) - Z.max 0 (m - (rank c - 1)))) ps.

Definition lpos_ok (c : lpos_options) : Prop := 1 <= rank c /\ -1 <= lp_count c /\ 0 <= maxlen c.

Lemma scan_stop c k s rest : lpos_ok c -> maxlen c <> 0 -> maxlen c <= k -> to_scan c k (s :: rest) = [].
Proof. intros Hc Hm Hk. unfold to_scan. rewrite (proj2 (Z.eqb_neq _ _)) by done. by replace (Z.to_nat (maxlen c - k)) with O by lia. Qed.

Lemma scan_cons c k s rest : lpos_ok c -> maxlen c = 0 \/ k < maxlen c -> to_scan c k (s :: rest) = s :: to_scan c (k + 1) rest.
Proof. intros Hc Hk. unfold to_scan. destruct (Z.eqb_spec (maxlen c) 0); [done|]. by replace (Z.to_nat (maxlen c - k)) with (S (Z.to_nat (maxlen c - (k + 1)))) by lia. Qed.

Lemma return_skip c m j hs : m + 1 < rank c -> to_return c m (j :: hs) = to_return c (m + 1) hs.
Proof. intros Hm. unfold to_return. replace (Z.to_nat (rank c - 1 - m)) with (S (Z.to_nat (rank c - 1 - (m + 1)))) by lia. cbn [drop]. destruct (lp_count c =? 0); [done|]. do 2 f_equal. lia. Qed.

Lemma return_hit c m j hs : rank c <= m + 1 -> lp_count c = 0 \/ m - rank c + 1 < Z.abs (lp_count c) -> to_return c m (j :: hs) = j :: to_return c (m + 1) hs.
Proof.
  intros Hm Hc. unfold to_return. replace (Z.to_nat (rank c - 1 - m)) with O by lia. replace (Z.to_nat (rank c - 1 - (m + 1))) with O by lia. cbn [drop].
  destruct (Z.eqb_spec (lp_count c) 0); [done|]. replace (Z.to_nat (_ - Z.max 0 (m - _))) with (S (Z.to_nat (Z.abs (lp_count c) - Z.max 0 (m + 1 - (rank c - 1))))) by lia. done.
Qed.

Lemma return_full c m hs : rank c <= m -> lp_count c <> 0 -> Z.abs (lp_count c) <= m - rank c + 1 -> to_return c m hs = [].
Proof. intros Hm Hc Hn. unfold to_return. rewrite (proj2 (Z.eqb_neq _ _)) by done. by replace (Z.to_nat (Z.abs _ - _)) with O by lia. Qed.

Definition place (dir : list_where) (llen j : Z) : Z := match dir with LIST_TAIL => j | LIST_HEAD => llen - j - 1 end.

Lemma lpos_loop_spec x c xs : lpos_ok c -> forall fuel o li g k m,
  scanning true o li xs g -> let dir := li_direction li in (length (ahead_of dir xs g) < fuel)%nat -> 0 <= m ->
  m < rank c \/ lp_count c = 0 \/ m - rank c + 1 < lp_count c ->
  let ps := place dir (Zlen xs) <$> to_return c m (hits k x (to_scan c k (ahead_of dir xs g))) in
  exists l mi li' o1 o2, lpos_loop fuel o li x dir c (Zlen xs) k m = Some (l, mi, li', o1) /\ listTypeReleaseIterator o1 li' = Some o2 /\ is_list o2 xs /\
    if lp_count c =? -1 then l = [] /\ mi = default (-1) (hd_error ps) else l = ps.
Proof.
  intros Hc. induction fuel as [|fuel IH]; intros o li g k m Hsc dir Hf Hm Hleft; [lia|]. cbn [lpos_loop].
  destruct (next_ahead _ _ _ _ _ Hsc) as (b & li' & e & o' & -> & Hd' & _ & Hr). fold dir in Hr, Hd'. cbn [mbind option_bind]. destruct (ahead_of dir xs g) as [|s rest] eqn:Ea.
  { destruct Hr as [-> Hsc']. cbn [negb andb]. destruct (releaseIterator_spec _ _ _ _ _ Hsc') as (o2 & Hrel & Hil). exists [], (-1), li', o', o2. do 3 (split; [done|]).
    unfold to_scan, to_return. rewrite take_nil. destruct (maxlen c =? 0); cbn [hits]; rewrite drop_nil, ?take_nil; by destruct (lp_count c =? 0), (lp_count c =? -1). }
  destruct Hr as (-> & He & Ea'). assert (Hsc' := at_elem_scanning _ _ _ _ _ _ _ He). rewrite Hd' in Hsc'. destruct (releaseIterator_spec _ _ _ _ _ Hsc') as (o2 & Hrel & Hil).
  destruct ((maxlen c =? 0) || (k <? maxlen c)) eqn:Emax; cbn [negb andb].
  2: { apply orb_false_iff in Emax as [E1%Z.eqb_neq E2%Z.ltb_ge]. exists [], (-1), li', o', o2. rewrite (scan_stop _ _ _ _ Hc E1 E2). cbn [hits]. do 3 (split; [done|]).
    unfold to_return. rewrite drop_nil, take_nil. by destruct (lp_count c =? 0), (lp_count c =? -1). }
  assert (Hk : maxlen c = 0 \/ k < maxlen c) by lia. rewrite (scan_cons _ _ _ _ Hc Hk). cbn [hits]. rewrite (listTypeEqual_spec _ _ _ _ _ _ _ x He). cbn [mbind option_bind].
  assert (HIH : forall m', 0 <= m' -> m' < rank c \/ lp_count c = 0 \/ m' - rank c + 1 < lp_count c ->
    exists l mi li'' o1 o2, lpos_loop fuel o' li' x dir c (Zlen xs) (k + 1) m' = Some (l, mi, li'', o1) /\ listTypeReleaseIterator o1 li'' = Some o2 /\ is_list o2 xs /\
      if lp_count c =? -1 then l = [] /\ mi = default (-1) (hd_error (place dir (Zlen xs) <$> to_return c m' (hits (k + 1) x (to_scan c (k + 1) rest))))
      else l = place dir (Zlen xs) <$> to_return c m' (hits (k + 1) x (to_scan c (k + 1) rest))).
  { intros m' Hm' Hl'. destruct (IH o' li' _ (k + 1) m' Hsc') as (l & mi & li'' & o1 & o3 & Hx); [rewrite Hd', Ea'; cbn [length] in Hf; lia|done|done|]. rewrite Hd', Ea' in Hx. by exists l, mi, li'', o1, o3. }
  case_bool_decide as Heq; [|by apply HIH]. destruct (Z.leb_spec (rank c) (m + 1)) as [Hrk|Hrk].
  2: { rewrite (return_skip _ _ _ _ Hrk). apply HIH; lia. }
  destruct Hc as (Hc1 & Hc2 & Hc3). destruct (Z.eqb_spec (lp_count c) (-1)) as [Hcn|Hcn]; cbn [negb].
  - exists [], (place dir (Zlen xs) k), li', o', o2. do 3 (split; [done|]). rewrite (return_hit _ _ _ _ Hrk) by lia. done.
  - rewrite (return_hit _ _ _ _ Hrk) by lia. rewrite fmap_cons. destruct (Z.eqb_spec (lp_count c) 0) as [Hz|Hz]; cbn [negb andb].
    + destruct (HIH (m + 1) ltac:(lia) ltac:(lia)) as (l & mi & li2 & o1 & o3 & -> & Hrel' & Hil' & Hl). cbn [mbind option_bind]. exists (place dir (Zlen xs) k :: l), mi, li2, o1, o3. by rewrite Hl.
    + destruct (Z.leb_spec (lp_count c) (m + 1 - rank c + 1)) as [Hfull|Hmore].
      * eexists [_], _, li', o', o2. do 3 (split; [done|]). rewrite (return_full c (m + 1)) by lia. done.
      * destruct (HIH (m + 1) ltac:(lia) ltac:(lia)) as (l & mi & li2 & o1 & o3 & -> & Hrel' & Hil' & Hl). cbn [mbind option_bind]. exists (place dir (Zlen xs) k :: l), mi, li2, o1, o3. by rewrite Hl.
Qed.

Lemma lpos_list_spec o xs x dir c :
  is_list o xs -> lpos_ok c ->
  exists l mi o', lpos_list x dir c o = Some (l, mi, o') /\ is_list o' xs /\
    if lp_count c =? -1 then l = [] /\ mi = default (-1) (hd_error (positions x dir c xs)) else l = positions x dir c xs.
Proof.
  intros Hil Hc. unfold lpos_list. destruct (start_scan o xs dir Hil) as (li & o1 & -> & Hd & _ & Hsc). cbn [mbind option_bind].
  assert (Hlen : listTypeLength o1 = Some (Zlen xs, o1) \/ exists lp lp' , o1 = ObjListpack lp /\ listTypeLength o1 = Some (Zlen xs, ObjListpack lp') /\ scanning true (ObjListpack lp') li xs (match dir with LIST_HEAD => Zlen xs | LIST_TAIL => 0 end)).
  { pose proof Hsc as [Hby Hsz Hg Hok]. unfold scan_ok in Hok. destruct o1 as [lp|q], (pos_of li) as [p|it] eqn:Ep; try done.
    - right. destruct Hok as (es & Hlp & Hxs & Hl & Hp). destruct (lpLength_spec lp es Hlp) as (lp' & Hle & Hlp' & _). exists lp, lp'. split; [done|]. cbn [listTypeLength]. rewrite Hle, Hxs, length_fmap. split; [done|].
      rewrite Hxs, length_fmap in *. split; [done|done|by rewrite length_fmap|]. unfold scan_ok. rewrite Ep. exists es. by rewrite length_fmap.
    - left. destruct Hok as (F & C & L & SS & u & bs & _ & -> & _). done. }
  assert (Hgo : exists o2, listTypeLength o1 = Some (Zlen xs, o2) /\ scanning true o2 li xs (match dir with LIST_HEAD => Zlen xs | LIST_TAIL => 0 end)) by (destruct Hlen as [Hl|(lp & lp' & _ & Hl & Hs)]; eauto).
  destruct Hgo as (o2 & -> & Hsc2). cbn [mbind option_bind]. pose proof (scanning_fuel _ _ _ _ _ Hsc2) as Hfu. pose proof (ahead_length dir xs _ (sc_gap _ _ _ _ _ Hsc2)) as Hal.
  destruct (lpos_loop_spec x c xs Hc (list_fuel o2) o2 li _ 0 0 Hsc2) as (l & mi & li' & o3 & o4 & Hloop & Hrel & Hil' & Hres); [rewrite Hd; lia|lia|destruct Hc; lia|].
  rewrite Hd in *. rewrite Hloop. cbn [mbind option_bind]. rewrite Hrel. cbn [mbind option_bind]. exists l, mi, o4. split; [done|]. split; [done|].
  rewrite (ahead_start dir xs) in Hres. unfold positions. fold (place dir (Zlen xs)). unfold to_return, to_scan in Hres. rewrite !Z.sub_0_r in Hres.
  replace (Z.max 0 (0 - (rank c - 1))) with 0 in Hres by (destruct Hc; lia). rewrite Z.sub_0_r in Hres. exact Hres.
Qed.

(** ** Ranges *)

Lemma quicklist_range_spec dir xs : forall n q it g,
  scanning false (ObjQuicklist q) {| li_direction := dir; pos_of := LiQuicklist (Some it) |} xs g -> (n <= length (ahead_of dir xs g))%nat ->
  exists it' q' g', quicklist_range_loop n q (Some it) = Some (RBulk <$> take n (ahead_of dir xs g), Some it', q') /\
    scanning false (ObjQuicklist q') {| li_direction := dir; pos_of := LiQuicklist (Some it') |} xs g'.
Proof.
  induction n as [|n IH]; intros q it g Hsc Hn; [by exists it, q, g|]. destruct (next_ahead _ _ _ _ _ Hsc) as (b & li' & e & o' & Hnx & Hd' & _ & Hr). cbn [li_direction] in *.
  destruct (ahead_of dir xs g) as [|s rest] eqn:Ea; [cbn [length] in Hn; lia|]. destruct Hr as (-> & He & Ea'). unfold listTypeNext in Hnx. cbn [pos_of li_direction] in Hnx.
  apply bind_Some in Hnx as ([[[more it1] qe] q1] & Hq & Hnx). injection Hnx as -> <- <- <-. cbn [quicklist_range_loop mbind option_bind]. rewrite Hq. cbn [mbind option_bind assertb].
  destruct (listTypeGetValue_spec _ _ _ _ _ _ _ He) as (v & Hv & Hrd). cbn [listTypeGetValue] in Hv. rewrite Hv. cbn [mbind option_bind]. rewrite (bulk_spec _ _ Hrd). cbn [mbind option_bind].
  destruct (IH q1 it1 _ (at_elem_scanning _ _ _ _ _ _ _ He)) as (it' & q' & g' & -> & Hsc'); cbn [li_direction]; rewrite Ea'; [cbn [length] in Hn; lia|]. cbn [mbind option_bind]. by exists it', q', g'.
Qed.

Lemma listpack_range_spec reverse lp xs : let dir := if (reverse : bool) then LIST_HEAD else LIST_TAIL in
  forall n p g, scanning false (ObjListpack lp) {| li_direction := dir; pos_of := LiListpack p |} xs g -> (n <= length (ahead_of dir xs g))%nat ->
  listpack_range_loop n lp p reverse = Some (RBulk <$> take n (ahead_of dir xs g)).
Proof using H H0.
  intros dir. induction n as [|n IH]; intros p g Hsc Hn; [done|]. destruct (next_ahead _ _ _ _ _ Hsc) as (b & li' & e & o' & Hnx & Hd' & _ & Hr). cbn [li_direction] in *.
  destruct (ahead_of dir xs g) as [|s rest] eqn:Ea; [cbn [length] in Hn; lia|]. destruct Hr as (-> & He & Ea'). unfold listTypeNext in Hnx. cbn [pos_of li_direction] in Hnx. destruct p as [p|]; [|done].
  apply bind_Some in Hnx as (p' & Hp & Hnx). injection Hnx as <- <- <-. cbn [listpack_range_loop mbind option_bind].
  destruct (listTypeGetValue_spec _ _ _ _ _ _ _ He) as (v & Hv & Hrd). cbn [listTypeGetValue] in Hv. rewrite Hv. cbn [mbind option_bind]. rewrite (bulk_spec _ _ Hrd). cbn [mbind option_bind].
  assert (Hp' : (if reverse then lpPrev lp p else lpNext lp p) = Some p') by (unfold dir in Hp; by destruct reverse). rewrite Hp'. cbn [mbind option_bind].
  rewrite (IH p' _ (at_elem_scanning _ _ _ _ _ _ _ He)); cbn [li_direction]; rewrite Ea'; [done|cbn [length] in Hn; lia].
Qed.

Lemma scanning_weaken sg o li xs g : scanning sg o li xs g -> scanning false o li xs g.
Proof.
  intros [Hby Hsz Hg Hok]. split; [done..|]. unfold scan_ok in *. destruct o as [lp|q], (pos_of li) as [p|[it|]]; try done.
  destruct Hok as (F & C & L & SS & u & bs & E1 & E2 & E3 & E4 & E5 & E6 & E7 & _). exists F, C, L, SS, u, bs. by do 7 (split; [done|]).
Qed.

(** A range of a given length from an index, in either direction. *)
Lemma range_reply_spec o xs from n reverse :
  is_list o xs -> let dir := if (reverse : bool) then LIST_HEAD else LIST_TAIL in 0 <= from < Zlen xs -> 0 <= n <= Zlen (ahead_of dir xs (from + 1 - onwards dir)) ->
  exists o', (match o with
    | ObjQuicklist q => '(rs, q) ← addListQuicklistRangeReply q from n reverse; Some (rs, ObjQuicklist q)
    | ObjListpack lp => rs ← addListListpackRangeReply lp from n reverse; Some (rs, o)
    end) = Some (RArrayLen n :: (RBulk <$> take (Z.to_nat n) (ahead_of dir xs (from + 1 - onwards dir))), o') /\ is_list o' xs.
Proof.
  intros Hil dir Hf Hn. pose proof (is_list_short _ _ Hil) as Hsh. assert (Hal : Zlen (ahead_of dir xs (from + 1 - onwards dir)) <= Zlen xs) by (pose proof (ahead_length dir xs (from + 1 - onwards dir)); destruct dir; cbn [onwards] in *; lia).
  assert (Hs32 : forall z, 0 <= z < 2 ^ 28 -> s32 z = z) by (intros z Hz; apply swrap_small; lia).
  destruct (initIterator_spec o xs from dir Hil) as (li & o1 & Hi & Hd & Hsc); [unfold index_ok; lia|]. apply scanning_weaken in Hsc.
  assert (Hg : (if found xs from then list_index (Zlen xs) from + 1 - onwards dir else onwards dir * Zlen xs) = from + 1 - onwards dir).
  { unfold found, list_index. rewrite (proj2 (Z.ltb_ge _ _)) by lia. by rewrite bool_decide_true. }
  rewrite Hg in Hsc. destruct o as [lp|q]; cbn [listTypeInitIterator] in Hi.
  - apply bind_Some in Hi as (p & Hp & Hi). injection Hi as <- <-. unfold addListListpackRangeReply. rewrite !Hs32 by lia. rewrite Hp. cbn [mbind option_bind]. rewrite (proj2 (Z.leb_le 0 n)) by lia. cbn [assertb mbind option_bind].
    rewrite (listpack_range_spec reverse lp xs (Z.to_nat n) p _ Hsc) by (fold dir; lia). fold dir. cbn [mbind option_bind]. by exists (ObjListpack lp).
  - apply bind_Some in Hi as ([it q1] & Hq & Hi). injection Hi as <- <-. unfold addListQuicklistRangeReply. rewrite !Hs32 by lia. rewrite (proj2 (Z.leb_le 0 n)) by lia. cbn [assertb mbind option_bind].
    assert (Hdir : (if reverse then AL_START_TAIL else AL_START_HEAD) = iter_direction dir) by by destruct reverse. rewrite Hdir, Hq. cbn [mbind option_bind].
    destruct it as [it|].
    + destruct (quicklist_range_spec dir xs (Z.to_nat n) q1 it _ Hsc) as (it' & q' & g' & -> & Hsc'); [lia|]. cbn [mbind option_bind]. destruct (releaseIterator_spec _ _ _ _ _ Hsc') as (o2 & Hrel & Hil').
      cbn [listTypeReleaseIterator pos_of] in Hrel. apply bind_Some in Hrel as ([u q2] & Hrq & Hrel). rewrite Hrq. cbn [mbind option_bind]. injection Hrel as <-. by eexists.
    + exfalso. pose proof (sc_ok _ _ _ _ _ Hsc) as Hok. unfold scan_ok in Hok. cbn [pos_of li_direction] in Hok. destruct Hok as (F & C & L & SS & u & bs & _ & _ & _ & _ & _ & _ & Hgg). destruct dir; cbn [onwards] in Hgg; lia.
Qed.

Lemma slice_length start stop (xs : list sds) : let from := Z.max 0 (list_index (Zlen xs) start) in let to := Z.min (Zlen xs - 1) (list_index (Zlen xs) stop) in
  from <= to -> Zlen (slice start stop xs) = to + 1 - from.
Proof. intros from to Hle. unfold slice. fold from to. rewrite length_take, length_drop. lia. Qed.

Lemma addListRangeReply_spec o xs start stop reverse :
  is_list o xs -> LLONG_MIN <= start <= LLONG_MAX -> LLONG_MIN <= stop <= LLONG_MAX ->
  let r := slice start stop xs in
  exists o', addListRangeReply start stop reverse o = Some (RArrayLen (Zlen r) :: (RBulk <$> if (reverse : bool) then list.reverse r else r), o') /\ is_list o' xs.
Proof.
  intros Hil Hs He r. unfold addListRangeReply. destruct (listTypeLength_spec o xs Hil) as (o1 & -> & Hil1 & _). cbn [mbind option_bind]. pose proof (is_list_short _ _ Hil) as Hsh.
  set (a := if start <? 0 then Zlen xs + start else start). set (b := if stop <? 0 then Zlen xs + stop else stop). set (a' := if a <? 0 then 0 else a).
  assert (Ha : a' = Z.max 0 (list_index (Zlen xs) start)) by (unfold a', list_index; fold a; destruct (Z.ltb_spec a 0); lia). change b with (list_index (Zlen xs) stop). clearbody a'. subst a'. clear a b.
  unfold r, slice. set (from := Z.max 0 _). set (b := list_index _ stop). destruct ((b <? from) || (Zlen xs <=? from)) eqn:E.
  { exists o1. split; [|done]. assert (take (Z.to_nat (Z.min (Zlen xs - 1) b + 1 - from)) (drop (Z.to_nat from) xs) = []) as ->; [|by destruct reverse].
    apply orb_true_iff in E as [E%Z.ltb_lt|E%Z.leb_le]; [by replace (Z.to_nat _) with O by lia|]. rewrite drop_ge by lia. apply take_nil. }
  apply orb_false_iff in E as [E1%Z.ltb_ge E2%Z.leb_gt]. set (to := if Zlen xs <=? b then Zlen xs - 1 else b). assert (Hto : to = Z.min (Zlen xs - 1) b) by (unfold to; destruct (Z.leb_spec (Zlen xs) b); lia). rewrite <- Hto. clearbody to.
  destruct (range_reply_spec o1 xs (if reverse then to else from) (to - from + 1) reverse Hil1) as (o2 & -> & Hil2); [destruct reverse; lia| |].
  - destruct reverse; cbn [ahead_of onwards]; [rewrite length_reverse, length_take|rewrite length_drop]; lia.
  - exists o2. split; [|done]. rewrite length_take, length_drop. do 3 f_equal; [f_equal; lia|]. destruct reverse; cbn [ahead_of onwards].
    + rewrite Z.sub_0_r. f_equal. rewrite <- (take_drop (Z.to_nat from) (take (Z.to_nat (to + 1)) xs)), reverse_app, take_app_length'; [|rewrite length_reverse, length_drop, length_take; lia].
      f_equal. rewrite skipn_firstn_comm. f_equal. lia.
    + do 2 f_equal; [lia|f_equal; lia].
Qed.

(** ** Trimming and popping *)

Lemma trim_delRange ltrim rtrim o : trim_list ltrim rtrim o = (o ← listTypeDelRange o 0 ltrim; listTypeDelRange o (- rtrim) rtrim).
Proof. destruct o as [lp|q]; cbn [trim_list listTypeDelRange]; [by destruct (lpDeleteRange lp 0 (u64 ltrim))|]. by destruct (quicklistDelRange 0 ltrim q) as [[b q1]|]. Qed.

(** The elements that are popped, in the order of the reply, and the others. *)
Definition pop_many (w : list_where) (n : Z) (xs : list sds) : list sds * list sds :=
  match w with
  | LIST_HEAD => (take (Z.to_nat n) xs, drop (Z.to_nat n) xs)
  | LIST_TAIL => (reverse (drop (Z.to_nat (Zlen xs - n)) xs), take (Z.to_nat (Zlen xs - n)) xs)
  end.

Lemma del_head n xs : 0 <= n <= Zlen xs -> del_range 0 n xs = drop (Z.to_nat n) xs.
Proof.
  intros Hn. unfold del_range, found, list_index, cut. change (0 <? 0) with false. cbn match. destruct (Z.ltb_spec 0 n); cbn [andb]; [|by replace n with 0 by lia].
  rewrite bool_decide_true by lia. change (Z.to_nat 0) with O. rewrite take_0, app_nil_l. f_equal. lia.
Qed.

Lemma del_tail n xs : 0 <= n <= Zlen xs -> del_range (- n) n xs = take (Z.to_nat (Zlen xs - n)) xs.
Proof.
  intros Hn. unfold del_range, found, list_index, cut. destruct (Z.ltb_spec 0 n); cbn [andb]; [|rewrite take_ge by lia; done].
  rewrite (proj2 (Z.ltb_lt (- n) 0)) by lia. rewrite bool_decide_true by lia. rewrite (drop_ge xs) by lia. rewrite app_nil_r. f_equal.
Qed.

Lemma pop_range_spec o xs w n :
  is_list o xs -> 0 <= n <= Zlen xs -> exists o', listTypeDelRange o (range_start w n) n = Some o' /\ is_list o' (pop_many w n xs).2.
Proof.
  intros Hil Hn. pose proof (is_list_short _ _ Hil). destruct (listTypeDelRange_spec o xs (range_start w n) n Hil) as (o' & -> & Hil'); [unfold index_ok; destruct w; cbn [range_start]; lia|lia|].
  exists o'. split; [done|]. destruct w; cbn [range_start pop_many snd] in *; [by rewrite del_head in Hil'|by rewrite del_tail in Hil'].
Qed.

Lemma pop_reply_spec o xs w n :
  is_list o xs -> 0 < n <= Zlen xs ->
  exists o', addListRangeReply (range_start w n) (range_end w n) (range_reverse w) o = Some (RArrayLen n :: (RBulk <$> (pop_many w n xs).1), o') /\ is_list o' xs.
Proof.
  intros Hil Hn. pose proof (is_list_short _ _ Hil).
  destruct (addListRangeReply_spec o xs (range_start w n) (range_end w n) (range_reverse w) Hil) as (o' & -> & Hil'); [destruct w; cbn; lia|destruct w; cbn; lia|].
  exists o'. split; [|done]. destruct w; cbn [range_start range_end range_reverse pop_many fst]; unfold slice, list_index.
  - change (0 <? 0) with false. rewrite (proj2 (Z.ltb_ge (n - 1) 0)) by lia. rewrite Z.max_id. change (Z.to_nat 0) with O. rewrite drop_0. replace (Z.min (Zlen xs - 1) (n - 1) + 1 - 0) with n by lia. rewrite length_take. do 4 f_equal. lia.
  - rewrite (proj2 (Z.ltb_lt (- n) 0)) by lia. change (-1 <? 0) with true. cbn match. rewrite Z.max_r by lia. change (Zlen xs + - n) with (Zlen xs - n).
    rewrite take_ge by (rewrite length_drop; lia). rewrite length_drop. do 4 f_equal. lia.
Qed.

Lemma trim_list_spec o xs start stop :
  is_list o xs -> LLONG_MIN <= start <= LLONG_MAX -> LLONG_MIN <= stop <= LLONG_MAX ->
  exists l r o', trim_amounts (Zlen xs) start stop = (l, r) /\ trim_list l r o = Some o' /\ is_list o' (slice start stop xs) /\ l + r = Zlen xs - Zlen (slice start stop xs).
Proof.
  intros Hil Hs He. pose proof (is_list_short _ _ Hil) as Hsh. set (from := Z.max 0 (list_index (Zlen xs) start)). set (to := Z.min (Zlen xs - 1) (list_index (Zlen xs) stop)).
  assert (Ham : trim_amounts (Zlen xs) start stop = if to <? from then (Zlen xs, 0) else (from, Zlen xs - to - 1)).
  { unfold trim_amounts, from, to, list_index. set (a := if start <? 0 then _ else _). set (b := if stop <? 0 then _ else _).
    assert (Ha : (if a <? 0 then 0 else a) = Z.max 0 a) by (destruct (Z.ltb_spec a 0); lia). rewrite Ha.
    destruct (Z.ltb_spec b (Z.max 0 a)), (Z.leb_spec (Zlen xs) (Z.max 0 a)), (Z.leb_spec (Zlen xs) b), (Z.ltb_spec (Z.min (Zlen xs - 1) b) (Z.max 0 a)); cbn [orb]; try lia; f_equal; lia. }
  exists (if to <? from then Zlen xs else from), (if to <? from then 0 else Zlen xs - to - 1). rewrite trim_delRange, Ham.
  assert (Hl : 0 <= (if to <? from then Zlen xs else from) <= Zlen xs) by (destruct (Z.ltb_spec to from); lia). set (l := if to <? from then Zlen xs else from) in *.
  destruct (listTypeDelRange_spec o xs 0 l Hil) as (o1 & -> & Hil1); [unfold index_ok; lia|lia|]. rewrite (del_head _ _ Hl) in Hil1. cbn [mbind option_bind]. set (r := if to <? from then 0 else Zlen xs - to - 1).
  assert (Hr : 0 <= r <= Zlen (drop (Z.to_nat l) xs)) by (unfold r, l; rewrite length_drop; destruct (Z.ltb_spec to from); lia).
  destruct (listTypeDelRange_spec o1 _ (- r) r Hil1) as (o2 & -> & Hil2); [unfold index_ok; rewrite length_drop in Hr; lia|rewrite length_drop in Hr; lia|]. rewrite (del_tail _ _ Hr) in Hil2.
  exists o2. assert (Hsl : take (Z.to_nat (Zlen (drop (Z.to_nat l) xs) - r)) (drop (Z.to_nat l) xs) = slice start stop xs).
  { unfold slice. fold from to. unfold l, r. rewrite length_drop. destruct (Z.ltb_spec to from); [rewrite drop_ge by lia; rewrite take_nil; by replace (Z.to_nat (to + 1 - from)) with O by lia|]. f_equal. lia. }
  rewrite Hsl in Hil2. split; [by unfold l, r; destruct (to <? from)|]. split; [done|]. split; [done|]. rewrite <- Hsl, length_take, length_drop in *. lia.
Qed.

End ListLoop.

End ListLoop.
