(* ===== verification/ListAbs.v ===== *)
(** * The list commands on a map of lists

    What the commands of t_list.c promise: for each of them the replies, the
    notifications and signals, the count of changes and the new contents of
    the keys, on the abstract keyspace of KeyspaceSpec.v whose values are
    lists of strings, or objects of another type.  These commands do not fail. *)

From stdpp Require Import gmap.
From S2P Require Import Prelude.
From S2P Require Import NumConv.
From S2P Require Import Quicklist.
From S2P Require Import QuicklistInsert.
From S2P Require Import ListType.
From S2P Require Import ListSpec.
From S2P Require Import Dict.
From S2P Require Import Keyspace.
From S2P Require Import KeyspaceSpec.
From S2P Require Import StrType.
From S2P Require Import ListCmd.
From S2P Require Import ListLoop.
Import StrType.
Import NumConv ListType ListSpec Keyspace KsSpec ListCmd ListLoop.

Module ListAbs.

Inductive content := AList (xs : list sds) | AStr (s : sds) | AOther (t : obj_type).

Definition type_of_content (x : content) : obj_type := match x with AList _ => OBJ_LIST | AStr _ => OBJ_STRING | AOther t => t end.

Definition value_is (v : value) (x : content) : Prop :=
  match v, x with
  | VList o, AList xs => is_list o xs
  | VStr v, AStr s => is_str v s
  | VOther t, AOther t' => t = t' /\ t <> OBJ_LIST /\ t <> OBJ_STRING
  | _, _ => False
  end.

#[export] Instance list_content : Content value content.
Proof. refine {| content_type := type_of_content; val_is := value_is |}. intros [o|v|t] [xs|s|t']; cbn; try done. by intros [-> _]. Defined.

Abbreviation S := (A content).

Definition elements (o : option content) : list sds := match o with Some (AList xs) => xs | _ => [] end.
Definition absent (o : option content) : bool := match o with None => true | Some _ => false end.

Definition READ : lookup_flags := LOOKUP_NONE.
Definition WRITE : lookup_flags :=
  {| LOOKUP_NOTOUCH := false; LOOKUP_NONOTIFY := false; LOOKUP_NOSTATS := false; LOOKUP_WRITE := true; LOOKUP_NOEXPIRE := false |}.

Definition nth_arg (argv : list sds) (j : nat) : sds := default [] (argv !! j).

(** ** Replies *)

Definition replies_ (rs : list reply) : S unit := on_log (fun l =>
  {| l_dirty := l_dirty l; l_hits := l_hits l; l_misses := l_misses l; l_expired := l_expired l; l_events := l_events l; l_out := l_out l ++ rs |}).
Definition array_ (l : list sds) : S unit := replies_ (RArrayLen (Zlen l) :: (RBulk <$> l)).

Definition number_ (s : sds) (msg : option error) : S (option Z) :=
  match string2ll s with
  | Some v => mret (Some v)
  | None => reply_ (RError (default NOTINT msg)) ;; mret None
  end.

Definition in_range_ (s : sds) (min max : Z) (msg : option error) : S (option Z) :=
  v ← number_ s msg;
  match v with
  | None => mret None
  | Some z => if (z <? min) || (max <? z) then reply_ (RError (default RANGE_MSG msg)) ;; mret None else mret (Some z)
  end.

Definition positive_ (s : sds) (msg : option error) : S (option Z) := in_range_ s 0 LLONG_MAX (Some (default NOTPOSITIVE msg)).

Definition position_ (s : sds) : S (option list_where) :=
  if strcasecmp0 s s_right then mret (Some LIST_TAIL)
  else if strcasecmp0 s s_left then mret (Some LIST_HEAD)
  else reply_ (RError SYNTAX) ;; mret None.

(** The rest of a command, when an argument is good. *)
Definition when_some {B} (m : S (option B)) (k : B -> S unit) : S unit := o ← m; match o with None => mret tt | Some b => k b end.

Definition push_event (w : list_where) : event_name := match w with LIST_HEAD => e_lpush | LIST_TAIL => e_rpush end.
Definition pop_event (w : list_where) : event_name := match w with LIST_HEAD => e_lpop | LIST_TAIL => e_rpop end.

Section Commands.
Context (server : environment) (deny_blocking : bool) (milliseconds : sds -> option Z).

(** The list of a key, with a reply when the key does not exist or has another type. *)
Definition with_list (key : sds) (flags : lookup_flags) (missing : reply) (k : list sds -> S unit) : S unit :=
  o ← lookup_or_reply server key flags missing;
  wrong ← check_ o OBJ_LIST;
  if (wrong : bool) then mret tt else if absent o then mret tt else k (elements o).

(** ** Pushing *)

Definition push_all (w : list_where) (xs vs : list sds) : list sds := foldl (fun xs v => push_list w v xs) xs vs.

Definition push_spec (argv : list sds) (w : list_where) (xx : bool) : S unit :=
  let key := nth_arg argv 1 in
  o ← lookup_ server key WRITE;
  wrong ← check_ o OBJ_LIST;
  if (wrong : bool) then mret tt
  else if absent o && xx then reply_ (RLong 0)
  else
    let ys := push_all w (elements o) (drop 2 argv) in
    when_ (absent o) (add_ key (AList [])) ;;
    put_ key (AList ys) ;;
    dirty_ (Zlen (drop 2 argv)) ;;
    reply_ (RLong (Zlen ys)) ;;
    event_ (SignalModified key) ;;
    event_ (Notify (push_event w) key).

Definition linsert_spec (argv : list sds) : S unit :=
  let key := nth_arg argv 1 in
  let pos := nth_arg argv 2 in
  let where' := if strcasecmp0 pos s_after then Some LIST_TAIL else if strcasecmp0 pos s_before then Some LIST_HEAD else None in
  match where' with
  | None => reply_ (RError SYNTAX)
  | Some w =>
      with_list key WRITE (RLong 0) (fun xs =>
        match insert_next (nth_arg argv 3) (nth_arg argv 4) w xs with
        | None => reply_ (RLong (-1))
        | Some ys =>
            put_ key (AList ys) ;;
            event_ (SignalModified key) ;;
            event_ (Notify e_linsert key) ;;
            dirty_ 1 ;;
            reply_ (RLong (Zlen ys))
        end)
  end.

(** ** Reading *)

Definition llen_spec (argv : list sds) : S unit := with_list (nth_arg argv 1) READ (RLong 0) (fun xs => reply_ (RLong (Zlen xs))).

Definition lindex_spec (argv : list sds) : S unit :=
  with_list (nth_arg argv 1) READ RNull (fun xs =>
    when_some (number_ (nth_arg argv 2) None) (fun i => reply_ (match element xs i with Some s => RBulk s | None => RNull end))).

Definition lrange_spec (argv : list sds) : S unit :=
  when_some (number_ (nth_arg argv 2) None) (fun start =>
  when_some (number_ (nth_arg argv 3) None) (fun stop =>
  with_list (nth_arg argv 1) READ (RArrayLen 0) (fun xs => array_ (slice start stop xs)))).

Fixpoint lpos_args (fuel : nat) (opts : list sds) (c : lpos_options) : S (option lpos_options) :=
  match fuel, opts with
  | O, _ | _, [] => mret (Some c)
  | Datatypes.S fuel, opt :: v :: rest =>
      if strcasecmp0 opt s_RANK then
        r ← in_range_ v (- LLONG_MAX) LLONG_MAX None;
        match r with
        | None => mret None
        | Some r => if r =? 0 then reply_ (RError RANK_ZERO) ;; mret None
                    else lpos_args fuel rest {| rank := r; lp_count := lp_count c; maxlen := maxlen c |}
        end
      else if strcasecmp0 opt s_COUNT then
        r ← positive_ v (Some COUNT_NEGATIVE);
        match r with
        | None => mret None
        | Some r => lpos_args fuel rest {| rank := rank c; lp_count := r; maxlen := maxlen c |}
        end
      else if strcasecmp0 opt s_MAXLEN then
        r ← positive_ v (Some MAXLEN_NEGATIVE);
        match r with
        | None => mret None
        | Some r => lpos_args fuel rest {| rank := rank c; lp_count := lp_count c; maxlen := r |}
        end
      else reply_ (RError SYNTAX) ;; mret None
  | Datatypes.S _, [_] => reply_ (RError SYNTAX) ;; mret None
  end.

Definition lpos_spec (argv : list sds) : S unit :=
  when_some (lpos_args (length argv) (drop 3 argv) {| rank := 1; lp_count := -1; maxlen := 0 |}) (fun c =>
    let many := negb (lp_count c =? -1) in
    let dir := if rank c <? 0 then LIST_HEAD else LIST_TAIL in
    let c := {| rank := Z.abs (rank c); lp_count := lp_count c; maxlen := maxlen c |} in
    with_list (nth_arg argv 1) READ (if many then RArrayLen 0 else RNull) (fun xs =>
      let ps := positions (nth_arg argv 2) dir c xs in
      if many then replies_ (RArrayLen (Zlen ps) :: (RLong <$> ps))
      else reply_ (match ps with [] => RNull | p :: _ => RLong p end))).

(** ** Changing *)

Definition set_element (key : sds) (ys : list sds) : S unit :=
  put_ key (AList ys) ;;
  reply_ ROk ;;
  event_ (SignalModified key) ;;
  event_ (Notify e_lset key) ;;
  dirty_ 1.

(** The index that is used for an argument is a parameter. *)
Definition lset_at (index : Z -> Z) (argv : list sds) : S unit :=
  let key := nth_arg argv 1 in
  with_list key WRITE (RError NOKEY) (fun xs =>
    when_some (number_ (nth_arg argv 2) None) (fun i =>
      if found xs (index i) then
        set_element key (<[at_index xs (index i) := nth_arg argv 3]> xs)
      else reply_ (RError OUTOFRANGE))).

Definition lset_spec : list sds -> S unit := lset_at (fun i => i).

(** A key without elements is deleted. *)
Definition drop_empty (key : sds) (ys : list sds) : S unit :=
  when_ (bool_decide (ys = [])) (remove_ key ;; event_ (Notify e_del key)).

Definition removed_ (key : sds) (w : list_where) (ys : list sds) (n : Z) : S unit :=
  event_ (Notify (pop_event w) key) ;;
  drop_empty key ys ;;
  event_ (SignalModified key) ;;
  dirty_ n.

(** The elements that are popped, and the changes. *)
Definition pop_range_ (key : sds) (w : list_where) (xs : list sds) (count : Z) : S unit :=
  let n := range_len count (Zlen xs) in
  let '(popped, ys) := pop_many w n xs in
  array_ popped ;;
  put_ key (AList ys) ;;
  removed_ key w ys n.

Definition pop_one_ (key : sds) (w : list_where) (xs : list sds) (before : S unit) : S unit :=
  match pop_end w xs with
  | None => mret tt
  | Some (x, ys) =>
      put_ key (AList ys) ;;
      before ;;
      reply_ (RBulk x) ;;
      removed_ key w ys 1
  end.

Definition pop_spec (argv : list sds) (w : list_where) : S unit :=
  let key := nth_arg argv 1 in
  let hascount := Nat.eqb (length argv) 3 in
  if Nat.ltb 3 (length argv) then reply_ (RError ARITY)
  else
    when_some (if hascount then positive_ (nth_arg argv 2) None else mret (Some 0)) (fun count =>
      with_list key WRITE (if hascount then RNullArray else RNull) (fun xs =>
        if hascount && (count =? 0) then reply_ (RArrayLen 0)
        else if count =? 0 then pop_one_ key w xs (mret tt)
        else pop_range_ key w xs count)).

Definition rewrite_pop_ (w : list_where) (key : sds) (count : option Z) : S unit :=
  let name := match w with LIST_HEAD => s_lpop | LIST_TAIL => s_rpop end in
  event_ (RewriteCommand (name :: key :: match count with None => [] | Some n => [lltoa n] end)).

(** The first list with elements. *)
Fixpoint first_list (keys : list sds) (k : sds -> list sds -> S unit) (none : S unit) : S unit :=
  match keys with
  | [] => none
  | key :: keys =>
      o ← lookup_ server key WRITE;
      wrong ← check_ o OBJ_LIST;
      if (wrong : bool) then mret tt
      else if bool_decide (elements o = []) then first_list keys k none
      else k key (elements o)
  end.

Definition pop_from (w : list_where) (count : Z) (key : sds) (xs : list sds) : S unit :=
  (reply_ (RArrayLen 2) ;; reply_ (RBulk key) ;; pop_range_ key w xs count) ;;
  rewrite_pop_ w key (Some (range_len count (Zlen xs))).

Definition mpop_spec (keys : list sds) (w : list_where) (count : Z) : S unit := first_list keys (pop_from w count) (reply_ RNullArray).

Definition ltrim_spec (argv : list sds) : S unit :=
  let key := nth_arg argv 1 in
  when_some (number_ (nth_arg argv 2) None) (fun start =>
  when_some (number_ (nth_arg argv 3) None) (fun stop =>
  with_list key WRITE ROk (fun xs =>
    let ys := slice start stop xs in
    put_ key (AList ys) ;;
    event_ (Notify e_ltrim key) ;;
    drop_empty key ys ;;
    event_ (SignalModified key) ;;
    dirty_ (Zlen xs - Zlen ys) ;;
    reply_ ROk))).

Definition lrem_spec (argv : list sds) : S unit :=
  let key := nth_arg argv 1 in
  when_some (number_ (nth_arg argv 2) None) (fun n =>
  with_list key WRITE (RLong 0) (fun xs =>
    let ys := remove_count n (nth_arg argv 3) xs in
    let removed := Zlen xs - Zlen ys in
    put_ key (AList ys) ;;
    dirty_ removed ;;
    when_ (negb (removed =? 0)) (event_ (SignalModified key) ;; event_ (Notify e_lrem key)) ;;
    drop_empty key ys ;;
    reply_ (RLong removed))).

(** The element is in the destination. *)
Definition place_ (dst : sds) (w : list_where) (x : sds) (ys : list sds) : S unit :=
  event_ (SignalModified dst) ;;
  put_ dst (AList ys) ;;
  event_ (Notify (push_event w) dst) ;;
  reply_ (RBulk x).

(** The destination may be the source. *)
Definition move_ (argv : list sds) (proc : lmove_proc) (wherefrom whereto : list_where) : S unit :=
  let src := nth_arg argv 1 in
  let dst := nth_arg argv 2 in
  with_list src WRITE RNull (fun xs =>
    match pop_end wherefrom xs with
    | None => reply_ RNull
    | Some (x, rest) =>
        o ← lookup_ server dst WRITE;
        wrong ← check_ o OBJ_LIST;
        if (wrong : bool) then mret tt
        else
          let same := bool_decide (src = dst) in
          let ys := push_list whereto x (if same then rest else elements o) in
          put_ src (AList rest) ;;
          when_ (absent o) (add_ dst (AList [])) ;;
          place_ dst whereto x ys ;;
          removed_ src wherefrom (if same then ys else rest) 1 ;;
          match proc with
          | blmoveProc => event_ (RewriteCommand [s_lmove; src; dst; nth_arg argv 3; nth_arg argv 4])
          | brpoplpushProc => event_ (RewriteCommand [s_rpoplpush; src; dst])
          | _ => mret tt
          end
    end).

Definition lmove_spec (argv : list sds) : S unit :=
  when_some (position_ (nth_arg argv 3)) (fun wherefrom =>
  when_some (position_ (nth_arg argv 4)) (fun whereto =>
  move_ argv lmoveProc wherefrom whereto)).

(** ** Blocking *)

(** A number of seconds from now, or 0. *)
Definition deadline (s : sds) : Z + error :=
  match milliseconds s with
  | None => inr TIMEOUT_MSG
  | Some t =>
      if t =? 0 then inl 0
      else if t <? 0 then inr TIMEOUT_SIGN
      else if (commandTimeSnapshot server + t <=? LLONG_MAX) && (t <=? LLONG_MAX) then inl (commandTimeSnapshot server + t)
      else inr TIMEOUT_RANGE
  end.

Definition timeout_ (s : sds) : S (option Z) :=
  match deadline s with inl t => mret (Some t) | inr e => reply_ (RError e) ;; mret None end.

Definition block_ (keys : list sds) (timeout : Z) (r : reply) : S unit := if deny_blocking then reply_ r else event_ (BlockForKeys keys timeout).

Definition blocking_spec (keys : list sds) (w : list_where) (timeout_arg : sds) (count : Z) : S unit :=
  when_some (timeout_ timeout_arg) (fun timeout =>
    first_list keys
      (fun key xs =>
         if negb (count =? -1) then pop_from w count key xs
         else pop_one_ key w xs (reply_ (RArrayLen 2) ;; reply_ (RBulk key)) ;; rewrite_pop_ w key None)
      (block_ keys timeout RNullArray)).

Definition bpop_spec (argv : list sds) (w : list_where) : S unit :=
  blocking_spec (drop 1 (take (length argv - 1) argv)) w (default [] (last argv)) (-1).

(** The key is looked up once more when it has a list. *)
Definition bmove_ (argv : list sds) (proc : lmove_proc) (wherefrom whereto : list_where) (timeout : Z) : S unit :=
  let src := nth_arg argv 1 in
  o ← lookup_ server src WRITE;
  wrong ← check_ o OBJ_LIST;
  if (wrong : bool) then mret tt
  else if absent o then block_ [src] timeout RNull
  else move_ argv proc wherefrom whereto.

Definition blmove_spec (argv : list sds) : S unit :=
  when_some (position_ (nth_arg argv 3)) (fun wherefrom =>
  when_some (position_ (nth_arg argv 4)) (fun whereto =>
  when_some (timeout_ (nth_arg argv 5)) (fun timeout =>
  bmove_ argv blmoveProc wherefrom whereto timeout))).

Definition brpoplpush_spec (argv : list sds) : S unit :=
  when_some (timeout_ (nth_arg argv 3)) (fun timeout => bmove_ argv brpoplpushProc LIST_TAIL LIST_HEAD timeout).

(** The count, given at most once; -1 when it is not given. *)
Definition lmpop_args (opts : list sds) : S (option Z) :=
  match opts with
  | [] => mret (Some (-1))
  | opt :: v :: rest =>
      if strcasecmp0 opt s_COUNT then
        when_opt ← in_range_ v 1 LLONG_MAX (Some COUNT_MSG);
        match when_opt with
        | None => mret None
        | Some n => match rest with [] => mret (Some n) | _ => reply_ (RError SYNTAX) ;; mret None end
        end
      else reply_ (RError SYNTAX) ;; mret None
  | [_] => reply_ (RError SYNTAX) ;; mret None
  end.

Definition lmpop_spec (argv : list sds) (numkeys_idx : nat) (is_block : bool) : S unit :=
  when_some (in_range_ (nth_arg argv numkeys_idx) 1 LLONG_MAX (Some NUMKEYS_MSG)) (fun numkeys =>
    let where_idx := Z.of_nat numkeys_idx + numkeys + 1 in
    if Zlen argv <=? where_idx then reply_ (RError SYNTAX)
    else
      when_some (position_ (nth_arg argv (Z.to_nat where_idx))) (fun w =>
      when_some (lmpop_args (drop (Datatypes.S (Z.to_nat where_idx)) argv)) (fun count =>
        let count := if count =? -1 then 1 else count in
        let keys := take (Z.to_nat numkeys) (drop (Datatypes.S numkeys_idx) argv) in
        if is_block then blocking_spec keys w (nth_arg argv 1) count else mpop_spec keys w count))).

End Commands.

End ListAbs.
