(* ===== verification/ListStep.v ===== *)
(** * Steps of the list commands

    How the parts of a command on the keyspace refine the parts of the
    abstract command: parsing of arguments, lookup of a list, a change of the
    list that was found, replies and events. *)

From stdpp Require Import gmap.
From S2P Require Import Prelude.
From S2P Require Import NumConv.
From S2P Require Import Listpack.
From S2P Require Import Quicklist.
From S2P Require Import QuicklistNode.
From S2P Require Import QuicklistPush.
From S2P Require Import ListType.
From S2P Require Import ListSpec.
From S2P Require Import Dict.
From S2P Require Import DictSpec.
From S2P Require Import Keyspace.
From S2P Require Import KeyspaceSpec.
From S2P Require Import ListCmd.
From S2P Require Import ListLoop.
From S2P Require Import ListAbs.
Import NumConv Lp QlNode QlPush ListType ListSpec Dict DictSpec Keyspace KsSpec ListCmd ListLoop ListAbs.

Module ListStep.

(** ** States within the limits *)

(** The keys fit a dictionary, every list is smaller than 512 MB, and a
    string fits the memory. *)
Definition LIST_BYTES : Z := 2 ^ 29.

Definition STRING_BYTES : Z := 2 ^ 62.

Definition short (x : content) : Prop := match x with AList xs => bytes xs < LIST_BYTES | AStr s => Zlen s < STRING_BYTES | AOther _ => True end.

Definition small (a : astate content) : Prop :=
  Z.of_nat (size (store a)) < 2 ^ 59 /\ forall k x t, store a !! k = Some (x, t) -> short x.

(** No key has an empty list, and the objects of other types are not lists. *)
Definition proper (x : content) : Prop := match x with AList xs => xs <> [] | AStr _ => True | AOther t => t <> OBJ_LIST /\ t <> OBJ_STRING end.
Definition full (a : astate content) : Prop := forall k x t, store a !! k = Some (x, t) -> proper x.

Lemma full_list a k xs t : full a -> store a !! k = Some (AList xs, t) -> xs <> [].
Proof. intros Hf Hk. apply (Hf k (AList xs) t Hk). Qed.

Definition args_ok (argv : list sds) : Prop := Forall bytes_ok argv /\ bytes argv < LIST_BYTES /\ Zlen argv < 2 ^ 15.

Lemma small_store a a1 : store a1 = store a -> small a -> small a1.
Proof. unfold small. by intros ->. Qed.

Lemma full_store a a1 : store a1 = store a -> full a -> full a1.
Proof. unfold full. by intros ->. Qed.

Lemma sub_small a a1 : store a1 ⊆ store a -> small a -> small a1.
Proof.
  intros Hs [Hz Hb]. split; [|intros k xs t Hk; eapply Hb, lookup_weaken; done].
  apply map_subseteq_size in Hs. lia.
Qed.

Lemma sub_full a a1 : store a1 ⊆ store a -> full a -> full a1.
Proof. intros Hs Hf k x t Hk. eapply Hf, lookup_weaken; done. Qed.

Lemma check_store o t (a : astate content) : store (result (check_ o t) a) = store a.
Proof. unfold check_. destruct o as [x|]; [|done]. by case_bool_decide. Qed.

Section Step.
Context (ty : dictType sds) `{!DictLaws ty} (can : dictResizeEnable) (server : environment) (access : Z -> Z) (initial_lru : Z).
Implicit Types (w : world value) (a : astate content) (key : sds) (ad : addr).

#[local] Set Default Proof Using "Type*".
#[local] Abbreviation sim := (sim ty).

(** The command refines the abstract one, from these states. *)
Definition refines (m : C unit) (s : S unit) w a : Prop := runs m w (fun _ w' => sim w' (result s a)).

(** Nothing but the log has changed. *)
Definition quiet w a w1 a1 : Prop := sim w1 a1 /\ w_dict w1 = w_dict w /\ heap w1 = heap w /\ store a1 = store a.

Lemma quiet_refl w a : sim w a -> quiet w a w a.
Proof. by intros. Qed.

Lemma quiet_trans w a w1 a1 w2 a2 : quiet w a w1 a1 -> quiet w1 a1 w2 a2 -> quiet w a w2 a2.
Proof. intros (_ & Ed & Eh & Ea) (Hs2 & Ed2 & Eh2 & Ea2). split; [done|]. by rewrite Ed2, Eh2, Ea2. Qed.

(** The key has the list object at [ad]. *)
Record holding w a key ad (o : lobj) (xs : list sds) : Prop := {
  ho_sim : sim w a;
  ho_obj : at_obj w key ad (VList o);
  ho_list : is_list o xs;
  ho_store : exists t, store a !! key = Some (AList xs, t);
}.

Lemma holding_quiet w a w1 a1 key ad o xs : quiet w a w1 a1 -> holding w a key ad o xs -> holding w1 a1 key ad o xs.
Proof. intros (Hs & Hd & Hh & Ha) [_ Ho Hl Hst]. split; [done| |done|by rewrite Ha]. unfold at_obj in *. by rewrite Hd, Hh. Qed.

(** ** Arguments *)

Definition mirrors {B} (m : C B) (s : S B) : Prop := forall w a, sim w a -> exists w1, m w = Some ((s a).1, w1) /\ quiet w a w1 (result s a).

Lemma mirrors_runs {B} (m : C B) (s : S B) w a Q : mirrors m s -> sim w a -> (forall w1, quiet w a w1 (result s a) -> Q (s a).1 w1) -> runs m w Q.
Proof. intros Hm Hs HQ. destruct (Hm w a Hs) as (w1 & Hw & Hq). exists (s a).1, w1. auto. Qed.

Lemma mirrors_ret {B} (b : B) : mirrors (mret b) (mret b).
Proof. intros w a Hs. by exists w. Qed.

Lemma mirrors_bind {B D} (m : C B) (s : S B) (k : B -> C D) (k' : B -> S D) : mirrors m s -> (forall b, mirrors (k b) (k' b)) -> mirrors (mbind k m) (mbind k' s).
Proof.
  intros Hm Hk w a Hs. destruct (Hm w a Hs) as (w1 & Hw & Hq). destruct (Hk (s a).1 w1 (result s a) (proj1 Hq)) as (w2 & Hw2 & Hq2).
  exists w2. rewrite result_bind, value_bind. split; [|by eapply quiet_trans]. unfold mbind, K_bind. by rewrite Hw.
Qed.

Lemma mirrors_reply r : mirrors (addReply r) (reply_ r).
Proof. intros w a Hs. eexists. split; [done|]. split; [|done]. by apply (sim_log_only ty w). Qed.

Lemma mirrors_event e : mirrors (emit e) (event_ e).
Proof. intros w a Hs. eexists. split; [done|]. split; [|done]. by apply (sim_log_only ty w). Qed.

Lemma mirrors_dirty n : mirrors (add_dirty n) (dirty_ n).
Proof. intros w a Hs. eexists. split; [done|]. split; [|done]. by apply (sim_log_only ty w). Qed.

Lemma mirrors_replies rs : mirrors (addReplies rs) (replies_ rs).
Proof.
  intros w a Hs. assert (Hrun : forall w, addReplies rs w = Some (tt, with_out (out w ++ rs) w)).
  { induction rs as [|r rs IH]; intros u; [by destruct u; cbn; rewrite app_nil_r|]. cbn [addReplies]. unfold mbind, K_bind, addReply, modify. cbn [mbind option_bind]. rewrite IH. cbn. by rewrite <- app_assoc. }
  eexists. split; [apply Hrun|]. split; [|done]. by apply (sim_log_only ty w).
Qed.

Lemma mirrors_signal key : mirrors (signalModifiedKey key) (event_ (SignalModified key)).
Proof. apply mirrors_event. Qed.

Lemma mirrors_notify name key : mirrors (notifyKeyspaceEvent name key) (event_ (Notify name key)).
Proof. apply mirrors_event. Qed.

Lemma mirrors_when (b : bool) (m : C unit) (s : S unit) : mirrors m s -> mirrors (when b m) (when_ b s).
Proof. destruct b; [done|]. intros _. apply mirrors_ret. Qed.

Lemma mirrors_number s msg : mirrors (getLongFromObjectOrReply s msg) (number_ s msg).
Proof.
  unfold getLongFromObjectOrReply, getLongLongFromObject, number_. destruct (string2ll s); [apply mirrors_ret|]. apply mirrors_bind; [apply mirrors_reply|intros _; apply mirrors_ret].
Qed.

Lemma mirrors_range s min max msg : mirrors (getRangeLongFromObjectOrReply s min max msg) (in_range_ s min max msg).
Proof.
  apply mirrors_bind; [apply mirrors_number|]. intros [z|]; [|apply mirrors_ret]. destruct (_ || _); [|apply mirrors_ret]. apply mirrors_bind; [apply mirrors_reply|intros _; apply mirrors_ret].
Qed.

Lemma mirrors_position s : mirrors (getListPositionFromObjectOrReply s) (position_ s).
Proof.
  unfold getListPositionFromObjectOrReply, position_. destruct (strcasecmp0 s s_right); [apply mirrors_ret|]. destruct (strcasecmp0 s s_left); [apply mirrors_ret|].
  apply mirrors_bind; [apply mirrors_reply|intros _; apply mirrors_ret].
Qed.

(** ** Composition *)

Lemma refines_mirrors (m : C unit) (s : S unit) w a : mirrors m s -> sim w a -> refines m s w a.
Proof. intros Hm Hs. apply (mirrors_runs m s w a); [done..|]. by intros w1 [? _]. Qed.

(** A part that changes only the log, before the rest. *)
Lemma refines_bind {B} (m : C B) (s : S B) (k : B -> C unit) (k' : B -> S unit) w a :
  mirrors m s -> sim w a -> (forall w1, quiet w a w1 (result s a) -> refines (k (s a).1) (k' (s a).1) w1 (result s a)) -> refines (mbind k m) (mbind k' s) w a.
Proof. intros Hm Hs Hk. unfold refines. rewrite result_bind. apply runs_bind, (mirrors_runs m s w a); done. Qed.

Lemma refines_some {B} (m : C (option B)) (s : S (option B)) (k : B -> C unit) (k' : B -> S unit) w a :
  mirrors m s -> sim w a -> (forall b w1, (s a).1 = Some b -> quiet w a w1 (result s a) -> refines (k b) (k' b) w1 (result s a)) ->
  refines (o ← m; match o with None => mret tt | Some b => k b end) (when_some s k') w a.
Proof.
  intros Hm Hs Hk. apply refines_bind; [done..|]. intros w1 Hq. destruct (s a).1 as [b|] eqn:E; [by apply Hk|]. apply runs_ret. apply Hq.
Qed.

(** A part that changes the state, before the rest. *)
Lemma refines_seq (m k : C unit) (s k' : S unit) w a :
  refines m s w a -> (forall w1, sim w1 (result s a) -> refines k k' w1 (result s a)) -> refines (m ;; k) (s ;; k') w a.
Proof. intros Hm Hk. unfold refines. rewrite result_bind. apply runs_bind. eapply runs_mono; [exact Hm|]. intros r w1 Hs1. by apply Hk. Qed.

Lemma arg_refines (argv : list sds) (j : nat) (k : sds -> C unit) s0 w a : (j < length argv)%nat -> refines (k (nth_arg argv j)) s0 w a -> refines (mbind k (arg argv j)) s0 w a.
Proof. intros Hj HQ. unfold refines in *. destruct (lookup_lt_is_Some_2 argv j Hj) as [s Hs]. apply runs_bind, (runs_lift s); [done|]. unfold nth_arg in HQ. by rewrite Hs in HQ. Qed.

Lemma mirrors_arg {B} (argv : list sds) (j : nat) (k : sds -> C B) (s0 : S B) : (j < length argv)%nat -> mirrors (k (nth_arg argv j)) s0 -> mirrors (mbind k (arg argv j)) s0.
Proof.
  intros Hj Hm w a Hs. destruct (Hm w a Hs) as (w1 & Hw & Hq). exists w1. split; [|done]. destruct (lookup_lt_is_Some_2 argv j Hj) as [s Es]. unfold nth_arg in Hw. rewrite Es in Hw.
  unfold arg, lift, mbind, K_bind. by rewrite Es.
Qed.

(** ** The list of a key *)

Lemma check_list w a key r x w1 a1 :
  looked_up w a key r x -> quiet w a w1 a1 -> (check_ x OBJ_LIST a).1 = false ->
  match r, x with
  | Some ad, Some (AList xs) => exists o, holding w1 a1 key ad o xs
  | None, None => True
  | _, _ => False
  end.
Proof.
  intros Hr Hq Hc. destruct r as [ad|], x as [x|]; cbn [looked_up] in Hr; try done. destruct Hr as (v & t & Hat & Hv & Hst). unfold check_ in Hc. case_bool_decide as Hty; [|done].
  destruct x as [xs|s|t']; cbn in Hty; [|done|].
  - destruct v as [o| |]; cbn in Hv; try done. exists o. destruct Hq as (Hs & Hd & Hh & Ha). split; [done| |done|exists t; by rewrite Ha]. unfold at_obj in *. by rewrite Hd, Hh.
  - subst t'. destruct v as [| |t'']; cbn in Hv; try done. by destruct Hv as (-> & ? & _).
Qed.

Lemma check_mirror w a key r x t Q :
  sim w a -> looked_up w a key r x -> (forall w1, quiet w a w1 (result (check_ x t) a) -> Q (check_ x t a).1 w1) -> runs (checkType r t) w Q.
Proof. intros Hs Hr HQ. apply (check_runs ty w a key r x); [done..|]. intros w1 Hs1 Hd Hh. apply HQ. split; [done|]. split; [done|]. split; [done|]. apply check_store. Qed.

Lemma with_list_visible key flags missing (body : addr -> C unit) (k : list sds -> S unit) w a (m : C (option addr)) :
  (forall Q, runs (o ← lookupKey ty can server access key flags; when (match o with None => true | Some _ => false end) (addReply missing) ;; mret o) w Q -> runs m w Q) ->
  sim w a ->
  (forall w1 a1 ad o xs, store a1 ⊆ store a -> (forall x t, store a1 !! key = Some (x, t) -> hidden server t = false) -> holding w1 a1 key ad o xs -> refines (body ad) (k xs) w1 a1) ->
  refines (o ← m; match o with None => mret tt | Some ad => wrong ← checkType o OBJ_LIST; if (wrong : bool) then mret tt else body ad end) (with_list server key flags missing k) w a.
Proof.
  intros Hm Hs Hk. apply runs_bind, Hm, (or_reply_runs ty can server access w a key flags missing); [done|]. intros r w1 m' Hs1 Hr _. pose proof (or_reply_sub server key flags missing a) as Hsub. fold m' in Hsub.
  unfold with_list. fold m'. rewrite result_bind. set (x := (m' a).1) in *. set (a1 := result m' a) in *. rewrite result_bind. destruct r as [ad|].
  - apply runs_bind, (check_mirror w1 a1 key (Some ad) x); [done..|]. intros w2 Hq. destruct (check_ x OBJ_LIST a1).1 eqn:E; [apply runs_ret; apply Hq|].
    pose proof (check_list w1 a1 key (Some ad) x _ _ Hr Hq E) as Hc. destruct x as [[xs| |]|] eqn:Ex; try done. destruct Hc as (o & Hh). cbn [absent elements].
    apply (Hk w2 _ ad o); [| |done]; rewrite (proj2 (proj2 (proj2 Hq))); [done|]. intros y t. unfold a1, x, m' in *. rewrite value_or_reply in Ex.
    rewrite result_or_reply, Ex. by apply (lookup_visible server key flags a (AList xs)).
  - destruct x as [x|]; [done|]. by apply runs_ret.
Qed.

Lemma with_list_refines key flags missing (body : addr -> C unit) (k : list sds -> S unit) w a (m : C (option addr)) :
  (forall Q, runs (o ← lookupKey ty can server access key flags; when (match o with None => true | Some _ => false end) (addReply missing) ;; mret o) w Q -> runs m w Q) ->
  sim w a ->
  (forall w1 a1 ad o xs, store a1 ⊆ store a -> holding w1 a1 key ad o xs -> refines (body ad) (k xs) w1 a1) ->
  refines (o ← m; match o with None => mret tt | Some ad => wrong ← checkType o OBJ_LIST; if (wrong : bool) then mret tt else body ad end) (with_list server key flags missing k) w a.
Proof. intros Hm Hs Hk. apply with_list_visible; [done..|]. intros w1 a1 ad o xs Hsub _. by apply Hk. Qed.

Lemma write_refines key missing body k w a :
  sim w a -> (forall w1 a1 ad o xs, store a1 ⊆ store a -> holding w1 a1 key ad o xs -> refines (body ad) (k xs) w1 a1) ->
  refines (o ← lookupKeyWriteOrReply ty can server access key missing; match o with None => mret tt | Some ad => wrong ← checkType o OBJ_LIST; if (wrong : bool) then mret tt else body ad end)
    (with_list server key WRITE missing k) w a.
Proof. by apply with_list_refines. Qed.

Lemma read_refines key missing body k w a :
  sim w a -> (forall w1 a1 ad o xs, store a1 ⊆ store a -> holding w1 a1 key ad o xs -> refines (body ad) (k xs) w1 a1) ->
  refines (o ← lookupKeyReadOrReply ty can server access key missing; match o with None => mret tt | Some ad => wrong ← checkType o OBJ_LIST; if (wrong : bool) then mret tt else body ad end)
    (with_list server key READ missing k) w a.
Proof. by apply with_list_refines. Qed.

(** ** The list object *)

Lemma read_list_runs w a key ad o xs Q : holding w a key ad o xs -> Q o w -> runs (read_list ad) w Q.
Proof. intros [_ [_ (ob & Hob & Hp)] _ _] HQ. apply runs_bind, (runs_read _ ob); [done|]. rewrite Hp. by apply runs_ret. Qed.

Lemma on_list_runs {R} (f : lobj -> option (R * lobj)) w a key ad o xs r o' ys Q :
  holding w a key ad o xs -> f o = Some (r, o') -> is_list o' ys ->
  (forall w1, holding w1 (result (put_ key (AList ys)) a) key ad o' ys -> (forall k ad' u, k <> key -> at_obj w k ad' u -> at_obj w1 k ad' u) -> Q r w1) -> runs (on_list ad f) w Q.
Proof.
  intros Hh Hf Hl HQ. pose proof Hh as [Hs Hat _ (t & Hst)]. apply runs_bind, (read_list_runs w a key ad o xs); [done|]. apply runs_bind, (runs_lift (r, o')); [done|].
  apply runs_bind, (write_runs ty w a key ad (VList o) (AList xs) t (VList o') (AList ys)); [done..|]. intros w1 Hs1 Hat1 Hfr. apply runs_ret, HQ; [|done].
  split; [done..|]. exists t. unfold result, put_, on_store. cbn [store snd]. by rewrite lookup_alter_eq, Hst.
Qed.

(** The list stays the same. *)
Lemma on_same_runs {R} (f : lobj -> option (R * lobj)) w a key ad o xs r o' Q :
  holding w a key ad o xs -> f o = Some (r, o') -> is_list o' xs ->
  (forall w1, holding w1 a key ad o' xs -> (forall k ad' u, k <> key -> at_obj w k ad' u -> at_obj w1 k ad' u) -> Q r w1) -> runs (on_list ad f) w Q.
Proof.
  intros Hh Hf Hl HQ. apply (on_list_runs f w a key ad o xs r o' xs); [done..|]. intros w1 Hh1 Hfr. apply HQ; [|done]. destruct (ho_store _ _ _ _ _ _ Hh) as (t & Hst).
  by rewrite (put_same _ _ _ _ Hst) in Hh1.
Qed.

Lemma change_runs (f : lobj -> option lobj) w a key ad o xs o' ys Q :
  holding w a key ad o xs -> f o = Some o' -> is_list o' ys ->
  (forall w1, holding w1 (result (put_ key (AList ys)) a) key ad o' ys -> (forall k ad' u, k <> key -> at_obj w k ad' u -> at_obj w1 k ad' u) -> Q tt w1) -> runs (change_list ad f) w Q.
Proof. intros Hh Hf. apply (on_list_runs _ w a key ad o xs tt o' ys _ Hh). by rewrite Hf. Qed.

Lemma change_same_runs (f : lobj -> option lobj) w a key ad o xs o' Q :
  holding w a key ad o xs -> f o = Some o' -> is_list o' xs ->
  (forall w1, holding w1 a key ad o' xs -> (forall k ad' u, k <> key -> at_obj w k ad' u -> at_obj w1 k ad' u) -> Q tt w1) -> runs (change_list ad f) w Q.
Proof. intros Hh Hf. apply (on_same_runs _ w a key ad o xs tt o' _ Hh). by rewrite Hf. Qed.

Lemma length_runs w a key ad o xs Q :
  holding w a key ad o xs ->
  (forall w1 o', holding w1 a key ad o' xs -> (forall n, fits o n -> fits o' n) -> (forall k ad' u, k <> key -> at_obj w k ad' u -> at_obj w1 k ad' u) -> Q (Zlen xs) w1) -> runs (on_list ad listTypeLength) w Q.
Proof.
  intros Hh HQ. destruct (listTypeLength_spec o xs (ho_list _ _ _ _ _ _ Hh)) as (o' & Hlen & Hl & Hfit). apply (on_same_runs _ w a key ad o xs (Zlen xs) o' _ Hh Hlen Hl). intros w1 Hh1. by apply (HQ w1 o').
Qed.

(** The same steps before the rest of a command. *)
Lemma refines_put {R} (f : lobj -> option (R * lobj)) (k : R -> C unit) (k' : S unit) w a key ad o xs r o' ys :
  holding w a key ad o xs -> f o = Some (r, o') -> is_list o' ys ->
  (forall w1, holding w1 (result (put_ key (AList ys)) a) key ad o' ys -> (forall k ad' u, k <> key -> at_obj w k ad' u -> at_obj w1 k ad' u) ->
     refines (k r) k' w1 (result (put_ key (AList ys)) a)) ->
  refines (mbind k (on_list ad f)) (put_ key (AList ys) ;; k') w a.
Proof. intros Hh Hf Hl Hk. unfold refines. rewrite result_bind. apply runs_bind, (on_list_runs f w a key ad o xs r o' ys _ Hh Hf Hl Hk). Qed.

Lemma refines_same {R} (f : lobj -> option (R * lobj)) (k : R -> C unit) (s : S unit) w a key ad o xs r o' :
  holding w a key ad o xs -> f o = Some (r, o') -> is_list o' xs ->
  (forall w1, holding w1 a key ad o' xs -> (forall k ad' u, k <> key -> at_obj w k ad' u -> at_obj w1 k ad' u) -> refines (k r) s w1 a) ->
  refines (mbind k (on_list ad f)) s w a.
Proof. intros Hh Hf Hl Hk. apply runs_bind, (on_same_runs f w a key ad o xs r o' _ Hh Hf Hl Hk). Qed.

Lemma refines_change (f : lobj -> option lobj) (k : C unit) (k' : S unit) w a key ad o xs o' ys :
  holding w a key ad o xs -> f o = Some o' -> is_list o' ys ->
  (forall w1, holding w1 (result (put_ key (AList ys)) a) key ad o' ys -> (forall k ad' u, k <> key -> at_obj w k ad' u -> at_obj w1 k ad' u) ->
     refines k k' w1 (result (put_ key (AList ys)) a)) ->
  refines (change_list ad f ;; k) (put_ key (AList ys) ;; k') w a.
Proof. intros Hh Hf. apply (refines_put _ (fun _ => k) k' w a key ad o xs tt o' ys Hh). by rewrite Hf. Qed.

Lemma refines_change_same (f : lobj -> option lobj) (k : C unit) (s : S unit) w a key ad o xs o' :
  holding w a key ad o xs -> f o = Some o' -> is_list o' xs ->
  (forall w1, holding w1 a key ad o' xs -> (forall k ad' u, k <> key -> at_obj w k ad' u -> at_obj w1 k ad' u) -> refines k s w1 a) ->
  refines (change_list ad f ;; k) s w a.
Proof. intros Hh Hf. apply (refines_same _ (fun _ => k) s w a key ad o xs tt o' Hh). by rewrite Hf. Qed.

Lemma refines_length (k : Z -> C unit) (s : S unit) w a key ad o xs :
  holding w a key ad o xs ->
  (forall w1 o', holding w1 a key ad o' xs -> (forall n, fits o n -> fits o' n) -> (forall k ad' u, k <> key -> at_obj w k ad' u -> at_obj w1 k ad' u) -> refines (k (Zlen xs)) s w1 a) ->
  refines (mbind k (on_list ad listTypeLength)) s w a.
Proof. intros Hh Hk. apply runs_bind, (length_runs w a key ad o xs _ Hh Hk). Qed.

(** A part after which the key holds a list, before the rest. *)
Lemma refines_hold (m k : C unit) (s k' : S unit) w a key ad ys :
  runs m w (fun _ w1 => exists o', holding w1 (result s a) key ad o' ys) ->
  (forall w1 o', holding w1 (result s a) key ad o' ys -> refines k k' w1 (result s a)) -> refines (m ;; k) (s ;; k') w a.
Proof. intros Hm Hk. unfold refines. rewrite result_bind. apply runs_bind. eapply runs_mono; [exact Hm|]. intros r w1 (o' & Hh). by apply (Hk w1 o'). Qed.

(** ** Other lookups *)

(** A lookup that replies itself. *)
Lemma lookup_refines key missing (body : addr -> C unit) (k : list sds -> S unit) w a :
  sim w a -> (forall w1 a1 ad o xs, store a1 ⊆ store a -> holding w1 a1 key ad o xs -> refines (body ad) (k xs) w1 a1) ->
  refines (o ← lookupKeyRead ty can server access key; match o with None => addReply missing | Some ad => wrong ← checkType o OBJ_LIST; if (wrong : bool) then mret tt else body ad end)
    (with_list server key READ missing k) w a.
Proof.
  intros Hs Hk. unfold refines, with_list. rewrite result_bind, value_or_reply, result_or_reply. apply runs_bind. unfold lookupKeyRead, lookupKeyReadWithFlags. apply runs_bind, runs_assert; [done|].
  apply (lookupKey_runs ty can server access w a key READ); [done|]. intros r w1 Hs1 Hr _. pose proof (lookup_sub server key READ a) as Hsub. set (x := (lookup_ server key READ a).1) in *. set (a1 := result (lookup_ server key READ) a) in *. destruct r as [ad|].
  - destruct x as [x|]; [|done]. rewrite result_bind. apply runs_bind, (check_mirror w1 a1 key (Some ad) (Some x)); [done..|]. intros w2 Hq. destruct (check_ (Some x) OBJ_LIST a1).1 eqn:E; [apply runs_ret; apply Hq|].
    pose proof (check_list w1 a1 key (Some ad) (Some x) _ _ Hr Hq E) as Hc. destruct x as [xs| |]; try done. destruct Hc as (o & Hh). cbn [absent elements].
    apply (Hk w2 _ ad o); [|done]. by rewrite (proj2 (proj2 (proj2 Hq))).
  - destruct x as [x|]; [done|]. apply (refines_mirrors _ _ w1 a1 (mirrors_reply missing) Hs1).
Qed.

(** The first list that has elements. *)
Lemma first_refines key (rest : C unit) (body : addr -> Z -> C unit) (rest' : S unit) (k : list sds -> S unit) w a :
  sim w a -> (forall w1 a1, store a1 ⊆ store a -> sim w1 a1 -> refines rest rest' w1 a1) ->
  (forall w1 a1 ad o xs, store a1 ⊆ store a -> xs <> [] -> holding w1 a1 key ad o xs -> refines (body ad (Zlen xs)) (k xs) w1 a1) ->
  refines (o ← lookupKeyWrite ty can server access key;
     match o with
     | None => rest
     | Some ad => wrong ← checkType o OBJ_LIST; if (wrong : bool) then mret tt else llen ← on_list ad listTypeLength; if llen =? 0 then rest else body ad llen
     end)
    (o ← lookup_ server key WRITE; wrong ← check_ o OBJ_LIST; if (wrong : bool) then mret tt else if bool_decide (elements o = []) then rest' else k (elements o)) w a.
Proof.
  intros Hs Hrest Hk. unfold refines. rewrite result_bind. apply runs_bind. unfold lookupKeyWrite, lookupKeyWriteWithFlags.
  apply (lookupKey_runs ty can server access w a key WRITE); [done|]. intros r w1 Hs1 Hr _. pose proof (lookup_sub server key WRITE a) as Hsub. set (x := (lookup_ server key WRITE a).1) in *. set (a1 := result (lookup_ server key WRITE) a) in *.
  rewrite result_bind. destruct r as [ad|].
  - apply runs_bind, (check_mirror w1 a1 key (Some ad) x); [done..|]. intros w2 Hq. destruct (check_ x OBJ_LIST a1).1 eqn:E; [apply runs_ret; apply Hq|].
    pose proof (check_list w1 a1 key (Some ad) x _ _ Hr Hq E) as Hc. destruct x as [[xs| |]|]; try done. destruct Hc as (o & Hh). cbn [elements].
    assert (Hsub2 : store (result (check_ (Some (AList xs)) OBJ_LIST) a1) ⊆ store a) by by rewrite (proj2 (proj2 (proj2 Hq))).
    apply runs_bind, (length_runs w2 _ key ad o xs _ Hh). intros w3 o' Hh3 _ _. case_bool_decide as Hx.
    + rewrite Hx. cbn. apply Hrest; [done|apply Hh3].
    + rewrite (proj2 (Z.eqb_neq _ _)) by (destruct xs; [done|cbn [length]; lia]). by apply (Hk w3 _ ad o').
  - destruct x as [x|]; [done|]. cbn. by apply Hrest.
Qed.

End Step.

Create HintDb mirrors.
#[export] Hint Resolve mirrors_reply mirrors_replies mirrors_event mirrors_signal mirrors_notify mirrors_dirty mirrors_ret : mirrors.
#[export] Hint Resolve mirrors_number mirrors_range mirrors_position mirrors_when mirrors_bind : mirrors.

(** A step that changes only the log, while [H] says what the key holds. *)
Ltac log_step H :=
  lazymatch goal with |- refines ?ty _ _ _ _ => apply (refines_bind ty) end; [solve [eauto with mirrors] | apply H |];
  let w1 := fresh "w" in let Hq := fresh "Hq" in intros w1 Hq; cbn beta;
  lazymatch type of H with
  | holding _ _ _ _ _ _ _ => apply (holding_quiet _ _ _ _ _ _ _ _ _ Hq) in H
  | _ => apply proj1 in Hq; clear H; rename Hq into H
  end.

(** The last step. *)
Ltac log_done H := lazymatch goal with |- refines ?ty _ _ _ _ => apply (refines_mirrors ty) end; [solve [eauto with mirrors] | apply H].

End ListStep.
