(* ===== verification/ListCmdSpec.v ===== *)
(** * The list commands refine the abstract commands

    Every command of ListCmd.v, from a world that represents an abstract
    keyspace within the limits, ends without failure in a world that
    represents the keyspace after the abstract command of ListAbs.v. *)

From stdpp Require Import gmap.
From S2P Require Import Prelude.
From S2P Require Import NumConv.
From S2P Require Import Listpack.
From S2P Require Import Quicklist.
From S2P Require Import QuicklistNode.
From S2P Require Import QuicklistPush.
From S2P Require Import QuicklistSeek.
From S2P Require Import QuicklistMerge.
From S2P Require Import QuicklistInsert.
From S2P Require Import QuicklistRun.
From S2P Require Import ListType.
From S2P Require Import ListSpec.
From S2P Require Import Dict.
From S2P Require Import DictSpec.
From S2P Require Import Keyspace.
From S2P Require Import KeyspaceSpec.
From S2P Require Import ListCmd.
From S2P Require Import ListLoop.
From S2P Require Import ListAbs.
From S2P Require Import ListStep.
Import NumConv Lp QlNode QlPush QlSeek QlMerge QlRun ListType ListSpec Dict DictSpec Keyspace KsSpec ListCmd ListLoop ListAbs ListStep.

Module ListCmdSpec.

Lemma string2ll_range s v : string2ll s = Some v -> LLONG_MIN <= v <= LLONG_MAX.
Proof. intros Hs. by apply string2ll_sound in Hs as [? _]. Qed.

Lemma number_value s msg (a : astate content) v : (number_ s msg a).1 = Some v -> LLONG_MIN <= v <= LLONG_MAX.
Proof. unfold number_. destruct (string2ll s) as [z|] eqn:E; [|done]. intros [= <-]. by apply (string2ll_range s). Qed.

Lemma fits_le o n m : fits o n -> m <= n -> fits o m.
Proof. destruct o; cbn; [lia|done]. Qed.

Lemma arg_bytes argv j : args_ok argv -> (j < length argv)%nat -> bytes_ok (nth_arg argv j) /\ bytes [nth_arg argv j] < LIST_BYTES.
Proof.
  intros (Hok & Hb & _) Hj. unfold nth_arg. destruct (lookup_lt_is_Some_2 argv j Hj) as [s Hs]. rewrite Hs. cbn [default from_option id].
  split; [by eapply Forall_lookup_1|]. rewrite (QlInsert.bytes_split argv j), (drop_S _ _ _ Hs) in Hb. cbn [bytes] in *. pose proof (bytes_length (take j argv)). pose proof (bytes_length (drop (Datatypes.S j) argv)). lia.
Qed.

Lemma add_bytes s xs : bytes [s] < LIST_BYTES -> bytes xs < LIST_BYTES -> bytes (s :: xs) < MAX_BYTES.
Proof. change MAX_BYTES with (2 ^ 31). unfold LIST_BYTES. cbn [bytes]. lia. Qed.

Definition int_arg (s : sds) : Prop := forall i, string2ll s = Some i -> INT32_MIN <= i <= INT32_MAX.

(** An argument that is an [int] is the index. *)
Lemma lset_int server argv (a : astate content) : int_arg (nth_arg argv 2) -> result (lset_at server s32 argv) a = result (lset_spec server argv) a.
Proof.
  intros Hint. unfold lset_spec, lset_at, with_list. rewrite !result_bind. destruct (check_ _ _ _).1; [done|]. destruct (absent _); [done|]. unfold when_some. rewrite !result_bind.
  unfold number_. destruct (string2ll (nth_arg argv 2)) as [i|] eqn:E; [|done]. change ((mret (Some i) : S (option Z)) ?a).1 with (Some i). cbn. rewrite (swrap_small 32 i); [done|lia|]. specialize (Hint i E). lia.
Qed.

Lemma put_dirty key x y n (a : astate content) :
  result (put_ key y ;; dirty_ n) (result (put_ key x ;; dirty_ 1) a) = result (put_ key y ;; dirty_ (1 + n)) a.
Proof.
  unfold result, put_, on_store, dirty_, on_log, mbind, A_bind. cbn. f_equal; [|f_equal; lia].
  apply map_eq. intros k. destruct (decide (k = key)) as [->|]; [rewrite !lookup_alter_eq; by destruct (store a !! key)|by rewrite !lookup_alter_ne].
Qed.

Lemma pop_many_length wh n (xs : list sds) : 0 <= n <= Zlen xs -> Zlen (pop_many wh n xs).1 = n.
Proof. intros Hn. destruct wh; cbn [pop_many fst]; rewrite ?length_reverse, ?length_take, ?length_drop; lia. Qed.

Lemma range_len_bounds count (xs : list sds) : xs <> [] -> 0 < count -> 0 < range_len count (Zlen xs) <= Zlen xs.
Proof. intros Hx Hc. unfold range_len. destruct (Z.ltb_spec (Zlen xs) count), xs; try done; cbn [length] in *; lia. Qed.

Definition lpos_parsed (c : lpos_options) : Prop := rank c <> 0 /\ -1 <= lp_count c /\ 0 <= maxlen c.

Lemma in_range_value s min max msg (a : astate content) v : (in_range_ s min max msg a).1 = Some v -> min <= v <= max.
Proof.
  unfold in_range_. rewrite value_bind. destruct (number_ s msg a).1 as [z|]; [|done]. destruct (Z.ltb_spec z min), (Z.ltb_spec max z); cbn [orb]; try done. intros [= <-]. lia.
Qed.

Lemma lpos_args_ok fuel : forall opts c (a : astate content) c', lpos_parsed c -> (lpos_args fuel opts c a).1 = Some c' -> lpos_parsed c'.
Proof.
  induction fuel as [|fuel IH]; intros opts c a c' Hc; [by intros [= <-]|]. destruct opts as [|opt [|v rest]]; [by intros [= <-]|done|]. cbn [lpos_args].
  destruct Hc as (Hr & Hn & Hm). destruct (strcasecmp0 opt s_RANK); [|destruct (strcasecmp0 opt s_COUNT); [|destruct (strcasecmp0 opt s_MAXLEN); [|done]]]; rewrite value_bind.
  - destruct (in_range_ v _ _ _ a).1 as [r|]; [|done]. destruct (Z.eqb_spec r 0); [done|]. apply IH. by split.
  - destruct (positive_ v _ a).1 as [r|] eqn:E; [|done]. apply in_range_value in E. apply IH. split; [done|]. split; [cbn; lia|done].
  - destruct (positive_ v _ a).1 as [r|] eqn:E; [|done]. apply in_range_value in E. apply IH. split; [done|]. split; [done|cbn; lia].
Qed.

Lemma hits_range x xs : forall k, Forall (fun j => k <= j < k + Zlen xs) (hits k x xs).
Proof.
  induction xs as [|y xs IH]; intros k; [constructor|]. cbn [hits length]. assert (Hk : Forall (fun j => k <= j < k + Z.of_nat (Datatypes.S (length xs))) (hits (k + 1) x xs)) by (eapply Forall_impl; [apply IH|]; cbn; lia).
  case_bool_decide; [constructor; [lia|done]|done].
Qed.

Lemma positions_range x dir c xs : Forall (fun j => 0 <= j < Zlen xs) (positions x dir c xs).
Proof.
  unfold positions. set (l := if maxlen c =? 0 then _ else _). assert (Hl : Zlen l <= Zlen xs).
  { unfold l. destruct (maxlen c =? 0), dir; rewrite ?length_take, ?length_reverse; lia. }
  assert (Hps : Forall (fun j => 0 <= j < Zlen xs) (if lp_count c =? 0 then drop (Z.to_nat (rank c - 1)) (hits 0 x l) else take (Z.to_nat (Z.abs (lp_count c))) (drop (Z.to_nat (rank c - 1)) (hits 0 x l)))).
  { assert (Hd : Forall (fun j => 0 <= j < Zlen xs) (drop (Z.to_nat (rank c - 1)) (hits 0 x l))) by (apply Forall_drop; eapply Forall_impl; [apply hits_range|]; cbn; lia).
    destruct (lp_count c =? 0); [done|by apply Forall_take]. }
  apply Forall_fmap. eapply Forall_impl; [exact Hps|]. intros j Hj. cbn beta in Hj |- *. unfold compose. destruct dir; lia.
Qed.

Lemma pop_end_none wh xs : pop_end wh xs = None -> xs = [].
Proof. unfold pop_end. destruct wh; cbn [quicklist_end]; [by destruct xs|]. destruct xs as [|y xs _] using rev_ind; [done|]. by rewrite pop_tail. Qed.

Lemma pop_end_bytes wh xs x ys : pop_end wh xs = Some (x, ys) -> bytes xs = bytes (x :: ys).
Proof.
  unfold pop_end. destruct wh; cbn [quicklist_end].
  - destruct xs as [|y xs]; [done|]. by intros [= -> ->].
  - destruct xs as [|y xs _] using rev_ind; [done|]. rewrite pop_tail. intros [= -> ->]. rewrite bytes_app. cbn [bytes]. lia.
Qed.

Lemma place_store dst wh x ys (a : astate content) : store (result (place_ dst wh x ys) a) = alter (fun e => (AList ys, snd e)) dst (store a).
Proof. done. Qed.

Lemma lmpop_count opts (a : astate content) count : (lmpop_args opts a).1 = Some count -> 0 < (if count =? -1 then 1 else count).
Proof.
  intros Hc. assert (Hcnt : count = -1 \/ 1 <= count); [|destruct (Z.eqb_spec count (-1)); lia]. unfold lmpop_args in Hc. destruct opts as [|opt [|v rest]]; [left; cbn in Hc; congruence|done|]. destruct (strcasecmp0 opt s_COUNT); [|done]. rewrite value_bind in Hc.
  destruct (in_range_ v 1 LLONG_MAX _ _).1 as [n|] eqn:En; [|done]. apply in_range_value in En. destruct rest; [|done]. cbn in Hc. injection Hc as <-. lia.
Qed.

Section Cmd.
Context `{Allocator} `{Quicklist.LzfMemory} (packed_threshold : Z) (conf : ListType.redisServer).
Context (Hfill : INT32_MIN < list_max_listpack_size conf <= INT32_MAX).
Context (ty : dictType sds) `{!DictLaws ty} (can : dictResizeEnable) (server : environment) (access : Z -> Z) (initial_lru : Z).
Context (deny_blocking : bool) (milliseconds : sds -> option Z).
Context (Hwrite : may_write server).
Implicit Types (w : world value) (a : astate content) (key : sds) (ad : addr).

#[local] Set Default Proof Using "All".
#[local] Abbreviation sim := (sim ty).
#[local] Abbreviation refines := (refines ty).
#[local] Abbreviation holding := (holding ty).

(** ** Reading *)

Lemma llen_refines argv w a : (2 <= length argv)%nat -> sim w a -> refines (llenCommand ty can server access argv) (llen_spec server argv) w a.
Proof using -Hwrite.
  intros Hl Hs. apply (arg_refines ty); [lia|]. apply (read_refines ty); [done..|]. intros w1 a1 ad o xs _ Hh. apply (refines_length ty _ _ _ _ _ _ _ _ Hh). intros w2 o' Hh2 _ _. log_done Hh2.
Qed.

Lemma lindex_refines argv w a :
  (3 <= length argv)%nat -> string2ll (nth_arg argv 2) <> Some LLONG_MIN -> sim w a -> refines (lindexCommand ty can server access argv) (lindex_spec server argv) w a.
Proof using -Hwrite.
  intros Hl Hmin Hs. apply (arg_refines ty); [lia|]. apply (read_refines ty); [done..|]. intros w1 a1 ad o xs _ Hh. apply (arg_refines ty); [lia|].
  apply (refines_some ty); [eauto with mirrors|apply Hh|]. intros i w2 Hi Hq. apply (holding_quiet ty _ _ _ _ _ _ _ _ Hq) in Hh.
  destruct (lindex_list_spec o xs i (ho_list _ _ _ _ _ _ _ Hh)) as (o' & Hli & Hl').
  { pose proof (number_value _ _ _ _ Hi). unfold index_ok. enough (i <> LLONG_MIN) by lia. intros ->. unfold number_ in Hi. destruct (string2ll _); [|done]. cbn in Hi. congruence. }
  apply (refines_same ty _ _ _ _ _ _ _ _ _ _ _ Hh Hli Hl'). intros w3 Hh3 _. log_done Hh3.
Qed.

Lemma lrange_refines argv w a : (4 <= length argv)%nat -> sim w a -> refines (lrangeCommand ty can server access argv) (lrange_spec server argv) w a.
Proof using -Hwrite.
  intros Hl Hs. do 3 (apply (arg_refines ty); [lia|]). apply (refines_some ty); [eauto with mirrors|done|]. intros start w1 Hst Hq1. apply (refines_some ty); [eauto with mirrors|apply Hq1|]. intros stop w2 Hsp Hq2.
  apply (read_refines ty); [apply Hq2|]. intros w3 a3 ad o xs _ Hh.
  destruct (addListRangeReply_spec o xs start stop false (ho_list _ _ _ _ _ _ _ Hh) (number_value _ _ _ _ Hst) (number_value _ _ _ _ Hsp)) as (o' & Hr & Hl').
  apply (refines_same ty _ _ _ _ _ _ _ _ _ _ _ Hh Hr Hl'). intros w4 Hh4 _. log_done Hh4.
Qed.

(** ** Room for the arguments *)

Lemma holding_bytes w a key ad o xs : holding w a key ad o xs -> small a -> bytes xs < LIST_BYTES.
Proof. intros [_ _ _ (t & Hst)] [_ Hb]. apply (Hb key (AList xs) t Hst). Qed.

(** The conversion before elements are added. *)
Lemma append_refines vs objs (k : C unit) (k' : S unit) w a key ad o xs :
  holding w a key ad o xs -> Forall2 str_is objs vs -> bytes (vs ++ xs) < MAX_BYTES ->
  (forall w1 o', holding w1 a key ad o' xs -> fits o' (Zlen xs + 2 ^ 15) -> (forall k ad' u, k <> key -> at_obj w k ad' u -> at_obj w1 k ad' u) -> refines k k' w1 a) ->
  refines (change_list ad (fun o => listTypeTryConversionAppend conf o objs) ;; k) k' w a.
Proof.
  intros Hh Ho Hb HQ. destruct (tryConversionAppend_spec conf Hfill o xs objs vs (ho_list _ _ _ _ _ _ _ Hh) Ho Hb) as (o' & Hc & Hl & Hf).
  apply (refines_change_same ty _ _ _ w a key ad o xs o' Hh Hc Hl). intros w1 Hh1. by apply (HQ w1 o').
Qed.

Lemma linsert_refines argv w a :
  (5 <= length argv)%nat -> args_ok argv -> small a -> sim w a -> refines (linsertCommand packed_threshold conf ty can server access argv) (linsert_spec server argv) w a.
Proof.
  intros Hl Ha Hsm Hs. destruct (arg_bytes argv 4 Ha ltac:(lia)) as [Hvok Hvb]. apply (arg_refines ty); [lia|]. unfold linsert_spec.
  destruct (if strcasecmp0 (nth_arg argv 2) s_after then _ else _) as [wh|]; [|log_done Hs].
  apply (arg_refines ty); [lia|]. apply (write_refines ty); [done..|]. intros w1 a1 ad o xs Hsub Hh. do 2 (apply (arg_refines ty); [lia|]).
  pose proof (add_bytes _ _ Hvb (holding_bytes _ _ _ _ _ _ Hh (sub_small _ _ Hsub Hsm))) as Hb. set (v := nth_arg argv 4) in *.
  eapply (append_refines [v] [StrObj v]); [exact Hh|by constructor|done|]. clear Hh. intros w2 o2 Hh Hf2 _.
  destruct (linsert_list_spec packed_threshold o2 xs (nth_arg argv 3) v wh (ho_list _ _ _ _ _ _ _ Hh) Hvok Hb (fits_le o2 _ (Zlen xs + 1) Hf2 ltac:(lia))) as (o3 & Hins & Hl3).
  destruct (insert_next _ v wh xs) as [ys|]; cbn [default from_option id] in Hl3.
  - apply (refines_put ty _ _ _ _ _ _ _ _ _ _ _ _ Hh Hins Hl3). clear Hh. intros w3 Hh _. do 3 log_step Hh. apply (refines_length ty _ _ _ _ _ _ _ _ Hh). intros w7 o7 Hh7 _ _. log_done Hh7.
  - apply (refines_same ty _ _ _ _ _ _ _ _ _ _ _ Hh Hins Hl3). intros w3 Hh3 _. log_done Hh3.
Qed.

(** A conversion after elements were removed. *)
Lemma shrink_runs w a key ad o xs Q :
  holding w a key ad o xs -> (forall w1, sim w1 a -> Q tt w1) -> runs (change_list ad (fun o => listTypeTryConversion conf o LIST_CONV_SHRINKING)) w Q.
Proof.
  intros Hh HQ. destruct (tryConversion_spec conf Hfill o xs LIST_CONV_SHRINKING (ho_list _ _ _ _ _ _ _ Hh)) as (o' & Hc & Hl).
  apply (change_same_runs ty _ w a key ad o xs o' _ Hh Hc Hl). intros w1 Hh1 _. apply HQ, Hh1.
Qed.

Lemma lset_truncates argv w a :
  (4 <= length argv)%nat -> args_ok argv -> small a -> sim w a ->
  refines (lsetCommand packed_threshold conf ty can server access argv) (lset_at server s32 argv) w a.
Proof.
  intros Hl Ha Hsm Hs. destruct (arg_bytes argv 3 Ha ltac:(lia)) as [Hvok Hvb]. apply (arg_refines ty); [lia|]. apply (write_refines ty); [done..|].
  intros w1 a1 ad o xs Hsub Hh. do 2 (apply (arg_refines ty); [lia|]). pose proof (add_bytes _ _ Hvb (holding_bytes _ _ _ _ _ _ Hh (sub_small _ _ Hsub Hsm))) as Hb. set (v := nth_arg argv 3) in *.
  apply (refines_some ty); [eauto with mirrors|apply Hh|]. intros i w2 _ Hq. apply (holding_quiet ty _ _ _ _ _ _ _ _ Hq) in Hh.
  eapply (append_refines [v] [StrObj v]); [exact Hh|by constructor|done|]. clear Hh. intros w3 o2 Hh _ _.
  destruct (listTypeReplaceAtIndex_spec packed_threshold o2 xs i (StrObj v) v (ho_list _ _ _ _ _ _ _ Hh) eq_refl Hvok Hb) as (o3 & Hrep & Hl3). cbn zeta in Hrep, Hl3.
  destruct (found xs (s32 i)).
  - apply (refines_put ty _ _ _ _ _ _ _ _ _ _ _ _ Hh Hrep Hl3). clear Hh. intros w4 Hh _. do 3 log_step Hh.
    apply runs_bind, (mirrors_runs ty _ (dirty_ 1) _ _ _ (mirrors_dirty ty 1) (ho_sim _ _ _ _ _ _ _ Hh)). intros w8 Hq8. apply (holding_quiet ty _ _ _ _ _ _ _ _ Hq8) in Hh.
    by apply (shrink_runs _ _ _ _ _ _ _ Hh).
  - apply (refines_same ty _ _ _ _ _ _ _ _ _ _ _ Hh Hrep Hl3). intros w4 Hh4 _. log_done Hh4.
Qed.

Lemma lset_refines argv w a :
  (4 <= length argv)%nat -> args_ok argv -> int_arg (nth_arg argv 2) -> small a -> sim w a ->
  refines (lsetCommand packed_threshold conf ty can server access argv) (lset_spec server argv) w a.
Proof. intros Hl Ha Hint Hsm Hs. unfold refines. rewrite <- lset_int by done. by apply lset_truncates. Qed.

(** ** Pushing *)

Lemma push_loop_runs key ad wh vs : forall w a o xs, 
  holding w a key ad o xs -> fits o (Zlen xs + Zlen vs) -> bytes (vs ++ xs) < MAX_BYTES -> Forall bytes_ok vs ->
  runs (push_loop packed_threshold ad vs wh) w (fun _ w1 => exists o', holding w1 (result (put_ key (AList (push_all wh xs vs)) ;; dirty_ (Zlen vs)) a) key ad o' (push_all wh xs vs)).
Proof.
  induction vs as [|v vs IH]; intros w a o xs Hh Hf Hb Hok.
  - apply runs_ret. exists o. destruct (ho_store _ _ _ _ _ _ _ Hh) as (t & Hst). rewrite result_bind. cbn [push_all foldl]. rewrite (put_same _ _ _ _ Hst).
    apply (holding_quiet ty w a); [|done]. split; [|done]. apply (sim_log_only ty w); try done; [apply Hh|]. unfold log_of. cbn. by rewrite Z.add_0_r.
  - apply Forall_cons in Hok as [Hv Hok]. cbn [app bytes] in Hb. rewrite bytes_app in Hb. pose proof (bytes_length vs). pose proof (bytes_length xs). cbn [length] in Hf.
    destruct (listTypePush_spec packed_threshold o xs (StrObj v) v wh (ho_list _ _ _ _ _ _ _ Hh) eq_refl Hv) as (o1 & Hp & Hl1 & Hk); [cbn [bytes]; lia|apply (fits_le o _ _ Hf); lia|].
    cbn [push_loop]. apply runs_bind, (change_runs ty _ w a key ad o xs o1 _ _ Hh Hp Hl1). clear Hh. intros w1 Hh _.
    apply runs_bind, (mirrors_runs ty _ (dirty_ 1) _ _ _ (mirrors_dirty ty 1) (ho_sim _ _ _ _ _ _ _ Hh)). intros w2 Hq. apply (holding_quiet ty _ _ _ _ _ _ _ _ Hq) in Hh.
    eapply runs_mono; [apply (IH _ _ _ _ Hh)|].
    + rewrite push_length. destruct o, o1; try done. cbn [fits] in *. lia.
    + rewrite bytes_app, push_bytes. cbn [bytes]. lia.
    + done.
    + intros r w3 (o' & Hh'). exists o'. pose proof (put_dirty key (AList (push_list wh v xs)) (AList (push_all wh (push_list wh v xs) vs)) (Zlen vs) a) as E. rewrite (result_bind (put_ key (AList (push_list wh v xs)))) in E.
      rewrite E in Hh'. cbn [push_all foldl length]. replace (Z.of_nat (Datatypes.S (length vs))) with (1 + Zlen vs) by lia. exact Hh'.
Qed.

Lemma push_tail_refines argv wh w a key ad o xs :
  (3 <= length argv)%nat -> args_ok argv -> bytes xs < LIST_BYTES -> holding w a key ad o xs ->
  refines (change_list ad (fun o => listTypeTryConversionAppend conf o (StrObj <$> drop 2 argv)) ;; push_loop packed_threshold ad (drop 2 argv) wh ;;
      n ← on_list ad listTypeLength; addReply (RLong n) ;; signalModifiedKey key ;; notifyKeyspaceEvent (match wh with LIST_HEAD => e_lpush | LIST_TAIL => e_rpush end) key)
    (let ys := push_all wh xs (drop 2 argv) in put_ key (AList ys) ;; dirty_ (Zlen (drop 2 argv)) ;; reply_ (RLong (Zlen ys)) ;; event_ (SignalModified key) ;; event_ (Notify (push_event wh) key)) w a.
Proof.
  intros Hl (Hok & Hb & Hn) Hxs Hh. set (vs := drop 2 argv). assert (Hvs : bytes vs < LIST_BYTES) by (rewrite (QlInsert.bytes_split argv 2) in Hb; pose proof (bytes_length (take 2 argv)); unfold vs; lia).
  assert (Hvok : Forall bytes_ok vs) by by apply Forall_drop. assert (Hvn : Zlen vs < 2 ^ 15) by (unfold vs; rewrite length_drop; lia).
  assert (Hall : bytes (vs ++ xs) < MAX_BYTES) by (rewrite bytes_app; change MAX_BYTES with (2 ^ 31); unfold LIST_BYTES in *; lia).
  eapply (append_refines vs); [exact Hh|apply Forall2_fmap_l, Forall_Forall2_diag, Forall_true; done|done|]. clear Hh. intros w1 o1 Hh Hf _. clearbody vs.
  unfold refines. cbn zeta. rewrite 2!result_bind. apply runs_bind. eapply runs_mono; [apply (push_loop_runs key ad wh vs _ _ _ _ Hh); [apply (fits_le o1 _ _ Hf); lia|done|done]|].
  clear Hh. intros r w2 (o2 & Hh). rewrite result_bind in Hh. apply (refines_length ty _ _ _ _ _ _ _ _ Hh). clear Hh. intros w3 o3 Hh _ _. do 2 log_step Hh. log_done Hh.
Qed.

Lemma new_list_runs w a key Q :
  sim w a -> store a !! key = None -> Z.of_nat (size (store a)) < 2 ^ 59 ->
  (forall ad o w1, holding w1 (result (add_ key (AList [])) a) key ad o [] -> (forall k ad' u, k <> key -> at_obj w k ad' u -> at_obj w1 k ad' u) -> Q ad w1) ->
  runs (new_list ty can initial_lru key) w Q.
Proof.
  intros Hs Hn Hsz HQ. destruct new_is_list as (o & Ho & Hl). apply runs_bind, (runs_lift o); [done|]. apply (new_runs ty can initial_lru w a key (VList o) (AList [])); [done|done|lia|done|].
  intros ad w1 Hs1 Hat Hfr. apply (HQ ad o); [|done]. split; [done..|]. exists None. rewrite add_eq. apply lookup_insert_eq.
Qed.

Lemma lpush_refines argv wh xx w a :
  (3 <= length argv)%nat -> args_ok argv -> small a -> sim w a ->
  refines (pushGenericCommand packed_threshold conf ty can server access initial_lru argv wh xx) (push_spec server argv wh xx) w a.
Proof.
  intros Hl Ha Hsm Hs. apply (arg_refines ty); [lia|]. set (key := nth_arg argv 1). unfold refines, push_spec. fold key. cbn zeta. rewrite result_bind. apply runs_bind.
  apply (lookupKey_runs ty can server access w a key WRITE); [done|]. intros r w1 Hs1 Hr _. pose proof (lookup_sub server key WRITE a) as Hsub. pose proof (write_none server key WRITE a Hwrite eq_refl eq_refl) as Hnone.
  set (x := (lookup_ server key WRITE a).1) in *. set (a1 := result (lookup_ server key WRITE) a) in *. rewrite result_bind.
  apply runs_bind, (check_mirror ty w1 a1 key r x); [done..|]. intros w2 Hq. destruct (check_ x OBJ_LIST a1).1 eqn:E; [apply runs_ret; apply Hq|].
  pose proof (check_list ty w1 a1 key r x _ _ Hr Hq E) as Hc. assert (Hsub2 : store (result (check_ x OBJ_LIST) a1) ⊆ store a) by by rewrite (proj2 (proj2 (proj2 Hq))). pose proof (sub_small _ _ Hsub2 Hsm) as Hsm2.
  destruct r as [ad|], x as [[xs| |]|]; try done; cbn [absent elements andb].
  - destruct Hc as (o & Hh). pose proof (push_tail_refines argv wh _ _ _ _ _ _ Hl Ha (holding_bytes _ _ _ _ _ _ Hh Hsm2) Hh) as Hgo. destruct xx; exact Hgo.
  - specialize (Hnone eq_refl). destruct xx; [apply (refines_mirrors ty _ _ _ _ (mirrors_reply ty _)), Hq|]. rewrite result_bind. apply runs_bind, (new_list_runs w2 a1 key); [apply Hq|done|apply Hsm2|].
    intros ad o w3 Hh _. apply (push_tail_refines argv wh _ _ _ _ _ _ Hl Ha (eq_refl : bytes [] < LIST_BYTES) Hh).
Qed.

(** ** Removing *)

Lemma drop_empty_refines (conv : C unit) w a key ad o ys :
  holding w a key ad o ys -> (ys <> [] -> runs conv w (fun _ w1 => sim w1 a)) ->
  refines (if Zlen ys =? 0 then dbDelete ty can server key ;; notifyKeyspaceEvent e_del key else conv) (drop_empty key ys) w a.
Proof.
  intros Hh Hconv. unfold drop_empty. case_bool_decide as Hy; cbn [when_].
  - rewrite Hy. cbn [length]. change (Z.of_nat 0 =? 0) with true. cbn match. destruct (ho_store _ _ _ _ _ _ _ Hh) as (t & Hst). unfold refines. rewrite result_bind.
    apply runs_bind, (delete_runs ty can w a key _ (AList ys) t); [apply Hh|done|]. intros w1 Hs1 _. apply (refines_mirrors ty _ _ _ _ (mirrors_notify ty _ _) Hs1).
  - rewrite (proj2 (Z.eqb_neq _ _)) by (destruct ys; [done|cbn [length]; lia]). by apply Hconv.
Qed.

Lemma removed_refines w a key wh ad o ys n :
  holding w a key ad o ys -> refines (listElementsRemoved conf ty can server key wh ad n true) (removed_ key wh ys n) w a.
Proof.
  intros Hh. unfold listElementsRemoved, removed_. log_step Hh. apply (refines_length ty _ _ _ _ _ _ _ _ Hh). clear Hh. intros w1 o1 Hh _ _.
  apply (refines_seq ty); [apply (drop_empty_refines _ _ _ _ _ _ _ Hh); intros _; by apply (shrink_runs _ _ _ _ _ _ _ Hh)|]. intros w2 Hs2. cbn [when]. log_step Hs2. log_done Hs2.
Qed.

Lemma pop_range_refines w a key wh ad o xs count :
  holding w a key ad o xs -> xs <> [] -> 0 < count -> let n := range_len count (Zlen xs) in
  refines (rangeReply ad (range_start wh n) (range_end wh n) (range_reverse wh) ;; change_list ad (fun o => listTypeDelRange o (range_start wh n) n) ;;
    listElementsRemoved conf ty can server key wh ad n true) (pop_range_ key wh xs count) w a.
Proof.
  intros Hh Hx Hc n. pose proof (range_len_bounds count xs Hx Hc) as Hn. fold n in Hn. unfold pop_range_. fold n. pose proof (pop_many_length wh n xs ltac:(lia)) as Hpl.
  destruct (pop_reply_spec o xs wh n (ho_list _ _ _ _ _ _ _ Hh) Hn) as (o1 & Hrep & Hl1). rewrite (surjective_pairing (pop_many wh n xs)).
  apply (refines_hold ty _ _ _ _ _ _ key ad xs).
  - apply runs_bind, (on_same_runs ty _ _ _ _ _ _ _ _ _ _ Hh Hrep Hl1). clear Hh. intros w1 Hh _. apply (mirrors_runs ty _ (array_ (pop_many wh n xs).1) w1 a); [unfold array_; rewrite Hpl; apply (mirrors_replies ty _)|apply Hh|].
    intros w2 Hq. exists o1. by apply (holding_quiet ty _ _ _ _ _ _ _ _ Hq).
  - clear Hh Hrep. intros w1 o1' Hh. destruct (pop_range_spec o1' xs wh n (ho_list _ _ _ _ _ _ _ Hh) ltac:(lia)) as (o3 & Hdel3 & Hl3).
    apply (refines_change ty _ _ _ _ _ _ _ _ _ _ _ Hh Hdel3 Hl3). clear Hh. intros w2 Hh _. by eapply removed_refines.
Qed.

Lemma pop_one_runs w a key wh ad o xs x ys Q :
  holding w a key ad o xs -> pop_end wh xs = Some (x, ys) ->
  (forall v w1 o', str_is v x -> holding w1 (result (put_ key (AList ys)) a) key ad o' ys -> (forall k ad' u, k <> key -> at_obj w k ad' u -> at_obj w1 k ad' u) -> Q v w1) ->
  runs (pop_one ad wh) w Q.
Proof.
  intros Hh Hp HQ. destruct (listTypePop_spec o xs wh (ho_list _ _ _ _ _ _ _ Hh)) as (r & o' & Hpop & Hr). rewrite Hp in Hr. destruct Hr as (v & -> & Hv & Hl).
  apply runs_bind, (on_list_runs ty _ _ _ _ _ _ _ _ _ _ _ Hh Hpop Hl). intros w1 Hh1 Hfr. apply (runs_lift v); [done|]. by apply (HQ v w1 o').
Qed.

Lemma mirrors_bulk v x : str_is v x -> mirrors ty (addReplyBulk v) (reply_ (RBulk x)).
Proof. intros Hv w a Hs. destruct (mirrors_reply ty (RBulk x) w a Hs) as (w1 & Hw & Hq). exists w1. split; [|done]. unfold addReplyBulk, mbind, K_bind, lift. by rewrite (str_decoded _ _ Hv). Qed.

(** One element, with replies before it. *)
Lemma pop_one_refines w a key wh ad o xs (before : C unit) (before' : S unit) :
  holding w a key ad o xs -> xs <> [] -> mirrors ty before before' ->
  refines (value ← pop_one ad wh; before ;; addReplyBulk value ;; listElementsRemoved conf ty can server key wh ad 1 true) (pop_one_ key wh xs before') w a.
Proof.
  intros Hh Hx Hm. unfold pop_one_. destruct (pop_end wh xs) as [[x ys]|] eqn:Hp.
  2: { by apply pop_end_none in Hp. }
  unfold refines. rewrite result_bind. apply runs_bind, (pop_one_runs _ _ _ _ _ _ _ _ _ _ Hh Hp). clear Hh. intros v w1 o1 Hv Hh _.
  apply (refines_bind ty _ _ _ _ _ _ Hm (ho_sim _ _ _ _ _ _ _ Hh)). intros w2 Hq. apply (holding_quiet ty _ _ _ _ _ _ _ _ Hq) in Hh.
  apply (refines_bind ty _ _ _ _ _ _ (mirrors_bulk v x Hv) (ho_sim _ _ _ _ _ _ _ Hh)). intros w3 Hq3. apply (holding_quiet ty _ _ _ _ _ _ _ _ Hq3) in Hh. by eapply removed_refines.
Qed.

Lemma lpop_refines argv wh w a :
  (2 <= length argv)%nat -> full a -> sim w a -> refines (popGenericCommand conf ty can server access argv wh) (pop_spec server argv wh) w a.
Proof.
  intros Hl Hfull Hs. unfold popGenericCommand, pop_spec. destruct (Nat.ltb_spec 3 (length argv)); [log_done Hs|]. set (hascount := Nat.eqb (length argv) 3).
  assert (Hm : mirrors ty (if hascount then s ← arg argv 2; getPositiveLongFromObjectOrReply s None else mret (Some 0)) (if hascount then positive_ (nth_arg argv 2) None else mret (Some 0))).
  { unfold hascount. destruct (Nat.eqb_spec (length argv) 3); [|by apply mirrors_ret]. apply (mirrors_arg ty); [lia|]. by apply (mirrors_range ty). }
  apply (refines_some ty _ _ _ _ _ _ Hm Hs). intros count w1 Hcnt Hq1. apply (arg_refines ty); [lia|]. apply (write_refines ty); [apply Hq1|]. intros w2 a2 ad o xs Hsub Hh.
  assert (Hx : xs <> []). { destruct (ho_store _ _ _ _ _ _ _ Hh) as (t & Hst). rewrite (proj2 (proj2 (proj2 Hq1))) in Hsub. by apply (full_list _ _ _ _ (sub_full _ _ Hsub Hfull) Hst). }
  destruct (Z.eqb_spec count 0) as [Hz|Hz]; [destruct hascount; cbn [andb]|rewrite andb_false_r].
  - log_done Hh.
  - eapply runs_mono; [apply (pop_one_refines _ _ _ wh _ _ _ (mret tt) (mret tt) Hh Hx (mirrors_ret ty tt))|done].
  - assert (Hc : 0 < count). { unfold hascount in Hcnt. destruct (Nat.eqb _ 3); [|cbn in Hcnt; congruence]. unfold positive_, in_range_ in Hcnt. rewrite value_bind in Hcnt.
      destruct (number_ (nth_arg argv 2) _ a).1 as [z|]; [|done]. destruct (Z.ltb_spec z 0); [done|]. cbn [orb] in Hcnt. destruct (LLONG_MAX <? z); [done|]. cbn in Hcnt. injection Hcnt as <-. lia. }
    apply (refines_length ty _ _ _ _ _ _ _ _ Hh). clear Hh. intros w3 o3 Hh _ _. by apply (pop_range_refines _ _ _ _ _ _ _ _ Hh Hx Hc).
Qed.

(** ** Several keys *)

Lemma mirrors_rewrite wh key count : (forall n, count = Some n -> LLONG_MIN <= n <= LLONG_MAX) -> mirrors ty (rewrite_pop wh key count) (rewrite_pop_ wh key count).
Proof.
  intros Hn w a Hs. unfold rewrite_pop, rewrite_pop_. destruct count as [n|]; [|by apply (mirrors_event ty)]. specialize (Hn n eq_refl).
  pose proof (str_decoded (createStringObjectFromLongLong n) (lltoa n) (conj Hn eq_refl)) as Hd. unfold lift, mbind, K_bind. rewrite Hd. cbn [mbind option_bind]. by apply (mirrors_event ty).
Qed.

Lemma pop_from_refines w a key wh ad o xs count :
  holding w a key ad o xs -> xs <> [] -> 0 < count ->
  refines (listPopRangeAndReplyWithKey conf ty can server ad key wh count true ;; rewrite_pop wh key (Some (range_len count (Zlen xs)))) (pop_from wh count key xs) w a.
Proof.
  intros Hh Hx Hc. pose proof (is_list_short _ _ (ho_list _ _ _ _ _ _ _ Hh)) as Hsh. pose proof (range_len_bounds count xs Hx Hc) as Hn. apply (refines_seq ty).
  - apply (refines_length ty _ _ _ _ _ _ _ _ Hh). clear Hh. intros w1 o1 Hh _ _. do 2 log_step Hh. by apply (pop_range_refines _ _ _ _ _ _ _ _ Hh Hx Hc).
  - intros w1 Hs1. apply (refines_mirrors ty); [|done]. apply mirrors_rewrite. intros n [= <-]. lia.
Qed.

Lemma mpop_refines wh count keys : 0 < count -> forall w a, sim w a -> refines (mpopGenericCommand conf ty can server access keys wh count) (mpop_spec server keys wh count) w a.
Proof.
  intros Hc. induction keys as [|key keys IH]; intros w a Hs; [log_done Hs|]. apply (first_refines ty); [done|intros w1 a1 _ Hs1; by apply IH|].
  intros w1 a1 ad o xs _ Hx Hh. by apply (pop_from_refines _ _ _ _ _ _ _ _ Hh Hx Hc).
Qed.

Lemma mirrors_timeout s : mirrors ty (getTimeoutFromObjectOrReply server milliseconds s) (timeout_ server milliseconds s).
Proof.
  assert (Herr : forall e, mirrors ty (addReply (RError e) ;; mret (None : option Z)) (reply_ (RError e) ;; mret None)) by (intros e; apply (mirrors_bind ty); [by apply mirrors_reply|intros _; by apply mirrors_ret]).
  unfold getTimeoutFromObjectOrReply, timeout_, deadline. cbn zeta. destruct (milliseconds s) as [t|]; [|apply Herr]. set (now := commandTimeSnapshot server).
  destruct (Z.ltb_spec LLONG_MAX t), (Z.eqb_spec t 0), (Z.ltb_spec t 0), (Z.ltb_spec 0 t), (Z.leb_spec (now + t) LLONG_MAX), (Z.leb_spec t LLONG_MAX), (Z.ltb_spec (LLONG_MAX - now) t); try lia; try apply Herr; subst; rewrite ?(Z.add_comm t now); by apply mirrors_ret.
Qed.

Lemma block_refines keys timeout r w a : sim w a -> refines (if deny_blocking then addReply r else emit (BlockForKeys keys timeout)) (block_ deny_blocking keys timeout r) w a.
Proof. intros Hs. unfold block_. destruct deny_blocking; log_done Hs. Qed.

Lemma blocking_refines keys wh arg count w a :
  count = -1 \/ 0 < count -> sim w a ->
  refines (blockingPopGenericCommand conf ty can server access deny_blocking milliseconds keys wh arg count) (blocking_spec server deny_blocking milliseconds keys wh arg count) w a.
Proof.
  intros Hc Hs. apply (refines_some ty _ _ _ _ _ _ (mirrors_timeout arg) Hs). intros timeout w1 _ Hq. set (all := keys) at 1 4. clearbody all. destruct Hq as (Hs1 & _). revert w1 Hs1. generalize (result (timeout_ server milliseconds arg) a). clear a Hs w.
  induction keys as [|key keys IH]; intros a w Hs; [by apply block_refines|]. apply (first_refines ty); [done|intros w1 a1 _ Hs1; by apply IH|].
  intros w1 a1 ad o xs _ Hx Hh. destruct (Z.eqb_spec count (-1)); cbn [negb]; [|apply (pop_from_refines _ _ _ _ _ _ _ _ Hh Hx); lia].
  apply (refines_seq ty).
  - apply (pop_one_refines _ _ _ _ _ _ _ _ _ Hh Hx). apply (mirrors_bind ty); [by apply mirrors_reply|]. intros _. by apply mirrors_reply.
  - intros w2 Hs2. apply (refines_mirrors ty); [|done]. by apply mirrors_rewrite.
Qed.

Lemma bpop_refines argv wh w a : (3 <= length argv)%nat -> sim w a ->
  refines (t ← lift (last argv); blockingPopGenericCommand conf ty can server access deny_blocking milliseconds (drop 1 (take (length argv - 1) argv)) wh t (-1))
    (bpop_spec server deny_blocking milliseconds argv wh) w a.
Proof.
  intros Hl Hs. destruct (last argv) as [t|] eqn:Et; [|apply last_None in Et; subst; cbn in Hl; lia]. unfold bpop_spec. rewrite Et. apply runs_bind, (runs_lift t); [done|]. apply blocking_refines; [by left|done].
Qed.

(** ** Trimming and removing *)

Lemma ltrim_refines argv w a : (4 <= length argv)%nat -> sim w a -> refines (ltrimCommand conf ty can server access argv) (ltrim_spec server argv) w a.
Proof.
  intros Hl Hs. do 3 (apply (arg_refines ty); [lia|]). apply (refines_some ty); [eauto with mirrors|done|]. intros start w1 Hst Hq1. apply (refines_some ty); [eauto with mirrors|apply Hq1|]. intros stop w2 Hsp Hq2.
  apply (write_refines ty); [apply Hq2|]. intros w3 a3 ad o xs _ Hh. apply (refines_length ty _ _ _ _ _ _ _ _ Hh). clear Hh. intros w4 o4 Hh _ _.
  destruct (trim_list_spec o4 xs start stop (ho_list _ _ _ _ _ _ _ Hh) (number_value _ _ _ _ Hst) (number_value _ _ _ _ Hsp)) as (l & r & o5 & -> & Htrim & Hl5 & Hlr). cbn zeta. rewrite <- Hlr.
  apply (refines_change ty _ _ _ _ _ _ _ _ _ _ _ Hh Htrim Hl5). clear Hh. intros w5 Hh _. log_step Hh. apply (refines_length ty _ _ _ _ _ _ _ _ Hh). clear Hh. intros w7 o7 Hh _ _.
  apply (refines_seq ty); [apply (drop_empty_refines _ _ _ _ _ _ _ Hh); intros _; by apply (shrink_runs _ _ _ _ _ _ _ Hh)|]. intros w8 Hs8. do 2 log_step Hs8. log_done Hs8.
Qed.

Lemma lrem_refines argv w a :
  (4 <= length argv)%nat -> string2ll (nth_arg argv 2) <> Some LLONG_MIN -> sim w a -> refines (lremCommand conf ty can server access argv) (lrem_spec server argv) w a.
Proof.
  intros Hl Hmin Hs. do 3 (apply (arg_refines ty); [lia|]). apply (refines_some ty); [eauto with mirrors|done|]. intros n w1 Hn Hq1. apply (write_refines ty); [apply Hq1|]. intros w3 a3 ad o xs _ Hh.
  destruct (lrem_list_spec o xs n (nth_arg argv 3) (ho_list _ _ _ _ _ _ _ Hh)) as (o4 & Hrem & Hl4).
  { pose proof (number_value _ _ _ _ Hn). enough (n <> LLONG_MIN) by lia. intros ->. unfold number_ in Hn. destruct (string2ll _); [|done]. cbn in Hn. congruence. }
  apply (refines_put ty _ _ _ _ _ _ _ _ _ _ _ _ Hh Hrem Hl4). clear Hh. intros w4 Hh _. set (ys := remove_count n _ xs) in *. log_step Hh. log_step Hh.
  apply (refines_length ty _ _ _ _ _ _ _ _ Hh). clear Hh. intros w7 o7 Hh _ _.
  apply (refines_seq ty); [apply (drop_empty_refines _ _ _ _ _ _ _ Hh); intros _|intros w8 Hs8; log_done Hs8].
  unfold when. destruct (negb _); [by apply (shrink_runs _ _ _ _ _ _ _ Hh)|apply runs_ret, Hh].
Qed.

(** ** Positions *)

Lemma mirrors_lpos_parse fuel : forall opts c, (length opts <= fuel)%nat -> mirrors ty (lpos_parse fuel opts c) (lpos_args fuel opts c).
Proof using -Hwrite.
  induction fuel as [|fuel IH]; intros opts c Hl; [destruct opts; [by apply mirrors_ret|cbn [length] in Hl; lia]|].
  destruct opts as [|opt [|v rest]]; [by apply mirrors_ret|cbn [lpos_parse lpos_args]; eauto with mirrors|]. cbn [length] in Hl. cbn [lpos_parse lpos_args].
  destruct (strcasecmp0 opt s_RANK); [|destruct (strcasecmp0 opt s_COUNT); [|destruct (strcasecmp0 opt s_MAXLEN)]].
  - apply (mirrors_bind ty); [by apply mirrors_range|]. intros [r|]; [|by apply mirrors_ret]. destruct (r =? 0); [eauto with mirrors|apply IH; lia].
  - apply (mirrors_bind ty); [by apply mirrors_range|]. intros [r|]; [apply IH; lia|by apply mirrors_ret].
  - apply (mirrors_bind ty); [by apply mirrors_range|]. intros [r|]; [apply IH; lia|by apply mirrors_ret].
  - eauto with mirrors.
Qed.

(** The length of the array is written when the elements are known. *)
Lemma deferred_refines w a key ad o xs (f : lobj -> option (list Z * Z * lobj)) o' ps mi :
  holding w a key ad o xs -> f o = Some (ps, mi, o') -> is_list o' xs ->
  refines (p ← gets (fun w => length (out w)); addReply RDeferredLen ;; '(l, _) ← on_list ad (fun o => '(l, m, o) ← f o; Some ((l, m), o));
      addReplies (RLong <$> l) ;; modify (fun w => with_out (<[p := RArrayLen (Zlen l)]> (out w)) w)) (replies_ (RArrayLen (Zlen ps) :: (RLong <$> ps))) w a.
Proof using -Hwrite.
  intros Hh Hf Hl. apply runs_bind, runs_gets. pose proof (sim_log _ _ _ (ho_sim _ _ _ _ _ _ _ Hh)) as Hlog.
  apply runs_bind, (mirrors_runs ty _ _ _ _ _ (mirrors_reply ty RDeferredLen) (ho_sim _ _ _ _ _ _ _ Hh)). intros w1 Hq. apply (holding_quiet ty _ _ _ _ _ _ _ _ Hq) in Hh.
  assert (Hf' : ('(l, m, o) ← f o; Some ((l, m), o)) = Some ((ps, mi), o')) by by rewrite Hf. apply runs_bind, (on_same_runs ty _ _ _ _ _ _ _ _ _ _ Hh Hf' Hl). clear Hh. intros w2 Hh _.
  apply runs_bind, (mirrors_runs ty _ _ _ _ _ (mirrors_replies ty _) (ho_sim _ _ _ _ _ _ _ Hh)). intros w3 (Hs3 & _). apply runs_modify. apply (sim_relog ty w3 _ _ _ Hs3); try done.
  pose proof (sim_log _ _ _ Hs3) as Hl3. unfold log_of in *. cbn in *. injection Hl3 as -> -> -> -> -> ->. f_equal. rewrite <- Hlog. cbn. rewrite <- !app_assoc. cbn [app].
  rewrite insert_app_r_alt, Nat.sub_diag by lia. done.
Qed.

Lemma lpos_refines argv w a : (3 <= length argv)%nat -> sim w a -> refines (lposCommand ty can server access argv) (lpos_spec server argv) w a.
Proof using -Hwrite.
  intros Hl Hs. apply (arg_refines ty); [lia|]. apply (refines_some ty); [apply mirrors_lpos_parse; rewrite length_drop; lia|done|]. intros c w1 Hc Hq1. apply lpos_args_ok in Hc; [|by repeat split].
  destruct Hc as (Hr & Hn & Hm). set (dir := if rank c <? 0 then LIST_HEAD else LIST_TAIL). cbn zeta.
  assert (Ec : (if rank c <? 0 then {| rank := - rank c; lp_count := lp_count c; maxlen := maxlen c |} else c) = {| rank := Z.abs (rank c); lp_count := lp_count c; maxlen := maxlen c |}).
  { destruct (Z.ltb_spec (rank c) 0); [f_equal; lia|]. destruct c. cbn in *. f_equal. lia. }
  rewrite Ec. set (c' := {| rank := Z.abs (rank c); lp_count := lp_count c; maxlen := maxlen c |}). assert (Hok : lpos_ok c') by (unfold lpos_ok, c'; cbn; lia). apply (arg_refines ty); [lia|]. apply (lookup_refines ty); [apply Hq1|]. intros w2 a2 ad o xs _ Hh.
  destruct (lpos_list_spec o xs (nth_arg argv 2) dir c' (ho_list _ _ _ _ _ _ _ Hh) Hok) as (ps & mi & o' & Hpos & Hl' & Hres). cbn [lp_count c'] in *. destruct (Z.eqb_spec (lp_count c) (-1)) as [Hc1|Hc1]; cbn [negb when].
  - destruct Hres as [-> ->]. apply runs_bind, runs_gets, runs_bind, runs_ret. assert (Hf' : ('(l, m, o) ← lpos_list (nth_arg argv 2) dir c' o; Some ((l, m), o)) = Some (([], default (-1) (hd_error (positions (nth_arg argv 2) dir c' xs))), o')) by by rewrite Hpos.
    apply runs_bind, (on_same_runs ty _ _ _ _ _ _ _ _ _ _ Hh Hf' Hl'). clear Hh. intros w3 Hh _. apply runs_bind, runs_ret. pose proof (positions_range (nth_arg argv 2) dir c' xs) as Hpr.
    destruct (positions _ dir c' xs) as [|p ps']; cbn [hd_error default from_option id]; [apply (refines_mirrors ty _ _ _ _ (mirrors_reply ty _)), Hh|]. apply Forall_cons in Hpr as [Hp _]. rewrite (proj2 (Z.eqb_neq p (-1))) by lia. cbn [negb]. apply (refines_mirrors ty _ _ _ _ (mirrors_reply ty _)), Hh.
  - subst ps. by eapply (deferred_refines _ _ _ _ _ _ _ _ _ _ Hh Hpos).
Qed.

(** ** Moving *)

(** Another key keeps its list. *)
Lemma holding_other w a w1 a1 key ad o xs dst :
  holding w a key ad o xs -> sim w1 a1 -> key <> dst -> (forall k ad' u, k <> dst -> at_obj w k ad' u -> at_obj w1 k ad' u) -> store a1 !! key = store a !! key -> holding w1 a1 key ad o xs.
Proof. intros [_ Hat Hl Hst] Hs1 Hne Hfr Hk. split; [done|by apply Hfr|done|by rewrite Hk]. Qed.

Lemma place_runs w a dst da o ys wh v x :
  holding w a dst da o ys -> str_is v x -> bytes_ok x -> bytes (x :: ys) < MAX_BYTES ->
  runs (signalModifiedKey dst ;; change_list da (fun o => listTypeTryConversionAppend conf o [v]) ;; change_list da (fun o => listTypePush packed_threshold o v wh) ;;
      notifyKeyspaceEvent (match wh with LIST_HEAD => e_lpush | LIST_TAIL => e_rpush end) dst ;; addReplyBulk v) w
    (fun _ w1 => (exists o', holding w1 (result (place_ dst wh x (push_list wh x ys)) a) dst da o' (push_list wh x ys)) /\ forall k ad u, k <> dst -> at_obj w k ad u -> at_obj w1 k ad u).
Proof.
  intros Hh Hv Hx Hb. assert (Hquiet : forall w0 a0 w1 a1, quiet ty w0 a0 w1 a1 -> forall k ad (u : value), at_obj w0 k ad u -> at_obj w1 k ad u) by (intros ? ? ? ? (_ & Ed & Eh & _) k ad u; unfold at_obj; by rewrite Ed, Eh).
  apply runs_bind, (mirrors_runs ty _ _ _ _ _ (mirrors_signal ty dst) (ho_sim _ _ _ _ _ _ _ Hh)). intros w1 Hq1. apply (holding_quiet ty _ _ _ _ _ _ _ _ Hq1) in Hh.
  destruct (tryConversionAppend_spec conf Hfill o ys [v] [x] (ho_list _ _ _ _ _ _ _ Hh) ltac:(by constructor) Hb) as (o1 & Hc & Hl1 & Hf). apply runs_bind, (change_same_runs ty _ _ _ _ _ _ _ _ _ Hh Hc Hl1). clear Hh. intros w2 Hh Hfr2.
  destruct (listTypePush_spec packed_threshold o1 ys v x wh Hl1 Hv Hx Hb (fits_le o1 _ (Zlen ys + 1) Hf ltac:(lia))) as (o2 & Hp & Hl2 & _). apply runs_bind, (change_runs ty _ _ _ _ _ _ _ _ _ _ Hh Hp Hl2). clear Hh. intros w3 Hh Hfr3.
  apply runs_bind, (mirrors_runs ty _ _ _ _ _ (mirrors_notify ty _ dst) (ho_sim _ _ _ _ _ _ _ Hh)). intros w4 Hq4. apply (holding_quiet ty _ _ _ _ _ _ _ _ Hq4) in Hh.
  apply (mirrors_runs ty _ _ _ _ _ (mirrors_bulk v x Hv) (ho_sim _ _ _ _ _ _ _ Hh)). intros w5 Hq5. apply (holding_quiet ty _ _ _ _ _ _ _ _ Hq5) in Hh. split; [by exists o2|].
  intros k ad u Hne Hk. apply (Hquiet _ _ _ _ Hq5), (Hquiet _ _ _ _ Hq4), Hfr3, Hfr2, (Hquiet _ _ _ _ Hq1); done.
Qed.

(** The end of [lmoveGenericCommand]. *)
Lemma move_tail_refines argv proc w a src dst wherefrom sa o ys : (match proc with blmoveProc => 5 <= length argv | _ => True end)%nat ->
  holding w a src sa o ys ->
  refines (listElementsRemoved conf ty can server src wherefrom sa 1 true ;;
      match proc with
      | blmoveProc => a3 ← arg argv 3; a4 ← arg argv 4; emit (RewriteCommand [s_lmove; src; dst; a3; a4])
      | brpoplpushProc => emit (RewriteCommand [s_rpoplpush; src; dst])
      | _ => mret tt
      end)
    (removed_ src wherefrom ys 1 ;;
      match proc with
      | blmoveProc => event_ (RewriteCommand [s_lmove; src; dst; nth_arg argv 3; nth_arg argv 4])
      | brpoplpushProc => event_ (RewriteCommand [s_rpoplpush; src; dst])
      | _ => mret tt
      end) w a.
Proof.
  intros Hlen Hh. apply (refines_seq ty); [by eapply removed_refines|]. intros w1 Hs1. destruct proc; try (by apply runs_ret); [|log_done Hs1]. do 2 (apply (arg_refines ty); [lia|]). log_done Hs1.
Qed.

(** The source is the destination. *)
Lemma move_same_refines w a src sa o xs wherefrom whereto x rest (k : C unit) (k' : S unit) :
  holding w a src sa o xs -> bytes xs < LIST_BYTES -> pop_end wherefrom xs = Some (x, rest) ->
  (forall w1 o1 a1, holding w1 a1 src sa o1 (push_list whereto x rest) -> refines k k' w1 a1) ->
  refines (value ← pop_one sa wherefrom; lmoveHandlePush packed_threshold conf ty can initial_lru src (Some sa) value whereto ;; k)
    (put_ src (AList rest) ;; place_ src whereto x (push_list whereto x rest) ;; k') w a.
Proof.
  intros Hh Hb Hp Hk. pose proof (pop_end_bytes _ _ _ _ Hp) as Hpb. assert (Hxok : bytes_ok x). { pose proof (il_bytes _ _ (ho_list _ _ _ _ _ _ _ Hh)) as Hok. unfold pop_end in Hp. apply pop_sub in Hp as (Hx & _). by eapply Forall_forall in Hok. }
  unfold refines. rewrite 2!result_bind. apply runs_bind, (pop_one_runs _ _ _ _ _ _ _ _ _ _ Hh Hp). clear Hh. intros v w1 o1 Hv Hh _. apply runs_bind. unfold lmoveHandlePush. apply runs_bind, runs_ret.
  eapply runs_mono; [apply (place_runs _ _ _ _ _ _ _ _ _ Hh Hv Hxok)|]; [rewrite <- Hpb; change MAX_BYTES with (2 ^ 31); unfold LIST_BYTES in Hb; lia|]. intros r w2 [(o2 & Hh2) _]. by apply (Hk w2 o2).
Qed.

(** The source is another key. *)
Lemma move_other_refines w a src dst sa o xs r xo wherefrom whereto x rest (k : C unit) (k' : S unit) :
  holding w a src sa o xs -> src <> dst -> small a -> pop_end wherefrom xs = Some (x, rest) ->
  match r, xo with Some da, Some (AList ys) => exists o', holding w a dst da o' ys | None, None => store a !! dst = None | _, _ => False end ->
  (forall w1 o1 a1, holding w1 a1 src sa o1 rest -> refines k k' w1 a1) ->
  refines (value ← pop_one sa wherefrom; lmoveHandlePush packed_threshold conf ty can initial_lru dst r value whereto ;; k)
    (put_ src (AList rest) ;; when_ (absent xo) (add_ dst (AList [])) ;; place_ dst whereto x (push_list whereto x (elements xo)) ;; k') w a.
Proof.
  intros Hh Hne Hsm Hp Hr Hk. pose proof (pop_end_bytes _ _ _ _ Hp) as Hpb. pose proof (holding_bytes _ _ _ _ _ _ Hh Hsm) as Hb. assert (Hxb : bytes [x] < LIST_BYTES) by (cbn [bytes] in *; pose proof (bytes_length rest); lia).
  assert (Hxok : bytes_ok x). { pose proof (il_bytes _ _ (ho_list _ _ _ _ _ _ _ Hh)) as Hok. unfold pop_end in Hp. apply pop_sub in Hp as (Hx & _). by eapply Forall_forall in Hok. }
  unfold refines. rewrite 3!result_bind. apply runs_bind, (pop_one_runs _ _ _ _ _ _ _ _ _ _ Hh Hp). clear Hh. intros v w1 o1 Hv Hh Hfr1. set (a1 := result (put_ src (AList rest)) a) in *.
  assert (Hst1 : forall k0, k0 <> src -> store a1 !! k0 = store a !! k0) by (intros k0 Hk0; by apply lookup_alter_ne). cbn beta. set (a2 := result (when_ (absent xo) (add_ dst (AList []))) a1).
  assert (Hdst : runs (match r with Some da => mret da | None => new_list ty can initial_lru dst end) w1 (fun da w2 => holding w2 a2 src sa o1 rest /\ exists od, holding w2 a2 dst da od (elements xo) /\ bytes (elements xo) < LIST_BYTES)).
  { destruct r as [da|], xo as [[ys| |]|]; try done.
    - destruct Hr as (od & Hd). apply runs_ret. split; [done|]. exists od. split; [|by apply (holding_bytes _ _ _ _ _ _ Hd)]. apply (holding_other w a w1 a1 dst da od ys src Hd); [apply Hh|done|done|by apply Hst1].
    - apply (new_list_runs w1 a1 dst); [apply Hh|by rewrite Hst1|unfold a1, result, put_, on_store; cbn [store snd]; rewrite <- size_dom, dom_alter_L, size_dom; apply Hsm|]. intros da od w2 Hd Hfr2. split; [|by exists od].
      apply (holding_other w1 a1 w2 a2 src sa o1 rest dst Hh); [apply Hd|done|done|]. by apply lookup_insert_ne. }
  apply runs_bind. unfold lmoveHandlePush. apply runs_bind. eapply runs_mono; [exact Hdst|]. clear Hdst Hr. intros da w2 [Hs2 (od & Hd2 & Hyb)].
  eapply runs_mono; [apply (place_runs _ _ _ _ _ _ _ _ _ Hd2 Hv Hxok (add_bytes _ _ Hxb Hyb))|]. intros u w3 [(o3 & Hd3) Hfr3]. apply (Hk w3 o1).
  apply (holding_other w2 a2 w3 _ src sa o1 rest dst Hs2); [apply Hd3|done|done|]. rewrite place_store. by apply lookup_alter_ne.
Qed.

Lemma move_refines argv proc wherefrom whereto w a :
  (3 <= length argv)%nat -> (match proc with blmoveProc => 5 <= length argv | _ => True end)%nat -> small a -> sim w a ->
  refines (lmoveGenericCommand packed_threshold conf ty can server access initial_lru argv proc wherefrom whereto) (move_ server argv proc wherefrom whereto) w a.
Proof.
  intros Hl Hlp Hsm Hs. apply (arg_refines ty); [lia|]. unfold move_. set (src := nth_arg argv 1). set (dst := nth_arg argv 2). apply (with_list_visible ty can server access src WRITE RNull); [done..|].
  intros w1 a1 ad o xs Hsub Hvis Hh. apply (refines_length ty _ _ _ _ _ _ _ _ Hh). clear Hh. intros w2 o2 Hh _ _. pose proof (sub_small _ _ Hsub Hsm) as Hsm1.
  destruct (pop_end wherefrom xs) as [[x rest]|] eqn:Hp.
  2: { destruct (Z.eqb_spec (Zlen xs) 0); [log_done Hh|]. exfalso. by apply pop_end_none in Hp as ->. }
  assert (Hx0 : (Zlen xs =? 0) = false) by (apply Z.eqb_neq; unfold pop_end in Hp; apply pop_sub in Hp as (_ & _ & ->); lia). rewrite Hx0. apply (arg_refines ty); [lia|]. fold dst.
  unfold refines. rewrite result_bind. apply runs_bind, (lookupKey_runs ty can server access w2 a1 dst WRITE); [apply Hh|]. intros r w3 Hs3 Hr Hfr. pose proof (lookup_sub server dst WRITE a1) as Hsub3.
  pose proof (write_none server dst WRITE a1 Hwrite eq_refl eq_refl) as Hnone. destruct (ho_store _ _ _ _ _ _ _ Hh) as (t & Hst).
  assert (Hsame : src = dst -> (lookup_ server dst WRITE a1).1 = Some (AList xs) /\ store (result (lookup_ server dst WRITE) a1) = store a1) by (intros E; rewrite E in *; by apply (lookup_again server dst WRITE a1 _ t Hst), (Hvis _ _ Hst)).
  assert (Hkeep : store (result (lookup_ server dst WRITE) a1) !! src = store a1 !! src).
  { destruct (decide (src = dst)) as [E|Hne]; [by rewrite (proj2 (Hsame E))|by apply lookup_other]. }
  set (xo := (lookup_ server dst WRITE a1).1) in *. set (a3 := result (lookup_ server dst WRITE) a1) in *.
  assert (Hh3 : holding w3 a3 src ad o2 xs).
  { split; [done|apply Hfr; [|apply Hh]|apply Hh|exists t; by rewrite Hkeep]. destruct (decide (src = dst)) as [E|]; [|by left]. right. intros ->. destruct (Hsame E) as [Hxo _]. by rewrite Hxo in Hr. }
  rewrite result_bind. apply runs_bind, (check_mirror ty w3 a3 dst r xo); [done..|]. intros w4 Hq4. destruct (check_ xo OBJ_LIST a3).1 eqn:Ec; [apply runs_ret; apply Hq4|].
  pose proof (check_list ty w3 a3 dst r xo _ _ Hr Hq4 Ec) as Hc. apply (holding_quiet ty _ _ _ _ _ _ _ _ Hq4) in Hh3.
  assert (Hsm4 : small (result (check_ xo OBJ_LIST) a3)) by (apply (small_store _ _ (check_store _ _ _)), (sub_small _ _ Hsub3), Hsm1).
  case_bool_decide as E.
  - destruct (Hsame E) as [Hxo _]. rewrite Hxo in *. destruct r as [da|]; [|done]. destruct Hc as (od & Hd).
    assert (da = ad) as ->. { destruct (ho_obj _ _ _ _ _ _ _ Hd) as [E1 _]. destruct (ho_obj _ _ _ _ _ _ _ Hh3) as [E2 _]. rewrite E in E2. congruence. }
    rewrite <- E. apply (move_same_refines _ _ _ _ _ _ _ _ _ _ _ _ Hh3 (holding_bytes _ _ _ _ _ _ Hh3 Hsm4) Hp). intros w5 o5 a5 Hh5. by apply (move_tail_refines _ _ _ _ _ _ _ _ _ _ Hlp Hh5).
  - apply (move_other_refines _ _ _ _ _ _ _ _ _ _ _ _ _ _ _ Hh3 E Hsm4 Hp).
    + destruct r as [da|], xo as [[ys| |]|]; try done. rewrite check_store. by apply Hnone.
    + intros w5 o5 a5 Hh5. by apply (move_tail_refines _ _ _ _ _ _ _ _ _ _ Hlp Hh5).
Qed.

Lemma bmove_refines argv proc wherefrom whereto timeout w a :
  (3 <= length argv)%nat -> (match proc with blmoveProc => 5 <= length argv | _ => True end)%nat -> small a -> full a -> sim w a ->
  refines (blmoveGenericCommand packed_threshold conf ty can server access initial_lru deny_blocking argv proc wherefrom whereto timeout) (bmove_ server deny_blocking argv proc wherefrom whereto timeout) w a.
Proof.
  intros Hl Hlp Hsm Hf Hs. apply (arg_refines ty); [lia|]. unfold refines, bmove_. set (src := nth_arg argv 1). cbn zeta. rewrite result_bind. apply runs_bind, (lookupKey_runs ty can server access w a src WRITE); [done|].
  intros r w1 Hs1 Hr _. pose proof (lookup_sub server src WRITE a) as Hsub. set (x := (lookup_ server src WRITE a).1) in *. set (a1 := result (lookup_ server src WRITE) a) in *. rewrite result_bind.
  apply runs_bind, (check_mirror ty w1 a1 src r x); [done..|]. intros w2 Hq. destruct (check_ x OBJ_LIST a1).1 eqn:E; [apply runs_ret; apply Hq|].
  pose proof (check_list ty w1 a1 src r x _ _ Hr Hq E) as Hc. assert (Hsub2 : store (result (check_ x OBJ_LIST) a1) ⊆ store a) by by rewrite (proj2 (proj2 (proj2 Hq))).
  destruct r as [ad|], x as [[xs| |]|]; try done; cbn [absent]; [|apply block_refines, Hq].
  destruct Hc as (o & Hh). apply runs_bind, (length_runs ty _ _ _ _ _ _ _ Hh). clear Hh. intros w3 o3 Hh _ _. assert (Hx : xs <> []) by (destruct (ho_store _ _ _ _ _ _ _ Hh) as (t & Hst); by apply (full_list _ _ _ _ (sub_full _ _ Hsub2 Hf) Hst)).
  apply runs_bind, runs_assert; [apply Z.ltb_lt; destruct xs; [done|cbn [length]; lia]|]. apply move_refines; [done|done|by apply (sub_small _ _ Hsub2)|apply Hh].
Qed.

Lemma mirrors_lmpop fuel opts : (length opts <= fuel)%nat -> mirrors ty (lmpop_parse fuel opts (-1)) (lmpop_args opts).
Proof.
  intros Hl. destruct opts as [|opt [|v rest]]; [destruct fuel; by apply mirrors_ret|destruct fuel; [cbn [length] in Hl; lia|]; cbn [lmpop_parse lmpop_args]; eauto with mirrors|]. destruct fuel as [|fuel]; [cbn [length] in Hl; lia|].
  cbn [lmpop_parse lmpop_args]. change (-1 =? -1) with true. cbn [andb]. destruct (strcasecmp0 opt s_COUNT); [|eauto with mirrors]. intros w a Hs.
  destruct (mirrors_range ty v 1 LLONG_MAX (Some COUNT_MSG) w a Hs) as (w1 & Hw & Hq). rewrite value_bind, result_bind. unfold mbind at 1, K_bind. rewrite Hw. cbn [mbind option_bind].
  destruct (in_range_ v 1 LLONG_MAX (Some COUNT_MSG) a).1 as [n|] eqn:En; [|by exists w1]. apply in_range_value in En.
  assert (Hm : mirrors ty (lmpop_parse fuel rest n) (match rest with [] => mret (Some n) | _ => reply_ (RError SYNTAX) ;; mret None end : S (option Z))).
  { destruct rest as [|o2 rest]; [destruct fuel; by apply mirrors_ret|]. cbn [length] in Hl. destruct fuel as [|fuel]; [lia|]. cbn [lmpop_parse]. rewrite (proj2 (Z.eqb_neq n (-1))) by lia. cbn [andb]. destruct rest; eauto with mirrors. }
  destruct (Hm w1 _ (proj1 Hq)) as (w2 & Hw2 & Hq2). exists w2. split; [done|]. by eapply quiet_trans.
Qed.

Lemma lmpop_refines argv (numkeys_idx : nat) (is_block : bool) w a :
  (numkeys_idx = if is_block then 2 else 1)%nat -> (numkeys_idx < length argv)%nat -> Zlen argv < 2 ^ 31 ->
  (forall n, string2ll (nth_arg argv numkeys_idx) = Some n -> n + 3 <= LLONG_MAX) -> sim w a ->
  refines (lmpopGenericCommand conf ty can server access deny_blocking milliseconds argv numkeys_idx is_block)
    (lmpop_spec server deny_blocking milliseconds argv numkeys_idx is_block) w a.
Proof.
  intros Hidx Hl Hlen Hmax Hs. apply (arg_refines ty); [lia|]. apply (refines_some ty); [by apply mirrors_range|done|]. intros numkeys w1 Hn Hq1. pose proof (in_range_value _ _ _ _ _ _ Hn) as Hr.
  assert (Hmx : numkeys + 3 <= LLONG_MAX). { apply Hmax. unfold in_range_ in Hn. rewrite value_bind in Hn. unfold number_ in *. destruct (string2ll _) as [z|]; [|done]. cbn in Hn. destruct (_ || _); [done|]. cbn in Hn. congruence. }
  cbn zeta. set (where_idx := Z.of_nat numkeys_idx + numkeys + 1). apply runs_bind, runs_assert; [apply Z.leb_le; unfold where_idx; destruct is_block; lia|].
  destruct (Z.leb_spec (Zlen argv) where_idx) as [Hw|Hw]; [apply (refines_mirrors ty _ _ _ _ (mirrors_reply ty _)), Hq1|]. apply (arg_refines ty); [lia|].
  apply (refines_some ty); [by apply mirrors_position|apply Hq1|]. intros wh w2 _ Hq2. apply (refines_some ty); [apply mirrors_lmpop; rewrite length_drop; lia|apply Hq2|]. intros count w3 Hc Hq3. cbn zeta.
  pose proof (lmpop_count _ _ _ Hc) as Hpos. destruct is_block.
  - apply (arg_refines ty); [lia|]. apply blocking_refines; [by right|apply Hq3].
  - apply mpop_refines; [done|apply Hq3].
Qed.

(** ** Commands that read positions and timeouts first *)

Lemma lmove_refines argv w a : (5 <= length argv)%nat -> small a -> sim w a ->
  refines (lmoveCommand packed_threshold conf ty can server access initial_lru argv) (lmove_spec server argv) w a.
Proof.
  intros Hl Hsm Hs. apply (arg_refines ty); [lia|]. apply (refines_some ty); [by apply mirrors_position|done|]. intros wf w1 _ Hq1. apply (arg_refines ty); [lia|]. apply (refines_some ty); [by apply mirrors_position|apply Hq1|]. intros wt w2 _ Hq2.
  destruct (quiet_trans ty _ _ _ _ _ _ Hq1 Hq2) as (Hs2 & _ & _ & Hst). apply move_refines; [lia|done|by apply (small_store _ _ Hst)|done].
Qed.

Lemma rpoplpush_refines argv w a : (3 <= length argv)%nat -> small a -> sim w a ->
  refines (rpoplpushCommand packed_threshold conf ty can server access initial_lru argv) (move_ server argv rpoplpushProc LIST_TAIL LIST_HEAD) w a.
Proof. intros Hl Hsm Hs. by apply move_refines. Qed.

Lemma blmove_refines argv w a : (6 <= length argv)%nat -> small a -> full a -> sim w a ->
  refines (blmoveCommand packed_threshold conf ty can server access initial_lru deny_blocking milliseconds argv) (blmove_spec server deny_blocking milliseconds argv) w a.
Proof.
  intros Hl Hsm Hf Hs. apply (arg_refines ty); [lia|]. apply (refines_some ty); [by apply mirrors_position|done|]. intros wf w1 _ Hq1. apply (arg_refines ty); [lia|]. apply (refines_some ty); [by apply mirrors_position|apply Hq1|]. intros wt w2 _ Hq2.
  pose proof (quiet_trans ty _ _ _ _ _ _ Hq1 Hq2) as Hq. apply (arg_refines ty); [lia|]. apply (refines_some ty); [apply mirrors_timeout|apply Hq2|]. intros timeout w3 _ Hq3.
  destruct (quiet_trans ty _ _ _ _ _ _ Hq Hq3) as (Hs3 & _ & _ & Hst). apply bmove_refines; [lia|lia|by apply (small_store _ _ Hst)|by apply (full_store _ _ Hst)|done].
Qed.

Lemma brpoplpush_refines argv w a : (4 <= length argv)%nat -> small a -> full a -> sim w a ->
  refines (brpoplpushCommand packed_threshold conf ty can server access initial_lru deny_blocking milliseconds argv) (brpoplpush_spec server deny_blocking milliseconds argv) w a.
Proof.
  intros Hl Hsm Hf Hs. apply (arg_refines ty); [lia|]. apply (refines_some ty); [apply mirrors_timeout|done|]. intros timeout w1 _ Hq1. destruct Hq1 as (Hs1 & _ & _ & Hst).
  apply bmove_refines; [lia|done|by apply (small_store _ _ Hst)|by apply (full_store _ _ Hst)|done].
Qed.

End Cmd.

End ListCmdSpec.
