(* ===== verification/ListEffect.v ===== *)
(** * What a list command can change

    Every abstract list command first removes keys that expired, and then
    gives some keys new lists: keys of other types are left alone, a key that
    stays keeps its time to expire, a new key has none, a list without
    elements is deleted, and every key that changed was signalled to the
    clients that watch it, with an increased count of changes. *)

From stdpp Require Import gmap.
From S2P Require Import Prelude.
From S2P Require Import NumConv.
From S2P Require Import QuicklistRun.
From S2P Require Import QuicklistInsert.
From S2P Require Import ListType.
From S2P Require Import ListSpec.
From S2P Require Import Dict.
From S2P Require Import Keyspace.
From S2P Require Import KeyspaceSpec.
From S2P Require Import ListCmd.
From S2P Require Import ListLoop.
From S2P Require Import ListAbs.
From S2P Require Import ListStep.
From S2P Require Import ListCmdSpec.
Import NumConv QlRun ListType ListSpec Keyspace KsSpec ListCmd ListLoop ListAbs ListStep ListCmdSpec.

Module ListEffect.

Implicit Types (a : astate content) (key : sds).

Definition grows a a' (es : list event) : Prop := l_events (alog a') = l_events (alog a) ++ es.

Section Effect.
Context (server : environment).

(** Keys that expired were removed, their deletion propagated. *)
Definition expired a a1 : Prop := exists es, grows a a1 es /\ l_dirty (alog a1) = l_dirty (alog a) /\
  forall k, store a1 !! k = store a !! k \/
    exists x t, store a !! k = Some (x, t) /\ hidden server t = true /\ store a1 !! k = None /\ SignalModified k ∈ es /\ exists b, PropagateDeletion k b ∈ es.

Definition list_or_absent (e : option (content * option Z)) : Prop := match e with Some (AList _, _) | None => True | _ => False end.
Definition time_of (e : option (content * option Z)) : option Z := e ≫= snd.

(** These keys have new lists; a list without elements is no longer there. *)
Definition changed (new : gmap sds (list sds)) a a' : Prop := exists es, grows a a' es /\
  l_dirty (alog a) <= l_dirty (alog a') /\ (new <> ∅ -> l_dirty (alog a) < l_dirty (alog a')) /\
  (forall k, is_Some (new !! k) -> SignalModified k ∈ es /\ list_or_absent (store a !! k)) /\
  forall k, store a' !! k = match new !! k with
                            | None => store a !! k
                            | Some [] => None
                            | Some ys => Some (AList ys, time_of (store a !! k))
                            end.

Definition effect a a' : Prop := exists a1 new, expired a a1 /\ changed new a1 a'.

Definition silent {B} (m : S B) : Prop := forall a, expired a (result m a).
Definition effective (m : S unit) : Prop := forall a, full a -> effect a (result m a).

Lemma expired_refl a : expired a a.
Proof. exists []. split; [unfold grows; by rewrite app_nil_r|]. split; [done|]. intros k. by left. Qed.

Lemma expired_trans a a1 a2 : expired a a1 -> expired a1 a2 -> expired a a2.
Proof.
  intros (es1 & Hg1 & Hd1 & Hk1) (es2 & Hg2 & Hd2 & Hk2). exists (es1 ++ es2). split; [unfold grows in *; by rewrite Hg2, Hg1, app_assoc|]. split; [by rewrite Hd2|].
  intros k. destruct (Hk1 k) as [E1|(x & t & Hs & Hh & Hn & Hsig & b & Hp)].
  - destruct (Hk2 k) as [E2|(x & t & Hs & Hh & Hn & Hsig & b & Hp)]; [left; congruence|]. right. exists x, t. rewrite <- E1. split; [done|]. split; [done|]. split; [done|]. split; [set_solver|]. exists b. set_solver.
  - right. exists x, t. split; [done|]. split; [done|]. split; [|split; [set_solver|exists b; set_solver]]. destruct (Hk2 k) as [E2|(y & t' & Hs' & _)]; congruence.
Qed.

Lemma expired_full a a1 : expired a a1 -> full a -> full a1.
Proof. intros (es & _ & _ & Hk) Hf k x t Hst. destruct (Hk k) as [E|(y & t' & _ & _ & Hn & _)]; [|congruence]. eapply Hf. by rewrite <- E. Qed.

Lemma effect_after a a1 a' : expired a a1 -> effect a1 a' -> effect a a'.
Proof. intros He (a2 & new & He2 & Hc). exists a2, new. split; [by eapply expired_trans|done]. Qed.

Lemma changed_effect new a a' : changed new a a' -> effect a a'.
Proof. intros Hc. exists a, new. split; [apply expired_refl|done]. Qed.

(** Only replies, or other events. *)
Lemma log_changed a a' es : store a' = store a -> grows a a' es -> l_dirty (alog a) <= l_dirty (alog a') -> changed ∅ a a'.
Proof. intros Hs Hg Hd. exists es. split; [done|]. split; [done|]. split; [done|]. split; [by intros k []%lookup_empty_is_Some|]. intros k. by rewrite lookup_empty, Hs. Qed.

Lemma log_expired a a' es : store a' = store a -> grows a a' es -> l_dirty (alog a') = l_dirty (alog a) -> expired a a'.
Proof. intros Hs Hg Hd. exists es. split; [done|]. split; [done|]. intros k. left. by rewrite Hs. Qed.

Lemma grows_same a a' : l_events (alog a') = l_events (alog a) -> grows a a' [].
Proof. unfold grows. intros ->. by rewrite app_nil_r. Qed.

Lemma grows_trans a a1 a2 es es' : grows a a1 es -> grows a1 a2 es' -> grows a a2 (es ++ es').
Proof. unfold grows. intros H1 ->. by rewrite H1, app_assoc. Qed.

(** ** Silent parts *)

Lemma silent_bind {B D} (m : S B) (k : B -> S D) : silent m -> (forall b, silent (k b)) -> silent (mbind k m).
Proof. intros Hm Hk a. rewrite result_bind. eapply expired_trans; [apply Hm|apply Hk]. Qed.

Lemma silent_ret {B} (b : B) : silent (mret b).
Proof. intros a. apply expired_refl. Qed.

Lemma silent_reply r : silent (reply_ r).
Proof. intros a. apply (log_expired _ _ []); [done|by apply grows_same|done]. Qed.

Lemma silent_stats h m e : silent (stats_ h m e).
Proof. intros a. apply (log_expired _ _ []); [done|by apply grows_same|done]. Qed.

Lemma silent_event e : silent (event_ e).
Proof. intros a. by apply (log_expired _ _ [e]). Qed.

Lemma silent_when (b : bool) (m : S unit) : silent m -> silent (when_ b m).
Proof. intros Hm. destruct b; [done|apply silent_ret]. Qed.

Lemma silent_number s msg : silent (number_ s msg).
Proof. unfold number_. destruct (string2ll s); [apply silent_ret|]. apply silent_bind; [apply silent_reply|intros _; apply silent_ret]. Qed.

Lemma silent_range s min max msg : silent (in_range_ s min max msg).
Proof. apply silent_bind; [apply silent_number|]. intros [z|]; [|apply silent_ret]. destruct (_ || _); [|apply silent_ret]. apply silent_bind; [apply silent_reply|intros _; apply silent_ret]. Qed.

Lemma silent_position s : silent (position_ s).
Proof. unfold position_. destruct (strcasecmp0 s s_right); [apply silent_ret|]. destruct (strcasecmp0 s s_left); [apply silent_ret|]. apply silent_bind; [apply silent_reply|intros _; apply silent_ret]. Qed.

Lemma silent_check o t : silent (check_ o t).
Proof. unfold check_. destruct o as [x|]; [|apply silent_ret]. case_bool_decide; [apply silent_ret|]. apply silent_bind; [apply silent_reply|intros _; apply silent_ret]. Qed.

Lemma silent_miss key flags : silent (miss_ key flags).
Proof. apply silent_bind; [apply silent_when, silent_event|intros _; apply silent_when, silent_stats]. Qed.

Lemma expire_expired key a x t : store a !! key = Some (x, t) -> hidden server t = true -> expired a (result (expire_ server key) a).
Proof.
  intros Hk Hh. set (es := [ModuleUnlink key; DeletedReady key (content_type x); Notify e_expired key; SignalModified key; PropagateDeletion key (lazyfree_lazy_expire server)]).
  assert (Hres : result (expire_ server key) a = {| store := delete key (store a); alog := {| l_dirty := l_dirty (alog a); l_hits := l_hits (alog a) + 0; l_misses := l_misses (alog a) + 0; l_expired := l_expired (alog a) + 1; l_events := l_events (alog a) ++ es; l_out := l_out (alog a) |} |}).
  { unfold expire_. rewrite result_bind, (remove_eq _ _ _ _ Hk). unfold result, mbind, A_bind. cbn. by rewrite <- !app_assoc. }
  rewrite Hres. exists es. split; [done|]. split; [done|]. intros k. cbn [store]. destruct (decide (k = key)) as [->|Hne]; [|left; by apply lookup_delete_ne].
  right. exists x, t. split; [done|]. split; [done|]. split; [apply lookup_delete_eq|]. split; [unfold es; set_solver|]. exists (lazyfree_lazy_expire server). unfold es. set_solver.
Qed.

Lemma silent_lookup key flags : silent (lookup_ server key flags).
Proof.
  intros a. destruct (store a !! key) as [[x t]|] eqn:Hk.
  - assert (Hres : result (lookup_ server key flags) a = if hidden server t then result (when_ (purges server flags) (expire_ server key) ;; miss_ key flags ;; mret (None : option content)) a else result (when_ (counts flags) (stats_ 1 0 0) ;; mret (Some x)) a)
      by (unfold result, lookup_; rewrite Hk; by destruct (hidden server t)).
    rewrite Hres. destruct (hidden server t) eqn:Hh.
    + rewrite result_bind. eapply expired_trans; [|apply silent_bind; [apply silent_miss|intros _; apply silent_ret]]. unfold when_. destruct (purges server flags); [by apply (expire_expired key a x t)|apply expired_refl].
    + apply silent_bind; [apply silent_when, silent_stats|intros _; apply silent_ret].
  - assert (Hres : result (lookup_ server key flags) a = result (miss_ key flags ;; mret (None : option content)) a) by (unfold result, lookup_; by rewrite Hk). rewrite Hres. apply silent_bind; [apply silent_miss|intros _; apply silent_ret].
Qed.

Lemma silent_or_reply key flags r : silent (lookup_or_reply server key flags r).
Proof. apply silent_bind; [apply silent_lookup|]. intros o. apply silent_bind; [apply silent_when, silent_reply|intros _; apply silent_ret]. Qed.

(** ** Composition *)

Lemma effective_silent (m : S unit) : silent m -> effective m.
Proof. intros Hm a _. exists (result m a), ∅. split; [apply Hm|]. apply (log_changed _ _ []); [done|by apply grows_same|done]. Qed.

Lemma effective_bind {B} (m : S B) (k : B -> S unit) : silent m -> (forall b, effective (k b)) -> effective (mbind k m).
Proof. intros Hm Hk a Hf. rewrite result_bind. eapply effect_after; [apply Hm|]. apply Hk. by apply (expired_full a); [apply Hm|]. Qed.

Lemma effective_some {B} (m : S (option B)) (k : B -> S unit) : silent m -> (forall b, effective (k b)) -> effective (when_some m k).
Proof. intros Hm Hk. apply effective_bind; [done|]. intros [b|]; [apply Hk|apply effective_silent, silent_ret]. Qed.

(** A list that was found is in the state that the rest of the command sees. *)
Lemma lookup_stored key flags a x : (lookup_ server key flags a).1 = Some x -> exists t, store (result (lookup_ server key flags) a) !! key = Some (x, t).
Proof.
  unfold result, lookup_. destruct (store a !! key) as [[y t]|] eqn:Hk; [|by rewrite value_bind]. destruct (hidden server t); [by rewrite !value_bind|]. rewrite value_bind. intros [= ->]. exists t.
  unfold mbind, A_bind, when_. by destruct (counts flags).
Qed.

Lemma effective_visible key flags missing (k : list sds -> S unit) :
  (forall a xs t, full a -> store a !! key = Some (AList xs, t) -> hidden server t = false -> xs <> [] -> effect a (result (k xs) a)) -> effective (with_list server key flags missing k).
Proof.
  intros Hk a Hf. unfold with_list. rewrite result_bind. eapply effect_after; [apply silent_or_reply|]. pose proof (silent_or_reply key flags missing a) as He. apply (expired_full _ _ He) in Hf. clear He.
  rewrite value_or_reply. destruct (lookup_ server key flags a).1 as [x|] eqn:Ex; [|by apply (effective_silent _ (silent_ret tt))]. rewrite result_or_reply, Ex in *. destruct (lookup_stored _ _ _ _ Ex) as (t & Hst).
  pose proof (lookup_visible _ _ _ _ _ _ _ Ex Hst) as Hvis. set (a1 := result (lookup_ server key flags) a) in *. rewrite result_bind. apply (effect_after _ (result (check_ (Some x) OBJ_LIST) a1)); [apply silent_check|].
  assert (Hf2 : full (result (check_ (Some x) OBJ_LIST) a1)) by apply (full_store _ _ (check_store _ _ _) Hf). rewrite <- (check_store (Some x) OBJ_LIST a1) in Hst.
  destruct (check_ (Some x) OBJ_LIST a1).1 eqn:Ec; [by apply (effective_silent _ (silent_ret tt))|]. unfold check_ in Ec. destruct x as [xs|s|t']; cbn [absent elements]; case_bool_decide as E; try done.
  - eapply Hk; [done|exact Hst|done|by eapply full_list].
  - by destruct (Hf2 _ _ _ Hst).
Qed.

Lemma effective_list key flags missing (k : list sds -> S unit) :
  (forall a xs t, full a -> store a !! key = Some (AList xs, t) -> xs <> [] -> effect a (result (k xs) a)) -> effective (with_list server key flags missing k).
Proof. intros Hk. apply effective_visible. eauto. Qed.

(** A key that is looked up for writing holds a list, or is not there any more; the others stay. *)
Definition got key a (o : option content) a1 : Prop :=
  (forall k, k <> key -> store a1 !! k = store a !! k) /\ (forall x t, store a !! key = Some (x, t) -> hidden server t = false -> store a1 = store a /\ o = Some x) /\
  match o with None => store a1 !! key = None | Some x => exists xs t, x = AList xs /\ store a1 !! key = Some (x, t) end.

Lemma get_effect key (k : option content -> S unit) a : may_write server -> full a ->
  (forall o a1, full a1 -> got key a o a1 -> effect a1 (result (k o) a1)) ->
  effect a (result (o ← lookup_ server key WRITE; wrong ← check_ o OBJ_LIST; if (wrong : bool) then mret tt else k o) a).
Proof.
  intros Hw Hf Hk. rewrite result_bind. eapply effect_after; [apply silent_lookup|]. apply (expired_full _ _ (silent_lookup key WRITE a)) in Hf. set (o := (lookup_ server key WRITE a).1). rewrite result_bind. eapply effect_after; [apply silent_check|].
  apply (full_store _ _ (check_store o OBJ_LIST _)) in Hf. destruct (check_ o OBJ_LIST _).1 eqn:Ec; [by apply (effective_silent _ (silent_ret tt))|]. apply Hk; [done|]. unfold got. rewrite check_store. split; [intros k'; apply lookup_other|]. split.
  - intros x t Hx Ht. destruct (lookup_again server key WRITE a x t Hx Ht) as [Ho ->]. by rewrite <- Ho.
  - destruct o as [x|] eqn:Eo; [|by apply write_none]. destruct (lookup_stored _ _ _ _ Eo) as (t & Hst). rewrite <- (check_store (Some x) OBJ_LIST) in Hst. unfold check_ in Ec. case_bool_decide as E; [|done]. destruct x as [xs|s|t']; [by exists xs, t|done|]. by destruct (Hf _ _ _ Hst).
Qed.

(** ** Changes *)

(** What a part of a command does to the store, the events and the count of changes. *)
Definition acts (m : S unit) a (f : gmap sds (content * option Z) -> gmap sds (content * option Z)) (es : list event) (n : Z) : Prop :=
  store (result m a) = f (store a) /\ grows a (result m a) es /\ l_dirty (alog (result m a)) = l_dirty (alog a) + n.

Lemma acts_bind m m' a f g es es' n n' : acts m a f es n -> acts m' (result m a) g es' n' -> acts (m ;; m') a (g ∘ f) (es ++ es') (n + n').
Proof.
  intros (Hs & Hg & Hd) (Hs' & Hg' & Hd'). unfold acts. rewrite result_bind. split; [by rewrite Hs', Hs|]. split; [by eapply grows_trans|]. rewrite Hd', Hd. lia.
Qed.

Lemma acts_event e a : acts (event_ e) a id [e] 0.
Proof. split; [done|]. split; [done|]. cbn. lia. Qed.

Lemma acts_replies rs a : acts (replies_ rs) a id [] 0.
Proof. split; [done|]. split; [by apply grows_same|]. cbn. lia. Qed.

Lemma acts_reply r a : acts (reply_ r) a id [] 0.
Proof. apply (acts_replies [r]). Qed.

Lemma acts_ret a : acts (mret tt) a id [] 0.
Proof. split; [done|]. split; [by apply grows_same|]. cbn. lia. Qed.

Lemma acts_dirty n a : acts (dirty_ n) a id [] n.
Proof. split; [done|]. split; [by apply grows_same|]. done. Qed.

Lemma acts_put key x a : acts (put_ key x) a (alter (fun e => (x, snd e)) key) [] 0.
Proof. split; [done|]. split; [by apply grows_same|]. cbn. lia. Qed.

Lemma acts_add key x a : acts (add_ key x) a (insert key (x, None)) [KeyReady key (content_type x); Notify e_new key] 0.
Proof. split; [done|]. split; [|cbn; by rewrite Z.add_0_r]. unfold grows. rewrite add_eq. cbn. by rewrite <- app_assoc. Qed.

Definition drop_key key (ys : list sds) : gmap sds (content * option Z) -> gmap sds (content * option Z) := if bool_decide (ys = []) then delete key else id.

Lemma acts_eq m a f g es n n' : acts m a f es n -> f (store a) = g (store a) -> n = n' -> acts m a g es n'.
Proof. intros Ha Hf <-. unfold acts. by rewrite <- Hf. Qed.

Lemma acts_drop key ys a : exists es, acts (drop_empty key ys) a (drop_key key ys) es 0.
Proof.
  unfold drop_empty, drop_key. case_bool_decide; cbn [when_]; [|exists []; apply acts_ret].
  assert (Hr : exists es, acts (remove_ key) a (delete key) es 0).
  { destruct (store a !! key) as [[x t]|] eqn:Hk.
    - pose proof (remove_eq _ _ _ _ Hk) as Hr. eexists. split; [by rewrite Hr|]. split; [|rewrite Hr; cbn; by rewrite Z.add_0_r]. unfold grows. rewrite Hr. cbn. by rewrite <- app_assoc.
    - assert (Hr : result (remove_ key) a = a) by (unfold result, remove_; by rewrite Hk). exists []. split; [rewrite Hr; by rewrite delete_id|]. rewrite Hr. split; [by apply grows_same|lia]. }
  destruct Hr as (es & Hr). eexists. eapply acts_eq; [eapply acts_bind; [exact Hr|apply acts_event]|done|done].
Qed.

Lemma acts_removed key w ys n a : exists es, acts (removed_ key w ys n) a (drop_key key ys) es n /\ SignalModified key ∈ es.
Proof.
  unfold removed_. destruct (acts_drop key ys (result (event_ (Notify (pop_event w) key)) a)) as (es & Hdrop). eexists. split.
  - eapply acts_eq; [eapply acts_bind; [apply acts_event|]; eapply acts_bind; [exact Hdrop|]; eapply acts_bind; [apply acts_event|apply acts_dirty]|done|lia].
  - set_solver.
Qed.

(** One key has a new list. *)
Definition updated key (ys : list sds) (s : gmap sds (content * option Z)) : gmap sds (content * option Z) := drop_key key ys (alter (fun e => (AList ys, snd e)) key s).

Lemma updated_lookup key ys s k xs t : s !! key = Some (AList xs, t) ->
  updated key ys s !! k = if decide (k = key) then match ys with [] => None | _ => Some (AList ys, t) end else s !! k.
Proof.
  intros Hk. unfold updated, drop_key. destruct (decide (k = key)) as [->|Hne].
  - case_bool_decide as Hy; [subst; by rewrite lookup_delete_eq|]. unfold id. rewrite lookup_alter_eq, Hk. by destruct ys.
  - case_bool_decide; unfold id; rewrite ?lookup_delete_ne, lookup_alter_ne by done; done.
Qed.

Lemma acts_changed m a key xs t ys f es n :
  store a !! key = Some (AList xs, t) -> acts m a f es n -> (forall s, f s = updated key ys s) -> SignalModified key ∈ es -> 0 < n -> changed {[key := ys]} a (result m a).
Proof.
  intros Hk (Hs & Hg & Hd) Hf Hsig Hn. exists es. split; [done|]. split; [lia|]. split; [lia|]. split.
  - intros k [ys' Hys]. apply lookup_singleton_Some in Hys as [<- _]. split; [done|]. by rewrite Hk.
  - intros k. rewrite Hs, Hf, (updated_lookup _ _ _ _ _ _ Hk). destruct (decide (k = key)) as [->|Hne]; [by rewrite lookup_singleton_eq, Hk; destruct ys|by rewrite lookup_singleton_ne].
Qed.

(** The list stays as it is. *)
Lemma acts_unchanged m a key xs t f es n :
  store a !! key = Some (AList xs, t) -> xs <> [] -> acts m a f es n -> (forall s, f s = updated key xs s) -> 0 <= n -> changed ∅ a (result m a).
Proof.
  intros Hk Hx (Hs & Hg & Hd) Hf Hn. apply (log_changed _ _ es); [|done|lia]. rewrite Hs, Hf. apply map_eq. intros k. rewrite (updated_lookup _ _ _ _ _ _ Hk). destruct (decide (k = key)) as [->|]; [rewrite Hk; by destruct xs|done].
Qed.

(** ** The commands *)

Lemma llen_effective argv : effective (llen_spec server argv).
Proof. apply effective_list. intros a xs t Hf _ _. by apply (effective_silent _ (silent_reply _)). Qed.

Lemma silent_replies rs : silent (replies_ rs).
Proof. intros a. apply (log_expired _ _ []); [done|by apply grows_same|done]. Qed.

Lemma lindex_effective argv : effective (lindex_spec server argv).
Proof. apply effective_list. intros a xs t Hf _ _. revert Hf. apply (effective_some _ _ (silent_number _ _)). intros i. apply effective_silent, silent_reply. Qed.

Lemma lrange_effective argv : effective (lrange_spec server argv).
Proof. do 2 (apply effective_some; [apply silent_number|intros]). apply effective_list. intros a xs t Hf _ _. by apply (effective_silent _ (silent_replies _)). Qed.

Lemma silent_lpos fuel : forall opts c, silent (lpos_args fuel opts c).
Proof.
  induction fuel as [|fuel IH]; intros opts c; [apply silent_ret|]. assert (Herr : forall e, silent (reply_ (RError e) ;; mret (None : option lpos_options))) by (intros e; apply silent_bind; [apply silent_reply|intros _; apply silent_ret]).
  destruct opts as [|opt [|v rest]]; cbn [lpos_args]; [apply silent_ret|apply Herr|].
  destruct (strcasecmp0 opt s_RANK); [|destruct (strcasecmp0 opt s_COUNT); [|destruct (strcasecmp0 opt s_MAXLEN); [|apply Herr]]]; (apply silent_bind; [apply silent_range|]); intros [r|]; try apply silent_ret; try apply IH.
  destruct (r =? 0); [apply Herr|apply IH].
Qed.

Lemma lpos_effective argv : effective (lpos_spec server argv).
Proof.
  apply effective_some; [apply silent_lpos|]. intros c. apply effective_list. intros a xs t Hf _ _. revert Hf. destruct (negb _); apply effective_silent; [apply silent_replies|apply silent_reply].
Qed.

Lemma linsert_effective argv : effective (linsert_spec server argv).
Proof.
  unfold linsert_spec. destruct (if strcasecmp0 _ s_after then _ else _) as [w|]; [|apply effective_silent, silent_reply]. apply effective_list. intros a xs t Hf Hk _.
  destruct (insert_next _ _ w xs) as [ys|] eqn:Hi; [|by apply (effective_silent _ (silent_reply _))]. apply (changed_effect {[nth_arg argv 1 := ys]}). eapply (acts_changed _ _ _ xs t ys); [done| | | |].
  - eapply acts_bind; [apply acts_put|]. eapply acts_bind; [apply acts_event|]. eapply acts_bind; [apply acts_event|]. eapply acts_bind; [apply acts_dirty|apply acts_reply].
  - intros s. unfold updated, drop_key. rewrite bool_decide_false; [done|]. intros ->. unfold insert_next in Hi. apply bind_Some in Hi as ([i y] & _ & Hi). injection Hi as Hi. unfold QlInsert.put in Hi. by destruct (take _ xs).
  - set_solver.
  - lia.
Qed.

Lemma lset_effective index argv : effective (lset_at server index argv).
Proof.
  apply effective_list. intros a xs t Hf Hk Hx. revert Hf Hk. unfold when_some. intros Hf Hk. rewrite result_bind. eapply effect_after; [apply silent_number|].
  assert (Hst : store (result (number_ (nth_arg argv 2) None) a) = store a) by (unfold number_; by destruct (string2ll _)). apply (full_store _ _ Hst) in Hf. rewrite <- Hst in Hk. clear Hst. set (a1 := result (number_ _ _) a) in *.
  destruct (number_ _ None a).1 as [i|]; [|by apply (effective_silent _ (silent_ret tt))]. destruct (found xs (index i)) eqn:Hfd; [|by apply (effective_silent _ (silent_reply _))].
  set (ys := <[at_index xs (index i) := nth_arg argv 3]> xs). apply (changed_effect {[nth_arg argv 1 := ys]}). eapply (acts_changed _ _ _ xs t ys); [done| | | |].
  - eapply acts_bind; [apply acts_put|]. eapply acts_bind; [apply acts_reply|]. eapply acts_bind; [apply acts_event|]. eapply acts_bind; [apply acts_event|apply acts_dirty].
  - intros s. unfold updated, drop_key. rewrite bool_decide_false; [done|]. intros E. apply Hx. assert (Hl : length ys = O) by by rewrite E. unfold ys in Hl. rewrite length_insert in Hl. by destruct xs.
  - set_solver.
  - lia.
Qed.

Lemma pop_range_effect key w count a xs t : 0 < count -> store a !! key = Some (AList xs, t) -> xs <> [] -> exists ys es,
  acts (pop_range_ key w xs count) a (updated key ys) es (range_len count (Zlen xs)) /\ SignalModified key ∈ es.
Proof.
  intros Hc Hk Hx. unfold pop_range_. destruct (pop_many w _ xs) as [popped ys]. destruct (acts_removed key w ys (range_len count (Zlen xs)) (result (put_ key (AList ys)) (result (array_ popped) a))) as (es & Hes & Hsig). exists ys. eexists. split.
  - eapply acts_eq; [eapply acts_bind; [apply acts_replies|]; eapply acts_bind; [apply acts_put|exact Hes]|done|lia].
  - set_solver.
Qed.

Lemma pop_one_effect key w a xs t before : store a !! key = Some (AList xs, t) -> xs <> [] -> (forall a', acts before a' id [] 0) -> exists ys es,
  acts (pop_one_ key w xs before) a (updated key ys) es 1 /\ SignalModified key ∈ es.
Proof.
  intros Hk Hx Hb. unfold pop_one_. destruct (pop_end w xs) as [[x ys]|] eqn:Hp.
  - destruct (acts_removed key w ys 1 (result (reply_ (RBulk x)) (result before (result (put_ key (AList ys)) a)))) as (es & Hes & Hsig). exists ys. eexists. split.
    + eapply acts_eq; [eapply acts_bind; [apply acts_put|]; eapply acts_bind; [apply Hb|]; eapply acts_bind; [apply acts_reply|exact Hes]|done|lia].
    + set_solver.
  - by apply pop_end_none in Hp.
Qed.

(** A command that changes one list. *)
Lemma updated_effect m a key xs t ys es n : store a !! key = Some (AList xs, t) -> acts m a (updated key ys) es n -> SignalModified key ∈ es -> 0 < n -> effect a (result m a).
Proof. intros. eapply (changed_effect {[key := ys]}), acts_changed; done. Qed.

Lemma pop_effective argv w : effective (pop_spec server argv w).
Proof.
  unfold pop_spec. destruct (Nat.ltb 3 (length argv)); [apply effective_silent, silent_reply|]. set (hascount := Nat.eqb (length argv) 3).
  intros a Hf. unfold when_some. rewrite result_bind. set (m := if hascount then _ else _).
  assert (Hm : silent m) by (unfold m; destruct hascount; [apply silent_range|apply silent_ret]). eapply effect_after; [apply Hm|]. apply (expired_full _ _ (Hm a)) in Hf. destruct (m a).1 as [count|] eqn:Ec; [|by apply (effective_silent _ (silent_ret tt))].
  assert (Hcnt : 0 <= count) by (unfold m in Ec; destruct hascount; [apply in_range_value in Ec; lia|by injection Ec as <-]). revert Hf. generalize (result m a). clear a Ec. intros a Hf. revert a Hf. apply effective_list. intros a xs t Hf Hk Hx.
  destruct (hascount && (count =? 0)); [by apply (effective_silent _ (silent_reply _))|]. destruct (Z.eqb_spec count 0) as [|Hne].
  - destruct (pop_one_effect (nth_arg argv 1) w a xs t (mret tt) Hk Hx acts_ret) as (ys & es & Ha & Hs). by eapply updated_effect.
  - destruct (pop_range_effect (nth_arg argv 1) w count a xs t) as (ys & es & Ha & Hs); [lia|done|done|]. eapply updated_effect; try done. apply range_len_bounds; [done|lia].
Qed.

Lemma first_effective keys k none : (forall key a xs t, full a -> store a !! key = Some (AList xs, t) -> xs <> [] -> effect a (result (k key xs) a)) -> effective none -> effective (first_list server keys k none).
Proof.
  intros Hk Hn. induction keys as [|key keys IH]; [done|]. cbn [first_list]. intros a Hf. rewrite result_bind. eapply effect_after; [apply silent_lookup|]. apply (expired_full _ _ (silent_lookup key WRITE a)) in Hf.
  destruct (lookup_ server key WRITE a).1 as [x|] eqn:Ex; [|rewrite result_bind; eapply effect_after; [apply silent_check|]; by apply IH]. destruct (lookup_stored _ _ _ _ Ex) as (t & Hst). revert Hf Hst. generalize (result (lookup_ server key WRITE) a). clear a Ex. intros a Hf Hst.
  rewrite result_bind. eapply effect_after; [apply silent_check|]. apply (full_store _ _ (check_store (Some x) OBJ_LIST a)) in Hf. rewrite <- (check_store (Some x) OBJ_LIST a) in Hst.
  destruct (check_ (Some x) OBJ_LIST a).1 eqn:Ec; [by apply (effective_silent _ (silent_ret tt))|]. case_bool_decide; [by apply IH|]. destruct x as [xs| |]; [by eapply Hk|done..].
Qed.

Lemma pop_from_effect w count key a xs t : 0 < count -> store a !! key = Some (AList xs, t) -> xs <> [] -> effect a (result (pop_from w count key xs) a).
Proof.
  intros Hc Hk Hx. destruct (pop_range_effect key w count (result (reply_ (RBulk key)) (result (reply_ (RArrayLen 2)) a)) xs t Hc Hk Hx) as (ys & es & Ha & Hs). eapply (updated_effect _ _ _ _ _ ys); [done| | |].
  - eapply acts_eq; [eapply acts_bind; [eapply acts_bind; [apply acts_reply|]; eapply acts_bind; [apply acts_reply|exact Ha]|apply acts_event]|done|reflexivity].
  - set_solver.
  - pose proof (range_len_bounds count xs Hx Hc). lia.
Qed.

Lemma mpop_effective keys w count : 0 < count -> effective (mpop_spec server keys w count).
Proof. intros Hc. apply first_effective; [|apply effective_silent, silent_reply]. intros key a xs t _ Hk Hx. by eapply pop_from_effect. Qed.

Lemma ltrim_effective argv : effective (ltrim_spec server argv).
Proof.
  do 2 (apply effective_some; [apply silent_number|intros ?]). rename b into start, b0 into stop. apply effective_list. intros a xs t _ Hk Hx. set (ys := slice start stop xs). set (key := nth_arg argv 1).
  destruct (acts_drop key ys (result (event_ (Notify e_ltrim key)) (result (put_ key (AList ys)) a))) as (es & Hes).
  match goal with |- effect _ (result ?m _) => assert (Ha : exists es, acts m a (updated key ys) es (Zlen xs - Zlen ys) /\ SignalModified key ∈ es) end.
  { eexists. split; [eapply acts_eq; [eapply acts_bind; [apply acts_put|]; eapply acts_bind; [apply acts_event|]; eapply acts_bind; [exact Hes|]; eapply acts_bind; [apply acts_event|]; eapply acts_bind; [apply acts_dirty|apply acts_reply]|done|lia]|set_solver]. }
  destruct Ha as (es' & Ha & Hs). assert (Hle : Zlen ys <= Zlen xs) by (unfold ys, slice; rewrite length_take, length_drop; lia).
  destruct (decide (Zlen ys = Zlen xs)) as [E|Hne]; [|eapply updated_effect; try done; lia].
  assert (Exs : ys = xs).
  { unfold ys, slice in *. rewrite length_take, length_drop in E. set (from := Z.max 0 _) in *. assert (Hfrom : from = 0) by (destruct xs; [done|]; cbn [length] in E; lia). rewrite Hfrom in *. cbn [Z.to_nat drop] in *. apply take_ge. lia. }
  rewrite Exs in *. eapply (changed_effect ∅), acts_unchanged; try done; lia.
Qed.

Lemma remove_all_kept lim x xs : Zlen (remove_upto lim x xs) = Zlen xs -> remove_upto lim x xs = xs.
Proof.
  revert lim. induction xs as [|y xs IH]; intros lim; [done|]. cbn [remove_upto]. case_bool_decide as E.
  - destruct lim as [[|n]|]; [done| |]; cbn [length]; intros Hl; [pose proof (remove_shorter (Some n) x xs)|pose proof (remove_shorter None x xs)]; lia.
  - cbn [length]. intros Hl. f_equal. apply IH. lia.
Qed.

Lemma remove_count_kept n x xs : Zlen (remove_count n x xs) <= Zlen xs /\ (Zlen (remove_count n x xs) = Zlen xs -> remove_count n x xs = xs).
Proof.
  unfold remove_count. set (lim := if n =? 0 then _ else _). destruct (n <? 0).
  - rewrite length_reverse. pose proof (remove_shorter lim x (reverse xs)) as Hs. rewrite length_reverse in Hs. split; [done|]. intros Hl. rewrite (remove_all_kept lim x (reverse xs)); [apply reverse_involutive|by rewrite length_reverse].
  - split; [apply remove_shorter|apply remove_all_kept].
Qed.

Lemma lrem_effective argv : effective (lrem_spec server argv).
Proof.
  apply effective_some; [apply silent_number|intros n]. apply effective_list. intros a xs t _ Hk Hx. destruct (remove_count_kept n (nth_arg argv 3) xs) as [Hle Hsame]. set (ys := remove_count _ _ _) in *. set (key := nth_arg argv 1).
  cbn zeta. destruct (Z.eqb_spec (Zlen xs - Zlen ys) 0) as [E|Hne]; cbn [negb when_].
  - rewrite Hsame in * by lia. destruct (acts_drop key xs (result (mret tt) (result (dirty_ (Zlen xs - Zlen xs)) (result (put_ key (AList xs)) a)))) as (es & Hes).
    eapply (changed_effect ∅), (acts_unchanged _ _ key xs t (updated key xs)); [done|done| |done|].
    + eapply acts_eq; [eapply acts_bind; [apply acts_put|]; eapply acts_bind; [apply acts_dirty|]; eapply acts_bind; [apply acts_ret|]; eapply acts_bind; [exact Hes|apply acts_reply]|done|reflexivity].
    + lia.
  - match goal with |- effect _ (result (_ ;; _ ;; ?m ;; _) _) => destruct (acts_drop key ys (result m (result (dirty_ (Zlen xs - Zlen ys)) (result (put_ key (AList ys)) a)))) as (es & Hes) end.
    eapply (updated_effect _ _ key xs t ys); [done| | |].
    + eapply acts_eq; [eapply acts_bind; [apply acts_put|]; eapply acts_bind; [apply acts_dirty|]; eapply acts_bind; [eapply acts_bind; apply acts_event|]; eapply acts_bind; [exact Hes|apply acts_reply]|done|reflexivity].
    + set_solver.
    + lia.
Qed.

(** ** Adding *)

Lemma push_list_some w x (xs : list sds) : push_list w x xs <> [].
Proof. destruct w; cbn [push_list]; [done|by destruct xs]. Qed.

Lemma push_all_some w vs : forall xs, vs <> [] -> push_all w xs vs <> [].
Proof.
  unfold push_all. destruct vs as [|v vs]; [done|]. intros xs _. cbn [foldl]. generalize (push_list_some w v xs). generalize (push_list w v xs). induction vs as [|u vs IH]; intros ys Hy; [done|]. cbn [foldl]. apply IH, push_list_some.
Qed.

(** The key of a list to which elements are added: what it maps to after [ys] is stored. *)
Definition stored key (ys : list sds) (s : gmap sds (content * option Z)) : gmap sds (content * option Z) := <[key := (AList ys, time_of (s !! key))]> s.

Lemma acts_create key o a : match o with None => store a !! key = None | Some x => is_Some (store a !! key) end -> exists f es,
  acts (when_ (absent o) (add_ key (AList []))) a f es 0 /\ (forall ys, alter (fun e => (AList ys, snd e)) key (f (store a)) = stored key ys (store a)).
Proof.
  intros Ho. unfold stored. destruct o as [x|]; cbn [absent when_].
  - destruct Ho as [[y t] Hst]. exists id, []. split; [apply acts_ret|]. intros ys. rewrite Hst. apply map_eq. intros k. unfold id. destruct (decide (k = key)) as [->|]; [by rewrite lookup_alter_eq, lookup_insert_eq, Hst|by rewrite lookup_alter_ne, lookup_insert_ne].
  - eexists _, _. split; [apply acts_add|]. intros ys. rewrite Ho. apply map_eq. intros k. destruct (decide (k = key)) as [->|]; [by rewrite lookup_alter_eq, !lookup_insert_eq|by rewrite lookup_alter_ne, !lookup_insert_ne].
Qed.

Lemma got_store key a0 o a : got key a0 o a -> list_or_absent (store a !! key) /\ match o with None => store a !! key = None | Some x => is_Some (store a !! key) end.
Proof. intros (_ & _ & Ho). destruct o as [x|]; [|by rewrite Ho]. destruct Ho as (xs & t & -> & Hst). by rewrite Hst. Qed.

Lemma push_effective argv w xx : may_write server -> (3 <= length argv)%nat -> effective (push_spec server argv w xx).
Proof.
  intros Hw Hl a0 Hf0. apply get_effect; [done|done|]. intros o a Hf [Hla Ho]%got_store. cbn zeta. destruct (absent o && xx); [by apply (effective_silent _ (silent_reply _))|]. set (key := nth_arg argv 1) in *. set (ys := push_all _ _ _).
  assert (Hvs : drop 2 argv <> []) by (intros E; assert (Hd : length (drop 2 argv) = O) by (by rewrite E); rewrite length_drop in Hd; lia).
  assert (Hys : ys <> []) by by apply push_all_some. assert (Hpos : 0 < Zlen (drop 2 argv)) by (destruct (drop 2 argv); [done|cbn [length]; lia]). apply (changed_effect {[key := ys]}).
  destruct (acts_create key o a Ho) as (f & es & Hc & Hfs). match goal with |- changed _ _ (result ?m _) => assert (Ha : exists es, acts m a (stored key ys) es (Zlen (drop 2 argv)) /\ SignalModified key ∈ es) end.
  { eexists. split; [|shelve]. eapply acts_eq; [eapply acts_bind; [exact Hc|]; eapply acts_bind; [apply acts_put|]; eapply acts_bind; [apply acts_dirty|]; eapply acts_bind; [apply acts_reply|]; eapply acts_bind; apply acts_event|apply Hfs|lia]. Unshelve. set_solver. }
  destruct Ha as (es' & (Hs & Hg & Hd) & Hsig). exists es'. split; [done|]. split; [lia|]. split; [lia|]. split; [by intros k [? [<- _]%lookup_singleton_Some]|].
  intros k. rewrite Hs. unfold stored. destruct (decide (k = key)) as [->|]; [rewrite lookup_insert_eq, lookup_singleton_eq; by destruct ys|by rewrite lookup_insert_ne, lookup_singleton_ne].
Qed.

(** ** Moving *)

Lemma acts_place dst w x ys a : exists es, acts (place_ dst w x ys) a (alter (fun e => (AList ys, snd e)) dst) es 0 /\ SignalModified dst ∈ es.
Proof. eexists. split; [eapply acts_eq; [eapply acts_bind; [apply acts_event|]; eapply acts_bind; [apply acts_put|]; eapply acts_bind; [apply acts_event|apply acts_reply]|done|done]|set_solver]. Qed.

Definition rewrite_move_ (argv : list sds) (proc : lmove_proc) : S unit :=
  match proc with
  | blmoveProc => event_ (RewriteCommand [s_lmove; nth_arg argv 1; nth_arg argv 2; nth_arg argv 3; nth_arg argv 4])
  | brpoplpushProc => event_ (RewriteCommand [s_rpoplpush; nth_arg argv 1; nth_arg argv 2])
  | _ => mret tt
  end.

Lemma acts_rewrite argv proc a : exists es, acts (rewrite_move_ argv proc) a id es 0.
Proof. destruct proc; eexists; cbn [rewrite_move_]; try apply acts_event; apply acts_ret. Qed.

(** The five steps of a move, from the two lists to the new ones. *)
Lemma acts_move argv proc a o src dst x rest ys left wherefrom whereto :
  match o with None => store (result (put_ src (AList rest)) a) !! dst = None | Some _ => is_Some (store (result (put_ src (AList rest)) a) !! dst) end -> exists es,
  acts (put_ src (AList rest) ;; when_ (absent o) (add_ dst (AList [])) ;; place_ dst whereto x ys ;; removed_ src wherefrom left 1 ;; rewrite_move_ argv proc) a
    (fun s => drop_key src left (stored dst ys (alter (fun e => (AList rest, snd e)) src s))) es 1 /\ SignalModified src ∈ es /\ SignalModified dst ∈ es.
Proof.
  intros Ho. destruct (acts_create dst o _ Ho) as (f & es1 & Hc & Hf). set (a2 := result (when_ (absent o) (add_ dst (AList []))) (result (put_ src (AList rest)) a)). destruct (acts_place dst whereto x ys a2) as (es2 & Hp & Hs2).
  destruct (acts_removed src wherefrom left 1 (result (place_ dst whereto x ys) a2)) as (es3 & Hr & Hs3). destruct (acts_rewrite argv proc (result (removed_ src wherefrom left 1) (result (place_ dst whereto x ys) a2))) as (es4 & Hw).
  eexists. split; [|split; shelve]. eapply acts_eq; [eapply acts_bind; [apply acts_put|]; eapply acts_bind; [exact Hc|]; eapply acts_bind; [exact Hp|]; eapply acts_bind; [exact Hr|exact Hw]| |lia]. unfold id, compose. f_equal. apply Hf.
  Unshelve. all: set_solver.
Qed.

Lemma move_effective argv proc wherefrom whereto : may_write server -> effective (move_ server argv proc wherefrom whereto).
Proof.
  intros Hw. unfold move_. set (src := nth_arg argv 1). set (dst := nth_arg argv 2). apply effective_visible. intros a0 xs t Hf0 Hk0 Hvis Hx. destruct (pop_end wherefrom xs) as [[x rest]|]; [|by apply (effective_silent _ (silent_reply _))].
  apply get_effect; [done|done|]. intros o a Hf Hgot. destruct (got_store _ _ _ _ Hgot) as [Hla Ho]. destruct Hgot as (Hne & Hsame & Hst). cbn zeta. set (ys := push_list _ _ _). assert (Hys : ys <> []) by apply push_list_some.
  match goal with |- effect _ (result ?m _) => change m with (put_ src (AList rest) ;; when_ (absent o) (add_ dst (AList [])) ;; place_ dst whereto x ys ;; removed_ src wherefrom (if bool_decide (src = dst) then ys else rest) 1 ;; rewrite_move_ argv proc) end.
  destruct (acts_move argv proc a o src dst x rest ys (if bool_decide (src = dst) then ys else rest) wherefrom whereto) as (es & Ha & Hs1 & Hs2).
  { change (store (result (put_ src (AList rest)) a)) with (alter (fun e => (AList rest, snd e)) src (store a)). destruct (decide (src = dst)) as [E|]; [|by rewrite lookup_alter_ne]. rewrite E, lookup_alter_eq. destruct o; [by apply fmap_is_Some|by rewrite Ho]. }
  case_bool_decide as E.
  - subst dst. rewrite <- E in *. destruct (Hsame _ _ Hk0 Hvis) as [Hs0 _]. rewrite <- Hs0 in Hk0. apply (changed_effect {[src := ys]}). destruct Ha as (Hs & Hg & Hd). exists es. split; [done|]. split; [lia|]. split; [lia|]. split; [by intros k [? [<- _]%lookup_singleton_Some]|].
    intros k. rewrite Hs. unfold drop_key, stored. rewrite bool_decide_false by done. unfold id. destruct (decide (k = src)) as [->|]; [|by rewrite lookup_insert_ne, lookup_alter_ne, lookup_singleton_ne].
    rewrite lookup_insert_eq, lookup_alter_eq, lookup_singleton_eq, Hk0. by destruct ys.
  - assert (Hk : store a !! src = Some (AList xs, t)) by (rewrite Hne; done). apply (changed_effect (<[dst := ys]> {[src := rest]})). destruct Ha as (Hs & Hg & Hd). exists es. split; [done|]. split; [lia|]. split; [lia|]. split.
    + intros k [ys' [[<- _]|[_ [<- _]%lookup_singleton_Some]]%lookup_insert_Some]; [done|]. by rewrite Hk.
    + intros k. rewrite Hs. unfold drop_key, stored. rewrite (lookup_alter_ne _ _ src dst) by done. destruct (decide (k = dst)) as [->|Hd1].
      * rewrite (lookup_insert_eq _ dst ys). case_bool_decide; unfold id; rewrite ?lookup_delete_ne, lookup_insert_eq by done; by destruct ys.
      * rewrite (lookup_insert_ne {[src := rest]}) by done. destruct (decide (k = src)) as [->|Hd2].
        -- rewrite lookup_singleton_eq. case_bool_decide as Er; [subst; by rewrite lookup_delete_eq|]. unfold id. rewrite lookup_insert_ne, lookup_alter_eq, Hk by done. by destruct rest.
        -- rewrite lookup_singleton_ne by done. case_bool_decide; unfold id; rewrite ?lookup_delete_ne, lookup_insert_ne, lookup_alter_ne by done; done.
Qed.

Lemma lmove_effective argv : may_write server -> effective (lmove_spec server argv).
Proof. intros Hw. do 2 (apply effective_some; [apply silent_position|intros]). by apply move_effective. Qed.

(** ** Blocking *)

Section Blocking.
Context (deny_blocking : bool) (milliseconds : sds -> option Z).

Lemma silent_timeout s : silent (timeout_ server milliseconds s).
Proof. unfold timeout_. destruct (deadline server milliseconds s); [apply silent_ret|]. apply silent_bind; [apply silent_reply|intros _; apply silent_ret]. Qed.

Lemma silent_block keys timeout r : silent (block_ deny_blocking keys timeout r).
Proof. unfold block_. destruct deny_blocking; [apply silent_reply|apply silent_event]. Qed.

Lemma blocking_effective keys w arg count : count = -1 \/ 0 < count -> effective (blocking_spec server deny_blocking milliseconds keys w arg count).
Proof.
  intros Hc. apply effective_some; [apply silent_timeout|]. intros timeout. apply first_effective; [|apply effective_silent, silent_block]. intros key a xs t _ Hk Hx. destruct (Z.eqb_spec count (-1)) as [|Hne]; cbn [negb]; [|eapply pop_from_effect; [lia|done|done]].
  destruct (pop_one_effect key w a xs t (reply_ (RArrayLen 2) ;; reply_ (RBulk key)) Hk Hx) as (ys & es & Ha & Hs); [intros a'; apply (acts_bind _ _ _ id id [] [] 0 0); apply acts_reply|].
  eapply (updated_effect _ _ _ _ _ ys); [done|eapply acts_eq; [eapply acts_bind; [exact Ha|apply acts_event]|done|reflexivity]|set_solver|lia].
Qed.

Lemma bpop_effective argv w : effective (bpop_spec server deny_blocking milliseconds argv w).
Proof. apply blocking_effective. by left. Qed.

Lemma bmove_effective argv proc wherefrom whereto timeout : may_write server -> effective (bmove_ server deny_blocking argv proc wherefrom whereto timeout).
Proof.
  intros Hw. apply effective_bind; [apply silent_lookup|]. intros o. apply effective_bind; [apply silent_check|]. intros [|]; [apply effective_silent, silent_ret|]. destruct (absent o); [apply effective_silent, silent_block|by apply move_effective].
Qed.

Lemma blmove_effective argv : may_write server -> effective (blmove_spec server deny_blocking milliseconds argv).
Proof. intros Hw. do 2 (apply effective_some; [apply silent_position|intros]). apply effective_some; [apply silent_timeout|intros]. by apply bmove_effective. Qed.

Lemma brpoplpush_effective argv : may_write server -> effective (brpoplpush_spec server deny_blocking milliseconds argv).
Proof. intros Hw. apply effective_some; [apply silent_timeout|intros]. by apply bmove_effective. Qed.

Lemma silent_lmpop opts : silent (lmpop_args opts).
Proof.
  assert (Herr : silent (reply_ (RError SYNTAX) ;; mret (None : option Z))) by (apply silent_bind; [apply silent_reply|intros _; apply silent_ret]).
  destruct opts as [|opt [|v rest]]; cbn [lmpop_args]; [apply silent_ret|done|]. destruct (strcasecmp0 opt s_COUNT); [|done]. apply silent_bind; [apply silent_range|]. intros [n|]; [|apply silent_ret]. destruct rest; [apply silent_ret|done].
Qed.

Lemma lmpop_effective argv numkeys_idx is_block : effective (lmpop_spec server deny_blocking milliseconds argv numkeys_idx is_block).
Proof.
  apply effective_some; [apply silent_range|]. intros numkeys. cbn zeta. destruct (_ <=? _); [apply effective_silent, silent_reply|]. apply effective_some; [apply silent_position|]. intros w a Hf. unfold when_some. rewrite result_bind. set (opts := drop _ argv).
  eapply effect_after; [apply silent_lmpop|]. apply (expired_full _ _ (silent_lmpop opts a)) in Hf. destruct (lmpop_args opts a).1 as [count|] eqn:Ec; [|by apply (effective_silent _ (silent_ret tt))]. apply lmpop_count in Ec.
  destruct is_block; [by apply blocking_effective; [right|]|by apply mpop_effective].
Qed.

End Blocking.

(** ** What follows for every command *)

Lemma changed_full new a a' : changed new a a' -> full a -> full a'.
Proof. intros (es & _ & _ & _ & _ & Hk) Hf k x t. rewrite Hk. destruct (new !! k) as [[|y ys]|]; [done| |apply Hf]. by intros [= <- <-]. Qed.

Lemma effect_full a a' : effect a a' -> full a -> full a'.
Proof. intros (a1 & new & He & Hc) Hf. eapply changed_full; [done|]. by eapply expired_full. Qed.

(** An object of another type stays, unless it expired. *)
Definition other (x : content) : Prop := match x with AList _ => False | _ => True end.

Lemma effect_other a a' k x t : effect a a' -> other x -> store a !! k = Some (x, t) -> hidden server t = false -> store a' !! k = Some (x, t).
Proof.
  intros (a1 & new & (es & _ & _ & He) & (es' & _ & _ & _ & Hnew & Hc)) Ho Hk Hh. assert (Hk1 : store a1 !! k = Some (x, t)). { destruct (He k) as [E|(x' & t' & E & Hh' & _)]; [congruence|]. rewrite Hk in E. by injection E as <- <-; congruence. }
  rewrite Hc. destruct (new !! k) eqn:En; [|done]. destruct (Hnew k) as [_ Hl]; [by rewrite En|]. rewrite Hk1 in Hl. by destruct x.
Qed.

(** A key that is still there keeps its time to expire. *)
Lemma effect_time a a' k x t y t' : effect a a' -> store a !! k = Some (x, t) -> hidden server t = false -> store a' !! k = Some (y, t') -> t' = t.
Proof.
  intros (a1 & new & (es & _ & _ & He) & (es' & _ & _ & _ & Hnew & Hc)) Hk Hh. assert (Hk1 : store a1 !! k = Some (x, t)). { destruct (He k) as [E|(x' & t1 & E & Hh' & _)]; [congruence|]. rewrite Hk in E. by injection E as <- <-; congruence. }
  rewrite Hc, Hk1. destruct (new !! k) as [[|z zs]|]; [done| |]; by intros [= <- <-].
Qed.

(** A key that changed is signalled; the change is counted, or the key expired and its deletion is propagated. *)
Lemma effect_signalled a a' : effect a a' -> exists es, grows a a' es /\ l_dirty (alog a) <= l_dirty (alog a') /\
  forall k, store a' !! k <> store a !! k -> SignalModified k ∈ es /\ (l_dirty (alog a) < l_dirty (alog a') \/ exists b, PropagateDeletion k b ∈ es).
Proof.
  intros (a1 & new & (es & Hg & Hd & He) & (es' & Hg' & Hle & Hlt & Hnew & Hc)). exists (es ++ es'). split; [by eapply grows_trans|]. split; [lia|]. intros k Hne. rewrite Hc in Hne. destruct (new !! k) as [ys|] eqn:En.
  - destruct (Hnew k) as [Hs _]; [by rewrite En|]. split; [set_solver|]. left. assert (new <> ∅) by (intros ->; by rewrite lookup_empty in En). specialize (Hlt ltac:(done)). lia.
  - destruct (He k) as [E|(x & t & _ & _ & _ & Hs & b & Hp)]; [congruence|]. split; [set_solver|]. right. exists b. set_solver.
Qed.

End Effect.

End ListEffect.
