(* ===== verification/StrCmd.v ===== *)
(** * String commands (src/redis-7.2.4/src/t_string.c)

    The commands on strings, from the arguments of the client to the replies,
    on the keyspace of Keyspace.v and the string objects of StrType.v.  They
    share the database with the commands on lists.  LCS is in LcsCmd.v.

    Between commands the value of a key has one reference, or is one of the
    shared integers.  [None] is a failed assertion, an overflow of a signed
    integer, an access outside a buffer or to a freed object. *)

From stdpp Require Import gmap.
From S2P Require Import Prelude.
From S2P Require Import NumConv.
From S2P Require Import Dict.
From S2P Require Import Keyspace.
From S2P Require Import StrType.
From S2P Require Import ListCmd.
Import NumConv Keyspace StrType ListCmd.

Module StrCmd.

(** The flags of [setGenericCommand] and of the options. *)
Definition OBJ_NO_FLAGS : Z := 0.
Definition OBJ_SET_NX : Z := Z.shiftl 1 0.
Definition OBJ_SET_XX : Z := Z.shiftl 1 1.
Definition OBJ_EX : Z := Z.shiftl 1 2.
Definition OBJ_PX : Z := Z.shiftl 1 3.
Definition OBJ_KEEPTTL : Z := Z.shiftl 1 4.
Definition OBJ_SET_GET : Z := Z.shiftl 1 5.
Definition OBJ_EXAT : Z := Z.shiftl 1 6.
Definition OBJ_PXAT : Z := Z.shiftl 1 7.
Definition OBJ_PERSIST : Z := Z.shiftl 1 8.

Definition has (flags f : Z) : bool := negb (Z.land flags f =? 0).

Inductive time_unit := UNIT_SECONDS | UNIT_MILLISECONDS.
Inductive command_type := COMMAND_GET | COMMAND_SET.

Definition is_set (c : command_type) : bool := match c with COMMAND_SET => true | COMMAND_GET => false end.
Definition is_seconds (u : time_unit) : bool := match u with UNIT_SECONDS => true | UNIT_MILLISECONDS => false end.

Definition s_nx : sds := [110; 120].
Definition s_xx : sds := [120; 120].
Definition s_get : sds := [103; 101; 116].
Definition s_ex : sds := [101; 120].
Definition s_px : sds := [112; 120].
Definition s_exat : sds := [101; 120; 97; 116].
Definition s_pxat : sds := [112; 120; 97; 116].
Definition s_KEEPTTL : sds := [75; 69; 69; 80; 84; 84; 76].
Definition s_PERSIST : sds := [80; 69; 82; 83; 73; 83; 84].
Definition s_PXAT : sds := [80; 88; 65; 84].
Definition s_SET : sds := [83; 69; 84].
Definition s_DEL : sds := [68; 69; 76].
Definition s_UNLINK : sds := [85; 78; 76; 73; 78; 75].
Definition s_PEXPIREAT : sds := [80; 69; 88; 80; 73; 82; 69; 65; 84].

(** The addition of two [long long]. *)
Definition add_ll (x y : Z) : option Z := if (LLONG_MIN <=? x + y) && (x + y <=? LLONG_MAX) then Some (x + y) else None.

(** ** Options *)

Record options := { o_flags : Z; o_unit : time_unit; o_expire : option sds }.

(** The arguments from [j] on; [None] is an error of the syntax.  The tests of
    single characters compare with a word, up to the case of the letters. *)
Fixpoint parse_options (command : command_type) (args : list sds) (o : options) : option options :=
  match args with
  | [] => Some o
  | opt :: rest =>
      let flags := o_flags o in
      let set f := {| o_flags := Z.lor flags f; o_unit := o_unit o; o_expire := o_expire o |} in
      let timed f u next := {| o_flags := Z.lor flags f; o_unit := u; o_expire := Some next |} in
      if strcasecmp0 opt s_nx && negb (has flags OBJ_SET_XX) && is_set command then parse_options command rest (set OBJ_SET_NX)
      else if strcasecmp0 opt s_xx && negb (has flags OBJ_SET_NX) && is_set command then parse_options command rest (set OBJ_SET_XX)
      else if strcasecmp0 opt s_get && is_set command then parse_options command rest (set OBJ_SET_GET)
      else if strcasecmp0 opt s_KEEPTTL && negb (has flags OBJ_PERSIST) && negb (has flags OBJ_EX) && negb (has flags OBJ_EXAT) &&
              negb (has flags OBJ_PX) && negb (has flags OBJ_PXAT) && is_set command then parse_options command rest (set OBJ_KEEPTTL)
      else if strcasecmp0 opt s_PERSIST && negb (is_set command) && negb (has flags OBJ_EX) && negb (has flags OBJ_EXAT) &&
              negb (has flags OBJ_PX) && negb (has flags OBJ_PXAT) && negb (has flags OBJ_KEEPTTL) then parse_options command rest (set OBJ_PERSIST)
      else
        match rest with
        | [] => None
        | next :: rest =>
            let free := negb (has flags OBJ_KEEPTTL) && negb (has flags OBJ_PERSIST) in
            if strcasecmp0 opt s_ex && free && negb (has flags OBJ_EXAT) && negb (has flags OBJ_PX) && negb (has flags OBJ_PXAT)
            then parse_options command rest (timed OBJ_EX (o_unit o) next)
            else if strcasecmp0 opt s_px && free && negb (has flags OBJ_EX) && negb (has flags OBJ_EXAT) && negb (has flags OBJ_PXAT)
            then parse_options command rest (timed OBJ_PX UNIT_MILLISECONDS next)
            else if strcasecmp0 opt s_exat && free && negb (has flags OBJ_EX) && negb (has flags OBJ_PX) && negb (has flags OBJ_PXAT)
            then parse_options command rest (timed OBJ_EXAT (o_unit o) next)
            else if strcasecmp0 opt s_pxat && free && negb (has flags OBJ_EX) && negb (has flags OBJ_EXAT) && negb (has flags OBJ_PX)
            then parse_options command rest (timed OBJ_PXAT UNIT_MILLISECONDS next)
            else None
        end
  end.

Definition no_options : options := {| o_flags := OBJ_NO_FLAGS; o_unit := UNIT_SECONDS; o_expire := None |}.

Definition parseExtendedStringArgumentsOrReply (argv : list sds) (command : command_type) : C (option options) :=
  match parse_options command (drop (if is_set command then 3 else 2) argv) no_options with
  | Some o => mret (Some o)
  | None => addReply (RError SYNTAX) ;; mret None
  end.

(** The string at an address. *)
Definition read_str (a : addr) : C strval := v ← read_obj a; match v with VStr v => mret v | _ => lift None end.

Definition addReplyBulk (a : addr) : C unit := v ← read_str a; s ← lift (getDecodedObject v); addReply (RBulk s).

Definition getLongLongFromObjectOrReply (o : option strval) (msg : option error) : C (option Z) :=
  match getLongLongFromObject o with
  | Some v => mret (Some v)
  | None => addReply (RError (default NOTINT msg)) ;; mret None
  end.

Section StrCmd.
Context (conf : strconf) (ty : Dict.dictType sds) (can : Dict.dictResizeEnable) (server : environment) (access : Z -> Z) (initial_lru : Z).
(** The client reads the commands of an append-only file. *)
Context (aof_client : bool).

#[local] Abbreviation lookupKeyRead := (lookupKeyRead ty can server access).
#[local] Abbreviation lookupKeyWrite := (lookupKeyWrite ty can server access).
#[local] Abbreviation lookupKeyReadOrReply := (lookupKeyReadOrReply ty can server access).
#[local] Abbreviation dbAdd := (dbAdd ty can initial_lru).
#[local] Abbreviation dbReplaceValue := (dbReplaceValue ty can).
#[local] Abbreviation setKey := (setKey ty can server access initial_lru).
#[local] Abbreviation setExpire := (setExpire ty can server).

Definition mustObeyClient : bool := aof_client || client_is_master server.

Definition checkStringLength (size append : Z) : C bool :=
  if mustObeyClient then mret true
  else
    let total := s64 (u64 size + append) in
    if (proto_max_bulk_len conf <? total) || (total <? size) || (total <? append) then addReply (RError STRING_TOO_LONG) ;; mret false
    else mret true.

Definition getExpireMillisecondsOrReply (expire : sds) (flags : Z) (tunit : time_unit) : C (option Z) :=
  v ← getLongFromObjectOrReply expire None;
  match v with
  | None => mret None
  | Some milliseconds =>
      if (milliseconds <=? 0) || is_seconds tunit && (LLONG_MAX / 1000 <? milliseconds) then addReply (RError EXPIRE_TIME) ;; mret None
      else
        let milliseconds := if is_seconds tunit then milliseconds * 1000 else milliseconds in
        milliseconds ← (if has flags OBJ_PX || has flags OBJ_EX then lift (add_ll milliseconds (commandTimeSnapshot server)) else mret milliseconds);
        if milliseconds <=? 0 then addReply (RError EXPIRE_TIME) ;; mret None else mret (Some milliseconds)
  end.

(** ** GET *)

(** False for [C_ERR]. *)
Definition getGenericCommand (argv : list sds) : C bool :=
  key ← arg argv 1;
  o ← lookupKeyReadOrReply key RNull;
  match o with
  | None => mret true
  | Some a =>
      wrong ← checkType o OBJ_STRING;
      if (wrong : bool) then mret false else addReplyBulk a ;; mret true
  end.

Definition getCommand (argv : list sds) : C unit := getGenericCommand argv ;; mret tt.

(** ** SET *)

(** The arguments without GET, in a buffer for one less. *)
Fixpoint without_get (j : nat) (argv : list sds) : list sds :=
  match argv with
  | [] => []
  | a :: argv => if (3 <=? Z.of_nat j) && strcasecmp0 a s_get then without_get (S j) argv else a :: without_get (S j) argv
  end.

Definition propagate_without_get (argv : list sds) : C unit :=
  let argv' := without_get 0 argv in
  assert (Zlen argv' <=? Zlen argv - 1) ;; emit (RewriteCommand argv').

Definition setGenericCommand (argv : list sds) (flags : Z) (key : sds) (val : strval) (expire : option sds) (tunit : time_unit) (ok_reply abort_reply : option reply) : C unit :=
  milliseconds ← match expire with None => mret (Some 0) | Some e => getExpireMillisecondsOrReply e flags tunit end;
  match milliseconds with
  | None => mret tt
  | Some milliseconds =>
      ok ← (if has flags OBJ_SET_GET then getGenericCommand argv else mret true);
      if negb ok then mret tt
      else
        o ← lookupKeyWrite key;
        let found := match o with Some _ => true | None => false end in
        if has flags OBJ_SET_NX && found || has flags OBJ_SET_XX && negb found
        then when (negb (has flags OBJ_SET_GET)) (addReply (default RNull abort_reply))
        else
          let timed := match expire with Some _ => true | None => false end in
          setKey key (VStr val) {| SETKEY_KEEPTTL := has flags OBJ_KEEPTTL || timed; SETKEY_NO_SIGNAL := false; SETKEY_ALREADY_EXIST := found;
                                   SETKEY_DOESNT_EXIST := negb found; SETKEY_ADD_OR_UPDATE := false |} ;;
          add_dirty 1 ;;
          notifyKeyspaceEvent e_set key ;;
          when timed
            (setExpire true key milliseconds ;;
             when (negb (has flags OBJ_PXAT)) (s ← lift (getDecodedObject val); emit (RewriteCommand [s_SET; key; s; s_PXAT; lltoa milliseconds])) ;;
             notifyKeyspaceEvent e_expire key) ;;
          when (negb (has flags OBJ_SET_GET)) (addReply (default ROk ok_reply)) ;;
          when (has flags OBJ_SET_GET && negb timed) (propagate_without_get argv)
  end.

Definition setCommand (argv : list sds) : C unit :=
  o ← parseExtendedStringArgumentsOrReply argv COMMAND_SET;
  match o with
  | None => mret tt
  | Some o =>
      key ← arg argv 1;
      v ← arg argv 2;
      val ← lift (tryObjectEncoding conf (createStringObject v));
      setGenericCommand argv (o_flags o) key val (o_expire o) (o_unit o) None None
  end.

Definition setnxCommand (argv : list sds) : C unit :=
  key ← arg argv 1;
  v ← arg argv 2;
  val ← lift (tryObjectEncoding conf (createStringObject v));
  setGenericCommand argv OBJ_SET_NX key val None UNIT_SECONDS (Some (RLong 1)) (Some (RLong 0)).

Definition setexCommand (argv : list sds) : C unit :=
  key ← arg argv 1;
  e ← arg argv 2;
  v ← arg argv 3;
  val ← lift (tryObjectEncoding conf (createStringObject v));
  setGenericCommand argv OBJ_EX key val (Some e) UNIT_SECONDS None None.

Definition psetexCommand (argv : list sds) : C unit :=
  key ← arg argv 1;
  e ← arg argv 2;
  v ← arg argv 3;
  val ← lift (tryObjectEncoding conf (createStringObject v));
  setGenericCommand argv OBJ_PX key val (Some e) UNIT_MILLISECONDS None None.

(** ** GETEX, GETDEL, GETSET *)

Definition checkAlreadyExpired (when_ : Z) : bool := (when_ <=? commandTimeSnapshot server) && negb (loading server) && negb (masterhost server).

Definition getexCommand (argv : list sds) : C unit :=
  opts ← parseExtendedStringArgumentsOrReply argv COMMAND_GET;
  match opts with
  | None => mret tt
  | Some opts =>
      let flags := o_flags opts in
      key ← arg argv 1;
      o ← lookupKeyReadOrReply key RNull;
      match o with
      | None => mret tt
      | Some a =>
          wrong ← checkType o OBJ_STRING;
          if (wrong : bool) then mret tt
          else
            milliseconds ← match o_expire opts with None => mret (Some 0) | Some e => getExpireMillisecondsOrReply e flags (o_unit opts) end;
            match milliseconds with
            | None => mret tt
            | Some milliseconds =>
                addReplyBulk a ;;
                if (has flags OBJ_PXAT || has flags OBJ_EXAT) && checkAlreadyExpired milliseconds then
                  deleted ← dbGenericDelete ty can key (lazyfree_lazy_expire server);
                  assert deleted ;;
                  emit (RewriteCommand [if lazyfree_lazy_expire server then s_UNLINK else s_DEL; key]) ;;
                  signalModifiedKey key ;;
                  notifyKeyspaceEvent e_del key ;;
                  add_dirty 1
                else
                  match o_expire opts with
                  | Some _ =>
                      setExpire true key milliseconds ;;
                      emit (RewriteCommand [s_PEXPIREAT; key; lltoa milliseconds]) ;;
                      signalModifiedKey key ;;
                      notifyKeyspaceEvent e_expire key ;;
                      add_dirty 1
                  | None =>
                      if has flags OBJ_PERSIST then
                        removed ← removeExpire ty can key;
                        when removed
                          (signalModifiedKey key ;; emit (RewriteCommand [s_PERSIST; key]) ;; notifyKeyspaceEvent e_persist key ;; add_dirty 1)
                      else mret tt
                  end
            end
      end
  end.

Definition getdelCommand (argv : list sds) : C unit :=
  ok ← getGenericCommand argv;
  if negb ok then mret tt
  else
    key ← arg argv 1;
    deleted ← dbSyncDelete ty can key;
    when deleted (emit (RewriteCommand [s_DEL; key]) ;; signalModifiedKey key ;; notifyKeyspaceEvent e_del key ;; add_dirty 1).

Definition SETKEY_NONE : setkey_flags :=
  {| SETKEY_KEEPTTL := false; SETKEY_NO_SIGNAL := false; SETKEY_ALREADY_EXIST := false; SETKEY_DOESNT_EXIST := false; SETKEY_ADD_OR_UPDATE := false |}.

Definition getsetCommand (argv : list sds) : C unit :=
  ok ← getGenericCommand argv;
  if negb ok then mret tt
  else
    key ← arg argv 1;
    v ← arg argv 2;
    val ← lift (tryObjectEncoding conf (createStringObject v));
    setKey key (VStr val) SETKEY_NONE ;;
    notifyKeyspaceEvent e_set key ;;
    add_dirty 1 ;;
    emit (RewriteCommand (s_SET :: drop 1 argv)).

(** ** Ranges *)

Definition dbUnshareStringValue (key : sds) (a : addr) : C addr :=
  v ← read_str a;
  match v with
  | Raw _ => mret a
  | _ =>
      s ← lift (getDecodedObject v);
      a ← createObject (VStr (createRawStringObject s));
      dbReplaceValue key a ;;
      mret a
  end.

(** A function of the bytes of an object that is not shared or encoded. *)
Definition on_raw (a : addr) (f : sds -> option sds) : C sds :=
  v ← read_str a;
  match v with
  | Raw s => s ← lift (f s); write_obj a (VStr (Raw s)) ;; mret s
  | _ => lift None
  end.

Definition sdsgrowzero (s : sds) (len : Z) : sds := if len <=? Zlen s then s else s ++ replicate (Z.to_nat (len - Zlen s)) 0.

Definition setrangeCommand (argv : list sds) : C unit :=
  key ← arg argv 1;
  off ← arg argv 2;
  value ← arg argv 3;
  offset ← getLongFromObjectOrReply off None;
  match offset with
  | None => mret tt
  | Some offset =>
      if offset <? 0 then addReply (RError OFFSET_RANGE)
      else
        let len := u64 (offset + Zlen value) in
        o ← lookupKeyWrite key;
        o ← match o with
            | None =>
                if Zlen value =? 0 then addReply (RLong 0) ;; mret None
                else
                  ok ← checkStringLength offset (Zlen value);
                  if negb ok then mret None
                  else a ← createObject (VStr (Raw (replicate (Z.to_nat len) 0))); dbAdd key a ;; mret (Some a)
            | Some a =>
                wrong ← checkType o OBJ_STRING;
                if (wrong : bool) then mret None
                else
                  v ← read_str a;
                  if Zlen value =? 0 then addReply (RLong (s64 (stringObjectLen v))) ;; mret None
                  else
                    ok ← checkStringLength offset (Zlen value);
                    if negb ok then mret None else a ← dbUnshareStringValue key a; mret (Some a)
            end;
        match o with
        | None => mret tt
        | Some a =>
            s ← on_raw a (fun s => if 0 <? Zlen value then wr (sdsgrowzero s len) offset value else Some s);
            when (0 <? Zlen value) (signalModifiedKey key ;; notifyKeyspaceEvent e_setrange key ;; add_dirty 1) ;;
            addReply (RLong (s64 (Zlen s)))
        end
  end.

(** The bytes from [start] to [end_], where negative numbers count from the end. *)
Definition getrange (str : sds) (start end_ : Z) : option sds :=
  let strlen := Zlen str in
  if (start <? 0) && (end_ <? 0) && (end_ <? start) then Some []
  else
    let start := if start <? 0 then s64 (u64 (strlen + u64 start)) else start in
    let end_ := if end_ <? 0 then s64 (u64 (strlen + u64 end_)) else end_ in
    let start := if start <? 0 then 0 else start in
    let end_ := if end_ <? 0 then 0 else end_ in
    let end_ := if strlen <=? u64 end_ then s64 (u64 (strlen - 1)) else end_ in
    if (end_ <? start) || (strlen =? 0) then Some [] else rd str start (end_ - start + 1).

Definition getrangeCommand (argv : list sds) : C unit :=
  key ← arg argv 1;
  s ← arg argv 2;
  e ← arg argv 3;
  start ← getLongFromObjectOrReply s None;
  match start with
  | None => mret tt
  | Some start =>
      end_ ← getLongFromObjectOrReply e None;
      match end_ with
      | None => mret tt
      | Some end_ =>
          o ← lookupKeyReadOrReply key (RBulk []);
          match o with
          | None => mret tt
          | Some a =>
              wrong ← checkType o OBJ_STRING;
              if (wrong : bool) then mret tt
              else v ← read_str a; str ← lift (getDecodedObject v); r ← lift (getrange str start end_); addReply (RBulk r)
          end
      end
  end.

(** ** Many keys *)

Fixpoint mget_loop (keys : list sds) : C unit :=
  match keys with
  | [] => mret tt
  | key :: keys =>
      o ← lookupKeyRead key;
      match o with
      | None => addReply RNull
      | Some a =>
          v ← read_obj a;
          if bool_decide (type_of v <> OBJ_STRING) then addReply RNull else addReplyBulk a
      end ;;
      mget_loop keys
  end.

Definition mgetCommand (argv : list sds) : C unit := addReply (RArrayLen (Zlen argv - 1)) ;; mget_loop (drop 1 argv).

(** Whether one of the keys is there. *)
Fixpoint msetnx_loop (args : list sds) : C bool :=
  match args with
  | [] => mret false
  | key :: rest =>
      o ← lookupKeyWrite key;
      match o with
      | Some _ => mret true
      | None => match rest with [] => mret false | _ :: rest => msetnx_loop rest end
      end
  end.

Fixpoint mset_loop (args : list sds) (nx : bool) (flags : setkey_flags) : C unit :=
  match args with
  | [] => mret tt
  | [_] => lift None
  | key :: v :: rest =>
      val ← lift (tryObjectEncoding conf (createStringObject v));
      setKey key (VStr val) flags ;;
      notifyKeyspaceEvent e_set key ;;
      mset_loop rest nx
        (if nx then {| SETKEY_KEEPTTL := false; SETKEY_NO_SIGNAL := false; SETKEY_ALREADY_EXIST := false; SETKEY_DOESNT_EXIST := false; SETKEY_ADD_OR_UPDATE := true |}
         else flags)
  end.

Definition msetGenericCommand (argv : list sds) (nx : bool) : C unit :=
  if Zlen argv mod 2 =? 0 then addReply (RError ARITY)
  else
    busy ← (if nx then msetnx_loop (drop 1 argv) else mret false);
    if (busy : bool) then addReply (RLong 0)
    else
      mset_loop (drop 1 argv) nx {| SETKEY_KEEPTTL := false; SETKEY_NO_SIGNAL := false; SETKEY_ALREADY_EXIST := false; SETKEY_DOESNT_EXIST := nx; SETKEY_ADD_OR_UPDATE := false |} ;;
      add_dirty ((Zlen argv - 1) / 2) ;;
      addReply (if nx then RLong 1 else ROk).

Definition msetCommand (argv : list sds) : C unit := msetGenericCommand argv false.
Definition msetnxCommand (argv : list sds) : C unit := msetGenericCommand argv true.

(** ** Numbers *)

Definition incrDecrCommand (argv : list sds) (incr : Z) : C unit :=
  key ← arg argv 1;
  o ← lookupKeyWrite key;
  wrong ← checkType o OBJ_STRING;
  if (wrong : bool) then mret tt
  else
    v ← match o with None => mret None | Some a => v ← read_str a; mret (Some v) end;
    oldvalue ← getLongLongFromObjectOrReply v None;
    match oldvalue with
    | None => mret tt
    | Some oldvalue =>
        if (incr <? 0) && (oldvalue <? 0) && (incr <? LLONG_MIN - oldvalue) || (0 <? incr) && (0 <? oldvalue) && (LLONG_MAX - oldvalue <? incr)
        then addReply (RError INCR_OVERFLOW)
        else
          value ← lift (add_ll oldvalue incr);
          match o, v with
          | Some a, Some (IntVal _) =>
              if (value <? 0) || (OBJ_SHARED_INTEGERS <=? value) then write_obj a (VStr (IntVal value))
              else new ← lift (createStringObjectFromLongLongForValue conf value); a ← createObject (VStr new); dbReplaceValue key a
          | Some _, _ => new ← lift (createStringObjectFromLongLongForValue conf value); a ← createObject (VStr new); dbReplaceValue key a
          | None, _ => new ← lift (createStringObjectFromLongLongForValue conf value); a ← createObject (VStr new); dbAdd key a
          end ;;
          signalModifiedKey key ;;
          notifyKeyspaceEvent e_incrby key ;;
          add_dirty 1 ;;
          addReply (RLong value)
    end.

Definition incrCommand (argv : list sds) : C unit := incrDecrCommand argv 1.
Definition decrCommand (argv : list sds) : C unit := incrDecrCommand argv (-1).

Definition incrbyCommand (argv : list sds) : C unit :=
  s ← arg argv 2;
  incr ← getLongFromObjectOrReply s None;
  match incr with None => mret tt | Some incr => incrDecrCommand argv incr end.

Definition decrbyCommand (argv : list sds) : C unit :=
  s ← arg argv 2;
  incr ← getLongFromObjectOrReply s None;
  match incr with
  | None => mret tt
  | Some incr => if incr =? LLONG_MIN then addReply (RError DECR_OVERFLOW) else incrDecrCommand argv (- incr)
  end.

(** ** Lengths *)

Definition appendCommand (argv : list sds) : C unit :=
  key ← arg argv 1;
  append ← arg argv 2;
  o ← lookupKeyWrite key;
  totlen ← match o with
           | None =>
               val ← lift (tryObjectEncoding conf (createStringObject append));
               a ← createObject (VStr val);
               dbAdd key a ;;
               mret (Some (stringObjectLen val))
           | Some a =>
               wrong ← checkType o OBJ_STRING;
               if (wrong : bool) then mret None
               else
                 v ← read_str a;
                 ok ← checkStringLength (s64 (stringObjectLen v)) (Zlen append);
                 if negb ok then mret None
                 else a ← dbUnshareStringValue key a; s ← on_raw a (fun s => Some (s ++ append)); mret (Some (Zlen s))
           end;
  match totlen with
  | None => mret tt
  | Some totlen =>
      signalModifiedKey key ;;
      notifyKeyspaceEvent e_append key ;;
      add_dirty 1 ;;
      addReply (RLong (s64 totlen))
  end.

Definition strlenCommand (argv : list sds) : C unit :=
  key ← arg argv 1;
  o ← lookupKeyReadOrReply key (RLong 0);
  match o with
  | None => mret tt
  | Some a =>
      wrong ← checkType o OBJ_STRING;
      if (wrong : bool) then mret tt else v ← read_str a; addReply (RLong (s64 (stringObjectLen v)))
  end.

End StrCmd.

End StrCmd.
