(* ===== verification/StrAbs.v ===== *)
(** * The string commands on a map of strings

    What the commands of t_string.c promise, on the abstract keyspace of
    KeyspaceSpec.v: a string is its bytes, whatever the encoding, a number is
    an integer, and a range is a part of the bytes.  These commands do not
    fail; a result that does not fit is an error. *)

From stdpp Require Import gmap.
From S2P Require Import Prelude.
From S2P Require Import NumConv.
From S2P Require Import Dict.
From S2P Require Import Keyspace.
From S2P Require Import KeyspaceSpec.
From S2P Require Import KeyspaceSet.
From S2P Require Import StrType.
From S2P Require Import ListCmd.
From S2P Require Import ListAbs.
From S2P Require Import StrCmd.
Import NumConv Keyspace KsSpec KsSet StrType ListCmd ListAbs StrCmd.

Module StrAbs.

Definition bytes_of (o : option content) : sds := match o with Some (AStr s) => s | _ => [] end.

(** The bytes between two positions, where negative ones count from the end
    and the ones before the first byte are the first byte. *)
Definition position (n i : Z) : Z := if i <? 0 then Z.max 0 (n + i) else i.
Definition substring (s : sds) (start stop : Z) : sds :=
  let n := Zlen s in
  let first := position n start in
  let last := Z.min (position n stop) (n - 1) in
  if (start <? 0) && (stop <? 0) && (stop <? start) then [] else take (Z.to_nat (last - first + 1)) (drop (Z.to_nat first) s).

(** The bytes are at the position, after the old bytes and zeros. *)
Definition overwritten (s : sds) (offset : Z) (v : sds) : sds :=
  take (Z.to_nat offset) (s ++ replicate (Z.to_nat (offset - Zlen s)) 0) ++ v ++ drop (Z.to_nat (offset + Zlen v)) s.

Definition in_ll (v : Z) : bool := (LLONG_MIN <=? v) && (v <=? LLONG_MAX).

(** The new content of a key. *)
Definition write_ (o : option content) (key : sds) (s : sds) : S unit := if absent o then add_ key (AStr s) else put_ key (AStr s).

(** A new value of a key that may be there, and may have a time to expire. *)
Definition replace_ (key : sds) (v : sds) (keep : bool) : S unit :=
  store_ key (AStr v) ;; when_ (negb keep) (set_time_ key None) ;; event_ (SignalModified key).

Definition options_ (argv : list sds) (command : command_type) : S (option options) :=
  match parse_options command (drop (if is_set command then 3 else 2) argv) no_options with
  | Some o => mret (Some o)
  | None => reply_ (RError SYNTAX) ;; mret None
  end.

Section Commands.
Context (conf : strconf) (server : environment) (aof_client : bool).

(** The string of a key, with a reply when the key does not exist or has another type. *)
Definition with_str (key : sds) (missing : reply) (k : sds -> S unit) : S unit :=
  o ← lookup_or_reply server key READ missing;
  wrong ← check_ o OBJ_STRING;
  if (wrong : bool) then mret tt else if absent o then mret tt else k (bytes_of o).

(** The string of a key that may be missing, to change it. *)
Definition with_value (key : sds) (k : option content -> S unit) : S unit :=
  o ← lookup_ server key WRITE;
  wrong ← check_ o OBJ_STRING;
  if (wrong : bool) then mret tt else k o.

(** False when the key has another type. *)
Definition get_ (key : sds) : S bool :=
  o ← lookup_or_reply server key READ RNull;
  wrong ← check_ o OBJ_STRING;
  if (wrong : bool) then mret false else when_ (negb (absent o)) (reply_ (RBulk (bytes_of o))) ;; mret true.

(** A string may have this many bytes. *)
Definition fits_ (n : Z) : S bool :=
  if aof_client || client_is_master server || (n <=? proto_max_bulk_len conf) then mret true else reply_ (RError STRING_TOO_LONG) ;; mret false.

(** The time at which a key expires, in milliseconds. *)
Definition duration (unit : time_unit) (v : Z) : Z := if is_seconds unit then v * 1000 else v.
Definition expiry (flags : Z) (unit : time_unit) (v : Z) : Z :=
  duration unit v + (if has flags OBJ_PX || has flags OBJ_EX then commandTimeSnapshot server else 0).

Definition expiry_ (flags : Z) (unit : time_unit) (expire : option sds) : S (option Z) :=
  match expire with
  | None => mret (Some 0)
  | Some e =>
      v ← number_ e None;
      match v with
      | None => mret None
      | Some v => if (0 <? v) && (expiry flags unit v <=? LLONG_MAX) then mret (Some (expiry flags unit v)) else reply_ (RError EXPIRE_TIME) ;; mret None
      end
  end.

Definition expire_at_ (key : sds) (time : Z) : S unit :=
  set_time_ key (Some time) ;; when_ (masterhost server && negb (repl_slave_ro server) && negb (client_is_master server)) (event_ (RememberSlaveKey key)).

(** ** Setting *)

Definition set_ (argv : list sds) (flags : Z) (key v : sds) (expire : option sds) (tunit : time_unit) (ok_reply abort_reply : reply) : S unit :=
  when_some (expiry_ flags tunit expire) (fun time =>
    let get := has flags OBJ_SET_GET in
    let timed := match expire with Some _ => true | None => false end in
    ok ← (if get then get_ key else mret true);
    if negb ok then mret tt
    else
      o ← lookup_ server key WRITE;
      if has flags OBJ_SET_NX && negb (absent o) || has flags OBJ_SET_XX && absent o then when_ (negb get) (reply_ abort_reply)
      else
        replace_ key v (has flags OBJ_KEEPTTL || timed) ;;
        dirty_ 1 ;;
        event_ (Notify e_set key) ;;
        when_ timed
          (expire_at_ key time ;;
           when_ (negb (has flags OBJ_PXAT)) (event_ (RewriteCommand [s_SET; key; v; s_PXAT; lltoa time])) ;;
           event_ (Notify e_expire key)) ;;
        when_ (negb get) (reply_ ok_reply) ;;
        when_ (get && negb timed) (event_ (RewriteCommand (without_get 0 argv)))).

Definition set_spec (argv : list sds) : S unit :=
  when_some (options_ argv COMMAND_SET) (fun o => set_ argv (o_flags o) (nth_arg argv 1) (nth_arg argv 2) (o_expire o) (o_unit o) ROk RNull).
Definition setnx_spec (argv : list sds) : S unit := set_ argv OBJ_SET_NX (nth_arg argv 1) (nth_arg argv 2) None UNIT_SECONDS (RLong 1) (RLong 0).
Definition setex_spec (argv : list sds) : S unit := set_ argv OBJ_EX (nth_arg argv 1) (nth_arg argv 3) (Some (nth_arg argv 2)) UNIT_SECONDS ROk RNull.
Definition psetex_spec (argv : list sds) : S unit := set_ argv OBJ_PX (nth_arg argv 1) (nth_arg argv 3) (Some (nth_arg argv 2)) UNIT_MILLISECONDS ROk RNull.

(** ** Getting *)

Definition get_spec (argv : list sds) : S unit := get_ (nth_arg argv 1) ;; mret tt.

(** The key is deleted. *)
Definition delete_ (key name : sds) : S unit :=
  remove_ key ;; event_ (RewriteCommand [name; key]) ;; event_ (SignalModified key) ;; event_ (Notify e_del key) ;; dirty_ 1.

(** A time that has passed, except on a replica and while the server loads. *)
Definition passed (time : Z) : bool := (time <=? commandTimeSnapshot server) && negb (loading server) && negb (masterhost server).

Definition time_of_key (key : sds) : S (option Z) := fun a => (store a !! key ≫= snd, a).

Definition getex_spec (argv : list sds) : S unit :=
  when_some (options_ argv COMMAND_GET) (fun opts =>
    let key := nth_arg argv 1 in
    let flags := o_flags opts in
    with_str key RNull (fun s =>
      when_some (expiry_ flags (o_unit opts) (o_expire opts)) (fun time =>
        reply_ (RBulk s) ;;
        if (has flags OBJ_PXAT || has flags OBJ_EXAT) && passed time then delete_ key (if lazyfree_lazy_expire server then s_UNLINK else s_DEL)
        else
          match o_expire opts with
          | Some _ =>
              expire_at_ key time ;; event_ (RewriteCommand [s_PEXPIREAT; key; lltoa time]) ;; event_ (SignalModified key) ;; event_ (Notify e_expire key) ;; dirty_ 1
          | None =>
              t ← time_of_key key;
              when_ (has flags OBJ_PERSIST && match t with Some _ => true | None => false end)
                (set_time_ key None ;; event_ (SignalModified key) ;; event_ (RewriteCommand [s_PERSIST; key]) ;; event_ (Notify e_persist key) ;; dirty_ 1)
          end))).

Definition stored_ (key : sds) : S bool := fun a => (match store a !! key with Some _ => true | None => false end, a).

(** A key that expired and is hidden is deleted as well. *)
Definition getdel_spec (argv : list sds) : S unit :=
  let key := nth_arg argv 1 in
  ok ← get_ key;
  if negb ok then mret tt else there ← stored_ key; when_ there (delete_ key s_DEL).

Definition getset_spec (argv : list sds) : S unit :=
  let key := nth_arg argv 1 in
  ok ← get_ key;
  if negb ok then mret tt
  else
    lookup_ server key WRITE ;;
    replace_ key (nth_arg argv 2) false ;;
    event_ (Notify e_set key) ;;
    dirty_ 1 ;;
    event_ (RewriteCommand (s_SET :: drop 1 argv)).

(** ** Ranges *)

Definition setrange_spec (argv : list sds) : S unit :=
  let key := nth_arg argv 1 in
  let v := nth_arg argv 3 in
  when_some (number_ (nth_arg argv 2) None) (fun offset =>
    if offset <? 0 then reply_ (RError OFFSET_RANGE)
    else
      with_value key (fun o =>
        if Zlen v =? 0 then reply_ (RLong (Zlen (bytes_of o)))
        else
          ok ← fits_ (offset + Zlen v);
          if negb ok then mret tt
          else
            let s := overwritten (bytes_of o) offset v in
            write_ o key s ;; event_ (SignalModified key) ;; event_ (Notify e_setrange key) ;; dirty_ 1 ;; reply_ (RLong (Zlen s)))).

Definition getrange_spec (argv : list sds) : S unit :=
  when_some (number_ (nth_arg argv 2) None) (fun start =>
  when_some (number_ (nth_arg argv 3) None) (fun stop =>
  with_str (nth_arg argv 1) (RBulk []) (fun s => reply_ (RBulk (substring s start stop))))).

(** ** Many keys *)

Fixpoint mget_ (keys : list sds) : S unit :=
  match keys with
  | [] => mret tt
  | key :: keys => o ← lookup_ server key READ; reply_ (match o with Some (AStr s) => RBulk s | _ => RNull end) ;; mget_ keys
  end.

Definition mget_spec (argv : list sds) : S unit := reply_ (RArrayLen (Zlen argv - 1)) ;; mget_ (drop 1 argv).

(** Whether one of the keys is there. *)
Fixpoint some_key (args : list sds) : S bool :=
  match args with
  | key :: _ :: rest => o ← lookup_ server key WRITE; if absent o then some_key rest else mret true
  | _ => mret false
  end.

(** The keys get their values, one after another. *)
Fixpoint mset_ (args : list sds) (nx : bool) : S unit :=
  match args with
  | key :: v :: rest => (if nx then mret tt else lookup_ server key WRITE ;; mret tt) ;; replace_ key v false ;; event_ (Notify e_set key) ;; mset_ rest nx
  | _ => mret tt
  end.

Definition mset_spec (argv : list sds) (nx : bool) : S unit :=
  if Zlen argv mod 2 =? 0 then reply_ (RError ARITY)
  else
    busy ← (if nx then some_key (drop 1 argv) else mret false);
    if (busy : bool) then reply_ (RLong 0)
    else mset_ (drop 1 argv) nx ;; dirty_ ((Zlen argv - 1) / 2) ;; reply_ (if nx then RLong 1 else ROk).

(** ** Numbers *)

(** A missing key is 0; a sum that does not fit is an error. *)
Definition incr_ (argv : list sds) (incr : Z) : S unit :=
  let key := nth_arg argv 1 in
  with_value key (fun o =>
    when_some (if absent o then mret (Some 0) else number_ (bytes_of o) None) (fun v =>
      if in_ll (v + incr) then
        write_ o key (lltoa (v + incr)) ;; event_ (SignalModified key) ;; event_ (Notify e_incrby key) ;; dirty_ 1 ;; reply_ (RLong (v + incr))
      else reply_ (RError INCR_OVERFLOW))).

Definition incrby_spec (argv : list sds) : S unit := when_some (number_ (nth_arg argv 2) None) (incr_ argv).

Definition decrby_spec (argv : list sds) : S unit :=
  when_some (number_ (nth_arg argv 2) None) (fun n => if n =? LLONG_MIN then reply_ (RError DECR_OVERFLOW) else incr_ argv (- n)).

(** ** Lengths *)

Definition append_spec (argv : list sds) : S unit :=
  let key := nth_arg argv 1 in
  with_value key (fun o =>
    let s := bytes_of o ++ nth_arg argv 2 in
    ok ← (if absent o then mret true else fits_ (Zlen s));
    if negb ok then mret tt
    else write_ o key s ;; event_ (SignalModified key) ;; event_ (Notify e_append key) ;; dirty_ 1 ;; reply_ (RLong (Zlen s))).

Definition strlen_spec (argv : list sds) : S unit := with_str (nth_arg argv 1) (RLong 0) (fun s => reply_ (RLong (Zlen s))).

End Commands.

End StrAbs.
