(* ===== verification/StrStep.v ===== *)
(** * Steps of the string commands

    How the parts of a string command refine the parts of the abstract one:
    the lookup of a string, a change of the string that was found, a value for
    a key, a time to expire. *)

From stdpp Require Import gmap.
From S2P Require Import Prelude.
From S2P Require Import NumConv.
From S2P Require Import Dict.
From S2P Require Import DictSpec.
From S2P Require Import Keyspace.
From S2P Require Import KeyspaceSpec.
From S2P Require Import KeyspaceSet.
From S2P Require Import StrType.
From S2P Require Import ListCmd.
From S2P Require Import ListAbs.
From S2P Require Import ListStep.
From S2P Require Import StrCmd.
From S2P Require Import StrAbs.
Import NumConv Dict DictSpec Keyspace KsSpec KsSet StrType ListCmd ListAbs ListStep StrCmd StrAbs.

Module StrStep.

Section Step.
Context (conf : strconf) (ty : dictType sds) `{!DictLaws ty} (can : dictResizeEnable) (server : environment) (access : Z -> Z) (initial_lru : Z).
Implicit Types (w : world value) (a : astate content) (key : sds) (ad : addr).

#[local] Set Default Proof Using "Type*".
#[local] Abbreviation sim := (sim ty).
#[local] Abbreviation refines := (refines ty).
#[local] Abbreviation quiet := (quiet ty).

(** The part returns what the abstract one returns. *)
Definition yields {B} (m : C B) (s : S B) w a : Prop := runs m w (fun r w1 => r = (s a).1 /\ sim w1 (result s a)).

Lemma yields_bind {B} (m : C B) (s : S B) (k : B -> C unit) (k' : B -> S unit) w a :
  yields m s w a -> (forall w1, sim w1 (result s a) -> refines (k (s a).1) (k' (s a).1) w1 (result s a)) -> refines (mbind k m) (mbind k' s) w a.
Proof. intros Hm Hk. unfold ListStep.refines. rewrite result_bind. apply runs_bind. eapply runs_mono; [exact Hm|]. cbn beta. intros r w1 [-> Hs]. by apply Hk. Qed.

Lemma yields_ret {B} (b : B) w a : sim w a -> yields (mret b) (mret b) w a.
Proof. intros Hs. by apply runs_ret. Qed.

(** The key has the string object at [ad]. *)
Record keeping w a key ad (v : strval) (s : sds) : Prop := {
  ke_sim : sim w a;
  ke_obj : at_obj w key ad (VStr v);
  ke_str : is_str v s;
  ke_store : exists t, store a !! key = Some (AStr s, t);
}.

Lemma keeping_quiet w a w1 a1 key ad v s : quiet w a w1 a1 -> keeping w a key ad v s -> keeping w1 a1 key ad v s.
Proof. intros (Hs & Hd & Hh & Ha) [_ Hat Hv Hst]. split; [done| |done|by rewrite Ha]. unfold at_obj in *. by rewrite Hd, Hh. Qed.

(** ** The string of a key *)

Lemma check_str w a key r x w1 a1 :
  looked_up w a key r x -> quiet w a w1 a1 -> (check_ x OBJ_STRING a).1 = false ->
  match r, x with
  | Some ad, Some (AStr s) => exists v, keeping w1 a1 key ad v s
  | None, None => True
  | _, _ => False
  end.
Proof.
  intros Hr Hq Hc. destruct r as [ad|], x as [x|]; cbn [looked_up] in Hr; try done. destruct Hr as (v & t & Hat & Hv & Hst). unfold check_ in Hc. case_bool_decide as Hty; [|done].
  destruct x as [xs|s|t']; cbn in Hty; [done| |].
  - destruct v as [|o|]; cbn in Hv; try done. exists o. destruct Hq as (Hs & Hd & Hh & Ha). split; [done| |done|exists t; by rewrite Ha]. unfold at_obj in *. by rewrite Hd, Hh.
  - subst t'. destruct v as [| |t'']; cbn in Hv; try done. by destruct Hv as (-> & _ & ?).
Qed.

(** The address and the content of a key after the check of its type. *)
Definition held w a key (o : option addr) (x : option content) : Prop :=
  match o, x with
  | Some ad, Some (AStr s) => exists v, keeping w a key ad v s
  | None, None => True
  | _, _ => False
  end.

Lemma or_reply_lookup key missing w Q :
  runs (o ← lookupKey ty can server access key READ; when (match o with None => true | Some _ => false end) (addReply missing) ;; mret o) w Q -> runs (lookupKeyReadOrReply ty can server access key missing) w Q.
Proof using Type. exact id. Qed.

Lemma write_lookup key w Q : runs (lookupKey ty can server access key WRITE) w Q -> runs (lookupKeyWrite ty can server access key) w Q.
Proof using Type. exact id. Qed.

Lemma read_lookup key w Q : runs (lookupKey ty can server access key READ) w Q -> runs (lookupKeyRead ty can server access key) w Q.
Proof using Type. exact id. Qed.

Lemma with_str_refines key missing (body : addr -> C unit) (k : sds -> S unit) w a :
  sim w a -> (forall w1 a1 ad v s, store a1 ⊆ store a -> keeping w1 a1 key ad v s -> refines (body ad) (k s) w1 a1) ->
  refines (o ← lookupKeyReadOrReply ty can server access key missing; match o with None => mret tt | Some ad => wrong ← checkType o OBJ_STRING; if (wrong : bool) then mret tt else body ad end)
    (with_str server key missing k) w a.
Proof.
  intros Hs Hk. apply runs_bind, or_reply_lookup, (or_reply_runs ty can server access w a key READ missing); [done|]. intros r w1 m' Hs1 Hr _. pose proof (or_reply_sub server key READ missing a) as Hsub. fold m' in Hsub.
  unfold with_str. fold m'. rewrite result_bind. set (x := (m' a).1) in *. set (a1 := result m' a) in *. rewrite result_bind. destruct r as [ad|].
  - apply runs_bind, (check_mirror ty w1 a1 key (Some ad) x); [done..|]. intros w2 Hq. destruct (check_ x OBJ_STRING a1).1 eqn:E; [apply runs_ret; apply Hq|].
    pose proof (check_str w1 a1 key (Some ad) x _ _ Hr Hq E) as Hc. destruct x as [[|s|]|]; try done. destruct Hc as (v & Hh). apply (Hk w2 _ ad v); [|done]. by rewrite (proj2 (proj2 (proj2 Hq))).
  - destruct x as [x|]; [done|]. by apply runs_ret.
Qed.

Lemma with_value_refines key (body : option addr -> C unit) (k : option content -> S unit) w a :
  may_write server -> sim w a ->
  (forall w1 a1 o x, store a1 ⊆ store a -> sim w1 a1 -> held w1 a1 key o x -> (x = None -> store a1 !! key = None) -> refines (body o) (k x) w1 a1) ->
  refines (o ← lookupKeyWrite ty can server access key; wrong ← checkType o OBJ_STRING; if (wrong : bool) then mret tt else body o) (with_value server key k) w a.
Proof.
  intros Hw Hs Hk. unfold ListStep.refines, with_value. rewrite result_bind. apply runs_bind, write_lookup, (lookupKey_runs ty can server access w a key WRITE); [done|]. intros r w1 Hs1 Hr _.
  pose proof (lookup_sub server key WRITE a) as Hsub. pose proof (write_none server key WRITE a Hw eq_refl eq_refl) as Hnone. set (x := (lookup_ server key WRITE a).1) in *. set (a1 := result (lookup_ server key WRITE) a) in *.
  rewrite result_bind. apply runs_bind, (check_mirror ty w1 a1 key r x); [done..|]. intros w2 Hq. destruct (check_ x OBJ_STRING a1).1 eqn:E; [apply runs_ret; apply Hq|].
  pose proof (check_str w1 a1 key r x _ _ Hr Hq E) as Hc. apply Hk; [by rewrite (proj2 (proj2 (proj2 Hq)))|apply Hq|done|]. by rewrite (proj2 (proj2 (proj2 Hq))).
Qed.

Lemma read_str_runs w a key ad v s Q : keeping w a key ad v s -> Q v w -> runs (read_str ad) w Q.
Proof. intros [_ [_ (ob & Hob & Hp)] _ _] HQ. apply runs_bind, (runs_read _ ob); [done|]. rewrite Hp. by apply runs_ret. Qed.

Lemma refines_read (k : strval -> C unit) (s' : S unit) w a key ad v s : keeping w a key ad v s -> refines (k v) s' w a -> refines (mbind k (read_str ad)) s' w a.
Proof. intros Hh Hk. by apply runs_bind, (read_str_runs _ _ _ _ _ _ _ Hh). Qed.

Lemma refines_lift {B} (o : option B) (b : B) (k : B -> C unit) (s : S unit) w a : o = Some b -> refines (k b) s w a -> refines (mbind k (lift o)) s w a.
Proof. intros Ho Hk. by apply runs_bind, (runs_lift b). Qed.

Lemma bulk_refines w a key ad v s : keeping w a key ad v s -> refines (addReplyBulk ad) (reply_ (RBulk s)) w a.
Proof.
  intros Hh. apply (refines_read _ _ _ _ _ _ _ _ Hh), (refines_lift _ s); [exact (getDecodedObject_spec v s (ke_str _ _ _ _ _ _ Hh))|]. exact (refines_mirrors ty _ _ w a (mirrors_reply ty _) (ke_sim _ _ _ _ _ _ Hh)).
Qed.

(** The reply of the bytes, before the rest. *)
Lemma refines_bulk (k : C unit) (k' : S unit) w a key ad v s :
  keeping w a key ad v s -> (forall w1, keeping w1 (result (reply_ (RBulk s)) a) key ad v s -> refines k k' w1 (result (reply_ (RBulk s)) a)) -> refines (addReplyBulk ad ;; k) (reply_ (RBulk s) ;; k') w a.
Proof.
  intros Hh Hk. unfold ListStep.refines. rewrite result_bind. apply runs_bind. unfold addReplyBulk. apply runs_bind, (read_str_runs _ _ _ _ _ _ _ Hh). apply runs_bind, (runs_lift s); [exact (getDecodedObject_spec v s (ke_str _ _ _ _ _ _ Hh))|].
  apply (mirrors_runs ty _ _ _ _ _ (mirrors_reply ty (RBulk s)) (ke_sim _ _ _ _ _ _ Hh)). intros w1 Hq. apply Hk. by apply (keeping_quiet _ _ _ _ _ _ _ _ Hq).
Qed.

(** ** Reading and limits *)

Lemma get_yields argv w a : (2 <= length argv)%nat -> sim w a -> yields (getGenericCommand ty can server access argv) (get_ server (nth_arg argv 1)) w a.
Proof.
  intros Hl Hs. unfold yields, getGenericCommand. destruct (lookup_lt_is_Some_2 argv 1 ltac:(lia)) as [key Ek]. unfold arg, nth_arg. rewrite Ek. cbn [default from_option id]. apply runs_bind, (runs_lift key); [done|].
  apply runs_bind, or_reply_lookup, (or_reply_runs ty can server access w a key READ RNull); [done|]. intros r w1 m' Hs1 Hr _. unfold get_. fold m'. rewrite value_bind, result_bind. set (x := (m' a).1) in *. set (a1 := result m' a) in *. rewrite value_bind, result_bind. destruct r as [ad|].
  - apply runs_bind, (check_mirror ty w1 a1 key (Some ad) x); [done..|]. intros w2 Hq. destruct (check_ x OBJ_STRING a1).1 eqn:E; [apply runs_ret; split; [done|apply Hq]|].
    pose proof (check_str w1 a1 key (Some ad) x _ _ Hr Hq E) as Hc. destruct x as [[|s|]|]; try done. destruct Hc as (v & Hh). apply runs_bind. eapply runs_mono; [exact (bulk_refines _ _ _ _ _ _ Hh)|]. cbn beta. intros _ w3 Hs3. by apply runs_ret.
  - destruct x as [x|]; [done|]. by apply runs_ret.
Qed.

Lemma mirrors_fits aof_client size append : 0 <= size <= LLONG_MAX -> 0 <= append <= LLONG_MAX -> proto_max_bulk_len conf <= LLONG_MAX ->
  mirrors ty (checkStringLength conf server aof_client size append) (fits_ conf server aof_client (size + append)).
Proof.
  intros Hs Ha Hc. unfold checkStringLength, fits_, mustObeyClient. destruct (aof_client || client_is_master server); cbn [orb]; [apply (mirrors_ret ty)|]. cbn zeta. rewrite (uwrap_small 64 size) by lia.
  assert (Ht : (proto_max_bulk_len conf <? s64 (size + append)) || (s64 (size + append) <? size) || (s64 (size + append) <? append) = negb (size + append <=? proto_max_bulk_len conf)).
  { destruct (Z.leb_spec (size + append) LLONG_MAX) as [Hf|Hf].
    - rewrite (swrap_small 64 (size + append)) by lia. destruct (Z.ltb_spec (proto_max_bulk_len conf) (size + append)), (Z.ltb_spec (size + append) size), (Z.ltb_spec (size + append) append), (Z.leb_spec (size + append) (proto_max_bulk_len conf)); cbn; lia || done.
    - assert (Hn : s64 (size + append) < size) by (unfold swrap; rewrite (Z.mod_eq _ (2 ^ 64)) by lia; assert ((size + append + 2 ^ (64 - 1)) / 2 ^ 64 = 1) as -> by (symmetry; apply Z.div_unique with (size + append + 2 ^ (64 - 1) - 2 ^ 64); lia); lia).
      destruct (Z.ltb_spec (s64 (size + append)) size); [|lia]. rewrite orb_true_r. cbn [orb]. destruct (Z.leb_spec (size + append) (proto_max_bulk_len conf)); [lia|done]. }
  rewrite Ht. destruct (_ <=? _); cbn [negb]; eauto with mirrors.
Qed.

Lemma mirrors_value {B D} (b : B) (k : B -> C D) (k' : B -> S D) : mirrors ty (k b) (k' b) -> mirrors ty (mret b ≫= k) (mret b ≫= k').
Proof using Type. exact id. Qed.

Lemma mirrors_lift {B D} (o : option B) (b : B) (k : B -> C D) (s : S D) : o = Some b -> mirrors ty (k b) s -> mirrors ty (mbind k (lift o)) s.
Proof. intros -> Hm. exact Hm. Qed.

Lemma mirrors_mret {B D} (b : B) (k : B -> C D) (s : S D) : mirrors ty (k b) s -> mirrors ty (mbind k (mret b)) s.
Proof using Type. exact id. Qed.

(** A relative time that fits with the clock; the clock is not negative. *)
Definition time_fits (flags : Z) (tunit : time_unit) (e : sds) : Prop :=
  0 <= commandTimeSnapshot server /\ match string2ll e with Some v => v <= 0 \/ LLONG_MAX < duration tunit v \/ expiry server flags tunit v <= LLONG_MAX | None => True end.

Lemma duration_overflow tunit v : (v <=? 0) || is_seconds tunit && (LLONG_MAX / 1000 <? v) = (v <=? 0) || is_seconds tunit && (LLONG_MAX <? duration tunit v).
Proof.
  f_equal. destruct tunit; cbn [is_seconds andb duration]; [|done]. unfold duration. cbn [is_seconds].
  destruct (Z.ltb_spec (LLONG_MAX / 1000) v), (Z.ltb_spec LLONG_MAX (v * 1000)); try done; change (LLONG_MAX / 1000) with 9223372036854775 in *; lia.
Qed.

Lemma mirrors_expiry flags tunit expire : (forall e, expire = Some e -> time_fits flags tunit e) ->
  mirrors ty (match expire with None => mret (Some 0) | Some e => getExpireMillisecondsOrReply server e flags tunit end) (expiry_ server flags tunit expire).
Proof.
  intros Hf. destruct expire as [e|]; [|apply (mirrors_ret ty)]. specialize (Hf e eq_refl) as [Hnow Hf]. cbn [expiry_]. unfold getExpireMillisecondsOrReply, getLongFromObjectOrReply, number_, Keyspace.getLongLongFromObject.
  destruct (string2ll e) as [v|] eqn:Ev; [|intros w a Hs; destruct (mirrors_reply ty (RError (default NOTINT None)) w a Hs) as (w1 & Hw & Hq); exists w1; split; [|exact Hq]; unfold mbind, K_bind; by rewrite Hw].
  apply string2ll_sound in Ev as [Hv _]. apply mirrors_value. cbn zeta. rewrite duration_overflow. fold (duration tunit v). destruct (Z.leb_spec v 0); cbn [orb].
  { destruct (Z.ltb_spec 0 v); [lia|]. cbn [andb]. eauto with mirrors. }
  destruct (Z.ltb_spec 0 v); [|lia]. cbn [andb]. assert (Hd : 0 < duration tunit v) by (unfold duration; destruct (is_seconds tunit); lia).
  destruct (Z.ltb_spec LLONG_MAX (duration tunit v)) as [Ho|Ho]; cbn [andb].
  - unfold expiry at 1. destruct tunit; [|unfold duration in Ho; cbn in Ho; lia]. cbn [is_seconds]. destruct (Z.leb_spec (duration UNIT_SECONDS v + (if has flags OBJ_PX || has flags OBJ_EX then commandTimeSnapshot server else 0)) LLONG_MAX); [destruct (_ || _); lia|]. cbn [andb]. eauto with mirrors.
  - rewrite andb_false_r. destruct Hf as [?|[?|Hf]]; [lia|lia|]. destruct (Z.leb_spec (expiry server flags tunit v) LLONG_MAX); [|lia]. unfold expiry in *. destruct (has flags OBJ_PX || has flags OBJ_EX).
    + unfold add_ll. destruct (Z.leb_spec LLONG_MIN (duration tunit v + commandTimeSnapshot server)), (Z.leb_spec (duration tunit v + commandTimeSnapshot server) LLONG_MAX); try lia. cbn [andb].
      apply (mirrors_lift _ (duration tunit v + commandTimeSnapshot server)); [done|]. destruct (Z.leb_spec (duration tunit v + commandTimeSnapshot server) 0); [lia|]. apply (mirrors_ret ty).
    + rewrite Z.add_0_r. apply mirrors_mret. destruct (Z.leb_spec (duration tunit v) 0); [lia|]. apply (mirrors_ret ty).
Qed.

(** ** Changes *)

(** A value for a key that was looked up. *)
Lemma setKey_refines key v s keep (found : bool) w a :
  sim w a -> Z.of_nat (size (store a)) < 2 ^ 60 -> is_str v s -> may_write server -> (if found then is_Some (store a !! key) else store a !! key = None) ->
  refines (setKey ty can server access initial_lru key (VStr v) {| SETKEY_KEEPTTL := keep; SETKEY_NO_SIGNAL := false; SETKEY_ALREADY_EXIST := found; SETKEY_DOESNT_EXIST := negb found; SETKEY_ADD_OR_UPDATE := false |})
    (replace_ key s keep) w a.
Proof. intros Hs Hsz Hv Hw Hst. apply (setKey_runs ty can initial_lru server access w a key (VStr v) (AStr s)); [done..| | |]; destruct found; done. Qed.

(** A value for a key, whether it is there or not. *)
Lemma addOrUpdate_refines key v s w a :
  sim w a -> Z.of_nat (size (store a)) < 2 ^ 60 -> is_str v s -> may_write server ->
  refines (setKey ty can server access initial_lru key (VStr v) {| SETKEY_KEEPTTL := false; SETKEY_NO_SIGNAL := false; SETKEY_ALREADY_EXIST := false; SETKEY_DOESNT_EXIST := false; SETKEY_ADD_OR_UPDATE := true |})
    (replace_ key s false) w a.
Proof. intros Hs Hsz Hv Hw. by apply (setKey_runs ty can initial_lru server access w a key (VStr v) (AStr s)). Qed.

(** A value for a key that is looked up first. *)
Lemma lookup_setKey_refines key v s w a :
  sim w a -> Z.of_nat (size (store a)) < 2 ^ 60 -> is_str v s -> may_write server ->
  refines (setKey ty can server access initial_lru key (VStr v) SETKEY_NONE) ((lookup_ server key WRITE ;; mret tt) ;; replace_ key s false) w a.
Proof. intros Hs Hsz Hv Hw. by apply (setKey_runs ty can initial_lru server access w a key (VStr v) (AStr s)). Qed.

Lemma setExpire_refines key time x t w a :
  sim w a -> store a !! key = Some (x, t) -> Z.of_nat (size (store a)) < 2 ^ 60 -> refines (setExpire ty can server true key time) (expire_at_ server key time) w a.
Proof. intros Hs Hst Hsz. by apply (setExpire_runs ty can server true w a key x t time). Qed.

(** A new object for a key. *)
Lemma new_value_runs {B} (k : addr -> C B) key v s w a Q :
  sim w a -> store a !! key = None -> Z.of_nat (size (store a)) < 2 ^ 60 -> is_str v s ->
  (forall w1 ad, keeping w1 (result (add_ key (AStr s)) a) key ad v s -> runs (k ad) w1 Q) -> runs (ad ← createObject (VStr v); dbAdd ty can initial_lru key ad ;; k ad) w Q.
Proof.
  intros Hs Hn Hsz Hv Hk. apply runs_bind. eexists _, _. split; [done|]. apply runs_bind, (dbAdd_runs ty can initial_lru w a key (VStr v) (AStr s)); [done..|].
  intros w1 Hs1 Ho _. apply (Hk w1 (fresh (dom (heap w)))). split; [done..|]. exists None. rewrite add_eq. apply lookup_insert_eq.
Qed.

Lemma put_stored key x y t a : store a !! key = Some (x, t) -> store (result (put_ key y) a) !! key = Some (y, t).
Proof. intros Hst. unfold result. cbn. by rewrite lookup_alter_eq, Hst. Qed.

Lemma replace_value_runs {B} (k : addr -> C B) key ad0 v0 s0 v s w a Q :
  keeping w a key ad0 v0 s0 -> is_str v s -> (forall w1 ad, keeping w1 (result (put_ key (AStr s)) a) key ad v s -> runs (k ad) w1 Q) ->
  runs (ad ← createObject (VStr v); dbReplaceValue ty can key ad ;; k ad) w Q.
Proof.
  intros [Hs _ _ (t & Hst)] Hv Hk. apply runs_bind. eexists _, _. split; [done|].
  apply runs_bind, (dbSetValue_runs ty can w a key _ (VStr v) (AStr s0) t (AStr s) false None); [done|apply not_elem_of_dom, is_fresh|done..|]. intros w1 Hs1 Ho _. apply (Hk w1 (fresh (dom (heap w)))). split; [done..|].
  exists t. by eapply put_stored.
Qed.

(** The object is not shared or encoded after this. *)
Lemma unshare_runs key ad v s w a Q :
  keeping w a key ad v s -> (forall w1 ad', keeping w1 a key ad' (Raw s) s -> Q ad' w1) -> runs (dbUnshareStringValue ty can key ad) w Q.
Proof.
  intros Hh HQ. pose proof (ke_str _ _ _ _ _ _ Hh) as Hv. destruct (ke_store _ _ _ _ _ _ Hh) as (t & Hst). apply runs_bind, (read_str_runs _ _ _ _ _ _ _ Hh).
  assert (Hnew : runs (s0 ← lift (getDecodedObject v); a0 ← createObject (VStr (createRawStringObject s0)); dbReplaceValue ty can key a0 ;; mret a0) w Q).
  { apply runs_bind, (runs_lift s); [by apply getDecodedObject_spec|]. apply (replace_value_runs _ key ad v s (Raw s) s w a Q Hh eq_refl). intros w1 ad' Hh1. rewrite (put_same a key (AStr s) t Hst) in Hh1. by apply runs_ret, HQ. }
  destruct v as [s0|s0|n|n]; try exact Hnew. cbn in Hv. subst s0. by apply runs_ret, HQ.
Qed.

Lemma on_raw_runs (f : sds -> option sds) key ad s s' w a Q :
  keeping w a key ad (Raw s) s -> f s = Some s' -> (forall w1, keeping w1 (result (put_ key (AStr s')) a) key ad (Raw s') s' -> Q s' w1) -> runs (on_raw ad f) w Q.
Proof.
  intros Hh Hf HQ. apply runs_bind, (read_str_runs _ _ _ _ _ _ _ Hh). apply runs_bind, (runs_lift s'); [done|]. destruct Hh as [Hs Hat _ (t & Hst)].
  apply runs_bind, (write_runs ty w a key ad (VStr (Raw s)) (AStr s) t (VStr (Raw s')) (AStr s')); [done..|]. intros w1 Hs1 Ho _. apply runs_ret, HQ. split; [done..|]. exists t. by eapply put_stored.
Qed.

(** The content of a new key is changed at once. *)
Lemma add_put key s s' a : result (put_ key (AStr s')) (result (add_ key (AStr s)) a) = result (add_ key (AStr s')) a.
Proof. rewrite !add_eq. unfold result, put_, on_store. cbn [store alog snd]. f_equal. apply map_eq. intros k. destruct (decide (k = key)) as [->|]; [by rewrite lookup_alter_eq, !lookup_insert_eq|by rewrite lookup_alter_ne, !lookup_insert_ne by done]. Qed.

End Step.

(** The goal is a refinement again. *)
Ltac fold_refines := lazymatch goal with |- runs ?m ?w (fun _ w' => KsSpec.sim ?ty w' (result ?s ?a)) => change (ListStep.refines ty m s w a) end.

End StrStep.
