(* ===== verification/StrCmdSpec.v ===== *)
(** * The string commands refine the map of strings

    Each command of StrCmd.v, on a database that stands for an abstract state,
    does not fail and does what the command of StrAbs.v does. *)

From stdpp Require Import gmap.
From S2P Require Import Prelude.
From S2P Require Import NumConv.
From S2P Require Import Dict.
From S2P Require Import DictSpec.
From S2P Require Import Keyspace.
From S2P Require Import KeyspaceSpec.
From S2P Require Import KeyspaceSet.
From S2P Require Import StrType.
From S2P Require Import ListCmd.
From S2P Require Import ListAbs.
From S2P Require Import ListStep.
From S2P Require Import ListCmdSpec.
From S2P Require Import StrCmd.
From S2P Require Import StrAbs.
From S2P Require Import StrStep.
Import NumConv Dict DictSpec Keyspace KsSpec KsSet StrType ListCmd ListAbs ListStep ListCmdSpec StrCmd StrAbs StrStep.

Module StrCmdSpec.

(** ** Ranges of bytes *)

(** The arithmetic of [getrange] stays in the range of its types. *)
Lemma getrange_spec_ok s start stop : Zlen s < STRING_BYTES -> LLONG_MIN <= start <= LLONG_MAX -> LLONG_MIN <= stop <= LLONG_MAX -> getrange s start stop = Some (substring s start stop).
Proof.
  unfold STRING_BYTES. intros Hn Hs Ht. unfold getrange, substring, position. cbn zeta. destruct ((start <? 0) && (stop <? 0) && (stop <? start)); [done|].
  assert (Hpos : forall i, LLONG_MIN <= i <= LLONG_MAX -> (let i := if i <? 0 then s64 (u64 (Zlen s + u64 i)) else i in if i <? 0 then 0 else i) = position (Zlen s) i).
  { intros i Hi. unfold position. cbn zeta. rewrite uwrap_add_r, swrap_uwrap by lia. destruct (Z.ltb_spec i 0); [rewrite swrap_small by lia; destruct (Z.ltb_spec (Zlen s + i) 0); lia|]. destruct (Z.ltb_spec i 0); lia. }
  cbn zeta in Hpos. rewrite !Hpos by done. fold (position (Zlen s) start). fold (position (Zlen s) stop). clear Hpos.
  assert (Hp : forall i, LLONG_MIN <= i <= LLONG_MAX -> 0 <= position (Zlen s) i <= LLONG_MAX) by (intros i Hi; unfold position; destruct (Z.ltb_spec i 0); lia).
  pose proof (Hp start Hs). pose proof (Hp stop Ht). clear Hp. set (i := position (Zlen s) start) in *. set (j := position (Zlen s) stop) in *.
  assert (Hj : (if Zlen s <=? u64 j then s64 (u64 (Zlen s - 1)) else j) = Z.min j (Zlen s - 1)) by (rewrite (uwrap_small 64 j), swrap_uwrap, swrap_small by lia; destruct (Z.leb_spec (Zlen s) j); lia).
  rewrite Hj. clear Hj. set (l := Z.min j (Zlen s - 1)). destruct (Z.ltb_spec l i); cbn [orb]; [by replace (Z.to_nat (l - i + 1)) with 0%nat by lia|].
  destruct (Z.eqb_spec (Zlen s) 0) as [E|]; [by destruct s; [rewrite drop_nil, take_nil|]|]. unfold rd. destruct (Z.leb_spec 0 i), (Z.leb_spec 0 (l - i + 1)), (Z.leb_spec (i + (l - i + 1)) (Zlen s)); try lia. done.
Qed.

(** The bytes that SETRANGE writes. *)
Lemma setrange_bytes s offset v : 0 <= offset -> wr (sdsgrowzero s (offset + Zlen v)) offset v = Some (overwritten s offset v).
Proof.
  intros Ho. unfold wr, sdsgrowzero, overwritten. destruct (Z.leb_spec 0 offset); [cbn [andb]|lia]. destruct (Z.leb_spec (offset + Zlen v) (Zlen s)) as [Hle|Hgt].
  - destruct (Z.leb_spec (offset + Zlen v) (Zlen s)); [|lia]. replace (Z.to_nat (offset - Zlen s)) with 0%nat by lia. rewrite app_nil_r. by replace (Z.to_nat offset + length v)%nat with (Z.to_nat (offset + Zlen v)) by lia.
  - rewrite length_app, length_replicate. destruct (Z.leb_spec (offset + Zlen v) (Z.of_nat (length s + Z.to_nat (offset + Zlen v - Zlen s)))); [|lia]. do 2 f_equal; [|f_equal; rewrite (drop_ge s) by lia; apply drop_ge; rewrite length_app, length_replicate; lia].
    replace (Z.to_nat (offset + Zlen v - Zlen s)) with (Z.to_nat (offset - Zlen s) + Z.to_nat (offset + Zlen v - Zlen s - Z.max 0 (offset - Zlen s)))%nat by lia.
    rewrite replicate_add, app_assoc, take_app_le; [done|]. rewrite length_app, length_replicate. lia.
Qed.

Lemma overwritten_length s offset v : 0 <= offset -> Zlen (overwritten s offset v) = Z.max (Zlen s) (offset + Zlen v).
Proof. intros Ho. unfold overwritten. rewrite !length_app, length_take, length_drop, length_app, length_replicate. lia. Qed.

(** ** Options *)

Lemma has_lor f g h : has (Z.lor f g) h = has f h || has g h.
Proof.
  unfold has. rewrite Z.land_lor_distr_l. destruct (Z.eqb_spec (Z.lor (Z.land f h) (Z.land g h)) 0) as [E|E]; [apply Z.lor_eq_0_iff in E as [-> ->]; done|].
  destruct (Z.eqb_spec (Z.land f h) 0) as [E1|], (Z.eqb_spec (Z.land g h) 0) as [E2|]; cbn; try done. by rewrite E1, E2 in E.
Qed.

(** GET is a flag when it is one of the arguments. *)
Lemma parse_get args : forall o o', parse_options COMMAND_SET args o = Some o' -> has (o_flags o') OBJ_SET_GET = true -> has (o_flags o) OBJ_SET_GET = true \/ Exists (fun s => strcasecmp0 s s_get = true) args.
Proof.
  assert (Hgo : forall n args o o', (length args <= n)%nat -> parse_options COMMAND_SET args o = Some o' -> has (o_flags o') OBJ_SET_GET = true -> has (o_flags o) OBJ_SET_GET = true \/ Exists (fun s => strcasecmp0 s s_get = true) args).
  2: { intros o o'. by apply (Hgo (length args)). }
  clear args. induction n as [|n IH]; intros [|opt args] o o' Hn; cbn [length] in Hn; try lia; try (cbn; intros [= ->]; by left).
  intros Hp Hg. cbn [parse_options] in Hp. cbn zeta in Hp.
  assert (Hnext : forall rest f u e, (length rest <= n)%nat -> suffix rest args -> f <> OBJ_SET_GET \/ strcasecmp0 opt s_get = true -> has f OBJ_SET_GET = false \/ f = OBJ_SET_GET ->
    parse_options COMMAND_SET rest {| o_flags := Z.lor (o_flags o) f; o_unit := u; o_expire := e |} = Some o' -> has (o_flags o) OBJ_SET_GET = true \/ Exists (fun s => strcasecmp0 s s_get = true) (opt :: args)).
  { intros rest f u e Hr [l ->] Hf Hff Hp'. apply IH in Hp' as [Hg'|Hg']; [|right; apply Exists_cons_tl, Exists_app; by right|done|done]. cbn [o_flags] in Hg'. rewrite has_lor in Hg'. apply orb_true_iff in Hg' as [Hg'|Hg']; [by left|].
    destruct Hff as [Hff|Hff]; [congruence|]. destruct Hf as [?|Hf]; [done|]. right. by apply Exists_cons_hd. }
  assert (Hhere : forall f, f <> OBJ_SET_GET \/ strcasecmp0 opt s_get = true -> has f OBJ_SET_GET = false \/ f = OBJ_SET_GET -> parse_options COMMAND_SET args {| o_flags := Z.lor (o_flags o) f; o_unit := o_unit o; o_expire := o_expire o |} = Some o' ->
    has (o_flags o) OBJ_SET_GET = true \/ Exists (fun s => strcasecmp0 s s_get = true) (opt :: args)) by (intros f; apply Hnext; [lia|exists []; reflexivity]).
  destruct (_ && _ && _) in Hp; [revert Hp; apply (Hhere OBJ_SET_NX); left; [discriminate|reflexivity]|].
  destruct (_ && _ && _) in Hp; [revert Hp; apply (Hhere OBJ_SET_XX); left; [discriminate|reflexivity]|].
  destruct (strcasecmp0 opt s_get) eqn:Eg; cbn [andb is_set] in Hp; [revert Hp; apply (Hhere OBJ_SET_GET); right; reflexivity|].
  destruct (_ && _ && _ && _ && _ && _ && _) in Hp; [revert Hp; apply (Hhere OBJ_KEEPTTL); left; [discriminate|reflexivity]|].
  destruct (_ && _ && _ && _ && _ && _ && _) in Hp; [revert Hp; apply (Hhere OBJ_PERSIST); left; [discriminate|reflexivity]|].
  clear Hhere. destruct args as [|next args]; [discriminate|]. cbn [length] in Hn.
  assert (Hthere : forall f u e, f <> OBJ_SET_GET -> has f OBJ_SET_GET = false -> parse_options COMMAND_SET args {| o_flags := Z.lor (o_flags o) f; o_unit := u; o_expire := e |} = Some o' ->
    has (o_flags o) OBJ_SET_GET = true \/ Exists (fun s => strcasecmp0 s s_get = true) (opt :: next :: args)) by (intros f u e Hf1 Hf2; apply Hnext; [lia|exists [next]; reflexivity|by left|by left]).
  destruct (_ && _ && _ && _ && _) in Hp; [revert Hp; apply (Hthere OBJ_EX); [discriminate|reflexivity]|].
  destruct (_ && _ && _ && _ && _) in Hp; [revert Hp; apply (Hthere OBJ_PX); [discriminate|reflexivity]|].
  destruct (_ && _ && _ && _ && _) in Hp; [revert Hp; apply (Hthere OBJ_EXAT); [discriminate|reflexivity]|].
  destruct (_ && _ && _ && _ && _) in Hp; [revert Hp; apply (Hthere OBJ_PXAT); [discriminate|reflexivity]|]. discriminate.
Qed.

Lemma without_get_length argv : forall j, (length (without_get j argv) <= length argv)%nat.
Proof. induction argv as [|s argv IH]; intros j; cbn [without_get length]; [done|]. specialize (IH (Datatypes.S j)). destruct (_ && _); cbn [length]; lia. Qed.

Lemma without_get_fewer argv : forall j, Exists (fun s => strcasecmp0 s s_get = true) (drop (3 - j) argv) -> (length (without_get j argv) < length argv)%nat.
Proof.
  induction argv as [|s argv IH]; intros j He; [rewrite drop_nil in He; by apply Exists_nil in He|]. cbn [without_get length]. pose proof (without_get_length argv (Datatypes.S j)) as Hl. destruct (Z.leb_spec 3 (Z.of_nat j)); cbn [andb].
  - destruct (strcasecmp0 s s_get) eqn:E; [lia|]. replace (3 - j)%nat with 0%nat in He by lia. cbn [drop length] in *. apply Exists_cons in He as [He|He]; [congruence|]. specialize (IH (Datatypes.S j)). replace (3 - Datatypes.S j)%nat with 0%nat in IH by lia. specialize (IH He). lia.
  - replace (3 - j)%nat with (Datatypes.S (3 - Datatypes.S j))%nat in He by lia. cbn [drop] in He. specialize (IH _ He). cbn [length]. lia.
Qed.

Section StrCmdSpec.
Context (conf : strconf) (ty : dictType sds) `{!DictLaws ty} (can : dictResizeEnable) (server : environment) (access : Z -> Z) (initial_lru : Z) (aof_client : bool).
Implicit Types (w : world value) (a : astate content) (key : sds) (ad : addr).

#[local] Set Default Proof Using "Type*".
#[local] Abbreviation sim := (sim ty).
#[local] Abbreviation refines := (refines ty).
#[local] Abbreviation keeping := (keeping ty).

Lemma keeping_short w a key ad v s : keeping w a key ad v s -> small a -> Zlen s < STRING_BYTES.
Proof. intros [_ _ _ (t & Hst)] [_ Hb]. apply (Hb key (AStr s) t Hst). Qed.

(** ** Reading *)

Lemma get_refines argv w a : (2 <= length argv)%nat -> sim w a -> refines (getCommand ty can server access argv) (get_spec server argv) w a.
Proof. intros Hl Hs. apply (yields_bind ty); [by apply get_yields|]. intros w1 Hs1. by apply runs_ret. Qed.

Lemma strlen_refines argv w a : (2 <= length argv)%nat -> small a -> sim w a -> refines (strlenCommand ty can server access argv) (strlen_spec server argv) w a.
Proof.
  intros Hl Hsm Hs. apply (arg_refines ty); [lia|]. apply (with_str_refines ty); [done..|]. intros w1 a1 ad v s Hsub Hh. apply (refines_read ty _ _ _ _ _ _ _ _ Hh).
  pose proof (keeping_short _ _ _ _ _ _ Hh (sub_small _ _ Hsub Hsm)) as Hn. unfold STRING_BYTES in Hn. rewrite (stringObjectLen_spec v s (ke_str _ _ _ _ _ _ _ Hh)), swrap_small by lia. log_done Hh.
Qed.

Lemma getrange_refines argv w a : (4 <= length argv)%nat -> small a -> sim w a -> refines (getrangeCommand ty can server access argv) (getrange_spec server argv) w a.
Proof.
  intros Hl Hsm Hs. do 3 (apply (arg_refines ty); [lia|]). apply (refines_some ty); [eauto with mirrors|done|]. intros start w1 Hst Hq1. apply (refines_some ty); [eauto with mirrors|apply Hq1|]. intros stop w2 Hsp Hq2.
  destruct (quiet_trans ty _ _ _ _ _ _ Hq1 Hq2) as (Hs2 & _ & _ & Hst2). apply (with_str_refines ty); [done|]. intros w3 a3 ad v s Hsub Hh. rewrite Hst2 in Hsub. apply (refines_read ty _ _ _ _ _ _ _ _ Hh).
  apply (refines_lift ty _ s); [by apply getDecodedObject_spec, (ke_str _ _ _ _ _ _ _ Hh)|]. apply (refines_lift ty _ (substring s start stop)).
  - apply getrange_spec_ok; [by apply (keeping_short _ _ _ _ _ _ Hh), (sub_small _ _ Hsub)|by eapply number_value|by eapply number_value].
  - log_done Hh.
Qed.

Lemma mget_loop_refines keys : forall w a, sim w a -> refines (mget_loop ty can server access keys) (mget_ server keys) w a.
Proof.
  induction keys as [|key keys IH]; intros w a Hs; [by apply runs_ret|]. cbn [mget_loop mget_]. unfold ListStep.refines. rewrite result_bind. apply runs_bind, read_lookup, (lookupKey_runs ty can server access w a key READ); [done|].
  intros r w1 Hs1 Hr _. set (x := (lookup_ server key READ a).1) in *. set (a1 := result (lookup_ server key READ) a) in *. apply (refines_seq ty); [|intros w2 Hs2; by apply IH].
  destruct r as [ad|], x as [x|]; try done; [|log_done Hs1]. destruct Hr as (v & t & Hat & Hv & Hst). destruct Hat as [Hd (ob & Hob & Hp)].
  apply runs_bind, (runs_read _ ob); [done|]. rewrite Hp, (val_type v x Hv). case_bool_decide as Hty.
  - destruct x as [xs|s|t']; [|done|]; exact (refines_mirrors ty _ _ w1 a1 (mirrors_reply ty _) Hs1).
  - destruct x as [xs|s|t']; cbn in Hty; [done| |]; [|destruct v; try done; cbn in Hv; by destruct Hv as (<- & _ & ?)].
    destruct v as [|v|]; try done. apply (bulk_refines ty w1 a1 key ad v s). split; [done|by split; [|exists ob]|done|by exists t].
Qed.

Lemma mget_refines argv w a : sim w a -> refines (mgetCommand ty can server access argv) (mget_spec server argv) w a.
Proof. intros Hs. apply (refines_bind ty); [by apply (mirrors_reply ty)|done|]. intros w1 Hq. apply mget_loop_refines, Hq. Qed.

(** ** Setting *)

Context (Hconf : proto_max_bulk_len conf <= LLONG_MAX) (Hwrite : may_write server).

Lemma get_sub key a : store (result (get_ server key) a) ⊆ store a.
Proof using Type.
  unfold get_. rewrite result_bind. pose proof (or_reply_sub server key READ RNull a) as Hs. set (m := lookup_or_reply server key READ RNull) in *. rewrite result_bind. rewrite <- (check_store (m a).1 OBJ_STRING) in Hs.
  destruct (check_ (m a).1 OBJ_STRING (result m a)).1; [done|]. by destruct (absent (m a).1).
Qed.

Lemma sub_size a a1 : store a1 ⊆ store a -> Z.of_nat (size (store a)) < 2 ^ 60 -> Z.of_nat (size (store a1)) < 2 ^ 60.
Proof using Type. intros Hs%map_subseteq_size. lia. Qed.

Lemma encoded v : exists o, tryObjectEncoding conf (createStringObject v) = Some o /\ is_str o v.
Proof using Type. apply tryObjectEncoding_spec, createStringObject_spec. Qed.

Lemma replace_stored key v keep a : exists t, store (result (replace_ key v keep) a) !! key = Some (AStr v, t).
Proof using Type.
  unfold replace_. rewrite result_bind. destruct (store_stored key (AStr v) a) as (t & Ht). set (a1 := result (store_ key (AStr v)) a) in *. destruct keep; [by exists t|]. exists None.
  change (alter (fun e => (fst e, None)) key (store a1) !! key = Some (AStr v, None)). by rewrite lookup_alter_eq, Ht.
Qed.

Lemma replace_size key v keep a : (size (store (result (replace_ key v keep) a)) <= Datatypes.S (size (store a)))%nat.
Proof using Type.
  unfold replace_. rewrite result_bind. assert (Hs : (size (store (result (store_ key (AStr v)) a)) <= Datatypes.S (size (store a)))%nat).
  { unfold result, store_. destruct (store a !! key) as [[y t]|] eqn:E; [change (size (alter (fun e => (AStr v, snd e)) key (store a)) <= Datatypes.S (size (store a)))%nat|change (size (<[key := (AStr v, None)]> (store a)) <= Datatypes.S (size (store a)))%nat]; [|by rewrite map_size_insert_None].
    rewrite <- !size_dom, dom_alter_L. lia. }
  set (a1 := result (store_ key (AStr v)) a) in *. destruct keep; [done|]. change (size (alter (fun e => (fst e, None)) key (store a1)) <= Datatypes.S (size (store a)))%nat. by rewrite <- size_dom, dom_alter_L, size_dom.
Qed.

(** The time of a key that was set, and what is propagated. *)
Lemma timed_refines (timed pxat : bool) key val v time w a t :
  sim w a -> store a !! key = Some (AStr v, t) -> Z.of_nat (size (store a)) < 2 ^ 60 -> is_str val v ->
  refines (when timed (setExpire ty can server true key time ;;
             when (negb pxat) (s ← lift (getDecodedObject val); emit (RewriteCommand [s_SET; key; s; s_PXAT; lltoa time])) ;; notifyKeyspaceEvent e_expire key))
    (when_ timed (expire_at_ server key time ;; when_ (negb pxat) (event_ (RewriteCommand [s_SET; key; v; s_PXAT; lltoa time])) ;; event_ (Notify e_expire key))) w a.
Proof using DictLaws0.
  intros Hs Hst Hsz Hv. destruct timed; [|by apply runs_ret]. apply (refines_seq ty); [by eapply setExpire_refines|]. intros w1 Hs1.
  assert (Hm : mirrors ty (when (negb pxat) (s ← lift (getDecodedObject val); emit (RewriteCommand [s_SET; key; s; s_PXAT; lltoa time]))) (when_ (negb pxat) (event_ (RewriteCommand [s_SET; key; v; s_PXAT; lltoa time])))).
  { apply (mirrors_when ty), (mirrors_lift ty _ v); [by apply getDecodedObject_spec|]. apply (mirrors_event ty). }
  apply (refines_bind ty _ _ _ _ _ _ Hm Hs1). intros w2 Hq. log_done Hq.
Qed.

Lemma set_refines argv flags key val v expire tunit ok_reply abort_reply w a :
  (2 <= length argv)%nat -> nth_arg argv 1 = key -> is_str val v -> small a -> sim w a -> (forall e, expire = Some e -> time_fits server flags tunit e) ->
  (has flags OBJ_SET_GET = true -> Zlen (without_get 0 argv) <= Zlen argv - 1) ->
  refines (setGenericCommand ty can server access initial_lru argv flags key val expire tunit ok_reply abort_reply) (set_ server argv flags key v expire tunit (default ROk ok_reply) (default RNull abort_reply)) w a.
Proof.
  intros Hl Hkey Hv Hsm Hs Ht Hg. apply (refines_some ty); [by apply (mirrors_expiry ty)|done|]. intros time w1 _ Hq1. cbn zeta. apply (sub_small _ (result (expiry_ server flags tunit expire) a)) in Hsm; [|by rewrite (proj2 (proj2 (proj2 Hq1)))].
  set (a1 := result (expiry_ server flags tunit expire) a) in *. destruct Hq1 as [Hs1 _]. apply (yields_bind ty); [destruct (has flags OBJ_SET_GET); [subst key; by apply get_yields|by apply yields_ret]|].
  set (m := if has flags OBJ_SET_GET then get_ server key else mret true). intros w2 Hs2. destruct (m a1).1; cbn [negb]; [|by apply runs_ret].
  apply (sub_small _ (result m a1)) in Hsm; [|unfold m; destruct (has flags OBJ_SET_GET); [apply get_sub|done]]. set (a2 := result m a1) in *. clearbody a2. unfold ListStep.refines. rewrite result_bind.
  apply runs_bind, write_lookup, (lookupKey_runs ty can server access w2 a2 key WRITE); [done|]. intros r w3 Hs3 Hr _. pose proof (lookup_sub server key WRITE a2) as Hsub. pose proof (write_none server key WRITE a2 Hwrite eq_refl eq_refl) as Hnone.
  set (x := (lookup_ server key WRITE a2).1) in *. set (a3 := result (lookup_ server key WRITE) a2) in *. apply (sub_small _ _ Hsub) in Hsm. cbn zeta.
  assert (Hf : absent x = negb (match r with Some _ => true | None => false end)) by (destruct r, x; done). rewrite Hf, negb_involutive. set (found := match r with Some _ => true | None => false end) in *.
  assert (Hst : if found then is_Some (store a3 !! key) else store a3 !! key = None).
  { destruct r as [ad|], x as [x|]; try done; [|by apply Hnone]. destruct Hr as (u & t & _ & _ & ->). by eexists. }
  clearbody found a3. destruct (has flags OBJ_SET_NX && found || has flags OBJ_SET_XX && negb found).
  { exact (refines_mirrors ty _ _ w3 a3 (mirrors_when ty _ _ _ (mirrors_reply ty _)) Hs3). }
  set (timed := match expire with Some _ => true | None => false end). destruct Hsm as [Hsz _]. apply (refines_seq ty); [apply setKey_refines; try done; lia|]. intros w4 Hs4.
  destruct (replace_stored key v (has flags OBJ_KEEPTTL || timed) a3) as (t & Ht4). pose proof (replace_size key v (has flags OBJ_KEEPTTL || timed) a3) as Hsz4. set (a4 := result (replace_ key v (has flags OBJ_KEEPTTL || timed)) a3) in *. clearbody a4.
  do 2 log_step Hs4. apply (refines_seq ty); [apply (timed_refines _ _ _ _ _ _ _ _ t Hs4); [exact Ht4|cbn; lia|done]|]. intros w7 Hs7.
  log_step Hs7. destruct (has flags OBJ_SET_GET); [|by apply runs_ret]. specialize (Hg eq_refl). destruct timed; [by apply runs_ret|]. cbn [andb negb when when_]. apply runs_bind, runs_assert; [by apply Z.leb_le|]. exact (refines_mirrors ty _ _ _ _ (mirrors_event ty _) Hs7).
Qed.

Definition set_limits (argv : list sds) : Prop :=
  match parse_options COMMAND_SET (drop 3 argv) no_options with Some o => forall e, o_expire o = Some e -> time_fits server (o_flags o) (o_unit o) e | None => True end.

Lemma mirrors_options argv command : mirrors ty (parseExtendedStringArgumentsOrReply argv command) (options_ argv command).
Proof using DictLaws0. unfold parseExtendedStringArgumentsOrReply, options_. destruct (parse_options _ _ _); [apply (mirrors_ret ty)|]. eauto with mirrors. Qed.

Lemma options_value argv command a o : (options_ argv command a).1 = Some o -> parse_options command (drop (if is_set command then 3 else 2) argv) no_options = Some o.
Proof using Type. unfold options_. destruct (parse_options _ _ _); [|done]. by intros [= ->]. Qed.

Lemma setCommand_refines argv w a : (3 <= length argv)%nat -> set_limits argv -> small a -> sim w a ->
  refines (setCommand conf ty can server access initial_lru argv) (set_spec server argv) w a.
Proof using DictLaws0 Hwrite.
  intros Hl Hlim Hsm Hs. apply (refines_some ty); [apply mirrors_options|done|]. intros o w1 Ho Hq1. apply options_value in Ho. cbn [is_set] in Ho. unfold set_limits in Hlim. rewrite Ho in Hlim. do 2 (apply (arg_refines ty); [lia|]).
  destruct (encoded (nth_arg argv 2)) as (val & Hval & Hv). apply (refines_lift ty _ val); [done|]. destruct Hq1 as (Hs1 & _ & _ & Hst).
  apply (set_refines argv (o_flags o) _ val (nth_arg argv 2) (o_expire o) (o_unit o) None None); [lia|done|done|by apply (small_store _ _ Hst)|done|done|].
  intros Hg. apply (parse_get _ _ _ Ho) in Hg as [Hg|Hg]; [done|]. apply (without_get_fewer argv 0) in Hg. lia.
Qed.

Lemma setnx_refines argv w a : (3 <= length argv)%nat -> small a -> sim w a -> refines (setnxCommand conf ty can server access initial_lru argv) (setnx_spec server argv) w a.
Proof using DictLaws0 Hwrite.
  intros Hl Hsm Hs. do 2 (apply (arg_refines ty); [lia|]). destruct (encoded (nth_arg argv 2)) as (val & Hval & Hv). apply (refines_lift ty _ val); [done|].
  by apply (set_refines argv OBJ_SET_NX _ val (nth_arg argv 2) None UNIT_SECONDS (Some (RLong 1)) (Some (RLong 0))); [lia|..].
Qed.

Lemma setex_refines argv w a : (4 <= length argv)%nat -> time_fits server OBJ_EX UNIT_SECONDS (nth_arg argv 2) -> small a -> sim w a ->
  refines (setexCommand conf ty can server access initial_lru argv) (setex_spec server argv) w a.
Proof using DictLaws0 Hwrite.
  intros Hl Ht Hsm Hs. do 3 (apply (arg_refines ty); [lia|]). destruct (encoded (nth_arg argv 3)) as (val & Hval & Hv). apply (refines_lift ty _ val); [done|].
  apply (set_refines argv OBJ_EX _ val (nth_arg argv 3) (Some (nth_arg argv 2)) UNIT_SECONDS None None); try done; [lia|]. by intros e [= <-].
Qed.

Lemma psetex_refines argv w a : (4 <= length argv)%nat -> time_fits server OBJ_PX UNIT_MILLISECONDS (nth_arg argv 2) -> small a -> sim w a ->
  refines (psetexCommand conf ty can server access initial_lru argv) (psetex_spec server argv) w a.
Proof using DictLaws0 Hwrite.
  intros Hl Ht Hsm Hs. do 3 (apply (arg_refines ty); [lia|]). destruct (encoded (nth_arg argv 3)) as (val & Hval & Hv). apply (refines_lift ty _ val); [done|].
  apply (set_refines argv OBJ_PX _ val (nth_arg argv 3) (Some (nth_arg argv 2)) UNIT_MILLISECONDS None None); try done; [lia|]. by intros e [= <-].
Qed.

(** ** Getting, and changing the key *)

Lemma set_time_same key x a : store a !! key = Some (x, None) -> result (set_time_ key None) a = a.
Proof using Type. intros Hst. destruct a as [m l]. unfold result, set_time_, on_store. cbn [store alog snd] in *. f_equal. apply alter_id. intros e E. rewrite Hst in E. by injection E as <-. Qed.

Definition getex_limits (argv : list sds) : Prop :=
  match parse_options COMMAND_GET (drop 2 argv) no_options with Some o => forall e, o_expire o = Some e -> time_fits server (o_flags o) (o_unit o) e | None => True end.

(** The key is deleted, or has a new time. *)
Lemma delete_refines key async name x t w a : sim w a -> store a !! key = Some (x, t) ->
  refines (deleted ← dbGenericDelete ty can key async; assert deleted ;; emit (RewriteCommand [name; key]) ;; signalModifiedKey key ;; notifyKeyspaceEvent e_del key ;; add_dirty 1) (delete_ key name) w a.
Proof using DictLaws0.
  intros Hs Hst. unfold delete_, ListStep.refines. rewrite result_bind. apply runs_bind, (delete_runs ty can w a key async x t); [done..|]. intros w1 Hs1 _. apply runs_bind, runs_assert; [done|]. fold_refines. do 3 log_step Hs1. log_done Hs1.
Qed.

Lemma getex_refines argv w a : (2 <= length argv)%nat -> getex_limits argv -> small a -> sim w a -> refines (getexCommand ty can server access argv) (getex_spec server argv) w a.
Proof using DictLaws0.
  intros Hl Hlim Hsm Hs. apply (refines_some ty); [apply mirrors_options|done|]. intros o w1 Ho Hq1. apply options_value in Ho. cbn [is_set] in Ho. unfold getex_limits in Hlim. rewrite Ho in Hlim. cbn zeta.
  destruct Hq1 as (Hs1 & _ & _ & Hst1). apply (small_store _ _ Hst1) in Hsm. set (a1 := result (options_ argv COMMAND_GET) a) in *. clearbody a1. apply (arg_refines ty); [lia|]. set (key := nth_arg argv 1).
  apply (with_str_refines ty); [done|]. intros w2 a2 ad v s Hsub Hh. apply (sub_small _ _ Hsub) in Hsm. apply (refines_some ty); [by apply (mirrors_expiry ty)|apply Hh|]. intros time w3 _ Hq3. pose proof (keeping_quiet ty _ _ _ _ _ _ _ _ Hq3 Hh) as Hh3.
  apply (small_store _ _ (proj2 (proj2 (proj2 Hq3)))) in Hsm. clear Hh Hq3. set (a3 := result (expiry_ server (o_flags o) (o_unit o) (o_expire o)) a2) in *. clearbody a3. apply (refines_bulk ty _ _ _ _ _ _ _ _ Hh3). intros w4 Hh4.
  apply (small_store _ (result (reply_ (RBulk s)) a3) eq_refl) in Hsm. set (a4 := result (reply_ (RBulk s)) a3) in *. clearbody a4. destruct Hh4 as [Hs4 _ _ (t & Hst4)]. unfold passed. fold (checkAlreadyExpired server time).
  destruct ((has (o_flags o) OBJ_PXAT || has (o_flags o) OBJ_EXAT) && checkAlreadyExpired server time); [by apply (delete_refines _ _ _ (AStr s) t)|]. destruct Hsm as [Hsz _]. destruct (o_expire o) as [e|].
  - apply (refines_seq ty); [apply (setExpire_refines ty can server key time (AStr s) t w4 a4 Hs4 Hst4); lia|]. intros w5 Hs5. do 3 log_step Hs5. log_done Hs5.
  - unfold ListStep.refines. rewrite result_bind. change (result (time_of_key key) a4) with a4. unfold time_of_key. cbn [fst]. rewrite Hst4. cbn [mbind option_bind snd]. destruct (has (o_flags o) OBJ_PERSIST); cbn [andb]; [|by apply runs_ret].
    apply runs_bind, (removeExpire_runs ty can w4 a4 key (AStr s) t); [done..|]. intros w5 Hs5. destruct t as [t|]; [|apply runs_ret; by rewrite (set_time_same key (AStr s) a4 Hst4) in Hs5]. cbn [when when_]. rewrite result_bind. fold_refines. do 3 log_step Hs5. log_done Hs5.
Qed.

Lemma getdel_refines argv w a : (2 <= length argv)%nat -> sim w a -> refines (getdelCommand ty can server access argv) (getdel_spec server argv) w a.
Proof using DictLaws0.
  intros Hl Hs. apply (yields_bind ty); [by apply get_yields|]. intros w1 Hs1. destruct (get_ server (nth_arg argv 1) a).1; cbn [negb]; [|by apply runs_ret]. apply (arg_refines ty); [lia|]. set (key := nth_arg argv 1) in *.
  set (a1 := result (get_ server key) a) in *. clearbody a1. unfold ListStep.refines. rewrite result_bind. change (result (stored_ key) a1) with a1. unfold stored_. cbn [fst]. destruct (store a1 !! key) as [[x t]|] eqn:E.
  - apply runs_bind, (delete_runs ty can w1 a1 key false x t); [done..|]. intros w2 Hs2 _. cbn [when when_]. unfold delete_. rewrite result_bind. fold_refines. do 3 log_step Hs2. log_done Hs2.
  - apply runs_bind, (delete_none_runs ty can w1 a1 key false); [done..|]. intros w2 Hs2. by apply runs_ret.
Qed.

Lemma getset_refines argv w a : (3 <= length argv)%nat -> small a -> sim w a -> refines (getsetCommand conf ty can server access initial_lru argv) (getset_spec server argv) w a.
Proof using DictLaws0 Hwrite.
  intros Hl Hsm Hs. apply (yields_bind ty); [apply (get_yields ty); [lia|done]|]. intros w1 Hs1. apply (sub_small _ _ (get_sub (nth_arg argv 1) a)) in Hsm. destruct (get_ server (nth_arg argv 1) a).1; cbn [negb]; [|by apply runs_ret]. do 2 (apply (arg_refines ty); [lia|]).
  set (key := nth_arg argv 1) in *. set (a1 := result (get_ server key) a) in *. clearbody a1. destruct (encoded (nth_arg argv 2)) as (val & Hval & Hv). apply (refines_lift ty _ val); [done|]. destruct Hsm as [Hsz _].
  set (rest := event_ (Notify e_set key) ;; dirty_ 1 ;; event_ (RewriteCommand (s_SET :: drop 1 argv)) : S unit).
  assert (Heq : result (lookup_ server key WRITE ;; replace_ key (nth_arg argv 2) false ;; rest) a1 = result (((lookup_ server key WRITE ;; mret tt) ;; replace_ key (nth_arg argv 2) false) ;; rest) a1) by by rewrite !result_bind.
  unfold ListStep.refines. rewrite Heq. apply (refines_seq ty); [apply (lookup_setKey_refines ty); [done|lia|done|done]|]. intros w2 Hs2. do 2 log_step Hs2. log_done Hs2.
Qed.

(** ** Many keys *)

Definition PAIRS_NX : setkey_flags := {| SETKEY_KEEPTTL := false; SETKEY_NO_SIGNAL := false; SETKEY_ALREADY_EXIST := false; SETKEY_DOESNT_EXIST := true; SETKEY_ADD_OR_UPDATE := false |}.
Definition PAIRS_UPDATE : setkey_flags := {| SETKEY_KEEPTTL := false; SETKEY_NO_SIGNAL := false; SETKEY_ALREADY_EXIST := false; SETKEY_DOESNT_EXIST := false; SETKEY_ADD_OR_UPDATE := true |}.

(** One key and its value, with any flags for which [setKey] does this. *)
Lemma mset_step key v rest nx flags n w a (s : S unit) :
  (forall val w1 a1, a1 = a -> is_str val v -> sim w1 a1 -> refines (setKey ty can server access initial_lru key (VStr val) flags) s w1 a1) -> (size (store (result s a)) <= Datatypes.S (size (store a)))%nat ->
  sim w a -> Z.of_nat (size (store a)) + Z.of_nat (Datatypes.S n) < 2 ^ 60 ->
  (forall w1 a1, sim w1 a1 -> Z.of_nat (size (store a1)) + Z.of_nat n < 2 ^ 60 -> refines (mset_loop conf ty can server access initial_lru rest nx (if nx then PAIRS_UPDATE else flags)) (mset_ server rest nx) w1 a1) ->
  refines (mset_loop conf ty can server access initial_lru (key :: v :: rest) nx flags) (s ;; event_ (Notify e_set key) ;; mset_ server rest nx) w a.
Proof using DictLaws0.
  intros Hset Hsz Hs Hn Hrest. cbn [mset_loop]. destruct (encoded v) as (val & Hval & Hv). apply (refines_lift ty _ val); [done|]. apply (refines_seq ty); [by apply Hset|]. intros w1 Hs1. log_step Hs1. apply Hrest; [done|]. cbn. lia.
Qed.

Lemma mset_update_refines n : forall args w a, length args = (2 * n)%nat -> sim w a -> Z.of_nat (size (store a)) + Z.of_nat n < 2 ^ 60 ->
  refines (mset_loop conf ty can server access initial_lru args true PAIRS_UPDATE) (mset_ server args true) w a.
Proof using DictLaws0 Hwrite.
  induction n as [|n IH]; intros [|key [|v rest]] w a Hl Hs Hn; cbn [length] in Hl; try lia; [by apply runs_ret|].
  apply (mset_step key v rest true PAIRS_UPDATE n w a (replace_ key v false)); [|apply replace_size|done|done|].
  - intros val w1 a1 -> Hv Hs1. apply (addOrUpdate_refines ty); [done|lia|done|done].
  - intros w1 a1 Hs1 Hn1. apply IH; [lia|done..].
Qed.

Lemma mset_lookup_refines n : forall args w a, length args = (2 * n)%nat -> sim w a -> Z.of_nat (size (store a)) + Z.of_nat n < 2 ^ 60 ->
  refines (mset_loop conf ty can server access initial_lru args false SETKEY_NONE) (mset_ server args false) w a.
Proof using DictLaws0 Hwrite.
  induction n as [|n IH]; intros [|key [|v rest]] w a Hl Hs Hn; cbn [length] in Hl; try lia; [by apply runs_ret|]. cbn [mset_].
  assert (Heq : forall k : S unit, result ((lookup_ server key WRITE ;; mret tt) ;; replace_ key v false ;; k) a = result (((lookup_ server key WRITE ;; mret tt) ;; replace_ key v false) ;; k) a) by (intros k; by rewrite !result_bind).
  unfold ListStep.refines. rewrite Heq. fold_refines. apply (mset_step key v rest false SETKEY_NONE n w a ((lookup_ server key WRITE ;; mret tt) ;; replace_ key v false)); [| |done|done|].
  - intros val w1 a1 -> Hv Hs1. apply (lookup_setKey_refines ty); [done|lia|done|done].
  - rewrite !result_bind. set (a1 := result (lookup_ server key WRITE) a). pose proof (map_subseteq_size _ _ (lookup_sub server key WRITE a)) as Hle. fold a1 in Hle. pose proof (replace_size key v false a1). change (result (mret tt) a1) with a1. lia.
  - intros w1 a1 Hs1 Hn1. apply IH; [lia|done..].
Qed.

(** No key is there when the answer is no. *)
Lemma some_key_sub n : forall args a, length args = (2 * n)%nat -> store (result (some_key server args) a) ⊆ store a.
Proof using Type.
  induction n as [|n IH]; intros [|key [|v rest]] a Hl; cbn [length] in Hl; try lia; [done|]. cbn [some_key]. rewrite result_bind. pose proof (lookup_sub server key WRITE a) as Hsub. destruct (absent _); [|done]. etrans; [|exact Hsub]. apply IH. lia.
Qed.

Lemma some_key_none n key v rest a : length rest = (2 * n)%nat -> (some_key server (key :: v :: rest) a).1 = false -> store (result (some_key server (key :: v :: rest)) a) !! key = None.
Proof using Hwrite.
  intros Hl. cbn [some_key]. rewrite value_bind, result_bind. pose proof (write_none server key WRITE a Hwrite eq_refl eq_refl) as Hn. destruct (lookup_ server key WRITE a).1 as [x|]; cbn [absent]; [done|]. intros _.
  eapply lookup_weaken_None; [by apply Hn|]. by eapply some_key_sub.
Qed.

Lemma some_key_yields n : forall args w a, length args = (2 * n)%nat -> sim w a -> yields ty (msetnx_loop ty can server access args) (some_key server args) w a.
Proof using DictLaws0.
  induction n as [|n IH]; intros [|key [|v rest]] w a Hl Hs; cbn [length] in Hl; try lia; [by apply runs_ret|]. cbn [msetnx_loop some_key]. unfold yields. rewrite value_bind, result_bind.
  apply runs_bind, write_lookup, (lookupKey_runs ty can server access w a key WRITE); [done|]. intros r w1 Hs1 Hr _. destruct r as [ad|], (lookup_ server key WRITE a).1 as [x|]; try done; cbn [absent]; [by apply runs_ret|]. apply IH; [lia|done].
Qed.

Lemma mset_refines argv nx w a : args_ok argv -> (1 <= length argv)%nat -> small a -> sim w a -> refines (msetGenericCommand conf ty can server access initial_lru argv nx) (mset_spec server argv nx) w a.
Proof using DictLaws0 Hwrite.
  intros (_ & _ & Hargs) Hl [Hsz _] Hs. unfold msetGenericCommand, mset_spec. destruct (Z.eqb_spec (Zlen argv mod 2) 0) as [E|E]; [log_done Hs|]. destruct argv as [|c args]; [done|]. cbn [drop length] in *. rewrite drop_0.
  assert (Hn : exists n, length args = (2 * n)%nat /\ Z.of_nat n < 2 ^ 15) by (exists (Nat.div2 (length args)); pose proof (Nat.div2_odd (length args)) as Ho; destruct (Nat.odd (length args)) eqn:Eo; cbn [Nat.b2n] in Ho; [exfalso; apply E; rewrite Ho; replace (Z.of_nat (Datatypes.S (2 * Nat.div2 (length args) + 1))) with (2 * (Z.of_nat (Nat.div2 (length args)) + 1)) by lia; rewrite Z.mul_comm; apply Z.mod_mul; lia|lia]).
  destruct Hn as (n & Hn & Hn15). clear Hl E. apply (yields_bind ty); [destruct nx; [by apply (some_key_yields n)|by apply yields_ret]|].
  set (m := if nx then some_key server args else mret false). intros w1 Hs1. destruct (m a).1 eqn:Em; [log_done Hs1|].
  assert (Hsub : store (result m a) ⊆ store a) by (unfold m; destruct nx; [by apply (some_key_sub n)|done]). apply map_subseteq_size in Hsub. apply (refines_seq ty); [|intros w2 Hs2; log_step Hs2; log_done Hs2]. destruct nx.
  2: { apply (mset_lookup_refines n); [done|done|]. unfold m. change (Z.of_nat (size (store a)) + Z.of_nat n < 2 ^ 60). lia. }
  destruct n as [|n], args as [|key [|v rest]]; cbn [length] in Hn; try lia; [by apply runs_ret|]. unfold m in *. pose proof (some_key_none n key v rest a ltac:(lia) Em) as Hnone. set (a1 := result (some_key server (key :: v :: rest)) a) in *. clearbody a1.
  apply (mset_step key v rest true PAIRS_NX n w1 a1 (replace_ key v false)); [|apply replace_size|done|lia|].
  - intros val w2 a2 -> Hv Hs2. apply (setKey_refines ty can server access initial_lru key val v false false); [done|lia|done|done|done].
  - intros w2 a2 Hs2 Hn2. apply (mset_update_refines n); [lia|done..].
Qed.

(** ** Changing the string *)

(** The key has a string or is missing. *)
Lemma value_refines {B} key (none : C B) (some : addr -> C B) (tail : B -> C unit) (bad : B) (k : option content -> S unit) w a :
  sim w a -> tail bad = mret tt ->
  (forall w1 a1, store a1 ⊆ store a -> sim w1 a1 -> store a1 !! key = None -> refines (mbind tail none) (k None) w1 a1) ->
  (forall w1 a1 ad v s, store a1 ⊆ store a -> keeping w1 a1 key ad v s -> refines (mbind tail (some ad)) (k (Some (AStr s))) w1 a1) ->
  refines (o ← lookupKeyWrite ty can server access key; r ← match o with None => none | Some ad => wrong ← checkType o OBJ_STRING; if (wrong : bool) then mret bad else some ad end; tail r) (with_value server key k) w a.
Proof using DictLaws0 Hwrite.
  intros Hs Hbad Hno Hsome. unfold ListStep.refines, with_value. rewrite result_bind. apply runs_bind, write_lookup, (lookupKey_runs ty can server access w a key WRITE); [done|]. intros r w1 Hs1 Hr _.
  pose proof (lookup_sub server key WRITE a) as Hsub. pose proof (write_none server key WRITE a Hwrite eq_refl eq_refl) as Hnone. set (x := (lookup_ server key WRITE a).1) in *. set (a1 := result (lookup_ server key WRITE) a) in *.
  rewrite result_bind. destruct r as [ad|]; [|destruct x; [done|]; apply (Hno w1 a1); [done..|by apply Hnone]].
  apply runs_bind, runs_bind, (check_mirror ty w1 a1 key (Some ad) x); [done..|]. intros w2 Hq. destruct (check_ x OBJ_STRING a1).1 eqn:E; [apply runs_ret; rewrite Hbad; apply runs_ret, Hq|].
  pose proof (check_str ty w1 a1 key (Some ad) x _ _ Hr Hq E) as Hc. destruct x as [[|s|]|]; try done. destruct Hc as (v & Hh).
  assert (Hgo : refines (mbind tail (some ad)) (k (Some (AStr s))) w2 (result (check_ (Some (AStr s)) OBJ_STRING) a1)) by (apply (Hsome w2 _ ad v s); [by rewrite (proj2 (proj2 (proj2 Hq)))|done]).
  destruct Hgo as ([] & w3 & Hrun & Hs3). unfold mbind, K_bind in Hrun. destruct (some ad w2) as [[b w4]|] eqn:Eb; [|done]. exists b, w4. split; [done|]. by exists tt, w3.
Qed.

Lemma arg_length argv j : args_ok argv -> (j < length argv)%nat -> Zlen (nth_arg argv j) < LIST_BYTES.
Proof using Type. intros Ha Hj. destruct (arg_bytes argv j Ha Hj) as [_ Hb]. cbn [QuicklistNode.QlNode.bytes] in Hb. lia. Qed.

(** The end of these commands. *)
Lemma finish_refines key name n w a : sim w a ->
  refines (signalModifiedKey key ;; notifyKeyspaceEvent name key ;; add_dirty 1 ;; addReply (RLong n)) (event_ (SignalModified key) ;; event_ (Notify name key) ;; dirty_ 1 ;; reply_ (RLong n)) w a.
Proof using DictLaws0. intros Hs. do 3 log_step Hs. log_done Hs. Qed.

Lemma appendCommand_refines argv w a : (3 <= length argv)%nat -> args_ok argv -> small a -> sim w a -> refines (appendCommand conf ty can server access initial_lru aof_client argv) (append_spec conf server aof_client argv) w a.
Proof.
  intros Hl Ha Hsm Hs. do 2 (apply (arg_refines ty); [lia|]). pose proof (arg_length argv 2 Ha ltac:(lia)) as Hn. unfold LIST_BYTES in Hn. unfold append_spec. set (key := nth_arg argv 1). set (v := nth_arg argv 2) in *. cbn zeta. apply (value_refines key); [done|done| |].
  - intros w1 a1 Hsub Hs1 Hno. destruct (encoded v) as (val & Hval & Hv). apply runs_bind, runs_bind, (runs_lift val); [done|].
    apply (new_value_runs ty can initial_lru _ key val v w1 a1); [done|done|destruct (sub_small _ _ Hsub Hsm) as [? _]; lia|done|]. intros w2 ad Hh. apply runs_ret. rewrite (stringObjectLen_spec val v Hv), swrap_small by lia.
    cbn [absent bytes_of app]. cbn zeta. rewrite result_bind. change (((mret true : S bool) a1).1) with true. change (result (mret true : S bool) a1) with a1. cbn [negb]. rewrite result_bind. apply finish_refines, Hh.
  - intros w1 a1 ad u s Hsub Hh. pose proof (keeping_short _ _ _ _ _ _ Hh (sub_small _ _ Hsub Hsm)) as Hss. unfold STRING_BYTES in Hss. cbn [absent bytes_of]. cbn zeta. apply runs_bind, runs_bind, (read_str_runs ty _ _ _ _ _ _ _ Hh).
    rewrite (stringObjectLen_spec u s (ke_str _ _ _ _ _ _ _ Hh)), swrap_small by lia. rewrite length_app, Nat2Z.inj_add. rewrite result_bind.
    apply runs_bind, (mirrors_runs ty _ _ w1 a1 _ (mirrors_fits conf ty server aof_client (Zlen s) (Zlen v) ltac:(lia) ltac:(lia) Hconf) (ke_sim _ _ _ _ _ _ _ Hh)). intros w2 Hq. pose proof (keeping_quiet ty _ _ _ _ _ _ _ _ Hq Hh) as Hh2.
    destruct (fits_ conf server aof_client (Zlen s + Zlen v) a1).1; cbn [negb]; [|apply runs_ret, runs_ret, (proj1 Hq)]. apply runs_bind, (unshare_runs ty can key ad u s w2 _ _ Hh2). intros w3 ad3 Hh3.
    apply runs_bind, (on_raw_runs ty (fun s => Some (s ++ v)) key ad3 s (s ++ v) w3 _ _ Hh3 eq_refl). intros w4 Hh4. apply runs_ret. cbn [write_]. rewrite length_app, Nat2Z.inj_add, swrap_small by lia. rewrite result_bind. apply finish_refines, Hh4.
Qed.

(** Where the length is not limited it fits. *)
Definition setrange_limits (argv : list sds) : Prop :=
  aof_client || client_is_master server = true -> match string2ll (nth_arg argv 2) with Some offset => offset + Zlen (nth_arg argv 3) <= LLONG_MAX | None => True end.

Lemma fits_true n a : (fits_ conf server aof_client n a).1 = true -> aof_client || client_is_master server = true \/ n <= proto_max_bulk_len conf.
Proof using Type. unfold fits_. destruct (aof_client || client_is_master server); [by left|]. cbn [orb]. destruct (Z.leb_spec n (proto_max_bulk_len conf)); [by right|done]. Qed.

(** The bytes are written to the object. *)
Lemma setrange_tail_refines key ad s offset v w a :
  keeping w a key ad (Raw s) s -> 0 <= offset -> 0 < Zlen v -> offset + Zlen v <= LLONG_MAX -> Zlen s <= LLONG_MAX ->
  refines (s' ← on_raw ad (fun s => if 0 <? Zlen v then wr (sdsgrowzero s (offset + Zlen v)) offset v else Some s);
           when (0 <? Zlen v) (signalModifiedKey key ;; notifyKeyspaceEvent e_setrange key ;; add_dirty 1) ;; addReply (RLong (s64 (Zlen s'))))
    (put_ key (AStr (overwritten s offset v)) ;; event_ (SignalModified key) ;; event_ (Notify e_setrange key) ;; dirty_ 1 ;; reply_ (RLong (Zlen (overwritten s offset v)))) w a.
Proof using DictLaws0.
  intros Hh Ho Hv Hlen Hs. unfold ListStep.refines. rewrite result_bind. destruct (Z.ltb_spec 0 (Zlen v)); [|lia]. apply runs_bind, (on_raw_runs ty _ key ad s (overwritten s offset v) w a _ Hh (setrange_bytes s offset v Ho)). intros w1 Hh1.
  rewrite (swrap_small 64) by (rewrite ?overwritten_length; lia). destruct (finish_refines key e_setrange (Zlen (overwritten s offset v)) w1 _ (ke_sim _ _ _ _ _ _ _ Hh1)) as ([] & w2 & Hrun & Hs2). by exists tt, w2.
Qed.

Lemma overwritten_zeros offset v : 0 <= offset -> overwritten (replicate (Z.to_nat (offset + Zlen v)) 0) offset v = overwritten [] offset v.
Proof using Type.
  intros Ho. unfold overwritten. rewrite length_replicate, drop_nil, (drop_ge (replicate _ _)) by (rewrite length_replicate; lia). replace (Z.to_nat (offset - Z.of_nat (Z.to_nat (offset + Zlen v)))) with 0%nat by lia.
  cbn [replicate app length]. rewrite app_nil_r, !take_replicate. do 2 f_equal. lia.
Qed.

Lemma setrange_refines argv w a : (4 <= length argv)%nat -> args_ok argv -> setrange_limits argv -> small a -> sim w a ->
  refines (setrangeCommand conf ty can server access initial_lru aof_client argv) (setrange_spec conf server aof_client argv) w a.
Proof.
  intros Hl Ha Hlim Hsm Hs. do 3 (apply (arg_refines ty); [lia|]). pose proof (arg_length argv 3 Ha ltac:(lia)) as Hn. unfold LIST_BYTES in Hn. unfold setrange_spec, setrange_limits in *. set (key := nth_arg argv 1). set (v := nth_arg argv 3) in *. cbn zeta.
  apply (refines_some ty); [eauto with mirrors|done|]. intros offset w1 Hoff Hq1. pose proof (number_value _ _ _ _ Hoff) as Hr. assert (Hlim' : aof_client || client_is_master server = true -> offset + Zlen v <= LLONG_MAX) by (unfold number_ in Hoff; destruct (string2ll (nth_arg argv 2)); [by injection Hoff as <-|done]).
  destruct Hq1 as (Hs1 & _ & _ & Hst1). apply (small_store _ _ Hst1) in Hsm. set (a1 := result (number_ (nth_arg argv 2) None) a) in *. clearbody a1. clear Hlim Hoff. destruct (Z.ltb_spec offset 0) as [|Ho]; [log_done Hs1|]. rewrite (uwrap_small 64 (offset + Zlen v)) by lia.
  assert (Hfit : forall a2, (fits_ conf server aof_client (offset + Zlen v) a2).1 = true -> offset + Zlen v <= LLONG_MAX) by (intros a2 [?|?]%fits_true; [by apply Hlim'|lia]).
  assert (Hm : mirrors ty (checkStringLength conf server aof_client offset (Zlen v)) (fits_ conf server aof_client (offset + Zlen v))) by (apply (mirrors_fits conf ty); lia).
  apply (value_refines key); [done|done| |].
  - intros w2 a2 Hsub Hs2 Hno. cbn [bytes_of length]. destruct (Z.eqb_spec (Zlen v) 0) as [E|E].
    { apply runs_bind, runs_bind, (mirrors_runs ty _ _ w2 a2 _ (mirrors_reply ty (RLong 0)) Hs2). intros w3 Hq. apply runs_ret, runs_ret, (proj1 Hq). }
    apply runs_bind, runs_bind, (mirrors_runs ty _ _ w2 a2 _ Hm Hs2). intros w3 Hq. rewrite result_bind. set (a3 := result (fits_ conf server aof_client (offset + Zlen v)) a2) in *. specialize (Hfit a2).
    destruct (fits_ conf server aof_client (offset + Zlen v) a2).1; cbn [negb]; [|apply runs_ret, runs_ret, (proj1 Hq)]. specialize (Hfit eq_refl). destruct Hq as (Hs3 & _ & _ & Hst3). rewrite <- Hst3 in Hno. destruct (sub_small _ _ Hsub Hsm) as [Hsz _]. rewrite <- Hst3 in Hsz.
    set (z := replicate (Z.to_nat (offset + Zlen v)) 0). apply (new_value_runs ty can initial_lru _ key (Raw z) z w3 a3); [done|done|lia|done|]. intros w4 ad Hh. apply runs_ret. cbn [write_ absent]. rewrite <- (overwritten_zeros offset v Ho). fold z.
    rewrite result_bind, <- (add_put key z).
    destruct (setrange_tail_refines key ad z offset v w4 _ Hh Ho) as ([] & w5 & Hrun & Hs5); [lia|lia|unfold z; rewrite length_replicate; lia|]. exists tt, w5. split; [done|]. by rewrite result_bind in Hs5.
  - intros w2 a2 ad u s Hsub Hh. pose proof (keeping_short _ _ _ _ _ _ Hh (sub_small _ _ Hsub Hsm)) as Hss. unfold STRING_BYTES in Hss. cbn [bytes_of]. apply runs_bind, runs_bind, (read_str_runs ty _ _ _ _ _ _ _ Hh).
    rewrite (stringObjectLen_spec u s (ke_str _ _ _ _ _ _ _ Hh)), swrap_small by lia. destruct (Z.eqb_spec (Zlen v) 0) as [E|E].
    { apply runs_bind, (mirrors_runs ty _ _ w2 a2 _ (mirrors_reply ty (RLong (Zlen s))) (ke_sim _ _ _ _ _ _ _ Hh)). intros w3 Hq. apply runs_ret, runs_ret, (proj1 Hq). }
    apply runs_bind, (mirrors_runs ty _ _ w2 a2 _ Hm (ke_sim _ _ _ _ _ _ _ Hh)). intros w3 Hq. rewrite result_bind. pose proof (keeping_quiet ty _ _ _ _ _ _ _ _ Hq Hh) as Hh3. set (a3 := result (fits_ conf server aof_client (offset + Zlen v)) a2) in *. specialize (Hfit a2).
    destruct (fits_ conf server aof_client (offset + Zlen v) a2).1; cbn [negb]; [|apply runs_ret, runs_ret, (proj1 Hq)]. apply runs_bind, (unshare_runs ty can key ad u s w3 a3 _ Hh3). intros w4 ad4 Hh4. apply runs_ret. apply (setrange_tail_refines key ad4 s offset v w4 a3 Hh4 Ho); [lia|by apply Hfit|lia].
Qed.

(** ** Numbers *)

Lemma incr_overflow v incr : LLONG_MIN <= v <= LLONG_MAX -> LLONG_MIN <= incr <= LLONG_MAX ->
  (incr <? 0) && (v <? 0) && (incr <? LLONG_MIN - v) || (0 <? incr) && (0 <? v) && (LLONG_MAX - v <? incr) = negb (in_ll (v + incr)).
Proof using Type.
  intros Hv Hi. unfold in_ll. destruct (Z.ltb_spec incr 0), (Z.ltb_spec v 0), (Z.ltb_spec incr (LLONG_MIN - v)), (Z.ltb_spec 0 incr), (Z.ltb_spec 0 v), (Z.ltb_spec (LLONG_MAX - v) incr), (Z.leb_spec LLONG_MIN (v + incr)), (Z.leb_spec (v + incr) LLONG_MAX); cbn; lia || done.
Qed.

Lemma mirrors_value_number u s : is_str u s -> mirrors ty (getLongLongFromObjectOrReply (Some u) None) (number_ s None).
Proof using DictLaws0. intros Hu. unfold getLongLongFromObjectOrReply, number_. rewrite (getLongLong_spec u s Hu). destruct (string2ll s); [apply (mirrors_ret ty)|]. eauto with mirrors. Qed.

(** The new number is stored. *)
Lemma incr_write_refines key o v x value w a (Hin : in_ll value = true) :
  sim w a -> Z.of_nat (size (store a)) < 2 ^ 60 -> held ty w a key o x -> (x = None -> store a !! key = None) -> match o with Some ad => exists u s, v = Some u /\ x = Some (AStr s) /\ keeping w a key ad u s | None => v = None end ->
  refines (match o, v with
           | Some a, Some (IntVal _) =>
               if (value <? 0) || (OBJ_SHARED_INTEGERS <=? value) then write_obj a (VStr (IntVal value))
               else new ← lift (createStringObjectFromLongLongForValue conf value); a ← createObject (VStr new); dbReplaceValue ty can key a
           | Some _, _ => new ← lift (createStringObjectFromLongLongForValue conf value); a ← createObject (VStr new); dbReplaceValue ty can key a
           | None, _ => new ← lift (createStringObjectFromLongLongForValue conf value); a ← createObject (VStr new); dbAdd ty can initial_lru key a
           end) (write_ x key (lltoa value)) w a.
Proof using DictLaws0.
  intros Hs Hsz Hheld Hno Hv. apply andb_true_iff in Hin as [H1%Z.leb_le H2%Z.leb_le]. destruct (forValue_spec conf value (conj H1 H2)) as (new & Hnew & Hstr). destruct o as [ad|].
  - destruct Hv as (u & s & -> & -> & [_ Hat _ (t & Hst)]). cbn [write_ absent].
    assert (Hrep : refines (new ← lift (createStringObjectFromLongLongForValue conf value); a ← createObject (VStr new); dbReplaceValue ty can key a) (put_ key (AStr (lltoa value))) w a).
    { apply (refines_lift ty _ new); [done|]. apply runs_bind. eexists _, _. split; [done|]. apply (dbSetValue_runs ty can w a key _ (VStr new) (AStr s) t (AStr (lltoa value)) false None); [done|apply not_elem_of_dom, is_fresh|done..|]. by intros w1 Hs1 _ _. }
    destruct u; try exact Hrep. destruct (_ || _); [|exact Hrep]. by apply (write_runs ty w a key ad (VStr (IntVal v)) (AStr s) t (VStr (IntVal value)) (AStr (lltoa value))).
  - subst v. destruct x as [x|]; [by destruct Hheld|]. cbn [write_ absent]. apply (refines_lift ty _ new); [done|]. apply runs_bind. eexists _, _. split; [done|]. apply (dbAdd_runs ty can initial_lru w a key (VStr new) (AStr (lltoa value))); [done|by apply Hno|done|done|]. by intros w1 Hs1 _ _.
Qed.

Lemma incr_refines argv incr w a : (2 <= length argv)%nat -> LLONG_MIN <= incr <= LLONG_MAX -> small a -> sim w a -> refines (incrDecrCommand conf ty can server access initial_lru argv incr) (incr_ server argv incr) w a.
Proof using DictLaws0 Hwrite.
  intros Hl Hi Hsm Hs. apply (arg_refines ty); [lia|]. unfold incr_. set (key := nth_arg argv 1). cbn zeta. apply (with_value_refines ty); [done|done|]. intros w1 a1 o x Hsub Hs1 Hheld Hno. destruct (sub_small _ _ Hsub Hsm) as [Hsz _].
  assert (Hrest : forall v oldvalue w2 a2, LLONG_MIN <= oldvalue <= LLONG_MAX -> quiet ty w1 a1 w2 a2 -> match o with Some ad => exists u s, v = Some u /\ x = Some (AStr s) /\ keeping w2 a2 key ad u s | None => v = None end ->
    refines (if (incr <? 0) && (oldvalue <? 0) && (incr <? LLONG_MIN - oldvalue) || (0 <? incr) && (0 <? oldvalue) && (LLONG_MAX - oldvalue <? incr) then addReply (RError INCR_OVERFLOW)
      else value ← lift (add_ll oldvalue incr);
          match o, v with
          | Some a, Some (IntVal _) =>
              if (value <? 0) || (OBJ_SHARED_INTEGERS <=? value) then write_obj a (VStr (IntVal value))
              else new ← lift (createStringObjectFromLongLongForValue conf value); a ← createObject (VStr new); dbReplaceValue ty can key a
          | Some _, _ => new ← lift (createStringObjectFromLongLongForValue conf value); a ← createObject (VStr new); dbReplaceValue ty can key a
          | None, _ => new ← lift (createStringObjectFromLongLongForValue conf value); a ← createObject (VStr new); dbAdd ty can initial_lru key a
          end ;; signalModifiedKey key ;; notifyKeyspaceEvent e_incrby key ;; add_dirty 1 ;; addReply (RLong value))
    (if in_ll (oldvalue + incr) then write_ x key (lltoa (oldvalue + incr)) ;; event_ (SignalModified key) ;; event_ (Notify e_incrby key) ;; dirty_ 1 ;; reply_ (RLong (oldvalue + incr)) else reply_ (RError INCR_OVERFLOW)) w2 a2).
  { intros v oldvalue w2 a2 Hold (Hs2 & Hd2 & Hh2 & Hst2) Hv. rewrite (incr_overflow oldvalue incr Hold Hi). destruct (in_ll (oldvalue + incr)) eqn:Ein; cbn [negb]; [|log_done Hs2]. apply (refines_lift ty _ (oldvalue + incr)); [unfold add_ll; fold (in_ll (oldvalue + incr)); by rewrite Ein|].
    apply (refines_seq ty); [|intros w3 Hs3; by apply finish_refines]. apply incr_write_refines; [done|done|rewrite Hst2; lia| |by rewrite Hst2|done]. destruct o, x as [[| |]|]; try done. destruct Hv as (u & s' & _ & [= ->] & Hk). by exists u. }
  destruct o as [ad|]; cbn [held] in Hheld.
  - destruct x as [[|s|]|]; try done. destruct Hheld as (u & Hh). cbn [absent bytes_of]. apply runs_bind, runs_bind, (read_str_runs ty _ _ _ _ _ _ _ Hh), runs_ret. apply (refines_some ty); [by apply mirrors_value_number, (ke_str _ _ _ _ _ _ _ Hh)|apply Hh|].
    intros old w2 Hold Hq. apply (Hrest (Some u) old); [by eapply number_value|done|]. exists u, s. split; [done|]. split; [done|]. by apply (keeping_quiet ty _ _ _ _ _ _ _ _ Hq).
  - destruct x as [x|]; [done|]. cbn [absent]. apply runs_bind, runs_ret. apply (refines_some ty (getLongLongFromObjectOrReply None None) (mret (Some 0))); [apply (mirrors_ret ty)|done|]. intros old w2 [= <-] Hq. by apply (Hrest None 0).
Qed.

Lemma incrby_refines argv w a : (3 <= length argv)%nat -> small a -> sim w a -> refines (incrbyCommand conf ty can server access initial_lru argv) (incrby_spec server argv) w a.
Proof using DictLaws0 Hwrite.
  intros Hl Hsm Hs. apply (arg_refines ty); [lia|]. apply (refines_some ty); [eauto with mirrors|done|]. intros incr w1 Hi (Hs1 & _ & _ & Hst). apply incr_refines; [lia|by eapply number_value|by apply (small_store _ _ Hst)|done].
Qed.

Lemma decrby_refines argv w a : (3 <= length argv)%nat -> small a -> sim w a -> refines (decrbyCommand conf ty can server access initial_lru argv) (decrby_spec server argv) w a.
Proof using DictLaws0 Hwrite.
  intros Hl Hsm Hs. apply (arg_refines ty); [lia|]. apply (refines_some ty); [eauto with mirrors|done|]. intros incr w1 Hi (Hs1 & _ & _ & Hst). apply number_value in Hi. destruct (Z.eqb_spec incr LLONG_MIN); [log_done Hs1|]. apply incr_refines; [lia|lia|by apply (small_store _ _ Hst)|done].
Qed.

End StrCmdSpec.

End StrCmdSpec.
