(* ===== verification/Lcs.v ===== *)
(** * Longest common subsequences (src/redis-7.2.4/src/t_string.c, the algorithm of LCS)

    The table of the lengths for all prefixes of two strings, in a linear array
    with 32-bit indexes, and the walk back through it that finds a longest
    common subsequence and the ranges in which the strings match.  The array
    and the string of the result are not initialized when they are allocated.

    [None] is an access outside a buffer or to a cell without a value. *)

From stdpp Require Import gmap.
From S2P Require Import Prelude.
From S2P Require Import Keyspace.
Import Keyspace.

Module Lcs.

Definition UINT32_MAX : Z := 4294967295.

(** A range of both strings, as it is replied. *)
Record range := { arange_start : Z; arange_end : Z; brange_start : Z; brange_end : Z; match_len : Z }.

Section Code.
Context (a b : sds).

Definition alen : Z := u32 (Zlen a).
Definition blen : Z := u32 (Zlen b).

(** The macro [LCS]: the indexes are of type [uint32_t]. *)
Definition lcs_index (A B : Z) : nat := Z.to_nat (u32 (B + u32 (A * u32 (blen + 1)))).
Definition lcs_get (lcs : list (option Z)) (A B : Z) : option Z := v ← lcs !! lcs_index A B; v.
Definition lcs_set (lcs : list (option Z)) (A B v : Z) : option (list (option Z)) :=
  if bool_decide (lcs_index A B < length lcs)%nat then Some (<[lcs_index A B := Some v]> lcs) else None.

Definition byte_at (s : sds) (i : Z) : option Z := if i <? 0 then None else s !! Z.to_nat i.

Definition lcs_cell (lcs : list (option Z)) (i j : Z) : option Z :=
  if (i =? 0) || (j =? 0) then Some 0
  else
    ca ← byte_at a (i - 1);
    cb ← byte_at b (j - 1);
    if ca =? cb then v ← lcs_get lcs (i - 1) (j - 1); Some (u32 (v + 1))
    else
      lcs1 ← lcs_get lcs (i - 1) j;
      lcs2 ← lcs_get lcs i (j - 1);
      Some (if lcs2 <? lcs1 then lcs1 else lcs2).

Fixpoint lcs_row (fuel : nat) (lcs : list (option Z)) (i j : Z) : option (list (option Z)) :=
  match fuel with
  | O => None
  | S fuel =>
      if blen <? j then Some lcs
      else v ← lcs_cell lcs i j; lcs ← lcs_set lcs i j v; lcs_row fuel lcs i (u32 (j + 1))
  end.

Fixpoint lcs_rows (fuel : nat) (lcs : list (option Z)) (i : Z) : option (list (option Z)) :=
  match fuel with
  | O => None
  | S fuel =>
      if alen <? i then Some lcs
      else lcs ← lcs_row (S (S (length b))) lcs i 0; lcs_rows fuel lcs (u32 (i + 1))
  end.

Definition lcs_table (lcssize : Z) : option (list (option Z)) := lcs_rows (S (S (length a))) (replicate (Z.to_nat lcssize) None) 0.

Definition set_byte (result : list (option Z)) (i c : Z) : option (list (option Z)) :=
  if (i <? 0) || (Zlen result <=? i) then None else Some (<[Z.to_nat i := Some c]> result).

(** The loop that goes back from the last cell: the bytes of the result, and
    the ranges that are emitted. *)
Fixpoint lcs_walk (fuel : nat) (lcs : list (option Z)) (getidx : bool) (minmatchlen i j idx astart aend bstart bend : Z) (result : list (option Z)) (emitted : list range) :
    option (list (option Z) * list range) :=
  match fuel with
  | O => None
  | S fuel =>
      if (i =? 0) || (j =? 0) then Some (result, emitted)
      else
        ca ← byte_at a (i - 1);
        cb ← byte_at b (j - 1);
        '(i, j, idx, astart, aend, bstart, bend, result, emit_range) ←
          (if ca =? cb then
             result ← set_byte result (idx - 1) ca;
             let '(astart, aend, bstart, bend, emit_range) :=
               if astart =? alen then (i - 1, i - 1, j - 1, j - 1, false)
               else if (astart =? i) && (bstart =? j) then (u32 (astart - 1), aend, u32 (bstart - 1), bend, false)
               else (astart, aend, bstart, bend, true) in
             Some (i - 1, j - 1, u32 (idx - 1), astart, aend, bstart, bend, result, emit_range || (astart =? 0) || (bstart =? 0))
           else
             lcs1 ← lcs_get lcs (i - 1) j;
             lcs2 ← lcs_get lcs i (j - 1);
             let '(i, j) := if lcs2 <? lcs1 then (i - 1, j) else (i, j - 1) in
             Some (i, j, idx, astart, aend, bstart, bend, result, negb (astart =? alen)));
        let mlen := u32 (aend - astart + 1) in
        let r := {| arange_start := astart; arange_end := aend; brange_start := bstart; brange_end := bend; match_len := mlen |} in
        let emitted := if emit_range && ((minmatchlen =? 0) || (minmatchlen <=? mlen)) && getidx then emitted ++ [r] else emitted in
        lcs_walk fuel lcs getidx minmatchlen i j idx (if emit_range then alen else astart) aend bstart bend result emitted
  end.

(** The length of the longest common subsequence, and, when [computelcs], the
    bytes of one and the ranges. *)
Definition lcs_compute (lcssize : Z) (computelcs getidx : bool) (minmatchlen : Z) : option (Z * sds * list range) :=
  lcs ← lcs_table lcssize;
  idx ← lcs_get lcs alen blen;
  if computelcs then
    '(result, emitted) ← lcs_walk (S (length a + length b)) lcs getidx minmatchlen alen blen idx alen 0 0 0 (replicate (Z.to_nat idx) None) [];
    result ← mapM id result;
    Some (idx, result, emitted)
  else Some (idx, [], []).

End Code.

(** ** What it computes *)

Section Spec.
Context (a b : sds).

(** The greatest length of a common subsequence of two prefixes. *)
Fixpoint best (i : nat) : nat -> nat :=
  match i with
  | O => fun _ => O
  | S i' => fix go (j : nat) : nat :=
      match j with
      | O => O
      | S j' => if bool_decide (a !! i' = b !! j') then S (best i' j') else Nat.max (best i' (S j')) (go j')
      end
  end.

Lemma best_0_r i : best i 0 = O.
Proof. by destruct i. Qed.

Lemma best_SS i j : best (S i) (S j) = if bool_decide (a !! i = b !! j) then S (best i j) else Nat.max (best i (S j)) (best (S i) j).
Proof. done. Qed.

(** The matching positions on the way back, from the end. *)
Fixpoint trace (fuel i j : nat) : list (nat * nat) :=
  match fuel, i, j with
  | S fuel, S i', S j' =>
      if bool_decide (a !! i' = b !! j') then (i', j') :: trace fuel i' j'
      else if (best i j' <? best i' j)%nat then trace fuel i' j else trace fuel i j'
  | _, _, _ => []
  end.

Definition word (l : list (nat * nat)) : sds := omap (fun p => a !! fst p) (reverse l).

(** The ranges of consecutive positions: first and last of both strings. *)
Definition span : Type := nat * nat * nat * nat.

Fixpoint groups (p : option span) (l : list (nat * nat)) : list span :=
  match l with
  | [] => option_list p
  | (x, y) :: l =>
      match p with
      | None => groups (Some (x, x, y, y)) l
      | Some (x1, x2, y1, y2) => if bool_decide (x1 = S x /\ y1 = S y) then groups (Some (x, x2, y, y2)) l else (x1, x2, y1, y2) :: groups (Some (x, x, y, y)) l
      end
  end.

Definition to_range (g : span) : range :=
  let '(x1, x2, y1, y2) := g in
  {| arange_start := Z.of_nat x1; arange_end := Z.of_nat x2; brange_start := Z.of_nat y1; brange_end := Z.of_nat y2; match_len := Z.of_nat x2 - Z.of_nat x1 + 1 |}.

Definition long_enough (minmatchlen : Z) (r : range) : bool := (minmatchlen =? 0) || (minmatchlen <=? match_len r).

Definition full_trace : list (nat * nat) := trace (length a + length b) (length a) (length b).
Definition lcs_word : sds := word full_trace.
Definition lcs_ranges (minmatchlen : Z) : list range := filter (fun r => long_enough minmatchlen r = true) (to_range <$> groups None full_trace).

(** ** Lengths *)

Lemma sublist_snoc (s l : sds) c : s `sublist_of` l ++ [c] -> s `sublist_of` l \/ exists s', s = s' ++ [c] /\ s' `sublist_of` l.
Proof.
  intros (s1 & s2 & -> & H1 & H2)%sublist_app_r. apply sublist_cons_r in H2 as [H2|(s3 & -> & H2)]; apply sublist_nil_r in H2; subst; [left; by rewrite app_nil_r|right; by exists s1].
Qed.

Lemma take_snoc (l : sds) i c : l !! i = Some c -> take (S i) l = take i l ++ [c].
Proof. apply take_S_r. Qed.

(** No common subsequence of the prefixes is longer. *)
Lemma best_upper i : forall j s, (i <= length a)%nat -> (j <= length b)%nat -> s `sublist_of` take i a -> s `sublist_of` take j b -> (length s <= best i j)%nat.
Proof.
  induction i as [|i IHi]; intros j s Hi Hj Ha Hb; [apply sublist_nil_r in Ha; by subst|]. revert s Ha Hb. induction j as [|j IHj]; intros s Ha Hb; [apply sublist_nil_r in Hb; by subst|].
  destruct (lookup_lt_is_Some_2 a i) as [ca Eca]; [lia|]. destruct (lookup_lt_is_Some_2 b j) as [cb Ecb]; [lia|]. rewrite best_SS, Eca, Ecb. pose proof Ha as Ha'. pose proof Hb as Hb'. rewrite (take_snoc _ _ _ Eca) in Ha'. rewrite (take_snoc _ _ _ Ecb) in Hb'.
  apply sublist_snoc in Ha' as [Ha'|(s1 & -> & Ha')]; apply sublist_snoc in Hb' as [Hb'|(s2 & E2 & Hb')]; case_bool_decide as E.
  - specialize (IHi j s ltac:(lia) ltac:(lia) Ha' Hb'). lia.
  - specialize (IHi (S j) s ltac:(lia) ltac:(lia) Ha' Hb). lia.
  - subst s. rewrite length_app. cbn [length]. assert (Hs2 : s2 `sublist_of` take i a) by (etrans; [|exact Ha']; by apply sublist_inserts_r). specialize (IHi j s2 ltac:(lia) ltac:(lia) Hs2 Hb'). lia.
  - specialize (IHi (S j) s ltac:(lia) ltac:(lia) Ha' Hb). lia.
  - rewrite length_app. cbn [length]. assert (Hs1 : s1 `sublist_of` take j b) by (etrans; [|exact Hb']; by apply sublist_inserts_r). specialize (IHi j s1 ltac:(lia) ltac:(lia) Ha' Hs1). lia.
  - specialize (IHj ltac:(lia) _ Ha Hb'). lia.
  - apply app_inj_tail in E2 as [-> ->]. rewrite length_app. cbn [length]. specialize (IHi j s2 ltac:(lia) ltac:(lia) Ha' Hb'). lia.
  - apply app_inj_tail in E2 as [_ ->]. by destruct E.
Qed.

Lemma word_cons p l : word (p :: l) = word l ++ option_list (a !! fst p).
Proof. unfold word. rewrite reverse_cons, omap_app. cbn. by destruct (a !! fst p). Qed.

(** The way back finds as many positions, in both strings. *)
Lemma trace_spec fuel : forall i j, (i + j <= fuel)%nat -> (i <= length a)%nat -> (j <= length b)%nat ->
  length (trace fuel i j) = best i j /\ length (word (trace fuel i j)) = best i j /\ word (trace fuel i j) `sublist_of` take i a /\ word (trace fuel i j) `sublist_of` take j b.
Proof.
  induction fuel as [|fuel IH]; intros [|i] [|j] Hf Hi Hj; cbn [trace]; try lia; rewrite ?best_0_r; try (split; [done|]; split; [done|]; split; apply sublist_nil_l).
  destruct (lookup_lt_is_Some_2 a i) as [ca Eca]; [lia|]. destruct (lookup_lt_is_Some_2 b j) as [cb Ecb]; [lia|]. rewrite best_SS. case_bool_decide as E.
  - destruct (IH i j) as (H1 & H2 & H3 & H4); [lia..|]. rewrite word_cons. cbn [fst]. rewrite Eca. change (option_list (Some ca)) with [ca]. rewrite length_app. cbn [length]. split; [lia|]. split; [lia|].
    rewrite (take_snoc _ _ _ Eca), (take_snoc b j ca) by congruence. split; by apply sublist_app.
  - destruct (Nat.ltb_spec (best (S i) j) (best i (S j))).
    + destruct (IH i (S j)) as (H1 & H2 & H3 & H4); [lia..|]. split; [lia|]. split; [lia|]. split; [|done]. rewrite (take_snoc _ _ _ Eca). by apply sublist_inserts_r.
    + destruct (IH (S i) j) as (H1 & H2 & H3 & H4); [lia..|]. split; [lia|]. split; [lia|]. split; [done|]. rewrite (take_snoc _ _ _ Ecb). by apply sublist_inserts_r.
Qed.

Lemma best_le i j : (best i j <= i /\ best i j <= j)%nat.
Proof.
  revert j. induction i as [|i IHi]; intros j; [cbn; lia|]. induction j as [|j IHj]; [rewrite best_0_r; lia|]. rewrite best_SS. pose proof (IHi j). pose proof (IHi (S j)). case_bool_decide; lia.
Qed.

(** ** The table *)

Section Table.
Context (Ha : Zlen a < UINT32_MAX - 1) (Hb : Zlen b < UINT32_MAX - 1) (Hab : (Zlen a + 1) * (Zlen b + 1) <= 2 ^ 32).

#[local] Set Default Proof Using "Type*".

Definition width : nat := S (length b).
Definition cells : nat := (S (length a) * width)%nat.

Lemma alen_eq : alen a = Zlen a.
Proof. apply uwrap_small. unfold UINT32_MAX in Ha. lia. Qed.

Lemma blen_eq : blen b = Zlen b.
Proof. apply uwrap_small. unfold UINT32_MAX in Hb. lia. Qed.

Lemma index_bound i j : (i <= length a)%nat -> (j <= length b)%nat -> (j + i * width < cells)%nat.
Proof. clear Ha Hb Hab. unfold cells, width. intros Hi Hj. nia. Qed.

Lemma index_eq i j : (i <= length a)%nat -> (j <= length b)%nat -> lcs_index b (Z.of_nat i) (Z.of_nat j) = (j + i * width)%nat.
Proof.
  intros Hi Hj. pose proof (index_bound i j Hi Hj) as Hc. assert (Hcells : Z.of_nat cells <= 2 ^ 32) by (unfold cells, width; lia). unfold lcs_index. rewrite blen_eq. unfold UINT32_MAX in *. rewrite (uwrap_small 32 (Zlen b + 1)) by lia.
  replace (Zlen b + 1) with (Z.of_nat width) by (unfold width; lia). rewrite (uwrap_small 32 (Z.of_nat i * Z.of_nat width)) by lia. rewrite uwrap_small by lia. lia.
Qed.

Lemma index_inj i j i' j' : (j <= length b)%nat -> (j' <= length b)%nat -> (j + i * width = j' + i' * width)%nat -> i = i' /\ j = j'.
Proof.
  clear Ha Hb Hab. intros Hj Hj' E. assert (Hd : forall x y, (x <= length b)%nat -> ((x + y * width) / width = y)%nat) by (intros x y Hx; rewrite Nat.div_add, Nat.div_small by (unfold width; lia); lia).
  assert (i = i') as -> by (rewrite <- (Hd j i Hj), <- (Hd j' i' Hj'); by rewrite E). split; [done|lia].
Qed.

(** The cells before this one have their values. *)
Definition filled (t : list (option Z)) (i j : nat) : Prop :=
  length t = cells /\ forall i' j', (i' <= length a)%nat -> (j' <= length b)%nat -> (i' < i \/ i' = i /\ j' < j)%nat -> t !! (j' + i' * width)%nat = Some (Some (Z.of_nat (best i' j'))).

Lemma filled_get t i j i' j' :
  filled t i j -> (i' <= length a)%nat -> (j' <= length b)%nat -> (i' < i \/ i' = i /\ j' < j)%nat -> lcs_get b t (Z.of_nat i') (Z.of_nat j') = Some (Z.of_nat (best i' j')).
Proof. intros [_ Ht] Hi Hj Hlt. unfold lcs_get. rewrite index_eq, Ht by done. done. Qed.

Lemma byte_spec (s : sds) (i : nat) : byte_at s (Z.of_nat (S i) - 1) = s !! i.
Proof. clear. unfold byte_at. destruct (Z.ltb_spec (Z.of_nat (S i) - 1) 0); [lia|]. f_equal. lia. Qed.

Lemma cell_spec t i j : filled t i j -> (i <= length a)%nat -> (j <= length b)%nat -> lcs_cell a b t (Z.of_nat i) (Z.of_nat j) = Some (Z.of_nat (best i j)).
Proof.
  intros Ht Hi Hj. unfold lcs_cell. destruct i as [|i]; [done|]. destruct j as [|j]; [rewrite best_0_r, orb_true_r; done|]. destruct (Z.eqb_spec (Z.of_nat (S i)) 0), (Z.eqb_spec (Z.of_nat (S j)) 0); try lia. cbn [orb].
  rewrite !byte_spec. destruct (lookup_lt_is_Some_2 a i) as [ca Eca]; [lia|]. destruct (lookup_lt_is_Some_2 b j) as [cb Ecb]; [lia|]. rewrite Eca, Ecb. cbn [mbind option_bind]. rewrite best_SS, Eca, Ecb.
  replace (Z.of_nat (S i) - 1) with (Z.of_nat i) by lia. replace (Z.of_nat (S j) - 1) with (Z.of_nat j) by lia. destruct (Z.eqb_spec ca cb) as [->|Hne].
  - rewrite (filled_get t (S i) (S j) i j Ht) by lia. cbn [mbind option_bind]. rewrite bool_decide_eq_true_2 by done. pose proof (best_le i j). unfold UINT32_MAX in *. rewrite uwrap_small by lia. f_equal. lia.
  - rewrite (filled_get t (S i) (S j) i (S j) Ht), (filled_get t (S i) (S j) (S i) j Ht) by lia. cbn [mbind option_bind]. rewrite bool_decide_eq_false_2 by congruence. f_equal. destruct (Z.ltb_spec (Z.of_nat (best (S i) j)) (Z.of_nat (best i (S j)))); lia.
Qed.

Lemma filled_set t i j : filled t i j -> (i <= length a)%nat -> (j <= length b)%nat -> exists t', lcs_set b t (Z.of_nat i) (Z.of_nat j) (Z.of_nat (best i j)) = Some t' /\ filled t' i (S j).
Proof.
  intros [Hl Ht] Hi Hj. pose proof (index_bound i j Hi Hj) as Hc. unfold lcs_set. rewrite index_eq by done. rewrite bool_decide_eq_true_2 by lia. eexists. split; [done|]. split; [by rewrite length_insert|].
  intros i' j' Hi' Hj' Hlt. destruct (decide (i' = i /\ j' = j)) as [[-> ->]|Hne]; [apply list_lookup_insert_eq; lia|]. rewrite list_lookup_insert_ne; [apply Ht; [done|done|lia]|]. intros E. apply Hne. by apply index_inj.
Qed.

Lemma row_spec n : forall fuel t i j, (i <= length a)%nat -> (j + n = width)%nat -> (n < fuel)%nat -> filled t i j -> exists t', lcs_row a b fuel t (Z.of_nat i) (Z.of_nat j) = Some t' /\ filled t' i width.
Proof.
  induction n as [|n IH]; intros [|fuel] t i j Hi Hn Hf Ht; try lia; cbn [lcs_row]; rewrite blen_eq; unfold width in Hn.
  - destruct (Z.ltb_spec (Zlen b) (Z.of_nat j)); [|lia]. exists t. split; [done|]. by replace width with j by (unfold width; lia).
  - destruct (Z.ltb_spec (Zlen b) (Z.of_nat j)); [lia|]. rewrite cell_spec by (done || lia). cbn [mbind option_bind]. destruct (filled_set t i j Ht) as (t' & -> & Ht'); [lia..|]. cbn [mbind option_bind]. unfold UINT32_MAX in *. rewrite uwrap_small by lia.
    replace (Z.of_nat j + 1) with (Z.of_nat (S j)) by lia. apply IH; [done|unfold width; lia|lia|done].
Qed.

Lemma filled_next t i : filled t i width -> filled t (S i) 0.
Proof. intros [Hl Ht]. split; [done|]. intros i' j' Hi Hj Hlt. apply Ht; [done|done|]. unfold width. lia. Qed.

Lemma rows_spec n : forall fuel t i, (i + n = S (length a))%nat -> (n < fuel)%nat -> filled t i 0 -> exists t', lcs_rows a b fuel t (Z.of_nat i) = Some t' /\ filled t' (S (length a)) 0.
Proof.
  induction n as [|n IH]; intros [|fuel] t i Hn Hf Ht; try lia; cbn [lcs_rows]; rewrite alen_eq.
  - destruct (Z.ltb_spec (Zlen a) (Z.of_nat i)); [|lia]. exists t. split; [done|]. by replace (S (length a)) with i by lia.
  - destruct (Z.ltb_spec (Zlen a) (Z.of_nat i)); [lia|]. destruct (row_spec width (S (S (length b))) t i 0) as (t1 & Hr & Ht1); [lia|lia|unfold width; lia|done|]. change (Z.of_nat 0) with 0 in Hr. rewrite Hr. cbn [mbind option_bind]. unfold UINT32_MAX in *. rewrite uwrap_small by lia.
    replace (Z.of_nat i + 1) with (Z.of_nat (S i)) by lia. apply IH; [lia|lia|]. by apply filled_next.
Qed.

Lemma table_spec : exists t, lcs_table a b (Z.of_nat cells) = Some t /\ filled t (S (length a)) 0.
Proof.
  unfold lcs_table. apply (rows_spec (S (length a)) (S (S (length a))) _ 0); [lia|lia|]. split; [rewrite length_replicate; lia|]. lia.
Qed.

(** ** The way back *)

(** A range that is not emitted yet ends at the current positions. *)
Definition pending (p : option span) (i j : nat) (astart aend bstart bend : Z) : Prop :=
  match p with
  | None => astart = alen a
  | Some (x1, x2, y1, y2) => x1 = i /\ y1 = j /\ (0 < i)%nat /\ (0 < j)%nat /\ (x1 <= x2 < length a)%nat /\ astart = Z.of_nat x1 /\ aend = Z.of_nat x2 /\ bstart = Z.of_nat y1 /\ bend = Z.of_nat y2
  end.

Definition selected (getidx : bool) (minmatchlen : Z) (l : list span) : list range := if getidx then filter (fun r => long_enough minmatchlen r = true) (to_range <$> l) else [].

Lemma selected_cons getidx m g l : selected getidx m (g :: l) = (if long_enough m (to_range g) && getidx then [to_range g] else []) ++ selected getidx m l.
Proof. clear. unfold selected. destruct getidx; [|by rewrite andb_false_r]. rewrite andb_true_r, fmap_cons, filter_cons. destruct (decide _) as [->|H]; [done|]. by destruct (long_enough m (to_range g)). Qed.

Lemma trace_below fuel : forall i j x y, (x, y) ∈ trace fuel i j -> (x < i /\ y < j)%nat.
Proof.
  clear. induction fuel as [|fuel IH]; intros [|i] [|j] x y; cbn [trace]; try by intros ?%not_elem_of_nil. case_bool_decide.
  - intros [[= -> ->]|Hin]%elem_of_cons; [lia|]. apply IH in Hin. lia.
  - destruct (_ <? _)%nat; intros Hin%IH; lia.
Qed.

(** A range stays as it is when the positions that follow are not adjacent. *)
Lemma groups_apart x1 x2 y1 y2 l : (forall x y, (x, y) ∈ l -> x1 = S x -> y1 = S y -> False) -> groups (Some (x1, x2, y1, y2)) l = (x1, x2, y1, y2) :: groups None l.
Proof. clear. intros Hl. destruct l as [|[x y] l]; [done|]. cbn [groups]. rewrite bool_decide_eq_false_2; [done|]. intros [E1 E2]. apply (Hl x y); [by left|done..]. Qed.

Lemma set_last (pre : list (option Z)) (suf : list (option Z)) o c n : Z.of_nat (length pre) = n -> set_byte (pre ++ o :: suf) n c = Some (pre ++ Some c :: suf).
Proof.
  clear. intros <-. unfold set_byte. rewrite length_app. cbn [length]. destruct (Z.ltb_spec (Zlen pre) 0), (Z.leb_spec (Z.of_nat (length pre + S (length suf))) (Zlen pre)); try lia. cbn [orb]. rewrite Nat2Z.id. f_equal. by rewrite insert_app_r_alt, Nat.sub_diag by lia.
Qed.

(** The bytes and the ranges at the end of the loop. *)
Definition outcome (getidx : bool) (m : Z) (p : option span) (l : list (nat * nat)) (suf : sds) (emitted : list range) : list (option Z) * list range :=
  (Some <$> (word l ++ suf), emitted ++ selected getidx m (groups p l)).

(** A range is emitted, and the loop goes on without one. *)
Lemma emit_eq getidx m x1 x2 y1 y2 l suf emitted : (x1 <= x2 < length a)%nat -> (forall x y, (x, y) ∈ l -> x1 = S x -> y1 = S y -> False) ->
  let mlen := u32 (Z.of_nat x2 - Z.of_nat x1 + 1) in
  outcome getidx m None l suf (if true && ((m =? 0) || (m <=? mlen)) && getidx then emitted ++ [{| arange_start := Z.of_nat x1; arange_end := Z.of_nat x2; brange_start := Z.of_nat y1; brange_end := Z.of_nat y2; match_len := mlen |}] else emitted) =
  outcome getidx m (Some (x1, x2, y1, y2)) l suf emitted.
Proof.
  intros Hx Hl. cbn zeta. unfold UINT32_MAX in *. rewrite uwrap_small by lia. unfold outcome. rewrite groups_apart by done. rewrite selected_cons. unfold long_enough. cbn [to_range match_len andb].
  destruct (((m =? 0) || (m <=? Z.of_nat x2 - Z.of_nat x1 + 1)) && getidx); [by rewrite <- app_assoc|done].
Qed.

Lemma walk_end t getidx m fuel i j idx astart aend bstart bend p suf emitted :
  i = O \/ j = O -> pending p i j astart aend bstart bend ->
  lcs_walk a b (S fuel) t getidx m (Z.of_nat i) (Z.of_nat j) idx astart aend bstart bend (Some <$> suf) emitted = Some (outcome getidx m p [] suf emitted).
Proof.
  intros Hz Hp. destruct p as [[[[x1 x2] y1] y2]|]; [destruct Hp as (-> & -> & ? & ? & _); lia|]. cbn [lcs_walk]. assert (Ez : (Z.of_nat i =? 0) || (Z.of_nat j =? 0) = true) by (destruct Hz as [-> | ->]; [done|apply orb_true_r]). rewrite Ez.
  unfold outcome, selected. cbn. destruct getidx; by rewrite app_nil_r.
Qed.

Lemma trace_end fuel i j : i = O \/ j = O -> trace fuel i j = [].
Proof. clear. intros [-> | ->]; destruct fuel; try done. by destruct i. Qed.

Lemma lcs_walk_spec t getidx m fuel : filled t (S (length a)) 0 -> forall i j p astart aend bstart bend pre suf emitted,
  (i + j <= fuel)%nat -> (i <= length a)%nat -> (j <= length b)%nat -> length pre = best i j -> pending p i j astart aend bstart bend ->
  lcs_walk a b (S fuel) t getidx m (Z.of_nat i) (Z.of_nat j) (Z.of_nat (best i j)) astart aend bstart bend (pre ++ (Some <$> suf)) emitted = Some (outcome getidx m p (trace fuel i j) suf emitted).
Proof.
  intros Ht. induction fuel as [|fuel IH]; intros i j p astart aend bstart bend pre suf emitted Hf Hi Hj Hpre Hp.
  1: assert (Hz : i = O \/ j = O) by lia. 2: destruct (decide (i = O \/ j = O)) as [Hz|Hz].
  1,2: rewrite trace_end by done; assert (Hb0 : best i j = O) by (destruct Hz as [-> | ->]; [done|apply best_0_r]); rewrite Hb0 in Hpre; destruct pre; [|done]; by apply walk_end.
  destruct i as [|i]; [lia|]. destruct j as [|j]; [lia|]. clear Hz. remember (S fuel) as f1 eqn:Ef. cbn [lcs_walk]. destruct (Z.eqb_spec (Z.of_nat (S i)) 0), (Z.eqb_spec (Z.of_nat (S j)) 0); try lia. cbn [orb]. rewrite !byte_spec.
  destruct (lookup_lt_is_Some_2 a i) as [ca Eca]; [lia|]. destruct (lookup_lt_is_Some_2 b j) as [cb Ecb]; [lia|]. rewrite Eca, Ecb. cbn [mbind option_bind]. subst f1. cbn [trace].
  replace (Z.of_nat (S i) - 1) with (Z.of_nat i) by lia. replace (Z.of_nat (S j) - 1) with (Z.of_nat j) by lia. rewrite best_SS, Eca, Ecb in Hpre |- *. destruct (Z.eqb_spec ca cb) as [->|Hne].
  - rewrite bool_decide_eq_true_2 in Hpre |- * by done. destruct pre as [|o pre] using rev_ind; [done|]. clear IHpre. rewrite length_app in Hpre. cbn [length] in Hpre. rewrite <- app_assoc. cbn [app]. rewrite (set_last pre) by lia. cbn [mbind option_bind].
    assert (Hidx : u32 (Z.of_nat (S (best i j)) - 1) = Z.of_nat (best i j)) by (pose proof (best_le i j); unfold UINT32_MAX in *; rewrite uwrap_small by lia; lia). rewrite Hidx. clear Hidx.
    assert (Hgo : forall x2 y2, (i <= x2 < length a)%nat -> groups p ((i, j) :: trace fuel i j) = groups (Some (i, x2, j, y2)) (trace fuel i j) -> let emit := (Z.of_nat i =? 0) || (Z.of_nat j =? 0) in
      lcs_walk a b (S fuel) t getidx m (Z.of_nat i) (Z.of_nat j) (Z.of_nat (best i j)) (if emit then alen a else Z.of_nat i) (Z.of_nat x2) (Z.of_nat j) (Z.of_nat y2) (pre ++ Some cb :: (Some <$> suf))
        (if emit && ((m =? 0) || (m <=? u32 (Z.of_nat x2 - Z.of_nat i + 1))) && getidx
         then emitted ++ [{| arange_start := Z.of_nat i; arange_end := Z.of_nat x2; brange_start := Z.of_nat j; brange_end := Z.of_nat y2; match_len := u32 (Z.of_nat x2 - Z.of_nat i + 1) |}] else emitted) =
      Some (outcome getidx m p ((i, j) :: trace fuel i j) suf emitted)).
    { intros x2 y2 Hx2 Hg emit. assert (Hout : outcome getidx m p ((i, j) :: trace fuel i j) suf emitted = outcome getidx m (Some (i, x2, j, y2)) (trace fuel i j) (cb :: suf) emitted).
      { unfold outcome. rewrite Hg, word_cons. cbn [fst]. rewrite Eca, <- app_assoc. done. }
      rewrite Hout. change (Some cb :: (Some <$> suf)) with (Some <$> (cb :: suf)). destruct emit eqn:Ee; unfold emit in Ee.
      - rewrite <- emit_eq; [|done|intros x y [? ?]%trace_below; lia]. apply IH; [lia..|done].
      - cbn [andb]. apply IH; [lia..|]. apply orb_false_iff in Ee as [?%Z.eqb_neq ?%Z.eqb_neq]. repeat split; lia. }
    destruct p as [[[[x1 x2] y1] y2]|]; cbn [pending] in Hp.
    + destruct Hp as (-> & -> & _ & _ & Hx & -> & -> & -> & ->). rewrite alen_eq. destruct (Z.eqb_spec (Z.of_nat (S i)) (Zlen a)); [lia|]. rewrite !Z.eqb_refl. cbn [andb orb mbind option_bind]. unfold UINT32_MAX in *. rewrite (uwrap_small 32 (Z.of_nat (S i) - 1)), (uwrap_small 32 (Z.of_nat (S j) - 1)) by lia.
      replace (Z.of_nat (S i) - 1) with (Z.of_nat i) by lia. replace (Z.of_nat (S j) - 1) with (Z.of_nat j) by lia. rewrite <- alen_eq. apply Hgo; [lia|]. cbn [groups]. by rewrite bool_decide_eq_true_2.
    + subst astart. rewrite Z.eqb_refl. cbn [orb mbind option_bind]. apply Hgo; [lia|done].
  - rewrite bool_decide_eq_false_2 in Hpre |- * by congruence. rewrite (filled_get t (S (length a)) 0 i (S j) Ht), (filled_get t (S (length a)) 0 (S i) j Ht) by lia. cbn [mbind option_bind].
    assert (Hgo : forall i' j', (i' + j' <= fuel)%nat -> (i' <= length a)%nat -> (j' <= length b)%nat -> (i' = i \/ j' = j) -> best i' j' = Nat.max (best i (S j)) (best (S i) j) ->
      lcs_walk a b (S fuel) t getidx m (Z.of_nat i') (Z.of_nat j') (Z.of_nat (Nat.max (best i (S j)) (best (S i) j))) (if negb (astart =? alen a) then alen a else astart) aend bstart bend (pre ++ (Some <$> suf))
        (if negb (astart =? alen a) && ((m =? 0) || (m <=? u32 (aend - astart + 1))) && getidx
         then emitted ++ [{| arange_start := astart; arange_end := aend; brange_start := bstart; brange_end := bend; match_len := u32 (aend - astart + 1) |}] else emitted) =
      Some (outcome getidx m p (trace fuel i' j') suf emitted)).
    { intros i' j' Hf' Hi' Hj' Hor Hbest. rewrite <- Hbest in *. destruct p as [[[[x1 x2] y1] y2]|]; cbn [pending] in Hp.
      - destruct Hp as (-> & -> & _ & _ & Hx & -> & -> & -> & ->). destruct (Z.eqb_spec (Z.of_nat (S i)) (alen a)) as [E|]; [rewrite alen_eq in E; lia|]. cbn [negb]. rewrite <- emit_eq; [|done|intros x y [? ?]%trace_below; lia]. apply IH; done.
      - subst astart. rewrite Z.eqb_refl. cbn [negb andb]. apply IH; done. }
    destruct (Z.ltb_spec (Z.of_nat (best (S i) j)) (Z.of_nat (best i (S j)))), (Nat.ltb_spec (best (S i) j) (best i (S j))); try lia; cbn [mbind option_bind]; apply Hgo; lia || by auto.
Qed.

Lemma compute_spec computelcs getidx m :
  lcs_compute a b (Z.of_nat cells) computelcs getidx m =
  Some (Z.of_nat (best (length a) (length b)), if computelcs then lcs_word else [], if computelcs then selected getidx m (groups None full_trace) else []).
Proof.
  unfold lcs_compute. destruct table_spec as (t & -> & Ht). cbn [mbind option_bind]. rewrite alen_eq at 1. rewrite blen_eq at 1. rewrite (filled_get t (S (length a)) 0 (length a) (length b) Ht) by lia. cbn [mbind option_bind]. destruct computelcs; [|done].
  rewrite Nat2Z.id. pose proof (lcs_walk_spec t getidx m (length a + length b) Ht (length a) (length b) None (alen a) 0 0 0 (replicate (best (length a) (length b)) None) [] []) as Hw. rewrite app_nil_r in Hw. rewrite alen_eq at 1. rewrite blen_eq. rewrite Hw; [|done|done|done|by rewrite length_replicate|done].
  cbn [mbind option_bind outcome]. rewrite app_nil_r. cbn [app]. fold full_trace lcs_word. assert (Hm : mapM id (Some <$> lcs_word) = Some lcs_word) by (induction lcs_word as [|c l IH]; [done|]; cbn; by rewrite IH). by rewrite Hm.
Qed.

End Table.

(** ** Common subsequences and ranges *)

Lemma word_common : lcs_word `sublist_of` a /\ lcs_word `sublist_of` b /\ length lcs_word = best (length a) (length b).
Proof. destruct (trace_spec (length a + length b) (length a) (length b)) as (_ & Hl & H1 & H2); [lia..|]. rewrite firstn_all in H1, H2. done. Qed.

Lemma word_longest s : s `sublist_of` a -> s `sublist_of` b -> (length s <= length lcs_word)%nat.
Proof. intros H1 H2. destruct word_common as (_ & _ & ->). apply best_upper; [lia|lia|by rewrite firstn_all..]. Qed.

(** The strings are equal in a range. *)
Definition equal_in (g : span) : Prop :=
  let '(x1, x2, y1, y2) := g in
  (x1 <= x2 < length a)%nat /\ (y1 <= y2 < length b)%nat /\ (x2 - x1 = y2 - y1)%nat /\ forall k, (k <= x2 - x1)%nat -> a !! (x1 + k)%nat = b !! (y1 + k)%nat.

Definition pair_ok (p : nat * nat) : Prop := (fst p < length a)%nat /\ (snd p < length b)%nat /\ a !! fst p = b !! snd p.

Lemma trace_pairs fuel : forall i j, (i <= length a)%nat -> (j <= length b)%nat -> Forall pair_ok (trace fuel i j).
Proof.
  induction fuel as [|fuel IH]; intros [|i] [|j] Hi Hj; cbn [trace]; try apply Forall_nil; try done. case_bool_decide; [constructor; [done|apply IH; lia]|]. destruct (_ <? _)%nat; apply IH; lia.
Qed.

Lemma pair_span x y : pair_ok (x, y) -> equal_in (x, x, y, y).
Proof. intros (Hx & Hy & E). cbn in *. repeat split; try lia. intros k Hk. by replace k with 0%nat by lia; rewrite !Nat.add_0_r. Qed.

Lemma groups_equal l : forall p, Forall pair_ok l -> (forall g, p = Some g -> equal_in g) -> Forall equal_in (groups p l).
Proof.
  induction l as [|[x y] l IH]; intros p Hl Hp; cbn [groups]; [destruct p; cbn; [constructor; [by apply Hp|done]|done]|]. apply Forall_cons in Hl as [Hxy Hl]. destruct p as [[[[x1 x2] y1] y2]|]; [|apply IH; [done|intros g [= <-]; by apply pair_span]].
  specialize (Hp _ eq_refl). case_bool_decide as E; [|constructor; [done|]; apply IH; [done|intros g [= <-]; by apply pair_span]]. destruct E as [-> ->]. apply IH; [done|]. intros g [= <-]. destruct Hp as (H1 & H2 & H3 & H4). destruct Hxy as (_ & _ & E). cbn in E.
  repeat split; try lia. intros [|k] Hk; [by rewrite !Nat.add_0_r|]. specialize (H4 k ltac:(lia)). by rewrite !Nat.add_succ_r.
Qed.

Definition span_len (g : span) : nat := let '(x1, x2, _, _) := g in S (x2 - x1).

Lemma groups_total l : forall p, (forall x1 x2 y1 y2, p = Some (x1, x2, y1, y2) -> (x1 <= x2)%nat) -> sum_list_with span_len (groups p l) = (match p with Some g => span_len g | None => 0 end + length l)%nat.
Proof.
  induction l as [|[x y] l IH]; intros p Hp; cbn [groups length]; [destruct p; cbn; lia|]. destruct p as [[[[x1 x2] y1] y2]|]; [|rewrite IH; [cbn; lia|by intros ???? [= <- <- <- <-]]].
  specialize (Hp _ _ _ _ eq_refl). case_bool_decide as E; [|cbn [sum_list_with]; rewrite IH; [cbn; lia|by intros ???? [= <- <- <- <-]]]. destruct E as [-> ->]. rewrite IH; [cbn; lia|]. intros ???? [= <- <- <- <-]. lia.
Qed.

Lemma ranges_equal : Forall equal_in (groups None full_trace).
Proof. apply groups_equal; [by apply trace_pairs|done]. Qed.

Lemma ranges_total : sum_list_with span_len (groups None full_trace) = length lcs_word.
Proof.
  rewrite groups_total by done. destruct (trace_spec (length a + length b) (length a) (length b)) as (H1 & H2 & _); [lia..|]. unfold lcs_word, full_trace. rewrite H2. lia.
Qed.

End Spec.

(** C12: for strings whose table has at most 2^32 cells the algorithm of LCS
    returns a common subsequence of both strings and its length, no common
    subsequence is longer, and the ranges that it emits are the long enough
    ones of a list of ranges in which the two strings have the same bytes, and
    which have as many bytes together as the subsequence. *)
Theorem lcs_longest a b getidx m :
  Zlen a < UINT32_MAX - 1 -> Zlen b < UINT32_MAX - 1 -> (Zlen a + 1) * (Zlen b + 1) <= 2 ^ 32 ->
  exists r rs, lcs_compute a b ((Zlen a + 1) * (Zlen b + 1)) true getidx m = Some (Zlen r, r, rs) /\
    r `sublist_of` a /\ r `sublist_of` b /\ (forall s, s `sublist_of` a -> s `sublist_of` b -> (length s <= length r)%nat) /\
    (getidx = true -> exists gs, rs = filter (fun r => long_enough m r = true) (to_range <$> gs) /\ Forall (equal_in a b) gs /\ sum_list_with span_len gs = length r).
Proof.
  intros Ha Hb Hab. pose proof (compute_spec a b Ha Hb Hab true getidx m) as Hc. replace (Z.of_nat (cells a b)) with ((Zlen a + 1) * (Zlen b + 1)) in Hc by (unfold cells, width; lia). destruct (word_common a b) as (H1 & H2 & H3). rewrite <- H3 in Hc.
  eexists _, _. split; [exact Hc|]. split; [done|]. split; [done|]. split; [apply word_longest|]. intros ->. exists (groups None (full_trace a b)). split; [done|]. split; [apply ranges_equal|apply ranges_total].
Qed.

(** ohmytext and mynewtext. *)
Lemma lcs_longest_witness :
  let a := [111; 104; 109; 121; 116; 101; 120; 116] in let b := [109; 121; 110; 101; 119; 116; 101; 120; 116] in
  exists r rs, lcs_compute a b ((Zlen a + 1) * (Zlen b + 1)) true true 4 = Some (Zlen r, r, rs) /\
    r `sublist_of` a /\ r `sublist_of` b /\ (forall s, s `sublist_of` a -> s `sublist_of` b -> (length s <= length r)%nat) /\
    (true = true -> exists gs, rs = filter (fun r => long_enough 4 r = true) (to_range <$> gs) /\ Forall (equal_in a b) gs /\ sum_list_with span_len gs = length r).
Proof. intros a b. apply (lcs_longest a b true 4); vm_compute; congruence. Defined.

(** The index of a cell of a greater table is that of another cell. *)
Lemma index_wraps b : blen b = 65535 -> lcs_index b 65536 0 = lcs_index b 0 0.
Proof. intros E. unfold lcs_index. by rewrite E. Qed.

End Lcs.
