(* ===== verification/LcsCmd.v ===== *)
(** * LCS (src/redis-7.2.4/src/t_string.c, lcsCommand)

    The command for the longest common subsequence of two strings, with the
    algorithm of Lcs.v, what it promises, and that it keeps the promise. *)

From stdpp Require Import gmap.
From S2P Require Import Prelude.
From S2P Require Import NumConv.
From S2P Require Import Dict.
From S2P Require Import DictSpec.
From S2P Require Import Keyspace.
From S2P Require Import KeyspaceSpec.
From S2P Require Import StrType.
From S2P Require Import ListCmd.
From S2P Require Import ListAbs.
From S2P Require Import ListStep.
From S2P Require Import StrCmd.
From S2P Require Import StrAbs.
From S2P Require Import StrStep.
From S2P Require Import Lcs.
Import NumConv Dict DictSpec Keyspace KsSpec StrType ListCmd ListAbs ListStep StrCmd StrAbs StrStep Lcs.

Module LcsCmd.

Definition s_IDX : sds := [73; 68; 88].
Definition s_LEN : sds := [76; 69; 78].
Definition s_WITHMATCHLEN : sds := [87; 73; 84; 72; 77; 65; 84; 67; 72; 76; 69; 78].
Definition s_MINMATCHLEN : sds := [77; 73; 78; 77; 65; 84; 67; 72; 76; 69; 78].
Definition s_matches : sds := [109; 97; 116; 99; 104; 101; 115].
Definition s_len : sds := [108; 101; 110].

Definition SIZE_MAX : Z := 18446744073709551615.

Record lcs_options := { getlen : bool; getidx : bool; withmatchlen : bool; minmatchlen : Z }.

Fixpoint lcs_parse (args : list sds) (o : lcs_options) : C (option lcs_options) :=
  match args with
  | [] => mret (Some o)
  | opt :: rest =>
      if strcasecmp0 opt s_IDX then lcs_parse rest {| getlen := getlen o; getidx := true; withmatchlen := withmatchlen o; minmatchlen := minmatchlen o |}
      else if strcasecmp0 opt s_LEN then lcs_parse rest {| getlen := true; getidx := getidx o; withmatchlen := withmatchlen o; minmatchlen := minmatchlen o |}
      else if strcasecmp0 opt s_WITHMATCHLEN then lcs_parse rest {| getlen := getlen o; getidx := getidx o; withmatchlen := true; minmatchlen := minmatchlen o |}
      else
        match strcasecmp0 opt s_MINMATCHLEN, rest with
        | true, v :: rest =>
            n ← getLongFromObjectOrReply v None;
            match n with
            | None => mret None
            | Some n => lcs_parse rest {| getlen := getlen o; getidx := getidx o; withmatchlen := withmatchlen o; minmatchlen := if n <? 0 then 0 else n |}
            end
        | _, _ => addReply (RError SYNTAX) ;; mret None
        end
  end.

(** The replies for a range. *)
Definition range_replies (withmatchlen : bool) (r : range) : list reply :=
  [RArrayLen (2 + (if withmatchlen then 1 else 0)); RArrayLen 2; RLong (arange_start r); RLong (arange_end r); RArrayLen 2; RLong (brange_start r); RLong (brange_end r)]
  ++ (if withmatchlen then [RLong (match_len r)] else []).

(** The object has a type that is not string. *)
Definition not_string (o : option addr) : C bool :=
  match o with None => mret false | Some a => v ← read_obj a; mret (bool_decide (type_of v <> OBJ_STRING)) end.

Definition decoded (o : option addr) : C sds :=
  match o with None => mret [] | Some a => v ← read_str a; lift (getDecodedObject v) end.

Section LcsCmd.
Context (conf : strconf) (ty : Dict.dictType sds) (can : Dict.dictResizeEnable) (server : environment) (access : Z -> Z).
(** Whether [ztrymalloc] returns memory. *)
Context (ztrymalloc : Z -> bool).

Definition lcs_reply (a b : sds) (o : lcs_options) : C unit :=
  if getlen o && getidx o then addReply (RError LCS_OPTIONS)
  else if (UINT32_MAX - 1 <=? Zlen a) || (UINT32_MAX - 1 <=? Zlen b) then addReply (RError LCS_TOO_LONG)
  else
    let lcssize := u64 (u32 (alen a + 1) * u32 (blen b + 1)) in
    let lcsalloc := u64 (lcssize * 4) in
    let fits := (lcsalloc <? SIZE_MAX) && (lcsalloc / lcssize =? 4) in
    if fits && (u64 (proto_max_bulk_len conf) <? lcsalloc) then addReply (RError LCS_LIMIT)
    else if negb (fits && ztrymalloc lcsalloc) then addReply (RError LCS_MEMORY)
    else
      let computelcs := getidx o || negb (getlen o) in
      '(len, result, emitted) ← lift (lcs_compute a b lcssize computelcs (getidx o) (minmatchlen o));
      if getidx o then
        addReply (RMapLen 2) ;;
        addReply (RBulk s_matches) ;;
        arraylenptr ← gets (fun w => length (out w));
        addReply RDeferredLen ;;
        addReplies (concat (range_replies (withmatchlen o) <$> emitted)) ;;
        addReply (RBulk s_len) ;;
        addReply (RLong len) ;;
        modify (fun w => with_out (<[arraylenptr := RArrayLen (u32 (Zlen emitted))]> (out w)) w)
      else if getlen o then addReply (RLong len)
      else addReply (RBulk result).

Definition lcsCommand (argv : list sds) : C unit :=
  key1 ← arg argv 1;
  key2 ← arg argv 2;
  obja ← lookupKeyRead ty can server access key1;
  objb ← lookupKeyRead ty can server access key2;
  wronga ← not_string obja;
  wrongb ← not_string objb;
  if wronga || wrongb then addReply (RError LCS_TYPES)
  else
    a ← decoded obja;
    b ← decoded objb;
    o ← lcs_parse (drop 3 argv) {| getlen := false; getidx := false; withmatchlen := false; minmatchlen := 0 |};
    match o with None => mret tt | Some o => lcs_reply a b o end.

(** ** What it promises *)

Fixpoint lcs_options_ (args : list sds) (o : lcs_options) : S (option lcs_options) :=
  match args with
  | [] => mret (Some o)
  | opt :: rest =>
      if strcasecmp0 opt s_IDX then lcs_options_ rest {| getlen := getlen o; getidx := true; withmatchlen := withmatchlen o; minmatchlen := minmatchlen o |}
      else if strcasecmp0 opt s_LEN then lcs_options_ rest {| getlen := true; getidx := getidx o; withmatchlen := withmatchlen o; minmatchlen := minmatchlen o |}
      else if strcasecmp0 opt s_WITHMATCHLEN then lcs_options_ rest {| getlen := getlen o; getidx := getidx o; withmatchlen := true; minmatchlen := minmatchlen o |}
      else
        match strcasecmp0 opt s_MINMATCHLEN, rest with
        | true, v :: rest =>
            n ← number_ v None;
            match n with
            | None => mret None
            | Some n => lcs_options_ rest {| getlen := getlen o; getidx := getidx o; withmatchlen := withmatchlen o; minmatchlen := Z.max 0 n |}
            end
        | _, _ => reply_ (RError SYNTAX) ;; mret None
        end
  end.

Definition stringy (o : option content) : bool := match o with None | Some (AStr _) => true | _ => false end.

(** The bytes of the table. *)
Definition table_bytes (a b : sds) : Z := 4 * ((Zlen a + 1) * (Zlen b + 1)).

Definition lcs_reply_ (a b : sds) (o : lcs_options) : S unit :=
  if getlen o && getidx o then reply_ (RError LCS_OPTIONS)
  else if (UINT32_MAX - 1 <=? Zlen a) || (UINT32_MAX - 1 <=? Zlen b) then reply_ (RError LCS_TOO_LONG)
  else if (table_bytes a b <? SIZE_MAX) && (proto_max_bulk_len conf <? table_bytes a b) then reply_ (RError LCS_LIMIT)
  else if negb ((table_bytes a b <? SIZE_MAX) && ztrymalloc (table_bytes a b)) then reply_ (RError LCS_MEMORY)
  else if getidx o then
    let rs := lcs_ranges a b (minmatchlen o) in
    replies_ ([RMapLen 2; RBulk s_matches; RArrayLen (Zlen rs)] ++ concat (range_replies (withmatchlen o) <$> rs) ++ [RBulk s_len; RLong (Zlen (lcs_word a b))])
  else reply_ (if getlen o then RLong (Zlen (lcs_word a b)) else RBulk (lcs_word a b)).

Definition lcs_spec (argv : list sds) : S unit :=
  oa ← lookup_ server (nth_arg argv 1) READ;
  ob ← lookup_ server (nth_arg argv 2) READ;
  if negb (stringy oa && stringy ob) then reply_ (RError LCS_TYPES)
  else
    when_some (lcs_options_ (drop 3 argv) {| getlen := false; getidx := false; withmatchlen := false; minmatchlen := 0 |}) (fun o =>
      lcs_reply_ (bytes_of oa) (bytes_of ob) o).

(** ** It keeps the promise *)

Context `{!DictLaws ty}.
Implicit Types (w : world value) (a : astate content) (key : sds).
#[local] Set Default Proof Using "Type*".

Lemma mirrors_lcs_parse n : forall args o, (length args <= n)%nat -> mirrors ty (lcs_parse args o) (lcs_options_ args o).
Proof using DictLaws0.
  induction n as [|n IH]; intros [|opt rest] o Hn; cbn [length] in Hn; try lia; try apply (mirrors_ret ty). cbn [lcs_parse lcs_options_].
  destruct (strcasecmp0 opt s_IDX); [apply IH; lia|]. destruct (strcasecmp0 opt s_LEN); [apply IH; lia|]. destruct (strcasecmp0 opt s_WITHMATCHLEN); [apply IH; lia|]. destruct (strcasecmp0 opt s_MINMATCHLEN); [|eauto with mirrors].
  destruct rest as [|v rest]; [eauto with mirrors|]. cbn [length] in Hn. apply (mirrors_bind ty); [apply mirrors_number; done|]. intros [k|]; [|apply (mirrors_ret ty)]. replace (if k <? 0 then 0 else k) with (Z.max 0 k) by (destruct (Z.ltb_spec k 0); lia). apply IH. lia.
Qed.

(** The object of a key that was looked up earlier. *)
Definition remains w key (r : option addr) (x : option content) : Prop :=
  match r, x with
  | Some ad, Some x => exists v, at_obj w key ad v /\ val_is v x
  | None, None => True
  | _, _ => False
  end.

Lemma not_string_runs w key r x Q : remains w key r x -> Q (negb (stringy x)) w -> runs (not_string r) w Q.
Proof using Type.
  intros Hr HQ. destruct r as [ad|], x as [x|]; try done; [|by apply runs_ret]. destruct Hr as (v & [_ (o & Ho & Hp)] & Hv). apply runs_bind, (runs_read _ o); [done|]. apply runs_ret. rewrite Hp.
  destruct v as [l|u|t], x as [xs|s|t']; try done. destruct Hv as (-> & ? & ?). cbn. rewrite bool_decide_eq_true_2 by done. done.
Qed.

Lemma decoded_runs w key r x Q : remains w key r x -> stringy x = true -> Q (bytes_of x) w -> runs (decoded r) w Q.
Proof using Type.
  intros Hr Hst HQ. destruct r as [ad|], x as [[xs|s|t']|]; try done; [|by apply runs_ret]. destruct Hr as (v & [_ (o & Ho & Hp)] & Hv). destruct v as [l|u|t]; try done.
  apply runs_bind, runs_bind, (runs_read _ o); [done|]. rewrite Hp. apply runs_ret, (runs_lift s); [by apply getDecodedObject_spec|done].
Qed.

(** The arithmetic of the size. *)
Lemma table_size (x y : sds) : Zlen x < UINT32_MAX - 1 -> Zlen y < UINT32_MAX - 1 ->
  let lcssize := u64 (u32 (alen x + 1) * u32 (blen y + 1)) in let lcsalloc := u64 (lcssize * 4) in
  lcssize = (Zlen x + 1) * (Zlen y + 1) /\ (lcsalloc <? SIZE_MAX) && (lcsalloc / lcssize =? 4) = (table_bytes x y <? SIZE_MAX) /\ (table_bytes x y < SIZE_MAX -> lcsalloc = table_bytes x y).
Proof using Type.
  unfold UINT32_MAX, SIZE_MAX, table_bytes. intros Hx Hy. cbn zeta. unfold alen, blen. rewrite (uwrap_small 32 (Zlen x)), (uwrap_small 32 (Zlen y)), (uwrap_small 32 (Zlen x + 1)), (uwrap_small 32 (Zlen y + 1)) by lia.
  set (n := (Zlen x + 1) * (Zlen y + 1)). assert (Hn : 0 < n < 2 ^ 64) by (unfold n; nia). rewrite (uwrap_small 64 n) by lia. rewrite (Z.mul_comm n 4). split; [done|]. destruct (Z.ltb_spec (4 * n) 18446744073709551615) as [Hs|Hs].
  - rewrite (uwrap_small 64) by lia. split; [|done]. rewrite Z.div_mul by lia. destruct (Z.ltb_spec (4 * n) 18446744073709551615); [done|lia].
  - split; [|lia]. apply andb_false_iff. right. apply Z.eqb_neq. assert (Hlt : u64 (4 * n) < 4 * n) by (unfold uwrap; pose proof (Z.mod_pos_bound (4 * n) (2 ^ 64)); lia). assert (u64 (4 * n) / n < 4) by (apply Z.div_lt_upper_bound; lia). lia.
Qed.

Context (Hbulk : 0 <= proto_max_bulk_len conf <= 2 ^ 34).

Lemma deferred_ranges_refines rs (len : Z) (wm : bool) w a : sim ty w a -> Zlen rs < 2 ^ 32 ->
  refines ty (addReply (RMapLen 2) ;; addReply (RBulk s_matches) ;; p ← gets (fun w => length (out w)); addReply RDeferredLen ;; addReplies (concat (range_replies wm <$> rs)) ;; addReply (RBulk s_len) ;; addReply (RLong len) ;;
        modify (fun w => with_out (<[p := RArrayLen (u32 (Zlen rs))]> (out w)) w))
    (replies_ ([RMapLen 2; RBulk s_matches; RArrayLen (Zlen rs)] ++ concat (range_replies wm <$> rs) ++ [RBulk s_len; RLong len])) w a.
Proof using DictLaws0.
  intros Hs Hl. rewrite uwrap_small by lia. pose proof (sim_log _ _ _ Hs) as Hlog. do 2 (apply runs_bind, runs_modify). apply runs_bind, runs_gets, runs_bind, runs_modify. set (w1 := with_out _ _).
  assert (Hrun : forall l (k : C unit) u Q, runs k (with_out (out u ++ l) u) Q -> runs (addReplies l ;; k) u Q).
  { intros l k u Q Hk. apply runs_bind. exists tt, (with_out (out u ++ l) u). split; [|done]. clear Hk. revert u. induction l as [|r l IH]; intros u; [destruct u; cbn; by rewrite app_nil_r|]. cbn [addReplies]. unfold mbind, K_bind, addReply, modify. cbn [mbind option_bind]. rewrite IH. cbn. by rewrite <- app_assoc. }
  apply Hrun, runs_bind, runs_modify, runs_bind, runs_modify, runs_modify. apply (sim_relog ty w _ _ _ Hs); try done. unfold log_of in *. cbn in *. rewrite <- Hlog. cbn. f_equal. rewrite <- !app_assoc. cbn [app].
  rewrite insert_app_r_alt by (rewrite length_app; lia). rewrite length_app. cbn [length]. by replace (length (out w) + 2 - length (out w))%nat with 2%nat by lia.
Qed.

Lemma ranges_few (x y : sds) m : (length (lcs_ranges x y m) <= length x)%nat.
Proof using Type.
  unfold lcs_ranges. etrans; [apply length_filter|]. rewrite length_fmap. destruct (word_common x y) as (Hsub & _ & _). apply sublist_length in Hsub. rewrite <- ranges_total in Hsub. etrans; [|exact Hsub].
  induction (groups None (full_trace x y)) as [|[[[x1 x2] y1] y2] l IH]; [done|]. cbn in *. lia.
Qed.

Lemma lcs_reply_refines x y o w a : sim ty w a -> refines ty (lcs_reply x y o) (lcs_reply_ x y o) w a.
Proof.
  intros Hs. unfold lcs_reply, lcs_reply_. destruct (getlen o && getidx o); [log_done Hs|]. destruct (Z.leb_spec (UINT32_MAX - 1) (Zlen x)) as [|Hx]; cbn [orb]; [log_done Hs|]. destruct (Z.leb_spec (UINT32_MAX - 1) (Zlen y)) as [|Hy]; [log_done Hs|].
  destruct (table_size x y Hx Hy) as (Hsize & Hfits & Halloc). cbn zeta. rewrite Hfits, Hsize in *. rewrite (uwrap_small 64 (proto_max_bulk_len conf)) by lia. destruct (Z.ltb_spec (table_bytes x y) SIZE_MAX) as [Hlt|]; cbn [andb negb]; [|log_done Hs]. rewrite Halloc by done. clear Hsize Hfits Halloc.
  destruct (Z.ltb_spec (proto_max_bulk_len conf) (table_bytes x y)) as [|Hle]; [log_done Hs|]. destruct (ztrymalloc (table_bytes x y)); cbn [negb]; [|log_done Hs].
  assert (Hab : (Zlen x + 1) * (Zlen y + 1) <= 2 ^ 32) by (unfold table_bytes in Hle; lia). pose proof (compute_spec x y Hx Hy Hab (getidx o || negb (getlen o)) (getidx o) (minmatchlen o)) as Hc.
  replace (Z.of_nat (cells x y)) with ((Zlen x + 1) * (Zlen y + 1)) in Hc by (unfold cells, width; lia). apply runs_bind, (runs_lift _ _ _ _ Hc). destruct (word_common x y) as (_ & _ & Hw). rewrite <- Hw. destruct (getidx o); cbn [orb].
  - apply deferred_ranges_refines; [done|]. pose proof (ranges_few x y (minmatchlen o)) as Hf. unfold UINT32_MAX in *. change (selected true (minmatchlen o) (groups None (full_trace x y))) with (lcs_ranges x y (minmatchlen o)). lia.
  - destruct (getlen o); cbn [negb]; fold_refines; log_done Hs.
Qed.

(** What was found before another lookup is still there. *)
Lemma remains_after w1 a1 w2 key1 key2 r1 x1 r2 :
  looked_up w1 a1 key1 r1 x1 -> (forall x t, x1 = Some x -> store a1 !! key1 = Some (x, t) -> hidden server t = false) -> looked_up w2 (result (lookup_ server key2 READ) a1) key2 r2 (lookup_ server key2 READ a1).1 ->
  (forall k ad u, k <> key2 \/ r2 <> None -> at_obj w1 k ad u -> at_obj w2 k ad u) -> remains w2 key1 r1 x1.
Proof using Type.
  intros H1 Hv H2 Hk. destruct r1 as [ad|], x1 as [x|]; try done. destruct H1 as (v & t & Hat & Hval & Hst). exists v. split; [|done]. apply Hk; [|done]. destruct (decide (key1 = key2)) as [->|]; [|by left]. right. intros ->.
  destruct (lookup_again server key2 READ a1 x t Hst (Hv _ _ eq_refl Hst)) as [E _]. by rewrite E in H2.
Qed.

Lemma lcs_refines argv w a : (3 <= length argv)%nat -> sim ty w a -> refines ty (lcsCommand argv) (lcs_spec argv) w a.
Proof.
  intros Hl Hs. do 2 (apply (arg_refines ty); [lia|]). set (key1 := nth_arg argv 1). set (key2 := nth_arg argv 2). unfold refines, lcs_spec. fold key1 key2. rewrite result_bind. apply runs_bind, read_lookup, (lookupKey_runs ty can server access w a key1 READ); [done|]. intros r1 w1 Hs1 Hr1 _.
  pose proof (fun x t => lookup_visible server key1 READ a x x t) as Hvis. set (x1 := (lookup_ server key1 READ a).1) in *. set (a1 := result (lookup_ server key1 READ) a) in *. rewrite result_bind. apply runs_bind, read_lookup, (lookupKey_runs ty can server access w1 a1 key2 READ); [done|]. intros r2 w2 Hs2 Hr2 Hk.
  pose proof (remains_after w1 a1 w2 key1 key2 r1 x1 r2 Hr1 Hvis Hr2 Hk) as Hm1. set (x2 := (lookup_ server key2 READ a1).1) in *. set (a2 := result (lookup_ server key2 READ) a1) in *.
  assert (Hm2 : remains w2 key2 r2 x2) by (destruct r2, x2; try done; destruct Hr2 as (v & t & ? & ? & _); by exists v). clearbody x1 x2 a2. apply runs_bind, (not_string_runs w2 key1 r1 x1); [done|]. apply runs_bind, (not_string_runs w2 key2 r2 x2); [done|]. rewrite <- negb_andb.
  destruct (stringy x1 && stringy x2) eqn:Est; cbn [negb]; [|fold_refines; log_done Hs2]. apply andb_true_iff in Est as [E1 E2]. apply runs_bind, (decoded_runs w2 key1 r1 x1); [done..|]. apply runs_bind, (decoded_runs w2 key2 r2 x2); [done..|].
  fold_refines. apply (refines_some ty); [by apply (mirrors_lcs_parse (length (drop 3 argv)))|done|]. intros o w3 _ Hq. apply lcs_reply_refines, Hq.
Qed.

End LcsCmd.

End LcsCmd.
