(* ===== verification/StrEffect.v ===== *)
(** * What a string command can change

    Every abstract string command removes keys that expired, and gives some
    keys strings, new times to expire, or deletes them.  Each of these keys is
    signalled to the clients that watch it, and the count of changes
    increases. *)

From stdpp Require Import gmap.
From S2P Require Import Prelude.
From S2P Require Import NumConv.
From S2P Require Import Dict.
From S2P Require Import Keyspace.
From S2P Require Import KeyspaceSpec.
From S2P Require Import KeyspaceSet.
From S2P Require Import StrType.
From S2P Require Import ListCmd.
From S2P Require Import ListAbs.
From S2P Require Import ListStep.
From S2P Require Import ListEffect.
From S2P Require Import StrCmd.
From S2P Require Import StrAbs.
From S2P Require Import StrStep.
From S2P Require Import StrCmdSpec.
From S2P Require Import Lcs.
From S2P Require Import LcsCmd.
Import NumConv Keyspace KsSpec KsSet StrType ListCmd ListAbs ListStep ListEffect StrCmd StrAbs StrCmdSpec LcsCmd.

Module StrEffect.

Implicit Types (a : astate content) (key : sds) (K T : gset sds).

(** The value of a key, if there is one, is a string. *)
Definition string_or_none (e : option (content * option Z)) : Prop := match e with Some (AStr _, _) | None => True | _ => False end.

(** The keys of [K] may have changed, the ones of [T] were signalled, and the
    count of changes increased by [n] or more. *)
Definition touches K T (n : Z) {B} (m : S B) a : Prop := exists es, grows a (result m a) es /\ l_dirty (alog a) + n <= l_dirty (alog (result m a)) /\
  (forall k, k ∈ T -> SignalModified k ∈ es) /\
  forall k, store (result m a) !! k = store a !! k \/ (k ∈ K /\ string_or_none (store (result m a) !! k)) \/
    (store (result m a) !! k = None /\ SignalModified k ∈ es /\ exists b, PropagateDeletion k b ∈ es).

Lemma touches_bind K1 K2 T1 T2 n1 n2 {B D} (m : S B) (k : B -> S D) a :
  touches K1 T1 n1 m a -> touches K2 T2 n2 (k (m a).1) (result m a) -> touches (K1 ∪ K2) (T1 ∪ T2) (n1 + n2) (mbind k m) a.
Proof.
  intros (es1 & Hg1 & Hd1 & Ht1 & Hk1) (es2 & Hg2 & Hd2 & Ht2 & Hk2). unfold touches. rewrite result_bind. exists (es1 ++ es2). split; [unfold grows in *; by rewrite Hg2, Hg1, app_assoc|]. split; [lia|].
  split; [intros x [Hx|Hx]%elem_of_union; apply elem_of_app; [left; by apply Ht1|right; by apply Ht2]|].
  intros x. destruct (Hk2 x) as [E|[[Hx Hs]|(E & Hs & b & Hb)]]; [|right; left; split; [set_solver|done]|right; right; split; [done|]; split; [set_solver|exists b; set_solver]].
  rewrite E. destruct (Hk1 x) as [E1|[[Hx Hs]|(E1 & Hs & b & Hb)]]; [by left|right; left; split; [set_solver|done]|right; right; split; [done|]; split; [set_solver|exists b; set_solver]].
Qed.

Lemma touches_silent server {B} (m : S B) a : silent server m -> touches ∅ ∅ 0 m a.
Proof.
  intros Hm. destruct (Hm a) as (es & Hg & Hd & Hk). exists es. split; [done|]. split; [lia|]. split; [set_solver|]. intros k. destruct (Hk k) as [E|(x & t & _ & _ & E & Hs & Hb)]; [by left|]. by right; right.
Qed.

Lemma touches_ret {B} (b : B) a : touches ∅ ∅ 0 (mret b) a.
Proof. exists []. unfold grows. rewrite app_nil_r. split; [done|]. split; [cbn; lia|]. split; [set_solver|]. intros k. by left. Qed.

Lemma touches_reply r a : touches ∅ ∅ 0 (reply_ r) a.
Proof. exists []. unfold grows. rewrite app_nil_r. split; [done|]. split; [cbn; lia|]. split; [set_solver|]. intros k. by left. Qed.

Lemma touches_replies rs a : touches ∅ ∅ 0 (replies_ rs) a.
Proof. exists []. unfold grows. rewrite app_nil_r. split; [done|]. split; [cbn; lia|]. split; [set_solver|]. intros k. by left. Qed.

Definition signals (e : event) : gset sds := match e with SignalModified k => {[k]} | _ => ∅ end.

Lemma touches_event e a : touches ∅ (signals e) 0 (event_ e) a.
Proof. exists [e]. split; [done|]. split; [cbn; lia|]. split; [destruct e; cbn; set_solver|]. intros k. by left. Qed.

Lemma touches_dirty n a : touches ∅ ∅ n (dirty_ n) a.
Proof. exists []. unfold grows. rewrite app_nil_r. split; [done|]. split; [cbn; lia|]. split; [set_solver|]. intros k. by left. Qed.

Lemma touches_eq K T n {B D} (m : S B) (m' : S D) a : result m a = result m' a -> touches K T n m' a -> touches K T n m a.
Proof. unfold touches. by intros ->. Qed.

Lemma touches_weaken K T n K' T' n' {B} (m : S B) a : touches K T n m a -> K ⊆ K' -> T' ⊆ T -> n' <= n -> touches K' T' n' m a.
Proof.
  intros (es & Hg & Hd & Ht & Hk) HK HT Hn. exists es. split; [done|]. split; [lia|]. split; [set_solver|]. intros k. destruct (Hk k) as [E|[[Hx Hs]|E]]; [by left|right; left; split; [set_solver|done]|by right; right].
Qed.

(** A change of the map at one key. *)
Lemma touches_store (f : gmap sds (content * option Z) -> gmap sds (content * option Z)) key a :
  (forall k, k <> key -> f (store a) !! k = store a !! k) -> string_or_none (f (store a) !! key) -> touches {[key]} ∅ 0 (on_store f) a.
Proof.
  intros Hf Hs. exists []. unfold grows. rewrite app_nil_r. split; [done|]. split; [cbn; lia|]. split; [set_solver|]. intros k. cbn. destruct (decide (k = key)) as [->|Hne]; [right; left; split; [set_solver|done]|left; by apply Hf].
Qed.

Lemma touches_put key s a : touches {[key]} ∅ 0 (put_ key (AStr s)) a.
Proof. apply touches_store; [intros k Hk; by rewrite lookup_alter_ne|]. rewrite lookup_alter_eq. by destruct (store a !! key) as [[x t]|]. Qed.

Lemma touches_time key t a : string_or_none (store a !! key) -> touches {[key]} ∅ 0 (set_time_ key t) a.
Proof. intros Hs. apply touches_store; [intros k Hk; by rewrite lookup_alter_ne|]. rewrite lookup_alter_eq. by destruct (store a !! key) as [[x t']|]. Qed.

Lemma touches_add key s a : touches {[key]} ∅ 0 (add_ key (AStr s)) a.
Proof.
  eapply touches_weaken; [apply touches_bind; [apply (touches_store _ key); [intros k Hk; by apply lookup_insert_ne|by rewrite lookup_insert_eq]|]; apply touches_bind; apply touches_event|set_solver..|done].
Qed.

Lemma touches_remove key a : touches {[key]} ∅ 0 (remove_ key) a.
Proof.
  destruct (store a !! key) as [[x t]|] eqn:E.
  - apply (touches_eq _ _ _ _ (event_ (ModuleUnlink key) ;; event_ (DeletedReady key (content_type x)) ;; on_store (delete key))); [unfold result, remove_; by rewrite E|].
    eapply touches_weaken; [apply touches_bind; [apply touches_event|]; apply touches_bind; [apply touches_event|]; apply (touches_store _ key); [intros k Hk; by apply lookup_delete_ne|by rewrite lookup_delete_eq]|set_solver..|done].
  - apply (touches_eq _ _ _ _ (mret tt)); [unfold result, remove_; by rewrite E|]. eapply touches_weaken; [apply touches_ret|set_solver..|done].
Qed.

Lemma touches_write o key s a : touches {[key]} ∅ 0 (write_ o key s) a.
Proof. unfold write_. destruct (absent o); [apply touches_add|apply touches_put]. Qed.

Lemma touches_store_value key s a : touches {[key]} ∅ 0 (store_ key (AStr s)) a.
Proof.
  destruct (store a !! key) as [[x t]|] eqn:E.
  - apply (touches_eq _ _ _ _ (overwrite_ key x (AStr s))); [unfold result, store_; by rewrite E|]. eapply touches_weaken; [apply touches_bind; [apply touches_event|]; apply touches_bind; [apply touches_event|]; apply touches_put|set_solver..|done].
  - apply (touches_eq _ _ _ _ (add_ key (AStr s))); [unfold result, store_; by rewrite E|]. apply touches_add.
Qed.

Lemma touches_when (b : bool) K (m : S unit) a : touches K ∅ 0 m a -> touches K ∅ 0 (when_ b m) a.
Proof. intros Hm. destruct b; [done|]. eapply touches_weaken; [apply touches_ret|set_solver..|done]. Qed.

Lemma touches_replace key s keep a : touches {[key]} {[key]} 0 (replace_ key s keep) a.
Proof.
  destruct (store_stored key (AStr s) a) as (t & Ht). eapply touches_weaken; [eapply touches_bind; [apply touches_store_value|]; eapply touches_bind; [apply touches_when, (touches_time key)|apply touches_event]|set_solver..|done]. by rewrite Ht.
Qed.

Lemma touches_expire_at server key time a s t : store a !! key = Some (AStr s, t) -> touches {[key]} ∅ 0 (expire_at_ server key time) a.
Proof.
  intros Hst. eapply touches_weaken; [eapply touches_bind; [apply (touches_time key); by rewrite Hst|]; apply touches_when, touches_event|set_solver..|done].
Qed.

(** ** Commands *)

(** Every key that changed was signalled and counted. *)
Definition sound {B} (m : S B) a : Prop := exists K T n, touches K T n m a /\ K ⊆ T /\ 0 <= n /\ (K = ∅ \/ 0 < n).

Lemma sound_bind {B D} (m : S B) (k : B -> S D) a : sound m a -> sound (k (m a).1) (result m a) -> sound (mbind k m) a.
Proof.
  intros (K1 & T1 & n1 & H1 & HK1 & Hn1 & Hc1) (K2 & T2 & n2 & H2 & HK2 & Hn2 & Hc2). exists (K1 ∪ K2), (T1 ∪ T2), (n1 + n2). split; [by apply touches_bind|]. split; [set_solver|]. split; [lia|].
  destruct Hc1 as [->|]; [|right; lia]. destruct Hc2 as [->|]; [left; set_solver|right; lia].
Qed.

Lemma sound_none {B} T (m : S B) a : touches ∅ T 0 m a -> sound m a.
Proof. intros Hm. exists ∅, T, 0. split; [done|]. split; [set_solver|]. split; [done|by left]. Qed.

Lemma sound_silent server {B} (m : S B) a : silent server m -> sound m a.
Proof. intros Hm. by eapply sound_none, touches_silent. Qed.

Lemma sound_read {B} (m : S B) a : result m a = a -> sound m a.
Proof. intros Hm. apply (sound_none ∅), (touches_eq _ _ _ _ (mret tt)); [done|apply touches_ret]. Qed.

Lemma sound_when (b : bool) (m : S unit) a : sound m a -> sound (when_ b m) a.
Proof. intros Hm. destruct b; [done|]. eapply sound_none, touches_ret. Qed.

Lemma sound_some {B} (m : S (option B)) (k : B -> S unit) a : sound m a -> (forall b, sound (k b) (result m a)) -> sound (when_some m k) a.
Proof. intros Hm Hk. apply sound_bind; [done|]. destruct (m a).1; [apply Hk|]. eapply sound_none, touches_ret. Qed.

(** One key. *)
Lemma sound_key {B} K T n key (m : S B) a : touches K T n m a -> K ⊆ {[key]} -> key ∈ T -> 0 < n -> sound m a.
Proof. intros Hm HK HT Hn. exists K, T, n. split; [done|]. split; [set_solver|]. split; [lia|by right]. Qed.

(** The end of a block that changes one key. *)
Lemma touches_finish key e r a : touches ∅ {[key]} 1 (event_ (SignalModified key) ;; event_ e ;; dirty_ 1 ;; reply_ r) a.
Proof. eapply touches_weaken; [eapply touches_bind; [apply touches_event|]; eapply touches_bind; [apply touches_event|]; eapply touches_bind; [apply touches_dirty|apply touches_reply]|set_solver..|done]. Qed.

Lemma touches_delete key name a : touches {[key]} {[key]} 1 (delete_ key name) a.
Proof.
  eapply touches_weaken; [eapply touches_bind; [apply touches_remove|]; eapply touches_bind; [apply touches_event|]; eapply touches_bind; [apply touches_event|]; eapply touches_bind; [apply touches_event|apply touches_dirty]|set_solver..|done].
Qed.

Section Commands.
Context (conf : strconf) (server : environment) (aof_client : bool).

Lemma silent_get key : silent server (get_ server key).
Proof.
  apply silent_bind; [apply silent_or_reply|]. intros o. apply silent_bind; [apply silent_check|]. intros []; [apply silent_ret|]. apply silent_bind; [apply silent_when, silent_reply|intros _; apply silent_ret].
Qed.

Lemma silent_expiry flags tunit expire : silent server (expiry_ server flags tunit expire).
Proof.
  destruct expire as [e|]; [|apply silent_ret]. apply silent_bind; [apply silent_number|]. intros [v|]; [|apply silent_ret]. destruct (_ && _); [apply silent_ret|]. apply silent_bind; [apply silent_reply|intros _; apply silent_ret].
Qed.

Lemma silent_options argv command : silent server (options_ argv command).
Proof. unfold options_. destruct (parse_options _ _ _); [apply silent_ret|]. apply silent_bind; [apply silent_reply|intros _; apply silent_ret]. Qed.

Lemma silent_fits n : silent server (fits_ conf server aof_client n).
Proof. unfold fits_. destruct (_ || _); [apply silent_ret|]. apply silent_bind; [apply silent_reply|intros _; apply silent_ret]. Qed.

Lemma sound_with_str key missing k a : (forall s t a1, store a1 !! key = Some (AStr s, t) -> sound (k s) a1) -> full a -> sound (with_str server key missing k) a.
Proof.
  intros Hk Hf. unfold with_str. apply sound_bind; [apply (sound_silent server), silent_or_reply|]. rewrite value_or_reply, result_or_reply. destruct (lookup_ server key READ a).1 as [x|] eqn:Ex.
  2: { apply sound_bind; [apply (sound_silent server), silent_check|]. destruct (check_ _ _ _).1; eapply sound_none, touches_ret. }
  destruct (lookup_stored server _ _ _ _ Ex) as (t & Hst). assert (Hp : proper x) by (eapply Hf, lookup_weaken; [exact Hst|apply lookup_sub]). rewrite <- (check_store (Some x) OBJ_STRING) in Hst. apply sound_bind; [apply (sound_silent server), silent_check|]. unfold check_ at 1.
  case_bool_decide as E; [|eapply sound_none, touches_ret]. destruct x as [xs|s|t']; cbn in E; [done| |by destruct Hp]. apply (Hk s t). done.
Qed.

Lemma sound_with_value key k a : (forall o a1, sound (k o) a1) -> sound (with_value server key k) a.
Proof.
  intros Hk. apply sound_bind; [apply (sound_silent server), silent_lookup|]. apply sound_bind; [apply (sound_silent server), silent_check|]. destruct (check_ _ _ _).1; [eapply sound_none, touches_ret|apply Hk].
Qed.

Lemma replace_kept key v keep a (m : S unit) : store (result m (result (replace_ key v keep) a)) = store (result (replace_ key v keep) a) -> exists t, store (result m (result (replace_ key v keep) a)) !! key = Some (AStr v, t).
Proof. intros ->. apply replace_stored. Qed.

Lemma set_sound argv flags key v expire tunit r1 r2 a : sound (set_ server argv flags key v expire tunit r1 r2) a.
Proof.
  apply sound_some; [apply (sound_silent server), silent_expiry|]. intros time. cbn zeta. apply sound_bind; [destruct (has flags OBJ_SET_GET); [apply (sound_silent server), silent_get|eapply sound_none, touches_ret]|].
  destruct (negb _); [eapply sound_none, touches_ret|]. apply sound_bind; [apply (sound_silent server), silent_lookup|]. destruct (_ || _); [apply sound_when; eapply sound_none, touches_reply|]. set (a1 := result (lookup_ server key WRITE) _). clearbody a1.
  set (timed := match expire with Some _ => true | None => false end). set (keep := has flags OBJ_KEEPTTL || timed). destruct (replace_stored key v keep a1) as (t & Ht).
  eapply (sound_key _ _ _ key); [eapply touches_bind; [apply touches_replace|]; eapply touches_bind; [apply touches_dirty|]; eapply touches_bind; [apply touches_event|]; eapply touches_bind; [|eapply touches_bind; [apply touches_when, touches_reply|apply touches_when, touches_event]];
    apply (touches_when timed {[key]}); eapply touches_weaken; [eapply touches_bind; [eapply (touches_expire_at server key time _ v t), Ht|]; eapply touches_bind; [apply touches_when, touches_event|apply touches_event]|set_solver..|done]|set_solver|set_solver|done].
Qed.

Lemma set_spec_sound argv a : sound (set_spec server argv) a.
Proof. apply sound_some; [apply (sound_silent server), silent_options|]. intros o. apply set_sound. Qed.

Lemma getex_sound argv a : full a -> sound (getex_spec server argv) a.
Proof.
  intros Hf. apply sound_bind; [apply (sound_silent server), silent_options|]. destruct (options_ argv COMMAND_GET a).1 as [o|]; [|eapply sound_none, touches_ret]. cbn zeta. set (key := nth_arg argv 1).
  apply sound_with_str; [|eapply expired_full; [apply (silent_options argv COMMAND_GET a)|done]]. intros s t a1 Hst. apply sound_bind; [apply (sound_silent server), silent_expiry|]. assert (Hst1 : exists t1, string_or_none (store (result (expiry_ server (o_flags o) (o_unit o) (o_expire o)) a1) !! key) /\ t1 = t).
  { exists t. split; [|done]. destruct (silent_expiry (o_flags o) (o_unit o) (o_expire o) a1) as (es & _ & _ & Hk). destruct (Hk key) as [E|(x & t' & _ & _ & E & _)]; rewrite E; [by rewrite Hst|done]. }
  destruct Hst1 as (_ & Hst1 & _). destruct (expiry_ server (o_flags o) (o_unit o) (o_expire o) a1).1 as [time|]; [|eapply sound_none, touches_ret]. set (a2 := result (expiry_ server _ _ _) a1) in *. clearbody a2. apply sound_bind; [eapply sound_none, touches_reply|].
  destruct (_ && passed server time); [eapply (sound_key _ _ _ key); [apply touches_delete|set_solver..|done]|]. destruct (o_expire o) as [e|].
  - eapply (sound_key _ _ _ key); [eapply touches_bind; [eapply touches_bind; [apply (touches_time key); exact Hst1|apply touches_when, touches_event]|]; eapply touches_bind; [apply touches_event|]; eapply touches_bind; [apply touches_event|]; eapply touches_bind; [apply touches_event|apply touches_dirty]|set_solver|set_solver|done].
  - apply sound_bind; [by apply sound_read|]. apply sound_when.
    eapply (sound_key _ _ _ key); [eapply touches_bind; [apply (touches_time key); exact Hst1|]; eapply touches_bind; [apply touches_event|]; eapply touches_bind; [apply touches_event|]; eapply touches_bind; [apply touches_event|apply touches_dirty]|set_solver|set_solver|done].
Qed.

Lemma getdel_sound argv a : sound (getdel_spec server argv) a.
Proof.
  apply sound_bind; [apply (sound_silent server), silent_get|]. destruct (negb _); [eapply sound_none, touches_ret|]. apply sound_bind; [by apply sound_read|]. apply sound_when. eapply (sound_key _ _ _ (nth_arg argv 1)); [apply touches_delete|set_solver..|done].
Qed.

Lemma getset_sound argv a : sound (getset_spec server argv) a.
Proof.
  apply sound_bind; [apply (sound_silent server), silent_get|]. destruct (negb _); [eapply sound_none, touches_ret|]. apply sound_bind; [apply (sound_silent server), silent_lookup|].
  eapply (sound_key _ _ _ (nth_arg argv 1)); [eapply touches_bind; [apply touches_replace|]; eapply touches_bind; [apply touches_event|]; eapply touches_bind; [apply touches_dirty|apply touches_event]|set_solver|set_solver|done].
Qed.

Lemma change_sound o key s e r a : sound (write_ o key s ;; event_ (SignalModified key) ;; event_ e ;; dirty_ 1 ;; reply_ r) a.
Proof. eapply (sound_key _ _ _ key); [eapply touches_bind; [apply touches_write|apply touches_finish]|set_solver|set_solver|done]. Qed.

Lemma setrange_sound argv a : sound (setrange_spec conf server aof_client argv) a.
Proof.
  apply sound_some; [apply (sound_silent server), silent_number|]. intros offset. destruct (offset <? 0); [eapply sound_none, touches_reply|]. apply sound_with_value. intros o a1. destruct (_ =? 0); [eapply sound_none, touches_reply|].
  apply sound_bind; [apply (sound_silent server), silent_fits|]. destruct (negb _); [eapply sound_none, touches_ret|apply change_sound].
Qed.

Lemma append_sound argv a : sound (append_spec conf server aof_client argv) a.
Proof.
  apply sound_with_value. intros o a1. cbn zeta. apply sound_bind; [destruct (absent o); [eapply sound_none, touches_ret|apply (sound_silent server), silent_fits]|]. destruct (negb _); [eapply sound_none, touches_ret|apply change_sound].
Qed.

Lemma incr_sound argv n a : sound (incr_ server argv n) a.
Proof.
  apply sound_with_value. intros o a1. apply sound_some; [destruct (absent o); [eapply sound_none, touches_ret|apply (sound_silent server), silent_number]|]. intros v. destruct (in_ll _); [apply change_sound|eapply sound_none, touches_reply].
Qed.

Lemma incrby_sound argv a : sound (incrby_spec server argv) a.
Proof. apply sound_some; [apply (sound_silent server), silent_number|]. intros n. apply incr_sound. Qed.

Lemma decrby_sound argv a : sound (decrby_spec server argv) a.
Proof. apply sound_some; [apply (sound_silent server), silent_number|]. intros n. destruct (n =? LLONG_MIN); [eapply sound_none, touches_reply|apply incr_sound]. Qed.

Lemma silent_some_key n : forall args, length args = (2 * n)%nat -> silent server (some_key server args).
Proof.
  induction n as [|n IH]; intros [|key [|v rest]] Hl; cbn [length] in Hl; try lia; [apply silent_ret|]. apply silent_bind; [apply silent_lookup|]. intros o. destruct (absent o); [apply IH; lia|apply silent_ret].
Qed.

Lemma touches_mset nx n : forall args a, length args = (2 * n)%nat -> exists K, touches K K 0 (mset_ server args nx) a.
Proof.
  induction n as [|n IH]; intros [|key [|v rest]] a Hl; cbn [length] in Hl; try lia; [exists ∅; apply touches_ret|]. cbn [mset_].
  assert (Hl1 : touches ∅ ∅ 0 (if nx then mret tt else lookup_ server key WRITE ;; mret tt) a) by (destruct nx; [apply touches_ret|apply (touches_silent server), silent_bind; [apply silent_lookup|intros _; apply silent_ret]]).
  set (m := if nx then mret tt else lookup_ server key WRITE ;; mret tt) in *. destruct (IH rest (result (event_ (Notify e_set key)) (result (replace_ key v false) (result m a))) ltac:(lia)) as (K & HK). exists ({[key]} ∪ K).
  eapply touches_weaken; [eapply touches_bind; [exact Hl1|]; eapply touches_bind; [apply touches_replace|]; eapply touches_bind; [apply touches_event|exact HK]|set_solver..|done].
Qed.

Lemma mset_sound argv nx a : (3 <= length argv)%nat -> sound (mset_spec server argv nx) a.
Proof.
  intros Hl. unfold mset_spec. destruct (Z.eqb_spec (Zlen argv mod 2) 0) as [E|E]; [eapply sound_none, touches_reply|]. destruct argv as [|c args]; [done|]. cbn [drop length] in *. rewrite drop_0.
  assert (Hn : exists n, length args = (2 * n)%nat) by (exists (Nat.div2 (length args)); pose proof (Nat.div2_odd (length args)) as Ho; destruct (Nat.odd (length args)) eqn:Eo; cbn [Nat.b2n] in Ho; [exfalso; apply E; rewrite Ho; replace (Z.of_nat (Datatypes.S (2 * Nat.div2 (length args) + 1))) with (2 * (Z.of_nat (Nat.div2 (length args)) + 1)) by lia; rewrite Z.mul_comm; apply Z.mod_mul; lia|lia]).
  destruct Hn as (n & Hn). apply sound_bind; [destruct nx; [apply (sound_silent server); by apply (silent_some_key n)|eapply sound_none, touches_ret]|]. destruct (_ : bool); [eapply sound_none, touches_reply|]. set (a1 := result _ a). clearbody a1.
  destruct (touches_mset nx n args a1 Hn) as (K & HK). assert (Hd : 0 < (Z.of_nat (Datatypes.S (length args)) - 1) / 2) by (replace (Z.of_nat (Datatypes.S (length args)) - 1) with (Z.of_nat n * 2) by lia; rewrite Z.div_mul; lia).
  exists (K ∪ (∅ ∪ ∅)), (K ∪ (∅ ∪ ∅)), (0 + ((Z.of_nat (Datatypes.S (length args)) - 1) / 2 + 0)). split; [|split; [done|split; [lia|right; lia]]]. eapply touches_bind; [exact HK|]. eapply touches_bind; [apply touches_dirty|apply touches_reply].
Qed.

(** ** Commands that read *)

Lemma with_str_silent key missing k : (forall s, silent server (k s)) -> silent server (with_str server key missing k).
Proof. intros Hk. apply silent_bind; [apply silent_or_reply|]. intros o. apply silent_bind; [apply silent_check|]. intros []; [apply silent_ret|]. destruct (absent o); [apply silent_ret|apply Hk]. Qed.

Lemma getrange_silent argv : silent server (getrange_spec server argv).
Proof.
  apply silent_bind; [apply silent_number|]. intros [i|]; [|apply silent_ret]. apply silent_bind; [apply silent_number|]. intros [j|]; [|apply silent_ret]. apply with_str_silent. intros s. apply silent_reply.
Qed.

Lemma strlen_silent argv : silent server (strlen_spec server argv).
Proof. apply with_str_silent. intros s. apply silent_reply. Qed.

Lemma mget_silent keys : silent server (mget_ server keys).
Proof. induction keys as [|key keys IH]; [apply silent_ret|]. apply silent_bind; [apply silent_lookup|]. intros o. apply silent_bind; [apply silent_reply|]. by intros _. Qed.

Lemma silent_lcs_options n : forall args o, (length args <= n)%nat -> silent server (lcs_options_ args o).
Proof.
  induction n as [|n IH]; intros [|opt rest] o Hn; cbn [length] in Hn; try lia; try apply silent_ret. cbn [lcs_options_]. destruct (strcasecmp0 opt s_IDX); [apply IH; lia|]. destruct (strcasecmp0 opt s_LEN); [apply IH; lia|]. destruct (strcasecmp0 opt s_WITHMATCHLEN); [apply IH; lia|].
  destruct (strcasecmp0 opt s_MINMATCHLEN), rest as [|v rest]; try (apply silent_bind; [apply silent_reply|intros _; apply silent_ret]). cbn [length] in Hn. apply silent_bind; [apply silent_number|]. intros [k|]; [apply IH; lia|apply silent_ret].
Qed.

Lemma lcs_silent ztrymalloc argv : silent server (lcs_spec conf server ztrymalloc argv).
Proof.
  apply silent_bind; [apply silent_lookup|]. intros oa. apply silent_bind; [apply silent_lookup|]. intros ob. destruct (negb _); [apply silent_reply|]. apply silent_bind; [by apply (silent_lcs_options (length (drop 3 argv)))|]. intros [o|]; [|apply silent_ret].
  unfold lcs_reply_. destruct (_ && _); [apply silent_reply|]. destruct (_ || _); [apply silent_reply|]. destruct (_ && _); [apply silent_reply|]. destruct (negb _); [apply silent_reply|]. destruct (getidx o); [apply silent_replies|apply silent_reply].
Qed.

End Commands.

(** ** What it means *)

Lemma sound_signalled (m : S unit) a : sound m a -> exists es, grows a (result m a) es /\ l_dirty (alog a) <= l_dirty (alog (result m a)) /\
  forall k, store (result m a) !! k <> store a !! k -> SignalModified k ∈ es /\ (l_dirty (alog a) < l_dirty (alog (result m a)) \/ exists b, PropagateDeletion k b ∈ es).
Proof.
  intros (K & T & n & (es & Hg & Hd & Ht & Hk) & HK & Hn & Hc). exists es. split; [done|]. split; [lia|]. intros k Hne. destruct (Hk k) as [E|[[Hx _]|(_ & Hs & Hb)]]; [done| |by split; [|right]]. split; [apply Ht; set_solver|]. left. destruct Hc as [->|]; [set_solver|lia].
Qed.

Lemma sound_full (m : S unit) a : sound m a -> full a -> full (result m a).
Proof.
  intros (K & T & n & (es & Hg & Hd & Ht & Hk) & HK & Hn & Hc) Hf k x t Hst. destruct (Hk k) as [E|[[Hx Hs]|(E & _)]]; [eapply Hf; by rewrite <- E| |congruence]. rewrite Hst in Hs. by destruct x.
Qed.

End StrEffect.
