(* ===== verification/Skiplist.v ===== *)
(** * Skip lists (src/redis-7.2.4/src/t_zset.c, server.h; sdscmp of sds.c)

    The nodes are in a heap: a finite map from addresses to nodes, which
    [zmalloc] and [zfree] extend and shrink, so that a node is shared by all
    the pointers to it and an access to a freed one is [None].  A [double] is
    an IEEE 754 value; the strings are byte lists.  The results of [random()]
    are read from a list; [None] is also that this list is too short, and a
    failed assertion. *)

From stdpp Require Import gmap.
From Stdlib Require Import SpecFloat.
From S2P Require Import Prelude.
From S2P Require Import Dict.

Module Skiplist.

Abbreviation double := spec_float.
Abbreviation sds := (list Z).
Abbreviation addr := nat.

Abbreviation ZSKIPLIST_MAXLEVEL := 32%nat.
(** [ZSKIPLIST_P*RAND_MAX], truncated. *)
Abbreviation threshold := 536870911.

(** Comparisons of doubles. *)
Definition isnan (x : double) : bool := match x with S754_nan => true | _ => false end.
Definition dlt (x y : double) : bool := SFltb x y.
Definition deq (x y : double) : bool := SFeqb x y.
Definition dle (x y : double) : bool := SFleb x y.

(** The sign of [memcmp] over the common length. *)
Fixpoint memcmp (a b : sds) : Z :=
  match a, b with
  | x :: a, y :: b => if x <? y then -1 else if y <? x then 1 else memcmp a b
  | _, _ => 0
  end.

Definition sdscmp (s1 s2 : sds) : Z :=
  let cmp := memcmp s1 s2 in
  if cmp =? 0 then
    if Zlen s2 <? Zlen s1 then 1 else if Zlen s1 <? Zlen s2 then -1 else 0
  else cmp.

Record zskiplistNode := {
  ele : option sds;
  score : double;
  backward : option addr;
  level : list (option addr * Z);  (* forward and span *)
}.

Record zskiplist := {
  header : addr;
  tail : option addr;
  zlength : Z;
  zlevel : nat;
}.

Abbreviation heap := (gmap addr zskiplistNode).

(** ** Accesses through pointers *)

Definition lvl (h : heap) (a : addr) (i : nat) : option (option addr * Z) :=
  nd ← h !! a; level nd !! i.

Definition set_lvl (h : heap) (a : addr) (i : nat) (l : option addr * Z) : option heap :=
  nd ← h !! a;
  _ ← level nd !! i;
  Some (<[a := {| ele := ele nd; score := score nd; backward := backward nd; level := <[i := l]> (level nd) |}]> h).

Definition set_forward (h : heap) (a : addr) (i : nat) (f : option addr) : option heap :=
  l ← lvl h a i; set_lvl h a i (f, l.2).

Definition set_span (h : heap) (a : addr) (i : nat) (s : Z) : option heap :=
  l ← lvl h a i; set_lvl h a i (l.1, s).

Definition set_backward (h : heap) (a : addr) (b : option addr) : option heap :=
  nd ← h !! a;
  Some (<[a := {| ele := ele nd; score := score nd; backward := b; level := level nd |}]> h).

Definition set_score (h : heap) (a : addr) (s : double) : option heap :=
  nd ← h !! a;
  Some (<[a := {| ele := ele nd; score := s; backward := backward nd; level := level nd |}]> h).

(** ** Creation *)

(** The fields that the code leaves uninitialised are written before they
    are read. *)
Definition zslCreateNode (h : heap) (lv : nat) (s : double) (e : option sds) : addr * heap :=
  let a := fresh (dom h) in
  (a, <[a := {| ele := e; score := s; backward := None; level := replicate lv (None, 0) |}]> h).

Definition zslFreeNode (h : heap) (a : addr) : heap := delete a h.

Definition zslCreate (h : heap) : zskiplist * heap :=
  let '(hd, h) := zslCreateNode h ZSKIPLIST_MAXLEVEL (S754_zero false) None in
  ({| header := hd; tail := None; zlength := 0; zlevel := 1 |}, h).

Fixpoint free_loop (fuel : nat) (h : heap) (node : option addr) : option heap :=
  match fuel with
  | O => None
  | S fuel' =>
      match node with
      | None => Some h
      | Some node => '(next, _) ← lvl h node 0; free_loop fuel' (zslFreeNode h node) next
      end
  end.

(** The struct of the list itself is not in the heap of nodes; every step
    frees a node, so the loop is at most as long as the heap has nodes. *)
Definition zslFree (h : heap) (zsl : zskiplist) : option heap :=
  '(node, _) ← lvl h (header zsl) 0;
  free_loop (S (size h)) (delete (header zsl) h) node.

Fixpoint random_loop (rnd : list Z) (lv : Z) : option (Z * list Z) :=
  match rnd with
  | [] => None
  | r :: rnd => if r <? threshold then random_loop rnd (lv + 1) else Some (lv, rnd)
  end.

Definition zslRandomLevel (rnd : list Z) : option (nat * list Z) :=
  '(lv, rnd) ← random_loop rnd 1;
  Some (if lv <? 32 then Z.to_nat lv else ZSKIPLIST_MAXLEVEL, rnd).

(** ** Searching *)

(** The inner loop [while (x->level[i].forward && cond) x = x->level[i].forward]
    at level [i]; [cond] gets the forward node and the rank it would have,
    [rank] sums the spans. *)
Fixpoint walk (fuel : nat) (h : heap) (cond : zskiplistNode -> Z -> bool) (i : nat) (x : addr) (rank : Z) :
    option (addr * Z) :=
  match fuel with
  | O => None
  | S fuel' =>
      '(f, span) ← lvl h x i;
      match f with
      | None => Some (x, rank)
      | Some y =>
          nd ← h !! y;
          if cond nd (u64 (rank + span)) then walk fuel' h cond i y (u64 (rank + span)) else Some (x, rank)
      end
  end.

(** A loop over all the nodes is at most as long as the heap has nodes. *)
Definition walk_fuel (h : heap) : nat := S (size h).

(** The outer loop, for the levels [n - 1] down to 0: the node and the rank
    reached at each level are the arrays [update] and [rank]. *)
Fixpoint descend (h : heap) (cond : zskiplistNode -> Z -> bool) (n : nat) (x : addr) (rank : Z) :
    option (addr * list (addr * Z)) :=
  match n with
  | O => Some (x, [])
  | S i =>
      '(x, rank) ← walk (walk_fuel h) h cond i x rank;
      '(last, update) ← descend h cond i x rank;
      Some (last, update ++ [(x, rank)])
  end.

(** The forward node is before [(s, e)]; only the header has no element, and
    it is never a forward node. *)
Definition before (s : double) (e : sds) (nd : zskiplistNode) (_ : Z) : bool :=
  match ele nd with
  | None => false
  | Some e' => dlt (score nd) s || (deq (score nd) s && (sdscmp e' e <? 0))
  end.

Definition before_or_at (s : double) (e : sds) (nd : zskiplistNode) (_ : Z) : bool :=
  match ele nd with
  | None => false
  | Some e' => dlt (score nd) s || (deq (score nd) s && (sdscmp e' e <=? 0))
  end.

(** [x && score == x->score && sdscmp(x->ele,ele) == 0] *)
Definition node_is (s : double) (e : sds) (nd : zskiplistNode) : bool :=
  match ele nd with
  | None => false
  | Some e' => deq s (score nd) && (sdscmp e' e =? 0)
  end.

(** ** Insertion *)

(** [for (i = zsl->level; i < level; i++)] *)
Fixpoint raise_levels (h : heap) (hd : addr) (len : Z) (i n : nat) : option heap :=
  match n with
  | O => Some h
  | S n => h ← set_span h hd i len; raise_levels h hd len (S i) n
  end.

(** [for (i = 0; i < level; i++)] *)
Fixpoint link_levels (h : heap) (x : addr) (update : list (addr * Z)) (rank0 : Z) (i n : nat) : option heap :=
  match n with
  | O => Some h
  | S n =>
      '(u, rank) ← update !! i;
      '(f, _) ← lvl h u i;
      h ← set_forward h x i f;
      h ← set_forward h u i (Some x);
      '(_, span) ← lvl h u i;
      h ← set_span h x i (u64 (span - u64 (rank0 - rank)));
      h ← set_span h u i (u64 (u64 (rank0 - rank) + 1));
      link_levels h x update rank0 (S i) n
  end.

(** [for (i = level; i < zsl->level; i++)] *)
Fixpoint incr_levels (h : heap) (update : list (addr * Z)) (i n : nat) : option heap :=
  match n with
  | O => Some h
  | S n =>
      '(u, _) ← update !! i;
      '(_, span) ← lvl h u i;
      h ← set_span h u i (u64 (span + 1));
      incr_levels h update (S i) n
  end.

Definition zslInsert (h : heap) (zsl : zskiplist) (rnd : list Z) (s : double) (e : sds) :
    option (addr * heap * zskiplist * list Z) :=
  _ ← assertb (negb (isnan s));
  '(_, update) ← descend h (before s e) (zlevel zsl) (header zsl) 0;
  '(lv, rnd) ← zslRandomLevel rnd;
  h ← raise_levels h (header zsl) (zlength zsl) (zlevel zsl) (lv - zlevel zsl);
  let update := update ++ replicate (lv - zlevel zsl) (header zsl, 0) in
  let zl := Nat.max lv (zlevel zsl) in
  let '(x, h) := zslCreateNode h lv s (Some e) in
  '(u0, rank0) ← update !! 0%nat;
  h ← link_levels h x update rank0 0 lv;
  h ← incr_levels h update lv (zl - lv);
  h ← set_backward h x (if decide (u0 = header zsl) then None else Some u0);
  '(f, _) ← lvl h x 0;
  h ← match f with Some y => set_backward h y (Some x) | None => Some h end;
  Some (x, h,
        {| header := header zsl; tail := match f with Some _ => tail zsl | None => Some x end;
           zlength := u64 (zlength zsl + 1); zlevel := zl |}, rnd).

(** ** Deletion *)

(** [for (i = 0; i < zsl->level; i++)] *)
Fixpoint unlink_levels (h : heap) (x : addr) (update : list (addr * Z)) (i n : nat) : option heap :=
  match n with
  | O => Some h
  | S n =>
      '(u, _) ← update !! i;
      '(f, span) ← lvl h u i;
      h ← (if decide (f = Some x) then
             '(xf, xspan) ← lvl h x i;
             h ← set_span h u i (u64 (span + u64 (xspan - 1)));
             set_forward h u i xf
           else set_span h u i (u64 (span - 1)));
      unlink_levels h x update (S i) n
  end.

(** [while(zsl->level > 1 && zsl->header->level[zsl->level-1].forward == NULL)] *)
Fixpoint lower_level (h : heap) (hd : addr) (lv : nat) : option nat :=
  match lv with
  | O => Some O
  | S i =>
      if (1 <? S i)%nat then
        '(f, _) ← lvl h hd i;
        match f with None => lower_level h hd i | Some _ => Some (S i) end
      else Some (S i)
  end.

Definition zslDeleteNode (h : heap) (zsl : zskiplist) (x : addr) (update : list (addr * Z)) :
    option (heap * zskiplist) :=
  h ← unlink_levels h x update 0 (zlevel zsl);
  '(f, _) ← lvl h x 0;
  ndx ← h !! x;
  h ← match f with Some y => set_backward h y (backward ndx) | None => Some h end;
  lv ← lower_level h (header zsl) (zlevel zsl);
  Some (h, {| header := header zsl; tail := match f with Some _ => tail zsl | None => backward ndx end;
              zlength := u64 (zlength zsl - 1); zlevel := lv |}).

(** The node is freed when [node] is a null pointer ([keep = false]). *)
Definition zslDelete (h : heap) (zsl : zskiplist) (s : double) (e : sds) (keep : bool) :
    option (option addr * heap * zskiplist) :=
  '(last, update) ← descend h (before s e) (zlevel zsl) (header zsl) 0;
  '(f, _) ← lvl h last 0;
  match f with
  | None => Some (None, h, zsl)
  | Some x =>
      nd ← h !! x;
      if node_is s e nd then
        '(h, zsl) ← zslDeleteNode h zsl x update;
        Some (Some x, if keep then h else zslFreeNode h x, zsl)
      else Some (None, h, zsl)
  end.

Definition zslUpdateScore (h : heap) (zsl : zskiplist) (rnd : list Z) (curscore : double) (e : sds) (newscore : double) :
    option (addr * heap * zskiplist * list Z) :=
  '(last, update) ← descend h (before curscore e) (zlevel zsl) (header zsl) 0;
  '(f, _) ← lvl h last 0;
  x ← f;
  nd ← h !! x;
  _ ← assertb (node_is curscore e nd);
  prev ← match backward nd with
         | None => Some true
         | Some b => ndb ← h !! b; Some (dlt (score ndb) newscore)
         end;
  '(fx, _) ← lvl h x 0;
  next ← match fx with
         | None => Some true
         | Some y => ndy ← h !! y; Some (dlt newscore (score ndy))
         end;
  if (prev && next : bool) then
    h ← set_score h x newscore; Some (x, h, zsl, rnd)
  else
    '(h, zsl) ← zslDeleteNode h zsl x update;
    ex ← ele nd;
    '(newnode, h, zsl, rnd) ← zslInsert h zsl rnd newscore ex;
    Some (newnode, zslFreeNode h x, zsl, rnd).

(** ** Ranks *)

Fixpoint getrank_levels (h : heap) (s : double) (e : sds) (n : nat) (x : addr) (rank : Z) : option Z :=
  match n with
  | O => Some 0
  | S i =>
      '(x, rank) ← walk (walk_fuel h) h (before_or_at s e) i x rank;
      nd ← h !! x;
      if node_is s e nd then Some rank else getrank_levels h s e i x rank
  end.

Definition zslGetRank (h : heap) (zsl : zskiplist) (s : double) (e : sds) : option Z :=
  getrank_levels h s e (zlevel zsl) (header zsl) 0.

Fixpoint byrank_levels (h : heap) (rank : Z) (n : nat) (x : addr) (traversed : Z) : option (option addr) :=
  match n with
  | O => Some None
  | S i =>
      '(x, traversed) ← walk (walk_fuel h) h (fun _ t => t <=? rank) i x traversed;
      if traversed =? rank then Some (Some x) else byrank_levels h rank i x traversed
  end.

Definition zslGetElementByRank (h : heap) (zsl : zskiplist) (rank : Z) : option (option addr) :=
  byrank_levels h rank (zlevel zsl) (header zsl) 0.

(** ** Ranges of scores *)

Record zrangespec := { min : double; max : double; minex : bool; maxex : bool }.

Definition zslValueGteMin (value : double) (spec : zrangespec) : bool :=
  if minex spec then dlt (min spec) value else dle (min spec) value.

Definition zslValueLteMax (value : double) (spec : zrangespec) : bool :=
  if maxex spec then dlt value (max spec) else dle value (max spec).

(** The checks that [zslIsInRange] and [zslIsInLexRange] share, with the
    comparisons on nodes as arguments: the last node reaches the minimum and
    the first node does not exceed the maximum. *)
Definition ends_in_range (h : heap) (zsl : zskiplist) (gte_min lte_max : zskiplistNode -> bool) : option bool :=
  match tail zsl with
  | None => Some false
  | Some x =>
      nd ← h !! x;
      if negb (gte_min nd) then Some false
      else
        '(f, _) ← lvl h (header zsl) 0;
        match f with
        | None => Some false
        | Some y => nd ← h !! y; Some (lte_max nd)
        end
  end.

Definition zslIsInRange (h : heap) (zsl : zskiplist) (range : zrangespec) : option bool :=
  if dlt (max range) (min range) || (deq (min range) (max range) && (minex range || maxex range)) then Some false
  else ends_in_range h zsl (fun nd => zslValueGteMin (score nd) range) (fun nd => zslValueLteMax (score nd) range).

(** The first node that reaches the minimum, if it does not exceed the
    maximum; and the last one that does not exceed the maximum. *)
Definition first_in (h : heap) (zsl : zskiplist) (gte_min lte_max : zskiplistNode -> bool) : option (option addr) :=
  '(x, _) ← descend h (fun nd _ => negb (gte_min nd)) (zlevel zsl) (header zsl) 0;
  '(f, _) ← lvl h x 0;
  x ← f;
  nd ← h !! x;
  Some (if lte_max nd then Some x else None).

Definition last_in (h : heap) (zsl : zskiplist) (gte_min lte_max : zskiplistNode -> bool) : option (option addr) :=
  '(x, _) ← descend h (fun nd _ => lte_max nd) (zlevel zsl) (header zsl) 0;
  nd ← h !! x;
  Some (if gte_min nd then Some x else None).

Definition zslFirstInRange (h : heap) (zsl : zskiplist) (range : zrangespec) : option (option addr) :=
  b ← zslIsInRange h zsl range;
  if (b : bool) then first_in h zsl (fun nd => zslValueGteMin (score nd) range) (fun nd => zslValueLteMax (score nd) range)
  else Some None.

Definition zslLastInRange (h : heap) (zsl : zskiplist) (range : zrangespec) : option (option addr) :=
  b ← zslIsInRange h zsl range;
  if (b : bool) then last_in h zsl (fun nd => zslValueGteMin (score nd) range) (fun nd => zslValueLteMax (score nd) range)
  else Some None.

(** ** Lexicographic ranges *)

(** A bound: [shared.minstring], [shared.maxstring] or a string. *)
Inductive lexbound := minstring | maxstring | lexstr (s : sds).

Record zlexrangespec := { lmin : lexbound; lmax : lexbound; lminex : bool; lmaxex : bool }.

(** The byte at an index of a null-terminated string. *)
Definition char_at (c : sds) (i : nat) : Z := nth i c 0.

(** [None] is [C_ERR]. *)
Definition zslParseLexRangeItem (c : sds) : option (lexbound * bool) :=
  let c0 := char_at c 0 in
  if c0 =? 43 then if char_at c 1 =? 0 then Some (maxstring, true) else None
  else if c0 =? 45 then if char_at c 1 =? 0 then Some (minstring, true) else None
  else if c0 =? 40 then Some (lexstr (drop 1 c), true)
  else if c0 =? 91 then Some (lexstr (drop 1 c), false)
  else None.

(** The arguments are objects: integer encoded ([inl]) or strings. *)
Definition zslParseLexRange (mn mx : Z + sds) : option zlexrangespec :=
  match mn, mx with
  | inr mn, inr mx =>
      '(a, aex) ← zslParseLexRangeItem mn;
      '(b, bex) ← zslParseLexRangeItem mx;
      Some {| lmin := a; lmax := b; lminex := aex; lmaxex := bex |}
  | _, _ => None
  end.

Definition sdscmplex (a b : lexbound) : Z :=
  match a, b with
  | minstring, minstring | maxstring, maxstring => 0
  | minstring, _ | _, maxstring => -1
  | maxstring, _ | _, minstring => 1
  | lexstr a, lexstr b => sdscmp a b
  end.

Definition zslLexValueGteMin (value : sds) (spec : zlexrangespec) : bool :=
  if lminex spec then 0 <? sdscmplex (lexstr value) (lmin spec) else 0 <=? sdscmplex (lexstr value) (lmin spec).

Definition zslLexValueLteMax (value : sds) (spec : zlexrangespec) : bool :=
  if lmaxex spec then sdscmplex (lexstr value) (lmax spec) <? 0 else sdscmplex (lexstr value) (lmax spec) <=? 0.

Definition lex_gte (range : zlexrangespec) (nd : zskiplistNode) : bool :=
  match ele nd with Some e => zslLexValueGteMin e range | None => false end.
Definition lex_lte (range : zlexrangespec) (nd : zskiplistNode) : bool :=
  match ele nd with Some e => zslLexValueLteMax e range | None => false end.

Definition zslIsInLexRange (h : heap) (zsl : zskiplist) (range : zlexrangespec) : option bool :=
  let cmp := sdscmplex (lmin range) (lmax range) in
  if (0 <? cmp) || ((cmp =? 0) && (lminex range || lmaxex range)) then Some false
  else ends_in_range h zsl (lex_gte range) (lex_lte range).

Definition zslFirstInLexRange (h : heap) (zsl : zskiplist) (range : zlexrangespec) : option (option addr) :=
  b ← zslIsInLexRange h zsl range;
  if (b : bool) then first_in h zsl (lex_gte range) (lex_lte range) else Some None.

Definition zslLastInLexRange (h : heap) (zsl : zskiplist) (range : zlexrangespec) : option (option addr) :=
  b ← zslIsInLexRange h zsl range;
  if (b : bool) then last_in h zsl (lex_gte range) (lex_lte range) else Some None.

(** ** Deletion of ranges *)

Section Ranges.
Context (ty : Dict.dictType sds) (can : Dict.dictResizeEnable).

(** [while (x && cond)]: the node is unlinked, its element deleted from the
    dictionary, and the node freed. *)
Fixpoint delete_loop (fuel : nat) (h : heap) (zsl : zskiplist) (d : Dict.dict sds addr) (x : option addr)
    (update : list (addr * Z)) (cond : zskiplistNode -> Z -> bool) (traversed removed : Z) :
    option (Z * heap * zskiplist * Dict.dict sds addr) :=
  match fuel with
  | O => None
  | S fuel' =>
      match x with
      | None => Some (removed, h, zsl, d)
      | Some x =>
          nd ← h !! x;
          if cond nd traversed then
            '(next, _) ← lvl h x 0;
            '(h, zsl) ← zslDeleteNode h zsl x update;
            e ← ele nd;
            '(_, d) ← Dict.dictDelete ty can d e;
            delete_loop fuel' (zslFreeNode h x) zsl d next update cond (u64 (traversed + 1)) (u64 (removed + 1))
          else Some (removed, h, zsl, d)
      end
  end.

Definition zslDeleteRangeByScore (h : heap) (zsl : zskiplist) (range : zrangespec) (d : Dict.dict sds addr) :
    option (Z * heap * zskiplist * Dict.dict sds addr) :=
  '(x, update) ← descend h (fun nd _ => negb (zslValueGteMin (score nd) range)) (zlevel zsl) (header zsl) 0;
  '(f, _) ← lvl h x 0;
  delete_loop (walk_fuel h) h zsl d f update (fun nd _ => zslValueLteMax (score nd) range) 0 0.

Definition zslDeleteRangeByLex (h : heap) (zsl : zskiplist) (range : zlexrangespec) (d : Dict.dict sds addr) :
    option (Z * heap * zskiplist * Dict.dict sds addr) :=
  '(x, update) ← descend h (fun nd _ => negb (lex_gte range nd)) (zlevel zsl) (header zsl) 0;
  '(f, _) ← lvl h x 0;
  delete_loop (walk_fuel h) h zsl d f update (fun nd _ => lex_lte range nd) 0 0.

(** The ranks start at 1; [start] and [end] are [unsigned int]. *)
Definition zslDeleteRangeByRank (h : heap) (zsl : zskiplist) (start end_ : Z) (d : Dict.dict sds addr) :
    option (Z * heap * zskiplist * Dict.dict sds addr) :=
  '(x, update) ← descend h (fun _ t => t <? start) (zlevel zsl) (header zsl) 0;
  '(_, traversed) ← update !! 0%nat;
  '(f, _) ← lvl h x 0;
  delete_loop (walk_fuel h) h zsl d f update (fun _ t => t <=? end_) (u64 (traversed + 1)) 0.

End Ranges.

End Skiplist.
