(* ===== verification/SkiplistSpec.v ===== *)
(** * What the skip lists of Skiplist.v represent

    The order of the elements of a sorted set, and the invariant of a skip
    list: the forward pointer of a node at a level leads to the next node of
    that level and its span is the distance, the backward pointers and the
    tail are those of the sequence, and the elements are sorted. *)

From stdpp Require Import gmap.
From Stdlib Require Import SpecFloat.
From S2P Require Import Prelude.
From S2P Require Import Dict.
From S2P Require Import Skiplist.
Import Skiplist.

Module SlSpec.

(** ** The order of doubles *)

(** Lexicographic comparison of this triple is the comparison of doubles. *)
Definition dkey (x : double) : Z * Z * Z :=
  match x with
  | S754_nan => (3, 0, 0)
  | S754_infinity true => (-2, 0, 0)
  | S754_finite true m e => (-1, - e, - Z.pos m)
  | S754_zero _ => (0, 0, 0)
  | S754_finite false m e => (1, e, Z.pos m)
  | S754_infinity false => (2, 0, 0)
  end.

Definition lex3 (a b : Z * Z * Z) : comparison :=
  let '(a1, a2, a3) := a in let '(b1, b2, b3) := b in
  match a1 ?= b1 with
  | Eq => match a2 ?= b2 with Eq => a3 ?= b3 | c => c end
  | c => c
  end.

Lemma dcompare x y : isnan x = false -> isnan y = false -> SFcompare x y = Some (lex3 (dkey x) (dkey y)).
Proof.
  destruct x as [[]|[]| |[] mx ex], y as [[]|[]| |[] my ey]; try done; intros _ _; cbn.
  rewrite Z.compare_opp, (Z.compare_antisym ex). by destruct (ex ?= ey).
Qed.

Lemma dlt_key x y : isnan x = false -> isnan y = false -> dlt x y = true <-> lex3 (dkey x) (dkey y) = Lt.
Proof. intros Hx Hy. unfold dlt, SFltb. rewrite dcompare by done. by destruct (lex3 _ _). Qed.

Lemma deq_key x y : isnan x = false -> isnan y = false -> deq x y = true <-> dkey x = dkey y.
Proof.
  intros Hx Hy. unfold deq, SFeqb. rewrite dcompare by done. destruct (dkey x) as [[a1 a2] a3], (dkey y) as [[b1 b2] b3]. cbn.
  destruct (Z.compare_spec a1 b1), (Z.compare_spec a2 b2), (Z.compare_spec a3 b3); split; try congruence; intros [= ]; lia.
Qed.

Lemma dle_key x y : isnan x = false -> isnan y = false -> dle x y = negb (dlt y x).
Proof.
  intros Hx Hy. unfold dle, SFleb, dlt, SFltb. rewrite !dcompare by done.
  destruct (dkey x) as [[a1 a2] a3], (dkey y) as [[b1 b2] b3]. cbn.
  rewrite (Z.compare_antisym a1), (Z.compare_antisym a2), (Z.compare_antisym a3).
  by destruct (a1 ?= b1), (a2 ?= b2), (a3 ?= b3).
Qed.

(** ** The order of strings *)

Lemma sdscmp_cons x y a b : sdscmp (x :: a) (y :: b) = if x <? y then -1 else if y <? x then 1 else sdscmp a b.
Proof.
  unfold sdscmp. cbn [memcmp length]. destruct (x <? y); [done|]. destruct (y <? x); [done|].
  destruct (memcmp a b =? 0); [|done].
  replace (Z.of_nat (S (length b)) <? Z.of_nat (S (length a))) with (Zlen b <? Zlen a) by lia.
  replace (Z.of_nat (S (length a)) <? Z.of_nat (S (length b))) with (Zlen a <? Zlen b) by lia. done.
Qed.

Lemma sdscmp_eq a b : sdscmp a b = 0 <-> a = b.
Proof.
  revert b. induction a as [|x a IH]; intros [|y b]; [done|..].
  - split; [|done]. unfold sdscmp. cbn. done.
  - split; [|done]. unfold sdscmp. cbn. done.
  - rewrite sdscmp_cons. destruct (Z.ltb_spec x y); [split; [done|intros [= ]; lia]|].
    destruct (Z.ltb_spec y x); [split; [done|intros [= ]; lia]|]. rewrite IH. split; [intros ->; f_equal; lia|congruence].
Qed.

Lemma sdscmp_antisym a b : sdscmp b a = - sdscmp a b.
Proof.
  revert b. induction a as [|x a IH]; intros [|y b]; [done..|]. rewrite !sdscmp_cons, IH.
  destruct (Z.ltb_spec x y), (Z.ltb_spec y x); lia.
Qed.

Lemma sdscmp_trans a b c : sdscmp a b < 0 -> sdscmp b c < 0 -> sdscmp a c < 0.
Proof.
  revert b c. induction a as [|x a IH]; intros [|y b] [|z c]; try done.
  rewrite !sdscmp_cons. specialize (IH b c).
  destruct (Z.ltb_spec x y), (Z.ltb_spec y x), (Z.ltb_spec y z), (Z.ltb_spec z y), (Z.ltb_spec x z), (Z.ltb_spec z x); lia.
Qed.

(** ** The order of the elements *)

Abbreviation elt := (double * sds)%type.

Definition elt_lt (a b : elt) : bool := dlt a.1 b.1 || (deq a.1 b.1 && (sdscmp a.2 b.2 <? 0)).
Definition elt_ok (a : elt) : Prop := isnan a.1 = false.

(** The same element up to the sign of a zero score. *)
Definition elt_eq (a b : elt) : bool := deq a.1 b.1 && bool_decide (a.2 = b.2).

Lemma elt_lt_iff a b :
  elt_ok a -> elt_ok b ->
  elt_lt a b = true <-> lex3 (dkey a.1) (dkey b.1) = Lt \/ dkey a.1 = dkey b.1 /\ sdscmp a.2 b.2 < 0.
Proof.
  intros Ha Hb. unfold elt_lt. rewrite orb_true_iff, andb_true_iff, dlt_key, deq_key, Z.ltb_lt by done. done.
Qed.

Lemma lex3_lt a b :
  lex3 a b = Lt <-> a.1.1 < b.1.1 \/ a.1.1 = b.1.1 /\ (a.1.2 < b.1.2 \/ a.1.2 = b.1.2 /\ a.2 < b.2).
Proof.
  destruct a as [[a1 a2] a3], b as [[b1 b2] b3]. cbn.
  destruct (Z.compare_spec a1 b1), (Z.compare_spec a2 b2), (Z.compare_spec a3 b3); split; try done; lia.
Qed.

Lemma key_eq (a b : Z * Z * Z) : a = b <-> a.1.1 = b.1.1 /\ a.1.2 = b.1.2 /\ a.2 = b.2.
Proof. destruct a as [[a1 a2] a3], b as [[b1 b2] b3]. cbn. split; [by intros [= -> -> ->]|intros (-> & -> & ->); done]. Qed.

Lemma elt_lt_trans a b c :
  elt_ok a -> elt_ok b -> elt_ok c -> elt_lt a b = true -> elt_lt b c = true -> elt_lt a c = true.
Proof.
  intros Ha Hb Hc. rewrite !elt_lt_iff, !lex3_lt, !key_eq by done.
  pose proof (sdscmp_trans a.2 b.2 c.2). lia.
Qed.

Lemma elt_lt_irrefl a : elt_ok a -> elt_lt a a = false.
Proof.
  intros Ha. apply not_true_iff_false. rewrite elt_lt_iff, lex3_lt by done.
  rewrite (proj2 (sdscmp_eq a.2 a.2) eq_refl). lia.
Qed.

Lemma elt_trichotomy a b :
  elt_ok a -> elt_ok b -> elt_lt a b = false -> elt_lt b a = false -> elt_eq a b = true.
Proof.
  intros Ha Hb. rewrite <- !not_true_iff_false, !elt_lt_iff, !lex3_lt, !key_eq by done. intros H1 H2.
  rewrite (sdscmp_antisym a.2 b.2) in H2. unfold elt_eq. rewrite andb_true_iff, deq_key, key_eq, bool_decide_eq_true by done.
  rewrite <- sdscmp_eq. lia.
Qed.

Lemma elt_eq_key a b :
  elt_ok a -> elt_ok b -> elt_eq a b = true <-> dkey a.1 = dkey b.1 /\ a.2 = b.2.
Proof.
  intros Ha Hb. unfold elt_eq. by rewrite andb_true_iff, deq_key, bool_decide_eq_true.
Qed.

Lemma elt_lt_eq_l a b c :
  elt_ok a -> elt_ok b -> elt_ok c -> elt_eq a b = true -> elt_lt a c = elt_lt b c.
Proof.
  intros Ha Hb Hc [Hk He]%elt_eq_key; [|done..]. apply eq_true_iff_eq. by rewrite !elt_lt_iff, Hk, He.
Qed.

Lemma elt_lt_eq_r a b c :
  elt_ok a -> elt_ok b -> elt_ok c -> elt_eq a b = true -> elt_lt c a = elt_lt c b.
Proof.
  intros Ha Hb Hc [Hk He]%elt_eq_key; [|done..]. apply eq_true_iff_eq. by rewrite !elt_lt_iff, Hk, He.
Qed.

(** ** Writes through pointers *)

(** Case analysis on the decisions of the goal, dropping impossible cases. *)
Ltac decs :=
  repeat case_decide; destruct_and?; simplify_eq; try done; try (exfalso; intuition (subst; lia || done)).

(** The arithmetic decisions of the goal. *)
Ltac decl := repeat first [rewrite decide_True by lia | rewrite decide_False by lia].

(** Everything of a node but its levels. *)
Definition fields (h : heap) (a : addr) : option (option sds * double * option addr * nat) :=
  (fun nd => (ele nd, score nd, backward nd, length (level nd))) <$> h !! a.

Lemma fields_some h a : is_Some (fields h a) <-> is_Some (h !! a).
Proof. apply fmap_is_Some. Qed.

(** [h'] is [h] with other levels. *)
Definition relevel (h h' : heap) (F : addr -> nat -> option (option addr * Z)) : Prop :=
  (forall b, fields h' b = fields h b) /\ (forall b j, lvl h' b j = F b j).

Lemma relevel_dom h h' F a : relevel h h' F -> is_Some (h' !! a) <-> is_Some (h !! a).
Proof. intros [Hf _]. specialize (Hf a). unfold fields in Hf. by destruct (h !! a), (h' !! a). Qed.

Lemma set_lvl_spec h a i l :
  is_Some (lvl h a i) ->
  exists h', set_lvl h a i l = Some h' /\
    relevel h h' (fun b j => if decide (b = a /\ j = i) then Some l else lvl h b j).
Proof.
  unfold lvl, set_lvl. intros [l0 Hl]. destruct (h !! a) as [nd|] eqn:Ha; [|done]. cbn [mbind option_bind] in Hl |- *.
  rewrite Hl. cbn [mbind option_bind]. eexists. split; [done|]. split.
  - intros b. unfold fields. destruct (decide (b = a)) as [->|Hne]; [|by rewrite lookup_insert_ne].
    rewrite lookup_insert_eq, Ha. cbn. by rewrite length_insert.
  - intros b j. unfold lvl. destruct (decide (b = a)) as [->|Hne].
    + rewrite lookup_insert_eq. cbn. destruct (decide (j = i)) as [->|Hj].
      * rewrite decide_True by done. apply list_lookup_insert_eq. by eapply lookup_lt_Some.
      * rewrite decide_False by tauto. rewrite Ha. cbn. by apply list_lookup_insert_ne.
    + rewrite lookup_insert_ne, decide_False by (tauto || done). done.
Qed.

Lemma set_forward_spec h a i f l :
  lvl h a i = Some l ->
  exists h', set_forward h a i f = Some h' /\
    relevel h h' (fun b j => if decide (b = a /\ j = i) then Some (f, l.2) else lvl h b j).
Proof. intros Hl. unfold set_forward. rewrite Hl. cbn. by apply set_lvl_spec. Qed.

Lemma set_span_spec h a i s l :
  lvl h a i = Some l ->
  exists h', set_span h a i s = Some h' /\
    relevel h h' (fun b j => if decide (b = a /\ j = i) then Some (l.1, s) else lvl h b j).
Proof. intros Hl. unfold set_span. rewrite Hl. cbn. by apply set_lvl_spec. Qed.

Lemma relevel_trans h1 h2 h3 F G : relevel h1 h2 F -> relevel h2 h3 G -> relevel h1 h3 G.
Proof. intros [H1 _] [H2 H3]. split; [|done]. intros b. by rewrite H2. Qed.

Lemma relevel_ext h h' F G : (forall b j, F b j = G b j) -> relevel h h' F -> relevel h h' G.
Proof. intros HE [H1 H2]. split; [done|]. intros. by rewrite H2. Qed.

Lemma raise_levels_spec hd len n : forall h i,
  (forall j, (i <= j < i + n)%nat -> is_Some (lvl h hd j)) ->
  exists h', raise_levels h hd len i n = Some h' /\
    relevel h h' (fun b j => if decide (b = hd /\ (i <= j < i + n)%nat) then (fun l => (l.1, len)) <$> lvl h hd j
                             else lvl h b j).
Proof.
  induction n as [|n IH]; intros h i Hl; cbn [raise_levels].
  { exists h. split; [done|]. split; [done|]. intros. by rewrite decide_False by lia. }
  destruct (Hl i ltac:(lia)) as [l Hli]. destruct (set_span_spec h hd i len l Hli) as (h1 & -> & H1). cbn [mbind option_bind].
  destruct (IH h1 (S i)) as (h2 & -> & H2).
  { intros j Hj. rewrite (proj2 H1). destruct (decide _); [done|]. apply Hl. lia. }
  exists h2. split; [done|]. eapply relevel_ext; [|by eapply relevel_trans].
  intros b j. cbn. rewrite !(proj2 H1). decs; by rewrite Hli.
Qed.

(** The nodes and ranks that the search stored for the levels from [i] on. *)
Definition stored (update : list (addr * Z)) (U : nat -> addr) (R : nat -> Z) (i n : nat) : Prop :=
  forall j, (i <= j < i + n)%nat -> update !! j = Some (U j, R j).

Lemma link_levels_spec x update U R rank0 n : forall h i,
  stored update U R i n ->
  (forall j, (i <= j < i + n)%nat -> U j <> x /\ is_Some (lvl h (U j) j) /\ is_Some (lvl h x j)) ->
  exists h', link_levels h x update rank0 i n = Some h' /\
    relevel h h' (fun b j =>
      if decide (i <= j < i + n)%nat then
        if decide (b = x) then (fun l => (l.1, u64 (l.2 - u64 (rank0 - R j)))) <$> lvl h (U j) j
        else if decide (b = U j) then Some (Some x, u64 (u64 (rank0 - R j) + 1))
        else lvl h b j
      else lvl h b j).
Proof.
  induction n as [|n IH]; intros h i Hst Hl; cbn [link_levels].
  { exists h. split; [done|]. split; [done|]. intros. by rewrite decide_False by lia. }
  rewrite (Hst i) by lia. cbn [mbind option_bind].
  destruct (Hl i ltac:(lia)) as (Hne & [lu Hu] & [lx Hx]). rewrite Hu. destruct lu as [f sp]. cbn [mbind option_bind].
  destruct (set_forward_spec h x i f lx Hx) as (h1 & -> & H1). cbn [mbind option_bind].
  assert (Hu1 : lvl h1 (U i) i = Some (f, sp)) by (rewrite (proj2 H1); decs).
  destruct (set_forward_spec h1 (U i) i (Some x) _ Hu1) as (h2 & -> & H2). cbn [mbind option_bind].
  assert (Hu2 : lvl h2 (U i) i = Some (Some x, sp)) by (rewrite (proj2 H2); decs).
  assert (Hx2 : lvl h2 x i = Some (f, lx.2)) by (rewrite (proj2 H2), (proj2 H1); decs).
  rewrite Hu2. cbn [mbind option_bind].
  destruct (set_span_spec h2 x i (u64 (sp - u64 (rank0 - R i))) _ Hx2) as (h3 & -> & H3). cbn [mbind option_bind].
  assert (Hu3 : lvl h3 (U i) i = Some (Some x, sp)) by (rewrite (proj2 H3); decs).
  destruct (set_span_spec h3 (U i) i (u64 (u64 (rank0 - R i) + 1)) _ Hu3) as (h4 & -> & H4). cbn [mbind option_bind fst].
  assert (H14 : relevel h h4 (fun b j => if decide (b = x /\ j = i) then Some (f, u64 (sp - u64 (rank0 - R i)))
    else if decide (b = U i /\ j = i) then Some (Some x, u64 (u64 (rank0 - R i) + 1)) else lvl h b j)).
  { eapply relevel_ext; [|eapply relevel_trans; [exact H1|]; eapply relevel_trans; [exact H2|];
      eapply relevel_trans; [exact H3|exact H4]].
    intros b j. cbn [fst snd]. rewrite (proj2 H3), (proj2 H2), (proj2 H1). decs. }
  destruct (IH h4 (S i)) as (h5 & -> & H5).
  { intros j Hj. apply Hst. lia. }
  { intros j Hj. destruct (Hl j ltac:(lia)) as (? & ? & ?). rewrite !(proj2 H14). decs. }
  exists h5. split; [done|]. eapply relevel_ext; [|eapply relevel_trans; [exact H14|exact H5]].
  intros b j. cbn. rewrite !(proj2 H14). destruct (decide (j = i)) as [->|]; decs; by rewrite Hu.
Qed.

Lemma incr_levels_spec update U R n : forall h i,
  stored update U R i n -> (forall j, (i <= j < i + n)%nat -> is_Some (lvl h (U j) j)) ->
  exists h', incr_levels h update i n = Some h' /\
    relevel h h' (fun b j => if decide ((i <= j < i + n)%nat /\ b = U j) then (fun l => (l.1, u64 (l.2 + 1))) <$> lvl h b j
                             else lvl h b j).
Proof.
  induction n as [|n IH]; intros h i Hst Hl; cbn [incr_levels].
  { exists h. split; [done|]. split; [done|]. intros. by rewrite decide_False by lia. }
  rewrite (Hst i) by lia. cbn [mbind option_bind].
  destruct (Hl i ltac:(lia)) as [[f sp] Hu]. rewrite Hu. cbn [mbind option_bind].
  destruct (set_span_spec h (U i) i (u64 (sp + 1)) _ Hu) as (h1 & -> & H1). cbn [mbind option_bind].
  destruct (IH h1 (S i)) as (h2 & -> & H2).
  { intros j Hj. apply Hst. lia. }
  { intros j Hj. rewrite (proj2 H1). decs. apply Hl. lia. }
  exists h2. split; [done|]. eapply relevel_ext; [|eapply relevel_trans; [exact H1|exact H2]].
  intros b j. cbn. rewrite !(proj2 H1). destruct (decide (j = i)) as [->|]; decs; by rewrite Hu.
Qed.

Lemma unlink_levels_spec x update U R n : forall h i,
  stored update U R i n ->
  (forall j, (i <= j < i + n)%nat -> U j <> x /\
     exists f sp, lvl h (U j) j = Some (f, sp) /\ (f = Some x -> is_Some (lvl h x j))) ->
  exists h', unlink_levels h x update i n = Some h' /\
    relevel h h' (fun b j =>
      if decide ((i <= j < i + n)%nat /\ b = U j) then
        l ← lvl h b j;
        if decide (l.1 = Some x) then (fun lx => (lx.1, u64 (l.2 + u64 (lx.2 - 1)))) <$> lvl h x j
        else Some (l.1, u64 (l.2 - 1))
      else lvl h b j).
Proof.
  induction n as [|n IH]; intros h i Hst Hl; cbn [unlink_levels].
  { exists h. split; [done|]. split; [done|]. intros. by rewrite decide_False by lia. }
  rewrite (Hst i) by lia. cbn [mbind option_bind].
  destruct (Hl i ltac:(lia)) as (Hne & f & sp & Hu & Hfx). rewrite Hu. cbn [mbind option_bind].
  assert (Hstep : exists h1, (if decide (f = Some x) then
      '(xf, xspan) ← lvl h x i; h ← set_span h (U i) i (u64 (sp + u64 (xspan - 1))); set_forward h (U i) i xf
      else set_span h (U i) i (u64 (sp - 1))) = Some h1 /\
    relevel h h1 (fun b j => if decide (b = U i /\ j = i) then
      if decide (f = Some x) then (fun lx => (lx.1, u64 (sp + u64 (lx.2 - 1)))) <$> lvl h x i else Some (f, u64 (sp - 1))
      else lvl h b j)).
  { destruct (decide (f = Some x)) as [Hf|Hf].
    - destruct (Hfx Hf) as [[xf xs] Hx]. rewrite Hx. cbn [mbind option_bind].
      destruct (set_span_spec h (U i) i (u64 (sp + u64 (xs - 1))) _ Hu) as (h1 & -> & H1). cbn [mbind option_bind].
      assert (Hu1 : lvl h1 (U i) i = Some (f, u64 (sp + u64 (xs - 1)))) by (rewrite (proj2 H1); decs).
      destruct (set_forward_spec h1 (U i) i xf _ Hu1) as (h2 & -> & H2). exists h2. split; [done|].
      eapply relevel_ext; [|eapply relevel_trans; [exact H1|exact H2]]. intros b j. cbn. rewrite (proj2 H1). decs.
    - destruct (set_span_spec h (U i) i (u64 (sp - 1)) _ Hu) as (h1 & -> & H1). exists h1. split; [done|]. done. }
  destruct Hstep as (h1 & -> & H1). cbn [mbind option_bind].
  destruct (IH h1 (S i)) as (h2 & -> & H2).
  { intros j Hj. apply Hst. lia. }
  { intros j Hj. destruct (Hl j ltac:(lia)) as (Hnj & fj & sj & Hj1 & Hj2). split; [done|]. exists fj, sj.
    rewrite !(proj2 H1). decs. }
  exists h2. split; [done|]. eapply relevel_ext; [|eapply relevel_trans; [exact H1|exact H2]].
  intros b j. cbn. rewrite !(proj2 H1). destruct (decide (j = i)) as [->|]; decs; rewrite ?Hu; cbn; decs.
Qed.

End SlSpec.
