(* ===== verification/SkiplistInv.v ===== *)
(** * The invariant of a skip list, and searching in it

    A skip list stands for a sequence of positions, the header first, each
    with its node and its height, and for the sorted sequence of elements.
    At every level below its height a node points to the next position that
    reaches this level, and the span is the distance.  A search ends, at
    every level, at the last position before the target that reaches it. *)

From stdpp Require Import gmap.
From S2P Require Import Prelude.
From S2P Require Import Skiplist.
From S2P Require Import SkiplistSpec.
Import Skiplist SlSpec.

Module SlInv.

(** ** Positions *)

Abbreviation shape := (list (addr * nat)).

Definition hgt (P : shape) (j : nat) : nat := default 0%nat (snd <$> P !! j).
Definition addr_at (P : shape) (j : nat) : option addr := fst <$> P !! j.

(** [q] is the next position after [p] at level [i], or the end. *)
Definition is_next (P : shape) (i p q : nat) : Prop :=
  (p < q <= length P)%nat /\ (forall j, p < j < q -> hgt P j <= i)%nat /\ (q < length P -> i < hgt P q)%nat.

(** The forward pointer and the span of position [p] at level [i]. *)
Definition link (P : shape) (i p : nat) (l : option addr * Z) : Prop :=
  exists q, is_next P i p q /\ l = (addr_at P q, Z.of_nat (Nat.min q (length P - 1)) - Z.of_nat p).

(** [p] is the last position up to [r] at level [i]. *)
Definition is_last (P : shape) (i r p : nat) : Prop :=
  (p <= r)%nat /\ (i < hgt P p)%nat /\ (forall j, p < j <= r -> hgt P j <= i)%nat.

Lemma is_last_unique P i r p p' : is_last P i r p -> is_last P i r p' -> p = p'.
Proof.
  intros (H1 & H2 & H3) (H1' & H2' & H3'). destruct (Nat.lt_trichotomy p p') as [Hl|[Hl|Hl]]; [|done|].
  - specialize (H3 p'). lia.
  - specialize (H3' p). lia.
Qed.

(** The next position of one that is not the last up to [r] is at most [r]. *)
Lemma next_last P i r p p' q :
  is_last P i r p -> (p' <= r)%nat -> is_next P i p' q -> p' <> p -> (r < length P)%nat -> (q <= p)%nat \/ (p < p')%nat.
Proof.
  intros (H1 & H2 & H3) Hp' (Hq & Hn & Hh) Hne Hr. destruct (Nat.le_gt_cases q p); [by left|].
  destruct (Nat.lt_trichotomy p p') as [?|[?|Hl]]; [by right|done|]. specialize (Hn p). lia.
Qed.

(** ** The invariant *)

(** The element of a position. *)
Definition data_at (E : list elt) (p : nat) : option elt :=
  match p with O => None | S p => E !! p end.

Definition back_at (P : shape) (p : nat) : option addr :=
  match p with S (S p) => addr_at P (S p) | _ => None end.

Definition node_ok (h : heap) (P : shape) (E : list elt) (p : nat) (a : addr) : Prop :=
  exists s, fields h a = Some (snd <$> data_at E p, s, back_at P p, hgt P p) /\
    forall x, data_at E p = Some x -> s = x.1.

Definition elts_ok (E : list elt) : Prop :=
  Forall elt_ok E /\ StronglySorted (fun a b => elt_lt a b = true) E.

Record inv (h : heap) (zsl : zskiplist) (P : shape) (E : list elt) : Prop := {
  inv_header : P !! 0%nat = Some (header zsl, ZSKIPLIST_MAXLEVEL);
  inv_nodup : NoDup P.*1;
  inv_size : length P = S (length E);
  inv_length : zlength zsl = Zlen E;
  inv_bound : Zlen E < 2 ^ 64;
  inv_tail : tail zsl = match E with [] => None | _ => addr_at P (length E) end;
  inv_level : (1 <= zlevel zsl <= ZSKIPLIST_MAXLEVEL)%nat;
  inv_hgt j : (1 <= j < length P -> 1 <= hgt P j <= zlevel zsl)%nat;
  inv_dom a : a ∈ P.*1 -> is_Some (h !! a);
  inv_node p a : addr_at P p = Some a -> node_ok h P E p a;
  inv_link p a i : addr_at P p = Some a -> (i < hgt P p)%nat -> (i < zlevel zsl)%nat ->
    exists l, lvl h a i = Some l /\ link P i p l;
  inv_unused i : (zlevel zsl <= i < ZSKIPLIST_MAXLEVEL)%nat -> exists s, lvl h (header zsl) i = Some (None, s);
  inv_elts : elts_ok E;
}.

Lemma addr_at_inj h zsl P E p q a : inv h zsl P E -> addr_at P p = Some a -> addr_at P q = Some a -> p = q.
Proof.
  intros Hi Hp Hq. unfold addr_at in *. rewrite <- list_lookup_fmap in Hp, Hq.
  eapply NoDup_lookup; [apply (inv_nodup _ _ _ _ Hi)|done|done].
Qed.

Lemma addr_at_some P p : (p < length P)%nat -> exists a, addr_at P p = Some a.
Proof. intros Hp. destruct (lookup_lt_is_Some_2 P p Hp) as [[a k] Ha]. exists a. unfold addr_at. by rewrite Ha. Qed.

Lemma addr_at_lt P p a : addr_at P p = Some a -> (p < length P)%nat.
Proof. unfold addr_at. destruct (P !! p) eqn:E; [|done]. intros _. by eapply lookup_lt_Some. Qed.

Lemma hgt_0 h zsl P E : inv h zsl P E -> hgt P 0 = ZSKIPLIST_MAXLEVEL.
Proof. intros Hi. unfold hgt. by rewrite (inv_header _ _ _ _ Hi). Qed.

Lemma addr_0 h zsl P E : inv h zsl P E -> addr_at P 0 = Some (header zsl).
Proof. intros Hi. unfold addr_at. by rewrite (inv_header _ _ _ _ Hi). Qed.

Lemma heap_size h zsl P E : inv h zsl P E -> (length P <= size h)%nat.
Proof.
  intros Hi. rewrite <- size_dom, <- (length_fmap fst P), <- (size_list_to_set (C := gset addr) P.*1) by apply (inv_nodup _ _ _ _ Hi).
  apply subseteq_size. intros a. rewrite elem_of_dom, elem_of_list_to_set. apply (inv_dom _ _ _ _ Hi).
Qed.

(** ** Searching *)

(** The loop condition holds exactly up to position [r]. *)
Definition splits (h : heap) (P : shape) (cond : zskiplistNode -> Z -> bool) (r : nat) : Prop :=
  (r < length P)%nat /\
  forall q a nd, (1 <= q)%nat -> addr_at P q = Some a -> h !! a = Some nd ->
    cond nd (Z.of_nat q) = bool_decide (q <= r)%nat.

Lemma walk_spec h zsl P E cond r i fuel : forall p a,
  inv h zsl P E -> splits h P cond r -> addr_at P p = Some a -> (p <= r)%nat ->
  (i < hgt P p)%nat -> (i < zlevel zsl)%nat -> (length P - p <= fuel)%nat ->
  exists p' a', walk fuel h cond i a (Z.of_nat p) = Some (a', Z.of_nat p') /\
    addr_at P p' = Some a' /\ is_last P i r p'.
Proof.
  induction fuel as [|fuel IH]; intros p a Hi Hsp Ha Hpr Hh Hlv Hf.
  { apply addr_at_lt in Ha. lia. }
  cbn [walk]. destruct (inv_link _ _ _ _ Hi p a i Ha Hh Hlv) as (l & -> & q & Hq & ->).
  cbn [mbind option_bind]. destruct (Hq) as (Hpq & Hn & Hhq).
  destruct (decide (q < length P)%nat) as [Hlt|Hge].
  2:{ assert (addr_at P q = None) as -> by (unfold addr_at; by rewrite lookup_ge_None_2 by lia).
      exists p, a. split; [done|]. split; [done|]. split; [done|]. split; [done|].
      intros j Hj. apply Hn. destruct Hsp. lia. }
  destruct (addr_at_some P q Hlt) as [b Hb]. rewrite Hb.
  destruct (inv_dom _ _ _ _ Hi b) as [nd Hnd].
  { unfold addr_at in Hb. rewrite <- list_lookup_fmap in Hb. by eapply list_elem_of_lookup_2. }
  rewrite Hnd. cbn [mbind option_bind]. pose proof (inv_bound _ _ _ _ Hi). pose proof (inv_size _ _ _ _ Hi).
  replace (u64 _) with (Z.of_nat q) by (rewrite uwrap_small; lia).
  rewrite (proj2 Hsp q b nd) by (done || lia). case_bool_decide as Hqr.
  - apply IH; try done; lia.
  - exists p, a. split; [done|]. split; [done|]. split; [done|]. split; [done|]. intros j Hj. apply Hn. lia.
Qed.

Lemma descend_spec h zsl P E cond r n : forall p a,
  inv h zsl P E -> splits h P cond r -> addr_at P p = Some a -> (p <= r)%nat ->
  (n <= hgt P p)%nat -> (n <= zlevel zsl)%nat ->
  exists last update, descend h cond n a (Z.of_nat p) = Some (last, update) /\ length update = n /\
    (forall i, (i < n)%nat -> exists u pu, update !! i = Some (u, Z.of_nat pu) /\ addr_at P pu = Some u /\ is_last P i r pu) /\
    (if decide (n = 0)%nat then last = a else addr_at P r = Some last).
Proof.
  induction n as [|n IH]; intros p a Hi Hsp Ha Hpr Hh Hlv; cbn [descend].
  { exists a, []. split; [done|]. split; [done|]. split; [lia|done]. }
  destruct (walk_spec h zsl P E cond r n (walk_fuel h) p a) as (p1 & a1 & -> & Ha1 & Hl1); try done; try lia.
  { unfold walk_fuel. pose proof (heap_size _ _ _ _ Hi). lia. }
  cbn [mbind option_bind]. destruct (Hl1) as (Hp1 & Hh1 & Hn1).
  destruct (IH p1 a1) as (last & update & -> & Hlen & Hup & Hlast); try done; try lia.
  cbn [mbind option_bind]. eexists _, _. split; [done|]. split; [rewrite length_app, Hlen; cbn; lia|]. split.
  - intros i Hin. destruct (decide (i = n)) as [->|Hne].
    + exists a1, p1. rewrite lookup_app_r, Hlen, Nat.sub_diag by lia. done.
    + destruct (Hup i ltac:(lia)) as (u & pu & Hu & ?). exists u, pu. rewrite lookup_app_l by lia. done.
  - rewrite decide_False by lia. destruct (decide (n = 0)%nat) as [->|]; [|done]. subst last.
    assert (p1 = r) as <-; [|done]. destruct (Nat.eq_dec p1 r) as [|Hne]; [done|].
    destruct Hsp as [Hr _]. specialize (Hn1 r). pose proof (inv_hgt _ _ _ _ Hi r). lia.
Qed.

(** The arrays [update] and [rank] hold the last positions up to [r]. *)
Definition stored_at (P : shape) (zl r : nat) (update : list (addr * Z)) (U : nat -> nat) : Prop :=
  forall i, (i < zl)%nat -> is_last P i r (U i) /\
    exists u, addr_at P (U i) = Some u /\ update !! i = Some (u, Z.of_nat (U i)).

(** What a search from the header gives. *)
Definition found (P : shape) (zl r : nat) (last : addr) (update : list (addr * Z)) (U : nat -> nat) : Prop :=
  addr_at P r = Some last /\ length update = zl /\ stored_at P zl r update U.

Lemma search_found h zsl P E cond r :
  inv h zsl P E -> splits h P cond r ->
  exists last update U, descend h cond (zlevel zsl) (header zsl) 0 = Some (last, update) /\
    found P (zlevel zsl) r last update U.
Proof.
  intros Hi Hsp. pose proof (inv_level _ _ _ _ Hi) as Hlv.
  destruct (descend_spec h zsl P E cond r (zlevel zsl) 0 (header zsl)) as (last & update & Hd & Hlen & Hup & Hlast).
  { done. } { done. } { by eapply addr_0. } { lia. } { rewrite (hgt_0 _ _ _ _ Hi). lia. } { done. }
  exists last, update, (fun i => match update !! i with Some (_, z) => Z.to_nat z | None => 0%nat end).
  split; [done|]. rewrite decide_False in Hlast by lia. split; [done|]. split; [done|].
  intros i Hlt. destruct (Hup i Hlt) as (u & pu & -> & Ha & Hl). rewrite Nat2Z.id. split; [done|]. by exists u.
Qed.

(** ** The order and positions *)

Lemma node_at h zsl P E p a :
  inv h zsl P E -> addr_at P (S p) = Some a ->
  exists nd x, h !! a = Some nd /\ E !! p = Some x /\ ele nd = Some x.2 /\ score nd = x.1 /\ elt_ok x /\
    backward nd = back_at P (S p).
Proof.
  intros Hi Ha. destruct (inv_node _ _ _ _ Hi _ _ Ha) as (s & Hf & Hs). cbn [data_at] in *.
  assert (Hlt := addr_at_lt _ _ _ Ha). pose proof (inv_size _ _ _ _ Hi).
  destruct (lookup_lt_is_Some_2 E p) as [x Hx]; [lia|]. unfold fields in Hf.
  destruct (h !! a) as [nd|]; [|done]. cbn in Hf. injection Hf as He Hsc Hb Hl. exists nd, x.
  rewrite Hx in He. split; [done|]. split; [done|]. split; [done|]. split; [by rewrite Hsc; apply Hs|]. split; [|done].
  destruct (inv_elts _ _ _ _ Hi) as [Hok _]. by eapply Forall_lookup_1 in Hok.
Qed.

(** A predicate that, where it holds, holds of everything before. *)
Definition downclosed (E : list elt) (f : elt -> bool) : Prop :=
  forall i j x y, (i < j)%nat -> E !! i = Some x -> E !! j = Some y -> f y = true -> f x = true.

Definition count (f : elt -> bool) (E : list elt) : nat := length (base.filter (fun y => f y = true) E).

Lemma count_le f E : (count f E <= length E)%nat.
Proof. apply length_filter. Qed.

Lemma prefix_count E f :
  downclosed E f -> forall j y, E !! j = Some y -> f y = bool_decide (j < count f E)%nat.
Proof.
  induction E as [|a E IH]; intros Hd j y Hj; [done|]. unfold count. rewrite filter_cons.
  assert (HdE : downclosed E f) by (intros i k x z Hik Hi Hk; apply (Hd (S i) (S k)); [lia|done..]).
  destruct (decide (f a = true)) as [Ha|Ha].
  - destruct j as [|j]; cbn in Hj |- *; [injection Hj as <-; by rewrite Ha|].
    rewrite (IH HdE j y Hj). apply bool_decide_ext. unfold count. lia.
  - assert (Hnone : forall k z, (a :: E) !! k = Some z -> f z = false).
    { intros [|k] z Hk; [injection Hk as <-; by apply not_true_iff_false|].
      apply not_true_iff_false. intros Hz. apply Ha. by eapply (Hd 0%nat (S k)); [lia|..]. }
    rewrite (Hnone j y Hj). symmetry. apply bool_decide_eq_false.
    rewrite filter_none; [cbn; lia|]. apply Forall_lookup. intros k z Hk. by rewrite (Hnone (S k) z Hk).
Qed.

(** A loop condition that only looks at the score and the element. *)
Lemma elt_splits h zsl P E cond f :
  inv h zsl P E -> (forall nd e t, ele nd = Some e -> cond nd t = f (score nd, e)) -> downclosed E f ->
  splits h P cond (count f E).
Proof.
  intros Hi Hc Hd. pose proof (inv_size _ _ _ _ Hi) as Hsz. pose proof (count_le f E) as Hr. split; [lia|].
  intros [|q] a nd Hq Ha Hnd; [lia|]. destruct (node_at _ _ _ _ _ _ Hi Ha) as (nd' & [s e] & Hnd' & Hx & He & Hsc & Hok & _).
  assert (nd' = nd) as -> by congruence. cbn in He, Hsc. rewrite (Hc nd e _ He), Hsc.
  rewrite (prefix_count E f Hd q _ Hx). apply bool_decide_ext. lia.
Qed.

(** The number of elements before [x]. *)
Definition rank_of (E : list elt) (x : elt) : nat := count (fun y => elt_lt y x) E.

Lemma sorted_lt E i j x y : elts_ok E -> (i < j)%nat -> E !! i = Some x -> E !! j = Some y -> elt_lt x y = true.
Proof. intros [_ Hs] Hij Hx Hy. by apply (StronglySorted_lookup _ E i j x y Hs Hx Hy). Qed.

Lemma elt_at E j y : elts_ok E -> E !! j = Some y -> elt_ok y.
Proof. intros [Hok _] Hj. by eapply Forall_lookup_1 in Hok. Qed.

Lemma lt_downclosed E x : elts_ok E -> elt_ok x -> downclosed E (fun y => elt_lt y x).
Proof.
  intros HE Hx i j a b Hij Ha Hb. apply elt_lt_trans; [by eapply elt_at|by eapply elt_at|done|by eapply sorted_lt].
Qed.

Lemma sorted_prefix E x :
  elts_ok E -> elt_ok x ->
  forall j y, E !! j = Some y -> elt_lt y x = bool_decide (j < rank_of E x)%nat.
Proof. intros HE Hx. apply prefix_count. by apply lt_downclosed. Qed.

Lemma rank_of_le E x : (rank_of E x <= length E)%nat.
Proof. apply count_le. Qed.

Lemma before_splits h zsl P E s e :
  inv h zsl P E -> isnan s = false -> splits h P (before s e) (rank_of E (s, e)).
Proof.
  intros Hi Hs. apply (elt_splits h zsl); [done| |apply lt_downclosed; [apply (inv_elts _ _ _ _ Hi)|done]].
  intros nd e' t He. unfold before. by rewrite He.
Qed.

End SlInv.
