(* ===== verification/SkiplistEdit.v ===== *)
(** * Insertion into and deletion from a skip list

    [zslInsert] and [zslDeleteNode] keep the invariant of SkiplistInv.v and
    insert an element into, and remove it from, the sorted sequence. *)

From stdpp Require Import gmap.
From S2P Require Import Prelude.
From S2P Require Import Skiplist.
From S2P Require Import SkiplistSpec.
From S2P Require Import SkiplistInv.
Import Skiplist SlSpec SlInv.

Module SlEdit.

(** ** A new position *)

Definition insert_after {A} (r : nat) (x : A) (l : list A) : list A := take r l ++ x :: drop r l.

Lemma insert_after_lookup {A} r (x : A) l j :
  (r <= length l)%nat ->
  insert_after r x l !! j = if decide (j < r)%nat then l !! j else if decide (j = r) then Some x else l !! (j - 1)%nat.
Proof.
  intros Hr. unfold insert_after. destruct (decide (j < r)%nat) as [Hl|Hl].
  - rewrite lookup_app_l by (rewrite length_take; lia). by apply lookup_take_lt.
  - rewrite lookup_app_r by (rewrite length_take; lia). rewrite length_take, Nat.min_l by lia.
    destruct (decide (j = r)) as [->|Hne]; [by rewrite Nat.sub_diag|].
    destruct (j - r)%nat as [|m] eqn:E; [lia|]. change ((x :: drop r l) !! S m) with (drop r l !! m). rewrite lookup_drop. f_equal. lia.
Qed.

Lemma length_insert_after {A} r (x : A) l : length (insert_after r x l) = S (length l).
Proof. unfold insert_after. rewrite length_app, length_take. cbn. rewrite length_drop. lia. Qed.

Lemma insert_after_perm {A} r (x : A) l : insert_after r x l ≡ₚ x :: l.
Proof. unfold insert_after. rewrite <- Permutation_middle. by rewrite take_drop. Qed.

Section Shape.
Context (P : shape) (r k : nat) (x : addr) (Hr : (r < length P)%nat).
#[local] Set Default Proof Using "Type*".

#[local] Abbreviation P' := (insert_after (S r) (x, k) P).

Lemma hgt_ins j : hgt P' j = if decide (j <= r)%nat then hgt P j else if decide (j = S r) then k else hgt P (j - 1).
Proof.
  unfold hgt. rewrite insert_after_lookup by lia.
  destruct (decide (j < S r)%nat), (decide (j <= r)%nat), (decide (j = S r)); try done; lia.
Qed.

Lemma addr_ins j : addr_at P' j = if decide (j <= r)%nat then addr_at P j else if decide (j = S r) then Some x else addr_at P (j - 1).
Proof.
  unfold addr_at. rewrite insert_after_lookup by lia.
  destruct (decide (j < S r)%nat), (decide (j <= r)%nat), (decide (j = S r)); try done; lia.
Qed.

Ltac next :=
  unfold is_next; rewrite ?length_insert_after; intros;
  repeat match goal with H : _ /\ _ |- _ => destruct H end;
  repeat split; intros; try lia; rewrite ?hgt_ins; decs;
  try match goal with H : forall j, _ -> (hgt P j <= _)%nat |- (hgt P ?j <= _)%nat => apply H; lia end;
  try match goal with H : (?q < length P -> _)%nat |- (_ < hgt P ?j)%nat => replace j with q by lia; apply H; lia end.

Lemma next_below i p q : is_next P i p q -> (p <= r)%nat -> (q <= r)%nat -> is_next P' i p q.
Proof. next. Qed.

Lemma next_to i p q : is_next P i p q -> (p <= r < q)%nat -> (i < k)%nat -> is_next P' i p (S r).
Proof. next. Qed.

Lemma next_from i p q : is_next P i p q -> (p <= r < q)%nat -> is_next P' i (S r) (S q).
Proof. next. Qed.

Lemma next_over i p q : is_next P i p q -> (p <= r < q)%nat -> (k <= i)%nat -> is_next P' i p (S q).
Proof. next. Qed.

Lemma next_above i p q : is_next P i p q -> (r < p)%nat -> is_next P' i (S p) (S q).
Proof. next. Qed.

End Shape.

(** ** The new heap *)

(** The levels after the insertion of [x] with [lv] levels after position
    [r]; [U i] is the last position up to [r] at level [i]. *)
Definition inserted_levels (h : heap) (P : shape) (r lv zl : nat) (x : addr) (U : nat -> nat) (b : addr) (j : nat) :
    option (option addr * Z) :=
  if decide (j < zl)%nat then
    if decide (b = x) then
      if decide (j < lv)%nat then
        u ← addr_at P (U j); (fun l => (l.1, l.2 - (Z.of_nat r - Z.of_nat (U j)))) <$> lvl h u j
      else None
    else if decide (addr_at P (U j) = Some b) then
      if decide (j < lv)%nat then Some (Some x, Z.of_nat r - Z.of_nat (U j) + 1)
      else (fun l => (l.1, l.2 + 1)) <$> lvl h b j
    else lvl h b j
  else lvl h b j.

Definition with_back (b : option addr) (f : option sds * double * option addr * nat) : option sds * double * option addr * nat :=
  let '(e, s, _, n) := f in (e, s, b, n).

Definition inserted_fields (h : heap) (P : shape) (r lv : nat) (x : addr) (s : double) (e : sds) (b : addr) :
    option (option sds * double * option addr * nat) :=
  if decide (b = x) then Some (Some e, s, if decide (r = 0%nat) then None else addr_at P r, lv)
  else if decide (addr_at P (S r) = Some b) then with_back (Some x) <$> fields h b
  else fields h b.

Section Insert.
Context (h : heap) (zsl : zskiplist) (P : shape) (E : list elt) (Hi : inv h zsl P E).
Context (r lv : nat) (x : addr) (s : double) (e : sds) (U : nat -> nat) (h' : heap).
Context (Hr : (r < length P)%nat) (Hlv : (1 <= lv <= zlevel zsl)%nat) (Hx : h !! x = None).
Context (HU : forall i, (i < zlevel zsl)%nat -> is_last P i r (U i)).
Context (Hlvl : forall b j, lvl h' b j = inserted_levels h P r lv (zlevel zsl) x U b j).
Context (Hfld : forall b, fields h' b = inserted_fields h P r lv x s e b).
#[local] Set Default Proof Using "Type*".

#[local] Abbreviation P' := (insert_after (S r) (x, lv) P).
#[local] Abbreviation E' := (insert_after r (s, e) E).

Lemma x_new p : addr_at P p <> Some x.
Proof using Hi Hx.
  intros Ha. assert (Hin : is_Some (h !! x)); [|rewrite Hx in Hin; by destruct Hin].
  apply (inv_dom _ _ _ _ Hi). unfold addr_at in Ha. rewrite <- list_lookup_fmap in Ha. by eapply list_elem_of_lookup_2.
Qed.

Lemma link_at p a i :
  addr_at P p = Some a -> (i < hgt P p)%nat -> (i < zlevel zsl)%nat ->
  exists q, is_next P i p q /\ lvl h a i = Some (addr_at P q, Z.of_nat (Nat.min q (length P - 1)) - Z.of_nat p).
Proof using Hi. intros Ha Hh Hz. destruct (inv_link _ _ _ _ Hi p a i Ha Hh Hz) as (l & Hl & q & Hq & ->). by exists q. Qed.

(** The position stored for a level, and its link across [r]. *)
Lemma last_link i :
  (i < zlevel zsl)%nat ->
  exists u q, addr_at P (U i) = Some u /\ is_next P i (U i) q /\ (U i <= r < q)%nat /\
    lvl h u i = Some (addr_at P q, Z.of_nat (Nat.min q (length P - 1)) - Z.of_nat (U i)).
Proof using Hi Hr HU.
  clear Hlv Hlvl. intros Hz. destruct (HU i Hz) as (Hle & Hh & Hlast). destruct (addr_at_some P (U i) ltac:(lia)) as [u Hu].
  destruct (link_at (U i) u i Hu Hh Hz) as (q & Hq & Hl). exists u, q. split; [done|]. split; [done|]. split; [|done].
  destruct Hq as (Hpq & _ & Hhq). split; [done|]. destruct (Nat.le_gt_cases q r); [|done].
  specialize (Hlast q ltac:(lia)). lia.
Qed.

Lemma insert_link p a i :
  addr_at P' p = Some a -> (i < hgt P' p)%nat -> (i < zlevel zsl)%nat ->
  exists l, lvl h' a i = Some l /\ link P' i p l.
Proof.
  rewrite addr_ins, hgt_ins by done. intros Ha Hh Hz. rewrite Hlvl. unfold inserted_levels, link.
  rewrite decide_True by done. rewrite length_insert_after. destruct (last_link i Hz) as (u & qu & Hu & Hqu & Hrange & Hlu).
  destruct (decide (p <= r)%nat) as [Hpr|Hpr].
  - assert (Hax : a <> x) by (intros ->; by apply (x_new p)). rewrite decide_False by done.
    destruct (decide (p = U i)) as [->|Hne].
    + assert (a = u) as -> by congruence. rewrite decide_True by done. rewrite Hlu. destruct (decide (i < lv)%nat).
      * eexists. split; [done|]. exists (S r). split; [eapply next_to; done|]. rewrite addr_ins by done. decl. f_equal. lia.
      * eexists. split; [done|]. exists (S qu). split; [eapply next_over; try done; lia|]. rewrite addr_ins by done. decl.
        replace (S qu - 1)%nat with qu by lia. cbn [fst snd]. f_equal. lia.
    + rewrite decide_False by (intros Hu'; apply Hne; by eapply addr_at_inj).
      destruct (link_at p a i Ha Hh Hz) as (q & Hq & ->). eexists. split; [done|].
      destruct (next_last P i r (U i) p q (HU i Hz) Hpr Hq Hne Hr) as [Hqp|Hlt].
      * exists q. split; [apply next_below; done || lia|]. rewrite addr_ins by done. decl. f_equal. lia.
      * destruct (HU i Hz) as (_ & _ & Hlast). specialize (Hlast p). lia.
  - destruct (decide (p = S r)) as [->|Hps].
    + injection Ha as <-. rewrite !decide_True by done. rewrite Hu. cbn [mbind option_bind]. rewrite Hlu.
      eexists. split; [done|]. exists (S qu). split; [eapply next_from; done|]. rewrite addr_ins by done. decl.
      replace (S qu - 1)%nat with qu by lia. cbn [fst snd]. f_equal. lia.
    + assert (Hax : a <> x) by (intros ->; by apply (x_new (p - 1))). rewrite decide_False by done.
      rewrite decide_False. 2:{ intros Hu'. assert (p - 1 = U i)%nat by by eapply addr_at_inj. lia. }
      destruct (link_at (p - 1) a i Ha Hh Hz) as (q & Hq & ->). eexists. split; [done|]. exists (S q).
      pose proof (next_above P r lv x Hr i (p - 1) q Hq ltac:(lia)) as Hn.
      replace (S (p - 1)) with p in Hn by lia. split; [done|]. rewrite addr_ins by done. destruct (Hq) as (? & _).
      decl. replace (S q - 1)%nat with q by lia. f_equal. lia.
Qed.

Lemma data_ins p :
  data_at E' p = if decide (p <= r)%nat then data_at E p else if decide (p = S r) then Some (s, e) else data_at E (p - 1).
Proof.
  pose proof (inv_size _ _ _ _ Hi). destruct p as [|p]; cbn [data_at]; [by rewrite decide_True by lia|].
  rewrite insert_after_lookup by lia. destruct p as [|p]; cbn [Nat.sub data_at].
  - destruct (decide (0 < r)%nat), (decide (1 <= r)%nat), (decide (0 = r)%nat), (decide (1 = S r)%nat); try done; lia.
  - rewrite Nat.sub_0_r. destruct (decide (S p < r)%nat), (decide (S (S p) <= r)%nat), (decide (S p = r)), (decide (S (S p) = S r)); try done; lia.
Qed.

Lemma back_ins p :
  back_at P' p =
    if decide (p <= r)%nat then back_at P p
    else if decide (p = S r) then (if decide (r = 0%nat) then None else addr_at P r)
    else if decide (p = S (S r)) then Some x else back_at P (p - 1).
Proof.
  destruct p as [|[|p]]; cbn [back_at].
  - by rewrite decide_True by lia.
  - destruct (decide (1 <= r)%nat); [done|]. destruct (decide (1 = S r)%nat); [|lia]. destruct (decide (r = 0%nat)); [done|lia].
  - rewrite addr_ins by done. destruct (decide (S (S p) <= r)%nat) as [Hle|].
    { destruct (decide (S p <= r)%nat); [done|lia]. }
    destruct (decide (S (S p) = S r)) as [Heq|].
    + injection Heq as <-. by rewrite decide_True, decide_False by lia.
    + rewrite decide_False by lia. destruct (decide (S (S p) = S (S r))) as [Heq|]; [by rewrite decide_True by lia|].
      rewrite decide_False by lia. destruct p; [lia|]. cbn. done.
Qed.

Lemma insert_node p a : addr_at P' p = Some a -> node_ok h' P' E' p a.
Proof.
  rewrite addr_ins by done. intros Ha. unfold node_ok. rewrite Hfld, data_ins, back_ins, hgt_ins by done. unfold inserted_fields.
  destruct (decide (p <= r)%nat) as [Hp|Hp].
  - rewrite decide_False by (intros ->; by apply (x_new p)).
    rewrite decide_False; [by apply (inv_node _ _ _ _ Hi)|].
    intros Hs. pose proof (addr_at_inj _ _ _ _ _ _ _ Hi Ha Hs). lia.
  - destruct (decide (p = S r)) as [->|Hps].
    + injection Ha as <-. rewrite decide_True by done. exists s. split; [done|]. by intros ? [= <-].
    + rewrite decide_False by (intros ->; by apply (x_new (p - 1))).
      destruct (inv_node _ _ _ _ Hi _ _ Ha) as (sc & Hf & Hs). exists sc. split; [|done].
      destruct (decide (p = S (S r))) as [->|Hpss].
      * replace (S (S r) - 1)%nat with (S r) in * by lia. by rewrite decide_True, Hf by done.
      * rewrite decide_False, Hf; [done|]. intros Hs'. pose proof (addr_at_inj _ _ _ _ _ _ _ Hi Ha Hs'). lia.
Qed.

Lemma insert_dom a : is_Some (h' !! a) <-> a = x \/ is_Some (h !! a).
Proof using Hfld.
  rewrite <- !fields_some, Hfld. unfold inserted_fields. destruct (decide (a = x)) as [->|Hne]; [split; [by left|done]|].
  destruct (decide _); [rewrite fmap_is_Some|]; (split; [by right|by intros [?|?]]).
Qed.

Lemma inv_insert :
  Zlen E + 1 < 2 ^ 64 -> elts_ok E' ->
  inv h' {| header := header zsl; tail := if decide (S r < length P)%nat then tail zsl else Some x;
            zlength := zlength zsl + 1; zlevel := zlevel zsl |} P' E'.
Proof.
  intros Hb He. pose proof (inv_size _ _ _ _ Hi) as Hsz. pose proof (inv_header _ _ _ _ Hi) as Hhd. split; cbn [header tail zlength zlevel].
  - rewrite insert_after_lookup by lia. by rewrite decide_True by lia.
  - rewrite insert_after_perm. cbn. apply NoDup_cons. split; [|apply (inv_nodup _ _ _ _ Hi)].
    intros Hin%(inv_dom _ _ _ _ Hi). rewrite Hx in Hin. by destruct Hin.
  - by rewrite !length_insert_after, Hsz.
  - rewrite length_insert_after, (inv_length _ _ _ _ Hi). lia.
  - rewrite length_insert_after. lia.
  - destruct E' as [|y E1] eqn:HE'. { apply (f_equal length) in HE'. by rewrite length_insert_after in HE'. }
    rewrite <- HE', length_insert_after, addr_ins by done. destruct (decide (S r < length P)%nat).
    + rewrite !decide_False by lia. rewrite (inv_tail _ _ _ _ Hi). destruct E; [cbn in *; lia|]. f_equal.
    + by rewrite decide_False, decide_True by lia.
  - apply (inv_level _ _ _ _ Hi).
  - intros j. rewrite length_insert_after, hgt_ins by done. intros Hj. pose proof (inv_hgt _ _ _ _ Hi).
    destruct (decide (j <= r)%nat); [auto with lia|]. destruct (decide (j = S r)); [lia|]. auto with lia.
  - intros a. rewrite insert_after_perm. cbn. rewrite elem_of_cons. intros [->|Hin]; apply insert_dom; [by left|].
    right. by apply (inv_dom _ _ _ _ Hi).
  - apply insert_node.
  - apply insert_link.
  - intros i Hlt. destruct (inv_unused _ _ _ _ Hi i Hlt) as [sp Hsp]. exists sp. rewrite Hlvl. unfold inserted_levels.
    by rewrite decide_False by lia.
  - done.
Qed.

End Insert.

(** ** Sorted sequences *)

Lemma elts_insert E y :
  elts_ok E -> elt_ok y -> Forall (fun z => elt_eq z y = false) E -> elts_ok (insert_after (rank_of E y) y E).
Proof.
  intros HE Hy Hne. pose proof (sorted_prefix E y HE Hy) as Hpre. destruct HE as [Hok Hs].
  rewrite Forall_forall in Hok, Hne. split.
  - unfold elts_ok. rewrite insert_after_perm. apply Forall_cons. split; [done|]. by apply Forall_forall.
  - set (r := rank_of E y) in *. rewrite <- (take_drop r E) in Hs. apply StronglySorted_app in Hs as (H12 & H1 & H2).
    assert (Hlo : forall z, z ∈ take r E -> elt_lt z y = true).
    { intros z [j Hj]%list_elem_of_lookup. apply lookup_take_Some in Hj as [Hj Hlt].
      rewrite (Hpre j z Hj). by apply bool_decide_eq_true. }
    assert (Hhi : forall z, z ∈ drop r E -> elt_lt y z = true).
    { intros z [j Hj]%list_elem_of_lookup. rewrite lookup_drop in Hj. pose proof (Hpre _ _ Hj) as Hz.
      rewrite bool_decide_eq_false_2 in Hz by lia. apply list_elem_of_lookup_2 in Hj.
      destruct (elt_lt y z) eqn:Hyz; [done|]. pose proof (elt_trichotomy z y (Hok _ Hj) Hy Hz Hyz). rewrite Hne in *; done. }
    apply StronglySorted_app. split_and!; [|done|apply StronglySorted_cons; split; [by apply Forall_forall|done]].
    intros a b Ha [->|Hb]%elem_of_cons; [by apply Hlo|by apply H12].
Qed.

(** ** [zslInsert] *)

Lemma set_backward_spec h a b :
  is_Some (h !! a) ->
  exists h', set_backward h a b = Some h' /\
    (forall c, fields h' c = if decide (c = a) then with_back b <$> fields h c else fields h c) /\
    (forall c j, lvl h' c j = lvl h c j).
Proof.
  intros [nd Ha]. unfold set_backward. rewrite Ha. cbn [mbind option_bind]. eexists. split; [done|]. split.
  - intros c. unfold fields. destruct (decide (c = a)) as [->|Hne]; [|by rewrite lookup_insert_ne].
    by rewrite lookup_insert_eq, Ha.
  - intros c j. unfold lvl. destruct (decide (c = a)) as [->|Hne]; [|by rewrite lookup_insert_ne].
    by rewrite lookup_insert_eq, Ha.
Qed.

(** More levels: the header reaches the end at the new ones. *)
Lemma raise_inv h zsl P E lv :
  inv h zsl P E -> (lv <= ZSKIPLIST_MAXLEVEL)%nat ->
  exists h', raise_levels h (header zsl) (zlength zsl) (zlevel zsl) (lv - zlevel zsl) = Some h' /\
    inv h' {| header := header zsl; tail := tail zsl; zlength := zlength zsl; zlevel := Nat.max lv (zlevel zsl) |} P E /\
    (forall a, is_Some (h' !! a) <-> is_Some (h !! a)).
Proof.
  intros Hi Hlv. pose proof (inv_level _ _ _ _ Hi) as Hzl.
  destruct (raise_levels_spec (header zsl) (zlength zsl) (lv - zlevel zsl) h (zlevel zsl)) as (h' & -> & Hrel).
  { intros j Hj. destruct (inv_unused _ _ _ _ Hi j) as [sp ->]; [lia|done]. }
  exists h'. split; [done|]. split; [|intros a; apply (relevel_dom _ _ _ _ Hrel)]. destruct (Hrel) as [Hf Hl].
  destruct Hi; split; cbn [header tail zlength zlevel]; try done.
  - lia.
  - intros j Hj. specialize (inv_hgt0 j Hj). lia.
  - intros a Ha. apply (relevel_dom _ _ _ _ Hrel). auto.
  - intros p a Ha. destruct (inv_node0 p a Ha) as (s & Hs & Hx). exists s. by rewrite Hf.
  - intros p a i Ha Hh Hz. rewrite Hl. destruct (decide (i < zlevel zsl)%nat) as [Hlt|Hge].
    + rewrite decide_False by lia. by apply inv_link0.
    + assert (p = 0%nat) as ->.
      { destruct p; [done|]. apply addr_at_lt in Ha. specialize (inv_hgt0 (S p)). lia. }
      assert (a = header zsl) as -> by (unfold addr_at in Ha; rewrite inv_header0 in Ha; by injection Ha).
      rewrite decide_True by (split; [done|lia]). destruct (inv_unused0 i) as [sp ->].
      { unfold hgt in Hh. rewrite inv_header0 in Hh. cbn in Hh. lia. }
      eexists. split; [done|]. exists (length P). split.
      * split; [rewrite inv_size0; lia|]. split; [|lia]. intros j Hj. specialize (inv_hgt0 j). lia.
      * cbn. unfold addr_at. rewrite lookup_ge_None_2 by lia. cbn. f_equal. lia.
  - intros i Hlt. rewrite Hl, decide_False by lia. apply inv_unused0. lia.
Qed.

Lemma found_raise h zsl P E r last update U lv :
  inv h zsl P E -> (r < length P)%nat -> (lv <= ZSKIPLIST_MAXLEVEL)%nat -> found P (zlevel zsl) r last update U ->
  found P (Nat.max lv (zlevel zsl)) r last (update ++ replicate (lv - zlevel zsl) (header zsl, 0))
    (fun i => if decide (i < zlevel zsl)%nat then U i else 0%nat).
Proof.
  intros Hi Hr Hlv (Hlast & Hlen & Hup). split; [done|]. split; [rewrite length_app, length_replicate; lia|].
  intros i Hlt. destruct (decide (i < zlevel zsl)%nat) as [Hz|Hz].
  - destruct (Hup i Hz) as (HU & u & Hu & Hupd). split; [done|]. exists u. split; [done|]. rewrite lookup_app_l by lia. done.
  - split.
    + split; [lia|]. rewrite (hgt_0 _ _ _ _ Hi). split; [lia|]. intros j Hj. pose proof (inv_hgt _ _ _ _ Hi j). lia.
    + exists (header zsl). split; [by eapply addr_0|]. rewrite lookup_app_r, lookup_replicate_2 by lia. done.
Qed.

(** At level 0 every position is reached. *)
Lemma last_level0 h zsl P E r p : inv h zsl P E -> (r < length P)%nat -> is_last P 0 r p -> p = r.
Proof.
  intros Hi Hr (Hle & _ & Hl). destruct (Nat.eq_dec p r) as [|Hne]; [done|].
  specialize (Hl r ltac:(lia)). pose proof (inv_hgt _ _ _ _ Hi r). lia.
Qed.

Lemma next_level0 h zsl P E p q : inv h zsl P E -> is_next P 0 p q -> q = S p.
Proof.
  intros Hi (Hpq & Hn & _). destruct (Nat.eq_dec q (S p)) as [|Hne]; [done|].
  specialize (Hn (S p) ltac:(lia)). pose proof (inv_hgt _ _ _ _ Hi (S p)). lia.
Qed.

Lemma random_loop_ge rnd : forall lv k rest, random_loop rnd lv = Some (k, rest) -> lv <= k.
Proof.
  induction rnd as [|z rnd IH]; intros lv k rest; cbn; [done|]. destruct (z <? threshold); [|by intros [= -> _]].
  intros Hr%IH. lia.
Qed.

Lemma random_level_range rnd lv rest : zslRandomLevel rnd = Some (lv, rest) -> (1 <= lv <= ZSKIPLIST_MAXLEVEL)%nat.
Proof.
  unfold zslRandomLevel. destruct (random_loop rnd 1) as [[k r]|] eqn:E; [|done]. cbn. intros [= <- _].
  apply random_loop_ge in E. destruct (Z.ltb_spec k 32); lia.
Qed.

Lemma lvl_new h a nd b j : lvl (<[a := nd]> h) b j = if decide (b = a) then level nd !! j else lvl h b j.
Proof.
  unfold lvl. destruct (decide (b = a)) as [->|]; [by rewrite lookup_insert_eq|by rewrite lookup_insert_ne].
Qed.

(** The loops over the levels write what [inserted_levels] says. *)
Lemma insert_levels h zsl P E r last update U lv s e x :
  inv h zsl P E -> (r < length P)%nat -> found P (zlevel zsl) r last update U -> (1 <= lv <= zlevel zsl)%nat ->
  h !! x = None -> Zlen E + 1 < 2 ^ 64 ->
  let h0 := <[x := {| ele := e; score := s; backward := None; level := replicate lv (None, 0) |}]> h in
  exists h1 h2, link_levels h0 x update (Z.of_nat r) 0 lv = Some h1 /\
    incr_levels h1 update lv (zlevel zsl - lv) = Some h2 /\
    (forall b, fields h2 b = fields h0 b) /\
    (forall b j, lvl h2 b j = inserted_levels h P r lv (zlevel zsl) x U b j).
Proof.
  intros Hi Hr (Hlast & Hlen & Hup) Hlv Hx Hb h0.
  assert (Hst : forall i n, (i + n <= zlevel zsl)%nat ->
    stored update (fun j => default 0%nat (addr_at P (U j))) (fun j => Z.of_nat (U j)) i n).
  { intros i n Hn j Hj. destruct (Hup j ltac:(lia)) as (_ & u & -> & ->). done. }
  assert (HU : forall i, (i < zlevel zsl)%nat -> is_last P i r (U i)) by (intros i Hz; apply Hup, Hz).
  set (Ua := fun j => default 0%nat (addr_at P (U j))) in *.
  assert (Hlink : forall j, (j < zlevel zsl)%nat -> exists q, addr_at P (U j) = Some (Ua j) /\ Ua j <> x /\ (U j <= r < q)%nat /\
    (q <= length P)%nat /\ lvl h (Ua j) j = Some (addr_at P q, Z.of_nat (Nat.min q (length P - 1)) - Z.of_nat (U j))).
  { intros j Hj. destruct (last_link h zsl P E Hi r U Hr HU j Hj) as (u & q & Hu & (Hq & _) & Hrq & Hl). exists q.
    unfold Ua. rewrite Hu. cbn. split; [done|]. split; [intros ->; by apply (x_new h zsl P E Hi x Hx (U j))|].
    split; [done|]. split; [lia|done]. }
  assert (Hx0 : forall j, lvl h x j = None) by (intros j; unfold lvl; by rewrite Hx).
  destruct (link_levels_spec x update Ua (fun j => Z.of_nat (U j)) (Z.of_nat r) lv h0 0) as (h1 & E1 & H1).
  { apply Hst. lia. }
  { intros j Hj. destruct (Hlink j ltac:(lia)) as (q & Hu & Hne & _ & _ & Hl). split; [done|]. split.
    - unfold h0. rewrite lvl_new, decide_False by done. by rewrite Hl.
    - unfold h0. rewrite lvl_new, decide_True by done. cbn. rewrite lookup_replicate_2 by lia. done. }
  destruct (incr_levels_spec update Ua (fun j => Z.of_nat (U j)) (zlevel zsl - lv) h1 lv) as (h2 & E2 & H2).
  { apply Hst. lia. }
  { intros j Hj. rewrite (proj2 H1), decide_False by lia. destruct (Hlink j ltac:(lia)) as (q & Hu & Hne & _ & _ & Hl).
    unfold h0. rewrite lvl_new, decide_False by done. by rewrite Hl. }
  exists h1, h2. split; [done|]. split; [done|]. split; [intros b; by rewrite (proj1 H2), (proj1 H1)|].
  pose proof (inv_size _ _ _ _ Hi) as Hsz. intros b j. rewrite (proj2 H2), !(proj2 H1). unfold inserted_levels, h0. rewrite !lvl_new.
  destruct (decide (j < zlevel zsl)%nat) as [Hj|Hj].
  2:{ rewrite !decide_False by lia. case_decide as Hbx; [subst b; cbn|done]. rewrite Hx0. apply lookup_replicate_None. lia. }
  destruct (Hlink j Hj) as (q & Hu & Hne & Hrq & Hql & Hl). rewrite Hu, (decide_False (P := Ua j = x)) by done.
  destruct (decide (j < lv)%nat) as [Hjl|Hjl].
  - rewrite decide_False, decide_True by lia. destruct (decide (b = x)) as [->|Hbx].
    + cbn [mbind option_bind]. rewrite Hl. cbn. rewrite !uwrap_small by (rewrite ?uwrap_small; lia). done.
    + destruct (decide (b = Ua j)) as [->|Hbu].
      * rewrite decide_True by done. rewrite !uwrap_small by (rewrite ?uwrap_small; lia). done.
      * by rewrite decide_False by congruence.
  - rewrite (decide_False (P := (0 <= j < 0 + lv)%nat)) by lia. destruct (decide (b = x)) as [->|Hbx].
    + rewrite decide_False by (intros [_ ?]; congruence). cbn. apply lookup_replicate_None. lia.
    + destruct (decide (b = Ua j)) as [->|Hbu].
      * rewrite !decide_True by (done || (split; [lia|done])). rewrite Hl. cbn. rewrite uwrap_small by lia. done.
      * rewrite (decide_False (P := Some (Ua j) = Some b)) by congruence.
        by rewrite decide_False by (intros [_ ?]; congruence).
Qed.

Lemma fields_new h a nd b :
  fields (<[a := nd]> h) b =
    if decide (b = a) then Some (ele nd, score nd, backward nd, length (level nd)) else fields h b.
Proof.
  unfold fields. destruct (decide (b = a)) as [->|]; [by rewrite lookup_insert_eq|by rewrite lookup_insert_ne].
Qed.

(** The backward pointers of the new node and of the next one. *)
Lemma insert_backs h zsl P E r lv x s e last h3 :
  inv h zsl P E -> (r < length P)%nat -> h !! x = None -> addr_at P r = Some last ->
  (forall b, fields h3 b =
     fields (<[x := {| ele := Some e; score := s; backward := None; level := replicate lv (None, 0) |}]> h) b) ->
  exists h4 h5, set_backward h3 x (if decide (last = header zsl) then None else Some last) = Some h4 /\
    match addr_at P (S r) with Some y => set_backward h4 y (Some x) | None => Some h4 end = Some h5 /\
    (forall b j, lvl h4 b j = lvl h3 b j) /\ (forall b j, lvl h5 b j = lvl h3 b j) /\
    (forall b, fields h5 b = inserted_fields h P r lv x s e b).
Proof.
  intros Hi Hr Hx Hlast Hf3.
  assert (Hback : (if decide (last = header zsl) then None else Some last)
                  = if decide (r = 0%nat) then None else addr_at P r).
  { destruct (decide (last = header zsl)) as [->|Hne], (decide (r = 0%nat)) as [->|Hr0]; try done.
    - destruct Hr0. eapply addr_at_inj; [exact Hi|done|by eapply addr_0].
    - rewrite (addr_0 _ _ _ _ Hi) in Hlast. congruence. }
  destruct (set_backward_spec h3 x (if decide (last = header zsl) then None else Some last)) as (h4 & -> & Hf4 & Hl4).
  { apply fields_some. rewrite Hf3, fields_new, decide_True by done. done. }
  assert (Hf4' : forall b, fields h4 b = if decide (b = x) then Some (Some e, s, if decide (r = 0%nat) then None else addr_at P r, lv)
                                         else fields h b).
  { intros b. rewrite Hf4, Hf3, fields_new. destruct (decide (b = x)); [|done]. cbn. by rewrite length_replicate, Hback. }
  exists h4. unfold inserted_fields. destruct (addr_at P (S r)) as [y|] eqn:Hy.
  - assert (Hyx : y <> x) by (intros ->; by apply (x_new h zsl P E Hi x Hx (S r))).
    destruct (node_at _ _ _ _ _ _ Hi Hy) as (nd & _ & Hnd & _).
    destruct (set_backward_spec h4 y (Some x)) as (h5 & -> & Hf5 & Hl5).
    { apply fields_some. rewrite Hf4', decide_False by done. apply fields_some. by rewrite Hnd. }
    exists h5. split; [done|]. split; [done|]. split; [done|]. split; [intros; by rewrite Hl5|].
    intros b. rewrite Hf5, Hf4'. destruct (decide (b = x)) as [->|Hbx]; [by rewrite decide_False|].
    destruct (decide (b = y)) as [->|Hby]; [by rewrite decide_True|]. by rewrite decide_False by congruence.
  - exists h4. split; [done|]. split; [done|]. split; [done|]. split; [done|]. intros b. by rewrite Hf4'.
Qed.

(** [zslInsert] always returns, with the invariant for the sequence with the
    new element at its place. *)
Lemma zslInsert_spec h zsl P E rnd s e lv rest :
  inv h zsl P E -> isnan s = false -> Forall (fun z => elt_eq z (s, e) = false) E -> Zlen E + 1 < 2 ^ 64 ->
  zslRandomLevel rnd = Some (lv, rest) ->
  let r := rank_of E (s, e) in
  exists x h' zsl', zslInsert h zsl rnd s e = Some (x, h', zsl', rest) /\ h !! x = None /\
    inv h' zsl' (insert_after (S r) (x, lv) P) (insert_after r (s, e) E) /\
    (forall a, is_Some (h' !! a) <-> a = x \/ is_Some (h !! a)).
Proof.
  intros Hi Hs Hnew Hb Hrnd r. unfold zslInsert. rewrite Hs. cbn [negb assertb mbind option_bind].
  pose proof (before_splits _ _ _ _ s e Hi Hs) as Hsp. fold r in Hsp. pose proof (proj1 Hsp) as Hr.
  destruct (search_found _ _ _ _ _ _ Hi Hsp) as (last & update & U & -> & Hfd). cbn [mbind option_bind].
  rewrite Hrnd. cbn [mbind option_bind]. pose proof (random_level_range _ _ _ Hrnd) as Hlv.
  pose proof (found_raise _ _ _ _ _ _ _ _ lv Hi Hr ltac:(lia) Hfd) as Hfd1.
  destruct (raise_inv _ _ _ _ lv Hi ltac:(lia)) as (h1 & -> & Hi1 & Hdom1). cbn [mbind option_bind].
  set (zsl1 := {| header := header zsl; tail := tail zsl; zlength := zlength zsl; zlevel := Nat.max lv (zlevel zsl) |}) in *.
  set (U1 := fun i => if decide (i < zlevel zsl)%nat then U i else 0%nat) in *.
  set (update1 := update ++ replicate (lv - zlevel zsl) (header zsl, 0)) in *.
  unfold zslCreateNode. set (x := fresh (dom h1)).
  assert (Hx : h1 !! x = None) by (apply not_elem_of_dom, is_fresh).
  destruct (Hfd1) as (Hlast & Hlen & Hup). destruct (Hup 0%nat ltac:(lia)) as (H0 & u0 & Hu0 & Hupd0).
  assert (HU0 : U1 0%nat = r) by by eapply last_level0. rewrite HU0 in Hu0, Hupd0.
  assert (u0 = last) as -> by congruence. rewrite Hupd0. cbn [mbind option_bind].
  destruct (insert_levels h1 zsl1 P E r last update1 U1 lv s (Some e) x Hi1 Hr Hfd1 ltac:(cbn; lia) Hx Hb)
    as (h2 & h3 & -> & Hincr & Hf3 & Hl3). cbn [mbind option_bind]. cbn [zsl1 zlevel] in Hincr. rewrite Hincr. cbn [mbind option_bind].
  destruct (insert_backs h1 zsl1 P E r lv x s e last h3 Hi1 Hr Hx Hlast Hf3) as (h4 & h5 & Hb4 & Hb5 & Hl4 & Hl5 & Hf5).
  cbn [zsl1 header] in Hb4. rewrite Hb4. cbn [mbind option_bind].
  assert (HU1 : forall i, (i < zlevel zsl1)%nat -> is_last P i r (U1 i)) by (intros i Hz; apply Hup, Hz).
  destruct (last_link h1 zsl1 P E Hi1 r U1 Hr HU1 0%nat ltac:(cbn; lia)) as (u & q & Hu & Hq & Hrq & Hlu).
  rewrite HU0 in Hu, Hq, Hlu. assert (q = S r) as -> by by eapply (next_level0 h1 zsl1 P E).
  assert (Hlx : lvl h4 x 0 = Some (addr_at P (S r), Z.of_nat (Nat.min (S r) (length P - 1)) - Z.of_nat r)).
  { rewrite Hl4, Hl3. unfold inserted_levels. rewrite !decide_True by (done || (cbn; lia)). rewrite HU0, Hu. cbn [mbind option_bind].
    rewrite Hlu. cbn. do 2 f_equal. lia. }
  rewrite Hlx. cbn [mbind option_bind]. rewrite Hb5. cbn [mbind option_bind]. eexists x, h5, _. split; [done|]. split.
  { apply eq_None_not_Some. rewrite <- Hdom1, Hx. by intros [? ?]. }
  assert (Hinv : inv h5 {| header := header zsl1; tail := if decide (S r < length P)%nat then tail zsl1 else Some x;
            zlength := zlength zsl1 + 1; zlevel := zlevel zsl1 |} (insert_after (S r) (x, lv) P) (insert_after r (s, e) E)).
  { eapply inv_insert; try done; [cbn; lia| |].
    - intros b j. rewrite Hl5. apply Hl3.
    - apply elts_insert; [apply (inv_elts _ _ _ _ Hi)|done|done]. }
  split; [|intros a; rewrite <- Hdom1; by eapply insert_dom].
  cbn [zsl1 header tail zlength zlevel] in Hinv. rewrite uwrap_small by (rewrite (inv_length _ _ _ _ Hi); lia).
  destruct (decide (S r < length P)%nat) as [Hlt|Hge].
  - destruct (addr_at_some P (S r) Hlt) as [y ->]. exact Hinv.
  - unfold addr_at. rewrite lookup_ge_None_2 by lia. exact Hinv.
Qed.

End SlEdit.
