(* ===== verification/SkiplistDelete.v ===== *)
(** * Deletion from a skip list

    [zslDeleteNode], given the positions that a search stored, removes the
    next position from the sequence and keeps the invariant. *)

From stdpp Require Import gmap.
From S2P Require Import Prelude.
From S2P Require Import Skiplist.
From S2P Require Import SkiplistSpec.
From S2P Require Import SkiplistInv.
From S2P Require Import SkiplistEdit.
Import Skiplist SlSpec SlInv SlEdit.

Module SlDelete.

(** ** A position less *)

Lemma lookup_del {A} (l : list A) i j : delete i l !! j = if decide (j < i)%nat then l !! j else l !! S j.
Proof.
  destruct (decide (j < i)%nat); [by apply list_lookup_delete_lt|apply list_lookup_delete_ge; lia].
Qed.

Section Shape.
Context (P : shape) (r : nat) (Hr : (S r < length P)%nat).
#[local] Set Default Proof Using "Type*".

#[local] Abbreviation P0 := (delete (S r) P).

Lemma length_del : length P0 = (length P - 1)%nat.
Proof. apply length_delete. by apply lookup_lt_is_Some_2. Qed.

Lemma hgt_del j : hgt P0 j = if decide (j <= r)%nat then hgt P j else hgt P (S j).
Proof using. clear Hr. unfold hgt. rewrite lookup_del. destruct (decide (j < S r)%nat), (decide (j <= r)%nat); try done; lia. Qed.

Lemma addr_del j : addr_at P0 j = if decide (j <= r)%nat then addr_at P j else addr_at P (S j).
Proof using. clear Hr. unfold addr_at. rewrite lookup_del. destruct (decide (j < S r)%nat), (decide (j <= r)%nat); try done; lia. Qed.

Ltac next :=
  unfold is_next; rewrite ?length_del; intros;
  repeat match goal with H : _ /\ _ |- _ => destruct H end;
  repeat split; intros; try lia; rewrite ?hgt_del; decs;
  try match goal with H : forall j, _ -> (hgt P j <= _)%nat |- (hgt P ?j <= _)%nat => apply H; lia end;
  try match goal with H : (?q < length P -> _)%nat |- (_ < hgt P ?j)%nat => replace j with q by lia; apply H; lia end.

Lemma del_below i p q : is_next P i p q -> (p <= r)%nat -> (q <= r)%nat -> is_next P0 i p q.
Proof. next. Qed.

Lemma del_over i p q : is_next P i p q -> (p <= r)%nat -> (S r < q)%nat -> is_next P0 i p (q - 1).
Proof. next. Qed.

Lemma del_above i p q : is_next P i p q -> (S r < p)%nat -> is_next P0 i (p - 1) (q - 1).
Proof. next. Qed.

Lemma del_join i p q : is_next P i p (S r) -> is_next P i (S r) q -> is_next P0 i p (q - 1).
Proof.
  unfold is_next. rewrite length_del. intros (H1 & H2 & H3) (H4 & H5 & H6). split; [lia|]. split.
  - intros j Hj. rewrite hgt_del. case_decide; [apply H2; lia|apply H5; lia].
  - intros Hlt. rewrite hgt_del. rewrite decide_False by lia. replace (S (q - 1)) with q by lia. apply H6. lia.
Qed.

End Shape.

(** ** The new heap *)

Definition deleted_levels (h : heap) (P : shape) (zl : nat) (x : addr) (U : nat -> nat) (b : addr) (j : nat) :
    option (option addr * Z) :=
  if decide ((j < zl)%nat /\ addr_at P (U j) = Some b) then
    l ← lvl h b j;
    if decide (l.1 = Some x) then (fun lx => (lx.1, l.2 + lx.2 - 1)) <$> lvl h x j else Some (l.1, l.2 - 1)
  else lvl h b j.

Definition deleted_fields (h : heap) (P : shape) (r : nat) (b : addr) : option (option sds * double * option addr * nat) :=
  if decide (addr_at P (S (S r)) = Some b) then with_back (back_at P (S r)) <$> fields h b else fields h b.

Section Delete.
Context (h : heap) (zsl : zskiplist) (P : shape) (E : list elt) (Hi : inv h zsl P E).
Context (r : nat) (x : addr) (U : nat -> nat) (h' : heap) (lv : nat).
Context (Hx : addr_at P (S r) = Some x).
Context (HU : forall i, (i < zlevel zsl)%nat -> is_last P i r (U i)).
Context (Hlvl : forall b j, lvl h' b j = deleted_levels h P (zlevel zsl) x U b j).
Context (Hfld : forall b, fields h' b = deleted_fields h P r b).
#[local] Set Default Proof Using "Type*".

#[local] Abbreviation P0 := (delete (S r) P).
#[local] Abbreviation E0 := (delete r E).

Lemma pos_lt : (S r < length P)%nat.
Proof using Hx. by eapply addr_at_lt. Qed.

(** The position stored for a level, and its link. *)
Lemma stored_link i :
  (i < zlevel zsl)%nat ->
  exists u q, addr_at P (U i) = Some u /\ u <> x /\ is_next P i (U i) q /\ (U i <= r < q)%nat /\
    lvl h u i = Some (addr_at P q, Z.of_nat (Nat.min q (length P - 1)) - Z.of_nat (U i)).
Proof using Hi Hx HU.
  intros Hz. pose proof pos_lt as Hr. destruct (last_link h zsl P E Hi r U ltac:(lia) HU i Hz) as (u & q & Hu & Hq & Hrq & Hl).
  exists u, q. split; [done|]. split; [|done]. intros ->. pose proof (addr_at_inj _ _ _ _ _ _ _ Hi Hu Hx). lia.
Qed.

Lemma delete_link p a i :
  addr_at P0 p = Some a -> (i < hgt P0 p)%nat -> (i < zlevel zsl)%nat ->
  exists l, lvl h' a i = Some l /\ link P0 i p l.
Proof.
  pose proof pos_lt as Hr. rewrite addr_del, hgt_del. intros Ha Hh Hz. rewrite Hlvl. unfold deleted_levels, link.
  rewrite length_del by done. destruct (stored_link i Hz) as (u & qu & Hu & Hux & Hqu & Hrange & Hlu). rewrite Hu.
  destruct (decide (p <= r)%nat) as [Hpr|Hpr].
  - destruct (decide (p = U i)) as [->|Hne].
    + assert (a = u) as -> by congruence. rewrite decide_True by done. rewrite Hlu. cbn [mbind option_bind fst snd].
      destruct (decide (qu = S r)) as [->|Hqr].
      * rewrite Hx, decide_True by done. destruct (Hqu) as (Hq1 & _ & Hq2).
        destruct (link_at h zsl P E Hi (S r) x i Hx (Hq2 Hr) Hz) as (q2 & Hn2 & ->).
        eexists. split; [done|]. exists (q2 - 1)%nat. split; [by apply del_join|]. rewrite addr_del. destruct (Hn2) as (? & _).
        rewrite decide_False by lia. replace (S (q2 - 1)) with q2 by lia. cbn [fst snd]. f_equal. lia.
      * rewrite decide_False. 2:{ intros Hq. pose proof (addr_at_inj _ _ _ _ _ _ _ Hi Hq Hx). lia. }
        eexists. split; [done|]. exists (qu - 1)%nat. split; [apply del_over; done || lia|]. rewrite addr_del.
        rewrite decide_False by lia. replace (S (qu - 1)) with qu by lia. f_equal. destruct Hqu. lia.
    + rewrite decide_False by (intros [_ [= ->]]; apply Hne; by eapply addr_at_inj).
      destruct (link_at h zsl P E Hi p a i Ha Hh Hz) as (q & Hq & ->). eexists. split; [done|].
      destruct (next_last P i r (U i) p q (HU i Hz) Hpr Hq Hne ltac:(lia)) as [Hqp|Hlt].
      * exists q. split; [apply del_below; done || lia|]. rewrite addr_del. rewrite decide_True by lia. f_equal. lia.
      * destruct (HU i Hz) as (_ & _ & Hlast). specialize (Hlast p). lia.
  - rewrite decide_False. 2:{ intros [_ [= ->]]. assert (S p = U i)%nat by by eapply addr_at_inj. lia. }
    destruct (link_at h zsl P E Hi (S p) a i Ha Hh Hz) as (q & Hq & ->). eexists. split; [done|]. exists (q - 1)%nat.
    pose proof (del_above P r Hr i (S p) q Hq ltac:(lia)) as Hn. replace (S p - 1)%nat with p in Hn by lia.
    split; [done|]. rewrite addr_del. destruct (Hq) as (? & _). rewrite decide_False by lia.
    replace (S (q - 1)) with q by lia. f_equal. lia.
Qed.

Lemma data_del p : data_at E0 p = if decide (p <= r)%nat then data_at E p else data_at E (S p).
Proof using.
  clear. destruct p as [|p]; cbn [data_at]; [by rewrite decide_True by lia|]. rewrite lookup_del.
  destruct (decide (p < r)%nat), (decide (S p <= r)%nat); try done; lia.
Qed.

Lemma back_del p :
  back_at P0 p = if decide (p <= r)%nat then back_at P p else if decide (p = S r) then back_at P (S r) else back_at P (S p).
Proof using.
  clear. destruct p as [|[|p]]; cbn [back_at].
  - by rewrite decide_True by lia.
  - destruct (decide (1 <= r)%nat); [done|]. destruct (decide (1 = S r)%nat) as [[= <-]|]; [done|lia].
  - rewrite addr_del. destruct (decide (S (S p) <= r)%nat); [by rewrite decide_True by lia|].
    destruct (decide (S (S p) = S r)) as [[= <-]|]; [by rewrite decide_True by lia|]. by rewrite decide_False by lia.
Qed.

Lemma delete_node p a : addr_at P0 p = Some a -> node_ok h' P0 E0 p a.
Proof.
  rewrite addr_del. intros Ha. unfold node_ok. rewrite Hfld, data_del, back_del, hgt_del. unfold deleted_fields.
  destruct (decide (p <= r)%nat) as [Hp|Hp].
  - rewrite decide_False; [by apply (inv_node _ _ _ _ Hi)|].
    intros Hs. pose proof (addr_at_inj _ _ _ _ _ _ _ Hi Ha Hs). lia.
  - destruct (inv_node _ _ _ _ Hi _ _ Ha) as (sc & Hf & Hs). exists sc. split; [|done].
    destruct (decide (p = S r)) as [->|Hps].
    + by rewrite decide_True, Hf.
    + rewrite decide_False, Hf; [done|]. intros Hs'. pose proof (addr_at_inj _ _ _ _ _ _ _ Hi Ha Hs'). lia.
Qed.

Lemma delete_dom a : is_Some (h' !! a) <-> is_Some (h !! a).
Proof using Hfld.
  rewrite <- !fields_some, Hfld. unfold deleted_fields. destruct (decide _); [|done]. by rewrite fmap_is_Some.
Qed.

(** The node is still there, with its element. *)
Lemma delete_keeps : fields h' x = fields h x.
Proof using Hi Hx Hfld.
  rewrite Hfld. unfold deleted_fields. rewrite decide_False; [done|].
  intros Hs. pose proof (addr_at_inj _ _ _ _ _ _ _ Hi Hs Hx). lia.
Qed.

Lemma low_heights :
  (1 <= lv <= zlevel zsl)%nat -> (forall i, (lv <= i < zlevel zsl)%nat -> exists s, lvl h' (header zsl) i = Some (None, s)) ->
  forall j, (1 <= j < length P0)%nat -> (1 <= hgt P0 j <= lv)%nat.
Proof.
  intros Hlv Hnone j Hj. pose proof pos_lt as Hr. rewrite length_del in Hj by done.
  assert (Hh : (1 <= hgt P0 j <= zlevel zsl)%nat).
  { rewrite hgt_del. case_decide; apply (inv_hgt _ _ _ _ Hi); lia. }
  destruct (Nat.le_gt_cases (hgt P0 j) lv); [lia|]. exfalso.
  assert (Ha0 : addr_at P0 0 = Some (header zsl)) by (rewrite addr_del, decide_True by lia; by eapply addr_0).
  assert (Hh0 : hgt P0 0 = ZSKIPLIST_MAXLEVEL) by (rewrite hgt_del, decide_True by lia; by eapply hgt_0).
  pose proof (inv_level _ _ _ _ Hi) as Hzl.
  destruct (delete_link 0 (header zsl) lv Ha0 ltac:(lia) ltac:(lia)) as (l & Hl & q & (Hq & Hn & _) & ->).
  destruct (Hnone lv ltac:(lia)) as [sp Hsp]. rewrite Hl in Hsp. injection Hsp as Hq0 _.
  destruct (decide (q < length P0)%nat) as [Hlt|Hge].
  - destruct (addr_at_some _ _ Hlt) as [b Hb]. congruence.
  - specialize (Hn j). rewrite length_del in * by done. lia.
Qed.

Lemma elts_delete : elts_ok E0.
Proof using Hi.
  destruct (inv_elts _ _ _ _ Hi) as [Hok Hs]. split; [by apply Forall_delete|]. rewrite delete_take_drop.
  rewrite <- (take_drop r E) in Hs. apply StronglySorted_app in Hs as (H12 & H1 & H2).
  assert (Hsub : forall y, y ∈ drop (S r) E -> y ∈ drop r E).
  { intros y Hy. apply list_elem_of_lookup in Hy as [k Hk]. rewrite lookup_drop in Hk.
    apply (list_elem_of_lookup_2 _ (S k)). rewrite lookup_drop, <- Hk. f_equal. lia. }
  apply StronglySorted_app. split; [auto|]. split; [done|].
  destruct (drop r E) as [|y l] eqn:Hd.
  - assert (drop (S r) E = []) as ->; [|constructor]. rewrite <- Nat.add_1_r, <- drop_drop. by rewrite Hd.
  - apply StronglySorted_cons in H2 as [_ H2]. replace (drop (S r) E) with l; [done|].
    rewrite <- Nat.add_1_r, <- drop_drop. by rewrite Hd.
Qed.

Lemma inv_delete :
  (1 <= lv <= zlevel zsl)%nat -> (forall i, (lv <= i < zlevel zsl)%nat -> exists s, lvl h' (header zsl) i = Some (None, s)) ->
  inv h' {| header := header zsl;
            tail := match addr_at P (S (S r)) with Some _ => tail zsl | None => back_at P (S r) end;
            zlength := zlength zsl - 1; zlevel := lv |} P0 E0.
Proof.
  intros Hlv Hnone. pose proof pos_lt as Hr. pose proof (inv_size _ _ _ _ Hi) as Hsz. pose proof (inv_header _ _ _ _ Hi) as Hhd.
  assert (HlE : length E0 = (length E - 1)%nat) by (apply length_delete, lookup_lt_is_Some_2; lia).
  split; cbn [header tail zlength zlevel].
  - rewrite lookup_del. by rewrite decide_True by lia.
  - rewrite list_fmap_delete. eapply sublist_NoDup; [apply (inv_nodup _ _ _ _ Hi)|apply sublist_delete].
  - rewrite length_del by done. lia.
  - rewrite HlE, (inv_length _ _ _ _ Hi). lia.
  - rewrite HlE. pose proof (inv_bound _ _ _ _ Hi). lia.
  - rewrite (inv_tail _ _ _ _ Hi). destruct (decide (S (S r) < length P)%nat) as [Hlt|Hge].
    + destruct (addr_at_some P _ Hlt) as [y ->]. destruct E0 as [|e0 l] eqn:HE0; [cbn in HlE; lia|].
      rewrite HlE, addr_del, decide_False by lia. destruct E; [cbn in *; lia|]. f_equal. lia.
    + assert (addr_at P (S (S r)) = None) as -> by (unfold addr_at; by rewrite lookup_ge_None_2 by lia).
      destruct E0 as [|e0 l] eqn:HE0.
      * cbn in HlE. assert (r = 0%nat) as -> by lia. done.
      * rewrite HlE, addr_del, decide_True by lia. cbn in HlE. destruct r as [|r0]; [lia|]. cbn. f_equal. lia.
  - pose proof (inv_level _ _ _ _ Hi). lia.
  - by apply low_heights.
  - intros a Ha. apply delete_dom, (inv_dom _ _ _ _ Hi). rewrite list_fmap_delete in Ha.
    eapply elem_of_sublist; [exact Ha|apply sublist_delete].
  - apply delete_node.
  - intros p a i Ha Hh Hz. apply delete_link; [done..|lia].
  - intros i Hlt. destruct (decide (i < zlevel zsl)%nat); [apply Hnone; lia|].
    destruct (inv_unused _ _ _ _ Hi i) as [sp Hsp]; [lia|]. exists sp. rewrite Hlvl. unfold deleted_levels.
    by rewrite decide_False by lia.
  - apply elts_delete.
Qed.

End Delete.

(** Freeing a node that is not in the list. *)
Lemma inv_free h zsl P E x : inv h zsl P E -> x ∉ P.*1 -> inv (zslFreeNode h x) zsl P E.
Proof.
  intros Hi Hx. unfold zslFreeNode.
  assert (Hne : forall p a, addr_at P p = Some a -> a <> x).
  { intros p a Ha ->. apply Hx. unfold addr_at in Ha. rewrite <- list_lookup_fmap in Ha. by eapply list_elem_of_lookup_2. }
  assert (Hl : forall a j, a <> x -> lvl (delete x h) a j = lvl h a j) by (intros; unfold lvl; by rewrite lookup_delete_ne).
  pose proof (addr_0 _ _ _ _ Hi) as H0. destruct Hi; split; try done.
  - intros a Ha. rewrite lookup_delete_ne by (intros ->; done). auto.
  - intros p a Ha. unfold node_ok, fields. rewrite lookup_delete_ne by (intros ->; by eapply Hne). by apply inv_node0.
  - intros p a i Ha. rewrite Hl by by eapply Hne. by apply inv_link0.
  - intros i. rewrite Hl by by eapply Hne. apply inv_unused0.
Qed.

(** ** [zslDeleteNode] *)

Lemma lower_level_spec h hd zl :
  (1 <= zl)%nat -> (forall i, (i < zl)%nat -> is_Some (lvl h hd i)) ->
  exists lv, lower_level h hd zl = Some lv /\ (1 <= lv <= zl)%nat /\
    forall i, (lv <= i < zl)%nat -> exists s, lvl h hd i = Some (None, s).
Proof.
  induction zl as [|zl IH]; intros Hz Hl; [lia|]. cbn [lower_level]. destruct (Nat.ltb_spec 1 (S zl)).
  - destruct (Hl zl ltac:(lia)) as [[f sp] Hf]. rewrite Hf. cbn [mbind option_bind]. destruct f as [y|].
    + exists (S zl). split; [done|]. split; lia.
    + destruct IH as (lv & -> & Hlv & Hn); [lia|intros; apply Hl; lia|]. exists lv. split; [done|]. split; [lia|].
      intros i Hi. destruct (decide (i = zl)) as [->|]; [by exists sp|apply Hn; lia].
  - exists (S zl). split; [done|]. split; lia.
Qed.

Lemma unlink_ok h zsl P E r x update U :
  inv h zsl P E -> addr_at P (S r) = Some x -> stored_at P (zlevel zsl) r update U ->
  exists h', unlink_levels h x update 0 (zlevel zsl) = Some h' /\
    relevel h h' (deleted_levels h P (zlevel zsl) x U).
Proof.
  intros Hi Hx Hup. assert (HU : forall i, (i < zlevel zsl)%nat -> is_last P i r (U i)) by (intros i Hz; apply Hup, Hz).
  set (Ua := fun j => default 0%nat (addr_at P (U j))). pose proof (pos_lt P r x Hx) as Hr.
  assert (Hlink : forall j, (j < zlevel zsl)%nat -> exists q, addr_at P (U j) = Some (Ua j) /\ Ua j <> x /\ (U j <= r < q)%nat /\
    (q = S r -> (j < hgt P (S r))%nat) /\
    lvl h (Ua j) j = Some (addr_at P q, Z.of_nat (Nat.min q (length P - 1)) - Z.of_nat (U j))).
  { intros j Hj. destruct (stored_link h zsl P E Hi r x U Hx HU j Hj) as (u & q & Hu & Hux & (_ & _ & Hh) & Hrq & Hl). exists q.
    unfold Ua. rewrite Hu. cbn. split; [done|]. split; [done|]. split; [done|]. split; [intros ->; auto|done]. }
  destruct (unlink_levels_spec x update Ua (fun j => Z.of_nat (U j)) (zlevel zsl) h 0) as (h' & -> & Hrel).
  { intros j Hj. destruct (Hup j ltac:(lia)) as (_ & u & Hu & ->). unfold Ua. by rewrite Hu. }
  { intros j Hj. destruct (Hlink j ltac:(lia)) as (q & Hu & Hne & Hrq & Hh & Hl). split; [done|]. eexists _, _. split; [exact Hl|].
    intros Hq. assert (q = S r) as -> by by eapply addr_at_inj.
    destruct (link_at h zsl P E Hi (S r) x j Hx (Hh eq_refl) ltac:(lia)) as (q2 & _ & ->). done. }
  exists h'. split; [done|]. eapply relevel_ext; [|exact Hrel]. pose proof (inv_size _ _ _ _ Hi). pose proof (inv_bound _ _ _ _ Hi).
  intros b j. unfold deleted_levels. destruct (decide (j < zlevel zsl)%nat) as [Hj|Hj]; [|by rewrite !decide_False by lia].
  destruct (Hlink j Hj) as (q & Hu & Hne & Hrq & Hh & Hl). rewrite Hu. destruct (decide (b = Ua j)) as [->|Hb].
  2:{ rewrite !decide_False; [done|intros [_ ?]; congruence|intros [_ ?]; done]. }
  rewrite !decide_True by (split; [lia|done]) || done. rewrite Hl. cbn [mbind option_bind fst snd].
  destruct (decide (addr_at P q = Some x)) as [Hq|Hq]; [|by rewrite uwrap_small by lia].
  assert (q = S r) as -> by by eapply addr_at_inj.
  destruct (link_at h zsl P E Hi (S r) x j Hx (Hh eq_refl) ltac:(lia)) as (q2 & (Hq2 & _) & ->). cbn [fmap option_fmap option_map fst snd].
  rewrite uwrap_add_r, uwrap_small by lia. do 2 f_equal. lia.
Qed.

Lemma stored_del h zsl P E r update U lv :
  inv h zsl P E -> (S r < length P)%nat -> stored_at P (zlevel zsl) r update U -> (lv <= zlevel zsl)%nat ->
  stored_at (delete (S r) P) lv r update U.
Proof.
  intros Hi Hr Hup Hlv i Hlt. destruct (Hup i ltac:(lia)) as ((H1 & H2 & H3) & u & Hu & Hupd). split.
  - split; [done|]. rewrite hgt_del, decide_True by lia. split; [done|]. intros j Hj. rewrite hgt_del, decide_True by lia. auto.
  - exists u. rewrite addr_del, decide_True by lia. done.
Qed.

(** The backward pointer of the next node. *)
Lemma delete_backs h zsl P E r h1 :
  inv h zsl P E -> (forall b, fields h1 b = fields h b) ->
  exists h2, match addr_at P (S (S r)) with Some y => set_backward h1 y (back_at P (S r)) | None => Some h1 end = Some h2 /\
    (forall b j, lvl h2 b j = lvl h1 b j) /\ (forall b, fields h2 b = deleted_fields h P r b).
Proof.
  intros Hi Hf1. unfold deleted_fields. destruct (addr_at P (S (S r))) as [y|] eqn:Hy.
  - destruct (node_at _ _ _ _ _ _ Hi Hy) as (ndy & _ & Hndy & _).
    destruct (set_backward_spec h1 y (back_at P (S r))) as (h2 & -> & Hf2 & Hl2).
    { apply fields_some. rewrite Hf1. apply fields_some. by rewrite Hndy. }
    exists h2. split; [done|]. split; [done|]. intros b. rewrite Hf2, Hf1.
    destruct (decide (b = y)) as [->|]; [by rewrite decide_True|by rewrite decide_False by congruence].
  - exists h1. split; [done|]. split; [done|]. intros b. by rewrite Hf1.
Qed.

Lemma zslDeleteNode_spec h zsl P E r x update U :
  inv h zsl P E -> addr_at P (S r) = Some x -> stored_at P (zlevel zsl) r update U ->
  exists h' zsl', zslDeleteNode h zsl x update = Some (h', zsl') /\
    inv h' zsl' (delete (S r) P) (delete r E) /\ header zsl' = header zsl /\
    (forall a, is_Some (h' !! a) <-> is_Some (h !! a)) /\ fields h' x = fields h x /\
    (zlevel zsl' <= zlevel zsl)%nat.
Proof.
  intros Hi Hx Hup. assert (HU : forall i, (i < zlevel zsl)%nat -> is_last P i r (U i)) by (intros i Hz; apply Hup, Hz).
  pose proof (pos_lt P r x Hx) as Hr. pose proof (inv_level _ _ _ _ Hi) as Hzl. unfold zslDeleteNode.
  destruct (unlink_ok _ _ _ _ _ _ _ _ Hi Hx Hup) as (h1 & -> & Hf1 & Hl1). cbn [mbind option_bind].
  destruct (link_at h zsl P E Hi (S r) x 0 Hx) as (q & Hq & Hlx); [pose proof (inv_hgt _ _ _ _ Hi (S r)); lia|lia|].
  assert (q = S (S r)) as -> by by eapply (next_level0 h zsl P E).
  assert (Hlx1 : lvl h1 x 0 = lvl h x 0).
  { rewrite Hl1. unfold deleted_levels. rewrite decide_False; [done|]. intros [_ Hu].
    pose proof (addr_at_inj _ _ _ _ _ _ _ Hi Hu Hx). destruct (HU 0%nat ltac:(lia)). lia. }
  rewrite Hlx1, Hlx. cbn [mbind option_bind].
  destruct (node_at _ _ _ _ _ _ Hi Hx) as (nd & _ & Hnd & _ & _ & _ & _ & Hback).
  assert (Hfx : exists nd1, h1 !! x = Some nd1 /\ backward nd1 = back_at P (S r)).
  { specialize (Hf1 x). unfold fields in Hf1. rewrite Hnd in Hf1. destruct (h1 !! x) as [nd1|]; [|done].
    exists nd1. split; [done|]. cbn in Hf1. injection Hf1. congruence. }
  destruct Hfx as (nd1 & -> & Hb1). cbn [mbind option_bind]. rewrite Hb1.
  destruct (delete_backs h zsl P E r h1 Hi Hf1) as (h2 & -> & Hl2 & Hf2). cbn [mbind option_bind].
  assert (HlvlD : forall b j, lvl h2 b j = deleted_levels h P (zlevel zsl) x U b j) by (intros; by rewrite Hl2, Hl1).
  destruct (lower_level_spec h2 (header zsl) (zlevel zsl)) as (lv & -> & Hlv & Hnone); [lia| |].
  { intros i Hlt. destruct (delete_link h zsl P E Hi r x U h2 Hx HU HlvlD Hf2 0 (header zsl) i) as (l & -> & _); [| |done..].
    - rewrite addr_del, decide_True by lia. by eapply addr_0.
    - rewrite hgt_del, decide_True, (hgt_0 _ _ _ _ Hi) by lia. lia. }
  cbn [mbind option_bind]. eexists _, _. split; [done|].
  split; [|split; [done|]; split; [by eapply delete_dom|]; split; [by eapply delete_keeps|cbn; lia]].
  rewrite uwrap_small.
  - by eapply inv_delete.
  - rewrite (inv_length _ _ _ _ Hi). pose proof (inv_size _ _ _ _ Hi). pose proof (inv_bound _ _ _ _ Hi). lia.
Qed.

End SlDelete.
