(* ===== verification/SkiplistApi.v ===== *)
(** * The operations of a skip list on the sorted sequence

    Insertion, deletion, change of a score, ranks and ranges, as operations
    on the sorted sequence of elements that the skip list stands for. *)

From stdpp Require Import gmap.
From Stdlib Require Import SpecFloat.
From S2P Require Import Prelude.
From S2P Require Import Skiplist.
From S2P Require Import SkiplistSpec.
From S2P Require Import SkiplistInv.
From S2P Require Import SkiplistEdit.
From S2P Require Import SkiplistDelete.
Import Skiplist SlSpec SlInv SlEdit SlDelete.

Module SlApi.

(** A skip list with the given nodes and elements, in their order; the heap
    has the header and these nodes, and no others. *)
Definition repr (h : heap) (zsl : zskiplist) (N : list (addr * elt)) : Prop :=
  exists P, inv h zsl P N.*2 /\ P.*1 = header zsl :: N.*1 /\ forall a, is_Some (h !! a) -> a ∈ P.*1.

(** ** Sequences *)

Definition insert_elt (E : list elt) (x : elt) : list elt := insert_after (rank_of E x) x E.
Definition remove_elt (E : list elt) (x : elt) : list elt := base.filter (fun z => elt_eq z x = false) E.

Lemma elt_eq_sym a b : elt_ok a -> elt_ok b -> elt_eq a b = elt_eq b a.
Proof. intros Ha Hb. apply eq_true_iff_eq. rewrite !elt_eq_key by done. intuition. Qed.

Lemma elt_eq_refl a : elt_ok a -> elt_eq a a = true.
Proof. intros Ha. by apply elt_eq_key. Qed.

Lemma rank_present E x j z : elts_ok E -> elt_ok x -> E !! j = Some z -> elt_eq z x = true -> j = rank_of E x.
Proof.
  intros HE Hx Hj Hz. pose proof (sorted_prefix E x HE Hx) as Hp. pose proof (elt_at _ _ _ HE Hj) as Hzok.
  pose proof (Hp j z Hj) as Hjr. rewrite (elt_lt_eq_l z x x) in Hjr by done. rewrite elt_lt_irrefl in Hjr by done.
  symmetry in Hjr. apply bool_decide_eq_false in Hjr. destruct (Nat.eq_dec j (rank_of E x)) as [|Hne]; [done|].
  destruct (lookup_lt_is_Some_2 E (rank_of E x)) as [y Hy]; [apply lookup_lt_Some in Hj; lia|].
  pose proof (sorted_lt E (rank_of E x) j y z HE ltac:(lia) Hy Hj) as Hlt.
  rewrite (elt_lt_eq_r z x y) in Hlt by (done || by eapply elt_at). rewrite (Hp _ _ Hy) in Hlt.
  apply bool_decide_eq_true in Hlt. lia.
Qed.

Lemma delete_filter {A} (f : A -> bool) (l : list A) : forall r,
  (forall j z, l !! j = Some z -> f z = true <-> j = r) -> (r < length l)%nat ->
  delete r l = base.filter (fun z => f z = false) l.
Proof.
  induction l as [|a l IH]; intros r Hf Hr; [cbn in Hr; lia|]. rewrite filter_cons.
  destruct r as [|r]; cbn [delete list_delete].
  - rewrite (proj2 (Hf 0%nat a eq_refl) eq_refl), decide_False by done. symmetry. apply filter_all, Forall_lookup.
    intros j z Hj. apply not_true_iff_false. intros Hz. by apply (Hf (S j) z Hj) in Hz.
  - rewrite decide_True. 2:{ apply not_true_iff_false. intros Ha. by apply (Hf 0%nat a eq_refl) in Ha. }
    f_equal. apply IH; [|cbn in Hr; lia]. intros j z Hj. rewrite (Hf (S j) z Hj). lia.
Qed.

Lemma remove_present E x r z :
  elts_ok E -> elt_ok x -> E !! r = Some z -> elt_eq z x = true -> delete r E = remove_elt E x.
Proof.
  intros HE Hx Hr Hz. apply delete_filter; [|by eapply lookup_lt_Some]. intros j y Hj.
  rewrite (rank_present E x r z) by done. split; [by apply rank_present|]. intros ->.
  rewrite <- (rank_present E x r z) in Hj by done. congruence.
Qed.

Lemma remove_absent E x :
  elts_ok E -> elt_ok x -> (forall z, E !! rank_of E x = Some z -> elt_eq z x = false) ->
  Forall (fun z => elt_eq z x = false) E /\ remove_elt E x = E.
Proof.
  intros HE Hx Hn. assert (Ha : Forall (fun z => elt_eq z x = false) E).
  { apply Forall_lookup. intros j z Hj. apply not_true_iff_false. intros Hz.
    pose proof (rank_present E x j z HE Hx Hj Hz) as ->. by rewrite Hn in Hz. }
  split; [done|]. by apply filter_all.
Qed.

(** ** Nodes at positions *)

Lemma forward0 h zsl P E p a :
  inv h zsl P E -> addr_at P p = Some a -> exists sp, lvl h a 0 = Some (addr_at P (S p), sp).
Proof.
  intros Hi Ha. pose proof (inv_level _ _ _ _ Hi) as Hlv.
  destruct (inv_link _ _ _ _ Hi p a 0%nat Ha) as (l & Hl & q & Hq & ->); [|lia|].
  - destruct p; [rewrite (hgt_0 _ _ _ _ Hi); lia|]. apply addr_at_lt in Ha. pose proof (inv_hgt _ _ _ _ Hi (S p)). lia.
  - assert (q = S p) as -> by by eapply next_level0. eexists. exact Hl.
Qed.

Lemma node_is_eq s e nd x :
  isnan s = false -> elt_ok x -> ele nd = Some x.2 -> score nd = x.1 -> node_is s e nd = elt_eq x (s, e).
Proof.
  intros Hs Hx He Hsc. unfold node_is. rewrite He, Hsc. unfold elt_eq. cbn. f_equal.
  - apply eq_true_iff_eq. rewrite !deq_key by done. intuition.
  - apply eq_true_iff_eq. by rewrite Z.eqb_eq, sdscmp_eq, bool_decide_eq_true.
Qed.

Lemma addr_elem P p a : addr_at P p = Some a -> a ∈ P.*1.
Proof. unfold addr_at. rewrite <- list_lookup_fmap. apply list_elem_of_lookup_2. Qed.

Lemma addr_end h zsl P E r : inv h zsl P E -> addr_at P (S r) = None -> E !! r = None.
Proof.
  intros Hi Ha. apply lookup_ge_None. pose proof (inv_size _ _ _ _ Hi). destruct (Nat.le_gt_cases (length E) r); [done|].
  destruct (addr_at_some P (S r)) as [a Hx]; [lia|congruence].
Qed.

Lemma not_in_deleted h zsl P E r x : inv h zsl P E -> addr_at P (S r) = Some x -> x ∉ (delete (S r) P).*1.
Proof.
  intros Hi Hx Hin. rewrite list_fmap_delete in Hin. pose proof (inv_nodup _ _ _ _ Hi) as Hnd.
  unfold addr_at in Hx. rewrite <- list_lookup_fmap in Hx.
  rewrite <- (take_drop_middle _ _ _ Hx) in Hnd. rewrite delete_take_drop in Hin.
  apply NoDup_app in Hnd as (_ & Hd & Hnd). apply NoDup_cons in Hnd as [Hn _].
  apply elem_of_app in Hin as [Hin|Hin]; [|done]. apply (Hd x Hin). by left.
Qed.

(** ** Deletion *)

Lemma zslDelete_spec h zsl P E s e keep :
  inv h zsl P E -> isnan s = false ->
  let r := rank_of E (s, e) in
  exists o h' zsl', zslDelete h zsl s e keep = Some (o, h', zsl') /\
    match o with
    | Some x => addr_at P (S r) = Some x /\ (exists z, E !! r = Some z /\ elt_eq z (s, e) = true) /\
        inv h' zsl' (delete (S r) P) (delete r E) /\ header zsl' = header zsl /\
        (forall a, is_Some (h' !! a) <-> is_Some (h !! a) /\ (a = x -> keep = true))
    | None => h' = h /\ zsl' = zsl /\ forall z, E !! r = Some z -> elt_eq z (s, e) = false
    end.
Proof.
  intros Hi Hs r. unfold zslDelete. pose proof (before_splits _ _ _ _ s e Hi Hs) as Hsp. fold r in Hsp.
  destruct (search_found _ _ _ _ _ _ Hi Hsp) as (last & update & U & -> & Hlast & Hlen & Hup). cbn [mbind option_bind].
  destruct (forward0 _ _ _ _ _ _ Hi Hlast) as [sp ->]. cbn [mbind option_bind].
  destruct (addr_at P (S r)) as [x|] eqn:Hx.
  2:{ eexists _, _, _. split; [done|]. split; [done|]. split; [done|]. by rewrite (addr_end _ _ _ _ _ Hi Hx). }
  destruct (node_at _ _ _ _ _ _ Hi Hx) as (nd & z & Hnd & Hz & He & Hsc & Hok & _). rewrite Hnd. cbn [mbind option_bind].
  rewrite (node_is_eq s e nd z) by done. destruct (elt_eq z (s, e)) eqn:Heq.
  2:{ eexists _, _, _. split; [done|]. split; [done|]. split; [done|]. intros ? [= <-]%(eq_trans (eq_sym Hz)). done. }
  destruct (zslDeleteNode_spec _ _ _ _ _ _ _ _ Hi Hx Hup) as (h' & zsl' & -> & Hi' & Hh & Hdom & _ & _).
  cbn [mbind option_bind]. eexists _, _, _. split; [done|]. split; [done|]. split; [by exists z|]. destruct keep.
  - split; [done|]. split; [done|]. intros a. rewrite Hdom. tauto.
  - split; [apply inv_free; [done|by eapply not_in_deleted]|]. split; [done|]. intros a. unfold zslFreeNode.
    destruct (decide (a = x)) as [->|Hne]; [rewrite lookup_delete_eq|rewrite lookup_delete_ne by done].
    + split; [by intros [? ?]|]. intros [_ ?]. by exfalso; assert (false = true) by auto.
    + rewrite Hdom. tauto.
Qed.

(** ** The representation *)

Lemma insert_after_fmap {A B} (f : A -> B) r x l : f <$> insert_after r x l = insert_after r (f x) (f <$> l).
Proof. unfold insert_after. rewrite fmap_app, fmap_cons, fmap_take, fmap_drop. done. Qed.

Lemma insert_after_cons {A} r (x y : A) l : insert_after (S r) x (y :: l) = y :: insert_after r x l.
Proof. done. Qed.

Lemma repr_addr h zsl N P : inv h zsl P N.*2 -> P.*1 = header zsl :: N.*1 ->
  forall p, addr_at P (S p) = N.*1 !! p.
Proof. intros Hi HP p. unfold addr_at. by rewrite <- list_lookup_fmap, HP. Qed.

(** The node of a position. *)
Lemma repr_node h zsl N j n :
  repr h zsl N -> N !! j = Some n ->
  exists nd, h !! n.1 = Some nd /\ ele nd = Some n.2.2 /\ score nd = n.2.1 /\ elt_ok n.2.
Proof.
  intros (P & Hi & HP & _) Hj.
  assert (Hx : addr_at P (S j) = Some n.1) by (rewrite (repr_addr _ _ _ _ Hi HP), list_lookup_fmap, Hj; done).
  destruct (node_at _ _ _ _ _ _ Hi Hx) as (nd & z & Hnd & Hz & He & Hsc & Hok & _). rewrite list_lookup_fmap, Hj in Hz.
  injection Hz as <-. exists nd. by destruct n as [? []].
Qed.

Lemma insert_repr h zsl N P x y lv r h' zsl' :
  inv h zsl P N.*2 -> P.*1 = header zsl :: N.*1 -> (forall a, is_Some (h !! a) -> a ∈ P.*1) -> header zsl' = header zsl ->
  inv h' zsl' (insert_after (S r) (x, lv) P) (insert_after r y N.*2) ->
  (forall a, is_Some (h' !! a) <-> a = x \/ is_Some (h !! a)) ->
  repr h' zsl' (insert_after r (x, y) N).
Proof.
  intros Hi HP Hdom Hh Hi' Hd. exists (insert_after (S r) (x, lv) P). rewrite !insert_after_fmap, Hh. cbn [fst snd].
  split; [done|]. rewrite HP, insert_after_cons. split; [done|].
  intros a Ha. apply Hd in Ha as [->|Ha]; [|apply Hdom in Ha; rewrite HP in Ha; apply elem_of_cons in Ha as [->|Ha]].
  - right. rewrite insert_after_perm. by left.
  - by left.
  - right. rewrite insert_after_perm. by right.
Qed.

Lemma deleted_nodes P r x a : addr_at P (S r) = Some x -> a ∈ P.*1 -> a <> x -> a ∈ (delete (S r) P).*1.
Proof.
  intros Hx [j Hj]%list_elem_of_lookup Hne. rewrite list_fmap_delete. destruct (decide (j < S r)%nat).
  - apply (list_elem_of_lookup_2 _ j). rewrite lookup_del. by rewrite decide_True.
  - assert (j <> S r). { intros ->. unfold addr_at in Hx. rewrite <- list_lookup_fmap in Hx. congruence. }
    apply (list_elem_of_lookup_2 _ (j - 1)). rewrite lookup_del, decide_False by lia. by replace (S (j - 1)) with j by lia.
Qed.

Lemma delete_repr h zsl N P r x h' zsl' :
  inv h zsl P N.*2 -> P.*1 = header zsl :: N.*1 -> (forall a, is_Some (h !! a) -> a ∈ P.*1) -> header zsl' = header zsl ->
  addr_at P (S r) = Some x -> inv h' zsl' (delete (S r) P) (delete r N.*2) ->
  (forall a, is_Some (h' !! a) <-> is_Some (h !! a) /\ a <> x) ->
  repr h' zsl' (delete r N).
Proof.
  intros Hi HP Hdom Hh Hx Hi' Hd. exists (delete (S r) P). rewrite !list_fmap_delete, Hh. split; [done|]. rewrite HP.
  split; [done|]. intros a [Ha Hax]%Hd. rewrite <- HP, <- list_fmap_delete. by eapply deleted_nodes; [|apply Hdom|].
Qed.

Lemma header_insert h zsl rnd s e x h' zsl' rest : zslInsert h zsl rnd s e = Some (x, h', zsl', rest) -> header zsl' = header zsl.
Proof.
  unfold zslInsert. destruct (assertb _); [|done]. cbn [mbind option_bind]. intros Hz.
  repeat match type of Hz with
  | mbind _ ?m = Some _ => destruct m as [?|]; [cbn [mbind option_bind] in Hz|done]
  | (let '(_, _) := ?p in _) = Some _ => destruct p
  end. by injection Hz as <- <- <- <-.
Qed.

Lemma zslInsert_repr h zsl N rnd s e lv rest :
  repr h zsl N -> isnan s = false -> Forall (fun z => elt_eq z (s, e) = false) (N.*2) -> Zlen N + 1 < 2 ^ 64 ->
  zslRandomLevel rnd = Some (lv, rest) ->
  exists x h' zsl', zslInsert h zsl rnd s e = Some (x, h', zsl', rest) /\ (x ∉ N.*1) /\
    repr h' zsl' (insert_after (rank_of N.*2 (s, e)) (x, (s, e)) N).
Proof.
  intros (P & Hi & HP & Hdom) Hs Hnew Hb Hrnd.
  rewrite <- (length_fmap snd) in Hb. destruct (zslInsert_spec h zsl P N.*2 rnd s e lv rest Hi Hs Hnew Hb Hrnd)
    as (x & h' & zsl' & Hz & Hx & Hi' & Hd).
  exists x, h', zsl'. split; [done|]. split.
  - intros Hin. assert (Hs' : is_Some (h !! x)); [|rewrite Hx in Hs'; by destruct Hs'].
    apply (inv_dom _ _ _ _ Hi). rewrite HP. by right.
  - eapply insert_repr; try done. by eapply header_insert.
Qed.

(** The empty skip list, in a heap without other nodes. *)
Lemma zslCreate_repr : repr (zslCreate ∅).2 (zslCreate ∅).1 [].
Proof.
  unfold zslCreate, zslCreateNode. set (hd := fresh (dom ∅)). cbn [fst snd].
  assert (Hpos : forall p a, addr_at [(hd, ZSKIPLIST_MAXLEVEL)] p = Some a -> p = 0%nat /\ a = hd).
  { intros [|p] a; unfold addr_at; cbn; [by intros [= <-]|done]. }
  assert (Hlv : forall i, (i < 32)%nat -> forall nd : zskiplistNode, level nd = replicate 32 (None, 0) ->
    lvl (<[hd := nd]> ∅) hd i = Some (None, 0)).
  { intros i Hi nd Hnd. unfold lvl. rewrite lookup_insert_eq. cbn [mbind option_bind]. rewrite Hnd. by apply lookup_replicate_2. }
  exists [(hd, ZSKIPLIST_MAXLEVEL)]. split; [|split; [done|]].
  - split; try done; cbn [length zlevel header fmap list_fmap fst]; try lia.
    + apply NoDup_singleton.
    + intros a ->%list_elem_of_singleton. by rewrite lookup_insert_eq.
    + intros p a [-> ->]%Hpos. eexists. split; [|done]. unfold fields. by rewrite lookup_insert_eq.
    + intros p a i [-> ->]%Hpos Hi Hi'. exists (None, 0). split; [apply Hlv; [lia|done]|].
      exists 1%nat. split; [|done]. split; [cbn; lia|]. split; [lia|cbn; lia].
    + intros i Hi. exists 0. apply Hlv; [lia|done].
    + split; [done|constructor].
  - intros a [nd Hnd]. apply lookup_insert_Some in Hnd as [[<- _]|[_ ?]]; [cbn; by left|done].
Qed.

(** Runs of insertions from the empty skip list. *)
Fixpoint insert_all (h : heap) (zsl : zskiplist) (rnd : list Z) (N : list (addr * elt)) (es : list elt) :
    option (heap * zskiplist * list (addr * elt)) :=
  match es with
  | [] => Some (h, zsl, N)
  | (s, e) :: es =>
      '(x, h, zsl, rnd) ← zslInsert h zsl rnd s e;
      insert_all h zsl rnd (insert_after (rank_of N.*2 (s, e)) (x, (s, e)) N) es
  end.

Lemma insert_all_repr es : forall h zsl rnd N h' zsl' N',
  repr h zsl N -> Forall elt_ok es -> (forall x, x ∈ N.*2 -> x.2 ∉ es.*2) -> NoDup es.*2 ->
  Zlen N + Zlen es < 2 ^ 64 ->
  insert_all h zsl rnd N es = Some (h', zsl', N') -> repr h' zsl' N'.
Proof.
  induction es as [|[s e] es IH]; cbn [insert_all]; intros h zsl rnd N h' zsl' N' Hrep Hok Hnew Hnd Hb Hrun.
  { injection Hrun as <- <- <-. done. }
  apply Forall_cons in Hok as [Hs Hok]. rewrite fmap_cons in Hnd, Hnew. apply NoDup_cons in Hnd as [He Hnd].
  destruct (zslRandomLevel rnd) as [[lv rest]|] eqn:Hrnd.
  2:{ unfold zslInsert in Hrun. destruct (assertb _); [|done]. cbn [mbind option_bind] in Hrun.
      destruct (descend _ _ _ _ _) as [[]|]; [|done]. cbn [mbind option_bind] in Hrun. by rewrite Hrnd in Hrun. }
  assert (Hfa : Forall (fun z => elt_eq z (s, e) = false) (N.*2)).
  { apply Forall_forall. intros z Hz. unfold elt_eq. apply andb_false_intro2, bool_decide_eq_false. cbn. intros <-.
    by apply (Hnew z Hz), elem_of_cons; left. }
  cbn [length] in Hb.
  destruct (zslInsert_repr h zsl N rnd s e lv rest Hrep Hs Hfa ltac:(lia) Hrnd) as (x & h1 & zsl1 & Hz & _ & Hrep1).
  rewrite Hz in Hrun. eapply IH; [apply Hrep1|done| |done| |exact Hrun].
  - intros z. rewrite insert_after_fmap, insert_after_perm. intros [->|Hin]%elem_of_cons; [done|].
    intros Hz'. by apply (Hnew z Hin), elem_of_cons; right.
  - rewrite length_insert_after. lia.
Qed.

(** A sorted set with three nodes, of the heights 1, 2 and 1. *)
Definition one : double := S754_finite false 4503599627370496 (-52).
Definition two : double := S754_finite false 4503599627370496 (-51).

Definition sample : heap * zskiplist * list (addr * elt) := Eval vm_compute in
  default (∅, (zslCreate ∅).1, [])
    (insert_all (zslCreate ∅).2 (zslCreate ∅).1 [threshold; 0; threshold; threshold] []
       [(two, [98]); (one, [99]); (one, [97])]).

Lemma sample_repr : repr sample.1.1 sample.1.2 sample.2.
Proof.
  eapply (insert_all_repr [(two, [98]); (one, [99]); (one, [97])] (zslCreate ∅).2 (zslCreate ∅).1
    [threshold; 0; threshold; threshold] []); [apply zslCreate_repr|by repeat constructor|set_solver| |done|vm_compute; done].
  cbn. apply (bool_decide_unpack _). by vm_compute.
Qed.

(** C10: [zslInsert] of an element that is not in the sorted set always
    returns, and the skip list then has the old nodes and the new one at its
    place in the order, at any random height, with all forward pointers,
    spans, backward pointers, the tail and the length correct. *)
Theorem zslInsert_refines h zsl N rnd s e lv rest :
  repr h zsl N -> isnan s = false -> Forall (fun z => elt_eq z (s, e) = false) (N.*2) -> Zlen N + 1 < 2 ^ 64 ->
  zslRandomLevel rnd = Some (lv, rest) ->
  exists x h' zsl', zslInsert h zsl rnd s e = Some (x, h', zsl', rest) /\ (x ∉ N.*1) /\
    repr h' zsl' (insert_after (rank_of N.*2 (s, e)) (x, (s, e)) N).
Proof. apply zslInsert_repr. Qed.

Lemma zslInsert_refines_witness :
  exists x h' zsl', zslInsert sample.1.1 sample.1.2 [0; 0; threshold] two [97] = Some (x, h', zsl', []) /\ (x ∉ sample.2.*1) /\
    repr h' zsl' (insert_after (rank_of sample.2.*2 (two, [97])) (x, (two, [97])) sample.2).
Proof.
  apply (zslInsert_refines sample.1.1 sample.1.2 sample.2 [0; 0; threshold] two [97] 3 []);
    [apply sample_repr|done| |by vm_compute|by vm_compute].
  apply (bool_decide_unpack _). by vm_compute.
Defined.

Lemma zslDelete_repr h zsl N s e :
  repr h zsl N -> isnan s = false ->
  exists o h' zsl', zslDelete h zsl s e false = Some (o, h', zsl') /\
    repr h' zsl' (base.filter (fun n => elt_eq n.2 (s, e) = false) N) /\
    (is_Some o <-> exists z, z ∈ N.*2 /\ elt_eq z (s, e) = true).
Proof.
  intros (P & Hi & HP & Hdom) Hs. pose proof (inv_elts _ _ _ _ Hi) as HE.
  destruct (zslDelete_spec h zsl P N.*2 s e false Hi Hs) as (o & h' & zsl' & Hz & Ho).
  exists o, h', zsl'. split; [done|]. destruct o as [x|].
  - destruct Ho as (Hx & (z & Hzr & Hze) & Hi' & Hh & Hd). split.
    + rewrite <- (delete_filter (fun n => elt_eq n.2 (s, e)) N (rank_of N.*2 (s, e))).
      * eapply delete_repr; try done. intros a. rewrite Hd.
        split; intros [Ha Hne]; (split; [done|]); [intros ->; by specialize (Hne eq_refl)|done].
      * intros j n Hj. assert (Hj2 : N.*2 !! j = Some n.2) by (by rewrite list_lookup_fmap, Hj).
        split; [by apply rank_present|]. intros ->. congruence.
      * apply lookup_lt_Some in Hzr. by rewrite length_fmap in Hzr.
    + split; [|done]. intros _. exists z. split; [by eapply list_elem_of_lookup_2|done].
  - destruct Ho as (-> & -> & Hno). destruct (remove_absent N.*2 (s, e) HE Hs Hno) as [Hab _]. split.
    + rewrite filter_all; [by exists P|]. by rewrite Forall_fmap in Hab.
    + split; [by intros [? ?]|]. intros (z & Hin & Hze). rewrite Forall_forall in Hab. by rewrite Hab in Hze.
Qed.

(** [zslDelete] removes exactly the node with the score and the element,
    if there is one, frees it, and answers whether there was one. *)
Theorem zslDelete_refines h zsl N s e :
  repr h zsl N -> isnan s = false ->
  exists o h' zsl', zslDelete h zsl s e false = Some (o, h', zsl') /\
    repr h' zsl' (base.filter (fun n => elt_eq n.2 (s, e) = false) N) /\
    (is_Some o <-> exists z, z ∈ N.*2 /\ elt_eq z (s, e) = true).
Proof. apply zslDelete_repr. Qed.

Lemma zslDelete_refines_witness :
  exists o h' zsl', zslDelete sample.1.1 sample.1.2 one [99] false = Some (o, h', zsl') /\
    repr h' zsl' (base.filter (fun n => elt_eq n.2 (one, [99]) = false) sample.2) /\
    (is_Some o <-> exists z, z ∈ sample.2.*2 /\ elt_eq z (one, [99]) = true).
Proof. apply (zslDelete_refines sample.1.1 sample.1.2 sample.2 one [99]); [apply sample_repr|done]. Defined.

(** ** Ranks *)

(** The element [x] is in the sequence. *)
Definition present (E : list elt) (x : elt) : bool :=
  match E !! rank_of E x with Some z => elt_eq z x | None => false end.

Definition elt_le (x y : elt) : bool := dlt y.1 x.1 || (deq y.1 x.1 && (sdscmp y.2 x.2 <=? 0)).

Lemma elt_le_lt x y : elt_ok x -> elt_ok y -> elt_le x y = negb (elt_lt x y).
Proof.
  intros Hx Hy. apply eq_true_iff_eq. rewrite negb_true_iff, <- not_true_iff_false, elt_lt_iff by done.
  unfold elt_le. rewrite orb_true_iff, andb_true_iff, dlt_key, deq_key, Z.leb_le, !lex3_lt, !key_eq by done.
  rewrite (sdscmp_antisym x.2 y.2). lia.
Qed.

Lemma le_downclosed E x : elts_ok E -> elt_ok x -> downclosed E (elt_le x).
Proof.
  intros HE Hx i j a b Hij Ha Hb. pose proof (elt_at _ _ _ HE Ha). pose proof (elt_at _ _ _ HE Hb).
  rewrite !elt_le_lt, !negb_true_iff, <- !not_true_iff_false by done. intros Hn Hxa. apply Hn.
  eapply elt_lt_trans; [..|exact Hxa|]; try done. by eapply sorted_lt.
Qed.

Lemma count_le_present E x :
  elts_ok E -> elt_ok x -> count (elt_le x) E = if present E x then S (rank_of E x) else rank_of E x.
Proof.
  intros HE Hx. pose proof (prefix_count E _ (le_downclosed E x HE Hx)) as Hle.
  pose proof (sorted_prefix E x HE Hx) as Hlt. pose proof (count_le (elt_le x) E) as Hc. pose proof (rank_of_le E x) as Hr.
  set (r := rank_of E x) in *. set (c := count (elt_le x) E) in *.
  assert (Hrc : (r <= c)%nat).
  { destruct (Nat.le_gt_cases r c) as [|Hcr]; [done|]. destruct (lookup_lt_is_Some_2 E c) as [y Hy]; [lia|].
    pose proof (Hlt c y Hy) as H1. pose proof (Hle c y Hy) as H2. pose proof (elt_at _ _ _ HE Hy) as Hok.
    rewrite bool_decide_eq_true_2 in H1 by lia. rewrite bool_decide_eq_false_2 in H2 by lia.
    rewrite elt_le_lt in H2 by done. apply negb_false_iff in H2.
    pose proof (elt_lt_trans x y x Hx Hok Hx H2 H1) as Hxx. by rewrite elt_lt_irrefl in Hxx. }
  assert (Hmore : forall j y, (r <= j)%nat -> E !! j = Some y -> elt_le x y = elt_eq y x).
  { intros j y Hj Hy. pose proof (elt_at _ _ _ HE Hy) as Hok. pose proof (Hlt j y Hy) as H1.
    rewrite bool_decide_eq_false_2 in H1 by lia. rewrite elt_le_lt by done. destruct (elt_eq y x) eqn:Heq.
    - by rewrite (elt_lt_eq_r y x x), elt_lt_irrefl by done.
    - destruct (elt_lt x y) eqn:Hxy; [done|]. by rewrite (elt_trichotomy y x) in Heq. }
  unfold present. fold r. destruct (E !! r) as [z|] eqn:Hz.
  - pose proof (Hle r z Hz) as H1. rewrite (Hmore r z) in H1 by done. destruct (elt_eq z x) eqn:Heq.
    + symmetry in H1. apply bool_decide_eq_true in H1. destruct (Nat.eq_dec c (S r)) as [|Hne]; [done|].
      destruct (lookup_lt_is_Some_2 E (S r)) as [w Hw]; [lia|]. pose proof (Hle _ _ Hw) as H2.
      rewrite bool_decide_eq_true_2, (Hmore (S r) w) in H2 by (lia || done).
      pose proof (rank_present E x (S r) w HE Hx Hw H2). fold r in H. lia.
    + symmetry in H1. apply bool_decide_eq_false in H1. lia.
  - apply lookup_ge_None in Hz. lia.
Qed.

Lemma getrank_spec h zsl P E s e n : forall p a,
  inv h zsl P E -> isnan s = false -> addr_at P p = Some a -> (p <= count (elt_le (s, e)) E)%nat ->
  (n <= hgt P p)%nat -> (n <= zlevel zsl)%nat -> (n = 0%nat -> present E (s, e) = false) ->
  getrank_levels h s e n a (Z.of_nat p)
    = Some (if present E (s, e) then Z.of_nat (S (rank_of E (s, e))) else 0).
Proof.
  induction n as [|n IH]; intros p a Hi Hs Ha Hp Hh Hlv H0; cbn [getrank_levels]; [by rewrite H0|].
  pose proof (inv_elts _ _ _ _ Hi) as HE. set (c := count (elt_le (s, e)) E) in *.
  assert (Hsp : splits h P (before_or_at s e) c).
  { apply (elt_splits h zsl); [done| |by apply le_downclosed]. intros nd e' t He. unfold before_or_at. by rewrite He. }
  destruct (walk_spec h zsl P E (before_or_at s e) c n (walk_fuel h) p a) as (p1 & a1 & -> & Ha1 & Hl1); try done; try lia.
  { unfold walk_fuel. pose proof (heap_size _ _ _ _ Hi). lia. }
  cbn [mbind option_bind]. destruct (Hl1) as (Hp1 & Hh1 & Hn1). destruct p1 as [|p1].
  - assert (a1 = header zsl) as -> by (rewrite (addr_0 _ _ _ _ Hi) in Ha1; congruence).
    destruct (inv_node _ _ _ _ Hi _ _ Ha1) as (sc & Hf & _). unfold fields in Hf.
    destruct (h !! header zsl) as [nd|] eqn:Hnd; [|done]. cbn in Hf. injection Hf as Hele _ _ _. cbn [mbind option_bind].
    unfold node_is. rewrite Hele. apply IH; try done; [lia|lia|]. intros ->.
    assert (0%nat = c) as Hc0 by (eapply last_level0; [exact Hi|apply Hsp|exact Hl1]).
    unfold c in Hc0. rewrite count_le_present in Hc0 by done. by destruct (present E (s, e)).
  - destruct (node_at _ _ _ _ _ _ Hi Ha1) as (nd & z & Hnd & Hz & He & Hsc & Hok & _). rewrite Hnd. cbn [mbind option_bind].
    rewrite (node_is_eq s e nd z) by done. destruct (elt_eq z (s, e)) eqn:Heq.
    + assert (Hr : p1 = rank_of E (s, e)) by by eapply rank_present. subst p1.
      unfold present. by rewrite Hz, Heq.
    + apply IH; try done; [lia|lia|]. intros ->.
      assert (S p1 = c) as Hc1 by (eapply last_level0; [exact Hi|apply Hsp|exact Hl1]).
      unfold c in Hc1. rewrite count_le_present in Hc1 by done. destruct (present E (s, e)) eqn:Hpr; [|done].
      injection Hc1 as ->. unfold present in Hpr. by rewrite Hz, Heq in Hpr.
Qed.

Lemma byrank_spec h zsl P E k n : forall p a,
  inv h zsl P E -> 0 <= k -> addr_at P p = Some a -> (p <= Nat.min (Z.to_nat k) (length E))%nat ->
  (n <= hgt P p)%nat -> (n <= zlevel zsl)%nat -> (n = 0%nat -> Zlen E < k) ->
  byrank_levels h k n a (Z.of_nat p) = Some (addr_at P (Z.to_nat k)).
Proof.
  induction n as [|n IH]; intros p a Hi Hk Ha Hp Hh Hlv H0; cbn [byrank_levels]; pose proof (inv_size _ _ _ _ Hi) as Hsz.
  { unfold addr_at. rewrite lookup_ge_None_2 by lia. done. }
  set (c := Nat.min (Z.to_nat k) (length E)) in *.
  assert (Hsp : splits h P (fun _ t => t <=? k) c).
  { split; [lia|]. intros q b nd Hq Hb _. apply addr_at_lt in Hb. apply eq_true_iff_eq. rewrite bool_decide_eq_true. lia. }
  destruct (walk_spec h zsl P E (fun _ t => t <=? k) c n (walk_fuel h) p a) as (p1 & a1 & -> & Ha1 & Hl1); try done; try lia.
  { unfold walk_fuel. pose proof (heap_size _ _ _ _ Hi). lia. }
  cbn [mbind option_bind]. destruct (Hl1) as (Hp1 & Hh1 & Hn1). destruct (Z.eqb_spec (Z.of_nat p1) k) as [<-|Hne].
  - by rewrite Nat2Z.id, Ha1.
  - apply IH; try done; try lia. intros ->.
    assert (p1 = c) as -> by (eapply last_level0; [exact Hi|apply Hsp|exact Hl1]). lia.
Qed.

Lemma zslGetRank_repr h zsl N s e :
  repr h zsl N -> isnan s = false ->
  zslGetRank h zsl s e = Some (if present N.*2 (s, e) then Z.of_nat (S (rank_of N.*2 (s, e))) else 0).
Proof.
  intros (P & Hi & HP & _) Hs. pose proof (inv_level _ _ _ _ Hi). pose proof (hgt_0 _ _ _ _ Hi) as H0.
  unfold zslGetRank. change 0 with (Z.of_nat 0) at 1. eapply getrank_spec; try done; [by eapply addr_0|lia..].
Qed.

(** [zslGetRank] is one more than the number of elements before the given
    one, or 0 when it is not there, and [zslGetElementByRank] is the node
    with this rank. *)
Theorem zsl_ranks h zsl N s e k :
  repr h zsl N -> isnan s = false -> 0 < k ->
  zslGetRank h zsl s e = Some (if present N.*2 (s, e) then Z.of_nat (S (rank_of N.*2 (s, e))) else 0) /\
  zslGetElementByRank h zsl k = Some (N.*1 !! Z.to_nat (k - 1)).
Proof.
  intros Hrep Hs Hk. split; [by apply zslGetRank_repr|]. destruct Hrep as (P & Hi & HP & _).
  pose proof (inv_level _ _ _ _ Hi). pose proof (hgt_0 _ _ _ _ Hi) as H0.
  unfold zslGetElementByRank. change 0 with (Z.of_nat 0) at 1.
  rewrite (byrank_spec h zsl P N.*2) by (lia || done || by eapply addr_0).
  rewrite <- (repr_addr _ _ _ _ Hi HP). do 2 f_equal. lia.
Qed.

Lemma zsl_ranks_witness :
  zslGetRank sample.1.1 sample.1.2 one [99] = Some 2 /\ zslGetElementByRank sample.1.1 sample.1.2 2 = Some (sample.2.*1 !! 1%nat).
Proof. apply (zsl_ranks sample.1.1 sample.1.2 sample.2 one [99] 2); [apply sample_repr|done|done]. Defined.

(** ** Changing a score *)

Lemma rank_split l1 x l2 : elts_ok (l1 ++ x :: l2) -> rank_of (l1 ++ l2) x = length l1.
Proof.
  intros [Hok Hs]. apply Forall_app in Hok as [Hok1 Hok2]. apply Forall_cons in Hok2 as [Hx Hok2].
  apply StronglySorted_app in Hs as (H12 & H1 & H2). apply StronglySorted_cons in H2 as [Hx2 H2].
  unfold rank_of, count. rewrite filter_app, filter_all, filter_none, app_nil_r; [done|..].
  - rewrite Forall_forall in *. intros y Hy Hyx. pose proof (Hx2 y Hy) as Hxy.
    pose proof (elt_lt_trans x y x Hx (Hok2 y Hy) Hx Hxy Hyx) as Hxx. by rewrite elt_lt_irrefl in Hxx.
  - apply Forall_forall. intros y Hy. apply H12; [done|by left].
Qed.

(** An element can take another score when it stays between its neighbours. *)
Lemma elts_replace E r s0 e ns :
  elts_ok E -> E !! r = Some (s0, e) -> isnan ns = false ->
  (forall y, (0 < r)%nat -> E !! (r - 1)%nat = Some y -> dlt y.1 ns = true) ->
  (forall y, E !! S r = Some y -> dlt ns y.1 = true) ->
  elts_ok (take r E ++ (ns, e) :: drop (S r) E).
Proof.
  intros HE Hr Hns Hprev Hnext. pose proof HE as [Hok Hs].
  assert (Hlt := lookup_lt_Some _ _ _ Hr).
  assert (Hlo : forall y, y ∈ take r E -> elt_lt y (ns, e) = true).
  { intros y [j Hj]%list_elem_of_lookup. apply lookup_take_Some in Hj as [Hj Hjr].
    destruct (lookup_lt_is_Some_2 E (r - 1)) as [w Hw]; [lia|].
    assert (Hwy : elt_lt w (ns, e) = true) by (unfold elt_lt; cbn [fst snd]; rewrite (Hprev w) by (lia || done); done).
    destruct (decide (j = r - 1)%nat) as [->|Hne]; [congruence|].
    eapply elt_lt_trans; [by eapply elt_at|by eapply elt_at|done| |exact Hwy]. eapply sorted_lt; [done| |done|done]. lia. }
  assert (Hhi : forall y, y ∈ drop (S r) E -> elt_lt (ns, e) y = true).
  { intros y [j Hj]%list_elem_of_lookup. rewrite lookup_drop in Hj.
    destruct (lookup_lt_is_Some_2 E (S r)) as [w Hw]; [apply lookup_lt_Some in Hj; lia|].
    assert (Hwy : elt_lt (ns, e) w = true) by (unfold elt_lt; cbn; by rewrite (Hnext w)).
    destruct (decide (j = 0%nat)) as [->|Hne]; [rewrite Nat.add_0_r in Hj; congruence|].
    eapply elt_lt_trans; [| | |exact Hwy|]; [done|by eapply elt_at|by eapply elt_at|]. eapply sorted_lt; [done| |done|done]. lia. }
  rewrite <- (take_drop_middle _ _ _ Hr) in Hok, Hs. apply Forall_app in Hok as [Hok1 [_ Hok2]%Forall_cons].
  apply StronglySorted_app in Hs as (H12 & H1 & [_ H2]%StronglySorted_cons). split.
  - apply Forall_app. split; [done|]. by apply Forall_cons.
  - apply StronglySorted_app. split_and!; [|done|apply StronglySorted_cons; split; [by apply Forall_forall|done]].
    intros a b Ha [->|Hb]%elem_of_cons; [by apply Hlo|]. apply H12; [done|by right].
Qed.

Lemma set_score_inv h zsl P E r x s0 e ns :
  inv h zsl P E -> addr_at P (S r) = Some x -> E !! r = Some (s0, e) -> elts_ok (<[r := (ns, e)]> E) ->
  exists h', set_score h x ns = Some h' /\ inv h' zsl P (<[r := (ns, e)]> E) /\
    (forall a, is_Some (h' !! a) <-> is_Some (h !! a)).
Proof.
  intros Hi Hx Hr HE'. destruct (node_at _ _ _ _ _ _ Hi Hx) as (nd & z & Hnd & Hz & He & Hsc & Hok & Hb).
  assert (z = (s0, e)) as -> by congruence. unfold set_score. rewrite Hnd. cbn [mbind option_bind]. eexists. split; [done|].
  set (nd' := {| ele := ele nd |}).
  assert (Hl : forall a j, lvl (<[x := nd']> h) a j = lvl h a j).
  { intros a j. rewrite lvl_new. destruct (decide (a = x)) as [->|]; [|done]. unfold lvl. by rewrite Hnd. }
  assert (Hd : forall a, is_Some ((<[x := nd']> h) !! a) <-> is_Some (h !! a)).
  { intros a. destruct (decide (a = x)) as [->|]; [rewrite lookup_insert_eq, Hnd|rewrite lookup_insert_ne by done]; done. }
  split; [|done]. destruct (Hi) as [H1 H2 H3 H4 H5 H6 H7 H8 H9 H10 H11 H12 H13]. split; rewrite ?length_insert; try done.
  - rewrite H6. destruct E; [done|]. by destruct r.
  - intros a Ha. apply Hd. auto.
  - intros p a Ha. destruct (H10 p a Ha) as (sc & Hf & Hs). unfold node_ok. rewrite fields_new.
    destruct (decide (a = x)) as [->|Hne].
    + assert (p = S r) as -> by by eapply addr_at_inj. cbn [data_at] in *. rewrite list_lookup_insert_eq by by eapply lookup_lt_Some.
      exists ns. split; [|by intros ? [= <-]]. unfold fields in Hf. rewrite Hnd, Hr in Hf. cbn in Hf |- *. injection Hf as -> _ -> ->. done.
    + assert (Hda : data_at (<[r := (ns, e)]> E) p = data_at E p).
      { destruct p as [|p]; [done|]. cbn. apply list_lookup_insert_ne. intros <-. congruence. }
      rewrite Hda. by exists sc.
  - intros p a i Ha. rewrite Hl. by apply H11.
  - intros i. rewrite Hl. apply H12.
Qed.

(** The neighbours that [zslUpdateScore] compares with. *)
Lemma prev_test h zsl P E r x ns :
  inv h zsl P E -> addr_at P (S r) = Some x ->
  exists b, match back_at P (S r) with None => Some true | Some b => ndb ← h !! b; Some (dlt (score ndb) ns) end = Some b /\
    (b = true -> forall y, (0 < r)%nat -> E !! (r - 1)%nat = Some y -> dlt y.1 ns = true).
Proof.
  intros Hi Hx. destruct r as [|r]; cbn [back_at]; [exists true; split; [done|lia]|].
  destruct (addr_at_some P (S r)) as [b Hb]; [apply addr_at_lt in Hx; lia|]. rewrite Hb.
  destruct (node_at _ _ _ _ _ _ Hi Hb) as (nd & z & -> & Hz & _ & Hsc & _). cbn [mbind option_bind].
  eexists. split; [done|]. rewrite Hsc. intros Hlt y _ Hy. cbn in Hy. rewrite Nat.sub_0_r in Hy. congruence.
Qed.

Lemma next_test h zsl P E r ns :
  inv h zsl P E ->
  exists b, match addr_at P (S (S r)) with None => Some true | Some y => ndy ← h !! y; Some (dlt ns (score ndy)) end = Some b /\
    (b = true -> forall y, E !! S r = Some y -> dlt ns y.1 = true).
Proof.
  intros Hi. destruct (addr_at P (S (S r))) as [b|] eqn:Hb.
  - destruct (node_at _ _ _ _ _ _ Hi Hb) as (nd & z & -> & Hz & _ & Hsc & _). cbn [mbind option_bind].
    eexists. split; [done|]. rewrite Hsc. intros. congruence.
  - exists true. split; [done|]. intros _ y Hy. by rewrite (addr_end _ _ _ _ _ Hi Hb) in Hy.
Qed.

(** The score is changed in place. *)
Lemma update_in_place h zsl N P r x s0 e ns :
  inv h zsl P N.*2 -> P.*1 = header zsl :: N.*1 -> (forall a, is_Some (h !! a) -> a ∈ P.*1) ->
  N !! r = Some (x, (s0, e)) -> addr_at P (S r) = Some x -> elts_ok (take r N.*2 ++ (ns, e) :: drop (S r) N.*2) ->
  exists h', set_score h x ns = Some h' /\
    repr h' zsl (insert_after (rank_of (delete r N).*2 (ns, e)) (x, (ns, e)) (delete r N)).
Proof.
  intros Hi HP Hdom Hr Hx HE'. assert (Hlt := lookup_lt_Some _ _ _ Hr).
  assert (HrE : N.*2 !! r = Some (s0, e)) by by rewrite list_lookup_fmap, Hr.
  assert (Hins : <[r := (ns, e)]> N.*2 = take r N.*2 ++ (ns, e) :: drop (S r) N.*2).
  { apply insert_take_drop. by eapply lookup_lt_Some. }
  destruct (set_score_inv h zsl P N.*2 r x s0 e ns Hi Hx HrE) as (h' & -> & Hi' & Hd'); [by rewrite Hins|].
  eexists. split; [done|]. exists P.
  assert (Hrk : rank_of (delete r N).*2 (ns, e) = r).
  { rewrite list_fmap_delete, delete_take_drop, rank_split by done. rewrite length_take, length_fmap. lia. }
  assert (HN : insert_after r (x, (ns, e)) (delete r N) = <[r := (x, (ns, e))]> N).
  { rewrite insert_take_drop by done. unfold insert_after. rewrite delete_take_drop.
    rewrite take_app_le, drop_app_ge by (rewrite length_take; lia). rewrite length_take, Nat.min_l by lia.
    by rewrite take_take, Nat.min_id, Nat.sub_diag, drop_0. }
  rewrite Hrk, HN, !list_fmap_insert. cbn [fst snd]. split; [done|]. split.
  - rewrite HP. f_equal. symmetry. apply list_insert_id. by rewrite list_lookup_fmap, Hr.
  - intros a Ha. apply Hdom, Hd', Ha.
Qed.

Lemma other_elements N r (x : addr) s0 (e : sds) :
  NoDup N.*2.*2 -> N !! r = Some (x, (s0, e)) -> forall s, Forall (fun z => elt_eq z (s, e) = false) (delete r N).*2.
Proof.
  intros Hnd Hr s. apply Forall_forall. intros z Hz. apply not_true_iff_false. unfold elt_eq. rewrite andb_true_iff.
  intros [_ He%bool_decide_eq_true]. cbn in He. apply list_elem_of_lookup in Hz as [j Hj].
  rewrite list_lookup_fmap, lookup_del in Hj.
  assert (Hat : forall i n, N !! i = Some n -> n.2 = z -> i = r).
  { intros i n Hi Hn. eapply (NoDup_lookup N.*2.*2); [exact Hnd| |].
    - rewrite !list_lookup_fmap, Hi. cbn. rewrite Hn, He. done.
    - rewrite !list_lookup_fmap, Hr. done. }
  destruct (decide (j < r)%nat); [destruct (N !! j) as [m|] eqn:En|destruct (N !! S j) as [m|] eqn:En]; try done;
    cbn in Hj; injection Hj as Hj; pose proof (Hat _ _ En Hj); lia.
Qed.

(** The node is deleted and another one inserted. *)
Lemma update_reinsert h zsl N P r x s0 e ns lv rnd rest update U :
  inv h zsl P N.*2 -> P.*1 = header zsl :: N.*1 -> (forall a, is_Some (h !! a) -> a ∈ P.*1) ->
  N !! r = Some (x, (s0, e)) -> addr_at P (S r) = Some x -> stored_at P (zlevel zsl) r update U ->
  isnan ns = false -> NoDup N.*2.*2 -> Zlen N < 2 ^ 64 -> zslRandomLevel rnd = Some (lv, rest) ->
  exists h1 zsl1 x' h2 zsl2, zslDeleteNode h zsl x update = Some (h1, zsl1) /\
    zslInsert h1 zsl1 rnd ns e = Some (x', h2, zsl2, rest) /\
    repr (zslFreeNode h2 x) zsl2 (insert_after (rank_of (delete r N).*2 (ns, e)) (x', (ns, e)) (delete r N)).
Proof.
  intros Hi HP Hdom Hr Hx Hup Hns Hnd Hb Hrnd.
  destruct (zslDeleteNode_spec _ _ _ _ _ _ _ _ Hi Hx Hup) as (h1 & zsl1 & E1 & Hi1 & Hh1 & Hd1 & _ & _).
  rewrite <- list_fmap_delete in Hi1. assert (Hlen : Zlen (delete r N).*2 + 1 < 2 ^ 64).
  { rewrite length_fmap. assert (Hl := length_delete N r (mk_is_Some _ _ Hr)). apply lookup_lt_Some in Hr. lia. }
  destruct (zslInsert_spec h1 zsl1 (delete (S r) P) (delete r N).*2 rnd ns e lv rest Hi1 Hns (other_elements _ _ _ _ _ Hnd Hr ns) Hlen Hrnd)
    as (x' & h2 & zsl2 & E2 & Hx' & Hi2 & Hd2).
  exists h1, zsl1, x', h2, zsl2. split; [done|]. split; [done|].
  pose proof (not_in_deleted _ _ _ _ _ _ Hi Hx) as Hnot.
  assert (Hxx : x <> x').
  { intros <-. assert (Hs : is_Some (h1 !! x)) by (apply Hd1, (inv_dom _ _ _ _ Hi); by eapply addr_elem).
    rewrite Hx' in Hs. by destruct Hs. }
  apply (insert_repr (zslFreeNode h1 x) zsl1 (delete r N) (delete (S r) P) x' (ns, e) lv).
  - by apply inv_free.
  - rewrite !list_fmap_delete, HP, Hh1. done.
  - intros a. unfold zslFreeNode. intros Ha. destruct (decide (a = x)) as [->|Hne]; [rewrite lookup_delete_eq in Ha; by destruct Ha|].
    rewrite lookup_delete_ne in Ha by done. by eapply deleted_nodes; [|apply Hdom, Hd1|].
  - by eapply header_insert.
  - apply inv_free; [done|]. rewrite insert_after_perm. cbn. rewrite elem_of_cons. by intros [?|?].
  - intros a. unfold zslFreeNode. destruct (decide (a = x)) as [->|Hne].
    + rewrite !lookup_delete_eq. split; [by intros [? ?]|by intros [?|[? ?]]].
    + rewrite !lookup_delete_ne by done. apply Hd2.
Qed.

Lemma zslUpdateScore_spec h zsl N rnd cs e ns lv rest r x s0 :
  repr h zsl N -> N !! r = Some (x, (s0, e)) -> deq s0 cs = true -> isnan cs = false -> isnan ns = false ->
  NoDup N.*2.*2 -> Zlen N < 2 ^ 64 -> zslRandomLevel rnd = Some (lv, rest) ->
  exists x' h' zsl' rnd', zslUpdateScore h zsl rnd cs e ns = Some (x', h', zsl', rnd') /\
    repr h' zsl' (insert_after (rank_of (delete r N).*2 (ns, e)) (x', (ns, e)) (delete r N)) /\ (rnd' = rnd \/ rnd' = rest).
Proof.
  intros (P & Hi & HP & Hdom) Hr Hs0 Hcs Hns Hnd Hb Hrnd. pose proof (inv_elts _ _ _ _ Hi) as HE.
  assert (HrE : N.*2 !! r = Some (s0, e)) by by rewrite list_lookup_fmap, Hr.
  assert (Hx : addr_at P (S r) = Some x) by (rewrite (repr_addr _ _ _ _ Hi HP), list_lookup_fmap, Hr; done).
  assert (Heq : elt_eq (s0, e) (cs, e) = true) by (unfold elt_eq; cbn; by rewrite Hs0, bool_decide_eq_true_2).
  assert (Hrank : r = rank_of N.*2 (cs, e)) by by eapply rank_present.
  unfold zslUpdateScore. pose proof (before_splits _ _ _ _ cs e Hi Hcs) as Hsp. rewrite <- Hrank in Hsp.
  destruct (search_found _ _ _ _ _ _ Hi Hsp) as (last & update & U & -> & Hlast & Hlen & Hup). cbn [mbind option_bind].
  destruct (forward0 _ _ _ _ _ _ Hi Hlast) as [sp ->]. cbn [mbind option_bind]. rewrite Hx. cbn [mbind option_bind].
  destruct (node_at _ _ _ _ _ _ Hi Hx) as (nd & z & Hnx & Hz & He & Hsc & Hok & Hback). assert (z = (s0, e)) as -> by congruence.
  rewrite Hnx. cbn [mbind option_bind]. rewrite (node_is_eq cs e nd (s0, e)), Heq by done. cbn [assertb mbind option_bind].
  rewrite Hback. destruct (prev_test _ _ _ _ _ _ ns Hi Hx) as (b1 & -> & Hprev). cbn [mbind option_bind].
  destruct (forward0 _ _ _ _ _ _ Hi Hx) as [sp' ->]. cbn [mbind option_bind].
  destruct (next_test _ _ _ _ r ns Hi) as (b2 & -> & Hnext). cbn [mbind option_bind].
  destruct (b1 && b2) eqn:Hb12.
  - apply andb_true_iff in Hb12 as [-> ->].
    pose proof (elts_replace N.*2 r s0 e ns HE HrE Hns (Hprev eq_refl) (Hnext eq_refl)) as HE'.
    destruct (update_in_place h zsl N P r x s0 e ns Hi HP Hdom Hr Hx HE') as (h' & -> & Hrep).
    cbn [mbind option_bind]. eexists _, _, _, _. split; [done|]. split; [done|by left].
  - destruct (update_reinsert h zsl N P r x s0 e ns lv rnd rest update U) as (h1 & zsl1 & x' & h2 & zsl2 & -> & E2 & Hrep); try done.
    cbn [mbind option_bind]. rewrite He. cbn [mbind option_bind snd]. rewrite E2. cbn [mbind option_bind].
    eexists _, _, _, _. split; [done|]. split; [done|by right].
Qed.

(** ** Freeing *)

(** Freeing the nodes of a chain: each one's successor is read before the
    node is freed. *)
Lemma free_loop_spec A : forall fuel h, NoDup A ->
  (forall j a, A !! j = Some a -> exists sp, lvl h a 0 = Some (A !! S j, sp)) -> (length A < fuel)%nat ->
  exists h', free_loop fuel h (head A) = Some h' /\ forall b, h' !! b = if decide (b ∈ A) then None else h !! b.
Proof.
  induction A as [|x A IH]; intros [|fuel] h Hnd Hch Hf; cbn in Hf; try lia.
  { exists h. split; [done|]. intros b. by rewrite decide_False by apply not_elem_of_nil. }
  apply NoDup_cons in Hnd as [Hx Hnd]. destruct (Hch 0%nat x eq_refl) as [sp Hl].
  cbn [head free_loop hd_error]. rewrite Hl. cbn [mbind option_bind]. destruct (IH fuel (zslFreeNode h x) Hnd) as (h' & Hrun & Hh'); [|lia|].
  { intros j a Hj. destruct (Hch (S j) a Hj) as [sp' Hsp]. exists sp'. unfold lvl, zslFreeNode in *.
    rewrite lookup_delete_ne; [done|]. intros ->. apply Hx. by eapply list_elem_of_lookup_2. }
  exists h'. split; [by destruct A|]. intros b. rewrite Hh'. unfold zslFreeNode.
  destruct (decide (b ∈ A)); [by rewrite decide_True by by constructor|]. destruct (decide (b = x)) as [->|Hne].
  - by rewrite lookup_delete_eq, decide_True by by constructor.
  - rewrite lookup_delete_ne, decide_False by (done || set_solver). done.
Qed.

(** [zslFree] frees every node, each of them once, and reads none after. *)
Lemma zslFree_frees_all h zsl N : repr h zsl N -> zslFree h zsl = Some ∅.
Proof.
  intros (P & Hi & HP & Hdom). unfold zslFree.
  pose proof (inv_nodup _ _ _ _ Hi) as Hnd. rewrite HP in Hnd. apply NoDup_cons in Hnd as [Hhd Hnd].
  destruct (forward0 _ _ _ _ _ _ Hi (addr_0 _ _ _ _ Hi)) as [sp ->]. cbn [mbind option_bind].
  rewrite (repr_addr _ _ _ _ Hi HP).
  destruct (free_loop_spec N.*1 (S (size h)) (delete (header zsl) h) Hnd) as (h' & Hrun & Hh').
  - intros j a Hj. rewrite <- (repr_addr _ _ _ _ Hi HP) in Hj. destruct (forward0 _ _ _ _ _ _ Hi Hj) as [sp' Hsp].
    exists sp'. rewrite <- (repr_addr _ _ _ _ Hi HP). unfold lvl in *. rewrite lookup_delete_ne; [done|].
    intros <-. rewrite (repr_addr _ _ _ _ Hi HP) in Hj. apply Hhd. by eapply list_elem_of_lookup_2.
  - pose proof (heap_size _ _ _ _ Hi). pose proof (inv_size _ _ _ _ Hi). rewrite !length_fmap in *. lia.
  - replace (N.*1 !! 0%nat) with (head N.*1) by by destruct N. rewrite Hrun. f_equal. apply map_eq. intros b.
    rewrite Hh', lookup_empty. destruct (decide (b ∈ N.*1)) as [|Hb]; [done|].
    destruct (decide (b = header zsl)) as [->|Hne]; [by rewrite lookup_delete_eq|]. rewrite lookup_delete_ne by done.
    destruct (h !! b) eqn:E; [|done]. specialize (Hdom b (mk_is_Some _ _ E)). rewrite HP in Hdom. set_solver.
Qed.

End SlApi.
