(* ===== verification/SkiplistRange.v ===== *)
(** * Ranges of a skip list

    The elements in a range of scores, of strings or of ranks are a segment
    of the sequence: the searches return its ends, and the deletions remove
    it from the skip list and its elements from the dictionary. *)

From stdpp Require Import gmap.
From Stdlib Require Import SpecFloat.
From S2P Require Import Prelude.
From S2P Require Import Dict.
From S2P Require Import DictSpec.
From S2P Require Import DictMap.
From S2P Require Import Skiplist.
From S2P Require Import SkiplistSpec.
From S2P Require Import SkiplistInv.
From S2P Require Import SkiplistEdit.
From S2P Require Import SkiplistDelete.
From S2P Require Import SkiplistApi.
Import Skiplist SlSpec SlInv SlEdit SlDelete SlApi.

Module SlRange.

(** ** Segments *)

Lemma filter_segment {A} (f : A -> bool) (l : list A) : forall c d,
  (forall j y, l !! j = Some y -> f y = bool_decide (c <= j < d)%nat) ->
  base.filter (fun y => f y = true) l = drop c (take d l).
Proof.
  induction l as [|a l IH]; intros c d Hf; [by destruct c, d|]. rewrite filter_cons.
  rewrite (Hf 0%nat a eq_refl). destruct d as [|d].
  - rewrite decide_False by (rewrite bool_decide_eq_true; lia). rewrite (IH 0%nat 0%nat); [by destruct c|].
    intros j y Hj. rewrite (Hf (S j) y Hj). apply bool_decide_ext. lia.
  - destruct c as [|c].
    + rewrite decide_True by (rewrite bool_decide_eq_true; lia). cbn [take drop]. f_equal. rewrite (IH 0%nat d); [done|].
      intros j y Hj. rewrite (Hf (S j) y Hj). apply bool_decide_ext. lia.
    + rewrite decide_False by (rewrite bool_decide_eq_true; lia). cbn [take drop]. apply IH.
      intros j y Hj. rewrite (Hf (S j) y Hj). apply bool_decide_ext. lia.
Qed.

Lemma segment_head {A} (l : list A) c d : head (drop c (take d l)) = if decide (c < d)%nat then l !! c else None.
Proof.
  rewrite head_lookup, lookup_drop, Nat.add_0_r. destruct (decide (c < d)%nat).
  - by rewrite lookup_take_lt.
  - by rewrite lookup_take_ge by lia.
Qed.

Lemma segment_last {A} (l : list A) c d :
  (d <= length l)%nat -> last (drop c (take d l)) = if decide (c < d)%nat then l !! (d - 1)%nat else None.
Proof.
  intros Hd. rewrite last_lookup, length_drop, length_take, Nat.min_l, lookup_drop by lia. destruct (decide (c < d)%nat).
  - rewrite lookup_take_lt by lia. f_equal. lia.
  - by rewrite lookup_take_ge by lia.
Qed.

(** ** Searching the ends of a range *)

Section InRange.
Context (h : heap) (zsl : zskiplist) (N : list (addr * elt)) (Hrep : repr h zsl N).
Context (gte lte : elt -> bool) (gm lm : zskiplistNode -> bool).
Context (Hgm : forall nd e, ele nd = Some e -> gm nd = gte (score nd, e)).
Context (Hlm : forall nd e, ele nd = Some e -> lm nd = lte (score nd, e)).
Context (Hgte : downclosed N.*2 (fun y => negb (gte y))) (Hlte : downclosed N.*2 lte).
#[local] Set Default Proof Using "Type*".

Definition in_range (n : addr * elt) : bool := gte n.2 && lte n.2.

#[local] Abbreviation c := (count (fun y => negb (gte y)) N.*2).
#[local] Abbreviation d := (count lte N.*2).

Lemma range_index j n : N !! j = Some n -> in_range n = bool_decide (c <= j < d)%nat.
Proof using Hgte Hlte.
  intros Hj. unfold in_range.
  assert (Hj2 : N.*2 !! j = Some n.2) by by rewrite list_lookup_fmap, Hj.
  pose proof (prefix_count _ _ Hgte j n.2 Hj2) as H1. pose proof (prefix_count _ _ Hlte j n.2 Hj2) as H2. cbn in H1.
  apply eq_true_iff_eq. rewrite andb_true_iff, bool_decide_eq_true, H2, bool_decide_eq_true.
  rewrite <- (negb_involutive (gte n.2)), H1, negb_true_iff, bool_decide_eq_false. clear Hgm Hlm. lia.
Qed.

Lemma range_segment : base.filter (fun n => in_range n = true) N = drop c (take d N).
Proof. apply filter_segment, range_index. Qed.

Lemma node_of j n :
  N !! j = Some n -> exists nd, h !! n.1 = Some nd /\ ele nd = Some n.2.2 /\ score nd = n.2.1 /\
    gm nd = gte n.2 /\ lm nd = lte n.2.
Proof.
  intros Hj. destruct (repr_node _ _ _ _ _ Hrep Hj) as (nd & Hnd & He & Hsc & _). exists nd.
  rewrite (Hgm nd n.2.2), (Hlm nd n.2.2), Hsc by done. by destruct n as [? []].
Qed.

Lemma ends_in_range_spec :
  exists b, ends_in_range h zsl gm lm = Some b /\
    (if b then (c < length N)%nat /\ (0 < d)%nat else (d <= c)%nat).
Proof.
  destruct (Hrep) as (P & Hi & HP & _). unfold ends_in_range. rewrite (inv_tail _ _ _ _ Hi).
  destruct (decide (N = [])) as [HN|HN].
  { exists false. rewrite HN. split; [done|cbn; lia]. }
  assert (Hlen : (0 < length N)%nat) by (apply Nat.neq_0_lt_0; by intros ?%nil_length_inv).
  destruct (lookup_lt_is_Some_2 N 0) as [n0 Hn0]; [lia|].
  destruct (lookup_lt_is_Some_2 N (length N - 1)) as [n1 Hn1]; [lia|].
  replace (match N.*2 with [] => None | _ :: _ => addr_at P (length N.*2) end) with (Some n1.1).
  2:{ assert (addr_at P (length N.*2) = Some n1.1) as ->.
      { rewrite length_fmap. replace (length N) with (S (length N - 1)) by lia.
        by rewrite (repr_addr _ _ _ _ Hi HP), list_lookup_fmap, Hn1. }
      by destruct N. }
  destruct (node_of _ _ Hn1) as (nd1 & -> & _ & _ & Hg1 & _). cbn [mbind option_bind]. rewrite Hg1.
  assert (Hn1' : N.*2 !! (length N - 1)%nat = Some n1.2) by by rewrite list_lookup_fmap, Hn1.
  pose proof (prefix_count _ _ Hgte _ _ Hn1') as Hc. cbn in Hc. pose proof (count_le lte N.*2) as Hd. rewrite length_fmap in Hd.
  destruct (gte n1.2); cbn [negb] in *.
  2:{ exists false. split; [done|]. symmetry in Hc. apply bool_decide_eq_true in Hc. lia. }
  symmetry in Hc. apply bool_decide_eq_false in Hc.
  destruct (forward0 _ _ _ _ _ _ Hi (addr_0 _ _ _ _ Hi)) as [sp ->]. cbn [mbind option_bind].
  rewrite (repr_addr _ _ _ _ Hi HP), list_lookup_fmap, Hn0. cbn [fmap option_fmap option_map].
  destruct (node_of _ _ Hn0) as (nd0 & -> & _ & _ & _ & Hl0). cbn [mbind option_bind]. rewrite Hl0.
  assert (Hn0' : N.*2 !! 0%nat = Some n0.2) by by rewrite list_lookup_fmap, Hn0.
  pose proof (prefix_count _ _ Hlte _ _ Hn0') as Hd0. exists (lte n0.2). split; [done|]. rewrite Hd0. case_bool_decide; lia.
Qed.

Lemma first_in_spec : (c < length N)%nat -> first_in h zsl gm lm = Some (fst <$> head (base.filter (fun n => in_range n = true) N)).
Proof.
  intros Hc. destruct (Hrep) as (P & Hi & HP & _). unfold first_in.
  assert (Hsp : splits h P (fun nd _ => negb (gm nd)) c).
  { apply (elt_splits h zsl); [done| |done]. intros nd e t He. by rewrite (Hgm nd e). }
  destruct (search_found _ _ _ _ _ _ Hi Hsp) as (last & update & U & -> & Hlast & _). cbn [mbind option_bind].
  destruct (forward0 _ _ _ _ _ _ Hi Hlast) as [sp ->]. cbn [mbind option_bind].
  destruct (lookup_lt_is_Some_2 N c Hc) as [n Hn]. rewrite (repr_addr _ _ _ _ Hi HP), list_lookup_fmap, Hn. cbn [fmap option_fmap option_map mbind option_bind].
  destruct (node_of _ _ Hn) as (nd & -> & _ & _ & _ & Hl). cbn [mbind option_bind]. rewrite Hl.
  rewrite range_segment, segment_head, Hn. assert (Hn' : N.*2 !! c = Some n.2) by by rewrite list_lookup_fmap, Hn.
  rewrite (prefix_count _ _ Hlte _ _ Hn'). case_bool_decide; case_decide; done || lia.
Qed.

Lemma last_in_spec : (0 < d)%nat -> last_in h zsl gm lm = Some (fst <$> last (base.filter (fun n => in_range n = true) N)).
Proof.
  intros Hd. destruct (Hrep) as (P & Hi & HP & _). unfold last_in. pose proof (count_le lte N.*2) as Hdl. rewrite length_fmap in Hdl.
  assert (Hsp : splits h P (fun nd _ => lm nd) d).
  { apply (elt_splits h zsl); [done| |done]. intros nd e t He. by rewrite (Hlm nd e). }
  destruct (search_found _ _ _ _ _ _ Hi Hsp) as (last & update & U & -> & Hlast & _). cbn [mbind option_bind].
  destruct (lookup_lt_is_Some_2 N (d - 1)) as [n Hn]; [lia|].
  assert (last = n.1) as ->.
  { replace d with (S (d - 1)) in Hlast by lia. rewrite (repr_addr _ _ _ _ Hi HP), list_lookup_fmap, Hn in Hlast. by injection Hlast. }
  destruct (node_of _ _ Hn) as (nd & -> & _ & _ & Hg & _). cbn [mbind option_bind]. rewrite Hg.
  rewrite range_segment, segment_last, Hn by done. assert (Hn' : N.*2 !! (d - 1)%nat = Some n.2) by by rewrite list_lookup_fmap, Hn.
  pose proof (prefix_count _ _ Hgte _ _ Hn') as Hc. cbn in Hc. rewrite <- (negb_involutive (gte n.2)), Hc.
  case_bool_decide; case_decide; done || lia.
Qed.

Lemma no_range : (d <= c)%nat -> base.filter (fun n => in_range n = true) N = [].
Proof. intros Hdc. rewrite range_segment. apply nil_length_inv. rewrite length_drop, length_take. lia. Qed.

End InRange.

(** ** Ranges of scores *)

Lemma elt_lt_score x y : elt_ok x -> elt_ok y -> elt_lt x y = true -> dlt y.1 x.1 = false.
Proof.
  intros Hx Hy. rewrite elt_lt_iff by done. intros Hlt. apply not_true_iff_false. rewrite dlt_key by done.
  rewrite !lex3_lt, key_eq in *. lia.
Qed.

Definition spec_ok (range : zrangespec) : Prop := isnan (min range) = false /\ isnan (max range) = false.

Lemma gte_cases value range :
  isnan value = false -> spec_ok range ->
  zslValueGteMin value range = if minex range then dlt (min range) value else negb (dlt value (min range)).
Proof. intros Hv [Hm _]. unfold zslValueGteMin. by rewrite dle_key. Qed.

Lemma lte_cases value range :
  isnan value = false -> spec_ok range ->
  zslValueLteMax value range = if maxex range then dlt value (max range) else negb (dlt (max range) value).
Proof. intros Hv [_ Hm]. unfold zslValueLteMax. by rewrite dle_key. Qed.

Lemma dlt_mono a b c :
  isnan a = false -> isnan b = false -> isnan c = false -> dlt b a = false ->
  (dlt c a = true -> dlt c b = true) /\ (dlt b c = true -> dlt a c = true).
Proof.
  intros Ha Hb Hc Hba. apply not_true_iff_false in Hba. rewrite !dlt_key, !lex3_lt in * by done. lia.
Qed.

Lemma gte_closed E range : elts_ok E -> spec_ok range -> downclosed E (fun y => negb (zslValueGteMin y.1 range)).
Proof.
  intros HE Hsp i j x y Hij Hx Hy. pose proof (elt_at _ _ _ HE Hx) as Hxo. pose proof (elt_at _ _ _ HE Hy) as Hyo.
  pose proof (elt_lt_score x y Hxo Hyo (sorted_lt _ _ _ _ _ HE Hij Hx Hy)) as Hle. destruct (Hsp) as [Hm _].
  rewrite !gte_cases by done. destruct (dlt_mono x.1 y.1 (min range) Hxo Hyo Hm Hle) as [H1 H2].
  destruct (minex range); rewrite ?negb_involutive; [|auto]. destruct (dlt (min range) x.1); [by rewrite H1|done].
Qed.

Lemma lte_closed E range : elts_ok E -> spec_ok range -> downclosed E (fun y => zslValueLteMax y.1 range).
Proof.
  intros HE Hsp i j x y Hij Hx Hy. pose proof (elt_at _ _ _ HE Hx) as Hxo. pose proof (elt_at _ _ _ HE Hy) as Hyo.
  pose proof (elt_lt_score x y Hxo Hyo (sorted_lt _ _ _ _ _ HE Hij Hx Hy)) as Hle. destruct (Hsp) as [_ Hm].
  rewrite !lte_cases by done. destruct (dlt_mono x.1 y.1 (max range) Hxo Hyo Hm Hle) as [H1 H2].
  destruct (maxex range); [auto|]. destruct (dlt (max range) x.1); [by rewrite H1|done].
Qed.

Definition score_in (range : zrangespec) (n : addr * elt) : bool :=
  in_range (fun y => zslValueGteMin y.1 range) (fun y => zslValueLteMax y.1 range) n.

Lemma empty_range range y :
  spec_ok range -> isnan y = false ->
  dlt (max range) (min range) || (deq (min range) (max range) && (minex range || maxex range)) = true ->
  zslValueGteMin y range && zslValueLteMax y range = false.
Proof.
  intros Hsp Hy. destruct (Hsp) as [Hm HM]. rewrite gte_cases, lte_cases by done.
  rewrite orb_true_iff, andb_true_iff, orb_true_iff, dlt_key, deq_key by done. intros He.
  apply not_true_iff_false. rewrite andb_true_iff. intros [H1 H2].
  assert (H1' : dlt y (min range) = false /\ (minex range = true -> dlt (min range) y = true)).
  { destruct (minex range); [split; [|done]|apply negb_true_iff in H1; done].
    apply not_true_iff_false. rewrite dlt_key, lex3_lt in * by done. lia. }
  assert (H2' : dlt (max range) y = false /\ (maxex range = true -> dlt y (max range) = true)).
  { destruct (maxex range); [split; [|done]|apply negb_true_iff in H2; done].
    apply not_true_iff_false. rewrite dlt_key, lex3_lt in * by done. lia. }
  clear H1 H2. destruct H1' as [H1%not_true_iff_false H1'], H2' as [H2%not_true_iff_false H2'].
  rewrite !dlt_key, !lex3_lt, ?key_eq in * by done.
  destruct He as [He|[He [Hx|Hx]]]; [lia| |]; [specialize (H1' Hx)|specialize (H2' Hx)]; lia.
Qed.

Lemma zslIsInRange_spec h zsl N range :
  repr h zsl N -> spec_ok range ->
  exists b, zslIsInRange h zsl range = Some b /\
    (if b then (count (fun y => negb (zslValueGteMin y.1 range)) N.*2 < length N)%nat /\
               (0 < count (fun y => zslValueLteMax y.1 range) N.*2)%nat
     else base.filter (fun n => score_in range n = true) N = []).
Proof.
  intros Hrep Hsp. destruct (Hrep) as (P & Hi & _). pose proof (inv_elts _ _ _ _ Hi) as HE. unfold zslIsInRange.
  destruct (_ || _) eqn:Hemp.
  { exists false. split; [done|]. apply filter_none, Forall_lookup. intros j n Hj. apply not_true_iff_false.
    apply empty_range; [done| |done]. eapply elt_at; [exact HE|]. by rewrite list_lookup_fmap, Hj. }
  destruct (ends_in_range_spec h zsl N Hrep (fun y => zslValueGteMin y.1 range) (fun y => zslValueLteMax y.1 range) (fun nd => zslValueGteMin (score nd) range) (fun nd => zslValueLteMax (score nd) range)
    ltac:(done) ltac:(done) (gte_closed _ _ HE Hsp) (lte_closed _ _ HE Hsp)) as (b & -> & Hb).
  exists b. split; [done|]. destruct b; [done|].
  by eapply (no_range h zsl N Hrep _ _ (fun nd => zslValueGteMin (score nd) range) (fun nd => zslValueLteMax (score nd) range));
    [| |apply gte_closed|apply lte_closed|].
Qed.

Lemma zsl_score_range h zsl N range :
  repr h zsl N -> spec_ok range ->
  zslFirstInRange h zsl range = Some (fst <$> head (base.filter (fun n => score_in range n = true) N)) /\
  zslLastInRange h zsl range = Some (fst <$> last (base.filter (fun n => score_in range n = true) N)).
Proof.
  intros Hrep Hsp. destruct (Hrep) as (P & Hi & _). pose proof (inv_elts _ _ _ _ Hi) as HE.
  unfold zslFirstInRange, zslLastInRange. destruct (zslIsInRange_spec h zsl N range Hrep Hsp) as (b & -> & Hb).
  cbn [mbind option_bind]. destruct b; [|by rewrite Hb]. destruct Hb as [Hc Hd]. split.
  - eapply first_in_spec; try done; [by apply gte_closed|by apply lte_closed].
  - eapply last_in_spec; try done; [by apply gte_closed|by apply lte_closed].
Qed.

(** ** Lexicographic ranges *)

Lemma sdscmplex_eq a b : sdscmplex a b = 0 <-> a = b.
Proof.
  destruct a, b; cbn; split; try done. - by intros ->%sdscmp_eq. - intros [= ->]. by apply sdscmp_eq.
Qed.

Lemma sdscmplex_antisym a b : sdscmplex b a = - sdscmplex a b.
Proof. destruct a, b; cbn; try done. apply sdscmp_antisym. Qed.

Lemma sdscmplex_trans a b c : sdscmplex a b < 0 -> sdscmplex b c < 0 -> sdscmplex a c < 0.
Proof. destruct a, b, c; cbn; try done. apply sdscmp_trans. Qed.

Lemma sdscmplex_trans_le a b c : sdscmplex a b <= 0 -> sdscmplex b c < 0 -> sdscmplex a c < 0.
Proof.
  intros Hab Hbc. destruct (Z.eq_dec (sdscmplex a b) 0) as [->%sdscmplex_eq|]; [done|].
  apply (sdscmplex_trans a b c); [lia|done].
Qed.

Lemma sdscmplex_trans_le_r a b c : sdscmplex a b < 0 -> sdscmplex b c <= 0 -> sdscmplex a c < 0.
Proof.
  intros Hab Hbc. destruct (Z.eq_dec (sdscmplex b c) 0) as [<-%sdscmplex_eq|]; [done|].
  apply (sdscmplex_trans a b c); [done|lia].
Qed.

(** All elements have the same score. *)
Definition same_scores (E : list elt) : Prop := forall x y, x ∈ E -> y ∈ E -> deq x.1 y.1 = true.

Lemma same_scores_lt E i j x y :
  elts_ok E -> same_scores E -> (i < j)%nat -> E !! i = Some x -> E !! j = Some y -> sdscmplex (lexstr x.2) (lexstr y.2) < 0.
Proof.
  intros HE Hs Hij Hx Hy. pose proof (elt_at _ _ _ HE Hx) as Hxo. pose proof (elt_at _ _ _ HE Hy) as Hyo.
  pose proof (sorted_lt _ _ _ _ _ HE Hij Hx Hy) as Hlt. rewrite elt_lt_iff in Hlt by done.
  pose proof (Hs x y (list_elem_of_lookup_2 _ _ _ Hx) (list_elem_of_lookup_2 _ _ _ Hy)) as He. rewrite deq_key in He by done.
  rewrite lex3_lt, He in Hlt. cbn. lia.
Qed.

Lemma lex_gte_closed E range : elts_ok E -> same_scores E -> downclosed E (fun y => negb (zslLexValueGteMin y.2 range)).
Proof.
  intros HE Hs i j x y Hij Hx Hy. pose proof (same_scores_lt _ _ _ _ _ HE Hs Hij Hx Hy) as Hlt.
  unfold zslLexValueGteMin. rewrite !(sdscmplex_antisym (lmin range)).
  pose proof (fun Hm => sdscmplex_trans_le (lmin range) _ _ Hm Hlt) as Ht. destruct (lminex range); lia.
Qed.

Lemma lex_lte_closed E range : elts_ok E -> same_scores E -> downclosed E (fun y => zslLexValueLteMax y.2 range).
Proof.
  intros HE Hs i j x y Hij Hx Hy. pose proof (same_scores_lt _ _ _ _ _ HE Hs Hij Hx Hy) as Hlt.
  unfold zslLexValueLteMax. pose proof (sdscmplex_trans_le_r _ _ (lmax range) Hlt) as Ht. destruct (lmaxex range); lia.
Qed.

Lemma empty_lex_range range v :
  (0 <? sdscmplex (lmin range) (lmax range)) ||
    ((sdscmplex (lmin range) (lmax range) =? 0) && (lminex range || lmaxex range)) = true ->
  zslLexValueGteMin v range && zslLexValueLteMax v range = false.
Proof.
  unfold zslLexValueGteMin, zslLexValueLteMax. rewrite !(sdscmplex_antisym (lmin range) (lexstr v)). intros He.
  pose proof (sdscmplex_trans_le (lmin range) (lexstr v) (lmax range)) as H1.
  pose proof (sdscmplex_trans_le_r (lmin range) (lexstr v) (lmax range)) as H2.
  pose proof (sdscmplex_eq (lmin range) (lexstr v)) as H3. pose proof (sdscmplex_eq (lexstr v) (lmax range)) as H4.
  pose proof (sdscmplex_eq (lmin range) (lmax range)) as H5.
  assert (H6 : sdscmplex (lmin range) (lexstr v) = 0 -> sdscmplex (lexstr v) (lmax range) = 0 -> sdscmplex (lmin range) (lmax range) = 0).
  { intros ?%H3 ?%H4. apply H5. congruence. }
  clear H3 H4 H5. destruct (lminex range), (lmaxex range); lia.
Qed.

Definition lex_in (range : zlexrangespec) (n : addr * elt) : bool :=
  in_range (fun y => zslLexValueGteMin y.2 range) (fun y => zslLexValueLteMax y.2 range) n.

Lemma lex_gte_node range nd e : ele nd = Some e -> lex_gte range nd = zslLexValueGteMin (score nd, e).2 range.
Proof. unfold lex_gte. by intros ->. Qed.

Lemma lex_lte_node range nd e : ele nd = Some e -> lex_lte range nd = zslLexValueLteMax (score nd, e).2 range.
Proof. unfold lex_lte. by intros ->. Qed.

Lemma zslIsInLexRange_spec h zsl N range :
  repr h zsl N -> same_scores N.*2 ->
  exists b, zslIsInLexRange h zsl range = Some b /\
    (if b then (count (fun y => negb (zslLexValueGteMin y.2 range)) N.*2 < length N)%nat /\
               (0 < count (fun y => zslLexValueLteMax y.2 range) N.*2)%nat
     else base.filter (fun n => lex_in range n = true) N = []).
Proof.
  intros Hrep Hs. destruct (Hrep) as (P & Hi & _). pose proof (inv_elts _ _ _ _ Hi) as HE. unfold zslIsInLexRange.
  destruct (_ || _) eqn:Hemp.
  { exists false. split; [done|]. apply filter_none, Forall_true. intros n. apply not_true_iff_false. by apply empty_lex_range. }
  destruct (ends_in_range_spec h zsl N Hrep (fun y => zslLexValueGteMin y.2 range) (fun y => zslLexValueLteMax y.2 range) _ _
    (lex_gte_node range) (lex_lte_node range) (lex_gte_closed _ _ HE Hs) (lex_lte_closed _ _ HE Hs)) as (b & -> & Hb).
  exists b. split; [done|]. destruct b; [done|].
  by apply (no_range h zsl N Hrep _ _ _ _ (lex_gte_node range) (lex_lte_node range) (lex_gte_closed _ _ HE Hs) (lex_lte_closed _ _ HE Hs)).
Qed.

Lemma zsl_string_range h zsl N range :
  repr h zsl N -> same_scores N.*2 ->
  zslFirstInLexRange h zsl range = Some (fst <$> head (base.filter (fun n => lex_in range n = true) N)) /\
  zslLastInLexRange h zsl range = Some (fst <$> last (base.filter (fun n => lex_in range n = true) N)).
Proof.
  intros Hrep Hs. destruct (Hrep) as (P & Hi & _). pose proof (inv_elts _ _ _ _ Hi) as HE.
  unfold zslFirstInLexRange, zslLastInLexRange. destruct (zslIsInLexRange_spec h zsl N range Hrep Hs) as (b & -> & Hb).
  cbn [mbind option_bind]. destruct b; [|by rewrite Hb]. destruct Hb as [Hc Hd]. split.
  - eapply first_in_spec; try done; [apply lex_gte_node|apply lex_lte_node|by apply lex_gte_closed|by apply lex_lte_closed].
  - eapply last_in_spec; try done; [apply lex_gte_node|apply lex_lte_node|by apply lex_gte_closed|by apply lex_lte_closed].
Qed.

(** C31: [zslFirstInRange] and [zslLastInRange] return the first and the last
    node with a score in the range, with inclusive and exclusive bounds, and
    the null pointer exactly when there is none; [zslFirstInLexRange] and
    [zslLastInLexRange] do so for a range of strings, when all scores are
    equal. *)
Theorem zsl_range h zsl N range lrange :
  repr h zsl N -> spec_ok range ->
  (zslFirstInRange h zsl range = Some (fst <$> head (base.filter (fun n => score_in range n = true) N)) /\
   zslLastInRange h zsl range = Some (fst <$> last (base.filter (fun n => score_in range n = true) N))) /\
  (same_scores N.*2 ->
   zslFirstInLexRange h zsl lrange = Some (fst <$> head (base.filter (fun n => lex_in lrange n = true) N)) /\
   zslLastInLexRange h zsl lrange = Some (fst <$> last (base.filter (fun n => lex_in lrange n = true) N))).
Proof. intros Hrep Hsp. split; [by apply zsl_score_range|]. intros Hs. by apply zsl_string_range. Qed.

(** A sorted set with equal scores. *)
Definition sample_eq : heap * zskiplist * list (addr * elt) := Eval vm_compute in
  default (∅, (zslCreate ∅).1, [])
    (insert_all (zslCreate ∅).2 (zslCreate ∅).1 [threshold; 0; threshold; threshold] []
       [(one, [98]); (one, [99]); (one, [97])]).

Lemma sample_eq_repr : repr sample_eq.1.1 sample_eq.1.2 sample_eq.2.
Proof.
  eapply (insert_all_repr [(one, [98]); (one, [99]); (one, [97])] (zslCreate ∅).2 (zslCreate ∅).1
    [threshold; 0; threshold; threshold] []); [apply zslCreate_repr|by repeat constructor|set_solver| |done|vm_compute; done].
  cbn. apply (bool_decide_unpack _). by vm_compute.
Qed.

Lemma sample_eq_scores : same_scores sample_eq.2.*2.
Proof.
  assert (H : Forall (fun x => x.1 = one) sample_eq.2.*2) by by repeat constructor. rewrite Forall_forall in H.
  intros x y Hx Hy. by rewrite (H x Hx), (H y Hy).
Qed.

Lemma zsl_range_witness :
  let range := {| min := one; max := two; minex := false; maxex := true |} in
  let lrange := {| lmin := lexstr [97]; lmax := maxstring; lminex := true; lmaxex := true |} in
  (zslFirstInRange sample_eq.1.1 sample_eq.1.2 range = Some (sample_eq.2.*1 !! 0%nat) /\
   zslLastInRange sample_eq.1.1 sample_eq.1.2 range = Some (sample_eq.2.*1 !! 2%nat)) /\
  zslFirstInLexRange sample_eq.1.1 sample_eq.1.2 lrange = Some (sample_eq.2.*1 !! 1%nat) /\
  zslLastInLexRange sample_eq.1.1 sample_eq.1.2 lrange = Some (sample_eq.2.*1 !! 2%nat).
Proof.
  intros range lrange. destruct (zsl_range sample_eq.1.1 sample_eq.1.2 sample_eq.2 range lrange) as [H1 H2];
    [apply sample_eq_repr|done|]. split; [exact H1|exact (H2 sample_eq_scores)].
Defined.

(** ** Parsing a range of strings *)

(** The items of the documentation; a null byte also ends a [+] or a [-]. *)
Definition valid_item (c : sds) : Prop :=
  exists rest, c = 40 :: rest \/ c = 91 :: rest \/ ((c = 43 :: rest \/ c = 45 :: rest) /\ forall x, head rest = Some x -> x = 0).

(** The strings that an item allows as the minimum, and as the maximum. *)
Definition above_item (c v : sds) : Prop :=
  match c with
  | 40 :: e => sdscmp e v < 0
  | 91 :: e => sdscmp e v <= 0
  | 45 :: _ => True
  | _ => False
  end.
Definition below_item (c v : sds) : Prop :=
  match c with
  | 40 :: e => sdscmp v e < 0
  | 91 :: e => sdscmp v e <= 0
  | 43 :: _ => True
  | _ => False
  end.

Lemma parse_item_cases c :
  (zslParseLexRangeItem c = None /\ ~ valid_item c) \/
  (exists b ex, zslParseLexRangeItem c = Some (b, ex) /\ valid_item c /\
    forall v mx, (zslLexValueGteMin v {| lmin := b; lmax := mx; lminex := ex; lmaxex := ex |} = true <-> above_item c v) /\
                 (zslLexValueLteMax v {| lmin := mx; lmax := b; lminex := ex; lmaxex := ex |} = true <-> below_item c v)).
Proof.
  unfold zslParseLexRangeItem, zslLexValueGteMin, zslLexValueLteMax, valid_item, char_at.
  destruct c as [|c0 c]; [left; split; [done|]; intros (r & [?|[?|[[?|?] _]]]); done|]. cbn [nth drop lminex lmaxex lmin lmax].
  destruct (Z.eqb_spec c0 43) as [->|H1]; [|destruct (Z.eqb_spec c0 45) as [->|H2]].
  1,2: destruct c as [|c1 c]; cbn [nth]; [|destruct (Z.eqb_spec c1 0) as [->|Hc1]].
  1,2,4,5: right; eexists _, _; split; [done|]; split; [eexists; right; right; split; [eauto|by intros ? [= <-]]|done].
  1,2: left; split; [done|]; intros (r & [[=]|[[=]|[[[= <-]|[= <-]] Hx]]]); by apply Hc1, Hx.
  destruct (Z.eqb_spec c0 40) as [->|H3]; [|destruct (Z.eqb_spec c0 91) as [->|H4]].
  - right. eexists _, _. split; [done|]. split; [eauto|]. intros v mx. cbn. rewrite drop_0, (sdscmp_antisym c v). lia.
  - right. eexists _, _. split; [done|]. split; [eauto|]. intros v mx. cbn. rewrite drop_0, (sdscmp_antisym c v). lia.
  - left. split; [done|]. intros (r & [[= ?]|[[= ?]|[[[= ?]|[= ?]] Hx]]]); congruence.
Qed.

(** [zslParseLexRange] fails exactly when an argument is an integer or is
    not a valid item; otherwise the range it gives has the strings between
    the items: a parenthesis excludes its string, a bracket includes it, [-]
    and [+] are below and above all strings. *)
Theorem zslParseLexRange_correct mn mx :
  match zslParseLexRange mn mx with
  | None => forall a b, mn = inr a -> mx = inr b -> ~ (valid_item a /\ valid_item b)
  | Some range => exists a b, mn = inr a /\ mx = inr b /\ valid_item a /\ valid_item b /\
      forall v, (zslLexValueGteMin v range = true <-> above_item a v) /\ (zslLexValueLteMax v range = true <-> below_item b v)
  end.
Proof.
  destruct mn as [|a]; [done|]. destruct mx as [|b]; [done|]. cbn [zslParseLexRange].
  destruct (parse_item_cases a) as [[-> Ha]|(ba & exa & -> & Ha & Hva)]; cbn [mbind option_bind].
  { intros ? ? [= ->] _ [? _]. done. }
  destruct (parse_item_cases b) as [[-> Hb]|(bb & exb & -> & Hb & Hvb)]; cbn [mbind option_bind].
  { intros ? ? _ [= ->] [_ ?]. done. }
  exists a, b. do 4 (split; [done|]). intros v. split; [apply (Hva v bb)|apply (Hvb v ba)].
Qed.

End SlRange.
