(* ===== verification/Zset.v ===== *)
(** * Sorted sets (src/redis-7.2.4/src/t_zset.c, server.c)

    A sorted set in the skip list encoding: the skip list and a dictionary
    from the elements to their nodes, whose scores the dictionary points to.
    The scores are read through these pointers, from the heap of the nodes.
    The functions get the results of [random()] as a list and
    [dict_can_resize]; the type of the dictionary is a parameter.  The branches for
    the listpack encoding are not modelled. *)

From stdpp Require Import gmap.
From Stdlib Require Import SpecFloat.
From S2P Require Import Prelude.
From S2P Require Import Dict.
From S2P Require Import Skiplist.
Import Dict Skiplist.

Module Zset.

(** The flags of [zsetAdd]. *)
Abbreviation ZADD_IN_NONE := 0.
Abbreviation ZADD_IN_INCR := 1.
Abbreviation ZADD_IN_NX := 2.
Abbreviation ZADD_IN_XX := 4.
Abbreviation ZADD_IN_GT := 8.
Abbreviation ZADD_IN_LT := 16.
Abbreviation ZADD_OUT_NOP := 1.
Abbreviation ZADD_OUT_NAN := 2.
Abbreviation ZADD_OUT_ADDED := 4.
Abbreviation ZADD_OUT_UPDATED := 8.

Record zset := { zdict : dict sds addr; zsl : zskiplist; zheap : heap }.

Definition set_dict (z : zset) (d : dict sds addr) : zset := {| zdict := d; zsl := zsl z; zheap := zheap z |}.

(** [score += curscore] in binary64, rounded to nearest. *)
Definition dadd (x y : double) : double := SFadd 53 1024 x y.

Section Zset.
Context (ty : dictType sds) (can : dictResizeEnable).

Definition zsetLength (z : zset) : Z := zlength (zsl z).

(** The score that the value of the entry [de] points to. *)
Definition entry_score (z : zset) (de : loc) : option double :=
  e ← entry_at (zdict z) de;
  nd ← zheap z !! e.2;
  Some (score nd).

(** No score is [C_ERR]. *)
Definition zsetScore (z : zset) (member : sds) : option (option double * zset) :=
  '(de, d) ← dictFind ty can (zdict z) member;
  let z := set_dict z d in
  match de with
  | None => Some (None, z)
  | Some de => s ← entry_score z de; Some (Some s, z)
  end.

Definition flag (flags f : Z) : bool := negb (Z.land flags f =? 0).

(** The results: the returned value, [*out_flags], [*newscore] when it is
    assigned, and the set. *)
Definition zsetAdd (z : zset) (rnd : list Z) (s : double) (e : sds) (in_flags : Z) :
    option (Z * Z * option double * zset * list Z) :=
  let incr := flag in_flags ZADD_IN_INCR in
  let nx := flag in_flags ZADD_IN_NX in
  let xx := flag in_flags ZADD_IN_XX in
  let gt := flag in_flags ZADD_IN_GT in
  let lt := flag in_flags ZADD_IN_LT in
  if isnan s then Some (0, ZADD_OUT_NAN, None, z, rnd)
  else
    '(de, d) ← dictFind ty can (zdict z) e;
    let z := set_dict z d in
    match de with
    | Some de =>
        if nx then Some (1, ZADD_OUT_NOP, None, z, rnd)
        else
          curscore ← entry_score z de;
          let s := if incr then dadd s curscore else s in
          if incr && isnan s then Some (0, ZADD_OUT_NAN, None, z, rnd)
          else if (lt && dle curscore s) || (gt && dle s curscore) then Some (1, ZADD_OUT_NOP, None, z, rnd)
          else if negb (deq s curscore) then
            '(znode, h, sl, rnd) ← zslUpdateScore (zheap z) (zsl z) rnd curscore e s;
            d ← dictSetVal (zdict z) de znode;
            Some (1, ZADD_OUT_UPDATED, Some s, {| zdict := d; zsl := sl; zheap := h |}, rnd)
          else Some (1, 0, Some s, z, rnd)
    | None =>
        if negb xx then
          '(znode, h, sl, rnd) ← zslInsert (zheap z) (zsl z) rnd s e;
          '(r, d) ← dictAdd ty can (zdict z) e znode;
          _ ← assertb (match r with DICT_OK => true | DICT_ERR => false end);
          Some (1, ZADD_OUT_ADDED, Some s, {| zdict := d; zsl := sl; zheap := h |}, rnd)
        else Some (1, ZADD_OUT_NOP, None, z, rnd)
    end.

Definition zsetRemoveFromSkiplist (z : zset) (e : sds) : option (Z * zset) :=
  '(de, d) ← dictUnlink ty can (zdict z) e;
  match de with
  | Some de =>
      nd ← zheap z !! de.2;
      '(o, h, sl) ← zslDelete (zheap z) (zsl z) (score nd) e false;
      _ ← assertb (match o with Some _ => true | None => false end);
      Some (1, {| zdict := d; zsl := sl; zheap := h |})
  | None => Some (0, set_dict z d)
  end.

Definition zsetDel (z : zset) (e : sds) : option (Z * zset) :=
  '(r, z) ← zsetRemoveFromSkiplist z e;
  if r =? 0 then Some (0, z)
  else
    resize ← htNeedsResize (zdict z);
    Some (1, if (resize : bool) then set_dict z (dictResize can (zdict z)).2 else z).

(** The rank, or -1, and the score. *)
Definition zsetRank (z : zset) (e : sds) (reverse : bool) : option (Z * option double * zset) :=
  let llen := zsetLength z in
  '(de, d) ← dictFind ty can (zdict z) e;
  let z := set_dict z d in
  match de with
  | Some de =>
      s ← entry_score z de;
      rank ← zslGetRank (zheap z) (zsl z) s e;
      _ ← assertb (negb (rank =? 0));
      Some (if reverse then s64 (llen - rank) else s64 (rank - 1), Some s, z)
  | None => Some (-1, None, z)
  end.

End Zset.

End Zset.
