(* ===== verification/ZsetSpec.v ===== *)
(** * Sorted sets: the dictionary and the skip list agree

    A sorted set stands for a finite map from its elements to their scores.
    The invariant [zset_ok] says that the skip list has the elements of the map
    in their order and that the dictionary has a pointer to the node of every
    element; all operations keep it and compute on the map. *)

From stdpp Require Import gmap.
From Stdlib Require Import SpecFloat.
From S2P Require Import Prelude.
From S2P Require Import Dict.
From S2P Require Import DictSpec.
From S2P Require Import DictMap.
From S2P Require Import Skiplist.
From S2P Require Import SkiplistSpec.
From S2P Require Import SkiplistInv.
From S2P Require Import SkiplistEdit.
From S2P Require Import SkiplistDelete.
From S2P Require Import SkiplistApi.
From S2P Require Import SkiplistRange.
From S2P Require Import Zset.
Import Dict DictSpec DictMap Skiplist SlSpec SlInv SlEdit SlDelete SlApi SlRange Zset.

Module ZsetSpec.

(** ** Maps of the nodes *)

Definition mapof {V} (f : addr * elt -> V) (N : list (addr * elt)) : gmap sds V :=
  list_to_map ((fun n => (n.2.2, f n)) <$> N).

Abbreviation pointers := (mapof fst).
Definition scores (N : list (addr * elt)) : gmap sds double := mapof (fun n => n.2.1) N.

Section Mapof.
Context {V : Type} (f : addr * elt -> V).

Lemma mapof_keys N : ((fun n => (n.2.2, f n)) <$> N).*1 = N.*2.*2.
Proof. induction N; cbn; by f_equal. Qed.

Lemma mapof_cons n N : mapof f (n :: N) = <[n.2.2 := f n]> (mapof f N).
Proof. done. Qed.

Lemma mapof_perm N N' : NoDup N.*2.*2 -> N ≡ₚ N' -> mapof f N = mapof f N'.
Proof. intros Hnd Hp. apply list_to_map_proper; [by rewrite mapof_keys|by rewrite Hp]. Qed.

Lemma mapof_none N e : mapof f N !! e = None <-> (e ∉ N.*2.*2).
Proof. unfold mapof. rewrite <- mapof_keys. apply iff_sym, not_elem_of_list_to_map. Qed.

Lemma mapof_some N e v :
  NoDup N.*2.*2 -> mapof f N !! e = Some v <-> exists j n, N !! j = Some n /\ n.2.2 = e /\ f n = v.
Proof.
  intros Hnd. unfold mapof. rewrite <- elem_of_list_to_map by by rewrite mapof_keys.
  rewrite list_elem_of_fmap. split.
  - intros (n & [= -> ->] & [j Hj]%list_elem_of_lookup). eauto.
  - intros (j & n & Hj & <- & <-). exists n. split; [done|]. by eapply list_elem_of_lookup_2.
Qed.

Lemma delete_perm {A} (l : list A) r x : l !! r = Some x -> l ≡ₚ x :: delete r l.
Proof. intros Hr. rewrite <- (take_drop_middle l r x Hr) at 1. rewrite delete_take_drop. by rewrite Permutation_middle. Qed.

Lemma keys_delete (N : list (addr * elt)) r n : N !! r = Some n -> NoDup N.*2.*2 -> (n.2.2 ∉ (delete r N).*2.*2) /\ NoDup (delete r N).*2.*2.
Proof. intros Hr Hnd. rewrite (delete_perm N r n Hr) in Hnd. by apply NoDup_cons in Hnd. Qed.

Lemma mapof_delete N r n : N !! r = Some n -> NoDup N.*2.*2 -> mapof f (delete r N) = delete n.2.2 (mapof f N).
Proof.
  intros Hr Hnd. destruct (keys_delete N r n Hr Hnd) as [Hn Hnd'].
  rewrite (mapof_perm N (n :: delete r N)) by (done || by apply delete_perm).
  rewrite mapof_cons, delete_insert_id; [done|]. by apply mapof_none.
Qed.

Lemma mapof_insert_after N r n : NoDup N.*2.*2 -> (n.2.2 ∉ N.*2.*2) -> mapof f (insert_after r n N) = <[n.2.2 := f n]> (mapof f N).
Proof.
  intros Hnd Hn. rewrite <- mapof_cons. apply mapof_perm; [|by apply insert_after_perm].
  rewrite insert_after_perm. by apply NoDup_cons.
Qed.

Lemma mapof_size N : NoDup N.*2.*2 -> size (mapof f N) = length N.
Proof. intros Hnd. unfold mapof. rewrite map_size_list_to_map by by rewrite mapof_keys. apply length_fmap. Qed.

End Mapof.

(** ** The invariant *)

Section Spec.
Context (ty : dictType sds) `{!DictLaws ty} (can : dictResizeEnable).
#[local] Set Default Proof Using "Type*".

Record zset_ok (z : zset) (N : list (addr * elt)) : Prop := {
  ok_repr : repr (zheap z) (zsl z) N;
  ok_dict : wf ty (zdict z);
  ok_map : dict_map (zdict z) = pointers N;
  ok_keys : NoDup N.*2.*2;
}.

Lemma set_dict_ok z N d : zset_ok z N -> wf ty d -> dict_map d = dict_map (zdict z) -> zset_ok (set_dict z d) N.
Proof. intros [H1 H2 H3 H4] Hd Hm. split; [done|done|exact (eq_trans Hm H3)|done]. Qed.

(** What a lookup of an element gives. *)
Lemma zset_find z N e :
  zset_ok z N ->
  exists l d, dictFind ty can (zdict z) e = Some (l, d) /\ zset_ok (set_dict z d) N /\
    match l with
    | Some l => exists r a s, N !! r = Some (a, (s, e)) /\ entry_at d l = Some (e, a) /\
        entry_score (set_dict z d) l = Some s /\ scores N !! e = Some s /\ isnan s = false
    | None => scores N !! e = None /\ (e ∉ N.*2.*2)
    end.
Proof.
  intros Hok. destruct (dictFind_spec ty can (zdict z) e (ok_dict _ _ Hok)) as (l & d & Hf & Hwf & Hm & Hl).
  exists l, d. split; [done|]. split; [by apply set_dict_ok|]. pose proof (ok_keys _ _ Hok) as Hnd. rewrite (ok_map _ _ Hok) in Hl.
  destruct l as [l|].
  - destruct Hl as (a & Hat & (r & [a' [s e']] & Hr & He & Ha)%mapof_some); [|done]. cbn in He, Ha. subst e' a'.
    destruct (repr_node _ _ _ _ _ (ok_repr _ _ Hok) Hr) as (nd & Hnd' & _ & Hsc & Hn). cbn in Hnd', Hsc.
    exists r, a, s. split; [done|]. split; [done|]. split; [|split; [|exact Hn]].
    + unfold entry_score. cbn [zdict set_dict zheap]. rewrite Hat. cbn. rewrite Hnd'. cbn. by rewrite Hsc.
    + apply mapof_some; [done|]. by exists r, (a, (s, e)).
  - apply mapof_none in Hl. split; [by apply mapof_none|done].
Qed.

(** ** Reading a score *)

Lemma zsetScore_ok z N member :
  zset_ok z N -> exists z', zsetScore ty can z member = Some (scores N !! member, z') /\ zset_ok z' N.
Proof.
  intros Hok. unfold zsetScore. destruct (zset_find z N member Hok) as (l & d & -> & Hok' & Hl). cbn [mbind option_bind].
  exists (set_dict z d). split; [|done]. destruct l as [l|].
  - destruct Hl as (r & a & s & _ & _ & -> & -> & _). done.
  - by destruct Hl as [-> _].
Qed.

(** ** Adding and updating *)

(** [zsetAdd] on the map of the scores. *)
Definition zadd (M : gmap sds double) (s : double) (e : sds) (in_flags : Z) :
    Z * Z * option double * gmap sds double :=
  let has f := flag in_flags f in
  if isnan s then (0, ZADD_OUT_NAN, None, M)
  else
    match M !! e with
    | Some cur =>
        let s := if has ZADD_IN_INCR then dadd s cur else s in
        if has ZADD_IN_NX then (1, ZADD_OUT_NOP, None, M)
        else if isnan s then (0, ZADD_OUT_NAN, None, M)
        else if (has ZADD_IN_LT && dle cur s) || (has ZADD_IN_GT && dle s cur) then (1, ZADD_OUT_NOP, None, M)
        else if deq s cur then (1, 0, Some s, M)
        else (1, ZADD_OUT_UPDATED, Some s, <[e := s]> M)
    | None => if has ZADD_IN_XX then (1, ZADD_OUT_NOP, None, M) else (1, ZADD_OUT_ADDED, Some s, <[e := s]> M)
    end.

Lemma update_ok z N r a s e ns l rnd lv rest :
  zset_ok z N -> N !! r = Some (a, (s, e)) -> entry_at (zdict z) l = Some (e, a) -> isnan ns = false ->
  Zlen N < 2 ^ 60 -> zslRandomLevel rnd = Some (lv, rest) ->
  exists x h sl rnd' d N', zslUpdateScore (zheap z) (zsl z) rnd s e ns = Some (x, h, sl, rnd') /\
    dictSetVal (zdict z) l x = Some d /\ zset_ok {| zdict := d; zsl := sl; zheap := h |} N' /\
    scores N' = <[e := ns]> (scores N) /\ (length N' <= length N + 1)%nat /\ (rnd' = rnd \/ rnd' = rest).
Proof.
  intros [Hrep Hwf Hm Hnd] Hr Hl Hns Hb Hrnd. destruct (repr_node _ _ _ _ _ Hrep Hr) as (_ & _ & _ & _ & Hs). cbn in Hs.
  destruct (zslUpdateScore_spec _ _ N rnd s e ns lv rest r a s Hrep Hr) as (x & h & sl & rnd' & Hz & Hrep' & Hrest); try done.
  { by apply deq_key. } { lia. }
  destruct (dictSetVal_spec ty (zdict z) l e a x Hwf Hl) as (d & Hd & Hwf' & Hm').
  destruct (keys_delete N r _ Hr Hnd) as [He Hnd']. cbn in He.
  assert (Hins : forall V (f : addr * elt -> V) k n, n.2.2 = e -> mapof f (insert_after k n (delete r N)) = <[e := f n]> (mapof f N)).
  { intros V f k n Hn. rewrite mapof_insert_after by (done || by rewrite Hn).
    rewrite (mapof_delete f N r (a, (s, e))) by done. cbn. by rewrite Hn, insert_delete_eq. }
  eexists x, h, sl, rnd', d, _. split; [done|]. split; [done|]. split.
  - split; [exact Hrep'|done| |].
    + cbn [zdict]. rewrite Hm', Hm. by rewrite Hins.
    + rewrite insert_after_perm. by apply NoDup_cons.
  - unfold scores. rewrite Hins by done. split; [done|]. split; [|done].
    rewrite length_insert_after, length_delete by (by eexists). lia.
Qed.

Lemma add_ok z N s e rnd lv rest :
  zset_ok z N -> isnan s = false -> (e ∉ N.*2.*2) -> Zlen N + 1 < 2 ^ 60 -> zslRandomLevel rnd = Some (lv, rest) ->
  exists x h sl d N', zslInsert (zheap z) (zsl z) rnd s e = Some (x, h, sl, rest) /\
    dictAdd ty can (zdict z) e x = Some (DICT_OK, d) /\ zset_ok {| zdict := d; zsl := sl; zheap := h |} N' /\
    scores N' = <[e := s]> (scores N) /\ (length N' <= length N + 1)%nat.
Proof.
  intros [Hrep Hwf Hm Hnd] Hs He Hb Hrnd.
  destruct (zslInsert_repr _ _ N rnd s e lv rest Hrep Hs) as (x & h & sl & Hz & _ & Hrep'); [|lia|done|].
  { apply Forall_forall. intros y Hy. apply andb_false_intro2, bool_decide_eq_false. cbn. intros <-.
    apply He. apply list_elem_of_fmap. by exists y. }
  assert (Hsz : Zlen (entries (zdict z)) < 2 ^ 60).
  { pose proof (dictSize_map ty (zdict z) Hwf) as Hsz. destruct (Hwf) as ((Hu0 & Hu1 & Hu) & _).
    unfold dictSize in Hsz. rewrite Hu0, Hu1 in Hsz. unfold entries in *. rewrite Zlen_app in *.
    rewrite uwrap_small in Hsz by lia. rewrite Hm, mapof_size in Hsz by done. lia. }
  destruct (dictAdd_spec ty can (zdict z) e x Hwf Hsz) as (d & Hwf' & Hd).
  rewrite Hm, (proj2 (mapof_none fst N e) He) in Hd. destruct Hd as [Hd Hm'].
  eexists x, h, sl, d, _. split; [done|]. split; [done|]. split.
  - split; [exact Hrep'|done| |].
    + cbn [zdict]. by rewrite Hm', mapof_insert_after.
    + rewrite insert_after_perm. by apply NoDup_cons.
  - unfold scores. rewrite mapof_insert_after by done. split; [done|]. rewrite length_insert_after. lia.
Qed.

Lemma zsetAdd_ok z N rnd s e in_flags lv rest :
  zset_ok z N -> Zlen N + 1 < 2 ^ 60 -> zslRandomLevel rnd = Some (lv, rest) ->
  exists ret out newscore z' rnd' N', zsetAdd ty can z rnd s e in_flags = Some (ret, out, newscore, z', rnd') /\
    zset_ok z' N' /\ (ret, out, newscore, scores N') = zadd (scores N) s e in_flags /\
    (length N' <= length N + 1)%nat /\ (rnd' = rnd \/ rnd' = rest).
Proof.
  intros Hok Hb Hrnd. unfold zsetAdd, zadd.
  assert (Hsame : forall (ret out : Z) (ns : option double) z1, zset_ok z1 N ->
    exists ret' out' ns' z' rnd' N', Some (ret, out, ns, z1, rnd) = Some (ret', out', ns', z', rnd') /\
      zset_ok z' N' /\ (ret', out', ns', scores N') = (ret, out, ns, scores N) /\
      (length N' <= length N + 1)%nat /\ (rnd' = rnd \/ rnd' = rest)).
  { intros ret out ns z1 Hz1. eexists _, _, _, _, _, N. split; [done|]. split; [done|]. split; [done|]. split; [lia|by left]. }
  destruct (isnan s) eqn:Hs; [by apply Hsame|].
  destruct (zset_find z N e Hok) as (l & d & -> & Hok' & Hl). cbn [mbind option_bind]. destruct l as [l|].
  - destruct Hl as (r & a & cur & Hr & Hat & -> & -> & Hcur). destruct (flag in_flags ZADD_IN_NX); [by apply Hsame|].
    cbn [mbind option_bind]. set (s' := if flag in_flags ZADD_IN_INCR then dadd s cur else s).
    replace (flag in_flags ZADD_IN_INCR && isnan s') with (isnan s')
      by (unfold s'; destruct (flag in_flags ZADD_IN_INCR); [done|by rewrite Hs]).
    destruct (isnan s') eqn:Hs'; [by apply Hsame|]. destruct (_ || _); [by apply Hsame|].
    destruct (deq s' cur); cbn [negb]; [by apply Hsame|].
    destruct (update_ok (set_dict z d) N r a cur e s' l rnd lv rest) as (x & h & sl & rnd' & d' & N' & -> & Hd & Hok2 & Hsc & Hlen);
      try done; [lia|]. cbn [mbind option_bind]. rewrite Hd. cbn [mbind option_bind].
    eexists _, _, _, _, _, N'. split; [done|]. split; [done|]. by rewrite Hsc.
  - destruct Hl as [-> He]. destruct (flag in_flags ZADD_IN_XX); cbn [negb]; [by apply Hsame|].
    destruct (add_ok (set_dict z d) N s e rnd lv rest) as (x & h & sl & d' & N' & -> & Hd & Hok2 & Hsc & Hlen); try done.
    cbn [mbind option_bind]. rewrite Hd. cbn. eexists _, _, _, _, _, N'. split; [done|]. split; [done|]. rewrite Hsc. auto.
Qed.

(** C16: [zsetAdd] computes on the map of the scores what its flags say, for
    every combination of them: the returned value, the output flags, the new
    score and the scores of all elements are those of [zadd]; it always
    returns, and the dictionary and the skip list agree again. *)
Theorem zsetAdd_refines z N rnd s e in_flags lv rest :
  zset_ok z N -> Zlen N + 1 < 2 ^ 60 -> zslRandomLevel rnd = Some (lv, rest) ->
  exists ret out newscore z' rnd' N', zsetAdd ty can z rnd s e in_flags = Some (ret, out, newscore, z', rnd') /\
    zset_ok z' N' /\ (ret, out, newscore, scores N') = zadd (scores N) s e in_flags.
Proof.
  intros Hok Hb Hrnd. destruct (zsetAdd_ok z N rnd s e in_flags lv rest Hok Hb Hrnd) as (ret & out & ns & z' & rnd' & N' & ? & ? & ? & _).
  by exists ret, out, ns, z', rnd', N'.
Qed.

(** ** Deleting *)

Lemma filter_delete_at (N : list (addr * elt)) r a s e :
  NoDup N.*2.*2 -> N !! r = Some (a, (s, e)) -> isnan s = false ->
  base.filter (fun n => elt_eq n.2 (s, e) = false) N = delete r N.
Proof.
  intros Hnd Hr Hs. symmetry. apply (delete_filter (fun n => elt_eq n.2 (s, e))); [|by eapply lookup_lt_Some].
  intros j n Hj. split.
  - intros [_ He%bool_decide_eq_true]%andb_true_iff. cbn in He. eapply (NoDup_lookup N.*2.*2); [done| |].
    + rewrite !list_lookup_fmap, Hj. cbn. by rewrite He.
    + by rewrite !list_lookup_fmap, Hr.
  - intros ->. rewrite Hr in Hj. injection Hj as <-. by apply elt_eq_refl.
Qed.

Lemma zsetRemoveFromSkiplist_ok z N e :
  zset_ok z N ->
  exists z' N', zsetRemoveFromSkiplist ty can z e = Some (match scores N !! e with Some _ => 1 | None => 0 end, z') /\
    zset_ok z' N' /\ scores N' = delete e (scores N) /\ (length N' <= length N)%nat.
Proof.
  intros Hok. destruct (Hok) as [Hrep Hwf Hm Hnd]. unfold zsetRemoveFromSkiplist, dictUnlink.
  destruct (dictGenericDelete_spec ty can (zdict z) e Hwf) as (d & -> & Hwf' & Hm'). cbn [mbind option_bind]. rewrite Hm in *.
  destruct (pointers N !! e) as [a|] eqn:Hp; cbn [fmap option_fmap option_map].
  - apply mapof_some in Hp as (r & [a' [s e']] & Hr & He & Ha); [|done]. cbn in He, Ha. subst a' e'.
    destruct (repr_node _ _ _ _ _ Hrep Hr) as (nd & Hh & _ & Hsc & Hs). cbn in Hh, Hsc, Hs.
    cbn [snd]. rewrite Hh. cbn [mbind option_bind]. rewrite Hsc.
    destruct (zslDelete_repr _ _ _ s e Hrep Hs) as (o & h & sl & -> & Hrep' & Ho). cbn [mbind option_bind].
    destruct o as [x|].
    2:{ exfalso. destruct (proj2 Ho) as [? ?]; [|done]. exists (s, e). split; [|by apply elt_eq_refl].
        apply list_elem_of_fmap. exists (a, (s, e)). split; [done|]. by eapply list_elem_of_lookup_2. }
    cbn [assertb mbind option_bind]. rewrite (filter_delete_at N r a) in Hrep' by done.
    assert (scores N !! e = Some s) as -> by (apply mapof_some; [done|by exists r, (a, (s, e))]).
    eexists _, (delete r N). split; [done|]. split; [|split].
    + split; [done|done| |by eapply keys_delete]. cbn [zdict]. rewrite Hm'. by rewrite (mapof_delete fst N r _ Hr).
    + unfold scores. by rewrite (mapof_delete _ N r _ Hr).
    + rewrite length_delete by (by eexists). lia.
  - apply mapof_none in Hp as He. assert (scores N !! e = None) as Hn by by apply mapof_none. rewrite Hn.
    exists (set_dict z d), N. split; [done|]. split; [|by rewrite delete_id].
    apply set_dict_ok; [done|done|]. rewrite Hm', Hm. by apply delete_id.
Qed.

Lemma htNeedsResize_ok z N : zset_ok z N -> Zlen N < 2 ^ 56 -> exists b, htNeedsResize (zdict z) = Some b.
Proof.
  intros [Hrep Hwf Hm Hnd] Hb. unfold htNeedsResize. rewrite (dictSize_map ty) by done. rewrite Hm, mapof_size by done.
  destruct (_ <? _); [|by eexists]. rewrite (swrap_small 64 (Z.of_nat _)) by lia. rewrite (swrap_small 64 (Z.of_nat _ * 100)) by lia.
  rewrite Z.eqb_refl. cbn. by eexists.
Qed.

(** [zsetDel] deletes exactly the element, answers whether it was there,
    and shrinks the dictionary without losing another one. *)
Lemma zsetDel_ok z N e :
  zset_ok z N -> Zlen N < 2 ^ 56 ->
  exists z' N', zsetDel ty can z e = Some (match scores N !! e with Some _ => 1 | None => 0 end, z') /\
    zset_ok z' N' /\ scores N' = delete e (scores N) /\ (length N' <= length N)%nat.
Proof.
  intros Hok Hb. unfold zsetDel. destruct (zsetRemoveFromSkiplist_ok z N e Hok) as (z' & N' & -> & Hok' & Hsc & Hl).
  cbn [mbind option_bind]. destruct (scores N !! e); cbn [Z.eqb]; [|by exists z', N'].
  destruct (htNeedsResize_ok z' N' Hok') as [b ->]; [lia|]. cbn [mbind option_bind].
  eexists _, N'. split; [done|]. split; [|done]. destruct b; [|done].
  destruct (dictResize_spec ty can (zdict z')) as [Hw Hm]; [apply (ok_dict _ _ Hok')|]. by apply set_dict_ok.
Qed.

(** ** Ranks *)

Lemma scores_count (g : elt -> bool) N :
  NoDup N.*2.*2 -> size (base.filter (fun kv => g (kv.2, kv.1) = true) (scores N)) = count g N.*2.
Proof.
  unfold scores, count. induction N as [|[a [s e]] N IH]; [done|]. intros [He Hnd]%NoDup_cons. cbn [fst snd] in He.
  rewrite mapof_cons. cbn [fst snd]. rewrite !fmap_cons, filter_cons. cbn [fst snd]. pose proof (proj2 (mapof_none (fun n => n.2.1) N e) He) as Hn.
  destruct (decide (g (s, e) = true)) as [Hg|Hg].
  - rewrite map_filter_insert_True by done. rewrite map_size_insert_None, IH; [done|done|].
    apply map_lookup_filter_None. by left.
  - rewrite map_filter_insert_False by done. rewrite delete_id by done. by apply IH.
Qed.

Lemma count_after E r x : elts_ok E -> E !! r = Some x -> count (elt_lt x) E = (length E - S r)%nat.
Proof.
  intros [Hok Hs] Hr. rewrite <- (take_drop_middle _ _ _ Hr) in Hok, Hs |- *. set (l1 := take r E) in *. set (l2 := drop (S r) E) in *.
  assert (Hl1 : length l1 = r) by (apply length_take_le; apply lookup_lt_Some in Hr; lia).
  apply Forall_app in Hok as [Hok1 Hok2]. apply Forall_cons in Hok2 as [Hx Hok2].
  apply StronglySorted_app in Hs as (H12 & H1 & H2). apply StronglySorted_cons in H2 as [Hx2 H2].
  unfold count. rewrite filter_app, filter_cons, elt_lt_irrefl, decide_False, (filter_none _ l1), (filter_all _ l2); try done.
  - rewrite !length_app. cbn [length app]. lia.
  - apply Forall_forall. intros y Hy Hxy. rewrite Forall_forall in Hok1.
    pose proof (elt_lt_trans x y x Hx (Hok1 y Hy) Hx Hxy (H12 y x Hy ltac:(by left))) as Hxx. by rewrite elt_lt_irrefl in Hxx.
Qed.

(** The number of elements before, or after, the element in the order of the
    scores and the elements, and its score. *)
Definition zrank (M : gmap sds double) (e : sds) (reverse : bool) : Z * option double :=
  match M !! e with
  | Some s =>
      let other (kv : sds * double) := if reverse then elt_lt (s, e) (kv.2, kv.1) else elt_lt (kv.2, kv.1) (s, e) in
      (Z.of_nat (size (base.filter (fun kv => other kv = true) M)), Some s)
  | None => (-1, None)
  end.

(** [zsetRank] returns the number of elements before the element, or
    after it when [reverse] is set, and its score; -1 when it is absent. *)
Lemma zsetRank_ok z N e reverse :
  zset_ok z N -> Zlen N < 2 ^ 63 ->
  exists z', zsetRank ty can z e reverse = Some (zrank (scores N) e reverse, z') /\ zset_ok z' N.
Proof.
  intros Hok Hb. unfold zsetRank, zrank. destruct (zset_find z N e Hok) as (l & d & -> & Hok' & Hl). cbn [mbind option_bind].
  exists (set_dict z d). split; [|done]. destruct l as [l|]; [|by destruct Hl as [-> _]].
  destruct Hl as (r & a & s & Hr & _ & -> & -> & Hs). cbn [mbind option_bind].
  destruct Hok as [Hrep Hwf Hm Hnd]. cbn [set_dict zheap zsl]. rewrite (zslGetRank_repr _ _ N s e Hrep Hs). cbn [mbind option_bind].
  destruct (Hrep) as (P & Hi & _). pose proof (inv_elts _ _ _ _ Hi) as HE.
  assert (Hr2 : N.*2 !! r = Some (s, e)) by by rewrite list_lookup_fmap, Hr.
  pose proof (rank_present _ (s, e) r (s, e) HE Hs Hr2 (elt_eq_refl (s, e) Hs)) as Hrank.
  unfold present. rewrite <- Hrank, Hr2, elt_eq_refl by done. rewrite (proj2 (Z.eqb_neq _ _)) by lia. cbn [negb assertb mbind option_bind].
  unfold zsetLength. rewrite (inv_length _ _ _ _ Hi), length_fmap. apply lookup_lt_Some in Hr. destruct reverse.
  - rewrite (scores_count (elt_lt (s, e))) by done. rewrite (count_after _ r) by done. rewrite length_fmap, swrap_small by lia.
    do 3 f_equal. lia.
  - rewrite (scores_count (fun x => elt_lt x (s, e))) by done. rewrite swrap_small by lia. unfold rank_of in Hrank. do 3 f_equal. lia.
Qed.

End Spec.

(** ** Sorted sets built by additions *)

Definition sds_type : dictType sds :=
  {| hashFunction := fun k => foldl (fun a b => (31 * a + b) mod 2 ^ 64) 5381 k; keyCompare := fun a b => bool_decide (a = b);
     expandAllowed := None |}.

#[export] Instance sds_type_laws : DictLaws sds_type.
Proof.
  split; [|intros k k'; apply bool_decide_eq_true]. intros k. cbn. destruct k as [|k x] using rev_ind; [done|].
  rewrite foldl_app. cbn. by apply Z.mod_pos_bound.
Qed.

Definition zset_create : zset := {| zdict := dictCreate; zsl := (zslCreate ∅).1; zheap := (zslCreate ∅).2 |}.

Definition heights : list Z := [threshold; 0; threshold; threshold; 0; 0; threshold; threshold].

Definition zset_of (es : list elt) : zset :=
  default zset_create (fst <$> foldl (fun oz x =>
    '(z, rnd) ← oz; '(_, _, _, z, rnd) ← zsetAdd sds_type DICT_RESIZE_ENABLE z rnd x.1 x.2 ZADD_IN_NONE; Some (z, rnd))
    (Some (zset_create, heights)) es).

Definition nodes_in (es : list elt) : list (addr * elt) :=
  default [] (snd <$> insert_all (zslCreate ∅).2 (zslCreate ∅).1 heights [] es).

Definition five : list elt := [(two, [98]); (one, [99]); (one, [97]); (S754_infinity true, [122]); (two, [97; 97])].
Definition zsample : zset := Eval vm_compute in zset_of five.
Definition znodes : list (addr * elt) := Eval vm_compute in nodes_in five.

Lemma zsample_ok : zset_ok sds_type zsample znodes.
Proof.
  split.
  - eapply (insert_all_repr five (zslCreate ∅).2 (zslCreate ∅).1 heights []);
      [apply zslCreate_repr|by repeat constructor|set_solver| |done|vm_compute; done].
    apply (bool_decide_unpack _). by vm_compute.
  - apply rehashing_wf; [by vm_compute|]. apply (bool_decide_unpack _). by vm_compute.
  - by vm_compute.
  - apply (bool_decide_unpack _). by vm_compute.
Qed.

Lemma zsetAdd_refines_witness :
  exists ret out newscore z' rnd' N',
    zsetAdd sds_type DICT_RESIZE_ENABLE zsample [0; threshold] one [98] ZADD_IN_INCR = Some (ret, out, newscore, z', rnd') /\
    zset_ok sds_type z' N' /\ (ret, out, newscore, scores N') = zadd (scores znodes) one [98] ZADD_IN_INCR.
Proof.
  apply (zsetAdd_refines sds_type DICT_RESIZE_ENABLE zsample znodes [0; threshold] one [98] ZADD_IN_INCR 2 []);
    [apply zsample_ok|by vm_compute|by vm_compute].
Defined.

End ZsetSpec.
