(* ===== verification/ZsetRange.v ===== *)
(** * Deleting ranges of a sorted set

    The loop of the three deletions removes a segment of the sequence from the
    skip list and its elements from the dictionary; the elements of a range
    of scores, of strings (when all scores are equal) or of ranks are such a
    segment. *)

From stdpp Require Import gmap.
From Stdlib Require Import SpecFloat.
From S2P Require Import Prelude.
From S2P Require Import Dict.
From S2P Require Import DictSpec.
From S2P Require Import DictMap.
From S2P Require Import Skiplist.
From S2P Require Import SkiplistSpec.
From S2P Require Import SkiplistInv.
From S2P Require Import SkiplistEdit.
From S2P Require Import SkiplistDelete.
From S2P Require Import SkiplistApi.
From S2P Require Import SkiplistRange.
From S2P Require Import Zset.
From S2P Require Import ZsetSpec.
Import Dict DictSpec DictMap Skiplist SlSpec SlInv SlEdit SlDelete SlApi SlRange Zset ZsetSpec.

Module ZsetRange.

Lemma take_del {A} (l : list A) r : take r (delete r l) = take r l.
Proof.
  apply list_eq. intros i. destruct (decide (i < r)%nat).
  - by rewrite !lookup_take_lt, lookup_del, decide_True by done.
  - by rewrite !lookup_take_ge by lia.
Qed.

Lemma drop_del {A} (l : list A) r k : drop (r + k) (delete r l) = drop (S (r + k)) l.
Proof. apply list_eq. intros i. rewrite !lookup_drop, lookup_del, decide_False by lia. f_equal. Qed.

Lemma filter_outside {A} (f : A -> bool) (l : list A) : forall c d,
  (forall j y, l !! j = Some y -> f y = bool_decide (c <= j < d)%nat) ->
  base.filter (fun y => f y = false) l = take c l ++ drop (c + (d - c)) l.
Proof.
  induction l as [|a l IH]; intros c d Hf; [by destruct c, (_ + _)%nat|]. rewrite filter_cons, (Hf 0%nat a eq_refl).
  destruct c as [|c].
  - destruct d as [|d].
    + rewrite decide_True by (rewrite bool_decide_eq_false; lia). cbn. f_equal. apply (IH 0%nat 0%nat).
      intros j y Hj. rewrite (Hf (S j) y Hj). apply bool_decide_ext. lia.
    + rewrite decide_False by (rewrite bool_decide_eq_false; lia). rewrite (IH 0%nat d); [cbn; by rewrite Nat.sub_0_r|].
      intros j y Hj. rewrite (Hf (S j) y Hj). apply bool_decide_ext. lia.
  - rewrite decide_True by (rewrite bool_decide_eq_false; lia). cbn [take app]. f_equal. rewrite (IH c (d - 1)%nat).
    + by replace (S c + (d - S c))%nat with (S (c + (d - 1 - c))) by lia.
    + intros j y Hj. rewrite (Hf (S j) y Hj). apply bool_decide_ext. lia.
Qed.

Section Delete.
Context (ty : dictType sds) `{!DictLaws ty} (can : dictResizeEnable).
#[local] Set Default Proof Using "Type*".

(** The nodes of the heap, with their heights. *)
Definition nodes_of (z : zset) (N : list (addr * elt)) (P : shape) : Prop :=
  inv (zheap z) (zsl z) P N.*2 /\ P.*1 = header (zsl z) :: N.*1 /\ forall a, is_Some (zheap z !! a) -> a ∈ P.*1.

(** One round of the loop. *)
Lemma delete_step z N P r n update U :
  zset_ok ty z N -> nodes_of z N P -> stored_at P (zlevel (zsl z)) r update U -> N !! r = Some n ->
  exists h' sl' o d', zslDeleteNode (zheap z) (zsl z) n.1 update = Some (h', sl') /\
    dictDelete ty can (zdict z) n.2.2 = Some (o, d') /\
    let z' := {| zdict := d'; zsl := sl'; zheap := zslFreeNode h' n.1 |} in
    zset_ok ty z' (delete r N) /\ nodes_of z' (delete r N) (delete (S r) P) /\
    stored_at (delete (S r) P) (zlevel sl') r update U.
Proof.
  intros Hok (Hi & HP & Hdom) Hst Hr. destruct (Hok) as [Hrep Hwf Hm Hnd].
  assert (Hx : addr_at P (S r) = Some n.1) by (rewrite (repr_addr _ _ _ _ Hi HP), list_lookup_fmap, Hr; done).
  destruct (zslDeleteNode_spec _ _ _ _ _ _ _ _ Hi Hx Hst) as (h' & sl' & -> & Hi' & Hhd & Hdom' & _ & Hzl).
  unfold dictDelete. destruct (dictGenericDelete_spec ty can (zdict z) n.2.2 Hwf) as (d' & -> & Hwf' & Hm').
  cbn [mbind option_bind]. eexists h', sl', _, d'. split; [done|]. split; [done|].
  pose proof (not_in_deleted _ _ _ _ _ _ Hi Hx) as Hxd.
  assert (Hn : nodes_of {| zdict := d'; zsl := sl'; zheap := zslFreeNode h' n.1 |} (delete r N) (delete (S r) P)).
  { split; [|split]; cbn [zheap zsl].
    - rewrite list_fmap_delete. by apply inv_free.
    - rewrite !list_fmap_delete, HP, Hhd. done.
    - intros a Ha. unfold zslFreeNode in Ha. destruct (decide (a = n.1)) as [->|Hne].
      + rewrite lookup_delete_eq in Ha. by destruct Ha.
      + rewrite lookup_delete_ne in Ha by done. eapply deleted_nodes; [done| |done]. by apply Hdom, Hdom'. }
  split; [|split; [done|]].
  - split; [by exists (delete (S r) P)|done| |by eapply keys_delete].
    cbn [zdict]. rewrite Hm', Hm. by rewrite (mapof_delete fst N r n Hr).
  - eapply stored_del; [done|by eapply addr_at_lt|done|done].
Qed.

Section Loop.
Context (cond : zskiplistNode -> Z -> bool) (cf : elt -> Z -> bool) (r : nat) (update : list (addr * Z)) (U : nat -> nat).
Context (Hcond : forall nd e t, ele nd = Some e -> cond nd t = cf (score nd, e) t).

Lemma cond_at z N j n t :
  zset_ok ty z N -> N !! j = Some n ->
  exists nd, zheap z !! n.1 = Some nd /\ ele nd = Some n.2.2 /\ cond nd t = cf n.2 t.
Proof.
  intros Hok Hj. destruct (repr_node _ _ _ _ _ (ok_repr _ _ _ Hok) Hj) as (nd & Hnd & He & Hsc & _). exists nd.
  split; [done|]. split; [done|]. rewrite (Hcond nd n.2.2 t He), Hsc. by destruct n as [? []].
Qed.

Lemma delete_loop_ok k : forall z N P fuel t rm,
  zset_ok ty z N -> nodes_of z N P -> stored_at P (zlevel (zsl z)) r update U -> (k < fuel)%nat ->
  (forall i, (i < k)%nat -> exists n, N !! (r + i)%nat = Some n /\ cf n.2 (t + Z.of_nat i) = true) ->
  (forall n, N !! (r + k)%nat = Some n -> cf n.2 (t + Z.of_nat k) = false) ->
  0 <= t -> t + Z.of_nat k < 2 ^ 64 -> 0 <= rm -> rm + Z.of_nat k < 2 ^ 64 ->
  exists h sl d, delete_loop ty can fuel (zheap z) (zsl z) (zdict z) (N.*1 !! r) update cond t rm = Some (rm + Z.of_nat k, h, sl, d) /\
    zset_ok ty {| zdict := d; zsl := sl; zheap := h |} (take r N ++ drop (r + k) N).
Proof.
  induction k as [|k IH]; intros z N P fuel t rm Hok Hn Hst Hfuel Hin Hout Ht0 Ht Hrm0 Hrm;
    (destruct fuel as [|fuel]; [lia|]); cbn [delete_loop]; rewrite list_lookup_fmap.
  - rewrite Z.add_0_r, Nat.add_0_r, take_drop in *. exists (zheap z), (zsl z), (zdict z).
    split; [|by destruct z]. destruct (N !! r) as [n|] eqn:Hr; cbn [fmap option_fmap option_map]; [|done].
    destruct (cond_at z N r n t Hok Hr) as (nd & -> & _ & Hc). cbn [mbind option_bind].
    by rewrite Hc, (Hout n eq_refl).
  - destruct (Hin 0%nat ltac:(lia)) as (n & Hr & Hcf). rewrite Nat.add_0_r in Hr. rewrite Z.add_0_r in Hcf. rewrite Hr.
    destruct (cond_at z N r n t Hok Hr) as (nd & Hnd & He & Hc). cbn [fmap option_fmap option_map].
    rewrite Hnd. cbn [mbind option_bind]. rewrite Hc, Hcf. destruct (Hn) as (Hi & HP & _).
    assert (Hx : addr_at P (S r) = Some n.1) by (rewrite (repr_addr _ _ _ _ Hi HP), list_lookup_fmap, Hr; done).
    destruct (forward0 _ _ _ _ _ _ Hi Hx) as [sp ->]. cbn [mbind option_bind]. rewrite (repr_addr _ _ _ _ Hi HP).
    destruct (delete_step z N P r n update U Hok Hn Hst Hr) as (h' & sl' & o & d' & -> & Hd & Hok' & Hn' & Hst').
    cbn [mbind option_bind]. rewrite He. cbn [mbind option_bind]. rewrite Hd. cbn [mbind option_bind].
    rewrite !uwrap_small by lia.
    assert (N.*1 !! S r = (delete r N).*1 !! r) as -> by by rewrite list_fmap_delete, lookup_del, decide_False by lia.
    destruct (IH _ (delete r N) (delete (S r) P) fuel (t + 1) (rm + 1) Hok' Hn' Hst') as (h & sl & d & Hl & Hok2); [lia| | |lia..|].
    + intros i Hik. destruct (Hin (S i) ltac:(lia)) as (m & Hm & Hcm). exists m.
      rewrite lookup_del, decide_False by lia. replace (S (r + i)) with (r + S i)%nat by lia. split; [done|].
      by replace (t + 1 + Z.of_nat i) with (t + Z.of_nat (S i)) by lia.
    + intros m Hm. rewrite lookup_del, decide_False in Hm by lia. replace (t + 1 + Z.of_nat k) with (t + Z.of_nat (S k)) by lia.
      apply Hout. by replace (r + S k)%nat with (S (r + k)) by lia.
    + exists h, sl, d. rewrite take_del, drop_del in Hok2. replace (r + S k)%nat with (S (r + k)) by lia.
      split; [|done]. rewrite <- Z.add_assoc in Hl. by replace (Z.of_nat (S k)) with (1 + Z.of_nat k) by lia.
Qed.

End Loop.

Section InRange.
Context (z : zset) (N : list (addr * elt)) (Hok : zset_ok ty z N).
Context (gte lte : elt -> bool) (gm lm : zskiplistNode -> bool).
Context (Hgm : forall nd e, ele nd = Some e -> gm nd = gte (score nd, e)).
Context (Hlm : forall nd e, ele nd = Some e -> lm nd = lte (score nd, e)).
Context (Hgte : downclosed N.*2 (fun y => negb (gte y))) (Hlte : downclosed N.*2 lte).

Lemma range_delete :
  exists h sl d,
    ('(x, update) ← descend (zheap z) (fun nd _ => negb (gm nd)) (zlevel (zsl z)) (header (zsl z)) 0;
     '(f, _) ← lvl (zheap z) x 0;
     delete_loop ty can (walk_fuel (zheap z)) (zheap z) (zsl z) (zdict z) f update (fun nd _ => lm nd) 0 0) =
    Some (Zlen (base.filter (fun n => in_range gte lte n = true) N), h, sl, d) /\
    zset_ok ty {| zdict := d; zsl := sl; zheap := h |} (base.filter (fun n => in_range gte lte n = false) N).
Proof.
  destruct (ok_repr _ _ _ Hok) as (P & Hn). destruct (Hn) as (Hi & HP & _). pose proof (inv_bound _ _ _ _ Hi) as Hb.
  assert (Hsp : splits (zheap z) P (fun nd _ => negb (gm nd)) (count (fun y => negb (gte y)) N.*2)).
  { apply (elt_splits (zheap z) (zsl z)); [done| |done]. intros nd e t He. by rewrite (Hgm nd e). }
  destruct (search_found _ _ _ _ _ _ Hi Hsp) as (last & update & U & -> & Hlast & Hlen & Hup). cbn [mbind option_bind].
  destruct (forward0 _ _ _ _ _ _ Hi Hlast) as [sp ->]. cbn [mbind option_bind]. rewrite (repr_addr _ _ _ _ Hi HP).
  rewrite (filter_segment (in_range gte lte) N _ _ (range_index N gte lte Hgte Hlte)), (filter_outside (in_range gte lte) N _ _ (range_index N gte lte Hgte Hlte)).
  set (c := count (fun y => negb (gte y)) N.*2) in *. set (d := count lte N.*2) in *.
  assert (Hd : (d <= length N)%nat) by (unfold d; etrans; [apply count_le|by rewrite length_fmap]).
  destruct (delete_loop_ok (fun nd _ => lm nd) (fun y _ => lte y) c update U (fun nd e _ => Hlm nd e) (d - c) z N P
    (walk_fuel (zheap z)) 0 0) as (h & sl & d' & Hl & Hok'); try done; rewrite ?length_fmap in Hb; try lia.
  - unfold walk_fuel. pose proof (heap_size _ _ _ _ Hi). pose proof (inv_size _ _ _ _ Hi) as Hsz. rewrite length_fmap in Hsz. lia.
  - intros i Hik. destruct (lookup_lt_is_Some_2 N (c + i)) as [n Hin]; [lia|]. exists n. split; [done|].
    rewrite (prefix_count _ _ Hlte (c + i) n.2) by by rewrite list_lookup_fmap, Hin. apply bool_decide_eq_true. fold d. lia.
  - intros n Hin. rewrite (prefix_count _ _ Hlte (c + (d - c)) n.2) by by rewrite list_lookup_fmap, Hin.
    apply bool_decide_eq_false. fold d. lia.
  - exists h, sl, d'. rewrite Hl. split; [|done]. do 4 f_equal. rewrite length_drop, length_take. lia.
Qed.

End InRange.

Lemma rank_delete z N start end_ :
  zset_ok ty z N -> 0 <= start < 2 ^ 32 -> 0 <= end_ < 2 ^ 32 ->
  let r := Nat.min (Z.to_nat (start - 1)) (length N) in
  let k := (Nat.min (Z.to_nat end_) (length N) - r)%nat in
  exists h sl d, zslDeleteRangeByRank ty can (zheap z) (zsl z) start end_ (zdict z) = Some (Z.of_nat k, h, sl, d) /\
    zset_ok ty {| zdict := d; zsl := sl; zheap := h |} (take r N ++ drop (r + k) N).
Proof.
  intros Hok Hst Hen r k. destruct (ok_repr _ _ _ Hok) as (P & Hn). destruct (Hn) as (Hi & HP & _).
  pose proof (inv_bound _ _ _ _ Hi) as Hb. pose proof (inv_size _ _ _ _ Hi) as Hsz. rewrite length_fmap in Hb, Hsz.
  pose proof (inv_level _ _ _ _ Hi) as Hlv. unfold zslDeleteRangeByRank.
  assert (Hsp : splits (zheap z) P (fun _ t => t <? start) r).
  { split; [unfold r; lia|]. intros q a nd Hq Ha _. apply addr_at_lt in Ha. unfold r.
    apply eq_true_iff_eq. rewrite bool_decide_eq_true. lia. }
  destruct (search_found _ _ _ _ _ _ Hi Hsp) as (last & update & U & -> & Hfd). cbn [mbind option_bind].
  destruct (Hfd) as (Hlast & Hlen & Hup). destruct (Hup 0%nat ltac:(lia)) as (H0 & u0 & Hu0 & ->). cbn [mbind option_bind].
  assert (HU0 : U 0%nat = r) by (eapply last_level0; [done| |done]; unfold r; lia). rewrite HU0.
  destruct (forward0 _ _ _ _ _ _ Hi Hlast) as [sp ->]. cbn [mbind option_bind]. rewrite (repr_addr _ _ _ _ Hi HP).
  rewrite uwrap_small by (unfold r; lia).
  destruct (delete_loop_ok (fun _ t => t <=? end_) (fun _ t => t <=? end_) r update U (fun _ _ _ _ => eq_refl) k z N P
    (walk_fuel (zheap z)) (Z.of_nat r + 1) 0) as (h & sl & d & Hl & Hok'); try done; try (unfold k, r; lia).
  - unfold walk_fuel. pose proof (heap_size _ _ _ _ Hi). unfold k. lia.
  - intros i Hik. destruct (lookup_lt_is_Some_2 N (r + i)) as [n Hin]; [unfold k in Hik; lia|]. exists n. split; [done|].
    unfold k in Hik. lia.
  - intros n Hin%lookup_lt_Some. unfold k, r in *. lia.
  - exists h, sl, d. by rewrite Hl.
Qed.

(** What remains without the ranks [start] to [end_], which start at 1. *)
Definition without_ranks {A} (start end_ : nat) (l : list A) : list A :=
  take (start - 1) l ++ drop (Nat.max (start - 1) end_) l.

Lemma without_ranks_eq {A} (l : list A) start end_ :
  let r := Nat.min (start - 1) (length l) in let k := (Nat.min end_ (length l) - r)%nat in
  take r l ++ drop (r + k) l = without_ranks start end_ l /\ k = (length l - length (without_ranks start end_ l))%nat.
Proof.
  intros r k. unfold without_ranks. rewrite length_app, length_take, length_drop. split; [|unfold k, r; lia].
  f_equal.
  - unfold r. destruct (Nat.le_ge_cases (start - 1) (length l)); [by rewrite Nat.min_l|].
    rewrite Nat.min_r, !take_ge by lia. done.
  - destruct (Nat.le_ge_cases (Nat.max (start - 1) end_) (length l)); [f_equal; unfold k, r; lia|].
    rewrite !drop_ge; [done|unfold k, r in *; lia..].
Qed.

Lemma filter_split_length {A} (f : A -> bool) (l : list A) :
  Zlen (base.filter (fun n => f n = true) l) = Zlen l - Zlen (base.filter (fun n => f n = false) l).
Proof using.
  induction l as [|n l IH]; [done|]. rewrite !filter_cons. destruct (f n).
  - rewrite decide_True, decide_False by done. cbn [length]. lia.
  - rewrite decide_False, decide_True by done. cbn [length]. lia.
Qed.

Lemma score_delete z N range :
  zset_ok ty z N -> spec_ok range ->
  let N' := base.filter (fun n => score_in range n = false) N in
  exists h sl d, zslDeleteRangeByScore ty can (zheap z) (zsl z) range (zdict z) = Some (Zlen N - Zlen N', h, sl, d) /\
    zset_ok ty {| zdict := d; zsl := sl; zheap := h |} N'.
Proof.
  intros Hok Hsp N'. destruct (ok_repr _ _ _ Hok) as (P & Hi & _). pose proof (inv_elts _ _ _ _ Hi) as HE.
  unfold N'. rewrite <- filter_split_length. eapply range_delete; try done; [by apply gte_closed|by apply lte_closed].
Qed.


(** ** Sequences of calls *)

Inductive call :=
  | Add (s : double) (e : sds) (in_flags : Z)
  | Del (e : sds)
  | Score (e : sds)
  | Rank (e : sds) (reverse : bool)
  | RemRange (range : zrangespec)
  | Length.

Inductive reply :=
  | added (ret out : Z) (newscore : option double)
  | deleted (ret : Z)
  | scored (s : option double)
  | ranked (rank : Z) (s : option double)
  | removed (n : Z).

Definition exec (z : zset) (rnd : list Z) (c : call) : option (reply * zset * list Z) :=
  match c with
  | Add s e fl => '(ret, out, ns, z, rnd) ← zsetAdd ty can z rnd s e fl; Some (added ret out ns, z, rnd)
  | Del e => '(ret, z) ← zsetDel ty can z e; Some (deleted ret, z, rnd)
  | Score e => '(s, z) ← zsetScore ty can z e; Some (scored s, z, rnd)
  | Rank e rev => '(rank, s, z) ← zsetRank ty can z e rev; Some (ranked rank s, z, rnd)
  | RemRange range =>
      '(n, h, sl, d) ← zslDeleteRangeByScore ty can (zheap z) (zsl z) range (zdict z);
      Some (removed n, {| zdict := d; zsl := sl; zheap := h |}, rnd)
  | Length => Some (removed (zsetLength z), z, rnd)
  end.

Fixpoint run (z : zset) (rnd : list Z) (cs : list call) : option (list reply * zset) :=
  match cs with
  | [] => Some ([], z)
  | c :: cs => '(r, z, rnd) ← exec z rnd c; '(rs, z) ← run z rnd cs; Some (r :: rs, z)
  end.

(** The same calls on a finite map. *)
Definition out_of (range : zrangespec) (s : double) : bool := negb (zslValueGteMin s range && zslValueLteMax s range).

Definition exec_map (M : gmap sds double) (c : call) : reply * gmap sds double :=
  match c with
  | Add s e fl => let '(ret, out, ns, M) := zadd M s e fl in (added ret out ns, M)
  | Del e => (deleted (match M !! e with Some _ => 1 | None => 0 end), delete e M)
  | Score e => (scored (M !! e), M)
  | Rank e rev => (ranked (zrank M e rev).1 (zrank M e rev).2, M)
  | RemRange range =>
      let M' := base.filter (fun kv => out_of range kv.2 = true) M in
      (removed (Z.of_nat (size M) - Z.of_nat (size M')), M')
  | Length => (removed (Z.of_nat (size M)), M)
  end.

Fixpoint run_map (M : gmap sds double) (cs : list call) : list reply * gmap sds double :=
  match cs with
  | [] => ([], M)
  | c :: cs => let '(r, M) := exec_map M c in let '(rs, M) := run_map M cs in (r :: rs, M)
  end.

(** The bounds of a range are numbers; [strtod] results that are not are
    refused when the range is parsed. *)
Definition call_ok (c : call) : Prop := match c with RemRange range => spec_ok range | _ => True end.

(** The number of random heights that can still be drawn. *)
Definition draws (rnd : list Z) : nat := length (base.filter (fun r => (r <? threshold) = false) rnd).

Lemma random_loop_draws rnd : forall lv, (0 < draws rnd)%nat ->
  exists lv' rest, random_loop rnd lv = Some (lv', rest) /\ (draws rnd = S (draws rest))%nat.
Proof using.
  induction rnd as [|x rnd IH]; intros lv Hd; [cbn in Hd; lia|]. unfold draws in *. rewrite filter_cons in *.
  cbn [random_loop]. destruct (x <? threshold); [apply IH; done|]. rewrite decide_True in * by done. by eexists _, _.
Qed.

Lemma random_level_draws rnd : (0 < draws rnd)%nat ->
  exists lv rest, zslRandomLevel rnd = Some (lv, rest) /\ (draws rnd = S (draws rest))%nat.
Proof using.
  intros Hd. unfold zslRandomLevel. destruct (random_loop_draws rnd 1 Hd) as (lv & rest & -> & Hr). cbn. by eexists _, _.
Qed.

Lemma scores_filter (f : double -> bool) N :
  NoDup N.*2.*2 ->
  scores (base.filter (fun n => f n.2.1 = true) N) = base.filter (fun kv => f kv.2 = true) (scores N).
Proof using.
  unfold scores. induction N as [|[a [s e]] N IH]; [done|]. intros [He Hnd]%NoDup_cons. cbn [fst snd] in He.
  rewrite filter_cons. cbn [fst snd]. rewrite mapof_cons. cbn [fst snd]. destruct (decide (f s = true)) as [Hf|Hf].
  - rewrite mapof_cons, map_filter_insert_True by done. cbn [fst snd]. by rewrite IH.
  - rewrite map_filter_insert_False by done. rewrite delete_id; [by apply IH|]. by apply mapof_none.
Qed.

Lemma exec_ok z N rnd c n :
  zset_ok ty z N -> call_ok c -> (length N <= n)%nat -> Z.of_nat n + 1 < 2 ^ 56 -> (0 < draws rnd)%nat ->
  exists z' rnd' N', exec z rnd c = Some ((exec_map (scores N) c).1, z', rnd') /\ zset_ok ty z' N' /\
    scores N' = (exec_map (scores N) c).2 /\ (length N' <= S n)%nat /\ (draws rnd <= S (draws rnd'))%nat.
Proof.
  intros Hok Hc Hn Hb Hd. pose proof (ok_keys _ _ _ Hok) as Hnd. destruct c as [s e fl|e|e|e rev|range|]; cbn [exec exec_map].
  - destruct (random_level_draws rnd Hd) as (lv & rest & Hrnd & Hdr).
    destruct (zsetAdd_ok ty can z N rnd s e fl lv rest Hok ltac:(lia) Hrnd) as (ret & out & ns & z' & rnd' & N' & -> & Hok' & Hz & Hl & Hr).
    rewrite <- Hz. cbn. eexists _, _, N'. do 3 (split; [done|]). split; [lia|]. destruct Hr as [->| ->]; lia.
  - destruct (zsetDel_ok ty can z N e Hok ltac:(lia)) as (z' & N' & -> & Hok' & Hs & Hl). cbn.
    eexists _, _, N'. do 3 (split; [done|]). split; lia.
  - destruct (zsetScore_ok ty can z N e Hok) as (z' & -> & Hok'). cbn. eexists _, _, N. do 3 (split; [done|]). split; lia.
  - destruct (zsetRank_ok ty can z N e rev Hok ltac:(lia)) as (z' & -> & Hok'). cbn [mbind option_bind].
    destruct (zrank (scores N) e rev) as [rk s]. cbn. eexists _, _, N. do 3 (split; [done|]). split; lia.
  - destruct (score_delete z N range Hok Hc) as (h & sl & d & -> & Hok'). cbn [mbind option_bind].
    assert (Hf : base.filter (fun n => score_in range n = false) N = base.filter (fun n => out_of range n.2.1 = true) N).
    { apply list_filter_iff. intros m. unfold score_in, in_range, out_of. by rewrite negb_true_iff. }
    rewrite Hf in *. eexists _, _, _. split; [|split; [done|]].
    + cbn [fst]. rewrite <- scores_filter by done. unfold scores. rewrite !mapof_size by (done || by apply (ok_keys _ _ _ Hok')). done.
    + cbn [snd]. split; [by apply scores_filter|]. split; [|lia]. etrans; [apply length_filter|lia].
  - exists z, rnd, N. split; [|split; [done|]; split; [done|]; split; lia]. cbn [fst].
    unfold scores. rewrite mapof_size by done. unfold zsetLength. destruct (ok_repr _ _ _ Hok) as (P & Hi & _).
    by rewrite (inv_length _ _ _ _ Hi), length_fmap.
Qed.

Lemma run_ok cs : forall z N rnd n,
  zset_ok ty z N -> Forall call_ok cs -> (length N <= n)%nat -> Z.of_nat n + Zlen cs < 2 ^ 56 -> (length cs <= draws rnd)%nat ->
  exists z' N', run z rnd cs = Some ((run_map (scores N) cs).1, z') /\ zset_ok ty z' N' /\ scores N' = (run_map (scores N) cs).2.
Proof.
  induction cs as [|c cs IH]; intros z N rnd n Hok Hc Hn Hb Hd; cbn [run run_map]; [by exists z, N|].
  apply Forall_cons in Hc as [Hc Hcs]. cbn [length] in *.
  destruct (exec_ok z N rnd c n Hok Hc Hn ltac:(lia) ltac:(lia)) as (z1 & rnd1 & N1 & -> & Hok1 & Hs1 & Hl1 & Hd1). cbn [mbind option_bind].
  destruct (IH z1 N1 rnd1 (S n) Hok1 Hcs Hl1 ltac:(lia) ltac:(lia)) as (z' & N' & -> & Hok' & Hs'). cbn [mbind option_bind].
  rewrite Hs1 in *. destruct (exec_map (scores N) c) as [r M]. cbn in *. destruct (run_map M cs) as [rs M']. cbn in *. by exists z', N'.
Qed.

(** C3: every sequence of calls from the empty sorted set, at any random
    heights, runs without a failed assertion, an access to a freed node or
    an endless loop, gives the replies of the same calls on a finite map from
    elements to scores, and keeps the dictionary and the skip list in
    agreement on this map. *)
Theorem zset_run_refines cs rnd :
  Forall call_ok cs -> Zlen cs < 2 ^ 56 -> (length cs <= draws rnd)%nat ->
  exists z N, run zset_create rnd cs = Some ((run_map ∅ cs).1, z) /\ zset_ok ty z N /\ scores N = (run_map ∅ cs).2.
Proof.
  intros Hc Hb Hd. apply (run_ok cs zset_create [] rnd 0); [|done|cbn; lia|lia|done].
  split; [apply zslCreate_repr|apply dictCreate_wf|done|constructor].
Qed.

End Delete.

(** ** Examples *)

Definition same : list elt := [(one, [98]); (one, [99]); (one, [97]); (one, [122]); (one, [97; 97])].
Definition zsample_eq : zset := Eval vm_compute in zset_of same.
Definition znodes_eq : list (addr * elt) := Eval vm_compute in nodes_in same.

Lemma zsample_eq_ok : zset_ok sds_type zsample_eq znodes_eq.
Proof.
  split.
  - eapply (insert_all_repr same (zslCreate ∅).2 (zslCreate ∅).1 heights []);
      [apply zslCreate_repr|by repeat constructor|set_solver| |done|vm_compute; done].
    apply (bool_decide_unpack _). by vm_compute.
  - apply rehashing_wf; [by vm_compute|]. apply (bool_decide_unpack _). by vm_compute.
  - by vm_compute.
  - apply (bool_decide_unpack _). by vm_compute.
Qed.

Lemma zsample_eq_scores : same_scores znodes_eq.*2.
Proof.
  assert (H : Forall (fun x => x.1 = one) znodes_eq.*2) by by repeat constructor. rewrite Forall_forall in H.
  intros x y Hx Hy. by rewrite (H x Hx), (H y Hy).
Qed.


Lemma zset_run_refines_witness :
  let cs := [Add one [98] ZADD_IN_NONE; Add two [97] ZADD_IN_NX; Add one [98] ZADD_IN_INCR; Rank [98] true;
             RemRange {| min := one; max := two; minex := true; maxex := true |}; Del [97]; Length] in
  exists z N, run sds_type DICT_RESIZE_ENABLE zset_create (replicate 7 threshold) cs = Some ((run_map ∅ cs).1, z) /\
    zset_ok sds_type z N /\ scores N = (run_map ∅ cs).2.
Proof.
  intros cs. apply (zset_run_refines sds_type DICT_RESIZE_ENABLE cs (replicate 7 threshold)); [by repeat constructor|by vm_compute|].
  vm_compute. lia.
Defined.

End ZsetRange.
