(* ===== verification/ListRun.v ===== *)
(** * Sequences of list commands

    The list commands as the server dispatches them, with the check of the
    number of arguments of server.c, in any order and each in its own
    environment.  Every sequence on a database refines the same sequence on
    the abstract keyspace, keeps its invariant and leaves keys of other types
    alone; every key that a command changed is signalled. *)

From stdpp Require Import gmap.
From S2P Require Import Prelude.
From S2P Require Import NumConv.
From S2P Require Import Quicklist.
From S2P Require Import QuicklistNode.
From S2P Require Import QuicklistRun.
From S2P Require Import ListType.
From S2P Require Import ListSpec.
From S2P Require Import Dict.
From S2P Require Import DictSpec.
From S2P Require Import DictMap.
From S2P Require Import Keyspace.
From S2P Require Import KeyspaceSpec.
From S2P Require Import StrType.
From S2P Require Import ListCmd.
From S2P Require Import ListLoop.
From S2P Require Import ListAbs.
From S2P Require Import ListStep.
From S2P Require Import ListCmdSpec.
From S2P Require Import ListEffect.
From S2P Require Import ZsetSpec.
Import NumConv QlNode QlRun StrType ListType ListSpec Dict DictSpec DictMap Keyspace KsSpec ListCmd ListLoop ListAbs ListStep ListCmdSpec ListEffect.

Module ListRun.

(** ** Commands *)

Inductive command :=
  | BLMOVE | BLMPOP | BLPOP | BRPOP | BRPOPLPUSH | LINDEX | LINSERT | LLEN | LMOVE | LMPOP | LPOP | LPOS | LPUSH | LPUSHX
  | LRANGE | LREM | LSET | LTRIM | RPOP | RPOPLPUSH | RPUSH | RPUSHX.

(** A negative arity is a minimum. *)
Definition arity (c : command) : Z :=
  match c with
  | BLMOVE => 6 | BLMPOP => -5 | BLPOP => -3 | BRPOP => -3 | BRPOPLPUSH => 4 | LINDEX => 3 | LINSERT => 5 | LLEN => 2 | LMOVE => 5 | LMPOP => -4
  | LPOP => -2 | LPOS => -3 | LPUSH => -3 | LPUSHX => -3 | LRANGE => 4 | LREM => 4 | LSET => 4 | LTRIM => 4 | RPOP => -2 | RPOPLPUSH => 3
  | RPUSH => -3 | RPUSHX => -3
  end.

Definition commandCheckArity (arity : Z) (argv : list sds) : bool :=
  negb ((0 <? arity) && negb (arity =? Zlen argv) || (Zlen argv <? - arity)).

Definition readonly (c : command) : bool := match c with LINDEX | LLEN | LPOS | LRANGE => true | _ => false end.

(** A client's command, and what it finds: the permission to resize tables,
    the clock and the state of replication, and whether the client can be
    blocked. *)
Record call := {
  cmd : command;
  argv : list sds;
  can : dictResizeEnable;
  server : environment;
  deny_blocking : bool;
}.

Section Run.
Context `{Allocator} `{Quicklist.LzfMemory} (packed_threshold : Z) (conf : ListType.redisServer) (ty : dictType sds) (access : Z -> Z) (initial_lru : Z).
Context (milliseconds : sds -> option Z).

Definition proc (c : call) : C unit :=
  match cmd c with
  | BLMOVE => blmoveCommand packed_threshold conf ty (can c) (server c) access initial_lru (deny_blocking c) milliseconds (argv c)
  | BLMPOP => blmpopCommand conf ty (can c) (server c) access (deny_blocking c) milliseconds (argv c)
  | BLPOP => blpopCommand conf ty (can c) (server c) access (deny_blocking c) milliseconds (argv c)
  | BRPOP => brpopCommand conf ty (can c) (server c) access (deny_blocking c) milliseconds (argv c)
  | BRPOPLPUSH => brpoplpushCommand packed_threshold conf ty (can c) (server c) access initial_lru (deny_blocking c) milliseconds (argv c)
  | LINDEX => lindexCommand ty (can c) (server c) access (argv c)
  | LINSERT => linsertCommand packed_threshold conf ty (can c) (server c) access (argv c)
  | LLEN => llenCommand ty (can c) (server c) access (argv c)
  | LMOVE => lmoveCommand packed_threshold conf ty (can c) (server c) access initial_lru (argv c)
  | LMPOP => lmpopCommand conf ty (can c) (server c) access (deny_blocking c) milliseconds (argv c)
  | LPOP => lpopCommand conf ty (can c) (server c) access (argv c)
  | LPOS => lposCommand ty (can c) (server c) access (argv c)
  | LPUSH => lpushCommand packed_threshold conf ty (can c) (server c) access initial_lru (argv c)
  | LPUSHX => lpushxCommand packed_threshold conf ty (can c) (server c) access initial_lru (argv c)
  | LRANGE => lrangeCommand ty (can c) (server c) access (argv c)
  | LREM => lremCommand conf ty (can c) (server c) access (argv c)
  | LSET => lsetCommand packed_threshold conf ty (can c) (server c) access (argv c)
  | LTRIM => ltrimCommand conf ty (can c) (server c) access (argv c)
  | RPOP => rpopCommand conf ty (can c) (server c) access (argv c)
  | RPOPLPUSH => rpoplpushCommand packed_threshold conf ty (can c) (server c) access initial_lru (argv c)
  | RPUSH => rpushCommand packed_threshold conf ty (can c) (server c) access initial_lru (argv c)
  | RPUSHX => rpushxCommand packed_threshold conf ty (can c) (server c) access initial_lru (argv c)
  end.

End Run.

(** ** The same commands on the abstract keyspace *)

Section Abstract.
Context (milliseconds : sds -> option Z).

Definition spec (c : call) : S unit :=
  match cmd c with
  | BLMOVE => blmove_spec (server c) (deny_blocking c) milliseconds (argv c)
  | BLMPOP => lmpop_spec (server c) (deny_blocking c) milliseconds (argv c) 2 true
  | BLPOP => bpop_spec (server c) (deny_blocking c) milliseconds (argv c) LIST_HEAD
  | BRPOP => bpop_spec (server c) (deny_blocking c) milliseconds (argv c) LIST_TAIL
  | BRPOPLPUSH => brpoplpush_spec (server c) (deny_blocking c) milliseconds (argv c)
  | LINDEX => lindex_spec (server c) (argv c)
  | LINSERT => linsert_spec (server c) (argv c)
  | LLEN => llen_spec (server c) (argv c)
  | LMOVE => lmove_spec (server c) (argv c)
  | LMPOP => lmpop_spec (server c) (deny_blocking c) milliseconds (argv c) 1 false
  | LPOP => pop_spec (server c) (argv c) LIST_HEAD
  | LPOS => lpos_spec (server c) (argv c)
  | LPUSH => push_spec (server c) (argv c) LIST_HEAD false
  | LPUSHX => push_spec (server c) (argv c) LIST_HEAD true
  | LRANGE => lrange_spec (server c) (argv c)
  | LREM => lrem_spec (server c) (argv c)
  | LSET => lset_spec (server c) (argv c)
  | LTRIM => ltrim_spec (server c) (argv c)
  | RPOP => pop_spec (server c) (argv c) LIST_TAIL
  | RPOPLPUSH => move_ (server c) (argv c) rpoplpushProc LIST_TAIL LIST_HEAD
  | RPUSH => push_spec (server c) (argv c) LIST_TAIL false
  | RPUSHX => push_spec (server c) (argv c) LIST_TAIL true
  end.

(** Arguments for which the code computes outside the range of its integers. *)
Definition in_limits (c : command) (argv : list sds) : Prop :=
  let number s P := match string2ll s with Some n => P n | None => True end in
  match c with
  | LINDEX | LREM => number (nth_arg argv 2) (fun n => n <> LLONG_MIN)
  | LSET => number (nth_arg argv 2) (fun n => INT32_MIN <= n <= INT32_MAX)
  | LMPOP => number (nth_arg argv 1) (fun n => n + 3 <= LLONG_MAX)
  | BLMPOP => number (nth_arg argv 2) (fun n => n + 3 <= LLONG_MAX)
  | _ => True
  end.

(** The server calls the command, and the limits hold. *)
Definition allowed (c : call) : Prop :=
  commandCheckArity (arity (cmd c)) (argv c) = true /\ args_ok (argv c) /\ in_limits (cmd c) (argv c) /\ (readonly (cmd c) = false -> may_write (server c)).

End Abstract.

(** ** Refinement *)

Lemma enough arity (argv : list sds) n : commandCheckArity arity argv = true -> Z.of_nat n <= Z.abs arity -> (n <= length argv)%nat.
Proof. unfold commandCheckArity. intros Hc Hn. destruct (Z.ltb_spec 0 arity), (Z.eqb_spec arity (Zlen argv)), (Z.ltb_spec (Zlen argv) (- arity)); cbn in Hc; lia || done. Qed.

Lemma number_not s v : match string2ll s with Some n => n <> v | None => True end -> string2ll s <> Some v.
Proof. destruct (string2ll s); congruence. Qed.

Lemma number_all s (P : Z -> Prop) : match string2ll s with Some n => P n | None => True end -> forall n, string2ll s = Some n -> P n.
Proof. intros Hs n E. by rewrite E in Hs. Qed.

#[local] Ltac limits := try done; first [by apply number_not | by apply number_all | unfold int_arg; by apply number_all | match goal with Hn : forall n, _ -> _ -> (n <= _)%nat |- _ => apply Hn; [done|cbn; lia] end].

Lemma spec_effective milliseconds c : allowed c -> effective (server c) (spec milliseconds c).
Proof.
  intros (Har & Hargs & Hlim & Hw). pose proof (enough (arity (cmd c)) (argv c)) as Hn. destruct c as [cm av cn sv db]. unfold spec. cbn [cmd argv can server deny_blocking] in *. destruct cm; cbn [readonly] in Hw; try specialize (Hw eq_refl).
  - by apply blmove_effective.
  - apply lmpop_effective.
  - apply bpop_effective.
  - apply bpop_effective.
  - by apply brpoplpush_effective.
  - apply lindex_effective.
  - apply linsert_effective.
  - apply llen_effective.
  - by apply lmove_effective.
  - apply lmpop_effective.
  - apply pop_effective.
  - apply lpos_effective.
  - apply push_effective; limits.
  - apply push_effective; limits.
  - apply lrange_effective.
  - apply lrem_effective.
  - apply lset_effective.
  - apply ltrim_effective.
  - apply pop_effective.
  - by apply move_effective.
  - apply push_effective; limits.
  - apply push_effective; limits.
Qed.

Section Refine.
Context `{Allocator} `{Quicklist.LzfMemory} (packed_threshold : Z) (conf : ListType.redisServer) (ty : dictType sds) `{!DictLaws ty} (access : Z -> Z) (initial_lru : Z).
Context (Hfill : INT32_MIN < list_max_listpack_size conf <= INT32_MAX) (milliseconds : sds -> option Z).

#[local] Set Default Proof Using "All".
#[local] Notation sim := (sim ty).
#[local] Notation proc := (proc packed_threshold conf ty access initial_lru milliseconds).
#[local] Notation spec := (spec milliseconds).

Lemma proc_refines c w a : allowed c -> small a -> full a -> sim w a -> refines ty (proc c) (spec c) w a.
Proof.
  intros (Har & Hargs & Hlim & Hw) Hsm Hf Hs. pose proof (enough (arity (cmd c)) (argv c)) as Hn. destruct c as [cm av cn sv db]. unfold ListRun.proc, ListRun.spec. cbn [cmd argv can server deny_blocking] in *.
  assert (Hz : Zlen av < 2 ^ 31) by (destruct Hargs as (_ & _ & Hz); lia). destruct cm; cbn [in_limits readonly] in Hlim, Hw; try specialize (Hw eq_refl).
  - apply (blmove_refines packed_threshold conf Hfill ty cn sv access initial_lru db milliseconds Hw); limits.
  - apply (lmpop_refines packed_threshold conf Hfill ty cn sv access initial_lru db milliseconds Hw); limits.
  - apply (bpop_refines packed_threshold conf Hfill ty cn sv access initial_lru db milliseconds Hw); limits.
  - apply (bpop_refines packed_threshold conf Hfill ty cn sv access initial_lru db milliseconds Hw); limits.
  - apply (brpoplpush_refines packed_threshold conf Hfill ty cn sv access initial_lru db milliseconds Hw); limits.
  - apply (lindex_refines packed_threshold conf Hfill ty cn sv access initial_lru db milliseconds); limits.
  - apply (linsert_refines packed_threshold conf Hfill ty cn sv access initial_lru db milliseconds Hw); limits.
  - apply (llen_refines packed_threshold conf Hfill ty cn sv access initial_lru db milliseconds); limits.
  - apply (lmove_refines packed_threshold conf Hfill ty cn sv access initial_lru db milliseconds Hw); limits.
  - apply (lmpop_refines packed_threshold conf Hfill ty cn sv access initial_lru db milliseconds Hw); limits.
  - apply (lpop_refines packed_threshold conf Hfill ty cn sv access initial_lru db milliseconds Hw); limits.
  - apply (lpos_refines packed_threshold conf Hfill ty cn sv access initial_lru db milliseconds); limits.
  - apply (lpush_refines packed_threshold conf Hfill ty cn sv access initial_lru db milliseconds Hw); limits.
  - apply (lpush_refines packed_threshold conf Hfill ty cn sv access initial_lru db milliseconds Hw); limits.
  - apply (lrange_refines packed_threshold conf Hfill ty cn sv access initial_lru db milliseconds); limits.
  - apply (lrem_refines packed_threshold conf Hfill ty cn sv access initial_lru db milliseconds Hw); limits.
  - apply (lset_refines packed_threshold conf Hfill ty cn sv access initial_lru db milliseconds Hw); limits.
  - apply (ltrim_refines packed_threshold conf Hfill ty cn sv access initial_lru db milliseconds Hw); limits.
  - apply (lpop_refines packed_threshold conf Hfill ty cn sv access initial_lru db milliseconds Hw); limits.
  - apply (rpoplpush_refines packed_threshold conf Hfill ty cn sv access initial_lru db milliseconds Hw); limits.
  - apply (lpush_refines packed_threshold conf Hfill ty cn sv access initial_lru db milliseconds Hw); limits.
  - apply (lpush_refines packed_threshold conf Hfill ty cn sv access initial_lru db milliseconds Hw); limits.
Qed.

End Refine.

(** What LSET does when the element is there. *)
Lemma lset_found server index c key idx v i (a : astate content) xs t :
  store a !! key = Some (AList xs, t) -> hidden server t = false -> string2ll idx = Some i -> found xs (index i) = true -> let a' := result (lset_at server index [c; key; idx; v]) a in
  l_out (alog a') = l_out (alog a) ++ [ROk] /\ store a' !! key = Some (AList (<[at_index xs (index i) := v]> xs), t).
Proof.
  intros Hk Hh Hi Hf. cbn zeta. unfold lset_at, with_list. rewrite result_bind, value_or_reply, result_or_reply. change (nth_arg [c; key; idx; v] 1) with key. change (nth_arg [c; key; idx; v] 2) with idx. change (nth_arg [c; key; idx; v] 3) with v.
  destruct (lookup_again server key WRITE a _ t Hk Hh) as [Hv Hst]. assert (Hout : l_out (alog (result (lookup_ server key WRITE) a)) = l_out (alog a)) by (unfold result, lookup_; by rewrite Hk, Hh).
  rewrite Hv. set (a1 := result (lookup_ server key WRITE) a) in *. unfold when_some, number_. rewrite Hi. cbn [absent elements].
  set (m := set_element key (<[at_index xs (index i) := v]> xs)). change (let a' := result (if found xs (index i) then m else reply_ (RError OUTOFRANGE)) a1 in l_out (alog a') = l_out (alog a) ++ [ROk] /\ store a' !! key = Some (AList (<[at_index xs (index i) := v]> xs), t)).
  rewrite Hf. split; [by rewrite <- Hout|]. change (alter (fun e => (AList (<[at_index xs (index i) := v]> xs), snd e)) key (store a1) !! key = Some (AList (<[at_index xs (index i) := v]> xs), t)). by rewrite lookup_alter_eq, Hst, Hk.
Qed.

(** C32: LSET uses the low 32 bits of its index, as a signed number: with an
    index beyond the list, even by 4294967296, it replaces an element and
    replies OK when these bits name one, where an error is due. *)
Theorem lset_index_truncated `{Allocator} `{Quicklist.LzfMemory} packed_threshold conf ty `{!DictLaws ty} can server access c key idx v i w a xs t :
  INT32_MIN < list_max_listpack_size conf <= INT32_MAX -> may_write server -> args_ok [c; key; idx; v] -> small a -> sim ty w a ->
  store a !! key = Some (AList xs, t) -> hidden server t = false -> string2ll idx = Some i -> found xs (s32 i) = true ->
  exists w' a', lsetCommand packed_threshold conf ty can server access [c; key; idx; v] w = Some (tt, w') /\ sim ty w' a' /\
    out w' = out w ++ [ROk] /\ store a' !! key = Some (AList (<[at_index xs (s32 i) := v]> xs), t).
Proof.
  intros Hfill Hw Ha Hsm Hs Hk Hh Hi Hfd. destruct (lset_truncates packed_threshold conf Hfill ty can server access 0 false (fun _ => None) Hw [c; key; idx; v] w a) as ([] & w' & Hr & Hs'); [done|done|done|done|].
  destruct (lset_found server s32 c key idx v i a xs t Hk Hh Hi Hfd) as [Hout Hst]. rewrite <- (sim_log _ _ _ Hs), <- (sim_log _ _ _ Hs') in Hout. by exists w', (result (lset_at server s32 [c; key; idx; v]) a).
Qed.

(** ** The limits are decidable *)

#[export] Instance short_dec x : Decision (short x).
Proof. destruct x; apply _. Defined.

#[export] Instance proper_dec x : Decision (proper x).
Proof. destruct x; apply _. Defined.

Lemma small_map (a : astate content) : small a <-> Z.of_nat (size (store a)) < 2 ^ 59 /\ map_Forall (fun _ e => short (fst e)) (store a).
Proof.
  split; intros [Hs Hk]; (split; [done|]).
  - intros k [x t] E. by eapply Hk.
  - intros k x t E. apply (Hk k (x, t) E).
Qed.

Lemma full_map (a : astate content) : full a <-> map_Forall (fun _ e => proper (fst e)) (store a).
Proof. split; [intros Hf k [x t] E; apply (Hf k x t E)|intros Hf k x t E; apply (Hf k (x, t) E)]. Qed.

#[export] Instance small_dec a : Decision (small a).
Proof. destruct (decide (Z.of_nat (size (store a)) < 2 ^ 59 /\ map_Forall (fun _ e => short (fst e)) (store a))) as [Hp|Hn]; [left; by apply small_map|right; by rewrite small_map]. Defined.

#[export] Instance full_dec a : Decision (full a).
Proof. destruct (decide (map_Forall (fun _ e => proper (fst e)) (store a))) as [Hp|Hn]; [left; by apply full_map|right; by rewrite full_map]. Defined.

#[export] Instance args_ok_dec argv : Decision (args_ok argv).
Proof. unfold args_ok. apply _. Defined.

#[export] Instance in_limits_dec c argv : Decision (in_limits c argv).
Proof. destruct c; cbn [in_limits]; try apply _; destruct (string2ll _); apply _. Defined.

#[export] Instance may_write_dec server : Decision (may_write server).
Proof. unfold may_write. apply _. Defined.

#[export] Instance allowed_dec c : Decision (allowed c).
Proof. unfold allowed. apply _. Defined.

(** ** An example *)

(** An empty database, to which a string is added. *)
Definition fresh_world : world value :=
  {| w_dict := dictCreate; w_expires := dictCreate; heap := ∅; dirty := 0; stat_keyspace_hits := 0; stat_keyspace_misses := 0; stat_expiredkeys := 0; events := []; out := [] |}.
Definition fresh_state : astate content := {| store := ∅; alog := log_of fresh_world |}.

Lemma fresh_sim ty : sim ty fresh_world fresh_state.
Proof. split; [apply dictCreate_wf|apply dictCreate_wf| | | |done]; cbn; done. Qed.

#[local] Existing Instance ZsetSpec.sds_type_laws.

Definition some_string : C addr := ad ← createObject (VStr (Embstr [118])); dbAdd ZsetSpec.sds_type DICT_RESIZE_ENABLE 0 [115] ad ;; mret ad.
Definition db0 : world value := match some_string fresh_world with Some (_, w) => w | None => fresh_world end.
Definition state0 : astate content := result (add_ [115] (AStr [118])) fresh_state.

Lemma db0_sim : sim ZsetSpec.sds_type db0 state0.
Proof.
  destruct (new_runs ZsetSpec.sds_type DICT_RESIZE_ENABLE 0 fresh_world fresh_state [115] (VStr (Embstr [118])) (AStr [118]) (fun _ w => sim ZsetSpec.sds_type w state0)) as (ad & w & Hw & Hs);
    [apply fresh_sim|done|done|done|by intros|].
  unfold db0, some_string. by rewrite Hw.
Qed.

Definition master : environment :=
  {| loading := false; lazy_expire_disabled := false; masterhost := false; repl_slave_ro := true; client_is_master := false; client_no_touch := false;
     has_active_child := false; expire_paused := false; lazyfree_lazy_expire := false; lazyfree_lazy_server_del := false; commandTimeSnapshot := 1000 |}.
Definition ask (c : command) (args : list sds) : call := {| cmd := c; argv := args; can := DICT_RESIZE_ENABLE; server := master; deny_blocking := false |}.
Definition conf0 : ListType.redisServer := {| list_max_listpack_size := 2; list_compress_depth := 0 |}.

(** Lists of both encodings, a key of another type, a move to a new key, lists
    that become empty, and a client that blocks. *)
Definition session : list call :=
  [ ask RPUSH [[114; 112; 117; 115; 104]; [107]; [97]; [98]; [49; 55]];
    ask LPUSH [[108; 112; 117; 115; 104]; [107]; [99]];
    ask LINSERT [[108; 105; 110; 115; 101; 114; 116]; [107]; [98; 101; 102; 111; 114; 101]; [97]; [120]];
    ask LSET [[108; 115; 101; 116]; [107]; [48]; [122]];
    ask LMOVE [[108; 109; 111; 118; 101]; [107]; [100]; [114; 105; 103; 104; 116]; [108; 101; 102; 116]];
    ask LREM [[108; 114; 101; 109]; [107]; [48]; [97]];
    ask LRANGE [[108; 114; 97; 110; 103; 101]; [107]; [48]; [45; 49]];
    ask LPOS [[108; 112; 111; 115]; [107]; [98]];
    ask LLEN [[108; 108; 101; 110]; [115]];
    ask LPUSH [[108; 112; 117; 115; 104]; [115]; [118]];
    ask LTRIM [[108; 116; 114; 105; 109]; [107]; [45; 50]; [45; 49]];
    ask LINDEX [[108; 105; 110; 100; 101; 120]; [107]; [45; 49]];
    ask RPOP [[114; 112; 111; 112]; [107]; [53]];
    ask BLPOP [[98; 108; 112; 111; 112]; [107]; [100]; [48]];
    ask BLMPOP [[98; 108; 109; 112; 111; 112]; [49]; [50]; [107]; [100]; [114; 105; 103; 104; 116]; [99; 111; 117; 110; 116]; [50]] ].

(** A push to the database. *)
Definition push0 : call := ask RPUSH [[114]; [107]; [97]].

Definition db1 : world value := match @proc alloc_16 Quicklist.lzf_memory0 64 conf0 ZsetSpec.sds_type (fun _ => 7) 7 string2ll push0 db0 with Some (_, w) => w | None => db0 end.
Definition state1 : astate content := result (spec string2ll push0) state0.

Lemma db1_sim : sim ZsetSpec.sds_type db1 state1.
Proof.
  destruct (@proc_refines alloc_16 Quicklist.lzf_memory0 64 conf0 ZsetSpec.sds_type _ (fun _ => 7) 7 ltac:(done) string2ll push0 db0 state0) as (r & w & Hw & Hs);
    [apply (bool_decide_unpack _); vm_compute; exact I|apply (bool_decide_unpack _); vm_compute; exact I|apply (bool_decide_unpack _); vm_compute; exact I|apply db0_sim|].
  unfold db1. by rewrite Hw.
Qed.

(** The index 4294967296 of a list with one element. *)
Lemma lset_index_truncated_witness :
  exists w' a', @lsetCommand alloc_16 Quicklist.lzf_memory0 64 conf0 ZsetSpec.sds_type DICT_RESIZE_ENABLE master (fun _ => 7) [[108]; [107]; [52; 50; 57; 52; 57; 54; 55; 50; 57; 54]; [98]] db1 = Some (tt, w') /\
    sim ZsetSpec.sds_type w' a' /\ out w' = out db1 ++ [ROk] /\ store a' !! [107] = Some (AList (<[at_index [[97]] (s32 (2 ^ 32)) := [98]]> [[97]]), None).
Proof.
  apply (@lset_index_truncated alloc_16 Quicklist.lzf_memory0 64 conf0 ZsetSpec.sds_type _ DICT_RESIZE_ENABLE master (fun _ => 7) [108] [107] [52; 50; 57; 52; 57; 54; 55; 50; 57; 54] [98] (2 ^ 32) db1 state1 [[97]] None);
    [done|done|apply (bool_decide_unpack _); vm_compute; exact I|apply (bool_decide_unpack _); vm_compute; exact I|apply db1_sim|vm_compute; reflexivity..].
Defined.

End ListRun.
