(* ===== verification/StrRun.v ===== *)
(** * Any string command

    The table of the string commands: their arities, the functions that they
    call and the abstract commands.  Every command that the server lets pass
    refines the abstract one, and every key that it changes is signalled and
    counted. *)

From stdpp Require Import gmap.
From S2P Require Import Prelude.
From S2P Require Import NumConv.
From S2P Require Import Dict.
From S2P Require Import DictSpec.
From S2P Require Import Keyspace.
From S2P Require Import KeyspaceSpec.
From S2P Require Import StrType.
From S2P Require Import ListCmd.
From S2P Require Import ListAbs.
From S2P Require Import ListStep.
From S2P Require Import ListEffect.
From S2P Require Import ListRun.
From S2P Require Import StrCmd.
From S2P Require Import StrAbs.
From S2P Require Import StrStep.
From S2P Require Import StrCmdSpec.
From S2P Require Import Lcs.
From S2P Require Import LcsCmd.
From S2P Require Import StrEffect.
Import NumConv Dict DictSpec Keyspace KsSpec StrType ListCmd ListAbs ListStep ListEffect StrCmd StrAbs StrStep StrCmdSpec LcsCmd StrEffect.

Module StrRun.

Inductive command :=
  | APPEND | DECR | DECRBY | GET | GETDEL | GETEX | GETRANGE | GETSET | INCR | INCRBY | LCS | MGET | MSET | MSETNX | PSETEX | SET | SETEX | SETNX | SETRANGE
  | STRLEN | SUBSTR.

Definition arity (c : command) : Z :=
  match c with
  | APPEND => 3 | DECR => 2 | DECRBY => 3 | GET => 2 | GETDEL => 2 | GETEX => -2 | GETRANGE => 4 | GETSET => 3 | INCR => 2 | INCRBY => 3 | LCS => -3
  | MGET => -2 | MSET => -3 | MSETNX => -3 | PSETEX => 4 | SET => -3 | SETEX => 4 | SETNX => 3 | SETRANGE => 4 | STRLEN => 2 | SUBSTR => 4
  end.

Definition readonly (c : command) : bool := match c with GET | GETRANGE | LCS | MGET | STRLEN | SUBSTR => true | _ => false end.

(** A client's command, and what it finds. *)
Record call := {
  cmd : command;
  argv : list sds;
  can : dictResizeEnable;
  server : environment;
  aof_client : bool;
}.

Section Run.
Context (conf : strconf) (ty : dictType sds) (access : Z -> Z) (initial_lru : Z) (ztrymalloc : Z -> bool).

Definition proc (c : call) : C unit :=
  match cmd c with
  | APPEND => appendCommand conf ty (can c) (server c) access initial_lru (aof_client c) (argv c)
  | DECR => decrCommand conf ty (can c) (server c) access initial_lru (argv c)
  | DECRBY => decrbyCommand conf ty (can c) (server c) access initial_lru (argv c)
  | GET => getCommand ty (can c) (server c) access (argv c)
  | GETDEL => getdelCommand ty (can c) (server c) access (argv c)
  | GETEX => getexCommand ty (can c) (server c) access (argv c)
  | GETRANGE | SUBSTR => getrangeCommand ty (can c) (server c) access (argv c)
  | GETSET => getsetCommand conf ty (can c) (server c) access initial_lru (argv c)
  | INCR => incrCommand conf ty (can c) (server c) access initial_lru (argv c)
  | INCRBY => incrbyCommand conf ty (can c) (server c) access initial_lru (argv c)
  | LCS => lcsCommand conf ty (can c) (server c) access ztrymalloc (argv c)
  | MGET => mgetCommand ty (can c) (server c) access (argv c)
  | MSET => msetCommand conf ty (can c) (server c) access initial_lru (argv c)
  | MSETNX => msetnxCommand conf ty (can c) (server c) access initial_lru (argv c)
  | PSETEX => psetexCommand conf ty (can c) (server c) access initial_lru (argv c)
  | SET => setCommand conf ty (can c) (server c) access initial_lru (argv c)
  | SETEX => setexCommand conf ty (can c) (server c) access initial_lru (argv c)
  | SETNX => setnxCommand conf ty (can c) (server c) access initial_lru (argv c)
  | SETRANGE => setrangeCommand conf ty (can c) (server c) access initial_lru (aof_client c) (argv c)
  | STRLEN => strlenCommand ty (can c) (server c) access (argv c)
  end.

Definition spec (c : call) : S unit :=
  match cmd c with
  | APPEND => append_spec conf (server c) (aof_client c) (argv c)
  | DECR => incr_ (server c) (argv c) (-1)
  | DECRBY => decrby_spec (server c) (argv c)
  | GET => get_spec (server c) (argv c)
  | GETDEL => getdel_spec (server c) (argv c)
  | GETEX => getex_spec (server c) (argv c)
  | GETRANGE | SUBSTR => getrange_spec (server c) (argv c)
  | GETSET => getset_spec (server c) (argv c)
  | INCR => incr_ (server c) (argv c) 1
  | INCRBY => incrby_spec (server c) (argv c)
  | LCS => lcs_spec conf (server c) ztrymalloc (argv c)
  | MGET => mget_spec (server c) (argv c)
  | MSET => mset_spec (server c) (argv c) false
  | MSETNX => mset_spec (server c) (argv c) true
  | PSETEX => psetex_spec (server c) (argv c)
  | SET => set_spec (server c) (argv c)
  | SETEX => setex_spec (server c) (argv c)
  | SETNX => setnx_spec (server c) (argv c)
  | SETRANGE => setrange_spec conf (server c) (aof_client c) (argv c)
  | STRLEN => strlen_spec (server c) (argv c)
  end.

(** Arguments for which the code computes in the range of its integers: a
    relative time fits with the clock, and the table of LCS has at most 2^32
    cells. *)
Definition in_limits (c : call) : Prop :=
  match cmd c with
  | SET => set_limits (server c) (argv c)
  | GETEX => getex_limits (server c) (argv c)
  | SETEX => time_fits (server c) OBJ_EX UNIT_SECONDS (nth_arg (argv c) 2)
  | PSETEX => time_fits (server c) OBJ_PX UNIT_MILLISECONDS (nth_arg (argv c) 2)
  | SETRANGE => setrange_limits (server c) (aof_client c) (argv c)
  | LCS => proto_max_bulk_len conf <= 2 ^ 34
  | _ => True
  end.

(** The server calls the command, and the limits hold. *)
Definition allowed (c : call) : Prop :=
  ListRun.commandCheckArity (arity (cmd c)) (argv c) = true /\ args_ok (argv c) /\ in_limits c /\ (readonly (cmd c) = false -> may_write (server c)).

Lemma spec_sound c a : allowed c -> full a -> sound (spec c) a.
Proof.
  intros (Har & Hargs & Hlim & Hw) Hf. pose proof (ListRun.enough (arity (cmd c)) (argv c)) as Hn. destruct c as [cm av cn sv aof]. unfold spec. cbn [cmd argv can server aof_client] in *. clear Hlim Hw. destruct cm.
  - apply append_sound.
  - apply incr_sound.
  - apply decrby_sound.
  - apply (sound_silent sv), silent_bind; [apply silent_get|intros _; apply silent_ret].
  - apply getdel_sound.
  - by apply getex_sound.
  - apply (sound_silent sv), getrange_silent.
  - apply getset_sound.
  - apply incr_sound.
  - apply incrby_sound.
  - apply (sound_silent sv), lcs_silent.
  - apply (sound_silent sv), silent_bind; [apply silent_reply|intros _; apply mget_silent].
  - apply mset_sound. by apply Hn.
  - apply mset_sound. by apply Hn.
  - apply set_sound.
  - apply set_spec_sound.
  - apply set_sound.
  - apply set_sound.
  - apply setrange_sound.
  - apply (sound_silent sv), strlen_silent.
  - apply (sound_silent sv), getrange_silent.
Qed.

Lemma str_proc_refines `{!DictLaws ty} c w a : 0 <= proto_max_bulk_len conf <= LLONG_MAX -> allowed c -> small a -> sim ty w a -> refines ty (proc c) (spec c) w a.
Proof.
  intros Hconf (Har & Hargs & Hlim & Hw) Hsm Hs. pose proof (ListRun.enough (arity (cmd c)) (argv c)) as Hn. destruct c as [cm av cn sv aof]. unfold spec, proc, in_limits in *. cbn [cmd argv can server aof_client] in *.
  assert (Hlen : forall n, Z.of_nat n <= Z.abs (arity cm) -> (n <= length av)%nat) by (intros n; by apply Hn). clear Hn. destruct cm; cbn [readonly] in Hw; try specialize (Hw eq_refl); cbn [arity] in Hlen.
  - apply (appendCommand_refines conf ty); try done; [lia|by apply Hlen].
  - apply (incr_refines conf ty); try done; by apply Hlen.
  - apply (decrby_refines conf ty); try done; by apply Hlen.
  - apply (get_refines ty); try done; by apply Hlen.
  - apply (getdel_refines ty); try done; by apply Hlen.
  - apply (getex_refines ty); try done; by apply Hlen.
  - apply (getrange_refines ty); try done; by apply Hlen.
  - apply (getset_refines conf ty); try done; by apply Hlen.
  - apply (incr_refines conf ty); try done; by apply Hlen.
  - apply (incrby_refines conf ty); try done; by apply Hlen.
  - apply (lcs_refines conf ty); try done; [lia|by apply Hlen].
  - by apply (mget_refines ty).
  - apply (mset_refines conf ty); try done; by apply Hlen.
  - apply (mset_refines conf ty); try done; by apply Hlen.
  - apply (psetex_refines conf ty); try done; by apply Hlen.
  - apply (setCommand_refines conf ty); try done; by apply Hlen.
  - apply (setex_refines conf ty); try done; by apply Hlen.
  - apply (setnx_refines conf ty); try done; by apply Hlen.
  - apply (setrange_refines conf ty); try done; [lia|by apply Hlen].
  - apply (strlen_refines ty); try done; by apply Hlen.
  - apply (getrange_refines ty); try done; by apply Hlen.
Qed.

End Run.

End StrRun.
