(* ===== verification/CmdRun.v ===== *)
(** * The commands on one database

    Any sequence of commands on lists and on strings, from any clients, on a
    database in which every key has a value of one type: it does what the same
    commands do on a map of keys, the database stays well typed, and every
    change is signalled and counted. *)

From stdpp Require Import gmap.
From S2P Require Import Prelude.
From S2P Require Import NumConv.
From S2P Require Import Quicklist.
From S2P Require Import QuicklistNode.
From S2P Require Import QuicklistRun.
From S2P Require Import ListType.
From S2P Require Import ListSpec.
From S2P Require Import Dict.
From S2P Require Import DictSpec.
From S2P Require Import DictMap.
From S2P Require Import Keyspace.
From S2P Require Import KeyspaceSpec.
From S2P Require Import StrType.
From S2P Require Import ListCmd.
From S2P Require Import ListAbs.
From S2P Require Import ListStep.
From S2P Require Import ListEffect.
From S2P Require Import ZsetSpec.
From S2P Require Import ListRun.
From S2P Require Import StrCmd.
From S2P Require Import StrAbs.
From S2P Require Import StrStep.
From S2P Require Import StrCmdSpec.
From S2P Require Import StrEffect.
From S2P Require Import StrRun.
Import NumConv QlNode QlRun StrType ListType ListSpec Dict DictSpec DictMap Keyspace KsSpec ListCmd ListAbs ListStep ListEffect StrCmd StrStep StrCmdSpec.

Module CmdRun.

Inductive call := ListCall (c : ListRun.call) | StrCall (c : StrRun.call).

Definition environment_of (c : call) : environment := match c with ListCall c => ListRun.server c | StrCall c => StrRun.server c end.
Definition is_list_call (c : call) : Prop := match c with ListCall _ => True | StrCall _ => False end.

Section Run.
Context `{Allocator} `{Quicklist.LzfMemory} (packed_threshold : Z) (conf : ListType.redisServer) (sconf : strconf) (ty : dictType sds) (access : Z -> Z) (initial_lru : Z).
Context (milliseconds : sds -> option Z) (ztrymalloc : Z -> bool).

Definition proc (c : call) : C unit :=
  match c with
  | ListCall c => ListRun.proc packed_threshold conf ty access initial_lru milliseconds c
  | StrCall c => StrRun.proc sconf ty access initial_lru ztrymalloc c
  end.

Fixpoint run (cs : list call) : C unit := match cs with [] => mret tt | c :: cs => proc c ;; run cs end.

End Run.

(** ** The same commands on the abstract keyspace *)

Section Abstract.
Context (sconf : strconf) (milliseconds : sds -> option Z) (ztrymalloc : Z -> bool).

Definition spec (c : call) : S unit :=
  match c with
  | ListCall c => ListRun.spec milliseconds c
  | StrCall c => StrRun.spec sconf ztrymalloc c
  end.

Fixpoint steps (cs : list call) : S unit := match cs with [] => mret tt | c :: cs => spec c ;; steps cs end.

Definition allowed (c : call) : Prop := match c with ListCall c => ListRun.allowed c | StrCall c => StrRun.allowed sconf c end.

(** The lists stay below 512 MB, the strings below 2^62 bytes, and the keys
    below 2^59. *)
Fixpoint within (cs : list call) (a : astate content) : Prop :=
  match cs with [] => True | c :: cs => allowed c /\ small a /\ within cs (result (spec c) a) end.

Lemma spec_full c a : allowed c -> full a -> full (result (spec c) a).
Proof. destruct c as [c|c]; intros Hc Hf; [eapply effect_full; [by apply ListRun.spec_effective|done]|by apply StrEffect.sound_full; [apply StrRun.spec_sound|]]. Qed.

Lemma spec_signalled c a : allowed c -> full a -> exists es, grows a (result (spec c) a) es /\ l_dirty (alog a) <= l_dirty (alog (result (spec c) a)) /\
  forall k, store (result (spec c) a) !! k <> store a !! k -> SignalModified k ∈ es /\ (l_dirty (alog a) < l_dirty (alog (result (spec c) a)) \/ exists b, PropagateDeletion k b ∈ es).
Proof. destruct c as [c|c]; intros Hc Hf; [eapply effect_signalled; by apply ListRun.spec_effective|by apply StrEffect.sound_signalled, StrRun.spec_sound]. Qed.

Lemma steps_other cs : forall a k c t, full a -> within cs a -> Forall is_list_call cs -> Forall (fun x => hidden (environment_of x) t = false) cs ->
  other c -> store a !! k = Some (c, t) -> store (result (steps cs) a) !! k = Some (c, t).
Proof.
  induction cs as [|x cs IH]; intros a k c t Hf Hin Hl Hh Ho Hk; [done|]. destruct Hin as (Hx & Hsm & Hin). apply Forall_cons in Hh as [Hh0 Hh], Hl as [Hl0 Hl]. cbn [steps]. rewrite result_bind.
  apply IH; [by apply spec_full|done..|]. destruct x as [x|x]; [|done]. by eapply effect_other; [apply ListRun.spec_effective|..].
Qed.

End Abstract.

(** ** Refinement *)

Section Refine.
Context `{Allocator} `{Quicklist.LzfMemory} (packed_threshold : Z) (conf : ListType.redisServer) (sconf : strconf) (ty : dictType sds) `{!DictLaws ty} (access : Z -> Z) (initial_lru : Z).
Context (Hfill : INT32_MIN < list_max_listpack_size conf <= INT32_MAX) (Hbulk : 0 <= proto_max_bulk_len sconf <= LLONG_MAX) (milliseconds : sds -> option Z) (ztrymalloc : Z -> bool).

#[local] Set Default Proof Using "All".
#[local] Notation sim := (sim ty).
#[local] Notation proc := (proc packed_threshold conf sconf ty access initial_lru milliseconds ztrymalloc).
#[local] Notation run := (run packed_threshold conf sconf ty access initial_lru milliseconds ztrymalloc).
#[local] Notation spec := (spec sconf milliseconds ztrymalloc).
#[local] Notation steps := (steps sconf milliseconds ztrymalloc).
#[local] Notation within := (within sconf milliseconds ztrymalloc).

Lemma call_refines c w a : allowed sconf c -> small a -> full a -> sim w a -> refines ty (proc c) (spec c) w a.
Proof. intros Hc Hsm Hf Hs. destruct c as [c|c]; [by apply ListRun.proc_refines|by apply StrRun.str_proc_refines]. Qed.

Lemma calls_refine cs : forall w a, full a -> within cs a -> sim w a -> exists w', run cs w = Some (tt, w') /\ sim w' (result (steps cs) a) /\ full (result (steps cs) a).
Proof.
  induction cs as [|c cs IH]; intros w a Hf Hin Hs; [by exists w|]. destruct Hin as (Hc & Hsm & Hin). destruct (call_refines c w a Hc Hsm Hf Hs) as ([] & w1 & Hp & Hs1).
  destruct (IH w1 (result (spec c) a)) as (w' & Hr & Hs' & Hf'); [by apply (spec_full sconf)|done|done|]. exists w'. cbn [CmdRun.run CmdRun.steps]. rewrite result_bind. split; [|done]. unfold mbind, K_bind. by rewrite Hp.
Qed.

End Refine.

(** ** A database *)

(** The values in a database: an object for every key, lists with elements
    and in one of their encodings, and no object twice. *)
Definition typed (w : world value) : Prop :=
  (forall k ad, dict_map (w_dict w) !! k = Some ad -> exists ob, heap w !! ad = Some ob /\
    match ptr ob with VList o => exists xs, is_list o xs /\ xs <> [] | VStr v => exists s, is_str v s | VOther t => t <> OBJ_LIST /\ t <> OBJ_STRING end) /\
  (forall k, is_Some (dict_map (w_expires w) !! k) -> is_Some (dict_map (w_dict w) !! k)) /\
  (forall k1 k2 ad, dict_map (w_dict w) !! k1 = Some ad -> dict_map (w_dict w) !! k2 = Some ad -> k1 = k2) /\
  (forall ad, is_Some (heap w !! ad) -> exists k, dict_map (w_dict w) !! k = Some ad).

Lemma sim_typed ty w a : sim ty w a -> full a -> typed w.
Proof.
  intros [_ _ Hk Hd Hh _] Hf. split; [|split; [|split; [done|intros ad [ob E]; by eapply Hh]]].
  - intros k ad E. specialize (Hk k). rewrite E in Hk. destruct Hk as (ob & x & Ho & Hv & Hs). exists ob. split; [done|]. specialize (Hf _ _ _ Hs). destruct (ptr ob) as [o|v|t], x as [xs|s|t']; try done; [by exists xs|by exists s|]. destruct Hv as [-> _]. done.
  - intros k [t Ht]. specialize (Hk k). destruct (dict_map (w_dict w) !! k); [done|]. destruct Hk as [_ Hn]. congruence.
Qed.



(** C6: every key that a command on lists or strings changes, creates or
    deletes is signalled to the clients that watch it, and the change is
    counted for persistence and replication, or the key expired and its
    deletion is propagated; a command on lists keeps the time to expire of a
    key that did not expire and is still there. *)
Theorem command_signals `{Allocator} `{Quicklist.LzfMemory} packed_threshold conf sconf ty `{!DictLaws ty} access initial_lru milliseconds ztrymalloc c w a :
  INT32_MIN < list_max_listpack_size conf <= INT32_MAX -> 0 <= proto_max_bulk_len sconf <= LLONG_MAX -> full a -> allowed sconf c -> small a -> sim ty w a ->
  exists w' a' es, proc packed_threshold conf sconf ty access initial_lru milliseconds ztrymalloc c w = Some (tt, w') /\ sim ty w' a' /\
    events w' = events w ++ es /\ dirty w <= dirty w' /\
    (forall k, store a' !! k <> store a !! k -> SignalModified k ∈ es /\ (dirty w < dirty w' \/ exists b, PropagateDeletion k b ∈ es)) /\
    (is_list_call c -> forall k x t y t', store a !! k = Some (x, t) -> hidden (environment_of c) t = false -> store a' !! k = Some (y, t') -> t' = t).
Proof.
  intros Hfill Hbulk Hf Hc Hsm Hs. destruct (call_refines packed_threshold conf sconf ty access initial_lru Hfill Hbulk milliseconds ztrymalloc c w a Hc Hsm Hf Hs) as ([] & w' & Hp & Hs').
  destruct (spec_signalled sconf milliseconds ztrymalloc c a Hc Hf) as (es & Hg & Hd & Hk). unfold grows in Hg. rewrite <- (sim_log _ _ _ Hs), <- (sim_log _ _ _ Hs') in *. eexists w', _, es. split; [done|]. split; [done|]. split; [done|]. split; [done|]. split; [done|].
  intros Hl k x t y t'. destruct c as [c|c]; [|done]. apply (effect_time (ListRun.server c)). by apply ListRun.spec_effective.
Qed.

(** ** The limits are decidable *)

#[local] Existing Instances ListRun.allowed_dec ListRun.small_dec ListRun.full_dec ListRun.args_ok_dec ListRun.may_write_dec.

#[export] Instance time_fits_dec server flags tunit e : Decision (time_fits server flags tunit e).
Proof. unfold time_fits. destruct (string2ll e); apply _. Defined.

#[export] Instance expire_dec (o : option sds) (P : sds -> Prop) `{!forall e, Decision (P e)} : Decision (forall e, o = Some e -> P e).
Proof. destruct o as [e|]; [destruct (decide (P e)) as [Hp|Hn]; [left; by intros e' [= <-]|right; intros Ha; by apply Hn, Ha]|by left]. Defined.

#[export] Instance str_limits_dec sconf c : Decision (StrRun.in_limits sconf c).
Proof.
  unfold StrRun.in_limits, set_limits, getex_limits, setrange_limits. destruct (StrRun.cmd c); try apply _; try (destruct (parse_options _ _ _); apply _). destruct (string2ll _); apply _.
Defined.

#[export] Instance str_allowed_dec sconf c : Decision (StrRun.allowed sconf c).
Proof. unfold StrRun.allowed. apply _. Defined.

#[export] Instance call_allowed_dec sconf c : Decision (allowed sconf c).
Proof. destruct c; cbn [allowed]; apply _. Defined.

#[export] Instance within_dec sconf milliseconds ztrymalloc cs : forall a, Decision (within sconf milliseconds ztrymalloc cs a).
Proof. induction cs as [|c cs IH]; intros a; cbn [within]; [apply _|]. pose proof (IH (result (spec sconf milliseconds ztrymalloc c) a)). apply _. Defined.

(** ** An example *)

#[local] Existing Instance ZsetSpec.sds_type_laws.

Definition sconf0 : strconf := {| no_shared_integers := false; proto_max_bulk_len := 2 ^ 29 |}.
Definition ask (c : StrRun.command) (args : list sds) : StrRun.call := {| StrRun.cmd := c; StrRun.argv := args; StrRun.can := DICT_RESIZE_ENABLE; StrRun.server := ListRun.master; StrRun.aof_client := false |}.

(** The commands on lists of ListRun.v, and commands on strings, some of them
    on the same keys. *)
Definition strings : list call :=
  [ StrCall (ask StrRun.SET [[115; 101; 116]; [115]; [49; 48]; [69; 88]; [49; 48; 48]]);
    StrCall (ask StrRun.INCR [[105; 110; 99; 114]; [115]]);
    StrCall (ask StrRun.APPEND [[97; 112; 112; 101; 110; 100]; [115]; [97; 98; 99]]);
    StrCall (ask StrRun.SETRANGE [[115; 101; 116; 114; 97; 110; 103; 101]; [115]; [49]; [122; 122]]);
    StrCall (ask StrRun.GETRANGE [[103; 101; 116; 114; 97; 110; 103; 101]; [115]; [45; 52]; [45; 49]]);
    StrCall (ask StrRun.INCRBY [[105; 110; 99; 114; 98; 121]; [115]; [53]]);
    StrCall (ask StrRun.GET [[103; 101; 116]; [115]]);
    StrCall (ask StrRun.MSETNX [[109; 115; 101; 116; 110; 120]; [97]; [111; 104; 109; 121; 116; 101; 120; 116]; [98]; [109; 121; 110; 101; 119; 116; 101; 120; 116]; [97]; [111; 104; 109; 121; 116; 101; 120; 116]]);
    StrCall (ask StrRun.MGET [[109; 103; 101; 116]; [97]; [98]; [107]]);
    StrCall (ask StrRun.LCS [[108; 99; 115]; [97]; [98]; [73; 68; 88]; [77; 73; 78; 77; 65; 84; 67; 72; 76; 69; 78]; [52]]);
    StrCall (ask StrRun.LCS [[108; 99; 115]; [97]; [98]]);
    StrCall (ask StrRun.STRLEN [[115; 116; 114; 108; 101; 110]; [97]]);
    StrCall (ask StrRun.GETEX [[103; 101; 116; 101; 120]; [97]; [80; 88; 65; 84]; [50; 48; 48; 48]]);
    StrCall (ask StrRun.SET [[115; 101; 116]; [107]; [118]; [75; 69; 69; 80; 84; 84; 76]; [71; 69; 84]]);
    StrCall (ask StrRun.SET [[115; 101; 116]; [107]; [118]; [78; 88]]);
    StrCall (ask StrRun.SETEX [[115; 101; 116; 101; 120]; [116]; [55]; [118]]);
    StrCall (ask StrRun.GETSET [[103; 101; 116; 115; 101; 116]; [116]; [119]]);
    StrCall (ask StrRun.DECRBY [[100; 101; 99; 114; 98; 121]; [110]; [55]]);
    StrCall (ask StrRun.GETDEL [[103; 101; 116; 100; 101; 108]; [116]]);
    StrCall (ask StrRun.GETEX [[103; 101; 116; 101; 120]; [98]; [69; 88; 65; 84]; [49]]) ].
Definition session : list call := (ListCall <$> ListRun.session) ++ strings ++ (ListCall <$> ListRun.session).



(** A key that is set for 100 seconds. *)
Definition set0 : call := StrCall (ask StrRun.SET [[115; 101; 116]; [115]; [49; 48]; [69; 88]; [49; 48; 48]]).

Lemma command_signals_witness :
  exists w' a' es, @proc alloc_16 Quicklist.lzf_memory0 64 ListRun.conf0 sconf0 ZsetSpec.sds_type (fun _ => 7) 7 string2ll (fun _ => true) set0 ListRun.db0 = Some (tt, w') /\ sim ZsetSpec.sds_type w' a' /\
    events w' = events ListRun.db0 ++ es /\ dirty ListRun.db0 <= dirty w' /\
    (forall k, store a' !! k <> store ListRun.state0 !! k -> SignalModified k ∈ es /\ (dirty ListRun.db0 < dirty w' \/ exists b, PropagateDeletion k b ∈ es)) /\
    (is_list_call set0 -> forall k x t y t', store ListRun.state0 !! k = Some (x, t) -> hidden (environment_of set0) t = false -> store a' !! k = Some (y, t') -> t' = t).
Proof.
  apply (@command_signals alloc_16 Quicklist.lzf_memory0 64 ListRun.conf0 sconf0 ZsetSpec.sds_type _ (fun _ => 7) 7 string2ll (fun _ => true) set0 ListRun.db0 ListRun.state0);
    [done|done|apply (bool_decide_unpack _); vm_compute; exact I|apply (bool_decide_unpack _); vm_compute; exact I|apply (bool_decide_unpack _); vm_compute; exact I|apply ListRun.db0_sim].
Defined.

End CmdRun.
