(* ===== verification/StrLaws.v ===== *)
(** * Laws of the string commands

    What a client can rely on, whatever the encoding of the strings: a value
    that was set is what GET replies, and numbers are added exactly or not at
    all. *)

From stdpp Require Import gmap.
From S2P Require Import Prelude.
From S2P Require Import NumConv.
From S2P Require Import Dict.
From S2P Require Import DictSpec.
From S2P Require Import Keyspace.
From S2P Require Import KeyspaceSpec.
From S2P Require Import KeyspaceSet.
From S2P Require Import StrType.
From S2P Require Import ListCmd.
From S2P Require Import ListAbs.
From S2P Require Import ListStep.
From S2P Require Import ZsetSpec.
From S2P Require Import ListRun.
From S2P Require Import StrCmd.
From S2P Require Import StrAbs.
From S2P Require Import StrStep.
From S2P Require Import StrCmdSpec.
From S2P Require Import CmdRun.
Import NumConv Dict DictSpec Keyspace KsSpec KsSet StrType ListCmd ListAbs ListStep StrCmd StrAbs StrStep StrCmdSpec.

Module StrLaws.

Implicit Types (a : astate content) (key : sds).

(** ** Replies of the abstract commands *)

Definition replied {B} (m : S B) a (rs : list reply) : Prop := l_out (alog (result m a)) = l_out (alog a) ++ rs.

Lemma replied_bind {B D} (m : S B) (k : B -> S D) a rs1 rs2 : replied m a rs1 -> replied (k (m a).1) (result m a) rs2 -> replied (mbind k m) a (rs1 ++ rs2).
Proof. unfold replied. intros H1 H2. by rewrite result_bind, H2, H1, app_assoc. Qed.

Lemma replied_none {B} (m : S B) a : l_out (alog (result m a)) = l_out (alog a) -> replied m a [].
Proof. unfold replied. by rewrite app_nil_r. Qed.

Lemma replied_lookup server key flags a : replied (lookup_ server key flags) a [].
Proof.
  apply replied_none. unfold result, lookup_. destruct (store a !! key) as [[x t]|] eqn:E; [destruct (hidden server t); [|by destruct (counts flags)]|by unfold miss_; destruct (negb _), (counts flags)].
  unfold miss_, expire_, remove_. destruct (purges server flags), (negb _), (counts flags); cbn; try done; unfold mbind, A_bind; cbn; by rewrite E.
Qed.

Lemma replied_store key x a : replied (store_ key x) a [].
Proof. apply replied_none. unfold result, store_. by destruct (store a !! key) as [[y t]|]. Qed.

Lemma replied_write o key s a : replied (write_ o key s) a [].
Proof. apply replied_none. unfold write_. by destruct (absent o). Qed.

Lemma replace_time key v a : store (result (replace_ key v false) a) !! key = Some (AStr v, None).
Proof.
  unfold replace_. rewrite result_bind. destruct (store_stored key (AStr v) a) as (t & Ht). set (a1 := result (store_ key (AStr v)) a) in *. change (alter (fun e => (fst e, None)) key (store a1) !! key = Some (AStr v, None)). by rewrite lookup_alter_eq, Ht.
Qed.

(** The key has this value, and no time to expire. *)
Lemma set_plain server c key v a : let a' := result (set_spec server [c; key; v]) a in l_out (alog a') = l_out (alog a) ++ [ROk] /\ store a' !! key = Some (AStr v, None).
Proof.
  cbn zeta. change (result (set_spec server [c; key; v]) a) with (result (o ← lookup_ server key WRITE; replace_ key v false ;; dirty_ 1 ;; event_ (Notify e_set key) ;; mret tt ;; reply_ ROk ;; mret tt) a).
  rewrite result_bind. pose proof (replied_lookup server key WRITE a) as Hl. unfold replied in Hl. rewrite app_nil_r in Hl. rewrite <- Hl. set (a1 := result (lookup_ server key WRITE) a). clearbody a1. clear Hl. split.
  - assert (Hr : replied (replace_ key v false ;; dirty_ 1 ;; event_ (Notify e_set key) ;; mret tt ;; reply_ ROk ;; mret tt) a1 ([] ++ [ROk])); [|exact Hr]. apply replied_bind; [|done]. apply (replied_bind _ _ _ [] []); [apply replied_store|by apply replied_none].
  - rewrite result_bind. change (store (result (replace_ key v false) a1) !! key = Some (AStr v, None)). apply replace_time.
Qed.

Lemma get_found server c key s t a : store a !! key = Some (AStr s, t) -> hidden server t = false -> l_out (alog (result (get_spec server [c; key]) a)) = l_out (alog a) ++ [RBulk s].
Proof.
  intros Hst Hh. unfold get_spec. rewrite result_bind. change (l_out (alog (result (get_ server key) a)) = l_out (alog a) ++ [RBulk s]). unfold get_. rewrite result_bind, value_or_reply, result_or_reply. destruct (lookup_again server key READ a _ t Hst Hh) as [-> _].
  pose proof (replied_lookup server key READ a) as Hl. unfold replied in Hl. rewrite app_nil_r in Hl. rewrite <- Hl. done.
Qed.

(** ** SET and GET *)

(** C20: after SET of a key, with any bytes and whatever the key was before,
    GET replies these bytes to every client, now and later, as long as no other
    command changes the key: the value does not expire.  The server expires
    keys and takes writes from the client of SET ([may_write]), and the
    database is within the limits of [small]. *)
Theorem set_get conf ty `{!DictLaws ty} can server access initial_lru can' server' access' c g key v w a :
  may_write server -> small a -> sim ty w a ->
  exists w1 w2, setCommand conf ty can server access initial_lru [c; key; v] w = Some (tt, w1) /\ getCommand ty can' server' access' [g; key] w1 = Some (tt, w2) /\ out w2 = out w ++ [ROk; RBulk v].
Proof.
  intros Hw Hsm Hs. destruct (setCommand_refines conf ty can server access initial_lru Hw [c; key; v] w a) as ([] & w1 & H1 & Hs1); [done|done|done|done|]. destruct (set_plain server c key v a) as [Ho Hst].
  destruct (get_refines ty can' server' access' [g; key] w1 _ ltac:(done) Hs1) as ([] & w2 & H2 & Hs2). exists w1, w2. split; [done|]. split; [done|]. pose proof (get_found server' g key v None _ Hst) as Hg. unfold hidden in Hg. rewrite andb_false_r in Hg. specialize (Hg eq_refl).
  rewrite Ho, <- (sim_log _ _ _ Hs), <- (sim_log _ _ _ Hs2), <- app_assoc in Hg. exact Hg.
Qed.

(** ** Numbers *)

Lemma incrby_found server c key arg s t v n a :
  store a !! key = Some (AStr s, t) -> hidden server t = false -> string2ll s = Some v -> string2ll arg = Some n -> let a' := result (incrby_spec server [c; key; arg]) a in
  if in_ll (v + n) then l_out (alog a') = l_out (alog a) ++ [RLong (v + n)] /\ store a' !! key = Some (AStr (lltoa (v + n)), t)
  else l_out (alog a') = l_out (alog a) ++ [RError INCR_OVERFLOW] /\ store a' = store a.
Proof.
  intros Hst Hh Hv Hn. cbn zeta. assert (Hr : result (incrby_spec server [c; key; arg]) a = result (incr_ server [c; key; arg] n) a) by (unfold incrby_spec, when_some; rewrite result_bind; change (nth_arg [c; key; arg] 2) with arg; unfold number_; by rewrite Hn).
  rewrite Hr. unfold incr_. change (nth_arg [c; key; arg] 1) with key. cbn zeta. unfold with_value. rewrite result_bind. destruct (lookup_again server key WRITE a _ t Hst Hh) as [-> Hsame]. pose proof (replied_lookup server key WRITE a) as Hl. unfold replied in Hl. rewrite app_nil_r in Hl.
  rewrite <- Hl, <- Hsame. rewrite <- Hsame in Hst. set (a1 := result (lookup_ server key WRITE) a) in *. clearbody a1. rewrite result_bind. change ((check_ (Some (AStr s)) OBJ_STRING a1).1) with false. change (result (check_ (Some (AStr s)) OBJ_STRING) a1) with a1. cbn [absent bytes_of].
  unfold when_some. rewrite result_bind. unfold number_. rewrite Hv. change (((mret (Some v) : S (option Z)) a1).1) with (Some v). change (result (mret (Some v) : S (option Z)) a1) with a1. cbn iota beta. destruct (in_ll (v + n)); [|done]. split; [done|].
  change (alter (fun e => (AStr (lltoa (v + n)), snd e)) key (store a1) !! key = Some (AStr (lltoa (v + n)), t)). by rewrite lookup_alter_eq, Hst.
Qed.

(** C21: INCRBY on a key that holds a number replies the exact sum and stores
    its decimal digits, and the key keeps its time to expire; a sum that is not
    in the range of 64 bits is an error, and then nothing changes.  As for SET
    the client may write and the database is [small]. *)
Theorem incrby_exact conf ty `{!DictLaws ty} can server access initial_lru c key arg s t v n w a :
  may_write server -> small a -> sim ty w a -> store a !! key = Some (AStr s, t) -> hidden server t = false -> string2ll s = Some v -> string2ll arg = Some n ->
  exists w' a', incrbyCommand conf ty can server access initial_lru [c; key; arg] w = Some (tt, w') /\ sim ty w' a' /\
    if (LLONG_MIN <=? v + n) && (v + n <=? LLONG_MAX) then out w' = out w ++ [RLong (v + n)] /\ store a' !! key = Some (AStr (lltoa (v + n)), t)
    else out w' = out w ++ [RError INCR_OVERFLOW] /\ store a' = store a.
Proof.
  intros Hw Hsm Hs Hst Hh Hv Hn. destruct (incrby_refines conf ty can server access initial_lru Hw [c; key; arg] w a) as ([] & w' & H1 & Hs1); [done|done|done|]. exists w', (result (incrby_spec server [c; key; arg]) a). split; [done|]. split; [done|].
  pose proof (incrby_found server c key arg s t v n a Hst Hh Hv Hn) as Hr. cbn zeta in Hr. rewrite <- (sim_log _ _ _ Hs), <- (sim_log _ _ _ Hs1) in Hr. exact Hr.
Qed.

(** ** Examples *)

#[local] Existing Instances ZsetSpec.sds_type_laws ListRun.small_dec ListRun.may_write_dec.

Lemma set_get_witness :
  exists w1 w2, setCommand CmdRun.sconf0 ZsetSpec.sds_type DICT_RESIZE_ENABLE ListRun.master (fun _ => 7) 7 [[83]; [107]; [49; 50]] ListRun.db0 = Some (tt, w1) /\
    getCommand ZsetSpec.sds_type DICT_RESIZE_ENABLE ListRun.master (fun _ => 8) [[71]; [107]] w1 = Some (tt, w2) /\ out w2 = out ListRun.db0 ++ [ROk; RBulk [49; 50]].
Proof.
  apply (set_get CmdRun.sconf0 ZsetSpec.sds_type DICT_RESIZE_ENABLE ListRun.master (fun _ => 7) 7 DICT_RESIZE_ENABLE ListRun.master (fun _ => 8) [83] [71] [107] [49; 50] ListRun.db0 ListRun.state0);
    [done|apply (bool_decide_unpack _); vm_compute; exact I|apply ListRun.db0_sim].
Defined.

(** A key with the number 9223372036854775806. *)
Definition number_set : world value := match setCommand CmdRun.sconf0 ZsetSpec.sds_type DICT_RESIZE_ENABLE ListRun.master (fun _ => 7) 7 [[83]; [107]; lltoa (LLONG_MAX - 1)] ListRun.db0 with Some (_, w) => w | None => ListRun.db0 end.
Definition number_state : astate content := result (set_spec ListRun.master [[83]; [107]; lltoa (LLONG_MAX - 1)]) ListRun.state0.

Lemma number_sim : sim ZsetSpec.sds_type number_set number_state.
Proof.
  destruct (setCommand_refines CmdRun.sconf0 ZsetSpec.sds_type DICT_RESIZE_ENABLE ListRun.master (fun _ => 7) 7 ltac:(done) [[83]; [107]; lltoa (LLONG_MAX - 1)] ListRun.db0 ListRun.state0) as ([] & w & Hw & Hs);
    [cbn; lia|done|apply (bool_decide_unpack _); vm_compute; exact I|apply ListRun.db0_sim|]. unfold number_set. by rewrite Hw.
Qed.

Lemma incrby_exact_witness :
  exists w' a', incrbyCommand CmdRun.sconf0 ZsetSpec.sds_type DICT_RESIZE_ENABLE ListRun.master (fun _ => 7) 7 [[73]; [107]; [50]] number_set = Some (tt, w') /\ sim ZsetSpec.sds_type w' a' /\
    if (LLONG_MIN <=? (LLONG_MAX - 1) + 2) && ((LLONG_MAX - 1) + 2 <=? LLONG_MAX) then out w' = out number_set ++ [RLong ((LLONG_MAX - 1) + 2)] /\ store a' !! [107] = Some (AStr (lltoa ((LLONG_MAX - 1) + 2)), None)
    else out w' = out number_set ++ [RError INCR_OVERFLOW] /\ store a' = store number_state.
Proof.
  apply (incrby_exact CmdRun.sconf0 ZsetSpec.sds_type DICT_RESIZE_ENABLE ListRun.master (fun _ => 7) 7 [73] [107] [50] (lltoa (LLONG_MAX - 1)) None (LLONG_MAX - 1) 2 number_set number_state);
    [done|apply (bool_decide_unpack _); vm_compute; exact I|apply number_sim|vm_compute; reflexivity..].
Defined.

(** A relative time that does not fit with the clock is added to it all the
    same: the overflow is undefined before the test for it. *)
Lemma expire_overflow server e v (w : world value) : string2ll e = Some v -> 0 < v -> LLONG_MAX < v + commandTimeSnapshot server -> getExpireMillisecondsOrReply server e OBJ_PX UNIT_MILLISECONDS w = None.
Proof.
  intros He Hv Ho. unfold getExpireMillisecondsOrReply, getLongFromObjectOrReply, Keyspace.getLongLongFromObject. rewrite He. unfold mbind, K_bind. cbn [mret K_ret mbind option_bind is_seconds]. destruct (Z.leb_spec v 0); [lia|]. cbn [orb andb has OBJ_PX].
  change (has OBJ_PX OBJ_PX || has OBJ_PX OBJ_EX) with true. cbn iota. unfold add_ll. destruct (Z.leb_spec (v + commandTimeSnapshot server) LLONG_MAX); [lia|]. by rewrite andb_false_r.
Qed.

End StrLaws.
