(* ===== verification/KeyspaceExpire.v ===== *)
(** * Times to expire (src/redis-7.2.4/src/db.c)

    A key that was given a time to expire is found until that time, and not
    after it, by lookups for reading and for writing.  The example is in the
    database of ListRun.v. *)

From stdpp Require Import gmap.
From S2P Require Import Prelude.
From S2P Require Import Dict.
From S2P Require Import DictSpec.
From S2P Require Import DictMap.
From S2P Require Import Keyspace.
From S2P Require Import KeyspaceSpec.
From S2P Require Import KeyspaceSet.
From S2P Require Import ListCmd.
From S2P Require Import ListAbs.
From S2P Require Import ZsetSpec.
From S2P Require Import ListRun.
Import Dict DictSpec DictMap Keyspace KsSpec KsSet.

Module KsExpire.

(** C19: a key that is given a time to expire is found, with its object and
    this time, by every lookup at which it has not passed, or that must not
    expire keys: while the server loads, or for the stream of a master; by
    every other lookup it is not found, and where the server deletes expired
    keys itself it is gone from both dictionaries. *)
Theorem expire_lookup {V X : Type} `{Content V X} ty `{!DictLaws ty} can before client server access flags (w : world V) (a : astate X) key x t when_ :
  sim ty w a -> store a !! key = Some (x, t) -> Z.of_nat (size (store a)) < 2 ^ 60 ->
  exists w1 r w2, setExpire ty can before client key when_ w = Some (tt, w1) /\ lookupKey ty can server access key flags w1 = Some (r, w2) /\
    if hidden server (Some when_) then r = None /\ (purges server flags = true -> dict_map (w_dict w2) !! key = None /\ dict_map (w_expires w2) !! key = None)
    else exists ad v, r = Some ad /\ at_obj w2 key ad v /\ val_is v x /\ dict_map (w_expires w2) !! key = Some when_.
Proof.
  intros Hs Hst Hsz. destruct (setExpire_runs ty can before client w a key x t when_ (fun _ w1 => exists a1, sim ty w1 a1 /\ store a1 !! key = Some (x, Some when_)) Hs Hst Hsz) as ([] & w1 & Hset & a1 & Hs1 & Hst1).
  - intros w1 Hs1. eexists. split; [exact Hs1|]. unfold result, mbind, A_bind, KsSpec.when_. destruct (client && _ && _); cbn; by rewrite lookup_alter_eq, Hst.
  - destruct (lookup_time ty can server access flags w1 a1 key x (Some when_) Hs1 Hst1) as (r & w2 & Hl & Hr). by exists w1, r, w2.
Qed.

#[local] Existing Instances ZsetSpec.sds_type_laws ListCmd.value_type ListAbs.list_content.

(** The string of the example gets the time 999, and it is 1000. *)
Lemma expire_lookup_witness :
  exists w1 r w2, setExpire ZsetSpec.sds_type DICT_RESIZE_ENABLE ListRun.master true [115] 999 ListRun.db0 = Some (tt, w1) /\
    lookupKey ZsetSpec.sds_type DICT_RESIZE_ENABLE ListRun.master (fun _ => 7) [115] LOOKUP_NONE w1 = Some (r, w2) /\
    if hidden ListRun.master (Some 999) then r = None /\ (purges ListRun.master LOOKUP_NONE = true -> dict_map (w_dict w2) !! [115] = None /\ dict_map (w_expires w2) !! [115] = None)
    else exists ad v, r = Some ad /\ at_obj w2 [115] ad v /\ val_is v (ListAbs.AStr [118]) /\ dict_map (w_expires w2) !! [115] = Some 999.
Proof.
  apply (expire_lookup ZsetSpec.sds_type DICT_RESIZE_ENABLE ListRun.master true ListRun.master (fun _ => 7) LOOKUP_NONE ListRun.db0 ListRun.state0 [115] (ListAbs.AStr [118]) None 999); [apply ListRun.db0_sim|vm_compute; reflexivity|vm_compute; reflexivity].
Defined.

End KsExpire.
