(* ===== verification/SetType.v ===== *)
(** * Sets (src/redis-7.2.4/src/t_set.c)

    A set is an intset, a listpack or a dictionary without values, and is
    converted between these encodings when an element does not fit or a limit
    of the configuration is reached.  The functions below compose the models
    of the three structures.  [None] is a failed assertion, an access outside
    a buffer, or a null pointer that the code does not check for. *)

From stdpp Require Import gmap.
From S2P Require Import Prelude.
From S2P Require Import Intset.
From S2P Require Import NumConv.
From S2P Require Import ListpackEnc.
From S2P Require Import Listpack.
From S2P Require Import Dict.
Import Intset NumConv LpEnc Lp Dict.

Module SetType.

Abbreviation sds := (list Z).

(** The configuration in [server]. *)
Record redisServer := {
  set_max_intset_entries : Z;
  set_max_listpack_entries : Z;
  set_max_listpack_value : Z;
}.

Inductive obj_encoding := OBJ_ENCODING_INTSET | OBJ_ENCODING_LISTPACK | OBJ_ENCODING_HT.

(** The encoding and [ptr] of a set object. *)
Inductive robj :=
  | ObjIntset (ix : intset)
  | ObjListpack (lp : list Z)
  | ObjHt (d : dict sds unit).

Definition encoding_of (o : robj) : obj_encoding :=
  match o with
  | ObjIntset _ => OBJ_ENCODING_INTSET
  | ObjListpack _ => OBJ_ENCODING_LISTPACK
  | ObjHt _ => OBJ_ENCODING_HT
  end.

Inductive setTypeIterator :=
  | SiIntset (ii : Z)
  | SiListpack (lpi : option Z)
  | SiHt (di : @dictIterator sds unit).

Section SetType.
Context `{Allocator} (server : redisServer) (ty : dictType sds) (can : dictResizeEnable).
(** The contents of the buffers that [ll2string] writes to. *)
Context (tmpbuf : list Z).
(** The addresses of the tables of a dictionary that is iterated over. *)
Context (haddr : bool -> Z).

Definition isSdsRepresentableAsLongLong (s : sds) : bool :=
  match string2ll s with Some _ => true | None => false end.

Definition sdsfromlonglong (value : Z) : option sds :=
  '(len, buf) ← ll2string tmpbuf LONG_STR_SIZE value;
  rd buf 0 len.

(** ** Iterators *)

Definition setTypeInitIterator (o : robj) : setTypeIterator :=
  match o with
  | ObjHt _ => SiHt dictInitIterator
  | ObjIntset _ => SiIntset 0
  | ObjListpack _ => SiListpack None
  end.

(** An iterator that is not safe checks that the dictionary has not changed. *)
Definition setTypeReleaseIterator (o : robj) (si : setTypeIterator) : option unit :=
  match o, si with
  | ObjHt d, SiHt di => _ ← dictResetIterator haddr d di; Some tt
  | _, _ => Some tt
  end.

(** The string or the integer, or nothing for -1; an iterator is only used
    with the object it was made for. *)
Definition setTypeNext (o : robj) (si : setTypeIterator) : option (option (sds + Z) * setTypeIterator) :=
  match o, si with
  | ObjHt d, SiHt di =>
      '(de, _, di) ← dictNext haddr d di;
      Some (match de with Some e => Some (inl e.1) | None => None end, SiHt di)
  | ObjIntset ix, SiIntset ii =>
      r ← intsetGet ix (u32 ii);
      Some (match r with Some llele => Some (inr llele) | None => None end, SiIntset (ii + 1))
  | ObjListpack lp, SiListpack lpi =>
      lpi' ← match lpi with None => lpFirst lp | Some p => lpNext lp p end;
      match lpi' with
      | None => Some (None, si)
      | Some p =>
          v ← lpGet lp p;
          match v with
          | LpStr off len => s ← rd lp off len; Some (Some (inl s), SiListpack (Some p))
          | LpInt ll => Some (Some (inr ll), SiListpack (Some p))
          end
      end
  | _, _ => None
  end.

Definition setTypeNextObject (o : robj) (si : setTypeIterator) : option (option sds * setTypeIterator) :=
  '(r, si) ← setTypeNext o si;
  match r with
  | None => Some (None, si)
  | Some (inl s) => Some (Some s, si)
  | Some (inr ll) => s ← sdsfromlonglong ll; Some (Some s, si)
  end.

(** The length of a listpack is stored in its header when it is computed. *)
Definition setTypeSize (o : robj) : option (Z * robj) :=
  match o with
  | ObjHt d => Some (dictSize d, o)
  | ObjIntset ix => Some (intsetLen ix, o)
  | ObjListpack lp => '(n, lp) ← lpLength lp; Some (n, ObjListpack lp)
  end.

(** An iteration has one round more than there are elements. *)
Definition iter_fuel (o : robj) : nat :=
  match o with
  | ObjHt d => S (Z.to_nat (dictSize d))
  | ObjIntset ix => S (Z.to_nat (intsetLen ix))
  | ObjListpack lp => S (length lp)
  end.

(** ** Conversions *)

Fixpoint to_dict (fuel : nat) (o : robj) (si : setTypeIterator) (d : dict sds unit) : option (dict sds unit) :=
  match fuel with
  | O => None
  | S fuel =>
      '(element, si) ← setTypeNextObject o si;
      match element with
      | None => _ ← setTypeReleaseIterator o si; Some d
      | Some e =>
          '(r, d) ← dictAdd ty can d e tt;
          _ ← assertb (match r with DICT_OK => true | DICT_ERR => false end);
          to_dict fuel o si d
      end
  end.

Fixpoint to_listpack (fuel : nat) (o : robj) (si : setTypeIterator) (lp : list Z) : option (list Z) :=
  match fuel with
  | O => None
  | S fuel =>
      '(r, si) ← setTypeNext o si;
      match r with
      | None => _ ← setTypeReleaseIterator o si; Some lp
      | Some v =>
          r ← match v with inl s => lpAppend lp s | inr ll => lpAppendInteger lp ll end;
          '(lp, _) ← r;
          to_listpack fuel o si lp
      end
  end.

(** [C_OK] or [C_ERR]; the latter only when [panic] is not set and the
    allocation of the table fails. *)
Definition setTypeConvertAndExpand (calloc_ok : Z -> bool) (setobj : robj) (enc : obj_encoding) (cap : Z) (panic : bool) :
    option (bool * robj) :=
  match enc, setobj with
  | OBJ_ENCODING_HT, ObjHt _ | OBJ_ENCODING_LISTPACK, ObjListpack _ | OBJ_ENCODING_INTSET, _ => None
  | OBJ_ENCODING_HT, _ =>
      let '(r, d) := if panic then (DICT_OK, (dictExpand dictCreate cap).2) else dictTryExpand calloc_ok dictCreate cap in
      match r with
      | DICT_ERR => Some (false, setobj)
      | DICT_OK => d ← to_dict (iter_fuel setobj) setobj (setTypeInitIterator setobj) d; Some (true, ObjHt d)
      end
  | OBJ_ENCODING_LISTPACK, _ =>
      '(size, setobj) ← setTypeSize setobj;
      estcap ← match setobj with
               | ObjIntset ix =>
                   if 0 <? size then
                     mn ← intsetMin ix;
                     mx ← intsetMax ix;
                     Some (Z.max (lpEstimateBytesRepeatedInteger mn cap) (lpEstimateBytesRepeatedInteger mx cap))
                   else Some (u64 (cap * 2))
               | _ => Some (u64 (cap * 2))
               end;
      lp ← lpNew estcap;
      lp ← to_listpack (iter_fuel setobj) setobj (setTypeInitIterator setobj) lp;
      Some (true, ObjListpack lp)
  end.

Definition convert (setobj : robj) (enc : obj_encoding) (cap : Z) : option robj :=
  '(_, o) ← setTypeConvertAndExpand (fun _ => true) setobj enc cap true; Some o.

Definition setTypeConvert (setobj : robj) (enc : obj_encoding) : option robj :=
  '(size, setobj) ← setTypeSize setobj;
  convert setobj enc size.

Definition setTypeCreate (value : sds) (size_hint : Z) : option robj :=
  if isSdsRepresentableAsLongLong value && (size_hint <=? set_max_intset_entries server) then Some (ObjIntset intsetNew)
  else if size_hint <=? set_max_listpack_entries server then lp ← lpNew 0; Some (ObjListpack lp)
  else Some (ObjHt (dictExpand dictCreate size_hint).2).

Definition setTypeMaybeConvert (set : robj) (size_hint : Z) : option robj :=
  match set with
  | ObjListpack _ =>
      if set_max_listpack_entries server <? size_hint then convert set OBJ_ENCODING_HT size_hint else Some set
  | ObjIntset _ =>
      if set_max_intset_entries server <? size_hint then convert set OBJ_ENCODING_HT size_hint else Some set
  | ObjHt _ => Some set
  end.

Definition intsetMaxEntries : Z :=
  if Z.shiftl 1 30 <=? set_max_intset_entries server then Z.shiftl 1 30 else set_max_intset_entries server.

Definition maybeConvertIntset (ix : intset) : option robj :=
  if intsetMaxEntries <? intsetLen ix then setTypeConvert (ObjIntset ix) OBJ_ENCODING_HT else Some (ObjIntset ix).

Fixpoint to_intset (fuel : nat) (o : robj) (si : setTypeIterator) (ix : intset) : option intset :=
  match fuel with
  | O => None
  | S fuel =>
      '(r, si) ← setTypeNext o si;
      match r with
      | None => _ ← setTypeReleaseIterator o si; Some ix
      | Some v =>
          llval ← match v with inl s => string2ll s | inr ll => Some ll end;
          '(ix, success) ← intsetAdd junk ix llval;
          _ ← assertb success;
          to_intset fuel o si ix
      end
  end.

Definition maybeConvertToIntset (set : robj) : option robj :=
  match set with
  | ObjIntset _ => Some set
  | _ =>
      '(size, set) ← setTypeSize set;
      if intsetMaxEntries <? size then Some set
      else ix ← to_intset (iter_fuel set) set (setTypeInitIterator set) intsetNew; Some (ObjIntset ix)
  end.

(** ** Adding, removing and testing *)

(** [setTypeAddAux] from the assertion on; [tmp] is the integer whose decimal
    representation is in [tmpbuf], when [str] is [tmpbuf]. *)
Definition add_string (set : robj) (str : sds) (tmp : option Z) : option (bool * robj) :=
  match set with
  | ObjHt ht =>
      '(position, ht) ← dictFindPositionForInsert ty can ht str;
      match position with
      | inr position => '(_, ht) ← dictInsertAtPosition ht str tt position; Some (true, ObjHt ht)
      | inl _ => Some (false, ObjHt ht)
      end
  | ObjListpack lp =>
      p ← lpFirst lp;
      p ← match p with Some p => lpFind lp p str 0 | None => Some None end;
      match p with
      | None =>
          '(n, lp) ← lpLength lp;
          safe ← lpSafeToAdd (Some lp) (Zlen str);
          if ((n <? set_max_listpack_entries server) && (Zlen str <=? set_max_listpack_value server) && safe : bool) then
            r ← match tmp with Some llval => lpAppendInteger lp llval | None => lpAppend lp str end;
            '(lp, _) ← r;
            Some (true, ObjListpack lp)
          else
            '(n, lp) ← lpLength lp;
            o ← convert (ObjListpack lp) OBJ_ENCODING_HT (n + 1);
            match o with
            | ObjHt d =>
                '(r, d) ← dictAdd ty can d str tt;
                _ ← assertb (match r with DICT_OK => true | DICT_ERR => false end);
                Some (true, ObjHt d)
            | _ => None
            end
      | Some _ => Some (false, set)
      end
  | ObjIntset ix =>
      match string2ll str with
      | Some value =>
          '(ix, success) ← intsetAdd junk ix value;
          if (success : bool) then o ← maybeConvertIntset ix; Some (true, o) else Some (false, ObjIntset ix)
      | None =>
          let n := intsetLen ix in
          '(maxelelen, totsize) ←
            (if n =? 0 then Some (0, 0)
             else
               mx ← intsetMax ix;
               mn ← intsetMin ix;
               Some (Z.max (sdigits10 mx) (sdigits10 mn),
                     Z.max (lpEstimateBytesRepeatedInteger mx n) (lpEstimateBytesRepeatedInteger mn n)));
          safe ← lpSafeToAdd None (u64 (totsize + Zlen str));
          if ((n <? set_max_listpack_entries server) && (Zlen str <=? set_max_listpack_value server) &&
              (maxelelen <=? set_max_listpack_value server) && safe : bool) then
            o ← convert set OBJ_ENCODING_LISTPACK (n + 1);
            match o with
            | ObjListpack lp =>
                r ← lpAppend lp str;
                '(lp, _) ← r;
                lp ← lpShrinkToFit lp;
                Some (true, ObjListpack lp)
            | _ => None
            end
          else
            o ← convert set OBJ_ENCODING_HT (n + 1);
            match o with
            | ObjHt d =>
                '(r, d) ← dictAdd ty can d str tt;
                _ ← assertb (match r with DICT_OK => true | DICT_ERR => false end);
                Some (true, ObjHt d)
            | _ => None
            end
      end
  end.

(** [str] is a string, or the null pointer and the value is [llval]. *)
Definition setTypeAddAux (set : robj) (str : option sds) (llval : Z) : option (bool * robj) :=
  match str, set with
  | None, ObjIntset ix =>
      '(ix, success) ← intsetAdd junk ix llval;
      if (success : bool) then o ← maybeConvertIntset ix; Some (true, o) else Some (false, ObjIntset ix)
  | None, _ => str ← sdsfromlonglong llval; add_string set str (Some llval)
  | Some str, _ => add_string set str None
  end.

Definition setTypeAdd (subject : robj) (value : sds) : option (bool * robj) := setTypeAddAux subject (Some value) 0.

(** The copy keeps the encoding. *)
Fixpoint dup_loop (fuel : nat) (o : robj) (si : setTypeIterator) (set : robj) : option robj :=
  match fuel with
  | O => None
  | S fuel =>
      '(r, si) ← setTypeNext o si;
      match r with
      | None => _ ← setTypeReleaseIterator o si; Some set
      | Some (inl str) => '(_, set) ← setTypeAdd set str; dup_loop fuel o si set
      | Some (inr _) => None
      end
  end.

Definition setTypeDup (o : robj) : option robj :=
  match o with
  | ObjIntset ix =>
      contents ← rd (contents ix) 0 (u64 (intsetBlobLen ix - 8));
      Some (ObjIntset {| encoding := encoding ix; length_ := length_ ix; contents := contents |})
  | ObjListpack lp => sz ← lpBytes lp; new_lp ← rd lp 0 sz; Some (ObjListpack new_lp)
  | ObjHt d => dup_loop (iter_fuel o) o (setTypeInitIterator o) (ObjHt (dictExpand dictCreate (dictSize d)).2)
  end.

Definition remove_string (setobj : robj) (str : sds) : option (bool * robj) :=
  match setobj with
  | ObjHt d =>
      '(r, d) ← dictDelete ty can d str;
      match r with
      | DICT_OK =>
          resize ← htNeedsResize d;
          Some (true, ObjHt (if (resize : bool) then (dictResize can d).2 else d))
      | DICT_ERR => Some (false, ObjHt d)
      end
  | ObjListpack lp =>
      p ← lpFirst lp;
      match p with
      | None => Some (false, setobj)
      | Some p =>
          p ← lpFind lp p str 0;
          match p with
          | Some p => r ← lpDelete lp p; '(lp, _) ← r; Some (true, ObjListpack lp)
          | None => Some (false, setobj)
          end
      end
  | ObjIntset ix =>
      match string2ll str with
      | Some llval => '(ix, success) ← intsetRemove junk ix llval; Some (success, ObjIntset ix)
      | None => Some (false, setobj)
      end
  end.

Definition setTypeRemoveAux (setobj : robj) (str : option sds) (llval : Z) : option (bool * robj) :=
  match str, setobj with
  | None, ObjIntset ix => '(ix, success) ← intsetRemove junk ix llval; Some (success, ObjIntset ix)
  | None, _ => str ← sdsfromlonglong llval; remove_string setobj str
  | Some str, _ => remove_string setobj str
  end.

Definition setTypeRemove (setobj : robj) (value : sds) : option (bool * robj) := setTypeRemoveAux setobj (Some value) 0.

Definition member_string (set : robj) (str : sds) : option (bool * robj) :=
  match set with
  | ObjListpack lp =>
      p ← lpFirst lp;
      match p with
      | None => Some (false, set)
      | Some p => r ← lpFind lp p str 0; Some (match r with Some _ => true | None => false end, set)
      end
  | ObjIntset ix =>
      match string2ll str with
      | Some llval => r ← intsetFind ix llval; Some (r, set)
      | None => Some (false, set)
      end
  | ObjHt d => '(de, d) ← dictFind ty can d str; Some (match de with Some _ => true | None => false end, ObjHt d)
  end.

Definition setTypeIsMemberAux (set : robj) (str : option sds) (llval : Z) : option (bool * robj) :=
  match str, set with
  | None, ObjIntset ix => r ← intsetFind ix llval; Some (r, set)
  | None, _ => str ← sdsfromlonglong llval; member_string set str
  | Some str, _ => member_string set str
  end.

Definition setTypeIsMember (subject : robj) (value : sds) : option (bool * robj) := setTypeIsMemberAux subject (Some value) 0.

End SetType.

End SetType.
