(* ===== verification/SetSpec.v ===== *)
(** * Sets: three encodings of one finite set of strings

    A set object in any of its encodings stands for a finite set of strings.
    The operations compute on this set, and so do the conversions, which keep
    it; they never fail an assertion and never store a null listpack. *)

From stdpp Require Import gmap.
From S2P Require Import Prelude.
From S2P Require Import Intset.
From S2P Require Import NumConv.
From S2P Require Import ListpackEnc.
From S2P Require Import Listpack.
From S2P Require Import ListpackOps.
From S2P Require Import ListpackEdit.
From S2P Require Import Dict.
From S2P Require Import DictSpec.
From S2P Require Import DictMap.
From S2P Require Import DictIter.
From S2P Require Import SetType.
Import NumConv LpEnc Lp LpOps LpEdit Dict DictSpec DictMap DictIter SetType.

Module SetSpec.

(** ** Values *)

(** The string a value of an iterator stands for, and the element it is
    stored as in a listpack. *)
Definition value_string (v : sds + Z) : sds := match v with inl s => s | inr z => lltoa z end.
Definition value_elem (v : sds + Z) : elem := match v with inl s => elem_of_string s | inr z => EInt z end.
Definition value_ok (v : sds + Z) : Prop := match v with inl s => bytes_ok s | inr z => LLONG_MIN <= z <= LLONG_MAX end.

Lemma value_elem_string v : elem_string (value_elem v) = value_string v.
Proof. destruct v; [apply elem_string_of|done]. Qed.

Lemma lltoa_inj a b : LLONG_MIN <= a <= LLONG_MAX -> LLONG_MIN <= b <= LLONG_MAX -> lltoa a = lltoa b -> a = b.
Proof. intros Ha Hb Heq. pose proof (string2ll_complete a Ha). pose proof (string2ll_complete b Hb). congruence. Qed.

Lemma intset_range ix l : Intset.repr ix l -> Forall (fun v => LLONG_MIN <= v <= LLONG_MAX) l.
Proof.
  intros Hr. pose proof (Intset.repr_fits _ _ Hr) as Hf. pose proof (Intset.repr_enc _ _ Hr) as He.
  eapply Forall_impl; [exact Hf|]. intros v Hv. unfold Intset.fits in Hv. destruct He as [He|[He|He]]; rewrite He in Hv; cbn in Hv; lia.
Qed.

Lemma intset_nodup ix l : Intset.repr ix l -> NoDup l.
Proof.
  intros Hr. pose proof (Intset.repr_sorted _ _ Hr) as Hs. clear Hr. induction Hs as [|x l Hs IH Hx]; [constructor|].
  constructor; [|done]. intros Hin. rewrite Forall_forall in Hx. specialize (Hx x Hin). lia.
Qed.

Lemma strings_nodup l : Forall (fun v => LLONG_MIN <= v <= LLONG_MAX) l -> NoDup l -> NoDup (lltoa <$> l).
Proof.
  intros Hf. induction 1 as [|x l Hx Hnd IH]; [constructor|]. apply Forall_cons in Hf as [Hfx Hf]. cbn. constructor; [|by apply IH].
  intros (y & Hy & Hin)%list_elem_of_fmap. rewrite Forall_forall in Hf. apply Hx. by rewrite (lltoa_inj x y) by auto.
Qed.

Lemma intsetGet_ok ix l k :
  Intset.repr ix l -> Zlen l < 2 ^ 29 -> (k <= length l)%nat -> Intset.intsetGet ix (u32 (Z.of_nat k)) = Some (l !! k).
Proof.
  intros Hr Hl Hk. unfold Intset.intsetGet. rewrite uwrap_small, (Intset.repr_len _ _ Hr) by lia.
  destruct (Z.ltb_spec (Z.of_nat k) (Zlen l)) as [Hlt|Hge].
  - destruct (lookup_lt_is_Some_2 l k) as [v Hv]; [lia|]. rewrite swrap_small by lia. by rewrite (Intset.repr_get _ _ _ _ Hr Hv), Hv.
  - by rewrite lookup_ge_None_2 by lia.
Qed.

(** ** Iterating *)

Section Iterating.
Context (haddr : bool -> Z).

Fixpoint yields (o : robj) (si : setTypeIterator) (vs : list (sds + Z)) : Prop :=
  match vs with
  | [] => exists si', setTypeNext haddr o si = Some (None, si') /\ setTypeReleaseIterator haddr o si' = Some tt
  | v :: vs => exists si', setTypeNext haddr o si = Some (Some v, si') /\ yields o si' vs
  end.

Lemma intset_yields ix l k :
  Intset.repr ix l -> Zlen l < 2 ^ 29 -> (k <= length l)%nat -> yields (ObjIntset ix) (SiIntset (Z.of_nat k)) (inr <$> drop k l).
Proof.
  intros Hr Hl. remember (length l - k)%nat as n eqn:Hn. revert k Hn. induction n as [|n IH]; intros k Hn Hk.
  - rewrite drop_ge by lia. cbn. rewrite (intsetGet_ok ix l k) by done. rewrite lookup_ge_None_2 by lia. by eexists.
  - destruct (lookup_lt_is_Some_2 l k) as [v Hv]; [lia|]. rewrite (drop_S _ _ _ Hv). cbn. rewrite (intsetGet_ok ix l k) by done.
    rewrite Hv. eexists. split; [done|]. replace (Z.of_nat k + 1) with (Z.of_nat (S k)) by lia. apply IH; lia.
Qed.

(** An element of a listpack as the iterator returns it. *)
Definition elem_value (e : elem) : sds + Z := match e with EInt z => inr z | EStr s => inl s end.

Lemma listpack_get lp es1 e es2 :
  repr lp (es1 ++ e :: es2) ->
  (v ← lpGet lp (pos es1);
   match v with
   | LpStr off len => s ← rd lp off len; Some (Some (inl s), SiListpack (Some (pos es1)))
   | LpInt ll => Some (Some (inr ll), SiListpack (Some (pos es1)))
   end) = Some (Some (elem_value e), SiListpack (Some (pos es1))).
Proof.
  intros Hr. destruct (at_entry lp _ Hr es1 e es2 eq_refl) as (He & Hat & _). unfold lpGet.
  destruct (elem_get lp (pos es1) e 0 He Hat) as (v & -> & Hv). cbn [mbind option_bind]. destruct e as [z|s], v as [z'|off len]; try done.
  - cbn in Hv. by subst z'.
  - cbn in Hv. destruct Hv as [-> Hs]. by rewrite (at_rd _ _ _ _ Hs).
Qed.

Lemma listpack_yields lp es es1 es2 lpi :
  repr lp es -> es = es1 ++ es2 ->
  match lpi with
  | None => es1 = []
  | Some p => exists es0 e, es1 = es0 ++ [e] /\ p = pos es0
  end ->
  yields (ObjListpack lp) (SiListpack lpi) (elem_value <$> es2).
Proof.
  intros Hr. revert es1 lpi. induction es2 as [|e es2 IH]; intros es1 lpi Heq Hp.
  - cbn [yields fmap list_fmap setTypeNext]. assert (Hn : match lpi with None => lpFirst lp | Some p => lpNext lp p end = Some None).
    { destruct lpi as [p|].
      - destruct Hp as (es0 & e & -> & ->). rewrite <- app_assoc in Heq. rewrite (lpNext_spec lp es Hr es0 e [] Heq). done.
      - subst es1 es. by rewrite (lpFirst_spec lp [] Hr). }
    rewrite Hn. by eexists.
  - cbn [yields fmap list_fmap setTypeNext]. assert (Hn : match lpi with None => lpFirst lp | Some p => lpNext lp p end = Some (Some (pos es1))).
    { destruct lpi as [p|].
      - destruct Hp as (es0 & e0 & -> & ->). rewrite <- app_assoc in Heq. by rewrite (lpNext_spec lp es Hr es0 e0 (e :: es2) Heq).
      - subst es1 es. by rewrite (lpFirst_spec lp _ Hr). }
    rewrite Hn. cbn [mbind option_bind]. rewrite Heq in Hr. rewrite (listpack_get lp es1 e es2 Hr). rewrite <- Heq in Hr.
    eexists. split; [done|]. apply (IH (es1 ++ [e])); [by rewrite <- app_assoc|]. by exists es1, e.
Qed.

Lemma dict_yields {d : dict sds unit} (it : dictIterator) R :
  sizes_ok d -> it_ok d it -> fp_ok haddr d it -> it_safe it = false -> rest d it = R ->
  yields (ObjHt d) (SiHt it) ((fun e => inl e.1) <$> R).
Proof.
  intros Hsz. revert it. induction R as [|e R IH]; intros it Hok Hfp Hs Hr; cbn [yields fmap list_fmap setTypeNext];
    destruct (dictNext_spec haddr d it Hsz Hok Hfp) as (r & d' & it' & -> & Hd & Hi & Hs' & Hfp' & Hm); rewrite Hr in Hm; cbn [mbind option_bind];
    rewrite Hs, andb_false_r in Hd; subst d'.
  - subst r. eexists. split; [done|]. cbn [setTypeReleaseIterator]. by rewrite (release_spec haddr d it' Hfp') by by rewrite Hs'.
  - destruct Hm as (-> & Hok' & Hr'). eexists. split; [done|]. apply IH; [exact Hok'|exact Hfp'|by rewrite Hs'|exact Hr'].
Qed.

End Iterating.

(** ** Sizes of listpacks of integers *)

(** The length of an encoded integer. *)
Definition int_len (v : Z) : Z :=
  if (0 <=? v) && (v <=? 127) then 1 else if (-4096 <=? v) && (v <=? 4095) then 2
  else if (-32768 <=? v) && (v <=? 32767) then 3 else if (-8388608 <=? v) && (v <=? 8388607) then 4
  else if (-2147483648 <=? v) && (v <=? 2147483647) then 5 else 9.

Lemma int_len_spec v : Zlen (lpEncodeIntegerGetType v) = int_len v.
Proof. unfold lpEncodeIntegerGetType, int_len. by repeat case (_ && _). Qed.

Lemma int_len_between mn v mx : mn <= v <= mx -> int_len v <= Z.max (int_len mn) (int_len mx).
Proof.
  intros Hv. destruct (Z.le_gt_cases 0 v).
  - enough (int_len v <= int_len mx) by lia. unfold int_len.
    repeat match goal with |- context [if ?b then _ else _] => destruct b eqn:?; try lia end.
  - enough (int_len v <= int_len mn) by lia. unfold int_len.
    repeat match goal with |- context [if ?b then _ else _] => destruct b eqn:?; try lia end.
Qed.

Lemma int_entry v : Zlen (entry (EInt v)) = int_len v + 1.
Proof.
  unfold entry. cbn [enc]. rewrite Zlen_app, int_len_spec. unfold lpEncodeBacklen.
  assert (int_len v <= 127) by (unfold int_len; repeat case (_ && _); lia). by rewrite (proj2 (Z.leb_le _ _)) by lia.
Qed.

Lemma estimate_spec v n : 0 <= n < 2 ^ 32 -> lpEstimateBytesRepeatedInteger v n = 7 + (int_len v + 1) * n.
Proof.
  intros Hn. unfold lpEstimateBytesRepeatedInteger, lpBacklenSize. rewrite int_len_spec.
  assert (1 <= int_len v <= 9) by (unfold int_len; repeat case (_ && _); lia).
  unfold lpEncodeBacklen. rewrite (proj2 (Z.leb_le _ _)) by lia. cbn [length]. rewrite uwrap_small by nia. lia.
Qed.

Lemma ints_size l mn mx :
  Forall (fun v => mn <= v <= mx) l -> pos (EInt <$> l) <= 6 + (Z.max (int_len mn) (int_len mx) + 1) * Zlen l.
Proof.
  unfold pos. change LP_HDR_SIZE with 6. induction 1 as [|v l Hv Hl IH]; [cbn; lia|]. rewrite fmap_cons, body_cons, Zlen_app, int_entry.
  pose proof (int_len_between mn v mx Hv). cbn [length]. lia.
Qed.

(** The first entry of a listpack that reads as a string. *)
Lemma find_spec lp es s :
  repr lp es ->
  exists r, (p ← lpFirst lp; match p with Some p => lpFind lp p s 0 | None => Some None end) = Some r /\
    match r with
    | None => s ∉ elem_string <$> es
    | Some p => exists k, (k < length es)%nat /\ p = pos (take k es) /\ elem_string <$> es !! k = Some s
    end.
Proof.
  intros Hr. rewrite (first_nth lp es Hr). cbn [mbind option_bind]. unfold nth_ptr. destruct es as [|e es]; [exists None; split; [done|apply not_elem_of_nil]|].
  rewrite (proj2 (andb_true_iff _ _)) by (cbn [length]; lia). pose proof (lpFind_spec lp (e :: es) Hr 0 s 0) as Hf.
  change (Z.to_nat 0) with 0%nat in Hf |- *. change (Z.of_nat 0) with 0 in Hf. rewrite Hf by (cbn [length]; lia).
  pose proof (find_from_spec s 0 (drop 0 (e :: es)) 0) as Hff. rewrite drop_0 in *.
  destruct (find_from s 0 0 (e :: es)) as [j|]; cbn [fmap option_fmap option_map].
  - destruct Hff as (m & -> & Hj & _). eexists. split; [done|]. exists (0 + m * 1)%nat.
    split; [|done]. apply fmap_Some in Hj as (x & Hj & _). by apply lookup_lt_Some in Hj.
  - eexists. split; [done|]. intros (x & -> & [m Hm]%list_elem_of_lookup)%list_elem_of_fmap. apply (Hff m).
    rewrite Nat.mul_1_r, Nat.add_0_l, Hm. done.
Qed.

Lemma zinsert_length v l : (length (Intset.zinsert v l) <= S (length l))%nat.
Proof.
  unfold Intset.zinsert. rewrite length_app. cbn [length].
  enough (length (base.filter (fun x => x < v)%Z l) + length (base.filter (fun x => v < x)%Z l) <= length l)%nat by lia.
  induction l as [|x l IH]; [done|]. rewrite !filter_cons. do 2 case_decide; cbn [length]; lia.
Qed.

Lemma zinsert_strings v l :
  (list_to_set (lltoa <$> Intset.zinsert v l) : gset sds) = {[lltoa v]} ∪ list_to_set (lltoa <$> l).
Proof.
  apply set_eq. intros s. rewrite elem_of_union, elem_of_singleton, !elem_of_list_to_set, !list_elem_of_fmap. unfold Intset.zinsert.
  setoid_rewrite elem_of_app. setoid_rewrite elem_of_cons. setoid_rewrite list_elem_of_filter. split.
  - intros (y & -> & [[_ Hy]|[->|[_ Hy]]]); [right|left|right]; eauto.
  - intros [->|(y & -> & Hy)]; [by exists v; eauto|]. exists y. split; [done|]. destruct (Z.lt_trichotomy y v) as [?|[?|?]]; auto.
Qed.

Lemma zremove_strings v l :
  Forall (fun v => LLONG_MIN <= v <= LLONG_MAX) l -> LLONG_MIN <= v <= LLONG_MAX ->
  (list_to_set (lltoa <$> Intset.zremove v l) : gset sds) = list_to_set (lltoa <$> l) ∖ {[lltoa v]}.
Proof.
  intros Hf Hv. rewrite Forall_forall in Hf. apply set_eq. intros s.
  rewrite elem_of_difference, elem_of_singleton, !elem_of_list_to_set, !list_elem_of_fmap. unfold Intset.zremove.
  setoid_rewrite list_elem_of_filter. split.
  - intros (y & -> & Hne & Hy). split; [eauto|]. intros Heq. by apply Hne, lltoa_inj; auto.
  - intros [(y & -> & Hy) Hne]. exists y. split; [done|]. split; [|done]. by intros ->.
Qed.

Lemma int_member v l :
  Forall (fun v => LLONG_MIN <= v <= LLONG_MAX) l -> LLONG_MIN <= v <= LLONG_MAX ->
  lltoa v ∈ (list_to_set (lltoa <$> l) : gset sds) <-> v ∈ l.
Proof.
  intros Hf Hv. rewrite Forall_forall in Hf. rewrite elem_of_list_to_set, list_elem_of_fmap. split; [|eauto].
  intros (y & Heq & Hy). by rewrite (lltoa_inj v y) by auto.
Qed.

(** A string that is not the representation of an integer is in no intset. *)
Lemma string_member s l :
  Forall (fun v => LLONG_MIN <= v <= LLONG_MAX) l -> string2ll s = None -> s ∉ (list_to_set (lltoa <$> l) : gset sds).
Proof.
  intros Hf Hs. rewrite Forall_forall in Hf. rewrite elem_of_list_to_set, list_elem_of_fmap. intros (y & -> & Hy).
  by rewrite string2ll_complete in Hs by auto.
Qed.

Lemma string_entry s : Zlen (entry (elem_of_string s)) <= Zlen s + 10.
Proof.
  unfold elem_of_string. destruct (lpStringToInt64 s) as [v|].
  - rewrite int_entry. assert (int_len v <= 9) by (unfold int_len; repeat case (_ && _); lia). lia.
  - rewrite entry_length. cbn [enc]. pose proof (backlen_size (Zlen (lpEncodeString s))).
    assert (Zlen (lpEncodeString s) <= Zlen s + 5); [|lia]. unfold lpEncodeString. repeat case (_ <? _); cbn [length app]; lia.
Qed.

Lemma delete_element es k e :
  NoDup (elem_string <$> es) -> elem_string <$> es !! k = Some e ->
  NoDup (elem_string <$> (take k es ++ drop (S k) es)) /\
  (list_to_set (elem_string <$> (take k es ++ drop (S k) es)) : gset sds) = list_to_set (elem_string <$> es) ∖ {[e]}.
Proof.
  intros Hnd (x & Hx & ->)%fmap_Some. rewrite <- (take_drop_middle es k x Hx) in Hnd at 1.
  rewrite !fmap_app, fmap_cons in *. rewrite <- Permutation_middle in Hnd. apply NoDup_cons in Hnd as [Hn Hnd]. split; [done|].
  rewrite <- (take_drop_middle es k x Hx) at 3. rewrite fmap_app, fmap_cons. apply set_eq. intros y.
  rewrite elem_of_difference, elem_of_singleton, !elem_of_list_to_set, !elem_of_app, elem_of_cons. rewrite elem_of_app in Hn.
  split; [|tauto]. intros Hy. split; [tauto|]. intros ->. tauto.
Qed.

(** The keys of a dictionary. *)
Definition members (d : dict sds unit) : gset sds := dom (dict_map d).

Lemma members_none d e : e ∉ members d <-> dict_map d !! e = None.
Proof. apply not_elem_of_dom. Qed.

Section Spec.
Context `{Allocator} (server : redisServer) (ty : dictType sds) `{!DictLaws ty} (can : dictResizeEnable).
Context (tmpbuf : list Z) (haddr : bool -> Z) (Htmp : Zlen tmpbuf = LONG_STR_SIZE).
(** An intset of 2^29 members of 8 bytes has 2^32 bytes, more than the 32-bit
    sizes of intset.c can hold. *)
Context (Hcfg : 0 <= set_max_intset_entries server < 2 ^ 29 - 1).
#[local] Set Default Proof Using "All".

Lemma sdsfromlonglong_ok v : LLONG_MIN <= v <= LLONG_MAX -> sdsfromlonglong tmpbuf v = Some (lltoa v).
Proof.
  intros Hv. unfold sdsfromlonglong. pose proof (lltoa_length v Hv). unfold LONG_STR_SIZE in *.
  destruct (ll2string_spec tmpbuf 21 v) as (post & -> & Hl); [done|lia..|]. cbn [mbind option_bind].
  exact (rd_app [] (lltoa v) (0 :: post) 0 _ eq_refl eq_refl).
Qed.

(** ** The invariant *)

Inductive set_ok : robj -> gset sds -> Prop :=
  | ok_intset ix l M :
      Intset.repr ix l -> Zlen l <= set_max_intset_entries server -> M = list_to_set (lltoa <$> l) -> set_ok (ObjIntset ix) M
  | ok_listpack lp es M :
      repr lp es -> NoDup (elem_string <$> es) -> M = list_to_set (elem_string <$> es) -> set_ok (ObjListpack lp) M
  | ok_ht d M : wf ty d -> M = members d -> set_ok (ObjHt d) M.

(** What an iteration over an object gives. *)
Definition iterable (o : robj) (M : gset sds) : Prop :=
  exists vs, yields haddr o (setTypeInitIterator o) vs /\ NoDup (value_string <$> vs) /\ M = list_to_set (value_string <$> vs) /\
    (length vs < iter_fuel o)%nat /\ Forall (fun v => match v with inr z => LLONG_MIN <= z <= LLONG_MAX | inl _ => True end) vs.

Lemma intset_iterable ix l : Intset.repr ix l -> Zlen l < 2 ^ 29 -> iterable (ObjIntset ix) (list_to_set (lltoa <$> l)).
Proof.
  intros Hr Hl. pose proof (intset_range ix l Hr) as Hf. exists (inr <$> l). cbn [setTypeInitIterator iter_fuel]. split.
  { apply (intset_yields haddr ix l 0 Hr); lia. }
  rewrite <- list_fmap_compose. cbn. change (lltoa <$> l) with ((fun z => lltoa z) <$> l).
  split; [apply strings_nodup; [done|by eapply intset_nodup]|]. split; [done|]. rewrite length_fmap. split.
  - unfold Intset.intsetLen. rewrite (Intset.repr_len _ _ Hr). lia.
  - by rewrite Forall_fmap.
Qed.

Lemma set_iterable o M : set_ok o M -> iterable o M.
Proof.
  intros [ix l M' Hr Hl ->|lp es M' Hr Hnd ->|d M' Hwf ->]; [apply intset_iterable; [done|lia]|..];
    unfold iterable; cbn [setTypeInitIterator iter_fuel].
  - exists (elem_value <$> es). split; [by apply (listpack_yields haddr lp es [] es None Hr)|].
    assert (Hv : value_string <$> (elem_value <$> es) = elem_string <$> es).
    { rewrite <- list_fmap_compose. apply list_fmap_ext. by intros _ [z|s] _. }
    rewrite Hv. split; [done|]. split; [done|]. rewrite length_fmap. pose proof (length_bound lp es Hr) as Hb. split; [lia|].
    destruct Hr as (Hok & _). apply Forall_fmap. eapply Forall_impl; [exact Hok|]. by intros [z|s].
  - exists ((fun e => inl e.1) <$> entries d). split; [destruct (init_ok haddr d false) as (Hio & Hfp & Hre & Hsf); by apply dict_yields; [by eapply wf_sizes|..]|].
    assert (Hv : value_string <$> ((fun e => inl e.1) <$> entries d) = (entries d).*1).
    { rewrite <- list_fmap_compose. by apply list_fmap_ext. }
    rewrite Hv. split; [apply Hwf|]. split; [apply dom_list_to_map_L|]. rewrite length_fmap. split.
    + rewrite (dictSize_map ty) by done. unfold dict_map. rewrite map_size_list_to_map by apply Hwf. lia.
    + apply Forall_fmap, Forall_true. done.
Qed.

(** ** Conversions *)

Lemma dict_bound d : wf ty d -> Zlen (entries d) = Z.of_nat (size (members d)).
Proof.
  intros Hwf. unfold members. rewrite size_dom. unfold dict_map. by rewrite map_size_list_to_map by apply Hwf.
Qed.

Lemma to_dict_ok vs : forall o si d fuel,
  yields haddr o si vs -> wf ty d -> NoDup (value_string <$> vs) -> (forall v, v ∈ vs -> value_string v ∉ members d) ->
  Forall (fun v => match v with inr z => LLONG_MIN <= z <= LLONG_MAX | inl _ => True end) vs ->
  Z.of_nat (size (members d)) + Zlen vs < 2 ^ 60 -> (length vs < fuel)%nat ->
  exists d', to_dict ty can tmpbuf haddr fuel o si d = Some d' /\ wf ty d' /\
    members d' = members d ∪ list_to_set (value_string <$> vs).
Proof.
  induction vs as [|v vs IH]; intros o si d fuel Hy Hwf Hnd Hnew Hf Hb Hfuel; (destruct fuel as [|fuel]; [cbn in Hfuel; lia|]);
    cbn [to_dict yields] in *; unfold setTypeNextObject.
  - destruct Hy as (si' & -> & Hrel). cbn [mbind option_bind]. rewrite Hrel. exists d. cbn. by rewrite union_empty_r_L.
  - destruct Hy as (si' & -> & Hy). apply NoDup_cons in Hnd as [Hv Hnd]. apply Forall_cons in Hf as [Hfv Hf].
    cbn [length] in Hb, Hfuel.
    assert (Hobj : (match v with inl s => Some (Some s, si') | inr ll => s ← sdsfromlonglong tmpbuf ll; Some (Some s, si') end) =
      Some (Some (value_string v), si')) by (destruct v; [done|by rewrite sdsfromlonglong_ok]).
    cbn [mbind option_bind]. rewrite Hobj. cbn [mbind option_bind].
    destruct (dictAdd_spec ty can d (value_string v) tt Hwf) as (d1 & Hwf1 & Hd1); [rewrite dict_bound by done; lia|].
    assert (Hn : value_string v ∉ members d) by (apply Hnew; by left). apply members_none in Hn as Hn'.
    rewrite Hn' in Hd1. destruct Hd1 as [-> Hm1]. cbn [mbind option_bind assertb].
    assert (Hmem : members d1 = {[value_string v]} ∪ members d) by (unfold members; by rewrite Hm1, dom_insert_L).
    destruct (IH o si' d1 fuel Hy Hwf1 Hnd) as (d' & -> & Hwf' & Hm'); [|done| |lia|].
    + intros w Hw. rewrite Hmem. intros [Heq%elem_of_singleton|Hin]%elem_of_union.
      * apply Hv. rewrite <- Heq. by apply list_elem_of_fmap_2.
      * by apply (Hnew w); [right|].
    + rewrite Hmem, size_union, size_singleton by (clear -Hn; set_solver). lia.
    + exists d'. split; [done|]. split; [done|]. rewrite Hm', Hmem, fmap_cons, list_to_set_cons. by rewrite (union_comm_L {[_]}), <- union_assoc_L.
Qed.

(** A new dictionary of any capacity. *)
Lemma expand_new cap : 0 <= cap < 2 ^ 64 -> wf (V := unit) ty (dictExpand dictCreate cap).2 /\ members (dictExpand dictCreate cap).2 = ∅.
Proof.
  intros Hcap. unfold dictExpand. destruct (_dictExpand_spec (V := unit) ty (fun _ => true) dictCreate cap (dictCreate_wf ty) Hcap)
    as (st & mf & d' & -> & Hw & Hs & _). cbn [snd]. split; [done|]. unfold members.
  by rewrite (dict_map_same ty dictCreate d' (dictCreate_wf ty) Hs).
Qed.

Lemma convert_ht o M cap :
  iterable o M -> (forall d, o <> ObjHt d) -> 0 <= cap < 2 ^ 64 -> Z.of_nat (size M) < 2 ^ 60 ->
  exists d, convert ty can tmpbuf haddr o OBJ_ENCODING_HT cap = Some (ObjHt d) /\ wf ty d /\ members d = M.
Proof.
  intros (vs & Hy & Hnd & HM & Hl & Hf) Hne Hcap Hb.
  destruct (expand_new cap Hcap) as [Hwf0 Hm0].
  destruct (to_dict_ok vs o (setTypeInitIterator o) (dictExpand dictCreate cap).2 (iter_fuel o) Hy Hwf0 Hnd)
    as (d & Hd & Hwf & Hm); [|done| |done|].
  - intros v _. rewrite Hm0. apply not_elem_of_empty.
  - rewrite Hm0, size_empty. rewrite HM, size_list_to_set, length_fmap in Hb by done. lia.
  - exists d. split; [|split; [done|by rewrite Hm, Hm0, HM, union_empty_l_L]]. unfold convert, setTypeConvertAndExpand.
    destruct o as [ix|lp|d']; [rewrite Hd; done..|]. by destruct (Hne d').
Qed.

Lemma to_listpack_ok l : forall o si lp es fuel,
  yields haddr o si (inr <$> l) -> repr lp es -> Forall (fun v => LLONG_MIN <= v <= LLONG_MAX) l ->
  pos (es ++ (EInt <$> l)) + 1 < 2 ^ 32 -> (length l < fuel)%nat ->
  exists lp', to_listpack haddr fuel o si lp = Some lp' /\ repr lp' (es ++ (EInt <$> l)).
Proof using H.
  induction l as [|v l IH]; intros o si lp es fuel Hy Hr Hf Hsz Hfuel; (destruct fuel as [|fuel]; [cbn in Hfuel; clear - Hfuel; lia|]);
    cbn [to_listpack yields fmap list_fmap] in *.
  - destruct Hy as (si' & -> & Hrel). cbn [mbind option_bind]. rewrite Hrel, app_nil_r. by exists lp.
  - destruct Hy as (si' & -> & Hy). cbn [mbind option_bind]. apply Forall_cons in Hf as [Hv Hf].
    assert (Hsz1 : pos es + Zlen (entry (EInt v)) + 1 < 2 ^ 32).
    { clear - Hsz. rewrite pos_app, body_cons, Zlen_app in Hsz. lia. }
    destruct (append_int lp es v Hr Hv Hsz1) as (lp1 & p & -> & Hr1). cbn [mbind option_bind].
    assert (Heq : es ++ EInt v :: (EInt <$> l) = (es ++ [EInt v]) ++ (EInt <$> l)) by by rewrite <- app_assoc.
    rewrite Heq in *. apply IH; try done. cbn in Hfuel. clear - Hfuel. lia.
Qed.

Lemma intset_extremes ix l :
  Intset.repr ix l -> Zlen l <= set_max_intset_entries server -> l <> [] ->
  exists mn mx, Intset.intsetMin ix = Some mn /\ Intset.intsetMax ix = Some mx /\ Forall (fun v => mn <= v <= mx) l.
Proof.
  intros Hr Hl Hne. destruct (Intset.intset_accessors ix l Hr Hne ltac:(lia)) as (_ & (mn & Hmn & _ & Hlo) & (mx & Hmx & _ & Hhi) & _).
  exists mn, mx. split; [done|]. split; [done|]. rewrite Forall_forall in *. intros v Hv. split; auto.
Qed.

Lemma convert_listpack ix l cap :
  Intset.repr ix l -> Zlen l <= set_max_intset_entries server -> pos (EInt <$> l) + 1 < 2 ^ 32 ->
  exists lp, convert ty can tmpbuf haddr (ObjIntset ix) OBJ_ENCODING_LISTPACK cap = Some (ObjListpack lp) /\ repr lp (EInt <$> l).
Proof.
  intros Hr Hl Hsz. unfold convert, setTypeConvertAndExpand. cbn [setTypeSize mbind option_bind setTypeInitIterator iter_fuel].
  unfold Intset.intsetLen. rewrite (Intset.repr_len _ _ Hr).
  match goal with |- context [mbind _ (if _ then ?a else ?b)] => assert (Hest : exists e, (if 0 <? Zlen l then a else b) = Some e) end.
  { destruct (Z.ltb_spec 0 (Zlen l)); [|by eexists].
    destruct (intset_extremes ix l Hr Hl) as (mn & mx & -> & -> & _); [by intros ->|]. by eexists. }
  destruct Hest as [e ->]. cbn [mbind option_bind]. destruct (lpNew_spec e) as (lp & -> & Hlp). cbn [mbind option_bind].
  destruct (to_listpack_ok l (ObjIntset ix) (SiIntset 0) lp [] (S (Z.to_nat (Zlen l)))) as (lp' & -> & Hlp'); [|done|by eapply intset_range|done|lia|].
  - apply (intset_yields haddr ix l 0 Hr); lia.
  - by exists lp'.
Qed.

(** ** Adding *)

(** What an addition gives. *)
Definition added (res : option (bool * robj)) (M : gset sds) (e : sds) : Prop :=
  exists o', res = Some (bool_decide (e ∉ M), o') /\ set_ok o' ({[e]} ∪ M).

Lemma max_entries : intsetMaxEntries server = set_max_intset_entries server.
Proof. unfold intsetMaxEntries. change (Z.shiftl 1 30) with (2 ^ 30). by rewrite (proj2 (Z.leb_gt _ _)) by lia. Qed.

Lemma add_int ix l v :
  Intset.repr ix l -> Zlen l <= set_max_intset_entries server -> LLONG_MIN <= v <= LLONG_MAX ->
  added ('(ix, success) ← Intset.intsetAdd junk ix v;
         if (success : bool) then o ← maybeConvertIntset server ty can tmpbuf haddr ix; Some (true, o) else Some (false, ObjIntset ix))
    (list_to_set (lltoa <$> l)) (lltoa v).
Proof.
  intros Hr Hl Hv. pose proof (intset_range ix l Hr) as Hf.
  destruct (Intset.intsetAdd_spec junk ix l v Hr ltac:(lia) Hv) as (ix' & -> & _ & Hr' & Hin). cbn [mbind option_bind].
  pose proof (zinsert_length v l) as Hlen. unfold added. rewrite <- zinsert_strings.
  destruct (decide (v ∈ l)) as [Hvl|Hvl].
  - rewrite !bool_decide_false by (rewrite ?int_member by done; tauto). rewrite (Hin Hvl). eexists. split; [done|].
    rewrite zinsert_strings. apply (ok_intset ix l); [done|done|]. apply subseteq_union_1_L, singleton_subseteq_l. by apply int_member.
  - rewrite !bool_decide_true by (rewrite ?int_member by done; done). unfold maybeConvertIntset, setTypeConvert. rewrite max_entries.
    cbn [setTypeSize mbind option_bind]. unfold Intset.intsetLen. rewrite (Intset.repr_len _ _ Hr').
    destruct (Z.ltb_spec (set_max_intset_entries server) (Zlen (Intset.zinsert v l))) as [Hgt|Hle].
    + destruct (convert_ht (ObjIntset ix') (list_to_set (lltoa <$> Intset.zinsert v l)) (Zlen (Intset.zinsert v l))) as (d & -> & Hwf & Hm);
        [apply intset_iterable; [done|lia]|done|lia| |].
      { pose proof (intset_range _ _ Hr') as Hf'. rewrite size_list_to_set, length_fmap by (apply strings_nodup; [done|by eapply intset_nodup]). lia. }
      cbn [mbind option_bind]. eexists. split; [done|]. by apply ok_ht.
    + cbn [mbind option_bind]. eexists. split; [done|]. by apply (ok_intset ix' (Intset.zinsert v l)).
Qed.

Lemma add_ht d e :
  wf ty d -> Z.of_nat (size (members d)) < 2 ^ 60 ->
  added ('(position, ht) ← dictFindPositionForInsert ty can d e;
         match position with
         | inr position => '(_, ht) ← dictInsertAtPosition ht e tt position; Some (true, ObjHt ht)
         | inl _ => Some (false, ObjHt ht)
         end) (members d) e.
Proof.
  intros Hwf Hb. rewrite <- dict_bound in Hb by done. destruct (dictAddRaw_spec ty can d e tt Hwf Hb) as (r & d' & Hraw & Hwf' & Hr).
  unfold dictAddRaw in Hraw. destruct (dictFindPositionForInsert ty can d e) as [[[ex|position] d1]|]; [..|done]; cbn [mbind option_bind] in *.
  - injection Hraw as <- <-. destruct (dict_map d !! e) eqn:He; [|by destruct Hr as (? & ? & _)].
    destruct Hr as (? & _ & _ & Hm). assert (Hin : e ∈ members d) by (apply elem_of_dom; by eexists).
    eexists. split; [by rewrite bool_decide_false by tauto|]. apply ok_ht; [done|]. unfold members at 2. rewrite Hm.
    apply subseteq_union_1_L, singleton_subseteq_l, Hin.
  - destruct (dictInsertAtPosition d1 e tt position) as [[l d2]|]; [|done]. cbn [mbind option_bind] in *. injection Hraw as <- <-.
    destruct (dict_map d !! e) eqn:He; [by destruct Hr as (? & ? & _)|]. destruct Hr as (? & _ & _ & Hm).
    eexists. split; [by rewrite bool_decide_true by by apply members_none|]. apply ok_ht; [done|]. unfold members. by rewrite Hm, dom_insert_L.
Qed.

Lemma add_dict d e :
  wf ty d -> e ∉ members d -> Z.of_nat (size (members d)) < 2 ^ 60 ->
  exists d', dictAdd ty can d e tt = Some (DICT_OK, d') /\ wf ty d' /\ members d' = {[e]} ∪ members d.
Proof.
  intros Hwf Hn%members_none Hb. rewrite <- dict_bound in Hb by done.
  destruct (dictAdd_spec ty can d e tt Hwf Hb) as (d' & Hwf' & Hd). rewrite Hn in Hd. destruct Hd as [Hd Hm].
  exists d'. split; [done|]. split; [done|]. unfold members. by rewrite Hm, dom_insert_L.
Qed.

(** The end of the branches that convert to a hash table. *)
Lemma add_converted o M cap e :
  iterable o M -> (forall d, o <> ObjHt d) -> e ∉ M -> 0 <= cap < 2 ^ 64 -> Z.of_nat (size M) < 2 ^ 60 ->
  added (o ← convert ty can tmpbuf haddr o OBJ_ENCODING_HT cap;
         match o with
         | ObjHt d =>
             '(r, d) ← dictAdd ty can d e tt;
             _ ← assertb (match r with DICT_OK => true | DICT_ERR => false end);
             Some (true, ObjHt d)
         | _ => None
         end) M e.
Proof.
  intros Hit Hne Hn Hcap Hb. destruct (convert_ht o M cap Hit Hne Hcap Hb) as (d & -> & Hwf & Hm). cbn [mbind option_bind].
  destruct (add_dict d e Hwf) as (d' & -> & Hwf' & Hm'); [by rewrite Hm..|]. cbn [mbind option_bind assertb].
  eexists. split; [by rewrite bool_decide_true|]. apply ok_ht; [done|]. by rewrite Hm', Hm.
Qed.

(** How an element is given: as a string, or as an integer and its
    representation. *)
Definition given (e : sds) (tmp : option Z) : Prop :=
  match tmp with Some z => LLONG_MIN <= z <= LLONG_MAX /\ e = lltoa z | None => bytes_ok e end.

Lemma append_given lp es e tmp :
  repr lp es -> given e tmp -> Zlen e <= 2 ^ 30 -> pos es <= 2 ^ 30 ->
  exists lp' p el, match tmp with Some llval => lpAppendInteger lp llval | None => lpAppend lp e end = Some (Some (lp', p)) /\
    repr lp' (es ++ [el]) /\ elem_string el = e.
Proof using H.
  intros Hr Hg Hl Hp. pose proof (string_entry e) as Hse. destruct tmp as [z|].
  - destruct Hg as [Hz ->]. destruct (append_int lp es z Hr Hz) as (lp' & p & -> & Hr'); [|by exists lp', p, (EInt z)].
    rewrite int_entry. assert (int_len z <= 9) by (unfold int_len; repeat case (_ && _); clear; lia). clear - Hp H0. lia.
  - destruct (lpAppend_lpPrepend_refine lp es e Hr Hg) as [(lp' & p & -> & Hr') _]; [clear - Hl; lia|clear - Hp Hl Hse; lia|].
    exists lp', p, (elem_of_string e). split; [done|]. split; [done|]. apply elem_string_of.
Qed.

Lemma add_listpack lp es e tmp :
  repr lp es -> NoDup (elem_string <$> es) -> given e tmp -> Zlen e < 2 ^ 62 ->
  added (add_string server ty can tmpbuf haddr (ObjListpack lp) e tmp) (list_to_set (elem_string <$> es)) e.
Proof.
  intros Hr Hnd Hg Hle. unfold add_string. destruct (find_spec lp es e Hr) as (r & Hfind & Hres).
  destruct (lpFirst lp) as [p0|]; [|done]. cbn [mbind option_bind] in Hfind |- *. rewrite Hfind. cbn [mbind option_bind].
  set (M := list_to_set (elem_string <$> es) : gset sds). destruct r as [p|].
  - destruct Hres as (k & _ & _ & Hk). assert (Hin : e ∈ M).
    { apply elem_of_list_to_set. apply (list_elem_of_lookup_2 _ k). by rewrite list_lookup_fmap. }
    eexists. split; [by rewrite bool_decide_false by tauto|]. rewrite subseteq_union_1_L by by apply singleton_subseteq_l.
    by apply (ok_listpack lp es).
  - assert (Hn : e ∉ M) by (unfold M; by rewrite elem_of_list_to_set).
    destruct (lpLength_spec lp es Hr) as (lp1 & -> & Hr1 & _). cbn [mbind option_bind]. unfold lpSafeToAdd at 1.
    rewrite (total_eq lp1 es Hr1). cbn [mbind option_bind]. pose proof (pos_ge es). pose proof (length_bound lp1 es Hr1) as [_ Hlb].
    destruct (Hr1) as (_ & Hsz & _). rewrite uwrap_small by lia. change LISTPACK_MAX_SAFETY_SIZE with (2 ^ 30).
    destruct (_ && _) eqn:Hcond.
    + apply andb_true_iff in Hcond as [_ Hsafe%negb_true_iff%Z.ltb_ge].
      destruct (append_given lp1 es e tmp Hr1 Hg ltac:(lia) ltac:(lia)) as (lp' & p & el & -> & Hr' & Hel). cbn [mbind option_bind].
      eexists. split; [by rewrite bool_decide_true|]. apply (ok_listpack lp' (es ++ [el])); [done|..]; rewrite fmap_app; cbn; rewrite Hel.
      * apply NoDup_app. split; [done|]. split; [|apply NoDup_singleton]. intros x Hx ->%list_elem_of_singleton. done.
      * rewrite list_to_set_app_L. cbn. by rewrite union_empty_r_L, union_comm_L.
    + destruct (lpLength_spec lp1 es Hr1) as (lp2 & -> & Hr2 & _). cbn [mbind option_bind].
      apply add_converted; [by apply set_iterable, (ok_listpack lp2 es)|done|done|lia|].
      unfold M. rewrite size_list_to_set, length_fmap by done. lia.
Qed.

Lemma add_intset_string ix l e :
  Intset.repr ix l -> Zlen l <= set_max_intset_entries server -> string2ll e = None -> bytes_ok e -> Zlen e < 2 ^ 62 ->
  added (add_string server ty can tmpbuf haddr (ObjIntset ix) e None) (list_to_set (lltoa <$> l)) e.
Proof.
  intros Hr Hl Hs Hbytes Hle. unfold add_string. rewrite Hs. unfold Intset.intsetLen. rewrite (Intset.repr_len _ _ Hr).
  pose proof (intset_range ix l Hr) as Hf. pose proof (string_member e l Hf Hs) as Hn.
  assert (Hsize : Z.of_nat (size (list_to_set (lltoa <$> l) : gset sds)) = Zlen l).
  { rewrite size_list_to_set, length_fmap; [done|]. apply strings_nodup; [done|by eapply intset_nodup]. }
  match goal with |- added (mbind _ ?m) _ _ => assert (Hest : exists me tot, m = Some (me, tot) /\ 0 <= tot < 2 ^ 40 /\ pos (EInt <$> l) <= Z.max 6 tot) end.
  { destruct (Z.eqb_spec (Zlen l) 0) as [H0|H0].
    - exists 0, 0. split; [done|]. destruct l; [done|cbn in H0; lia].
    - destruct (intset_extremes ix l Hr Hl) as (mn & mx & -> & -> & Hb); [by intros ->|]. cbn [mbind option_bind].
      eexists _, _. split; [done|]. rewrite !estimate_spec by lia. pose proof (ints_size l mn mx Hb).
      assert (1 <= int_len mn <= 9) by (unfold int_len; repeat case (_ && _); lia).
      assert (1 <= int_len mx <= 9) by (unfold int_len; repeat case (_ && _); lia). nia. }
  destruct Hest as (me & tot & -> & Htot & Hpos). cbn [mbind option_bind]. unfold lpSafeToAdd at 1. cbn [mbind option_bind].
  change LISTPACK_MAX_SAFETY_SIZE with (2 ^ 30). rewrite !uwrap_small by (rewrite ?uwrap_small; lia).
  destruct (_ && _) eqn:Hcond.
  - apply andb_true_iff in Hcond as [_ Hsafe%negb_true_iff%Z.ltb_ge].
    destruct (convert_listpack ix l (Zlen l + 1) Hr Hl ltac:(lia)) as (lp & -> & Hlp). cbn [mbind option_bind].
    destruct (append_given lp (EInt <$> l) e None Hlp Hbytes ltac:(lia) ltac:(lia)) as (lp1 & p & el & -> & Hlp1 & Hel). cbn [mbind option_bind].
    destruct (Hlp1) as (Hok1 & Hsz1 & num & slack & Hc & ->). destruct (shrink_repr num _ slack Hok1 Hsz1 Hc) as (lp2 & -> & Hlp2).
    cbn [mbind option_bind]. eexists. split; [by rewrite bool_decide_true|].
    assert (Hstr : elem_string <$> (EInt <$> l) = lltoa <$> l) by (rewrite <- list_fmap_compose; by apply list_fmap_ext).
    apply (ok_listpack lp2 ((EInt <$> l) ++ [el])); [done|..]; rewrite fmap_app, Hstr; cbn; rewrite Hel.
    + apply NoDup_app. split; [apply strings_nodup; [done|by eapply intset_nodup]|]. split; [|apply NoDup_singleton].
      intros x Hx ->%list_elem_of_singleton. by apply Hn, elem_of_list_to_set.
    + rewrite list_to_set_app_L. cbn. by rewrite union_empty_r_L, union_comm_L.
  - apply add_converted; [apply intset_iterable; [done|lia]|done|done|lia|lia].
Qed.

(** The string that is passed, or that of the integer. *)
Definition arg_string (str : option sds) (llval : Z) : sds := match str with Some s => s | None => lltoa llval end.
Definition arg_ok (str : option sds) (llval : Z) : Prop :=
  match str with Some s => bytes_ok s /\ Zlen s < 2 ^ 62 | None => LLONG_MIN <= llval <= LLONG_MAX end.

Lemma add_string_ok o M e tmp :
  set_ok o M -> given e tmp -> Zlen e < 2 ^ 62 -> Z.of_nat (size M) < 2 ^ 60 -> (forall ix, o = ObjIntset ix -> tmp = None) ->
  added (add_string server ty can tmpbuf haddr o e tmp) M e.
Proof.
  intros [ix l M' Hr Hl ->|lp es M' Hr Hnd ->|d M' Hwf ->] Hg Hle Hb Htmp'.
  - rewrite (Htmp' ix eq_refl) in *. destruct (string2ll e) as [v|] eqn:Hs; [|by apply add_intset_string].
    unfold add_string. rewrite Hs. apply string2ll_sound in Hs as [Hv ->]. by apply add_int.
  - by apply add_listpack.
  - by apply add_ht.
Qed.

Lemma setTypeAddAux_ok o M str llval :
  set_ok o M -> arg_ok str llval -> Z.of_nat (size M) < 2 ^ 60 ->
  added (setTypeAddAux server ty can tmpbuf haddr o str llval) M (arg_string str llval).
Proof.
  intros Hok Ha Hb. destruct str as [s|]; cbn [setTypeAddAux arg_string arg_ok] in *.
  - destruct Ha as [Ha Hl]. by apply add_string_ok.
  - assert (Hgen : added (str ← sdsfromlonglong tmpbuf llval; add_string server ty can tmpbuf haddr o str (Some llval)) M (lltoa llval) \/
      exists ix, o = ObjIntset ix).
    { destruct o as [ix| |]; [right; by eexists|left..]; rewrite sdsfromlonglong_ok by done; cbn [mbind option_bind];
        (apply add_string_ok; [done|done|pose proof (lltoa_length llval Ha); lia|done|done]). }
    inversion Hok as [ix l M' Hr Hl HM|lp es M' Hr Hnd HM|d M' Hwf HM]; subst o M.
    + by apply add_int.
    + by destruct Hgen as [Hgen|[? ?]].
    + by destruct Hgen as [Hgen|[? ?]].
Qed.

(** ** Removing and testing *)

Definition removed (res : option (bool * robj)) (M : gset sds) (e : sds) : Prop :=
  exists o', res = Some (bool_decide (e ∈ M), o') /\ set_ok o' (M ∖ {[e]}).

Lemma remove_int ix l v :
  Intset.repr ix l -> Zlen l <= set_max_intset_entries server -> LLONG_MIN <= v <= LLONG_MAX ->
  removed ('(ix, success) ← Intset.intsetRemove junk ix v; Some (success, ObjIntset ix)) (list_to_set (lltoa <$> l)) (lltoa v).
Proof.
  intros Hr Hl Hv. pose proof (intset_range ix l Hr) as Hf.
  destruct (Intset.intsetRemove_spec junk ix l v Hr ltac:(lia) Hv) as (ix' & -> & _ & Hr'). cbn [mbind option_bind].
  eexists. split; [do 2 f_equal; apply bool_decide_ext; by rewrite int_member|].
  apply (ok_intset ix' (Intset.zremove v l)); [done| |by rewrite zremove_strings].
  unfold Intset.zremove. pose proof (length_filter (fun x => x <> v) l). lia.
Qed.

Lemma removed_absent o M e : set_ok o M -> e ∉ M -> removed (Some (false, o)) M e.
Proof.
  intros Hok Hn. exists o. split; [by rewrite bool_decide_false|].
  replace (M ∖ {[e]}) with M; [done|]. apply set_eq. intros x. rewrite elem_of_difference, elem_of_singleton. split; [|tauto].
  intros Hx. split; [done|]. by intros ->.
Qed.

Lemma remove_string_ok o M e :
  set_ok o M -> Z.of_nat (size M) < 2 ^ 56 -> removed (remove_string ty can o e) M e.
Proof.
  intros Hok Hb. inversion Hok as [ix l M' Hr Hl HM|lp es M' Hr Hnd HM|d M' Hwf HM]; subst o M; unfold remove_string.
  - destruct (string2ll e) as [v|] eqn:Hs.
    + apply string2ll_sound in Hs as [Hv ->]. by apply remove_int.
    + apply removed_absent; [done|]. apply string_member; [by eapply intset_range|done].
  - destruct (find_spec lp es e Hr) as (r & Hfind & Hres). destruct (lpFirst lp) as [p0|]; [|done]. cbn [mbind option_bind] in *.
    destruct p0 as [p0|]; [rewrite Hfind; cbn [mbind option_bind]|injection Hfind as <-].
    2:{ apply removed_absent; [done|]. by rewrite elem_of_list_to_set. }
    destruct r as [p|]; [|apply removed_absent; [done|]; by rewrite elem_of_list_to_set].
    destruct Hres as (k & Hk & -> & He). destruct (delete_element es k e Hnd He) as [Hnd' Hset].
    destruct (lpDelete_at lp es (Z.of_nat k) Hr ltac:(lia)) as (lp' & Hdel & Hr').
    replace (Z.to_nat (Z.of_nat k + 1)) with (S k) in * by lia. rewrite Nat2Z.id in *. rewrite Hdel. cbn [mbind option_bind].
    eexists. split; [|by apply (ok_listpack lp' _ _ Hr')]. rewrite bool_decide_true; [done|].
    apply elem_of_list_to_set, (list_elem_of_lookup_2 _ k). by rewrite list_lookup_fmap.
  - unfold dictDelete. destruct (dictGenericDelete_spec ty can d e Hwf) as (d' & -> & Hwf' & Hm'). cbn [mbind option_bind].
    assert (Hmem : members d' = members d ∖ {[e]}) by (unfold members; by rewrite Hm', dom_delete_L).
    destruct (dict_map d !! e) as [u|] eqn:He; cbn [fmap option_fmap option_map].
    + unfold htNeedsResize. rewrite (dictSize_map ty d') by done. rewrite <- (size_dom (D := gset sds)). fold (members d').
      assert (Hs : Z.of_nat (size (members d')) < 2 ^ 56).
      { rewrite Hmem. pose proof (subseteq_size (members d ∖ {[e]}) (members d) ltac:(apply subseteq_difference_l; done)). lia. }
      assert (Hin : bool_decide (e ∈ members d) = true) by (apply bool_decide_eq_true, elem_of_dom; by eexists).
      assert (Hres : forall b : bool, set_ok (ObjHt (if b then (dictResize can d').2 else d')) (members d ∖ {[e]})).
      { intros b. destruct (dictResize_spec ty can d' Hwf') as [Hwr Hmr]. destruct b; apply ok_ht; try done.
        unfold members at 2. by rewrite Hmr. }
      destruct (_ <? _); [rewrite (swrap_small 64 (Z.of_nat _)) by lia; rewrite (swrap_small 64 (Z.of_nat _ * 100)) by lia; rewrite Z.eqb_refl|];
        cbn [assertb mbind option_bind]; eexists; (split; [by rewrite Hin|]); [apply Hres|apply (Hres false)].
    + eexists. split; [|by apply ok_ht]. rewrite bool_decide_false; [done|]. by apply members_none.
Qed.

Lemma setTypeRemoveAux_ok o M str llval :
  set_ok o M -> arg_ok str llval -> Z.of_nat (size M) < 2 ^ 56 ->
  removed (setTypeRemoveAux ty can tmpbuf o str llval) M (arg_string str llval).
Proof.
  intros Hok Ha Hb. destruct str as [s|]; cbn [setTypeRemoveAux arg_string arg_ok] in *; [by apply remove_string_ok|].
  destruct o as [ix|lp|d]; [inversion Hok; subst; by apply remove_int|..];
    rewrite sdsfromlonglong_ok by done; cbn [mbind option_bind]; by apply remove_string_ok.
Qed.

Definition tested (res : option (bool * robj)) (M : gset sds) (e : sds) : Prop :=
  exists o', res = Some (bool_decide (e ∈ M), o') /\ set_ok o' M.

Lemma member_int ix l v :
  Intset.repr ix l -> Zlen l <= set_max_intset_entries server -> LLONG_MIN <= v <= LLONG_MAX ->
  tested (r ← Intset.intsetFind ix v; Some (r, ObjIntset ix)) (list_to_set (lltoa <$> l)) (lltoa v).
Proof.
  intros Hr Hl Hv. pose proof (intset_range ix l Hr) as Hf. rewrite (Intset.intsetFind_spec ix l v Hr ltac:(lia) Hv). cbn [mbind option_bind].
  eexists. split; [do 2 f_equal; apply bool_decide_ext; by rewrite int_member|]. by apply (ok_intset ix l).
Qed.

Lemma member_string_ok o M e : set_ok o M -> tested (member_string ty can o e) M e.
Proof.
  intros Hok. inversion Hok as [ix l M' Hr Hl HM|lp es M' Hr Hnd HM|d M' Hwf HM]; subst o M; unfold member_string.
  - destruct (string2ll e) as [v|] eqn:Hs.
    + apply string2ll_sound in Hs as [Hv ->]. by apply member_int.
    + eexists. split; [|done]. rewrite bool_decide_false; [done|]. apply string_member; [by eapply intset_range|done].
  - destruct (find_spec lp es e Hr) as (r & Hfind & Hres). destruct (lpFirst lp) as [p0|]; [|done]. cbn [mbind option_bind] in *.
    exists (ObjListpack lp). split; [|done].
    assert (Hbool : match r with Some _ => true | None => false end = bool_decide (e ∈ (list_to_set (elem_string <$> es) : gset sds))).
    { destruct r as [p|]; symmetry; [apply bool_decide_eq_true|apply bool_decide_eq_false; by rewrite elem_of_list_to_set].
      destruct Hres as (k & _ & _ & Hk). apply elem_of_list_to_set, (list_elem_of_lookup_2 _ k). by rewrite list_lookup_fmap. }
    rewrite <- Hbool. destruct p0 as [p0|]; [by rewrite Hfind|by injection Hfind as <-].
  - destruct (dictFind_spec ty can d e Hwf) as (l & d' & -> & Hwf' & Hm & Hl). cbn [mbind option_bind].
    eexists. split; [|apply ok_ht; [done|unfold members; by rewrite Hm]]. do 2 f_equal. symmetry. destruct l as [l|].
    + apply bool_decide_eq_true, elem_of_dom. destruct Hl as (v & _ & Hv). by eexists.
    + apply bool_decide_eq_false. by apply members_none.
Qed.

Lemma setTypeIsMemberAux_ok o M str llval :
  set_ok o M -> arg_ok str llval -> tested (setTypeIsMemberAux ty can tmpbuf o str llval) M (arg_string str llval).
Proof.
  intros Hok Ha. destruct str as [s|]; cbn [setTypeIsMemberAux arg_string arg_ok] in *; [by apply member_string_ok|].
  destruct o as [ix|lp|d]; [inversion Hok; subst; by apply member_int|..];
    rewrite sdsfromlonglong_ok by done; cbn [mbind option_bind]; by apply member_string_ok.
Qed.

End Spec.

End SetSpec.
