(* ===== verification/SetRun.v ===== *)
(** * Sets: runs of set operations

    The operations of t_set.c on a set that starts empty, in any order and
    with any configuration, compute what they compute on a finite set of
    strings, through all conversions between the encodings. *)

From stdpp Require Import gmap.
From S2P Require Import Prelude.
From S2P Require Import Intset.
From S2P Require Import NumConv.
From S2P Require Import ListpackEnc.
From S2P Require Import Listpack.
From S2P Require Import ListpackOps.
From S2P Require Import ListpackEdit.
From S2P Require Import Dict.
From S2P Require Import DictSpec.
From S2P Require Import DictMap.
From S2P Require Import DictIter.
From S2P Require Import ZsetSpec.
From S2P Require Import SetType.
From S2P Require Import SetSpec.
Import NumConv LpEnc Lp LpOps LpEdit Dict DictSpec DictMap DictIter SetType SetSpec.

Module SetRun.

Lemma intsetNew_repr : Intset.repr Intset.intsetNew [].
Proof. split; try constructor; done. Qed.

Lemma elem_of_zinsert x v l : x ∈ Intset.zinsert v l -> x = v \/ x ∈ l.
Proof. unfold Intset.zinsert. rewrite elem_of_app, elem_of_cons, !list_elem_of_filter. tauto. Qed.

Lemma zinsert_new v l : (v ∉ l) -> length (Intset.zinsert v l) = S (length l).
Proof.
  unfold Intset.zinsert. intros Hv. rewrite length_app. cbn [length].
  enough (length (base.filter (fun x => x < v)%Z l) + length (base.filter (fun x => v < x)%Z l) = length l)%nat by lia.
  induction l as [|x l IH]; [done|]. apply not_elem_of_cons in Hv as [Hx Hv]. specialize (IH Hv).
  rewrite !filter_cons. do 2 case_decide; cbn [length]; lia.
Qed.

Section Run.
Context `{Allocator} (server : redisServer) (ty : dictType sds) `{!DictLaws ty} (can : dictResizeEnable).
Context (tmpbuf : list Z) (haddr : bool -> Z) (Htmp : Zlen tmpbuf = LONG_STR_SIZE).
Context (Hcfg : 0 <= set_max_intset_entries server < 2 ^ 29 - 1).
#[local] Set Default Proof Using "All".

Abbreviation set_ok := (set_ok server ty).

(** ** Size, creation, conversions *)

Lemma setTypeSize_ok o M : set_ok o M -> exists o', setTypeSize o = Some (Z.of_nat (size M), o') /\ set_ok o' M /\ encoding_of o' = encoding_of o.
Proof.
  intros [ix l M' Hr Hl ->|lp es M' Hr Hnd ->|d M' Hwf ->]; unfold setTypeSize.
  - eexists. split; [|split; [by apply (ok_intset _ _ ix l)|done]].
    rewrite size_list_to_set, length_fmap; [unfold Intset.intsetLen; by rewrite (Intset.repr_len _ _ Hr)|].
    apply strings_nodup; [by eapply intset_range|by eapply intset_nodup].
  - destruct (lpLength_spec lp es Hr) as (lp' & -> & Hr' & _). cbn [mbind option_bind]. eexists.
    split; [|split; [by apply (ok_listpack _ _ lp' es)|done]]. by rewrite size_list_to_set, length_fmap.
  - eexists. split; [|split; [by apply ok_ht|done]]. rewrite (dictSize_map ty) by done. unfold members. by rewrite size_dom.
Qed.

Lemma setTypeCreate_ok value hint : 0 <= hint < 2 ^ 64 -> exists o, setTypeCreate server value hint = Some o /\ set_ok o ∅.
Proof.
  intros Hh. unfold setTypeCreate. destruct (_ && _); [|destruct (_ <=? _)].
  - eexists. split; [done|]. apply (ok_intset _ _ _ []); [apply intsetNew_repr|cbn; lia|done].
  - destruct (lpNew_spec 0) as (lp & -> & Hlp). cbn. eexists. split; [done|]. by apply (ok_listpack _ _ lp []); [|constructor|].
  - destruct (expand_new server ty can tmpbuf haddr Htmp Hcfg hint Hh) as [Hwf Hm]. eexists. split; [done|]. by apply ok_ht.
Qed.

Lemma convert_ok o M cap :
  set_ok o M -> encoding_of o <> OBJ_ENCODING_HT -> 0 <= cap < 2 ^ 64 -> Z.of_nat (size M) < 2 ^ 60 ->
  exists o', convert ty can tmpbuf haddr o OBJ_ENCODING_HT cap = Some o' /\ set_ok o' M /\ encoding_of o' = OBJ_ENCODING_HT.
Proof.
  intros Hok Hne Hcap Hb. assert (Hne' : forall d, o <> ObjHt d) by (by intros d ->).
  destruct (convert_ht server ty can tmpbuf haddr Htmp Hcfg o M cap (set_iterable server ty can tmpbuf haddr Htmp Hcfg o M Hok) Hne' Hcap Hb) as (d & -> & Hwf & <-).
  eexists. split; [done|]. split; [by apply ok_ht|done].
Qed.

Lemma setTypeMaybeConvert_ok o M hint :
  set_ok o M -> 0 <= hint < 2 ^ 64 -> Z.of_nat (size M) < 2 ^ 60 ->
  exists o', setTypeMaybeConvert server ty can tmpbuf haddr o hint = Some o' /\ set_ok o' M.
Proof.
  intros Hok Hh Hb. destruct o as [ix|lp|d]; unfold setTypeMaybeConvert; [..|by eexists]; (destruct (_ <? _); [|by eexists]);
    destruct (convert_ok _ M hint Hok ltac:(done) Hh Hb) as (o' & -> & Hok' & _); by eexists.
Qed.

(** ** To an intset *)

Lemma to_intset_ok vs : forall o si ix l fuel,
  yields haddr o si vs -> Intset.repr ix l -> NoDup (value_string <$> vs) ->
  (forall v, v ∈ vs -> exists z, LLONG_MIN <= z <= LLONG_MAX /\ value_string v = lltoa z /\ z ∉ l) ->
  Forall (fun v => match v with inr z => LLONG_MIN <= z <= LLONG_MAX | inl _ => True end) vs ->
  Zlen l + Zlen vs < 2 ^ 29 -> (length vs < fuel)%nat ->
  exists ix' l', to_intset haddr fuel o si ix = Some ix' /\ Intset.repr ix' l' /\ Zlen l' = Zlen l + Zlen vs /\
    (list_to_set (lltoa <$> l') : gset sds) = list_to_set (lltoa <$> l) ∪ list_to_set (value_string <$> vs).
Proof.
  induction vs as [|v vs IH]; intros o si ix l fuel Hy Hr Hnd Hnew Hf Hb Hfuel; (destruct fuel as [|fuel]; [cbn in Hfuel; lia|]);
    cbn [to_intset yields] in *.
  - destruct Hy as (si' & -> & Hrel). cbn [mbind option_bind]. rewrite Hrel. exists ix, l. cbn. rewrite union_empty_r_L. split; [done|]. split; [done|]. split; [lia|done].
  - destruct Hy as (si' & -> & Hy). apply NoDup_cons in Hnd as [Hv Hnd]. apply Forall_cons in Hf as [Hfv Hf].
    destruct (Hnew v) as (z & Hz & Hvz & Hzl); [by left|]. cbn [length] in Hb, Hfuel.
    assert (Hll : match v with inl s => string2ll s | inr ll => Some ll end = Some z).
    { destruct v as [s|ll]; cbn in Hvz; [rewrite Hvz; by apply string2ll_complete|]. f_equal. by apply lltoa_inj. }
    cbn [mbind option_bind]. rewrite Hll. cbn [mbind option_bind].
    destruct (Intset.intsetAdd_spec junk ix l z Hr ltac:(lia) Hz) as (ix1 & -> & _ & Hr1 & _). cbn [mbind option_bind].
    rewrite bool_decide_true by done. cbn [assertb mbind option_bind].
    destruct (IH o si' ix1 (Intset.zinsert z l) fuel Hy Hr1 Hnd) as (ix' & l' & -> & Hr' & Hlen & Hset); [|done| |lia|].
    + intros w Hw. destruct (Hnew w) as (y & Hy1 & Hwy & Hyl); [by right|]. exists y. split; [done|]. split; [done|].
      intros [->|Hin]%elem_of_zinsert; [|done]. apply Hv. rewrite Hvz, <- Hwy. by apply list_elem_of_fmap_2.
    + rewrite zinsert_new by done. lia.
    + exists ix', l'. split; [done|]. split; [done|]. rewrite zinsert_new in Hlen by done. split; [cbn [length]; lia|].
      rewrite Hset, zinsert_strings, fmap_cons, list_to_set_cons, Hvz. by rewrite (union_comm_L {[_]}), <- union_assoc_L.
Qed.

Definition all_ints (M : gset sds) : Prop := forall e, e ∈ M -> exists z, LLONG_MIN <= z <= LLONG_MAX /\ e = lltoa z.

Lemma maybeConvertToIntset_ok o M :
  set_ok o M -> all_ints M ->
  exists o', maybeConvertToIntset server haddr o = Some o' /\ set_ok o' M /\
    encoding_of o' = if Z.of_nat (size M) <=? set_max_intset_entries server then OBJ_ENCODING_INTSET else encoding_of o.
Proof.
  intros Hok Hall.
  assert (Hgen : encoding_of o <> OBJ_ENCODING_INTSET -> exists o',
    ('(size, set) ← setTypeSize o;
     if intsetMaxEntries server <? size then Some set
     else ix ← to_intset haddr (iter_fuel set) set (setTypeInitIterator set) Intset.intsetNew; Some (ObjIntset ix)) = Some o' /\ set_ok o' M /\
    encoding_of o' = if Z.of_nat (size M) <=? set_max_intset_entries server then OBJ_ENCODING_INTSET else encoding_of o).
  { intros Hne. destruct (setTypeSize_ok o M Hok) as (o1 & -> & Hok1 & He). cbn [mbind option_bind].
    rewrite (max_entries server ty can tmpbuf haddr Htmp Hcfg), Z.leb_antisym. destruct (Z.ltb_spec (set_max_intset_entries server) (Z.of_nat (size M))) as [Hlt|Hge].
    { by exists o1. }
    destruct (set_iterable server ty can tmpbuf haddr Htmp Hcfg o1 M Hok1) as (vs & Hy & Hnd & HM & Hl & Hf).
    assert (Hsz : size M = length vs) by (by rewrite HM, size_list_to_set, length_fmap).
    destruct (to_intset_ok vs o1 (setTypeInitIterator o1) Intset.intsetNew [] (iter_fuel o1)) as (ix' & l' & -> & Hr' & Hl' & Hset);
      [done|apply intsetNew_repr|done| |done|cbn; lia|done|].
    - intros v Hv. destruct (Hall (value_string v)) as (z & Hz & Hvz); [rewrite HM; by apply elem_of_list_to_set, list_elem_of_fmap_2|].
      exists z. split; [done|]. split; [done|]. apply not_elem_of_nil.
    - cbn. eexists. split; [done|]. split; [|done]. apply (ok_intset _ _ ix' l'); [done|cbn in Hl'; lia|].
      rewrite Hset, HM. cbn. by rewrite union_empty_l_L. }
  destruct o as [ix|lp|d]; [|apply Hgen; done..]. exists (ObjIntset ix). split; [done|]. split; [done|]. by destruct (_ <=? _).
Qed.

(** ** Copies *)

Lemma add_ht_encoding d e tmp b o : add_string server ty can tmpbuf haddr (ObjHt d) e tmp = Some (b, o) -> encoding_of o = OBJ_ENCODING_HT.
Proof.
  unfold add_string. destruct (dictFindPositionForInsert ty can d e) as [[[ex|position] d1]|]; [by intros [= <- <-]| |done].
  cbn [mbind option_bind]. by destruct (dictInsertAtPosition d1 e tt position) as [[l d2]|]; [intros [= <- <-]|].
Qed.

Lemma dup_loop_ok vs : forall o si o1 M fuel,
  yields haddr o si (inl <$> vs) -> set_ok o1 M -> encoding_of o1 = OBJ_ENCODING_HT -> Z.of_nat (size M) + Zlen vs < 2 ^ 60 -> (length vs < fuel)%nat ->
  exists o2, dup_loop server ty can tmpbuf haddr fuel o si o1 = Some o2 /\ set_ok o2 (M ∪ list_to_set vs) /\ encoding_of o2 = OBJ_ENCODING_HT.
Proof.
  induction vs as [|e vs IH]; intros o si o1 M fuel Hy Hok He Hb Hfuel; (destruct fuel as [|fuel]; [cbn in Hfuel; lia|]);
    cbn [dup_loop yields fmap list_fmap] in *.
  - destruct Hy as (si' & -> & Hrel). cbn [mbind option_bind]. rewrite Hrel. exists o1. cbn. by rewrite union_empty_r_L.
  - destruct Hy as (si' & -> & Hy). cbn [mbind option_bind length] in *. unfold setTypeAdd. cbn [setTypeAddAux].
    destruct o1 as [| |d]; [done..|]. inversion Hok as [| |d' M' Hwf HM]; subst d' M M'.
    destruct (add_ht server ty can tmpbuf haddr Htmp Hcfg d e Hwf ltac:(lia)) as (o' & Hadd & Hok').
    assert (Hadd' : add_string server ty can tmpbuf haddr (ObjHt d) e None = Some (bool_decide (e ∉ members d), o')) by exact Hadd.
    pose proof (add_ht_encoding _ _ _ _ _ Hadd') as He'. rewrite Hadd'. cbn [mbind option_bind].
    destruct (IH o si' o' _ fuel Hy Hok' He') as (o2 & -> & Hok2 & He2); [|lia|].
    + pose proof (size_union_alt {[e]} (members d)) as Hs. rewrite size_singleton in Hs.
      pose proof (subseteq_size (members d ∖ {[e]}) (members d) ltac:(apply subseteq_difference_l; done)). lia.
    + exists o2. split; [done|]. split; [|done]. cbn. by rewrite union_assoc_L, (union_comm_L (members d)).
Qed.

Lemma setTypeDup_ok o M :
  set_ok o M -> Z.of_nat (size M) < 2 ^ 60 ->
  exists o', setTypeDup server ty can tmpbuf haddr o = Some o' /\ set_ok o' M /\ encoding_of o' = encoding_of o.
Proof.
  intros Hok Hb. inversion Hok as [ix l M' Hr Hl HM|lp es M' Hr Hnd HM|d M' Hwf HM]; subst o M; unfold setTypeDup.
  - pose proof (Intset.repr_contents _ _ Hr) as Hc. pose proof (Intset.repr_len _ _ Hr) as Hn.
    assert (He : 2 <= Intset.encoding ix <= 8) by (destruct (Intset.repr_enc _ _ Hr) as [-> | [-> | ->]]; cbn; lia).
    unfold Intset.intsetBlobLen. rewrite Hn, !uwrap_small by (rewrite ?uwrap_small; nia). rewrite Hc.
    replace (rd _ 0 _) with (Some (Intset.pack (Intset.encoding ix) l)).
    2:{ symmetry. rewrite <- (app_nil_r (Intset.pack _ _)) at 1. apply (rd_app []); [done|]. rewrite Intset.length_pack by lia. lia. }
    cbn [mbind option_bind]. eexists. split; [done|]. split; [|done].
    apply (ok_intset _ _ _ l); [|done|done]. by split; cbn; try apply Hr.
  - unfold lpBytes. rewrite (total_eq _ _ Hr). cbn [mbind option_bind]. destruct (Hr) as (Hok' & Hsz & num & slack & Hc & ->).
    assert (layout num es slack = [] ++ layout num es [] ++ slack) as -> by (unfold layout; by rewrite <- !app_assoc).
    rewrite rd_app by (rewrite ?layout_header, ?Zlen_app, ?header_length; unfold pos; cbn [length]; lia). cbn [mbind option_bind].
    eexists. split; [done|]. split; [|done]. apply (ok_listpack _ _ _ es); [|done|done]. split; [done|]. split; [done|]. by exists num, [].
  - pose proof (dictSize_map ty d Hwf) as Hd. unfold members in Hb. rewrite size_dom in Hb.
    destruct (expand_new server ty can tmpbuf haddr Htmp Hcfg (dictSize d) ltac:(lia)) as [Hwf0 Hm0].
    destruct (dup_loop_ok (entries d).*1 (ObjHt d) (setTypeInitIterator (ObjHt d)) (ObjHt (dictExpand dictCreate (dictSize d)).2) ∅ (iter_fuel (ObjHt d)))
      as (o' & -> & Hok' & He'); [| |done|..].
    + rewrite <- list_fmap_compose. destruct (init_ok haddr d false) as (Hio & Hfp & Hre & Hsf). by apply dict_yields; [by eapply wf_sizes|..].
    + by apply ok_ht.
    + rewrite length_fmap, (dict_bound server ty can tmpbuf haddr Htmp Hcfg) by done. unfold members. rewrite size_dom. rewrite size_empty. lia.
    + rewrite length_fmap. cbn [iter_fuel]. rewrite Hd. unfold dict_map. rewrite map_size_list_to_map by apply Hwf. lia.
    + eexists. split; [done|]. split; [|done]. unfold members, dict_map. by rewrite dom_list_to_map_L, <- (union_empty_l_L (list_to_set _)).
Qed.

(** ** Runs *)

(** The calls other commands make; an element is a string, or an integer
    when the string is the null pointer. *)
Inductive call :=
  | Add (str : option sds) (llval : Z)
  | Remove (str : option sds) (llval : Z)
  | IsMember (str : option sds) (llval : Z)
  | Size
  | MaybeConvert (size_hint : Z)
  | Dup.

Inductive reply := RBool (b : bool) | RSize (n : Z) | RNone.

Definition exec (o : robj) (c : call) : option (reply * robj) :=
  match c with
  | Add str llval => '(b, o) ← setTypeAddAux server ty can tmpbuf haddr o str llval; Some (RBool b, o)
  | Remove str llval => '(b, o) ← setTypeRemoveAux ty can tmpbuf o str llval; Some (RBool b, o)
  | IsMember str llval => '(b, o) ← setTypeIsMemberAux ty can tmpbuf o str llval; Some (RBool b, o)
  | Size => '(n, o) ← setTypeSize o; Some (RSize n, o)
  | MaybeConvert hint => o ← setTypeMaybeConvert server ty can tmpbuf haddr o hint; Some (RNone, o)
  | Dup => o ← setTypeDup server ty can tmpbuf haddr o; Some (RNone, o)
  end.

Fixpoint run (o : robj) (cs : list call) : option (list reply * robj) :=
  match cs with
  | [] => Some ([], o)
  | c :: cs => '(r, o) ← exec o c; '(rs, o) ← run o cs; Some (r :: rs, o)
  end.

(** The same calls on a set of strings. *)
Definition exec_set (M : gset sds) (c : call) : reply * gset sds :=
  match c with
  | Add str llval => let e := arg_string str llval in (RBool (bool_decide (e ∉ M)), {[e]} ∪ M)
  | Remove str llval => let e := arg_string str llval in (RBool (bool_decide (e ∈ M)), M ∖ {[e]})
  | IsMember str llval => (RBool (bool_decide (arg_string str llval ∈ M)), M)
  | Size => (RSize (Z.of_nat (size M)), M)
  | MaybeConvert _ | Dup => (RNone, M)
  end.

Fixpoint run_set (M : gset sds) (cs : list call) : list reply * gset sds :=
  match cs with
  | [] => ([], M)
  | c :: cs => let '(r, M) := exec_set M c in let '(rs, M) := run_set M cs in (r :: rs, M)
  end.

Definition call_ok (c : call) : Prop :=
  match c with
  | Add str llval | Remove str llval | IsMember str llval => arg_ok str llval
  | MaybeConvert hint => 0 <= hint < 2 ^ 64
  | Size | Dup => True
  end.

Lemma set_exec_ok o M c :
  set_ok o M -> call_ok c -> Z.of_nat (size M) < 2 ^ 56 ->
  exists o', exec o c = Some ((exec_set M c).1, o') /\ set_ok o' (exec_set M c).2 /\ (size (exec_set M c).2 <= S (size M))%nat.
Proof.
  intros Hok Hc Hb. destruct c as [str ll|str ll|str ll| |hint|]; cbn [exec exec_set fst snd call_ok] in *.
  - destruct (setTypeAddAux_ok server ty can tmpbuf haddr Htmp Hcfg o M str ll Hok Hc ltac:(lia)) as (o' & -> & Hok'). eexists. split; [done|].
    split; [done|]. rewrite size_union_alt, size_singleton.
    pose proof (subseteq_size (M ∖ {[arg_string str ll]}) M ltac:(apply subseteq_difference_l; done)). lia.
  - destruct (setTypeRemoveAux_ok server ty can tmpbuf haddr Htmp Hcfg o M str ll Hok Hc Hb) as (o' & -> & Hok'). eexists. split; [done|].
    split; [done|]. pose proof (subseteq_size (M ∖ {[arg_string str ll]}) M ltac:(apply subseteq_difference_l; done)). lia.
  - destruct (setTypeIsMemberAux_ok server ty can tmpbuf haddr Htmp Hcfg o M str ll Hok Hc) as (o' & -> & Hok'). eexists. split; [done|]. split; [done|lia].
  - destruct (setTypeSize_ok o M Hok) as (o' & -> & Hok' & _). eexists. split; [done|]. split; [done|lia].
  - destruct (setTypeMaybeConvert_ok o M hint Hok Hc ltac:(lia)) as (o' & -> & Hok'). eexists. split; [done|]. split; [done|lia].
  - destruct (setTypeDup_ok o M Hok ltac:(lia)) as (o' & -> & Hok' & _). eexists. split; [done|]. split; [done|lia].
Qed.

Lemma set_run_ok cs : forall o M,
  set_ok o M -> Forall call_ok cs -> Z.of_nat (size M) + Zlen cs < 2 ^ 56 ->
  exists o', run o cs = Some ((run_set M cs).1, o') /\ set_ok o' (run_set M cs).2.
Proof.
  induction cs as [|c cs IH]; intros o M Hok Hc Hb; cbn [run run_set]; [by exists o|].
  apply Forall_cons in Hc as [Hc Hcs]. cbn [length] in Hb.
  destruct (set_exec_ok o M c Hok Hc ltac:(lia)) as (o1 & -> & Hok1 & Hs). destruct (exec_set M c) as [r M1]. cbn [mbind option_bind fst snd] in *.
  destruct (IH o1 M1 Hok1 Hcs ltac:(lia)) as (o' & -> & Hok'). destruct (run_set M1 cs) as [rs M']. cbn. by exists o'.
Qed.



End Run.

(** ** Examples *)

Definition tmp21 : list Z := replicate 21 0.
Definition addr : bool -> Z := fun t => if t then 8192 else 4096.

(** Two integers fit the intset, three elements the listpack. *)
Definition small : redisServer := {| set_max_intset_entries := 2; set_max_listpack_entries := 3; set_max_listpack_value := 4 |}.


(** A hash table of two integers. *)
Definition ht_sample : robj := Eval vm_compute in
  default (ObjIntset Intset.intsetNew)
    (snd <$> (o ← @setTypeCreate alloc_16 small [97] 9;
              @run alloc_16 small ZsetSpec.sds_type DICT_RESIZE_ENABLE tmp21 addr o [Add (Some [55]) 0; Add None (-5)])).
Definition ht_members : gset sds := {[ [55]; [45; 53] ]}.

Lemma ht_sample_ok : set_ok small ZsetSpec.sds_type ht_sample ht_members.
Proof.
  destruct (@setTypeCreate_ok alloc_16 small ZsetSpec.sds_type ZsetSpec.sds_type_laws DICT_RESIZE_ENABLE tmp21 addr eq_refl ltac:(cbn; lia) [97] 9 ltac:(lia))
    as (o & Ho & Hok).
  destruct (@set_run_ok alloc_16 small ZsetSpec.sds_type ZsetSpec.sds_type_laws DICT_RESIZE_ENABLE tmp21 addr eq_refl ltac:(cbn; lia)
    [Add (Some [55]) 0; Add None (-5)] o ∅ Hok) as (o' & Hrun & Hok'); [|by vm_compute|].
  { repeat constructor; try done; cbn; lia. }
  assert (o' = ht_sample) as <-.
  { vm_compute in Ho. injection Ho as <-. vm_compute in Hrun. by injection Hrun as <-. }
  eapply eq_rect; [exact Hok'|]. apply (bool_decide_unpack _). by vm_compute.
Qed.


End SetRun.
