(* ===== verification/Shop.v ===== *)
(** * The shop: orders, stock, the order cache and the status jobs
    (src/controllers/orderController.js, src/hooks, src/bull, src/utils)

    The handlers of the order routes, the Sequelize hooks of orders and order
    items, the job that is scheduled for an order and the two processors.
    Sequelize with PostgreSQL, the Redis client and Bull are not part of the
    sources: they are the classes [Database], [RedisClient] and [BullQueue],
    whose operations may reject ([None]) at any time, and [DatabaseLaws],
    [RedisLaws] and [BullLaws] state what their documentation promises.

    A handler is a computation on the world, which it changes also when it
    throws; calls with a transaction act on the transaction's own state, the
    others on the committed one.  Handlers run one at a time. *)

From stdpp Require Import gmap strings pretty.
From Stdlib Require Import Floats.SpecFloat.
From S2P Require Import Prelude.

Module Shop.

(** ** Values *)

(** Numbers of JavaScript: IEEE 754 binary64. *)
Abbreviation number := spec_float.
Definition js_add (a b : number) : number := SFadd 53 1024 a b.
Definition js_mul (a b : number) : number := SFmul 53 1024 a b.
Definition js_int (z : Z) : number := binary_normalize 53 1024 z 0 false.

Inductive status := pending | processing | shipped | delivered | cancelled.

#[export] Instance status_eq_dec : EqDecision status.
Proof. solve_decision. Defined.

Definition status_string (st : status) : string :=
  match st with
  | pending => "pending"
  | processing => "processing"
  | shipped => "shipped"
  | delivered => "delivered"
  | cancelled => "cancelled"
  end.

(** [['pending', ..., 'cancelled'].includes(status)], and the status. *)
Definition valid_status (s : string) : option status :=
  find (fun st => String.eqb (status_string st) s) [pending; processing; shipped; delivered; cancelled].

(** The rows; [deletedAt] only matters as null or not, and [price] as the
    number that JavaScript makes of it. *)
Record product := { p_id : Z; p_name : string; p_price : number; p_stock : Z; p_deleted : bool }.
Record order := { o_id : Z; o_customer : Z; o_total : number; o_status : status; o_deleted : bool }.
Record order_item := { i_id : Z; i_order : Z; i_product : Z; i_quantity : Z; i_price : number; i_deleted : bool }.

Definition add_stock (n : Z) (p : product) : product :=
  {| p_id := p_id p; p_name := p_name p; p_price := p_price p; p_stock := p_stock p + n; p_deleted := p_deleted p |}.
Definition with_status (st : status) (o : order) : order :=
  {| o_id := o_id o; o_customer := o_customer o; o_total := o_total o; o_status := st; o_deleted := o_deleted o |}.
Definition with_total (t : number) (o : order) : order :=
  {| o_id := o_id o; o_customer := o_customer o; o_total := t; o_status := o_status o; o_deleted := o_deleted o |}.
Definition with_deleted (b : bool) (o : order) : order :=
  {| o_id := o_id o; o_customer := o_customer o; o_total := o_total o; o_status := o_status o; o_deleted := b |}.
Definition undelete_item (i : order_item) : order_item :=
  {| i_id := i_id i; i_order := i_order i; i_product := i_product i; i_quantity := i_quantity i; i_price := i_price i; i_deleted := false |}.

(** ** The libraries *)

(** The tables, and the calls of Sequelize that the handlers make. *)
Class Database (db : Type) := {
  products : db -> gmap Z product;
  orders : db -> gmap Z order;
  order_items : db -> gmap Z order_item;
  (** what a DECIMAL(10, 2) column makes of a number *)
  to_decimal : number -> number;
  (** what an INTEGER column makes of a string *)
  pg_int : string -> option Z;
  Transaction_begin : db -> option db;
  Transaction_commit : db -> option db;
  Transaction_rollback : db -> option unit;
  Product_findAll : db -> list Z -> option (list product);
  Product_increment : db -> Z -> Z -> option db;
  Order_create : db -> Z -> number -> status -> option (order * db);
  Order_findByPk : db -> bool -> Z -> option (option order);
  Order_findByPk_items : db -> bool -> bool -> Z -> option (option (order * list order_item));
  Order_update_status : db -> Z -> status -> option db;
  Order_update_total : db -> Z -> number -> option db;
  Order_destroy : db -> Z -> option db;
  Order_restore : db -> Z -> option db;
  OrderItem_create : db -> Z -> Z -> Z -> number -> option (order_item * db);
  OrderItem_restore : db -> Z -> option db;
}.

(** [paranoid] queries do not see rows with a [deletedAt]. *)
Class DatabaseLaws (db : Type) `{Database db} := {
  pg_int_spec n m : pg_int (pretty n) = Some m -> m = n;
  begin_spec s t : Transaction_begin s = Some t -> t = s;
  commit_spec t s : Transaction_commit t = Some s -> s = t;
  findAll_spec s ids ps :
    Product_findAll s ids = Some ps ->
    forall p, p ∈ ps <-> p_id p ∈ ids /\ products s !! p_id p = Some p /\ p_deleted p = false;
  increment_spec s id n s' :
    Product_increment s id n = Some s' ->
    products s' = alter (add_stock n) id (products s) /\ orders s' = orders s /\ order_items s' = order_items s;
  create_spec s c t st o s' :
    Order_create s c t st = Some (o, s') ->
    orders s !! o_id o = None /\
    o = {| o_id := o_id o; o_customer := c; o_total := to_decimal t; o_status := st; o_deleted := false |} /\
    products s' = products s /\ orders s' = <[o_id o := o]> (orders s) /\ order_items s' = order_items s;
  findByPk_spec s paranoid id r :
    Order_findByPk s paranoid id = Some r ->
    r = (o ← orders s !! id; if paranoid && o_deleted o then None else Some o);
  findByPk_items_spec s paranoid items_paranoid id r :
    Order_findByPk_items s paranoid items_paranoid id = Some r ->
    match r with
    | None => (o ← orders s !! id; if paranoid && o_deleted o then None else Some o) = None
    | Some (o, items) =>
        orders s !! id = Some o /\ paranoid && o_deleted o = false /\ NoDup (i_id <$> items) /\
        forall i, i ∈ items <-> order_items s !! i_id i = Some i /\ i_order i = id /\ items_paranoid && i_deleted i = false
    end;
  update_status_spec s id st s' :
    Order_update_status s id st = Some s' ->
    products s' = products s /\ orders s' = alter (with_status st) id (orders s) /\ order_items s' = order_items s;
  update_total_spec s id t s' :
    Order_update_total s id t = Some s' ->
    products s' = products s /\ orders s' = alter (with_total (to_decimal t)) id (orders s) /\ order_items s' = order_items s;
  destroy_spec s id s' :
    Order_destroy s id = Some s' ->
    products s' = products s /\ orders s' = alter (with_deleted true) id (orders s) /\ order_items s' = order_items s;
  restore_spec s id s' :
    Order_restore s id = Some s' ->
    products s' = products s /\ orders s' = alter (with_deleted false) id (orders s) /\ order_items s' = order_items s;
  create_item_spec s oid pid n price i s' :
    OrderItem_create s oid pid n price = Some (i, s') ->
    order_items s !! i_id i = None /\
    i = {| i_id := i_id i; i_order := oid; i_product := pid; i_quantity := n; i_price := to_decimal price; i_deleted := false |} /\
    products s' = products s /\ orders s' = orders s /\ order_items s' = <[i_id i := i]> (order_items s);
  restore_item_spec s id s' :
    OrderItem_restore s id = Some s' ->
    products s' = products s /\ orders s' = orders s /\ order_items s' = alter undelete_item id (order_items s);
}.

(** What is cached for an order: its columns, and the customer, items and
    products that are included in it. *)
Class RedisClient (cache json : Type) := {
  entries : cache -> gmap string (order * json);
  redis_get : cache -> string -> option (option (order * json));
  redis_set : cache -> string -> order * json -> option cache;
  redis_del : cache -> string -> option cache;
}.

Class RedisLaws (cache json : Type) `{RedisClient cache json} := {
  get_spec c k r : redis_get c k = Some r -> r = entries c !! k;
  set_spec c k v c' : redis_set c k v = Some c' -> entries c' = <[k := v]> (entries c);
  del_spec c k c' : redis_del c k = Some c' -> entries c' = delete k (entries c);
}.

(** The jobs that wait, by their [jobId], and all ids the queue knows: a job
    whose id is known, also a completed one, is not added. *)
Class BullQueue (queue : Type) := {
  waiting : queue -> gmap string (Z * status);
  known : queue -> gset string;
  queue_add : queue -> string -> Z * status -> option queue;
  queue_complete : queue -> string -> queue;
}.

Class BullLaws (queue : Type) `{BullQueue queue} := {
  add_spec q id j q' :
    queue_add q id j = Some q' ->
    if decide (id ∈ known q) then waiting q' = waiting q /\ known q' = known q
    else waiting q' = <[id := j]> (waiting q) /\ known q' = {[id]} ∪ known q;
  complete_spec q id :
    waiting (queue_complete q id) = delete id (waiting q) /\ known (queue_complete q id) = known q;
}.

(** ** Computations *)

Inductive exn :=
  | ProductNotFound (id : Z)
  | OutOfStock (name : string)
  | TypeError
  | Rejected.

Inductive outcome (A : Type) := Ok (a : A) | Throw (e : exn).
Arguments Ok {A} _.
Arguments Throw {A} _.

(** The status code and the JSON body of a response. *)
Inductive body (json : Type) :=
  | Error (message : string)
  | ErrorOf (e : exn)
  | Message (message : string)
  | MessageOrder (message : string) (o : order)
  | OrderJson (o : order * json).
Arguments Error {json} _.
Arguments ErrorOf {json} _.
Arguments Message {json} _.
Arguments MessageOrder {json} _ _.
Arguments OrderJson {json} _.

Record response (json : Type) := { code : Z; content : body json }.
Arguments code {json} _.
Arguments content {json} _.

Record item_request := { r_product : Z; r_quantity : Z }.

Section Handlers.
Context {db cache json queue : Type} `{Database db} `{RedisClient cache json} `{BullQueue queue}.
(** The customer, items and products of an order, as [toJSON] shows them. *)
Context (included : db -> Z -> json).

Record world := { w_db : db; w_cache : cache; w_queue : queue }.

Definition set_db (s : db) (w : world) : world := {| w_db := s; w_cache := w_cache w; w_queue := w_queue w |}.
Definition set_cache (c : cache) (w : world) : world := {| w_db := w_db w; w_cache := c; w_queue := w_queue w |}.
Definition set_queue (q : queue) (w : world) : world := {| w_db := w_db w; w_cache := w_cache w; w_queue := q |}.

Definition M (A : Type) : Type := world -> outcome A * world.
#[global] Instance M_ret : MRet M := fun A a w => (Ok a, w).
#[global] Instance M_bind : MBind M := fun A B k m w =>
  match m w with
  | (Ok a, w) => k a w
  | (Throw e, w) => (Throw e, w)
  end.
#[global] Instance M_fmap : FMap M := fun A B f m w =>
  match m w with
  | (Ok a, w) => (Ok (f a), w)
  | (Throw e, w) => (Throw e, w)
  end.
Definition throw {A} (e : exn) : M A := fun w => (Throw e, w).
Definition try_catch {A} (m : M A) (h : exn -> M A) : M A := fun w =>
  match m w with
  | (Ok a, w) => (Ok a, w)
  | (Throw e, w) => h e w
  end.

(** An awaited call; without a transaction it reads or changes the committed
    state. *)
Definition await {A} (o : option A) : M A := match o with Some a => mret a | None => throw Rejected end.
Definition query {A} (q : db -> option A) : M A := fun w => await (q (w_db w)) w.
Definition execute (q : db -> option db) : M unit := fun w =>
  match q (w_db w) with Some s => (Ok tt, set_db s w) | None => (Throw Rejected, w) end.

(** [sequelize.transaction(async (t) => ...)]: commits, or rolls back when
    the callback throws. *)
Definition transaction {A} (f : db -> M (A * db)) : M A :=
  t ← query Transaction_begin;
  '(a, t) ← f t;
  execute (fun _ => Transaction_commit t) ;; mret a.

(** The request's ids are strings, which the database reads. *)
Definition int_param (id : string) : M Z := await (pg_int id).

Definition respond (c : Z) (b : body json) : M (response json) := mret {| code := c; content := b |}.

(** ** cacheHelpers.js, statusUpdateJob.js *)

Definition order_key (id : string) : string := "order:" +:+ id.

Definition invalidateOrderCache (orderId : Z) : M unit := fun w =>
  match redis_del (w_cache w) (order_key (pretty orderId)) with
  | Some c => (Ok tt, set_cache c w)
  | None => (Ok tt, w)
  end.

Definition nextStatusMap (st : status) : option status :=
  match st with
  | pending => Some processing
  | processing => Some shipped
  | shipped => Some delivered
  | delivered | cancelled => None
  end.

Definition job_id (orderId : Z) (st : status) : string := pretty orderId +:+ "-" +:+ status_string st.

Definition scheduleStatusUpdateJob (orderId : Z) (currentStatus : option status) : M unit := fun w =>
  match currentStatus ≫= nextStatusMap with
  | None => (Ok tt, w)
  | Some nextStatus =>
      match queue_add (w_queue w) (job_id orderId nextStatus) (orderId, nextStatus) with
      | Some q => (Ok tt, set_queue q w)
      | None => (Throw Rejected, w)
      end
  end.

(** A call that is not awaited: its rejection is lost. *)
Definition background (m : M unit) : M unit := try_catch m (fun _ => mret tt).

(** ** orderHooks.js, orderItemHooks.js *)

Definition order_afterCreate (o : order) : M unit :=
  invalidateOrderCache (o_id o) ;; background (scheduleStatusUpdateJob (o_id o) (Some (o_status o))).

Definition order_afterUpdate (id : Z) : M unit := invalidateOrderCache id.
Definition order_afterDestroy (id : Z) : M unit := invalidateOrderCache id.
Definition order_afterRestore (id : Z) : M unit := invalidateOrderCache id.

Definition items_total (items : list order_item) : number :=
  fold_left (fun sum i => js_add sum (js_mul (js_int (i_quantity i)) (i_price i))) items (js_int 0).

(** Without the transaction of the insertion. *)
Definition item_afterCreate (i : order_item) : M unit :=
  r ← query (fun s => Order_findByPk_items s true true (i_order i));
  match r with
  | None => mret tt
  | Some (o, items) =>
      execute (fun s => Order_update_total s (o_id o) (items_total items)) ;;
      order_afterUpdate (o_id o) ;;
      invalidateOrderCache (o_id o)
  end.

(** ** orderController.js *)

Definition find_product (ps : list product) (id : Z) : option product := find (fun p => p_id p =? id) ps.

Fixpoint check_items (ps : list product) (items : list item_request) : M unit :=
  match items with
  | [] => mret tt
  | item :: items =>
      match find_product ps (r_product item) with
      | None => throw (ProductNotFound (r_product item))
      | Some p => if p_stock p <? r_quantity item then throw (OutOfStock (p_name p)) else check_items ps items
      end
  end.

Fixpoint create_items (order_id : Z) (ps : list product) (items : list item_request) (total : number) (t : db) : M (number * db) :=
  match items with
  | [] => mret (total, t)
  | item :: items =>
      match find_product ps (r_product item) with
      | None => throw TypeError
      | Some p =>
          let lineTotal := js_mul (p_price p) (js_int (r_quantity item)) in
          let total := js_add total lineTotal in
          '(i, t) ← await (OrderItem_create t order_id (r_product item) (r_quantity item) (p_price p));
          item_afterCreate i ;;
          t ← await (Product_increment t (p_id p) (- r_quantity item));
          create_items order_id ps items total t
      end
  end.

(** The callback of the transaction; [items] is missing when the body has
    none. *)
Definition place_order (items : option (list item_request)) (customer_id : Z) (t : db) : M (order * db) :=
  items ← match items with Some items => mret items | None => throw TypeError end;
  ps ← query (fun s => Product_findAll s (r_product <$> items));
  check_items ps items ;;
  '(order, t) ← await (Order_create t customer_id (js_int 0) pending);
  order_afterCreate order ;;
  '(total, t) ← create_items (o_id order) ps items (js_int 0) t;
  t ← await (Order_update_total t (o_id order) total);
  order_afterUpdate (o_id order) ;;
  mret (with_total total order, t).

Definition createOrder (items : option (list item_request)) (customer_id : Z) : M (response json) :=
  try_catch
    (order ← transaction (place_order items customer_id);
     background (scheduleStatusUpdateJob (o_id order) (Some pending)) ;;
     respond 201 (MessageOrder "Order placed successfully" order))
    (fun error => respond 500 (ErrorOf error)).

(** [order.status = st; await order.save()] *)
Definition save_status (o : order) (st : status) : M unit :=
  execute (fun s => Order_update_status s (o_id o) st) ;; order_afterUpdate (o_id o).

Definition updateOrder (id : string) (customer_id : Z) (st : option string) : M (response json) :=
  try_catch
    (id ← int_param id;
     r ← query (fun s => Order_findByPk s true id);
     match r with
     | None => respond 404 (Error "Order not found")
     | Some order =>
         if negb (o_customer order =? customer_id) then respond 403 (Error "Access denied: Not your order")
         else if decide (o_status order = delivered) then respond 400 (Error "Delivered orders cannot be updated")
         else
           let st := match st with Some EmptyString => None | _ => st end in
           match st with
           | None =>
               save_status order (o_status order) ;;
               respond 200 (MessageOrder "Order updated successfully" order)
           | Some st =>
               match valid_status st with
               | None => respond 400 (Error "Invalid status value")
               | Some st =>
                   save_status order st ;;
                   respond 200 (MessageOrder "Order updated successfully" (with_status st order))
               end
           end
     end)
    (fun _ => respond 500 (Error "Internal server error")).

Definition patchOrderStatus (id : string) (st : option string) : M (response json) :=
  try_catch
    (id ← int_param id;
     r ← query (fun s => Order_findByPk s true id);
     match r with
     | None => respond 404 (Error "Order not found")
     | Some order =>
         if decide (o_status order = delivered) then respond 400 (Error "Delivered orders cannot be modified")
         else
           match st ≫= valid_status with
           | None => respond 400 (Error "Invalid order status")
           | Some st =>
               save_status order st ;;
               respond 200 (MessageOrder ("Order status updated to '" +:+ status_string st +:+ "'") (with_status st order))
           end
     end)
    (fun _ => respond 500 (Error "Internal server error")).

(** The loops over [order.items] that give the stock back, or take it. *)
Fixpoint increment_items (sign : Z) (items : list order_item) (t : db) : M db :=
  match items with
  | [] => mret t
  | item :: items =>
      t ← await (Product_increment t (i_product item) (sign * i_quantity item));
      increment_items sign items t
  end.

Definition softDeleteOrder (id : string) : M (response json) :=
  t ← query Transaction_begin;
  try_catch
    (id ← int_param id;
     r ← await (Order_findByPk_items t true true id);
     match r with
     | None => await (Transaction_rollback t) ;; respond 404 (Error "Order not found")
     | Some (order, items) =>
         if decide (o_status order = delivered) then
           await (Transaction_rollback t) ;; respond 400 (Error "Delivered orders cannot be deleted.")
         else
           t ← increment_items 1 items t;
           t ← await (Order_update_status t (o_id order) cancelled);
           order_afterUpdate (o_id order) ;;
           t ← await (Order_destroy t (o_id order));
           order_afterDestroy (o_id order) ;;
           execute (fun _ => Transaction_commit t) ;;
           respond 200 (Message "Order soft-deleted and stock restored")
     end)
    (fun _ => await (Transaction_rollback t) ;; respond 500 (Error "Internal server error")).

Fixpoint restore_items (items : list order_item) (t : db) : M db :=
  match items with
  | [] => mret t
  | item :: items => t ← await (OrderItem_restore t (i_id item)); restore_items items t
  end.

Definition restoreOrder (id : string) : M (response json) :=
  t ← query Transaction_begin;
  try_catch
    (id ← int_param id;
     r ← await (Order_findByPk_items t false true id);
     match r with
     | None => await (Transaction_rollback t) ;; respond 404 (Error "Order not found")
     | Some (order, items) =>
         if negb (o_deleted order) then await (Transaction_rollback t) ;; respond 400 (Error "Order is not deleted")
         else
           t ← await (Order_restore t (o_id order));
           order_afterRestore (o_id order) ;;
           t ← restore_items items t;
           t ← await (Order_update_status t (o_id order) pending);
           order_afterUpdate (o_id order) ;;
           t ← increment_items (-1) items t;
           execute (fun _ => Transaction_commit t) ;;
           background (scheduleStatusUpdateJob (o_id order) None) ;;
           respond 200 (MessageOrder "Order restored and status updates re-scheduled." (with_status pending (with_deleted false order)))
     end)
    (fun _ => await (Transaction_rollback t) ;; respond 500 (Error "Internal server error")).

Definition getOrderById (orderId : string) (customerId : Z) : M (response json) :=
  try_catch
    (cached ← (fun w => await (redis_get (w_cache w) (order_key orderId)) w);
     match cached with
     | Some parsed =>
         if negb (o_customer parsed.1 =? customerId) then respond 403 (Error "Access denied: Not your order")
         else respond 200 (OrderJson parsed)
     | None =>
         id ← int_param orderId;
         r ← query (fun s => Order_findByPk s true id);
         match r with
         | None => respond 404 (Error "Order not found")
         | Some order =>
             if negb (o_customer order =? customerId) then respond 403 (Error "Access denied: Not your order")
             else
               result ← query (fun s => Some (order, included s id));
               (fun w => match redis_set (w_cache w) (order_key orderId) result with
                         | Some c => (Ok tt, set_cache c w)
                         | None => (Throw Rejected, w)
                         end) ;;
               respond 200 (OrderJson result)
         end
     end)
    (fun _ => respond 500 (Error "Failed to fetch order")).

(** ** statusProcessor.js, cancelProcessor.js *)

Definition statusProcessor (orderId : Z) (targetStatus : status) : M unit :=
  r ← query (fun s => Order_findByPk s true orderId);
  match r with
  | None => mret tt
  | Some order =>
      if o_deleted order || bool_decide (o_status order = cancelled) then mret tt
      else if decide (o_status order = delivered) then mret tt
      else if decide (o_status order = targetStatus) then mret tt
      else
        save_status order targetStatus ;;
        if decide (targetStatus = delivered) then mret tt else scheduleStatusUpdateJob orderId (Some targetStatus)
  end.

(** The loop over the items, each update committed on its own. *)
Fixpoint increment_each (items : list order_item) : M unit :=
  match items with
  | [] => mret tt
  | item :: items => execute (fun s => Product_increment s (i_product item) (i_quantity item)) ;; increment_each items
  end.

Definition cancelProcessor (orderId : Z) : M unit :=
  r ← query (fun s => Order_findByPk_items s true false orderId);
  match r with
  | None => mret tt
  | Some (order, items) =>
      if o_deleted order then mret tt
      else if decide (o_status order = delivered) then mret tt
      else
        save_status order cancelled ;;
        execute (fun s => Order_destroy s (o_id order)) ;;
        order_afterDestroy (o_id order) ;;
        increment_each items
  end.

(** Bull runs a waiting job; it is completed, or kept for another attempt. *)
Definition run_job (jobId : string) : M unit := fun w =>
  match waiting (w_queue w) !! jobId with
  | None => (Ok tt, w)
  | Some (orderId, targetStatus) =>
      match statusProcessor orderId targetStatus w with
      | (Ok _, w) => (Ok tt, set_queue (queue_complete (w_queue w) jobId) w)
      | (Throw e, w) => (Throw e, w)
      end
  end.

(** ** Requests and jobs *)

Inductive request :=
  | CreateOrder (items : option (list item_request)) (customer_id : Z)
  | UpdateOrder (id : string) (customer_id : Z) (st : option string)
  | PatchOrderStatus (id : string) (st : option string)
  | SoftDeleteOrder (id : string)
  | RestoreOrder (id : string)
  | GetOrderById (id : string) (customer_id : Z)
  | StatusJob (jobId : string)
  | CancelJob (orderId : Z).

Definition serve (req : request) : M (option (response json)) :=
  match req with
  | CreateOrder items customer_id => Some <$> createOrder items customer_id
  | UpdateOrder id customer_id st => Some <$> updateOrder id customer_id st
  | PatchOrderStatus id st => Some <$> patchOrderStatus id st
  | SoftDeleteOrder id => Some <$> softDeleteOrder id
  | RestoreOrder id => Some <$> restoreOrder id
  | GetOrderById id customer_id => Some <$> getOrderById id customer_id
  | StatusJob jobId => run_job jobId ;; mret None
  | CancelJob orderId => cancelProcessor orderId ;; mret None
  end.

(** A request or a job is served, or entries of the cache expire. *)
Inductive step : world -> world -> Prop :=
  | step_serve req r w w' : serve req w = (r, w') -> (forall id, req = CancelJob id -> exists a, r = Ok a) -> step w w'
  | step_expire c w : entries c ⊆ entries (w_cache w) -> step w (set_cache c w).

End Handlers.

Arguments world : clear implicits.

End Shop.
