(* ===== verification/ShopSpec.v ===== *)
(** * What the shop keeps

    Every unit of a product is in stock or in an order that is not deleted:
    no sequence of requests and jobs creates or loses one.  A delivered order
    is never changed, and a deleted order is a cancelled one.  All this holds
    whatever calls of the libraries reject. *)

From stdpp Require Import gmap strings pretty.
From S2P Require Import Prelude.
From S2P Require Import Shop.
Import Shop.

Module ShopSpec.

(** ** Sums over tables *)

Definition lsum {A} (f : A -> Z) (l : list A) : Z := foldr (fun x acc => f x + acc) 0 l.

Lemma lsum_cons {A} (f : A -> Z) x l : lsum f (x :: l) = f x + lsum f l.
Proof. done. Qed.

Lemma lsum_perm {A} (f : A -> Z) l1 l2 : l1 ≡ₚ l2 -> lsum f l1 = lsum f l2.
Proof. unfold lsum. induction 1 as [|x l1 l2 _ IH|x y l|l1 l2 l3 _ IH1 _ IH2]; cbn [foldr]; lia. Qed.

Lemma lsum_ext {A} (f g : A -> Z) l : (forall x, x ∈ l -> f x = g x) -> lsum f l = lsum g l.
Proof. induction l as [|x l IH]; intros H; [done|]. rewrite !lsum_cons, IH by (intros; apply H; by right). by rewrite (H x) by by left. Qed.

Lemma lsum_add {A} (f g : A -> Z) l : lsum (fun x => f x + g x) l = lsum f l + lsum g l.
Proof. induction l as [|x l IH]; [done|]. rewrite !lsum_cons. lia. Qed.

Lemma lsum_filter {A} (f : A -> Z) (P : A -> Prop) `{forall x, Decision (P x)} l :
  (forall x, x ∈ l -> ~ P x -> f x = 0) -> lsum f (base.filter P l) = lsum f l.
Proof.
  induction l as [|x l IH]; intros Hf; [done|]. rewrite filter_cons. specialize (IH ltac:(intros; apply Hf; [by right|done])).
  rewrite lsum_cons. case_decide; [rewrite lsum_cons; lia|]. rewrite (Hf x) by (by left || done). lia.
Qed.

Definition zsum {A} (f : A -> Z) (m : gmap Z A) : Z := lsum f (map_to_list m).*2.

Lemma zsum_insert {A} (f : A -> Z) m k x : m !! k = None -> zsum f (<[k := x]> m) = f x + zsum f m.
Proof. intros Hk. unfold zsum. by rewrite (lsum_perm _ _ (x :: (map_to_list m).*2)) by by rewrite map_to_list_insert. Qed.

Lemma elem_of_values {A} (m : gmap Z A) x : x ∈ (map_to_list m).*2 <-> exists k, m !! k = Some x.
Proof.
  rewrite list_elem_of_fmap. split.
  - intros ([k y] & -> & Hin%elem_of_map_to_list). by exists k.
  - intros [k Hk]. exists (k, x). split; [done|]. by apply elem_of_map_to_list.
Qed.

Lemma zsum_ext {A} (f g : A -> Z) m : (forall k x, m !! k = Some x -> f x = g x) -> zsum f m = zsum g m.
Proof. intros H. apply lsum_ext. intros x [k Hk]%elem_of_values. by eapply H. Qed.

(** A sum over the rows that a query returned. *)
Lemma zsum_rows {A} (f : A -> Z) (key : A -> Z) (P : A -> Prop) `{forall x, Decision (P x)} m l :
  (forall k x, m !! k = Some x -> key x = k) -> NoDup (key <$> l) ->
  (forall x, x ∈ l <-> m !! key x = Some x /\ P x) -> (forall x, ~ P x -> f x = 0) -> zsum f m = lsum f l.
Proof.
  intros Hkey Hnd Hl Hf. unfold zsum. rewrite <- (lsum_filter f P) by auto. apply lsum_perm. apply NoDup_Permutation.
  - apply NoDup_filter, (NoDup_fmap_1 key). rewrite <- list_fmap_compose.
    rewrite (list_fmap_ext _ fst); [apply NoDup_fst_map_to_list|].
    intros i [k x] Hin%list_elem_of_lookup_2%elem_of_map_to_list. cbn. by apply Hkey.
  - by apply (NoDup_fmap_1 key).
  - intros x. rewrite list_elem_of_filter, elem_of_values, Hl. split; [|intros [Hm HP]; split; [done|by eexists]].
    intros [HP [k Hk]]. by rewrite (Hkey _ _ Hk).
Qed.

(** ** Computations *)

Section Monad.
Context {db cache queue : Type}.
Abbreviation M := (@M db cache queue).
Abbreviation world := (world db cache queue).

Lemma bind_inv {A B} (m : M A) (k : A -> M B) w r w' :
  (x ← m; k x) w = (r, w') ->
  (exists a w1, m w = (Ok a, w1) /\ k a w1 = (r, w')) \/ (exists e, m w = (Throw e, w') /\ r = Throw e).
Proof. unfold mbind, M_bind. destruct (m w) as [[a|e] w1]; intros Heq; [left; by exists a, w1|right; exists e; naive_solver]. Qed.

Lemma try_inv {A} (m : M A) h w r w' :
  try_catch m h w = (r, w') ->
  (exists a, m w = (Ok a, w') /\ r = Ok a) \/ (exists e w1, m w = (Throw e, w1) /\ h e w1 = (r, w')).
Proof. unfold try_catch. destruct (m w) as [[a|e] w1]; intros Heq; [left; naive_solver|right; naive_solver]. Qed.

Lemma await_inv {A} (o : option A) (w : world) r w' :
  await o w = (r, w') -> w' = w /\ ((exists a, o = Some a /\ r = Ok a) \/ (o = None /\ r = Throw Rejected)).
Proof. destruct o as [a|]; cbn; intros [= <- <-]; naive_solver. Qed.

Lemma query_inv {A} (q : db -> option A) (w : world) r w' :
  query q w = (r, w') -> w' = w /\ ((exists a, q (w_db w) = Some a /\ r = Ok a) \/ (q (w_db w) = None /\ r = Throw Rejected)).
Proof. apply await_inv. Qed.

Lemma execute_inv (q : db -> option db) (w : world) r w' :
  execute q w = (r, w') ->
  (exists s, q (w_db w) = Some s /\ r = Ok tt /\ w' = set_db s w) \/ (q (w_db w) = None /\ r = Throw Rejected /\ w' = w).
Proof. unfold execute. destruct (q (w_db w)) as [s|]; intros [= <- <-]; naive_solver. Qed.

End Monad.

(** Takes the first step of a run apart. *)
Ltac run H :=
  lazymatch type of H with
  | mbind _ _ _ = _ => apply bind_inv in H as [(?a & ?w & ?Hm & H)|(?e & H & ?Hr)]
  | try_catch _ _ _ = _ => apply try_inv in H as [(?a & H & ?Hr)|(?e & ?w & ?Hm & H)]
  | await _ _ = _ => apply await_inv in H as [-> [(?a & H & ?Hr)|[H ?Hr]]]
  | query _ _ = _ => apply query_inv in H as [-> [(?a & H & ?Hr)|[H ?Hr]]]
  | execute _ _ = _ => apply execute_inv in H as [(?s & H & ?Hr & ->)|(H & ?Hr & ->)]
  end; simplify_eq.

(** ** The invariant *)

Section Spec.
Context {db cache json queue : Type} `{DatabaseLaws db} `{RedisLaws cache json} `{BullLaws queue}.
#[local] Set Default Proof Using "Type*".
Abbreviation M := (@M db cache queue).
Abbreviation world := (world db cache queue).
Implicit Types w : world.

Record wf (s : db) : Prop := {
  wf_products id p : products s !! id = Some p -> p_id p = id;
  wf_orders id o : orders s !! id = Some o -> o_id o = id /\ (o_deleted o = true -> o_status o = cancelled);
  wf_items id i : order_items s !! id = Some i ->
    i_id i = id /\ i_deleted i = false /\ is_Some (products s !! i_product i) /\ is_Some (orders s !! i_order i);
}.

Definition stock (s : db) (pid : Z) : Z := match products s !! pid with Some p => p_stock p | None => 0 end.

(** The units of a product that an item holds, when its order is live. *)
Definition units (pid : Z) (live : Z -> bool) (i : order_item) : Z :=
  if bool_decide (i_product i = pid) && live (i_order i) then i_quantity i else 0.

Definition live (s : db) (oid : Z) : bool := match orders s !! oid with Some o => negb (o_deleted o) | None => false end.

Definition ledger (s : db) (pid : Z) : Z := stock s pid + zsum (units pid (live s)) (order_items s).

(** What a request or a job keeps. *)
Definition keeps (s s' : db) : Prop :=
  wf s' /\ (forall pid, ledger s' pid = ledger s pid) /\
  (forall id o, orders s !! id = Some o -> o_status o = delivered -> orders s' !! id = Some o).

Lemma keeps_refl s : wf s -> keeps s s.
Proof. by split. Qed.

Lemma keeps_trans s1 s2 s3 : keeps s1 s2 -> keeps s2 s3 -> keeps s1 s3.
Proof. intros (_ & Hl1 & Hd1) (Hw & Hl2 & Hd2). split; [done|]. split; [intros pid; by rewrite Hl2|eauto]. Qed.

(** The ledger only depends on the tables. *)
Lemma ledger_views s s' pid :
  products s' !! pid = products s !! pid -> (forall oid, live s' oid = live s oid) -> order_items s' = order_items s ->
  ledger s' pid = ledger s pid.
Proof.
  intros Hp Hl Hi. unfold ledger, stock. rewrite Hp, Hi. f_equal. apply zsum_ext. intros k i _. unfold units. by rewrite Hl.
Qed.

(** ** Hooks and jobs do not change the database *)

Definition frame {A} (m : M A) : Prop := forall w, w_db (m w).2 = w_db w.

Lemma frame_inv {A} (m : M A) w r w' : frame m -> m w = (r, w') -> w_db w' = w_db w.
Proof. intros Hf Hm. specialize (Hf w). by rewrite Hm in Hf. Qed.

Lemma frame_bind {A B} (m : M A) (k : A -> M B) : frame m -> (forall a, frame (k a)) -> frame (x ← m; k x).
Proof.
  intros Hm Hk w. unfold mbind, M_bind. specialize (Hm w). destruct (m w) as [[a|e] w1]; [|done]. by rewrite Hk.
Qed.

Lemma frame_try {A} (m : M A) h : frame m -> (forall e, frame (h e)) -> frame (try_catch m h).
Proof. intros Hm Hk w. unfold try_catch. specialize (Hm w). destruct (m w) as [[a|e] w1]; [done|]. by rewrite Hk. Qed.

Lemma frame_ret {A} (a : A) : frame (mret a).
Proof. done. Qed.

Lemma frame_await {A} (o : option A) : frame (await o).
Proof. by destruct o. Qed.

Lemma frame_query {A} (q : db -> option A) : frame (query q).
Proof. intros w. unfold query. by destruct (q (w_db w)). Qed.

Lemma frame_invalidate id : frame (invalidateOrderCache id).
Proof. intros w. unfold invalidateOrderCache. by destruct (redis_del _ _). Qed.

Lemma frame_schedule id st : frame (scheduleStatusUpdateJob id st).
Proof. intros w. unfold scheduleStatusUpdateJob. destruct (_ ≫= _); [|done]. by destruct (queue_add _ _ _). Qed.

(** ** Changes of the tables *)

Lemma keeps_order s s' id o f :
  wf s -> orders s !! id = Some o -> o_status o <> delivered ->
  products s' = products s -> order_items s' = order_items s -> orders s' = alter f id (orders s) ->
  o_id (f o) = o_id o -> o_deleted (f o) = o_deleted o -> (o_deleted o = true -> o_status (f o) = cancelled) ->
  keeps s s'.
Proof.
  intros Hwf Ho Hst Hp Hi Hos Hid Hdel Hc.
  assert (Hlk : forall k, orders s' !! k = if decide (k = id) then Some (f o) else orders s !! k).
  { intros k. rewrite Hos. case_decide as Hk; [subst k; by rewrite lookup_alter_eq, Ho|by rewrite lookup_alter_ne]. }
  split; [split|split].
  - rewrite Hp. apply Hwf.
  - intros k o' Hk. rewrite Hlk in Hk. case_decide; [|by apply Hwf]. simplify_eq. rewrite Hid, Hdel. split; [|done]. by apply Hwf.
  - rewrite Hp, Hi. intros k i Hk. destruct (wf_items s Hwf k i Hk) as (? & ? & ? & [o' Ho']). do 3 (split; [done|]). rewrite Hlk.
    case_decide; [done|by eexists].
  - intros pid. apply ledger_views; [by rewrite Hp| |done]. intros oid. unfold live. rewrite Hlk.
    case_decide; [subst oid; by rewrite Ho, Hdel|done].
  - intros k o' Hk Hd. rewrite Hlk. case_decide; [simplify_eq|done].
Qed.

Lemma add_stock_add a b p : add_stock a (add_stock b p) = add_stock (b + a) p.
Proof. unfold add_stock. cbn. f_equal. lia. Qed.

Lemma add_stock_0 p : add_stock 0 p = p.
Proof. destruct p. unfold add_stock. cbn. f_equal. lia. Qed.

(** The units of a product in a list of items. *)
Abbreviation total_units pid items := (lsum (units pid (fun _ => true)) items).

Definition restocked (sign : Z) (items : list order_item) (s s' : db) : Prop :=
  (forall pid, products s' !! pid = add_stock (sign * total_units pid items) <$> products s !! pid) /\
  orders s' = orders s /\ order_items s' = order_items s.

Lemma restocked_cons sign item items s s1 s' :
  Product_increment s (i_product item) (sign * i_quantity item) = Some s1 -> restocked sign items s1 s' ->
  restocked sign (item :: items) s s'.
Proof.
  intros (Hp & Ho & Hi)%increment_spec (Hp' & Ho' & Hi'). split; [|split; congruence]. intros pid. rewrite Hp', Hp, lsum_cons. unfold units at 2.
  rewrite andb_true_r. case_bool_decide as Heq.
  - rewrite Heq, lookup_alter_eq. destruct (products s !! pid) as [p|]; [|done]. cbn. rewrite add_stock_add. do 2 f_equal. lia.
  - rewrite lookup_alter_ne by done. destruct (products s !! pid) as [p|]; [|done]. done.
Qed.

Lemma restocked_nil sign s : restocked sign [] s s.
Proof.
  split; [|done]. intros pid. change (total_units pid []) with 0. rewrite Z.mul_0_r. destruct (products s !! pid); cbn; [by rewrite add_stock_0|done].
Qed.

Lemma increment_items_inv sign items : forall t (w : world) r w',
  increment_items sign items t w = (r, w') -> w' = w /\ forall t', r = Ok t' -> restocked sign items t t'.
Proof.
  induction items as [|item items IH]; intros t w r w' Hrun; cbn [increment_items] in Hrun.
  - injection Hrun as <- <-. split; [done|]. intros t' [= <-]. apply restocked_nil.
  - run Hrun.
    + run Hm. destruct (IH _ _ _ _ Hrun) as [-> Hres]. split; [done|]. intros t' ->. eapply restocked_cons; [done|by apply Hres].
    + run Hrun. by split.
Qed.

(** The order with the returned items goes out of, or back into, the ledger. *)
Lemma ledger_flip s s' id items :
  wf s -> NoDup (i_id <$> items) ->
  (forall i, i ∈ items <-> order_items s !! i_id i = Some i /\ i_order i = id /\ true && i_deleted i = false) ->
  (forall k, k <> id -> live s' k = live s k) -> live s' id = negb (live s id) -> order_items s' = order_items s ->
  (forall pid, products s' !! pid = add_stock ((if live s id then 1 else -1) * total_units pid items) <$> products s !! pid) ->
  forall pid, ledger s' pid = ledger s pid.
Proof.
  intros Hwf Hnd Hitems Hlive Hid Hi Hp pid.
  set (others := fun k => live s k && negb (bool_decide (k = id))).
  assert (Hsum : forall b : bool, zsum (units pid (fun k => if decide (k = id) then b else live s k)) (order_items s) =
    zsum (units pid others) (order_items s) + if b then total_units pid items else 0).
  { intros b. unfold zsum. rewrite (lsum_ext _ (fun i => units pid others i + if b && bool_decide (i_order i = id) then units pid (fun _ => true) i else 0)).
    - rewrite lsum_add. f_equal. fold (zsum (fun i => if b && bool_decide (i_order i = id) then units pid (fun _ => true) i else 0) (order_items s)).
      destruct b; cbn [andb].
      + rewrite (zsum_rows _ i_id (fun i => i_order i = id) (order_items s) items).
        * apply lsum_ext. intros i Hin%Hitems. by rewrite bool_decide_true by apply Hin.
        * intros k i Hk. by apply (wf_items s Hwf k i Hk).
        * done.
        * intros i. rewrite Hitems. split; [by intros (Hk & Ho & _)|]. intros [Hk Ho]. destruct (wf_items s Hwf _ _ Hk) as (_ & Hd & _). done.
        * intros i Hne. by rewrite bool_decide_false.
      + clear. unfold zsum. by induction (map_to_list (order_items s)).*2 as [|x l IH]; [|rewrite lsum_cons, IH].
    - intros i _. unfold units, others. rewrite andb_true_r. repeat case_bool_decide; case_decide; try done; cbn; destruct b, (live s (i_order i)); cbn; lia || done. }
  assert (Hz : forall s0, (forall k, live s0 k = if decide (k = id) then live s0 id else live s k) -> order_items s0 = order_items s ->
    zsum (units pid (live s0)) (order_items s0) = zsum (units pid others) (order_items s) + if live s0 id then total_units pid items else 0).
  { intros s0 Hl0 Hi0. rewrite <- Hsum, Hi0. apply zsum_ext. intros k i _. unfold units. by rewrite Hl0. }
  unfold ledger, stock. rewrite (Hz s'), (Hz s), Hid, Hp; [|intros k; by case_decide; subst|done|intros k; case_decide; [by subst|by apply Hlive]|done].
  destruct (products s !! pid) as [p|] eqn:Hpp; cbn [fmap option_fmap option_map]; [cbn; destruct (live s id); cbn [negb]; lia|].
  enough (total_units pid items = 0) by (destruct (live s id); cbn [negb]; lia).
  assert (Hno : forall i, i ∈ items -> i_product i <> pid).
  { intros i [Hk _]%Hitems Heq. destruct (wf_items s Hwf _ _ Hk) as (_ & _ & [p' Hp'] & _). by rewrite Heq, Hpp in Hp'. }
  clear -Hno. induction items as [|i items IH]; [done|]. rewrite lsum_cons, IH by (intros; apply Hno; by right).
  unfold units. by rewrite bool_decide_false by (apply Hno; by left).
Qed.

(** ** Requests and jobs *)

Definition safe {A} (m : M A) : Prop := forall w r w', wf (w_db w) -> m w = (r, w') -> keeps (w_db w) (w_db w').

Lemma frame_safe {A} (m : M A) : frame m -> safe m.
Proof. intros Hf w r w' Hwf Hm. rewrite (frame_inv m w r w' Hf Hm). by apply keeps_refl. Qed.

Lemma find_live s id o : Order_findByPk s true id = Some (Some o) -> orders s !! id = Some o /\ o_deleted o = false.
Proof.
  intros Hf%findByPk_spec. destruct (orders s !! id) as [o'|]; cbn in Hf; [|done].
  destruct (o_deleted o') eqn:Hd; cbn in Hf; by simplify_eq.
Qed.

Lemma save_status_inv o st w r w' :
  save_status o st w = (r, w') ->
  w_db w' = w_db w \/ Order_update_status (w_db w) (o_id o) st = Some (w_db w') /\ r = Ok tt.
Proof.
  unfold save_status. intros Hrun. run Hrun; [|run Hrun; by left]. run Hm. right.
  unfold order_afterUpdate, invalidateOrderCache in Hrun. destruct (redis_del _ _); by simplify_eq.
Qed.

Lemma save_status_keeps o st w r w' :
  wf (w_db w) -> orders (w_db w) !! o_id o = Some o -> o_deleted o = false -> o_status o <> delivered ->
  save_status o st w = (r, w') -> keeps (w_db w) (w_db w').
Proof.
  intros Hwf Ho Hd Hne [->|[(Hp & Hos & Hi)%update_status_spec _]]%save_status_inv; [by apply keeps_refl|].
  apply (keeps_order _ _ (o_id o) o (with_status st)); try done. cbn. by rewrite Hd.
Qed.

(** The handlers that look an order up and save a new status. *)
Lemma find_save_safe {A} (k : option order -> M A) id :
  (forall w r w', k None w = (r, w') -> w_db w' = w_db w) ->
  (forall o w r w', wf (w_db w) -> orders (w_db w) !! o_id o = Some o -> o_deleted o = false -> k (Some o) w = (r, w') -> keeps (w_db w) (w_db w')) ->
  safe (r ← query (fun s => Order_findByPk s true id); k r).
Proof.
  intros Hn Hs w r w' Hwf Hrun. run Hrun; [|run Hrun; by apply keeps_refl]. run Hm. destruct a0 as [o|].
  - destruct (find_live _ _ _ Hm) as [Ho Hd]. eapply Hs; [done| |done|done]. by rewrite (proj1 (wf_orders _ Hwf _ _ Ho)).
  - rewrite (Hn _ _ _ Hrun). by apply keeps_refl.
Qed.

Lemma respond_inv c b w r w' : respond (json := json) c b w = (r, w') -> w' = w /\ r = Ok {| code := c; content := b |}.
Proof. by intros [= <- <-]. Qed.

Lemma param_safe {A} (k : Z -> M A) id : (forall z, safe (k z)) -> safe (z ← int_param id; k z).
Proof.
  intros Hk w r w' Hwf Hrun. run Hrun; unfold int_param in *; [run Hm; by apply (Hk a0 w r)|run Hrun; by apply keeps_refl].
Qed.

Lemma try_safe {A} (m : M A) h : safe m -> (forall e, frame (h e)) -> safe (try_catch m h).
Proof.
  intros Hm Hh w r w' Hwf Hrun. run Hrun; [by eapply Hm|]. rewrite (frame_inv _ _ _ _ (Hh e) Hrun). by eapply Hm.
Qed.

Lemma frame_respond c b : frame (respond (json := json) c b).
Proof. done. Qed.

Lemma save_respond_keeps o st c b w r w' :
  wf (w_db w) -> orders (w_db w) !! o_id o = Some o -> o_deleted o = false -> o_status o <> delivered ->
  (save_status o st ;; respond (json := json) c b) w = (r, w') -> keeps (w_db w) (w_db w').
Proof.
  intros Hwf Ho Hd Hne Hrun. run Hrun; [apply respond_inv in Hrun as [-> _]|]; by eapply save_status_keeps.
Qed.

Lemma updateOrder_safe id customer_id st : safe (updateOrder (json := json) id customer_id st).
Proof.
  apply try_safe; [|done]. apply param_safe. intros z. apply find_save_safe; [by intros w r w' [= <- <-]|].
  intros o w r w' Hwf Ho Hd Hrun. destruct (negb _); [injection Hrun as <- <-; by apply keeps_refl|].
  destruct (decide _) as [He|He]; [injection Hrun as <- <-; by apply keeps_refl|].
  cbv zeta in Hrun. destruct (match st with Some EmptyString => None | _ => st end) as [str|]; [|by eapply save_respond_keeps].
  destruct (valid_status str); [by eapply save_respond_keeps|]. injection Hrun as <- <-. by apply keeps_refl.
Qed.

Lemma patchOrderStatus_safe id st : safe (patchOrderStatus (json := json) id st).
Proof.
  apply try_safe; [|done]. apply param_safe. intros z. apply find_save_safe; [by intros w r w' [= <- <-]|].
  intros o w r w' Hwf Ho Hd Hrun. destruct (decide _) as [He|He]; [injection Hrun as <- <-; by apply keeps_refl|].
  destruct (st ≫= valid_status); [by eapply save_respond_keeps|]. injection Hrun as <- <-. by apply keeps_refl.
Qed.

Lemma statusProcessor_safe id st : safe (statusProcessor id st).
Proof.
  apply find_save_safe; [by intros w r w' [= <- <-]|]. intros o w r w' Hwf Ho Hd Hrun.
  destruct (_ || _); [injection Hrun as <- <-; by apply keeps_refl|].
  do 2 (destruct (decide _); [injection Hrun as <- <-; by apply keeps_refl|]).
  run Hrun; [|by eapply save_status_keeps].
  replace (w_db w') with (w_db w0); [by eapply save_status_keeps|]. symmetry.
  destruct (decide _); [by injection Hrun as <- <-|]. eapply frame_inv; [apply frame_schedule|done].
Qed.

(** An order is deleted and its stock given back, or restored and taken. *)
Lemma keeps_flip s s' id o o' items :
  wf s -> orders s !! id = Some o -> o_status o <> delivered -> orders s' = <[id := o']> (orders s) ->
  o_id o' = id -> o_deleted o' = negb (o_deleted o) -> (o_deleted o' = true -> o_status o' = cancelled) ->
  NoDup (i_id <$> items) ->
  (forall i, i ∈ items <-> order_items s !! i_id i = Some i /\ i_order i = id /\ true && i_deleted i = false) ->
  order_items s' = order_items s ->
  (forall pid, products s' !! pid = add_stock ((if o_deleted o then -1 else 1) * total_units pid items) <$> products s !! pid) ->
  keeps s s'.
Proof.
  intros Hwf Ho Hne Hos Hid Hdel Hc Hnd Hitems Hi Hp. split; [split|split].
  - intros k p Hk. rewrite Hp in Hk. destruct (products s !! k) as [p0|] eqn:Hk0; [|done]. cbn in Hk. injection Hk as <-.
    cbn. by apply (wf_products s Hwf).
  - intros k o1 Hk. rewrite Hos in Hk. apply lookup_insert_Some in Hk as [[<- <-]|[_ Hk]]; [done|by apply Hwf].
  - rewrite Hi. intros k i Hk. destruct (wf_items s Hwf k i Hk) as (H1' & H2' & Hpr & Hor). do 2 (split; [done|]). split.
    + rewrite Hp. by apply fmap_is_Some.
    + rewrite Hos. destruct (decide (i_order i = id)) as [->|Hn]; [rewrite lookup_insert_eq; by eexists|by rewrite lookup_insert_ne].
  - apply (ledger_flip s s' id items); try done.
    + intros k Hk. unfold live. by rewrite Hos, lookup_insert_ne.
    + unfold live. by rewrite Hos, lookup_insert_eq, Ho, Hdel.
    + intros pid. rewrite Hp. unfold live. rewrite Ho. by destruct (o_deleted o).
  - intros k o1 Hk Hst. rewrite Hos. destruct (decide (k = id)) as [->|Hn]; [|by rewrite lookup_insert_ne]. rewrite Ho in Hk. by simplify_eq.
Qed.

Lemma alter_insert_id {A} (f : A -> A) k x (m : gmap Z A) : m !! k = Some x -> alter f k m = <[k := f x]> m.
Proof.
  intros Hk. apply map_eq. intros j. destruct (decide (j = k)) as [->|Hn];
    [by rewrite lookup_alter_eq, lookup_insert_eq, Hk|by rewrite lookup_alter_ne, lookup_insert_ne].
Qed.

Lemma alter_insert_again {A} (f : A -> A) k x (m : gmap Z A) : alter f k (<[k := x]> m) = <[k := f x]> m.
Proof. rewrite (alter_insert_id f k x) by apply lookup_insert_eq. apply insert_insert_eq. Qed.

Lemma hook_inv id w r w' : invalidateOrderCache id w = (r, w') -> w_db w' = w_db w /\ r = Ok tt.
Proof. unfold invalidateOrderCache. destruct (redis_del _ _); by intros [= <- <-]. Qed.

(** A handler with a transaction of its own: the body starts on the state
    that the transaction sees. *)
Lemma unmanaged_safe {A} (body : db -> M A) (h : db -> exn -> M A) :
  (forall s w r w', wf s -> w_db w = s -> body s w = (r, w') -> keeps s (w_db w')) -> (forall t e, frame (h t e)) ->
  safe (t ← query Transaction_begin; try_catch (body t) (h t)).
Proof.
  intros Hb Hh w r w' Hwf Hrun. run Hrun; [|run Hrun; by apply keeps_refl]. run Hm. apply begin_spec in Hm as ->.
  run Hrun; [by eapply Hb|]. rewrite (frame_inv _ _ _ _ (Hh _ e) Hrun). by eapply Hb.
Qed.

Lemma frame_refl_keeps {A} (m : M A) s w r w' : wf s -> w_db w = s -> frame m -> m w = (r, w') -> keeps s (w_db w').
Proof. intros Hwf <- Hf Hm. rewrite (frame_inv m w r w' Hf Hm). by apply keeps_refl. Qed.

Lemma rollback_frame s c b : frame (await (Transaction_rollback s) ;; respond (json := json) c b).
Proof. apply frame_bind; [apply frame_await|done]. Qed.

Lemma softDeleteOrder_safe id : safe (softDeleteOrder (json := json) id).
Proof.
  apply unmanaged_safe; [|intros; apply rollback_frame]. intros s w r w' Hwf <- Hrun. pose proof (keeps_refl _ Hwf) as Hrefl.
  unfold int_param in Hrun. run Hrun; [run Hm|run Hrun; done].
  run Hrun; [run Hm0|run Hrun; done]. apply findByPk_items_spec in Hm0. destruct a1 as [[o items]|];
    [|by eapply frame_refl_keeps; [..|apply rollback_frame|]].
  destruct Hm0 as (Ho & Hd & Hnd & Hitems). destruct (decide _) as [He|He]; [by eapply frame_refl_keeps; [..|apply rollback_frame|]|].
  run Hrun; [|apply increment_items_inv in Hrun as [-> _]; done]. apply increment_items_inv in Hm0 as [-> Hst].
  specialize (Hst _ eq_refl) as (Hp1 & Ho1 & Hi1).
  run Hrun; [run Hm0|run Hrun; done]. apply update_status_spec in Hm0 as (Hp2 & Ho2 & Hi2).
  run Hrun; [|by apply hook_inv in Hrun as [_ ?]]. apply hook_inv in Hm0 as [Hw2 _].
  run Hrun; [run Hm0|run Hrun; by rewrite Hw2]. apply destroy_spec in Hm0 as (Hp3 & Ho3 & Hi3).
  run Hrun; [|by apply hook_inv in Hrun as [_ ?]]. apply hook_inv in Hm0 as [Hw3 _].
  run Hrun; [|run Hrun; by rewrite Hw3, Hw2]. run Hm0. apply commit_spec in Hm0 as ->. apply respond_inv in Hrun as [-> _]. cbn [w_db set_db].
  destruct (wf_orders _ Hwf _ _ Ho) as [Hid _]. apply andb_false_iff in Hd as [Hd|Hd]; [done|].
  apply (keeps_flip _ _ (o_id o) o (with_deleted true (with_status cancelled o)) items); cbn; try done; try congruence.
  - rewrite Ho3, Ho2, Ho1, (alter_insert_id (with_status cancelled) _ o) by by rewrite Hid. apply alter_insert_again.
  - by rewrite Hd.
  - by rewrite Hid.
  - intros pid. rewrite Hp3, Hp2, Hp1, Hd. done.
Qed.

Lemma restore_items_inv items : forall t w r w',
  restore_items items t w = (r, w') -> (forall i, i ∈ items -> order_items t !! i_id i = Some i /\ i_deleted i = false) ->
  w' = w /\ forall t', r = Ok t' -> products t' = products t /\ orders t' = orders t /\ order_items t' = order_items t.
Proof.
  induction items as [|item items IH]; intros t w r w' Hrun Hrows; cbn [restore_items] in Hrun.
  - injection Hrun as <- <-. split; [done|]. by intros t' [= <-].
  - run Hrun; [run Hm|run Hrun; by split]. apply restore_item_spec in Hm as (Hp & Ho & Hi).
    assert (Hsame : order_items a0 = order_items t).
    { rewrite Hi. destruct (Hrows item) as [Hk Hd]; [by left|]. rewrite (alter_insert_id _ _ _ _ Hk). apply insert_id. rewrite Hk.
      f_equal. destruct item. cbn in *. by subst. }
    destruct (IH _ _ _ _ Hrun) as [-> Hres]; [intros i Hin; rewrite Hsame; apply Hrows; by right|].
    split; [done|]. intros t' ->. destruct (Hres t' eq_refl) as (-> & -> & ->). by rewrite Hp, Ho, Hsame.
Qed.

Lemma restoreOrder_safe id : safe (restoreOrder (json := json) id).
Proof.
  apply unmanaged_safe; [|intros; apply rollback_frame]. intros s w r w' Hwf <- Hrun. pose proof (keeps_refl _ Hwf) as Hrefl.
  unfold int_param in Hrun. run Hrun; [run Hm|run Hrun; done].
  run Hrun; [run Hm0|run Hrun; done]. apply findByPk_items_spec in Hm0. destruct a1 as [[o items]|];
    [|by eapply frame_refl_keeps; [..|apply rollback_frame|]].
  destruct Hm0 as (Ho & _ & Hnd & Hitems). destruct (o_deleted o) eqn:Hd; cbn [negb] in Hrun; [|by eapply frame_refl_keeps; [..|apply rollback_frame|]].
  run Hrun; [run Hm0|run Hrun; done]. apply restore_spec in Hm0 as (Hp1 & Ho1 & Hi1).
  run Hrun; [|by apply hook_inv in Hrun as [_ ?]]. apply hook_inv in Hm0 as [Hw1 _].
  assert (Hrows : forall i, i ∈ items -> order_items a1 !! i_id i = Some i /\ i_deleted i = false).
  { intros i (Hk & _ & Hdi)%Hitems. by rewrite Hi1. }
  run Hrun; [|apply restore_items_inv in Hrun as [-> _]; [by rewrite Hw1|done]]. apply restore_items_inv in Hm0 as [-> Hrs]; [|done].
  specialize (Hrs _ eq_refl) as (Hp2 & Ho2 & Hi2).
  run Hrun; [run Hm0|run Hrun; by rewrite Hw1]. apply update_status_spec in Hm0 as (Hp3 & Ho3 & Hi3).
  run Hrun; [|by apply hook_inv in Hrun as [_ ?]]. apply hook_inv in Hm0 as [Hw3 _].
  run Hrun; [|apply increment_items_inv in Hrun as [-> _]; by rewrite Hw3, Hw1]. apply increment_items_inv in Hm0 as [-> Hst].
  specialize (Hst _ eq_refl) as (Hp4 & Ho4 & Hi4).
  run Hrun; [|run Hrun; by rewrite Hw3, Hw1]. run Hm0. apply commit_spec in Hm0 as ->.
  run Hrun. injection Hm0 as _ <-. apply respond_inv in Hrun as [-> _]. cbn [w_db set_db].
  destruct (wf_orders _ Hwf _ _ Ho) as [Hid Hc]. specialize (Hc Hd).
  apply (keeps_flip _ _ (o_id o) o (with_status pending (with_deleted false o)) items); cbn; try done; try congruence.
  - rewrite Ho4, Ho3, Ho2, Ho1, (alter_insert_id (with_deleted false) _ o) by by rewrite Hid. apply alter_insert_again.
  - by rewrite Hd.
  - by rewrite Hid.
  - intros pid. rewrite Hp4, Hp3, Hp2, Hp1, Hd. done.
Qed.

Lemma increment_each_inv items : forall w w', increment_each items w = (Ok tt, w') -> restocked 1 items (w_db w) (w_db w').
Proof.
  induction items as [|item items IH]; intros w w' Hrun; cbn [increment_each] in Hrun.
  - injection Hrun as <-. apply restocked_nil.
  - run Hrun. run Hm. eapply restocked_cons; [by rewrite Z.mul_1_l|by apply (IH _ _ Hrun)].
Qed.

(** The job that cancels an order has no transaction: it keeps the ledger
    when none of its calls is rejected. *)
Lemma cancelProcessor_keeps id w w' : wf (w_db w) -> cancelProcessor id w = (Ok tt, w') -> keeps (w_db w) (w_db w').
Proof.
  intros Hwf Hrun. pose proof (keeps_refl _ Hwf) as Hrefl. unfold cancelProcessor in Hrun. run Hrun. run Hm.
  apply findByPk_items_spec in Hm. destruct a0 as [[o items]|]; [|by injection Hrun as <-].
  destruct Hm as (Ho & Hd & Hnd & Hitems). destruct (o_deleted o) eqn:Hdo; [by injection Hrun as <-|].
  destruct (decide _) as [He|He]; [by injection Hrun as <-|]. destruct (wf_orders _ Hwf _ _ Ho) as [Hid _].
  run Hrun. assert (Hst : Order_update_status (w_db w) (o_id o) cancelled = Some (w_db w0)).
  { unfold save_status in Hm. run Hm. run Hm0. by apply hook_inv in Hm as [-> _]. }
  apply update_status_spec in Hst as (Hp1 & Ho1 & Hi1).
  run Hrun. run Hm0. apply destroy_spec in Hm0 as (Hp2 & Ho2 & Hi2). run Hrun. apply hook_inv in Hm0 as [Hw2 _]. cbn [w_db set_db] in Hw2.
  apply increment_each_inv in Hrun as (Hp3 & Ho3 & Hi3). rewrite Hw2 in Hp3, Ho3, Hi3.
  apply (keeps_flip _ _ (o_id o) o (with_deleted true (with_status cancelled o)) items); cbn; try done; try congruence.
  - rewrite Ho3, Ho2, Ho1, (alter_insert_id (with_status cancelled) _ o) by done. apply alter_insert_again.
  - by rewrite Hdo.
  - intros i. rewrite Hitems. split; [|by intros (Hk & Hoi & _)]. intros (Hk & Hoi & _). do 2 (split; [done|]).
    by destruct (wf_items _ Hwf _ _ Hk) as (_ & Hdi & _).
  - intros pid. rewrite Hp3, Hp2, Hp1, Hdo. done.
Qed.

(** ** Placing an order *)

Definition take_stock (its : list item_request) (m : gmap Z product) : gmap Z product :=
  fold_left (fun m it => alter (add_stock (- r_quantity it)) (r_product it) m) its m.

Definition add_line (s : db) (total : number) (it : item_request) : number :=
  match products s !! r_product it with
  | Some p => js_add total (js_mul (p_price p) (js_int (r_quantity it)))
  | None => total
  end.

(** One new row for every item of the request, with the price of the product. *)
Inductive item_rows (s : db) (oid : Z) : list item_request -> gmap Z order_item -> gmap Z order_item -> Prop :=
  | rows_nil m : item_rows s oid [] m m
  | rows_cons it its p id m m' :
      products s !! r_product it = Some p -> m !! id = None ->
      item_rows s oid its (<[id := {| i_id := id; i_order := oid; i_product := r_product it; i_quantity := r_quantity it;
                                      i_price := to_decimal (p_price p); i_deleted := false |}]> m) m' ->
      item_rows s oid (it :: its) m m'.

Definition available (s : db) (it : item_request) : Prop :=
  exists p, products s !! r_product it = Some p /\ p_deleted p = false /\ r_quantity it <= p_stock p.

Record placed (its : list item_request) (customer_id oid : Z) (s s' : db) : Prop := {
  placed_available : Forall (available s) its;
  placed_products : products s' = take_stock its (products s);
  placed_order : orders s !! oid = None /\
    orders s' = <[oid := {| o_id := oid; o_customer := customer_id; o_total := to_decimal (fold_left (add_line s) its (js_int 0));
                            o_status := pending; o_deleted := false |}]> (orders s) /\
    item_rows s oid its (order_items s) (order_items s');
}.

(** The products that a request found. *)
Definition found (s : db) (ps : list product) : Prop :=
  forall p, p ∈ ps -> products s !! p_id p = Some p /\ p_deleted p = false.

Lemma find_product_found s ps id p :
  found s ps -> find_product ps id = Some p -> p_id p = id /\ products s !! id = Some p /\ p_deleted p = false.
Proof.
  intros Hf Hp. apply find_some in Hp as [Hin Hid%Z.eqb_eq]. apply list_elem_of_In, Hf in Hin. by rewrite Hid in Hin.
Qed.

Lemma check_items_inv s ps its : forall w r w',
  found s ps -> check_items ps its w = (r, w') -> w' = w /\ (r = Ok tt -> Forall (available s) its).
Proof.
  intros w r w' Hf. induction its as [|it its IH]; cbn [check_items]; [by intros [= <- <-]|].
  destruct (find_product ps (r_product it)) as [p|] eqn:Hp; [|by intros [= <- <-]].
  destruct (Z.ltb_spec (p_stock p) (r_quantity it)); [by intros [= <- <-]|]. intros [-> Hall]%IH. split; [done|].
  intros ->. constructor; [|by apply Hall]. destruct (find_product_found s ps _ _ Hf Hp) as (_ & Hps & Hd). by exists p.
Qed.

(** The hook of a new item does not see its order, which is not committed. *)
Lemma item_afterCreate_inv i w r w' : orders (w_db w) !! i_order i = None -> item_afterCreate i w = (r, w') -> w' = w.
Proof.
  intros Hn Hrun. unfold item_afterCreate in Hrun. run Hrun; run Hm || run Hrun; [|done]. apply findByPk_items_spec in Hm.
  destruct a0 as [[o items]|]; [|by injection Hrun as <- <-]. destruct Hm as (Ho & _). by rewrite Hn in Ho.
Qed.

Lemma create_items_inv s oid ps its : forall total t w r w',
  found s ps -> orders (w_db w) !! oid = None -> create_items oid ps its total t w = (r, w') ->
  w' = w /\ forall total' t', r = Ok (total', t') ->
    total' = fold_left (add_line s) its total /\ products t' = take_stock its (products t) /\ orders t' = orders t /\
    item_rows s oid its (order_items t) (order_items t').
Proof.
  induction its as [|it its IH]; intros total t w r w' Hf Hn Hrun; cbn [create_items] in Hrun.
  - injection Hrun as <- <-. split; [done|]. intros total' t' [= <- <-]. do 3 (split; [done|]). constructor.
  - destruct (find_product ps (r_product it)) as [p|] eqn:Hp; [|by injection Hrun as <- <-].
    destruct (find_product_found s ps _ _ Hf Hp) as (Hpid & Hps & _).
    run Hrun; [run Hm|by run Hrun]. destruct a0 as [i t1]. apply create_item_spec in Hm as (Hfresh & Hi & Hp1 & Ho1 & Hi1).
    assert (Hoi : i_order i = oid) by by rewrite Hi.
    run Hrun; [|apply item_afterCreate_inv in Hrun; [by subst|done]]. apply item_afterCreate_inv in Hm as ->; [|done].
    run Hrun; [run Hm|by run Hrun]. apply increment_spec in Hm as (Hp2 & Ho2 & Hi2).
    destruct (IH _ _ _ _ _ Hf Hn Hrun) as [-> Hok]. split; [done|]. intros total' t' ->. destruct (Hok _ _ eq_refl) as (-> & -> & -> & Hrows).
    cbn [fold_left take_stock]. unfold add_line at 3. rewrite Hps, Hp2, Hp1, Ho2, Ho1, Hpid. do 3 (split; [done|]).
    apply (rows_cons _ _ _ _ p (i_id i)); [done|done|]. rewrite Hi2, Hi1 in Hrows. by rewrite <- Hi.
Qed.

(** A callback that does not touch the committed state: all or nothing. *)
Lemma transaction_inv {A} (f : db -> M (A * db)) w r w' :
  (forall r1 w1, f (w_db w) w = (r1, w1) -> w_db w1 = w_db w) -> transaction f w = (r, w') ->
  (exists a t w1, f (w_db w) w = (Ok (a, t), w1) /\ w_db w' = t /\ r = Ok a) \/ (w_db w' = w_db w /\ exists e, r = Throw e).
Proof.
  intros Hf Hrun. unfold transaction in Hrun. run Hrun; [|run Hrun; by eauto]. run Hm. apply begin_spec in Hm as ->.
  run Hrun; [|right; by eauto]. destruct a as [a t]. pose proof (Hf _ _ Hm) as Hw. run Hrun; [|run Hrun; by eauto].
  run Hm0. apply commit_spec in Hm0 as ->. injection Hrun as <- <-. left. by eexists _, _, _.
Qed.

Lemma order_afterCreate_inv o w r w' : order_afterCreate o w = (r, w') -> w_db w' = w_db w /\ r = Ok tt.
Proof.
  unfold order_afterCreate, background. intros Hrun. run Hrun; [|by apply hook_inv in Hrun as [_ ?]]. apply hook_inv in Hm as [<- _].
  run Hrun; [pose proof (frame_inv _ _ _ _ (frame_schedule _ _) Hrun); by destruct a0|].
  injection Hrun as <- <-. by split; [eapply frame_inv; [apply frame_schedule|]|].
Qed.

Lemma background_ok (m : M unit) w r w' : background m w = (r, w') -> r = Ok tt.
Proof. unfold background. intros Hrun. run Hrun; [by destruct a|by injection Hrun as <- _]. Qed.

Lemma frame_background id st : frame (background (scheduleStatusUpdateJob id st)).
Proof. apply frame_try; [apply frame_schedule|done]. Qed.

Lemma place_order_inv items customer_id w r w' :
  place_order items customer_id (w_db w) w = (r, w') ->
  w_db w' = w_db w /\ forall o t, r = Ok (o, t) -> exists its, items = Some its /\ placed its customer_id (o_id o) (w_db w) t.
Proof.
  unfold place_order. intros Hb. destruct items as [its|]; [|by injection Hb as <- <-]. run Hb. injection Hm as <- <-.
  run Hb; [run Hm|by run Hb]. rename a0 into ps. pose proof (findAll_spec _ _ _ Hm) as Hps.
  assert (Hf : found (w_db w) ps) by (intros p Hin; by apply Hps in Hin as (_ & Hp)).
  run Hb; [|by apply (check_items_inv _ _ _ _ _ _ Hf) in Hb as [-> _]].
  apply (check_items_inv _ _ _ _ _ _ Hf) in Hm0 as [-> Hav]. destruct a. specialize (Hav eq_refl).
  run Hb; [run Hm0|by run Hb]. destruct a0 as [o t]. apply create_spec in Hm0 as (Hfresh & Ho & Hp1 & Ho1 & Hi1).
  run Hb; [|by apply order_afterCreate_inv in Hb as [_ ?]]. apply order_afterCreate_inv in Hm0 as [Hw _].
  run Hb; [|apply (create_items_inv _ _ _ _ _ _ _ _ _ Hf) in Hb as [-> _]; [done|by rewrite Hw]].
  destruct a0 as [total t1]. apply (create_items_inv _ _ _ _ _ _ _ _ _ Hf) in Hm0 as [-> Hci]; [|by rewrite Hw].
  destruct (Hci _ _ eq_refl) as (Htot & Hp2 & Ho2 & Hrows).
  run Hb; [run Hm0|by run Hb]. apply update_total_spec in Hm0 as (Hp3 & Ho3 & Hi3).
  run Hb; [|by apply hook_inv in Hb as [_ ?]]. apply hook_inv in Hm0 as [Hw' _]. injection Hb as <- <-.
  split; [by rewrite Hw', Hw|]. intros o' t' [= <- <-]. exists its. split; [done|]. split; [done|by rewrite Hp3, Hp2, Hp1|].
  split; [done|]. split; [|by rewrite Hi3, <- Hi1].
  rewrite Ho3, Ho2, Ho1, alter_insert_again. f_equal. by rewrite Ho.
Qed.

(** A request for an order is answered by 201, and the order is placed, or by
    500, and the database is unchanged. *)
Lemma createOrder_inv items customer_id w r w' :
  createOrder (json := json) items customer_id w = (r, w') ->
  exists resp, r = Ok resp /\
    (code resp = 500 /\ w_db w' = w_db w \/
     code resp = 201 /\ exists its o, items = Some its /\ content resp = MessageOrder "Order placed successfully" o /\
       placed its customer_id (o_id o) (w_db w) (w_db w')).
Proof.
  intros Hrun. unfold createOrder in Hrun.
  assert (Hf : forall r1 w1, place_order items customer_id (w_db w) w = (r1, w1) -> w_db w1 = w_db w)
    by (intros r1 w1 Hb; by apply place_order_inv in Hb as [? _]).
  run Hrun; [|apply respond_inv in Hrun as [-> ->]]; eexists; (split; [done|]).
  - run Hrun. apply (transaction_inv _ _ _ _ Hf) in Hm as [(o & t & w1 & Hb & Hw & [= <-])|[_ [? ?]]]; [|done].
    run Hrun. apply respond_inv in Hrun as [-> [= ->]]. right. split; [done|].
    apply place_order_inv in Hb as [_ Hp]. rewrite (frame_inv _ _ _ _ (frame_background _ _) Hm).
    destruct (Hp _ _ eq_refl) as (its & Hits & Hpl). exists its. by eexists.
  - left. split; [done|]. run Hm.
    + run Hm. by apply background_ok in Hm.
    + by apply (transaction_inv _ _ _ _ Hf) in Hm as [(? & ? & ? & _ & _ & ?)|[? _]].
Qed.

(** The units of a product in a request. *)
Definition wanted (pid : Z) (it : item_request) : Z := if bool_decide (r_product it = pid) then r_quantity it else 0.

Lemma take_stock_lookup its pid : forall m, take_stock its m !! pid = add_stock (- lsum (wanted pid) its) <$> m !! pid.
Proof.
  unfold take_stock. induction its as [|it its IH]; intros m; cbn [fold_left].
  - destruct (m !! pid); cbn; [by rewrite add_stock_0|done].
  - rewrite IH, lsum_cons. unfold wanted at 2. case_bool_decide as Heq.
    + rewrite Heq, lookup_alter_eq. destruct (m !! pid) as [p|]; [|done]. cbn. rewrite add_stock_add. do 2 f_equal. lia.
    + by rewrite lookup_alter_ne.
Qed.

Lemma item_rows_sum s oid pid lv its m m' :
  item_rows s oid its m m' -> lv oid = true ->
  zsum (units pid lv) m' = zsum (units pid lv) m + lsum (wanted pid) its.
Proof.
  induction 1 as [m|it its p id m m' Hp Hid Hrows IH]; intros Hlv; [cbn; lia|]. rewrite IH, zsum_insert, lsum_cons by done.
  unfold units at 1, wanted at 2. cbn. rewrite Hlv, andb_true_r. lia.
Qed.

Lemma item_rows_lookup s oid its m m' k i :
  item_rows s oid its m m' -> m' !! k = Some i ->
  m !! k = Some i \/ i_id i = k /\ i_order i = oid /\ i_deleted i = false /\ is_Some (products s !! i_product i).
Proof.
  induction 1 as [m|it its p id m m' Hp Hid Hrows IH]; intros Hk; [by left|]. destruct (IH Hk) as [Hm|Hnew]; [|by right].
  apply lookup_insert_Some in Hm as [[<- <-]|[_ Hm]]; [right|by left]. cbn. by rewrite Hp.
Qed.

Lemma placed_keeps its customer_id oid s s' : wf s -> placed its customer_id oid s s' -> keeps s s'.
Proof.
  intros Hwf [Hav Hp (Hn & Ho & Hrows)]. set (o := {| o_id := oid |}) in Ho.
  assert (Hlk : forall k o', orders s !! k = Some o' -> orders s' !! k = Some o').
  { intros k o' Hk. rewrite Ho, lookup_insert_ne; [done|]. intros ->. by rewrite Hn in Hk. }
  assert (Hprod : forall pid, is_Some (products s !! pid) -> is_Some (products s' !! pid)).
  { intros pid. by rewrite Hp, take_stock_lookup, fmap_is_Some. }
  split; [split|split].
  - intros k p Hk. rewrite Hp, take_stock_lookup in Hk. destruct (products s !! k) as [p0|] eqn:Hk0; [|done]. cbn in Hk. injection Hk as <-.
    cbn. by apply (wf_products s Hwf).
  - intros k o' Hk. rewrite Ho in Hk. apply lookup_insert_Some in Hk as [[<- <-]|[_ Hk]]; [done|by apply Hwf].
  - intros k i Hk. destruct (item_rows_lookup _ _ _ _ _ _ _ Hrows Hk) as [Hm|(H1' & H2' & H3' & H4')].
    + destruct (wf_items s Hwf k i Hm) as (? & ? & Hpr & [o' Ho']). do 2 (split; [done|]). split; [by apply Hprod|].
      rewrite (Hlk _ _ Ho'). by eexists.
    + do 2 (split; [done|]). split; [by apply Hprod|]. rewrite H2', Ho, lookup_insert_eq. by eexists.
  - intros pid. unfold ledger. rewrite (item_rows_sum s oid pid (live s') its _ _ Hrows) by (unfold live; by rewrite Ho, lookup_insert_eq).
    rewrite (zsum_ext (units pid (live s')) (units pid (live s))).
    2:{ intros k i Hk. destruct (wf_items s Hwf k i Hk) as (_ & _ & _ & [o' Ho']). unfold units, live. by rewrite Ho', (Hlk _ _ Ho'). }
    unfold stock. rewrite Hp, take_stock_lookup. destruct (products s !! pid) as [p|] eqn:Hpid; [cbn; lia|]. cbn [fmap option_fmap option_map].
    enough (lsum (wanted pid) its = 0) by lia. clear -Hav Hpid. induction Hav as [|it its (p & Hps & _) Hav IH]; [done|].
    rewrite lsum_cons, IH. unfold wanted. rewrite bool_decide_false; [done|]. congruence.
  - intros k o' Hk _. by apply Hlk.
Qed.

Lemma createOrder_safe items customer_id : safe (createOrder (json := json) items customer_id).
Proof.
  intros w r w' Hwf Hrun. destruct (createOrder_inv _ _ _ _ _ Hrun) as (resp & _ & [[_ ->]|(_ & its & o & _ & _ & Hpl)]);
    [by apply keeps_refl|by eapply placed_keeps].
Qed.

End Spec.

End ShopSpec.
