(* ===== verification/ShopDb.v ===== *)
(** * Tables, a cache and a queue that satisfy the laws

    Instances of the classes of Shop.v, in which no call is rejected: tables
    are finite maps, the cache and the queue too.  They show that the laws
    can hold, and run the handlers on examples. *)

From stdpp Require Import gmap strings pretty relations.
From S2P Require Import Prelude.
From S2P Require Import Shop.
Import Shop.

Module ShopDb.

Record tables := { t_products : gmap Z product; t_orders : gmap Z order; t_items : gmap Z order_item }.

(** A serial column. *)
Definition next_id {A} (m : gmap Z A) : Z := map_fold (fun k _ n => Z.max (k + 1) n) 1 m.

Lemma next_id_above {A} (m : gmap Z A) k : is_Some (m !! k) -> k < next_id m.
Proof.
  unfold next_id. apply (map_fold_weak_ind (fun n m => is_Some (m !! k) -> k < n)).
  - rewrite lookup_empty. by intros [? ?].
  - intros j x m' n _ IH. destruct (decide (k = j)) as [->|Hne]; [lia|]. rewrite lookup_insert_ne by done. intros Hk%IH. lia.
Qed.

Lemma next_id_fresh {A} (m : gmap Z A) : m !! next_id m = None.
Proof. destruct (m !! next_id m) eqn:He; [|done]. assert (next_id m < next_id m) by (apply next_id_above; by eexists). lia. Qed.

Definition with_products (t : tables) (m : gmap Z product) : tables := {| t_products := m; t_orders := t_orders t; t_items := t_items t |}.
Definition with_orders (t : tables) (m : gmap Z order) : tables := {| t_products := t_products t; t_orders := m; t_items := t_items t |}.
Definition with_items (t : tables) (m : gmap Z order_item) : tables := {| t_products := t_products t; t_orders := t_orders t; t_items := m |}.

Definition find_order (t : tables) (paranoid : bool) (id : Z) : option order :=
  o ← t_orders t !! id; if paranoid && o_deleted o then None else Some o.

(** Rows of a table by a condition on key and row. *)
Definition select {A} (f : Z -> A -> bool) (m : gmap Z A) : list A :=
  (map_to_list (base.filter (fun kx => f kx.1 kx.2 = true) m)).*2.

Lemma elem_of_select {A} (f : Z -> A -> bool) m x : x ∈ select f m <-> exists k, m !! k = Some x /\ f k x = true.
Proof.
  unfold select. rewrite list_elem_of_fmap. split.
  - intros ([k y] & -> & [Hk Hf]%elem_of_map_to_list%map_lookup_filter_Some). by exists k.
  - intros (k & Hk & Hf). exists (k, x). split; [done|]. by apply elem_of_map_to_list, map_lookup_filter_Some.
Qed.

Lemma select_nodup {A} (f : Z -> A -> bool) (key : A -> Z) m :
  (forall k x, f k x = true -> key x = k) -> NoDup (key <$> select f m).
Proof.
  intros Hkey. unfold select. rewrite <- list_fmap_compose. rewrite (list_fmap_ext _ fst); [apply NoDup_fst_map_to_list|].
  intros i [k x] [_ Hf]%list_elem_of_lookup_2%elem_of_map_to_list%map_lookup_filter_Some. cbn. by apply Hkey.
Qed.

(** The integers that the examples use. *)
Definition small_int (s : string) : option Z := find (fun n => String.eqb (pretty n) s) (seqZ (-99) 199).

Definition product_row (ids : list Z) (k : Z) (p : product) : bool :=
  (p_id p =? k) && bool_decide (k ∈ ids) && negb (p_deleted p).
Definition item_row (paranoid : bool) (oid : Z) (k : Z) (i : order_item) : bool :=
  (i_id i =? k) && (i_order i =? oid) && negb (paranoid && i_deleted i).

#[export] Instance tables_database : Database tables := {|
  products := t_products;
  orders := t_orders;
  order_items := t_items;
  to_decimal := fun x => x;
  pg_int := small_int;
  Transaction_begin := Some;
  Transaction_commit := Some;
  Transaction_rollback := fun _ => Some tt;
  Product_findAll := fun t ids => Some (select (product_row ids) (t_products t));
  Product_increment := fun t id n => Some (with_products t (alter (add_stock n) id (t_products t)));
  Order_create := fun t c total st =>
    let o := {| o_id := next_id (t_orders t); o_customer := c; o_total := total; o_status := st; o_deleted := false |} in
    Some (o, with_orders t (<[o_id o := o]> (t_orders t)));
  Order_findByPk := fun t paranoid id => Some (find_order t paranoid id);
  Order_findByPk_items := fun t paranoid items_paranoid id =>
    Some (o ← find_order t paranoid id; Some (o, select (item_row items_paranoid id) (t_items t)));
  Order_update_status := fun t id st => Some (with_orders t (alter (with_status st) id (t_orders t)));
  Order_update_total := fun t id total => Some (with_orders t (alter (with_total total) id (t_orders t)));
  Order_destroy := fun t id => Some (with_orders t (alter (with_deleted true) id (t_orders t)));
  Order_restore := fun t id => Some (with_orders t (alter (with_deleted false) id (t_orders t)));
  OrderItem_create := fun t oid pid n price =>
    let i := {| i_id := next_id (t_items t); i_order := oid; i_product := pid; i_quantity := n; i_price := price; i_deleted := false |} in
    Some (i, with_items t (<[i_id i := i]> (t_items t)));
  OrderItem_restore := fun t id => Some (with_items t (alter undelete_item id (t_items t)));
|}.

#[export] Instance tables_laws : DatabaseLaws tables.
Proof.
  split; cbn.
  - intros n m Hm. apply find_some in Hm as [_ Heq%String.eqb_eq]. by apply (inj pretty) in Heq.
  - congruence.
  - congruence.
  - intros t ids ps [= <-] p. rewrite elem_of_select. unfold product_row. split.
    + intros (k & Hk & Hf). rewrite !andb_true_iff, Z.eqb_eq, bool_decide_eq_true, negb_true_iff in Hf. destruct Hf as [[-> Hin] Hd]. done.
    + intros (Hin & Hk & Hd). exists (p_id p). split; [done|]. by rewrite Z.eqb_refl, bool_decide_true, Hd.
  - by intros t id n t' [= <-].
  - intros t c total st o t' [= <- <-]. cbn. split; [apply next_id_fresh|done].
  - by intros t paranoid id r [= <-].
  - intros t paranoid ip id r [= <-]. unfold find_order. destruct (t_orders t !! id) as [o|]; cbn; [|done].
    destruct (paranoid && o_deleted o) eqn:Hp; cbn; [done|]. do 2 (split; [done|]). split.
    + apply select_nodup. intros k i Hf. unfold item_row in Hf. rewrite !andb_true_iff, Z.eqb_eq in Hf. by destruct Hf as [[? _] _].
    + intros i. rewrite elem_of_select. unfold item_row. split.
      * intros (k & Hk & Hf). rewrite !andb_true_iff, !Z.eqb_eq, negb_true_iff in Hf. destruct Hf as [[-> Ho] Hd]. done.
      * intros (Hk & Ho & Hd). exists (i_id i). split; [done|]. by rewrite Ho, !Z.eqb_refl, Hd.
  - by intros t id st t' [= <-].
  - by intros t id st t' [= <-].
  - by intros t id t' [= <-].
  - by intros t id t' [= <-].
  - intros t oid pid n price i t' [= <- <-]. cbn. split; [apply next_id_fresh|done].
  - by intros t id t' [= <-].
Qed.

#[export] Instance map_cache {json} : RedisClient (gmap string (order * json)) json := {|
  entries := fun c => c;
  redis_get := fun c k => Some (c !! k);
  redis_set := fun c k v => Some (<[k := v]> c);
  redis_del := fun c k => Some (delete k c);
|}.

#[export] Instance map_cache_laws {json} : RedisLaws (gmap string (order * json)) json.
Proof. split; cbn; naive_solver. Qed.

Record jobs := { j_waiting : gmap string (Z * status); j_known : gset string }.

#[export] Instance jobs_queue : BullQueue jobs := {|
  waiting := j_waiting;
  known := j_known;
  queue_add := fun q id j =>
    if decide (id ∈ j_known q) then Some q
    else Some {| j_waiting := <[id := j]> (j_waiting q); j_known := {[id]} ∪ j_known q |};
  queue_complete := fun q id => {| j_waiting := delete id (j_waiting q); j_known := j_known q |};
|}.

#[export] Instance jobs_laws : BullLaws jobs.
Proof. split; cbn; [|done]. intros q id j q'. case_decide; by intros [= <-]. Qed.

(** ** An example *)

Abbreviation shop := (world tables (gmap string (order * unit)) jobs).

Definition no_include : tables -> Z -> unit := fun _ _ => tt.

(** One product at the price 20 with three units in stock. *)
Definition shop0 : shop := {|
  w_db := {| t_products := {[ 1 := {| p_id := 1; p_name := "lamp"; p_price := js_int 20; p_stock := 3; p_deleted := false |} ]};
             t_orders := ∅; t_items := ∅ |};
  w_cache := ∅;
  w_queue := {| j_waiting := ∅; j_known := ∅ |};
|}.

Definition lamps (n : Z) : item_request := {| r_product := 1; r_quantity := n |}.

End ShopDb.
