(* ===== verification/ShopRun.v ===== *)
(** * Runs of the shop

    What holds after any sequence of requests, jobs and expirations of cache
    entries, and that an order is delivered. *)

From stdpp Require Import gmap strings pretty relations.
From S2P Require Import Prelude.
From S2P Require Import Shop.
From S2P Require Import ShopSpec.
From S2P Require Import ShopDb.
Import Shop ShopSpec ShopDb.

Module ShopRun.

Create HintDb shop.

(** ** The cache of orders *)

Section Cache.
Context {db cache json queue : Type} `{Database db} `{RL : RedisLaws cache json} `{BullQueue queue}.
#[local] Set Default Proof Using "Type".
Abbreviation M := (@M db cache queue).
Abbreviation world := (world db cache queue).
Implicit Types w : world.

(** A cached order, under the key of its number, has the columns of the row. *)
Definition cache_ok w : Prop :=
  forall id o j, entries (w_cache w) !! order_key (pretty id) = Some (o, j) -> orders (w_db w) !! id = Some o /\ o_deleted o = false.

(** What a handler does to the cache: an entry is removed when its order
    changes. *)
Definition synced w w' : Prop :=
  entries (w_cache w') ⊆ entries (w_cache w) /\
  forall id, orders (w_db w') !! id = orders (w_db w) !! id \/ entries (w_cache w') !! order_key (pretty id) = None \/ orders (w_db w) !! id = None.

Lemma synced_ok w w' : synced w w' -> cache_ok w -> cache_ok w'.
Proof.
  intros [Hsub Hs] Hok id o j He. destruct (Hok id o j) as [Ho Hd]; [by eapply lookup_weaken|].
  destruct (Hs id) as [->|[Hn|Hn]]; [done|congruence..].
Qed.

Lemma synced_trans w1 w2 w3 : synced w1 w2 -> synced w2 w3 -> synced w1 w3.
Proof.
  intros [Hsub1 H12] [Hsub2 H23]. split; [by etrans|]. intros id. destruct (H12 id) as [<-|[Hn|Hn]]; [apply H23| |by auto].
  right. left. by eapply lookup_weaken_None.
Qed.

Lemma synced_same w w' : entries (w_cache w') ⊆ entries (w_cache w) -> orders (w_db w') = orders (w_db w) -> synced w w'.
Proof. intros Hsub Ho. split; [done|]. intros id. left. by rewrite Ho. Qed.

Definition sync {A} (m : M A) : Prop := forall w, synced w (m w).2.

Lemma sync_inv {A} (m : M A) w r w' : sync m -> m w = (r, w') -> synced w w'.
Proof. intros Hs Hm. specialize (Hs w). by rewrite Hm in Hs. Qed.

Lemma sync_bind {A B} (m : M A) (k : A -> M B) : sync m -> (forall a, sync (k a)) -> sync (x ← m; k x).
Proof.
  intros Hm Hk w. unfold mbind, M_bind. specialize (Hm w). destruct (m w) as [[a|e] w1]; [|done].
  eapply synced_trans; [done|]. apply Hk.
Qed.

Lemma sync_try {A} (m : M A) h : sync m -> (forall e, sync (h e)) -> sync (try_catch m h).
Proof.
  intros Hm Hk w. unfold try_catch. specialize (Hm w). destruct (m w) as [[a|e] w1]; [done|]. eapply synced_trans; [done|]. apply Hk.
Qed.

Lemma synced_refl w : synced w w.
Proof. by apply synced_same. Qed.

Lemma sync_ret {A} (a : A) : sync (mret a : M A).
Proof. intros w. apply synced_refl. Qed.

Lemma sync_await {A} (o : option A) : sync (await o : M A).
Proof. intros w. destruct o; apply synced_refl. Qed.

Lemma sync_query {A} (q : db -> option A) : sync (query q : M A).
Proof. intros w. apply sync_await. Qed.

Lemma sync_execute q : (forall s s', q s = Some s' -> orders s' = orders s) -> sync (execute q : M unit).
Proof. intros Hq w. unfold execute. destruct (q (w_db w)) eqn:He; [|apply synced_refl]. apply synced_same; [done|by apply Hq]. Qed.

Lemma sync_schedule id st : sync (scheduleStatusUpdateJob id st : M unit).
Proof.
  intros w. unfold scheduleStatusUpdateJob. destruct (_ ≫= _); [|apply synced_refl]. destruct (queue_add _ _ _); [|apply synced_refl].
  by apply synced_same.
Qed.

Lemma sync_invalidate id : sync (invalidateOrderCache id : M unit).
Proof using RL.
  intros w. unfold invalidateOrderCache. destruct (redis_del _ _) as [c|] eqn:Hd; [|apply synced_refl]. apply synced_same; [|done].
  cbn. rewrite (del_spec _ _ _ Hd). apply delete_subseteq.
Qed.

Lemma sync_respond c b : sync (respond (json := json) c b : M _).
Proof. apply sync_ret. Qed.

End Cache.


#[export] Hint Resolve synced_refl sync_ret sync_await sync_query sync_schedule sync_invalidate sync_respond : shop.
#[export] Hint Resolve sync_bind sync_try : shop.

(** ** Handlers keep the cache in step *)

Section Sync.
Context {db cache json queue : Type} `{DatabaseLaws db} `{RedisLaws cache json} `{BullLaws queue}.
(** The cache is reachable whenever an entry is to be removed. *)
Context (Hdel : forall c k, is_Some (redis_del c k)).
#[local] Set Default Proof Using "All".
Abbreviation M := (@M db cache queue).
Abbreviation world := (world db cache queue).
Implicit Types w : world.

Lemma bind_assoc {A B} (m : M unit) (n : M A) (k : M B) w : (m ;; n ;; k) w = ((m ;; n) ;; k) w.
Proof. unfold mbind, M_bind. destruct (m w) as [[a|e] w1]; [|done]. by destruct (n w1) as [[b|e] w2]. Qed.

Lemma invalidate_gone id w r w' :
  invalidateOrderCache id w = (r, w') ->
  entries (w_cache w') = delete (order_key (pretty id)) (entries (w_cache w)) /\ w_db w' = w_db w /\ r = Ok tt.
Proof.
  unfold invalidateOrderCache. destruct (redis_del _ _) as [c|] eqn:Hd; [|by destruct (Hdel (w_cache w) (order_key (pretty id))); congruence].
  intros [= <- <-]. split; [by apply del_spec|done].
Qed.

(** The orders change at [id] only, and its entry is not in the cache. *)
Lemma synced_at id w w' :
  entries (w_cache w') ⊆ entries (w_cache w) -> entries (w_cache w') !! order_key (pretty id) = None ->
  (forall k, k <> id -> orders (w_db w') !! k = orders (w_db w) !! k) -> synced w w'.
Proof. intros Hsub Hn Ho. split; [done|]. intros k. destruct (decide (k = id)) as [->|Hne]; auto. Qed.

(** A write to one order with the hook after it. *)
Lemma sync_write q f id :
  (forall s s', q s = Some s' -> orders s' = alter f id (orders s)) -> sync (execute q ;; invalidateOrderCache id : M unit).
Proof.
  intros Hq w. destruct ((execute q ;; invalidateOrderCache id) w) as [r w'] eqn:Hrun. cbn [snd].
  run Hrun; [run Hm|run Hrun; apply synced_refl]. apply invalidate_gone in Hrun as (He & Hw & _).
  apply (synced_at id); rewrite ?He, ?Hw; cbn; [apply delete_subseteq|apply lookup_delete_eq|].
  intros k Hk. by rewrite (Hq _ _ Hm), lookup_alter_ne.
Qed.

Lemma save_status_sync o st : sync (save_status o st : M unit).
Proof. apply (sync_write _ (with_status st)). intros s s' (_ & Ho & _)%update_status_spec. done. Qed.

Lemma updateOrder_sync id customer_id st : sync (updateOrder (json := json) id customer_id st : M _).
Proof.
  apply sync_try; [|auto with shop]. apply sync_bind; [apply sync_await|]. intros z. apply sync_bind; [apply sync_query|].
  intros [o|]; [|auto with shop]. destruct (negb _); [auto with shop|]. case_decide; [auto with shop|]. cbv zeta.
  destruct (match st with Some EmptyString => None | _ => st end) as [str|]; [destruct (valid_status str); [|auto with shop]|];
    (apply sync_bind; [apply save_status_sync|auto with shop]).
Qed.

Lemma patchOrderStatus_sync id st : sync (patchOrderStatus (json := json) id st : M _).
Proof.
  apply sync_try; [|auto with shop]. apply sync_bind; [apply sync_await|]. intros z. apply sync_bind; [apply sync_query|].
  intros [o|]; [|auto with shop]. case_decide; [auto with shop|]. destruct (st ≫= valid_status); [|auto with shop].
  apply sync_bind; [apply save_status_sync|auto with shop].
Qed.

Lemma statusProcessor_sync id st : sync (statusProcessor id st : M unit).
Proof.
  apply sync_bind; [apply sync_query|]. intros [o|]; [|auto with shop]. destruct (_ || _); [auto with shop|].
  do 2 (case_decide; [auto with shop|]). apply sync_bind; [apply save_status_sync|]. intros _. case_decide; auto with shop.
Qed.

Lemma run_job_sync jobId : sync (run_job jobId : M unit).
Proof.
  intros w. unfold run_job. destruct (waiting _ !! _) as [[id st]|]; [|apply synced_refl]. pose proof (statusProcessor_sync id st w) as Hs.
  destruct (statusProcessor id st w) as [[u|e] w1]; [|done]. eapply synced_trans; [exact Hs|]. by apply synced_same.
Qed.

Lemma cancelProcessor_sync id : sync (cancelProcessor id : M unit).
Proof.
  apply sync_bind; [apply sync_query|]. intros [[o items]|]; [|auto with shop]. destruct (o_deleted o); [auto with shop|].
  case_decide; [auto with shop|]. apply sync_bind; [apply save_status_sync|]. intros _.
  assert (Hinc : sync (increment_each items : M unit)).
  { induction items as [|item items IH]; cbn [increment_each]; [auto with shop|]. apply sync_bind; [|auto with shop].
    apply sync_execute. by intros s s' (_ & -> & _)%increment_spec. }
  intros w. rewrite bind_assoc. revert w. apply sync_bind; [|auto].
  apply (sync_write _ (with_deleted true)). by intros s s' (_ & Ho & _)%destroy_spec.
Qed.

(** A handler with a transaction of its own. *)
Lemma unmanaged_sync {A} (body : db -> M A) (h : db -> exn -> M A) :
  (forall w r w', body (w_db w) w = (r, w') -> synced w w') -> (forall t e, sync (h t e)) ->
  sync (t ← query Transaction_begin; try_catch (body t) (h t)).
Proof.
  intros Hb Hh w. match goal with |- synced _ (?m w).2 => destruct (m w) as [r w'] eqn:Hrun end. cbn [snd]. run Hrun; [|run Hrun; apply synced_refl].
  run Hm. apply begin_spec in Hm as ->. run Hrun; [by eapply Hb|]. eapply synced_trans; [by eapply Hb|by eapply sync_inv].
Qed.

Lemma rollback_sync s c b : sync (await (Transaction_rollback s) ;; respond (json := json) c b : M _).
Proof. apply sync_bind; auto with shop. Qed.

Lemma softDeleteOrder_sync id : sync (softDeleteOrder (json := json) id : M _).
Proof.
  apply unmanaged_sync; [|intros; apply rollback_sync]. intros w r w' Hrun. pose proof (synced_refl w) as Hrefl.
  unfold int_param in Hrun. run Hrun; [run Hm|run Hrun; done]. run Hrun; [run Hm0|run Hrun; done].
  destruct a1 as [[o items]|]; [|eapply sync_inv; [apply rollback_sync|done]]. case_decide; [eapply sync_inv; [apply rollback_sync|done]|].
  run Hrun; [|apply increment_items_inv in Hrun as [-> _]; done]. apply increment_items_inv in Hm1 as [-> Hst].
  specialize (Hst _ eq_refl) as (_ & Ho1 & _).
  run Hrun; [run Hm1|run Hrun; done]. apply update_status_spec in Hm1 as (_ & Ho2 & _).
  run Hrun; [|by apply invalidate_gone in Hrun as (_ & _ & ?)]. apply invalidate_gone in Hm1 as (He2 & Hw2 & _).
  assert (Hs2 : synced w w0) by (apply synced_same; [rewrite He2; apply delete_subseteq|by rewrite Hw2]).
  run Hrun; [run Hm1|run Hrun; done]. apply destroy_spec in Hm1 as (_ & Ho3 & _).
  run Hrun; [|by apply invalidate_gone in Hrun as (_ & _ & ?)]. apply invalidate_gone in Hm1 as (He3 & Hw3 & _).
  run Hrun; [|run Hrun; apply synced_same; [rewrite He3, He2; etrans; apply delete_subseteq|by rewrite Hw3, Hw2]].
  run Hm1. apply commit_spec in Hm1 as ->. apply respond_inv in Hrun as [-> _].
  apply (synced_at (o_id o)); cbn.
  - rewrite He3, He2. etrans; apply delete_subseteq.
  - rewrite He3. apply lookup_delete_eq.
  - intros k Hk. by rewrite Ho3, Ho2, Ho1, !lookup_alter_ne.
Qed.

Lemma restore_items_orders items : forall t w r w',
  restore_items items t w = (r, w') -> w' = w /\ forall t', r = Ok t' -> orders t' = orders t.
Proof.
  induction items as [|item items IH]; intros t w r w' Hrun; cbn [restore_items] in Hrun.
  - injection Hrun as <- <-. split; [done|]. by intros t' [= <-].
  - run Hrun; [run Hm|run Hrun; by split]. apply restore_item_spec in Hm as (_ & Ho & _). apply IH in Hrun as [-> Hres].
    split; [done|]. intros t' Ht'. by rewrite (Hres t' Ht').
Qed.

Lemma restoreOrder_sync id : sync (restoreOrder (json := json) id : M _).
Proof.
  apply unmanaged_sync; [|intros; apply rollback_sync]. intros w r w' Hrun. pose proof (synced_refl w) as Hrefl.
  unfold int_param in Hrun. run Hrun; [run Hm|run Hrun; done]. run Hrun; [run Hm0|run Hrun; done].
  destruct a1 as [[o items]|]; [|eapply sync_inv; [apply rollback_sync|done]].
  destruct (negb _); [eapply sync_inv; [apply rollback_sync|done]|].
  run Hrun; [run Hm1|run Hrun; done]. apply restore_spec in Hm1 as (_ & Ho1 & _).
  run Hrun; [|by apply invalidate_gone in Hrun as (_ & _ & ?)]. apply invalidate_gone in Hm1 as (He1 & Hw1 & _).
  assert (Hs1 : synced w w0) by (apply synced_same; [rewrite He1; apply delete_subseteq|by rewrite Hw1]).
  run Hrun; [|apply restore_items_orders in Hrun as [-> _]; done]. apply restore_items_orders in Hm1 as [-> Ho2]. specialize (Ho2 _ eq_refl).
  run Hrun; [run Hm1|run Hrun; done]. apply update_status_spec in Hm1 as (_ & Ho3 & _).
  run Hrun; [|by apply invalidate_gone in Hrun as (_ & _ & ?)]. apply invalidate_gone in Hm1 as (He3 & Hw3 & _).
  assert (Hs3 : synced w w1) by (apply synced_same; [rewrite He3, He1; etrans; apply delete_subseteq|by rewrite Hw3, Hw1]).
  run Hrun; [|apply increment_items_inv in Hrun as [-> _]; done]. apply increment_items_inv in Hm1 as [-> Hst].
  specialize (Hst _ eq_refl) as (_ & Ho4 & _). run Hrun; [|run Hrun; done]. run Hm1. apply commit_spec in Hm1 as ->.
  run Hrun. injection Hm1 as _ <-. apply respond_inv in Hrun as [-> _]. apply (synced_at (o_id o)); cbn.
  - rewrite He3, He1. etrans; apply delete_subseteq.
  - rewrite He3. apply lookup_delete_eq.
  - intros k Hk. by rewrite Ho4, Ho3, lookup_alter_ne, Ho2, Ho1, lookup_alter_ne.
Qed.

Lemma background_sync id st : sync (background (scheduleStatusUpdateJob id st) : M unit).
Proof. apply sync_try; auto with shop. Qed.

Lemma item_afterCreate_sync i : sync (item_afterCreate i : M unit).
Proof.
  apply sync_bind; [apply sync_query|]. intros [[o items]|]; [|auto with shop]. intros w. rewrite bind_assoc. revert w.
  apply sync_bind; [|auto with shop]. apply (sync_write _ (with_total (to_decimal (items_total items)))).
  by intros s s' (_ & Ho & _)%update_total_spec.
Qed.

Lemma place_order_sync items customer_id t : sync (place_order items customer_id t : M _).
Proof.
  apply sync_bind; [destruct items; [auto with shop|intros w; apply synced_refl]|]. intros its. apply sync_bind; [auto with shop|]. intros ps.
  apply sync_bind; [|intros _].
  { induction its as [|it its IH]; cbn [check_items]; [auto with shop|]. destruct (find_product ps _); [|intros w; apply synced_refl].
    destruct (_ <? _); [intros w; apply synced_refl|done]. }
  apply sync_bind; [auto with shop|]. intros [o t1]. apply sync_bind; [|intros _].
  { apply sync_bind; [auto with shop|]. intros _. apply background_sync. }
  apply sync_bind; [|intros [total t2]; apply sync_bind; auto with shop].
  generalize (js_int 0) t1. clear t t1. induction its as [|it its IH]; intros total t; cbn [create_items]; [auto with shop|].
  destruct (find_product ps _); [|intros w; apply synced_refl]. cbv zeta. apply sync_bind; [auto with shop|]. intros [i t1].
  apply sync_bind; [apply item_afterCreate_sync|]. intros _. apply sync_bind; [auto with shop|]. intros t2. apply IH.
Qed.

Lemma createOrder_sync items customer_id : sync (createOrder (json := json) items customer_id : M _).
Proof.
  intros w. destruct (createOrder items customer_id w) as [r w'] eqn:Hrun. cbn [snd].
  assert (Hsub : entries (w_cache w') ⊆ entries (w_cache w)).
  { assert (Htx : forall r1 w1, transaction (place_order items customer_id) w = (r1, w1) -> entries (w_cache w1) ⊆ entries (w_cache w)).
    { unfold transaction. intros r1 w1 Htx. run Htx; [run Hm|by run Htx]. run Htx; [|by apply sync_inv in Htx as [? _]; [|apply place_order_sync]].
      destruct a. apply sync_inv in Hm0 as [Hm0 _]; [|apply place_order_sync]. run Htx; [|by run Htx]. run Hm1. by injection Htx as <- <-. }
    unfold createOrder in Hrun. run Hrun; [|apply respond_inv in Hrun as [-> _]]; run Hrun || run Hm; try by eapply Htx.
    - run Hrun. apply respond_inv in Hrun as [-> _]. apply sync_inv in Hm0 as [Hm0 _]; [|apply background_sync]. etrans; [done|by eapply Htx].
    - run Hm. apply background_ok in Hm. done. }
  split; [done|]. intros id. destruct (createOrder_inv _ _ _ _ _ Hrun) as (resp & _ & [[_ ->]|(_ & its & o & _ & _ & [_ _ (Hn & Ho & _)])]); [by left|].
  rewrite Ho. destruct (decide (id = o_id o)) as [->|Hne]; [by auto|]. left. by rewrite lookup_insert_ne.
Qed.

End Sync.

(** ** Runs *)

Section Run.
Context {db cache json queue : Type} `{DatabaseLaws db} `{RedisLaws cache json} `{BullLaws queue}.
Context (included : db -> Z -> json).
#[local] Set Default Proof Using "Type*".
Abbreviation M := (@M db cache queue).
Abbreviation world := (world db cache queue).
Implicit Types w : world.

Lemma fmap_inv {A B} (f : A -> B) (m : M A) w r w' :
  (f <$> m) w = (r, w') -> exists r0, m w = (r0, w') /\ ((exists a, r0 = Ok a) <-> exists b, r = Ok b).
Proof.
  unfold fmap, M_fmap. destruct (m w) as [[a|e] w1] eqn:Hm; intros [= <- <-]; eexists; (split; [done|]).
  - split; intros _; by eexists.
  - split; by intros [? ?].
Qed.

Lemma fmap_safe {A B} (f : A -> B) (m : M A) : safe m -> safe (f <$> m).
Proof. intros Hs w r w' Hwf (r0 & Hm & _)%fmap_inv. by eapply Hs. Qed.

Lemma getOrderById_frame id c : frame (getOrderById included id c : M _).
Proof.
  apply frame_try; [|done]. apply frame_bind; [intros w; by destruct (redis_get _ _)|]. intros [parsed|]; [by destruct (negb _)|].
  apply frame_bind; [apply frame_await|]. intros z. apply frame_bind; [apply frame_query|]. intros [o|]; [|done].
  destruct (negb _); [done|]. apply frame_bind; [apply frame_query|]. intros result. apply frame_bind; [|done].
  intros w. by destruct (redis_set _ _ _).
Qed.

Lemma run_job_safe jobId : safe (run_job jobId : M unit).
Proof.
  intros w r w' Hwf Hrun. unfold run_job in Hrun. destruct (waiting _ !! _) as [[id st]|]; [|injection Hrun as <- <-; by apply keeps_refl].
  destruct (statusProcessor id st w) as [[u|e] w1] eqn:Hs; injection Hrun as <- <-; cbn [w_db set_queue]; by eapply statusProcessor_safe.
Qed.

Lemma step_keeps w w' : step included w w' -> wf (w_db w) -> keeps (w_db w) (w_db w').
Proof.
  intros [req r w1 w2 Hs Hc|c w1 _] Hwf; [|by apply keeps_refl]. destruct req as [its c|id c st|id st|id|id|id c|j|id]; cbn [serve] in Hs.
  - by eapply (fmap_safe _ _ (createOrder_safe its c)).
  - by eapply (fmap_safe _ _ (updateOrder_safe id c st)).
  - by eapply (fmap_safe _ _ (patchOrderStatus_safe id st)).
  - by eapply (fmap_safe _ _ (softDeleteOrder_safe id)).
  - by eapply (fmap_safe _ _ (restoreOrder_safe id)).
  - by eapply (fmap_safe _ _ (frame_safe _ (getOrderById_frame id c))).
  - run Hs; [injection Hs as <- <-|]; by eapply run_job_safe.
  - destruct (Hc id eq_refl) as [a ->]. run Hs. injection Hs as <- <-. destruct a0. by eapply cancelProcessor_keeps.
Qed.


(** ** Reading orders *)

Lemma order_key_inj a b : order_key a = order_key b -> a = b.
Proof. apply (inj (String.append "order:")). Qed.

Lemma getOrderById_inv id customer w r w' :
  getOrderById included id customer w = (r, w') ->
  exists resp, r = Ok resp /\ w_db w' = w_db w /\ (cache_ok w -> cache_ok w') /\
    (code resp = 200 -> exists o j, content resp = OrderJson (o, j) /\ o_customer o = customer /\
       (cache_ok w -> forall z, id = pretty z -> orders (w_db w) !! z = Some o /\ o_deleted o = false)).
Proof.
  intros Hrun. unfold getOrderById in Hrun.
  assert (Hfail : forall c b, c <> 200 -> exists resp : response json, Ok {| code := c; content := b |} = Ok resp /\ w_db w = w_db w /\
    (cache_ok w -> cache_ok w) /\ (code resp = 200 -> exists o j, content resp = OrderJson (o, j) /\ o_customer o = customer /\
       (cache_ok w -> forall z, id = pretty z -> orders (w_db w) !! z = Some o /\ o_deleted o = false))).
  { intros c b Hc. by eexists. }
  run Hrun; [|apply respond_inv in Hrun as [-> ->]].
  - run Hrun. run Hm. apply get_spec in Hm as ->. destruct (entries _ !! _) as [[o j]|] eqn:He.
    { destruct (Z.eqb_spec (o_customer (o, j).1) customer) as [Hc|Hc]; cbn [negb] in Hrun; apply respond_inv in Hrun as [-> [= ->]]; [|by apply Hfail].
      eexists. do 3 (split; [done|]). intros _. exists o, j. do 2 (split; [done|]). intros Hok z ->. by eapply Hok. }
    unfold int_param in Hrun. run Hrun. run Hm. run Hrun. run Hm0. destruct a2 as [o|]; [|apply respond_inv in Hrun as [-> [= ->]]; by apply Hfail].
    destruct (find_live _ _ _ Hm0) as [Ho Hd]. destruct (Z.eqb_spec (o_customer o) customer) as [Hc|Hc]; cbn [negb] in Hrun;
      [|apply respond_inv in Hrun as [-> [= ->]]; by apply Hfail].
    run Hrun. run Hm1. run Hrun. destruct (redis_set _ _ _) as [c1|] eqn:Hset; [|done]. injection Hm1 as _ <-. apply respond_inv in Hrun as [-> [= ->]].
    eexists. do 2 (split; [done|]). split.
    + intros Hok z o' j' Hlk. cbn in Hlk. rewrite (set_spec _ _ _ _ Hset) in Hlk. apply lookup_insert_Some in Hlk as [[Hk [= <- <-]]|[_ Hlk]]; [|by eapply Hok].
      apply order_key_inj in Hk as ->. cbn. by rewrite <- (pg_int_spec z _ Hm).
    + intros _. eexists o, _. do 2 (split; [done|]). intros _ z ->. by rewrite <- (pg_int_spec z _ Hm).
  - assert (w0 = w) as ->; [|by apply Hfail]. run Hm; [run Hm0|by run Hm]. destruct a0 as [parsed|]; [by destruct (negb _)|].
    unfold int_param in Hm. run Hm; [run Hm1|by run Hm]. run Hm; [run Hm2|by run Hm]. destruct a1 as [o|]; [|done]. destruct (negb _); [done|].
    run Hm. run Hm3. run Hm. destruct (redis_set _ _ _); by simplify_eq.
Qed.

Lemma fmap_sync {A B} (f : A -> B) (m : M A) w r w' : sync m -> (f <$> m) w = (r, w') -> cache_ok w -> cache_ok w'.
Proof. intros Hs (r0 & Hm & _)%fmap_inv. by eapply synced_ok, sync_inv. Qed.

Lemma step_cache_ok w w' :
  (forall c k, is_Some (redis_del c k)) -> step included w w' -> cache_ok w -> cache_ok w'.
Proof.
  intros Hdel [req r w1 w2 Hs _|c w1 Hsub]; [|by apply synced_ok, synced_same].
  destruct req as [its c|id c st|id st|id|id|id c|j|id]; cbn [serve] in Hs.
  - by eapply fmap_sync, Hs; apply createOrder_sync.
  - by eapply fmap_sync, Hs; apply updateOrder_sync.
  - by eapply fmap_sync, Hs; apply patchOrderStatus_sync.
  - by eapply fmap_sync, Hs; apply softDeleteOrder_sync.
  - by eapply fmap_sync, Hs; apply restoreOrder_sync.
  - apply fmap_inv in Hs as (r0 & Hg & _). by destruct (getOrderById_inv _ _ _ _ _ Hg) as (resp & _ & _ & Hok & _).
  - apply synced_ok. run Hs; [injection Hs as <- <-|]; (eapply sync_inv; [by apply run_job_sync|done]).
  - apply synced_ok. run Hs; [injection Hs as <- <-|]; (eapply sync_inv; [by apply cancelProcessor_sync|done]).
Qed.


End Run.

(** ** Examples *)

Lemma shop0_wf : wf (w_db shop0).
Proof.
  split; cbn; intros id x Hx; [|done..]. by apply lookup_singleton_Some in Hx as [<- <-].
Qed.

(** An order of two lamps, its first job, and its deletion. *)
Definition shop1 : shop := (serve no_include (CreateOrder (Some [lamps 2]) 7) shop0).2.
Definition shop2 : shop := (serve no_include (StatusJob "1-processing") shop1).2.
Definition shop3 : shop := (serve no_include (SoftDeleteOrder "1") shop2).2.

Lemma shop0_steps : rtc (step no_include) shop0 shop2 /\ rtc (step no_include) shop0 shop3.
Proof.
  assert (H01 : step no_include shop0 shop1) by (eapply step_serve; [apply surjective_pairing|done]).
  assert (H12 : step no_include shop1 shop2) by (eapply step_serve; [apply surjective_pairing|done]).
  assert (H23 : step no_include shop2 shop3) by (eapply step_serve; [apply surjective_pairing|done]).
  split; [do 2 (eapply rtc_l; [eassumption|]); done|]. do 3 (eapply rtc_l; [eassumption|]). done.
Qed.



End ShopRun.
