(* ===== verification/ShopLife.v ===== *)
(** * The life of an order

    When the database and the queue accept the calls, the jobs that are
    scheduled for a new order take it to "delivered".  A customer can order
    what is in stock without making the stock negative, if no product occurs
    twice in the request; and what happens otherwise. *)

From stdpp Require Import gmap strings pretty relations.
From S2P Require Import Prelude.
From S2P Require Import Shop.
From S2P Require Import ShopSpec.
From S2P Require Import ShopDb.
From S2P Require Import ShopRun.
Import Shop ShopSpec ShopDb ShopRun.

Module ShopLife.

Lemma job_id_inj id a b : job_id id a = job_id id b -> a = b.
Proof.
  unfold job_id. intros Heq%(inj (String.append (pretty id)))%(inj (String.append "-")). by destruct a, b.
Qed.

(** The jobs that come after the next one. *)
Definition later (st : status) : list status :=
  match st with pending => [shipped; delivered] | processing => [delivered] | _ => [] end.

Lemma next_facts st nx :
  nextStatusMap st = Some nx -> st <> cancelled /\ st <> delivered /\ st <> nx /\
    (nx = delivered /\ later nx = [] \/ exists nx2, nextStatusMap nx = Some nx2 /\ nx <> delivered /\ nx2 <> nx /\ later st = nx2 :: later nx /\ (nx2 ∉ later nx)).
Proof.
  destruct st; intros [= <-]; repeat (split; [done|]); [right; exists shipped|right; exists delivered|by left];
    repeat (split; [done|]); [by intros ?%list_elem_of_singleton|apply not_elem_of_nil].
Qed.

Section Life.
Context {db cache json queue : Type} `{DatabaseLaws db} `{RedisLaws cache json} `{BullLaws queue}.
#[local] Set Default Proof Using "Type*".
Abbreviation M := (@M db cache queue).
Abbreviation world := (world db cache queue).
Implicit Types w : world.

(** Calls of the worker are not rejected. *)
Record reliable : Prop := {
  find_ok (s : db) paranoid id : is_Some (Order_findByPk s paranoid id);
  update_ok (s : db) id st : is_Some (Order_update_status s id st);
  add_ok (q : queue) id j : is_Some (queue_add q id j);
}.

(** The order has a status, its next job waits, and the queue does not know
    the later ones. *)
Record pipeline (id : Z) (st : status) w : Prop := {
  pl_order : exists o, orders (w_db w) !! id = Some o /\ o_id o = id /\ o_deleted o = false /\ o_status o = st;
  pl_job nx : nextStatusMap st = Some nx -> waiting (w_queue w) !! job_id id nx = Some (id, nx);
  pl_later st' : st' ∈ later st -> job_id id st' ∉ known (w_queue w);
}.

Lemma save_status_ok o st w :
  reliable -> exists w', save_status o st w = (Ok tt, w') /\ Order_update_status (w_db w) (o_id o) st = Some (w_db w') /\ w_queue w' = w_queue w.
Proof.
  intros Hr. destruct (update_ok Hr (w_db w) (o_id o) st) as [s Hs]. unfold save_status, execute, order_afterUpdate, invalidateOrderCache, mbind, M_bind.
  rewrite Hs. destruct (redis_del _ _); by eexists.
Qed.

Lemma schedule_new id st nx w :
  reliable -> nextStatusMap st = Some nx -> job_id id nx ∉ known (w_queue w) ->
  exists q, scheduleStatusUpdateJob id (Some st) w = (Ok tt, set_queue q w) /\
    waiting q = <[job_id id nx := (id, nx)]> (waiting (w_queue w)) /\ known q = {[job_id id nx]} ∪ known (w_queue w).
Proof.
  intros Hr Hn Hk. unfold scheduleStatusUpdateJob. cbn [mbind option_bind]. rewrite Hn.
  destruct (add_ok Hr (w_queue w) (job_id id nx) (id, nx)) as [q Hq]. rewrite Hq. exists q. split; [done|].
  pose proof (add_spec _ _ _ _ Hq) as Ha. by rewrite decide_False in Ha.
Qed.

Lemma run_job_advances id st nx w :
  reliable -> pipeline id st w -> nextStatusMap st = Some nx -> exists w', run_job (job_id id nx) w = (Ok tt, w') /\ pipeline id nx w'.
Proof.
  intros Hr [(o & Ho & Hid & Hd & Hst) Hjob Hlater] Hn. destruct (next_facts st nx Hn) as (Hc & Hdv & Hne & Hnx).
  unfold run_job. rewrite (Hjob nx Hn). unfold statusProcessor, query.
  destruct (find_ok Hr (w_db w) true id) as [r Hfind]. pose proof (findByPk_spec _ _ _ _ Hfind) as Hspec. rewrite Ho in Hspec. cbn in Hspec.
  rewrite Hd in Hspec. subst r. destruct (save_status_ok o nx w Hr) as (w1 & Hsave & Hupd & Hq1). rewrite Hid in Hupd.
  apply update_status_spec in Hupd as (_ & Ho1 & _).
  unfold mbind at 1, M_bind. rewrite Hfind. cbn [await mret M_ret]. rewrite Hd, Hst, bool_decide_false by done. cbn [orb].
  rewrite !decide_False by done. unfold mbind, M_bind. rewrite Hsave.
  assert (Hord : exists o', orders (w_db w1) !! id = Some o' /\ o_id o' = id /\ o_deleted o' = false /\ o_status o' = nx).
  { exists (with_status nx o). rewrite Ho1, lookup_alter_eq, Ho. done. }
  destruct Hnx as [[-> Hl]|(nx2 & Hn2 & Hnd & Hn2x & Hl & Hnot)].
  - rewrite decide_True by done. eexists. split; [done|]. split; [done|done|]. rewrite Hl. by intros ? ?%elem_of_nil.
  - rewrite decide_False by done. destruct (schedule_new id nx nx2 w1 Hr Hn2) as (q & -> & Hw & Hk).
    { rewrite Hq1. apply Hlater. rewrite Hl. by left. }
    eexists. split; [done|]. destruct (complete_spec q (job_id id nx)) as [Hcw Hck]. split; [done|..]; cbn [w_queue set_queue].
    + intros nx' Hnx'. simplify_eq. rewrite Hcw, Hw, lookup_delete_ne, lookup_insert_eq; [done|]. by intros ->%job_id_inj.
    + intros st' Hst'. rewrite Hck, Hk, Hq1. intros [->%elem_of_singleton%job_id_inj|Hin]%elem_of_union; [done|].
      apply (Hlater st'); [|done]. rewrite Hl. by right.
Qed.

Definition unknown (id : Z) w : Prop := forall st, job_id id st ∉ known (w_queue w).

Lemma invalidate_queue id w r w' : invalidateOrderCache id w = (r, w') -> w_queue w' = w_queue w.
Proof. unfold invalidateOrderCache. destruct (redis_del _ _); by intros [= <- <-]. Qed.

(** The job of a new order is added once, before or after the commit. *)
Lemma background_new id w r w' :
  reliable -> unknown id w -> background (scheduleStatusUpdateJob id (Some pending)) w = (r, w') ->
  waiting (w_queue w') = <[job_id id processing := (id, processing)]> (waiting (w_queue w)) /\
  known (w_queue w') = {[job_id id processing]} ∪ known (w_queue w).
Proof.
  intros Hr Hu Hrun. destruct (schedule_new id pending processing w Hr eq_refl (Hu processing)) as (q & Hs & Hw & Hk).
  unfold background, try_catch in Hrun. rewrite Hs in Hrun. by injection Hrun as <- <-.
Qed.

Lemma background_again id w r w' :
  job_id id processing ∈ known (w_queue w) -> background (scheduleStatusUpdateJob id (Some pending)) w = (r, w') ->
  waiting (w_queue w') = waiting (w_queue w) /\ known (w_queue w') = known (w_queue w).
Proof.
  intros Hk Hrun. unfold background, try_catch, scheduleStatusUpdateJob in Hrun. cbn [mbind option_bind nextStatusMap] in Hrun.
  destruct (queue_add _ _ _) as [q|] eqn:Hq; injection Hrun as <- <-; [|done]. pose proof (add_spec _ _ _ _ Hq) as Ha.
  by rewrite decide_True in Ha.
Qed.

Lemma place_order_queue items customer_id w o t w' :
  reliable -> place_order items customer_id (w_db w) w = (Ok (o, t), w') -> unknown (o_id o) w ->
  waiting (w_queue w') = <[job_id (o_id o) processing := (o_id o, processing)]> (waiting (w_queue w)) /\
  known (w_queue w') = {[job_id (o_id o) processing]} ∪ known (w_queue w).
Proof.
  unfold place_order. intros Hr Hb Hu. destruct items as [its|]; [|done]. run Hb. injection Hm as <- <-. run Hb. run Hm.
  rename a0 into ps. pose proof (findAll_spec _ _ _ Hm) as Hps.
  assert (Hf : found (w_db w) ps) by (intros p Hin; by apply Hps in Hin as (_ & Hp)).
  run Hb. apply (check_items_inv _ _ _ _ _ _ Hf) in Hm0 as [-> _].
  run Hb. run Hm0. destruct a1 as [o1 t1]. apply create_spec in Hm0 as (Hfresh & Ho & _).
  run Hb. unfold order_afterCreate in Hm0. run Hm0. pose proof (invalidate_queue _ _ _ _ Hm1) as Hq1. apply hook_inv in Hm1 as [Hw1 _].
  assert (Hst : o_status o1 = pending) by by rewrite Ho. rewrite Hst in Hm0. pose proof (frame_inv _ _ _ _ (frame_background _ _) Hm0) as Hw2.
  run Hb. destruct a2 as [total t2]. apply (create_items_inv _ _ _ _ _ _ _ _ _ Hf) in Hm1 as [-> _]; [|by rewrite Hw2, Hw1].
  run Hb. run Hm1. clear Hm1. run Hb. apply invalidate_queue in Hm1. injection Hb as <- <- <-. cbn [o_id with_total] in *. rewrite Hm1, <- Hq1.
  eapply background_new; [done| |done]. intros st. by rewrite Hq1.
Qed.

Lemma createOrder_pipeline items customer_id w resp o w' msg :
  reliable -> createOrder (json := json) items customer_id w = (Ok resp, w') -> code resp = 201 -> content resp = MessageOrder msg o ->
  unknown (o_id o) w -> pipeline (o_id o) pending w'.
Proof.
  intros Hr Hrun Hc Hmsg Hu. destruct (createOrder_inv _ _ _ _ _ Hrun) as (resp' & [= <-] & [[Hc' _]|(_ & its & o' & _ & Hmsg' & Hpl)]); [congruence|].
  rewrite Hmsg in Hmsg'. injection Hmsg' as _ <-. destruct Hpl as [_ _ (_ & Ho & _)].
  assert (Hq : known (w_queue w') = {[job_id (o_id o) processing]} ∪ known (w_queue w) /\
    waiting (w_queue w') = <[job_id (o_id o) processing := (o_id o, processing)]> (waiting (w_queue w))).
  { unfold createOrder in Hrun. run Hrun; [|injection Hrun as <- <-; by cbn in Hc]. run Hrun. unfold transaction in Hm. run Hm. run Hm0.
    apply begin_spec in Hm0 as ->. run Hm. destruct a1 as [o1 t]. run Hm. run Hm1. injection Hm as <- <-. run Hrun.
    apply respond_inv in Hrun as [-> [= ->]]. cbn in Hmsg. injection Hmsg as _ ->.
    destruct (place_order_queue _ _ _ _ _ _ Hr Hm0 Hu) as [Hw Hk].
    assert (Hin : job_id (o_id o) processing ∈ known (w_queue (set_db s w1))) by (cbn; rewrite Hk; by apply elem_of_union_l, elem_of_singleton).
    destruct (background_again _ _ _ _ Hin Hm) as [Hw' Hk'].
    cbn in Hw', Hk'. by rewrite Hw', Hk'. }
  destruct Hq as [Hk Hw]. split.
  - eexists. split; [by rewrite Ho, lookup_insert_eq|done].
  - intros nx [= <-]. by rewrite Hw, lookup_insert_eq.
  - intros st' Hst'. rewrite Hk. intros [->%elem_of_singleton%job_id_inj|Hin]%elem_of_union; [|by apply (Hu st')].
    cbn in Hst'. apply elem_of_cons in Hst' as [?|[?|Hn]%elem_of_cons]; [done|done|by apply elem_of_nil in Hn].
Qed.



(** ** The stock *)

Lemma wanted_one pid its :
  NoDup (r_product <$> its) -> lsum (wanted pid) its = match find (fun it => r_product it =? pid) its with Some it => r_quantity it | None => 0 end.
Proof.
  induction its as [|it its IH]; [done|]. rewrite fmap_cons, NoDup_cons, lsum_cons. intros [Hn Hnd]. cbn [find]. unfold wanted at 1.
  destruct (Z.eqb_spec (r_product it) pid) as [Heq|Hne]; [|by rewrite bool_decide_false, IH].
  rewrite bool_decide_true by done. enough (lsum (wanted pid) its = 0) by lia. rewrite IH by done.
  destruct (find _ its) as [it'|] eqn:Hf; [|done]. apply find_some in Hf as [Hin Heq'%Z.eqb_eq]. destruct Hn.
  rewrite Heq, <- Heq'. by apply list_elem_of_fmap_2, list_elem_of_In.
Qed.


(** ** Restoring *)

Definition queue_frame {A} (m : M A) : Prop := forall w, w_queue (m w).2 = w_queue w.

Lemma queue_bind {A B} (m : M A) (k : A -> M B) : queue_frame m -> (forall a, queue_frame (k a)) -> queue_frame (x ← m; k x).
Proof. intros Hm Hk w. unfold mbind, M_bind. specialize (Hm w). destruct (m w) as [[a|e] w1]; [|done]. by rewrite Hk. Qed.

Lemma queue_try {A} (m : M A) h : queue_frame m -> (forall e, queue_frame (h e)) -> queue_frame (try_catch m h).
Proof. intros Hm Hk w. unfold try_catch. specialize (Hm w). destruct (m w) as [[a|e] w1]; [done|]. by rewrite Hk. Qed.

Lemma queue_await {A} (o : option A) : queue_frame (await o : M A).
Proof. by destruct o. Qed.

Lemma queue_query {A} (q : db -> option A) : queue_frame (query q : M A).
Proof. intros w. apply queue_await. Qed.

Lemma queue_execute q : queue_frame (execute q : M unit).
Proof. intros w. unfold execute. by destruct (q (w_db w)). Qed.

Lemma queue_invalidate id : queue_frame (invalidateOrderCache id : M unit).
Proof. intros w. unfold invalidateOrderCache. by destruct (redis_del _ _). Qed.

Ltac queue_frames :=
  repeat first [apply queue_try | apply queue_bind | apply queue_await | apply queue_query | apply queue_execute | apply queue_invalidate
               | done | intro].

Lemma restoreOrder_queue id : queue_frame (restoreOrder (json := json) id : M _).
Proof.
  assert (Hinc : forall sign items t, queue_frame (increment_items sign items t : M db)).
  { intros sign items. induction items as [|i items IH]; intros t; cbn [increment_items]; queue_frames. }
  assert (Hres : forall items t, queue_frame (restore_items items t : M db)).
  { intros items. induction items as [|i items IH]; intros t; cbn [restore_items]; queue_frames. }
  apply queue_bind; [apply queue_query|]. intros t. apply queue_try; [|intros e; queue_frames].
  apply queue_bind; [apply queue_await|]. intros z. apply queue_bind; [apply queue_await|]. intros [[o items]|]; [|queue_frames].
  destruct (negb _); [queue_frames|]. queue_frames.
Qed.

(** C39: restoring an order never schedules a job, although its answer says
    that the status updates are re-scheduled: the call passes no status. *)
Theorem restoreOrder_schedules_nothing id w : w_queue (restoreOrder (json := json) id w).2 = w_queue w.
Proof. apply restoreOrder_queue. Qed.

End Life.

(** ** Examples *)



Lemma shop0_reliable : reliable (db := tables) (queue := jobs).
Proof. split; intros; cbn; try by eexists. case_decide; by eexists. Qed.


(** An order that was accepted, deleted and is now restored. *)
Lemma restoreOrder_schedules_nothing_witness :
  let w := (softDeleteOrder "1" (createOrder (Some [lamps 2]) 7 shop0).2).2 in
  (exists o, (restoreOrder "1" w).1 = Ok {| code := 200; content := MessageOrder "Order restored and status updates re-scheduled." o |}) /\
  w_queue (restoreOrder "1" w).2 = w_queue w.
Proof.
  cbv zeta. split; [eexists; by vm_compute|apply restoreOrder_schedules_nothing].
Defined.


End ShopLife.
