(* ===== verification/Customers.v ===== *)
(** * Customers and authentication
    (src/controllers/customerController.js, src/controllers/authController.js,
    src/middlewares/authMiddleware.js, src/hooks/customerHooks.js)

    Registration, login, the middleware that checks a token, and the handlers
    of the customer routes.  Sequelize, bcrypt and jsonwebtoken are the
    classes [CustomerTable], [Bcrypt] and [Jwt]; their calls may be rejected,
    and the laws state what their documentation promises.  The ids of the
    routes are integers, which the validators check. *)

From stdpp Require Import gmap strings pretty.
From S2P Require Import Prelude.

Module Customers.

(** ** Values and libraries *)

Record customer := { c_id : Z; c_name : string; c_email : string; c_password : string; c_deleted : bool }.

(** The fields of a request; an absent one is not changed. *)
Record fields := { f_name : option string; f_email : option string; f_password : option string }.

Inductive created (table : Type) := Created (c : customer) (t : table) | UniqueConstraint | CreateRejected.
Arguments Created {table} _ _.
Arguments UniqueConstraint {table}.
Arguments CreateRejected {table}.

Class CustomerTable (table : Type) := {
  customers : table -> gmap Z customer;
  (** the property [deleted_at] of an instance *)
  deleted_at : customer -> bool;
  Customer_findByPk : table -> bool -> Z -> option (option customer);
  Customer_findOne : table -> bool -> string -> option (option customer);
  Customer_create : table -> string -> string -> string -> created table;
  Customer_save : table -> customer -> option table;
  Customer_destroy : table -> Z -> option table;
  Customer_restore : table -> Z -> option table;
  Customer_undelivered : table -> Z -> option Z;
}.

Definition with_deleted (b : bool) (c : customer) : customer :=
  {| c_id := c_id c; c_name := c_name c; c_email := c_email c; c_password := c_password c; c_deleted := b |}.

Definition visible (paranoid : bool) (c : customer) : bool := negb (paranoid && c_deleted c).

Class CustomerLaws (table : Type) `{CustomerTable table} := {
  findByPk_spec t paranoid id r :
    Customer_findByPk t paranoid id = Some r -> r = (c ← customers t !! id; if visible paranoid c then Some c else None);
  findOne_spec t paranoid email r :
    Customer_findOne t paranoid email = Some r ->
    match r with
    | Some c => customers t !! c_id c = Some c /\ c_email c = email /\ visible paranoid c = true
    | None => forall id c, customers t !! id = Some c -> c_email c = email -> visible paranoid c = false
    end;
  create_spec t name email password c t' :
    Customer_create t name email password = Created c t' ->
    customers t !! c_id c = None /\
    c = {| c_id := c_id c; c_name := name; c_email := email; c_password := password; c_deleted := false |} /\
    customers t' = <[c_id c := c]> (customers t);
  save_spec t c t' : Customer_save t c = Some t' -> customers t' = <[c_id c := c]> (customers t);
  destroy_spec t id t' : Customer_destroy t id = Some t' -> customers t' = alter (with_deleted true) id (customers t);
  restore_spec t id t' : Customer_restore t id = Some t' -> customers t' = alter (with_deleted false) id (customers t);
}.

(** A hash depends on a random salt. *)
Class Bcrypt := {
  bcrypt_hash : Z -> string -> string;
  bcrypt_compare : string -> string -> bool;
}.

Class BcryptLaws `{Bcrypt} := {
  compare_hash salt password : bcrypt_compare password (bcrypt_hash salt password) = true;
}.

(** The payload of a token is the id and the email. *)
Class Jwt := {
  jwt_sign : Z * string -> string;
  jwt_verify : string -> option (Z * string);
}.

Definition space : Ascii.ascii := Ascii.ascii_of_nat 32.

Fixpoint no_space (s : string) : bool :=
  match s with EmptyString => true | String c s => negb (Ascii.eqb c space) && no_space s end.

(** A fresh token is valid; tokens are base64url strings and dots. *)
Class JwtLaws `{Jwt} := {
  verify_sign payload : jwt_verify (jwt_sign payload) = Some payload;
  token_no_space payload : no_space (jwt_sign payload) = true;
}.

(** ** Handlers *)

Inductive body :=
  | Error (message : string)
  | Message (message : string)
  | MessageCustomer (message : string) (c : customer)
  | CustomerJson (c : customer)
  | Token (message token : string)
  | Next (c : customer).

Record response := { code : Z; content : body }.

(** A string that JavaScript takes for true. *)
Definition truthy (s : option string) : option string := match s with Some EmptyString => None | _ => s end.

Section Handlers.
Context {table : Type} `{CustomerTable table} `{Bcrypt} `{Jwt}.
(** The random salts of the calls of bcrypt. *)
Context (salt : Z).

Abbreviation result := (response * table)%type.
Definition answer (t : table) (c : Z) (b : body) : result := ({| code := c; content := b |}, t).

(** [beforeCreate] hashes the password. *)
Definition customer_create (t : table) (name email password : string) : created table :=
  Customer_create t name email (if String.eqb password "" then password else bcrypt_hash salt password).

Definition registerCustomer (name email password : option string) (t : table) : result :=
  match truthy name, truthy email, truthy password with
  | Some name, Some email, Some password =>
      match Customer_findOne t false email with
      | None => answer t 500 (Error "Server error")
      | Some (Some existing) =>
          if deleted_at existing then answer t 400 (Error "This email was previously used and deleted. Try restoring the account.")
          else answer t 400 (Error "Email already registered. Try logging in!")
      | Some None =>
          match customer_create t name email password with
          | Created c t => answer t 201 (MessageCustomer "Customer registered successfully" c)
          | UniqueConstraint => answer t 400 (Error "Email already exists, try a different email")
          | CreateRejected => answer t 500 (Error "Server error")
          end
      end
  | _, _, _ => answer t 400 (Error "All fields are required")
  end.

Definition loginCustomer (email password : option string) (t : table) : result :=
  match truthy email, truthy password with
  | Some email, Some password =>
      match Customer_findOne t true email with
      | None => answer t 500 (Error "Server error")
      | Some None => answer t 400 (Error "Invalid email")
      | Some (Some c) =>
          if bcrypt_compare password (c_password c) then answer t 200 (Token "Login successful!" (jwt_sign (c_id c, c_email c)))
          else answer t 400 (Error "Invalid password")
      end
  | _, _ => answer t 400 (Error "Email and password are required")
  end.

(** [authHeader.split(' ')[1]], the part after the first space. *)
Fixpoint until_space (s : string) : string :=
  match s with EmptyString => "" | String c s => if Ascii.eqb c space then "" else String c (until_space s) end.
Fixpoint second_part (s : string) : option string :=
  match s with EmptyString => None | String c s => if Ascii.eqb c space then Some (until_space s) else second_part s end.

Definition starts_with_bearer (h : string) : bool := String.prefix "Bearer " h.

(** [next()] is called with [req.customer], or the request is answered. *)
Definition authenticateCustomer (authorization : option string) (t : table) : response :=
  let failed m := {| code := 401; content := Error m |} in
  match truthy authorization with
  | None => failed "Authorization Failed! Invalid token / Missing token"
  | Some h =>
      if negb (starts_with_bearer h) then failed "Authorization Failed! Invalid token / Missing token"
      else
        match second_part h ≫= jwt_verify with
        | None => failed "Invalid or expired token"
        | Some (id, _) =>
            match Customer_findByPk t false id with
            | None => failed "Invalid or expired token"
            | Some None => failed "Customer not found"
            | Some (Some c) => {| code := 200; content := Next c |}
            end
        end
  end.

(** [replace('Bearer ', '')] removes the first occurrence. *)
Fixpoint without_bearer (s : string) : string :=
  if starts_with_bearer s then String.substring 7 (String.length s - 7) s
  else match s with EmptyString => EmptyString | String c s => String c (without_bearer s) end.

Definition allowSoftDeletedCustomer (authorization : option string) (t : table) : response :=
  match truthy (without_bearer <$> authorization) with
  | None => {| code := 401; content := Error "No token provided" |}
  | Some token =>
      match jwt_verify token with
      | None => {| code := 401; content := Error "Invalid token" |}
      | Some (id, _) =>
          match Customer_findByPk t false id with
          | Some (Some c) => {| code := 200; content := Next c |}
          | _ => {| code := 401; content := Error "Invalid token" |}
          end
      end
  end.

(** The handlers of the routes; [self] is [req.customer.id]. *)
Definition getCustomerById (self id : Z) (t : table) : result :=
  if negb (self =? id) then answer t 403 (Error "Access denied: Not your data")
  else
    match Customer_findByPk t true id with
    | None => answer t 500 (Error "Failed to fetch customer")
    | Some None => answer t 404 (Error "Customer not found")
    | Some (Some c) => answer t 200 (CustomerJson c)
    end.

(** [customer.update(...)], with [beforeUpdate] hashing a changed password. *)
Definition customer_update (c : customer) (f : fields) (t : table) : option (customer * table) :=
  let password :=
    match f_password f with
    | Some p => if String.eqb p (c_password c) then c_password c else bcrypt_hash salt p
    | None => c_password c
    end in
  let c := {| c_id := c_id c; c_name := default (c_name c) (f_name f); c_email := default (c_email c) (f_email f);
              c_password := password; c_deleted := c_deleted c |} in
  t ← Customer_save t c; Some (c, t).

Definition update_own (message : string) (self id : Z) (f : fields) (t : table) : result :=
  if negb (self =? id) then answer t 403 (Error "Access denied: Not your data")
  else
    match Customer_findByPk t true id with
    | None => answer t 500 (Error "Failed to update customer")
    | Some None => answer t 404 (Error "Customer not found")
    | Some (Some c) =>
        match customer_update c f t with
        | Some (c, t) => answer t 200 (MessageCustomer message c)
        | None => answer t 500 (Error "Failed to update customer")
        end
    end.

Definition updateCustomer : Z -> Z -> fields -> table -> result := update_own "Customer updated".
Definition patchCustomer : Z -> Z -> fields -> table -> result := update_own "Customer partially updated".

(** The condition of the count mentions [Op], which the file does not
    import: evaluating it throws before the query is made. *)
Definition op_not : option string := None.

Definition softDeleteCustomer (self id : Z) (t : table) : result :=
  let failed := answer t 500 (Error "Failed to delete customer") in
  if negb (self =? id) then answer t 403 (Error "Access denied: Not your data")
  else
    match Customer_findByPk t true id with
    | None => failed
    | Some None => answer t 404 (Error "Customer not found")
    | Some (Some c) =>
        match op_not ≫= (fun _ => Customer_undelivered t id) with
        | None => failed
        | Some n =>
            if 0 <? n then answer t 400 (Error "Customer has undelivered orders and cannot be deleted")
            else match Customer_destroy t id with
                 | Some t => answer t 200 (Message "Customer deleted successfully")
                 | None => failed
                 end
        end
    end.

Definition restoreCustomer (self id : Z) (t : table) : result :=
  if negb (id =? self) then answer t 403 (Error "Access denied: You can only restore your own account")
  else
    match Customer_findByPk t false id with
    | None => answer t 500 (Error "Failed to restore customer")
    | Some None => answer t 404 (Message "Customer not found")
    | Some (Some c) =>
        match Customer_restore t id with
        | Some t => answer t 200 (MessageCustomer "Customer restored successfully" (with_deleted false c))
        | None => answer t 500 (Error "Failed to restore customer")
        end
    end.

End Handlers.

(** ** Theorems *)

Lemma until_no_space s : no_space s = true -> until_space s = s.
Proof. induction s as [|c s IH]; [done|]. cbn. destruct (Ascii.eqb c space); cbn; [done|]. intros Hs. by rewrite IH. Qed.

Lemma bearer_truthy s : truthy (Some ("Bearer " +:+ s)) = Some ("Bearer " +:+ s).
Proof. reflexivity. Qed.

Lemma bearer_prefix s : starts_with_bearer ("Bearer " +:+ s) = true.
Proof. by destruct s. Qed.

Lemma bearer_second s : second_part ("Bearer " +:+ s) = Some (until_space s).
Proof. reflexivity. Qed.

Section Theorems.
Context {table : Type} `{CustomerLaws table} `{BcryptLaws} `{JwtLaws}.
#[local] Set Default Proof Using "Type*".

(** The customer that registered, and only that one, has the email. *)
Lemma register_inv salt name email password t resp t' :
  registerCustomer salt name email password t = (resp, t') -> code resp = 201 ->
  exists n e p c, name = Some n /\ email = Some e /\ password = Some p /\ e <> "" /\ p <> "" /\
    c = {| c_id := c_id c; c_name := n; c_email := e; c_password := bcrypt_hash salt p; c_deleted := false |} /\
    customers t !! c_id c = None /\ customers t' = <[c_id c := c]> (customers t) /\
    forall id d, customers t !! id = Some d -> c_email d <> e.
Proof.
  unfold registerCustomer. intros Hrun Hc. destruct (truthy name) as [n|] eqn:Hn; [|by injection Hrun as <- _].
  destruct (truthy email) as [e|] eqn:He; [|by injection Hrun as <- _]. destruct (truthy password) as [p|] eqn:Hp; [|by injection Hrun as <- _].
  assert (Htr : forall s x, truthy s = Some x -> s = Some x /\ x <> "") by (intros [[|a x']|] x Hx; cbn in Hx; by simplify_eq).
  apply Htr in Hn as [-> _], He as [-> Hne], Hp as [-> Hnp].
  destruct (Customer_findOne t false e) as [[ex|]|] eqn:Hf; [destruct (deleted_at ex); by injection Hrun as <- _| |by injection Hrun as <- _].
  apply findOne_spec in Hf. unfold customer_create in Hrun. rewrite (proj2 (String.eqb_neq p "")) in Hrun by done.
  destruct (Customer_create _ _ _ _) as [c t1| |] eqn:Hcr; [|by injection Hrun as <- _..]. injection Hrun as <- <-.
  apply create_spec in Hcr as (Hfresh & Heq & Ht). exists n, e, p, c. repeat (split; [done|]). intros id d Hd Hed. by specialize (Hf id d Hd Hed).
Qed.


(** The route that deletes a customer never does: the condition of its query
    uses a name that is not defined. *)
Lemma softDeleteCustomer_never_deletes self id t :
  exists resp, softDeleteCustomer self id t = (resp, t) /\ (code resp = 403 \/ code resp = 404 \/ code resp = 500).
Proof.
  unfold softDeleteCustomer. destruct (negb _); [eexists; by auto|]. destruct (Customer_findByPk t true id) as [[c|]|]; eexists; by auto.
Qed.

End Theorems.

(** ** An example *)

Definition find_email (paranoid : bool) (email : string) (m : gmap Z customer) : option customer :=
  snd <$> head (map_to_list (base.filter (fun kc => kc.1 = c_id kc.2 /\ c_email kc.2 = email /\ visible paranoid kc.2 = true) m)).

Definition next_customer (m : gmap Z customer) : Z := map_fold (fun k _ n => Z.max (k + 1) n) 1 m.

#[export] Instance map_table : CustomerTable (gmap Z customer) := {|
  customers := fun m => m;
  deleted_at := fun _ => false;
  Customer_findByPk := fun m paranoid id => Some (c ← m !! id; if visible paranoid c then Some c else None);
  Customer_findOne := fun m paranoid email =>
    match find_email paranoid email m with
    | Some c => Some (Some c)
    | None => if decide (map_Forall (fun k c => k = c_id c) m) then Some None else None
    end;
  Customer_create := fun m name email password =>
    let c := {| c_id := next_customer m; c_name := name; c_email := email; c_password := password; c_deleted := false |} in
    if decide (m !! c_id c = None) then Created c (<[c_id c := c]> m) else CreateRejected;
  Customer_save := fun m c => Some (<[c_id c := c]> m);
  Customer_destroy := fun m id => Some (alter (with_deleted true) id m);
  Customer_restore := fun m id => Some (alter (with_deleted false) id m);
  Customer_undelivered := fun _ _ => Some 0;
|}.

#[export] Instance map_table_laws : CustomerLaws (gmap Z customer).
Proof.
  split; cbn.
  - by intros m paranoid id r [= <-].
  - intros m paranoid email r. unfold find_email. set (f := base.filter _ m). destruct (map_to_list f) as [|[k c] l] eqn:Hl; cbn.
    + apply map_to_list_empty_iff in Hl. case_decide as Hk; [|done]. intros [= <-] id c Hc He. apply not_true_is_false. intros Hv.
      assert (Hf : f !! id = Some c) by (apply map_lookup_filter_Some; split; [done|]; split; [by apply Hk|done]). by rewrite Hl, lookup_empty in Hf.
    + assert (Hf : f !! k = Some c) by (apply elem_of_map_to_list; rewrite Hl; by left).
      apply map_lookup_filter_Some in Hf as (Hc & Hk & He & Hv). cbn in *. subst k. by intros [= <-].
  - intros m name email password c m'. case_decide as Hn; [|done]. by intros [= <- <-].
  - by intros m c m' [= <-].
  - by intros m id m' [= <-].
  - by intros m id m' [= <-].
Qed.

#[export] Instance plain_bcrypt : Bcrypt := {|
  bcrypt_hash := fun _ p => "#" +:+ p;
  bcrypt_compare := fun p h => String.eqb h ("#" +:+ p);
|}.

#[export] Instance plain_bcrypt_laws : BcryptLaws.
Proof. split. intros salt p. apply String.eqb_refl. Qed.

(** Tokens of bits. *)
Definition zero_char : Ascii.ascii := Ascii.ascii_of_nat 48.
Definition one_char : Ascii.ascii := Ascii.ascii_of_nat 49.

Fixpoint bits (p : positive) : string :=
  match p with xH => "" | xO p => String zero_char (bits p) | xI p => String one_char (bits p) end.
Fixpoint of_bits (s : string) : positive :=
  match s with EmptyString => xH | String c s => if Ascii.eqb c one_char then xI (of_bits s) else xO (of_bits s) end.

Lemma of_bits_bits p : of_bits (bits p) = p.
Proof. induction p as [p IH|p IH|]; cbn; by rewrite ?IH. Qed.

#[export] Instance bits_jwt : Jwt := {| jwt_sign := fun payload => bits (encode payload); jwt_verify := fun s => decode (of_bits s) |}.

#[export] Instance bits_jwt_laws : JwtLaws.
Proof.
  split; intros payload; cbn; [by rewrite of_bits_bits, decode_encode|]. by induction (encode payload).
Qed.


End Customers.
